(* ===== verification/_CoqProject ===== *)
-Q . S2P
Prelude.v
Postgres.v
Crc.v
Float.v
Delta.v
Gorilla.v
Dictionary.v
Rle.v
Codec.v
Columnar.v
Vector.v
VectorScan.v
JitExpr.v
Jit.v
Workload.v
Governor.v
CText.v
Cron.v
Stream.v
Task.v
Workflow.v
Hypertable.v
ContinuousAgg.v
Jwt.v
AuthCache.v
S3.v
Tiered.v
Executor.v
Results.v
TwoPhase.v
Hll.v
Sampling.v
Sharding.v
Nodes.v
RaftLog.v
Raft.v
RaftCluster.v
RaftRpc.v
RaftTx.v
RaftSql.v
