(* ===== verification/Prelude.v ===== *)
(** * Verification of the Orochi DB PostgreSQL extension

    Orochi DB is a PostgreSQL extension written in C
    ([src/extensions/postgres/src]; file names below are relative to it): sharded
    tables, columnar storage with per-column compression, a vectorized executor
    with an expression compiler for scanning it, and a Raft cluster that replicates
    a log of commands.  This library models the code of these parts as executable
    functions on explicit states and proves what they do, including where they do
    not do what they mean to.

    ** Parts of the program and files of the library

    Compression, [storage/compression.c].  A chunk of a column is turned into
    bytes by one of eight codecs.  [Delta] is zigzag, varint and delta encoding,
    [Gorilla] the XOR encoding of doubles, [Dictionary] the string dictionary with
    its hash table, [Rle] run lengths.  [Codec] is the dispatch of
    [storage/columnar.c] over them; LZ4, ZSTD and PGLZ, whose code is elsewhere,
    are the parameters [ExternalCodec] with the round trip they document.

    Columnar storage, [storage/columnar.c] with the stripe and chunk tables of
    [core/catalog.c]: [Columnar].  A writing session ([ColumnarWriteState]) buffers
    rows, turns them into a chunk per column, and flushes stripes into the
    [Catalog]; a scan ([ColumnarReadState]) loads chunk groups through [Codec] and
    returns rows.  Skip lists decide from minimum and maximum which chunks a
    query reads, here and in [executor/vectorized_scan.c].

    Execution, [executor/vectorized.c]: [Vector].  A [VectorBatch] has columns of
    bytes with their null bitmaps and a selection vector; filters and aggregates
    exist with and without AVX2, and [avx2] chooses.  [executor/vectorized_scan.c]
    is [VectorScan]: how the values of chunks fill a batch, how the predicates of a
    plan are applied, and how the scan hands out tuples.  [Float] has the numbers of
    [double] and [float], their bits and conversions.

    Compilation of expressions, [jit/jit_expr.c]: [JitExpr], the expression trees,
    their evaluator, constant folding and the translation of PostgreSQL's nodes.
    [jit/jit_compile.c] and [jit/jit.c]: [Jit], the filters and aggregates the
    compiler selects, their templates, and the cache of compiled expressions.

    Sharding, [sharding/distribution.c], [sharding/physical_sharding.c], the shard
    rows of [core/catalog.c] and the pruning of [planner/distributed_planner.c]:
    [Sharding].  [ShardCatalog] is the tables of shards, nodes and moves, [Tables]
    the parent table and its shard tables.  Hash values come from [Crc], which
    also has the checksum of the Raft log.

    Consensus, [consensus/raft_log.c]: [RaftLog], the entry array, its write-ahead
    log and snapshots; [consensus/raft.c]: [Raft], one node and its handlers;
    [RaftCluster], many nodes over a network; [RaftRpc], the functions that call the peers
    one after the other, from [raft_tick] on, given what each call comes back with.
    [consensus/raft_integration.c]: [RaftTx], the state that processes share, the table of
    submitted transactions and a round of the worker; [RaftSql], the SQL functions, and the
    transfer of a snapshot from one node to another.

    Distributed execution, [executor/distributed_executor.c]: [Executor] is the pool of
    connections to workers, the remote tasks of a plan and the two loops that run them,
    adaptively or in parallel; [Results] the merger and the stream of their rows, partial
    aggregates and the cache of results; [TwoPhase] the transactions over several workers.
    What libpq and the workers answer is the interface [Libpq], whose functions are given
    all calls made before.

    Workload management, [workload/workload.c]: [Workload].  Pools, classes, the queue
    and the table of sessions are one [WorkloadSharedState]; [World] adds the counters
    that each process keeps, and [run] what many processes do in turn.
    [workload/resource_governor.c]: [Governor], the limits of each session.

    Workflow automation, the statements of [ddl/]: [Task] and [Cron] are
    [ddl/ddl_task.c], scheduled commands with their catalog rows and the calendar
    search of a cron schedule, [Stream] is [ddl/ddl_stream.c], change streams over a
    table, [Workflow] is [ddl/ddl_workflow.c], the steps of a workflow and its runs.
    [CText] has what these parsers use of C: blanks, keywords, numbers.

    Time series, [timeseries/hypertable.c] with its tables of [core/catalog.c]:
    [Hypertable], the buckets of timestamps, the chunks of a hypertable with their
    compression, and the policies that maintain them, on a [Database] of catalog rows and
    relations; [ContinuousAgg], continuous aggregates and their log of invalidations.

    Authentication.  [auth/jwt.c]: [Jwt], web tokens from base64url to the settings of a
    session; OpenSSL is the interface [Crypto], jsonb the interface [Jsonb].
    [auth/auth_cache.c]: [AuthCache], the tables in shared memory for tokens, sessions,
    signing keys and rate limits, and the rounds of the workers that tend them.

    Tiered storage.  [tiered/tiered_storage.c] up to its configuration and
    [tiered/s3_multipart.c]: [S3], the client of an object store; what the store answers is
    the interface [Http], a function of the requests made before.  The rest of
    [tiered/tiered_storage.c]: [Tiered], the file of a chunk, its way between the tiers and
    the policies, over [S3] and the [Database] of [Hypertable]; [Nodes], the functions that
    add, remove and drain nodes and rebalance, over the catalog of [Sharding].

    Approximate aggregates.  [approx/hyperloglog.c]: [Hll], the sketches that count
    distinct values, from the hash function to the SQL aggregate and its parallel form.
    [approx/sampling.c]: [Sampling], the random numbers of a backend, Bernoulli and
    reservoir samples.

    The parts meet in few places.  [Columnar] calls [Codec], [VectorScan] reads the
    chunks of [Columnar]'s reader into the batches of [Vector], [Jit] filters the
    same batches, [Sharding] hashes with [Crc] as [RaftLog] does, [Raft] works on the
    log of [RaftLog], [Governor] reads the limits of the pools of [Workload], and
    [Results] and [TwoPhase] get their connections from the pool of [Executor], and
    [Task] schedules with [Cron] and asks [Stream] whether a stream has data.

    [Prelude] has what the files share: outcomes of C code, machine integers,
    little-endian bytes, lists and the tactics; [Postgres] the values of columns.

    ** How the code is modelled

    A C function is a function of the same name.  What it reads and changes is an
    argument and a component of its result; what it may do besides returning is
    the type [outcome]: raise an error, run into undefined behaviour, or loop
    forever.  Integers are [Z] in the range of their type, and the conversions
    [u8] to [u64] and [i16] to [i64] stand where C wraps around.  Memory is a list
    of bytes, an output buffer its size and the bytes written; reading behind an
    input, where the code does so, is reading a list that says what is there.
    Structures are records with the fields that matter; a table of the catalog is
    a list of rows.  What the code gets from outside, the clock, random timeouts,
    padding bytes, uninitialised memory, PostgreSQL's hash and varlena functions,
    is a parameter.

    Loops over data are structural.  The others take fuel: a varint has at most
    ten bytes, an [int32] doubles at most 32 times before it is zero for good, a
    probe of the dictionary sees each of the 1024 slots once or goes on forever,
    recovery of a log reads at least 24 bytes of the file in each step, and a scan
    needs one call per row and one for the end.  The parsers of [ddl/] consume a
    character in each step, so their fuel is the length of the text and one more; the
    search of a cron schedule has the bound of the code, of which at most five rounds are
    needed.  A random integer is drawn again while
    it is rejected, which no bound excludes: theorems speak of the runs that end.  That
    this is enough is part of the theorems, which state the result with such fuel,
    or for the endless probe that no fuel gives one.

    The step relation of [RaftCluster] has a step for each piece of code between
    two remote calls: a node in the loop over its peers of [raft_start_election]
    or [raft_replicate] is in a [Frame], answers nobody, and others move meanwhile.
    Requests are kept and may be received any number of times or never, an answer
    is used or taken as failed, and a node restarts from its files.

    Loops that wait for a time, as those of [raft_read_index] and
    [orochi_raft_wait_for_commit], are given the rounds they find, and end when one of them
    is past the deadline.  A snapshot is sent with fuel of one for each byte, as every chunk
    has at least one.

    ** What is shown

    Raft.  [election_safety]: a term has at most one leader, by an invariant that
    relates votes cast, votes stored on disk and votes counted.
    [raft_append_entries_merges] and [raft_update_commit_index_spec] say what an
    accepted request does to the log, and what a leader commits; a request from before a
    compaction is accepted and misplaced ([compacted_request_misplaced]).
    [raft_log_refines]: the array with its index arithmetic implements a plain
    sequence.  [tick_refines]: a call of [raft_tick] in a reachable cluster, with the steps
    that the other nodes take meanwhile, is a run of steps of the cluster, so that election
    safety is about the functions.  [snapshot_transfer_roundtrip]: what a
    leader sends is what the follower loads.  [wal_append_only_durable], [wal_torn_tail] and
    [wal_recovers_first_written]: what recovery finds in a write-ahead log, also
    in one cut short by a crash.  [wal_truncation_forgotten],
    [wal_compaction_loses_appends], [append_past_limit_undefined],
    [sql_append_keeps_log], [heartbeat_commits_unverified] and
    [snapshot_leaves_follower_behind] are the behaviours that break the promises
    of Raft.  Requests and snapshots have round trips.  [verified_commit_in_log] is what a
    transaction that was verified can rely on, [read_index_acknowledged] what a read can;
    [commit_verified_as_aborted], [applied_is_committed], [step_down_is_undone],
    [fresh_leader_reads_old_index] and [backend_reads_unconfirmed] are where transactions,
    changes of the leader and reads go wrong.

    Storage.  [columnar_session_roundtrip] for sessions of one chunk group: which
    sessions the statistics of a column let through, and what a scan finds then, a null of a
    fixed-width column as zero; [flush_repeats_last_group] for longer stripes.  [skip_sound]:
    entries with true bounds skip no row.  [zero_bounds_skip]: the entries of the program have
    none, and skip what is searched for; [skip_unsound_constant_first] and
    [vectorized_scan_skips_later_groups] are other ways to lose rows.
    Every codec has its round trip on the inputs it restores, proved against the
    interface [LosslessCodec], and the inputs on which it fails: raw delta blocks,
    clamped Gorilla windows, full dictionaries, runs that do not fit.

    Execution.  [simd_filters_agree]: comparisons of any number of lanes select the
    rows the scalar loop selects, NaN under [<>] apart ([nan_not_equal_differs]).
    [integer_aggregates_refine]: COUNT, SUM, MIN and MAX of 64-bit columns are those of SQL,
    under conditions that it names.  [predicates_conjoin]: the predicates
    of a scan, applied one after the other, select their conjunction, and
    [loaded_rows_read_back] that a loaded batch returns the values it was given.
    [scan_returns_first_1024]: a scan stops after its first batch.

    Compilation.  [jit_filter_sound] and [folded_filter_sound]: on expressions over [bigint]
    and [boolean] columns, as the two theorems describe them, the compiled tree accepts the
    rows SQL accepts, and folding changes nothing.  Around them stand the inputs on which it is not so,
    from [null_or_true_dropped] to [scalar_functions_crash].  [templates_exact],
    [compiled_filter_selects] and [jit_aggregates_agree] are about the specialised
    loops, [compile_keeps_cache] about the cache, and [jit_filter_ignores_constant]
    and [cache_collision_keeps_all_rows] about where both go wrong.

    Distributed execution.  [adaptive_execution_never_returns] and
    [parallel_execution_finishes] are about the two loops, the latter in spite of an array
    that moves while it is walked; its fuel is four attempts for each task and the polls
    that find a query busy.  [connection_not_shared]: a connection has one user at a time.
    [pushdown_refines] and [merger_returns_all_rows] are about results, and
    [streaming_returns_first_shard], [empty_shard_is_zero] and
    [colliding_queries_share_result] where they are lost or wrong.
    [invalidated_results_gone] is the invariant of the cache, [sixty_fifth_query_stale] its
    limit.  [two_phase_outcomes] ties each outcome of a transaction, and the commands
    sent by then, to the answers of the participants;
    [failed_prepare_leaves_prepared], [failed_commit_cannot_resume] and
    [prepare_misses_the_work] follow from it.

    Workload.  [workload_well_formed]: the invariant of the shared memory.
    [pool_never_reopens]: a pool that was full once admits nothing again, since no
    query is ever given back.  [dequeue_takes_first] and [register_session_found]: the
    order of the queue and the lookup of sessions.  [io_rate_bounded] and
    [memory_within_limit]: what the governor guarantees.  [pool_name_duplicated],
    [pool_ids_collide], [unregister_hides_sessions], [limits_forgotten] and others show
    where bookkeeping goes wrong.

    Workflow automation.  [cron_next_is_least]: the search finds the next minute of a
    schedule, [cron_five_rounds] how soon.  [create_task_parses] and
    [create_task_roundtrip]: a statement becomes the row of the catalog it writes.
    [task_catalog_well_formed] is the invariant of the rows, [third_failure_suspends] the
    state of a task that fails.  [workflows_never_succeed] and [streams_never_have_data]:
    a workflow of more than no steps fails, and a stream never triggers what waits for it.

    Time series.  [chunks_never_compressed]: compressing a chunk calls a function that
    PostgreSQL does not have, and always fails.  [no_chunk_in_range]: all chunks are empty
    ranges, so no query finds one.  [time_bucket_floor_iff] says for which timestamps a bucket is what it means to
    be, [maintenance_fails] that a due policy stops maintenance.

    Authentication.  [jwt_verify_sound]: an accepted token was signed and is within its
    times; [jwt_signed_is_accepted]: of what the module signs it accepts what was signed
    with HMAC-SHA-256, and nothing else, by [base64url_roundtrip].  [session_has_claims] and
    [nested_role_overrides] say what the settings of a session are.  [cached_token_found], [rate_limit_window_exact] and
    [session_limit_enforced] are what the caches promise, [cleanup_hides_token],
    [crowded_key_unlimited], [cleanup_lets_more_through], [user_keeps_more_than_limit] and
    [revocation_queue_does_nothing] where they do not.

    Tiered storage.  [upload_roundtrip]: from a store that keeps its contract an object is
    downloaded as it was uploaded, in one request or in parts, unless it reports an error in
    an answer of success ([unseen_error_is_success]); the contract is the relation
    [serves] between the contents of the store, a request and its answer, in which the store
    reads the list of the parts by itself ([requested_parts]).
    [cold_chunk_not_recalled] and [transition_to_cold_fails]: a chunk neither comes back
    from the object store nor gets there; [tiering_worker_idle] that none is ever sent.
    [drain_node_spreads] and [rebalancing_swings] are about moving shards off a node.

    Approximate aggregates.  [parallel_aggregate_agrees] and [estimate_of_set]: a sketch
    depends on the set of values only, however they are ordered and divided among
    workers, and not on where they are in memory ([aggregate_ignores_places]) unless their type
    has no hash function ([addresses_are_counted]).  [reservoir_sample_uniform]: Algorithm R on the flat arrays gives each row the
    same share of the outcomes, [random_int_unbiased] that its numbers are uniform;
    [combine_repeats_values] and [small_estimates_halved] where the results are not what
    they mean to be.

    Sharding.  [shard_ranges_partition]: the ranges of a new table cover each hash
    value once.  [routing_preserves_placement] and [pruning_sound]: rows stay in
    the shard of their key, and a pruned query finds them, if its constants have the type
    of the column ([pruning_cross_type_misses]) and its variables belong to the table
    ([other_table_prunes]).
    [create_distributed_misplaces]: rows that exist when a table is distributed end
    up elsewhere.  [rebalance_balances] and [merge_keeps_partition] are about placement and
    ranges; a shard is never split ([split_always_fails]), and the halves of the last one
    would be wrong ([last_shard_midpoint_outside]).  [Crc] shows that
    both checksums see each change within four adjacent bytes.

    ** What is not modelled

    Memory contexts and the size limit of allocations, with two exceptions, in the
    reader and in the recall of a chunk; the text of SQL statements, whose effect on the tables is modelled
    instead; the wire protocol behind libpq; locks on shared memory; log messages, debug output and statistics.  In the cluster the
    members do not change and file operations succeed.  NaNs have one payload.  The
    clock does not advance within an operation of workload management.
    [vectorized_load_column_data] is left out so far, as are the planner's
    rewriting, the creation of continuous aggregates, quantile sketches, dynamic tables,
    the rest of authentication, change capture, pipelines, JSON and vector functions. *)
From stdpp Require Export base tactics list list_numbers numbers.
From Stdlib Require Export ZArith Lia.
From stdpp Require Export strings.

Global Open Scope Z_scope.
Global Set Default Goal Selector "!".

(** ** Outcomes of C code

    [Ok a] is a normal return, [Err msg] is [elog(ERROR, ...)] or
    [ereport(ERROR, ...)], which aborts the statement, and [Undef] is behaviour
    C leaves undefined: a read or write outside an object, or a shift of a
    64-bit value by 64 or more.  [Diverge] is a loop that never ends.  Signed
    overflow wraps: PostgreSQL is built with [-fwrapv]. *)
Inductive outcome (A : Type) : Type :=
| Ok (a : A)
| Err (msg : string)
| Undef
| Diverge.
Arguments Ok {A} _.
Arguments Err {A} _.
Arguments Undef {A}.
Arguments Diverge {A}.

#[export] Instance outcome_ret : MRet outcome := @Ok.
#[export] Instance outcome_bind : MBind outcome := λ A B f m,
  match m with
  | Ok a => f a
  | Err e => Err e
  | Undef => Undef
  | Diverge => Diverge
  end.

#[export] Instance outcome_fmap : FMap outcome := λ A B f m,
  match m with
  | Ok a => Ok (f a)
  | Err e => Err e
  | Undef => Undef
  | Diverge => Diverge
  end.

(** [deref o] is a memory access that is undefined when it is out of range. *)
Definition deref {A} (o : option A) : outcome A :=
  match o with Some a => Ok a | None => Undef end.

Lemma outcome_bind_ok {A B} (f : A → outcome B) (m : outcome A) (b : B) :
  (m ≫= f) = Ok b ↔ ∃ a, m = Ok a ∧ f a = Ok b.
Proof.
  destruct m; cbn; split; try discriminate; eauto.
  all: intros (? & ? & ?); congruence.
Qed.

Lemma deref_ok {A} (o : option A) (a : A) : deref o = Ok a ↔ o = Some a.
Proof. destruct o; cbn; naive_solver. Qed.

(** ** Machine integers

    A value of an unsigned C type of [w] bits is a [Z] in [0, 2^w); of a signed
    one a [Z] in [-2^(w-1), 2^(w-1)).  The functions below are the conversions
    to these types, which every arithmetic operation of the source ends with. *)
Definition uwrap (w z : Z) : Z := z mod 2 ^ w.
Definition swrap (w z : Z) : Z := (z + 2 ^ (w - 1)) mod 2 ^ w - 2 ^ (w - 1).

Abbreviation u8 := (uwrap 8).
Abbreviation u16 := (uwrap 16).
Abbreviation u32 := (uwrap 32).
Abbreviation u64 := (uwrap 64).
Abbreviation i16 := (swrap 16).
Abbreviation i32 := (swrap 32).
Abbreviation i64 := (swrap 64).

Definition in_u (w z : Z) : Prop := 0 ≤ z < 2 ^ w.
Definition in_i (w z : Z) : Prop := - 2 ^ (w - 1) ≤ z < 2 ^ (w - 1).

Abbreviation is_u8 := (in_u 8).
Abbreviation is_u32 := (in_u 32).
Abbreviation is_u64 := (in_u 64).
Abbreviation is_i32 := (in_i 32).
Abbreviation is_i64 := (in_i 64).

#[export] Instance in_u_dec w z : Decision (in_u w z).
Proof. unfold in_u. apply _. Defined.
#[export] Instance in_i_dec w z : Decision (in_i w z).
Proof. unfold in_i. apply _. Defined.

Definition INT32_MIN : Z := - 2 ^ 31.
Definition INT32_MAX : Z := 2 ^ 31 - 1.
Definition INT64_MIN : Z := - 2 ^ 63.
Definition INT64_MAX : Z := 2 ^ 63 - 1.

Create HintDb width.


Lemma uwrap_range w z : 0 ≤ w → in_u w (uwrap w z).
Proof. intros. apply Z.mod_pos_bound. lia. Qed.

Lemma swrap_range w z : 0 < w → in_i w (swrap w z).
Proof.
  intros. unfold in_i, swrap.
  pose proof (Z.mod_pos_bound (z + 2 ^ (w - 1)) (2 ^ w) ltac:(lia)).
  replace (2 ^ w) with (2 * 2 ^ (w - 1)) in *; [lia|].
  rewrite <- Z.pow_succ_r by lia. f_equal. lia.
Qed.

Lemma uwrap_id w z : in_u w z → uwrap w z = z.
Proof. intros. apply Z.mod_small. done. Qed.

Lemma pow2_half w : 0 < w → 2 ^ w = 2 * 2 ^ (w - 1).
Proof. intros. rewrite <- Z.pow_succ_r by lia. f_equal. lia. Qed.

Lemma swrap_id w z : 0 < w → in_i w z → swrap w z = z.
Proof.
  intros Hw [??]. unfold swrap. pose proof (pow2_half w Hw).
  rewrite Z.mod_small; lia.
Qed.

Lemma swrap_uwrap w z : 0 ≤ w → swrap w (uwrap w z) = swrap w z.
Proof.
  intros. unfold swrap, uwrap. rewrite Zplus_mod_idemp_l. done.
Qed.

Lemma uwrap_swrap w z : 0 ≤ w → uwrap w (swrap w z) = uwrap w z.
Proof.
  intros. unfold swrap, uwrap. rewrite Zminus_mod_idemp_l. f_equal. lia.
Qed.

Lemma swrap_add_r w a b : 0 ≤ w → swrap w (a + swrap w b) = swrap w (a + b).
Proof.
  intros. unfold swrap.
  replace (a + ((b + 2 ^ (w - 1)) mod 2 ^ w - 2 ^ (w - 1)) + 2 ^ (w - 1))
    with (a + (b + 2 ^ (w - 1)) mod 2 ^ w) by lia.
  rewrite Zplus_mod_idemp_r. do 2 f_equal. lia.
Qed.

(** Equality up to the width of a type, which addition, subtraction and
    multiplication respect. *)
Definition cong (w a b : Z) : Prop := ∃ k, a = b + k * 2 ^ w.

#[export] Instance cong_equivalence w : Equivalence (cong w).
Proof.
  split.
  - intros a. exists 0. lia.
  - intros a b [k ->]. exists (- k). lia.
  - intros a b c [k ->] [l ->]. exists (k + l). lia.
Qed.
#[export] Instance cong_add w : Proper (cong w ==> cong w ==> cong w) Z.add.
Proof. intros a b [k ->] c d [l ->]. exists (k + l). lia. Qed.
#[export] Instance cong_sub w : Proper (cong w ==> cong w ==> cong w) Z.sub.
Proof. intros a b [k ->] c d [l ->]. exists (k - l). lia. Qed.
#[export] Instance cong_mul w : Proper (cong w ==> cong w ==> cong w) Z.mul.
Proof. intros a b [k ->] c d [l ->]. exists (k * d + l * b + k * l * 2 ^ w). lia. Qed.

Lemma swrap_cong w a : 0 ≤ w → cong w (swrap w a) a.
Proof.
  intros. exists (- ((a + 2 ^ (w - 1)) / 2 ^ w)). unfold swrap.
  pose proof (Z.div_mod (a + 2 ^ (w - 1)) (2 ^ w) ltac:(lia)). lia.
Qed.

Lemma swrap_of_cong w a b : 0 ≤ w → cong w a b → swrap w a = swrap w b.
Proof.
  intros Hw [k ->]. unfold swrap.
  replace (b + k * 2 ^ w + 2 ^ (w - 1)) with (b + 2 ^ (w - 1) + k * 2 ^ w) by lia.
  by rewrite Z.mod_add by lia.
Qed.

Lemma cong_in_range w a b : 0 < w → in_i w a → cong w a b → a = swrap w b.
Proof. intros Hw Ha Hab. rewrite <- (swrap_of_cong w a b) by (done || lia). by rewrite swrap_id. Qed.

#[export] Hint Resolve uwrap_range swrap_range : width.
#[export] Hint Rewrite swrap_uwrap uwrap_swrap using lia : width.

(** ** Bytes and little-endian fields

    A byte buffer is a [list Z] of values in [0, 256).  [memcpy] of an integer
    object of [n] bytes stores its little-endian bytes (the extension is built
    for x86-64 and AArch64, both little-endian). *)
Abbreviation len l := (Z.of_nat (length l)).

Definition bytes_ok (bs : list Z) : Prop := Forall (in_u 8) bs.

Definition le_enc (n z : Z) : list Z := Z_to_little_endian n 8 z.
Definition le_dec (bs : list Z) : Z := little_endian_to_Z 8 bs.

#[global] Arguments le_enc : simpl never.
#[global] Arguments le_dec : simpl never.
#[global] Arguments uwrap : simpl never.
#[global] Arguments swrap : simpl never.

Lemma le_enc_length n z : 0 ≤ n → Z.of_nat (length (le_enc n z)) = n.
Proof. apply length_Z_to_little_endian. Qed.

Lemma le_enc_bytes n z : 0 ≤ n → bytes_ok (le_enc n z).
Proof. intros. by apply Z_to_little_endian_bound. Qed.

Lemma le_dec_enc n z : 0 ≤ n → le_dec (le_enc n z) = z mod 2 ^ (n * 8).
Proof. intros. by apply little_endian_to_Z_to_little_endian. Qed.

Lemma le_enc_dec n bs : len bs = n → bytes_ok bs → le_enc n (le_dec bs) = bs.
Proof. intros. apply Z_to_little_endian_to_Z; done. Qed.

Lemma le_enc_mod n z : 0 ≤ n → le_enc n (z mod 2 ^ (n * 8)) = le_enc n z.
Proof.
  intros. rewrite <- le_dec_enc by done.
  apply le_enc_dec; [by apply le_enc_length|by apply le_enc_bytes].
Qed.

Lemma le_enc_i64 z : le_enc 8 (i64 z) = le_enc 8 z.
Proof.
  rewrite <- le_enc_mod, <- (le_enc_mod 8 z) by lia. change (8 * 8) with 64.
  f_equal. apply (uwrap_swrap 64). lia.
Qed.

Lemma le_dec_enc_u64 z : in_u 64 z → le_dec (le_enc 8 z) = z.
Proof. intros. rewrite le_dec_enc by lia. by apply Z.mod_small. Qed.

Lemma le_dec_enc_u32 z : in_u 32 z → le_dec (le_enc 4 z) = z.
Proof. intros. rewrite le_dec_enc by lia. by apply Z.mod_small. Qed.

Lemma le_dec_enc_i64 z : in_i 64 z → i64 (le_dec (le_enc 8 z)) = z.
Proof.
  intros. rewrite le_dec_enc by lia. change (8 * 8) with 64.
  change (z mod 2 ^ 64) with (u64 z).
  rewrite swrap_uwrap by lia. by apply swrap_id.
Qed.

Lemma le_dec_enc_i32 z : in_i 32 z → i32 (le_dec (le_enc 4 z)) = z.
Proof.
  intros. rewrite le_dec_enc by lia. change (4 * 8) with 32.
  change (z mod 2 ^ 32) with (u32 z).
  rewrite swrap_uwrap by lia. by apply swrap_id.
Qed.

#[export] Hint Rewrite le_dec_enc_u64 le_dec_enc_u32 le_dec_enc_i64 le_dec_enc_i32
  using (by auto with width) : width.

(** [mem_get i n bs] reads [n] bytes at offset [i]; it is [None] when the
    object does not hold them. *)
Definition mem_get (i n : Z) (bs : list Z) : option (list Z) :=
  if decide (0 ≤ i ∧ 0 ≤ n ∧ i + n ≤ Z.of_nat (length bs))
  then Some (take (Z.to_nat n) (drop (Z.to_nat i) bs)) else None.

Lemma mem_get_app (l m r : list Z) i n :
  len l = i → len m = n → mem_get i n (l ++ m ++ r) = Some m.
Proof.
  intros <- <-. unfold mem_get.
  rewrite decide_True by (rewrite !length_app; lia).
  rewrite !Nat2Z.id, drop_app_length, take_app_length. done.
Qed.

(** ** Bit-level facts used by several components *)
Lemma lor_disjoint_add a b n :
  0 ≤ n → 0 ≤ a < 2 ^ n → Z.lor a (Z.shiftl b n) = a + b * 2 ^ n.
Proof.
  intros Hn Ha. rewrite Z.shiftl_mul_pow2 by done.
  rewrite <- Z.lxor_lor, <- Z.add_nocarry_lxor; [done| |].
  all: apply Z.bits_inj'; intros i Hi; rewrite Z.land_spec, Z.bits_0;
    rewrite <- Z.shiftl_mul_pow2 by done;
    destruct (decide (i < n)).
  all: try (rewrite (Z.shiftl_spec_low b) by lia; apply andb_false_r).
  all: rewrite <- (Z.mod_small a (2 ^ n)) by lia;
    rewrite Z.mod_pow2_bits_high by lia; apply andb_false_l.
Qed.

Lemma land_ones_mod a n : 0 ≤ n → Z.land a (Z.ones n) = a mod 2 ^ n.
Proof. apply Z.land_ones. Qed.

Lemma bits_high a n i : 0 ≤ a < 2 ^ n → 0 ≤ n ≤ i → Z.testbit a i = false.
Proof.
  intros. rewrite <- (Z.mod_small a (2 ^ n)) by lia.
  apply Z.mod_pow2_bits_high. lia.
Qed.

Lemma bound_of_bits a n :
  0 ≤ n → 0 ≤ a → (∀ i, n ≤ i → Z.testbit a i = false) → a < 2 ^ n.
Proof.
  intros Hn Ha Hb. assert (a = a mod 2 ^ n) as ->; [|apply Z.mod_pos_bound; lia].
  apply Z.bits_inj'. intros i Hi. destruct (decide (i < n)).
  - by rewrite Z.mod_pow2_bits_low by lia.
  - rewrite Z.mod_pow2_bits_high by lia. apply Hb. lia.
Qed.

Lemma lxor_range a b n : 0 ≤ n → in_u n a → in_u n b → in_u n (Z.lxor a b).
Proof.
  intros Hn Ha Hb. unfold in_u in *. split; [apply Z.lxor_nonneg; lia|].
  apply bound_of_bits; [done|apply Z.lxor_nonneg; lia|].
  intros i Hi. rewrite Z.lxor_spec.
  rewrite !(bits_high _ n) by lia. done.
Qed.

(** The least number with a decidable property. *)
Lemma nat_least (P : nat → Prop) `{∀ n, Decision (P n)} n :
  P n → ∃ k, (k ≤ n)%nat ∧ P k ∧ ∀ j, (j < k)%nat → ¬ P j.
Proof.
  induction (lt_wf n) as [n _ IH]. intros Hn.
  destruct (decide (Exists P (seq 0 n))) as [He|Hne].
  - apply Exists_exists in He as (j & Hj & HP). apply elem_of_seq in Hj.
    destruct (IH j) as (k & ? & ?); [lia|done|]. exists k. split; [lia|done].
  - exists n. split; [lia|]. split; [done|]. intros j Hj HP. apply Hne.
    apply Exists_exists. exists j. rewrite elem_of_seq. split; [lia|done].
Qed.

(** A decidable property of all the integers in [0, n), checked by evaluation. *)
Lemma range_check (n : Z) (P : Z → bool) :
  forallb P (seqZ 0 n) = true → ∀ a, 0 ≤ a < n → P a = true.
Proof.
  intros H a Ha. rewrite forallb_forall in H. apply H.
  apply list_elem_of_In, elem_of_seqZ. lia.
Qed.

(** ** Filters that select one element *)
Lemma filter_none {A} (P : A → Prop) `{∀ x, Decision (P x)} (l : list A) :
  (∀ x, x ∈ l → ¬ P x) → filter P l = [].
Proof.
  induction l as [|x l IH]; intros HP; [done|].
  rewrite filter_cons_False by (apply HP; by left). apply IH. intros y ?. apply HP. by right.
Qed.

Lemma filter_all {A} (P : A → Prop) `{∀ x, Decision (P x)} (l : list A) :
  (∀ x, x ∈ l → P x) → filter P l = l.
Proof.
  induction l as [|x l IH]; intros HP; [done|].
  rewrite filter_cons_True by (apply HP; by left). f_equal. apply IH. intros y ?. apply HP. by right.
Qed.

Lemma filter_unique {A} (P : A → Prop) `{∀ x, Decision (P x)} (l : list A) x :
  NoDup l → x ∈ l → (∀ y, y ∈ l → P y ↔ y = x) → filter P l = [x].
Proof.
  induction l as [|y l IH]; intros Hnd Hx HP; [by apply not_elem_of_nil in Hx|].
  apply NoDup_cons in Hnd as [Hy Hnd]. rewrite filter_cons. case_decide as Hd.
  - assert (y = x) as -> by (apply HP; [by left|done]). f_equal.
    apply filter_none. intros z Hz HPz.
    assert (z = x) as -> by (apply HP; [by right|done]). done.
  - apply elem_of_cons in Hx as [->|Hx]; [|apply IH; [done|done|intros z ?; apply HP; by right]].
    destruct Hd. by apply HP; [left|].
Qed.

Lemma filter_and {A} (P Q : A → Prop) `{∀ x, Decision (P x), ∀ x, Decision (Q x)} (l : list A) :
  filter (λ x, P x ∧ Q x) l = filter Q (filter P l).
Proof. rewrite list_filter_filter. apply list_filter_iff. naive_solver. Qed.

Lemma head_filter_unique {A} (P : A → Prop) `{∀ x, Decision (P x)} (l : list A) x :
  x ∈ l → P x → (∀ y, y ∈ l → P y → y = x) → head (filter P l) = Some x.
Proof.
  intros Hx HP Hu. assert (Hf : x ∈ filter P l) by (by apply list_elem_of_filter).
  destruct (filter P l) as [|y f] eqn:E; [by apply not_elem_of_nil in Hf|]. cbn. f_equal.
  assert (Hy : y ∈ filter P l) by (rewrite E; by left).
  apply list_elem_of_filter in Hy as [? ?]. by apply Hu.
Qed.

(** ** Tables searched from the front *)
Lemma list_find_insert {A} (P : A → Prop) `{∀ x, Decision (P x)} (l : list A) i j x y :
  list_find P l = Some (i, x) → (∀ z, l !! j = Some z → ¬ P z) → ¬ P y →
  list_find P (<[j := y]> l) = Some (i, x).
Proof.
  intros (Hi & HP & Hm)%list_find_Some Hj Hy. apply list_find_Some.
  assert (i ≠ j) by (intros ->; by apply (Hj x)).
  rewrite list_lookup_insert_ne by done. split_and!; [done..|].
  intros k z Hk Hlt. destruct (decide (k = j)) as [->|Hne].
  - assert (Hlen : (j < length l)%nat).
    { apply lookup_lt_Some in Hk. by rewrite length_insert in Hk. }
    rewrite list_lookup_insert_eq in Hk by done. by injection Hk as <-.
  - rewrite list_lookup_insert_ne in Hk by done. eauto.
Qed.

Lemma list_find_alter {A} (P : A → Prop) `{∀ x, Decision (P x)} (f : A → A) (l : list A) i j x :
  (∀ y, P (f y) ↔ P y) → list_find P l = Some (i, x) →
  list_find P (alter f j l) = Some (i, if decide (i = j) then f x else x).
Proof.
  intros Hf (Hi & HP & Hm)%list_find_Some. apply list_find_Some. split_and!.
  - destruct (decide (i = j)) as [->|Hne].
    + by rewrite list_lookup_alter_eq, Hi.
    + by rewrite list_lookup_alter_ne by done.
  - case_decide; [by apply Hf|done].
  - intros k y Hk Hlt. destruct (decide (k = j)) as [->|Hne].
    + rewrite list_lookup_alter_eq in Hk. destruct (l !! j) as [z|] eqn:E; [|done].
      injection Hk as <-. rewrite Hf. eauto.
    + rewrite list_lookup_alter_ne in Hk by done. eauto.
Qed.

(** The number of elements with a property. *)
Definition count_if {A} (f : A → bool) (l : list A) : Z := len (filter (λ x, f x = true) l).

Lemma count_if_range {A} (f : A → bool) (l : list A) : 0 ≤ count_if f l ≤ len l.
Proof.
  unfold count_if. split; [lia|]. apply Nat2Z.inj_le. apply length_filter.
Qed.

Lemma count_if_app {A} (f : A → bool) (l k : list A) :
  count_if f (l ++ k) = count_if f l + count_if f k.
Proof. unfold count_if. rewrite filter_app, length_app. lia. Qed.

Lemma count_if_cons {A} (f : A → bool) (x : A) (l : list A) :
  count_if f (x :: l) = Z.b2z (f x) + count_if f l.
Proof.
  unfold count_if. rewrite filter_cons. destruct (f x); cbn [decide]; [|done].
  destruct (decide (true = true)); [|done]. cbn [length Z.b2z]. lia.
Qed.

Lemma count_if_insert {A} (f : A → bool) (l : list A) i x y :
  l !! i = Some y → count_if f (<[i := x]> l) = count_if f l + Z.b2z (f x) - Z.b2z (f y).
Proof.
  intros Hi. rewrite <- (take_drop_middle l i y Hi) at 2.
  rewrite insert_take_drop by by eapply lookup_lt_Some.
  rewrite !count_if_app, !count_if_cons. lia.
Qed.

Lemma count_if_alter {A} (f : A → bool) (g : A → A) (l : list A) i :
  (∀ x, f (g x) = f x) → count_if f (alter g i l) = count_if f l.
Proof.
  intros H. revert i. induction l as [|x l IH]; intros [|i]; [done..| |].
  - change (alter g 0%nat (x :: l)) with (g x :: l). by rewrite !count_if_cons, H.
  - change (alter g (S i) (x :: l)) with (x :: alter g i l). by rewrite !count_if_cons, IH.
Qed.

Lemma count_if_map {A} (f : A → bool) (g : A → A) (l : list A) :
  (∀ x, f (g x) = f x) → count_if f (map g l) = count_if f l.
Proof.
  intros H. induction l as [|x l IH]; [done|]. cbn [map]. by rewrite !count_if_cons, H, IH.
Qed.

(** Tactics shared by the components.  [decide_now] settles a closed decidable
    goal by evaluation. *)
Ltac decide_now := apply (bool_decide_unpack _); vm_compute; exact I.

Ltac inv_ok :=
  repeat match goal with
  | H : (_ ≫= _) = Ok _ |- _ => apply outcome_bind_ok in H as (? & ? & ?)
  | H : deref _ = Ok _ |- _ => apply deref_ok in H
  | H : Ok _ = Ok _ |- _ => injection H as H; subst
  | H : Err _ = Ok _ |- _ => discriminate H
  | H : Undef = Ok _ |- _ => discriminate H
  | H : Diverge = Ok _ |- _ => discriminate H
  end.

Ltac destruct_if :=
  match goal with
  | |- context [if decide ?P then _ else _] => destruct (decide P)
  | |- context [if ?b then _ else _] =>
      lazymatch type of b with bool => let E := fresh "E" in destruct b eqn:E end
  end.

Ltac destruct_if_hyp :=
  match goal with
  | H : context [if decide ?P then _ else _] |- _ => destruct (decide P)
  | H : context [if ?b then _ else _] |- _ =>
      lazymatch type of b with bool => let E := fresh "E" in destruct b eqn:E end
  end.
