(* ===== verification/Postgres.v ===== *)
(** * PostgreSQL values the extension works on

    A [Datum] is either a pass-by-value word or a pointer, which is modelled by
    the bytes it points to; the type OIDs are those of [catalog/pg_type.h].  The
    varlena header macros of PostgreSQL are the parameters of [Varlena]. *)
From S2P Require Import Prelude.

Inductive Datum : Set :=
| DatumVal (z : Z)
| DatumRef (bytes : list Z).

#[export] Instance datum_eq_dec : EqDecision Datum.
Proof. solve_decision. Defined.

Definition BOOLOID : Z := 16.
Definition INT8OID : Z := 20.
Definition INT2OID : Z := 21.
Definition INT4OID : Z := 23.
Definition TEXTOID : Z := 25.
Definition FLOAT4OID : Z := 700.
Definition FLOAT8OID : Z := 701.
Definition BPCHAROID : Z := 1042.
Definition VARCHAROID : Z := 1043.
Definition DATEOID : Z := 1082.
Definition TIMESTAMPOID : Z := 1114.
Definition TIMESTAMPTZOID : Z := 1184.
Definition UUIDOID : Z := 2950.

(** The size and the start of the payload of a varlena datum. *)
Class Varlena := {
  VARSIZE_ANY_EXHDR : list Z → Z;
  VARDATA_ANY : list Z → list Z }.

(** Datums with a header of four bytes. *)
Definition four_byte_header : Varlena :=
  {| VARSIZE_ANY_EXHDR bs := len bs - 4; VARDATA_ANY bs := drop 4 bs |}.

(** [timestamptz_to_str] writes into a static buffer and returns it.  Of two calls among the
    arguments of one [appendStringInfo], in an order C does not fix, the statement reads the
    buffer twice, after both: [printed a b] is what both literals then say. *)
Class TimestampBuffer := {
  printed : Z → Z → Z;
  printed_either a b : printed a b = a ∨ printed a b = b }.
