(* ===== verification/Crc.v ===== *)
(** * CRC-32

    Models [init_crc32_table] and [orochi_crc32_hash] of
    [src/sharding/distribution.c] and [raft_log_compute_crc] of
    [src/consensus/raft_log.c], which has a table written out.  The generated
    table makes the loop compute the bit-serial division of the whole message;
    both tables tell apart messages that differ in a burst of four bytes. *)
From S2P Require Import Prelude.

Definition crc_polynomial : Z := 0xEDB88320.

(** One round of the inner loop of [init_crc32_table]. *)
Definition crc_step (crc : Z) : Z :=
  if Z.odd crc then Z.lxor (Z.shiftr crc 1) crc_polynomial else Z.shiftr crc 1.

Definition crc32_table_entry (i : Z) : Z := Nat.iter 8 crc_step i.

Definition init_crc32_table : list Z := map crc32_table_entry (seqZ 0 256).

Definition crc_update (table : list Z) (crc byte : Z) : Z :=
  Z.lxor (nth (Z.to_nat (Z.land (Z.lxor crc byte) 0xFF)) table 0) (Z.shiftr crc 8).

Definition crc_run (table data : list Z) : Z :=
  Z.lxor (fold_left (crc_update table) data 0xFFFFFFFF) 0xFFFFFFFF.

Definition orochi_crc32_hash (data : list Z) : Z := crc_run init_crc32_table data.

(** The table of [raft_log_compute_crc]. *)
Definition raft_crc_table : list Z :=
  [0x00000000; 0x77073096; 0xee0e612c; 0x990951ba; 0x076dc419; 0x706af48f; 0xe963a535;
   0x9e6495a3; 0x0edb8832; 0x79dcb8a4; 0xe0d5e91e; 0x97d2d988; 0x09b64c2b; 0x7eb17cbd;
   0xe7b82d07; 0x90bf1d91; 0x1db71064; 0x6ab020f2; 0xf3b97148; 0x84be41de; 0x1adad47d;
   0x6ddde4eb; 0xf4d4b551; 0x83d385c7; 0x136c9856; 0x646ba8c0; 0xfd62f97a; 0x8a65c9ec;
   0x14015c4f; 0x63066cd9; 0xfa0f3d63; 0x8d080df5; 0x3b6e20c8; 0x4c69105e; 0xd56041e4;
   0xa2677172; 0x3c03e4d1; 0x4b04d447; 0xd20d85fd; 0xa50ab56b; 0x35b5a8fa; 0x42b2986c;
   0xdbbbc9d6; 0xacbcf940; 0x32d86ce3; 0x45df5c75; 0xdcd60dcf; 0xabd13d59; 0x26d930ac;
   0x51de003a; 0xc8d75180; 0xbfd06116; 0x21b4f4b5; 0x56b3c423; 0xcfba9599; 0xb8bda50f;
   0x2802b89e; 0x5f058808; 0xc60cd9b2; 0xb10be924; 0x2f6f7c87; 0x58684c11; 0xc1611dab;
   0xb6662d3d; 0x76dc4190; 0x01db7106; 0x98d220bc; 0xefd5102a; 0x71b18589; 0x06b6b51f;
   0x9fbfe4a5; 0xe8b8d433; 0x7807c9a2; 0x0f00f934; 0x9609a88e; 0xe10e9818; 0x7f6a0dbb;
   0x086d3d2d; 0x91646c97; 0xe6635c01; 0x6b6b51f4; 0x1c6c6162; 0x856530d8; 0xf262004e;
   0x6c0695ed; 0x1b01a57b; 0x8208f4c1; 0xf50fc457; 0x65b0d9c6; 0x12b7e950; 0x8bbeb8ea;
   0xfcb9887c; 0x62dd1ddf; 0x15da2d49; 0x8cd37cf3; 0xfbd44c65; 0x4db26158; 0x3ab551ce;
   0xa3bc0074; 0xd4bb30e2; 0x4adfa541; 0x3dd895d7; 0xa4d1c46d; 0xd3d6f4fb; 0x4369e96a;
   0x346ed9fc; 0xad678846; 0xda60b8d0; 0x44042d73; 0x33031de5; 0xaa0a4c5f; 0xdd0d7cc9;
   0x5005713c; 0x270241aa; 0xbe0b1010; 0xc90c2086; 0x5768b525; 0x206f85b3; 0xb966d409;
   0xce61e49f; 0x5edef90e; 0x29d9c998; 0xb0d09822; 0xc7d7a8b4; 0x59b33d17; 0x2eb40d81;
   0xb7bd5c3b; 0xc0ba6cad; 0xedb88320; 0x9abfb3b6; 0x03b6e20c; 0x74b1d29a; 0xead54739;
   0x9dd277af; 0x04db2615; 0x73dc1683; 0xe3630b12; 0x94643b84; 0x0d6d6a3e; 0x7a6a5aa8;
   0xe40ecf0b; 0x9309ff9d; 0x0a00ae27; 0x7d079eb1; 0xf00f9344; 0x8708a3d2; 0x1e01f268;
   0x6906c2fe; 0xf762575d; 0x806567cb; 0x196c3671; 0x6e6b06e7; 0xfed41b76; 0x89d32be0;
   0x10da7a5a; 0x67dd4acc; 0xf9b9df6f; 0x8ebeeff9; 0x17b7be43; 0x60b08ed5; 0xd6d6a3e8;
   0xa1d1937e; 0x38d8c2c4; 0x4fdff252; 0xd1bb67f1; 0xa6bc5767; 0x3fb506dd; 0x48b2364b;
   0xd80d2bda; 0xaf0a1b4c; 0x36034af6; 0x41047a60; 0xdf60efc3; 0xa867df55; 0x316e8eef;
   0x4669be79; 0xcb61b38c; 0xbc66831a; 0x256fd2a0; 0x5268e236; 0xcc0c7795; 0xbb0b4703;
   0x220216b9; 0x5505262f; 0xc5ba3bbe; 0xb2bd0b28; 0x2bb45a92; 0x5cb36a04; 0xc2d7ffa7;
   0xb5d0cf31; 0x2cd99e8b; 0x5bdeae1d; 0x9b64c2b0; 0xec63f226; 0x756aa39c; 0x026d930a;
   0x9c0906a9; 0xeb0e363f; 0x72076785; 0x05005713; 0x95bf4a82; 0xe2b87a14; 0x7bb12bae;
   0x0cb61b38; 0x92d28e9b; 0xe5d5be0d; 0x7cdcefb7; 0x0bdbdf21; 0x86d3d2d4; 0xf1d4e242;
   0x68ddb3f8; 0x1fda836e; 0x81be16cd; 0xf6b9265b; 0x6fb077e1; 0x18b74777; 0x88085ae6;
   0xff0f6a70; 0x66063bca; 0x11010b5c; 0x8f659eff; 0xf862ae69; 0x616bffd3; 0x166ccf45;
   0xa00ae278; 0xd70dd2ee; 0x4e048354; 0x3903b3c2; 0xa7672661; 0xd06016f7; 0x4969474d;
   0x3e6e77db; 0xaed16a4a; 0xd9d65adc; 0x40df0b66; 0x37d83bf0; 0xa9bcae53; 0xdebb9ec5;
   0x47b2cf7f; 0x30b5ffe9; 0xbdbdf21c; 0xcabac28a; 0x53b39330; 0x24b4a3a6; 0xbad03605;
   0xcdd706b3; 0x54de5729; 0x23d967bf; 0xb3667a2e; 0xc4614ab8; 0x5d681b02; 0x2a6f2b94;
   0xb40bbe37; 0xc30c8ea1; 0x5a05df1b; 0x2d02ef8d].

Definition raft_log_compute_crc (data : list Z) : Z := crc_run raft_crc_table data.

(** ** The bit-serial definition *)

Definition crc_bitwise (data : list Z) : Z :=
  Z.lxor (Nat.iter (8 * length data) crc_step (Z.lxor 0xFFFFFFFF (le_dec data))) 0xFFFFFFFF.

Lemma crc_step_lxor a b : crc_step (Z.lxor a b) = Z.lxor (crc_step a) (crc_step b).
Proof.
  unfold crc_step. rewrite Z.shiftr_lxor.
  replace (Z.odd (Z.lxor a b)) with (xorb (Z.odd a) (Z.odd b)) by
    (rewrite <- !Z.bit0_odd, Z.lxor_spec; done).
  destruct (Z.odd a), (Z.odd b); cbn [xorb]; try done; apply Z.bits_inj'; intros n Hn;
    rewrite !Z.lxor_spec; by repeat destruct (Z.testbit _ n).
Qed.

Lemma crc_iter_lxor n a b :
  Nat.iter n crc_step (Z.lxor a b) = Z.lxor (Nat.iter n crc_step a) (Nat.iter n crc_step b).
Proof. induction n as [|n IH]; [done|]. by rewrite !Nat.iter_succ, IH, crc_step_lxor. Qed.

Lemma crc_step_even a : crc_step (2 * a) = a.
Proof.
  unfold crc_step. rewrite Z.odd_mul. cbn [Z.odd andb].
  rewrite Z.shiftr_div_pow2 by lia. rewrite Z.mul_comm. by apply Z.div_mul.
Qed.

Lemma crc_iter_shiftl n a : Nat.iter n crc_step (a * 2 ^ Z.of_nat n) = a.
Proof.
  induction n as [|n IH]; [cbn; lia|]. rewrite Nat.iter_succ_r.
  replace (a * 2 ^ Z.of_nat (S n)) with (2 * (a * 2 ^ Z.of_nat n)); [by rewrite crc_step_even|].
  rewrite Nat2Z.inj_succ, Z.pow_succ_r by lia. lia.
Qed.

Lemma crc_split a : a = Z.lxor (Z.land a 0xFF) (Z.shiftr a 8 * 2 ^ Z.of_nat 8).
Proof.
  change (Z.of_nat 8) with 8. rewrite <- Z.shiftl_mul_pow2 by lia. change 0xFF with (Z.ones 8).
  rewrite Z.land_ones by lia. apply Z.bits_inj'. intros n Hn. rewrite Z.lxor_spec.
  destruct (decide (n < 8)).
  - rewrite Z.mod_pow2_bits_low, Z.shiftl_spec_low by lia. by rewrite xorb_false_r.
  - rewrite Z.mod_pow2_bits_high, Z.shiftl_spec, Z.shiftr_spec by lia.
    cbn [xorb]. f_equal. lia.
Qed.

Lemma crc_table_lookup i :
  0 ≤ i < 256 → nth (Z.to_nat i) init_crc32_table 0 = Nat.iter 8 crc_step i.
Proof.
  intros Hi. apply nth_lookup_Some. unfold init_crc32_table.
  rewrite list_lookup_fmap, lookup_seqZ_lt, Z2Nat.id, Z.add_0_l by lia. done.
Qed.

Lemma crc_update_iter crc byte :
  in_u 8 byte → crc_update init_crc32_table crc byte = Nat.iter 8 crc_step (Z.lxor crc byte).
Proof.
  intros Hb. unfold crc_update. rewrite (crc_split (Z.lxor crc byte)) at 2.
  rewrite crc_iter_lxor, (crc_iter_shiftl 8). f_equal.
  - apply crc_table_lookup. change 0xFF with (Z.ones 8). rewrite Z.land_ones by lia.
    apply Z.mod_pos_bound. lia.
  - rewrite Z.shiftr_lxor. replace (Z.shiftr byte 8) with 0; [by rewrite Z.lxor_0_r|].
    rewrite Z.shiftr_div_pow2 by lia. symmetry. by apply Z.div_small.
Qed.

Lemma le_dec_cons b bs : le_dec (b :: bs) = Z.lor b (Z.shiftl (le_dec bs) 8).
Proof. reflexivity. Qed.

Lemma lor_lxor_byte b z : in_u 8 b → Z.lor b (Z.shiftl z 8) = Z.lxor b (z * 2 ^ Z.of_nat 8).
Proof.
  intros Hb. change (Z.of_nat 8) with 8. rewrite <- Z.shiftl_mul_pow2 by lia.
  symmetry. apply Z.lxor_lor. apply Z.bits_inj'. intros n Hn. rewrite Z.land_spec, Z.bits_0.
  destruct (decide (n < 8)).
  - rewrite Z.shiftl_spec_low by lia. apply andb_false_r.
  - rewrite (bits_high b 8) by (unfold in_u in Hb; lia). done.
Qed.

(** The table-driven loop from any register, on any message. *)
Lemma crc_fold_iter data crc :
  bytes_ok data →
  fold_left (crc_update init_crc32_table) data crc =
    Nat.iter (8 * length data) crc_step (Z.lxor crc (le_dec data)).
Proof.
  intros Hd. revert crc. induction Hd as [|b data Hb _ IH]; intros crc.
  - cbn. by rewrite Z.lxor_0_r.
  - cbn [fold_left length]. rewrite IH, crc_update_iter by done.
    rewrite le_dec_cons, lor_lxor_byte by done.
    replace (8 * S (length data))%nat with (8 * length data + 8)%nat by lia.
    rewrite Nat.iter_add. f_equal.
    rewrite <- Z.lxor_assoc, (crc_iter_lxor 8 (Z.lxor crc b)), (crc_iter_shiftl 8). done.
Qed.

Lemma crc_is_bitwise data : bytes_ok data → orochi_crc32_hash data = crc_bitwise data.
Proof. intros. unfold orochi_crc32_hash, crc_run, crc_bitwise. by rewrite crc_fold_iter. Qed.

(** ** Error detection

    All that detection needs of a table is that the top bytes of its entries are
    distinct: then the indices used by the last rounds can be read off the
    register, from the last one back. *)
Definition top_bytes_distinct (table : list Z) : Prop :=
  length table = 256%nat ∧ NoDup (map (λ t, Z.shiftr t 24) table) ∧ Forall (in_u 32) table.

#[export] Instance top_bytes_distinct_dec table : Decision (top_bytes_distinct table).
Proof. unfold top_bytes_distinct. apply _. Defined.

Lemma orochi_table_distinct : top_bytes_distinct init_crc32_table.
Proof. decide_now. Qed.

Lemma raft_table_distinct : top_bytes_distinct raft_crc_table.
Proof. decide_now. Qed.

(** The registers agree on their top [m] bits. *)
Definition agree (m x y : Z) : Prop := Z.shiftr x (32 - m) = Z.shiftr y (32 - m).

Lemma lxor_cancel_l a b c : Z.lxor a b = Z.lxor a c → b = c.
Proof.
  intros E. apply (f_equal (Z.lxor a)) in E.
  by rewrite <- !Z.lxor_assoc, !Z.lxor_nilpotent, !Z.lxor_0_l in E.
Qed.

Lemma lxor_cancel_r a b c : Z.lxor b a = Z.lxor c a → b = c.
Proof. rewrite !(Z.lxor_comm _ a). apply lxor_cancel_l. Qed.

Lemma shiftr_u32 x n : in_u 32 x → 32 ≤ n → Z.shiftr x n = 0.
Proof.
  intros [? Hx] Hn. rewrite Z.shiftr_div_pow2 by lia. apply Z.div_small. split; [done|].
  eapply Z.lt_le_trans; [exact Hx|]. apply Z.pow_le_mono_r; lia.
Qed.

Section detection.
Context (table : list Z) (Htable : top_bytes_distinct table).

Definition index (crc byte : Z) : Z := Z.land (Z.lxor crc byte) 0xFF.

Lemma index_range crc byte : 0 ≤ index crc byte < 256.
Proof.
  unfold index. change 0xFF with (Z.ones 8). rewrite Z.land_ones by lia. apply Z.mod_pos_bound. lia.
Qed.

Lemma entry_range i : 0 ≤ i < 256 → in_u 32 (nth (Z.to_nat i) table 0).
Proof.
  intros Hi. destruct Htable as (Hl & _ & Hr).
  destruct (lookup_lt_is_Some_2 table (Z.to_nat i)) as [t Ht]; [lia|].
  rewrite (nth_lookup_Some _ _ _ _ Ht). by eapply Forall_lookup_1.
Qed.

Lemma entry_inj i j :
  0 ≤ i < 256 → 0 ≤ j < 256 →
  Z.shiftr (nth (Z.to_nat i) table 0) 24 = Z.shiftr (nth (Z.to_nat j) table 0) 24 → i = j.
Proof.
  intros Hi Hj E. destruct Htable as (Hl & Hnd & _).
  destruct (lookup_lt_is_Some_2 table (Z.to_nat i)) as [t Ht]; [lia|].
  destruct (lookup_lt_is_Some_2 table (Z.to_nat j)) as [u Hu]; [lia|].
  rewrite (nth_lookup_Some _ _ _ _ Ht), (nth_lookup_Some _ _ _ _ Hu) in E.
  assert (Z.to_nat i = Z.to_nat j); [|lia].
  eapply NoDup_lookup; [exact Hnd| |]; rewrite list_lookup_fmap.
  - by rewrite Ht.
  - rewrite Hu. cbn. by rewrite E.
Qed.

Lemma crc_update_range crc byte : in_u 32 crc → in_u 32 (crc_update table crc byte).
Proof.
  intros Hc. apply lxor_range; [done|apply entry_range, index_range|].
  rewrite Z.shiftr_div_pow2 by lia. unfold in_u in *. change (2 ^ 8) with 256.
  Z.div_mod_to_equations. lia.
Qed.

Lemma crc_fold_range data crc : in_u 32 crc → in_u 32 (fold_left (crc_update table) data crc).
Proof.
  revert crc. induction data as [|b data IH]; intros crc Hc; [done|].
  cbn [fold_left]. by apply IH, crc_update_range.
Qed.

(** One round undone on the top bits. *)
Lemma crc_update_back m crc crc' b b' :
  8 ≤ m ≤ 32 → in_u 32 crc → in_u 32 crc' →
  agree m (crc_update table crc b) (crc_update table crc' b') →
  index crc b = index crc' b' ∧ agree (m - 8) crc crc'.
Proof.
  intros Hm Hc Hc'. unfold agree, crc_update. fold (index crc b) (index crc' b'). intros E.
  assert (Hi : index crc b = index crc' b').
  { apply (f_equal (λ x, Z.shiftr x (m - 8))) in E.
    rewrite !Z.shiftr_shiftr, !Z.shiftr_lxor, !Z.shiftr_shiftr in E by lia.
    rewrite !(shiftr_u32 crc), !(shiftr_u32 crc') in E by (done || lia).
    rewrite !Z.lxor_0_r in E. replace (32 - m + (m - 8)) with 24 in E by lia.
    apply entry_inj in E; [done|apply index_range..]. }
  split; [done|]. rewrite Hi, !Z.shiftr_lxor in E. apply lxor_cancel_l in E.
  rewrite !Z.shiftr_shiftr in E by lia. by replace (32 - (m - 8)) with (8 + (32 - m)) by lia.
Qed.

Lemma index_byte crc b b' : in_u 8 b → in_u 8 b' → index crc b = index crc b' → b = b'.
Proof.
  intros Hb Hb'. unfold index. change 0xFF with (Z.ones 8). rewrite !Z.land_ones by lia. intros E.
  apply Z.bits_inj'. intros n Hn. destruct (decide (n < 8)).
  - apply (f_equal (λ x, Z.testbit x n)) in E. rewrite !Z.mod_pow2_bits_low, !Z.lxor_spec in E by lia.
    by destruct (Z.testbit crc n), (Z.testbit b n), (Z.testbit b' n).
  - rewrite !(bits_high _ 8) by (done || lia). done.
Qed.

Lemma index_low crc crc' b : index crc b = index crc' b → Z.land crc 0xFF = Z.land crc' 0xFF.
Proof.
  unfold index. intros E. apply Z.bits_inj'. intros n Hn.
  apply (f_equal (λ x, Z.testbit x n)) in E. rewrite !Z.land_spec, !Z.lxor_spec in *.
  by destruct (Z.testbit crc n), (Z.testbit crc' n), (Z.testbit b n), (Z.testbit 0xFF n).
Qed.

Lemma crc_window_inj w w' crc :
  bytes_ok w → bytes_ok w' → length w = length w' → (length w ≤ 4)%nat → in_u 32 crc →
  agree (8 * len w) (fold_left (crc_update table) w crc) (fold_left (crc_update table) w' crc) →
  w = w'.
Proof.
  intros Hw Hw' Hl Hlen Hc. revert w' Hw' Hl. induction w as [|b w IH] using rev_ind;
    intros w' Hw' Hl Ha; [by destruct w'|].
  destruct w' as [|b' w' _] using rev_ind; [rewrite length_app in Hl; cbn in Hl; lia|].
  rewrite !length_app in *. cbn [length] in *. rewrite !fold_left_app in Ha. cbn [fold_left] in Ha.
  apply Forall_app in Hw as [Hw [Hb _]%Forall_cons], Hw' as [Hw' [Hb' _]%Forall_cons].
  apply crc_update_back in Ha as [Hi Ha]; [|lia|by apply crc_fold_range..].
  replace (8 * Z.of_nat (length w + 1) - 8) with (8 * len w) in Ha by lia.
  assert (w = w') as <- by (apply IH; (done || lia)).
  apply index_byte in Hi; [by subst b'|done..].
Qed.

Lemma crc_fold_inj data crc crc' :
  bytes_ok data → in_u 32 crc → in_u 32 crc' →
  fold_left (crc_update table) data crc = fold_left (crc_update table) data crc' → crc = crc'.
Proof.
  intros Hd. revert crc crc'. induction Hd as [|b data Hb _ IH]; intros crc crc' Hc Hc' E; [done|].
  cbn [fold_left] in E. apply IH in E; [|by apply crc_update_range..].
  destruct (crc_update_back 32 crc crc' b b) as [Hi Ha]; [lia|done|done|unfold agree; by rewrite E|].
  unfold agree in Ha. change (32 - (32 - 8)) with 8 in Ha. rewrite (crc_split crc), (crc_split crc'), Ha. f_equal.
  by eapply index_low.
Qed.

Lemma crc_run_burst pre w w' post :
  bytes_ok w → bytes_ok w' → bytes_ok post → length w = length w' → (length w ≤ 4)%nat →
  crc_run table (pre ++ w ++ post) = crc_run table (pre ++ w' ++ post) → w = w'.
Proof.
  intros Hw Hw' Hpost Hl Hlen E. unfold crc_run in E. apply lxor_cancel_r in E.
  rewrite !fold_left_app in E.
  assert (Hc : in_u 32 (fold_left (crc_update table) pre 0xFFFFFFFF)).
  { apply crc_fold_range. unfold in_u. lia. }
  apply crc_fold_inj in E; [|done|by apply crc_fold_range..].
  eapply crc_window_inj; [done..|]. unfold agree. by rewrite E.
Qed.
End detection.

(** ** Properties *)

(** Both checksums tell apart two messages of the same length that differ
    within four adjacent bytes; in particular every corruption of one byte of a log
    record is detected. *)
Theorem crc32_detects_burst (pre w w' post : list Z) :
  bytes_ok w → bytes_ok w' → bytes_ok post →
  length w = length w' → (length w ≤ 4)%nat → w ≠ w' →
  orochi_crc32_hash (pre ++ w ++ post) ≠ orochi_crc32_hash (pre ++ w' ++ post) ∧
  raft_log_compute_crc (pre ++ w ++ post) ≠ raft_log_compute_crc (pre ++ w' ++ post).
Proof.
  intros Hw Hw' Hpost Hl Hlen Hne. split; intros E; apply Hne.
  - by apply (crc_run_burst _ orochi_table_distinct) in E.
  - by apply (crc_run_burst _ raft_table_distinct) in E.
Qed.

(** The sharding hash is CRC-32, the register run bit by bit over the whole
    message; the checksum of the log is not: one entry of its table, that of 245,
    is wrong, and the two checksums differ on messages that use it. *)
Theorem crc32_table_entry_wrong :
  (∀ data, bytes_ok data → orochi_crc32_hash data = crc_bitwise data) ∧
  (∀ i, 0 ≤ i < 256 →
     (nth (Z.to_nat i) raft_crc_table 0 = crc32_table_entry i ↔ i ≠ 245)) ∧
  raft_log_compute_crc [10] ≠ crc_bitwise [10].
Proof.
  split; [apply crc_is_bitwise|]. split; [|by vm_compute].
  intros i Hi.
  assert (Hc : bool_decide (nth (Z.to_nat i) raft_crc_table 0 = crc32_table_entry i) =
               negb (i =? 245)).
  { apply eqb_true_iff. revert i Hi.
    apply (range_check 256 (λ i, Bool.eqb (bool_decide (nth (Z.to_nat i) raft_crc_table 0 =
      crc32_table_entry i)) (negb (i =? 245)))). vm_compute. reflexivity. }
  case_bool_decide as Hd; destruct (Z.eqb_spec i 245); naive_solver.
Qed.

Lemma crc32_detects_burst_witness :
  orochi_crc32_hash ([1; 2] ++ [3; 4; 5; 6] ++ [7]) ≠ orochi_crc32_hash ([1; 2] ++ [3; 0; 5; 9] ++ [7]) ∧
  raft_log_compute_crc ([1; 2] ++ [3; 4; 5; 6] ++ [7]) ≠
    raft_log_compute_crc ([1; 2] ++ [3; 0; 5; 9] ++ [7]).
Proof.
  apply crc32_detects_burst; [decide_now..| |].
  - cbn. lia.
  - congruence.
Defined.

(** The check value of CRC-32. *)
Example crc_check : orochi_crc32_hash [49; 50; 51; 52; 53; 54; 55; 56; 57] = 0xCBF43926.
Proof. vm_compute. reflexivity. Qed.
