(* ===== verification/Float.v ===== *)
(** * IEEE 754 numbers as the C types [double] and [float]

    The executor and the expression compiler compute with [double] and [float],
    which reach them as the bits of a [Datum] or of a column.  A number is a
    [spec_float] of the Standard Library, whose operations round to nearest even;
    the functions below convert between numbers, their bits and integers as C
    does.  NaNs have one representation; their payloads are not modelled. *)
From Stdlib Require Import Floats.SpecFloat.
From S2P Require Import Prelude.

(** A format: the bits of the stored mantissa and of the exponent. *)
Record Format := { mantissa_bits : Z; exponent_bits : Z }.

Definition binary64 : Format := {| mantissa_bits := 52; exponent_bits := 11 |}.
Definition binary32 : Format := {| mantissa_bits := 23; exponent_bits := 8 |}.

Definition prec (F : Format) : Z := mantissa_bits F + 1.
Definition emax (F : Format) : Z := 2 ^ (exponent_bits F - 1).
Definition least_exponent (F : Format) : Z := 3 - emax F - prec F.

Definition sign_weight (F : Format) : Z := 2 ^ (mantissa_bits F + exponent_bits F).
Definition top_exponent (F : Format) : Z := 2 ^ exponent_bits F - 1.

(** ** Bits *)

Definition float_of_fields (F : Format) (s : bool) (e m : Z) : spec_float :=
  if e =? 0 then
    match m with Zpos p => S754_finite s p (least_exponent F) | _ => S754_zero s end
  else if e =? top_exponent F then
    match m with Zpos p => S754_nan | _ => S754_infinity s end
  else match m + 2 ^ mantissa_bits F with
       | Zpos p => S754_finite s p (e - 1 + least_exponent F)
       | _ => S754_nan
       end.

Definition float_of_bits (F : Format) (b : Z) : spec_float :=
  float_of_fields F (sign_weight F <=? b)
    ((b / 2 ^ mantissa_bits F) mod 2 ^ exponent_bits F) (b mod 2 ^ mantissa_bits F).

Definition bits_of_fields (F : Format) (s : bool) (e m : Z) : Z :=
  (if s then sign_weight F else 0) + e * 2 ^ mantissa_bits F + m.

Definition bits_of_float (F : Format) (x : spec_float) : Z :=
  match x with
  | S754_zero s => bits_of_fields F s 0 0
  | S754_infinity s => bits_of_fields F s (top_exponent F) 0
  | S754_nan => bits_of_fields F false (top_exponent F) (2 ^ (mantissa_bits F - 1))
  | S754_finite s p e =>
      if Zpos p <? 2 ^ mantissa_bits F then bits_of_fields F s 0 (Zpos p)
      else bits_of_fields F s (e - least_exponent F + 1) (Zpos p - 2 ^ mantissa_bits F)
  end.

Definition is_nan (x : spec_float) : bool := match x with S754_nan => true | _ => false end.

Abbreviation double_of_bits := (float_of_bits binary64).
Abbreviation bits_of_double := (bits_of_float binary64).
Abbreviation single_of_bits := (float_of_bits binary32).
Abbreviation bits_of_single := (bits_of_float binary32).

(** ** Conversions *)

Definition round_to (F : Format) (s : bool) (p : positive) (e : Z) : spec_float :=
  binary_round (prec F) (emax F) s p e.

(** A conversion from an integer type. *)
Definition float_of_Z (F : Format) (z : Z) : spec_float :=
  binary_normalize (prec F) (emax F) z 0 false.

(** A conversion between the two formats. *)
Definition convert (F : Format) (x : spec_float) : spec_float :=
  match x with S754_finite s p e => round_to F s p e | _ => x end.

Definition truncate (x : spec_float) : option Z :=
  match x with
  | S754_zero _ => Some 0
  | S754_finite s p e =>
      let m := if 0 <=? e then Zpos p * 2 ^ e else Zpos p / 2 ^ (- e) in
      Some (if s then - m else m)
  | _ => None
  end.

(** A conversion to a signed integer type of [w] bits cuts the fraction; it is
    undefined where the type does not hold the result. *)
Definition int_of_float (w : Z) (x : spec_float) : outcome Z :=
  match truncate x with
  | Some z => if decide (in_i w z) then Ok z else Undef
  | None => Undef
  end.

(** ** Arithmetic *)

Section arithmetic.
Context (F : Format).
Definition fadd (x y : spec_float) : spec_float := SFadd (prec F) (emax F) x y.
Definition fsub (x y : spec_float) : spec_float := SFsub (prec F) (emax F) x y.
Definition fmul (x y : spec_float) : spec_float := SFmul (prec F) (emax F) x y.
Definition fdiv (x y : spec_float) : spec_float := SFdiv (prec F) (emax F) x y.
End arithmetic.

(** The greatest finite double, [DBL_MAX]. *)
Definition DBL_MAX : spec_float := S754_finite false (2 ^ 53 - 1) 971.

(** The comparisons of C: every one but [!=] is false on NaN. *)
Definition feq (x y : spec_float) : bool := SFeqb x y.
Definition fne (x y : spec_float) : bool := negb (SFeqb x y).
Definition flt (x y : spec_float) : bool := SFltb x y.
Definition fle (x y : spec_float) : bool := SFleb x y.

(** ** The bits determine the number *)

Lemma float_of_bits_of_fields (F : Format) (s : bool) (e m : Z) :
  0 < mantissa_bits F → 0 < exponent_bits F →
  0 ≤ e < 2 ^ exponent_bits F → 0 ≤ m < 2 ^ mantissa_bits F →
  float_of_bits F (bits_of_fields F s e m) = float_of_fields F s e m.
Proof.
  intros Hm He Hex Hmx. unfold float_of_bits, bits_of_fields, sign_weight.
  rewrite Z.pow_add_r by lia.
  set (M := 2 ^ mantissa_bits F) in *. set (E := 2 ^ exponent_bits F) in *.
  set (k := if s then M * E else 0).
  assert (Hk : k = (if s then E else 0) * M) by (unfold k; destruct s; lia).
  assert (Hlow : 0 ≤ e * M + m < M * E) by nia.
  assert (H1 : (k + e * M + m) mod M = m).
  { rewrite Hk. replace (_ + m) with (m + ((if s then E else 0) + e) * M) by lia.
    rewrite Z.mod_add by lia. by apply Z.mod_small. }
  assert (H2 : (k + e * M + m) / M mod E = e).
  { rewrite Hk. replace (_ + m) with (m + ((if s then E else 0) + e) * M) by lia.
    rewrite Z.div_add, Z.div_small by lia.
    replace (0 + ((if s then E else 0) + e)) with (e + (if s then 1 else 0) * E)
      by (destruct s; lia).
    rewrite Z.mod_add by lia. by apply Z.mod_small. }
  rewrite H1, H2. f_equal. unfold k. destruct s; [apply Z.leb_le|apply Z.leb_gt]; lia.
Qed.

(** A number of a format: its mantissa is full, or its exponent the least. *)
Definition of_format (F : Format) (x : spec_float) : Prop :=
  match x with
  | S754_finite _ p e =>
      Zpos p < 2 ^ prec F ∧ least_exponent F ≤ e < top_exponent F - 1 + least_exponent F ∧
      (Zpos p < 2 ^ mantissa_bits F → e = least_exponent F)
  | _ => True
  end.

Lemma bits_roundtrip (F : Format) (x : spec_float) :
  1 < mantissa_bits F → 1 < exponent_bits F → of_format F x →
  float_of_bits F (bits_of_float F x) = x.
Proof.
  intros Hm He Hx.
  assert (HE : 2 ^ 1 < 2 ^ exponent_bits F) by (apply Z.pow_lt_mono_r; lia).
  assert (HM : 0 < 2 ^ (mantissa_bits F - 1) < 2 ^ mantissa_bits F)
    by (split; [lia|apply Z.pow_lt_mono_r; lia]).
  assert (HT : top_exponent F = 2 ^ exponent_bits F - 1) by done.
  destruct x as [s|s| |s p e]; cbn [bits_of_float].
  - by rewrite float_of_bits_of_fields by lia.
  - rewrite float_of_bits_of_fields by lia. unfold float_of_fields.
    rewrite (proj2 (Z.eqb_neq _ _)), Z.eqb_refl by lia. done.
  - rewrite float_of_bits_of_fields by lia. unfold float_of_fields.
    rewrite (proj2 (Z.eqb_neq _ _)), Z.eqb_refl by lia.
    by destruct (2 ^ (mantissa_bits F - 1)) eqn:?; try lia.
  - destruct Hx as (Hp & Hr & Hs). unfold prec in Hp. rewrite Z.pow_add_r in Hp by lia.
    destruct (Z.ltb_spec (Zpos p) (2 ^ mantissa_bits F)) as [Hlt|Hge].
    + rewrite float_of_bits_of_fields by lia. cbn. by rewrite Hs.
    + rewrite float_of_bits_of_fields by lia. unfold float_of_fields.
      rewrite !(proj2 (Z.eqb_neq _ _)) by lia.
      replace (Zpos p - 2 ^ mantissa_bits F + 2 ^ mantissa_bits F) with (Zpos p) by lia.
      f_equal. lia.
Qed.

(** ** Comparing integers as doubles

    An integer of magnitude below 2^53 has an exact double, with a full mantissa. *)

Lemma digits2_pos_size p : digits2_pos p = Pos.size p.
Proof. induction p as [p IH|p IH|]; cbn; [by rewrite IH..|done]. Qed.

Lemma digits_bounds p : 2 ^ (Zpos (digits2_pos p) - 1) ≤ Zpos p < 2 ^ Zpos (digits2_pos p).
Proof.
  rewrite digits2_pos_size. pose proof (Pos.size_gt p) as Hg. pose proof (Pos.size_le p) as Hl.
  rewrite <- Pos2Z.inj_pow. split; [|by apply Pos2Z.pos_lt_pos].
  apply Pos2Z.pos_le_pos in Hl. rewrite Pos2Z.inj_pow in Hl.
  replace (2 ^ Zpos (Pos.size p)) with (2 * 2 ^ (Zpos (Pos.size p) - 1)) in Hl; [lia|].
  rewrite <- Z.pow_succ_r by lia. f_equal. lia.
Qed.

Lemma digits_unique p n : 2 ^ (n - 1) ≤ Zpos p < 2 ^ n → 0 < n → Zpos (digits2_pos p) = n.
Proof.
  intros [Hl Hu] Hn. pose proof (digits_bounds p) as [Hl' Hu'].
  apply Z.le_antisymm.
  - destruct (Z.le_gt_cases (Zpos (digits2_pos p)) n) as [|Hgt]; [lia|].
    assert (2 ^ n ≤ 2 ^ (Zpos (digits2_pos p) - 1)) by (apply Z.pow_le_mono_r; lia). lia.
  - destruct (Z.le_gt_cases n (Zpos (digits2_pos p))) as [|Hgt]; [lia|].
    assert (2 ^ Zpos (digits2_pos p) ≤ 2 ^ (n - 1)) by (apply Z.pow_le_mono_r; lia). lia.
Qed.

Lemma shift_pos_value d m : Zpos (shift_pos d m) = Zpos m * 2 ^ Zpos d.
Proof. rewrite shift_pos_correct. apply Z.mul_comm. Qed.

(** The mantissa [M] of 53 bits and the exponent [k] of an integer [m]. *)
Definition full_mantissa (m M : positive) (k : Z) : Prop :=
  -53 < k ≤ 0 ∧ Zpos M = Zpos m * 2 ^ (- k) ∧ 2 ^ 52 ≤ Zpos M < 2 ^ 53.

Lemma round_full s M k :
  2 ^ 52 ≤ Zpos M < 2 ^ 53 → -53 < k ≤ 0 →
  binary_round_aux 53 1024 s (Zpos M) k loc_Exact = S754_finite s M k.
Proof.
  intros HM Hk.
  assert (Hd : Zpos (digits2_pos M) = 53) by (apply digits_unique; [done|lia]).
  assert (Hf : fexp 53 1024 (Zpos (digits2_pos M) + k) - k = 0).
  { unfold fexp, emin. rewrite Hd. lia. }
  unfold binary_round_aux, shr_fexp. cbn [Zdigits2 shr_record_of_loc]. rewrite Hf. cbn.
  rewrite Hf. cbn. by rewrite (proj2 (Z.leb_le k (1024 - 53))) by lia.
Qed.

Lemma round_integer s m :
  Zpos m < 2 ^ 53 →
  ∃ M k, binary_round 53 1024 s m 0 = S754_finite s M k ∧ full_mantissa m M k.
Proof.
  intros Hm. pose proof (digits_bounds m) as [Hl Hu].
  set (d := Zpos (digits2_pos m)) in *. assert (0 < d) by (unfold d; lia).
  assert (Hd : d ≤ 53).
  { destruct (Z.le_gt_cases d 53) as [|Hgt]; [lia|].
    assert (2 ^ 53 ≤ 2 ^ (d - 1)) by (apply Z.pow_le_mono_r; lia). lia. }
  assert (Hp : 2 ^ 53 = 2 ^ d * 2 ^ (53 - d)) by (rewrite <- Z.pow_add_r by lia; f_equal; lia).
  assert (Hq : 2 ^ 52 = 2 ^ (d - 1) * 2 ^ (53 - d)) by (rewrite <- Z.pow_add_r by lia; f_equal; lia).
  assert (0 < 2 ^ (53 - d)) by lia.
  unfold binary_round, shl_align. fold d.
  replace (fexp 53 1024 (d + 0) - 0) with (d - 53) by (unfold fexp, emin; lia).
  destruct (d - 53) as [|e|e] eqn:E; [|lia|].
  - exists m, 0. rewrite round_full by (replace d with 53 in * by lia; lia). split; [done|].
    unfold full_mantissa. replace d with 53 in * by lia. lia.
  - assert (He : Zpos e = 53 - d) by lia.
    assert (HM : Zpos (shift_pos e m) = Zpos m * 2 ^ (53 - d)) by (by rewrite shift_pos_value, He).
    exists (shift_pos e m), (d - 53).
    replace (fexp 53 1024 (d + 0)) with (d - 53) by (unfold fexp, emin; lia).
    assert (2 ^ 52 ≤ Zpos (shift_pos e m) < 2 ^ 53).
    { rewrite HM, Hp, Hq. split; [apply Z.mul_le_mono_nonneg_r|apply Z.mul_lt_mono_pos_r]; lia. }
    rewrite round_full; [|done|lia]. split; [done|]. unfold full_mantissa.
    replace (- (d - 53)) with (53 - d) by lia. split; [lia|]. by split.
Qed.

Lemma full_mantissa_compare m1 M1 k1 m2 M2 k2 :
  full_mantissa m1 M1 k1 → full_mantissa m2 M2 k2 →
  match k1 ?= k2 with Eq => Pos.compare_cont Eq M1 M2 | c => c end = (Zpos m1 ?= Zpos m2).
Proof.
  assert (Hlt : ∀ m1 M1 k1 m2 M2 k2, full_mantissa m1 M1 k1 → full_mantissa m2 M2 k2 →
    k1 < k2 → Zpos m1 < Zpos m2).
  { clear. intros m1 M1 k1 m2 M2 k2 (? & E1 & ?) (? & E2 & ?) Hk.
    assert (2 ^ (- k1) = 2 ^ (- k2) * 2 ^ (k2 - k1)) by (rewrite <- Z.pow_add_r by lia; f_equal; lia).
    assert (2 ^ 1 ≤ 2 ^ (k2 - k1)) by (apply Z.pow_le_mono_r; lia).
    assert (0 < 2 ^ (- k2)) by lia. nia. }
  intros H1 H2. destruct (Z.compare_spec k1 k2) as [->|Hk|Hk].
  - destruct H1 as (? & E1 & _), H2 as (_ & E2 & _).
    change (Pos.compare_cont Eq M1 M2) with (Zpos M1 ?= Zpos M2). rewrite E1, E2.
    symmetry. apply Zmult_compare_compat_r. lia.
  - symmetry. apply Z.compare_lt_iff. by eapply Hlt.
  - symmetry. apply Z.compare_gt_iff. by eapply Hlt.
Qed.

Lemma float_of_Z_compare a b :
  - 2 ^ 53 < a < 2 ^ 53 → - 2 ^ 53 < b < 2 ^ 53 →
  SFcompare (float_of_Z binary64 a) (float_of_Z binary64 b) = Some (a ?= b).
Proof.
  intros Ha Hb. unfold float_of_Z, binary_normalize.
  change (prec binary64) with 53. change (emax binary64) with 1024.
  destruct a as [|a|a], b as [|b|b]; try done;
    repeat match goal with
    | |- context [binary_round 53 1024 ?s ?m 0] =>
        destruct (round_integer s m) as (? & ? & -> & ?); [lia|]
    end; cbn [SFcompare]; try done; f_equal.
  - by apply full_mantissa_compare.
  - change (Zneg a ?= Zneg b) with (CompOpp (Zpos a ?= Zpos b)).
    erewrite <- full_mantissa_compare by done.
    by destruct (_ ?= _).
Qed.
