(* ===== verification/Delta.v ===== *)
(** * Integer column codecs: zigzag, varint and delta encoding

    Models the integer half of [src/storage/compression.c]: [zigzag_encode] and
    [zigzag_decode], the varint writer and reader, and the delta codec
    [compress_delta]/[decompress_delta] with its raw fallback. *)
From S2P Require Import Prelude.

(** ** Zigzag *)

(** [(uint64)((n << 1) ^ (n >> 63))] *)
Definition zigzag_encode (n : Z) : Z :=
  u64 (Z.lxor (i64 (Z.shiftl n 1)) (Z.shiftr n 63)).

(** [(int64)((n >> 1) ^ -(int64)(n & 1))] *)
Definition zigzag_decode (n : Z) : Z :=
  i64 (Z.lxor (Z.shiftr n 1) (u64 (- Z.land n 1))).

(** ** Varints *)

(** The [while (value >= 0x80)] loop; [None] when the fuel runs out, which ten
    iterations exclude for a 64-bit value ([encode_varint_loop_total]). *)
Fixpoint encode_varint_loop (fuel : nat) (value : Z) : option (list Z) :=
  match fuel with
  | O => None
  | S fuel =>
      if 128 <=? value then
        bs ← encode_varint_loop fuel (Z.shiftr value 7);
        Some (u8 (Z.lor (Z.land value 127) 128) :: bs)
      else Some [u8 value]
  end.

Definition encode_varint (value : Z) : list Z :=
  default [] (encode_varint_loop 10 value).

(** The [do ... while] loop over the bytes from the current position.  Reading
    past the buffer and a shift by 64 or more are undefined. *)
Fixpoint decode_varint_loop (input : list Z) (result shift : Z) (bytes : nat) :
    outcome (Z * nat) :=
  match input with
  | [] => Undef
  | b :: rest =>
      if 64 <=? shift then Undef else
      let result := Z.lor result (u64 (Z.shiftl (Z.land b 127) shift)) in
      if Z.land b 128 =? 0 then Ok (result, S bytes)
      else decode_varint_loop rest result (shift + 7) (S bytes)
  end.

Definition decode_varint (input : list Z) : outcome (Z * nat) :=
  decode_varint_loop input 0 0 0.

(** ** Delta *)

(** The [int64] view of the input: the [count] words of [values]. *)
Fixpoint read_i64s (count : nat) (input : list Z) : list Z :=
  match count with
  | O => []
  | S count => i64 (le_dec (take 8 input)) :: read_i64s count (drop 8 input)
  end.

Definition write_i64s (values : list Z) : list Z := values ≫= le_enc 8.

(** [memcpy(output, input, input_size); return input_size;] *)
Definition copy_raw (input : list Z) (max_output_size : Z) : outcome (Z * list Z) :=
  if len input <=? max_output_size then Ok (len input, input) else Undef.

(** The encoding loop; [None] is the early fall-back to the raw copy. *)
Fixpoint compress_delta_loop (max_output_size prev : Z) (values out : list Z) :
    option (list Z) :=
  match values with
  | [] => Some out
  | v :: values =>
      let delta := i64 (v - prev) in
      let zigzag := zigzag_encode delta in
      if max_output_size <? len out + 10 then None
      else compress_delta_loop max_output_size v values (out ++ encode_varint zigzag)
  end.

(** The result pairs the returned size (or -1) with the bytes stored in
    [output]. *)
Definition compress_delta (input : list Z) (max_output_size : Z) : outcome (Z * list Z) :=
  let count := len input / 8 in
  if max_output_size <? 8 then Ok (-1, []) else
  match compress_delta_loop max_output_size 0 (read_i64s (Z.to_nat count) input)
          (le_enc 8 count) with
  | None => copy_raw input max_output_size
  | Some out =>
      if len input <=? len out then copy_raw input max_output_size
      else Ok (len out, out)
  end.

(** [for (i = 0; i < count && in_idx < input_size; i++)]: [input] is what is left
    from [in_idx]. *)
Fixpoint decompress_delta_loop (count : nat) (prev : Z) (input : list Z) :
    outcome (list Z) :=
  match count, input with
  | O, _ | _, [] => Ok []
  | S count, _ =>
      '(zigzag, bytes_read) ← decode_varint input;
      let v := i64 (prev + zigzag_decode zigzag) in
      vs ← decompress_delta_loop count v (drop bytes_read input);
      Ok (v :: vs)
  end.

(** The fall-back: running sums of the 64-bit words of the input. *)
Fixpoint prefix_sums (prev : Z) (deltas : list Z) : list Z :=
  match deltas with
  | [] => []
  | d :: deltas => let v := i64 (prev + d) in v :: prefix_sums v deltas
  end.

Definition decompress_delta (input : list Z) (expected_size : Z) : outcome (Z * list Z) :=
  let count := Z.quot expected_size 8 in
  if (8 <=? len input) && (i64 (le_dec (take 8 input)) =? count) then
    vs ← decompress_delta_loop (Z.to_nat count) 0 (drop 8 input);
    Ok (expected_size, write_i64s vs)
  else
    let words := len input / 8 in
    if words * 8 <=? expected_size then
      Ok (expected_size, write_i64s (prefix_sums 0 (read_i64s (Z.to_nat words) input)))
    else Undef.

(** ** Zigzag facts *)

Lemma zigzag_encode_spec n :
  in_i 64 n → zigzag_encode n = if 0 <=? n then 2 * n else - 2 * n - 1.
Proof.
  intros [? ?]. unfold zigzag_encode. rewrite Z.shiftl_mul_pow2 by lia.
  destruct (Z.leb_spec 0 n).
  - replace (Z.shiftr n 63) with 0.
    + rewrite Z.lxor_0_r, uwrap_swrap by lia. rewrite uwrap_id; unfold in_u; lia.
    + symmetry. rewrite Z.shiftr_div_pow2 by lia. apply Z.div_small. lia.
  - replace (Z.shiftr n 63) with (-1).
    + rewrite Z.lxor_m1_r. unfold Z.lnot.
      replace (Z.pred (- i64 (n * 2 ^ 1))) with (-1 - i64 (n * 2 ^ 1)) by lia.
      unfold uwrap at 1. rewrite Zminus_mod.
      change (i64 (n * 2 ^ 1) mod 2 ^ 64) with (u64 (i64 (n * 2 ^ 1))).
      rewrite uwrap_swrap by lia. unfold uwrap. rewrite <- Zminus_mod.
      rewrite Z.mod_small; lia.
    + symmetry. rewrite Z.shiftr_div_pow2 by lia. symmetry.
      apply Z.div_unique with (n + 2 ^ 63); lia.
Qed.

Lemma zigzag_encode_range n : in_u 64 (zigzag_encode n).
Proof. apply uwrap_range. lia. Qed.

Lemma zigzag_decode_spec z :
  in_u 64 z → zigzag_decode z = if Z.even z then z / 2 else - (z / 2) - 1.
Proof.
  intros [? ?]. unfold zigzag_decode.
  change (Z.land z 1) with (Z.land z (Z.ones 1)).
  rewrite land_ones_mod by lia. change (2 ^ 1) with 2.
  rewrite Z.shiftr_div_pow2 by lia. change (2 ^ 1) with 2.
  rewrite Zmod_even. destruct (Z.even z) eqn:E.
  - change (u64 (- 0)) with 0. rewrite Z.lxor_0_r.
    apply swrap_id; unfold in_i; [lia|].
    pose proof (Z.div_le_mono z (2 ^ 64 - 1) 2). split; [|change (2 ^ (64 - 1)) with (2 ^ 63)].
    + pose proof (Z.div_pos z 2). lia.
    + apply Z.div_lt_upper_bound; lia.
  - change (u64 (Z.opp 1)) with (Z.ones 64).
    rewrite <- swrap_uwrap by lia. unfold uwrap. rewrite <- land_ones_mod by lia.
    assert (Hd : 0 ≤ z / 2 < 2 ^ 63).
    { split; [apply Z.div_pos; lia|apply Z.div_lt_upper_bound; lia]. }
    transitivity (i64 (Z.land (Z.lnot (z / 2)) (Z.ones 64))).
    2: { rewrite land_ones_mod by lia. fold (uwrap 64 (Z.lnot (z / 2))).
      rewrite swrap_uwrap by lia. unfold Z.lnot.
      rewrite swrap_id; unfold in_i; lia. }
    apply (f_equal i64).
    apply Z.bits_inj'. intros i Hi. rewrite !Z.land_spec, Z.lxor_spec, Z.lnot_spec by lia.
    destruct (decide (i < 64)).
    + rewrite Z.ones_spec_low by lia. by rewrite !andb_true_r, xorb_true_r.
    + rewrite Z.ones_spec_high by lia. by rewrite !andb_false_r.
Qed.

Lemma zigzag_decode_encode n : in_i 64 n → zigzag_decode (zigzag_encode n) = n.
Proof.
  intros Hn. rewrite zigzag_decode_spec by apply zigzag_encode_range.
  rewrite zigzag_encode_spec by done. destruct (Z.leb_spec 0 n).
  - rewrite Z.even_mul. cbn -[Z.div Z.mul]. rewrite Z.mul_comm, Z.div_mul; lia.
  - replace (-2 * n - 1) with (1 + 2 * (- n - 1)) by lia.
    rewrite Z.even_add_mul_2. cbn -[Z.div Z.mul].
    rewrite (Z.mul_comm 2), Z.div_add by lia.
    change (1 / 2) with 0. lia.
Qed.

(** ** Varint facts *)

Lemma encode_varint_loop_total fuel v :
  (0 < fuel)%nat → in_u (7 * Z.of_nat fuel) v → is_Some (encode_varint_loop fuel v).
Proof.
  revert v. induction fuel as [|fuel IH]; intros v Hf [Hv Hb]; [lia|]. simpl.
  destruct (Z.leb_spec 128 v); [|eauto].
  destruct fuel as [|fuel]; [change (2 ^ (7 * Z.of_nat 1)) with 128 in Hb; lia|].
  destruct (IH (Z.shiftr v 7)) as [bs Hbs]; [lia| |by rewrite Hbs; eauto].
  rewrite Z.shiftr_div_pow2 by lia. split; [apply Z.div_pos; lia|].
  apply Z.div_lt_upper_bound; [lia|]. rewrite <- Z.pow_add_r by lia.
  eapply Z.lt_le_trans; [done|]. apply Z.pow_le_mono_r; lia.
Qed.

Lemma encode_varint_loop_bytes fuel v bs :
  0 ≤ v → encode_varint_loop fuel v = Some bs →
  bytes_ok bs ∧ (1 ≤ length bs ≤ fuel)%nat.
Proof.
  revert v bs. induction fuel as [|fuel IH]; intros v bs Hv; [done|]. simpl.
  destruct (Z.leb_spec 128 v).
  - destruct (encode_varint_loop fuel _) as [bs'|] eqn:E; simpl; intros; simplify_eq.
    apply IH in E as [? ?]; [|apply Z.shiftr_nonneg; lia].
    split; [constructor; auto with width zarith|simpl; lia].
  - intros; simplify_eq. split; [|simpl; lia].
    constructor; [apply uwrap_range; lia|constructor].
Qed.

Lemma encode_varint_facts v :
  in_u 64 v →
  encode_varint_loop 10 v = Some (encode_varint v) ∧
  bytes_ok (encode_varint v) ∧ 1 ≤ len (encode_varint v) ≤ 10.
Proof.
  intros Hv. destruct (encode_varint_loop_total 10 v) as [bs Hbs]; [lia| |].
  { unfold in_u in *. change (2 ^ (7 * Z.of_nat 10)) with (2 ^ 70). lia. }
  unfold encode_varint. rewrite Hbs. simpl.
  apply encode_varint_loop_bytes in Hbs as [? ?]; [|apply Hv]. auto with lia.
Qed.

(** The continuation byte and the payload of an emitted byte. *)
Lemma varint_byte_cont a :
  0 ≤ a < 128 →
  u8 (Z.lor a 128) = a + 128 ∧ Z.land (a + 128) 127 = a ∧ Z.land (a + 128) 128 ≠ 0.
Proof.
  intros Ha.
  pose proof (range_check 128 (λ a, (u8 (Z.lor a 128) =? a + 128) &&
    (Z.land (a + 128) 127 =? a) && negb (Z.land (a + 128) 128 =? 0)) eq_refl a Ha).
  rewrite !andb_true_iff, negb_true_iff in *. lia.
Qed.

Lemma varint_byte_last a :
  0 ≤ a < 128 → u8 a = a ∧ Z.land a 127 = a ∧ Z.land a 128 = 0.
Proof.
  intros Ha.
  pose proof (range_check 128 (λ a, (u8 a =? a) &&
    (Z.land a 127 =? a) && (Z.land a 128 =? 0)) eq_refl a Ha).
  rewrite !andb_true_iff in *. lia.
Qed.

Lemma varint_accumulate result a shift :
  0 ≤ shift → 0 ≤ result < 2 ^ shift → 0 ≤ a → a * 2 ^ shift < 2 ^ 64 →
  Z.lor result (u64 (Z.shiftl a shift)) = result + a * 2 ^ shift.
Proof.
  intros. rewrite uwrap_id; [by apply lor_disjoint_add|].
  rewrite Z.shiftl_mul_pow2 by done. split; [|done]. apply Z.mul_nonneg_nonneg; lia.
Qed.

Lemma decode_varint_loop_encode fuel v bs rest result shift bytes :
  encode_varint_loop fuel v = Some bs →
  0 ≤ v → 0 ≤ shift < 64 → v * 2 ^ shift < 2 ^ 64 → 0 ≤ result < 2 ^ shift →
  decode_varint_loop (bs ++ rest) result shift bytes =
    Ok (result + v * 2 ^ shift, (bytes + length bs)%nat).
Proof.
  revert v bs result shift bytes.
  induction fuel as [|fuel IH]; intros v bs result shift bytes; [done|]. simpl.
  intros Hs Hv Hshift Hb Hr.
  destruct (Z.leb_spec 128 v) as [Hc|Hc].
  - destruct (encode_varint_loop fuel _) as [bs'|] eqn:E; simpl in Hs; [|done].
    injection Hs as <-. simpl.
    change 127 with (Z.ones 7) in *. rewrite (land_ones_mod v 7) by lia.
    pose proof (Z.mod_pos_bound v (2 ^ 7) ltac:(lia)) as Hm.
    pose proof (Z.div_mod v (2 ^ 7) ltac:(lia)) as Hdm.
    destruct (varint_byte_cont (v mod 2 ^ 7)) as (-> & Hl & Hn); [done|].
    change (Z.ones 7) with 127. rewrite Hl.
    destruct (Z.leb_spec 64 shift); [lia|].
    destruct (Z.eqb_spec (Z.land (v mod 2 ^ 7 + 128) 128) 0); [done|].
    rewrite Z.shiftr_div_pow2 in E by lia.
    assert (Hlt : shift + 7 < 64).
    { apply (Z.pow_lt_mono_r_iff 2); [lia..|]. rewrite Z.pow_add_r by lia. nia. }
    assert (0 < 2 ^ shift) by (apply Z.pow_pos_nonneg; lia).
    assert (v mod 2 ^ 7 * 2 ^ shift < 2 ^ 64).
    { apply Z.le_lt_trans with (v * 2 ^ shift); [|done].
      apply Z.mul_le_mono_nonneg_r; lia. }
    rewrite varint_accumulate by lia.
    rewrite (IH _ _ _ _ _ E); [|apply Z.div_pos; lia|lia|..].
    + f_equal. f_equal; [|lia].
      rewrite Z.pow_add_r by lia. rewrite Hdm at 3. lia.
    + rewrite Z.pow_add_r by lia. nia.
    + rewrite Z.pow_add_r by lia. nia.
  - injection Hs as <-. simpl.
    destruct (varint_byte_last v) as (-> & -> & ->); [lia|].
    destruct (Z.leb_spec 64 shift); [lia|]. simpl.
    rewrite varint_accumulate by lia. do 2 f_equal; lia.
Qed.

(** [decode_varint] inverts [encode_varint] whatever follows in the buffer. *)
Lemma decode_encode_varint v rest :
  in_u 64 v → decode_varint (encode_varint v ++ rest) = Ok (v, length (encode_varint v)).
Proof.
  intros Hv. destruct (encode_varint_facts v Hv) as (E & _ & _).
  unfold decode_varint. unfold in_u in Hv.
  rewrite (decode_varint_loop_encode _ _ _ _ _ _ _ E) by lia.
  do 2 f_equal. lia.
Qed.

(** ** Delta facts *)

Lemma read_i64s_length n bs : length (read_i64s n bs) = n.
Proof. revert bs. induction n; intros; simpl; auto. Qed.

Lemma read_i64s_range n bs : Forall (in_i 64) (read_i64s n bs).
Proof. revert bs. induction n; intros; simpl; constructor; auto with width lia. Qed.

Lemma write_read_i64s n bs :
  length bs = (8 * n)%nat → bytes_ok bs → write_i64s (read_i64s n bs) = bs.
Proof.
  revert bs. induction n as [|n IH]; intros bs Hl Hb.
  - destruct bs; [done|simpl in Hl; lia].
  - cbn [read_i64s]. unfold write_i64s. rewrite bind_cons, le_enc_i64, le_enc_dec.
    + change (read_i64s n (drop 8 bs) ≫= le_enc 8) with (write_i64s (read_i64s n (drop 8 bs))).
      rewrite IH; [apply take_drop|rewrite length_drop; lia|by apply Forall_drop].
    + rewrite length_take. lia.
    + by apply Forall_take.
Qed.

Lemma compress_delta_loop_decodes max prev values out out' :
  in_i 64 prev → Forall (in_i 64) values →
  compress_delta_loop max prev values out = Some out' →
  ∃ enc, out' = out ++ enc ∧
    decompress_delta_loop (length values) prev enc = Ok values.
Proof.
  intros Hp Hv. revert prev out Hp.
  induction Hv as [|v values Hv Hvs IH]; intros prev out Hp; simpl.
  - intros [= <-]. exists []. by rewrite app_nil_r.
  - destruct (Z.ltb_spec max (len out + 10)); [done|].
    intros (enc & -> & Henc)%IH; [|done].
    set (z := zigzag_encode (i64 (v - prev))).
    exists (encode_varint z ++ enc). split; [by rewrite <- app_assoc|].
    pose proof (zigzag_encode_range (i64 (v - prev))) as Hz. fold z in Hz.
    pose proof (encode_varint_facts z Hz) as (_ & _ & Hlen).
    destruct (encode_varint z ++ enc) as [|b bs] eqn:E.
    { apply (f_equal length) in E. rewrite length_app in E. simpl in E. lia. }
    rewrite <- E, decode_encode_varint by done. simpl.
    rewrite drop_app_length. unfold z.
    rewrite zigzag_decode_encode by (apply swrap_range; lia).
    rewrite swrap_add_r by lia. replace (prev + (v - prev)) with v by lia.
    rewrite swrap_id by (done || lia). by rewrite Henc.
Qed.

Lemma compress_delta_loop_bound max prev values out out' :
  len out ≤ max → compress_delta_loop max prev values out = Some out' → len out' ≤ max.
Proof.
  revert prev out. induction values as [|v values IH]; intros prev out Ho; simpl.
  - by intros [= <-].
  - destruct (Z.ltb_spec max (len out + 10)); [done|]. apply IH.
    pose proof (encode_varint_facts _ (zigzag_encode_range (i64 (v - prev)))).
    rewrite length_app. lia.
Qed.

Lemma prefix_sums_fixed prev ws :
  in_i 64 prev → Forall (in_i 64) ws →
  prefix_sums prev ws = ws ↔ Forall (λ v, v = 0) (take (length ws) (prev :: ws)).
Proof.
  intros Hp Hws. revert prev Hp. induction Hws as [|d ws Hd Hws IH]; intros prev Hp.
  - simpl. split; [constructor|done].
  - simpl. rewrite Forall_cons. split.
    + intros [= Hv Hr]. rewrite Hv in Hr. apply IH in Hr; [|done].
      split; [|done].
      rewrite <- (swrap_id 64 d) in Hv at 2 by (done || lia).
      unfold swrap, in_i in *.
      assert (Hm : (prev + d + 2 ^ (64 - 1)) mod 2 ^ 64 = (d + 2 ^ (64 - 1)) mod 2 ^ 64) by lia.
      assert (Hz : prev mod 2 ^ 64 = 0).
      { replace prev with ((prev + d + 2 ^ (64 - 1)) - (d + 2 ^ (64 - 1))) by lia.
        rewrite Zminus_mod, Hm, Z.sub_diag. done. }
      apply Z.mod_divide in Hz as [k Hk]; [|done]. nia.
    + intros [-> Ht]. rewrite Z.add_0_l, swrap_id by (done || lia).
      f_equal. by apply IH.
Qed.

Lemma prefix_sums_range prev ws : Forall (in_i 64) (prefix_sums prev ws).
Proof. revert prev. induction ws; intros; simpl; constructor; auto with width lia. Qed.

Lemma write_i64s_inj vs ws :
  Forall (in_i 64) vs → Forall (in_i 64) ws → write_i64s vs = write_i64s ws → vs = ws.
Proof.
  intros Hvs. revert ws. induction Hvs as [|v vs Hv Hvs IH]; intros [|w ws] Hws.
  - done.
  - unfold write_i64s. rewrite bind_cons. intros E%(f_equal length).
    rewrite length_app in E. pose proof (le_enc_length 8 w). simpl in E. lia.
  - unfold write_i64s. rewrite bind_cons. intros E%(f_equal length).
    rewrite length_app in E. pose proof (le_enc_length 8 v). simpl in E. lia.
  - unfold write_i64s. rewrite !bind_cons. apply Forall_cons in Hws as [Hw Hws].
    intros [E1 E2]%app_inj_1; [|pose proof (le_enc_length 8 v); pose proof (le_enc_length 8 w); lia].
    f_equal; [|by apply IH].
    rewrite <- (le_dec_enc_i64 v), <- (le_dec_enc_i64 w) by done. by rewrite E1.
Qed.

(** ** Properties of the delta codec *)

(** The packed path of the delta codec loses nothing. *)
Lemma delta_lossless (n : nat) (input out : list Z) (max r : Z) :
  bytes_ok input → length input = (8 * n)%nat → len input < 2 ^ 63 →
  compress_delta input max = Ok (r, out) → 0 ≤ r < len input →
  r = len out ∧ decompress_delta out (len input) = Ok (len input, input).
Proof.
  intros Hb Hl Hsz. unfold compress_delta.
  assert (Hcount : len input / 8 = Z.of_nat n).
  { rewrite Hl, Nat2Z.inj_mul, Z.mul_comm. by apply Z.div_mul. }
  rewrite Hcount, Nat2Z.id.
  destruct (max <? 8); [intros [= <- <-]; lia|].
  assert (Hraw : copy_raw input max = Ok (r, out) → r = len input).
  { unfold copy_raw. destruct (_ <=? _); [by intros [= <- <-]|done]. }
  destruct (compress_delta_loop _ _ _ _) as [enc|] eqn:E; [|intros ?%Hraw; lia].
  destruct (Z.leb_spec (len input) (len enc)); [intros ?%Hraw; lia|].
  intros [= <- <-] _. split; [done|].
  apply compress_delta_loop_decodes in E as (body & -> & Hdec);
    [|unfold in_i; lia|apply read_i64s_range].
  rewrite read_i64s_length in Hdec. unfold decompress_delta.
  pose proof (le_enc_length 8 (Z.of_nat n) ltac:(lia)) as Hhd.
  rewrite length_app, Nat2Z.inj_add.
  destruct (Z.leb_spec 8 (len (le_enc 8 (Z.of_nat n)) + len body)); [|lia].
  rewrite take_app_length' by lia.
  rewrite drop_app_length' by lia.
  rewrite Z.quot_div_nonneg by lia. rewrite Hcount, Nat2Z.id.
  rewrite le_dec_enc_i64 by (unfold in_i; lia).
  rewrite Z.eqb_refl. simpl. rewrite Hdec. simpl.
  by rewrite write_read_i64s.
Qed.

(** A block that the delta encoder shrinks is decoded to the input, byte
    for byte: whenever [compress_delta] returns a size below [input_size],
    [decompress_delta] on the stored bytes returns [input_size] and restores
    every value, for every buffer limit and with 64-bit wrap-around deltas. *)
Theorem delta_roundtrip (n : nat) (input out : list Z) (max r : Z) :
  bytes_ok input → length input = (8 * n)%nat → len input < 2 ^ 63 →
  compress_delta input max = Ok (r, out) → 0 ≤ r < len input →
  r = len out ∧ decompress_delta out (len input) = Ok (len input, input).
Proof. apply delta_lossless. Qed.

(** The raw fall-back of [compress_delta] stores the values themselves, but
    the decoder reads a block without the count header as deltas: it restores
    such a block exactly when every word before the last one is zero. *)
Theorem delta_raw_block_restored_iff (n : nat) (input : list Z) :
  bytes_ok input → length input = (8 * n)%nat →
  i64 (le_dec (take 8 input)) ≠ Z.of_nat n →
  decompress_delta input (len input) = Ok (len input, input) ↔
  Forall (λ v, v = 0) (take (n - 1) (read_i64s n input)).
Proof.
  intros Hb Hl Hne. unfold decompress_delta.
  assert (Hcount : len input / 8 = Z.of_nat n).
  { rewrite Hl, Nat2Z.inj_mul, Z.mul_comm. by apply Z.div_mul. }
  rewrite Z.quot_div_nonneg, Hcount, Nat2Z.id by lia.
  destruct (Z.eqb_spec (i64 (le_dec (take 8 input))) (Z.of_nat n)); [done|].
  rewrite andb_false_r.
  destruct (Z.leb_spec (Z.of_nat n * 8) (len input)); [|lia].
  pose proof (prefix_sums_fixed 0 (read_i64s n input)) as Hfix.
  rewrite read_i64s_length in Hfix.
  assert (Hinj : write_i64s (prefix_sums 0 (read_i64s n input)) = input ↔
                 prefix_sums 0 (read_i64s n input) = read_i64s n input).
  { rewrite <- (write_read_i64s n input) at 2 by done. split; [|by intros ->].
    apply write_i64s_inj; [|apply read_i64s_range]. apply prefix_sums_range. }
  transitivity (write_i64s (prefix_sums 0 (read_i64s n input)) = input).
  { split; [by intros [= H']|by intros ->]. }
  rewrite Hinj, Hfix; [|unfold in_i; lia|apply read_i64s_range].
  destruct n as [|n]; simpl; [done|].
  rewrite Forall_cons, Nat.sub_0_r. naive_solver.
Qed.

Definition delta_sample : list Z := write_i64s [1000; 1001; 1005; 999].

Lemma delta_roundtrip_witness :
  ∃ out, compress_delta delta_sample 64 = Ok (len out, out) ∧
    decompress_delta out 32 = Ok (32, delta_sample).
Proof.
  exists (le_enc 8 4 ++ [208; 15; 2; 8; 11]). split; [vm_compute; reflexivity|].
  apply (delta_roundtrip 4 delta_sample (le_enc 8 4 ++ [208; 15; 2; 8; 11]) 64 13).
  - decide_now.
  - vm_compute. reflexivity.
  - vm_compute. reflexivity.
  - vm_compute. reflexivity.
  - vm_compute. split; [discriminate|reflexivity].
Defined.

(** Three values the encoder cannot shrink: they come back as running sums. *)
Lemma delta_raw_block_restored_iff_witness :
  let input := write_i64s [2 ^ 62; 5; 2 ^ 61] in
  compress_delta input 64 = Ok (24, input) ∧
  decompress_delta input 24 ≠ Ok (24, input).
Proof.
  split; [vm_compute; reflexivity|]. intros H.
  apply (delta_raw_block_restored_iff 3 (write_i64s [2 ^ 62; 5; 2 ^ 61])) in H.
  - inversion H. discriminate.
  - decide_now.
  - vm_compute. reflexivity.
  - vm_compute. discriminate.
Defined.
