(* ===== verification/Gorilla.v ===== *)
(** * The Gorilla codec for floating-point columns

    Models [compress_gorilla] and [decompress_gorilla] of
    [src/storage/compression.c]: the [WRITE_BITS] and [READ_BITS] macros as loops
    over the partial byte, the leading/trailing zero counters, the three-way
    XOR encoding and the plain XOR fall-back.  A double is its 64-bit pattern.
    The bit packing is shown to implement a stream of booleans, most significant
    bit first, and the codec theorems are proved on that stream. *)
From S2P Require Import Prelude Delta.

(** ** Zero counters *)

Fixpoint ctz_pos (p : positive) : Z :=
  match p with xO p => 1 + ctz_pos p | _ => 0 end.

(** The compiler built-ins [__builtin_clzll] and [__builtin_ctzll] on a non-zero
    64-bit word. *)
Definition builtin_clzll (x : Z) : Z := 63 - Z.log2 x.
Definition builtin_ctzll (x : Z) : Z :=
  match x with Zpos p => ctz_pos p | _ => 0 end.

Definition count_leading_zeros (x : Z) : Z := if x =? 0 then 64 else builtin_clzll x.
Definition count_trailing_zeros (x : Z) : Z := if x =? 0 then 64 else builtin_ctzll x.

(** One line of the portable counters: test a mask, add to [n], shift. *)
Definition clz_step (mask k : Z) (nx : Z * Z) : Z * Z :=
  let '(n, x) := nx in
  if Z.land x mask =? 0 then (n + k, u64 (Z.shiftl x k)) else (n, x).
Definition ctz_step (mask k : Z) (nx : Z * Z) : Z * Z :=
  let '(n, x) := nx in
  if Z.land x mask =? 0 then (n + k, Z.shiftr x k) else (n, x).

(** The [#else] branches, compiled when the built-ins are missing. *)
Definition count_leading_zeros_portable (x : Z) : Z :=
  if x =? 0 then 64 else
  fst (clz_step 0x8000000000000000 1 (clz_step 0xC000000000000000 2
      (clz_step 0xF000000000000000 4 (clz_step 0xFF00000000000000 8
      (clz_step 0xFFFF000000000000 16 (clz_step 0xFFFFFFFF00000000 32 (0, x))))))).
Definition count_trailing_zeros_portable (x : Z) : Z :=
  if x =? 0 then 64 else
  fst (ctz_step 0x1 1 (ctz_step 0x3 2 (ctz_step 0xF 4 (ctz_step 0xFF 8
      (ctz_step 0xFFFF 16 (ctz_step 0xFFFFFFFF 32 (0, x))))))).

(** ** Bit writer *)

(** [out], [current_byte] and [bit_pos]; [out_idx] is the length of [out]. *)
Record BitWriter := { bw_out : list Z; current_byte : Z; bit_pos : Z }.

(** One byte stored at [out[out_idx++]]. *)
Definition emit_byte (max b : Z) (w : BitWriter) : outcome BitWriter :=
  if len (bw_out w) <? max
  then Ok {| bw_out := bw_out w ++ [b]; current_byte := 0; bit_pos := 0 |}
  else Undef.

(** The [while (_bits_remaining > 0)] loop of [WRITE_BITS]; every iteration
    writes at least one bit, so [nbits] iterations are enough. *)
Fixpoint write_bits_loop (fuel : nat) (max value remaining : Z) (w : BitWriter) :
    outcome BitWriter :=
  match fuel with
  | O => Ok w
  | S fuel =>
      if remaining <=? 0 then Ok w else
      let bits_in_byte := 8 - bit_pos w in
      let bits_to_write := Z.min remaining bits_in_byte in
      let shift := remaining - bits_to_write in
      let cur := u8 (Z.lor (current_byte w)
        (Z.shiftl (Z.land (Z.shiftr value shift) (Z.shiftl 1 bits_to_write - 1))
           (bits_in_byte - bits_to_write))) in
      let w := {| bw_out := bw_out w; current_byte := cur;
                  bit_pos := bit_pos w + bits_to_write |} in
      w ← (if bit_pos w =? 8 then emit_byte max (current_byte w) w else Ok w);
      write_bits_loop fuel max value (remaining - bits_to_write) w
  end.

Definition write_bits (max value nbits : Z) (w : BitWriter) : outcome BitWriter :=
  write_bits_loop (Z.to_nat nbits) max value nbits w.

(** ** Encoder *)

Record GorillaEnc := {
  enc_prev_bits : Z; enc_prev_leading : Z; enc_prev_trailing : Z; enc_w : BitWriter }.

(** [(1ULL << n) - 1]: the shift is undefined for [n = 64]. *)
Definition low_mask (n : Z) : outcome Z :=
  if 64 <=? n then Undef else Ok (Z.shiftl 1 n - 1).

(** The body of the loop for value number [i], up to the overflow test. *)
Definition gorilla_put (max i curr_bits : Z) (e : GorillaEnc) : outcome GorillaEnc :=
  let xor_result := Z.lxor curr_bits (enc_prev_bits e) in
  let pl := enc_prev_leading e in
  let pt := enc_prev_trailing e in
  if xor_result =? 0 then
    w ← write_bits max 0 1 (enc_w e);
    Ok {| enc_prev_bits := curr_bits; enc_prev_leading := pl;
          enc_prev_trailing := pt; enc_w := w |}
  else
    let leading := count_leading_zeros xor_result in
    let trailing := count_trailing_zeros xor_result in
    let meaningful_bits := 64 - leading - trailing in
    let leading := if 31 <? leading then 31 else leading in
    if (0 <? i) && (pl <=? leading) && (pt <=? trailing) then
      let prev_meaningful := 64 - pl - pt in
      m ← low_mask prev_meaningful;
      let significant := Z.land (Z.shiftr xor_result pt) m in
      w ← write_bits max 2 2 (enc_w e);
      w ← write_bits max significant prev_meaningful w;
      Ok {| enc_prev_bits := curr_bits; enc_prev_leading := pl;
            enc_prev_trailing := pt; enc_w := w |}
    else
      m ← low_mask meaningful_bits;
      let significant := Z.land (Z.shiftr xor_result trailing) m in
      w ← write_bits max 3 2 (enc_w e);
      w ← write_bits max leading 5 w;
      w ← write_bits max meaningful_bits 6 w;
      w ← write_bits max significant meaningful_bits w;
      Ok {| enc_prev_bits := curr_bits; enc_prev_leading := leading;
            enc_prev_trailing := trailing; enc_w := w |}.

(** The loop over the values; [None] is the switch to the XOR fall-back when
    fewer than 16 bytes are left. *)
Fixpoint compress_gorilla_loop (max i : Z) (values : list Z) (e : GorillaEnc) :
    outcome (option BitWriter) :=
  match values with
  | [] => Ok (Some (enc_w e))
  | v :: values =>
      e ← gorilla_put max i v e;
      if max - 16 <=? len (bw_out (enc_w e)) then Ok None
      else compress_gorilla_loop max (i + 1) values e
  end.

Fixpoint read_u64s (count : nat) (input : list Z) : list Z :=
  match count with
  | O => []
  | S count => le_dec (take 8 input) :: read_u64s count (drop 8 input)
  end.

Fixpoint xor_deltas (prev : Z) (values : list Z) : list Z :=
  match values with
  | [] => []
  | v :: values => Z.lxor v prev :: xor_deltas v values
  end.

Definition compress_gorilla (input : list Z) (max : Z) : outcome (Z * list Z) :=
  let count := len input / 8 in
  let values := read_u64s (Z.to_nat count) input in
  if max <? 8 + count then Ok (-1, []) else
  r ← compress_gorilla_loop max 0 values
        {| enc_prev_bits := 0; enc_prev_leading := 0; enc_prev_trailing := 0;
           enc_w := {| bw_out := le_enc 8 count; current_byte := 0; bit_pos := 0 |} |};
  match r with
  | None =>
      if max <? 8 * count then Undef
      else Ok (8 * count, xor_deltas 0 values ≫= le_enc 8)
  | Some w =>
      w ← (if 0 <? bit_pos w then emit_byte max (current_byte w) w else Ok w);
      Ok (len (bw_out w), bw_out w)
  end.

(** ** Bit reader and decoder *)

(** The reader is the rest of the input from [in_idx], and [bit_pos]. *)
Fixpoint read_bits_loop (fuel : nat) (needed result : Z) (input : list Z) (pos : Z) :
    outcome (Z * list Z * Z) :=
  match fuel with
  | O => Ok (result, input, pos)
  | S fuel =>
      if needed <=? 0 then Ok (result, input, pos) else
      match input with
      | [] => Undef
      | b :: rest =>
          let bits_in_byte := 8 - pos in
          let bits_to_read := Z.min needed bits_in_byte in
          let mask := u8 (Z.shiftl 1 bits_to_read - 1) in
          let shift := bits_in_byte - bits_to_read in
          let result := Z.lor (u64 (Z.shiftl result bits_to_read))
                              (Z.land (Z.shiftr b shift) mask) in
          let pos := pos + bits_to_read in
          if pos =? 8
          then read_bits_loop fuel (needed - bits_to_read) result rest 0
          else read_bits_loop fuel (needed - bits_to_read) result input pos
      end
  end.

Definition read_bits (nbits : Z) (input : list Z) (pos : Z) : outcome (Z * list Z * Z) :=
  read_bits_loop (Z.to_nat nbits) nbits 0 input pos.

(** [x << n] on a [uint64]: undefined unless [0 <= n < 64]. *)
Definition shl64 (x n : Z) : outcome Z :=
  if (0 <=? n) && (n <? 64) then Ok (u64 (Z.shiftl x n)) else Undef.

Fixpoint decompress_gorilla_loop (count : nat) (input : list Z)
    (pos prev_bits prev_leading prev_meaningful : Z) : outcome (list Z) :=
  match count, input with
  | O, _ | _, [] => Ok []
  | S count, _ =>
      '(first_bit, input, pos) ← read_bits 1 input pos;
      if first_bit =? 0 then
        vs ← decompress_gorilla_loop count input pos prev_bits prev_leading prev_meaningful;
        Ok (prev_bits :: vs)
      else
        '(second_bit, input, pos) ← read_bits 1 input pos;
        if second_bit =? 0 then
          '(significant, input, pos) ← read_bits prev_meaningful input pos;
          xor_val ← shl64 significant (64 - prev_leading - prev_meaningful);
          let curr_bits := Z.lxor prev_bits xor_val in
          vs ← decompress_gorilla_loop count input pos curr_bits prev_leading prev_meaningful;
          Ok (curr_bits :: vs)
        else
          '(leading, input, pos) ← read_bits 5 input pos;
          '(meaningful, input, pos) ← read_bits 6 input pos;
          let meaningful := if meaningful =? 0 then 64 else meaningful in
          '(significant, input, pos) ← read_bits meaningful input pos;
          let trailing := 64 - leading - meaningful in
          let trailing := if trailing <? 0 then 0 else trailing in
          xor_val ← shl64 significant trailing;
          let curr_bits := Z.lxor prev_bits xor_val in
          vs ← decompress_gorilla_loop count input pos curr_bits leading meaningful;
          Ok (curr_bits :: vs)
  end.

(** The fall-back reader: running XOR of the 64-bit words. *)
Fixpoint xor_sums (prev : Z) (words : list Z) : list Z :=
  match words with
  | [] => []
  | x :: words => let v := Z.lxor x prev in v :: xor_sums v words
  end.

Definition decompress_gorilla (input : list Z) (expected_size : Z) : outcome (Z * list Z) :=
  let count := Z.quot expected_size 8 in
  if (8 <=? len input) && (i64 (le_dec (take 8 input)) =? count) then
    vs ← decompress_gorilla_loop (Z.to_nat count) (drop 8 input) 0 0 0 64;
    Ok (expected_size, vs ≫= le_enc 8)
  else
    let words := len input / 8 in
    if words * 8 <=? expected_size then
      Ok (expected_size, xor_sums 0 (read_u64s (Z.to_nat words) input) ≫= le_enc 8)
    else Undef.


(** ** Bit streams

    [bits_of n v] is the [n] low bits of [v], most significant first; [val_of] is
    its inverse. *)
Fixpoint bits_of (n : nat) (v : Z) : list bool :=
  match n with O => [] | S n => Z.testbit v (Z.of_nat n) :: bits_of n v end.

Definition val_of (bs : list bool) : Z :=
  fold_left (λ acc b, 2 * acc + Z.b2z b) bs 0.

Definition bytes_bits (bs : list Z) : list bool := bs ≫= bits_of 8.

Lemma bits_of_length n v : length (bits_of n v) = n.
Proof. induction n; simpl; auto. Qed.

Lemma bits_of_app a b v :
  bits_of (a + b) v = bits_of a (Z.shiftr v (Z.of_nat b)) ++ bits_of b v.
Proof.
  induction a as [|a IH]; simpl; [done|]. rewrite IH. f_equal.
  rewrite Z.shiftr_spec by lia. f_equal. lia.
Qed.

Lemma bits_of_ext n v w :
  (∀ i, 0 ≤ i < Z.of_nat n → Z.testbit v i = Z.testbit w i) → bits_of n v = bits_of n w.
Proof.
  induction n as [|n IH]; intros H; simpl; [done|]. f_equal; [apply H; lia|].
  apply IH. intros. apply H. lia.
Qed.

Lemma val_of_snoc bs b : val_of (bs ++ [b]) = 2 * val_of bs + Z.b2z b.
Proof. unfold val_of. by rewrite fold_left_app. Qed.

Lemma val_of_app xs ys : val_of (xs ++ ys) = val_of xs * 2 ^ len ys + val_of ys.
Proof.
  induction ys as [|b ys IH] using rev_ind.
  - rewrite app_nil_r. unfold val_of at 3. simpl. lia.
  - rewrite app_assoc, !val_of_snoc, IH, length_app, Nat2Z.inj_add.
    rewrite Z.pow_add_r by lia. simpl. lia.
Qed.

Lemma val_of_range bs : 0 ≤ val_of bs < 2 ^ len bs.
Proof.
  induction bs as [|b bs IH] using rev_ind; [done|].
  rewrite val_of_snoc, length_app, Nat2Z.inj_add, Z.pow_add_r by lia.
  simpl. destruct b; simpl; lia.
Qed.

Lemma val_of_bits n v : val_of (bits_of n v) = v mod 2 ^ Z.of_nat n.
Proof.
  induction n as [|n IH]; [by rewrite Z.mod_1_r|].
  change (bits_of (S n) v) with ([Z.testbit v (Z.of_nat n)] ++ bits_of n v).
  rewrite val_of_app, bits_of_length, IH.
  change (val_of [Z.testbit v (Z.of_nat n)]) with (Z.b2z (Z.testbit v (Z.of_nat n))).
  rewrite Nat2Z.inj_succ, Z.pow_succ_r by lia.
  rewrite Z.testbit_spec' by lia.
  rewrite (Z.mul_comm 2), Z.rem_mul_r by lia. lia.
Qed.

Lemma val_of_bits_id n v : in_u (Z.of_nat n) v → val_of (bits_of n v) = v.
Proof. intros. rewrite val_of_bits. by apply Z.mod_small. Qed.

(** ** The writer implements a bit stream *)

Definition bw_bits (w : BitWriter) : list bool :=
  bytes_bits (bw_out w) ++
  bits_of (Z.to_nat (bit_pos w)) (Z.shiftr (current_byte w) (8 - bit_pos w)).

(** Between two writes the partial byte is clean below the written bits. *)
Definition bw_wf (w : BitWriter) : Prop :=
  0 ≤ bit_pos w < 8 ∧ in_u 8 (current_byte w) ∧
  ∀ i, 0 ≤ i < 8 - bit_pos w → Z.testbit (current_byte w) i = false.

Lemma write_bits_byte (cur pos x k : Z) :
  0 ≤ pos < 8 → in_u 8 cur →
  (∀ i, 0 ≤ i < 8 - pos → Z.testbit cur i = false) →
  0 < k ≤ 8 - pos →
  let cur' := u8 (Z.lor cur (Z.shiftl (Z.land x (Z.shiftl 1 k - 1)) (8 - pos - k))) in
  in_u 8 cur' ∧
  (∀ i, 0 ≤ i < 8 - pos - k → Z.testbit cur' i = false) ∧
  bits_of (Z.to_nat (pos + k)) (Z.shiftr cur' (8 - (pos + k))) =
    bits_of (Z.to_nat pos) (Z.shiftr cur (8 - pos)) ++ bits_of (Z.to_nat k) x.
Proof.
  intros Hpos Hcur Hlow Hk cur'.
  assert (Hbit : ∀ i, 0 ≤ i < 8 → Z.testbit cur' i =
    Z.testbit cur i || ((8 - pos - k <=? i) && (i <? 8 - pos) &&
                        Z.testbit x (i - (8 - pos - k)))).
  { intros i Hi. unfold cur', uwrap.
    replace (Z.shiftl 1 k - 1) with (Z.ones k)
      by (rewrite Z.ones_equiv, Z.shiftl_1_l; lia).
    rewrite Z.mod_pow2_bits_low by lia.
    rewrite Z.lor_spec, Z.shiftl_spec by lia. f_equal.
    destruct (Z.leb_spec (8 - pos - k) i).
    - rewrite Z.land_spec. destruct (Z.ltb_spec i (8 - pos)).
      + rewrite Z.ones_spec_low by lia. by rewrite andb_true_r.
      + rewrite Z.ones_spec_high by lia. by rewrite andb_false_r.
    - by rewrite Z.testbit_neg_r by lia. }
  split; [apply uwrap_range; lia|]. split.
  - intros i Hi. rewrite Hbit by lia. rewrite Hlow by lia.
    destruct (Z.leb_spec (8 - pos - k) i); [lia|done].
  - rewrite Z2Nat.inj_add by lia. rewrite bits_of_app. f_equal.
    + apply bits_of_ext. intros i Hi. rewrite !Z.shiftr_spec by lia.
      rewrite Hbit by lia.
      replace (i + Z.of_nat (Z.to_nat k) + (8 - (pos + k))) with (i + (8 - pos)) by lia.
      destruct (Z.ltb_spec (i + (8 - pos)) (8 - pos)); [lia|].
      by rewrite andb_false_r, orb_false_r.
    + apply bits_of_ext. intros i Hi. rewrite !Z.shiftr_spec by lia.
      rewrite Hbit by lia. rewrite Hlow by lia.
      destruct (Z.leb_spec (8 - pos - k) (i + (8 - (pos + k)))); [|lia].
      destruct (Z.ltb_spec (i + (8 - (pos + k))) (8 - pos)); [|lia].
      simpl. f_equal. lia.
Qed.

Lemma bytes_bits_snoc bs b : bytes_bits (bs ++ [b]) = bytes_bits bs ++ bits_of 8 b.
Proof. unfold bytes_bits. by rewrite bind_app, bind_singleton. Qed.

Lemma write_bits_loop_spec fuel max value remaining w w' :
  bw_wf w → remaining ≤ Z.of_nat fuel →
  write_bits_loop fuel max value remaining w = Ok w' →
  bw_wf w' ∧ bw_bits w' = bw_bits w ++ bits_of (Z.to_nat remaining) value.
Proof.
  revert remaining w.
  induction fuel as [|fuel IH]; intros remaining w Hwf Hf; cbn [write_bits_loop].
  { intros [= <-]. replace (Z.to_nat remaining) with 0%nat by lia.
    by rewrite app_nil_r. }
  destruct (Z.leb_spec remaining 0).
  { intros [= <-]. replace (Z.to_nat remaining) with 0%nat by lia.
    by rewrite app_nil_r. }
  destruct Hwf as (Hpos & Hcur & Hlow). cbn [bit_pos bw_out current_byte].
  set (k := Z.min remaining (8 - bit_pos w)).
  destruct (write_bits_byte (current_byte w) (bit_pos w) (Z.shiftr value (remaining - k)) k)
    as (Hr & Hl & Hb); [done..|lia|].
  set (cur' := u8 _) in *.
  intros H'. apply outcome_bind_ok in H' as (w1 & H1 & H2).
  assert (Hw1 : bw_wf w1 ∧ bw_bits w1 =
            bw_bits w ++ bits_of (Z.to_nat k) (Z.shiftr value (remaining - k))).
  { unfold bw_bits, bw_wf. rewrite <- app_assoc, <- Hb.
    destruct (Z.eqb_spec (bit_pos w + k) 8) as [He|He].
    - unfold emit_byte in H1. destruct (_ <? _); [|done]. injection H1 as <-. cbn.
      split; [split; [lia|split; [unfold in_u; lia|intros; by rewrite Z.testbit_0_l]]|].
      rewrite app_nil_r, bytes_bits_snoc. f_equal. rewrite He.
      change (8 - 8) with 0. by rewrite Z.shiftr_0_r.
    - injection H1 as <-. cbn. split; [|done].
      split; [lia|]. split; [done|]. intros i Hi. apply Hl. lia. }
  destruct Hw1 as [Hwf1 Hbits1].
  apply IH in H2 as [Hwf' Hbits']; [|done|lia]. split; [done|].
  rewrite Hbits', Hbits1, <- app_assoc. f_equal.
  replace (Z.to_nat remaining) with (Z.to_nat k + Z.to_nat (remaining - k))%nat by lia.
  rewrite bits_of_app. by rewrite Z2Nat.id by lia.
Qed.

Lemma write_bits_spec max value nbits w w' :
  bw_wf w → write_bits max value nbits w = Ok w' →
  bw_wf w' ∧ bw_bits w' = bw_bits w ++ bits_of (Z.to_nat nbits) value.
Proof. intros. eapply write_bits_loop_spec; [done| |done]. lia. Qed.

(** ** The reader consumes a bit stream *)

Definition rd_bits (input : list Z) (pos : Z) : list bool :=
  match input with
  | [] => []
  | b :: rest => bits_of (Z.to_nat (8 - pos)) b ++ bytes_bits rest
  end.

Lemma rd_bits_start input : rd_bits input 0 = bytes_bits input.
Proof. destruct input as [|b rest]; [done|]. unfold bytes_bits. by rewrite bind_cons. Qed.

Lemma read_chunk b k shift result :
  0 < k ≤ 8 → 0 ≤ shift → 0 ≤ result → result * 2 ^ k < 2 ^ 64 →
  Z.lor (u64 (Z.shiftl result k)) (Z.land (Z.shiftr b shift) (u8 (Z.shiftl 1 k - 1))) =
    result * 2 ^ k + val_of (bits_of (Z.to_nat k) (Z.shiftr b shift)).
Proof.
  intros Hk Hs Hr Hb.
  replace (u8 (Z.shiftl 1 k - 1)) with (Z.ones k).
  2: { rewrite Z.shiftl_1_l, Z.ones_equiv, uwrap_id; [lia|].
       assert (2 ^ k ≤ 2 ^ 8) by (apply Z.pow_le_mono_r; lia).
       assert (0 < 2 ^ k) by lia. unfold in_u. lia. }
  rewrite land_ones_mod by lia. rewrite val_of_bits, Z2Nat.id by lia.
  rewrite uwrap_id.
  2: { rewrite Z.shiftl_mul_pow2 by lia. split; [apply Z.mul_nonneg_nonneg; lia|done]. }
  rewrite Z.lor_comm, lor_disjoint_add; [lia|lia|apply Z.mod_pos_bound; lia].
Qed.

Lemma app_split_le {A} (xs ys bs rest : list A) :
  xs ++ ys = bs ++ rest → (length xs ≤ length bs)%nat →
  ∃ bs', bs = xs ++ bs' ∧ ys = bs' ++ rest.
Proof.
  intros E Hl. exists (drop (length xs) bs).
  rewrite <- (take_drop (length xs) bs) in E at 1. rewrite <- app_assoc in E.
  apply app_inj_1 in E as [E1 E2]; [|rewrite length_take; lia].
  split; [|done]. rewrite E1 at 1. by rewrite take_drop.
Qed.

Lemma read_bits_loop_spec fuel needed input pos pre bs rest :
  0 ≤ pos < 8 → needed = len bs → needed ≤ Z.of_nat fuel →
  len pre + needed ≤ 64 → rd_bits input pos = bs ++ rest →
  ∃ input' pos',
    read_bits_loop fuel needed (val_of pre) input pos = Ok (val_of (pre ++ bs), input', pos') ∧
    0 ≤ pos' < 8 ∧ rd_bits input' pos' = rest.
Proof.
  revert needed input pos pre bs rest.
  induction fuel as [|fuel IH]; intros needed input pos pre bs rest Hpos Hn Hf Hl Hbits;
    cbn [read_bits_loop].
  { destruct bs; [|simpl in Hn; lia]. rewrite app_nil_r. by exists input, pos. }
  destruct (Z.leb_spec needed 0).
  { destruct bs; [|simpl in Hn; lia]. rewrite app_nil_r. by exists input, pos. }
  destruct input as [|b tl].
  { destruct bs; simpl in *; [lia|done]. }
  set (k := Z.min needed (8 - pos)). simpl in Hbits.
  replace (Z.to_nat (8 - pos)) with (Z.to_nat k + Z.to_nat (8 - pos - k))%nat in Hbits by lia.
  rewrite bits_of_app, <- app_assoc, Z2Nat.id in Hbits by lia.
  apply app_split_le in Hbits as (bs' & -> & Hrest); [|rewrite bits_of_length; lia].
  rewrite length_app, bits_of_length in Hn.
  assert (Hval : val_of pre * 2 ^ k < 2 ^ 64).
  { apply Z.lt_le_trans with (2 ^ (len pre + k)); [|apply Z.pow_le_mono_r; lia].
    rewrite Z.pow_add_r by lia. apply Z.mul_lt_mono_pos_r; [lia|]. apply val_of_range. }
  pose proof (val_of_range pre).
  rewrite (read_chunk b k (8 - pos - k) (val_of pre)) by lia.
  replace (val_of pre * 2 ^ k + _)
    with (val_of (pre ++ bits_of (Z.to_nat k) (Z.shiftr b (8 - pos - k)))).
  2: { rewrite val_of_app, bits_of_length, Z2Nat.id by lia. done. }
  rewrite (app_assoc pre).
  assert (Hlp : len (pre ++ bits_of (Z.to_nat k) (Z.shiftr b (8 - pos - k))) = len pre + k).
  { rewrite length_app, bits_of_length. lia. }
  destruct (Z.eqb_spec (pos + k) 8) as [He|He].
  - apply IH; [lia..|]. rewrite rd_bits_start.
    replace (Z.to_nat (8 - pos - k)) with 0%nat in Hrest by lia. done.
  - apply IH; [lia..|]. simpl. by replace (8 - (pos + k)) with (8 - pos - k) by lia.
Qed.

(** Reading [n] bits returns their value and leaves the rest of the stream. *)
Lemma read_bits_spec n input pos bs rest :
  0 ≤ pos < 8 → n = len bs → n ≤ 64 → rd_bits input pos = bs ++ rest →
  ∃ input' pos', read_bits n input pos = Ok (val_of bs, input', pos') ∧
    0 ≤ pos' < 8 ∧ rd_bits input' pos' = rest.
Proof.
  intros. apply (read_bits_loop_spec _ _ _ _ [] bs rest); [done..|lia|simpl;lia|done].
Qed.

(** ** Zero counters *)

Lemma ctz_pos_spec p :
  0 ≤ ctz_pos p ∧ ∃ q, 0 < q ∧ Zpos p = q * 2 ^ ctz_pos p ∧ Z.odd q = true.
Proof.
  induction p as [p IH|p IH|]; simpl.
  - split; [lia|]. exists (Zpos p~1). split; [lia|]. split; [lia|done].
  - destruct IH as (Hc & q & Hq & E & Ho). split; [lia|]. exists q. split; [done|].
    split; [|done]. rewrite Z.pow_add_r by lia.
    rewrite Pos2Z.inj_xO. lia.
  - split; [lia|]. exists 1. split; [lia|]. done.
Qed.

Lemma ctz_spec x :
  0 < x → 0 ≤ count_trailing_zeros x ∧
  x = Z.shiftl (Z.shiftr x (count_trailing_zeros x)) (count_trailing_zeros x) ∧
  0 < Z.shiftr x (count_trailing_zeros x) ∧
  Z.odd (Z.shiftr x (count_trailing_zeros x)) = true.
Proof.
  intros Hx. unfold count_trailing_zeros. destruct (Z.eqb_spec x 0); [lia|].
  destruct x as [|p|p]; [lia| |lia]. simpl.
  destruct (ctz_pos_spec p) as (Hc & q & Hq & E & Ho).
  rewrite Z.shiftl_mul_pow2, Z.shiftr_div_pow2 by done.
  rewrite E. rewrite Z.div_mul by lia. auto with lia.
Qed.

Lemma clz_spec x :
  0 < x < 2 ^ 64 → 0 ≤ count_leading_zeros x < 64 ∧
  2 ^ (63 - count_leading_zeros x) ≤ x < 2 ^ (64 - count_leading_zeros x).
Proof.
  intros Hx. unfold count_leading_zeros, builtin_clzll.
  destruct (Z.eqb_spec x 0); [lia|].
  destruct (Z.log2_spec x) as [Hl Hu]; [lia|].
  replace (63 - (63 - Z.log2 x)) with (Z.log2 x) by lia.
  replace (64 - (63 - Z.log2 x)) with (Z.succ (Z.log2 x)) by lia.
  pose proof (Z.log2_nonneg x).
  assert (Z.log2 x < 64) by (apply Z.log2_lt_pow2; lia). lia.
Qed.

Lemma clz_ctz_sum x :
  0 < x < 2 ^ 64 → count_leading_zeros x + count_trailing_zeros x ≤ 63.
Proof.
  intros Hx. destruct (clz_spec x Hx) as [Hl [_ Hu]].
  destruct (ctz_spec x) as (Ht & E & Hq & _); [lia|].
  rewrite Z.shiftl_mul_pow2 in E by lia.
  assert (Hle : 2 ^ count_trailing_zeros x ≤ x) by nia.
  assert (2 ^ count_trailing_zeros x < 2 ^ (64 - count_leading_zeros x)) as Hlt by lia.
  apply Z.pow_lt_mono_r_iff in Hlt; lia.
Qed.

(** ** The portable counters agree with the built-ins *)

Lemma mask_top_zero x k :
  0 ≤ k ≤ 64 → in_u 64 x →
  Z.land x (Z.shiftl (Z.ones k) (64 - k)) = 0 ↔ x < 2 ^ (64 - k).
Proof.
  intros Hk [Hx Hb]. split.
  - intros H0. assert (Hs : Z.shiftr x (64 - k) = 0).
    { assert (E : Z.shiftr (Z.land x (Z.shiftl (Z.ones k) (64 - k))) (64 - k) =
                  Z.shiftr x (64 - k) mod 2 ^ k).
      { rewrite Z.shiftr_land, Z.shiftr_shiftl_l by lia.
        rewrite Z.sub_diag, Z.shiftl_0_r. apply land_ones_mod. lia. }
      rewrite H0, Z.shiftr_0_l in E. rewrite Z.shiftr_div_pow2 in * by lia.
      rewrite Z.mod_small in E; [done|]. split; [apply Z.div_pos; lia|].
      apply Z.div_lt_upper_bound; [lia|]. rewrite <- Z.pow_add_r by lia.
      replace (64 - k + k) with 64 by lia. done. }
    rewrite Z.shiftr_div_pow2 in Hs by lia. apply Z.div_small_iff in Hs; lia.
  - intros Hlt. apply Z.bits_inj'. intros i Hi. rewrite Z.land_spec, Z.bits_0.
    destruct (decide (i < 64 - k)).
    + rewrite Z.shiftl_spec_low by lia. apply andb_false_r.
    + rewrite (bits_high x (64 - k)) by lia. done.
Qed.

Lemma clz_step_spec n x k mask :
  mask = Z.shiftl (Z.ones k) (64 - k) → 0 < k ≤ 32 → 0 < x < 2 ^ 64 →
  builtin_clzll x < 2 * k →
  let '(n', x') := clz_step mask k (n, x) in
  n' + builtin_clzll x' = n + builtin_clzll x ∧ builtin_clzll x' < k ∧ 0 < x' < 2 ^ 64.
Proof.
  intros -> Hk Hx Hc. unfold clz_step, builtin_clzll in *.
  pose proof (mask_top_zero x k ltac:(lia) ltac:(unfold in_u; lia)) as Hm.
  destruct (Z.eqb_spec (Z.land x (Z.shiftl (Z.ones k) (64 - k))) 0) as [E|E].
  - apply Hm in E. rewrite Z.shiftl_mul_pow2 by lia.
    assert (x * 2 ^ k < 2 ^ 64).
    { replace 64 with (64 - k + k) by lia. rewrite Z.pow_add_r by lia.
      apply Z.mul_lt_mono_pos_r; lia. }
    rewrite uwrap_id by (unfold in_u; lia).
    rewrite Z.log2_mul_pow2 by lia. lia.
  - assert (2 ^ (64 - k) ≤ x) by (destruct (Z.le_gt_cases (2 ^ (64 - k)) x); [done|]; tauto).
    assert (64 - k ≤ Z.log2 x) by (apply Z.log2_le_pow2; lia). lia.
Qed.

Lemma ctz_unique x q t :
  0 ≤ t → 0 < q → Z.odd q = true → x = q * 2 ^ t → builtin_ctzll x = t.
Proof.
  intros Ht Hq Ho ->. assert (Hx : 0 < q * 2 ^ t) by lia.
  destruct (q * 2 ^ t) as [|p|p] eqn:E; [lia| |lia]. simpl.
  destruct (ctz_pos_spec p) as (Hc & q' & Hq' & E' & Ho'). rewrite <- E in E'.
  destruct (Z.lt_trichotomy t (ctz_pos p)) as [Hlt|[Heq|Hlt]]; [|done|]; exfalso.
  - replace (ctz_pos p) with (t + (ctz_pos p - t - 1 + 1)) in E' by lia.
    rewrite 2!Z.pow_add_r in E' by lia.
    assert (q = q' * 2 ^ (ctz_pos p - t - 1) * 2) as -> by nia.
    by rewrite Z.odd_mul, andb_false_r in Ho.
  - replace t with (ctz_pos p + (t - ctz_pos p - 1 + 1)) in E' by lia.
    rewrite 2!Z.pow_add_r in E' by lia.
    assert (q' = q * 2 ^ (t - ctz_pos p - 1) * 2) as -> by nia.
    by rewrite Z.odd_mul, andb_false_r in Ho'.
Qed.

Lemma builtin_ctz_spec x :
  0 < x → 0 ≤ builtin_ctzll x ∧
  ∃ q, 0 < q ∧ x = q * 2 ^ builtin_ctzll x ∧ Z.odd q = true.
Proof. destruct x as [|p|p]; [lia| |lia]. intros _. apply ctz_pos_spec. Qed.

Lemma ctz_step_spec n x k mask :
  mask = Z.ones k → 0 < k → 0 < x → builtin_ctzll x < 2 * k →
  let '(n', x') := ctz_step mask k (n, x) in
  n' + builtin_ctzll x' = n + builtin_ctzll x ∧ builtin_ctzll x' < k ∧ 0 < x'.
Proof.
  intros -> Hk Hx Hc. unfold ctz_step. rewrite land_ones_mod by lia.
  destruct (builtin_ctz_spec x Hx) as (Ht & q & Hq & E & Ho).
  set (t := builtin_ctzll x) in *.
  destruct (Z.eqb_spec (x mod 2 ^ k) 0) as [Em|Em].
  - assert (Hkt : k ≤ t).
    { destruct (Z.le_gt_cases k t) as [|Hlt]; [done|]. exfalso.
      apply Z.mod_divide in Em as [z Hz]; [|lia].
      replace k with (t + (k - t - 1 + 1)) in Hz by lia.
      rewrite 2!Z.pow_add_r in Hz by lia.
      assert (q = z * 2 ^ (k - t - 1) * 2) as -> by nia.
      by rewrite Z.odd_mul, andb_false_r in Ho. }
    assert (Es : Z.shiftr x k = q * 2 ^ (t - k)).
    { rewrite Z.shiftr_div_pow2, E by lia. replace t with (t - k + k) at 1 by lia.
      rewrite Z.pow_add_r, Z.mul_assoc by lia. apply Z.div_mul. lia. }
    rewrite (ctz_unique (Z.shiftr x k) q (t - k)) by (done || lia).
    rewrite Es. lia.
  - split; [done|]. split; [|done].
    destruct (Z.le_gt_cases k t) as [Hle|]; [|done]. exfalso. apply Em.
    rewrite E. replace t with (t - k + k) by lia. rewrite Z.pow_add_r, Z.mul_assoc by lia.
    apply Z.mod_mul. lia.
Qed.

Ltac count_step lem :=
  match goal with
  | |- context [?step ?mask ?k (?n, ?x)] =>
      let H := fresh in
      pose proof (lem n x k mask eq_refl) as H;
      destruct (step mask k (n, x)) as [? ?];
      destruct H as (? & ? & ?); [lia..|]
  end.

(** ** One encoded value *)

(** A non-zero word inside the window of [l] leading and [t] trailing zeros is
    recovered from its [64 - l - t] middle bits. *)
Lemma xor_window x l t m :
  0 ≤ l → 0 ≤ t → l + t ≤ 63 → 0 < x < 2 ^ (64 - l) → t ≤ count_trailing_zeros x →
  low_mask (64 - l - t) = Ok m →
  Z.land (Z.shiftr x t) m = Z.shiftr x t ∧
  in_u (64 - l - t) (Z.shiftr x t) ∧ shl64 (Z.shiftr x t) t = Ok x.
Proof.
  intros Hl Ht Hlt Hx Htz. unfold low_mask. destruct (_ <=? _) eqn:E; [done|].
  intros [= <-].
  destruct (ctz_spec x) as (Hc & Ex & Hq & _); [lia|].
  assert (Hin : in_u (64 - l - t) (Z.shiftr x t)).
  { unfold in_u. rewrite Z.shiftr_div_pow2 by done. split; [apply Z.div_pos; lia|].
    apply Z.div_lt_upper_bound; [lia|]. rewrite <- Z.pow_add_r by lia.
    replace (t + (64 - l - t)) with (64 - l) by lia. lia. }
  split; [|split; [done|]].
  - replace (Z.shiftl 1 (64 - l - t) - 1) with (Z.ones (64 - l - t))
      by (rewrite Z.ones_equiv, Z.shiftl_1_l; lia).
    rewrite land_ones_mod by lia. by apply Z.mod_small.
  - unfold shl64. destruct (Z.leb_spec 0 t); [|lia].
    destruct (Z.ltb_spec t 64); [|lia]. simpl. f_equal.
    assert (Hback : Z.shiftl (Z.shiftr x t) t = x).
    { rewrite Ex at 1. set (c := count_trailing_zeros x) in *.
      replace (Z.shiftr (Z.shiftl (Z.shiftr x c) c) t) with (Z.shiftl (Z.shiftr x c) (c - t)).
      - rewrite Z.shiftl_shiftl by lia. replace (c - t + t) with c by lia. done.
      - rewrite Z.shiftr_shiftl_l by lia. done. }
    rewrite Hback. apply uwrap_id. unfold in_u.
    assert (2 ^ (64 - l) ≤ 2 ^ 64) by (apply Z.pow_le_mono_r; lia). lia.
Qed.

Lemma lxor_back a b : Z.lxor a (Z.lxor b a) = b.
Proof. by rewrite (Z.lxor_comm b), <- Z.lxor_assoc, Z.lxor_nilpotent, Z.lxor_0_l. Qed.

Definition enc_inv (e : GorillaEnc) : Prop :=
  bw_wf (enc_w e) ∧ in_u 64 (enc_prev_bits e) ∧
  0 ≤ enc_prev_leading e ≤ 31 ∧ 0 ≤ enc_prev_trailing e ∧
  enc_prev_leading e + enc_prev_trailing e ≤ 63.

(** The XOR with the predecessor is zero or has at most 31 leading zeros. *)
Definition xor_in_range (x : Z) : Prop := x = 0 ∨ 2 ^ 32 ≤ x.

#[export] Instance xor_in_range_dec x : Decision (xor_in_range x).
Proof. unfold xor_in_range. apply _. Defined.

(** The decoder state that mirrors an encoder state. *)
Definition decode_from (e : GorillaEnc) (count : nat) (input : list Z) (pos : Z) :
    outcome (list Z) :=
  decompress_gorilla_loop count input pos (enc_prev_bits e) (enc_prev_leading e)
    (64 - enc_prev_leading e - enc_prev_trailing e).

(** [code] is a bit string the decoder turns into [v], moving from the mirror of
    [e] to the mirror of [e']. *)
Definition decodes_to (e e' : GorillaEnc) (v : Z) (code : list bool) : Prop :=
  ∀ count input pos rest,
    0 ≤ pos < 8 → rd_bits input pos = code ++ rest →
    ∃ input' pos', 0 ≤ pos' < 8 ∧ rd_bits input' pos' = rest ∧
      decode_from e (S count) input pos =
        vs ← decode_from e' count input' pos'; Ok (v :: vs).

Ltac read_field bs :=
  match goal with
  | Hp : 0 ≤ ?pos < 8, Hr : rd_bits ?input ?pos = bs ++ ?rest |- context [read_bits ?n ?input ?pos] =>
      let E := fresh "E" in
      destruct (read_bits_spec n input pos bs rest)
        as (? & ? & E & ? & ?); [exact Hp| | |exact Hr|rewrite E; clear E; cbn [mbind outcome_bind]]
  end.

Lemma decode_same e w v :
  enc_prev_bits e = v →
  decodes_to e {| enc_prev_bits := v; enc_prev_leading := enc_prev_leading e;
                  enc_prev_trailing := enc_prev_trailing e; enc_w := w |} v [false].
Proof.
  intros <- count input pos rest Hpos Hr. unfold decode_from. cbn.
  destruct input as [|b tl]; [done|]. cbn [decompress_gorilla_loop].
  read_field [false]; [done..|]. eauto.
Qed.

Lemma decode_reuse e w v m :
  enc_inv e → in_u 64 v →
  let x := Z.lxor v (enc_prev_bits e) in
  let pl := enc_prev_leading e in let pt := enc_prev_trailing e in
  0 < x → pl ≤ count_leading_zeros x → pt ≤ count_trailing_zeros x →
  low_mask (64 - pl - pt) = Ok m →
  decodes_to e {| enc_prev_bits := v; enc_prev_leading := pl;
                  enc_prev_trailing := pt; enc_w := w |} v
    ([true] ++ [false] ++ bits_of (Z.to_nat (64 - pl - pt)) (Z.land (Z.shiftr x pt) m)).
Proof.
  intros (_ & Hpb & Hl & Ht & Hlt) Hv x pl pt Hx Hcl Hct Hm.
  destruct (clz_spec x) as [Hc [_ Hu]].
  { split; [done|]. apply (lxor_range v (enc_prev_bits e) 64); [lia|done..]. }
  assert (Hxl : 0 < x < 2 ^ (64 - pl)).
  { split; [done|]. eapply Z.lt_le_trans; [done|]. apply Z.pow_le_mono_r; lia. }
  assert (64 - pl - pt < 64) by (unfold low_mask in Hm; destruct (_ <=? _) eqn:?; [done|lia]).
  destruct (xor_window x pl pt m) as (-> & Hin & Hshl); [lia..|done|].
  intros count input pos rest Hpos Hr. rewrite <- !app_assoc in Hr. unfold decode_from. cbn.
  destruct input as [|b tl]; [done|]. cbn [decompress_gorilla_loop].
  read_field [true]; [done..|]. change (val_of [true] =? 0) with false.
  read_field [false]; [done..|]. change (val_of [false] =? 0) with true. fold pl pt.
  read_field (bits_of (Z.to_nat (64 - pl - pt)) (Z.shiftr x pt));
    [rewrite bits_of_length; lia|lia|].
  rewrite val_of_bits_id by (rewrite Z2Nat.id by lia; done).
  replace (64 - pl - (64 - pl - pt)) with pt by lia. rewrite Hshl.
  cbn [mbind outcome_bind]. unfold x. rewrite lxor_back. eauto.
Qed.

Lemma decode_new e w v m :
  enc_inv e → in_u 64 v →
  let x := Z.lxor v (enc_prev_bits e) in
  let l := count_leading_zeros x in let t := count_trailing_zeros x in
  0 < x → l ≤ 31 → low_mask (64 - l - t) = Ok m →
  decodes_to e {| enc_prev_bits := v; enc_prev_leading := l;
                  enc_prev_trailing := t; enc_w := w |} v
    ([true] ++ [true] ++ bits_of 5 l ++ bits_of 6 (64 - l - t) ++
     bits_of (Z.to_nat (64 - l - t)) (Z.land (Z.shiftr x t) m)).
Proof.
  intros (_ & Hpb & _) Hv x l t Hx Hl31 Hm.
  assert (Hx64 : 0 < x < 2 ^ 64).
  { split; [done|]. apply (lxor_range v (enc_prev_bits e) 64); [lia|done..]. }
  destruct (clz_spec x Hx64) as [Hc [_ Hu]]. destruct (ctz_spec x Hx) as [Ht _].
  pose proof (clz_ctz_sum x Hx64) as Hsum. fold l t in Hc, Hu, Ht, Hsum.
  assert (64 - l - t < 64) by (unfold low_mask in Hm; destruct (_ <=? _) eqn:?; [done|lia]).
  destruct (xor_window x l t m) as (-> & Hin & Hshl); [lia..|done|].
  intros count input pos rest Hpos Hr. rewrite <- !app_assoc in Hr. unfold decode_from. cbn.
  destruct input as [|b tl]; [done|]. cbn [decompress_gorilla_loop].
  read_field [true]; [done..|]. change (val_of [true] =? 0) with false.
  read_field [true]; [done..|]. change (val_of [true] =? 0) with false.
  read_field (bits_of 5 l); [done..|].
  rewrite (val_of_bits_id 5 l) by (unfold in_u; lia).
  read_field (bits_of 6 (64 - l - t)); [done..|].
  rewrite (val_of_bits_id 6) by (unfold in_u; lia).
  destruct (Z.eqb_spec (64 - l - t) 0); [lia|].
  read_field (bits_of (Z.to_nat (64 - l - t)) (Z.shiftr x t));
    [rewrite bits_of_length; lia|lia|].
  rewrite val_of_bits_id by (rewrite Z2Nat.id by lia; done).
  replace (64 - l - (64 - l - t)) with t by lia.
  destruct (Z.ltb_spec t 0); [lia|]. rewrite Hshl.
  cbn [mbind outcome_bind]. unfold x. rewrite lxor_back. eauto.
Qed.

Ltac use_writes :=
  repeat match goal with
  | H : write_bits _ _ _ ?w = Ok _, Hw : bw_wf ?w |- _ =>
      apply write_bits_spec in H as [? ?]; [|exact Hw]
  end.

Ltac write_bits_eq :=
  repeat match goal with
  | H : bw_bits ?w = _ |- context [bw_bits ?w] => rewrite H
  end; rewrite <- !app_assoc; reflexivity.

(** The bits one call of [gorilla_put] adds are decoded to the value. *)
Lemma gorilla_put_spec max i v e e' :
  enc_inv e → in_u 64 v → xor_in_range (Z.lxor v (enc_prev_bits e)) →
  gorilla_put max i v e = Ok e' →
  enc_inv e' ∧ enc_prev_bits e' = v ∧
  ∃ code, code ≠ [] ∧ bw_bits (enc_w e') = bw_bits (enc_w e) ++ code ∧
    decodes_to e e' v code.
Proof.
  intros Hinv Hv Hx. pose proof Hinv as (Hwf & Hpb & Hl & Ht & Hlt).
  unfold gorilla_put. set (x := Z.lxor v (enc_prev_bits e)) in *.
  destruct (Z.eqb_spec x 0) as [Hx0|Hx0].
  - intros H'. inv_ok. apply write_bits_spec in H as [Hwf' Hb]; [|done].
    assert (v = enc_prev_bits e) as -> by by apply Z.lxor_eq.
    split; [done|]. split; [done|]. exists [false]. auto using decode_same.
  - destruct Hx as [|Hx]; [done|].
    assert (Hx64 : 0 < x < 2 ^ 64).
    { split; [lia|]. apply (lxor_range v (enc_prev_bits e) 64); [lia|done..]. }
    destruct (clz_spec x Hx64) as [Hc [Hcl _]].
    assert (Hl31 : count_leading_zeros x ≤ 31).
    { destruct (Z.le_gt_cases (count_leading_zeros x) 31) as [|Hgt]; [done|].
      destruct (clz_spec x Hx64) as [_ [_ Hu]].
      assert (2 ^ (64 - count_leading_zeros x) ≤ 2 ^ 32) by (apply Z.pow_le_mono_r; lia). lia. }
    destruct (Z.ltb_spec 31 (count_leading_zeros x)); [lia|].
    pose proof (ctz_spec x) as [Hct _]; [lia|]. pose proof (clz_ctz_sum x Hx64).
    destruct (_ && _ && _) eqn:Ebr; intros H'; inv_ok.
    + rewrite !andb_true_iff, !Z.leb_le in Ebr. use_writes.
      split; [done|]. split; [done|]. eexists. split; [|split].
      2: { cbn [enc_w]. write_bits_eq. }
      * done.
      * apply decode_reuse; [done|done|lia|tauto|tauto|done].
    + use_writes. split; [split; [done|]; cbn; split; [done|]; lia|].
      split; [done|]. eexists. split; [|split].
      2: { cbn [enc_w]. write_bits_eq. }
      * done.
      * apply decode_new; [done|done|lia|done|done].
Qed.

Lemma compress_gorilla_loop_spec max i values e w :
  enc_inv e → Forall (in_u 64) values →
  Forall xor_in_range (xor_deltas (enc_prev_bits e) values) →
  compress_gorilla_loop max i values e = Ok (Some w) →
  bw_wf w ∧ ∃ code, bw_bits w = bw_bits (enc_w e) ++ code ∧
    ∀ input pos rest, 0 ≤ pos < 8 → rd_bits input pos = code ++ rest →
      decode_from e (length values) input pos = Ok values.
Proof.
  intros Hinv Hvs. revert i e Hinv.
  induction Hvs as [|v values Hv Hvs IH]; intros i e Hinv; simpl.
  - intros _ [= <-]. split; [apply Hinv|]. exists []. by rewrite app_nil_r.
  - intros [Hx Hxs]%Forall_cons H'. apply outcome_bind_ok in H' as (e' & Hput & H').
    apply gorilla_put_spec in Hput as (Hinv' & Hprev & code & _ & Hb & Hdec); [|done..].
    destruct (_ <=? _); [done|].
    apply IH in H' as (Hwf & code' & Hb' & Hdec'); [|done|by rewrite Hprev].
    split; [done|]. exists (code ++ code'). split; [by rewrite Hb', Hb, app_assoc|].
    intros input pos rest Hpos. rewrite <- app_assoc. intros Hr.
    destruct (Hdec (length values) _ _ _ Hpos Hr) as (input' & pos' & Hp' & Hr' & ->).
    by rewrite (Hdec' _ _ _ Hp' Hr').
Qed.

(** The writer only appends to [out]. *)
Lemma write_bits_loop_prefix fuel max value remaining w w' :
  write_bits_loop fuel max value remaining w = Ok w' → bw_out w `prefix_of` bw_out w'.
Proof.
  revert remaining w. induction fuel as [|fuel IH]; intros remaining w; cbn [write_bits_loop].
  { by intros [= <-]. }
  destruct (_ <=? _); [by intros [= <-]|].
  intros (w1 & H1 & H2)%outcome_bind_ok. etrans; [|by apply IH in H2].
  destruct (_ =? _); [|by injection H1 as <-].
  unfold emit_byte in H1. destruct (_ <? _); [|done]. injection H1 as <-.
  by exists [u8 (Z.lor (current_byte w)
    (Z.shiftl (Z.land (Z.shiftr value (remaining - Z.min remaining (8 - bit_pos w)))
       (Z.shiftl 1 (Z.min remaining (8 - bit_pos w)) - 1))
       (8 - bit_pos w - Z.min remaining (8 - bit_pos w))))].
Qed.

Lemma gorilla_put_prefix max i v e e' :
  gorilla_put max i v e = Ok e' → bw_out (enc_w e) `prefix_of` bw_out (enc_w e').
Proof.
  unfold gorilla_put, write_bits. destruct (_ =? _); [|destruct (_ && _ && _)];
    intros H'; inv_ok; cbn;
    repeat match goal with
    | H : write_bits_loop _ _ _ _ _ = Ok _ |- _ => apply write_bits_loop_prefix in H
    end; repeat first [eassumption | etrans; [eassumption|]].
Qed.

Lemma compress_gorilla_loop_prefix max i values e w :
  compress_gorilla_loop max i values e = Ok (Some w) → bw_out (enc_w e) `prefix_of` bw_out w.
Proof.
  revert i e. induction values as [|v values IH]; intros i e; simpl; [by intros [= <-]|].
  intros (e' & Hput%gorilla_put_prefix & H')%outcome_bind_ok.
  destruct (_ <=? _); [done|]. apply IH in H'. by etrans.
Qed.

(** The final flush pads the last byte. *)
Lemma flush_bits max w w' :
  bw_wf w → (if 0 <? bit_pos w then emit_byte max (current_byte w) w else Ok w) = Ok w' →
  bw_out w `prefix_of` bw_out w' ∧
  ∃ pad, bytes_bits (bw_out w') = bw_bits w ++ pad.
Proof.
  intros (Hpos & _). unfold bw_bits. destruct (Z.ltb_spec 0 (bit_pos w)).
  - unfold emit_byte. destruct (_ <? _); [|done]. intros [= <-]. cbn.
    split; [by apply prefix_app_r|].
    exists (bits_of (Z.to_nat (8 - bit_pos w)) (current_byte w)).
    rewrite bytes_bits_snoc, <- app_assoc. f_equal.
    replace (8 - bit_pos w) with (Z.of_nat (Z.to_nat (8 - bit_pos w))) at 1 by lia.
    rewrite <- bits_of_app. f_equal. lia.
  - intros [= <-]. split; [done|]. exists [].
    replace (bit_pos w) with 0 by lia. by rewrite !app_nil_r.
Qed.

Lemma read_u64s_length n bs : length (read_u64s n bs) = n.
Proof. revert bs. induction n; intros; simpl; auto. Qed.

Lemma read_u64s_range n bs : bytes_ok bs → length bs = (8 * n)%nat → Forall (in_u 64) (read_u64s n bs).
Proof.
  revert bs. induction n as [|n IH]; intros bs Hb Hl; simpl; constructor.
  - assert (H := little_endian_to_Z_bound 8 (take 8 bs)).
    rewrite length_take_le in H by lia. apply H; [lia|by apply Forall_take].
  - apply IH; [by apply Forall_drop|rewrite length_drop; lia].
Qed.

Lemma write_read_u64s n bs :
  length bs = (8 * n)%nat → bytes_ok bs → (read_u64s n bs ≫= le_enc 8) = bs.
Proof.
  revert bs. induction n as [|n IH]; intros bs Hl Hb.
  - destruct bs; [done|simpl in Hl; lia].
  - cbn [read_u64s]. rewrite bind_cons, le_enc_dec.
    + rewrite IH; [apply take_drop|rewrite length_drop; lia|by apply Forall_drop].
    + rewrite length_take. lia.
    + by apply Forall_take.
Qed.

Lemma read_write_u64s vs :
  Forall (in_u 64) vs → read_u64s (length vs) (vs ≫= le_enc 8) = vs.
Proof.
  induction 1 as [|v vs Hv Hvs IH]; [done|]. rewrite bind_cons. cbn [length read_u64s].
  pose proof (le_enc_length 8 v ltac:(lia)).
  rewrite take_app_length', drop_app_length' by lia. by rewrite IH, le_dec_enc_u64.
Qed.

Lemma xor_sums_deltas prev vs : xor_sums prev (xor_deltas prev vs) = vs.
Proof.
  revert prev. induction vs as [|v vs IH]; intros prev; simpl; [done|].
  rewrite Z.lxor_assoc, Z.lxor_nilpotent, Z.lxor_0_r. by rewrite IH.
Qed.

Lemma xor_deltas_length prev vs : length (xor_deltas prev vs) = length vs.
Proof. revert prev. induction vs; intros; simpl; auto. Qed.

Lemma xor_deltas_range prev vs :
  in_u 64 prev → Forall (in_u 64) vs → Forall (in_u 64) (xor_deltas prev vs).
Proof.
  intros Hp Hvs. revert prev Hp. induction Hvs; intros; simpl; constructor; auto.
  by apply lxor_range.
Qed.

Lemma bind_le_enc_length vs : length (vs ≫= le_enc 8) = (8 * length vs)%nat.
Proof.
  induction vs as [|v vs IH]; [done|]. rewrite bind_cons, length_app, IH.
  pose proof (le_enc_length 8 v ltac:(lia)). simpl. lia.
Qed.

(** ** The writer stays inside the buffer *)

Definition bw_room (w : BitWriter) (nbits : Z) : Z := len (bw_out w) + (bit_pos w + nbits) / 8.

Lemma write_bits_loop_total fuel max value remaining w :
  0 ≤ bit_pos w < 8 → 0 ≤ remaining ≤ Z.of_nat fuel → bw_room w remaining ≤ max →
  ∃ w', write_bits_loop fuel max value remaining w = Ok w' ∧
    0 ≤ bit_pos w' < 8 ∧
    8 * len (bw_out w') + bit_pos w' = 8 * len (bw_out w) + bit_pos w + remaining.
Proof.
  unfold bw_room. revert remaining w.
  induction fuel as [|fuel IH]; intros remaining w Hpos Hf Hroom; cbn [write_bits_loop].
  { exists w. split; [done|]. lia. }
  destruct (Z.leb_spec remaining 0); [exists w; split; [done|]; lia|].
  cbn [bit_pos bw_out current_byte]. set (k := Z.min remaining (8 - bit_pos w)).
  pose proof (Z.div_mod (bit_pos w + remaining) 8 ltac:(lia)).
  pose proof (Z.mod_pos_bound (bit_pos w + remaining) 8 ltac:(lia)).
  destruct (Z.eqb_spec (bit_pos w + k) 8) as [He|He].
  - unfold emit_byte. cbn [bw_out].
    assert (1 ≤ (bit_pos w + remaining) / 8) by lia.
    destruct (Z.ltb_spec (len (bw_out w)) max); [|lia]. cbn [mbind outcome_bind].
    edestruct (IH (remaining - k)) as (w' & E & Hp' & Hs'); [..|exists w'; split; [exact E|]].
    + cbn. lia.
    + lia.
    + cbn [bw_out bit_pos]. rewrite length_app. cbn [length].
      Z.div_mod_to_equations. lia.
    + cbn in Hs'. rewrite length_app in Hs'. simpl in Hs'. lia.
  - cbn [mbind outcome_bind].
    edestruct (IH (remaining - k)) as (w' & E & Hp' & Hs'); [..|exists w'; split; [exact E|]].
    + cbn. lia.
    + lia.
    + cbn. by replace (bit_pos w + k + (remaining - k)) with (bit_pos w + remaining) by lia.
    + cbn in Hs'. lia.
Qed.

Lemma write_bits_total max value nbits w :
  0 ≤ bit_pos w < 8 → 0 ≤ nbits → bw_room w nbits ≤ max →
  ∃ w', write_bits max value nbits w = Ok w' ∧ 0 ≤ bit_pos w' < 8 ∧
    8 * len (bw_out w') + bit_pos w' = 8 * len (bw_out w) + bit_pos w + nbits.
Proof. intros. apply write_bits_loop_total; [done|lia|done]. Qed.

Ltac total_write :=
  match goal with
  | |- context [write_bits ?max ?v ?n ?w] =>
      let E := fresh "E" in
      destruct (write_bits_total max v n w) as (? & E & ? & ?);
        [done|lia|unfold bw_room in *; Z.div_mod_to_equations; lia
        |rewrite E; clear E; cbn [mbind outcome_bind]]
  end.

(** The window of the encoder leaves at least one bit out, once it has been set. *)
Definition enc_window (i : Z) (e : GorillaEnc) : Prop :=
  0 ≤ enc_prev_leading e ∧ 0 ≤ enc_prev_trailing e ∧
  enc_prev_leading e + enc_prev_trailing e ≤ 63 ∧
  (0 < i → 1 ≤ enc_prev_leading e + enc_prev_trailing e).

Lemma gorilla_put_total max i v e :
  0 ≤ bit_pos (enc_w e) < 8 → len (bw_out (enc_w e)) < max - 16 → enc_window i e →
  in_u 64 v → in_u 63 (Z.lxor v (enc_prev_bits e)) →
  (0 < i ∨ v ≠ enc_prev_bits e) → 0 ≤ i →
  ∃ e', gorilla_put max i v e = Ok e' ∧ 0 ≤ bit_pos (enc_w e') < 8 ∧
    len (bw_out (enc_w e')) ≤ max - 6 ∧ enc_window (i + 1) e' ∧ enc_prev_bits e' = v.
Proof.
  intros Hpos Hlen Hwin Hv Hx Hfirst Hi. unfold gorilla_put.
  set (x := Z.lxor v (enc_prev_bits e)) in *. pose proof Hwin as (Hpl & Hpt & Hs & Hone).
  destruct (Z.eqb_spec x 0) as [Hx0|Hx0].
  - total_write. eexists. split; [done|]. cbn. split_and!; [lia..| |done].
    assert (0 < i) by (destruct Hfirst as [|Hf]; [done|by apply Z.lxor_eq in Hx0]).
    unfold enc_window in *. cbn. lia.
  - unfold in_u in Hx. assert (Hx64 : 0 < x < 2 ^ 64) by lia.
    destruct (clz_spec x Hx64) as [Hc [Hcl Hcu]]. pose proof (clz_ctz_sum x Hx64).
    destruct (ctz_spec x) as [Hct _]; [lia|].
    assert (Hl1 : 1 ≤ count_leading_zeros x).
    { assert (Hlt : 2 ^ (63 - count_leading_zeros x) < 2 ^ 63) by lia.
      apply Z.pow_lt_mono_r_iff in Hlt; lia. }
    set (l := if 31 <? count_leading_zeros x then 31 else count_leading_zeros x).
    assert (1 ≤ l ≤ count_leading_zeros x) by (unfold l; destruct (Z.ltb_spec 31 (count_leading_zeros x)); lia).
    destruct (_ && _ && _) eqn:Ebr.
    + rewrite !andb_true_iff, Z.ltb_lt in Ebr. unfold low_mask.
      destruct (Z.leb_spec 64 (64 - enc_prev_leading e - enc_prev_trailing e)); [lia|].
      cbn [mbind outcome_bind]. do 2 total_write. eexists. split; [done|].
      cbn. split_and!; [lia..| |done]. unfold enc_window in *. cbn. lia.
    + unfold low_mask. destruct (Z.leb_spec 64 (64 - count_leading_zeros x - count_trailing_zeros x)); [lia|].
      cbn [mbind outcome_bind]. do 4 total_write. eexists. split; [done|].
      cbn. split_and!; [lia..| |done]. unfold enc_window in *. cbn. lia.
Qed.

Lemma compress_gorilla_loop_total max i values e :
  0 ≤ bit_pos (enc_w e) < 8 → len (bw_out (enc_w e)) < max - 16 → enc_window i e →
  Forall (in_u 64) values → Forall (in_u 63) (xor_deltas (enc_prev_bits e) values) →
  (0 < i ∨ head values ≠ Some (enc_prev_bits e)) → 0 ≤ i →
  ∃ r, compress_gorilla_loop max i values e = Ok r ∧
    ∀ w, r = Some w → 0 ≤ bit_pos w < 8 ∧ len (bw_out w) < max - 16.
Proof.
  intros Hpos Hlen Hwin Hvs. revert i e Hpos Hlen Hwin.
  induction Hvs as [|v values Hv Hvs IH]; intros i e Hpos Hlen Hwin Hx Hf Hi; simpl.
  - eexists. split; [done|]. by intros ? [= <-].
  - simpl in Hx. apply Forall_cons in Hx as [Hx Hxs].
    destruct (gorilla_put_total max i v e) as (e' & -> & Hp' & Hl' & Hw' & Hb');
      [done..|destruct Hf as [|Hf]; [by left|right; intros ->; by apply Hf]|done|].
    cbn [mbind outcome_bind]. destruct (Z.leb_spec (max - 16) (len (bw_out (enc_w e')))).
    + eexists. split; [done|]. done.
    + apply IH; [done|done|done|by rewrite Hb'|lia|lia].
Qed.

(** ** Properties of the Gorilla codec *)

Definition gorilla_start (count : Z) : GorillaEnc :=
  {| enc_prev_bits := 0; enc_prev_leading := 0; enc_prev_trailing := 0;
     enc_w := {| bw_out := le_enc 8 count; current_byte := 0; bit_pos := 0 |} |}.

Lemma gorilla_start_inv count : enc_inv (gorilla_start count).
Proof.
  unfold enc_inv, bw_wf, in_u. cbn. split_and!; try lia. intros. apply Z.testbit_0_l.
Qed.

(** The packed block decodes to the values. *)
Lemma gorilla_packed_decodes n input w w' max :
  bytes_ok input → length input = (8 * n)%nat → len input < 2 ^ 63 →
  Forall xor_in_range (xor_deltas 0 (read_u64s n input)) →
  compress_gorilla_loop max 0 (read_u64s n input) (gorilla_start (Z.of_nat n)) = Ok (Some w) →
  (if 0 <? bit_pos w then emit_byte max (current_byte w) w else Ok w) = Ok w' →
  decompress_gorilla (bw_out w') (len input) = Ok (len input, input).
Proof.
  intros Hb Hl Hsz Hx Hloop Hfl.
  pose proof (compress_gorilla_loop_prefix _ _ _ _ _ Hloop) as Hpre.
  apply compress_gorilla_loop_spec in Hloop as (Hwf & code & Hbits & Hdec);
    [|apply gorilla_start_inv|by apply read_u64s_range|done].
  apply flush_bits in Hfl as [Hpre' [pad Hpad]]; [|done].
  destruct (transitivity Hpre Hpre') as [body Hbody]. cbn in Hbody, Hbits.
  pose proof (le_enc_length 8 (Z.of_nat n) ltac:(lia)) as Hhd.
  rewrite Hbody in Hpad |- *. rewrite Hbits in Hpad.
  unfold bytes_bits in Hpad. rewrite bind_app in Hpad.
  change (le_enc 8 (Z.of_nat n) ≫= bits_of 8) with (bytes_bits (le_enc 8 (Z.of_nat n))) in Hpad.
  unfold bw_bits in Hpad. cbn [bw_out bit_pos current_byte bits_of Z.to_nat] in Hpad.
  rewrite app_nil_r, <- app_assoc in Hpad. apply app_inv_head in Hpad.
  unfold decompress_gorilla. rewrite length_app.
  assert (Hcount : Z.quot (len input) 8 = Z.of_nat n).
  { rewrite Z.quot_div_nonneg, Hl, Nat2Z.inj_mul, Z.mul_comm by lia. by apply Z.div_mul. }
  rewrite Hcount, Nat2Z.id. rewrite take_app_length', drop_app_length' by lia.
  rewrite le_dec_enc_i64 by (unfold in_i; lia). rewrite Z.eqb_refl.
  destruct (Z.leb_spec 8 (Z.of_nat (length (le_enc 8 (Z.of_nat n)) + length body))); [|lia].
  cbn [andb]. rewrite <- rd_bits_start in Hpad.
  specialize (Hdec _ 0 _ ltac:(lia) Hpad). unfold decode_from in Hdec. cbn in Hdec.
  rewrite read_u64s_length in Hdec. change (64 - 0 - 0) with 64 in Hdec. rewrite Hdec. cbn [mbind outcome_bind].
  by rewrite write_read_u64s.
Qed.

(** Both paths of the codec lose nothing on such blocks. *)
Lemma gorilla_lossless (n : nat) (input out : list Z) (max r : Z) :
  bytes_ok input → length input = (8 * n)%nat → len input < 2 ^ 63 →
  Forall xor_in_range (xor_deltas 0 (read_u64s n input)) →
  i64 (le_dec (take 8 input)) ≠ Z.of_nat n →
  compress_gorilla input max = Ok (r, out) → r ≠ -1 →
  r = len out ∧ decompress_gorilla out (len input) = Ok (len input, input).
Proof.
  intros Hb Hl Hsz Hx Hne. unfold compress_gorilla.
  assert (Hcount : len input / 8 = Z.of_nat n).
  { rewrite Hl, Nat2Z.inj_mul, Z.mul_comm. by apply Z.div_mul. }
  rewrite Hcount, Nat2Z.id. destruct (_ <? _); [by intros [= <- <-]|].
  intros H' _. apply outcome_bind_ok in H' as (res & Hloop & H').
  destruct res as [w|].
  - apply outcome_bind_ok in H' as (w' & Hfl & [= <- <-]). split; [done|].
    by eapply gorilla_packed_decodes.
  - destruct (_ <? _); [done|]. injection H' as <- <-.
    pose proof (read_u64s_range n input Hb Hl) as Hr.
    pose proof (xor_deltas_range 0 _ ltac:(done) Hr) as Hxr.
    assert (Hlen : length (xor_deltas 0 (read_u64s n input)) = n)
      by by rewrite xor_deltas_length, read_u64s_length.
    split; [rewrite bind_le_enc_length, Hlen; lia|].
    unfold decompress_gorilla. rewrite bind_le_enc_length, Hlen.
    rewrite Z.quot_div_nonneg, Hcount by lia.
    assert (Hfirst : i64 (le_dec (take 8 (xor_deltas 0 (read_u64s n input) ≫= le_enc 8)))
      = i64 (le_dec (take 8 input))).
    { destruct n as [|n].
      - destruct input; [done|simpl in Hl; lia].
      - cbn [read_u64s xor_deltas]. rewrite bind_cons, Z.lxor_0_r, take_app_length'.
        + rewrite le_enc_dec; [done|rewrite length_take; lia|by apply Forall_take].
        + pose proof (le_enc_length 8 (le_dec (take 8 input)) ltac:(lia)). lia. }
    rewrite Hfirst. destruct (Z.eqb_spec (i64 (le_dec (take 8 input))) (Z.of_nat n)); [done|].
    rewrite andb_false_r.
    replace (Z.of_nat (8 * n) / 8) with (Z.of_nat n) by (Z.div_mod_to_equations; lia).
    destruct (Z.leb_spec (Z.of_nat n * 8) (len input)); [|lia].
    rewrite Nat2Z.id. rewrite <- Hlen at 1. rewrite read_write_u64s by done.
    by rewrite xor_sums_deltas, write_read_u64s.
Qed.

(** Decompressing a Gorilla block restores every double bit for bit, on the
    packed path and on the XOR fall-back, provided the XOR of each value with its
    predecessor (the first with 0) is zero or has at most 31 leading zeros, and
    the first pattern is not the number of values itself (the decoder takes a
    block that starts with the count for a packed one). *)
Theorem gorilla_roundtrip (n : nat) (input out : list Z) (max r : Z) :
  bytes_ok input → length input = (8 * n)%nat → len input < 2 ^ 63 →
  Forall xor_in_range (xor_deltas 0 (read_u64s n input)) →
  i64 (le_dec (take 8 input)) ≠ Z.of_nat n →
  compress_gorilla input max = Ok (r, out) → r ≠ -1 →
  r = len out ∧ decompress_gorilla out (len input) = Ok (len input, input).
Proof. apply gorilla_lossless. Qed.

(** The encoder terminates without undefined behaviour and within
    [max_output_size] when the buffer holds 25 bytes and the raw size, the first
    double is not +0.0 and no XOR of neighbours has its top bit set. *)
Theorem gorilla_in_bounds (n : nat) (input : list Z) (max : Z) :
  bytes_ok input → length input = (8 * n)%nat →
  25 ≤ max → 8 + Z.of_nat n ≤ max → len input ≤ max →
  head (read_u64s n input) ≠ Some 0 →
  Forall (in_u 63) (xor_deltas 0 (read_u64s n input)) →
  ∃ r out, compress_gorilla input max = Ok (r, out) ∧ 0 ≤ r ≤ max.
Proof.
  intros Hb Hl Hm25 Hm8 Hm Hhd Hx. unfold compress_gorilla.
  assert (Hcount : len input / 8 = Z.of_nat n).
  { rewrite Hl, Nat2Z.inj_mul, Z.mul_comm. by apply Z.div_mul. }
  rewrite Hcount, Nat2Z.id. destruct (Z.ltb_spec max (8 + Z.of_nat n)); [lia|].
  pose proof (le_enc_length 8 (Z.of_nat n) ltac:(lia)) as Hlen.
  fold (gorilla_start (Z.of_nat n)).
  destruct (compress_gorilla_loop_total max 0 (read_u64s n input) (gorilla_start (Z.of_nat n)))
    as (res & -> & Hres).
  - cbn. lia.
  - cbn [bw_out enc_w gorilla_start]. lia.
  - unfold enc_window. cbn. lia.
  - by apply read_u64s_range.
  - done.
  - by right.
  - lia.
  - cbn [mbind outcome_bind]. destruct res as [w|].
    + destruct (Hres w eq_refl) as [Hp Hw]. destruct (Z.ltb_spec 0 (bit_pos w)).
      * unfold emit_byte. destruct (Z.ltb_spec (len (bw_out w)) max); [|lia].
        cbn [mbind outcome_bind bw_out]. do 2 eexists. split; [done|].
        rewrite length_app. simpl. lia.
      * do 2 eexists. split; [done|]. lia.
    + destruct (Z.ltb_spec max (8 * Z.of_nat n)); [lia|].
      do 2 eexists. split; [done|]. lia.
Qed.

(** A block that starts with +0.0 and continues with any other double makes
    the encoder shift a 64-bit word by 64, which C leaves undefined, in every
    buffer that holds more than 24 bytes and the header. *)
Theorem gorilla_zero_start_undefined (x : Z) (rest : list Z) (max : Z) :
  0 < x < 2 ^ 64 → 24 < max → 10 + len rest / 8 ≤ max →
  compress_gorilla (le_enc 8 0 ++ le_enc 8 x ++ rest) max = Undef.
Proof.
  intros Hx Hm Hm'. unfold compress_gorilla.
  pose proof (le_enc_length 8 x ltac:(lia)) as Hlx.
  assert (Hcount : len (le_enc 8 0 ++ le_enc 8 x ++ rest) / 8 = 2 + len rest / 8).
  { rewrite !length_app. change (length (le_enc 8 0)) with 8%nat.
    Z.div_mod_to_equations. lia. }
  rewrite Hcount. destruct (Z.ltb_spec max (8 + (2 + len rest / 8))); [lia|].
  replace (Z.to_nat (2 + len rest / 8)) with (S (S (Z.to_nat (len rest / 8))))
    by (Z.div_mod_to_equations; lia).
  cbn [read_u64s]. rewrite take_app_length', drop_app_length' by done.
  rewrite take_app_length', drop_app_length' by lia.
  rewrite le_dec_enc_u64, le_dec_enc_u64 by (unfold in_u; lia).
  pose proof (le_enc_length 8 (2 + len rest / 8) ltac:(lia)) as Hlh.
  set (hdr := le_enc 8 (2 + len rest / 8)) in *.
  set (e0 := Build_GorillaEnc 0 0 0 (Build_BitWriter hdr 0 0)).
  set (e1 := Build_GorillaEnc 0 0 0 (Build_BitWriter hdr 0 1)).
  cbn [compress_gorilla_loop].
  change (gorilla_put max 0 0 e0) with (Ok e1).
  unfold e1. cbn [mbind outcome_bind enc_w bw_out].
  destruct (Z.leb_spec (max - 16) (len hdr)); [lia|].
  unfold gorilla_put at 1. cbn [enc_prev_bits enc_prev_leading enc_prev_trailing].
  rewrite Z.lxor_0_r. destruct (Z.eqb_spec x 0); [lia|].
  destruct (clz_spec x Hx) as [Hc _]. destruct (ctz_spec x) as [Ht _]; [lia|].
  set (l := if 31 <? count_leading_zeros x then 31 else count_leading_zeros x).
  destruct (Z.leb_spec 0 l) as [_|Hl]; 
    [|unfold l in Hl; destruct (Z.ltb_spec 31 (count_leading_zeros x)); lia].
  destruct (Z.leb_spec 0 (count_trailing_zeros x)); [|lia]. done.
Qed.

(** Two consecutive doubles, 1.0 and the next representable one, are
    compressed without an error and decompressed to different bits: the clamp of
    the leading-zero count to 31 is not undone by the decoder. *)
Theorem gorilla_clamp_corrupts :
  ∃ input out, length input = 16%nat ∧
    compress_gorilla input 100 = Ok (len out, out) ∧
    decompress_gorilla out 16 ≠ Ok (16, input).
Proof.
  exists ([0x3FF0000000000000; 0x3FF0000000000001] ≫= le_enc 8).
  exists [2; 0; 0; 0; 0; 0; 0; 0; 196; 87; 255; 252; 24].
  split; [done|]. split; [vm_compute; reflexivity|]. vm_compute. congruence.
Qed.

(** The portable bisection counters, compiled when the built-ins are
    missing, return the same counts on every 64-bit word. *)
Theorem portable_counters_agree (x : Z) :
  in_u 64 x →
  count_leading_zeros_portable x = count_leading_zeros x ∧
  count_trailing_zeros_portable x = count_trailing_zeros x.
Proof.
  intros [Hx0 Hx]. unfold count_leading_zeros_portable, count_leading_zeros,
    count_trailing_zeros_portable, count_trailing_zeros.
  destruct (Z.eqb_spec x 0) as [|Hne]; [done|]. split.
  - assert (builtin_clzll x < 2 * 32)
      by (unfold builtin_clzll; pose proof (Z.log2_nonneg x); lia).
    do 6 count_step clz_step_spec. simpl.
    match goal with H : builtin_clzll ?y < 1 |- _ => assert (0 ≤ builtin_clzll y) end.
    { unfold builtin_clzll.
      match goal with |- 0 ≤ 63 - ?l => assert (l < 64) by (apply Z.log2_lt_pow2; lia) end.
      lia. }
    lia.
  - assert (builtin_ctzll x < 2 * 32).
    { destruct (builtin_ctz_spec x) as (Ht & q & Hq & E & _); [lia|].
      assert (Hlt : 2 ^ builtin_ctzll x < 2 ^ 64) by nia.
      apply Z.pow_lt_mono_r_iff in Hlt; lia. }
    do 6 count_step ctz_step_spec. simpl.
    match goal with H : builtin_ctzll ?y < 1 |- _ =>
      assert (0 ≤ builtin_ctzll y) by (apply builtin_ctz_spec; lia) end.
    lia.
Qed.

Definition gorilla_sample : list Z :=
  [0x3FF0000000000000; 0x4000000000000000; 0x4000000000000000; 0x4008000000000000]
    ≫= le_enc 8.

Definition gorilla_sample_block : list Z :=
  [4; 0; 0; 0; 0; 0; 0; 0; 196; 87; 255; 132; 191; 254; 216; 12].

Lemma gorilla_roundtrip_witness :
  compress_gorilla gorilla_sample 100 = Ok (16, gorilla_sample_block) ∧
  decompress_gorilla gorilla_sample_block 32 = Ok (32, gorilla_sample).
Proof.
  split; [vm_compute; reflexivity|].
  apply (gorilla_roundtrip 4 gorilla_sample gorilla_sample_block 100 16).
  - decide_now.
  - vm_compute. reflexivity.
  - vm_compute. reflexivity.
  - decide_now.
  - vm_compute. discriminate.
  - vm_compute. reflexivity.
  - discriminate.
Defined.

Lemma gorilla_in_bounds_witness :
  ∃ r out, compress_gorilla gorilla_sample 40 = Ok (r, out) ∧ 0 ≤ r ≤ 40.
Proof.
  apply (gorilla_in_bounds 4).
  - decide_now.
  - vm_compute. reflexivity.
  - discriminate.
  - discriminate.
  - vm_compute. discriminate.
  - vm_compute. discriminate.
  - decide_now.
Defined.

Lemma gorilla_zero_start_undefined_witness :
  compress_gorilla (le_enc 8 0 ++ le_enc 8 0x3FF0000000000000 ++ []) 100 = Undef.
Proof.
  apply gorilla_zero_start_undefined.
  - split; reflexivity.
  - reflexivity.
  - discriminate.
Defined.

Lemma portable_counters_agree_witness :
  count_leading_zeros_portable 40 = count_leading_zeros 40 ∧
  count_trailing_zeros_portable 40 = count_trailing_zeros 40.
Proof. apply portable_counters_agree. decide_now. Defined.
