(* ===== verification/Dictionary.v ===== *)
(** * The dictionary codec for string columns

    Models [compress_dictionary] and [decompress_dictionary] of
    [src/storage/compression.c]: the scan of null-terminated strings, the
    open-addressing hash table of 1024 slots with linear probing, the dictionary
    and index sections, and the raw fall-back.  [first_pass] is shown to refine
    [spec_pass], which numbers the strings by first occurrence. *)
From S2P Require Import Prelude.

Definition DICT_MAX_ENTRIES : Z := 65535.
Definition DICT_SMALL_THRESHOLD : Z := 256.
Definition hash_size : nat := 1024.

(** ** Encoder *)

(** [strlen] and the step over the terminator: the string at the head of the
    buffer and what follows it; [None] when no terminator is left. *)
Fixpoint c_string (bs : list Z) : option (list Z * list Z) :=
  match bs with
  | [] => None
  | b :: bs =>
      if b =? 0 then Some ([], bs)
      else '(s, rest) ← c_string bs; Some (b :: s, rest)
  end.

(** [after] is what memory holds behind the buffer: a string that the buffer ends
    without terminating runs on into it, and ends the loop. *)
Definition next_string (after input : list Z) : option (list Z * list Z) :=
  match c_string input with
  | Some r => Some r
  | None => '(s, _) ← c_string (input ++ after); Some (s, [])
  end.

Definition dict_hash (str : list Z) : Z :=
  fold_left (λ hash c, u32 (u32 (u32 (Z.shiftl hash 5) + hash) + c)) str 5381.

(** A slot of [hash_table]; [None] stands for [(uint32)-1]. *)
Abbreviation slots := (list (option nat)).

(** The probing loop from slot [h]: the slot it stops at and [found_idx].  The
    loop runs forever when no slot is empty and the string is absent; [None] is
    the fuel running out. *)
Fixpoint probe (fuel : nat) (table : slots) (dict : list (list Z)) (str : list Z) (h : nat) :
    option (outcome (nat * option nat)) :=
  match fuel with
  | O => None
  | S fuel =>
      match table !! h with
      | None => Some Undef
      | Some None => Some (Ok (h, None))
      | Some (Some idx) =>
          match dict !! idx with
          | None => Some Undef
          | Some s =>
              if bool_decide (s = str) then Some (Ok (h, Some idx))
              else probe fuel table dict str ((h + 1) mod hash_size)
          end
      end
  end.

Record DictState := { ds_dict : list (list Z); ds_table : slots; ds_indices : list nat }.

Definition dict_init : DictState :=
  {| ds_dict := []; ds_table := replicate hash_size None; ds_indices := [] |}.

(** [indices[value_count++] = idx]: the array has [input_size / 2 + 1] slots. *)
Definition push_index (cap : Z) (idx : nat) (st : DictState) : outcome DictState :=
  if len (ds_indices st) <? cap
  then Ok {| ds_dict := ds_dict st; ds_table := ds_table st;
             ds_indices := ds_indices st ++ [idx] |}
  else Undef.

(** One string of the first pass; an inner [None] is the fall-back on too many
    distinct strings. *)
Definition dict_add (fuel : nat) (cap : Z) (str : list Z) (st : DictState) :
    option (outcome (option DictState)) :=
  let h := Z.to_nat (dict_hash str mod Z.of_nat hash_size) in
  r ← probe fuel (ds_table st) (ds_dict st) str h;
  Some ('(h, found) ← r;
        match found with
        | Some idx => st ← push_index cap idx st; Ok (Some st)
        | None =>
            let dict_size := length (ds_dict st) in
            if DICT_MAX_ENTRIES <=? Z.of_nat dict_size then Ok None else
            st ← push_index cap dict_size
                  {| ds_dict := ds_dict st ++ [str];
                     ds_table := <[h := Some dict_size]> (ds_table st);
                     ds_indices := ds_indices st |};
            Ok (Some st)
        end).

(** [while (ptr < end)]; every round consumes the terminator, so the length of
    the input bounds the number of rounds. *)
Fixpoint first_pass_loop (after : list Z) (rounds fuel : nat) (cap : Z) (input : list Z) (st : DictState) :
    option (outcome (option DictState)) :=
  match rounds, input with
  | O, _ | _, [] => Some (Ok (Some st))
  | S rounds, _ =>
      match next_string after input with
      | None => Some Undef
      | Some (str, rest) =>
          r ← dict_add fuel cap str st;
          match r with
          | Ok (Some st) => first_pass_loop after rounds fuel cap rest st
          | other => Some other
          end
      end
  end.

Definition first_pass (after : list Z) (fuel : nat) (input : list Z) : option (outcome (option DictState)) :=
  first_pass_loop after (length input) fuel (len input / 2 + 1) input dict_init.

(** The copy used when encoding does not pay off. *)
Definition dict_copy (input : list Z) (max_output_size : Z) : Z * list Z :=
  if max_output_size <? len input then (-1, []) else (len input, input).

Definition dict_strings (dict : list (list Z)) : list Z := dict ≫= λ s, s ++ [0].

Definition dict_small (dict : list (list Z)) : bool :=
  Z.of_nat (length dict) <=? DICT_SMALL_THRESHOLD.

(** One byte per value for a small dictionary, two otherwise. *)
Definition index_section (small : bool) (indices : list nat) : list Z :=
  if small then (λ i, u8 (Z.of_nat i)) <$> indices
  else indices ≫= λ i, le_enc 2 (Z.of_nat i).

(** Header, dictionary, indices. *)
Definition dict_block (dict : list (list Z)) (indices : list nat) : list Z :=
  le_enc 4 (Z.of_nat (length dict)) ++ le_enc 4 (len indices) ++
  dict_strings dict ++ index_section (dict_small dict) indices.

Definition dict_encode (input : list Z) (max_output_size : Z) (st : DictState) : Z * list Z :=
  let index_bytes := if dict_small (ds_dict st) then 1 else 2 in
  let estimated_size :=
    8 + len (dict_strings (ds_dict st)) + len (ds_indices st) * index_bytes in
  if (len input <=? estimated_size) || (max_output_size <? estimated_size)
  then dict_copy input max_output_size
  else let out := dict_block (ds_dict st) (ds_indices st) in (len out, out).

Definition compress_dictionary (after : list Z) (fuel : nat) (input : list Z) (max_output_size : Z) :
    option (outcome (Z * list Z)) :=
  r ← first_pass after fuel input;
  Some (st ← r;
        match st with
        | None => Ok (dict_copy input max_output_size)
        | Some st => Ok (dict_encode input max_output_size st)
        end).

(** ** Decoder *)

(** The loop over the dictionary section: the strings read and what is left. *)
Fixpoint read_dict (dict_size : nat) (input : list Z) : outcome (list (list Z) * list Z) :=
  match dict_size, input with
  | O, _ | _, [] => Ok ([], input)
  | S dict_size, _ =>
      '(s, rest) ← deref (c_string input);
      '(dict, rest) ← read_dict dict_size rest;
      Ok (s :: dict, rest)
  end.

(** One decoded value appended to the output; an index that the dictionary
    section did not fill is a null pointer, and the output holds
    [expected_size] bytes. *)
Definition put_value (dict_size idx expected_size : Z) (dict : list (list Z)) (out : list Z) :
    outcome (list Z) :=
  if idx <? dict_size then
    s ← deref (dict !! Z.to_nat idx);
    if len out + len s + 1 <=? expected_size then Ok (out ++ s ++ [0]) else Undef
  else Ok out.

Fixpoint decode_u8 (count : nat) (dict_size expected_size : Z) (dict : list (list Z))
    (idxs out : list Z) : outcome (list Z) :=
  match count with
  | O => Ok out
  | S count =>
      match idxs with
      | [] => Undef
      | idx :: idxs =>
          out ← put_value dict_size idx expected_size dict out;
          decode_u8 count dict_size expected_size dict idxs out
      end
  end.

Fixpoint decode_u16 (count : nat) (dict_size expected_size : Z) (dict : list (list Z))
    (idxs out : list Z) : outcome (list Z) :=
  match count, idxs with
  | S count, b0 :: b1 :: idxs =>
      out ← put_value dict_size (le_dec [b0; b1]) expected_size dict out;
      decode_u16 count dict_size expected_size dict idxs out
  | _, _ => Ok out
  end.

Definition decompress_dictionary (input : list Z) (expected_size : Z) : outcome (Z * list Z) :=
  if len input <? 8 then Ok (len input, input) else
  let dict_size := le_dec (take 4 input) in
  let value_count := le_dec (take 4 (drop 4 input)) in
  if (dict_size =? 0) || (DICT_MAX_ENTRIES <? dict_size) || (value_count =? 0)
  then Ok (len input, input) else
  '(dict, idxs) ← read_dict (Z.to_nat dict_size) (drop 8 input);
  let n := Z.to_nat (i32 value_count) in
  out ← (if dict_size <=? DICT_SMALL_THRESHOLD then
           match idxs with
           | [] => Ok []
           | _ => decode_u8 n dict_size expected_size dict idxs []
           end
         else decode_u16 n dict_size expected_size dict idxs []);
  Ok (if 0 <? len out then len out else expected_size, out).

(** ** Specification of the first pass *)

Definition spec_add (str : list Z) (di : list (list Z) * list nat) : list (list Z) * list nat :=
  let '(dict, indices) := di in
  match list_find (λ s, s = str) dict with
  | Some (i, _) => (dict, indices ++ [i])
  | None => (dict ++ [str], indices ++ [length dict])
  end.

Definition spec_pass (strs : list (list Z)) : list (list Z) * list nat :=
  fold_left (λ di s, spec_add s di) strs ([], []).

(** A buffer of null-terminated strings. *)
Definition string_ok (s : list Z) : Prop := Forall (λ b, 0 < b < 256) s.

#[export] Instance string_ok_dec s : Decision (string_ok s).
Proof. unfold string_ok. apply _. Defined.

(** ** The hash table refines the list dictionary *)

Lemma hash_size_pos : (0 < hash_size)%nat.
Proof. unfold hash_size. lia. Qed.

Lemma mod_succ h : ((h mod hash_size + 1) mod hash_size = (h + 1) mod hash_size)%nat.
Proof. by rewrite Nat.Div0.add_mod_idemp_l. Qed.

(** Slot number [k] on the probing path of a string. *)
Definition hash_slot (str : list Z) : nat := Z.to_nat (dict_hash str mod Z.of_nat hash_size).
Definition path (str : list Z) (k : nat) : nat := ((hash_slot str + k) mod hash_size)%nat.

Lemma path_lt str k : (path str k < hash_size)%nat.
Proof. apply Nat.mod_upper_bound. pose proof hash_size_pos. lia. Qed.

Lemma path_0 str : path str 0 = hash_slot str.
Proof.
  unfold path. rewrite Nat.add_0_r. apply Nat.mod_small. unfold hash_slot.
  pose proof (Z.mod_pos_bound (dict_hash str) (Z.of_nat hash_size) ltac:(done)). lia.
Qed.

Lemma path_succ str k : ((path str k + 1) mod hash_size)%nat = path str (S k).
Proof. unfold path. rewrite mod_succ. f_equal. lia. Qed.

(** Every slot is on the path within one round. *)
Lemma path_covers str h : (h < hash_size)%nat → ∃ k, (k < hash_size)%nat ∧ path str k = h.
Proof.
  intros Hh. pose proof (path_lt str 0) as Hs. rewrite path_0 in Hs.
  unfold path. destruct (decide (hash_slot str ≤ h)%nat).
  - exists (h - hash_slot str)%nat. split; [lia|].
    rewrite Nat.mod_small by lia. lia.
  - exists (h + hash_size - hash_slot str)%nat. split; [lia|].
    replace (hash_slot str + (h + hash_size - hash_slot str))%nat with (h + 1 * hash_size)%nat by lia.
    rewrite Nat.Div0.mod_add. by apply Nat.mod_small.
Qed.

Record table_ok (table : slots) (dict : list (list Z)) : Prop := {
  tok_length : length table = hash_size;
  tok_count : length (omap id table) = length dict;
  tok_valid : ∀ h i, table !! h = Some (Some i) → (i < length dict)%nat;
  tok_reach : ∀ i s, dict !! i = Some s → ∃ k, (k < hash_size)%nat ∧
    table !! path s k = Some (Some i) ∧
    ∀ j, (j < k)%nat → ∃ i', table !! path s j = Some (Some i');
  tok_nodup : NoDup dict }.

Lemma omap_id_insert (table : slots) h i :
  table !! h = Some None → length (omap id (<[h := Some i]> table)) = S (length (omap id table)).
Proof.
  intros Hh. pose proof (lookup_lt_Some _ _ _ Hh) as Hlt.
  rewrite <- (take_drop_middle _ _ _ Hh) at 2. rewrite insert_take_drop by done.
  rewrite !omap_app. cbn. rewrite !length_app. simpl. lia.
Qed.

Lemma omap_id_full (table : slots) :
  (∀ h, (h < length table)%nat → ∃ i, table !! h = Some (Some i)) →
  length (omap id table) = length table.
Proof.
  induction table as [|x table IH]; intros H; [done|].
  destruct (H 0%nat) as [i Hi]; [simpl; lia|]. injection Hi as ->. cbn. f_equal.
  apply IH. intros h Hh. apply (H (S h)). simpl. lia.
Qed.

Lemma omap_id_le (table : slots) : (length (omap id table) ≤ length table)%nat.
Proof. induction table as [|[i|] table IH]; cbn; lia. Qed.

(** A table with fewer strings than slots has an empty slot. *)
Lemma table_has_empty table dict :
  table_ok table dict → (length dict < hash_size)%nat →
  ∃ h, (h < hash_size)%nat ∧ table !! h = Some None.
Proof.
  intros Hok Hlt. destruct (decide (Exists (λ x, x = None) table)) as [He|Hne].
  - apply Exists_exists in He as (x & Hin & ->).
    apply list_elem_of_lookup in Hin as [h Hh]. exists h. split; [|done].
    rewrite <- (tok_length _ _ Hok). by eapply lookup_lt_Some.
  - exfalso. apply not_Exists_Forall in Hne; [|apply _].
    pose proof (tok_count _ _ Hok) as Hc. rewrite omap_id_full in Hc.
    + rewrite (tok_length _ _ Hok) in Hc. lia.
    + intros h Hh. apply lookup_lt_is_Some in Hh as [[i|] Hx]; [eauto|].
      rewrite Forall_lookup in Hne. by destruct (Hne h None Hx).
Qed.

Lemma first_empty (table : slots) str n :
  length table = hash_size → table !! path str n = Some None →
  ∃ k, (k ≤ n)%nat ∧ table !! path str k = Some None ∧
    ∀ j, (j < k)%nat → ∃ i, table !! path str j = Some (Some i).
Proof.
  intros Hl Hn. destruct (nat_least (λ k, table !! path str k = Some None) n Hn)
    as (k & Hk & HP & Hmin).
  exists k. split_and!; [done..|]. intros j Hj. specialize (Hmin j Hj).
  destruct (table !! path str j) as [[i|]|] eqn:E; [eauto|done|].
  apply lookup_ge_None in E. pose proof (path_lt str j). lia.
Qed.

(** Probing past occupied slots that hold other strings. *)
Lemma probe_walk (table : slots) (dict : list (list Z)) str fuel k n :
  (∀ j, (k ≤ j < k + n)%nat → ∃ i s, table !! path str j = Some (Some i) ∧
     dict !! i = Some s ∧ s ≠ str) →
  probe (n + fuel) table dict str (path str k) = probe fuel table dict str (path str (k + n)).
Proof.
  revert k. induction n as [|n IH]; intros k H.
  - by rewrite Nat.add_0_r.
  - change (S n + fuel)%nat with (S (n + fuel)). cbn [probe]. destruct (H k) as (i & s & -> & -> & Hne); [lia|].
    rewrite bool_decide_eq_false_2 by done. rewrite path_succ, IH.
    + by replace (k + S n)%nat with (S k + n)%nat by lia.
    + intros j Hj. apply H. lia.
Qed.

Lemma probe_hit table dict str i :
  table_ok table dict → dict !! i = Some str →
  ∃ h, probe hash_size table dict str (hash_slot str) = Some (Ok (h, Some i)).
Proof.
  intros Hok Hi. destruct (tok_reach _ _ Hok i str Hi) as (k0 & Hk0 & Ht0 & Hocc).
  destruct (nat_least (λ k, table !! path str k = Some (Some i)) k0 Ht0)
    as (k & Hk & Ht & Hmin).
  exists (path str k). rewrite <- path_0.
  replace hash_size with (k + S (hash_size - k - 1))%nat by lia.
  rewrite probe_walk.
  - cbn [probe Nat.add]. rewrite Ht, Hi. by rewrite bool_decide_eq_true_2.
  - intros j Hj. destruct (Hocc j) as [i' Hi']; [lia|].
    pose proof (tok_valid _ _ Hok _ _ Hi') as Hv.
    apply lookup_lt_is_Some in Hv as [s Hs]. exists i', s. split_and!; [done|done|].
    intros ->. pose proof (NoDup_lookup _ _ _ _ (tok_nodup _ _ Hok) Hs Hi) as ->.
    apply (Hmin j); [lia|done].
Qed.

(** An absent string stops at the first empty slot of its path. *)
Lemma probe_miss table dict str :
  table_ok table dict → str ∉ dict → (length dict < hash_size)%nat →
  ∃ k, (k < hash_size)%nat ∧ table !! path str k = Some None ∧
    (∀ j, (j < k)%nat → ∃ i, table !! path str j = Some (Some i)) ∧
    probe hash_size table dict str (hash_slot str) = Some (Ok (path str k, None)).
Proof.
  intros Hok Hni Hlt. destruct (table_has_empty _ _ Hok Hlt) as (h & Hh & He).
  destruct (path_covers str h Hh) as (n & Hn & <-).
  destruct (first_empty _ _ _ (tok_length _ _ Hok) He) as (k & Hk & Ht & Hocc).
  exists k. split_and!; [lia|done..|]. rewrite <- path_0.
  replace hash_size with (k + S (hash_size - k - 1))%nat by lia.
  rewrite probe_walk; [cbn [probe Nat.add]; by rewrite Ht|].
  intros j Hj. destruct (Hocc j) as [i Hi]; [lia|].
  pose proof (tok_valid _ _ Hok _ _ Hi) as [s Hs]%lookup_lt_is_Some.
  exists i, s. split_and!; [done..|]. intros ->. apply Hni.
  by eapply list_elem_of_lookup_2.
Qed.

(** With all the slots taken an absent string is probed for forever. *)
Lemma probe_full_diverges table dict str fuel h :
  table_ok table dict → str ∉ dict → length dict = hash_size →
  (h < hash_size)%nat → probe fuel table dict str h = None.
Proof.
  intros Hok Hni Hfull. revert h. induction fuel as [|fuel IH]; intros h Hh; [done|]. cbn [probe].
  destruct (table !! h) as [[i|]|] eqn:E.
  - pose proof (tok_valid _ _ Hok _ _ E) as [s Hs]%lookup_lt_is_Some. rewrite Hs.
    rewrite bool_decide_eq_false_2.
    + apply IH. apply Nat.mod_upper_bound. unfold hash_size. lia.
    + intros ->. apply Hni. by eapply list_elem_of_lookup_2.
  - exfalso. pose proof (omap_id_insert _ _ 0%nat E) as Hc.
    rewrite (tok_count _ _ Hok) in Hc.
    pose proof (omap_id_le (<[h := Some 0%nat]> table)) as Hle.
    rewrite length_insert, (tok_length _ _ Hok) in Hle. lia.
  - apply lookup_ge_None in E. rewrite (tok_length _ _ Hok) in E. lia.
Qed.

Lemma table_ok_add table dict str k :
  table_ok table dict → str ∉ dict → (k < hash_size)%nat →
  table !! path str k = Some None →
  (∀ j, (j < k)%nat → ∃ i, table !! path str j = Some (Some i)) →
  table_ok (<[path str k := Some (length dict)]> table) (dict ++ [str]).
Proof.
  intros Hok Hni Hk Ht Hocc. pose proof (tok_length _ _ Hok) as Hl.
  assert (Hmono : ∀ h i, table !! h = Some (Some i) →
    <[path str k := Some (length dict)]> table !! h = Some (Some i)).
  { intros h i Hi. rewrite list_lookup_insert_ne; [done|]. intros <-. by rewrite Ht in Hi. }
  split.
  - by rewrite length_insert.
  - rewrite omap_id_insert, length_app by done. rewrite (tok_count _ _ Hok). simpl. lia.
  - intros h i Hi. rewrite length_app. simpl. destruct (decide (h = path str k)) as [->|Hne].
    + rewrite list_lookup_insert_eq in Hi by (rewrite Hl; apply path_lt).
      injection Hi as <-. lia.
    + rewrite list_lookup_insert_ne in Hi by done.
      pose proof (tok_valid _ _ Hok _ _ Hi). lia.
  - intros i s [Hi|[Hi [H0 <-]%list_lookup_singleton_Some]]%lookup_app_Some.
    + destruct (tok_reach _ _ Hok i s Hi) as (k' & Hk' & Ht' & Hocc').
      exists k'. split_and!; [done|by apply Hmono|].
      intros j Hj. destruct (Hocc' j Hj) as [i' Hi']. eauto.
    + exists k. split_and!; [done| |].
      * rewrite list_lookup_insert_eq by (rewrite Hl; apply path_lt). do 2 f_equal. lia.
      * intros j Hj. destruct (Hocc j Hj) as [i' Hi']. eauto.
  - apply NoDup_app. split; [apply Hok|]. split; [|apply NoDup_singleton].
    intros s Hs ->%list_elem_of_singleton. done.
Qed.

Lemma table_ok_init : table_ok (replicate hash_size None) [].
Proof.
  split.
  - apply length_replicate.
  - vm_compute. reflexivity.
  - intros h i Hi. by apply lookup_replicate in Hi as [? ?].
  - done.
  - constructor.
Qed.

(** One string: the hash table gives what the list dictionary gives. *)
Lemma dict_add_spec cap str st :
  table_ok (ds_table st) (ds_dict st) →
  (length (fst (spec_add str (ds_dict st, ds_indices st))) ≤ hash_size)%nat →
  (len (ds_indices st) < cap →
   ∃ st', dict_add hash_size cap str st = Some (Ok (Some st')) ∧
     table_ok (ds_table st') (ds_dict st') ∧
     (ds_dict st', ds_indices st') = spec_add str (ds_dict st, ds_indices st)) ∧
  (cap ≤ len (ds_indices st) → dict_add hash_size cap str st = Some Undef).
Proof.
  intros Hok Hsize. unfold dict_add, spec_add, push_index in *.
  change (Z.to_nat (dict_hash str mod Z.of_nat hash_size)) with (hash_slot str).
  destruct (list_find (λ s, s = str) (ds_dict st)) as [[i s]|] eqn:Ef.
  - apply list_find_Some in Ef as (Hi & -> & _).
    destruct (probe_hit _ _ _ _ Hok Hi) as [h ->]. cbn.
    destruct (Z.ltb_spec (len (ds_indices st)) cap); cbn.
    + split; [|lia]. intros _. eexists. split; [done|]. by cbn.
    + split; [lia|done].
  - apply list_find_None in Ef. cbn in Hsize. rewrite length_app in Hsize. cbn in Hsize.
    assert (Hni : str ∉ ds_dict st).
    { intros Hin. rewrite Forall_forall in Ef. by apply (Ef str). }
    destruct (probe_miss _ _ str Hok Hni) as (k & Hk & Ht & Hocc & ->); [lia|].
    cbn -[DICT_MAX_ENTRIES].
    destruct (Z.leb_spec DICT_MAX_ENTRIES (len (ds_dict st))) as [Hbig|_].
    { unfold DICT_MAX_ENTRIES in Hbig. change hash_size with (Z.to_nat 1024) in Hsize. lia. }
    destruct (Z.ltb_spec (len (ds_indices st)) cap); cbn.
    + split; [|lia]. intros _. eexists. split; [done|]. cbn.
      split; [by apply table_ok_add|done].
    + split; [lia|done].
Qed.

Lemma c_string_app s rest : string_ok s → c_string (s ++ 0 :: rest) = Some (s, rest).
Proof.
  induction 1 as [|b s Hb Hs IH]; [done|]. cbn. rewrite IH.
  destruct (Z.eqb_spec b 0); [lia|done].
Qed.

Lemma next_string_app after s rest :
  string_ok s → next_string after (s ++ 0 :: rest) = Some (s, rest).
Proof. intros. unfold next_string. by rewrite c_string_app. Qed.

Lemma dict_strings_cons s strs : dict_strings (s :: strs) = s ++ 0 :: dict_strings strs.
Proof. unfold dict_strings. rewrite bind_cons, <- app_assoc. done. Qed.

Lemma dict_strings_length strs : (length strs ≤ length (dict_strings strs))%nat.
Proof.
  induction strs as [|s strs IH]; [done|].
  rewrite dict_strings_cons, length_app. cbn. lia.
Qed.

Lemma spec_add_length s di : (length di.1 ≤ length (spec_add s di).1)%nat.
Proof.
  destruct di as [d ix]. unfold spec_add.
  destruct (list_find _ d) as [[i x]|]; cbn; rewrite ?length_app; lia.
Qed.

Lemma spec_fold_length strs di :
  (length di.1 ≤ length (fold_left (λ di s, spec_add s di) strs di).1)%nat.
Proof.
  revert di. induction strs as [|s strs IH]; intros di; [done|]. cbn.
  etrans; [apply (spec_add_length s)|apply IH].
Qed.

Lemma spec_add_indices s di : length (spec_add s di).2 = S (length di.2).
Proof.
  destruct di as [d ix]. unfold spec_add.
  destruct (list_find _ d) as [[i x]|]; cbn; rewrite length_app; cbn; lia.
Qed.

Lemma first_pass_loop_spec after rounds cap strs st :
  table_ok (ds_table st) (ds_dict st) → Forall string_ok strs →
  (length strs ≤ rounds)%nat →
  (length (fold_left (λ di s, spec_add s di) strs (ds_dict st, ds_indices st)).1
     ≤ hash_size)%nat →
  (len (ds_indices st) + len strs ≤ cap →
   ∃ st', first_pass_loop after rounds hash_size cap (dict_strings strs) st = Some (Ok (Some st')) ∧
     (ds_dict st', ds_indices st') =
       fold_left (λ di s, spec_add s di) strs (ds_dict st, ds_indices st)) ∧
  (cap < len (ds_indices st) + len strs → len (ds_indices st) ≤ cap →
   first_pass_loop after rounds hash_size cap (dict_strings strs) st = Some Undef).
Proof.
  intros Hok Hs. revert rounds st Hok.
  induction Hs as [|s strs Hs0 Hs IH]; intros rounds st Hok Hr Hsize.
  { split.
    - intros _. exists st. destruct rounds; done.
    - cbn. lia. }
  destruct rounds as [|rounds]; [cbn in Hr; lia|].
  rewrite dict_strings_cons. cbn [length] in *. cbn [fold_left] in Hsize |- *.
  destruct (s ++ 0 :: dict_strings strs) as [|b0 tl] eqn:Etl; [by destruct s|].
  cbn [first_pass_loop]. rewrite <- Etl, next_string_app by done.
  pose proof (spec_fold_length strs (spec_add s (ds_dict st, ds_indices st))) as Hmono.
  destruct (dict_add_spec cap s st Hok) as [Hgood Hbad]; [lia|].
  destruct (Z.le_gt_cases cap (len (ds_indices st))) as [Hc|Hc].
  { rewrite (Hbad Hc). split; [lia|done]. }
  destruct (Hgood Hc) as (st1 & -> & Hok1 & Heq). cbn [mbind option_bind].
  rewrite <- Heq in Hsize |- *.
  destruct (IH rounds st1 Hok1 ltac:(lia) Hsize) as [Hg Hb].
  assert (Hix : length (ds_indices st1) = S (length (ds_indices st))).
  { pose proof (spec_add_indices s (ds_dict st, ds_indices st)) as H. by rewrite <- Heq in H. }
  split; [intros; apply Hg; lia|intros; apply Hb; lia].
Qed.

Lemma first_pass_spec after strs :
  Forall string_ok strs → (length (spec_pass strs).1 ≤ hash_size)%nat →
  let input := dict_strings strs in
  (len strs ≤ len input / 2 + 1 →
   ∃ st, first_pass after hash_size input = Some (Ok (Some st)) ∧
     (ds_dict st, ds_indices st) = spec_pass strs) ∧
  (len input / 2 + 1 < len strs → first_pass after hash_size input = Some Undef).
Proof.
  intros Hs Hsize input.
  destruct (first_pass_loop_spec after (length input) (len input / 2 + 1) strs dict_init) as [Hg Hb].
  - apply table_ok_init.
  - done.
  - apply dict_strings_length.
  - done.
  - cbn in Hg, Hb. split; [done|]. intros. apply Hb; [done|]. Z.div_mod_to_equations. lia.
Qed.

(** ** The specification numbers strings faithfully *)

Definition decodes (dict : list (list Z)) (ix : list nat) (strs : list (list Z)) : Prop :=
  Forall2 (λ i s, dict !! i = Some s) ix strs.

Lemma spec_add_decodes s dict ix strs :
  decodes dict ix strs →
  decodes (spec_add s (dict, ix)).1 (spec_add s (dict, ix)).2 (strs ++ [s]).
Proof.
  intros H. unfold spec_add. destruct (list_find _ dict) as [[i x]|] eqn:E; cbn.
  - apply list_find_Some in E as (Hi & -> & _). by apply Forall2_app; [|constructor].
  - apply Forall2_app; [|constructor; [|done]].
    + eapply Forall2_impl; [done|]. cbn. intros i s' Hi. by apply lookup_app_l_Some.
    + by apply list_lookup_middle.
Qed.

Lemma spec_pass_decodes strs : decodes (spec_pass strs).1 (spec_pass strs).2 strs.
Proof.
  unfold spec_pass.
  assert (H : ∀ di done, decodes di.1 di.2 done →
    decodes (fold_left (λ di s, spec_add s di) strs di).1
            (fold_left (λ di s, spec_add s di) strs di).2 (done ++ strs)).
  { induction strs as [|s strs IH]; intros [d ix] pre H; cbn [fold_left].
    - by rewrite app_nil_r.
    - rewrite (cons_middle s), app_assoc. apply IH. by apply spec_add_decodes. }
  apply (H ([], []) []). constructor.
Qed.

Lemma spec_pass_strings strs : Forall string_ok strs → Forall string_ok (spec_pass strs).1.
Proof.
  unfold spec_pass. intros Hs.
  assert (H : ∀ di, Forall string_ok di.1 →
    Forall string_ok (fold_left (λ di s, spec_add s di) strs di).1).
  { induction Hs as [|s strs Hs0 Hs IH]; intros [d ix] Hd; [done|]. cbn [fold_left].
    apply IH. unfold spec_add. destruct (list_find _ d) as [[? ?]|]; [done|].
    cbn. apply Forall_app. auto. }
  by apply H.
Qed.

(** ** The decoder *)

Lemma read_dict_strings dict rest :
  Forall string_ok dict → read_dict (length dict) (dict_strings dict ++ rest) = Ok (dict, rest).
Proof.
  induction 1 as [|s dict Hs Hd IH]; [by destruct rest|].
  rewrite dict_strings_cons, <- app_assoc. cbn [app length].
  destruct (s ++ 0 :: dict_strings dict ++ rest) as [|b tl] eqn:E; [by destruct s|].
  cbn [read_dict]. rewrite <- E, c_string_app by done. cbn. by rewrite IH.
Qed.

Lemma put_value_ok dict i s expected out :
  dict !! i = Some s → len out + len s + 1 ≤ expected →
  put_value (len dict) (Z.of_nat i) expected dict out = Ok (out ++ s ++ [0]).
Proof.
  intros Hi Hcap. unfold put_value. pose proof (lookup_lt_Some _ _ _ Hi).
  destruct (Z.ltb_spec (Z.of_nat i) (len dict)); [|lia]. rewrite Nat2Z.id, Hi. cbn.
  destruct (Z.leb_spec (len out + len s + 1) expected); [done|lia].
Qed.

Lemma decode_u8_spec dict ix strs expected out :
  decodes dict ix strs → len dict ≤ 256 →
  len out + len (dict_strings strs) ≤ expected →
  decode_u8 (length ix) (len dict) expected dict ((λ i, u8 (Z.of_nat i)) <$> ix) out =
    Ok (out ++ dict_strings strs).
Proof.
  intros Hd Hsmall. revert out. induction Hd as [|i s ix strs Hi Hd IH]; intros out Hcap.
  - cbn. by rewrite app_nil_r.
  - rewrite dict_strings_cons, length_app in Hcap. cbn [length] in Hcap.
    cbn [fmap list_fmap length decode_u8]. pose proof (lookup_lt_Some _ _ _ Hi).
    rewrite uwrap_id by (unfold in_u; lia).
    rewrite (put_value_ok _ _ s) by (done || lia). cbn [mbind outcome_bind].
    change (list_fmap nat Z (λ i, u8 (Z.of_nat i)) ix) with ((λ i, u8 (Z.of_nat i)) <$> ix).
    rewrite IH by (rewrite !length_app; cbn; lia).
    rewrite dict_strings_cons, <- !app_assoc. done.
Qed.

Lemma le_enc2_bytes z : ∃ b0 b1, le_enc 2 z = [b0; b1].
Proof.
  pose proof (le_enc_length 2 z ltac:(lia)).
  destruct (le_enc 2 z) as [|b0 [|b1 [|b2 l]]]; cbn in *; try lia. eauto.
Qed.

Lemma decode_u16_spec dict ix strs expected out :
  decodes dict ix strs → len dict ≤ 65535 →
  len out + len (dict_strings strs) ≤ expected →
  decode_u16 (length ix) (len dict) expected dict (ix ≫= λ i, le_enc 2 (Z.of_nat i)) out =
    Ok (out ++ dict_strings strs).
Proof.
  intros Hd Hsmall. revert out. induction Hd as [|i s ix strs Hi Hd IH]; intros out Hcap.
  - cbn. by rewrite app_nil_r.
  - rewrite dict_strings_cons, length_app in Hcap. cbn [length] in Hcap.
    rewrite bind_cons. cbn [length]. pose proof (lookup_lt_Some _ _ _ Hi).
    destruct (le_enc2_bytes (Z.of_nat i)) as (b0 & b1 & E). rewrite E. cbn [app decode_u16].
    rewrite <- E, le_dec_enc, Z.mod_small by lia.
    rewrite (put_value_ok _ _ s) by (done || lia). cbn [mbind outcome_bind].
    rewrite IH by (rewrite !length_app; cbn; lia).
    rewrite dict_strings_cons, <- !app_assoc. done.
Qed.

(** ** Divergence when the table is full *)

Lemma probe_deterministic table dict str h f1 f2 r1 r2 :
  probe f1 table dict str h = Some r1 → probe f2 table dict str h = Some r2 → r1 = r2.
Proof.
  revert f2 h. induction f1 as [|f1 IH]; intros [|f2] h; cbn [probe]; try done.
  destruct (table !! h) as [[i|]|]; try congruence.
  destruct (dict !! i); try congruence. case_bool_decide; [congruence|]. apply IH.
Qed.

Lemma dict_add_deterministic f1 f2 cap str st r1 r2 :
  dict_add f1 cap str st = Some r1 → dict_add f2 cap str st = Some r2 → r1 = r2.
Proof.
  unfold dict_add. set (h := Z.to_nat _).
  destruct (probe f1 _ _ _ h) as [x1|] eqn:E1; [|done].
  destruct (probe f2 _ _ _ h) as [x2|] eqn:E2; [|done].
  rewrite (probe_deterministic _ _ _ _ _ _ _ _ E1 E2). cbn. congruence.
Qed.

Lemma first_pass_loop_diverges after rounds fuel cap strs s rest st :
  table_ok (ds_table st) (ds_dict st) → Forall string_ok strs → string_ok s →
  (length strs < rounds)%nat → len (ds_indices st) + len strs ≤ cap →
  let final := fold_left (λ di s, spec_add s di) strs (ds_dict st, ds_indices st) in
  length final.1 = hash_size → s ∉ final.1 →
  first_pass_loop after rounds fuel cap (dict_strings strs ++ s ++ 0 :: rest) st = None.
Proof.
  intros Hok Hs Hs0 Hr Hcap. revert rounds st Hok Hr Hcap.
  induction Hs as [|s1 strs Hs1 Hs IH]; intros rounds st Hok Hr Hcap final Hfull Hni.
  - destruct rounds as [|rounds]; [cbn in Hr; lia|]. cbn [dict_strings mbind list_bind app].
    destruct (s ++ 0 :: rest) as [|b tl] eqn:E; [by destruct s|].
    cbn [first_pass_loop]. rewrite <- E, next_string_app by done.
    unfold dict_add. rewrite (probe_full_diverges (ds_table st) (ds_dict st)); [done|done|done|done|].
    fold (hash_slot s). rewrite <- path_0. apply path_lt.
  - destruct rounds as [|rounds]; [cbn in Hr; lia|]. cbn [length] in Hr, Hcap.
    rewrite dict_strings_cons, <- app_assoc. cbn [app].
    destruct (s1 ++ 0 :: dict_strings strs ++ s ++ 0 :: rest) as [|b tl] eqn:E; [by destruct s1|].
    cbn [first_pass_loop]. rewrite <- E, next_string_app by done.
    cbn [fold_left] in final.
    pose proof (spec_fold_length strs (spec_add s1 (ds_dict st, ds_indices st))) as Hmono.
    destruct (dict_add_spec cap s1 st Hok) as [Hgood _]; [unfold final in Hfull; lia|].
    destruct Hgood as (st1 & Eadd & Hok1 & Heq); [lia|].
    destruct (dict_add fuel cap s1 st) as [r|] eqn:Ef; [|done]. cbn [mbind option_bind].
    rewrite (dict_add_deterministic _ _ _ _ _ _ _ Ef Eadd).
    assert (Hix : length (ds_indices st1) = S (length (ds_indices st))).
    { pose proof (spec_add_indices s1 (ds_dict st, ds_indices st)) as H. by rewrite <- Heq in H. }
    unfold final in *. rewrite <- Heq in *. apply IH; [done|lia|lia|done|done].
Qed.

(** ** Properties of the dictionary codec *)

(** With at most 1024 distinct strings and an index array that is large
    enough, the probing hash table terminates within 1024 probes per string and
    numbers the strings exactly as the list dictionary does: by order of first
    occurrence, each distinct string once. *)
Theorem dictionary_pass_refines (after : list Z) (strs : list (list Z)) :
  Forall string_ok strs → (length (spec_pass strs).1 ≤ hash_size)%nat →
  len strs ≤ len (dict_strings strs) / 2 + 1 →
  ∃ st, first_pass after hash_size (dict_strings strs) = Some (Ok (Some st)) ∧
    (ds_dict st, ds_indices st) = spec_pass strs.
Proof. intros Hs Hsize Hcap. by apply first_pass_spec. Qed.

Lemma index_section_length small ix :
  len (index_section small ix) = len ix * (if small then 1 else 2).
Proof.
  unfold index_section. destruct small; [rewrite length_fmap; lia|].
  induction ix as [|i ix IH]; [done|]. rewrite bind_cons, length_app.
  pose proof (le_enc_length 2 (Z.of_nat i) ltac:(lia)). cbn [length]. lia.
Qed.

Lemma dict_block_length dict ix :
  len (dict_block dict ix) =
    8 + len (dict_strings dict) + len ix * (if dict_small dict then 1 else 2).
Proof.
  unfold dict_block. rewrite !length_app, !Nat2Z.inj_add, index_section_length.
  rewrite !le_enc_length by lia. lia.
Qed.

(** The two index decoders restore the strings. *)
Lemma index_section_decodes dict ix strs :
  decodes dict ix strs → len dict ≤ 65535 → ix ≠ [] →
  (if len dict <=? DICT_SMALL_THRESHOLD then
     match index_section (dict_small dict) ix with
     | [] => Ok []
     | _ => decode_u8 (length ix) (len dict) (len (dict_strings strs)) dict
              (index_section (dict_small dict) ix) []
     end
   else decode_u16 (length ix) (len dict) (len (dict_strings strs)) dict
          (index_section (dict_small dict) ix) []) = Ok (dict_strings strs).
Proof.
  intros Hd Hbound Hne. unfold dict_small, index_section.
  destruct (Z.leb_spec (len dict) DICT_SMALL_THRESHOLD) as [Hs|Hs].
  - destruct ((λ i, u8 (Z.of_nat i)) <$> ix) as [|x l] eqn:E; [by destruct ix|]. rewrite <- E.
    by apply (decode_u8_spec dict ix strs _ []).
  - by apply (decode_u16_spec dict ix strs _ []).
Qed.

Lemma dict_block_decodes dict ix strs :
  decodes dict ix strs → Forall string_ok dict → strs ≠ [] →
  len dict ≤ 65535 → len strs < 2 ^ 31 →
  decompress_dictionary (dict_block dict ix) (len (dict_strings strs)) =
    Ok (len (dict_strings strs), dict_strings strs).
Proof.
  intros Hd Hstr Hne Hbound Hvc.
  pose proof (Forall2_length _ _ _ Hd) as Hlen.
  assert (Hix : ix ≠ [] ∧ dict ≠ []).
  { unfold decodes in Hd. destruct Hd as [|i s ix strs Hi _]; [done|].
    split; [done|]. intros ->. done. }
  destruct Hix as [Hixne Hdne].
  assert (0 < len ix ∧ 0 < len dict) by (destruct ix, dict; cbn [length]; (done || lia)).
  assert (0 < len (dict_strings strs)) by (pose proof (dict_strings_length strs); lia).
  pose proof (le_enc_length 4 (len dict) ltac:(lia)) as Hl1.
  pose proof (le_enc_length 4 (len ix) ltac:(lia)) as Hl2.
  unfold decompress_dictionary. rewrite dict_block_length.
  destruct (Z.ltb_spec (8 + len (dict_strings dict) + len ix * (if dict_small dict then 1 else 2)) 8);
    [destruct (dict_small dict); lia|].
  unfold dict_block. rewrite take_app_length' by lia.
  replace (drop 8 _) with (dict_strings dict ++ index_section (dict_small dict) ix).
  2: { rewrite (app_assoc (le_enc 4 _)), drop_app_length'; [done|rewrite length_app; lia]. }
  rewrite drop_app_length', take_app_length' by lia.
  rewrite !le_dec_enc_u32 by (unfold in_u; lia).
  destruct (Z.eqb_spec (len dict) 0); [lia|]. destruct (Z.eqb_spec (len ix) 0); [lia|].
  destruct (Z.ltb_spec DICT_MAX_ENTRIES (len dict)); [unfold DICT_MAX_ENTRIES in *; lia|].
  cbn [orb]. rewrite Nat2Z.id, read_dict_strings by done. cbn [mbind outcome_bind].
  rewrite swrap_id by (unfold in_i; lia). rewrite Nat2Z.id.
  rewrite index_section_decodes by done. cbn [mbind outcome_bind].
  destruct (Z.ltb_spec 0 (len (dict_strings strs))); [done|lia].
Qed.

(** A shrunk block loses nothing. *)
Lemma dictionary_lossless (after : list Z) (strs : list (list Z)) (max r : Z) (out : list Z) :
  Forall string_ok strs → (length (spec_pass strs).1 ≤ hash_size)%nat →
  len strs < 2 ^ 31 →
  compress_dictionary after hash_size (dict_strings strs) max = Some (Ok (r, out)) →
  0 ≤ r < len (dict_strings strs) →
  r = len out ∧ r ≤ max ∧
  decompress_dictionary out (len (dict_strings strs)) =
    Ok (len (dict_strings strs), dict_strings strs).
Proof.
  intros Hs Hsize Hvc. unfold compress_dictionary.
  destruct (first_pass_spec after strs Hs Hsize) as [Hg Hb].
  destruct (Z.le_gt_cases (len strs) (len (dict_strings strs) / 2 + 1)) as [Hle|Hgt];
    [|rewrite Hb by lia; done].
  destruct (Hg Hle) as (st & -> & Hst). cbn [mbind option_bind outcome_bind].
  intros [= He] Hr. unfold dict_encode in He.
  destruct (_ || _) eqn:Eraw.
  { exfalso. revert He Hr. unfold dict_copy.
    destruct (max <? len (dict_strings strs)); intros [= <- <-]; lia. }
  set (blk := dict_block (ds_dict st) (ds_indices st)) in He. cbv zeta in He.
  assert (r = len blk ∧ out = blk) as [-> ->] by (split; congruence). clear He. unfold blk in *.
  apply orb_false_iff in Eraw as [_ Emax%Z.ltb_ge].
  pose proof (spec_pass_decodes strs) as Hd. pose proof (spec_pass_strings strs Hs) as Hstr.
  rewrite <- Hst in Hd, Hstr, Hsize. cbn [fst snd] in Hd, Hstr, Hsize.
  split; [done|]. split; [by rewrite dict_block_length|].
  apply dict_block_decodes; [done|done| | |done].
  - intros ->. cbn in Hr. lia.
  - change hash_size with (Z.to_nat 1024) in Hsize. lia.
Qed.

(** A block of strings that the dictionary encoder shrinks is restored
    byte for byte by the decoder, and fits the output buffer. *)
Theorem dictionary_roundtrip (after : list Z) (strs : list (list Z)) (max r : Z) (out : list Z) :
  Forall string_ok strs → (length (spec_pass strs).1 ≤ hash_size)%nat →
  len strs < 2 ^ 31 →
  compress_dictionary after hash_size (dict_strings strs) max = Some (Ok (r, out)) →
  0 ≤ r < len (dict_strings strs) →
  r = len out ∧ r ≤ max ∧
  decompress_dictionary out (len (dict_strings strs)) =
    Ok (len (dict_strings strs), dict_strings strs).
Proof. apply dictionary_lossless. Qed.

(** Once the 1024 slots of the hash table are taken, the next new string
    makes the encoder probe forever: no number of iterations is enough, well
    before the limit of 65535 dictionary entries. *)
Theorem dictionary_full_table_diverges (after : list Z) (strs : list (list Z)) (s rest : list Z) (max : Z) :
  Forall string_ok strs → string_ok s →
  length (spec_pass strs).1 = hash_size → s ∉ (spec_pass strs).1 →
  len strs ≤ len (dict_strings strs ++ s ++ 0 :: rest) / 2 + 1 →
  ¬ ∃ fuel result,
    compress_dictionary after fuel (dict_strings strs ++ s ++ 0 :: rest) max = Some result.
Proof.
  intros Hs Hs0 Hfull Hni Hcap (fuel & result & Hr). revert Hr. unfold compress_dictionary, first_pass.
  rewrite first_pass_loop_diverges; [done|apply table_ok_init|done|done| | |done|done].
  - rewrite length_app, length_app. pose proof (dict_strings_length strs). cbn [length]. lia.
  - done.
Qed.

(** The index array has [input_size / 2 + 1] slots, which more strings than
    that, possible when most of them are empty, overrun. *)
Theorem dictionary_index_overrun (after : list Z) (strs : list (list Z)) (max : Z) :
  Forall string_ok strs → (length (spec_pass strs).1 ≤ hash_size)%nat →
  len (dict_strings strs) / 2 + 1 < len strs →
  compress_dictionary after hash_size (dict_strings strs) max = Some Undef.
Proof.
  intros Hs Hsize Hgt. unfold compress_dictionary.
  destruct (first_pass_spec after strs Hs Hsize) as [_ Hb]. by rewrite Hb.
Qed.

(** The raw copy is not marked: a block the encoder leaves uncompressed can
    be taken for a dictionary block and decode to something else. *)
Theorem dictionary_raw_copy_misread :
  ∃ strs, Forall string_ok strs ∧
    let input := dict_strings strs in
    compress_dictionary [] hash_size input 100 = Some (Ok (len input, input)) ∧
    decompress_dictionary input (len input) ≠ Ok (len input, input).
Proof.
  exists [[1]; []; []; [2]; []; []; [5; 6; 7; 8; 9; 10]; [11; 12]].
  split; [decide_now|]. split; [vm_compute; reflexivity|]. vm_compute. congruence.
Qed.

Definition sample_strings : list (list Z) :=
  let red := [114; 101; 100] in let green := [103; 114; 101; 101; 110] in
  [red; green; red; red; green; red; green; green].

Lemma dictionary_pass_refines_witness :
  ∃ st, first_pass [] hash_size (dict_strings sample_strings) = Some (Ok (Some st)) ∧
    (ds_dict st, ds_indices st) = spec_pass sample_strings.
Proof.
  apply (dictionary_pass_refines []).
  - decide_now.
  - apply Nat.leb_le. vm_compute. reflexivity.
  - vm_compute. discriminate.
Defined.

Definition sample_block : list Z :=
  [2; 0; 0; 0; 8; 0; 0; 0; 114; 101; 100; 0; 103; 114; 101; 101; 110; 0;
   0; 1; 0; 0; 1; 0; 1; 1].

Lemma dictionary_roundtrip_witness :
  compress_dictionary [] hash_size (dict_strings sample_strings) 64 = Some (Ok (26, sample_block)) ∧
  26 = len sample_block ∧ 26 ≤ 64 ∧
  decompress_dictionary sample_block (len (dict_strings sample_strings)) =
    Ok (len (dict_strings sample_strings), dict_strings sample_strings).
Proof.
  split; [vm_compute; reflexivity|].
  apply (dictionary_roundtrip []).
  - decide_now.
  - apply Nat.leb_le. vm_compute. reflexivity.
  - vm_compute. reflexivity.
  - vm_compute. reflexivity.
  - vm_compute. split; [discriminate|reflexivity].
Defined.

(** 1024 distinct two-byte strings. *)
Definition many_strings : list (list Z) :=
  (λ i, [1 + i mod 255; 1 + i / 255]) <$> seqZ 0 1024.

Lemma dictionary_full_table_diverges_witness :
  ¬ ∃ fuel result,
    compress_dictionary [] fuel (dict_strings many_strings ++ [7; 7; 7] ++ 0 :: []) 100000 =
      Some result.
Proof.
  apply (dictionary_full_table_diverges []).
  - decide_now.
  - decide_now.
  - vm_compute. reflexivity.
  - decide_now.
  - vm_compute. discriminate.
Defined.

Lemma dictionary_index_overrun_witness :
  compress_dictionary [] hash_size (dict_strings [[]; []; []; []]) 100 = Some Undef.
Proof.
  apply (dictionary_index_overrun []).
  - decide_now.
  - apply Nat.leb_le. vm_compute. reflexivity.
  - vm_compute. reflexivity.
Defined.
