(* ===== verification/Rle.v ===== *)
(** * Run-length encoding

    Models [compress_rle] and [decompress_rle] of [src/storage/compression.c]:
    pairs of a byte and a run length of at most 255, and an encoder that stops
    when the output buffer has no room for a pair. *)
From S2P Require Import Prelude.

(** The inner loop: how far the run of [val] goes on, up to [limit] bytes. *)
Fixpoint run_ext (limit : nat) (val : Z) (rest : list Z) : nat :=
  match limit, rest with
  | S limit, b :: rest => if b =? val then S (run_ext limit val rest) else O
  | _, _ => O
  end.

(** The outer loop on what is left of the input; a round consumes a byte, so the
    length of the input bounds the rounds. *)
Fixpoint compress_rle_loop (rounds : nat) (input : list Z) (max : Z) (out : list Z) : list Z :=
  match rounds, input with
  | S rounds, val :: rest =>
      if len out + 2 <=? max then
        let run_length := S (run_ext 254 val rest) in
        compress_rle_loop rounds (drop run_length input) max
          (out ++ [val; u8 (Z.of_nat run_length)])
      else out
  | _, _ => out
  end.

Definition compress_rle (input : list Z) (max_output_size : Z) : Z * list Z :=
  let out := compress_rle_loop (length input) input max_output_size [] in
  (len out, out).

(** [for (j = 0; j < count && out_idx < expected_size; j++) out[out_idx++] = val] *)
Fixpoint put_run (count : nat) (val expected : Z) (out : list Z) : list Z :=
  match count with
  | O => out
  | S count => if len out <? expected then put_run count val expected (out ++ [val]) else out
  end.

Fixpoint decompress_rle_loop (input : list Z) (expected : Z) (out : list Z) : list Z :=
  match input with
  | val :: count :: rest =>
      if len out <? expected
      then decompress_rle_loop rest expected (put_run (Z.to_nat count) val expected out)
      else out
  | _ => out
  end.

Definition decompress_rle (input : list Z) (expected_size : Z) : Z * list Z :=
  let out := decompress_rle_loop input expected_size [] in
  (len out, out).

(** ** Facts *)

Lemma run_ext_spec limit val rest :
  (run_ext limit val rest ≤ limit)%nat ∧
  take (run_ext limit val rest) rest = replicate (run_ext limit val rest) val.
Proof.
  revert rest. induction limit as [|limit IH]; intros [|b rest]; cbn; try (split; [lia|done]).
  destruct (Z.eqb_spec b val) as [->|]; [|split; [lia|done]].
  destruct (IH rest) as [? E]. cbn. rewrite E. split; [lia|done].
Qed.

Lemma take_run val rest :
  take (S (run_ext 254 val rest)) (val :: rest) = replicate (S (run_ext 254 val rest)) val.
Proof. rewrite firstn_cons, (proj2 (run_ext_spec 254 val rest)). done. Qed.

Lemma put_run_spec count val expected out :
  put_run count val expected out =
    out ++ replicate (count `min` Z.to_nat (expected - len out)) val.
Proof.
  revert out. induction count as [|count IH]; intros out; cbn [put_run].
  - by rewrite app_nil_r.
  - destruct (Z.ltb_spec (len out) expected).
    + rewrite IH, <- app_assoc, length_app. cbn [length app]. f_equal.
      replace (S count `min` Z.to_nat (expected - len out))%nat
        with (S (count `min` Z.to_nat (expected - Z.of_nat (length out + 1)))) by lia.
      done.
    + replace (Z.to_nat (expected - len out)) with 0%nat by lia.
      by rewrite Nat.min_0_r, app_nil_r.
Qed.

(** The pairs of an encoder run on an unbounded buffer. *)
Fixpoint rle_pairs (rounds : nat) (input : list Z) : list (Z * nat) :=
  match rounds, input with
  | S rounds, val :: rest =>
      let n := S (run_ext 254 val rest) in (val, n) :: rle_pairs rounds (drop n input)
  | _, _ => []
  end.

Definition pair_bytes (p : Z * nat) : list Z := [p.1; u8 (Z.of_nat p.2)].
Definition pair_run (p : Z * nat) : list Z := replicate p.2 p.1.

Lemma rle_pairs_runs rounds input :
  (length input ≤ rounds)%nat → (rle_pairs rounds input ≫= pair_run) = input.
Proof.
  revert input. induction rounds as [|rounds IH]; intros [|val rest] Hr; try done; [cbn in Hr; lia|].
  cbn [rle_pairs]. rewrite bind_cons. unfold pair_run at 1. cbn [fst snd].
  rewrite <- take_run, IH; [apply take_drop|]. rewrite length_drop. cbn [length] in *. lia.
Qed.

Lemma rle_pairs_bound rounds input : Forall (λ p, (1 ≤ p.2 ≤ 255)%nat) (rle_pairs rounds input).
Proof.
  revert input. induction rounds as [|rounds IH]; intros [|val rest]; cbn [rle_pairs]; constructor.
  - cbn [snd]. pose proof (run_ext_spec 254 val rest). lia.
  - apply IH.
Qed.

Lemma rle_pairs_count rounds input : (length (rle_pairs rounds input) ≤ length input)%nat.
Proof.
  revert input. induction rounds as [|rounds IH]; intros [|val rest]; cbn [rle_pairs length];
    try lia.
  etrans; [apply le_n_S, IH|]. rewrite length_drop. cbn [length]. lia.
Qed.

(** The encoder stores the longest prefix of the pairs that fits. *)
Lemma compress_rle_loop_spec rounds input max out :
  compress_rle_loop rounds input max out =
    out ++ (take (Z.to_nat ((max - len out) / 2)) (rle_pairs rounds input) ≫= pair_bytes).
Proof.
  revert input out. induction rounds as [|rounds IH]; intros [|val rest] out;
    cbn [compress_rle_loop rle_pairs]; try by rewrite take_nil, app_nil_r.
  destruct (Z.leb_spec (len out + 2) max).
  - rewrite IH, length_app. cbn [length].
    replace (Z.to_nat ((max - len out) / 2))
      with (S (Z.to_nat ((max - Z.of_nat (length out + 2)) / 2))).
    + rewrite firstn_cons, bind_cons. unfold pair_bytes at 2. by rewrite <- app_assoc.
    + Z.div_mod_to_equations. lia.
  - replace (Z.to_nat ((max - len out) / 2)) with 0%nat.
    + by rewrite app_nil_r.
    + Z.div_mod_to_equations. lia.
Qed.

Lemma decompress_rle_loop_spec pairs expected out :
  Forall (λ p, (1 ≤ p.2 ≤ 255)%nat) pairs → len out ≤ expected →
  decompress_rle_loop (pairs ≫= pair_bytes) expected out =
    take (Z.to_nat expected) (out ++ (pairs ≫= pair_run)).
Proof.
  intros Hp. revert out. induction Hp as [|[val n] pairs Hn Hp IH]; intros out Hlen.
  - cbn. rewrite app_nil_r, take_ge; [done|lia].
  - rewrite !bind_cons. cbn [pair_bytes fst snd app decompress_rle_loop].
    cbn [snd] in Hn. rewrite uwrap_id by (unfold in_u; lia). rewrite Nat2Z.id.
    unfold pair_run at 1. cbn [fst snd]. destruct (Z.ltb_spec (len out) expected).
    + rewrite put_run_spec. rewrite IH.
      * rewrite <- !app_assoc. rewrite !take_app.
        destruct (Nat.min_spec n (Z.to_nat (expected - len out))) as [[Hm ->]|[Hm ->]].
        -- done.
        -- rewrite !length_replicate, !take_replicate.
           replace (Z.to_nat expected - length out - Z.to_nat (expected - len out))%nat
             with 0%nat by lia.
           replace (Z.to_nat expected - length out - n)%nat with 0%nat by lia.
           cbn [take]. rewrite !firstn_O. do 3 f_equal. lia.
      * rewrite length_app, length_replicate. lia.
    + rewrite take_app_le by lia. rewrite take_ge; [done|lia].
Qed.

Lemma pair_bytes_length (ps : list (Z * nat)) :
  length (ps ≫= pair_bytes) = (2 * length ps)%nat.
Proof. induction ps as [|p ps IH]; [done|]. rewrite bind_cons, length_app, IH. cbn. lia. Qed.

(** The stored block, and what it decodes to. *)
Lemma compress_rle_block input max :
  0 ≤ max → (compress_rle input max).2 =
    take (Z.to_nat (max / 2)) (rle_pairs (length input) input) ≫= pair_bytes.
Proof.
  intros. unfold compress_rle. cbn [snd]. rewrite compress_rle_loop_spec. cbn [app length].
  by replace (max - Z.of_nat 0) with max by lia.
Qed.

Lemma decompress_rle_block input k :
  let pairs := rle_pairs (length input) input in
  decompress_rle_loop (take k pairs ≫= pair_bytes) (len input) [] =
    take (length input) (take k pairs ≫= pair_run).
Proof.
  intros pairs. rewrite decompress_rle_loop_spec; [by rewrite Nat2Z.id|..|cbn; lia].
  apply Forall_take, rle_pairs_bound.
Qed.

Lemma rle_exact input max :
  2 * len (rle_pairs (length input) input) ≤ max →
  decompress_rle (compress_rle input max).2 (len input) = (len input, input).
Proof.
  intros Hroom. rewrite compress_rle_block by lia. unfold decompress_rle.
  rewrite decompress_rle_block, (take_ge (rle_pairs _ _)).
  - rewrite rle_pairs_runs by lia. by rewrite take_ge by lia.
  - Z.div_mod_to_equations. lia.
Qed.

(** ** Properties of the run-length codec *)

(** Whatever the room in the output buffer, the stored block fits it and
    decompresses to a prefix of the input (the encoder stops without an error
    when the buffer is full). *)
Theorem rle_decodes_prefix (input : list Z) (max : Z) :
  0 ≤ max →
  let '(size, block) := compress_rle input max in
  size = len block ∧ size ≤ max ∧
  ∃ k, (decompress_rle block (len input)).2 = take k input.
Proof.
  intros Hmax. destruct (compress_rle input max) as [size block] eqn:E.
  assert (size = len block) as -> by (unfold compress_rle in E; congruence).
  apply (f_equal snd) in E. cbn [snd] in E. rewrite compress_rle_block in E by done. subst block.
  split; [done|]. split.
  { rewrite pair_bytes_length, length_take. Z.div_mod_to_equations. lia. }
  unfold decompress_rle. cbn [snd]. rewrite decompress_rle_block.
  set (k := Z.to_nat (max / 2)). set (pairs := rle_pairs _ _).
  exists (length input `min` length (take k pairs ≫= pair_run))%nat.
  assert (Hin : input = (take k pairs ≫= pair_run) ++ (drop k pairs ≫= pair_run)).
  { rewrite <- bind_app, take_drop. symmetry. by apply rle_pairs_runs. }
  rewrite Hin at 3. rewrite <- take_take, take_app_length. done.
Qed.

Lemma rle_decodes_prefix_witness :
  let '(size, block) := compress_rle [7; 7; 7; 7; 0; 0; 9] 4 in
  size = len block ∧ size ≤ 4 ∧
  ∃ k, (decompress_rle block (len [7; 7; 7; 7; 0; 0; 9])).2 = take k [7; 7; 7; 7; 0; 0; 9].
Proof. apply (rle_decodes_prefix [7; 7; 7; 7; 0; 0; 9] 4). discriminate. Defined.

(** A buffer of twice the input size is always enough: the round trip is
    exact for every input. *)
Theorem rle_roundtrip (input : list Z) (max : Z) :
  2 * len input ≤ max →
  let '(size, block) := compress_rle input max in
  size = len block ∧ decompress_rle block (len input) = (len input, input).
Proof.
  intros Hmax. split; [done|].
  change (compress_rle_loop _ _ _ _) with (compress_rle input max).2. apply rle_exact.
  pose proof (rle_pairs_count (length input) input). lia.
Qed.

Lemma rle_roundtrip_witness :
  let '(size, block) := compress_rle [7; 7; 7; 7; 0; 0; 9] 14 in
  size = len block ∧
  decompress_rle block (len [7; 7; 7; 7; 0; 0; 9]) =
    (len [7; 7; 7; 7; 0; 0; 9], [7; 7; 7; 7; 0; 0; 9]).
Proof. apply (rle_roundtrip [7; 7; 7; 7; 0; 0; 9] 14). discriminate. Defined.
