(* ===== verification/Codec.v ===== *)
(** * Codec dispatch of the columnar storage

    Models [columnar_compress_buffer] and [columnar_decompress_buffer] of
    [src/storage/columnar.c] and the library wrappers of
    [src/storage/compression.c].  LZ4, ZSTD and PGLZ are parameters of the model
    with their documented contract ([ExternalCodec]); every codec meets the
    interface [LosslessCodec], against which the storage layer is verified. *)
From S2P Require Import Prelude Delta Gorilla Dictionary Rle.

(** ** What a codec promises to the storage layer *)

(** [accepts input max r] is the condition under which the block stored for
    [input], with returned size [r], loses nothing. *)
Class LosslessCodec (compress decompress : list Z → Z → outcome (Z * list Z))
    (accepts : list Z → Z → Z → Prop) : Prop :=
  codec_lossless input max r out :
    accepts input max r → compress input max = Ok (r, out) →
    r = len out ∧ decompress out (len input) = Ok (len input, input).

Definition delta_accepts (input : list Z) (max r : Z) : Prop :=
  bytes_ok input ∧ (∃ n, length input = (8 * n)%nat) ∧ len input < 2 ^ 63 ∧ 0 ≤ r < len input.

#[export] Instance delta_codec : LosslessCodec compress_delta decompress_delta delta_accepts.
Proof. intros input max r out (Hb & [n Hl] & Hsz & Hr) Hc. by eapply delta_lossless. Qed.

Definition gorilla_accepts (input : list Z) (max r : Z) : Prop :=
  ∃ n, bytes_ok input ∧ length input = (8 * n)%nat ∧ len input < 2 ^ 63 ∧
    Forall xor_in_range (xor_deltas 0 (read_u64s n input)) ∧
    i64 (le_dec (take 8 input)) ≠ Z.of_nat n ∧ r ≠ -1.

#[export] Instance gorilla_codec :
  LosslessCodec compress_gorilla decompress_gorilla gorilla_accepts.
Proof.
  intros input max r out (n & Hb & Hl & Hsz & Hx & Hne & Hr) Hc. by eapply gorilla_lossless.
Qed.

(** The hash table either terminates within 1024 probes or never.  [after] is what
    memory holds behind the input. *)
Definition dictionary_compress (after input : list Z) (max : Z) : outcome (Z * list Z) :=
  match compress_dictionary after hash_size input max with Some o => o | None => Diverge end.

Definition dictionary_accepts (input : list Z) (max r : Z) : Prop :=
  ∃ strs, input = dict_strings strs ∧ Forall string_ok strs ∧
    (length (spec_pass strs).1 ≤ hash_size)%nat ∧ len strs < 2 ^ 31 ∧ 0 ≤ r < len input.

#[export] Instance dictionary_codec after :
  LosslessCodec (dictionary_compress after) decompress_dictionary dictionary_accepts.
Proof.
  intros input max r out (strs & -> & Hs & Hsize & Hvc & Hr) Hc. unfold dictionary_compress in Hc.
  destruct (compress_dictionary _ _ _ _) as [o|] eqn:E; [subst o|done].
  destruct (dictionary_lossless after strs max r out) as (? & _ & ?); done.
Qed.

Definition rle_accepts (input : list Z) (max r : Z) : Prop :=
  2 * len (rle_pairs (length input) input) ≤ max.

#[export] Instance rle_codec :
  LosslessCodec (λ i m, Ok (compress_rle i m)) (λ i n, Ok (decompress_rle i n)) rle_accepts.
Proof.
  intros input max r out Hroom Hc.
  assert (Hrle : compress_rle input max = (r, out)) by congruence.
  pose proof (rle_exact input max Hroom) as H. rewrite Hrle in H. cbn [snd] in H.
  unfold compress_rle in Hrle. split; congruence.
Qed.

(** ** External libraries *)

(** A compression library: the compressed bytes, which fit into the capacity it is given, or
    a failure, and a decoder that inverts every successful compression. *)
Class ExternalCodec := {
  ec_compress : list Z → Z → option (list Z);
  ec_decompress : list Z → Z → option (list Z);
  ec_capacity input max out : ec_compress input max = Some out → len out ≤ max;
  ec_inverse input max out :
    ec_compress input max = Some out → ec_decompress out (len input) = Some input }.

(** A library whose sizes are of type [int]: it sees the first [n] bytes, and a negative size
    is a failure. *)
Definition int_compress (lib : ExternalCodec) (n : Z) (input : list Z) (max : Z) : option (list Z) :=
  if n <? 0 then None else ec_compress (take (Z.to_nat n) input) max.
Definition int_decompress (lib : ExternalCodec) (n : Z) (input : list Z) (expected : Z) : option (list Z) :=
  if n <? 0 then None else ec_decompress (take (Z.to_nat n) input) expected.

Lemma int_compress_whole lib input max :
  len input < 2 ^ 31 → int_compress lib (i32 (len input)) input max = ec_compress input max.
Proof.
  intros Hl. unfold int_compress. rewrite swrap_id by (unfold in_i; lia).
  by rewrite (proj2 (Z.ltb_ge _ _)), Nat2Z.id, firstn_all by lia.
Qed.

Lemma int_decompress_whole lib input expected :
  len input < 2 ^ 31 → int_decompress lib (i32 (len input)) input expected = ec_decompress input expected.
Proof.
  intros Hl. unfold int_decompress. rewrite swrap_id by (unfold in_i; lia).
  by rewrite (proj2 (Z.ltb_ge _ _)), Nat2Z.id, firstn_all by lia.
Qed.

(** ** The wrappers of compression.c *)

Section wrappers.
Context (lib : ExternalCodec) (have : bool).

Definition compress_lz4 (input : list Z) (max : Z) : outcome (Z * list Z) :=
  if have then
    match int_compress lib (i32 (len input)) input (i32 max) with
    | Some out => if len out <=? 0 then Err "LZ4 compression failed" else Ok (len out, out)
    | None => Err "LZ4 compression failed"
    end
  else Err "LZ4 support not compiled in".

Definition decompress_lz4 (input : list Z) (expected_size : Z) : outcome (Z * list Z) :=
  if have then
    match int_decompress lib (i32 (len input)) input (i32 expected_size) with
    | Some out => Ok (len out, out)
    | None => Err "LZ4 decompression failed"
    end
  else Err "LZ4 support not compiled in".

(** The sizes of ZSTD are of type [size_t]. *)
Definition compress_zstd (input : list Z) (max : Z) : outcome (Z * list Z) :=
  if have then
    match ec_compress input (u64 max) with
    | Some out => Ok (len out, out)
    | None => Err "ZSTD compression failed"
    end
  else Err "ZSTD support not compiled in".

Definition decompress_zstd (input : list Z) (expected_size : Z) : outcome (Z * list Z) :=
  if have then
    match ec_decompress input (u64 expected_size) with
    | Some out => Ok (len out, out)
    | None => Err "ZSTD decompression failed"
    end
  else Err "ZSTD support not compiled in".

(** [compress_pglz] copies the input when PGLZ gives up.  PGLZ is not told the size of the
    output: what it returns as a success is no longer than the input. *)
Definition compress_pglz (input : list Z) (max : Z) : outcome (Z * list Z) :=
  let n := i32 (len input) in
  match int_compress lib n input n with
  | Some out => if max <? len out then Undef else Ok (len out, out)
  | None => copy_raw input max
  end.

Definition decompress_pglz (input : list Z) (expected_size : Z) : outcome (Z * list Z) :=
  match int_decompress lib (i32 (len input)) input (i32 expected_size) with
  | Some out => Ok (len out, out)
  | None => Err "PGLZ decompression failed"
  end.

(** The sizes must fit into their types, and PGLZ must not give up. *)
Definition lz4_accepts (input : list Z) (max r : Z) : Prop := len input < 2 ^ 31.
Definition zstd_accepts (input : list Z) (max r : Z) : Prop := len input < 2 ^ 63.
Definition pglz_accepts (input : list Z) (max r : Z) : Prop :=
  len input < 2 ^ 31 ∧ is_Some (ec_compress input (len input)).

#[export] Instance lz4_codec : LosslessCodec compress_lz4 decompress_lz4 lz4_accepts.
Proof.
  intros input max r out Hl. unfold lz4_accepts in Hl. unfold compress_lz4, decompress_lz4. destruct have; [|done].
  rewrite int_compress_whole by done. destruct (ec_compress input (i32 max)) as [o|] eqn:E; [|done].
  destruct (_ <=? 0); [done|]. intros [= <- <-]. pose proof (ec_capacity _ _ _ E) as Hc.
  pose proof (swrap_range 32 max ltac:(lia)) as Hr. unfold in_i in Hr.
  rewrite int_decompress_whole by lia. rewrite swrap_id by (unfold in_i; lia).
  by rewrite (ec_inverse _ _ _ E).
Qed.

#[export] Instance zstd_codec : LosslessCodec compress_zstd decompress_zstd zstd_accepts.
Proof.
  intros input max r out Hl. unfold zstd_accepts in Hl. unfold compress_zstd, decompress_zstd. destruct have; [|done].
  destruct (ec_compress input (u64 max)) as [o|] eqn:E; [|done]. intros [= <- <-].
  rewrite uwrap_id by (unfold in_u; lia). by rewrite (ec_inverse _ _ _ E).
Qed.

#[export] Instance pglz_codec : LosslessCodec compress_pglz decompress_pglz pglz_accepts.
Proof.
  intros input max r out [Hl [o Ho]]. unfold compress_pglz, decompress_pglz.
  rewrite int_compress_whole, swrap_id, Ho by (done || unfold in_i; lia).
  destruct (max <? len o); [done|]. intros [= <- <-]. pose proof (ec_capacity _ _ _ Ho).
  rewrite int_decompress_whole by lia. by rewrite (ec_inverse _ _ _ Ho).
Qed.
End wrappers.

(** ** Dispatch *)

Inductive OrochiCompressionType : Set :=
| OROCHI_COMPRESS_NONE | OROCHI_COMPRESS_LZ4 | OROCHI_COMPRESS_ZSTD | OROCHI_COMPRESS_PGLZ
| OROCHI_COMPRESS_DELTA | OROCHI_COMPRESS_GORILLA | OROCHI_COMPRESS_DICTIONARY
| OROCHI_COMPRESS_RLE.

#[export] Instance compression_type_eq_dec : EqDecision OrochiCompressionType.
Proof. solve_decision. Defined.

(** The build: which libraries are compiled in, and what they are. *)
Record Build := {
  have_lz4 : bool; have_zstd : bool;
  lz4 : ExternalCodec; zstd : Z → ExternalCodec; pglz : ExternalCodec;
  zstd_any_level (l1 l2 : Z) : @ec_decompress (zstd l1) = @ec_decompress (zstd l2) }.

Section dispatch.
Context (B : Build).

Definition columnar_compress_buffer (after input : list Z) (max_output_size : Z)
    (type : OrochiCompressionType) (level : Z) : outcome (Z * list Z) :=
  match type with
  | OROCHI_COMPRESS_NONE =>
      if max_output_size <? len input
      then Err "Output buffer too small for uncompressed data"
      else Ok (len input, input)
  | OROCHI_COMPRESS_LZ4 => compress_lz4 (lz4 B) (have_lz4 B) input max_output_size
  | OROCHI_COMPRESS_ZSTD => compress_zstd (zstd B level) (have_zstd B) input max_output_size
  | OROCHI_COMPRESS_PGLZ => compress_pglz (pglz B) input max_output_size
  | OROCHI_COMPRESS_DELTA => compress_delta input max_output_size
  | OROCHI_COMPRESS_GORILLA => compress_gorilla input max_output_size
  | OROCHI_COMPRESS_DICTIONARY => dictionary_compress after input max_output_size
  | OROCHI_COMPRESS_RLE => Ok (compress_rle input max_output_size)
  end.

(** A size mismatch is only a WARNING, so it does not show in the result. *)
Definition columnar_decompress_buffer (input : list Z) (expected_size : Z)
    (type : OrochiCompressionType) : outcome (Z * list Z) :=
  match type with
  | OROCHI_COMPRESS_NONE =>
      if len input <=? expected_size then Ok (len input, input) else Undef
  | OROCHI_COMPRESS_LZ4 => decompress_lz4 (lz4 B) (have_lz4 B) input expected_size
  | OROCHI_COMPRESS_ZSTD => decompress_zstd (zstd B 0) (have_zstd B) input expected_size
  | OROCHI_COMPRESS_PGLZ => decompress_pglz (pglz B) input expected_size
  | OROCHI_COMPRESS_DELTA => decompress_delta input expected_size
  | OROCHI_COMPRESS_GORILLA => decompress_gorilla input expected_size
  | OROCHI_COMPRESS_DICTIONARY => decompress_dictionary input expected_size
  | OROCHI_COMPRESS_RLE => Ok (decompress_rle input expected_size)
  end.

Definition buffer_accepts (type : OrochiCompressionType) : list Z → Z → Z → Prop :=
  match type with
  | OROCHI_COMPRESS_NONE => λ _ _ _, True
  | OROCHI_COMPRESS_LZ4 => lz4_accepts
  | OROCHI_COMPRESS_ZSTD => zstd_accepts
  | OROCHI_COMPRESS_PGLZ => pglz_accepts (pglz B)
  | OROCHI_COMPRESS_DELTA => delta_accepts
  | OROCHI_COMPRESS_GORILLA => gorilla_accepts
  | OROCHI_COMPRESS_DICTIONARY => dictionary_accepts
  | OROCHI_COMPRESS_RLE => rle_accepts
  end.

Lemma columnar_buffer_sound (type : OrochiCompressionType) (level max r : Z)
    (after input out : list Z) :
  buffer_accepts type input max r →
  columnar_compress_buffer after input max type level = Ok (r, out) →
  r = len out ∧ columnar_decompress_buffer out (len input) type = Ok (len input, input).
Proof.
  destruct type; cbn [buffer_accepts columnar_compress_buffer columnar_decompress_buffer].
  - intros _. destruct (max <? len input); [done|]. intros [= <- <-].
    by rewrite Z.leb_refl.
  - by apply lz4_codec.
  - intros Ha Hc. unfold decompress_zstd. rewrite (zstd_any_level B 0 level).
    by eapply (zstd_codec (zstd B level) (have_zstd B)).
  - by apply pglz_codec.
  - by apply codec_lossless.
  - by apply codec_lossless.
  - by apply codec_lossless.
  - by apply rle_codec.
Qed.

(** C9: for every codec, a chunk that [columnar_compress_buffer] stores and
    that meets the codec's acceptance condition is read back exactly by
    [columnar_decompress_buffer] with the same codec, for any ZSTD level.  The conditions say
    what each codec can restore: sizes that fit the [int] of LZ4 and PGLZ, blocks that PGLZ and
    delta encoding made shorter, Gorilla blocks without a window that is clamped, dictionaries
    that fit their table, and room for all runs. *)
Theorem columnar_buffer_lossless (type : OrochiCompressionType) (level max r : Z)
    (after input out : list Z) :
  buffer_accepts type input max r →
  columnar_compress_buffer after input max type level = Ok (r, out) →
  r = len out ∧ columnar_decompress_buffer out (len input) type = Ok (len input, input).
Proof. apply columnar_buffer_sound. Qed.
End dispatch.

(** A library that stores its input as it is. *)
Definition identity_compress (input : list Z) (max : Z) : option (list Z) :=
  if len input <=? max then Some input else None.

Lemma identity_capacity input max out : identity_compress input max = Some out → len out ≤ max.
Proof. unfold identity_compress. destruct (Z.leb_spec (len input) max); congruence. Qed.
Lemma identity_inverse input max out :
  identity_compress input max = Some out → Some out = Some input.
Proof. unfold identity_compress. destruct (len input <=? max); congruence. Qed.

Definition identity_codec : ExternalCodec := {|
  ec_compress := identity_compress; ec_decompress out _ := Some out;
  ec_capacity := identity_capacity; ec_inverse := identity_inverse |}.

(** A library that compresses: run lengths. *)
Definition runs_compress (input : list Z) (max : Z) : option (list Z) :=
  if 2 * len (rle_pairs (length input) input) <=? max then Some (compress_rle input max).2 else None.

Lemma runs_capacity input max out : runs_compress input max = Some out → len out ≤ max.
Proof.
  unfold runs_compress. destruct (Z.leb_spec (2 * len (rle_pairs (length input) input)) max) as [Hm|]; [|done].
  intros E. apply (inj Some) in E as <-. rewrite compress_rle_block by lia.
  rewrite pair_bytes_length, length_take. Z.div_mod_to_equations. lia.
Qed.
Lemma runs_inverse input max out :
  runs_compress input max = Some out → Some (decompress_rle out (len input)).2 = Some input.
Proof.
  unfold runs_compress. destruct (Z.leb_spec (2 * len (rle_pairs (length input) input)) max) as [Hm|]; [|done].
  intros E. apply (inj Some) in E as <-. by rewrite (rle_exact input max Hm).
Qed.

Definition runs_codec : ExternalCodec := {|
  ec_compress := runs_compress; ec_decompress out n := Some (decompress_rle out n).2;
  ec_capacity := runs_capacity; ec_inverse := runs_inverse |}.

Definition identity_build : Build := {|
  have_lz4 := true; have_zstd := true; lz4 := identity_codec; zstd _ := identity_codec;
  pglz := identity_codec; zstd_any_level _ _ := eq_refl |}.
Definition runs_build : Build := {|
  have_lz4 := true; have_zstd := true; lz4 := runs_codec; zstd _ := identity_codec;
  pglz := runs_codec; zstd_any_level _ _ := eq_refl |}.

(** The block that is stored for a buffer. *)
Definition get_block (type : OrochiCompressionType) (input : list Z) : list Z :=
  match columnar_compress_buffer runs_build [] input (len input) type 3 with Ok (_, out) => out | _ => [] end.

Lemma columnar_buffer_lossless_witness :
  let delta := concat (map (le_enc 8) [1000; 1010; 1020; 1030]) in
  let runs := replicate 40 7 in
  columnar_decompress_buffer runs_build (get_block OROCHI_COMPRESS_DELTA delta) (len delta) OROCHI_COMPRESS_DELTA =
    Ok (len delta, delta) ∧
  columnar_decompress_buffer runs_build (get_block OROCHI_COMPRESS_LZ4 runs) (len runs) OROCHI_COMPRESS_LZ4 =
    Ok (len runs, runs) ∧
  columnar_decompress_buffer runs_build (get_block OROCHI_COMPRESS_PGLZ runs) (len runs) OROCHI_COMPRESS_PGLZ =
    Ok (len runs, runs).
Proof.
  split; [|split].
  - apply (columnar_buffer_lossless runs_build OROCHI_COMPRESS_DELTA 3 32 13 []).
    + split; [decide_now|]. split; [by exists 4%nat|]. split; [vm_compute; split; congruence|].
      vm_compute. split; congruence.
    + vm_compute. reflexivity.
  - apply (columnar_buffer_lossless runs_build OROCHI_COMPRESS_LZ4 3 40 2 []).
    + change (len (replicate 40 7) < 2 ^ 31). by decide_now.
    + vm_compute. reflexivity.
  - apply (columnar_buffer_lossless runs_build OROCHI_COMPRESS_PGLZ 3 40 2 []).
    + change (pglz_accepts runs_codec (replicate 40 7) 40 2). split; [by decide_now|].
      exists [7; 40]. vm_compute. reflexivity.
    + vm_compute. reflexivity.
Defined.

(** ** Names of the codecs *)

Definition columnar_compression_name (type : OrochiCompressionType) : string :=
  match type with
  | OROCHI_COMPRESS_NONE => "none"
  | OROCHI_COMPRESS_LZ4 => "lz4"
  | OROCHI_COMPRESS_ZSTD => "zstd"
  | OROCHI_COMPRESS_PGLZ => "pglz"
  | OROCHI_COMPRESS_DELTA => "delta"
  | OROCHI_COMPRESS_GORILLA => "gorilla"
  | OROCHI_COMPRESS_DICTIONARY => "dictionary"
  | OROCHI_COMPRESS_RLE => "rle"
  end.
