(* ===== verification/Columnar.v ===== *)
(** * Columnar storage: write path, read path and chunk skipping

    Models [src/storage/columnar.c] and the stripe and column chunk tables of
    [src/core/catalog.c] it writes through.  A null row of a buffer is [None].  The catalog is the two SQL tables, restricted to one
    columnar table.  The hash function of PostgreSQL, the varlena header macros
    and the comparison procedures of types are parameters.  Memory contexts and
    allocation limits of palloc are not modelled, except the request size limit
    where the reader allocates a size found in the data. *)
From stdpp Require Import gmap sorting pretty.
From S2P Require Import Prelude Postgres Delta Gorilla Dictionary Rle Codec.

Local Open Scope Z_scope.

(** The columns of [FormData_pg_attribute] that the storage layer reads, with the
    comparison procedure of the type's btree operator class. *)
Record Attr := {
  attisdropped : bool; attbyval : bool; attlen : Z; atttypid : Z;
  cmp_proc : option (Datum → Datum → Z) }.

(** The functions of PostgreSQL the storage layer calls. *)
Class Host := {
  host_varlena :: Varlena;
  hash_any : list Z → Z;
  (** the text of a value, by the output function of its type *)
  output_function : Z → Datum → outcome (list Z);
  (** whether a statement is accepted in which a text stands that has quotes or backslashes *)
  quoted_text_ok : list Z → bool }.

(** ** Choice of the codec *)

Section select.
Context `{H : Host}.

(** [hash_any] reads [VARSIZE_ANY_EXHDR] bytes from the start of the datum; the
    slot of a null row holds no datum. *)
Definition sample_hash (v : option Datum) : outcome Z :=
  match v with
  | Some (DatumRef bs) => Ok (hash_any (take (Z.to_nat (VARSIZE_ANY_EXHDR bs)) bs))
  | _ => Undef
  end.

Fixpoint count_unique (samples : list (option Datum)) (seen : gset Z) (unique_count : Z)
    : outcome Z :=
  match samples with
  | [] => Ok unique_count
  | v :: samples =>
      h ← sample_hash v;
      if decide (h ∈ seen) then count_unique samples seen unique_count
      else count_unique samples ({[h]} ∪ seen) (unique_count + 1)
  end.

(** [unique / count < 0.1] on doubles is [10 * unique < count]: both are below
    2^31, so a quotient below one tenth is below it by more than a rounding. *)
Definition columnar_select_compression (type_oid : Z) (samples : list (option Datum))
    : outcome OrochiCompressionType :=
  if decide (type_oid ∈ [INT2OID; INT4OID; INT8OID; TIMESTAMPOID; TIMESTAMPTZOID; DATEOID])
  then Ok OROCHI_COMPRESS_DELTA
  else if decide (type_oid ∈ [FLOAT4OID; FLOAT8OID]) then Ok OROCHI_COMPRESS_GORILLA
  else if decide (type_oid = BOOLOID) then Ok OROCHI_COMPRESS_RLE
  else if decide (type_oid ∈ [TEXTOID; VARCHAROID; BPCHAROID]) then
    if 0 <? len samples then
      unique_count ← count_unique samples ∅ 0;
      if (10 * unique_count <? len samples) || (unique_count <? 256)
      then Ok OROCHI_COMPRESS_DICTIONARY else Ok OROCHI_COMPRESS_ZSTD
    else Ok OROCHI_COMPRESS_ZSTD
  else Ok OROCHI_COMPRESS_ZSTD.
End select.

(** ** The catalog tables *)

Record StripeRow := {
  s_id : Z; s_first_row : Z; s_row_count : Z; s_column_count : Z; s_is_flushed : bool;
  s_data_size : Z }.

Record ChunkRow := {
  k_stripe : Z; k_group : Z; k_column : Z; k_value_count : Z; k_null_count : Z;
  k_has_nulls : bool; k_compressed_size : Z; k_decompressed_size : Z;
  k_compression : OrochiCompressionType; k_data : option (list Z) }.

(** [next_stripe] is the sequence of [stripe_id]. *)
Record Catalog := { stripes : list StripeRow; chunks : list ChunkRow; next_stripe : Z }.

Definition orochi_catalog_create_stripe (c : Catalog) (first_row row_count column_count : Z)
    : Catalog * Z :=
  ({| stripes := stripes c ++ [{| s_id := next_stripe c; s_first_row := first_row;
        s_row_count := row_count; s_column_count := column_count; s_is_flushed := false;
        s_data_size := 0 |}];
      chunks := chunks c; next_stripe := next_stripe c + 1 |}, next_stripe c).

Definition orochi_catalog_update_stripe_status (c : Catalog) (stripe_id : Z) (is_flushed : bool)
    (data_size : Z) : Catalog :=
  {| stripes := map (λ s, if s_id s =? stripe_id
        then {| s_id := s_id s; s_first_row := s_first_row s; s_row_count := s_row_count s;
                s_column_count := s_column_count s; s_is_flushed := is_flushed;
                s_data_size := data_size |} else s) (stripes c);
     chunks := chunks c; next_stripe := next_stripe c |}.

Definition chunk_key (r : ChunkRow) : Z * Z * Z := (k_stripe r, k_group r, k_column r).

Definition key_before (a b : ChunkRow) : bool :=
  (k_stripe a <? k_stripe b) ||
  (k_stripe a =? k_stripe b) &&
    ((k_group a <? k_group b) || (k_group a =? k_group b) && (k_column a <? k_column b)).

(** [INSERT ... ON CONFLICT (stripe_id, chunk_group_index, column_index) DO UPDATE],
    on the rows kept in the order the queries ask for. *)
Fixpoint chunk_upsert (r : ChunkRow) (l : list ChunkRow) : list ChunkRow :=
  match l with
  | [] => [r]
  | x :: l' =>
      if decide (chunk_key r = chunk_key x) then r :: l'
      else if key_before r x then r :: l else x :: chunk_upsert r l'
  end.

Definition orochi_catalog_create_column_chunk_with_data (c : Catalog) (r : ChunkRow) : Catalog :=
  {| stripes := stripes c; chunks := chunk_upsert r (chunks c); next_stripe := next_stripe c |}.

Definition orochi_catalog_get_stripe_columns (c : Catalog) (stripe_id : Z) : list ChunkRow :=
  filter (λ r, k_stripe r = stripe_id) (chunks c).

Definition orochi_catalog_read_chunk_data (c : Catalog) (stripe_id group column : Z)
    : option (list Z) :=
  r ← head (filter (λ r, chunk_key r = (stripe_id, group, column)) (chunks c)); k_data r.

Record ColumnarStripe := {
  stripe_id : Z; first_row_number : Z; row_count : Z; chunk_group_count : Z; column_count : Z }.

Definition stripe_before (a b : StripeRow) : Prop := s_first_row a ≤ s_first_row b.
#[export] Instance stripe_before_dec : RelDecision stripe_before.
Proof. intros a b. unfold stripe_before. apply _. Defined.

(** Rows with the same [first_row] come in the order of insertion. *)
Definition orochi_catalog_get_table_stripes (c : Catalog) : list ColumnarStripe :=
  map (λ s, {| stripe_id := s_id s; first_row_number := s_first_row s;
               row_count := s_row_count s; column_count := s_column_count s;
               chunk_group_count := Z.max 1 (i32 (Z.quot (s_row_count s + 9999) 10000)) |})
    (merge_sort stripe_before (stripes c)).

(** ** Write path *)

Record ColumnarOptions := {
  stripe_row_limit : Z; chunk_group_row_limit : Z; compression_level : Z }.

(** [rows] is the live part of [values] and [nulls]; [count] is its length.  The
    last group is what the fields from [attr_type] on describe. *)
Record ColumnWriteBuffer := {
  rows : list (option Datum); capacity : Z; min_value : Datum; max_value : Datum;
  has_nulls : bool; attr_type : Z; w_row_count : Z; null_count : Z;
  compressed_data : option (list Z); compressed_size : Z; uncompressed_size : Z;
  compression_type : OrochiCompressionType }.

Record ColumnarWriteState := {
  options : ColumnarOptions; w_first_row : Z; w_chunk_group_count : Z;
  stripe_row_count : Z; chunk_group_row_count : Z; column_buffers : list ColumnWriteBuffer;
  total_rows_written : Z; stripes_created : Z }.

(** A buffer as [palloc0] leaves it; dropped columns keep it. *)
Definition zero_buffer : ColumnWriteBuffer :=
  {| rows := []; capacity := 0; min_value := DatumVal 0; max_value := DatumVal 0;
     has_nulls := false; attr_type := 0; w_row_count := 0; null_count := 0;
     compressed_data := None; compressed_size := 0; uncompressed_size := 0;
     compression_type := OROCHI_COMPRESS_NONE |}.

Definition begin_buffer (opts : ColumnarOptions) (attr : Attr) : ColumnWriteBuffer :=
  if attisdropped attr then zero_buffer else
  {| rows := []; capacity := chunk_group_row_limit opts; min_value := DatumVal 0;
     max_value := DatumVal 0; has_nulls := false; attr_type := 0; w_row_count := 0;
     null_count := 0; compressed_data := None; compressed_size := 0; uncompressed_size := 0;
     compression_type := OROCHI_COMPRESS_NONE |}.

Definition columnar_begin_write (attrs : list Attr) (opts : ColumnarOptions)
    : ColumnarWriteState :=
  {| options := opts; w_first_row := 0; w_chunk_group_count := 0; stripe_row_count := 0;
     chunk_group_row_count := 0; column_buffers := map (begin_buffer opts) attrs;
     total_rows_written := 0; stripes_created := 0 |}.

(** A comparison procedure dereferences pass-by-reference arguments. *)
Definition call_cmp (attr : Attr) (cmp : Datum → Datum → Z) (a b : Datum) : outcome Z :=
  if attbyval attr then Ok (cmp a b)
  else match a, b with DatumRef _, DatumRef _ => Ok (cmp a b) | _, _ => Undef end.

Definition update_min_max (attr : Attr) (count : Z) (lo hi v : Datum) : outcome (Datum * Datum) :=
  if count =? 0 then Ok (v, v)
  else match cmp_proc attr with
       | None => Ok (lo, hi)
       | Some cmp =>
           c1 ← call_cmp attr cmp v lo;
           let lo := if c1 <? 0 then v else lo in
           c2 ← call_cmp attr cmp v hi;
           Ok (lo, if 0 <? c2 then v else hi)
       end.

Definition with_rows (buf : ColumnWriteBuffer) rows' cap lo hi nulls : ColumnWriteBuffer :=
  {| rows := rows'; capacity := cap; min_value := lo; max_value := hi; has_nulls := nulls;
     attr_type := attr_type buf; w_row_count := w_row_count buf; null_count := null_count buf;
     compressed_data := compressed_data buf; compressed_size := compressed_size buf;
     uncompressed_size := uncompressed_size buf; compression_type := compression_type buf |}.

(** The body of the column loop of [columnar_write_row]. *)
Definition write_column (attr : Attr) (buf : ColumnWriteBuffer) (v : option Datum)
    : outcome ColumnWriteBuffer :=
  if attisdropped attr then Ok buf else
  let count := len (rows buf) in
  let cap := if capacity buf <=? count then capacity buf * 2 else capacity buf in
  if cap <=? count then Undef else
  match v with
  | None => Ok (with_rows buf (rows buf ++ [None]) cap (min_value buf) (max_value buf) true)
  | Some d =>
      '(lo, hi) ← update_min_max attr count (min_value buf) (max_value buf) d;
      Ok (with_rows buf (rows buf ++ [Some d]) cap lo hi (has_nulls buf))
  end.

(** [memcpy(raw, &value, attlen)] of a datum word. *)
Definition datum_word (d : Datum) : Z := match d with DatumVal z => z | DatumRef _ => 0 end.
Definition datum_bytes (d : Datum) : list Z := match d with DatumRef bs => bs | DatumVal _ => [] end.

Definition fixed_field (attr : Attr) (v : option Datum) : list Z :=
  match v with
  | Some d => take (Z.to_nat (attlen attr)) (le_enc 8 (datum_word d))
  | None => replicate (Z.to_nat (attlen attr)) 0
  end.

Definition var_field (v : option Datum) : list Z :=
  match v with
  | Some d => le_enc 8 (len (datum_bytes d)) ++ datum_bytes d
  | None => le_enc 8 0
  end.

Definition fixed_width (attr : Attr) : bool := attbyval attr && (0 <? attlen attr).

Definition raw_buffer (attr : Attr) (vs : list (option Datum)) : list Z :=
  if fixed_width attr then concat (map (fixed_field attr) vs) else concat (map var_field vs).

(** The byte behind the raw buffer: a [StringInfo] keeps its data terminated. *)
Definition behind_raw (attr : Attr) : list Z := if fixed_width attr then [] else [0].

Definition is_null (v : option Datum) : bool := match v with None => true | Some _ => false end.
Definition count_nulls (vs : list (option Datum)) : Z := len (filter is_null vs).

Fixpoint map2M {A B C} (f : A → B → outcome C) (l : list A) (k : list B) : outcome (list C) :=
  match l, k with
  | a :: l, b :: k => c ← f a b; cs ← map2M f l k; Ok (c :: cs)
  | _, _ => Ok []
  end.

Fixpoint map3M {A B C D} (f : A → B → C → outcome D) (l : list A) (k : list B) (m : list C)
    : outcome (list D) :=
  match l, k, m with
  | a :: l, b :: k, c :: m => d ← f a b c; ds ← map3M f l k m; Ok (d :: ds)
  | _, _, _ => Ok []
  end.

Section storage.
Context (B : Build) `{Host} (attrs : list Attr).

(** The body of the column loop of [serialize_chunk_group].  The null bitmap it
    builds goes into the chunk structure only, which nothing reads. *)
Definition serialize_column (level : Z) (attr : Attr) (buf : ColumnWriteBuffer)
    : outcome ColumnWriteBuffer :=
  if attisdropped attr || (len (rows buf) =? 0) then Ok buf else
  compression ← columnar_select_compression (atttypid attr) (rows buf);
  let raw := raw_buffer attr (rows buf) in
  '(size, out) ← columnar_compress_buffer B (behind_raw attr) raw (len raw) compression level;
  let '(size, out, compression) :=
    if size <? len raw then (size, out, compression) else (len raw, raw, OROCHI_COMPRESS_NONE) in
  Ok {| rows := []; capacity := capacity buf; min_value := min_value buf;
        max_value := max_value buf; has_nulls := false; attr_type := atttypid attr;
        w_row_count := len (rows buf); null_count := count_nulls (rows buf);
        compressed_data := Some out; compressed_size := size; uncompressed_size := len raw;
        compression_type := compression |}.

Definition serialize_chunk_group (st : ColumnarWriteState) : outcome ColumnarWriteState :=
  bufs ← map2M (serialize_column (compression_level (options st))) attrs (column_buffers st);
  Ok {| options := options st; w_first_row := w_first_row st;
        w_chunk_group_count := w_chunk_group_count st + 1;
        stripe_row_count := stripe_row_count st; chunk_group_row_count := 0;
        column_buffers := bufs; total_rows_written := total_rows_written st;
        stripes_created := stripes_created st |}.

Definition chunk_row (stripe_id cg col : Z) (buf : ColumnWriteBuffer) : ChunkRow :=
  {| k_stripe := stripe_id; k_group := cg; k_column := col; k_value_count := w_row_count buf;
     k_null_count := null_count buf; k_has_nulls := 0 <? null_count buf;
     k_compressed_size := compressed_size buf; k_decompressed_size := uncompressed_size buf;
     k_compression := compression_type buf;
     k_data := if 0 <? compressed_size buf then compressed_data buf else None |}.

(** The UPDATE of the statistics writes the text of a value behind [E'\\x] into a column of
    type [bytea], whose input function takes pairs of hexadecimal digits with blanks between
    them and refuses everything else. *)
Definition is_hex (c : Z) : bool :=
  ((48 <=? c) && (c <=? 57)) || ((65 <=? c) && (c <=? 70)) || ((97 <=? c) && (c <=? 102)).
Definition hex_blank (c : Z) : bool := (c =? 32) || (c =? 10) || (c =? 9) || (c =? 13).
Fixpoint hex_pairs (t : list Z) : bool :=
  match t with
  | [] => true
  | c :: t =>
      if hex_blank c then hex_pairs t
      else match t with d :: t => is_hex c && is_hex d && hex_pairs t | [] => false end
  end.
Definition literal_ok (t : list Z) : bool :=
  if existsb (λ c, (c =? 39) || (c =? 92)) t then quoted_text_ok t else hex_pairs t.

Definition orochi_catalog_update_column_stats (type : Z) (lo hi : Datum) : outcome unit :=
  if type =? 0 then Err "cache lookup failed for type 0" else
  a ← output_function type lo;
  b ← output_function type hi;
  if literal_ok a && literal_ok b then Ok tt else Err "invalid hexadecimal data".

Fixpoint flush_columns (stripe_id cg col : Z) (bufs : list ColumnWriteBuffer) (c : Catalog)
    (size : Z) : outcome (Catalog * Z) :=
  match bufs with
  | [] => Ok (c, size)
  | buf :: bufs =>
      let c := orochi_catalog_create_column_chunk_with_data c (chunk_row stripe_id cg col buf) in
      _ ← orochi_catalog_update_column_stats (attr_type buf) (min_value buf) (max_value buf);
      flush_columns stripe_id cg (col + 1) bufs c (size + compressed_size buf)
  end.

Fixpoint flush_groups (n : nat) (stripe_id cg : Z) (bufs : list ColumnWriteBuffer) (c : Catalog)
    (size : Z) : outcome (Catalog * Z) :=
  match n with
  | O => Ok (c, size)
  | S n => '(c, size) ← flush_columns stripe_id cg 0 bufs c size;
           flush_groups n stripe_id (cg + 1) bufs c size
  end.

Definition flush_stripe (st : ColumnarWriteState) (c : Catalog)
    : outcome (ColumnarWriteState * Catalog) :=
  st ← if 0 <? chunk_group_row_count st then serialize_chunk_group st else Ok st;
  let '(c, id) := orochi_catalog_create_stripe c (w_first_row st) (stripe_row_count st)
                    (len attrs) in
  '(c, size) ← flush_groups (Z.to_nat (w_chunk_group_count st)) id 0 (column_buffers st) c 0;
  let c := orochi_catalog_update_stripe_status c id true size in
  Ok ({| options := options st; w_first_row := total_rows_written st; w_chunk_group_count := 0;
         stripe_row_count := 0; chunk_group_row_count := chunk_group_row_count st;
         column_buffers := column_buffers st; total_rows_written := total_rows_written st;
         stripes_created := stripes_created st + 1 |}, c).

Definition columnar_write_row (st : ColumnarWriteState) (c : Catalog) (row : list (option Datum))
    : outcome (ColumnarWriteState * Catalog) :=
  bufs ← map3M write_column attrs (column_buffers st) row;
  let st := {| options := options st; w_first_row := w_first_row st;
               w_chunk_group_count := w_chunk_group_count st;
               stripe_row_count := stripe_row_count st + 1;
               chunk_group_row_count := chunk_group_row_count st + 1; column_buffers := bufs;
               total_rows_written := total_rows_written st + 1;
               stripes_created := stripes_created st |} in
  st ← if chunk_group_row_limit (options st) <=? chunk_group_row_count st
       then serialize_chunk_group st else Ok st;
  if stripe_row_limit (options st) <=? stripe_row_count st
  then flush_stripe st c else Ok (st, c).

Fixpoint columnar_write_rows (st : ColumnarWriteState) (c : Catalog)
    (slots : list (list (option Datum))) : outcome (ColumnarWriteState * Catalog) :=
  match slots with
  | [] => Ok (st, c)
  | row :: slots => '(st, c) ← columnar_write_row st c row; columnar_write_rows st c slots
  end.

Definition columnar_flush_writes (st : ColumnarWriteState) (c : Catalog)
    : outcome (ColumnarWriteState * Catalog) :=
  if 0 <? stripe_row_count st then flush_stripe st c else Ok (st, c).

Definition columnar_end_write (st : ColumnarWriteState) (c : Catalog) : outcome Catalog :=
  '(_, c) ← columnar_flush_writes st c; Ok c.
End storage.

(** ** Read path *)

Record ColumnReadBuffer := { r_rows : list (option Datum); is_loaded : bool }.

Record ColumnarReadState := {
  stripe_list : list ColumnarStripe; current_stripe_index : Z;
  current_stripe : option ColumnarStripe; current_chunk_group_index : Z;
  (** the row count of [current_chunk_group], when there is one *)
  current_chunk_group : option Z;
  current_row_in_chunk : Z; read_buffers : list ColumnReadBuffer; total_rows_read : Z;
  stripes_scanned : Z }.

(** [count] rows decoded from fixed-width fields: row [j] is null from the first
    [j] with [j * attlen >= size] on. *)
Fixpoint decode_fixed (count : nat) (attlen offset size : Z) (data : list Z)
    : outcome (list (option Datum)) :=
  match count with
  | O => Ok []
  | S count =>
      if offset <? size then
        bs ← deref (mem_get offset attlen data);
        vs ← decode_fixed count attlen (offset + attlen) size data;
        Ok (Some (DatumVal (le_dec bs)) :: vs)
      else Ok (replicate (S count) None)
  end.

Definition MaxAllocSize : Z := 0x3fffffff.

Fixpoint decode_var (count : nat) (offset size : Z) (data : list Z)
    : outcome (list (option Datum)) :=
  match count with
  | O => Ok []
  | S count =>
      if offset <? size then
        if size <? offset + 8 then Ok (replicate (S count) None) else
        bs ← deref (mem_get offset 8 data);
        let value_size := le_dec bs in
        if value_size =? 0 then
          vs ← decode_var count (offset + 8) size data; Ok (None :: vs)
        else if size <? offset + 8 + i64 value_size then Ok (replicate (S count) None)
        else if MaxAllocSize <? value_size then Err "invalid memory alloc request size"
        else
          v ← deref (mem_get (offset + 8) value_size data);
          vs ← decode_var count (offset + 8 + value_size) size data;
          Ok (Some (DatumRef v) :: vs)
      else Ok (replicate (S count) None)
  end.

Section reader.
Context (B : Build) (attrs : list Attr) (columns_needed : Z → bool) (c : Catalog).

(** The stored bytes of one column chunk turned into rows. *)
Definition decode_chunk (attr : Attr) (meta : ChunkRow) (stored : list Z)
    : outcome (list (option Datum)) :=
  let decompressed_size :=
    if k_decompressed_size meta <=? 0 then len stored else k_decompressed_size meta in
  '(data, size) ←
    (if decide (k_compression meta = OROCHI_COMPRESS_NONE) then
       if len stored <=? decompressed_size then Ok (stored, len stored) else Undef
     else
       '(actual, data) ← columnar_decompress_buffer B stored decompressed_size (k_compression meta);
       Ok (data, if 0 <? actual then actual else decompressed_size));
  if fixed_width attr
  then decode_fixed (Z.to_nat (k_value_count meta)) (attlen attr) 0 size data
  else decode_var (Z.to_nat (k_value_count meta)) 0 size data.

(** The body of the column loop of [load_chunk_group]. *)
Definition load_column (stripe : ColumnarStripe) (group col : Z) (attr : Attr)
    (old : ColumnReadBuffer) : outcome ColumnReadBuffer :=
  if negb (columns_needed col) then Ok {| r_rows := r_rows old; is_loaded := false |} else
  match head (filter (λ r, k_column r = col)
                (orochi_catalog_get_stripe_columns c (stripe_id stripe))) with
  | None => Ok {| r_rows := replicate (Z.to_nat (row_count stripe)) None; is_loaded := true |}
  | Some meta =>
      match orochi_catalog_read_chunk_data c (stripe_id stripe) group col with
      | Some (b :: bs) =>
          vs ← decode_chunk attr meta (b :: bs); Ok {| r_rows := vs; is_loaded := true |}
      | _ =>
          Ok {| r_rows := replicate (Z.to_nat (k_value_count meta))
                  (if k_has_nulls meta then None else Some (DatumVal 0)); is_loaded := true |}
      end
  end.

Fixpoint load_columns (stripe : ColumnarStripe) (group col : Z) (l : list Attr)
    (old : list ColumnReadBuffer) : outcome (list ColumnReadBuffer) :=
  match l, old with
  | attr :: l, o :: old =>
      b ← load_column stripe group col attr o;
      bs ← load_columns stripe group (col + 1) l old;
      Ok (b :: bs)
  | _, _ => Ok []
  end.

Definition load_chunk_group (st : ColumnarReadState) (group : Z) : outcome ColumnarReadState :=
  match current_stripe st with
  | None => Ok st
  | Some stripe =>
      bufs ← load_columns stripe group 0 attrs (read_buffers st);
      Ok {| stripe_list := stripe_list st; current_stripe_index := current_stripe_index st;
            current_stripe := Some stripe;
            current_chunk_group_index := current_chunk_group_index st;
            current_chunk_group := Some (row_count stripe); current_row_in_chunk := 0;
            read_buffers := bufs; total_rows_read := total_rows_read st;
            stripes_scanned := stripes_scanned st |}
  end.

Definition columnar_begin_read : ColumnarReadState :=
  {| stripe_list := orochi_catalog_get_table_stripes c; current_stripe_index := -1;
     current_stripe := None; current_chunk_group_index := 0; current_chunk_group := None;
     current_row_in_chunk := 0;
     read_buffers := map (λ _, {| r_rows := []; is_loaded := false |}) attrs;
     total_rows_read := 0; stripes_scanned := 0 |}.

Definition move_to (st : ColumnarReadState) (index : Z) (stripe : option ColumnarStripe)
    (group scanned : Z) : ColumnarReadState :=
  {| stripe_list := stripe_list st; current_stripe_index := index; current_stripe := stripe;
     current_chunk_group_index := group; current_chunk_group := current_chunk_group st;
     current_row_in_chunk := current_row_in_chunk st; read_buffers := read_buffers st;
     total_rows_read := total_rows_read st; stripes_scanned := scanned |}.

(** The first half of [columnar_read_next_row]: the state whose buffers hold the
    next row, or [false] when there is none. *)
Definition advance (st : ColumnarReadState) : outcome (ColumnarReadState * bool) :=
  let exhausted := match current_chunk_group st with
                   | None => true
                   | Some n => n <=? current_row_in_chunk st
                   end in
  if negb exhausted then Ok (st, true) else
  let group := current_chunk_group_index st + 1 in
  let next_stripe := match current_stripe st with
                     | None => true
                     | Some s => chunk_group_count s <=? group
                     end in
  if next_stripe then
    let index := current_stripe_index st + 1 in
    if len (stripe_list st) <=? index
    then Ok (move_to st index (current_stripe st) group (stripes_scanned st), false)
    else
      stripe ← deref (stripe_list st !! Z.to_nat index);
      st ← load_chunk_group (move_to st index (Some stripe) 0 (stripes_scanned st + 1)) 0;
      Ok (st, true)
  else
    st ← load_chunk_group
           (move_to st (current_stripe_index st) (current_stripe st) group (stripes_scanned st)) group;
    Ok (st, true).

Fixpoint read_columns (row col : Z) (bufs : list ColumnReadBuffer)
    : outcome (list (option Datum)) :=
  match bufs with
  | [] => Ok []
  | buf :: bufs =>
      v ← if columns_needed col && is_loaded buf
          then deref (r_rows buf !! Z.to_nat row) else Ok None;
      vs ← read_columns row (col + 1) bufs;
      Ok (v :: vs)
  end.

Definition columnar_read_next_row (st : ColumnarReadState)
    : outcome (ColumnarReadState * option (list (option Datum))) :=
  '(st, found) ← advance st;
  if found : bool then
    vs ← read_columns (current_row_in_chunk st) 0 (read_buffers st);
    Ok ({| stripe_list := stripe_list st; current_stripe_index := current_stripe_index st;
           current_stripe := current_stripe st;
           current_chunk_group_index := current_chunk_group_index st;
           current_chunk_group := current_chunk_group st;
           current_row_in_chunk := current_row_in_chunk st + 1; read_buffers := read_buffers st;
           total_rows_read := total_rows_read st + 1; stripes_scanned := stripes_scanned st |},
        Some vs)
  else Ok (st, None).

(** [columnar_read_next_vector], with the rows that pass through the slot. *)
Fixpoint columnar_read_next_vector (max_rows : nat) (st : ColumnarReadState)
    : outcome (ColumnarReadState * list (list (option Datum))) :=
  match max_rows with
  | O => Ok (st, [])
  | S max_rows =>
      '(st, row) ← columnar_read_next_row st;
      match row with
      | None => Ok (st, [])
      | Some row => '(st, rows) ← columnar_read_next_vector max_rows st; Ok (st, row :: rows)
      end
  end.

Definition columnar_rescan (st : ColumnarReadState) : ColumnarReadState :=
  {| stripe_list := stripe_list st; current_stripe_index := -1;
     current_stripe := current_stripe st; current_chunk_group_index := -1;
     current_chunk_group := current_chunk_group st; current_row_in_chunk := 0;
     read_buffers := read_buffers st; total_rows_read := total_rows_read st;
     stripes_scanned := stripes_scanned st |}.

(** The loop of [columnar_seek_to_row]. *)
Fixpoint seek_stripe (l : list ColumnarStripe) (index : Z) (row_number : Z)
    : option (Z * ColumnarStripe) :=
  match l with
  | [] => None
  | s :: l =>
      if (first_row_number s <=? row_number) && (row_number <? first_row_number s + row_count s)
      then Some (index, s) else seek_stripe l (index + 1) row_number
  end.

Definition columnar_seek_to_row (st : ColumnarReadState) (row_number : Z)
    : outcome (ColumnarReadState * bool) :=
  match seek_stripe (stripe_list st) 0 row_number with
  | None => Ok (st, false)
  | Some (index, s) =>
      let row_in_stripe := row_number - first_row_number s in
      let group := Z.quot row_in_stripe 10000 in
      st ← load_chunk_group (move_to st index (Some s) group (stripes_scanned st)) group;
      Ok ({| stripe_list := stripe_list st; current_stripe_index := current_stripe_index st;
             current_stripe := current_stripe st;
             current_chunk_group_index := current_chunk_group_index st;
             current_chunk_group := current_chunk_group st;
             current_row_in_chunk := Z.rem row_in_stripe 10000;
             read_buffers := read_buffers st; total_rows_read := total_rows_read st;
             stripes_scanned := stripes_scanned st |}, true)
  end.
End reader.

(** ** Skip list *)

Record ColumnarSkipListEntry := {
  e_stripe_id : Z; e_chunk_group_index : Z; e_column_index : Z; e_min_value : Z; e_max_value : Z;
  e_row_count : Z; e_has_nulls : bool }.

(** Operator OIDs ([catalog/pg_operator.h]). *)
Definition Int4EqualOperator : Z := 96.
Definition Int4LessOperator : Z := 97.
Definition Int8EqualOperator : Z := 410.
Definition Int8LessOperator : Z := 412.
Definition Int8GreaterOperator : Z := 413.
Definition Int4GreaterOperator : Z := 521.
Definition Float8EqualOperator : Z := 670.

Inductive Node : Set :=
| Var (varattno : Z)
| Const (constisnull : bool) (constvalue : Z)
| OpExpr (opno : Z) (args : list Node)
| OtherNode.

(** The column and the constant of a predicate, whichever side they stand on. *)
Definition var_const (args : list Node) : option (Z * bool * Z) :=
  match args with
  | [Var v; Const isnull k] | [Const isnull k; Var v] => Some (v, isnull, k)
  | _ => None
  end.

Definition excludes (opno k lo hi : Z) : bool :=
  if decide (opno ∈ [Int4EqualOperator; Int8EqualOperator; Float8EqualOperator])
  then (i64 k <? i64 lo) || (i64 hi <? i64 k)
  else if decide (opno ∈ [Int4LessOperator; Int8LessOperator]) then i64 k <=? i64 lo
  else if decide (opno ∈ [Int4GreaterOperator; Int8GreaterOperator]) then i64 hi <=? i64 k
  else false.

Definition predicate_skips (e : ColumnarSkipListEntry) (p : Node) : bool :=
  match p with
  | OpExpr opno args =>
      match var_const args with
      | Some (v, isnull, k) =>
          if negb (v - 1 =? e_column_index e) then false
          else isnull || excludes opno k (e_min_value e) (e_max_value e)
      | None => false
      end
  | _ => false
  end.

Definition columnar_can_skip_chunk (e : ColumnarSkipListEntry) (predicates : list Node) : bool :=
  existsb (predicate_skips e) predicates.

Definition columnar_get_matching_chunks (entries : list ColumnarSkipListEntry)
    (predicates : list Node) : list ColumnarSkipListEntry :=
  filter (λ e, negb (columnar_can_skip_chunk e predicates)) entries.

(** [orochi_catalog_get_stripe_columns] leaves the bounds of a chunk zero and does
    not fill in the group index. *)
Definition skip_entry (stripe_id : Z) (r : ChunkRow) : ColumnarSkipListEntry :=
  {| e_stripe_id := stripe_id; e_chunk_group_index := 0; e_column_index := k_column r;
     e_min_value := 0; e_max_value := 0; e_row_count := k_value_count r;
     e_has_nulls := k_has_nulls r |}.

Definition columnar_build_skip_list (c : Catalog) : list ColumnarSkipListEntry :=
  mjoin (map (λ s, map (skip_entry (stripe_id s))
                      (orochi_catalog_get_stripe_columns c (stripe_id s)))
            (orochi_catalog_get_table_stripes c)).

(** The test of [vectorized_columnar_scan] whether a chunk group can be skipped. *)
Definition vectorized_can_skip (skip_list : list ColumnarSkipListEntry) (stripe_id cg_idx : Z)
    (predicates : list Node) : bool :=
  match predicates with
  | [] => false
  | _ => forallb (λ e, if (e_stripe_id e =? stripe_id) && (e_chunk_group_index e =? cg_idx)
                       then columnar_can_skip_chunk e predicates else true) skip_list
  end.

(** What a predicate says of a row: the comparison of the two sides, neither of
    which may be null.  [row] gives the values of the columns. *)
Definition compare_op (opno a b : Z) : Prop :=
  if decide (opno ∈ [Int4EqualOperator; Int8EqualOperator]) then a = b
  else if decide (opno ∈ [Int4LessOperator; Int8LessOperator]) then a < b
  else if decide (opno ∈ [Int4GreaterOperator; Int8GreaterOperator]) then b < a
  else True.

Definition satisfies (row : Z → option Z) (p : Node) : Prop :=
  match p with
  | OpExpr opno [Var v; Const isnull k] =>
      isnull = false ∧ ∃ x, row (v - 1) = Some x ∧ compare_op opno x (i64 k)
  | OpExpr opno [Const isnull k; Var v] =>
      isnull = false ∧ ∃ x, row (v - 1) = Some x ∧ compare_op opno (i64 k) x
  | _ => True
  end.

(** A row of the chunk: the value of the entry's column is within its bounds. *)
Definition row_of_chunk (e : ColumnarSkipListEntry) (row : Z → option Z) : Prop :=
  ∀ x, row (e_column_index e) = Some x → i64 (e_min_value e) ≤ x ≤ i64 (e_max_value e).

(** Column on the left, and an integer operator. *)
Definition column_first (p : Node) : Prop :=
  match p with
  | OpExpr opno [Const _ _; Var _] => False
  | OpExpr opno _ => opno ≠ Float8EqualOperator
  | _ => True
  end.

(** ** Row numbers and tuple ids *)

(** [BlockNumber] is 32 bits wide and [OffsetNumber] 16. *)
Definition columnar_row_to_itemptr (MaxHeapTuplesPerPage row_number : Z) : Z * Z :=
  (u32 (Z.quot row_number MaxHeapTuplesPerPage),
   u16 (Z.rem row_number MaxHeapTuplesPerPage + 1)).

Definition columnar_itemptr_to_row (MaxHeapTuplesPerPage : Z) (tid : Z * Z) : Z :=
  tid.1 * MaxHeapTuplesPerPage + tid.2 - 1.

(** ** What a stored column reads back as *)

(** A fixed-width null is stored as zero bytes and comes back as a zero. *)
Definition stored_value (attr : Attr) (v : option Datum) : option Datum :=
  if fixed_width attr
  then Some (DatumVal (datum_word (default (DatumVal 0) v) mod 2 ^ (attlen attr * 8)))
  else v.

Definition fixed_column (attr : Attr) (vs : list (option Datum)) : Prop :=
  attbyval attr = true ∧ 0 < attlen attr ≤ 8.

Definition var_value_ok (v : option Datum) : Prop :=
  match v with
  | Some (DatumRef bs) => 0 < len bs ≤ MaxAllocSize ∧ bytes_ok bs
  | Some (DatumVal _) => False
  | None => True
  end.

(** The statistics of a pass-by-reference column start at the first row. *)
Definition var_column (attr : Attr) (vs : list (option Datum)) : Prop :=
  attbyval attr = false ∧ Forall var_value_ok vs ∧ head vs ≠ Some None.

(** The codec that is chosen for the column stores it, without loss when its
    output is kept. *)
Definition column_stores (B : Build) `{Host} (level : Z) (attr : Attr)
    (vs : list (option Datum)) : Prop :=
  ∃ type size out,
    columnar_select_compression (atttypid attr) vs = Ok type ∧
    columnar_compress_buffer B (behind_raw attr) (raw_buffer attr vs)
      (len (raw_buffer attr vs)) type level = Ok (size, out) ∧
    0 < size ∧
    (size < len (raw_buffer attr vs) →
     buffer_accepts B type (raw_buffer attr vs) (len (raw_buffer attr vs)) size).

Definition column_ok (B : Build) `{Host} (level : Z) (attr : Attr)
    (vs : list (option Datum)) : Prop :=
  attisdropped attr = false ∧ atttypid attr ≠ 0 ∧
  (fixed_column attr vs ∨ var_column attr vs) ∧ column_stores B level attr vs.

(** The least and the greatest value of a column, as the writer keeps them. *)
Fixpoint column_stats (attr : Attr) (count : Z) (vs : list (option Datum)) (lo hi : Datum)
    : outcome (Datum * Datum) :=
  match vs with
  | [] => Ok (lo, hi)
  | None :: vs => column_stats attr (count + 1) vs lo hi
  | Some d :: vs => '(lo, hi) ← update_min_max attr count lo hi d; column_stats attr (count + 1) vs lo hi
  end.

(** What the UPDATE of the statistics of a column comes to. *)
Definition stats_outcome `{Host} (attr : Attr) (vs : list (option Datum)) : outcome unit :=
  '(lo, hi) ← column_stats attr 0 vs (DatumVal 0) (DatumVal 0);
  orochi_catalog_update_column_stats (atttypid attr) lo hi.

(** Column [j] of a list of rows. *)
Definition column (rows : list (list (option Datum))) (j : nat) : list (option Datum) :=
  map (λ row, mjoin (row !! j)) rows.

Definition stored_row (attrs : list Attr) (row : list (option Datum)) : list (option Datum) :=
  zip_with stored_value attrs row.

(** One session of a writer. *)
Definition write_session (B : Build) `{Host} (attrs : list Attr) (opts : ColumnarOptions)
    (c : Catalog) (rows : list (list (option Datum))) : outcome Catalog :=
  '(st, c) ← columnar_write_rows B attrs (columnar_begin_write attrs opts) c rows;
  columnar_end_write B attrs st c.

(** ** Fields *)

Lemma take_le_enc k z : (k ≤ 8)%nat → take k (le_enc 8 z) = le_enc (Z.of_nat k) z.
Proof. intros. do 9 (destruct k as [|k]; [reflexivity|]). lia. Qed.

Lemma replicate_le_enc k : (k ≤ 8)%nat → replicate k 0 = le_enc (Z.of_nat k) 0.
Proof. intros. do 9 (destruct k as [|k]; [reflexivity|]). lia. Qed.

Lemma fixed_field_enc attr v :
  0 < attlen attr ≤ 8 →
  fixed_field attr v = le_enc (attlen attr) (datum_word (default (DatumVal 0) v)).
Proof.
  intros. destruct v as [d|]; cbn [fixed_field default].
  - rewrite take_le_enc by lia. by rewrite Z2Nat.id by lia.
  - rewrite replicate_le_enc by lia. by rewrite Z2Nat.id by lia.
Qed.

Lemma decode_fixed_spec attr vs pre :
  attbyval attr = true → 0 < attlen attr ≤ 8 →
  let data := pre ++ concat (map (fixed_field attr) vs) in
  decode_fixed (length vs) (attlen attr) (len pre) (len data) data =
    Ok (map (stored_value attr) vs).
Proof.
  intros Hv Hl. revert pre. induction vs as [|v vs IH]; intros pre; cbn [length decode_fixed]; [done|].
  cbn [map concat]. rewrite fixed_field_enc by done.
  set (f := le_enc _ _). assert (Hf : len f = attlen attr) by (apply le_enc_length; lia).
  rewrite (proj2 (Z.ltb_lt _ _)) by (rewrite !length_app; lia).
  rewrite (mem_get_app pre f) by done. cbn [deref mbind outcome_bind].
  specialize (IH (pre ++ f)). cbn zeta in IH. rewrite <- app_assoc in IH.
  replace (len pre + attlen attr) with (len (pre ++ f)) by (rewrite length_app; lia).
  rewrite IH. cbn [mbind outcome_bind]. subst f. rewrite le_dec_enc by lia.
  unfold stored_value, fixed_width. rewrite Hv, (proj2 (Z.ltb_lt _ _)) by lia. done.
Qed.

Lemma decode_var_spec vs pre :
  Forall var_value_ok vs →
  let data := pre ++ concat (map var_field vs) in
  decode_var (length vs) (len pre) (len data) data = Ok vs.
Proof.
  intros Hvs. revert pre. induction Hvs as [|v vs Hv _ IH]; intros pre; cbn [length decode_var]; [done|].
  cbn [map concat]. set (rest := concat _).
  destruct v as [[z|bs]|]; cbn [var_field datum_bytes]; [done| |].
  - destruct Hv as [Hs _]. change MaxAllocSize with (2 ^ 30 - 1) in *. rewrite <- app_assoc.
    assert (He : len (le_enc 8 (len bs)) = 8) by (by apply le_enc_length).
    rewrite (proj2 (Z.ltb_lt _ _)) by (rewrite !length_app; lia).
    rewrite (proj2 (Z.ltb_ge _ _)) by (rewrite !length_app; lia).
    rewrite (mem_get_app pre (le_enc 8 (len bs))) by done. cbn [deref mbind outcome_bind].
    rewrite le_dec_enc_u64 by (unfold in_u; lia).
    rewrite (proj2 (Z.eqb_neq _ _)), swrap_id by (unfold in_i; lia).
    rewrite (proj2 (Z.ltb_ge _ _)) by (rewrite !length_app; lia).
    change MaxAllocSize with (2 ^ 30 - 1). rewrite (proj2 (Z.ltb_ge _ _)) by lia.
    rewrite (app_assoc pre). rewrite (mem_get_app (pre ++ le_enc 8 (len bs)) bs rest)
      by (rewrite ?length_app; lia).
    cbn [deref mbind outcome_bind].
    specialize (IH ((pre ++ le_enc 8 (len bs)) ++ bs)). cbn zeta in IH. fold rest in IH.
    rewrite <- !app_assoc in IH. rewrite <- !app_assoc.
    replace (len pre + 8 + len bs) with (len (pre ++ le_enc 8 (len bs) ++ bs))
      by (rewrite !length_app; lia).
    by rewrite IH.
  - assert (He : len (le_enc 8 0) = 8) by (by apply le_enc_length).
    rewrite (proj2 (Z.ltb_lt _ _)) by (rewrite !length_app; lia).
    rewrite (proj2 (Z.ltb_ge _ _)) by (rewrite !length_app; lia).
    rewrite (mem_get_app pre (le_enc 8 0)) by done. cbn [deref mbind outcome_bind].
    rewrite le_dec_enc_u64 by (unfold in_u; lia). rewrite Z.eqb_refl.
    specialize (IH (pre ++ le_enc 8 0)). cbn zeta in IH. fold rest in IH.
    rewrite <- app_assoc in IH.
    replace (len pre + 8) with (len (pre ++ le_enc 8 0)) by (rewrite !length_app; lia).
    by rewrite IH.
Qed.

(** ** One column chunk *)

Lemma concat_length_pos {A} (f : A → list Z) v vs :
  0 < len (f v) → 0 < len (concat (map f (v :: vs))).
Proof. cbn. rewrite length_app. lia. Qed.

Lemma raw_buffer_pos attr vs :
  fixed_column attr vs ∨ var_column attr vs → vs ≠ [] → 0 < len (raw_buffer attr vs).
Proof.
  intros Hc Hne. destruct vs as [|v vs]; [done|]. unfold raw_buffer, fixed_width.
  destruct Hc as [[-> Hl]|[-> _]].
  - rewrite (proj2 (Z.ltb_lt _ _)) by lia. apply concat_length_pos.
    rewrite fixed_field_enc, le_enc_length by lia. lia.
  - cbn [andb]. apply concat_length_pos.
    assert (∀ z, len (le_enc 8 z) = 8) as H8 by (intros; by apply le_enc_length).
    destruct v as [d|]; cbn [var_field]; [rewrite length_app|]; rewrite ?Nat2Z.inj_add, H8; lia.
Qed.

Lemma decode_raw attr vs :
  fixed_column attr vs ∨ var_column attr vs →
  (if fixed_width attr
   then decode_fixed (length vs) (attlen attr) 0 (len (raw_buffer attr vs)) (raw_buffer attr vs)
   else decode_var (length vs) 0 (len (raw_buffer attr vs)) (raw_buffer attr vs)) =
  Ok (map (stored_value attr) vs).
Proof.
  unfold raw_buffer, fixed_width. intros [[Hv Hl]|(Hv & Hvs & _)]; rewrite Hv.
  - rewrite (proj2 (Z.ltb_lt _ _)) by lia. cbn [andb].
    by apply (decode_fixed_spec attr vs []).
  - cbn [andb]. pose proof (decode_var_spec vs [] Hvs) as E. cbn zeta in E.
    cbn [app length] in E. change (Z.of_nat 0) with 0 in E. rewrite E. f_equal.
    unfold stored_value, fixed_width. rewrite Hv. cbn [andb]. symmetry. apply list_fmap_id.
Qed.

Lemma select_not_none `{Host} type_oid vs type :
  columnar_select_compression type_oid vs = Ok type → type ≠ OROCHI_COMPRESS_NONE.
Proof.
  unfold columnar_select_compression. intros Hs ->.
  repeat case_decide; try done. destruct (0 <? len vs); [|done].
  apply outcome_bind_ok in Hs as (u & _ & Hs). by destruct (_ || _).
Qed.

(** What the last [serialize_chunk_group] left in a buffer decodes to [vs]. *)
Record holds (B : Build) (attr : Attr) (vs : list (option Datum)) (buf : ColumnWriteBuffer)
    : Prop := {
  holds_type : attr_type buf = atttypid attr;
  holds_count : w_row_count buf = len vs;
  holds_data : ∃ b bs, (if 0 <? compressed_size buf then compressed_data buf else None)
                         = Some (b :: bs) ∧
    ∀ sid cg col, decode_chunk B attr (chunk_row sid cg col buf) (b :: bs)
                  = Ok (map (stored_value attr) vs) }.

Lemma chunk_roundtrip B `{Host} level attr buf :
  column_ok B level attr (rows buf) → rows buf ≠ [] →
  ∃ buf', serialize_column B level attr buf = Ok buf' ∧ rows buf' = [] ∧
    (min_value buf' = min_value buf ∧ max_value buf' = max_value buf) ∧ holds B attr (rows buf) buf'.
Proof.
  intros (Hd & _ & Hc & type & size & out & Hsel & Hcomp & Hpos & Hacc) Hne.
  unfold serialize_column. rewrite Hd, Hsel. cbn [orb mbind outcome_bind].
  rewrite (proj2 (Z.eqb_neq _ _)) by (destruct (rows buf); [done|cbn; lia]).
  rewrite Hcomp. cbn [mbind outcome_bind].
  pose proof (raw_buffer_pos attr (rows buf) Hc Hne) as Hraw.
  pose proof (decode_raw attr (rows buf) Hc) as Hdec.
  pose proof (select_not_none _ _ _ Hsel) as Htype.
  set (raw := raw_buffer attr (rows buf)) in *.
  destruct (Z.ltb_spec size (len raw)) as [Hlt|Hge]; (eexists; split; [reflexivity|];
    split; [reflexivity|]; split; [done|]; split; [reflexivity..|]; cbn [compressed_size compressed_data]).
  - destruct (columnar_buffer_sound B type level (len raw) size _ raw out (Hacc Hlt) Hcomp) as [-> Hd'].
    rewrite (proj2 (Z.ltb_lt _ _)) by done. destruct out as [|b bs]; [done|].
    exists b, bs. split; [done|]. intros sid cg col. unfold decode_chunk.
    cbn [k_decompressed_size k_compression k_value_count chunk_row uncompressed_size
         compression_type w_row_count].
    rewrite (proj2 (Z.leb_gt (len raw) 0)) by done. rewrite decide_False by done.
    rewrite Hd'. cbn [mbind outcome_bind].
    rewrite (proj2 (Z.ltb_lt 0 (len raw))), Nat2Z.id by done. apply Hdec.
  - rewrite (proj2 (Z.ltb_lt _ _)) by done. destruct raw as [|b bs] eqn:Eraw; [done|].
    exists b, bs. split; [done|]. intros sid cg col. unfold decode_chunk.
    cbn [k_decompressed_size k_compression k_value_count chunk_row uncompressed_size
         compression_type w_row_count].
    rewrite (proj2 (Z.leb_gt _ 0)) by done. rewrite decide_True by done.
    rewrite (proj2 (Z.leb_le _ _)) by lia. cbn [mbind outcome_bind]. rewrite Nat2Z.id. apply Hdec.
Qed.

(** ** Column loops *)

Lemma map3M_ok {A B C D} (f : A → B → C → outcome D) l k m (P : nat → D → Prop) :
  length k = length l → length m = length l →
  (∀ j a b c, l !! j = Some a → k !! j = Some b → m !! j = Some c →
     ∃ d, f a b c = Ok d ∧ P j d) →
  ∃ ds, map3M f l k m = Ok ds ∧ length ds = length l ∧ ∀ j d, ds !! j = Some d → P j d.
Proof.
  revert k m P. induction l as [|a l IH]; intros [|b k] [|c m] P Hk Hm Hf; try discriminate.
  - by exists [].
  - destruct (Hf 0%nat a b c) as (d & E & HP); [done..|].
    destruct (IH k m (λ j, P (S j))) as (ds & E' & Hl & HP'); [by injection Hk|by injection Hm| |].
    + intros j. apply (Hf (S j)).
    + exists (d :: ds). cbn [map3M]. rewrite E. cbn [mbind outcome_bind]. rewrite E'.
      cbn. split; [done|]. split; [congruence|]. intros [|j]; [intros ? [= <-]; done|apply HP'].
Qed.

Lemma map2M_ok {A B D} (f : A → B → outcome D) l k (P : nat → D → Prop) :
  length k = length l →
  (∀ j a b, l !! j = Some a → k !! j = Some b → ∃ d, f a b = Ok d ∧ P j d) →
  ∃ ds, map2M f l k = Ok ds ∧ length ds = length l ∧ ∀ j d, ds !! j = Some d → P j d.
Proof.
  revert k P. induction l as [|a l IH]; intros [|b k] P Hk Hf; try discriminate.
  - by exists [].
  - destruct (Hf 0%nat a b) as (d & E & HP); [done..|].
    destruct (IH k (λ j, P (S j))) as (ds & E' & Hl & HP'); [by injection Hk| |].
    + intros j. apply (Hf (S j)).
    + exists (d :: ds). cbn [map2M]. rewrite E. cbn [mbind outcome_bind]. rewrite E'.
      cbn. split; [done|]. split; [congruence|]. intros [|j]; [intros ? [= <-]; done|apply HP'].
Qed.

Lemma column_app r1 r2 j : column (r1 ++ r2) j = column r1 j ++ column r2 j.
Proof. apply map_app. Qed.

Lemma column_length rws j : length (column rws j) = length rws.
Proof. apply length_map. Qed.

Lemma column_stats_snoc attr vs v : ∀ count lo hi a b,
  column_stats attr count vs lo hi = Ok (a, b) →
  column_stats attr count (vs ++ [v]) lo hi =
    match v with Some d => update_min_max attr (count + len vs) a b d | None => Ok (a, b) end.
Proof.
  induction vs as [|[d|] vs IH]; intros count lo hi a b; cbn [app column_stats length].
  - intros [= <- <-]. rewrite Z.add_0_r. destruct v as [d|]; [|done].
    by destruct (update_min_max attr count lo hi d) as [[? ?]| | |].
  - intros E. apply outcome_bind_ok in E as ([lo' hi'] & -> & E). cbn [mbind outcome_bind].
    rewrite (IH _ _ _ _ _ E). by replace (count + 1 + len vs) with (count + Z.of_nat (S (length vs))) by lia.
  - intros E. rewrite (IH _ _ _ _ _ E). by replace (count + 1 + len vs) with (count + Z.of_nat (S (length vs))) by lia.
Qed.

Section write_read.
Context (B : Build) `{Host} (attrs : list Attr) (opts : ColumnarOptions).

Definition buf_inv (attr : Attr) (seen : list (option Datum)) (buf : ColumnWriteBuffer) : Prop :=
  rows buf = seen ∧ capacity buf = chunk_group_row_limit opts ∧
  column_stats attr 0 seen (DatumVal 0) (DatumVal 0) = Ok (min_value buf, max_value buf) ∧
  (attbyval attr = false → seen ≠ [] →
     ∃ a b, min_value buf = DatumRef a ∧ max_value buf = DatumRef b).

Lemma write_column_inv attr seen v rest buf :
  attisdropped attr = false →
  fixed_column attr (seen ++ v :: rest) ∨ var_column attr (seen ++ v :: rest) →
  len seen < chunk_group_row_limit opts → buf_inv attr seen buf →
  ∃ buf', write_column attr buf v = Ok buf' ∧ buf_inv attr (seen ++ [v]) buf'.
Proof.
  intros Hd Hc Hlim (Hr & Hcap & Hst & Hmm). unfold write_column.
  pose proof (column_stats_snoc attr seen v _ _ _ _ _ Hst) as Hst'. rewrite Z.add_0_l in Hst'. rewrite Hd, Hr, Hcap.
  cbn zeta. rewrite !(proj2 (Z.leb_gt (chunk_group_row_limit opts) (len seen))) by lia.
  destruct v as [d|].
  - assert (∃ lo hi, update_min_max attr (len seen) (min_value buf) (max_value buf) d = Ok (lo, hi) ∧
      (attbyval attr = false → ∃ a b, lo = DatumRef a ∧ hi = DatumRef b)) as (lo & hi & E & HR).
    { unfold update_min_max, call_cmp. destruct Hc as [[Hv _]|(Hv & Hvs & _)]; rewrite Hv.
      - destruct (len seen =? 0); [by eexists _, _|]. destruct (cmp_proc attr); by eexists _, _.
      - apply Forall_app in Hvs as [_ Hvs]. apply Forall_cons in Hvs as [Hok _].
        destruct d as [z|bs]; [done|]. destruct (Z.eqb_spec (len seen) 0).
        + eexists _, _. split; [done|]. by eexists _, _.
        + destruct Hmm as (a & b & -> & ->); [done|by intros ->|].
          destruct (cmp_proc attr) as [cmp|]; cbn [mbind outcome_bind];
            (eexists _, _; split; [done|]); repeat destruct (_ <? _); eauto. }
    rewrite E in *. eexists. do 4 (split; [done|]). intros. by apply HR.
  - eexists. do 4 (split; [done|]). intros Hv _.
    destruct seen as [|s seen].
    + destruct Hc as [[? _]|(_ & _ & Hh)]; [congruence|]. by destruct Hh.
    + by apply Hmm.
Qed.

Definition writing (seen : list (list (option Datum))) (st : ColumnarWriteState) : Prop :=
  options st = opts ∧ w_first_row st = 0 ∧ w_chunk_group_count st = 0 ∧
  stripe_row_count st = len seen ∧ chunk_group_row_count st = len seen ∧
  length (column_buffers st) = length attrs ∧
  ∀ j attr buf, attrs !! j = Some attr → column_buffers st !! j = Some buf →
    buf_inv attr (column seen j) buf.

Lemma begin_writing :
  Forall (λ a, attisdropped a = false) attrs →
  writing [] (columnar_begin_write attrs opts).
Proof.
  intros Hd. repeat (split; [done|]). split; [apply length_map|].
  intros j attr buf Ha Hb. cbn [column_buffers columnar_begin_write] in Hb.
  rewrite list_lookup_fmap, Ha in Hb. injection Hb as <-.
  unfold begin_buffer. by rewrite (Forall_lookup_1 _ _ _ _ Hd Ha).
Qed.

Lemma write_row_inv c seen row rest st :
  Forall (λ r, length r = length attrs) (row :: rest) →
  (∀ j attr, attrs !! j = Some attr → attisdropped attr = false ∧
     (fixed_column attr (column (seen ++ row :: rest) j) ∨
      var_column attr (column (seen ++ row :: rest) j))) →
  len seen + 1 < chunk_group_row_limit opts → len seen + 1 < stripe_row_limit opts →
  writing seen st →
  ∃ st', columnar_write_row B attrs st c row = Ok (st', c) ∧ writing (seen ++ [row]) st'.
Proof.
  intros Hlen Hcols Hcg Hs (Ho & Hf & Hg & Hsr & Hcr & Hl & Hb). unfold columnar_write_row.
  apply Forall_cons in Hlen as [Hrow _].
  destruct (map3M_ok write_column attrs (column_buffers st) row
    (λ j buf, ∀ attr, attrs !! j = Some attr → buf_inv attr (column (seen ++ [row]) j) buf))
    as (bufs & E & Hbl & HP); [done..| |].
  { intros j attr buf v Ha Hbuf Hv. destruct (Hcols j attr Ha) as [Hd Hc].
    assert (∀ r, column (row :: r) j = v :: column r j) as Hcol.
    { intros. cbn. by rewrite Hv. }
    rewrite column_app, Hcol in Hc.
    destruct (write_column_inv attr (column seen j) v (column rest j) buf) as (buf' & E & HI);
      [done|done|rewrite column_length; lia|by apply Hb|].
    exists buf'. split; [done|]. intros attr' Ha'. assert (attr' = attr) as -> by congruence.
    by rewrite column_app, Hcol. }
  rewrite E. cbn [mbind outcome_bind]. cbn [options chunk_group_row_count stripe_row_count].
  rewrite Ho, Hcr, Hsr. rewrite (proj2 (Z.leb_gt _ _)) by lia.
  cbn [mbind outcome_bind stripe_row_count options].
  rewrite (proj2 (Z.leb_gt _ _)) by lia. eexists. split; [reflexivity|].
  do 3 (split; [done|]). split; [cbn; rewrite length_app; cbn; lia|].
  split; [cbn; rewrite length_app; cbn; lia|]. split; [done|].
  intros j attr buf Ha Hbuf. by apply (HP j buf).
Qed.

Lemma write_rows_inv c seen rest st :
  Forall (λ r, length r = length attrs) rest →
  (∀ j attr, attrs !! j = Some attr → attisdropped attr = false ∧
     (fixed_column attr (column (seen ++ rest) j) ∨ var_column attr (column (seen ++ rest) j))) →
  len (seen ++ rest) < chunk_group_row_limit opts → len (seen ++ rest) < stripe_row_limit opts →
  writing seen st →
  ∃ st', columnar_write_rows B attrs st c rest = Ok (st', c) ∧ writing (seen ++ rest) st'.
Proof.
  revert seen st. induction rest as [|row rest IH]; intros seen st Hlen Hcols Hcg Hs Hw.
  - rewrite app_nil_r. by exists st.
  - pose proof Hcg as Hcg'. pose proof Hs as Hs'. rewrite length_app in Hcg', Hs'. cbn in Hcg', Hs'.
    destruct (write_row_inv c seen row rest st) as (st1 & E & Hw1); [done|done|lia|lia|done|].
    cbn [columnar_write_rows]. rewrite E. cbn [mbind outcome_bind].
    replace (seen ++ row :: rest) with ((seen ++ [row]) ++ rest) in * by (by rewrite <- app_assoc).
    apply IH; try done. by apply Forall_cons in Hlen as [_ ?].
Qed.
End write_read.

(** ** Flushing a stripe *)

Lemma chunk_upsert_append r l : Forall (λ x, key_before x r = true) l → chunk_upsert r l = l ++ [r].
Proof.
  induction 1 as [|x l Hx _ IH]; [done|]. cbn [chunk_upsert app].
  unfold key_before in *. rewrite decide_False.
  - replace (_ || _) with false; [by rewrite IH|]. symmetry. lia.
  - unfold chunk_key. intros [= ???]. lia.
Qed.

Section flush.
Context (B : Build) `{Host} (attrs : list Attr).

(** The rows one chunk group of a stripe adds to [orochi_column_chunks]. *)
Definition group_rows (id cg col : Z) (bufs : list ColumnWriteBuffer) : list ChunkRow :=
  imap (λ j buf, chunk_row id cg (col + Z.of_nat j) buf) bufs.

Definition flushable (buf : ColumnWriteBuffer) : Prop :=
  orochi_catalog_update_column_stats (attr_type buf) (min_value buf) (max_value buf) = Ok tt.

Definition all_before (id cg col : Z) (l : list ChunkRow) : Prop :=
  Forall (λ x, k_stripe x < id ∨ k_stripe x = id ∧ (k_group x < cg ∨ k_group x = cg ∧ k_column x < col)) l.

Lemma flush_columns_ok id cg col bufs c size :
  Forall flushable bufs → all_before id cg col (chunks c) →
  ∃ size', flush_columns id cg col bufs c size =
    Ok ({| stripes := stripes c; chunks := chunks c ++ group_rows id cg col bufs;
           next_stripe := next_stripe c |}, size') ∧
    all_before id (cg + 1) 0 (chunks c ++ group_rows id cg col bufs).
Proof.
  intros Hf. revert col c size.
  induction Hf as [|buf bufs Hs _ IH]; intros col c size Hb; cbn [flush_columns].
  - exists size. unfold group_rows. cbn [imap]. rewrite app_nil_r. split; [by destruct c|].
    eapply Forall_impl; [apply Hb|]. cbn. lia.
  - unfold orochi_catalog_create_column_chunk_with_data. rewrite chunk_upsert_append.
    2: { eapply Forall_impl; [apply Hb|]. intros x Hx. unfold key_before. cbn in *. lia. }
    unfold flushable in Hs. rewrite Hs. cbn [mbind outcome_bind].
    set (c1 := {| stripes := _ |}).
    destruct (IH (col + 1) c1 (size + compressed_size buf)) as (size' & E & Hb').
    { apply Forall_app. split; [eapply Forall_impl; [apply Hb|cbn; lia]|].
      apply Forall_singleton. cbn. lia. }
    exists size'. rewrite E. cbn [stripes chunks next_stripe c1] in *.
    assert (Hg : group_rows id cg col (buf :: bufs) =
                 chunk_row id cg col buf :: group_rows id cg (col + 1) bufs).
    { unfold group_rows. cbn [imap]. f_equal; [f_equal; lia|]. apply imap_ext.
      intros. cbn. f_equal. lia. }
    rewrite Hg. rewrite <- app_assoc in Hb' |- *. done.
Qed.

(** The first column whose statistics are refused ends the flush. *)
Lemma flush_columns_refused id cg pre buf post msg : ∀ col c size,
  Forall flushable pre →
  orochi_catalog_update_column_stats (attr_type buf) (min_value buf) (max_value buf) = Err msg →
  flush_columns id cg col (pre ++ buf :: post) c size = Err msg.
Proof.
  induction pre as [|b pre IH]; intros col c size Hf He; cbn [app flush_columns]; [by rewrite He|].
  apply Forall_cons in Hf as [Hb Hf]. unfold flushable in Hb. rewrite Hb. cbn [mbind outcome_bind]. by apply IH.
Qed.

Lemma flush_groups_ok n id cg bufs c size :
  Forall flushable bufs → all_before id cg 0 (chunks c) →
  ∃ size', flush_groups n id cg bufs c size =
    Ok ({| stripes := stripes c;
           chunks := chunks c ++ mjoin (map (λ g, group_rows id g 0 bufs) (seqZ cg (Z.of_nat n)));
           next_stripe := next_stripe c |}, size').
Proof.
  intros Hf. revert cg c size. induction n as [|n IH]; intros cg c size Hb; cbn [flush_groups].
  - exists size. rewrite app_nil_r. by destruct c.
  - destruct (flush_columns_ok id cg 0 bufs c size Hf Hb) as (s1 & E & Hb').
    rewrite E. cbn [mbind outcome_bind]. set (c1 := {| stripes := _ |}).
    destruct (IH (cg + 1) c1 s1 Hb') as (s2 & E2). exists s2. rewrite E2. cbn [stripes chunks next_stripe c1].
    rewrite <- app_assoc, (seqZ_cons cg) by lia.
    replace (Z.pred (Z.of_nat (S n))) with (Z.of_nat n) by lia.
    rewrite <- Z.add_1_r. done.
Qed.

Lemma group_rows_elem id cg bufs x :
  x ∈ group_rows id cg 0 bufs ↔ ∃ j buf, bufs !! j = Some buf ∧ x = chunk_row id cg (Z.of_nat j) buf.
Proof.
  unfold group_rows. rewrite list_elem_of_lookup. setoid_rewrite list_lookup_imap.
  setoid_rewrite fmap_Some. naive_solver.
Qed.

Lemma stripe_rows_elem id n bufs x :
  x ∈ mjoin (map (λ g, group_rows id g 0 bufs) (seqZ 0 n)) ↔
  ∃ g j buf, 0 ≤ g < n ∧ bufs !! j = Some buf ∧ x = chunk_row id g (Z.of_nat j) buf.
Proof.
  rewrite list_elem_of_join. setoid_rewrite list_elem_of_fmap. setoid_rewrite elem_of_seqZ.
  split.
  - intros (l & Hx & g & -> & Hg). apply group_rows_elem in Hx as (j & buf & ? & ->).
    exists g, j, buf. split; [lia|done].
  - intros (g & j & buf & Hg & Hb & ->). eexists. split.
    + apply group_rows_elem. by exists j, buf.
    + exists g. split; [done|lia].
Qed.

(** The catalog after the stripe [id] of [n] chunk groups has been added to one
    that has no rows of it. *)
Lemma read_flushed id n bufs old c g j buf :
  Forall (λ x, k_stripe x < id) old →
  chunks c = old ++ mjoin (map (λ g, group_rows id g 0 bufs) (seqZ 0 n)) →
  0 ≤ g < n → bufs !! j = Some buf →
  orochi_catalog_read_chunk_data c id g (Z.of_nat j) =
    (if 0 <? compressed_size buf then compressed_data buf else None).
Proof.
  intros Hold Hc Hg Hb. unfold orochi_catalog_read_chunk_data.
  rewrite (head_filter_unique _ _ (chunk_row id g (Z.of_nat j) buf)); [done| |done|].
  - rewrite Hc, elem_of_app. right. apply stripe_rows_elem. by exists g, j, buf.
  - intros y Hy [= Hs Hgr Hcol]. rewrite Hc in Hy. apply elem_of_app in Hy as [Hy|Hy].
    + rewrite Forall_forall in Hold. apply Hold in Hy. lia.
    + apply stripe_rows_elem in Hy as (g' & j' & buf' & _ & Hb' & ->). cbn in Hgr, Hcol.
      assert (j' = j) as -> by lia. congruence.
Qed.

Lemma flush_stripe_ok st c :
  chunk_group_row_count st = 0 → Forall flushable (column_buffers st) →
  Forall (λ x, k_stripe x < next_stripe c) (chunks c) → 0 ≤ w_chunk_group_count st →
  ∃ st' size, flush_stripe B attrs st c =
    Ok (st', {| stripes := stripes (orochi_catalog_update_stripe_status
                  (orochi_catalog_create_stripe c (w_first_row st) (stripe_row_count st)
                     (len attrs)).1 (next_stripe c) true size);
                chunks := chunks c ++ mjoin (map (λ g, group_rows (next_stripe c) g 0
                  (column_buffers st)) (seqZ 0 (w_chunk_group_count st)));
                next_stripe := next_stripe c + 1 |}).
Proof.
  intros Hn Hf Hold Hg. unfold flush_stripe. rewrite Hn. cbn [Z.ltb Z.compare mbind outcome_bind].
  unfold orochi_catalog_create_stripe. cbn zeta iota beta.
  set (c1 := {| stripes := _ |}).
  destruct (flush_groups_ok (Z.to_nat (w_chunk_group_count st)) (next_stripe c) 0
    (column_buffers st) c1 0 Hf) as (size & E).
  { eapply Forall_impl; [apply Hold|]. cbn. lia. }
  rewrite E. cbn [mbind outcome_bind]. rewrite Z2Nat.id by done. eexists _, size. done.
Qed.
End flush.

(** ** Reading a stripe back *)

Section read_back.
Context (B : Build) `{Host} (attrs : list Attr) (c : Catalog).

Definition needed (_ : Z) : bool := true.

Lemma load_columns_ok stripe group col l old (P : nat → ColumnReadBuffer → Prop) :
  length old = length l →
  (∀ j attr o, l !! j = Some attr → old !! j = Some o →
     ∃ b, load_column B needed c stripe group (col + Z.of_nat j) attr o = Ok b ∧ P j b) →
  ∃ bs, load_columns B needed c stripe group col l old = Ok bs ∧ length bs = length l ∧
    ∀ j b, bs !! j = Some b → P j b.
Proof.
  revert col old P. induction l as [|attr l IH]; intros col [|o old] P Hl Hf; try discriminate.
  - by exists [].
  - destruct (Hf 0%nat attr o) as (b & E & HP); [done..|].
    destruct (IH (col + 1) old (λ j, P (S j))) as (bs & E' & Hbl & HP'); [by injection Hl| |].
    + intros j a o' Ha Ho. destruct (Hf (S j) a o') as (b' & Eb & ?); [done..|].
      exists b'. split; [|done]. by replace (col + 1 + Z.of_nat j) with (col + Z.of_nat (S j)) by lia.
    + exists (b :: bs). cbn [load_columns]. rewrite Z.add_0_r in E. rewrite E.
      cbn [mbind outcome_bind]. rewrite E'. cbn [mbind outcome_bind length].
      split; [done|]. split; [congruence|]. intros [|j]; [intros ? [= <-]; done|apply HP'].
Qed.

Definition loaded (rws : list (list (option Datum))) (bufs : list ColumnReadBuffer) : Prop :=
  length bufs = length attrs ∧
  ∀ j attr b, attrs !! j = Some attr → bufs !! j = Some b →
    b = {| r_rows := map (stored_value attr) (column rws j); is_loaded := true |}.

Lemma read_columns_ok row i j bufs l :
  length bufs = length l → length row = length l →
  (∀ k attr b v, l !! k = Some attr → bufs !! k = Some b → row !! k = Some v →
     is_loaded b = true ∧ r_rows b !! i = Some (stored_value attr v)) →
  read_columns needed (Z.of_nat i) j bufs = Ok (zip_with stored_value l row).
Proof.
  revert row j l. induction bufs as [|b bufs IH]; intros [|v row] j [|attr l] Hb Hr Hf;
    try discriminate; [done|].
  cbn [read_columns]. destruct (Hf 0%nat attr b v) as [Hl Hv]; [done..|].
  rewrite Hl, Nat2Z.id, Hv. cbn [andb needed deref mbind outcome_bind].
  rewrite (IH row (j + 1) l); [done|by injection Hb|by injection Hr|].
  intros k. apply (Hf (S k)).
Qed.

Definition in_group (rws : list (list (option Datum))) (s : ColumnarStripe)
    (st : ColumnarReadState) : Prop :=
  Forall (λ r, length r = length attrs) rws ∧ loaded rws (read_buffers st) ∧
  current_stripe st = Some s ∧ chunk_group_count s <= current_chunk_group_index st + 1 ∧
  len (stripe_list st) <= current_stripe_index st + 1 ∧
  current_chunk_group st = Some (len rws).

Lemma next_row rws s st i row :
  in_group rws s st → current_row_in_chunk st = Z.of_nat i → rws !! i = Some row →
  ∃ st', columnar_read_next_row B attrs needed c st = Ok (st', Some (stored_row attrs row)) ∧
    in_group rws s st' ∧ current_row_in_chunk st' = Z.of_nat (S i).
Proof.
  intros (Hlen & Hload & Hs & Hg & Hl & Hn) Hi Hrow.
  pose proof (lookup_lt_Some _ _ _ Hrow). unfold columnar_read_next_row, advance. rewrite Hn, Hi.
  rewrite (proj2 (Z.leb_gt _ _)) by lia. cbn [negb mbind outcome_bind]. rewrite Hi.
  rewrite (read_columns_ok row i 0 _ attrs).
  - eexists. split; [reflexivity|]. split; [done|]. cbn. lia.
  - by destruct Hload.
  - by apply (Forall_lookup_1 _ _ _ _ Hlen Hrow).
  - intros j attr b v Ha Hb Hv. destruct Hload as [_ Hload].
    rewrite (Hload j attr b Ha Hb). split; [done|]. cbn [r_rows].
    rewrite list_lookup_fmap. unfold column. rewrite list_lookup_fmap, Hrow. cbn. by rewrite Hv.
Qed.

(** The scan of the rows left in the last chunk group. *)
Lemma read_rest rws s k st i :
  in_group rws s st → current_row_in_chunk st = Z.of_nat i → (i + k = length rws)%nat →
  ∃ st', columnar_read_next_vector B attrs needed c (S k) st =
    Ok (st', map (stored_row attrs) (drop i rws)).
Proof.
  revert st i. induction k as [|k IH]; intros st i Hin Hi Hik.
  - destruct Hin as (Hlen & Hload & Hs & Hg & Hl & Hn).
    cbn [columnar_read_next_vector]. unfold columnar_read_next_row, advance. rewrite Hn, Hi.
    rewrite (proj2 (Z.leb_le _ _)), Hs by lia. cbn [negb].
    rewrite (proj2 (Z.leb_le _ _)), (proj2 (Z.leb_le _ _)) by lia.
    cbn [mbind outcome_bind]. eexists. rewrite drop_ge by lia. done.
  - destruct (lookup_lt_is_Some_2 rws i) as [row Hrow]; [lia|].
    destruct (next_row rws s st i row Hin Hi Hrow) as (st1 & E & Hin1 & Hi1).
    destruct (IH st1 (S i) Hin1 Hi1) as (st' & E'); [lia|]. exists st'.
    remember (S k) as n. cbn [columnar_read_next_vector]. rewrite E. cbn [mbind outcome_bind].
    rewrite E'. cbn [mbind outcome_bind]. by rewrite (drop_S rws row i) by done.
Qed.
End read_back.

Section session.
Context (B : Build) `{Host} (attrs : list Attr) (opts : ColumnarOptions).

Lemma serialize_ok rws st :
  0 < len rws → writing attrs opts rws st →
  (∀ j attr, attrs !! j = Some attr →
     column_ok B (compression_level opts) attr (column rws j)) →
  ∃ st', serialize_chunk_group B attrs st = Ok st' ∧ chunk_group_row_count st' = 0 ∧
    w_chunk_group_count st' = 1 ∧ w_first_row st' = 0 ∧ stripe_row_count st' = len rws ∧
    length (column_buffers st') = length attrs ∧
    ∀ j attr buf, attrs !! j = Some attr → column_buffers st' !! j = Some buf →
      holds B attr (column rws j) buf ∧
      stats_outcome attr (column rws j) =
        orochi_catalog_update_column_stats (attr_type buf) (min_value buf) (max_value buf).
Proof.
  intros Hpos (Ho & Hf & Hg & Hsr & Hcr & Hl & Hb) Hcols. unfold serialize_chunk_group. rewrite Ho.
  destruct (map2M_ok (serialize_column B (compression_level opts)) attrs (column_buffers st)
    (λ j buf, ∀ attr, attrs !! j = Some attr → holds B attr (column rws j) buf ∧
      stats_outcome attr (column rws j) =
        orochi_catalog_update_column_stats (attr_type buf) (min_value buf) (max_value buf)))
    as (bufs & E & Hbl & HP); [done| |].
  { intros j attr buf Ha Hbuf. destruct (Hb j attr buf Ha Hbuf) as (Hr & _ & Hst & _).
    destruct (chunk_roundtrip B (compression_level opts) attr buf) as (buf' & E & _ & [Hlo Hhi] & Hh).
    - rewrite Hr. by apply Hcols.
    - rewrite Hr. intros Hnil. apply (f_equal length) in Hnil. rewrite column_length in Hnil.
      cbn in Hnil. lia.
    - exists buf'. split; [done|]. intros attr' Ha'. assert (attr' = attr) as -> by congruence.
      rewrite Hr in Hh. split; [done|]. unfold stats_outcome. rewrite Hst. cbn [mbind outcome_bind].
      by rewrite Hlo, Hhi, (holds_type _ _ _ _ Hh). }
  rewrite E. cbn [mbind outcome_bind]. eexists. split; [reflexivity|].
  cbn. rewrite Hg. repeat (split; [done|]). intros j attr buf ??. by apply (HP j buf).
Qed.

Lemma flush_serialized st st' c :
  0 < chunk_group_row_count st → serialize_chunk_group B attrs st = Ok st' →
  chunk_group_row_count st' = 0 → flush_stripe B attrs st c = flush_stripe B attrs st' c.
Proof.
  intros Hp E Hz. unfold flush_stripe. rewrite (proj2 (Z.ltb_lt _ _)), E, Hz by done. done.
Qed.

(** Loading the one chunk group of a stripe. *)
Lemma load_flushed c id old bufs rws stripe :
  length bufs = length attrs →
  (∀ j attr buf, attrs !! j = Some attr → bufs !! j = Some buf →
     holds B attr (column rws j) buf) →
  Forall (λ x, k_stripe x < id) old → stripe_id stripe = id →
  chunks c = old ++ mjoin (map (λ g, group_rows id g 0 bufs) (seqZ 0 1)) →
  ∃ bs, load_columns B needed c stripe 0 0 attrs
          (map (λ _, {| r_rows := []; is_loaded := false |}) attrs) = Ok bs ∧
    loaded attrs rws bs.
Proof.
  intros Hl Hh Hold Hid Hc.
  destruct (load_columns_ok B c stripe 0 0 attrs
    (map (λ _, {| r_rows := []; is_loaded := false |}) attrs)
    (λ j b, ∀ attr, attrs !! j = Some attr →
       b = {| r_rows := map (stored_value attr) (column rws j); is_loaded := true |}))
    as (bs & E & Hbl & HP).
  - by rewrite length_map.
  - intros j attr o Ha _. rewrite Z.add_0_l.
    destruct (lookup_lt_is_Some_2 bufs j) as [buf Hbuf].
    { rewrite Hl. by apply lookup_lt_Some in Ha. }
    destruct (Hh j attr buf Ha Hbuf) as [Ht Hcount (b & bs & Hdata & Hdec)].
    unfold load_column. cbn [needed negb]. unfold orochi_catalog_get_stripe_columns.
    rewrite (head_filter_unique _ _ (chunk_row id 0 (Z.of_nat j) buf)).
    + rewrite Hid, (read_flushed id 1 bufs old c 0 j buf), Hdata by (done || lia).
      rewrite Hdec. cbn [mbind outcome_bind]. eexists. split; [reflexivity|].
      intros attr' Ha'. congruence.
    + apply list_elem_of_filter. split; [done|]. rewrite Hc, elem_of_app. right.
      apply stripe_rows_elem. exists 0, j, buf. split; [lia|done].
    + done.
    + intros y Hy Hcol. apply list_elem_of_filter in Hy as [Hs Hy].
      rewrite Hc in Hy. apply elem_of_app in Hy as [Hy|Hy].
      * rewrite Forall_forall in Hold. apply Hold in Hy. lia.
      * apply stripe_rows_elem in Hy as (g & j' & buf' & Hg & Hb' & ->). cbn in Hcol.
        assert (j' = j) as -> by lia. assert (g = 0) as -> by lia. congruence.
  - exists bs. split; [done|]. split; [done|]. intros j attr b Ha Hb. by apply (HP j b).
Qed.

(** A session whose rows are one stripe of one chunk group. *)
Record one_group (c : Catalog) (rws : list (list (option Datum))) : Prop := {
  st_rows : 0 < len rws ≤ 10000;
  st_group_limit : len rws < chunk_group_row_limit opts;
  st_stripe_limit : len rws < stripe_row_limit opts;
  st_widths : Forall (λ r, length r = length attrs) rws;
  st_columns : ∀ j attr, attrs !! j = Some attr →
    column_ok B (compression_level opts) attr (column rws j);
  st_empty : stripes c = [];
  st_fresh : Forall (λ x, k_stripe x < next_stripe c) (chunks c) }.

(** Up to the flush of the stripe. *)
Lemma session_serialized c rws :
  one_group c rws →
  ∃ st, write_session B attrs opts c rws = ('(_, c) ← flush_stripe B attrs st c; Ok c) ∧
    chunk_group_row_count st = 0 ∧ w_chunk_group_count st = 1 ∧ w_first_row st = 0 ∧ stripe_row_count st = len rws ∧
    length (column_buffers st) = length attrs ∧
    ∀ j attr buf, attrs !! j = Some attr → column_buffers st !! j = Some buf →
      holds B attr (column rws j) buf ∧
      stats_outcome attr (column rws j) =
        orochi_catalog_update_column_stats (attr_type buf) (min_value buf) (max_value buf).
Proof.
  intros [Hn Hcg Hs Hlen Hcols Hempty Hfresh].
  assert (Hd : Forall (λ a, attisdropped a = false) attrs).
  { apply Forall_lookup. intros j attr Ha. by destruct (Hcols j attr Ha). }
  destruct (write_rows_inv B attrs opts c [] rws (columnar_begin_write attrs opts))
    as (st1 & E1 & Hw); [done| |done|done|by apply begin_writing|].
  { intros j attr Ha. destruct (Hcols j attr Ha) as (? & _ & ? & _). done. }
  unfold write_session. rewrite E1. cbn [mbind outcome_bind].
  destruct (serialize_ok rws st1) as (st2 & E2 & Hz & H2); [lia|done|done|].
  destruct Hw as (_ & _ & _ & Hsr1 & Hcr1 & _). exists st2. split; [|done].
  unfold columnar_end_write, columnar_flush_writes. cbn [app] in *.
  rewrite Hsr1, (proj2 (Z.ltb_lt _ _)) by lia. by rewrite (flush_serialized st1 st2) by (done || lia).
Qed.

(** A session one of whose columns has statistics that are refused is aborted. *)
Lemma session_refused c rws j attr msg :
  one_group c rws → attrs !! j = Some attr → stats_outcome attr (column rws j) = Err msg →
  (∀ i a, (i < j)%nat → attrs !! i = Some a → stats_outcome a (column rws i) = Ok tt) →
  write_session B attrs opts c rws = Err msg.
Proof.
  intros Hone Ha Herr Hbefore. destruct (session_serialized c rws Hone) as (st & -> & Hz & Hg & _ & _ & Hl & Hh).
  destruct (lookup_lt_is_Some_2 (column_buffers st) j) as [buf Hb]; [rewrite Hl; by apply lookup_lt_Some in Ha|].
  assert (Hcols : column_buffers st = take j (column_buffers st) ++ buf :: drop (S j) (column_buffers st)).
  { by rewrite take_drop_middle. }
  unfold flush_stripe. rewrite Hz. cbn [Z.ltb Z.compare mbind outcome_bind].
  unfold orochi_catalog_create_stripe. cbn zeta iota beta. rewrite Hg. change (Z.to_nat 1) with 1%nat.
  cbn [flush_groups]. rewrite Hcols. erewrite flush_columns_refused; [done| |].
  - apply Forall_lookup. intros i b Hi. apply lookup_take_Some in Hi as [Hi Hij].
    destruct (lookup_lt_is_Some_2 attrs i) as [a Hai]; [rewrite <- Hl; by apply lookup_lt_Some in Hi|].
    destruct (Hh i a b Hai Hi) as [_ Hs]. unfold flushable. rewrite <- Hs. by apply Hbefore.
  - destruct (Hh j attr buf Ha Hb) as [_ Hs]. by rewrite <- Hs.
Qed.

(** The hypotheses under which the rows are stored: the texts of the least and the greatest
    value of each column are pairs of hexadecimal digits. *)
Definition storable (c : Catalog) (rws : list (list (option Datum))) : Prop :=
  one_group c rws ∧ ∀ j attr, attrs !! j = Some attr → stats_outcome attr (column rws j) = Ok tt.

Lemma session_roundtrip c rws :
  storable c rws →
  ∃ c' st, write_session B attrs opts c rws = Ok c' ∧
    columnar_read_next_vector B attrs needed c' (S (length rws)) (columnar_begin_read attrs c') =
      Ok (st, map (stored_row attrs) rws).
Proof.
  intros [Hone Hstats]. destruct (session_serialized c rws Hone) as (st2 & Ew & Hz & Hg & Hf & Hsr & Hl & Hh').
  destruct Hone as [Hn Hcg Hs Hlen Hcols Hempty Hfresh].
  assert (Hh : ∀ j attr buf, attrs !! j = Some attr → column_buffers st2 !! j = Some buf →
    holds B attr (column rws j) buf) by (intros; by eapply Hh').
  destruct (flush_stripe_ok B attrs st2 c Hz) as (st3 & size & E3); [|done|lia|].
  { apply Forall_lookup. intros j buf Hb.
    destruct (lookup_lt_is_Some_2 attrs j) as [attr Ha].
    { rewrite <- Hl. by apply lookup_lt_Some in Hb. }
    destruct (Hh' j attr buf Ha Hb) as [_ Hst]. unfold flushable. rewrite <- Hst. by apply Hstats. }
  rewrite Hg in E3. rewrite Ew, E3. cbn [mbind outcome_bind]. set (c' := {| stripes := _ |}).
  set (id := next_stripe c) in *.
  set (s := {| stripe_id := id; first_row_number := 0; row_count := len rws;
               column_count := len attrs; chunk_group_count := 1 |}).
  assert (Hstripes : orochi_catalog_get_table_stripes c' = [s]).
  { unfold orochi_catalog_get_table_stripes. cbn [stripes c' orochi_catalog_update_stripe_status
      orochi_catalog_create_stripe fst]. rewrite Hempty, Hf, Hsr. cbn [app map].
    rewrite Z.eqb_refl. unfold s. cbn. rewrite Z.quot_div_nonneg by lia.
    replace ((len rws + 9999) / 10000) with 1; [done|]. Z.div_mod_to_equations. lia. }
  destruct (load_flushed c' id (chunks c) (column_buffers st2) rws s) as (bs & E4 & Hload);
    [done..|].
  set (st4 := {| stripe_list := [s]; current_stripe_index := 0; current_stripe := Some s;
    current_chunk_group_index := 0; current_chunk_group := Some (len rws);
    current_row_in_chunk := 0; read_buffers := bs; total_rows_read := 0; stripes_scanned := 1 |}).
  destruct (read_rest B attrs c' rws s (length rws) st4 0) as (st' & E5);
    [split_and!; cbn; (done || lia)|done|done|].
  exists c', st'. split; [done|]. rewrite drop_0 in E5. rewrite <- E5.
  assert (A1 : advance B attrs needed c' (columnar_begin_read attrs c') = Ok (st4, true)).
  { unfold columnar_begin_read, advance. rewrite Hstripes.
    cbn [current_chunk_group negb current_stripe current_stripe_index stripe_list length].
    change (-1 + 1) with 0. change (Z.of_nat 1 <=? 0) with false. cbn iota.
    change ([s] !! Z.to_nat 0) with (Some s). cbn [deref mbind outcome_bind].
    unfold load_chunk_group. cbn [move_to current_stripe read_buffers]. by rewrite E4. }
  assert (A2 : advance B attrs needed c' st4 = Ok (st4, true)).
  { unfold advance. cbn [current_chunk_group current_row_in_chunk st4].
    by rewrite (proj2 (Z.leb_gt _ _)) by lia. }
  assert (N : columnar_read_next_row B attrs needed c' (columnar_begin_read attrs c') =
              columnar_read_next_row B attrs needed c' st4).
  { unfold columnar_read_next_row. by rewrite A1, A2. }
  cbn [columnar_read_next_vector]. by rewrite N.
Qed.
End session.

(** ** Properties *)


(** A stripe of several chunk groups keeps only the last of them: whatever
    the number of groups, the data stored for each group of a column is the
    column's last serialized buffer. *)
Theorem flush_repeats_last_group (B : Build) `{Host} (attrs : list Attr)
    (st : ColumnarWriteState) (c : Catalog) :
  chunk_group_row_count st = 0 → Forall flushable (column_buffers st) →
  Forall (λ x, k_stripe x < next_stripe c) (chunks c) → 0 ≤ w_chunk_group_count st →
  ∃ st' c', flush_stripe B attrs st c = Ok (st', c') ∧
    ∀ g j buf, 0 ≤ g < w_chunk_group_count st → column_buffers st !! j = Some buf →
      orochi_catalog_read_chunk_data c' (next_stripe c) g (Z.of_nat j) =
        (if 0 <? compressed_size buf then compressed_data buf else None).
Proof.
  intros Hz Hf Hold Hg. destruct (flush_stripe_ok B attrs st c Hz Hf Hold Hg) as (st' & size & E).
  eexists st', _. split; [exact E|]. intros g j buf Hgr Hb.
  eapply read_flushed; [exact Hold|reflexivity|done|done].
Qed.

(** A chunk is skipped only when it holds no row that satisfies the
    predicates, as long as the entry has the bounds of the chunk and every comparison of a
    column with a constant has the column on its left and an integer operator. *)
Theorem skip_sound (e : ColumnarSkipListEntry) (predicates : list Node) (row : Z → option Z) :
  Forall column_first predicates → row_of_chunk e row →
  columnar_can_skip_chunk e predicates = true → ¬ Forall (satisfies row) predicates.
Proof.
  intros Hcf Hrow Hskip Hsat. unfold columnar_can_skip_chunk in Hskip.
  apply existsb_exists in Hskip as (p & Hp & Hskip). apply list_elem_of_In in Hp.
  rewrite Forall_forall in Hcf, Hsat. apply Hcf in Hp as Hc. apply Hsat in Hp as Hs.
  destruct p as [| |opno args|]; try done.
  destruct args as [|[v|n k| |] [|[v'|n' k'| |] [|? ?]]]; try done.
  cbn [predicate_skips var_const] in Hskip. destruct Hs as [-> (x & Hx & Hcmp)].
  destruct (Z.eqb_spec (v - 1) (e_column_index e)) as [Ev|]; [|done].
  rewrite Ev in Hx. apply Hrow in Hx. cbn [negb orb] in Hskip. cbn [column_first] in Hc.
  unfold excludes, compare_op in *.
  repeat case_decide; try done; try lia; set_solver.
Qed.

(** With the constant on the left the comparison is read the wrong way
    round: a chunk all of whose values exceed [k] is skipped for [k < column],
    which every one of its rows satisfies. *)
Theorem skip_unsound_constant_first (e : ColumnarSkipListEntry) (k x : Z) :
  let p := OpExpr Int8LessOperator [Const false k; Var (e_column_index e + 1)] in
  i64 k < i64 (e_min_value e) → i64 (e_min_value e) ≤ x ≤ i64 (e_max_value e) →
  columnar_can_skip_chunk e [p] = true ∧
  satisfies (λ col, if col =? e_column_index e then Some x else None) p.
Proof.
  intros p Hk Hx. split.
  - cbn. rewrite Z.add_simpl_r, Z.eqb_refl. cbn [negb orb]. unfold excludes.
    rewrite decide_False, decide_True by decide_now. lia.
  - split; [done|]. exists x. rewrite Z.add_simpl_r, Z.eqb_refl. split; [done|].
    unfold compare_op. rewrite decide_False, decide_True by decide_now. lia.
Qed.

(** A vectorized scan with any predicate skips every chunk group but the
    first of a stripe, because the skip list built from the catalog files every
    entry under group zero. *)
Theorem vectorized_scan_skips_later_groups (c : Catalog) (sid cg : Z) (p : Node)
    (predicates : list Node) :
  0 < cg → vectorized_can_skip (columnar_build_skip_list c) sid cg (p :: predicates) = true.
Proof.
  intros Hcg. unfold vectorized_can_skip. apply forallb_forall. intros e He.
  apply list_elem_of_In in He. unfold columnar_build_skip_list in He.
  apply list_elem_of_join in He as (l & He & Hl). apply list_elem_of_fmap in Hl as (s & -> & _).
  apply list_elem_of_fmap in He as (r & -> & _). cbn [e_chunk_group_index skip_entry].
  rewrite (proj2 (Z.eqb_neq 0 cg)), andb_false_r by lia. done.
Qed.

(** C8: the entries that the program builds from the catalog have zero as both bounds,
    whatever the chunks hold.  So a search for a key other than zero leaves no chunk of the
    column, and in a table of one column the vectorized scan skips every chunk group, the rows
    with that key included. *)
Theorem zero_bounds_skip (c : Catalog) (col opno k : Z) (predicates : list Node) :
  opno ∈ [Int4EqualOperator; Int8EqualOperator] → i64 k ≠ 0 →
  OpExpr opno [Var (col + 1); Const false k] ∈ predicates →
  (∀ e, e ∈ columnar_get_matching_chunks (columnar_build_skip_list c) predicates → e_column_index e ≠ col) ∧
  (Forall (λ r, k_column r = col) (chunks c) →
   ∀ sid cg, vectorized_can_skip (columnar_build_skip_list c) sid cg predicates = true).
Proof.
  intros Hop Hk Hp.
  assert (Hskip : ∀ e, e ∈ columnar_build_skip_list c → e_column_index e = col →
    columnar_can_skip_chunk e predicates = true).
  { intros e He Hcol. unfold columnar_can_skip_chunk. apply existsb_exists. eexists.
    split; [by apply list_elem_of_In, Hp|]. cbn [predicate_skips var_const].
    rewrite Hcol, Z.add_simpl_r, Z.eqb_refl. cbn [negb orb].
    unfold columnar_build_skip_list in He. apply list_elem_of_join in He as (l & He & Hl).
    apply list_elem_of_fmap in Hl as (s & -> & _). apply list_elem_of_fmap in He as (row & -> & _).
    cbn [e_min_value e_max_value skip_entry]. unfold excludes. rewrite decide_True by set_solver.
    change (i64 0) with 0. lia. }
  split.
  - intros e He Hcol. unfold columnar_get_matching_chunks in He. apply list_elem_of_filter in He as [Hn He].
    rewrite (Hskip e He Hcol) in Hn. done.
  - intros Hone sid cg. unfold vectorized_can_skip. destruct predicates as [|p ps]; [by apply not_elem_of_nil in Hp|].
    apply forallb_forall. intros e He. apply list_elem_of_In in He. destruct (_ && _); [|done]. apply Hskip; [done|].
    unfold columnar_build_skip_list in He. apply list_elem_of_join in He as (l & He & Hl).
    apply list_elem_of_fmap in Hl as (s & -> & _). apply list_elem_of_fmap in He as (row & -> & Hrow).
    unfold orochi_catalog_get_stripe_columns in Hrow. apply list_elem_of_filter in Hrow as [_ Hrow].
    rewrite Forall_forall in Hone. by apply Hone.
Qed.

(** The two columns of the examples: a bigint and a name, with their output functions. *)
Definition NAMEOID : Z := 19.
Fixpoint name_text (bs : list Z) : list Z :=
  match bs with [] => [] | c :: bs => if c =? 0 then [] else c :: name_text bs end.
Definition decimal (z : Z) : list Z :=
  map (λ c, Z.of_N (Ascii.N_of_ascii c)) (String.list_ascii_of_string (pretty z)).
Definition sample_host : Host := {|
  host_varlena := four_byte_header; hash_any _ := 0;
  output_function type d :=
    if type =? INT8OID then Ok (decimal (datum_word d))
    else match d with DatumRef bs => Ok (name_text bs) | DatumVal _ => Undef end;
  quoted_text_ok _ := false |}.

Definition int8_cmp (a b : Datum) : Z := datum_word a - datum_word b.

Definition sample_attrs : list Attr :=
  [{| attisdropped := false; attbyval := true; attlen := 8; atttypid := INT8OID;
      cmp_proc := Some int8_cmp |};
   {| attisdropped := false; attbyval := false; attlen := 64; atttypid := NAMEOID;
      cmp_proc := None |}].

Definition sample_opts : ColumnarOptions :=
  {| stripe_row_limit := 150000; chunk_group_row_limit := 10000; compression_level := 3 |}.

Definition empty_catalog : Catalog := {| stripes := []; chunks := []; next_stripe := 1 |}.

Definition name_of (c : Z) : Datum := DatumRef (replicate 16 c ++ replicate 48 0).

Definition sample_rows : list (list (option Datum)) :=
  [[Some (DatumVal 1000); Some (name_of 97)];
   [Some (DatumVal 1010); Some (name_of 98)];
   [Some (DatumVal 1020); None];
   [None; Some (name_of 99)]].

Lemma sample_one_group : @one_group identity_build sample_host sample_attrs sample_opts empty_catalog sample_rows.
Proof.
  split; [decide_now|decide_now|decide_now|decide_now| |done|decide_now].
  intros [|[|j]] attr Ha; [injection Ha as <-|injection Ha as <-|done].
  - split; [done|]. split; [done|]. split; [left; split; [done|cbn; lia]|].
    exists OROCHI_COMPRESS_DELTA. eexists _, _. split; [vm_compute; reflexivity|].
    split; [vm_compute; reflexivity|]. split; [done|]. intros _.
    split; [decide_now|]. split; [by exists 4%nat|]. split; [vm_compute; reflexivity|].
    vm_compute. split; congruence.
  - split; [done|]. split; [done|]. split.
    { right. split; [done|]. split; [|done].
      repeat constructor; vm_compute; congruence. }
    exists OROCHI_COMPRESS_ZSTD. eexists _, _. split; [vm_compute; reflexivity|].
    split; [vm_compute; reflexivity|]. split; [done|]. intros Hlt. vm_compute in Hlt. discriminate Hlt.
Qed.


(** A state in which two chunk groups of two rows have been serialized. *)
Definition two_groups : outcome (ColumnarWriteState * Catalog) :=
  let opts := {| stripe_row_limit := 1000; chunk_group_row_limit := 2; compression_level := 3 |} in
  @columnar_write_rows identity_build sample_host sample_attrs
    (columnar_begin_write sample_attrs opts) empty_catalog
    (map (λ z, [Some (DatumVal z); Some (name_of z)]) [97; 98; 99; 50]).

Lemma flush_repeats_last_group_witness :
  ∃ st, two_groups = Ok (st, empty_catalog) ∧ w_chunk_group_count st = 2 ∧
  ∃ st' c', @flush_stripe identity_build sample_host sample_attrs st empty_catalog = Ok (st', c') ∧
    ∀ g j buf, 0 ≤ g < w_chunk_group_count st → column_buffers st !! j = Some buf →
      orochi_catalog_read_chunk_data c' 1 g (Z.of_nat j) =
        (if 0 <? compressed_size buf then compressed_data buf else None).
Proof.
  eexists. split; [vm_compute; reflexivity|]. split; [reflexivity|].
  apply (@flush_repeats_last_group identity_build sample_host sample_attrs).
  - reflexivity.
  - repeat constructor; vm_compute; congruence.
  - constructor.
  - vm_compute. congruence.
Defined.

Definition sample_entry : ColumnarSkipListEntry :=
  {| e_stripe_id := 1; e_chunk_group_index := 0; e_column_index := 0; e_min_value := 10;
     e_max_value := 20; e_row_count := 4; e_has_nulls := false |}.

Lemma skip_sound_witness :
  ¬ Forall (satisfies (λ col, if col =? 0 then Some 15 else None))
      [OpExpr Int4LessOperator [Var 1; Const false 10]].
Proof.
  apply (skip_sound sample_entry).
  - repeat constructor. vm_compute. congruence.
  - intros x [= <-]. vm_compute. split; congruence.
  - reflexivity.
Defined.

(** A table of one column that holds the keys 15 and 16. *)
Definition key_catalog : Catalog :=
  match @write_session identity_build sample_host (firstn 1 sample_attrs) sample_opts empty_catalog
          [[Some (DatumVal 15)]; [Some (DatumVal 16)]] with
  | Ok c => c
  | _ => empty_catalog
  end.

Lemma zero_bounds_skip_witness :
  let p := OpExpr Int8EqualOperator [Var 1; Const false 15] in
  length (chunks key_catalog) = 1%nat ∧
  vectorized_can_skip (columnar_build_skip_list key_catalog) 1 0 [p] = true.
Proof.
  split; [vm_compute; reflexivity|].
  apply (zero_bounds_skip key_catalog 0 Int8EqualOperator 15 [OpExpr Int8EqualOperator [Var 1; Const false 15]]).
  - decide_now.
  - by decide_now.
  - by left.
  - vm_compute. by repeat constructor.
Defined.

Lemma skip_unsound_constant_first_witness :
  let p := OpExpr Int8LessOperator [Const false 5; Var 1] in
  columnar_can_skip_chunk sample_entry [p] = true ∧
  satisfies (λ col, if col =? 0 then Some 15 else None) p.
Proof.
  apply (skip_unsound_constant_first sample_entry 5 15); vm_compute; [done|split; congruence].
Defined.

Lemma vectorized_scan_skips_later_groups_witness :
  vectorized_can_skip (columnar_build_skip_list empty_catalog) 1 1
    [OpExpr Int4EqualOperator [Var 1; Const false 12]] = true.
Proof. apply (vectorized_scan_skips_later_groups empty_catalog 1 1). lia. Defined.

(** A rescan returns the rows of a fully scanned table three times over: the
    buffers of the last group, that group again, then the table. *)
Example rescan_repeats :
  let cat := match @write_session identity_build sample_host sample_attrs sample_opts
                     empty_catalog (firstn 1 sample_rows) with Ok c => c | _ => empty_catalog end in
  let read := columnar_read_next_vector identity_build sample_attrs needed cat 10 in
  match read (columnar_begin_read sample_attrs cat) with
  | Ok (st, first) =>
      match read (columnar_rescan st) with
      | Ok (_, second) => length first = 1%nat ∧ second = first ++ first ++ first
      | _ => False
      end
  | _ => False
  end.
Proof. vm_compute. split; reflexivity. Qed.

Lemma row_itemptr_roundtrip M row :
  0 < M < 2 ^ 16 → 0 ≤ row < 2 ^ 32 * M →
  columnar_itemptr_to_row M (columnar_row_to_itemptr M row) = row.
Proof.
  intros HM Hr. unfold columnar_itemptr_to_row, columnar_row_to_itemptr. cbn [fst snd].
  rewrite Z.quot_div_nonneg, Z.rem_mod_nonneg by lia.
  assert (0 ≤ row / M < 2 ^ 32).
  { split; [apply Z.div_pos; lia|]. apply Z.div_lt_upper_bound; lia. }
  pose proof (Z.mod_pos_bound row M ltac:(lia)).
  rewrite !uwrap_id by (unfold in_u; lia). pose proof (Z.div_mod row M ltac:(lia)). lia.
Qed.
