(* ===== verification/Vector.v ===== *)
(** * Vector batches: filters, selections and aggregates

    Models [src/executor/vectorized.c] and the structures of
    [src/executor/vectorized.h].  A column is the bytes of its buffer and its null
    bitmap, so a kernel that reads it at another type sees what the code sees.
    Every kernel has its AVX2 and its scalar variant, chosen by [avx2] as
    [__AVX2__] chooses at compile time; the intrinsics are functions on lists of
    lanes.  Memory contexts, alignment and null batch pointers are not modelled. *)
From Stdlib Require Import Floats.SpecFloat Sorting.Sorted.
From stdpp Require Import sets.
From S2P Require Import Prelude Postgres Float.
Local Open Scope Z_scope.

(** ** Data *)

Inductive VectorizedCompareOp :=
| VECTORIZED_CMP_EQ | VECTORIZED_CMP_NE | VECTORIZED_CMP_LT | VECTORIZED_CMP_LE
| VECTORIZED_CMP_GT | VECTORIZED_CMP_GE | VECTORIZED_CMP_IS_NULL | VECTORIZED_CMP_IS_NOT_NULL.

Inductive VectorizedAggType :=
| VECTORIZED_AGG_COUNT | VECTORIZED_AGG_SUM | VECTORIZED_AGG_AVG | VECTORIZED_AGG_MIN
| VECTORIZED_AGG_MAX.

Inductive VectorizedDataType :=
| VECTORIZED_TYPE_INT32 | VECTORIZED_TYPE_INT64 | VECTORIZED_TYPE_FLOAT32
| VECTORIZED_TYPE_FLOAT64 | VECTORIZED_TYPE_BOOL | VECTORIZED_TYPE_STRING
| VECTORIZED_TYPE_TIMESTAMP | VECTORIZED_TYPE_DATE | VECTORIZED_TYPE_UNKNOWN.

#[export] Instance compare_op_eq_dec : EqDecision VectorizedCompareOp.
Proof. solve_decision. Defined.
#[export] Instance agg_type_eq_dec : EqDecision VectorizedAggType.
Proof. solve_decision. Defined.
#[export] Instance data_type_eq_dec : EqDecision VectorizedDataType.
Proof. solve_decision. Defined.

Record VectorColumn := {
  data_type : VectorizedDataType; type_len : Z; type_byval : bool; type_oid : Z;
  data : list Z; nulls : list Z; has_nulls : bool }.

(** [selection] is the first [selected_count] entries of the array. *)
Record VectorBatch := {
  capacity : Z; count : Z; column_count : Z; columns : list (option VectorColumn);
  selection : list Z; has_selection : bool; rows_processed : Z; rows_filtered : Z }.

Definition selected_count (b : VectorBatch) : Z := len (selection b).

Definition with_selection (b : VectorBatch) (sel : list Z) (has : bool) (filtered : Z)
    : VectorBatch :=
  {| capacity := capacity b; count := count b; column_count := column_count b;
     columns := columns b; selection := sel; has_selection := has;
     rows_processed := rows_processed b; rows_filtered := filtered |}.

Definition with_columns (b : VectorBatch) (n : Z) (cols : list (option VectorColumn)) : VectorBatch :=
  {| capacity := capacity b; count := n; column_count := column_count b; columns := cols;
     selection := selection b; has_selection := has_selection b;
     rows_processed := rows_processed b; rows_filtered := rows_filtered b |}.

Definition VECTORIZED_BATCH_SIZE : Z := 1024.
Definition VECTORIZED_MAX_COLUMNS : Z := 256.

(** ** Creating batches *)

Definition vector_batch_create (cap ncols : Z) : outcome VectorBatch :=
  let cap := if cap <? 1 then VECTORIZED_BATCH_SIZE else cap in
  if (ncols <? 1) || (VECTORIZED_MAX_COLUMNS <? ncols) then Err "invalid column count" else
  Ok {| capacity := cap; count := 0; column_count := ncols;
        columns := replicate (Z.to_nat ncols) None; selection := []; has_selection := false;
        rows_processed := 0; rows_filtered := 0 |}.

Definition forget_nulls (col : VectorColumn) : VectorColumn :=
  {| data_type := data_type col; type_len := type_len col; type_byval := type_byval col;
     type_oid := type_oid col; data := data col; nulls := nulls col; has_nulls := false |}.

(** The bits of the null bitmaps stay. *)
Definition vector_batch_reset (b : VectorBatch) : VectorBatch :=
  {| capacity := capacity b; count := 0; column_count := column_count b;
     columns := map (fmap forget_nulls) (columns b); selection := []; has_selection := false;
     rows_processed := rows_processed b; rows_filtered := rows_filtered b |}.

Definition type_size (t : VectorizedDataType) : Z :=
  match t with
  | VECTORIZED_TYPE_INT32 | VECTORIZED_TYPE_DATE | VECTORIZED_TYPE_FLOAT32 => 4
  | VECTORIZED_TYPE_INT64 | VECTORIZED_TYPE_TIMESTAMP | VECTORIZED_TYPE_FLOAT64 => 8
  | VECTORIZED_TYPE_BOOL => 1
  | VECTORIZED_TYPE_STRING => -1
  | VECTORIZED_TYPE_UNKNOWN => 8
  end.

Definition by_value (t : VectorizedDataType) : bool :=
  match t with VECTORIZED_TYPE_STRING | VECTORIZED_TYPE_UNKNOWN => false | _ => true end.

Definition vector_batch_add_column (b : VectorBatch) (ci : Z) (t : VectorizedDataType) (oid : Z)
    : outcome VectorBatch :=
  if (ci <? 0) || (column_count b <=? ci) then Err "invalid column index" else
  let size := capacity b * (if type_size t <? 0 then 8 else type_size t) in
  let col := {| data_type := t; type_len := type_size t; type_byval := by_value t; type_oid := oid;
                data := replicate (Z.to_nat size) 0;
                nulls := replicate (Z.to_nat ((capacity b + 63) / 64)) 0; has_nulls := false |} in
  Ok (with_columns b (count b) (<[Z.to_nat ci := Some col]> (columns b))).

Definition vectorized_type_from_oid (oid : Z) : VectorizedDataType :=
  if decide (oid = INT2OID ∨ oid = INT4OID) then VECTORIZED_TYPE_INT32
  else if decide (oid = INT8OID) then VECTORIZED_TYPE_INT64
  else if decide (oid = FLOAT4OID) then VECTORIZED_TYPE_FLOAT32
  else if decide (oid = FLOAT8OID) then VECTORIZED_TYPE_FLOAT64
  else if decide (oid = BOOLOID) then VECTORIZED_TYPE_BOOL
  else if decide (oid = TEXTOID ∨ oid = VARCHAROID ∨ oid = BPCHAROID) then VECTORIZED_TYPE_STRING
  else if decide (oid = TIMESTAMPOID ∨ oid = TIMESTAMPTZOID) then VECTORIZED_TYPE_TIMESTAMP
  else if decide (oid = DATEOID) then VECTORIZED_TYPE_DATE
  else VECTORIZED_TYPE_UNKNOWN.

(** ** Reading columns *)

(** The unsigned elements of [w] bytes in a buffer. *)
Fixpoint elements_loop (n : nat) (w : nat) (bytes : list Z) : list Z :=
  match n with
  | O => []
  | S n => le_dec (take w bytes) :: elements_loop n w (drop w bytes)
  end.

Definition elements (w : nat) (bytes : list Z) : list Z :=
  elements_loop (length bytes / w) w bytes.

Definition int64s (col : VectorColumn) : list Z := map (swrap 64) (elements 8 (data col)).
Definition int32s (col : VectorColumn) : list Z := map (swrap 32) (elements 4 (data col)).
Definition float64s (col : VectorColumn) : list spec_float := map double_of_bits (elements 8 (data col)).
Definition float32s (col : VectorColumn) : list spec_float := map single_of_bits (elements 4 (data col)).
Definition bools (col : VectorColumn) : list bool := map (λ x, negb (x =? 0)) (elements 1 (data col)).

Definition null_bit (words : list Z) (i : Z) : bool :=
  Z.testbit (nth (Z.to_nat (i / 64)) words 0) (i mod 64).

(** The null flags of the first [n] rows; a bitmap that is too short is read
    behind its end. *)
Definition row_nulls (col : VectorColumn) (n : Z) : outcome (list bool) :=
  if negb (has_nulls col) then Ok (replicate (Z.to_nat n) false) else
  if 64 * len (nulls col) <? n then Undef else Ok (map (null_bit (nulls col)) (seqZ 0 n)).

Definition get_column (b : VectorBatch) (ci : Z) : outcome VectorColumn :=
  if (ci <? 0) || (column_count b <=? ci) then Err "invalid batch or column index" else
  match columns b !! Z.to_nat ci with
  | Some (Some col) => Ok col
  | Some None => Err "column not initialized"
  | None => Undef
  end.

(** The rows of a column at a type: the null flag and what the buffer holds. *)
Definition load_rows {A} (view : VectorColumn → list A) (col : VectorColumn) (n : Z)
    : outcome (list (bool * A)) :=
  if len (view col) <? n then Undef else
  ns ← row_nulls col n; Ok (zip ns (take (Z.to_nat n) (view col))).

(** ** Selections *)

Definition init_full_selection (b : VectorBatch) : outcome VectorBatch :=
  if capacity b <? count b then Undef
  else Ok (with_selection b (seqZ 0 (count b)) true (rows_filtered b)).

Definition ensure_selection (b : VectorBatch) : outcome VectorBatch :=
  if has_selection b then Ok b else init_full_selection b.

Fixpoint compact (mask : list bool) (sel : list Z) : outcome (list Z) :=
  match sel with
  | [] => Ok []
  | i :: sel =>
      m ← deref (mask !! Z.to_nat i);
      rest ← compact mask sel;
      Ok (if m : bool then i :: rest else rest)
  end.

Definition compact_selection (b : VectorBatch) (mask : list bool) : outcome VectorBatch :=
  sel ← compact mask (selection b);
  Ok (with_selection b sel (has_selection b) (rows_filtered b + (selected_count b - len sel))).

(** The merge of two sorted selections. *)
Fixpoint merge_and (l1 : list Z) : list Z → list Z :=
  fix go (l2 : list Z) : list Z :=
    match l1, l2 with
    | x :: l1', y :: l2' =>
        if x =? y then x :: merge_and l1' l2'
        else if x <? y then merge_and l1' l2 else go l2'
    | _, _ => []
    end.

Fixpoint merge_or (l1 : list Z) : list Z → list Z :=
  fix go (l2 : list Z) : list Z :=
    match l1, l2 with
    | [], _ => l2
    | _, [] => l1
    | x :: l1', y :: l2' =>
        if x =? y then x :: merge_or l1' l2'
        else if x <? y then x :: merge_or l1' l2 else y :: go l2'
    end.

(** The buffer of the merge has room for [capacity] entries. *)
Definition set_merged (b : VectorBatch) (sel : list Z) : outcome VectorBatch :=
  if capacity b <? len sel then Undef
  else Ok (with_selection b sel (has_selection b) (rows_filtered b)).

Definition vectorized_selection_and (b : VectorBatch) (other : list Z) : outcome VectorBatch :=
  b ← ensure_selection b; set_merged b (merge_and (selection b) other).

Definition vectorized_selection_or (b : VectorBatch) (other : list Z) : outcome VectorBatch :=
  if negb (has_selection b) then Ok b else set_merged b (merge_or (selection b) other).

(** ** Lanes of a 256-bit register *)

Abbreviation lanes := (list Z).

Definition mm_set1 (n : nat) (v : Z) : lanes := replicate n v.
Definition mm_cmpeq (a b : lanes) : lanes := zip_with (λ x y, if x =? y then -1 else 0) a b.
Definition mm_cmpgt (a b : lanes) : lanes := zip_with (λ x y, if y <? x then -1 else 0) a b.
Definition mm_xor (a b : lanes) : lanes := zip_with Z.lxor a b.
Definition mm_add64 (a b : lanes) : lanes := zip_with (λ x y, i64 (x + y)) a b.
Definition lane_mask (r : lanes) : list bool := map (λ x, negb (x =? 0)) r.

Abbreviation flanes := (list spec_float).
Definition mm_cmp_pd (p : spec_float → spec_float → bool) (a b : flanes) : lanes :=
  zip_with (λ x y, if p x y then -1 else 0) a b.
(** [_CMP_NEQ_OQ] is ordered: false on NaN. *)
Definition NEQ_OQ (x y : spec_float) : bool := flt x y || flt y x.

(** The loop over full registers and the loop over the rest. *)
Fixpoint simd_loop {A B} (fuel n : nat) (block : list A → outcome (list B)) (tail : A → B)
    (xs : list A) : outcome (list B) :=
  match fuel with
  | O => Ok (map tail xs)
  | S fuel =>
      if decide (n ≤ length xs)%nat then
        r ← block (take n xs); rest ← simd_loop fuel n block tail (drop n xs); Ok (r ++ rest)
      else Ok (map tail xs)
  end.

Definition clear_nulls (ns : list bool) (mask : list bool) : list bool :=
  zip_with (λ n m, if n : bool then false else m) ns mask.

(** ** Filters *)

Definition cmp_int (op : VectorizedCompareOp) (x value : Z) : bool :=
  match op with
  | VECTORIZED_CMP_EQ => x =? value
  | VECTORIZED_CMP_NE => negb (x =? value)
  | VECTORIZED_CMP_LT => x <? value
  | VECTORIZED_CMP_LE => x <=? value
  | VECTORIZED_CMP_GT => value <? x
  | VECTORIZED_CMP_GE => value <=? x
  | _ => false
  end.

Definition cmp_float (op : VectorizedCompareOp) (x value : spec_float) : bool :=
  match op with
  | VECTORIZED_CMP_EQ => feq x value
  | VECTORIZED_CMP_NE => fne x value
  | VECTORIZED_CMP_LT => flt x value
  | VECTORIZED_CMP_LE => fle x value
  | VECTORIZED_CMP_GT => flt value x
  | VECTORIZED_CMP_GE => fle value x
  | _ => false
  end.

Definition scalar_mask {A} (p : A → bool) (rows : list (bool * A)) : list bool :=
  map (λ '(n, x), if n : bool then false else p x) rows.

Definition avx_cmp_int64 (op : VectorizedCompareOp) (value : Z) (v : lanes) : outcome lanes :=
  let val := mm_set1 4 value in
  let not r := mm_xor r (mm_set1 4 (-1)) in
  match op with
  | VECTORIZED_CMP_EQ => Ok (mm_cmpeq v val)
  | VECTORIZED_CMP_GT => Ok (mm_cmpgt v val)
  | VECTORIZED_CMP_LT => Ok (mm_cmpgt val v)
  | VECTORIZED_CMP_GE => Ok (not (mm_cmpgt val v))
  | VECTORIZED_CMP_LE => Ok (not (mm_cmpgt v val))
  | VECTORIZED_CMP_NE => Ok (not (mm_cmpeq v val))
  | _ => Err "unsupported comparison operator"
  end.

Definition avx_predicate (op : VectorizedCompareOp) : option (spec_float → spec_float → bool) :=
  match op with
  | VECTORIZED_CMP_EQ => Some feq
  | VECTORIZED_CMP_NE => Some NEQ_OQ
  | VECTORIZED_CMP_LT => Some flt
  | VECTORIZED_CMP_LE => Some fle
  | VECTORIZED_CMP_GT => Some (λ x y, flt y x)
  | VECTORIZED_CMP_GE => Some (λ x y, fle y x)
  | _ => None
  end.

Definition simd_mask {A} (n : nat) (block : list A → outcome (list bool)) (p : A → bool)
    (rows : list (bool * A)) : outcome (list bool) :=
  mask ← simd_loop (length rows) n block p rows.*2; Ok (clear_nulls rows.*1 mask).

Definition filter_int64_avx2 (b : VectorBatch) (col : VectorColumn) (op : VectorizedCompareOp)
    (value : Z) : outcome VectorBatch :=
  b ← ensure_selection b;
  rows ← load_rows int64s col (count b);
  mask ← simd_mask 4 (λ v, r ← avx_cmp_int64 op value v; Ok (lane_mask r))
           (λ x, cmp_int op x value) rows;
  compact_selection b mask.

Definition filter_int64_scalar (b : VectorBatch) (col : VectorColumn) (op : VectorizedCompareOp)
    (value : Z) : outcome VectorBatch :=
  b ← ensure_selection b;
  rows ← load_rows int64s col (count b);
  compact_selection b (scalar_mask (λ x, cmp_int op x value) rows).

Definition filter_float64_avx2 (b : VectorBatch) (col : VectorColumn) (op : VectorizedCompareOp)
    (value : spec_float) : outcome VectorBatch :=
  b ← ensure_selection b;
  rows ← load_rows float64s col (count b);
  mask ← simd_mask 4 (λ v, match avx_predicate op with
                           | Some p => Ok (lane_mask (mm_cmp_pd p v (replicate 4 value)))
                           | None => Err "unsupported comparison operator"
                           end) (λ x, cmp_float op x value) rows;
  compact_selection b mask.

Definition filter_float64_scalar (b : VectorBatch) (col : VectorColumn) (op : VectorizedCompareOp)
    (value : spec_float) : outcome VectorBatch :=
  b ← ensure_selection b;
  rows ← load_rows float64s col (count b);
  compact_selection b (scalar_mask (λ x, cmp_float op x value) rows).

(** The operators of the 32-bit kernel that leave no [goto scalar_fallback]. *)
Definition avx_cmp_int32 (op : VectorizedCompareOp) (value : Z) (v : lanes) : option lanes :=
  let val := mm_set1 8 value in
  match op with
  | VECTORIZED_CMP_EQ => Some (mm_cmpeq v val)
  | VECTORIZED_CMP_GT => Some (mm_cmpgt v val)
  | VECTORIZED_CMP_LT => Some (mm_cmpgt val v)
  | _ => None
  end.

Section build.
Context (avx2 : bool).

Definition vectorized_filter_int64 (b : VectorBatch) (ci : Z) (op : VectorizedCompareOp)
    (value : Z) : outcome VectorBatch :=
  col ← get_column b ci;
  if avx2 then filter_int64_avx2 b col op value else filter_int64_scalar b col op value.

Definition vectorized_filter_float64 (b : VectorBatch) (ci : Z) (op : VectorizedCompareOp)
    (value : spec_float) : outcome VectorBatch :=
  col ← get_column b ci;
  if avx2 then filter_float64_avx2 b col op value else filter_float64_scalar b col op value.

Definition int32_mask (op : VectorizedCompareOp) (value : Z) (rows : list (bool * Z))
    : outcome (list bool) :=
  let scalar := Ok (scalar_mask (λ x, cmp_int op x value) rows) in
  if avx2 then
    match avx_cmp_int32 op value [] with
    | None => scalar
    | Some _ => simd_mask 8 (λ v, Ok (lane_mask (default [] (avx_cmp_int32 op value v))))
                  (λ x, cmp_int op x value) rows
    end
  else scalar.

Definition vectorized_filter_int32 (b : VectorBatch) (ci : Z) (op : VectorizedCompareOp)
    (value : Z) : outcome VectorBatch :=
  col ← get_column b ci;
  b ← ensure_selection b;
  rows ← load_rows int32s col (count b);
  mask ← int32_mask op value rows;
  compact_selection b mask.

Definition float32_block (op : VectorizedCompareOp) (value : spec_float) (v : flanes) : lanes :=
  match avx_predicate op with
  | Some p => mm_cmp_pd p v (replicate 8 value)
  | None => mm_set1 8 0
  end.

Definition vectorized_filter_float32 (b : VectorBatch) (ci : Z) (op : VectorizedCompareOp)
    (value : spec_float) : outcome VectorBatch :=
  col ← get_column b ci;
  b ← ensure_selection b;
  rows ← load_rows float32s col (count b);
  mask ← (if avx2 then simd_mask 8 (λ v, Ok (lane_mask (float32_block op value v)))
                         (λ x, cmp_float op x value) rows
          else Ok (scalar_mask (λ x, cmp_float op x value) rows));
  compact_selection b mask.

Record VectorizedFilterState := {
  f_column_index : Z; f_compare_op : VectorizedCompareOp; f_data_type : VectorizedDataType;
  f_const_value : Z }.

Definition vectorized_filter_generic (b : VectorBatch) (f : VectorizedFilterState)
    : outcome VectorBatch :=
  let ci := f_column_index f in let op := f_compare_op f in let v := f_const_value f in
  match f_data_type f with
  | VECTORIZED_TYPE_INT64 | VECTORIZED_TYPE_TIMESTAMP => vectorized_filter_int64 b ci op (i64 v)
  | VECTORIZED_TYPE_INT32 | VECTORIZED_TYPE_DATE => vectorized_filter_int32 b ci op (i32 v)
  | VECTORIZED_TYPE_FLOAT64 => vectorized_filter_float64 b ci op (double_of_bits (u64 v))
  | VECTORIZED_TYPE_FLOAT32 => vectorized_filter_float32 b ci op (single_of_bits (u32 v))
  | _ => Err "vectorized filter not supported for this data type"
  end.
End build.

(** ** Sums *)

(** A loop over the rows, or over the selected rows, that skips nulls. *)
Definition fold_rows {A S} (f : S → A → S) (s : S) (rows : list (bool * A)) : S :=
  foldl (λ s '(n, x), if n : bool then s else f s x) s rows.

Fixpoint fold_selected {A S} (f : S → A → S) (s : S) (rows : list (bool * A)) (sel : list Z)
    : outcome S :=
  match sel with
  | [] => Ok s
  | i :: sel => r ← deref (rows !! Z.to_nat i); fold_selected f (fold_rows f s [r]) rows sel
  end.

Definition fold_column {A S} (f : S → A → S) (s : S) (b : VectorBatch) (rows : list (bool * A))
    : outcome S :=
  if has_selection b then fold_selected f s rows (selection b) else Ok (fold_rows f s rows).

Fixpoint simd_fold {A L} (fuel n : nat) (block : L → list A → L) (acc : L) (xs : list A) : L :=
  match fuel with
  | O => acc
  | S fuel =>
      if decide (n ≤ length xs)%nat
      then simd_fold fuel n block (block acc (take n xs)) (drop n xs) else acc
  end.

(** The registers over the full blocks, nulls included, the horizontal sum, the
    rest, and the nulls of the blocks taken off again. *)
Definition simd_sum {A L S} (n : nat) (block : L → list A → L) (zero : L) (horizontal : L → S)
    (add sub : S → A → S) (rows : list (bool * A)) : S :=
  let k := (length rows / n * n)%nat in
  let s := horizontal (simd_fold (length rows) n block zero rows.*2) in
  let s := fold_rows add s (drop k rows) in
  foldl (λ s '(isnull, x), if isnull : bool then sub s x else s) s (take k rows).

Definition add64 (s x : Z) : Z := i64 (s + x).
Definition sub64 (s x : Z) : Z := i64 (s - x).
Definition horizontal64 (v : lanes) : Z := foldl add64 0 v.
Definition dadd (s x : spec_float) : spec_float := fadd binary64 s x.
Definition dsub (s x : spec_float) : spec_float := fsub binary64 s x.
Definition mm_add_pd (a b : flanes) : flanes := zip_with dadd a b.
Definition zero64 : spec_float := S754_zero false.

(** [_mm_hadd_pd] of the sum of the upper and the lower half. *)
Definition horizontal_pd (v : flanes) : spec_float :=
  match mm_add_pd (drop 2 v) (take 2 v) with
  | [x; y] => dadd x y
  | _ => S754_nan
  end.

Definition widen (x : spec_float) : spec_float := convert binary64 x.
Definition dadd_single (s x : spec_float) : spec_float := dadd s (widen x).
Definition dsub_single (s x : spec_float) : spec_float := dsub s (widen x).

(** Eight 32-bit lanes are added as two registers of 64-bit lanes. *)
Definition add_halves {A} (add : list A → list A → list A) (acc v : list A) : list A :=
  add (add acc (take 4 v)) (drop 4 v).

Definition sum_int64_scalar (b : VectorBatch) (col : VectorColumn) : outcome Z :=
  rows ← load_rows int64s col (count b); fold_column add64 0 b rows.

Definition sum_int64_avx2 (b : VectorBatch) (col : VectorColumn) : outcome Z :=
  rows ← load_rows int64s col (count b);
  if has_selection b then fold_selected add64 0 rows (selection b)
  else Ok (simd_sum 4 mm_add64 (mm_set1 4 0) horizontal64 add64 sub64 rows).

Definition sum_float64_scalar (b : VectorBatch) (col : VectorColumn) : outcome spec_float :=
  rows ← load_rows float64s col (count b); fold_column dadd zero64 b rows.

Definition sum_float64_avx2 (b : VectorBatch) (col : VectorColumn) : outcome spec_float :=
  rows ← load_rows float64s col (count b);
  if has_selection b then fold_selected dadd zero64 rows (selection b)
  else Ok (simd_sum 4 mm_add_pd (replicate 4 zero64) horizontal_pd dadd dsub rows).

(** ** Counts, minima and maxima *)

Definition vectorized_count (b : VectorBatch) : Z :=
  if has_selection b then selected_count b else count b.

(** A column that does not exist counts as empty. *)
Definition lookup_column (b : VectorBatch) (ci : Z) : option VectorColumn :=
  if (ci <? 0) || (column_count b <=? ci) then None else mjoin (columns b !! Z.to_nat ci).

Definition vectorized_count_column (b : VectorBatch) (ci : Z) : outcome Z :=
  match lookup_column b ci with
  | None => Ok 0
  | Some col =>
      if negb (has_nulls col) then Ok (vectorized_count b)
      else ns ← row_nulls col (count b);
           fold_column (λ s _, s + 1) 0 b (zip ns (seqZ 0 (count b)))
  end.

(** The running minimum or maximum and whether a value replaced the start. *)
Definition improve {A} (better : A → A → bool) (s : A * bool) (x : A) : A * bool :=
  if better x s.1 then (x, true) else s.

Definition extremum {A} (view : VectorColumn → list A) (better : A → A → bool) (start none : A)
    (b : VectorBatch) (ci : Z) : outcome (A * bool) :=
  match lookup_column b ci with
  | None => Ok (none, false)
  | Some col =>
      rows ← load_rows view col (count b); fold_column (improve better) (start, false) b rows
  end.

Definition vectorized_min_int64 := extremum int64s (λ x m, x <? m) INT64_MAX 0.
Definition vectorized_max_int64 := extremum int64s (λ x m, m <? x) INT64_MIN 0.
Definition vectorized_min_float64 := extremum float64s (λ x m, flt x m) DBL_MAX zero64.
Definition vectorized_max_float64 := extremum float64s (λ x m, flt m x) (SFopp DBL_MAX) zero64.

Section build_sums.
Context (avx2 : bool).

Definition vectorized_sum_int64 (b : VectorBatch) (ci : Z) : outcome Z :=
  col ← get_column b ci; if avx2 then sum_int64_avx2 b col else sum_int64_scalar b col.

Definition vectorized_sum_float64 (b : VectorBatch) (ci : Z) : outcome spec_float :=
  col ← get_column b ci; if avx2 then sum_float64_avx2 b col else sum_float64_scalar b col.

Definition vectorized_sum_int32 (b : VectorBatch) (ci : Z) : outcome Z :=
  col ← get_column b ci;
  rows ← load_rows int32s col (count b);
  if avx2 && negb (has_selection b)
  then Ok (simd_sum 8 (add_halves mm_add64) (mm_set1 4 0) horizontal64 add64 sub64 rows)
  else fold_column add64 0 b rows.

Definition vectorized_sum_float32 (b : VectorBatch) (ci : Z) : outcome spec_float :=
  col ← get_column b ci;
  rows ← load_rows float32s col (count b);
  if avx2 && negb (has_selection b)
  then Ok (simd_sum 8 (λ acc v, add_halves mm_add_pd acc (map widen v)) (replicate 4 zero64)
             horizontal_pd dadd_single dsub_single rows)
  else fold_column dadd_single zero64 b rows.

(** ** Aggregates *)

Record VectorizedAggState := {
  agg_type : VectorizedAggType; a_column_index : Z; a_data_type : VectorizedDataType;
  a_count : Z; sum_int64 : Z; sum_float64 : spec_float; min_int64 : Z; max_int64 : Z;
  min_float64 : spec_float; max_float64 : spec_float; has_value : bool }.

Definition with_count (s : VectorizedAggState) (n : Z) : VectorizedAggState :=
  {| agg_type := agg_type s; a_column_index := a_column_index s; a_data_type := a_data_type s;
     a_count := n; sum_int64 := sum_int64 s; sum_float64 := sum_float64 s;
     min_int64 := min_int64 s; max_int64 := max_int64 s; min_float64 := min_float64 s;
     max_float64 := max_float64 s; has_value := has_value s |}.

Definition with_sum (s : VectorizedAggState) (i : Z) (f : spec_float) : VectorizedAggState :=
  {| agg_type := agg_type s; a_column_index := a_column_index s; a_data_type := a_data_type s;
     a_count := a_count s; sum_int64 := i; sum_float64 := f;
     min_int64 := min_int64 s; max_int64 := max_int64 s; min_float64 := min_float64 s;
     max_float64 := max_float64 s; has_value := true |}.

Definition with_int_bounds (s : VectorizedAggState) (lo hi : Z) : VectorizedAggState :=
  {| agg_type := agg_type s; a_column_index := a_column_index s; a_data_type := a_data_type s;
     a_count := a_count s; sum_int64 := sum_int64 s; sum_float64 := sum_float64 s;
     min_int64 := lo; max_int64 := hi; min_float64 := min_float64 s;
     max_float64 := max_float64 s; has_value := true |}.

Definition with_float_bounds (s : VectorizedAggState) (lo hi : spec_float) : VectorizedAggState :=
  {| agg_type := agg_type s; a_column_index := a_column_index s; a_data_type := a_data_type s;
     a_count := a_count s; sum_int64 := sum_int64 s; sum_float64 := sum_float64 s;
     min_int64 := min_int64 s; max_int64 := max_int64 s; min_float64 := lo;
     max_float64 := hi; has_value := true |}.

Definition add_sum (s : VectorizedAggState) (b : VectorBatch) : outcome VectorizedAggState :=
  let ci := a_column_index s in
  match a_data_type s with
  | VECTORIZED_TYPE_INT64 | VECTORIZED_TYPE_TIMESTAMP =>
      v ← vectorized_sum_int64 b ci; Ok (with_sum s (add64 (sum_int64 s) v) (sum_float64 s))
  | VECTORIZED_TYPE_INT32 | VECTORIZED_TYPE_DATE =>
      v ← vectorized_sum_int32 b ci; Ok (with_sum s (add64 (sum_int64 s) v) (sum_float64 s))
  | VECTORIZED_TYPE_FLOAT64 =>
      v ← vectorized_sum_float64 b ci; Ok (with_sum s (sum_int64 s) (dadd (sum_float64 s) v))
  | VECTORIZED_TYPE_FLOAT32 =>
      v ← vectorized_sum_float32 b ci; Ok (with_sum s (sum_int64 s) (dadd (sum_float64 s) v))
  | _ => Ok s
  end.

(** The sum of an average is kept as a double. *)
Definition add_average (s : VectorizedAggState) (b : VectorBatch) : outcome VectorizedAggState :=
  let ci := a_column_index s in
  let plus v := Ok (with_sum s (sum_int64 s) (dadd (sum_float64 s) v)) in
  match a_data_type s with
  | VECTORIZED_TYPE_INT64 | VECTORIZED_TYPE_TIMESTAMP =>
      v ← vectorized_sum_int64 b ci; plus (float_of_Z binary64 v)
  | VECTORIZED_TYPE_INT32 | VECTORIZED_TYPE_DATE =>
      v ← vectorized_sum_int32 b ci; plus (float_of_Z binary64 v)
  | VECTORIZED_TYPE_FLOAT64 => v ← vectorized_sum_float64 b ci; plus v
  | VECTORIZED_TYPE_FLOAT32 => v ← vectorized_sum_float32 b ci; plus v
  | _ => Ok s
  end.

Definition replace_min (s : VectorizedAggState) (r : Z * bool) : VectorizedAggState :=
  if r.2 && (negb (has_value s) || (r.1 <? min_int64 s))
  then with_int_bounds s r.1 (max_int64 s) else s.
Definition replace_max (s : VectorizedAggState) (r : Z * bool) : VectorizedAggState :=
  if r.2 && (negb (has_value s) || (max_int64 s <? r.1))
  then with_int_bounds s (min_int64 s) r.1 else s.
Definition replace_fmin (s : VectorizedAggState) (r : spec_float * bool) : VectorizedAggState :=
  if r.2 && (negb (has_value s) || flt r.1 (min_float64 s))
  then with_float_bounds s r.1 (max_float64 s) else s.
Definition replace_fmax (s : VectorizedAggState) (r : spec_float * bool) : VectorizedAggState :=
  if r.2 && (negb (has_value s) || flt (max_float64 s) r.1)
  then with_float_bounds s (min_float64 s) r.1 else s.

Definition vectorized_agg_update (s : VectorizedAggState) (b : VectorBatch)
    : outcome VectorizedAggState :=
  let ci := a_column_index s in
  match agg_type s with
  | VECTORIZED_AGG_COUNT =>
      if ci <? 0 then Ok (with_count s (i64 (a_count s + vectorized_count b)))
      else n ← vectorized_count_column b ci; Ok (with_count s (i64 (a_count s + n)))
  | VECTORIZED_AGG_SUM => add_sum s b
  | VECTORIZED_AGG_MIN =>
      match a_data_type s with
      | VECTORIZED_TYPE_INT64 | VECTORIZED_TYPE_TIMESTAMP =>
          r ← vectorized_min_int64 b ci; Ok (replace_min s r)
      | VECTORIZED_TYPE_FLOAT64 => r ← vectorized_min_float64 b ci; Ok (replace_fmin s r)
      | _ => Ok s
      end
  | VECTORIZED_AGG_MAX =>
      match a_data_type s with
      | VECTORIZED_TYPE_INT64 | VECTORIZED_TYPE_TIMESTAMP =>
          r ← vectorized_max_int64 b ci; Ok (replace_max s r)
      | VECTORIZED_TYPE_FLOAT64 => r ← vectorized_max_float64 b ci; Ok (replace_fmax s r)
      | _ => Ok s
      end
  | VECTORIZED_AGG_AVG =>
      n ← vectorized_count_column b ci;
      add_average (with_count s (i64 (a_count s + n))) b
  end.

(** [None] is the SQL NULL. *)
Definition vectorized_agg_finalize (s : VectorizedAggState) : option Datum :=
  let int z := Some (DatumVal (u64 z)) in
  let double x := Some (DatumVal (bits_of_double x)) in
  match agg_type s with
  | VECTORIZED_AGG_COUNT => int (a_count s)
  | VECTORIZED_AGG_SUM =>
      if negb (has_value s) then None else
      match a_data_type s with
      | VECTORIZED_TYPE_INT64 | VECTORIZED_TYPE_INT32 | VECTORIZED_TYPE_TIMESTAMP
      | VECTORIZED_TYPE_DATE => int (sum_int64 s)
      | VECTORIZED_TYPE_FLOAT64 | VECTORIZED_TYPE_FLOAT32 => double (sum_float64 s)
      | _ => None
      end
  | VECTORIZED_AGG_AVG =>
      if negb (has_value s) || (a_count s =? 0) then None
      else double (fdiv binary64 (sum_float64 s) (float_of_Z binary64 (a_count s)))
  | VECTORIZED_AGG_MIN =>
      if negb (has_value s) then None else
      match a_data_type s with
      | VECTORIZED_TYPE_INT64 | VECTORIZED_TYPE_TIMESTAMP => int (min_int64 s)
      | VECTORIZED_TYPE_FLOAT64 => double (min_float64 s)
      | _ => None
      end
  | VECTORIZED_AGG_MAX =>
      if negb (has_value s) then None else
      match a_data_type s with
      | VECTORIZED_TYPE_INT64 | VECTORIZED_TYPE_TIMESTAMP => int (max_int64 s)
      | VECTORIZED_TYPE_FLOAT64 => double (max_float64 s)
      | _ => None
      end
  end.
End build_sums.

(** ** The SIMD kernels compute what the scalar kernels compute *)

Lemma simd_loop_map {A B} (P : A → Prop) fuel n (block : list A → outcome (list B)) tail xs :
  (∀ v, length v = n → Forall P v → block v = Ok (map tail v)) → Forall P xs →
  simd_loop fuel n block tail xs = Ok (map tail xs).
Proof.
  intros Hb. revert xs. induction fuel as [|fuel IH]; intros xs Hxs; [done|]. cbn.
  destruct (decide _) as [Hn|]; [|done].
  rewrite Hb; [|rewrite length_take; lia|by apply Forall_take]. cbn.
  rewrite IH by by apply Forall_drop. cbn. by rewrite <- map_app, take_drop.
Qed.

Lemma clear_nulls_scalar {A} (p : A → bool) (rows : list (bool * A)) :
  clear_nulls rows.*1 (map p rows.*2) = scalar_mask p rows.
Proof. induction rows as [|[n x] rows IH]; [done|]. cbn. by f_equal. Qed.

Lemma simd_mask_scalar {A} (P : A → Prop) n (block : list A → outcome (list bool)) p
    (rows : list (bool * A)) :
  (∀ v, length v = n → Forall P v → block v = Ok (map p v)) → Forall P rows.*2 →
  simd_mask n block p rows = Ok (scalar_mask p rows).
Proof.
  intros Hb HP. unfold simd_mask. rewrite (simd_loop_map P) by done. cbn.
  by rewrite clear_nulls_scalar.
Qed.

Definition is_comparison (op : VectorizedCompareOp) : bool :=
  match op with VECTORIZED_CMP_IS_NULL | VECTORIZED_CMP_IS_NOT_NULL => false | _ => true end.

(** Lanes against a constant, one by one. *)
Lemma zip_with_const {A B C} (f : A → B → C) (v : list A) (c : B) n :
  length v = n → zip_with f v (replicate n c) = map (λ x, f x c) v.
Proof. intros <-. induction v; cbn; by f_equal. Qed.

Lemma zip_const_with {A B C} (f : A → B → C) (v : list B) (c : A) n :
  length v = n → zip_with f (replicate n c) v = map (λ x, f c x) v.
Proof. intros <-. induction v; cbn; by f_equal. Qed.

Ltac lanes :=
  unfold mm_cmpeq, mm_cmpgt, mm_xor, mm_set1, mm_cmp_pd;
  repeat first [rewrite zip_with_const by (rewrite ?length_map, ?length_zip_with, ?length_replicate; lia)
               |rewrite zip_const_with by (rewrite ?length_map, ?length_zip_with, ?length_replicate; lia)];
  unfold lane_mask; rewrite ?map_map; apply map_ext; intros; cbn.

Lemma avx_cmp_int64_lanes op value v :
  is_comparison op = true → length v = 4%nat →
  ∃ r, avx_cmp_int64 op value v = Ok r ∧ lane_mask r = map (λ x, cmp_int op x value) v.
Proof.
  intros Hop Hv. destruct op; try done; eexists; (split; [reflexivity|]); lanes.
  all: rewrite ?Z.leb_antisym.
  all: repeat match goal with |- context [if ?c then _ else _] => destruct c end; done.
Qed.

Lemma avx_cmp_int32_lanes op value v r :
  avx_cmp_int32 op value v = Some r → length v = 8%nat →
  lane_mask r = map (λ x, cmp_int op x value) v.
Proof.
  intros Hr Hv. replace r with (default [] (avx_cmp_int32 op value v)) by by rewrite Hr.
  destruct op; try discriminate Hr; cbn [avx_cmp_int32 default from_option id]; clear Hr; unfold id; lanes.
  all: by destruct_if.
Qed.

Lemma avx_float_lanes p op value v n :
  avx_predicate op = Some p → length v = n →
  (∀ x, x ∈ v → p x value = cmp_float op x value) →
  lane_mask (mm_cmp_pd p v (replicate n value)) = map (λ x, cmp_float op x value) v.
Proof.
  intros Hp Hv Hx. unfold mm_cmp_pd. rewrite zip_with_const by done.
  unfold lane_mask. rewrite map_map. apply map_ext_in. intros x Hin. apply list_elem_of_In in Hin.
  rewrite <- Hx by done. by destruct (p x value).
Qed.

Lemma SFcompare_swap x y : SFcompare y x = CompOpp <$> SFcompare x y.
Proof.
  destruct x as [s|s| |s m e], y as [s'|s'| |s' m' e']; cbn;
    try (by destruct s); try (by destruct s'); try (by destruct s, s'); try done.
  rewrite (Z.compare_antisym e e').
  destruct s, s'; cbn; try done; destruct (e ?= e'); cbn; try done.
  all: by rewrite (Pos.compare_cont_antisym m m' Eq); destruct (Pos.compare_cont _ _ _).
Qed.

Lemma SFcompare_not_nan x y :
  is_nan x = false → is_nan y = false → SFcompare x y ≠ None.
Proof. destruct x as [|[]| |[]], y as [|[]| |[]]; done. Qed.

Lemma NEQ_OQ_fne x y : is_nan x = false → is_nan y = false → NEQ_OQ x y = fne x y.
Proof.
  intros Hx Hy. pose proof (SFcompare_not_nan x y Hx Hy).
  unfold NEQ_OQ, fne, flt, SFltb, SFeqb. rewrite (SFcompare_swap x y).
  by destruct (SFcompare x y) as [[]|].
Qed.

(** The vector comparison of two numbers is the scalar one, but for [!=] on NaN. *)
Lemma avx_predicate_exact op p x value :
  avx_predicate op = Some p →
  (op = VECTORIZED_CMP_NE → is_nan x = false ∧ is_nan value = false) →
  p x value = cmp_float op x value.
Proof.
  intros Hp Hne. destruct op; cbn in Hp; try done; injection Hp as <-; try done.
  destruct Hne; [done|]. by apply NEQ_OQ_fne.
Qed.

(** ** Batches and filters as sets of rows *)

Definition rows_selected (b : VectorBatch) : list Z :=
  if has_selection b then selection b else seqZ 0 (count b).

(** The selection is a strictly increasing list of row numbers. *)
Definition batch_ok (b : VectorBatch) : Prop :=
  0 ≤ count b ≤ capacity b ∧
  (has_selection b = true →
   StronglySorted Z.lt (selection b) ∧ Forall (λ i, 0 ≤ i < count b) (selection b)).

Lemma seqZ_sorted m n : StronglySorted Z.lt (seqZ m n).
Proof.
  destruct (decide (0 ≤ n)) as [Hn|]; [|rewrite seqZ_nil by lia; constructor].
  revert m. pattern n. apply natlike_ind; [| |done].
  - intros. rewrite seqZ_nil by lia. constructor.
  - intros k Hk IH m. rewrite <- (Z.pred_succ k) at 1. rewrite seqZ_cons, !Z.pred_succ by lia.
    constructor; [apply IH|]. apply Forall_forall. intros i Hi%elem_of_seqZ. lia.
Qed.

Lemma rows_selected_ok b :
  batch_ok b →
  StronglySorted Z.lt (rows_selected b) ∧ Forall (λ i, 0 ≤ i < count b) (rows_selected b).
Proof.
  intros [Hc Hs]. unfold rows_selected. destruct (has_selection b); [by apply Hs|].
  split; [apply seqZ_sorted|]. apply Forall_forall. intros i Hi%elem_of_seqZ. lia.
Qed.

(** What the operations leave of a batch but its selection. *)
Definition same_rows (b b' : VectorBatch) : Prop :=
  capacity b' = capacity b ∧ count b' = count b ∧ column_count b' = column_count b ∧
  columns b' = columns b.

Lemma same_rows_refl b : same_rows b b. Proof. done. Qed.
Lemma same_rows_trans b b' b'' : same_rows b b' → same_rows b' b'' → same_rows b b''.
Proof. unfold same_rows. naive_solver congruence. Qed.

#[export] Instance same_rows_preorder : PreOrder same_rows.
Proof. split; [intros b; apply same_rows_refl|intros b b' b''; apply same_rows_trans]. Qed.

Lemma Forall_filter_intro {A} (P Q : A → Prop) `{∀ x, Decision (P x)} l :
  Forall Q l → Forall Q (filter P l).
Proof.
  rewrite !Forall_forall. intros HQ x [_ Hx]%list_elem_of_filter. by apply HQ.
Qed.

Lemma sorted_filter (P : Z → Prop) `{∀ x, Decision (P x)} l :
  StronglySorted Z.lt l → StronglySorted Z.lt (filter P l).
Proof.
  induction 1 as [|x l Hl IH Hx]; [constructor|]. rewrite filter_cons.
  case_decide; [|done]. constructor; [done|]. by apply Forall_filter_intro.
Qed.

(** A sorted list of row numbers below [n] has at most [n] entries. *)
Lemma sorted_length l lo n :
  StronglySorted Z.lt l → Forall (λ i, lo ≤ i < n) l → lo ≤ n → len l ≤ n - lo.
Proof.
  intros Hl. revert lo. induction Hl as [|x l Hl IH Hx]; intros lo Hb Hlo; [cbn; lia|].
  apply Forall_cons in Hb as [Hxb Hb]. cbn [length]. rewrite Nat2Z.inj_succ.
  assert (len l ≤ n - (x + 1)); [|lia]. apply IH; [|lia].
  apply Forall_forall. intros i Hi. rewrite Forall_forall in Hb, Hx.
  specialize (Hb i Hi). specialize (Hx i Hi). cbn in Hb. lia.
Qed.

Lemma ensure_selection_ok b :
  batch_ok b →
  ∃ b', ensure_selection b = Ok b' ∧ has_selection b' = true ∧
        selection b' = rows_selected b ∧ same_rows b b'.
Proof.
  intros [Hc Hs]. unfold ensure_selection, rows_selected.
  destruct (has_selection b) eqn:Hh; [by exists b|]. unfold init_full_selection.
  destruct (Z.ltb_spec (capacity b) (count b)); [lia|]. by eexists.
Qed.

Lemma compact_filter mask sel :
  Forall (λ i, 0 ≤ i < len mask) sel →
  compact mask sel = Ok (filter (λ i, mask !! Z.to_nat i = Some true) sel).
Proof.
  induction 1 as [|i sel Hi Hsel IH]; [done|]. cbn [compact]. rewrite filter_cons.
  destruct (lookup_lt_is_Some_2 mask (Z.to_nat i)) as [m Hm]; [lia|].
  rewrite Hm, IH. cbn. destruct m; [by rewrite decide_True|by rewrite decide_False].
Qed.

(** Every filter ends in these two steps. *)
Lemma masked_selection b b1 mask :
  batch_ok b → selection b1 = rows_selected b → has_selection b1 = true → same_rows b b1 →
  len mask = count b →
  ∃ b', compact_selection b1 mask = Ok b' ∧ batch_ok b' ∧ same_rows b b' ∧
    has_selection b' = true ∧
    selection b' = filter (λ i, mask !! Z.to_nat i = Some true) (rows_selected b).
Proof.
  intros Hok Hs Hh Hsame Hm. destruct (rows_selected_ok b Hok) as [Hsort Hb].
  unfold compact_selection. rewrite Hs, compact_filter by by rewrite Hm. cbn.
  eexists. split; [done|]. destruct Hsame as (E1 & E2 & E3 & E4). cbn.
  split; [|by repeat split]. destruct Hok as [Hc _]. split; [cbn; lia|]. intros _. cbn. split.
  - by apply sorted_filter.
  - rewrite E2. by apply Forall_filter_intro.
Qed.

Lemma load_rows_length {A} (view : VectorColumn → list A) col n rows :
  0 ≤ n → load_rows view col n = Ok rows → len rows = n ∧ rows.*2 = take (Z.to_nat n) (view col).
Proof.
  intros Hn. unfold load_rows. destruct (Z.ltb_spec (len (view col)) n); [done|].
  intros (ns & Hns & [= <-])%outcome_bind_ok.
  assert (length ns = Z.to_nat n) as Hl.
  { revert Hns. unfold row_nulls. destruct (has_nulls col); cbn [negb].
    - destruct_if; [done|]. intros [= <-]. by rewrite length_map, length_seqZ.
    - intros [= <-]. by rewrite length_replicate. }
  rewrite length_zip_with, length_take. split; [lia|].
  apply snd_zip. rewrite length_take. lia.
Qed.

(** ** What a filter selects *)

Section filters.
Context (b : VectorBatch) (f : VectorizedFilterState).
Let op := f_compare_op f.

(** The rows that satisfy a filter: not null, and in the relation. *)
Definition filter_mask : outcome (list bool) :=
  col ← get_column b (f_column_index f);
  match f_data_type f with
  | VECTORIZED_TYPE_INT64 | VECTORIZED_TYPE_TIMESTAMP =>
      rows ← load_rows int64s col (count b);
      Ok (scalar_mask (λ x, cmp_int (f_compare_op f) x (i64 (f_const_value f))) rows)
  | VECTORIZED_TYPE_INT32 | VECTORIZED_TYPE_DATE =>
      rows ← load_rows int32s col (count b);
      Ok (scalar_mask (λ x, cmp_int (f_compare_op f) x (i32 (f_const_value f))) rows)
  | VECTORIZED_TYPE_FLOAT64 =>
      rows ← load_rows float64s col (count b);
      Ok (scalar_mask (λ x, cmp_float (f_compare_op f) x (double_of_bits (u64 (f_const_value f)))) rows)
  | VECTORIZED_TYPE_FLOAT32 =>
      rows ← load_rows float32s col (count b);
      Ok (scalar_mask (λ x, cmp_float (f_compare_op f) x (single_of_bits (u32 (f_const_value f)))) rows)
  | _ => Err "vectorized filter not supported for this data type"
  end.

(** The floating-point numbers a filter compares. *)
Definition compared_floats : list spec_float :=
  match lookup_column b (f_column_index f) with
  | None => []
  | Some col =>
      match f_data_type f with
      | VECTORIZED_TYPE_FLOAT64 => double_of_bits (u64 (f_const_value f)) :: float64s col
      | VECTORIZED_TYPE_FLOAT32 => single_of_bits (u32 (f_const_value f)) :: float32s col
      | _ => []
      end
  end.

(** Where the vector code is exact: the operator is a comparison, and [!=] meets
    no NaN. *)
Definition filter_exact : Prop :=
  is_comparison (f_compare_op f) = true ∧
  (f_compare_op f = VECTORIZED_CMP_NE → Forall (λ x, is_nan x = false) compared_floats).
End filters.

Lemma get_column_lookup b ci col :
  get_column b ci = Ok col → lookup_column b ci = Some col.
Proof.
  unfold get_column, lookup_column. destruct_if; [done|].
  by destruct (columns b !! Z.to_nat ci) as [[|]|]; intros; simplify_eq/=.
Qed.

Lemma float_block_exact op p value xs v n :
  avx_predicate op = Some p →
  (op = VECTORIZED_CMP_NE → Forall (λ x, is_nan x = false) (value :: xs)) →
  length v = n → Forall (λ x, x ∈ xs) v →
  lane_mask (mm_cmp_pd p v (replicate n value)) = map (λ x, cmp_float op x value) v.
Proof.
  intros Hp Hne Hv Hin. apply avx_float_lanes; [done|done|]. intros x Hx.
  apply avx_predicate_exact; [done|]. intros Hop. specialize (Hne Hop).
  apply Forall_cons in Hne as [? Hxs]. split; [|done].
  rewrite Forall_forall in Hin, Hxs. by apply Hxs, Hin.
Qed.

Lemma rows_in_view {A} (view : VectorColumn → list A) col n rows :
  0 ≤ n → load_rows view col n = Ok rows → Forall (λ x, x ∈ view col) rows.*2.
Proof.
  intros Hn [_ ->]%load_rows_length; [|done]. apply Forall_forall. intros x Hx.
  by eapply subseteq_take.
Qed.

Section generic.
Context (avx2 : bool) (b : VectorBatch) (f : VectorizedFilterState).

Lemma scalar_mask_length {A} (p : A → bool) rows : len (scalar_mask p rows) = len rows.
Proof. unfold scalar_mask. by rewrite length_map. Qed.

Lemma int64_kernel b1 col rows value :
  is_comparison (f_compare_op f) = true → ensure_selection b = Ok b1 → count b1 = count b →
  load_rows int64s col (count b) = Ok rows →
  (if avx2 then filter_int64_avx2 b col (f_compare_op f) value
   else filter_int64_scalar b col (f_compare_op f) value) =
  compact_selection b1 (scalar_mask (λ x, cmp_int (f_compare_op f) x value) rows).
Proof.
  intros Hop Hs Hc Hr. unfold filter_int64_avx2, filter_int64_scalar. rewrite Hs. cbn.
  rewrite Hc, Hr. cbn. destruct avx2; [|done].
  rewrite (simd_mask_scalar (λ _, True)); [done| |by apply Forall_true].
  intros v Hv _. destruct (avx_cmp_int64_lanes (f_compare_op f) value v Hop Hv) as (r & -> & E).
  cbn. by rewrite E.
Qed.

Lemma int32_kernel rows value :
  is_comparison (f_compare_op f) = true →
  int32_mask avx2 (f_compare_op f) value rows =
  Ok (scalar_mask (λ x, cmp_int (f_compare_op f) x value) rows).
Proof.
  intros Hop. unfold int32_mask. destruct avx2; [|done].
  destruct (avx_cmp_int32 (f_compare_op f) value []) eqn:E; [|done].
  rewrite (simd_mask_scalar (λ _, True)); [done| |by apply Forall_true].
  intros v Hv _. destruct (avx_cmp_int32 (f_compare_op f) value v) as [r|] eqn:Er.
  - change (default [] (Some r)) with r. by rewrite (avx_cmp_int32_lanes _ _ _ _ Er Hv).
  - by destruct (f_compare_op f).
Qed.

Lemma avx_predicate_comparison op : is_comparison op = true → is_Some (avx_predicate op).
Proof. destruct op; cbn; intros; try done; eauto. Qed.

Lemma float64_kernel b1 col rows value :
  is_comparison (f_compare_op f) = true → ensure_selection b = Ok b1 → count b1 = count b →
  0 ≤ count b → load_rows float64s col (count b) = Ok rows →
  (f_compare_op f = VECTORIZED_CMP_NE →
   Forall (λ x, is_nan x = false) (value :: float64s col)) →
  (if avx2 then filter_float64_avx2 b col (f_compare_op f) value
   else filter_float64_scalar b col (f_compare_op f) value) =
  compact_selection b1 (scalar_mask (λ x, cmp_float (f_compare_op f) x value) rows).
Proof.
  intros Hop Hs Hc Hn Hr Hne. unfold filter_float64_avx2, filter_float64_scalar. rewrite Hs. cbn.
  rewrite Hc, Hr. cbn. destruct avx2; [|done].
  destruct (avx_predicate_comparison _ Hop) as [p Hp]. rewrite Hp.
  rewrite (simd_mask_scalar (λ x, x ∈ float64s col)); [done| |by eapply rows_in_view].
  intros v Hv Hin. f_equal. by apply (float_block_exact _ p value (float64s col) v 4).
Qed.

Lemma float32_kernel col rows value :
  is_comparison (f_compare_op f) = true → 0 ≤ count b →
  load_rows float32s col (count b) = Ok rows →
  (f_compare_op f = VECTORIZED_CMP_NE →
   Forall (λ x, is_nan x = false) (value :: float32s col)) →
  (if avx2 then simd_mask 8 (λ v, Ok (lane_mask (float32_block (f_compare_op f) value v)))
                  (λ x, cmp_float (f_compare_op f) x value) rows
   else Ok (scalar_mask (λ x, cmp_float (f_compare_op f) x value) rows)) =
  Ok (scalar_mask (λ x, cmp_float (f_compare_op f) x value) rows).
Proof.
  intros Hop Hn Hr Hne. destruct avx2; [|done].
  destruct (avx_predicate_comparison _ Hop) as [p Hp]. unfold float32_block. rewrite Hp.
  rewrite (simd_mask_scalar (λ x, x ∈ float32s col)); [done| |by eapply rows_in_view].
  intros v Hv Hin. f_equal. by apply (float_block_exact _ p value (float32s col) v 8).
Qed.

(** Both builds of every kernel are the mask and the compaction. *)
Lemma filter_generic_mask b1 mask :
  batch_ok b → ensure_selection b = Ok b1 → same_rows b b1 → filter_exact b f →
  filter_mask b f = Ok mask →
  vectorized_filter_generic avx2 b f = compact_selection b1 mask ∧ len mask = count b.
Proof.
  intros [Hn _] Hs (_ & Hc & _) [Hop Hne] Hm. unfold filter_mask in Hm.
  apply outcome_bind_ok in Hm as (col & Hcol & Hm).
  unfold compared_floats in Hne. rewrite (get_column_lookup _ _ _ Hcol) in Hne.
  unfold vectorized_filter_generic.
  destruct (f_data_type f); try discriminate Hm; apply outcome_bind_ok in Hm as (rows & Hr & [= <-]);
    rewrite scalar_mask_length, (proj1 (load_rows_length _ _ _ _ (proj1 Hn) Hr)); (split; [|done]).
  all: unfold vectorized_filter_int64, vectorized_filter_int32, vectorized_filter_float64,
    vectorized_filter_float32; rewrite Hcol; cbn.
  - rewrite Hs. cbn. rewrite Hc, Hr. cbn. by rewrite int32_kernel.
  - by apply int64_kernel.
  - rewrite Hs. cbn. rewrite Hc, Hr. cbn. by rewrite (float32_kernel col) by (done || lia).
  - apply float64_kernel; try done. lia.
  - by apply int64_kernel.
  - rewrite Hs. cbn. rewrite Hc, Hr. cbn. by rewrite int32_kernel.
Qed.

(** A filter keeps the selected rows that satisfy it, in order. *)
Lemma filter_generic_selects mask :
  batch_ok b → filter_exact b f → filter_mask b f = Ok mask →
  ∃ b', vectorized_filter_generic avx2 b f = Ok b' ∧ batch_ok b' ∧ same_rows b b' ∧
    has_selection b' = true ∧
    selection b' = filter (λ i, mask !! Z.to_nat i = Some true) (rows_selected b).
Proof.
  intros Hok He Hm. destruct (ensure_selection_ok b Hok) as (b1 & Hs & Hh & Hsel & Hsame).
  destruct (filter_generic_mask b1 mask Hok Hs Hsame He Hm) as [-> Hl].
  by eapply masked_selection.
Qed.
End generic.

(** C12: for the six comparisons ([filter_exact]: not IS NULL and the like), on every column type,
    and provided that [<>] meets no NaN, the AVX2 and the scalar build of the vectorized filters
    compute the same batch, whose selection is the selected rows that satisfy the filter, in
    order.  Outside of that the builds differ: [nan_not_equal_differs], [is_null_filter_differs]. *)
Theorem simd_filters_agree (b : VectorBatch) (f : VectorizedFilterState) (mask : list bool) :
  batch_ok b → filter_exact b f → filter_mask b f = Ok mask →
  ∃ b', vectorized_filter_generic true b f = Ok b' ∧ vectorized_filter_generic false b f = Ok b' ∧
    batch_ok b' ∧ same_rows b b' ∧
    selection b' = filter (λ i, mask !! Z.to_nat i = Some true) (rows_selected b).
Proof.
  intros Hok He Hm. destruct (ensure_selection_ok b Hok) as (b1 & Hs & _ & _ & Hsame).
  destruct (filter_generic_selects true b f mask Hok He Hm) as (b' & E & Hok' & Hrows & _ & Hsel).
  exists b'. split; [done|]. split; [|done]. rewrite <- E.
  destruct (filter_generic_mask true b f b1 mask Hok Hs Hsame He Hm) as [-> _].
  by destruct (filter_generic_mask false b f b1 mask Hok Hs Hsame He Hm) as [-> _].
Qed.

(** ** Sums *)

Definition lsum (l : list Z) : Z := foldr Z.add 0 l.

(** The exact sum of the rows that are not null. *)
Definition total (rows : list (bool * Z)) : Z :=
  foldr (λ '(n, x) s, if n : bool then s else x + s) 0 rows.

Lemma lsum_app l k : lsum (l ++ k) = lsum l + lsum k.
Proof. unfold lsum. induction l as [|x l IH]; cbn; [done|]. rewrite IH. lia. Qed.

Lemma total_app l k : total (l ++ k) = total l + total k.
Proof. unfold total. induction l as [|[[] x] l IH]; cbn; [done| |]; rewrite IH; lia. Qed.

Lemma add64_cong s x : cong 64 (add64 s x) (s + x).
Proof. apply swrap_cong. lia. Qed.
Lemma sub64_cong s x : cong 64 (sub64 s x) (s - x).
Proof. apply swrap_cong. lia. Qed.

Lemma fold_rows_add64 s rows :
  in_i 64 s → in_i 64 (fold_rows add64 s rows) ∧ cong 64 (fold_rows add64 s rows) (s + total rows).
Proof.
  revert s. induction rows as [|[[] x] rows IH]; intros s Hs; cbn.
  - split; [done|]. by rewrite Z.add_0_r.
  - by apply IH.
  - destruct (IH (add64 s x)) as [Hr Hc]; [apply swrap_range; lia|]. split; [done|].
    etransitivity; [apply Hc|]. rewrite add64_cong. by rewrite Z.add_assoc.
Qed.

Lemma horizontal64_sum v : in_i 64 (horizontal64 v) ∧ cong 64 (horizontal64 v) (lsum v).
Proof.
  assert (H : ∀ s, in_i 64 s → in_i 64 (foldl add64 s v) ∧ cong 64 (foldl add64 s v) (s + lsum v)).
  { induction v as [|x v IH]; intros s Hs; cbn; [by rewrite Z.add_0_r|].
    destruct (IH (add64 s x)) as [Hr Hc]; [apply swrap_range; lia|]. split; [done|].
    etransitivity; [apply Hc|]. rewrite add64_cong. by rewrite Z.add_assoc. }
  apply (H 0). done.
Qed.

(** A block that adds a register of [n] elements to [m] lanes. *)
Definition adds (n m : nat) (block : lanes → list Z → lanes) : Prop :=
  ∀ acc v, length acc = m → length v = n →
    length (block acc v) = m ∧ cong 64 (lsum (block acc v)) (lsum acc + lsum v).

Lemma mm_add64_adds n : adds n n mm_add64.
Proof.
  intros acc v Ha Hv. split; [unfold mm_add64; rewrite length_zip_with; lia|].
  rewrite <- Hv in Ha. clear Hv. revert v Ha.
  induction acc as [|x acc IH]; intros [|y v] H; try done. cbn.
  rewrite swrap_cong by lia. setoid_rewrite (IH v); [|by injection H].
  fold (lsum acc) (lsum v). by replace (x + y + (lsum acc + lsum v)) with (x + lsum acc + (y + lsum v)) by lia.
Qed.

Lemma add_halves_adds : adds 8 4 (add_halves mm_add64).
Proof.
  intros acc v Ha Hv. unfold add_halves.
  destruct (mm_add64_adds 4 acc (take 4 v)) as [H1 E1]; [done|rewrite length_take; lia|].
  destruct (mm_add64_adds 4 (mm_add64 acc (take 4 v)) (drop 4 v)) as [H2 E2];
    [done|rewrite length_drop; lia|].
  split; [done|]. rewrite E2, E1, <- Z.add_assoc, <- lsum_app. by rewrite take_drop.
Qed.

Lemma simd_fold_sum fuel n m block acc xs :
  (0 < n)%nat → adds n m block → length acc = m → (length xs ≤ fuel)%nat →
  cong 64 (lsum (simd_fold fuel n block acc xs)) (lsum acc + lsum (take (length xs / n * n) xs)).
Proof.
  intros Hn Hb. revert acc xs. induction fuel as [|fuel IH]; intros acc xs Ha Hxs.
  - destruct xs; [|cbn in Hxs; lia]. cbn. rewrite Nat.Div0.div_0_l. cbn. by rewrite Z.add_0_r.
  - cbn [simd_fold]. destruct (decide _) as [Hle|Hgt].
    + destruct (Hb acc (take n xs)) as [H1 E1]; [done|rewrite length_take; lia|].
      rewrite IH; [|done|rewrite length_drop; lia]. rewrite length_drop, E1.
      assert (Ek : (length xs / n * n = n + (length xs - n) / n * n)%nat).
      { replace (length xs) with (length xs - n + 1 * n)%nat at 1 by lia.
        rewrite Nat.div_add by lia. lia. }
      rewrite Ek, <- take_take_drop, lsum_app. by rewrite Z.add_assoc.
    + rewrite Nat.div_small by lia. cbn. by rewrite Z.add_0_r.
Qed.

#[local] Arguments simd_sum : simpl never.
#[local] Arguments mm_set1 : simpl never.

(** The rows an aggregate reads. *)
Definition selected_rows {A} (b : VectorBatch) (rows : list (bool * A)) : list (bool * A) :=
  if has_selection b then omap (λ i, rows !! Z.to_nat i) (selection b) else rows.

Lemma fold_column_ok {A S} (f : S → A → S) s b (rows : list (bool * A)) :
  batch_ok b → len rows = count b → fold_column f s b rows = Ok (fold_rows f s (selected_rows b rows)).
Proof.
  intros [_ Hs] Hl. unfold fold_column, selected_rows. destruct (has_selection b); [|done].
  destruct (Hs eq_refl) as [_ Hb]. rewrite <- Hl in Hb. clear Hs. revert s.
  induction Hb as [|i sel Hi _ IH]; intros s; [done|]. cbn [fold_selected omap].
  destruct (lookup_lt_is_Some_2 rows (Z.to_nat i)) as [r Hr]; [lia|]. cbn. rewrite Hr. cbn.
  by rewrite IH.
Qed.

Lemma blocks_le {A} (l : list A) n : (length l / n * n ≤ length l)%nat.
Proof. rewrite Nat.mul_comm. destruct n; [lia|]. apply Nat.Div0.mul_div_le. Qed.

Lemma sub_nulls s rows :
  in_i 64 s →
  let r := foldl (λ s '(isnull, x), if isnull : bool then sub64 s x else s) s rows in
  in_i 64 r ∧ cong 64 r (s - lsum rows.*2 + total rows).
Proof.
  revert s. induction rows as [|[[] x] rows IH]; intros s Hs; cbn.
  - split; [done|]. by replace (s - 0 + 0) with s by lia.
  - destruct (IH (sub64 s x)) as [Hr Hc]; [apply swrap_range; lia|]. split; [done|].
    etransitivity; [apply Hc|]. rewrite sub64_cong. apply eq_subrelation; [apply _|].
    fold (lsum rows.*2) (total rows). lia.
  - destruct (IH s Hs) as [Hr Hc]. split; [done|]. etransitivity; [apply Hc|].
    apply eq_subrelation; [apply _|]. fold (lsum rows.*2) (total rows). lia.
Qed.

Lemma lsum_zeros m : lsum (mm_set1 m 0) = 0.
Proof. unfold lsum, mm_set1. induction m as [|m IH]; cbn; [done|]. by rewrite IH. Qed.

Lemma simd_sum_total n m block rows :
  (0 < n)%nat → adds n m block →
  simd_sum n block (mm_set1 m 0) horizontal64 add64 sub64 rows = i64 (total rows).
Proof.
  intros Hn Hb. unfold simd_sum. set (k := (length rows / n * n)%nat).
  set (h := horizontal64 _). destruct (horizontal64_sum (simd_fold (length rows) n block
    (mm_set1 m 0) rows.*2)) as [Hr Hc]. fold h in Hr, Hc.
  rewrite (simd_fold_sum _ n m) in Hc; [|done|done|apply length_replicate|by rewrite length_fmap].
  rewrite length_fmap in Hc. fold k in Hc.
  rewrite lsum_zeros in Hc.
  destruct (fold_rows_add64 h (drop k rows) Hr) as [Hr2 Hc2].
  destruct (sub_nulls _ (take k rows) Hr2) as [Hr3 Hc3].
  apply cong_in_range; [lia|done|]. etransitivity; [apply Hc3|]. rewrite Hc2, Hc, <- fmap_take.
  assert (Ht : total rows = total (take k rows) + total (drop k rows))
    by (by rewrite <- total_app, take_drop).
  rewrite Ht.
  apply eq_subrelation; [apply _|]. lia.
Qed.

Lemma scalar_sum_total rows : fold_rows add64 0 rows = i64 (total rows).
Proof.
  destruct (fold_rows_add64 0 rows) as [Hr Hc]; [done|]. by apply cong_in_range.
Qed.

Lemma int64_sum avx2 b ci col rows :
  batch_ok b → get_column b ci = Ok col → load_rows int64s col (count b) = Ok rows →
  vectorized_sum_int64 avx2 b ci = Ok (i64 (total (selected_rows b rows))).
Proof.
  intros Hok Hcol Hr. pose proof (proj1 (load_rows_length _ _ _ _ (proj1 (proj1 Hok)) Hr)) as Hl.
  pose proof (fold_column_ok add64 0 b rows Hok Hl) as Hf. rewrite scalar_sum_total in Hf.
  unfold vectorized_sum_int64, sum_int64_avx2, sum_int64_scalar. rewrite Hcol. cbn. rewrite Hr. cbn.
  destruct avx2; [|done]. unfold fold_column in Hf. unfold selected_rows in *.
  destruct (has_selection b); [done|]. f_equal. apply (simd_sum_total 4); [lia|apply mm_add64_adds].
Qed.

Lemma int32_sum avx2 b ci col rows :
  batch_ok b → get_column b ci = Ok col → load_rows int32s col (count b) = Ok rows →
  vectorized_sum_int32 avx2 b ci = Ok (i64 (total (selected_rows b rows))).
Proof.
  intros Hok Hcol Hr. pose proof (proj1 (load_rows_length _ _ _ _ (proj1 (proj1 Hok)) Hr)) as Hl.
  pose proof (fold_column_ok add64 0 b rows Hok Hl) as Hf. rewrite scalar_sum_total in Hf.
  unfold vectorized_sum_int32. rewrite Hcol. cbn. rewrite Hr. cbn. rewrite Hf.
  unfold selected_rows. destruct avx2, (has_selection b); cbn; try done.
  f_equal. apply (simd_sum_total 8); [lia|apply add_halves_adds].
Qed.

(** The integer sums of both builds are the sum of the selected rows
    that are not null, cut to 64 bits, whatever the null rows hold: the AVX2 build
    adds them and takes them off again. *)
Theorem integer_sums_exact (avx2 : bool) (b : VectorBatch) (ci : Z) (col : VectorColumn) :
  batch_ok b → get_column b ci = Ok col →
  (∀ rows, load_rows int64s col (count b) = Ok rows →
     vectorized_sum_int64 avx2 b ci = Ok (i64 (total (selected_rows b rows)))) ∧
  (∀ rows, load_rows int32s col (count b) = Ok rows →
     vectorized_sum_int32 avx2 b ci = Ok (i64 (total (selected_rows b rows)))).
Proof. split; intros; [by eapply int64_sum|by eapply int32_sum]. Qed.

(** ** Selections as sets *)

Lemma merge_and_cons x l1 y l2 :
  merge_and (x :: l1) (y :: l2) =
  if x =? y then x :: merge_and l1 l2
  else if x <? y then merge_and l1 (y :: l2) else merge_and (x :: l1) l2.
Proof. done. Qed.

Lemma merge_or_cons x l1 y l2 :
  merge_or (x :: l1) (y :: l2) =
  if x =? y then x :: merge_or l1 l2
  else if x <? y then x :: merge_or l1 (y :: l2) else y :: merge_or (x :: l1) l2.
Proof. done. Qed.

Lemma merge_and_spec l1 l2 :
  StronglySorted Z.lt l1 → StronglySorted Z.lt l2 →
  StronglySorted Z.lt (merge_and l1 l2) ∧ ∀ i, i ∈ merge_and l1 l2 ↔ i ∈ l1 ∧ i ∈ l2.
Proof.
  intros H1. revert l2. induction H1 as [|x l1 H1 IH1 Hx]; intros l2 H2.
  { destruct l2; (split; [constructor|]); set_solver. }
  induction H2 as [|y l2 H2 IH2 Hy]; [split; [constructor|set_solver]|].
  rewrite merge_and_cons. rewrite Forall_forall in Hx, Hy.
  destruct (Z.eqb_spec x y) as [<-|Hne]; [|destruct (Z.ltb_spec x y)].
  - destruct (IH1 l2 H2) as [Hs He]. split.
    + constructor; [done|]. apply Forall_forall. set_solver.
    + intros i. specialize (Hx i). specialize (Hy i). set_solver by lia.
  - destruct (IH1 (y :: l2)) as [Hs He]; [by constructor; [|apply Forall_forall]|].
    split; [done|]. intros i. specialize (Hx i). specialize (Hy i). set_solver by lia.
  - destruct IH2 as [Hs He]. split; [done|].
    intros i. specialize (Hx i). specialize (Hy i). set_solver by lia.
Qed.

Lemma merge_or_spec l1 l2 :
  StronglySorted Z.lt l1 → StronglySorted Z.lt l2 →
  StronglySorted Z.lt (merge_or l1 l2) ∧ ∀ i, i ∈ merge_or l1 l2 ↔ i ∈ l1 ∨ i ∈ l2.
Proof.
  intros H1. revert l2. induction H1 as [|x l1 H1 IH1 Hx]; intros l2 H2.
  { destruct l2; (split; [done|]); set_solver. }
  induction H2 as [|y l2 H2 IH2 Hy]; [split; [by constructor|set_solver]|].
  rewrite merge_or_cons. rewrite Forall_forall in Hx, Hy.
  destruct (Z.eqb_spec x y) as [<-|Hne]; [|destruct (Z.ltb_spec x y)].
  - destruct (IH1 l2 H2) as [Hs He]. split; [|set_solver].
    constructor; [done|]. apply Forall_forall. set_solver.
  - destruct (IH1 (y :: l2)) as [Hs He]; [by constructor; [|apply Forall_forall]|].
    split; [|set_solver]. constructor; [done|]. apply Forall_forall. intros i Hi%He.
    specialize (Hx i). specialize (Hy i). set_solver by lia.
  - destruct IH2 as [Hs He]. split; [|set_solver].
    constructor; [done|]. apply Forall_forall. intros i Hi%He.
    specialize (Hx i). specialize (Hy i). set_solver by lia.
Qed.

Lemma set_merged_ok b sel :
  batch_ok b → has_selection b = true → StronglySorted Z.lt sel →
  Forall (λ i, 0 ≤ i < count b) sel →
  set_merged b sel = Ok (with_selection b sel (has_selection b) (rows_filtered b)) ∧
  batch_ok (with_selection b sel (has_selection b) (rows_filtered b)).
Proof.
  intros [Hc _] Hh Hs Hb. unfold set_merged.
  pose proof (sorted_length sel 0 (count b) Hs Hb ltac:(lia)).
  destruct (Z.ltb_spec (capacity b) (len sel)); [lia|]. split; [done|]. by split.
Qed.

(** Combining two selections by AND and by OR selects their intersection
    and their union, in increasing order, and never more rows than the batch has
    room for. *)
Theorem selections_combine (b : VectorBatch) (other : list Z) :
  batch_ok b → StronglySorted Z.lt other → Forall (λ i, 0 ≤ i < count b) other →
  (∃ b', vectorized_selection_and b other = Ok b' ∧ batch_ok b' ∧
     ∀ i, i ∈ rows_selected b' ↔ i ∈ rows_selected b ∧ i ∈ other) ∧
  (∃ b', vectorized_selection_or b other = Ok b' ∧ batch_ok b' ∧
     ∀ i, i ∈ rows_selected b' ↔ i ∈ rows_selected b ∨ i ∈ other).
Proof.
  intros Hok Ho Hob. destruct (rows_selected_ok b Hok) as [Hs Hb].
  rewrite Forall_forall in Hb, Hob. split.
  - destruct (ensure_selection_ok b Hok) as (b1 & E & Hh & Hsel & (E1 & E2 & E3 & E4)).
    destruct (merge_and_spec (rows_selected b) other Hs Ho) as [Hms Hme].
    unfold vectorized_selection_and. rewrite E. cbn. rewrite Hsel.
    assert (Hok1 : batch_ok b1).
    { split; [rewrite E1, E2; apply Hok|]. intros _. rewrite Hsel, E2. by apply rows_selected_ok. }
    destruct (set_merged_ok b1 (merge_and (rows_selected b) other)) as [-> Hok']; [done|done|done| |].
    { apply Forall_forall. rewrite E2. set_solver. }
    eexists. split; [done|]. split; [done|]. unfold rows_selected at 1. cbn. by rewrite Hh.
  - unfold vectorized_selection_or. destruct (has_selection b) eqn:Hh; cbn [negb].
    + replace (selection b) with (rows_selected b) by (unfold rows_selected; by rewrite Hh).
      destruct (merge_or_spec (rows_selected b) other Hs Ho) as [Hms Hme].
      destruct (set_merged_ok b (merge_or (rows_selected b) other)) as [-> Hok']; [done|done|done| |].
      { apply Forall_forall. set_solver. }
      eexists. split; [done|]. split; [done|]. unfold rows_selected at 1. cbn. by rewrite Hh.
    + exists b. split; [done|]. split; [done|]. intros i. unfold rows_selected. rewrite Hh.
      split; [by left|]. intros [?|Hi]; [done|]. apply elem_of_seqZ. specialize (Hob i Hi). cbn in Hob. lia.
Qed.

(** ** Aggregates over a table of batches *)

Definition not_null {A} (rows : list (bool * A)) : list A :=
  omap (λ '(n, x), if n : bool then None else Some x) rows.

Lemma fold_rows_not_null {A S} (f : S → A → S) s rows :
  fold_rows f s rows = foldl f s (not_null rows).
Proof. revert s. induction rows as [|[[] x] rows IH]; intros s; cbn; [done|by apply IH..]. Qed.

Lemma total_not_null rows : total rows = lsum (not_null rows).
Proof. unfold total, lsum. induction rows as [|[[] x] rows IH]; cbn; [done| |]; by rewrite IH. Qed.

(** The least value by [key] among those below a bound, by which minimum and
    maximum are found. *)
Section extrema.
Context (key : Z → Z) (start : Z).

Definition closer (x m : Z) : bool := key x <? key m.

Definition merge_best (o o' : option Z) : option Z :=
  union_with (λ m m', Some (if closer m' m then m' else m)) o o'.

Definition best (xs : list Z) : option Z :=
  foldl (λ o x, merge_best o (if closer x start then Some x else None)) None xs.

(** The pair the kernel carries. *)
Definition carries (o : option Z) (p : Z * bool) : Prop :=
  match o with
  | None => p = (start, false)
  | Some m => p = (m, true) ∧ closer m start = true
  end.

Lemma improve_carries o p x :
  carries o p →
  carries (merge_best o (if closer x start then Some x else None)) (improve closer p x).
Proof.
  unfold carries, improve, merge_best, closer.
  destruct o as [m|]; [intros [-> Hm%Z.ltb_lt]|intros ->]; cbn.
  - destruct (Z.ltb_spec (key x) (key start)); cbn;
      destruct (Z.ltb_spec (key x) (key m)); cbn; try lia.
    all: split; [done|by apply Z.ltb_lt].
  - destruct (Z.ltb_spec (key x) (key start)); cbn; [|done]. split; [done|by apply Z.ltb_lt].
Qed.

Lemma best_carries xs : carries (best xs) (foldl (improve closer) (start, false) xs).
Proof.
  unfold best. assert (H : ∀ o p, carries o p →
    carries (foldl (λ o x, merge_best o (if closer x start then Some x else None)) o xs)
      (foldl (improve closer) p xs)); [|by apply H].
  induction xs as [|x xs IH]; intros o p Hp; cbn; [done|]. by apply IH, improve_carries.
Qed.

Lemma merge_best_assoc a b c :
  (∀ x y, key x = key y → x = y) →
  merge_best (merge_best a b) c = merge_best a (merge_best b c).
Proof.
  intros Hinj. unfold merge_best, closer. destruct a as [a|], b as [b|], c as [c|]; cbn; try done.
  f_equal. repeat (match goal with |- context [key ?u <? key ?v] =>
    is_var u; is_var v; destruct (Z.ltb_spec (key u) (key v)) end; cbn).
  all: first [done|lia|apply Hinj; lia].
Qed.

Lemma best_app xs ys :
  (∀ x y, key x = key y → x = y) → best (xs ++ ys) = merge_best (best xs) (best ys).
Proof.
  intros Hinj. unfold best at 1. rewrite foldl_app. fold (best xs).
  assert (H : ∀ o o', foldl (λ o x, merge_best o (if closer x start then Some x else None))
      (merge_best o o') ys =
    merge_best o (foldl (λ o x, merge_best o (if closer x start then Some x else None)) o' ys)).
  { induction ys as [|y ys IH]; intros o o'; cbn; [done|]. by rewrite merge_best_assoc, IH. }
  specialize (H (best xs) None). by replace (merge_best (best xs) None) with (best xs) in H
    by by destruct (best xs).
Qed.
End extrema.

Lemma best_none key start xs x : best key start xs = None → x ∈ xs → key start ≤ key x.
Proof.
  unfold best. revert x. induction xs as [|u l IH] using rev_ind; [set_solver|].
  rewrite foldl_app. cbn. intros z. destruct (foldl _ None l) as [w|] eqn:E.
  - by destruct (closer key u start).
  - unfold closer. destruct (Z.ltb_spec (key u) (key start)); cbn; [done|].
    intros _ [Hz|Hz]%elem_of_app; [by apply IH|set_solver by lia].
Qed.

(** [best] is the minimum of the values that are less than the bound. *)
Lemma best_least key start xs m :
  best key start xs = Some m →
  m ∈ xs ∧ key m < key start ∧ ∀ x, x ∈ xs → key m ≤ key x.
Proof.
  unfold best. revert m. induction xs as [|x xs IH] using rev_ind; [done|]. intros m.
  rewrite foldl_app. cbn. revert IH. set (o := foldl _ None xs). intros IH.
  unfold merge_best, closer. destruct (Z.ltb_spec (key x) (key start)) as [Hx|Hx].
  - destruct o as [m0|] eqn:Eo; cbn.
    + destruct (IH m0 ltac:(done)) as (H1 & H2 & H3).
      destruct (Z.ltb_spec (key x) (key m0)); intros [= <-].
      * split; [set_solver|]. split; [lia|]. intros y [Hy%H3|Hy]%elem_of_app; [lia|set_solver by lia].
      * split; [set_solver|]. split; [lia|]. intros y [Hy%H3|Hy]%elem_of_app; [lia|set_solver by lia].
    + intros [= <-]. split; [set_solver|]. split; [lia|].
      intros y [Hy|Hy]%elem_of_app; [|set_solver by lia].
      pose proof (best_none key start xs y Eo Hy). lia.
  - replace (union_with _ o None) with o by by destruct o.
    intros Ho. destruct (IH m Ho) as (H1 & H2 & H3). split; [set_solver|]. split; [done|].
    intros y [Hy%H3|Hy]%elem_of_app; [done|set_solver by lia].
Qed.

Lemma not_null_app {A} (l k : list (bool * A)) : not_null (l ++ k) = not_null l ++ not_null k.
Proof. apply omap_app. Qed.

(** What a batch contributes to an aggregate of its 64-bit column [ci]. *)
Definition contributes (ci : Z) (b : VectorBatch) (xs : list Z) : Prop :=
  batch_ok b ∧ ∃ col rows, get_column b ci = Ok col ∧
    load_rows int64s col (count b) = Ok rows ∧ xs = not_null (selected_rows b rows).

Lemma load_rows_nulls {A} (view : VectorColumn → list A) col n rows :
  0 ≤ n → load_rows view col n = Ok rows → row_nulls col n = Ok rows.*1.
Proof.
  intros Hn H. pose proof (load_rows_length _ _ _ _ Hn H) as [Hl _]. revert H. unfold load_rows.
  destruct (Z.ltb_spec (len (view col)) n); [done|].
  intros (ns & Hns & [= <-])%outcome_bind_ok. rewrite Hns. f_equal.
  rewrite length_zip_with, length_take in Hl. rewrite fst_zip; [done|].
  assert (length ns = Z.to_nat n); [|rewrite length_take; lia]. revert Hns. unfold row_nulls.
  destruct (has_nulls col); cbn [negb].
  - destruct_if; [done|]. intros [= <-]. by rewrite length_map, length_seqZ.
  - intros [= <-]. by rewrite length_replicate.
Qed.

(** The count only looks at the null flags. *)
Lemma not_null_flags {A B} (l : list (bool * A)) (k : list (bool * B)) :
  l.*1 = k.*1 → length (not_null l) = length (not_null k).
Proof.
  revert k. induction l as [|[n x] l IH]; intros [|[n' y] k] H; try done.
  injection H as -> H. cbn. destruct n'; cbn; [|f_equal]; by apply IH.
Qed.

Lemma selected_rows_flags {A B} b (l : list (bool * A)) (k : list (bool * B)) :
  l.*1 = k.*1 → (selected_rows b l).*1 = (selected_rows b k).*1.
Proof.
  intros H. unfold selected_rows. destruct (has_selection b); [|done].
  induction (selection b) as [|i sel IH]; [done|]. cbn.
  assert (Hi : fst <$> l !! Z.to_nat i = fst <$> k !! Z.to_nat i)
    by by rewrite <- !list_lookup_fmap, H.
  destruct (l !! Z.to_nat i), (k !! Z.to_nat i); try done. injection Hi as Hi. cbn. by f_equal.
Qed.

Lemma foldl_count {A} (xs : list A) s : foldl (λ s _, s + 1) s xs = s + len xs.
Proof. revert s. induction xs as [|x xs IH]; intros s; cbn; [lia|]. rewrite IH. lia. Qed.

Lemma not_null_none {A} (rows : list (bool * A)) :
  Forall (λ r, r.1 = false) rows → length (not_null rows) = length rows.
Proof. induction 1 as [|[[] x] rows Hx _ IH]; [done|done|]. cbn. by f_equal. Qed.

Lemma selected_rows_length {A} b (rows : list (bool * A)) :
  batch_ok b → len rows = count b → len (selected_rows b rows) = vectorized_count b.
Proof.
  intros [_ Hs] Hl. unfold selected_rows, vectorized_count, selected_count.
  destruct (has_selection b); [|done]. destruct (Hs eq_refl) as [_ Hb].
  rewrite <- Hl in Hb. clear Hs. induction Hb as [|i sel Hi _ IH]; [done|]. cbn [omap].
  destruct (lookup_lt_is_Some_2 rows (Z.to_nat i)) as [r Hr]; [lia|]. cbn. rewrite Hr.
  cbn [length]. rewrite !Nat2Z.inj_succ. f_equal. exact IH.
Qed.

Lemma selected_rows_Forall {A} (P : bool * A → Prop) b rows :
  Forall P rows → Forall P (selected_rows b rows).
Proof.
  intros H. unfold selected_rows. destruct (has_selection b); [|done].
  rewrite Forall_forall in *. intros r (i & _ & Hi)%list_elem_of_omap. by eapply H, list_elem_of_lookup_2.
Qed.

Lemma count_contributed ci b xs :
  contributes ci b xs → vectorized_count_column b ci = Ok (len xs).
Proof.
  intros [Hok (col & rows & Hcol & Hr & ->)]. pose proof (proj1 (proj1 Hok)) as Hc.
  destruct (load_rows_length _ _ _ _ Hc Hr) as [Hl _].
  unfold vectorized_count_column. rewrite (get_column_lookup _ _ _ Hcol).
  pose proof (load_rows_nulls _ _ _ _ Hc Hr) as Hns. destruct (has_nulls col) eqn:Hn; cbn [negb].
  - rewrite Hns. cbn [mbind outcome_bind].
    assert (Hz : (zip rows.*1 (seqZ 0 (count b))).*1 = rows.*1).
    { apply fst_zip. rewrite length_fmap, length_seqZ. lia. }
    rewrite fold_column_ok; [|done|].
    + rewrite fold_rows_not_null, foldl_count. f_equal.
      rewrite (not_null_flags _ (selected_rows b rows)); [lia|]. by apply selected_rows_flags.
    + rewrite length_zip_with, length_fmap, length_seqZ. lia.
  - rewrite <- (selected_rows_length b rows) by done. do 2 f_equal. symmetry.
    apply not_null_none, selected_rows_Forall.
    unfold row_nulls in Hns. rewrite Hn in Hns. cbn [negb] in Hns. injection Hns as Hns.
    apply Forall_forall. intros [n x] Hx%(list_elem_of_fmap_2 fst). rewrite <- Hns in Hx.
    by apply elem_of_replicate in Hx as [-> _].
Qed.

Lemma foldl_eq {A S} (f g : S → A → S) s l : (∀ s x, f s x = g s x) → foldl f s l = foldl g s l.
Proof. intros H. revert s. induction l as [|x l IH]; intros s; cbn; [done|]. by rewrite H, IH. Qed.

Lemma extremum_contributed better key start none ci b xs :
  (∀ x m, better x m = closer key x m) → contributes ci b xs →
  ∃ p, extremum int64s better start none b ci = Ok p ∧ carries key start (best key start xs) p.
Proof.
  intros Hb [Hok (col & rows & Hcol & Hr & ->)]. pose proof (proj1 (proj1 Hok)) as Hc.
  destruct (load_rows_length _ _ _ _ Hc Hr) as [Hl _].
  unfold extremum. rewrite (get_column_lookup _ _ _ Hcol), Hr. cbn [mbind outcome_bind].
  rewrite fold_column_ok, fold_rows_not_null by done. eexists. split; [done|].
  replace (foldl (improve better) (start, false) (not_null (selected_rows b rows)))
    with (foldl (improve (closer key)) (start, false) (not_null (selected_rows b rows)));
    [apply best_carries|].
  apply foldl_eq. intros [m f] x. unfold improve. by rewrite Hb.
Qed.

(** The value of an aggregate over the non-null values of all batches. *)
Definition aggregate_value (t : VectorizedAggType) (seen : bool) (xs : list Z) : option Z :=
  match t with
  | VECTORIZED_AGG_COUNT => Some (len xs)
  | VECTORIZED_AGG_SUM => if seen then Some (lsum xs) else None
  | VECTORIZED_AGG_MIN => best id INT64_MAX xs
  | VECTORIZED_AGG_MAX => best Z.opp INT64_MIN xs
  | VECTORIZED_AGG_AVG => None
  end.

Definition agg_start (t : VectorizedAggType) (ci : Z) (dt : VectorizedDataType) : VectorizedAggState :=
  {| agg_type := t; a_column_index := ci; a_data_type := dt; a_count := 0; sum_int64 := 0;
     sum_float64 := zero64; min_int64 := 0; max_int64 := 0; min_float64 := zero64;
     max_float64 := zero64; has_value := false |}.

Fixpoint agg_run (avx2 : bool) (s : VectorizedAggState) (bs : list VectorBatch)
    : outcome VectorizedAggState :=
  match bs with
  | [] => Ok s
  | b :: bs => s ← vectorized_agg_update avx2 s b; agg_run avx2 s bs
  end.

(** The state after the values [xs]. *)
Definition agg_holds (t : VectorizedAggType) (ci : Z) (dt : VectorizedDataType)
    (s : VectorizedAggState) (seen : bool) (xs : list Z) : Prop :=
  agg_type s = t ∧ a_column_index s = ci ∧ a_data_type s = dt ∧
  match t with
  | VECTORIZED_AGG_COUNT => a_count s = i64 (len xs)
  | VECTORIZED_AGG_SUM => has_value s = seen ∧ sum_int64 s = i64 (lsum xs)
  | VECTORIZED_AGG_MIN => (if has_value s then Some (min_int64 s) else None) = best id INT64_MAX xs
  | VECTORIZED_AGG_MAX => (if has_value s then Some (max_int64 s) else None) = best Z.opp INT64_MIN xs
  | VECTORIZED_AGG_AVG => True
  end.

Section aggregates.
Context (avx2 : bool) (t : VectorizedAggType) (ci : Z) (dt : VectorizedDataType).
Hypothesis Hci : 0 ≤ ci.
Hypothesis Hdt : dt = VECTORIZED_TYPE_INT64 ∨ dt = VECTORIZED_TYPE_TIMESTAMP.
Hypothesis Ht : t ≠ VECTORIZED_AGG_AVG.

Lemma add64_wrap a b : add64 (i64 a) (i64 b) = i64 (a + b).
Proof.
  apply swrap_of_cong; [lia|]. by rewrite (swrap_cong 64 a), (swrap_cong 64 b) by lia.
Qed.

Lemma agg_update_holds s seen xs b ys :
  agg_holds t ci dt s seen xs → contributes ci b ys →
  ∃ s', vectorized_agg_update avx2 s b = Ok s' ∧ agg_holds t ci dt s' true (xs ++ ys).
Proof.
  intros (E1 & E2 & E3 & Hs) Hb. unfold vectorized_agg_update. rewrite E1, E2, E3. destruct t; try done.
  - destruct (Z.ltb_spec ci 0); [lia|]. rewrite (count_contributed _ _ _ Hb). cbn.
    eexists. split; [done|]. split; [exact E1|]. split; [exact E2|]. split; [exact E3|]. cbn.
    rewrite Hs, length_app, Nat2Z.inj_add. apply swrap_of_cong; [lia|].
    by rewrite (swrap_cong 64 (len xs)) by lia.
  - destruct Hs as [_ Hs]. unfold add_sum. rewrite E2, E3.
    destruct Hb as [Hok (col & rows & Hcol & Hr & ->)].
    pose proof (int64_sum avx2 b ci col rows Hok Hcol Hr) as Hsum.
    assert (Hgo : ∃ s', (v ← vectorized_sum_int64 avx2 b ci;
        Ok (with_sum s (add64 (sum_int64 s) v) (sum_float64 s))) = Ok s' ∧
        agg_type s' = VECTORIZED_AGG_SUM ∧ a_column_index s' = ci ∧ a_data_type s' = dt ∧
        has_value s' = true ∧ sum_int64 s' = i64 (lsum (xs ++ not_null (selected_rows b rows)))).
    { rewrite Hsum. cbn. eexists. split; [done|]. cbn. repeat split; try done.
      by rewrite Hs, add64_wrap, total_not_null, lsum_app. }
    destruct Hgo as (s' & Hgo & H1 & H2 & H3 & H4 & H5). exists s'.
    by destruct Hdt as [->| ->].
  - destruct (extremum_contributed (λ x m, x <? m) id INT64_MAX 0 ci b ys) as ([m f] & Hm & Hc);
      [done..|].
    assert (Hgo : vectorized_min_int64 b ci = Ok (m, f)) by done.
    exists (replace_min s (m, f)). split; [rewrite Hgo; by destruct Hdt as [->| ->]|].
    repeat split; [by unfold replace_min; destruct_if..|].
    rewrite best_app by done. rewrite <- Hs. unfold carries in Hc. unfold replace_min.
    destruct (best id INT64_MAX ys) as [m'|]; [destruct Hc as [[= -> ->] _]|injection Hc as -> ->];
      cbn; destruct (has_value s) eqn:Eh; cbn; rewrite ?Eh; try done.
    unfold closer, id. by destruct (m' <? min_int64 s); cbn; rewrite ?Eh.
  - destruct (extremum_contributed (λ x m, m <? x) Z.opp INT64_MIN 0 ci b ys) as ([m f] & Hm & Hc);
      [|done|].
    { intros x m. unfold closer. destruct (Z.ltb_spec m x), (Z.ltb_spec (- x) (- m)); lia. }
    assert (Hgo : vectorized_max_int64 b ci = Ok (m, f)) by done.
    exists (replace_max s (m, f)). split; [rewrite Hgo; by destruct Hdt as [->| ->]|].
    repeat split; [by unfold replace_max; destruct_if..|].
    rewrite best_app by lia. rewrite <- Hs. unfold carries in Hc. unfold replace_max.
    destruct (best Z.opp INT64_MIN ys) as [m'|]; [destruct Hc as [[= -> ->] _]|injection Hc as -> ->];
      cbn; destruct (has_value s) eqn:Eh; cbn; rewrite ?Eh; try done.
    unfold closer. destruct (Z.ltb_spec (- m') (- max_int64 s)), (Z.ltb_spec (max_int64 s) m');
      cbn; rewrite ?Eh; try done; lia.
Qed.

Lemma agg_run_holds s seen xs bs xss :
  agg_holds t ci dt s seen xs → Forall2 (contributes ci) bs xss →
  ∃ s', agg_run avx2 s bs = Ok s' ∧ agg_holds t ci dt s' (seen || negb (bool_decide (bs = []))) (xs ++ concat xss).
Proof.
  intros Hs Hb. revert s seen xs Hs. induction Hb as [|b ys bs yss Hb _ IH]; intros s seen xs Hs.
  - exists s. split; [done|]. cbn. by rewrite orb_false_r, app_nil_r.
  - destruct (agg_update_holds s seen xs b ys Hs Hb) as (s1 & E & H1).
    destruct (IH s1 true (xs ++ ys) H1) as (s2 & E2 & H2). exists s2. split.
    + cbn. by rewrite E.
    + cbn in *. rewrite <- app_assoc in H2. by destruct seen.
Qed.

Lemma finalize_holds s seen xs :
  agg_holds t ci dt s seen xs →
  vectorized_agg_finalize s = (λ z, DatumVal (u64 z)) <$> aggregate_value t seen xs.
Proof.
  intros (E1 & E2 & E3 & Hs). unfold vectorized_agg_finalize, aggregate_value. rewrite E1, E3.
  destruct t; try done; cbn [fmap option_fmap option_map].
  - by rewrite Hs, uwrap_swrap by lia.
  - destruct Hs as [-> ->]. destruct seen; cbn; [|done].
    destruct Hdt as [->| ->]; by rewrite uwrap_swrap by lia.
  - rewrite <- Hs. destruct (has_value s); cbn; [|done]. by destruct Hdt as [->| ->].
  - rewrite <- Hs. destruct (has_value s); cbn; [|done]. by destruct Hdt as [->| ->].
Qed.
End aggregates.

Lemma contributed_int64 ci b xs : contributes ci b xs → Forall (in_i 64) xs.
Proof.
  intros [[Hc _] (col & rows & _ & Hr & ->)].
  pose proof (rows_in_view _ _ _ _ (proj1 Hc) Hr) as Hin. rewrite Forall_forall in Hin.
  apply Forall_forall. intros x Hx. unfold not_null in Hx.
  apply list_elem_of_omap in Hx as ([n y] & Hy & Hxy). destruct n; [done|]. injection Hxy as ->.
  assert (Hrow : (false, x) ∈ rows).
  { unfold selected_rows in Hy. destruct (has_selection b); [|done].
    apply list_elem_of_omap in Hy as (i & _ & Hi). by eapply list_elem_of_lookup_2. }
  assert (Hv : x ∈ int64s col) by (apply Hin, list_elem_of_fmap; by exists (false, x)).
  unfold int64s in Hv. apply list_elem_of_fmap in Hv as (z & -> & _). apply swrap_range. lia.
Qed.

(** The value that SQL gives an aggregate of these non-null values, [None] being NULL. *)
Definition sql_value (t : VectorizedAggType) (xs : list Z) (o : option Z) : Prop :=
  match t with
  | VECTORIZED_AGG_COUNT => o = Some (len xs)
  | VECTORIZED_AGG_SUM => o = if decide (xs = []) then None else Some (lsum xs)
  | VECTORIZED_AGG_MIN => match o with None => xs = [] | Some m => m ∈ xs ∧ Forall (λ x, m ≤ x) xs end
  | VECTORIZED_AGG_MAX => match o with None => xs = [] | Some m => m ∈ xs ∧ Forall (λ x, x ≤ m) xs end
  | VECTORIZED_AGG_AVG => False
  end.

(** The values for which the kernels do what SQL does: there is one to sum, and the minimum and
    the maximum are not the values that the search starts with. *)
Definition regular (t : VectorizedAggType) (xs : list Z) : Prop :=
  match t with
  | VECTORIZED_AGG_SUM => xs ≠ []
  | VECTORIZED_AGG_MIN => xs = [] ∨ Exists (λ x, x < INT64_MAX) xs
  | VECTORIZED_AGG_MAX => xs = [] ∨ Exists (λ x, INT64_MIN < x) xs
  | _ => True
  end.

Lemma aggregate_value_sql t xs :
  t ≠ VECTORIZED_AGG_AVG → Forall (in_i 64) xs → regular t xs → ∀ seen, (xs ≠ [] → seen = true) →
  sql_value t xs (aggregate_value t seen xs).
Proof.
  intros Ht Hb Hr seen Hseen. rewrite Forall_forall in Hb. unfold in_i in Hb.
  destruct t; cbn [sql_value aggregate_value regular] in *; try done.
  - rewrite Hseen by done. by rewrite decide_False.
  - destruct (best id INT64_MAX xs) as [m|] eqn:E.
    + apply best_least in E as (Hm & _ & Hl). split; [done|]. by apply Forall_forall.
    + destruct Hr as [|Hr]; [done|]. apply Exists_exists in Hr as (x & Hx & Hlt).
      pose proof (best_none _ _ _ _ E Hx). unfold id in *. lia.
  - destruct (best Z.opp INT64_MIN xs) as [m|] eqn:E.
    + apply best_least in E as (Hm & _ & Hl). split; [done|]. apply Forall_forall.
      intros x Hx. specialize (Hl x Hx). lia.
    + destruct Hr as [|Hr]; [done|]. apply Exists_exists in Hr as (x & Hx & Hlt).
      pose proof (best_none _ _ _ _ E Hx). lia.
Qed.

(** C13: COUNT, SUM, MIN and MAX of an [int8] or timestamp column (the other types and AVG are not
    covered) over any number of batches are what SQL says of the values that are selected and not
    null, when there is a value to sum, and not all the values are 2^63-1 for MIN or -2^63 for MAX
    ([regular]); a sum is kept modulo 2^64.  In every case the result is [aggregate_value], in
    which the sum of no value is 0 and the extremum of those values is NULL. *)
Theorem integer_aggregates_refine (avx2 : bool) (t : VectorizedAggType) (ci : Z)
    (dt : VectorizedDataType) (bs : list VectorBatch) (xss : list (list Z)) :
  0 ≤ ci → dt = VECTORIZED_TYPE_INT64 ∨ dt = VECTORIZED_TYPE_TIMESTAMP →
  t ≠ VECTORIZED_AGG_AVG → Forall2 (contributes ci) bs xss →
  ∃ s v, agg_run avx2 (agg_start t ci dt) bs = Ok s ∧
    vectorized_agg_finalize s = (λ z, DatumVal (u64 z)) <$> v ∧
    v = aggregate_value t (negb (bool_decide (bs = []))) (concat xss) ∧
    (regular t (concat xss) → sql_value t (concat xss) v).
Proof.
  intros Hci Hdt Ht Hb.
  destruct (agg_run_holds avx2 t ci dt Hci Hdt Ht (agg_start t ci dt) false [] bs xss) as (s & E & Hs);
    [|done|].
  - repeat split. by destruct t.
  - eexists s, _. split; [done|]. split; [by apply (finalize_holds t ci dt Hdt)|]. split; [done|].
    intros Hr. apply aggregate_value_sql; [done| |done|].
    + apply Forall_concat. clear -Hb. induction Hb; constructor; eauto using contributed_int64.
    + intros Hx. destruct Hb; done.
Qed.

(** ** Where the builds differ, and concrete batches *)

Definition sample_column (t : VectorizedDataType) (w : Z) (vals : list Z) (mask : Z) : VectorColumn :=
  {| data_type := t; type_len := w; type_byval := true; type_oid := 0; data := vals ≫= le_enc w;
     nulls := [mask]; has_nulls := negb (mask =? 0) |}.

Definition sample_batch (n : Z) (cols : list VectorColumn) : VectorBatch :=
  {| capacity := 16; count := n; column_count := len cols; columns := map Some cols; selection := [];
     has_selection := false; rows_processed := 0; rows_filtered := 0 |}.

Definition nan_bits : Z := 0x7FF8000000000000.
Definition inf_bits : Z := 0x7FF0000000000000.

(** [<>] on a NaN: the vector comparison is ordered and drops the row, the scalar
    one keeps it. *)
Theorem nan_not_equal_differs :
  let b := sample_batch 4 [sample_column VECTORIZED_TYPE_FLOAT64 8 [nan_bits; 0; 0; 0] 0] in
  let f := {| f_column_index := 0; f_compare_op := VECTORIZED_CMP_NE;
              f_data_type := VECTORIZED_TYPE_FLOAT64; f_const_value := 0 |} in
  selection <$> vectorized_filter_generic true b f = Ok [] ∧
  selection <$> vectorized_filter_generic false b f = Ok [0].
Proof. split; vm_compute; reflexivity. Qed.

(** IS NULL raises an error in the AVX2 build from four rows on, and selects no
    row in the scalar build. *)
Theorem is_null_filter_differs :
  let b := sample_batch 4 [sample_column VECTORIZED_TYPE_INT64 8 [1; 2; 3; 4] 3] in
  let f := {| f_column_index := 0; f_compare_op := VECTORIZED_CMP_IS_NULL;
              f_data_type := VECTORIZED_TYPE_INT64; f_const_value := 0 |} in
  vectorized_filter_generic true b f = Err "unsupported comparison operator" ∧
  selection <$> vectorized_filter_generic false b f = Ok [].
Proof. split; vm_compute; reflexivity. Qed.

(** The double sum of the AVX2 build adds null rows and subtracts them again: an
    infinity in a null row makes the sum NaN. *)
Theorem null_infinity_poisons_sum :
  let b := sample_batch 4 [sample_column VECTORIZED_TYPE_FLOAT64 8 [inf_bits; 0; 0; 0] 1] in
  vectorized_sum_float64 true b 0 = Ok S754_nan ∧
  vectorized_sum_float64 false b 0 = Ok (S754_zero false).
Proof. split; vm_compute; reflexivity. Qed.

(** A column whose only values are 2^63-1 has the minimum NULL. *)
Example greatest_value_is_no_minimum :
  let b := sample_batch 2 [sample_column VECTORIZED_TYPE_INT64 8 [INT64_MAX; INT64_MAX] 0] in
  vectorized_agg_finalize <$>
    agg_run true (agg_start VECTORIZED_AGG_MIN 0 VECTORIZED_TYPE_INT64) [b] = Ok None.
Proof. vm_compute. reflexivity. Qed.

Definition wide_batch : VectorBatch :=
  sample_batch 6 [sample_column VECTORIZED_TYPE_INT64 8 [5; -3; 7; 7; 0; 9] 4].
Definition wide_rows : list (bool * Z) :=
  [(false, 5); (false, -3); (true, 7); (false, 7); (false, 0); (false, 9)].

Lemma sample_batch_ok n cols : 0 ≤ n ≤ 16 → batch_ok (sample_batch n cols).
Proof. intros. by split. Qed.

Lemma wide_batch_contributes : contributes 0 wide_batch [5; -3; 7; 0; 9].
Proof.
  split; [by apply sample_batch_ok|]. eexists _, wide_rows. split; [reflexivity|].
  split; vm_compute; reflexivity.
Qed.

Definition wide_filter : VectorizedFilterState :=
  {| f_column_index := 0; f_compare_op := VECTORIZED_CMP_GE;
     f_data_type := VECTORIZED_TYPE_INT64; f_const_value := 5 |}.

Lemma simd_filters_agree_witness :
  ∃ b', vectorized_filter_generic true wide_batch wide_filter = Ok b' ∧
    vectorized_filter_generic false wide_batch wide_filter = Ok b' ∧
    batch_ok b' ∧ same_rows wide_batch b' ∧
    selection b' = filter (λ i, [true; false; false; true; false; true] !! Z.to_nat i = Some true)
                     (rows_selected wide_batch).
Proof.
  apply (simd_filters_agree wide_batch wide_filter [true; false; false; true; false; true]).
  - by apply sample_batch_ok.
  - split; [reflexivity|discriminate].
  - vm_compute. reflexivity.
Defined.

Lemma integer_sums_exact_witness :
  vectorized_sum_int64 true wide_batch 0 = Ok (i64 (total (selected_rows wide_batch wide_rows))).
Proof.
  apply (integer_sums_exact true wide_batch 0
    (sample_column VECTORIZED_TYPE_INT64 8 [5; -3; 7; 7; 0; 9] 4)).
  - by apply sample_batch_ok.
  - reflexivity.
  - vm_compute. reflexivity.
Defined.

Lemma selections_combine_witness :
  (∃ b', vectorized_selection_and wide_batch [1; 3; 5] = Ok b' ∧ batch_ok b' ∧
     ∀ i, i ∈ rows_selected b' ↔ i ∈ rows_selected wide_batch ∧ i ∈ [1; 3; 5]) ∧
  (∃ b', vectorized_selection_or wide_batch [1; 3; 5] = Ok b' ∧ batch_ok b' ∧
     ∀ i, i ∈ rows_selected b' ↔ i ∈ rows_selected wide_batch ∨ i ∈ [1; 3; 5]).
Proof.
  apply (selections_combine wide_batch [1; 3; 5]).
  - by apply sample_batch_ok.
  - repeat constructor.
  - repeat constructor; vm_compute; done.
Defined.

Lemma integer_aggregates_refine_witness :
  let xs := [5; -3; 7; 0; 9; 5; -3; 7; 0; 9] in
  ∃ s v, agg_run true (agg_start VECTORIZED_AGG_MIN 0 VECTORIZED_TYPE_INT64) [wide_batch; wide_batch] = Ok s ∧
    vectorized_agg_finalize s = (λ z, DatumVal (u64 z)) <$> v ∧ v = Some (-3) ∧
    (regular VECTORIZED_AGG_MIN xs → sql_value VECTORIZED_AGG_MIN xs v).
Proof.
  apply (integer_aggregates_refine true VECTORIZED_AGG_MIN 0 VECTORIZED_TYPE_INT64
    [wide_batch; wide_batch] [[5; -3; 7; 0; 9]; [5; -3; 7; 0; 9]]).
  - lia.
  - by left.
  - discriminate.
  - repeat constructor; apply wide_batch_contributes.
Defined.
