(* ===== verification/VectorScan.v ===== *)
(** * The vectorized scan of columnar tables

    Models [src/executor/vectorized_scan.c] and [vectorized_batch_to_slots] of
    [src/executor/vectorized.c]: the loop that fills batches from the chunk groups
    of [Columnar], the loading of columns, and the predicates applied to a batch.
    [address] gives the address of a value passed by reference. *)
From Stdlib Require Import Floats.SpecFloat Sorting.Sorted.
From stdpp Require Import sets.
From S2P Require Import Prelude Postgres Float Codec Columnar Vector.
Local Open Scope Z_scope.

(** ** Loading columns *)

(** A write of [bytes] at offset [i], undefined outside the buffer. *)
Definition store (i : Z) (bytes buffer : list Z) : outcome (list Z) :=
  if decide (0 ≤ i ∧ i + len bytes ≤ len buffer)
  then Ok (take (Z.to_nat i) buffer ++ bytes ++ drop (Z.to_nat i + length bytes) buffer)
  else Undef.

Definition set_null (words : list Z) (j : Z) : outcome (list Z) :=
  w ← deref (words !! Z.to_nat (j / 64));
  Ok (<[Z.to_nat (j / 64) := Z.lor w (Z.shiftl 1 (j mod 64))]> words).

Definition with_data (col : VectorColumn) (bytes words : list Z) (has : bool) : VectorColumn :=
  {| data_type := data_type col; type_len := type_len col; type_byval := type_byval col;
     type_oid := type_oid col; data := bytes; nulls := words; has_nulls := has |}.

Section load.
Context (address : list Z → Z).

Definition datum_word (d : Datum) : Z :=
  match d with DatumVal z => z | DatumRef bytes => address bytes end.

(** The bytes an element takes in the buffer of its type. *)
Definition element_size (t : VectorizedDataType) : Z :=
  match t with VECTORIZED_TYPE_STRING => 8 | _ => type_size t end.

Definition element_bytes (t : VectorizedDataType) (d : Datum) : list Z :=
  match t with
  | VECTORIZED_TYPE_BOOL => [if datum_word d =? 0 then 0 else 1]
  | _ => le_enc (element_size t) (datum_word d)
  end.

(** The loop over the rows of one column. *)
Fixpoint load_values (j : Z) (src : list (option Datum)) (col : VectorColumn) : outcome VectorColumn :=
  match src with
  | [] => Ok col
  | None :: src =>
      words ← set_null (nulls col) j;
      load_values (j + 1) src (with_data col (data col) words true)
  | Some d :: src =>
      bytes ← store (j * element_size (data_type col)) (element_bytes (data_type col) d) (data col);
      load_values (j + 1) src (with_data col bytes (nulls col) (has_nulls col))
  end.

Definition all_null (n : Z) (col : VectorColumn) : outcome VectorColumn :=
  let k := Z.to_nat ((n + 63) / 64) in
  if (length (nulls col) <? k)%nat then Undef else
  Ok (with_data col (data col) (replicate k (2 ^ 64 - 1) ++ drop k (nulls col)) true).

(** One iteration over the projection; [chunk] tells whether the stripe has a
    chunk of the column. *)
Definition load_one (n : Z) (chunk : bool) (buf : ColumnReadBuffer) (col : VectorColumn)
    : outcome VectorColumn :=
  if negb chunk then all_null n col
  else if is_loaded buf then
    if len (r_rows buf) <? n then Undef else load_values 0 (take (Z.to_nat n) (r_rows buf)) col
  else Ok col.

Fixpoint load_projection (n : Z) (has_chunk : Z → bool) (bufs : list ColumnReadBuffer)
    (projection : list Z) (cols : list (option VectorColumn)) : outcome (list (option VectorColumn)) :=
  match projection, cols with
  | table_col :: projection, col :: cols =>
      buf ← deref (bufs !! Z.to_nat table_col);
      col ← deref col;
      col ← load_one n (has_chunk table_col) buf col;
      rest ← load_projection n has_chunk bufs projection cols;
      Ok (Some col :: rest)
  | [], cols => Ok cols
  | _, [] => Undef
  end.

Definition load_batch_from_chunk_group (projection : list Z) (group_rows : Z) (has_chunk : Z → bool)
    (bufs : list ColumnReadBuffer) (b : VectorBatch) : outcome VectorBatch :=
  let n := i32 (Z.min group_rows (capacity b)) in
  cols ← load_projection n has_chunk bufs projection (columns b);
  Ok (with_selection (with_columns b n cols) [] false (rows_filtered b)).

(** ** The scan *)

Context (attrs : list Attr) (needed : Z → bool) (c : Catalog).

Definition projection_map : list Z := filter (λ i, needed i = true) (seqZ 0 (len attrs)).

(** Rows of fixed width; those the data does not reach keep the zero of [palloc0]. *)
Fixpoint scan_fixed (n : nat) (attlen offset : Z) (bytes : list Z) : outcome (list (option Datum)) :=
  match n with
  | O => Ok []
  | S n =>
      if offset <? len bytes then
        bs ← deref (mem_get offset attlen bytes);
        vs ← scan_fixed n attlen (offset + attlen) bytes;
        Ok (Some (DatumVal (le_dec bs)) :: vs)
      else Ok (replicate (S n) (Some (DatumVal 0)))
  end.

(** The last chunk row of a column, whatever its group, is the one that stays. *)
Definition column_meta (stripe_id col : Z) : option ChunkRow :=
  last (filter (λ r, k_column r = col) (orochi_catalog_get_stripe_columns c stripe_id)).

(** The sizes and the codec are read from fields of [OrochiColumnChunk] that the
    catalog does not fill, so the stored bytes are taken as they are. *)
Definition scan_column (s : ColumnarStripe) (group col : Z) (attr : Attr) (old : ColumnReadBuffer)
    : outcome ColumnReadBuffer :=
  if negb (needed col) then Ok old else
  let n := Z.to_nat (row_count s) in
  rows ← match column_meta (stripe_id s) col with
         | None => Ok (replicate n None)
         | Some meta =>
             match orochi_catalog_read_chunk_data c (stripe_id s) group col with
             | Some (b :: bs) =>
                 if fixed_width attr then scan_fixed n (attlen attr) 0 (b :: bs)
                 else decode_var n 0 (len (b :: bs)) (b :: bs)
             | _ => Ok (replicate n (if k_has_nulls meta then None else Some (DatumVal 0)))
             end
         end;
  Ok {| r_rows := rows; is_loaded := true |}.

Fixpoint scan_columns (s : ColumnarStripe) (group col : Z) (l : list Attr)
    (old : list ColumnReadBuffer) : outcome (list ColumnReadBuffer) :=
  match l, old with
  | attr :: l, o :: old =>
      b ← scan_column s group col attr o;
      bs ← scan_columns s group (col + 1) l old;
      Ok (b :: bs)
  | _, _ => Ok []
  end.

Record VectorizedScanState := {
  columnar_state : ColumnarReadState; current_batch : VectorBatch;
  predicates : list Node; skip_list : option (list ColumnarSkipListEntry);
  filters : list VectorizedFilterState; chunks_skipped : Z }.

Definition with_read (st : VectorizedScanState) (rs : ColumnarReadState) (b : VectorBatch)
    (skipped : Z) : VectorizedScanState :=
  {| columnar_state := rs; current_batch := b; predicates := predicates st;
     skip_list := skip_list st; filters := filters st; chunks_skipped := skipped |}.

Fixpoint add_columns (b : VectorBatch) (i : Z) (projection : list Z) : outcome VectorBatch :=
  match projection with
  | [] => Ok b
  | table_col :: projection =>
      attr ← deref (attrs !! Z.to_nat table_col);
      b ← vector_batch_add_column b i (vectorized_type_from_oid (atttypid attr)) (atttypid attr);
      add_columns b (i + 1) projection
  end.

Definition vectorized_columnar_scan_begin : outcome VectorizedScanState :=
  b ← vector_batch_create VECTORIZED_BATCH_SIZE (len projection_map);
  b ← add_columns b 0 projection_map;
  Ok {| columnar_state := columnar_begin_read attrs c; current_batch := b; predicates := [];
        skip_list := None; filters := []; chunks_skipped := 0 |}.

(** The position of the reader. *)
Definition read_at (rs : ColumnarReadState) (chunk_group : option Z) (row total : Z)
    (bufs : list ColumnReadBuffer) : ColumnarReadState :=
  {| stripe_list := stripe_list rs; current_stripe_index := current_stripe_index rs;
     current_stripe := current_stripe rs;
     current_chunk_group_index := current_chunk_group_index rs;
     current_chunk_group := chunk_group; current_row_in_chunk := row; read_buffers := bufs;
     total_rows_read := total; stripes_scanned := stripes_scanned rs |}.

Inductive turn :=
| NoMoreData (rs : ColumnarReadState)
| Skipped (rs : ColumnarReadState)
| Loaded (rs : ColumnarReadState) (rows : Z).

(** The part of an iteration that makes sure a chunk group is loaded. *)
Definition ensure_chunk_group (st : VectorizedScanState) : outcome turn :=
  let rs := columnar_state st in
  let fresh := match current_chunk_group rs with
               | Some n => if current_row_in_chunk rs <? n then Some n else None
               | None => None
               end in
  match fresh with
  | Some n => Ok (Loaded rs n)
  | None =>
      let group := current_chunk_group_index rs + 1 in
      let next_stripe := match current_stripe rs with
                         | None => true
                         | Some s => chunk_group_count s <=? group
                         end in
      let index := current_stripe_index rs + 1 in
      if next_stripe && (len (stripe_list rs) <=? index)
      then Ok (NoMoreData (move_to rs index (current_stripe rs) group (stripes_scanned rs)))
      else
        rs ← (if next_stripe then
                s ← deref (stripe_list rs !! Z.to_nat index);
                Ok (move_to rs index (Some s) 0 (stripes_scanned rs + 1))
              else Ok (move_to rs (current_stripe_index rs) (current_stripe rs) group
                         (stripes_scanned rs)));
        s ← deref (current_stripe rs);
        let skip := match skip_list st with
                    | Some l => negb (bool_decide (predicates st = [])) &&
                                vectorized_can_skip l (stripe_id s) (current_chunk_group_index rs)
                                  (predicates st)
                    | None => false
                    end in
        if skip : bool then Ok (Skipped rs) else
        bufs ← scan_columns s (current_chunk_group_index rs) 0 attrs (read_buffers rs);
        Ok (Loaded (read_at rs (Some (row_count s)) 0 (total_rows_read rs) bufs) (row_count s))
  end.

Definition has_chunk (rs : ColumnarReadState) (col : Z) : bool :=
  match current_stripe rs with
  | Some s => match column_meta (stripe_id s) col with Some _ => true | None => false end
  | None => false
  end.

(** The loop; the result is the state and the number of rows of the batch. *)
Fixpoint scan_loop (fuel : nat) (rows_loaded : Z) (st : VectorizedScanState)
    : outcome (VectorizedScanState * Z) :=
  match fuel with
  | O => Diverge
  | S fuel =>
      if VECTORIZED_BATCH_SIZE <=? rows_loaded then Ok (st, rows_loaded) else
      t ← ensure_chunk_group st;
      match t with
      | NoMoreData rs => Ok (with_read st rs (current_batch st) (chunks_skipped st), rows_loaded)
      | Skipped rs =>
          scan_loop fuel rows_loaded (with_read st rs (current_batch st) (chunks_skipped st + 1))
      | Loaded rs n =>
          let rows_to_load := i32 (Z.min (n - current_row_in_chunk rs)
                                     (VECTORIZED_BATCH_SIZE - rows_loaded)) in
          '(b, rows_loaded) ←
            (if (current_row_in_chunk rs =? 0) && (0 <? rows_to_load) then
               b ← load_batch_from_chunk_group projection_map n (has_chunk rs) (read_buffers rs)
                     (current_batch st);
               Ok (b, count b)
             else Ok (current_batch st, rows_loaded));
          let rs := read_at rs (Some n) (current_row_in_chunk rs + rows_to_load)
                      (total_rows_read rs + rows_to_load) (read_buffers rs) in
          scan_loop fuel rows_loaded (with_read st rs b (chunks_skipped st))
      end
  end.

(** [None] is the end of the table. *)
Definition vectorized_columnar_scan (fuel : nat) (st : VectorizedScanState)
    : outcome (VectorizedScanState * option VectorBatch) :=
  let st := with_read st (columnar_state st) (vector_batch_reset (current_batch st))
              (chunks_skipped st) in
  '(st, rows) ← scan_loop fuel 0 st;
  if rows =? 0 then Ok (st, None) else
  let b := current_batch st in
  let b := {| capacity := capacity b; count := rows; Vector.column_count := Vector.column_count b;
              columns := columns b; selection := selection b; has_selection := has_selection b;
              rows_processed := rows_processed b + rows; rows_filtered := rows_filtered b |} in
  Ok (with_read st (columnar_state st) b (chunks_skipped st), Some b).
End load.

(** ** Predicates *)

Definition Int84LEOperator : Z := 542.
Definition Int84GEOperator : Z := 544.

(** An operator that is not listed is taken for equality. *)
Definition pg_op_to_vectorized (opno : Z) : VectorizedCompareOp :=
  if decide (opno ∈ [Int4EqualOperator; Int8EqualOperator; Float8EqualOperator]) then VECTORIZED_CMP_EQ
  else if decide (opno ∈ [Int4LessOperator; Int8LessOperator]) then VECTORIZED_CMP_LT
  else if decide (opno = Int84LEOperator) then VECTORIZED_CMP_LE
  else if decide (opno ∈ [Int4GreaterOperator; Int8GreaterOperator]) then VECTORIZED_CMP_GT
  else if decide (opno = Int84GEOperator) then VECTORIZED_CMP_GE
  else VECTORIZED_CMP_EQ.

Definition reverse_op (op : VectorizedCompareOp) : VectorizedCompareOp :=
  match op with
  | VECTORIZED_CMP_LT => VECTORIZED_CMP_GT
  | VECTORIZED_CMP_LE => VECTORIZED_CMP_GE
  | VECTORIZED_CMP_GT => VECTORIZED_CMP_LT
  | VECTORIZED_CMP_GE => VECTORIZED_CMP_LE
  | _ => op
  end.

Section predicates.
Context (avx2 : bool) (attrs : list Attr) (projection : list Z).

(** The type of a column reference is the type of the column. *)
Definition vartype (attno : Z) : Z :=
  match attrs !! Z.to_nat (attno - 1) with Some a => atttypid a | None => 0 end.

(** The column, operator, constant and type of a predicate that is pushed down. *)
Definition can_pushdown_predicate (node : Node)
    : option (Z * VectorizedCompareOp * Z * VectorizedDataType) :=
  let build attno isnull v op :=
    if isnull : bool then None else
    let t := vectorized_type_from_oid (vartype attno) in
    if decide (t = VECTORIZED_TYPE_UNKNOWN) then None else Some (attno - 1, op, v, t) in
  match node with
  | OpExpr opno [Var attno; Const isnull v] => build attno isnull v (pg_op_to_vectorized opno)
  | OpExpr opno [Const isnull v; Var attno] =>
      build attno isnull v (reverse_op (pg_op_to_vectorized opno))
  | _ => None
  end.

Fixpoint find_column (i col : Z) (l : list Z) : option Z :=
  match l with
  | [] => None
  | x :: l => if x =? col then Some i else find_column (i + 1) col l
  end.

Definition batch_column (col : Z) : option Z := find_column 0 col projection.

(** A filter on a column outside the projection is ignored with a warning. *)
Definition vectorized_scan_add_filter (fs : list VectorizedFilterState) (col : Z)
    (op : VectorizedCompareOp) (v : Z) (t : VectorizedDataType) : list VectorizedFilterState :=
  match batch_column col with
  | None => fs
  | Some i => fs ++ [{| f_column_index := i; f_compare_op := op; f_data_type := t; f_const_value := v |}]
  end.

Definition is_exhausted (b : VectorBatch) : bool := has_selection b && (selected_count b =? 0).

Fixpoint apply_filters (fs : list VectorizedFilterState) (b : VectorBatch) : outcome VectorBatch :=
  match fs with
  | [] => Ok b
  | f :: fs =>
      b ← vectorized_filter_generic avx2 b f;
      if is_exhausted b then Ok b else apply_filters fs b
  end.

(** The filter of a predicate; types without a kernel filter nothing. *)
Definition predicate_filter (node : Node) : option VectorizedFilterState :=
  '(col, op, v, t) ← can_pushdown_predicate node;
  i ← batch_column col;
  match t with
  | VECTORIZED_TYPE_BOOL | VECTORIZED_TYPE_STRING | VECTORIZED_TYPE_UNKNOWN => None
  | _ => Some {| f_column_index := i; f_compare_op := op; f_data_type := t; f_const_value := v |}
  end.

Fixpoint apply_predicates (ps : list Node) (b : VectorBatch) : outcome VectorBatch :=
  match ps with
  | [] => Ok b
  | p :: ps =>
      b ← match predicate_filter p with
          | Some f => vectorized_filter_generic avx2 b f
          | None => Ok b
          end;
      if is_exhausted b then Ok b else apply_predicates ps b
  end.

Definition vectorized_apply_predicate (fs : list VectorizedFilterState) (ps : list Node)
    (b : VectorBatch) : outcome VectorBatch :=
  b ← apply_filters fs b; apply_predicates ps b.
End predicates.

(** ** Rows *)

(** The datum of a row of a column; [None] is NULL. *)
Definition column_datum (col : option VectorColumn) (i : Z) : outcome (option Datum) :=
  match col with
  | None => Ok None
  | Some col =>
      if has_nulls col && null_bit (nulls col) i then Ok None else
      let get view := x ← deref (view !! Z.to_nat i); Ok (Some (DatumVal x)) in
      match data_type col with
      | VECTORIZED_TYPE_INT32 | VECTORIZED_TYPE_DATE => get (map u64 (int32s col))
      | VECTORIZED_TYPE_INT64 | VECTORIZED_TYPE_TIMESTAMP => get (map u64 (int64s col))
      | VECTORIZED_TYPE_FLOAT32 => get (elements 4 (data col))
      | VECTORIZED_TYPE_BOOL => get (map (λ b : bool, if b then 1 else 0) (bools col))
      | _ => get (elements 8 (data col))
      end
  end.

Fixpoint row_datums (natts : nat) (cols : list (option VectorColumn)) (i : Z)
    : outcome (list (option Datum)) :=
  match natts, cols with
  | S natts, col :: cols =>
      d ← column_datum col i; ds ← row_datums natts cols i; Ok (d :: ds)
  | _, _ => Ok []
  end.

(** The rows stored in the first [max_slots] slots. *)
Definition vectorized_batch_to_slots (b : VectorBatch) (natts : nat) (max_slots : Z)
    : outcome (list (list (option Datum))) :=
  let rows := if has_selection b then selection b else seqZ 0 (count b) in
  (fix go (rows : list Z) : outcome (list (list (option Datum))) :=
     match rows with
     | [] => Ok []
     | i :: rows => r ← row_datums natts (columns b) i; rs ← go rows; Ok (r :: rs)
     end) (take (Z.to_nat max_slots) rows).

(** ** Predicates select the conjunction *)

Lemma filter_mask_same b b' f : same_rows b b' → filter_mask b' f = filter_mask b f.
Proof.
  intros (_ & E2 & E3 & E4). unfold filter_mask, get_column. by rewrite E2, E3, E4.
Qed.

Lemma filter_exact_same b b' f : same_rows b b' → filter_exact b f → filter_exact b' f.
Proof.
  intros (_ & _ & E3 & E4). unfold filter_exact, compared_floats, lookup_column. by rewrite E3, E4.
Qed.

(** A filter that applies to a batch, with its mask. *)
Definition applies (b : VectorBatch) (f : VectorizedFilterState) (m : list bool) : Prop :=
  filter_exact b f ∧ filter_mask b f = Ok m.

Lemma applies_same b b' f m : same_rows b b' → applies b f m → applies b' f m.
Proof.
  intros Hs [H1 H2]. split; [by eapply filter_exact_same|]. by rewrite (filter_mask_same b b').
Qed.

Definition passes (masks : list (list bool)) (i : Z) : Prop :=
  Forall (λ m, m !! Z.to_nat i = Some true) masks.
#[export] Instance passes_dec masks i : Decision (passes masks i).
Proof. unfold passes. apply _. Defined.

(** A batch after the filters with these masks. *)
Definition narrowed (b : VectorBatch) (masks : list (list bool)) (b' : VectorBatch) : Prop :=
  batch_ok b' ∧ same_rows b b' ∧ rows_selected b' = filter (passes masks) (rows_selected b).

Lemma narrowed_none b : batch_ok b → narrowed b [] b.
Proof.
  intros H. split; [done|]. split; [done|]. symmetry. apply filter_all.
  intros i _. apply Forall_nil_2.
Qed.

Lemma narrowed_trans b ms b1 ms' b2 :
  narrowed b ms b1 → narrowed b1 ms' b2 → narrowed b (ms ++ ms') b2.
Proof.
  intros (_ & S1 & E1) (H2 & S2 & E2). split; [done|]. split; [by etransitivity|].
  rewrite E2, E1. clear. induction (rows_selected b) as [|i l IH]; [done|].
  assert (Hp : passes (ms ++ ms') i ↔ passes ms i ∧ passes ms' i) by apply Forall_app.
  rewrite !filter_cons.
  repeat case_decide; rewrite ?filter_cons; repeat case_decide; rewrite ?IH; try done; tauto.
Qed.

Lemma exhausted_narrowed b ms : is_exhausted b = true → batch_ok b → narrowed b ms b.
Proof.
  intros [Hh He]%andb_true_iff Hok. apply Z.eqb_eq in He. split; [done|]. split; [done|].
  unfold rows_selected. rewrite Hh. unfold selected_count in He.
  by destruct (selection b).
Qed.

Lemma filter_narrows avx2 b f m :
  batch_ok b → applies b f m → ∃ b', vectorized_filter_generic avx2 b f = Ok b' ∧ narrowed b [m] b'.
Proof.
  intros Hok [He Hm]. destruct (filter_generic_selects avx2 b f m Hok He Hm)
    as (b' & E & Hok' & Hs & Hh & Hsel).
  exists b'. split; [done|]. split; [done|]. split; [done|].
  unfold rows_selected at 1. rewrite Hh, Hsel. apply list_filter_iff. intros i.
  unfold passes. rewrite Forall_singleton. done.
Qed.

Section conjunction.
Context (avx2 : bool) (attrs : list Attr) (projection : list Z).

Lemma apply_filters_narrow b fs ms :
  batch_ok b → Forall2 (applies b) fs ms →
  ∃ b', apply_filters avx2 fs b = Ok b' ∧ narrowed b ms b'.
Proof.
  intros Hok Hf. revert b ms Hok Hf. induction fs as [|f fs IH]; intros b ms Hok Hf.
  - inversion Hf; subst. exists b. split; [done|]. by apply narrowed_none.
  - inversion Hf as [|? m ? ms' Hm Hms]; subst.
    destruct (filter_narrows avx2 b f m Hok Hm) as (b1 & E & Hn). cbn. rewrite E. cbn.
    destruct (is_exhausted b1) eqn:Hx.
    + exists b1. split; [done|]. apply (narrowed_trans b [m] b1 ms'); [done|].
      apply exhausted_narrowed; [done|]. apply Hn.
    + destruct (IH b1 ms') as (b2 & E2 & Hn2); [apply Hn| |].
      { eapply Forall2_impl; [exact Hms|]. intros. eapply applies_same; [apply Hn|done]. }
      exists b2. split; [done|]. by apply (narrowed_trans b [m] b1 ms').
Qed.

Lemma apply_predicates_narrow b ps ms :
  batch_ok b → Forall2 (applies b) (omap (predicate_filter attrs projection) ps) ms →
  ∃ b', apply_predicates avx2 attrs projection ps b = Ok b' ∧ narrowed b ms b'.
Proof.
  intros Hok Hf. revert b ms Hok Hf. induction ps as [|p ps IH]; intros b ms Hok Hf.
  - inversion Hf; subst. exists b. split; [done|]. by apply narrowed_none.
  - cbn [omap list_omap] in Hf. cbn [apply_predicates].
    destruct (predicate_filter attrs projection p) as [f|].
    + inversion Hf as [|? m ? ms' Hm Hms]; subst.
      destruct (filter_narrows avx2 b f m Hok Hm) as (b1 & E & Hn). rewrite E. cbn.
      destruct (is_exhausted b1) eqn:Hx.
      * exists b1. split; [done|]. apply (narrowed_trans b [m] b1 ms'); [done|].
        apply exhausted_narrowed; [done|]. apply Hn.
      * destruct (IH b1 ms') as (b2 & E2 & Hn2); [apply Hn| |].
        { eapply Forall2_impl; [exact Hms|]. intros. eapply applies_same; [apply Hn|done]. }
        exists b2. split; [done|]. by apply (narrowed_trans b [m] b1 ms').
    + cbn. destruct (is_exhausted b) eqn:Hx.
      * exists b. split; [done|]. by apply exhausted_narrowed.
      * by apply IH.
Qed.
End conjunction.

(** A batch keeps exactly the selected rows that satisfy every filter and
    every predicate that is pushed down, in order; leaving the loop early once no
    row is left changes nothing. *)
Theorem predicates_conjoin (avx2 : bool) (attrs : list Attr) (projection : list Z)
    (fs : list VectorizedFilterState) (ps : list Node) (b : VectorBatch) (masks : list (list bool)) :
  batch_ok b →
  Forall2 (applies b) (fs ++ omap (predicate_filter attrs projection) ps) masks →
  ∃ b', vectorized_apply_predicate avx2 attrs projection fs ps b = Ok b' ∧ batch_ok b' ∧
    rows_selected b' = filter (passes masks) (rows_selected b).
Proof.
  intros Hok (ms1 & ms2 & H1 & H2 & ->)%Forall2_app_inv_l.
  destruct (apply_filters_narrow avx2 b fs ms1 Hok H1) as (b1 & E1 & Hn1).
  destruct (apply_predicates_narrow avx2 attrs projection b1 ps ms2) as (b2 & E2 & Hn2); [apply Hn1| |].
  { eapply Forall2_impl; [exact H2|]. intros. eapply applies_same; [apply Hn1|done]. }
  exists b2. unfold vectorized_apply_predicate. rewrite E1. cbn. split; [done|].
  destruct (narrowed_trans _ _ _ _ _ Hn1 Hn2) as (? & _ & ?). done.
Qed.

(** ** What is loaded is read back *)

#[local] Arguments elements : simpl never.

Lemma elements_cons w h rest :
  (0 < w)%nat → length h = w → elements w (h ++ rest) = le_dec h :: elements w rest.
Proof.
  intros Hw Hh. unfold elements.
  replace (length (h ++ rest) / w)%nat with (S (length rest / w)).
  - cbn [elements_loop]. by rewrite take_app_length', drop_app_length' by done.
  - rewrite length_app, Hh. replace (w + length rest)%nat with (length rest + 1 * w)%nat by lia.
    rewrite Nat.div_add by lia. lia.
Qed.

Lemma elements_store w i x buffer :
  (0 < w)%nat → length x = w → (i * w + w ≤ length buffer)%nat →
  elements w (take (i * w) buffer ++ x ++ drop (i * w + w) buffer) =
  <[i := le_dec x]> (elements w buffer).
Proof.
  intros Hw Hx. revert buffer. induction i as [|i IH]; intros buffer Hl; cbn [Nat.mul Nat.add] in *.
  - rewrite take_0, app_nil_l, elements_cons by done. rewrite <- (take_drop w buffer) at 2.
    rewrite elements_cons by (rewrite ?length_take; lia). done.
  - rewrite <- (take_drop w buffer). remember (take w buffer) as h eqn:Eh.
    assert (Hh : length h = w) by (subst; rewrite length_take; lia).
    remember (drop w buffer) as rest eqn:Er.
    assert (Hr : (i * w + w ≤ length rest)%nat) by (subst; rewrite length_drop; lia).
    rewrite take_app_ge, drop_app_ge by lia. rewrite Hh.
    replace (w + i * w - w)%nat with (i * w)%nat by lia.
    replace (w + i * w + w - w)%nat with (i * w + w)%nat by lia.
    rewrite <- app_assoc, elements_cons, (elements_cons w h rest) by done. cbn. f_equal. by apply IH.
Qed.

Lemma null_bit_set words j words' i :
  0 ≤ j → 0 ≤ i → set_null words j = Ok words' →
  null_bit words' i = null_bit words i || (i =? j).
Proof.
  intros Hj Hi. unfold set_null, null_bit. intros (w & Hw & E)%outcome_bind_ok.
  apply deref_ok in Hw. injection E as <-. rewrite !nth_lookup.
  assert (0 ≤ j / 64 ∧ 0 ≤ i / 64) as [] by (split; apply Z.div_pos; lia).
  pose proof (Z.mod_pos_bound i 64 ltac:(lia)). pose proof (Z.mod_pos_bound j 64 ltac:(lia)).
  pose proof (Z.div_mod i 64 ltac:(lia)). pose proof (Z.div_mod j 64 ltac:(lia)).
  destruct (decide (i / 64 = j / 64)) as [E|E].
  - rewrite E, list_lookup_insert_eq by (by eapply lookup_lt_Some). rewrite Hw. cbn.
    rewrite Z.lor_spec, Z.shiftl_1_l, Z.pow2_bits_eqb by lia. f_equal.
    destruct (Z.eqb_spec (j mod 64) (i mod 64)), (Z.eqb_spec i j); congruence || lia.
  - rewrite list_lookup_insert_ne by lia. destruct (Z.eqb_spec i j); [congruence|].
    by rewrite orb_false_r.
Qed.

Lemma set_null_ok words (j : nat) :
  (j < 64 * length words)%nat →
  ∃ words', set_null words (Z.of_nat j) = Ok words' ∧ length words' = length words.
Proof.
  intros Hj. unfold set_null.
  destruct (lookup_lt_is_Some_2 words (Z.to_nat (Z.of_nat j / 64))) as [x ->].
  - apply Nat2Z.inj_lt. rewrite Z2Nat.id by (apply Z.div_pos; lia). apply Z.div_lt_upper_bound; lia.
  - eexists. split; [done|]. apply length_insert.
Qed.

(** The representation of a row in a buffer, when it is one. *)
Definition row_fits (t : VectorizedDataType) (row : option Datum) : Prop :=
  match row with
  | None => True
  | Some (DatumRef _) => False
  | Some (DatumVal v) =>
      match t with
      | VECTORIZED_TYPE_INT32 | VECTORIZED_TYPE_DATE => v = u64 (i32 v)
      | VECTORIZED_TYPE_INT64 | VECTORIZED_TYPE_TIMESTAMP | VECTORIZED_TYPE_FLOAT64 => in_u 64 v
      | VECTORIZED_TYPE_FLOAT32 => in_u 32 v
      | VECTORIZED_TYPE_BOOL => v = 0 ∨ v = 1
      | _ => False
      end
  end.

(** A column after the rows [src] are loaded from row [j] on. *)
Definition loaded (address : list Z → Z) (j : nat) (src : list (option Datum))
    (col col' : VectorColumn) : Prop :=
  let t := data_type col in
  let w := Z.to_nat (element_size t) in
  data_type col' = t ∧ length (data col') = length (data col) ∧
  length (nulls col') = length (nulls col) ∧
  has_nulls col' = has_nulls col || existsb (λ r, bool_decide (r = None)) src ∧
  (∀ i, 0 ≤ i → null_bit (nulls col') i = null_bit (nulls col) i ||
     bool_decide (Z.of_nat j ≤ i ∧ src !! (Z.to_nat i - j)%nat = Some None)) ∧
  (∀ i d, src !! i = Some (Some d) →
     elements w (data col') !! (j + i)%nat = Some (le_dec (element_bytes address t d))) ∧
  (∀ i, (i < j)%nat → elements w (data col') !! i = elements w (data col) !! i).

Lemma element_size_pos t : 0 < element_size t.
Proof. by destruct t. Qed.

Lemma element_bytes_length address t d : len (element_bytes address t d) = element_size t.
Proof. destruct t; cbn [element_bytes]; first [by apply le_enc_length | by case_match]. Qed.

Lemma elements_length w (buffer : list Z) : length (elements w buffer) = (length buffer / w)%nat.
Proof.
  unfold elements. generalize (length buffer / w)%nat as n. intros n. revert buffer.
  induction n as [|n IH]; intros buffer; cbn; [done|]. by rewrite IH.
Qed.

Section loading.
Context (address : list Z → Z).

Lemma store_element t d (k : nat) buffer :
  let w := Z.to_nat (element_size t) in
  (k * w + w ≤ length buffer)%nat →
  ∃ buffer', store (Z.of_nat k * element_size t) (element_bytes address t d) buffer = Ok buffer' ∧
    length buffer' = length buffer ∧
    elements w buffer' = <[k := le_dec (element_bytes address t d)]> (elements w buffer).
Proof.
  intros w Hl. pose proof (element_size_pos t) as Hp.
  pose proof (element_bytes_length address t d) as Hb.
  assert (Hw : length (element_bytes address t d) = w) by lia.
  assert (Hk : Z.to_nat (Z.of_nat k * element_size t) = (k * w)%nat) by lia.
  unfold store. rewrite decide_True by lia. eexists. split; [done|]. rewrite Hk, Hw. split.
  - rewrite !length_app, length_take, length_drop. lia.
  - apply elements_store; lia.
Qed.

Lemma load_values_loaded src : ∀ j col,
  (j + length src ≤ 64 * length (nulls col))%nat →
  ((j + length src) * Z.to_nat (element_size (data_type col)) ≤ length (data col))%nat →
  ∃ col', load_values address (Z.of_nat j) src col = Ok col' ∧ loaded address j src col col'.
Proof.
  induction src as [|[d|] src IH]; intros j col Hn Hd; cbn [length load_values] in *.
  - exists col. split; [done|]. repeat split; try done; [by rewrite orb_false_r|].
    intros i Hi. rewrite bool_decide_eq_false_2; [by rewrite orb_false_r|]. by intros [_ ?].
  - destruct (store_element (data_type col) d j (data col)) as (bytes & E & El & Ee); [lia|].
    rewrite E. cbn [mbind outcome_bind]. replace (Z.of_nat j + 1) with (Z.of_nat (S j)) by lia.
    destruct (IH (S j) (with_data col bytes (nulls col) (has_nulls col)))
      as (col' & E' & H1 & H2 & H3 & H4 & H5 & H6 & H7); [cbn in *; lia..|].
    cbn in H1, H2, H3, H4, H5, H6, H7. exists col'. split; [done|].
    split_and!; [done|lia|done|done| | |].
    + intros i Hi. rewrite H5 by done. f_equal. apply bool_decide_ext.
      destruct (Z.lt_trichotomy i (Z.of_nat j)) as [|[->|]]; [split; intros []; lia| |].
      * rewrite Nat2Z.id, Nat.sub_diag. cbn. split; intros []; [lia|done].
      * replace (Z.to_nat i - j)%nat with (S (Z.to_nat i - S j)) by lia.
        cbn. split; intros []; (split; [lia|done]).
    + intros [|i] d' Hi; cbn in Hi.
      * injection Hi as <-. rewrite Nat.add_0_r, H7 by lia. rewrite Ee.
        apply list_lookup_insert_eq. rewrite elements_length.
        apply Nat.div_le_lower_bound; pose proof (element_size_pos (data_type col)); lia.
      * rewrite <- Nat.add_succ_comm. by apply H6.
    + intros i Hi. rewrite H7 by lia. rewrite Ee. apply list_lookup_insert_ne. lia.
  - destruct (set_null_ok (nulls col) j) as (words & E & Hw); [lia|]. rewrite E.
    cbn [mbind outcome_bind]. replace (Z.of_nat j + 1) with (Z.of_nat (S j)) by lia.
    destruct (IH (S j) (with_data col (data col) words true))
      as (col' & E' & H1 & H2 & H3 & H4 & H5 & H6 & H7); [cbn in *; lia..|].
    cbn in H1, H2, H3, H4, H5, H6, H7. exists col'. split; [done|].
    split_and!; [done|done|lia|by rewrite H4; cbn; rewrite orb_true_r| | |].
    + intros i Hi. rewrite H5 by done. rewrite (null_bit_set _ (Z.of_nat j) words i) by (done || lia).
      rewrite <- orb_assoc. f_equal.
      destruct (Z.lt_trichotomy i (Z.of_nat j)) as [|[->|]].
      * rewrite !bool_decide_eq_false_2 by (intros []; lia). by destruct (Z.eqb_spec i (Z.of_nat j)); [lia|].
      * rewrite Z.eqb_refl, Nat2Z.id, Nat.sub_diag. cbn. symmetry. apply bool_decide_eq_true_2.
        split; [lia|done].
      * destruct (Z.eqb_spec i (Z.of_nat j)); [lia|]. cbn [orb]. apply bool_decide_ext.
        replace (Z.to_nat i - j)%nat with (S (Z.to_nat i - S j)) by lia.
        cbn. split; intros []; (split; [lia|done]).
    + intros [|i] d' Hi; cbn in Hi; [done|]. rewrite <- Nat.add_succ_comm. by apply H6.
    + intros i Hi. by rewrite H7 by lia.
Qed.
End loading.

(** A column buffer of a batch that is ready to take [n] rows. *)
Definition column_ready (n : nat) (col : VectorColumn) : Prop :=
  has_nulls col = false ∧ Forall (λ w, w = 0) (nulls col) ∧
  (n ≤ 64 * length (nulls col))%nat ∧
  (n * Z.to_nat (element_size (data_type col)) ≤ length (data col))%nat.

Lemma lookup_map {A B} (f : A → B) l (i : nat) : map f l !! i = f <$> l !! i.
Proof. apply list_lookup_fmap. Qed.

Lemma fitting_row_read address col i v :
  row_fits (data_type col) (Some (DatumVal v)) →
  elements (Z.to_nat (element_size (data_type col))) (data col) !! Z.to_nat i =
    Some (le_dec (element_bytes address (data_type col) (DatumVal v))) →
  has_nulls col && null_bit (nulls col) i = false →
  column_datum (Some col) i = Ok (Some (DatumVal v)).
Proof.
  intros Hf He Hn. unfold column_datum. rewrite Hn.
  unfold int32s, int64s, bools, element_bytes in *.
  destruct (data_type col); cbn in Hf, He |- *; try done;
    change (Z.to_nat 8) with 8%nat in He; change (Z.to_nat 4) with 4%nat in He;
    change (Z.to_nat 1) with 1%nat in He;
    rewrite ?lookup_map, He; cbn;
    rewrite ?le_dec_enc by lia; do 3 f_equal;
    change (v mod 2 ^ (4 * 8)) with (uwrap 32 v); change (v mod 2 ^ (8 * 8)) with (uwrap 64 v).
  - rewrite swrap_uwrap by lia. by symmetry.
  - rewrite (swrap_uwrap 64), (uwrap_swrap 64) by lia. by apply Z.mod_small.
  - by apply Z.mod_small.
  - by apply Z.mod_small.
  - destruct Hf as [->| ->]; done.
  - rewrite (swrap_uwrap 64), (uwrap_swrap 64) by lia. by apply Z.mod_small.
  - rewrite swrap_uwrap by lia. by symmetry.
Qed.

(** Loading the rows of a chunk group into a clean column buffer succeeds, and
    the rows produced from the batch are the rows that were loaded, NULLs included. *)
Theorem loaded_rows_read_back (address : list Z → Z) (rows : list (option Datum)) (col : VectorColumn) :
  column_ready (length rows) col →
  Forall (row_fits (data_type col)) rows →
  ∃ col', load_values address 0 rows col = Ok col' ∧
    ∀ i row, rows !! i = Some row → column_datum (Some col') (Z.of_nat i) = Ok row.
Proof.
  intros (Hh & Hz & Hn & Hd) Hf.
  destruct (load_values_loaded address rows 0 col) as (col' & E & Ht & _ & _ & H1 & H2 & H3 & _);
    [done..|].
  exists col'. split; [done|]. intros i row Hi.
  assert (Hb : has_nulls col' && null_bit (nulls col') (Z.of_nat i) = bool_decide (row = None)).
  { rewrite H1, Hh, H2, Nat2Z.id, Nat.sub_0_r, Hi by lia. cbn.
    unfold null_bit. rewrite nth_lookup.
    assert (default 0 (nulls col !! Z.to_nat (Z.of_nat i / 64)) = 0) as ->.
    { destruct (nulls col !! _) as [w|] eqn:Ew; [|done]. by eapply (Forall_lookup_1 _ _ _ w Hz). }
    rewrite Z.testbit_0_l. cbn. destruct row as [d|].
    - rewrite bool_decide_eq_false_2 by (intros []; congruence). by rewrite andb_false_r.
    - rewrite (bool_decide_eq_true_2 (None = None)) by done.
      rewrite bool_decide_eq_true_2 by (split; [lia|done]). rewrite andb_true_r.
      apply existsb_exists. exists None. split; [|done]. apply list_elem_of_In.
      by eapply list_elem_of_lookup_2. }
  destruct row as [[v|bytes]|].
  - apply (fitting_row_read address); rewrite ?Ht.
    + by eapply (Forall_lookup_1 _ _ _ _ Hf).
    + rewrite Nat2Z.id. by apply (H3 i).
    + by rewrite Hb.
  - by pose proof (Forall_lookup_1 _ _ _ _ Hf Hi).
  - unfold column_datum. by rewrite Hb.
Qed.

(** ** Rows behind the first batch of a chunk group *)

Section scan.
Context (address : list Z → Z) (attrs : list Attr) (needed : Z → bool) (c : Catalog).

(** The reader stands at row [r] of the last chunk group, which has [n] rows. *)
Definition in_last_group (n r : Z) (st : VectorizedScanState) : Prop :=
  let rs := columnar_state st in
  current_chunk_group rs = Some n ∧ current_row_in_chunk rs = r ∧
  len (stripe_list rs) ≤ current_stripe_index rs + 1 ∧
  ∃ s, current_stripe rs = Some s ∧ chunk_group_count s ≤ current_chunk_group_index rs + 1.

(** From there on no column is loaded any more. *)
Lemma scan_loop_tail fuel n r k st :
  in_last_group n r st → 0 < r ≤ n → n ≤ INT32_MAX → 0 ≤ k < VECTORIZED_BATCH_SIZE →
  n - r < Z.of_nat fuel →
  ∃ st', scan_loop address attrs needed c fuel k st = Ok (st', k) ∧
    current_batch st' = current_batch st ∧ in_last_group n n st'.
Proof.
  unfold VECTORIZED_BATCH_SIZE.
  revert r st. induction fuel as [|fuel IH]; intros r st (Hg & Hr & Hs & s & Hc & Hl) Hrn Hn Hk Hf; [lia|].
  cbn [scan_loop]. unfold VECTORIZED_BATCH_SIZE.
  destruct (Z.leb_spec 1024 k); [lia|]. unfold ensure_chunk_group. rewrite Hg, Hr.
  destruct (Z.ltb_spec r n) as [Hlt|Hge].
  - cbn [mbind outcome_bind]. rewrite Hr. destruct (Z.eqb_spec r 0); [lia|]. cbn [andb mbind outcome_bind].
    assert (E : i32 (Z.min (n - r) (1024 - k)) = Z.min (n - r) (1024 - k)).
    { apply swrap_id; [lia|]. unfold in_i. unfold INT32_MAX in Hn. lia. }
    rewrite E. destruct (IH (r + Z.min (n - r) (1024 - k))
      (with_read st (read_at (columnar_state st) (Some n) (r + Z.min (n - r) (1024 - k))
         (total_rows_read (columnar_state st) + Z.min (n - r) (1024 - k))
         (read_buffers (columnar_state st))) (current_batch st) (chunks_skipped st)))
      as (st' & Es & Eb & Hin); [|lia..|by exists st'].
    split_and!; [done..|]. exists s. split; [done|]. cbn. lia.
  - rewrite Hc. destruct (Z.leb_spec (chunk_group_count s) (current_chunk_group_index (columnar_state st) + 1)); [|lia].
    destruct (Z.leb_spec (len (stripe_list (columnar_state st))) (current_stripe_index (columnar_state st) + 1)); [|lia].
    cbn. eexists. split; [done|]. split; [done|].
    split_and!; cbn; [done|lia|lia|]. exists s. split; [done|lia].
Qed.

Lemma scan_ends fuel n r st :
  in_last_group n r st → 0 < r ≤ n → n ≤ INT32_MAX → n < Z.of_nat fuel →
  ∃ st', vectorized_columnar_scan address attrs needed c fuel st = Ok (st', None).
Proof.
  intros Hin Hr Hn Hf. unfold vectorized_columnar_scan.
  destruct (scan_loop_tail fuel n r 0 (with_read st (columnar_state st)
    (vector_batch_reset (current_batch st)) (chunks_skipped st))) as (st' & -> & _);
    [done|done|done|unfold VECTORIZED_BATCH_SIZE; lia|lia|].
  by exists st'.
Qed.

(** A reader at the start of a table of one stripe with one chunk group. *)
Definition at_start (s : ColumnarStripe) (st : VectorizedScanState) : Prop :=
  let rs := columnar_state st in
  stripe_list rs = [s] ∧ current_stripe_index rs = -1 ∧ current_stripe rs = None ∧
  current_chunk_group rs = None ∧ skip_list st = None ∧ chunk_group_count s = 1 ∧
  0 < row_count s ≤ INT32_MAX ∧ capacity (current_batch st) = VECTORIZED_BATCH_SIZE.

(** What the first iteration loads from [s]. *)
Definition first_load (s : ColumnarStripe) (st : VectorizedScanState) (b : VectorBatch) : Prop :=
  ∃ bufs, scan_columns needed c s 0 0 attrs (read_buffers (columnar_state st)) = Ok bufs ∧
    load_batch_from_chunk_group address (projection_map attrs needed) (row_count s)
      (λ col, match column_meta c (stripe_id s) col with Some _ => true | None => false end)
      bufs (current_batch st) = Ok b.

Lemma first_turn fuel s st b :
  at_start s st → first_load s st b →
  count b = Z.min (row_count s) 1024 ∧
  ∃ st1, scan_loop address attrs needed c (S fuel) 0 st =
           scan_loop address attrs needed c fuel (Z.min (row_count s) 1024) st1 ∧
    current_batch st1 = b ∧ in_last_group (row_count s) (Z.min (row_count s) 1024) st1.
Proof.
  intros (Hl & Hi & Hs & Hg & Hk & Hc & Hn & Hcap) (bufs & Hcols & Hload).
  unfold VECTORIZED_BATCH_SIZE in Hcap.
  assert (Em : i32 (Z.min (row_count s) 1024) = Z.min (row_count s) 1024).
  { apply swrap_id; [lia|]. unfold in_i. unfold INT32_MAX in Hn. lia. }
  assert (Hb : count b = Z.min (row_count s) 1024).
  { unfold load_batch_from_chunk_group in Hload. apply outcome_bind_ok in Hload as (cols & _ & E).
    injection E as <-. cbn. by rewrite Hcap. }
  split; [done|]. cbn [scan_loop]. unfold VECTORIZED_BATCH_SIZE.
  unfold ensure_chunk_group. rewrite Hg, Hs, Hi, Hl, Hk.
  change (len [s] <=? -1 + 1) with false. change (-1 + 1) with 0. change (Z.to_nat 0) with 0%nat.
  cbn -[scan_columns Z.sub]. rewrite Hcols. cbn -[Z.sub].
  rewrite !Z.sub_0_r, Em. destruct (Z.ltb_spec 0 (Z.min (row_count s) 1024)); [|lia].
  unfold has_chunk. cbn -[Z.sub]. rewrite Hload. cbn -[Z.sub]. rewrite Hb.
  eexists. split; [done|]. split; [done|]. split_and!; cbn; [done..| |].
  - by rewrite Hl.
  - exists s. split; [done|lia].
Qed.

(** Of a stripe that is one chunk group of [n] rows, the scan returns one batch,
    of the first 1024 rows at most, and then reports the end of the table: columns
    are loaded only at row 0 of a chunk group, so later rows are never returned. *)
Theorem scan_returns_first_1024 (st : VectorizedScanState) (s : ColumnarStripe)
    (b : VectorBatch) (fuel : nat) :
  at_start s st →
  first_load s (with_read st (columnar_state st) (vector_batch_reset (current_batch st))
                  (chunks_skipped st)) b →
  row_count s + 1 < Z.of_nat fuel →
  ∃ st1 b1 st2,
    vectorized_columnar_scan address attrs needed c fuel st = Ok (st1, Some b1) ∧
    count b1 = Z.min (row_count s) 1024 ∧ columns b1 = columns b ∧
    vectorized_columnar_scan address attrs needed c fuel st1 = Ok (st2, None).
Proof.
  intros Hst Hload Hf. pose proof Hst as (_ & _ & _ & _ & _ & _ & Hn & _).
  destruct fuel as [|fuel]; [lia|]. unfold vectorized_columnar_scan at 1. cbv zeta.
  match goal with |- context [scan_loop _ _ _ _ (S fuel) 0 ?st'] =>
    destruct (first_turn fuel s st' b) as (Hb & st1 & -> & Eb & Hin); [done|done|] end.
  assert (∃ st2 r, scan_loop address attrs needed c fuel (Z.min (row_count s) 1024) st1 =
      Ok (st2, Z.min (row_count s) 1024) ∧ current_batch st2 = b ∧
      in_last_group (row_count s) r st2 ∧ 0 < r ≤ row_count s) as (st2 & r & E & Eb2 & Hin2 & Hr).
  { destruct (decide (1024 ≤ row_count s)).
    - exists st1, (Z.min (row_count s) 1024). split; [|split; [done|split; [done|lia]]].
      destruct fuel as [|fuel]; [lia|]. cbn [scan_loop]. unfold VECTORIZED_BATCH_SIZE.
      destruct (Z.leb_spec 1024 (Z.min (row_count s) 1024)); [done|lia].
    - destruct (scan_loop_tail fuel (row_count s) (Z.min (row_count s) 1024)
        (Z.min (row_count s) 1024) st1) as (st2 & E & Eb2 & H2); [done|unfold VECTORIZED_BATCH_SIZE; lia..|].
      exists st2, (row_count s). split; [done|]. split; [congruence|]. split; [done|lia]. }
  rewrite E. cbn [mbind outcome_bind]. destruct (Z.eqb_spec (Z.min (row_count s) 1024) 0); [lia|].
  edestruct (scan_ends (S fuel) (row_count s) r) as (st3 & E3); [| |lia| |].
  4: { eexists _, _, st3. split; [reflexivity|]. split; [done|]. split; [|exact E3]. cbn. by rewrite Eb2. }
  - exact Hin2.
  - done.
  - lia.
Qed.
End scan.

(** ** Concrete scans *)

Definition bool_attr : Attr :=
  {| attisdropped := false; attbyval := true; attlen := 1; atttypid := BOOLOID; cmp_proc := None |}.

Definition long_chunk (n : Z) : ChunkRow :=
  {| k_stripe := 1; k_group := 0; k_column := 0; k_value_count := n; k_null_count := 0;
     k_has_nulls := false; k_compressed_size := n; k_decompressed_size := n;
     k_compression := OROCHI_COMPRESS_NONE; k_data := Some (replicate (Z.to_nat n) 1) |}.

(** A table of [n] rows whose only column is true everywhere. *)
Definition long_table (n : Z) : Catalog :=
  {| stripes := [{| s_id := 1; s_first_row := 1; s_row_count := n; s_column_count := 1;
                    s_is_flushed := true; s_data_size := n |}];
     chunks := [long_chunk n]; next_stripe := 2 |}.

Definition from_ok {A} (o : outcome A) : option A := match o with Ok a => Some a | _ => None end.

Definition no_address (_ : list Z) : Z := 0.

Definition long_scan (n : Z) : option VectorizedScanState :=
  from_ok (vectorized_columnar_scan_begin [bool_attr] (λ _, true) (long_table n)).

(** The rows of the batches the calls of a scan return. *)
Fixpoint batch_counts (calls : nat) (c : Catalog) (st : VectorizedScanState) : list (option Z) :=
  match calls with
  | O => []
  | S calls =>
      match vectorized_columnar_scan no_address [bool_attr] (λ _, true) c 2000 st with
      | Ok (st, b) => (count <$> b) :: batch_counts calls c st
      | _ => []
      end
  end.

(** A table of 1500 rows is scanned as one of 1024 rows. *)
Example scan_of_1500_rows :
  batch_counts 3 (long_table 1500) <$> long_scan 1500 = Some [Some 1024; None; None].
Proof. vm_compute. reflexivity. Qed.

Definition long_stripe : ColumnarStripe :=
  {| stripe_id := 1; first_row_number := 1; row_count := 1500; chunk_group_count := 1;
     Columnar.column_count := 1 |}.

Definition long_state : VectorizedScanState :=
  {| columnar_state := columnar_begin_read [bool_attr] (long_table 1500);
     current_batch := {| capacity := 1024; count := 0; Vector.column_count := 1;
       columns := [Some {| data_type := VECTORIZED_TYPE_BOOL; type_len := 1; type_byval := true;
         type_oid := BOOLOID; data := replicate 1024 0; nulls := replicate 16 0;
         has_nulls := false |}];
       selection := []; has_selection := false; rows_processed := 0; rows_filtered := 0 |};
     predicates := []; skip_list := None; filters := []; chunks_skipped := 0 |}.

Lemma scan_returns_first_1024_witness :
  vectorized_columnar_scan_begin [bool_attr] (λ _, true) (long_table 1500) = Ok long_state ∧
  ∃ st1 b1 st2,
    vectorized_columnar_scan no_address [bool_attr] (λ _, true) (long_table 1500) 2000 long_state =
      Ok (st1, Some b1) ∧
    count b1 = 1024 ∧
    vectorized_columnar_scan no_address [bool_attr] (λ _, true) (long_table 1500) 2000 st1 =
      Ok (st2, None).
Proof.
  split; [vm_compute; reflexivity|].
  edestruct (λ b, scan_returns_first_1024 no_address [bool_attr] (λ _, true) (long_table 1500)
    long_state long_stripe b 2000%nat) as (st1 & b1 & st2 & E1 & Hc & _ & E2).
  - repeat split; vm_compute; done.
  - eexists. split; vm_compute; reflexivity.
  - by vm_compute.
  - exists st1, b1, st2. split; [exact E1|]. split; [exact Hc|exact E2].
Defined.

Lemma loaded_rows_read_back_witness :
  let col := sample_column VECTORIZED_TYPE_INT32 4 [0; 0; 0] 0 in
  let rows := [Some (DatumVal 7); None; Some (DatumVal (2 ^ 64 - 5))] in
  ∃ col', load_values no_address 0 rows col = Ok col' ∧
    ∀ i row, rows !! i = Some row → column_datum (Some col') (Z.of_nat i) = Ok row.
Proof.
  intros col rows. apply (loaded_rows_read_back no_address rows col).
  - split_and!; [done|by apply Forall_singleton|vm_compute; lia|vm_compute; lia].
  - repeat constructor.
Defined.

Lemma predicates_conjoin_witness :
  let attrs := [{| attisdropped := false; attbyval := true; attlen := 8; atttypid := INT8OID;
                   cmp_proc := None |}] in
  let p := OpExpr Int8LessOperator [Var 1; Const false 9] in
  ∃ b', vectorized_apply_predicate true attrs [0] [wide_filter] [p] wide_batch = Ok b' ∧
    batch_ok b' ∧
    rows_selected b' = filter (passes [[true; false; false; true; false; true];
      [true; true; false; true; true; false]]) (rows_selected wide_batch).
Proof.
  intros attrs p.
  apply (predicates_conjoin true attrs [0] [wide_filter] [p] wide_batch).
  - by apply sample_batch_ok.
  - repeat constructor; (discriminate || (vm_compute; reflexivity) || idtac).
Defined.
