(* ===== verification/JitExpr.v ===== *)
(** * The expression compiler: trees, evaluation and constant folding

    Models [src/jit/jit_expr.c] and the tree builders of [src/jit/jit_compile.c].
    "Compiled" expressions are trees that five mutually recursive evaluators walk
    for every row, one for each C type; [eval] is the five of them at once.  A
    tree is a value: the functions that build and fold trees never share nodes.
    The SQL meaning of the integer and boolean fragment is [sql_int] and
    [sql_bool]. *)
From Stdlib Require Import Floats.SpecFloat.
From S2P Require Import Prelude Float Vector.
Local Open Scope Z_scope.

(** ** Trees *)

Inductive JitExprType :=
| JIT_EXPR_CONST | JIT_EXPR_COLUMN
| JIT_EXPR_ARITH_ADD | JIT_EXPR_ARITH_SUB | JIT_EXPR_ARITH_MUL | JIT_EXPR_ARITH_DIV
| JIT_EXPR_ARITH_MOD | JIT_EXPR_ARITH_NEG
| JIT_EXPR_CMP_EQ | JIT_EXPR_CMP_NE | JIT_EXPR_CMP_LT | JIT_EXPR_CMP_LE | JIT_EXPR_CMP_GT
| JIT_EXPR_CMP_GE
| JIT_EXPR_BOOL_AND | JIT_EXPR_BOOL_OR | JIT_EXPR_BOOL_NOT
| JIT_EXPR_IS_NULL | JIT_EXPR_IS_NOT_NULL | JIT_EXPR_BETWEEN | JIT_EXPR_IN | JIT_EXPR_CASE
| JIT_EXPR_COALESCE | JIT_EXPR_CAST.

#[export] Instance expr_type_eq_dec : EqDecision JitExprType.
Proof. solve_decision. Defined.

(** [child_count] is the length of [children]. *)
Inductive JitExprNode := JitNode {
  type : JitExprType; result_type : VectorizedDataType; is_nullable : bool;
  const_value : Z; const_is_null : bool; column_index : Z;
  left : option JitExprNode; right : option JitExprNode; children : list JitExprNode;
  cast_to_type : VectorizedDataType; depth : Z; cost : Z }.

(** A node as [palloc0] and the builder leave it. *)
Definition jit_expr_alloc (t : JitExprType) (rt : VectorizedDataType) : JitExprNode :=
  {| type := t; result_type := rt; is_nullable := true; const_value := 0; const_is_null := false;
     column_index := 0; left := None; right := None; children := [];
     cast_to_type := VECTORIZED_TYPE_INT32; depth := 0; cost := 1 |}.

Definition const_node (rt : VectorizedDataType) (value : Z) (isnull : bool) : JitExprNode :=
  {| type := JIT_EXPR_CONST; result_type := rt; is_nullable := isnull; const_value := value;
     const_is_null := isnull; column_index := 0; left := None; right := None; children := [];
     cast_to_type := VECTORIZED_TYPE_INT32; depth := 0; cost := 0 |}.

Definition jit_expr_const_int64 (v : Z) := const_node VECTORIZED_TYPE_INT64 (u64 v) false.
Definition jit_expr_const_int32 (v : Z) := const_node VECTORIZED_TYPE_INT32 (u64 v) false.
Definition jit_expr_const_float64 (v : spec_float) :=
  const_node VECTORIZED_TYPE_FLOAT64 (bits_of_double v) false.
Definition jit_expr_const_float32 (v : spec_float) :=
  const_node VECTORIZED_TYPE_FLOAT32 (bits_of_single v) false.
Definition jit_expr_const_bool (v : bool) :=
  const_node VECTORIZED_TYPE_BOOL (if v then 1 else 0) false.
Definition jit_expr_const_null (rt : VectorizedDataType) := const_node rt 0 true.

Definition jit_expr_column (c : Z) (rt : VectorizedDataType) : JitExprNode :=
  {| type := JIT_EXPR_COLUMN; result_type := rt; is_nullable := true; const_value := 0;
     const_is_null := false; column_index := c; left := None; right := None; children := [];
     cast_to_type := VECTORIZED_TYPE_INT32; depth := 0; cost := 1 |}.

Definition jit_expr_binary (t : JitExprType) (l r : JitExprNode) (rt : VectorizedDataType)
    : JitExprNode :=
  {| type := t; result_type := rt; is_nullable := is_nullable l || is_nullable r;
     const_value := 0; const_is_null := false; column_index := 0; left := Some l;
     right := Some r; children := []; cast_to_type := VECTORIZED_TYPE_INT32;
     depth := 1 + (if depth r <? depth l then depth l else depth r);
     cost := 1 + cost l + cost r |}.

Definition jit_expr_unary (t : JitExprType) (l : JitExprNode) (rt : VectorizedDataType)
    : JitExprNode :=
  {| type := t; result_type := rt; is_nullable := is_nullable l; const_value := 0;
     const_is_null := false; column_index := 0; left := Some l; right := None; children := [];
     cast_to_type := VECTORIZED_TYPE_INT32; depth := 1 + depth l; cost := 1 + cost l |}.

Definition jit_arith_result_type (l r : VectorizedDataType) : VectorizedDataType :=
  if decide (l = VECTORIZED_TYPE_FLOAT64 ∨ r = VECTORIZED_TYPE_FLOAT64) then VECTORIZED_TYPE_FLOAT64
  else if decide (l = VECTORIZED_TYPE_FLOAT32 ∨ r = VECTORIZED_TYPE_FLOAT32)
  then VECTORIZED_TYPE_FLOAT64
  else if decide (l = VECTORIZED_TYPE_INT64 ∨ r = VECTORIZED_TYPE_INT64) then VECTORIZED_TYPE_INT64
  else VECTORIZED_TYPE_INT64.

Definition jit_expr_arith (t : JitExprType) (l r : JitExprNode) : JitExprNode :=
  jit_expr_binary t l r (jit_arith_result_type (result_type l) (result_type r)).

Definition jit_expr_add := jit_expr_arith JIT_EXPR_ARITH_ADD.
Definition jit_expr_sub := jit_expr_arith JIT_EXPR_ARITH_SUB.
Definition jit_expr_mul := jit_expr_arith JIT_EXPR_ARITH_MUL.
Definition jit_expr_div (l r : JitExprNode) :=
  jit_expr_binary JIT_EXPR_ARITH_DIV l r VECTORIZED_TYPE_FLOAT64.
Definition jit_expr_mod (l r : JitExprNode) :=
  jit_expr_binary JIT_EXPR_ARITH_MOD l r VECTORIZED_TYPE_INT64.
Definition jit_expr_neg (l : JitExprNode) := jit_expr_unary JIT_EXPR_ARITH_NEG l (result_type l).

Definition jit_expr_bool (t : JitExprType) (l r : JitExprNode) :=
  jit_expr_binary t l r VECTORIZED_TYPE_BOOL.
Definition jit_expr_eq := jit_expr_bool JIT_EXPR_CMP_EQ.
Definition jit_expr_ne := jit_expr_bool JIT_EXPR_CMP_NE.
Definition jit_expr_lt := jit_expr_bool JIT_EXPR_CMP_LT.
Definition jit_expr_le := jit_expr_bool JIT_EXPR_CMP_LE.
Definition jit_expr_gt := jit_expr_bool JIT_EXPR_CMP_GT.
Definition jit_expr_ge := jit_expr_bool JIT_EXPR_CMP_GE.
Definition jit_expr_and := jit_expr_bool JIT_EXPR_BOOL_AND.
Definition jit_expr_or := jit_expr_bool JIT_EXPR_BOOL_OR.
Definition jit_expr_not (l : JitExprNode) :=
  jit_expr_unary JIT_EXPR_BOOL_NOT l VECTORIZED_TYPE_BOOL.

Definition never_null (n : JitExprNode) : JitExprNode :=
  {| type := type n; result_type := result_type n; is_nullable := false;
     const_value := const_value n; const_is_null := const_is_null n;
     column_index := column_index n; left := left n; right := right n; children := children n;
     cast_to_type := cast_to_type n; depth := depth n; cost := cost n |}.

Definition jit_expr_is_null (l : JitExprNode) :=
  never_null (jit_expr_unary JIT_EXPR_IS_NULL l VECTORIZED_TYPE_BOOL).
Definition jit_expr_is_not_null (l : JitExprNode) :=
  never_null (jit_expr_unary JIT_EXPR_IS_NOT_NULL l VECTORIZED_TYPE_BOOL).

Definition jit_expr_between (value low high : JitExprNode) : JitExprNode :=
  {| type := JIT_EXPR_BETWEEN; result_type := VECTORIZED_TYPE_BOOL;
     is_nullable := is_nullable value || is_nullable low || is_nullable high;
     const_value := 0; const_is_null := false; column_index := 0; left := None; right := None;
     children := [value; low; high]; cast_to_type := VECTORIZED_TYPE_INT32;
     depth := 1 + depth value; cost := cost value + cost low + cost high + 2 |}.

Definition jit_expr_cast (l : JitExprNode) (t : VectorizedDataType) : JitExprNode :=
  {| type := JIT_EXPR_CAST; result_type := t; is_nullable := is_nullable l; const_value := 0;
     const_is_null := false; column_index := 0; left := Some l; right := None; children := [];
     cast_to_type := t; depth := 1 + depth l; cost := 1 + cost l |}.

(** ** Conversions of constants *)

Definition jit_convert_to_int64 (v : Z) (t : VectorizedDataType) : outcome Z :=
  match t with
  | VECTORIZED_TYPE_INT64 | VECTORIZED_TYPE_TIMESTAMP => Ok (i64 v)
  | VECTORIZED_TYPE_INT32 | VECTORIZED_TYPE_DATE => Ok (i32 v)
  | VECTORIZED_TYPE_FLOAT64 => int_of_float 64 (double_of_bits (u64 v))
  | VECTORIZED_TYPE_FLOAT32 => int_of_float 64 (single_of_bits (u32 v))
  | VECTORIZED_TYPE_BOOL => Ok (if u64 v =? 0 then 0 else 1)
  | _ => Ok 0
  end.

Definition jit_convert_to_int32 (v : Z) (t : VectorizedDataType) : outcome Z :=
  match t with
  | VECTORIZED_TYPE_INT64 | VECTORIZED_TYPE_TIMESTAMP => Ok (i32 (i64 v))
  | VECTORIZED_TYPE_INT32 | VECTORIZED_TYPE_DATE => Ok (i32 v)
  | VECTORIZED_TYPE_FLOAT64 => int_of_float 32 (double_of_bits (u64 v))
  | VECTORIZED_TYPE_FLOAT32 => int_of_float 32 (single_of_bits (u32 v))
  | VECTORIZED_TYPE_BOOL => Ok (if u64 v =? 0 then 0 else 1)
  | _ => Ok 0
  end.

Definition jit_convert_to_float64 (v : Z) (t : VectorizedDataType) : spec_float :=
  match t with
  | VECTORIZED_TYPE_INT64 | VECTORIZED_TYPE_TIMESTAMP => float_of_Z binary64 (i64 v)
  | VECTORIZED_TYPE_INT32 | VECTORIZED_TYPE_DATE => float_of_Z binary64 (i32 v)
  | VECTORIZED_TYPE_FLOAT64 => double_of_bits (u64 v)
  | VECTORIZED_TYPE_FLOAT32 => convert binary64 (single_of_bits (u32 v))
  | VECTORIZED_TYPE_BOOL => float_of_Z binary64 (if u64 v =? 0 then 0 else 1)
  | _ => S754_zero false
  end.

Definition jit_convert_to_float32 (v : Z) (t : VectorizedDataType) : spec_float :=
  match t with
  | VECTORIZED_TYPE_INT64 | VECTORIZED_TYPE_TIMESTAMP => float_of_Z binary32 (i64 v)
  | VECTORIZED_TYPE_INT32 | VECTORIZED_TYPE_DATE => float_of_Z binary32 (i32 v)
  | VECTORIZED_TYPE_FLOAT64 => convert binary32 (double_of_bits (u64 v))
  | VECTORIZED_TYPE_FLOAT32 => single_of_bits (u32 v)
  | VECTORIZED_TYPE_BOOL => float_of_Z binary32 (if u64 v =? 0 then 0 else 1)
  | _ => S754_zero false
  end.

Definition jit_convert_to_bool (v : Z) (t : VectorizedDataType) : bool :=
  match t with
  | VECTORIZED_TYPE_INT64 | VECTORIZED_TYPE_TIMESTAMP => negb (i64 v =? 0)
  | VECTORIZED_TYPE_INT32 | VECTORIZED_TYPE_DATE => negb (i32 v =? 0)
  | VECTORIZED_TYPE_FLOAT64 => fne (double_of_bits (u64 v)) (S754_zero false)
  | VECTORIZED_TYPE_FLOAT32 => fne (single_of_bits (u32 v)) (S754_zero false)
  | VECTORIZED_TYPE_BOOL => negb (u64 v =? 0)
  | _ => false
  end.

(** ** Evaluation *)

(** The null flag an evaluator sets and the value it returns. *)
Abbreviation evaluated A := (outcome (bool * A)).

Record Evals := {
  ev_int64 : evaluated Z; ev_int32 : evaluated Z; ev_float64 : evaluated spec_float;
  ev_float32 : evaluated spec_float; ev_bool : evaluated bool }.

Definition null_result {A} (zero : A) : evaluated A := Ok (true, zero).

(** Both operands are evaluated; the result is null when one of them is. *)
Definition combine {A B} (l r : evaluated A) (f : A → A → B) : evaluated B :=
  '(ln, x) ← l; '(rn, y) ← r; Ok (ln || rn, f x y).

Definition negate {A B} (l : evaluated A) (f : A → B) : evaluated B :=
  '(n, x) ← l; Ok (n, f x).

(** Division is null when the divisor is zero, and traps on the quotient that
    does not fit. *)
Definition divide (l r : evaluated Z) (f : Z → Z → Z) : evaluated Z :=
  '(ln, x) ← l; '(rn, y) ← r;
  if y =? 0 then null_result 0
  else if (x =? INT64_MIN) && (y =? -1) then Undef
  else Ok (ln || rn, f x y).

Definition fdivide (l r : evaluated spec_float) : evaluated spec_float :=
  '(ln, x) ← l; '(rn, y) ← r;
  if feq y (S754_zero false) then null_result (S754_zero false)
  else Ok (ln || rn, fdiv binary64 x y).

Definition to_int (w : Z) (l : evaluated spec_float) : evaluated Z :=
  '(n, x) ← l; z ← int_of_float w x; Ok (n, z).

Definition compare_op (t : JitExprType) : option VectorizedCompareOp :=
  match t with
  | JIT_EXPR_CMP_EQ => Some VECTORIZED_CMP_EQ
  | JIT_EXPR_CMP_NE => Some VECTORIZED_CMP_NE
  | JIT_EXPR_CMP_LT => Some VECTORIZED_CMP_LT
  | JIT_EXPR_CMP_LE => Some VECTORIZED_CMP_LE
  | JIT_EXPR_CMP_GT => Some VECTORIZED_CMP_GT
  | JIT_EXPR_CMP_GE => Some VECTORIZED_CMP_GE
  | _ => None
  end.

(** A comparison of nulls returns false with the flag set. *)
Definition compare {A} (p : A → A → bool) (l r : evaluated A) : evaluated bool :=
  '(ln, x) ← l; '(rn, y) ← r;
  Ok (if ln || rn then (true, false) else (false, p x y)).

Section eval.
Context (b : VectorBatch) (row : Z).

Definition column_value {A} (view : VectorColumn → list A) (zero : A) (ci : Z) : evaluated A :=
  col ← deref (if ci <? 0 then None else mjoin (columns b !! Z.to_nat ci));
  n ← (if has_nulls col
       then w ← deref (nulls col !! Z.to_nat (row / 64)); Ok (Z.testbit w (row mod 64))
       else Ok false);
  if n : bool then null_result zero else x ← deref (view col !! Z.to_nat row); Ok (false, x).

Definition fzero : spec_float := S754_zero false.

Fixpoint eval (e : JitExprNode) : Evals :=
  let 'JitNode t rt _ v isnull ci lp rp cs _ _ _ := e in
  let lev := match lp with Some l => Some (eval l) | None => None end in
  let rev := match rp with Some r => Some (eval r) | None => None end in
  let cev := map eval cs in
  let l {A} (get : Evals → evaluated A) : evaluated A := ev ← deref lev; get ev in
  let r {A} (get : Evals → evaluated A) : evaluated A := ev ← deref rev; get ev in
  let child {A} (i : nat) (get : Evals → evaluated A) : evaluated A := ev ← deref (cev !! i); get ev in
  let float64 :=
    match t with
    | JIT_EXPR_CONST => Ok (isnull, jit_convert_to_float64 v rt)
    | JIT_EXPR_COLUMN => column_value float64s fzero ci
    | JIT_EXPR_ARITH_ADD => combine (l ev_float64) (r ev_float64) (fadd binary64)
    | JIT_EXPR_ARITH_SUB => combine (l ev_float64) (r ev_float64) (fsub binary64)
    | JIT_EXPR_ARITH_MUL => combine (l ev_float64) (r ev_float64) (fmul binary64)
    | JIT_EXPR_ARITH_DIV => fdivide (l ev_float64) (r ev_float64)
    | JIT_EXPR_ARITH_NEG => negate (l ev_float64) SFopp
    | JIT_EXPR_CAST =>
        ln ← deref lp;
        match result_type ln with
        | VECTORIZED_TYPE_INT64 | VECTORIZED_TYPE_TIMESTAMP =>
            negate (l ev_int64) (float_of_Z binary64)
        | VECTORIZED_TYPE_INT32 | VECTORIZED_TYPE_DATE =>
            negate (l ev_int32) (float_of_Z binary64)
        | VECTORIZED_TYPE_FLOAT64 => l ev_float64
        | VECTORIZED_TYPE_FLOAT32 => negate (l ev_float32) (convert binary64)
        | _ => Ok (false, fzero)
        end
    | _ => null_result fzero
    end in
  {| ev_int64 :=
       match t with
       | JIT_EXPR_CONST => z ← jit_convert_to_int64 v rt; Ok (isnull, z)
       | JIT_EXPR_COLUMN => column_value int64s 0 ci
       | JIT_EXPR_ARITH_ADD => combine (l ev_int64) (r ev_int64) (λ x y, i64 (x + y))
       | JIT_EXPR_ARITH_SUB => combine (l ev_int64) (r ev_int64) (λ x y, i64 (x - y))
       | JIT_EXPR_ARITH_MUL => combine (l ev_int64) (r ev_int64) (λ x y, i64 (x * y))
       | JIT_EXPR_ARITH_DIV => divide (l ev_int64) (r ev_int64) Z.quot
       | JIT_EXPR_ARITH_MOD => divide (l ev_int64) (r ev_int64) Z.rem
       | JIT_EXPR_ARITH_NEG => negate (l ev_int64) (λ x, i64 (- x))
       | JIT_EXPR_CAST =>
           ln ← deref lp;
           match result_type ln with
           | VECTORIZED_TYPE_INT64 | VECTORIZED_TYPE_TIMESTAMP => l ev_int64
           | VECTORIZED_TYPE_INT32 | VECTORIZED_TYPE_DATE => l ev_int32
           | VECTORIZED_TYPE_FLOAT64 => to_int 64 (l ev_float64)
           | VECTORIZED_TYPE_FLOAT32 => to_int 64 (l ev_float32)
           | VECTORIZED_TYPE_BOOL => negate (l ev_bool) (λ x : bool, if x then 1 else 0)
           | _ => Ok (false, 0)
           end
       | _ => null_result 0
       end;
     ev_int32 :=
       match t with
       | JIT_EXPR_CONST => z ← jit_convert_to_int32 v rt; Ok (isnull, z)
       | JIT_EXPR_COLUMN => column_value int32s 0 ci
       | JIT_EXPR_ARITH_ADD => combine (l ev_int32) (r ev_int32) (λ x y, i32 (x + y))
       | JIT_EXPR_ARITH_SUB => combine (l ev_int32) (r ev_int32) (λ x y, i32 (x - y))
       | JIT_EXPR_ARITH_MUL => combine (l ev_int32) (r ev_int32) (λ x y, i32 (x * y))
       | JIT_EXPR_ARITH_NEG => negate (l ev_int32) (λ x, i32 (- x))
       | JIT_EXPR_CAST => negate (l ev_int64) i32
       | _ => null_result 0
       end;
     ev_float64 := float64;
     ev_float32 :=
       match t with
       | JIT_EXPR_CONST => Ok (isnull, jit_convert_to_float32 v rt)
       | JIT_EXPR_COLUMN => column_value float32s fzero ci
       | JIT_EXPR_CAST => negate (l ev_float64) (convert binary32)
       | _ => negate float64 (convert binary32)
       end;
     ev_bool :=
       match compare_op t with
       | Some op =>
           ln ← deref lp; rn ← deref rp;
           if decide (result_type rn = VECTORIZED_TYPE_FLOAT64 ∨ result_type ln = VECTORIZED_TYPE_FLOAT64)
           then compare (cmp_float op) (l ev_float64) (r ev_float64)
           else compare (cmp_int op) (l ev_int64) (r ev_int64)
       | None =>
           match t with
           | JIT_EXPR_CONST => Ok (isnull, jit_convert_to_bool v rt)
           | JIT_EXPR_COLUMN => column_value bools false ci
           | JIT_EXPR_BOOL_AND =>
               '(ln, x) ← l ev_bool;
               if ln : bool then null_result false
               else if negb x then Ok (false, false) else r ev_bool
           | JIT_EXPR_BOOL_OR =>
               '(ln, x) ← l ev_bool;
               if ln : bool then null_result false
               else if x : bool then Ok (false, true) else r ev_bool
           | JIT_EXPR_BOOL_NOT => negate (l ev_bool) negb
           | JIT_EXPR_IS_NULL => '(ln, _) ← l ev_bool; Ok (false, ln)
           | JIT_EXPR_IS_NOT_NULL => '(ln, _) ← l ev_bool; Ok (false, negb ln)
           | JIT_EXPR_BETWEEN =>
               if len cs <? 3 then null_result false else
               '(vn, x) ← child 0%nat ev_float64;
               '(ln, lo) ← child 1%nat ev_float64;
               '(hn, hi) ← child 2%nat ev_float64;
               Ok (if vn || ln || hn then (true, false) else (false, fle lo x && fle x hi))
           | _ => null_result false
           end
       end |}.

Definition jit_eval_int64_internal (e : JitExprNode) := ev_int64 (eval e).
Definition jit_eval_int32_internal (e : JitExprNode) := ev_int32 (eval e).
Definition jit_eval_float64_internal (e : JitExprNode) := ev_float64 (eval e).
Definition jit_eval_float32_internal (e : JitExprNode) := ev_float32 (eval e).
Definition jit_eval_bool_internal (e : JitExprNode) := ev_bool (eval e).
End eval.

(** The mask: a row stays when the predicate is true and not null. *)
Fixpoint mask_rows (b : VectorBatch) (e : JitExprNode) (rows : list Z) : outcome (list bool) :=
  match rows with
  | [] => Ok []
  | i :: rows =>
      '(n, x) ← jit_eval_bool_internal b i e;
      rest ← mask_rows b e rows;
      Ok ((negb n && x) :: rest)
  end.

Definition jit_batch_filter_internal (b : VectorBatch) (e : JitExprNode) : outcome (list bool) :=
  mask_rows b e (seqZ 0 (count b)).

(** The functions [jit_generate_eval_...] hand out read the expression from
    [tls_current_expr], which no function sets. *)
Definition tls_current_expr : option JitExprNode := None.

Definition jit_wrapper_eval_int64 (b : VectorBatch) (row : Z) : evaluated Z :=
  e ← deref tls_current_expr; jit_eval_int64_internal b row e.
Definition jit_wrapper_eval_int32 (b : VectorBatch) (row : Z) : evaluated Z :=
  e ← deref tls_current_expr; jit_eval_int32_internal b row e.
Definition jit_wrapper_eval_float64 (b : VectorBatch) (row : Z) : evaluated spec_float :=
  e ← deref tls_current_expr; jit_eval_float64_internal b row e.
Definition jit_wrapper_eval_float32 (b : VectorBatch) (row : Z) : evaluated spec_float :=
  e ← deref tls_current_expr; jit_eval_float32_internal b row e.
Definition jit_wrapper_eval_bool (b : VectorBatch) (row : Z) : evaluated bool :=
  e ← deref tls_current_expr; jit_eval_bool_internal b row e.

(** ** Tree utilities *)

Definition jit_expr_is_const (e : option JitExprNode) : bool :=
  match e with Some e => bool_decide (type e = JIT_EXPR_CONST) | None => false end.
Definition jit_expr_is_column (e : option JitExprNode) : bool :=
  match e with Some e => bool_decide (type e = JIT_EXPR_COLUMN) | None => false end.

Definition jit_expr_is_simple_comparison (e : option JitExprNode) : bool :=
  match e with
  | None => false
  | Some e =>
      match compare_op (type e) with
      | None => false
      | Some _ => jit_expr_is_column (left e) && jit_expr_is_const (right e)
                  || jit_expr_is_const (left e) && jit_expr_is_column (right e)
      end
  end.

(** The columns found so far come first. *)
Fixpoint jit_extract_column_refs (max : Z) (e : JitExprNode) (cols : list Z) : list Z :=
  if max <=? len cols then cols else
  if decide (type e = JIT_EXPR_COLUMN) then
    if decide (column_index e ∈ cols) then cols else cols ++ [column_index e]
  else
    let cols := match left e with Some l => jit_extract_column_refs max l cols | None => cols end in
    let cols := match right e with Some r => jit_extract_column_refs max r cols | None => cols end in
    foldl (λ cols c, jit_extract_column_refs max c cols) cols (children e).

(** Integer and double arithmetic on two constants; a zero divisor gives zero. *)
Definition fold_int64 (t : JitExprType) (x y : Z) : outcome Z :=
  match t with
  | JIT_EXPR_ARITH_ADD => Ok (i64 (x + y))
  | JIT_EXPR_ARITH_SUB => Ok (i64 (x - y))
  | JIT_EXPR_ARITH_MUL => Ok (i64 (x * y))
  | JIT_EXPR_ARITH_DIV | JIT_EXPR_ARITH_MOD =>
      if y =? 0 then Ok 0
      else if (x =? INT64_MIN) && (y =? -1) then Undef
      else Ok (if decide (t = JIT_EXPR_ARITH_DIV) then Z.quot x y else Z.rem x y)
  | _ => Ok 0
  end.

Definition fold_float64 (t : JitExprType) (x y : spec_float) : spec_float :=
  match t with
  | JIT_EXPR_ARITH_ADD => fadd binary64 x y
  | JIT_EXPR_ARITH_SUB => fsub binary64 x y
  | JIT_EXPR_ARITH_MUL => fmul binary64 x y
  | JIT_EXPR_ARITH_DIV => if fne y fzero then fdiv binary64 x y else fzero
  | _ => fzero
  end.

Definition as_float (e : JitExprNode) : spec_float :=
  jit_convert_to_float64 (const_value e) (result_type e).
Definition as_bool (e : JitExprNode) : bool := jit_convert_to_bool (const_value e) (result_type e).

(** The constant that replaces a node with two constant operands. *)
Definition fold_constants (e l r : JitExprNode) : outcome (option JitExprNode) :=
  match type e with
  | JIT_EXPR_ARITH_ADD | JIT_EXPR_ARITH_SUB | JIT_EXPR_ARITH_MUL | JIT_EXPR_ARITH_DIV
  | JIT_EXPR_ARITH_MOD =>
      match result_type e with
      | VECTORIZED_TYPE_INT64 =>
          x ← jit_convert_to_int64 (const_value l) (result_type l);
          y ← jit_convert_to_int64 (const_value r) (result_type r);
          z ← fold_int64 (type e) x y;
          Ok (Some (jit_expr_const_int64 z))
      | VECTORIZED_TYPE_FLOAT64 =>
          Ok (Some (jit_expr_const_float64 (fold_float64 (type e) (as_float l) (as_float r))))
      | _ => Ok None
      end
  | JIT_EXPR_BOOL_AND => Ok (Some (jit_expr_const_bool (as_bool l && as_bool r)))
  | JIT_EXPR_BOOL_OR => Ok (Some (jit_expr_const_bool (as_bool l || as_bool r)))
  | t =>
      match compare_op t with
      | Some op => Ok (Some (jit_expr_const_bool (cmp_float op (as_float l) (as_float r))))
      | None => Ok None
      end
  end.

(** What remains of a node whose operands are not both constant. *)
Definition simplify_bool (e : JitExprNode) : option JitExprNode :=
  let when (o : option JitExprNode) (k : JitExprNode → option JitExprNode)
           (other : option JitExprNode) :=
    match o with Some c => if jit_expr_is_const o then k c else other | None => other end in
  match type e with
  | JIT_EXPR_BOOL_AND =>
      when (left e) (λ c, if as_bool c then right e else Some (jit_expr_const_bool false))
        (when (right e) (λ c, if as_bool c then left e else Some (jit_expr_const_bool false))
           (Some e))
  | JIT_EXPR_BOOL_OR =>
      when (left e) (λ c, if as_bool c then Some (jit_expr_const_bool true) else right e)
        (when (right e) (λ c, if as_bool c then Some (jit_expr_const_bool true) else left e)
           (Some e))
  | JIT_EXPR_BOOL_NOT =>
      when (left e) (λ c, Some (jit_expr_const_bool (negb (as_bool c)))) (Some e)
  | _ => Some e
  end.

(** One step at a node whose operands are optimized; [None] is a null pointer. *)
Definition optimize_node (e : JitExprNode) : outcome (option JitExprNode) :=
  match left e, right e with
  | Some l, Some r =>
      if jit_expr_is_const (Some l) && jit_expr_is_const (Some r) then
        folded ← fold_constants e l r;
        match folded with Some c => Ok (Some c) | None => Ok (simplify_bool e) end
      else Ok (simplify_bool e)
  | _, _ => Ok (simplify_bool e)
  end.

Fixpoint jit_optimize_expr (e : JitExprNode) : outcome (option JitExprNode) :=
  let 'JitNode t rt nl v isnull ci lp rp cs ct d k := e in
  l ← match lp with Some l => jit_optimize_expr l | None => Ok None end;
  r ← match rp with Some r => jit_optimize_expr r | None => Ok None end;
  optimize_node (JitNode t rt nl v isnull ci l r cs ct d k).

(** ** The meaning in SQL

    Integer and boolean expressions over columns of type bigint and boolean.  The
    outer option of a meaning is an SQL error, the inner one the NULL. *)

Inductive Arith := Add | Sub | Mul | Mod.

Inductive IExpr :=
| IConst (z : Z) | ICol (c : Z) | INeg (a : IExpr) | IBin (op : Arith) (a b : IExpr).

Inductive BExpr :=
| BConst (x : bool) | BCol (c : Z) | BCmp (op : VectorizedCompareOp) (a b : IExpr)
| BIsNull (c : Z) | BIsNotNull (c : Z) | BNot (e : BExpr) | BAnd (e f : BExpr) | BOr (e f : BExpr).

(** The values of the columns in a row. *)
Record Env := { ints : Z → option Z; flags : Z → option bool }.

Definition bigint (z : Z) : option Z := if decide (in_i 64 z) then Some z else None.

Definition sql_arith (op : Arith) (x y : Z) : option Z :=
  match op with
  | Add => bigint (x + y)
  | Sub => bigint (x - y)
  | Mul => bigint (x * y)
  | Mod => if y =? 0 then None else Some (Z.rem x y)
  end.

(** A strict function of two arguments: NULL when one of them is. *)
Definition strict {A B C} (f : A → B → option C) (x : option A) (y : option B) : option (option C) :=
  match x, y with Some x, Some y => Some <$> f x y | _, _ => Some None end.

Definition sql_and (x y : option bool) : option bool :=
  match x, y with
  | Some false, _ | _, Some false => Some false
  | Some true, Some true => Some true
  | _, _ => None
  end.
Definition sql_or (x y : option bool) : option bool :=
  match x, y with
  | Some true, _ | _, Some true => Some true
  | Some false, Some false => Some false
  | _, _ => None
  end.

Section sql.
Context (E : Env).

Fixpoint sql_int (e : IExpr) : option (option Z) :=
  match e with
  | IConst z => Some <$> bigint z
  | ICol c => Some (ints E c)
  | INeg a => x ← sql_int a; match x with Some x => Some <$> bigint (- x) | None => Some None end
  | IBin op a b => x ← sql_int a; y ← sql_int b; strict (sql_arith op) x y
  end.

Fixpoint sql_bool (e : BExpr) : option (option bool) :=
  match e with
  | BConst x => Some (Some x)
  | BCol c => Some (flags E c)
  | BCmp op a b => x ← sql_int a; y ← sql_int b; strict (λ x y, Some (cmp_int op x y)) x y
  | BIsNull c => Some (Some (bool_decide (ints E c = None)))
  | BIsNotNull c => Some (Some (bool_decide (ints E c ≠ None)))
  | BNot e => x ← sql_bool e; Some (option_map negb x)
  | BAnd e f => x ← sql_bool e; y ← sql_bool f; Some (sql_and x y)
  | BOr e f => x ← sql_bool e; y ← sql_bool f; Some (sql_or x y)
  end.
End sql.

(** The trees of the expressions. *)
Fixpoint build_int (e : IExpr) : JitExprNode :=
  match e with
  | IConst z => jit_expr_const_int64 z
  | ICol c => jit_expr_column c VECTORIZED_TYPE_INT64
  | INeg a => jit_expr_neg (build_int a)
  | IBin Add a b => jit_expr_add (build_int a) (build_int b)
  | IBin Sub a b => jit_expr_sub (build_int a) (build_int b)
  | IBin Mul a b => jit_expr_mul (build_int a) (build_int b)
  | IBin Mod a b => jit_expr_mod (build_int a) (build_int b)
  end.

Definition build_cmp (op : VectorizedCompareOp) : JitExprNode → JitExprNode → JitExprNode :=
  match op with
  | VECTORIZED_CMP_NE => jit_expr_ne
  | VECTORIZED_CMP_LT => jit_expr_lt
  | VECTORIZED_CMP_LE => jit_expr_le
  | VECTORIZED_CMP_GT => jit_expr_gt
  | VECTORIZED_CMP_GE => jit_expr_ge
  | _ => jit_expr_eq
  end.

Fixpoint build (e : BExpr) : JitExprNode :=
  match e with
  | BConst x => jit_expr_const_bool x
  | BCol c => jit_expr_column c VECTORIZED_TYPE_BOOL
  | BCmp op a b => build_cmp op (build_int a) (build_int b)
  | BIsNull c => jit_expr_is_null (jit_expr_column c VECTORIZED_TYPE_INT64)
  | BIsNotNull c => jit_expr_is_not_null (jit_expr_column c VECTORIZED_TYPE_INT64)
  | BNot e => jit_expr_not (build e)
  | BAnd e f => jit_expr_and (build e) (build f)
  | BOr e f => jit_expr_or (build e) (build f)
  end.

(** Divisors are constants other than -1, whose remainder traps for -2^63. *)
Fixpoint plain_int (e : IExpr) : Prop :=
  match e with
  | IConst z => in_i 64 z
  | ICol _ => True
  | INeg a => plain_int a
  | IBin op a b =>
      plain_int a ∧ plain_int b ∧ (op = Mod → match b with IConst k => k ≠ -1 | _ => False end)
  end.

Fixpoint plain (e : BExpr) : Prop :=
  match e with
  | BCmp op a b => is_comparison op = true ∧ plain_int a ∧ plain_int b
  | BNot e => plain e
  | BAnd e f | BOr e f => plain e ∧ plain f
  | _ => True
  end.

Fixpoint int_columns (e : IExpr) : list Z :=
  match e with
  | IConst _ => []
  | ICol c => [c]
  | INeg a => int_columns a
  | IBin _ a b => int_columns a ++ int_columns b
  end.

Fixpoint all_int_columns (e : BExpr) : list Z :=
  match e with
  | BConst _ | BCol _ => []
  | BCmp _ a b => int_columns a ++ int_columns b
  | BIsNull c | BIsNotNull c => [c]
  | BNot e => all_int_columns e
  | BAnd e f | BOr e f => all_int_columns e ++ all_int_columns f
  end.

Fixpoint flag_columns (e : BExpr) : list Z :=
  match e with
  | BCol c => [c]
  | BNot e => flag_columns e
  | BAnd e f | BOr e f => flag_columns e ++ flag_columns f
  | _ => []
  end.

(** A cell of a column that the batch holds at the type of [view]. *)
Definition cell {A} (view : VectorColumn → list A) (b : VectorBatch) (row c : Z) (v : option A) : Prop :=
  0 ≤ c ∧ 0 ≤ row ∧
  ∃ col x, columns b !! Z.to_nat c = Some (Some col) ∧ row < 64 * len (nulls col) ∧
    has_nulls col && null_bit (nulls col) row = bool_decide (v = None) ∧
    view col !! Z.to_nat row = Some x ∧ default x v = x.

Definition holds_row (b : VectorBatch) (row : Z) (E : Env) (e : BExpr) : Prop :=
  Forall (λ c, cell int64s b row c (ints E c)) (all_int_columns e) ∧
  Forall (λ c, cell bools b row c (flags E c)) (flag_columns e).

Definition no_nulls (E : Env) (e : BExpr) : Prop :=
  Forall (λ c, ints E c ≠ None) (all_int_columns e) ∧ Forall (λ c, flags E c ≠ None) (flag_columns e).

(** ** Filters keep rows that satisfy the predicate in SQL *)

(** An integer result is exact, up to the value behind a null flag. *)
Definition gives (r : evaluated Z) (v : option Z) : Prop :=
  ∃ n x, r = Ok (n, x) ∧ match v with None => n = true | Some y => n = false ∧ x = y end.

(** A boolean result is null or exact, and exact when no cell is NULL. *)
Definition approximates (r : evaluated bool) (v : option bool) (full : Prop) : Prop :=
  ∃ n x, r = Ok (n, x) ∧ (n = false → v = Some x) ∧ (full → n = false).

Lemma approximates_weaken r v (full full' : Prop) :
  (full' → full) → approximates r v full → approximates r v full'.
Proof. intros Hf (n & x & E & H1 & H2). exists n, x. auto. Qed.

Lemma cell_value {A} (view : VectorColumn → list A) zero b row c v :
  cell view b row c v →
  column_value b row view zero c =
    Ok (match v with None => (true, zero) | Some x => (false, x) end).
Proof.
  intros (Hc & Hr & col & x & E & Hl & Hn & Hx & Hd). unfold column_value.
  rewrite (proj2 (Z.ltb_ge c 0)), E by done. cbn.
  assert (Hw : is_Some (nulls col !! Z.to_nat (row / 64))).
  { apply lookup_lt_is_Some_2, Nat2Z.inj_lt. rewrite Z2Nat.id by (apply Z.div_pos; lia).
    apply Z.div_lt_upper_bound; lia. }
  destruct Hw as [w Hw]. unfold null_bit in Hn. rewrite nth_lookup, Hw in Hn. cbn in Hn. rewrite Hw.
  destruct v as [y|].
  - rewrite (bool_decide_eq_false_2 (Some y = None)) in Hn by done. cbn in Hd. subst y.
    destruct (has_nulls col); cbn in *; rewrite ?Hn; by rewrite Hx.
  - rewrite (bool_decide_eq_true_2 (None = None)) in Hn by done.
    destruct (has_nulls col); cbn in *; by rewrite ?Hn.
Qed.

(** The null flag does not depend on the type the cell is read at. *)
Lemma cell_null {A B} (view : VectorColumn → list A) (view' : VectorColumn → list B) zero b row c v :
  cell view b row c v →
  (∀ col i, is_Some (view col !! i) → is_Some (view' col !! i)) →
  ∃ x, column_value b row view' zero c = Ok (bool_decide (v = None), x).
Proof.
  intros (Hc & Hr & col & x & E & Hl & Hn & Hx & _) Hv.
  destruct (Hv col (Z.to_nat row)) as [y Hy]; [by eexists|].
  assert (cell view' b row c (option_map (λ _, y) v)) as Hcell.
  { split; [done|]. split; [done|]. exists col, y. split_and!; try done; [|by destruct v].
    rewrite Hn. apply bool_decide_ext. by destruct v. }
  rewrite (cell_value _ zero _ _ _ _ Hcell). exists (if v then y else zero).
  destruct v; [rewrite bool_decide_eq_false_2 by done|rewrite bool_decide_eq_true_2 by done]; done.
Qed.

Lemma int64s_bools col i : is_Some (int64s col !! i) → is_Some (bools col !! i).
Proof.
  rewrite !lookup_lt_is_Some. unfold int64s, bools, elements.
  assert (Hl : ∀ n w l, length (elements_loop n w l) = n).
  { intros n w. induction n as [|n IH]; intros l; cbn; [done|by rewrite IH]. }
  rewrite !length_map, !Hl, Nat.div_1_r. intros H.
  pose proof (Nat.Div0.div_le_upper_bound (length (data col)) 8 (length (data col)) ltac:(lia)). lia.
Qed.

Lemma combine_gives l r g x y f v :
  gives l x → gives r y → strict f x y = Some v → (∀ x y z, f x y = Some z → g x y = z) →
  gives (combine l r g) v.
Proof.
  intros (ln & lx & -> & Hl) (rn & rx & -> & Hr) Hs Hg. unfold combine. cbn.
  exists (ln || rn), (g lx rx). split; [done|].
  destruct x as [x|], y as [y|]; cbn in Hs.
  - destruct Hl as [-> ->], Hr as [-> ->].
    destruct (f x y) as [z|] eqn:Ef; simplify_eq/=. by rewrite (Hg _ _ _ Ef).
  - destruct Hl as [-> ->]. by simplify_eq/=.
  - by simplify_eq/=.
  - by simplify_eq/=.
Qed.

Lemma divide_gives l k x v :
  gives l x → k ≠ -1 → strict (sql_arith Mod) x (Some k) = Some v →
  gives (divide l (Ok (false, k)) Z.rem) v.
Proof.
  intros (ln & lx & -> & Hl) Hk Hs. unfold divide. cbn.
  rewrite (proj2 (Z.eqb_neq k (-1))), andb_false_r by done.
  destruct x as [x|]; cbn in Hs, Hl.
  - destruct Hl as [-> ->]. destruct (Z.eqb_spec k 0); simplify_eq/=. by eexists _, _.
  - simplify_eq. destruct (Z.eqb_spec k 0); by eexists _, _.
Qed.

Lemma negate_gives l x v :
  gives l x → match x with Some x => Some <$> bigint (- x) | None => Some None end = Some v →
  gives (negate l (λ x, i64 (- x))) v.
Proof.
  intros (ln & lx & -> & Hl) Hs. exists ln, (i64 (- lx)). split; [done|].
  destruct x as [x|]; [|by simplify_eq]. destruct Hl as [-> ->].
  unfold bigint in Hs. case_decide; simplify_eq/=. split; [done|]. by apply swrap_id.
Qed.

Lemma compare_approximates {A} (p : A → A → bool) (l r : evaluated A) ln x rn y v full :
  l = Ok (ln, x) → r = Ok (rn, y) →
  (ln = false → rn = false → v = Some (p x y)) → (full → ln = false ∧ rn = false) →
  approximates (compare p l r) v full.
Proof.
  intros -> -> Hv Hf. unfold compare. cbn.
  destruct ln, rn; cbn; eexists _, _; (split; [done|]); split; naive_solver.
Qed.

Lemma and_approximates l r x y f1 f2 :
  approximates l x f1 → approximates r y f2 →
  approximates ('(ln, x) ← l; if ln : bool then null_result false
                else if negb x then Ok (false, false) else r) (sql_and x y) (f1 ∧ f2).
Proof.
  intros (ln & lx & -> & Hl & Fl) (rn & rx & -> & Hr & Fr). cbn.
  destruct ln; [eexists _, _; repeat split; [done|]; naive_solver|].
  rewrite (Hl eq_refl). destruct lx; cbn.
  - eexists _, _. split; [done|]. split; [|naive_solver]. intros H. rewrite (Hr H). by destruct rx.
  - eexists _, _. repeat split; done.
Qed.

Lemma or_approximates l r x y f1 f2 :
  approximates l x f1 → approximates r y f2 →
  approximates ('(ln, x) ← l; if ln : bool then null_result false
                else if x : bool then Ok (false, true) else r) (sql_or x y) (f1 ∧ f2).
Proof.
  intros (ln & lx & -> & Hl & Fl) (rn & rx & -> & Hr & Fr). cbn.
  destruct ln; [eexists _, _; repeat split; [done|]; naive_solver|].
  rewrite (Hl eq_refl). destruct lx; cbn.
  - eexists _, _. repeat split; done.
  - eexists _, _. split; [done|]. split; [|naive_solver]. intros H. rewrite (Hr H). by destruct rx.
Qed.

Lemma not_approximates l x full :
  approximates l x full → approximates (negate l negb) (option_map negb x) full.
Proof.
  intros (n & y & -> & H1 & H2). exists n, (negb y). split; [done|]. split; [|done].
  intros H. by rewrite (H1 H).
Qed.

(** A tree computes an expression, in every batch and row. *)
Definition denotes_int (n : JitExprNode) (e : IExpr) : Prop :=
  result_type n = VECTORIZED_TYPE_INT64 ∧
  ∀ b row E v, Forall (λ c, cell int64s b row c (ints E c)) (int_columns e) →
    sql_int E e = Some v → gives (jit_eval_int64_internal b row n) v.

Definition denotes (n : JitExprNode) (e : BExpr) : Prop :=
  ∀ b row E v, holds_row b row E e → sql_bool E e = Some v →
    approximates (jit_eval_bool_internal b row n) v (no_nulls E e).

Definition arith_type (op : Arith) : JitExprType :=
  match op with
  | Add => JIT_EXPR_ARITH_ADD | Sub => JIT_EXPR_ARITH_SUB | Mul => JIT_EXPR_ARITH_MUL
  | Mod => JIT_EXPR_ARITH_MOD
  end.

Lemma sql_int_full E e v :
  sql_int E e = Some v → Forall (λ c, ints E c ≠ None) (int_columns e) → v ≠ None.
Proof.
  revert v. induction e as [z|c|a IH|op a IHa b IHb]; intros v Hv Hf; cbn in Hv, Hf.
  - destruct (bigint z); by simplify_eq/=.
  - rewrite Forall_singleton in Hf. by simplify_eq.
  - destruct (sql_int E a) as [[x|]|]; cbn in Hv; [|by destruct (IH None)|done].
    destruct (bigint (- x)); by simplify_eq/=.
  - apply Forall_app in Hf as [Ha Hb].
    destruct (sql_int E a) as [[x|]|]; [|by destruct (IHa None)|done].
    destruct (sql_int E b) as [[y|]|]; [|by destruct (IHb None)|done].
    cbn in Hv. destruct (sql_arith op x y); by simplify_eq/=.
Qed.

(** The nodes, whatever their other fields are. *)
Section nodes.
Context (nl : bool) (v0 : Z) (isnull : bool) (ci : Z) (cs : list JitExprNode)
  (ct : VectorizedDataType) (d k : Z).
Abbreviation node t rt l r := (JitNode t rt nl v0 isnull ci l r cs ct d k).

Lemma const_denotes z : in_i 64 z → denotes_int (jit_expr_const_int64 z) (IConst z).
Proof.
  intros Hz. split; [done|]. intros b row E v _ Hv. cbn in Hv. unfold bigint in Hv.
  rewrite decide_True in Hv by done. simplify_eq/=.
  exists false, z. split; [|done]. cbn. do 2 f_equal. rewrite swrap_uwrap by lia. by apply swrap_id.
Qed.

Lemma column_denotes c : denotes_int (jit_expr_column c VECTORIZED_TYPE_INT64) (ICol c).
Proof.
  split; [done|]. intros b row E v Hc Hv. cbn in Hc. rewrite Forall_singleton in Hc. simplify_eq/=.
  unfold jit_eval_int64_internal. cbn. rewrite (cell_value _ 0 _ _ _ _ Hc).
  destruct (ints E c); by eexists _, _.
Qed.

Lemma neg_denotes l r a :
  denotes_int l a →
  denotes_int (node JIT_EXPR_ARITH_NEG VECTORIZED_TYPE_INT64 (Some l) r) (INeg a).
Proof.
  intros [_ Hl]. split; [done|]. intros b row E v Hc Hv. cbn in Hc, Hv.
  destruct (sql_int E a) as [x|] eqn:Ea; [|done]. cbn in Hv.
  unfold jit_eval_int64_internal. cbn. apply (negate_gives _ x); [by apply (Hl b row E)|done].
Qed.

Lemma bin_denotes op l r a b :
  denotes_int l a → denotes_int r b →
  (op = Mod → ∃ k, b = IConst k ∧ r = jit_expr_const_int64 k ∧ k ≠ -1 ∧ in_i 64 k) →
  denotes_int (node (arith_type op) VECTORIZED_TYPE_INT64 (Some l) (Some r)) (IBin op a b).
Proof.
  intros [_ Hl] [_ Hr] Hm. split; [done|]. intros bt row E v [Hca Hcb]%Forall_app Hv.
  cbn in Hv. destruct (sql_int E a) as [x|] eqn:Ea; [|done].
  destruct (sql_int E b) as [y|] eqn:Eb; [|done]. cbn in Hv.
  specialize (Hl bt row E x Hca Ea). specialize (Hr bt row E y Hcb Eb).
  unfold jit_eval_int64_internal in *. destruct op; cbn.
  4: { destruct Hm as (m & -> & -> & Hk & Hin); [done|].
    cbn in Eb. unfold bigint in Eb. rewrite decide_True in Eb by done. simplify_eq/=.
    rewrite swrap_uwrap, swrap_id by (done || lia). by eapply divide_gives. }
  all: eapply combine_gives; [done|done|done|]; cbn; unfold bigint; intros; case_decide;
    simplify_eq/=; by apply swrap_id.
Qed.

Lemma cmp_denotes t op rt l r a b :
  compare_op t = Some op → denotes_int l a → denotes_int r b →
  denotes (node t rt (Some l) (Some r)) (BCmp op a b).
Proof.
  intros Ht [Tl Hl] [Tr Hr] bt row E v [[Hca Hcb]%Forall_app _] Hv. cbn in Hv.
  destruct (sql_int E a) as [x|] eqn:Ea; [|done].
  destruct (sql_int E b) as [y|] eqn:Eb; [|done]. cbn in Hv.
  destruct (Hl bt row E x Hca Ea) as (ln & lx & El & Hlx).
  destruct (Hr bt row E y Hcb Eb) as (rn & rx & Er & Hrx).
  unfold jit_eval_bool_internal. cbn. rewrite Ht, Tl, Tr. rewrite decide_False by naive_solver.
  eapply compare_approximates; [exact El|exact Er| |].
  - intros -> ->. destruct x, y; cbn in Hv; destruct_and?; naive_solver.
  - intros [Hf _]. cbn in Hf. apply Forall_app in Hf as [Hfa Hfb].
    apply (sql_int_full E a x) in Hfa; [|done]. apply (sql_int_full E b y) in Hfb; [|done].
    destruct x, y; naive_solver.
Qed.
End nodes.

Lemma build_denotes_int e : plain_int e → denotes_int (build_int e) e.
Proof.
  induction e as [z|c|a IH|op a IHa b IHb]; intros Hp; cbn in Hp.
  - by apply const_denotes.
  - apply column_denotes.
  - specialize (IH Hp). cbn [build_int]. unfold jit_expr_neg, jit_expr_unary.
    rewrite (proj1 IH). by apply neg_denotes.
  - destruct Hp as (Ha & Hb & Hm). specialize (IHa Ha). specialize (IHb Hb).
    assert (op = Mod → ∃ k, b = IConst k ∧ build_int b = jit_expr_const_int64 k ∧ k ≠ -1 ∧ in_i 64 k)
      as Hmod by (intros E; specialize (Hm E); destruct b; try done; by eexists).
    destruct op; cbn [build_int]; unfold jit_expr_add, jit_expr_sub, jit_expr_mul, jit_expr_mod,
      jit_expr_arith, jit_expr_binary; rewrite ?(proj1 IHa), ?(proj1 IHb);
      [apply (bin_denotes _ _ _ _ _ _ _ _ Add)|apply (bin_denotes _ _ _ _ _ _ _ _ Sub)
      |apply (bin_denotes _ _ _ _ _ _ _ _ Mul)|apply (bin_denotes _ _ _ _ _ _ _ _ Mod)]; done.
Qed.

Section bool_nodes.
Context (nl : bool) (v0 : Z) (isnull : bool) (ci : Z) (cs : list JitExprNode)
  (ct : VectorizedDataType) (d k : Z).
Abbreviation node t l r := (JitNode t VECTORIZED_TYPE_BOOL nl v0 isnull ci l r cs ct d k).

Lemma bool_const_denotes x : denotes (jit_expr_const_bool x) (BConst x).
Proof.
  intros b row E v _ Hv. simplify_eq/=. exists false, x. split; [by destruct x|done].
Qed.

Lemma flag_denotes c : denotes (jit_expr_column c VECTORIZED_TYPE_BOOL) (BCol c).
Proof.
  intros b row E v [_ Hc] Hv. cbn in Hc. rewrite Forall_singleton in Hc. simplify_eq/=.
  unfold jit_eval_bool_internal. cbn. rewrite (cell_value _ false _ _ _ _ Hc).
  destruct (flags E c) as [x|] eqn:Ef; eexists _, _; (split; [done|]); split; try done.
  intros [_ Hf]. cbn in Hf. rewrite Forall_singleton in Hf. done.
Qed.

Lemma null_test_eval b row c E :
  cell int64s b row c (ints E c) →
  ∃ x, jit_eval_bool_internal b row (jit_expr_column c VECTORIZED_TYPE_INT64) =
    Ok (bool_decide (ints E c = None), x).
Proof. intros Hc. apply (cell_null _ bools false _ _ _ _ Hc). apply int64s_bools. Qed.

Lemma is_null_denotes r c :
  denotes (node JIT_EXPR_IS_NULL (Some (jit_expr_column c VECTORIZED_TYPE_INT64)) r) (BIsNull c).
Proof.
  intros b row E v [Hc _] Hv. cbn in Hc. rewrite Forall_singleton in Hc. simplify_eq/=.
  destruct (null_test_eval _ _ _ _ Hc) as [x Ex]. unfold jit_eval_bool_internal in *.
  cbn [eval ev_bool compare_op deref mbind outcome_bind]. rewrite Ex. cbn.
  by eexists _, _.
Qed.

Lemma is_not_null_denotes r c :
  denotes (node JIT_EXPR_IS_NOT_NULL (Some (jit_expr_column c VECTORIZED_TYPE_INT64)) r) (BIsNotNull c).
Proof.
  intros b row E v [Hc _] Hv. cbn in Hc. rewrite Forall_singleton in Hc. simplify_eq/=.
  destruct (null_test_eval _ _ _ _ Hc) as [x Ex]. unfold jit_eval_bool_internal in *.
  cbn [eval ev_bool compare_op deref mbind outcome_bind]. rewrite Ex. cbn.
  eexists _, _. split; [done|]. split; [|done]. intros _. f_equal. by rewrite bool_decide_not.
Qed.

Lemma not_denotes r n e :
  denotes n e → denotes (node JIT_EXPR_BOOL_NOT (Some n) r) (BNot e).
Proof.
  intros Hn b row E v Hc Hv. cbn in Hv. destruct (sql_bool E e) as [x|] eqn:Ee; simplify_eq/=.
  unfold jit_eval_bool_internal. cbn. apply not_approximates. by apply Hn.
Qed.

Lemma full_split E l1 l2 k1 k2 :
  Forall (λ c, ints E c ≠ None) (l1 ++ l2) ∧ Forall (λ c, flags E c ≠ None) (k1 ++ k2) →
  (Forall (λ c, ints E c ≠ None) l1 ∧ Forall (λ c, flags E c ≠ None) k1) ∧
  (Forall (λ c, ints E c ≠ None) l2 ∧ Forall (λ c, flags E c ≠ None) k2).
Proof. rewrite !Forall_app. tauto. Qed.

Lemma row_split b row E l1 l2 k1 k2 :
  Forall (λ c, cell int64s b row c (ints E c)) (l1 ++ l2) ∧
    Forall (λ c, cell bools b row c (flags E c)) (k1 ++ k2) →
  (Forall (λ c, cell int64s b row c (ints E c)) l1 ∧ Forall (λ c, cell bools b row c (flags E c)) k1) ∧
  (Forall (λ c, cell int64s b row c (ints E c)) l2 ∧ Forall (λ c, cell bools b row c (flags E c)) k2).
Proof. rewrite !Forall_app. tauto. Qed.

Lemma and_denotes l r e f :
  denotes l e → denotes r f →
  denotes (node JIT_EXPR_BOOL_AND (Some l) (Some r)) (BAnd e f).
Proof.
  intros Hl Hr b row E v [Hce Hcf]%row_split Hv. cbn in Hv.
  destruct (sql_bool E e) as [x|] eqn:Ee; [|done].
  destruct (sql_bool E f) as [y|] eqn:Ef; simplify_eq/=.
  eapply approximates_weaken; [apply full_split|].
  unfold jit_eval_bool_internal. cbn. apply and_approximates; [by apply Hl|by apply Hr].
Qed.

Lemma or_denotes l r e f :
  denotes l e → denotes r f →
  denotes (node JIT_EXPR_BOOL_OR (Some l) (Some r)) (BOr e f).
Proof.
  intros Hl Hr b row E v [Hce Hcf]%row_split Hv. cbn in Hv.
  destruct (sql_bool E e) as [x|] eqn:Ee; [|done].
  destruct (sql_bool E f) as [y|] eqn:Ef; simplify_eq/=.
  eapply approximates_weaken; [apply full_split|].
  unfold jit_eval_bool_internal. cbn. apply or_approximates; [by apply Hl|by apply Hr].
Qed.
End bool_nodes.

Lemma build_denotes e : plain e → denotes (build e) e.
Proof.
  induction e as [x|c|op a b|c|c|e IH|e IHe f IHf|e IHe f IHf]; intros Hp; cbn in Hp.
  - apply bool_const_denotes.
  - apply flag_denotes.
  - destruct Hp as (Ho & Ha & Hb).
    destruct op; try done; apply cmp_denotes; try done; by apply build_denotes_int.
  - apply is_null_denotes.
  - apply is_not_null_denotes.
  - by apply not_denotes, IH.
  - destruct Hp. by apply and_denotes; auto.
  - destruct Hp. by apply or_denotes; auto.
Qed.

(** ** Constant folding *)

(** The arithmetic of the folding; a zero divisor gives zero. *)
Definition fold_arith (op : Arith) (x y : Z) : Z :=
  match op with
  | Add => i64 (x + y) | Sub => i64 (x - y) | Mul => i64 (x * y)
  | Mod => if y =? 0 then 0 else Z.rem x y
  end.

(** The constant an integer expression folds to; negations are not folded. *)
Fixpoint ifold (e : IExpr) : option Z :=
  match e with
  | IConst z => Some z
  | IBin op a b =>
      match ifold a, ifold b with
      | Some x, Some y => Some (fold_arith op x y)
      | _, _ => None
      end
  | _ => None
  end.

Definition exact_double (z : Z) : Prop := - 2 ^ 53 < z < 2 ^ 53.

(** Comparisons of two constants are folded in double precision. *)
Fixpoint folds_exactly (e : BExpr) : Prop :=
  match e with
  | BCmp _ a b =>
      match ifold a, ifold b with
      | Some x, Some y => exact_double x ∧ exact_double y
      | _, _ => True
      end
  | BNot e => folds_exactly e
  | BAnd e f | BOr e f => folds_exactly e ∧ folds_exactly f
  | _ => True
  end.

Lemma cmp_float_exact op x y :
  exact_double x → exact_double y →
  cmp_float op (float_of_Z binary64 x) (float_of_Z binary64 y) = cmp_int op x y.
Proof.
  intros Hx Hy. pose proof (float_of_Z_compare x y Hx Hy) as Hxy.
  pose proof (float_of_Z_compare y x Hy Hx) as Hyx.
  destruct (Z.compare_spec x y), (Z.compare_spec y x); try lia;
    destruct op; cbn [cmp_float cmp_int]; unfold feq, fne, flt, fle, SFeqb, SFltb, SFleb;
    rewrite ?Hxy, ?Hyx; lia.
Qed.

Lemma const_int64_value z : in_i 64 z →
  jit_convert_to_int64 (const_value (jit_expr_const_int64 z)) VECTORIZED_TYPE_INT64 = Ok z.
Proof. intros. cbn. rewrite swrap_uwrap by lia. by rewrite swrap_id. Qed.

Lemma const_int64_float z : in_i 64 z → as_float (jit_expr_const_int64 z) = float_of_Z binary64 z.
Proof. intros. unfold as_float. cbn. rewrite swrap_uwrap by lia. by rewrite swrap_id. Qed.

(** A constant that denotes an expression is its value in every row. *)
Lemma const_int_value z a b row E v :
  in_i 64 z → denotes_int (jit_expr_const_int64 z) a →
  Forall (λ c, cell int64s b row c (ints E c)) (int_columns a) → sql_int E a = Some v → v = Some z.
Proof.
  intros Hz [_ Hd] Hc Hv. destruct (Hd b row E v Hc Hv) as (n & x & Ev & Hx).
  unfold jit_eval_int64_internal in Ev. cbn in Ev. rewrite swrap_uwrap in Ev by lia.
  rewrite swrap_id in Ev by done. simplify_eq. destruct v; [|done]. by destruct Hx as [_ ->].
Qed.

Lemma build_bin op a b :
  plain_int (IBin op a b) →
  ∃ nl d k, build_int (IBin op a b) =
    JitNode (arith_type op) VECTORIZED_TYPE_INT64 nl 0 false 0 (Some (build_int a))
      (Some (build_int b)) [] VECTORIZED_TYPE_INT32 d k.
Proof.
  intros (Ha & Hb & _).
  assert (Ta := proj1 (build_denotes_int a Ha)). assert (Tb := proj1 (build_denotes_int b Hb)).
  destruct op; cbn [build_int]; unfold jit_expr_add, jit_expr_sub, jit_expr_mul, jit_expr_mod,
    jit_expr_arith, jit_expr_binary; rewrite ?Ta, ?Tb; by eexists _, _, _.
Qed.

Lemma rem_in_range x y : in_i 64 x → y ≠ 0 → in_i 64 (Z.rem x y).
Proof.
  unfold in_i. intros Hx Hy. pose proof (Z.rem_bound_abs x y Hy).
  destruct (Z.le_gt_cases 0 x).
  - pose proof (Z.rem_nonneg x y Hy ltac:(lia)).
    pose proof (Z.rem_le (x) (Z.abs y)). rewrite Z.rem_abs_r in * by done. lia.
  - pose proof (Z.rem_nonpos x y Hy ltac:(lia)).
    pose proof (Z.rem_le (- x) (Z.abs y)). rewrite Z.rem_abs_r, Z.rem_opp_l in * by done. lia.
Qed.

Lemma fold_int64_arith op x y :
  in_i 64 x → (op = Mod → y ≠ -1) →
  fold_int64 (arith_type op) x y = Ok (fold_arith op x y) ∧ in_i 64 (fold_arith op x y).
Proof.
  intros Hx Hm. destruct op; cbn; try (split; [done|by apply swrap_range]).
  rewrite (proj2 (Z.eqb_neq y (-1))), andb_false_r by auto.
  destruct (Z.eqb_spec y 0); [by split|]. split; [done|]. by apply rem_in_range.
Qed.

Lemma fold_arith_sql op x y z : sql_arith op x y = Some z → z = fold_arith op x y.
Proof.
  destruct op; cbn; unfold bigint.
  4: by destruct (y =? 0); intros; simplify_eq.
  all: case_decide; intros; simplify_eq; by rewrite swrap_id.
Qed.

Lemma folded_denotes op a b x y :
  in_i 64 x → in_i 64 y → denotes_int (jit_expr_const_int64 x) a →
  denotes_int (jit_expr_const_int64 y) b → in_i 64 (fold_arith op x y) →
  denotes_int (jit_expr_const_int64 (fold_arith op x y)) (IBin op a b).
Proof.
  intros Hx Hy Da Db Hz. split; [done|]. intros bt row E v [Hca Hcb]%Forall_app Hv. cbn in Hv.
  destruct (sql_int E a) as [va|] eqn:Ea; [|done].
  destruct (sql_int E b) as [vb|] eqn:Eb; [|done].
  apply (const_int_value _ _ _ _ _ _ Hx Da Hca) in Ea as ->.
  apply (const_int_value _ _ _ _ _ _ Hy Db Hcb) in Eb as ->. cbn in Hv.
  destruct (sql_arith op x y) as [z|] eqn:Ez; simplify_eq/=. apply fold_arith_sql in Ez as ->.
  exists false, (fold_arith op x y). split; [|done]. unfold jit_eval_int64_internal. cbn.
  rewrite swrap_uwrap by lia. by rewrite swrap_id.
Qed.

Lemma optimize_int e :
  plain_int e →
  ∃ n, jit_optimize_expr (build_int e) = Ok (Some n) ∧ denotes_int n e ∧
    match ifold e with
    | Some z => n = jit_expr_const_int64 z ∧ in_i 64 z
    | None => type n ≠ JIT_EXPR_CONST
    end.
Proof.
  induction e as [z|c|a IH|op a IHa b IHb]; intros Hp; cbn in Hp.
  - exists (jit_expr_const_int64 z). split; [done|]. split; [by apply const_denotes|done].
  - exists (jit_expr_column c VECTORIZED_TYPE_INT64). split; [done|]. split; [apply column_denotes|done].
  - destruct (IH Hp) as (n & En & Hn & _).
    cbn [build_int]. unfold jit_expr_neg, jit_expr_unary. cbn [jit_optimize_expr].
    rewrite En. cbn. rewrite (proj1 (build_denotes_int a Hp)).
    eexists. split; [done|]. split; [by apply neg_denotes|done].
  - destruct (build_bin op a b Hp) as (nl & d & k & ->). destruct Hp as (Ha & Hb & Hm).
    destruct (IHa Ha) as (l & El & Dl & Fl), (IHb Hb) as (r & Er & Dr & Fr).
    cbn [jit_optimize_expr]. rewrite El, Er. cbn [mbind outcome_bind].
    unfold optimize_node. cbn [left right jit_expr_is_const]. cbn [ifold].
    assert (Hr : op = Mod → ∃ k, b = IConst k ∧ r = jit_expr_const_int64 k ∧ k ≠ -1 ∧ in_i 64 k).
    { intros E. specialize (Hm E). destruct b; try done. cbn in Fr. destruct Fr as [-> ?]. by eexists. }
    assert (∃ n, Ok (simplify_bool (JitNode (arith_type op) VECTORIZED_TYPE_INT64 nl 0 false 0
        (Some l) (Some r) [] VECTORIZED_TYPE_INT32 d k)) = Ok (Some n) ∧
        denotes_int n (IBin op a b) ∧ type n ≠ JIT_EXPR_CONST) as Hplain.
    { eexists. split; [by destruct op|]. split; [by apply bin_denotes|by destruct op]. }
    destruct (ifold a) as [x|], (ifold b) as [y|];
      try (rewrite (bool_decide_eq_false_2 (type l = _)) by done);
      try (rewrite (bool_decide_eq_false_2 (type r = _)) by done);
      rewrite ?andb_false_r; try exact Hplain.
    destruct Fl as [-> Hx], Fr as [-> Hy]. cbn [andb bool_decide].
    destruct (fold_int64_arith op x y Hx) as [Ef Hz].
    { intros E. destruct (Hr E) as (k' & _ & E' & ? & ?).
      apply (f_equal (λ n, i64 (const_value n))) in E'. cbn in E'.
      rewrite !swrap_uwrap, !swrap_id in E' by (done || lia). by subst. }
    exists (jit_expr_const_int64 (fold_arith op x y)).
    split; [|split; [by apply folded_denotes|done]].
    rewrite !bool_decide_eq_true_2 by done. cbn [andb].
    unfold fold_constants. cbn [type result_type].
    replace (match arith_type op with JIT_EXPR_CONST => _ | _ => _ end) with
      (z ← fold_int64 (arith_type op) x y; Ok (Some (jit_expr_const_int64 z))); [by rewrite Ef|].
    destruct op; cbn [arith_type]; by rewrite !const_int64_value.
Qed.

(** What the folding leaves for a boolean expression. *)
Definition optimized (e : BExpr) (n : JitExprNode) : Prop :=
  denotes n e ∧ (type n = JIT_EXPR_CONST → ∃ x, n = jit_expr_const_bool x).

Lemma as_bool_const x : as_bool (jit_expr_const_bool x) = x.
Proof. by destruct x. Qed.

(** A constant that denotes an expression is its value in every row. *)
Lemma const_bool_value x e b row E v :
  denotes (jit_expr_const_bool x) e → holds_row b row E e → sql_bool E e = Some v → v = Some x.
Proof.
  intros Hd Hc Hv. destruct (Hd b row E v Hc Hv) as (n & y & Ev & Hx & _).
  destruct x; cbn in Ev; simplify_eq; by rewrite Hx.
Qed.

(** Constants that replace a connective, and operands that do. *)
Lemma const_replaces z e :
  (∀ b row E v, holds_row b row E e → sql_bool E e = Some v → v = Some z) →
  denotes (jit_expr_const_bool z) e.
Proof.
  intros Hz b row E v Hc Hv. rewrite (Hz _ _ _ _ Hc Hv).
  exists false, z. split; [by destruct z|done].
Qed.

Section connectives.
Context (e f : BExpr) (l r : JitExprNode) (He : denotes l e) (Hf : denotes r f).

(** The meaning of both operands in a row in which the connective has one. *)
Lemma and_meaning b row E v :
  holds_row b row E (BAnd e f) → sql_bool E (BAnd e f) = Some v →
  holds_row b row E e ∧ holds_row b row E f ∧
  ∃ x y, sql_bool E e = Some x ∧ sql_bool E f = Some y ∧ v = sql_and x y.
Proof.
  intros [Hce Hcf]%row_split Hv. cbn in Hv. split; [done|]. split; [done|].
  destruct (sql_bool E e) as [x|], (sql_bool E f) as [y|]; simplify_eq/=. eauto.
Qed.

Lemma or_meaning b row E v :
  holds_row b row E (BOr e f) → sql_bool E (BOr e f) = Some v →
  holds_row b row E e ∧ holds_row b row E f ∧
  ∃ x y, sql_bool E e = Some x ∧ sql_bool E f = Some y ∧ v = sql_or x y.
Proof.
  intros [Hce Hcf]%row_split Hv. cbn in Hv. split; [done|]. split; [done|].
  destruct (sql_bool E e) as [x|], (sql_bool E f) as [y|]; simplify_eq/=. eauto.
Qed.

Lemma false_and : l = jit_expr_const_bool false ∨ r = jit_expr_const_bool false →
  denotes (jit_expr_const_bool false) (BAnd e f).
Proof using He Hf.
  intros Hc. apply const_replaces. intros b row E v Hr Hv.
  destruct (and_meaning b row E v Hr Hv) as (Hre & Hrf & x & y & Ex & Ey & ->).
  destruct Hc as [-> | ->].
  - by rewrite (const_bool_value _ _ _ _ _ _ He Hre Ex).
  - rewrite (const_bool_value _ _ _ _ _ _ Hf Hrf Ey). by destruct x as [[]|].
Qed.

Lemma true_or : l = jit_expr_const_bool true ∨ r = jit_expr_const_bool true →
  denotes (jit_expr_const_bool true) (BOr e f).
Proof using He Hf.
  intros Hc. apply const_replaces. intros b row E v Hr Hv.
  destruct (or_meaning b row E v Hr Hv) as (Hre & Hrf & x & y & Ex & Ey & ->).
  destruct Hc as [-> | ->].
  - by rewrite (const_bool_value _ _ _ _ _ _ He Hre Ex).
  - rewrite (const_bool_value _ _ _ _ _ _ Hf Hrf Ey). by destruct x as [[]|].
Qed.

Lemma true_and_l : l = jit_expr_const_bool true → denotes r (BAnd e f).
Proof using He Hf.
  intros -> b row E v Hr Hv.
  destruct (and_meaning b row E v Hr Hv) as (Hre & Hrf & x & y & Ex & Ey & ->).
  rewrite (const_bool_value _ _ _ _ _ _ He Hre Ex).
  replace (sql_and (Some true) y) with y by (by destruct y as [[]|]).
  eapply approximates_weaken; [|by apply (Hf b row E)]. apply full_split.
Qed.

Lemma true_and_r : r = jit_expr_const_bool true → denotes l (BAnd e f).
Proof using He Hf.
  intros -> b row E v Hr Hv.
  destruct (and_meaning b row E v Hr Hv) as (Hre & Hrf & x & y & Ex & Ey & ->).
  rewrite (const_bool_value _ _ _ _ _ _ Hf Hrf Ey).
  replace (sql_and x (Some true)) with x by (by destruct x as [[]|]).
  eapply approximates_weaken; [|by apply (He b row E)]. apply full_split.
Qed.

Lemma false_or_l : l = jit_expr_const_bool false → denotes r (BOr e f).
Proof using He Hf.
  intros -> b row E v Hr Hv.
  destruct (or_meaning b row E v Hr Hv) as (Hre & Hrf & x & y & Ex & Ey & ->).
  rewrite (const_bool_value _ _ _ _ _ _ He Hre Ex).
  replace (sql_or (Some false) y) with y by (by destruct y as [[]|]).
  eapply approximates_weaken; [|by apply (Hf b row E)]. apply full_split.
Qed.

Lemma false_or_r : r = jit_expr_const_bool false → denotes l (BOr e f).
Proof using He Hf.
  intros -> b row E v Hr Hv.
  destruct (or_meaning b row E v Hr Hv) as (Hre & Hrf & x & y & Ex & Ey & ->).
  rewrite (const_bool_value _ _ _ _ _ _ Hf Hrf Ey).
  replace (sql_or x (Some false)) with x by (by destruct x as [[]|]).
  eapply approximates_weaken; [|by apply (He b row E)]. apply full_split.
Qed.
End connectives.

Lemma optimized_const x e : denotes (jit_expr_const_bool x) e → optimized e (jit_expr_const_bool x).
Proof. intros H. split; [done|]. intros _. by exists x. Qed.

Lemma const_cases e n : optimized e n →
  jit_expr_is_const (Some n) = false ∨
  jit_expr_is_const (Some n) = true ∧ ∃ x, n = jit_expr_const_bool x.
Proof.
  intros [_ Hc]. cbn. destruct (decide (type n = JIT_EXPR_CONST)) as [E|E].
  - right. rewrite bool_decide_eq_true_2 by done. split; [done|]. by apply Hc.
  - left. by apply bool_decide_eq_false_2.
Qed.

Section optimize.
Context (nl : bool) (v0 : Z) (isnull : bool) (ci : Z) (cs : list JitExprNode)
  (ct : VectorizedDataType) (d k : Z).
Abbreviation node t l r := (JitNode t VECTORIZED_TYPE_BOOL nl v0 isnull ci l r cs ct d k).

Lemma optimize_and e f l r :
  optimized e l → optimized f r →
  ∃ n, optimize_node (node JIT_EXPR_BOOL_AND (Some l) (Some r)) = Ok (Some n) ∧ optimized (BAnd e f) n.
Proof.
  intros Hl Hr. pose proof (const_cases _ _ Hl) as Cl. pose proof (const_cases _ _ Hr) as Cr.
  destruct Hl as [Dl Kl], Hr as [Dr Kr].
  unfold optimize_node, simplify_bool. cbn [left right type].
  destruct Cl as [Cl|[Cl [x ->]]], Cr as [Cr|[Cr [y ->]]]; rewrite Cl, Cr; cbn [andb].
  - eexists. split; [done|]. split; [by apply and_denotes|done].
  - rewrite as_bool_const. destruct y.
    + eexists. split; [done|]. split; [by eapply true_and_r|done].
    + eexists. split; [done|]. apply optimized_const. eapply false_and; eauto.
  - rewrite as_bool_const. destruct x.
    + eexists. split; [done|]. split; [by eapply true_and_l|done].
    + eexists. split; [done|]. apply optimized_const. eapply false_and; eauto.
  - cbn [fold_constants type mbind outcome_bind]. rewrite !as_bool_const.
    eexists. split; [done|]. apply optimized_const. destruct x; cbn [andb].
    + by eapply true_and_l.
    + eapply false_and; eauto.
Qed.

Lemma optimize_or e f l r :
  optimized e l → optimized f r →
  ∃ n, optimize_node (node JIT_EXPR_BOOL_OR (Some l) (Some r)) = Ok (Some n) ∧ optimized (BOr e f) n.
Proof.
  intros Hl Hr. pose proof (const_cases _ _ Hl) as Cl. pose proof (const_cases _ _ Hr) as Cr.
  destruct Hl as [Dl Kl], Hr as [Dr Kr].
  unfold optimize_node, simplify_bool. cbn [left right type].
  destruct Cl as [Cl|[Cl [x ->]]], Cr as [Cr|[Cr [y ->]]]; rewrite Cl, Cr; cbn [andb].
  - eexists. split; [done|]. split; [by apply or_denotes|done].
  - rewrite as_bool_const. destruct y.
    + eexists. split; [done|]. apply optimized_const. eapply true_or; eauto.
    + eexists. split; [done|]. split; [by eapply false_or_r|done].
  - rewrite as_bool_const. destruct x.
    + eexists. split; [done|]. apply optimized_const. eapply true_or; eauto.
    + eexists. split; [done|]. split; [by eapply false_or_l|done].
  - cbn [fold_constants type mbind outcome_bind]. rewrite !as_bool_const.
    eexists. split; [done|]. apply optimized_const. destruct x; cbn [orb].
    + eapply true_or; eauto.
    + by eapply false_or_l.
Qed.

Lemma optimize_not e n :
  optimized e n →
  ∃ n', optimize_node (node JIT_EXPR_BOOL_NOT (Some n) None) = Ok (Some n') ∧ optimized (BNot e) n'.
Proof.
  intros Hn. pose proof (const_cases _ _ Hn) as Cn. destruct Hn as [Dn Kn].
  unfold optimize_node, simplify_bool. cbn [left right type].
  destruct Cn as [Cn|[Cn [x ->]]]; rewrite Cn.
  - eexists. split; [done|]. split; [by apply not_denotes|done].
  - rewrite as_bool_const. eexists. split; [done|]. apply optimized_const, const_replaces.
    intros b row E v Hc Hv. cbn in Hv. destruct (sql_bool E e) as [y|] eqn:Ee; simplify_eq/=.
    by rewrite (const_bool_value _ _ _ _ _ _ Dn Hc Ee).
Qed.

Lemma optimize_cmp t op a b l r :
  compare_op t = Some op → denotes_int l a → denotes_int r b →
  match ifold a with
  | Some z => l = jit_expr_const_int64 z ∧ in_i 64 z | None => type l ≠ JIT_EXPR_CONST end →
  match ifold b with
  | Some z => r = jit_expr_const_int64 z ∧ in_i 64 z | None => type r ≠ JIT_EXPR_CONST end →
  folds_exactly (BCmp op a b) →
  ∃ n, optimize_node (node t (Some l) (Some r)) = Ok (Some n) ∧ optimized (BCmp op a b) n.
Proof.
  intros Ht Dl Dr Fl Fr Hx. cbn in Hx.
  assert (∃ n, Ok (simplify_bool (node t (Some l) (Some r))) = Ok (Some n) ∧
    optimized (BCmp op a b) n) as Hplain.
  { eexists. split; [by destruct t|]. split; [by apply cmp_denotes|by destruct t]. }
  unfold optimize_node. cbn [left right jit_expr_is_const].
  destruct (ifold a) as [x|], (ifold b) as [y|];
    try (rewrite (bool_decide_eq_false_2 (type l = _)) by done);
    try (rewrite (bool_decide_eq_false_2 (type r = _)) by done);
    rewrite ?andb_false_r; try exact Hplain.
  destruct Fl as [-> Hl], Fr as [-> Hr]. destruct Hx as [Ex Ey].
  rewrite !bool_decide_eq_true_2 by done. cbn [andb].
  replace (fold_constants _ _ _) with (Ok (Some (jit_expr_const_bool (cmp_int op x y)))).
  2: { unfold fold_constants. cbn [type].
    destruct t; try discriminate; injection Ht as <-; cbn [compare_op];
      rewrite !const_int64_float by done; by rewrite cmp_float_exact. }
  cbn. eexists. split; [done|]. apply optimized_const, const_replaces.
  intros bt row E v [[Hca Hcb]%Forall_app _] Hv. cbn in Hv.
  destruct (sql_int E a) as [va|] eqn:Ea; [|done].
  destruct (sql_int E b) as [vb|] eqn:Eb; [|done].
  apply (const_int_value _ _ _ _ _ _ Hl Dl Hca) in Ea as ->.
  apply (const_int_value _ _ _ _ _ _ Hr Dr Hcb) in Eb as ->. by simplify_eq/=.
Qed.
End optimize.

Lemma optimize_bool e :
  plain e → folds_exactly e →
  ∃ n, jit_optimize_expr (build e) = Ok (Some n) ∧ optimized e n.
Proof.
  induction e as [x|c|op a b|c|c|e IH|e IHe f IHf|e IHe f IHf]; intros Hp Hx; cbn in Hp.
  - exists (jit_expr_const_bool x). split; [done|]. apply optimized_const, bool_const_denotes.
  - exists (jit_expr_column c VECTORIZED_TYPE_BOOL). split; [done|]. split; [apply flag_denotes|done].
  - destruct Hp as (Ho & Ha & Hb).
    destruct (optimize_int a Ha) as (l & El & Dl & Fl), (optimize_int b Hb) as (r & Er & Dr & Fr).
    destruct op; try done; cbn; rewrite El, Er; cbn [mbind outcome_bind]; by apply optimize_cmp.
  - eexists. split; [done|]. split; [apply is_null_denotes|done].
  - eexists. split; [done|]. split; [apply is_not_null_denotes|done].
  - destruct (IH Hp Hx) as (n & En & Hn). cbn. rewrite En. cbn [mbind outcome_bind].
    by apply optimize_not.
  - destruct Hp, Hx. destruct IHe as (l & El & Hl); [done..|]. destruct IHf as (r & Er & Hr); [done..|].
    cbn. rewrite El, Er. cbn [mbind outcome_bind]. by apply optimize_and.
  - destruct Hp, Hx. destruct IHe as (l & El & Hl); [done..|]. destruct IHf as (r & Er & Hr); [done..|].
    cbn. rewrite El, Er. cbn [mbind outcome_bind]. by apply optimize_or.
Qed.

(** What a mask says of row [i]: a kept row satisfies the predicate in SQL, and in
    a row without NULLs the mask is exact. *)
Definition row_kept (envs : Z → Env) (e : BExpr) (i : Z) (m : bool) : Prop :=
  (m = true → sql_bool (envs i) e = Some (Some true)) ∧
  (no_nulls (envs i) e → m = bool_decide (sql_bool (envs i) e = Some (Some true))).

Lemma mask_rows_kept b n e envs rows :
  denotes n e →
  Forall (λ i, holds_row b i (envs i) e ∧ is_Some (sql_bool (envs i) e)) rows →
  ∃ mask, mask_rows b n rows = Ok mask ∧ Forall2 (row_kept envs e) rows mask.
Proof.
  intros Hn. induction rows as [|i rows IH]; intros Hr.
  - exists []. split; [done|constructor].
  - inversion Hr as [|? ? [Hh [v Hv]] Hrest]; subst.
    destruct (IH Hrest) as (mask & E & Hm), (Hn b i (envs i) v Hh Hv) as (nu & x & Ex & Hx & Hf).
    cbn. rewrite Ex. cbn. rewrite E. cbn. eexists. split; [done|]. constructor; [|done].
    unfold row_kept. rewrite Hv. split.
    + destruct nu, x; try done. intros _. by rewrite Hx.
    + intros H. rewrite (Hf H) in *. rewrite (Hx eq_refl). cbn.
      destruct x; [by rewrite bool_decide_eq_true_2|by rewrite bool_decide_eq_false_2].
Qed.

(** The filter compiled from a predicate over [bigint] and [boolean] columns produces a mask
    for every row, without leaving the columns; a row it keeps satisfies the predicate under the
    three-valued logic of SQL, and when no cell the predicate reads is NULL it keeps exactly the
    rows that satisfy it. *)
Theorem jit_filter_sound (b : VectorBatch) (e : BExpr) (envs : Z → Env) :
  plain e →
  Forall (λ i, holds_row b i (envs i) e ∧ is_Some (sql_bool (envs i) e)) (seqZ 0 (count b)) →
  ∃ mask, jit_batch_filter_internal b (build e) = Ok mask ∧
    Forall2 (row_kept envs e) (seqZ 0 (count b)) mask.
Proof. intros Hp Hr. apply mask_rows_kept; [by apply build_denotes|done]. Qed.


(** ** Where the compiled expressions leave SQL *)

Definition one_flag (mask : Z) : VectorBatch :=
  sample_batch 1 [sample_column VECTORIZED_TYPE_BOOL 1 [0; 0] mask].

(** [NULL OR TRUE] is true in SQL; the row is dropped, because a null left operand
    ends the evaluation. *)
Theorem null_or_true_dropped :
  sql_bool {| ints := λ _, None; flags := λ _, None |} (BOr (BCol 0) (BConst true)) = Some (Some true) ∧
  jit_batch_filter_internal (one_flag 1) (build (BOr (BCol 0) (BConst true))) = Ok [false] ∧
  jit_batch_filter_internal (one_flag 1) (build (BOr (BConst true) (BCol 0))) = Ok [true].
Proof. repeat split; vm_compute; reflexivity. Qed.

(** Folding takes a NULL constant for zero: [NULL = 0] becomes true and keeps every
    row, where the unfolded filter keeps none. *)
Theorem null_constant_folds_as_zero :
  let e := jit_expr_eq (jit_expr_const_null VECTORIZED_TYPE_INT64) (jit_expr_const_int64 0) in
  jit_batch_filter_internal (one_flag 0) e = Ok [false] ∧
  jit_optimize_expr e = Ok (Some (jit_expr_const_bool true)).
Proof. split; vm_compute; reflexivity. Qed.

(** Beyond 2^53 the folding finds different integers equal. *)
Theorem folding_confuses_large_constants :
  let e := BCmp VECTORIZED_CMP_EQ (IConst (2 ^ 53 + 1)) (IConst (2 ^ 53)) in
  jit_batch_filter_internal (one_flag 0) (build e) = Ok [false] ∧
  jit_optimize_expr (build e) = Ok (Some (jit_expr_const_bool true)).
Proof. split; vm_compute; reflexivity. Qed.

(** A constant division by zero, null when it is evaluated, is folded to zero. *)
Theorem division_by_zero_folds_to_zero (row : Z) :
  let e := jit_expr_mod (jit_expr_const_int64 1) (jit_expr_const_int64 0) in
  jit_eval_int64_internal (one_flag 0) row e = Ok (true, 0) ∧
  jit_optimize_expr e = Ok (Some (jit_expr_const_int64 0)).
Proof. split; vm_compute; reflexivity. Qed.

(** The remainder of -2^63 by -1 traps, when it is evaluated and when it is folded. *)
Theorem least_integer_modulo_minus_one (row : Z) :
  let e := jit_expr_mod (jit_expr_const_int64 INT64_MIN) (jit_expr_const_int64 (-1)) in
  jit_eval_int64_internal (one_flag 0) row e = Undef ∧ jit_optimize_expr e = Undef.
Proof. split; vm_compute; reflexivity. Qed.

(** A comparison reads a column of four-byte integers as eight-byte ones: the first
    row gets its neighbour's bits, and the second half of the rows lies outside. *)
Theorem int32_column_misread :
  let b := sample_batch 2 [sample_column VECTORIZED_TYPE_INT32 4 [5; 7] 0] in
  let col := jit_expr_column 0 VECTORIZED_TYPE_INT32 in
  jit_eval_bool_internal b 0 (jit_expr_eq col (jit_expr_const_int32 5)) = Ok (false, false) ∧
  jit_eval_int64_internal b 0 col = Ok (false, 5 + 7 * 2 ^ 32) ∧
  jit_batch_filter_internal b (jit_expr_eq col (jit_expr_const_int32 5)) = Undef.
Proof. repeat split; vm_compute; reflexivity. Qed.

(** [BETWEEN] reads a bigint column as doubles: 5 is not between 1 and 10. *)
Theorem between_misreads_integers :
  let b := sample_batch 1 [sample_column VECTORIZED_TYPE_INT64 8 [5] 0] in
  jit_batch_filter_internal b
    (jit_expr_between (jit_expr_column 0 VECTORIZED_TYPE_INT64) (jit_expr_const_int64 1)
       (jit_expr_const_int64 10)) = Ok [false].
Proof. vm_compute. reflexivity. Qed.

(** A comparison of a bigint column with a double reads the column as doubles. *)
Theorem mixed_comparison_misreads_integers :
  let b := sample_batch 1 [sample_column VECTORIZED_TYPE_INT64 8 [5] 0] in
  jit_batch_filter_internal b
    (jit_expr_eq (jit_expr_column 0 VECTORIZED_TYPE_INT64)
       (jit_expr_const_float64 (float_of_Z binary64 5))) = Ok [false].
Proof. vm_compute. reflexivity. Qed.

(** [IS NULL] of an arithmetic expression is true in every row. *)
Theorem arithmetic_is_always_null (b : VectorBatch) (row : Z) (t : JitExprType) (l r : JitExprNode)
    (rt : VectorizedDataType) :
  t ∈ [JIT_EXPR_ARITH_ADD; JIT_EXPR_ARITH_SUB; JIT_EXPR_ARITH_MUL; JIT_EXPR_ARITH_DIV;
       JIT_EXPR_ARITH_MOD] →
  jit_eval_bool_internal b row (jit_expr_is_null (jit_expr_binary t l r rt)) = Ok (false, true).
Proof. intros Ht. repeat (apply elem_of_cons in Ht as [->|Ht]; [done|]). by apply elem_of_nil in Ht. Qed.

(** Every compiled scalar function dereferences a null pointer. *)
Theorem scalar_functions_crash (b : VectorBatch) (row : Z) :
  jit_wrapper_eval_int64 b row = Undef ∧ jit_wrapper_eval_int32 b row = Undef ∧
  jit_wrapper_eval_float64 b row = Undef ∧ jit_wrapper_eval_float32 b row = Undef ∧
  jit_wrapper_eval_bool b row = Undef.
Proof. done. Qed.

(** ** Concrete filters *)

(** A bigint column with a NULL in the third row and a boolean column. *)
Definition mixed_batch : VectorBatch :=
  sample_batch 4 [sample_column VECTORIZED_TYPE_INT64 8 [5; -3; 0; 12] 4;
                  sample_column VECTORIZED_TYPE_BOOL 1 [1; 1; 0; 0] 0].

Definition mixed_envs (i : Z) : Env :=
  {| ints := λ _, mjoin ([Some 5; Some (-3); None; Some 12] !! Z.to_nat i);
     flags := λ _, [true; true; false; false] !! Z.to_nat i |}.

(** [NOT flag OR (x + 2) % 7 = 0 AND 1 < 2]: the second comparison is folded, and then the
    conjunction. *)
Definition mixed_predicate : BExpr :=
  BOr (BNot (BCol 1))
    (BAnd (BCmp VECTORIZED_CMP_EQ (IBin Mod (IBin Add (ICol 0) (IConst 2)) (IConst 7)) (IConst 0))
       (BCmp VECTORIZED_CMP_LT (IConst 1) (IConst 2))).

Ltac solve_cell :=
  split; [lia|]; split; [lia|]; eexists _, _; split; [reflexivity|];
  split; [vm_compute; reflexivity|]; split; [vm_compute; reflexivity|];
  split; [vm_compute; reflexivity|reflexivity].

Lemma mixed_rows :
  Forall (λ i, holds_row mixed_batch i (mixed_envs i) mixed_predicate ∧
               is_Some (sql_bool (mixed_envs i) mixed_predicate)) (seqZ 0 4).
Proof.
  change (seqZ 0 4) with [0; 1; 2; 3].
  repeat (apply Forall_cons; split); [..|apply Forall_nil_2];
    (split; [split; (apply Forall_cons; split; [solve_cell|apply Forall_nil_2])
            |vm_compute; by eexists]).
Qed.

Lemma jit_filter_sound_witness :
  ∃ mask, jit_batch_filter_internal mixed_batch (build mixed_predicate) = Ok mask ∧
    Forall2 (row_kept mixed_envs mixed_predicate) (seqZ 0 4) mask.
Proof.
  apply (jit_filter_sound mixed_batch mixed_predicate mixed_envs).
  - vm_compute. repeat split; discriminate.
  - exact mixed_rows.
Defined.

