(* ===== verification/Jit.v ===== *)
(** * The expression compiler: filters, aggregates and the cache

    Models the rest of [src/jit/jit_compile.c] and the entry points of
    [src/executor/vectorized.c] that choose between compiled and interpreted
    execution.  A compiled filter or aggregate is a record that holds one of the
    template functions; the context keeps the cache of compiled expressions. *)
From Stdlib Require Import Floats.SpecFloat Sorting.Sorted.
From stdpp Require Import sets.
From S2P Require Import Prelude Postgres Float Vector JitExpr.
Local Open Scope Z_scope.

Definition JIT_MAX_EXPR_DEPTH : Z := 64.
Definition JIT_CACHE_SIZE : Z := 256.
Definition JIT_MIN_BATCH_SIZE : Z := 64.
Definition JIT_MAX_ARGS : Z := 16.
Definition VECTORIZED_JIT_MIN_BATCH_SIZE : Z := 64.
Definition VECTORIZED_JIT_MIN_EXPR_COST : Z := 5.

(** ** Filter templates

    A template overwrites the mask: full registers first when it has a vector loop
    and the build has AVX2, then the remaining rows, then the nulls. *)
Section templates.
Context (avx2 : bool).

Abbreviation JitFilterFn := (VectorBatch → Z → Z → outcome (list bool)).

Definition jit_filter {A} (view : VectorColumn → list A) (lanes_per_register : nat)
    (block : option (list A → lanes)) (p : A → bool) (b : VectorBatch) (ci : Z)
    : outcome (list bool) :=
  col ← deref (if ci <? 0 then None else mjoin (columns b !! Z.to_nat ci));
  rows ← load_rows view col (count b);
  match block with
  | Some f =>
      if avx2 then simd_mask lanes_per_register (λ v, Ok (lane_mask (f v))) p rows
      else Ok (clear_nulls rows.*1 (map p rows.*2))
  | None => Ok (clear_nulls rows.*1 (map p rows.*2))
  end.

Definition jit_filter_int64_eq : JitFilterFn := λ b ci v, let value := i64 v in
  jit_filter int64s 4 (Some (λ r, mm_cmpeq r (mm_set1 4 value))) (λ x, x =? value) b ci.
Definition jit_filter_int64_ne : JitFilterFn := λ b ci v, let value := i64 v in
  jit_filter int64s 4 None (λ x, negb (x =? value)) b ci.
Definition jit_filter_int64_lt : JitFilterFn := λ b ci v, let value := i64 v in
  jit_filter int64s 4 (Some (λ r, mm_cmpgt (mm_set1 4 value) r)) (λ x, x <? value) b ci.
Definition jit_filter_int64_le : JitFilterFn := λ b ci v, let value := i64 v in
  jit_filter int64s 4 None (λ x, x <=? value) b ci.
Definition jit_filter_int64_gt : JitFilterFn := λ b ci v, let value := i64 v in
  jit_filter int64s 4 (Some (λ r, mm_cmpgt r (mm_set1 4 value))) (λ x, value <? x) b ci.
Definition jit_filter_int64_ge : JitFilterFn := λ b ci v, let value := i64 v in
  jit_filter int64s 4 None (λ x, value <=? x) b ci.

Definition jit_filter_float64_eq : JitFilterFn := λ b ci v, let value := double_of_bits (u64 v) in
  jit_filter float64s 4 (Some (λ r, mm_cmp_pd feq r (replicate 4 value))) (λ x, feq x value) b ci.
Definition jit_filter_float64_ne : JitFilterFn := λ b ci v, let value := double_of_bits (u64 v) in
  jit_filter float64s 4 None (λ x, fne x value) b ci.
Definition jit_filter_float64_lt : JitFilterFn := λ b ci v, let value := double_of_bits (u64 v) in
  jit_filter float64s 4 (Some (λ r, mm_cmp_pd flt r (replicate 4 value))) (λ x, flt x value) b ci.
Definition jit_filter_float64_le : JitFilterFn := λ b ci v, let value := double_of_bits (u64 v) in
  jit_filter float64s 4 None (λ x, fle x value) b ci.
Definition jit_filter_float64_gt : JitFilterFn := λ b ci v, let value := double_of_bits (u64 v) in
  jit_filter float64s 4 (Some (λ r, mm_cmp_pd (λ x y, flt y x) r (replicate 4 value)))
    (λ x, flt value x) b ci.
Definition jit_filter_float64_ge : JitFilterFn := λ b ci v, let value := double_of_bits (u64 v) in
  jit_filter float64s 4 None (λ x, fle value x) b ci.

Definition jit_filter_int32_eq : JitFilterFn := λ b ci v, let value := i32 v in
  jit_filter int32s 8 (Some (λ r, mm_cmpeq r (mm_set1 8 value))) (λ x, x =? value) b ci.
Definition jit_filter_int32_ne : JitFilterFn := λ b ci v, let value := i32 v in
  jit_filter int32s 8 None (λ x, negb (x =? value)) b ci.
Definition jit_filter_int32_lt : JitFilterFn := λ b ci v, let value := i32 v in
  jit_filter int32s 8 (Some (λ r, mm_cmpgt (mm_set1 8 value) r)) (λ x, x <? value) b ci.
Definition jit_filter_int32_le : JitFilterFn := λ b ci v, let value := i32 v in
  jit_filter int32s 8 None (λ x, x <=? value) b ci.
Definition jit_filter_int32_gt : JitFilterFn := λ b ci v, let value := i32 v in
  jit_filter int32s 8 (Some (λ r, mm_cmpgt r (mm_set1 8 value))) (λ x, value <? x) b ci.
Definition jit_filter_int32_ge : JitFilterFn := λ b ci v, let value := i32 v in
  jit_filter int32s 8 None (λ x, value <=? x) b ci.

Definition jit_filter_float32_eq : JitFilterFn := λ b ci v, let value := single_of_bits (u32 v) in
  jit_filter float32s 8 (Some (λ r, mm_cmp_pd feq r (replicate 8 value))) (λ x, feq x value) b ci.
Definition jit_filter_float32_ne : JitFilterFn := λ b ci v, let value := single_of_bits (u32 v) in
  jit_filter float32s 8 None (λ x, fne x value) b ci.
Definition jit_filter_float32_lt : JitFilterFn := λ b ci v, let value := single_of_bits (u32 v) in
  jit_filter float32s 8 (Some (λ r, mm_cmp_pd flt r (replicate 8 value))) (λ x, flt x value) b ci.
Definition jit_filter_float32_le : JitFilterFn := λ b ci v, let value := single_of_bits (u32 v) in
  jit_filter float32s 8 None (λ x, fle x value) b ci.
Definition jit_filter_float32_gt : JitFilterFn := λ b ci v, let value := single_of_bits (u32 v) in
  jit_filter float32s 8 (Some (λ r, mm_cmp_pd (λ x y, flt y x) r (replicate 8 value)))
    (λ x, flt value x) b ci.
Definition jit_filter_float32_ge : JitFilterFn := λ b ci v, let value := single_of_bits (u32 v) in
  jit_filter float32s 8 None (λ x, fle value x) b ci.

(** ** Contexts and compiled expressions *)

Inductive ScalarFn :=
| NoScalarFn | EvalInt64 | EvalInt32 | EvalFloat64 | EvalFloat32 | EvalBool.

Abbreviation JitFilterExprFn := (VectorBatch → JitExprNode → outcome (list bool)).

Record JitCompiledExpr := {
  expr_tree : JitExprNode; c_result_type : VectorizedDataType; scalar_fn : ScalarFn;
  batch_filter_fn : option JitFilterExprFn; expr_hash : Z }.

Record JitContext := {
  expr_cache : list JitCompiledExpr; cpu_has_avx2 : bool; expressions_compiled : Z;
  cache_hits : Z; cache_misses : Z; compile_failed : bool }.

Definition jit_context_create : JitContext :=
  {| expr_cache := []; cpu_has_avx2 := avx2; expressions_compiled := 0; cache_hits := 0;
     cache_misses := 0; compile_failed := false |}.

Definition jit_context_reset (ctx : JitContext) : JitContext :=
  {| expr_cache := []; cpu_has_avx2 := cpu_has_avx2 ctx; expressions_compiled := 0;
     cache_hits := 0; cache_misses := 0; compile_failed := false |}.

Definition jit_reset_stats (ctx : JitContext) : JitContext :=
  {| expr_cache := expr_cache ctx; cpu_has_avx2 := cpu_has_avx2 ctx; expressions_compiled := 0;
     cache_hits := 0; cache_misses := 0; compile_failed := compile_failed ctx |}.

(** The numbers of the enumerations. *)
Definition expr_type_number (t : JitExprType) : Z :=
  match t with
  | JIT_EXPR_CONST => 0 | JIT_EXPR_COLUMN => 1 | JIT_EXPR_ARITH_ADD => 2
  | JIT_EXPR_ARITH_SUB => 3 | JIT_EXPR_ARITH_MUL => 4 | JIT_EXPR_ARITH_DIV => 5
  | JIT_EXPR_ARITH_MOD => 6 | JIT_EXPR_ARITH_NEG => 7 | JIT_EXPR_CMP_EQ => 8
  | JIT_EXPR_CMP_NE => 9 | JIT_EXPR_CMP_LT => 10 | JIT_EXPR_CMP_LE => 11
  | JIT_EXPR_CMP_GT => 12 | JIT_EXPR_CMP_GE => 13 | JIT_EXPR_BOOL_AND => 14
  | JIT_EXPR_BOOL_OR => 15 | JIT_EXPR_BOOL_NOT => 16 | JIT_EXPR_IS_NULL => 17
  | JIT_EXPR_IS_NOT_NULL => 18 | JIT_EXPR_BETWEEN => 19 | JIT_EXPR_IN => 20
  | JIT_EXPR_CASE => 21 | JIT_EXPR_COALESCE => 22 | JIT_EXPR_CAST => 23
  end.
Definition data_type_number (t : VectorizedDataType) : Z :=
  match t with
  | VECTORIZED_TYPE_INT32 => 0 | VECTORIZED_TYPE_INT64 => 1 | VECTORIZED_TYPE_FLOAT32 => 2
  | VECTORIZED_TYPE_FLOAT64 => 3 | VECTORIZED_TYPE_BOOL => 4 | VECTORIZED_TYPE_STRING => 5
  | VECTORIZED_TYPE_TIMESTAMP => 6 | VECTORIZED_TYPE_DATE => 7 | VECTORIZED_TYPE_UNKNOWN => 8
  end.

(** The children of BETWEEN are not hashed. *)
Fixpoint jit_compute_expr_hash (e : JitExprNode) : Z :=
  let h := u32 (expr_type_number (type e) * 31 + data_type_number (result_type e)) in
  let h := match type e with
           | JIT_EXPR_CONST =>
               let h := u32 (h * 31 + u32 (const_value e)) in
               let h := u32 (h * 31 + u32 (Z.shiftr (u64 (const_value e)) 32)) in
               u32 (h * 31 + (if const_is_null e then 1 else 0))
           | JIT_EXPR_COLUMN => u32 (h * 31 + u32 (column_index e))
           | _ => h
           end in
  let h := match left e with Some l => u32 (h * 31 + jit_compute_expr_hash l) | None => h end in
  match right e with Some r => u32 (h * 31 + jit_compute_expr_hash r) | None => h end.

Fixpoint jit_can_compile_expression (e : JitExprNode) : bool :=
  if JIT_MAX_EXPR_DEPTH <? depth e then false else
  match type e with
  | JIT_EXPR_IN | JIT_EXPR_CASE | JIT_EXPR_COALESCE => false
  | _ =>
      match left e with Some l => jit_can_compile_expression l | None => true end &&
      match right e with Some r => jit_can_compile_expression r | None => true end
  end.

Definition jit_estimate_expression_cost (e : option JitExprNode) : Z :=
  match e with Some e => cost e | None => 0 end.

Definition scalar_for (t : VectorizedDataType) : ScalarFn :=
  match t with
  | VECTORIZED_TYPE_INT64 | VECTORIZED_TYPE_TIMESTAMP => EvalInt64
  | VECTORIZED_TYPE_INT32 | VECTORIZED_TYPE_DATE => EvalInt32
  | VECTORIZED_TYPE_FLOAT64 => EvalFloat64
  | VECTORIZED_TYPE_FLOAT32 => EvalFloat32
  | VECTORIZED_TYPE_BOOL => EvalBool
  | _ => NoScalarFn
  end.

Definition jit_generate_batch_filter (e : JitExprNode) : option JitFilterExprFn :=
  if decide (result_type e = VECTORIZED_TYPE_BOOL) then Some jit_batch_filter_internal else None.

Context (orochi_jit_enabled orochi_jit_cache_enabled : bool).

Definition compile_new (e : JitExprNode) : JitCompiledExpr :=
  {| expr_tree := e; c_result_type := result_type e; scalar_fn := scalar_for (result_type e);
     batch_filter_fn := jit_generate_batch_filter e; expr_hash := jit_compute_expr_hash e |}.

Definition find_cached (ctx : JitContext) (h : Z) : option JitCompiledExpr :=
  snd <$> list_find (λ c, expr_hash c = h) (expr_cache ctx).

Definition jit_compile_expression (ctx : JitContext) (e : JitExprNode)
    : JitContext * option JitCompiledExpr :=
  if negb (jit_can_compile_expression e) then
    ({| expr_cache := expr_cache ctx; cpu_has_avx2 := cpu_has_avx2 ctx;
        expressions_compiled := expressions_compiled ctx; cache_hits := cache_hits ctx;
        cache_misses := cache_misses ctx; compile_failed := true |}, None)
  else
    match (if orochi_jit_cache_enabled then find_cached ctx (jit_compute_expr_hash e) else None) with
    | Some c =>
        ({| expr_cache := expr_cache ctx; cpu_has_avx2 := cpu_has_avx2 ctx;
            expressions_compiled := expressions_compiled ctx; cache_hits := cache_hits ctx + 1;
            cache_misses := cache_misses ctx; compile_failed := compile_failed ctx |}, Some c)
    | None =>
        let c := compile_new e in
        let room := orochi_jit_cache_enabled && (len (expr_cache ctx) <? JIT_CACHE_SIZE) in
        ({| expr_cache := if room then expr_cache ctx ++ [c] else expr_cache ctx;
            cpu_has_avx2 := cpu_has_avx2 ctx;
            expressions_compiled := expressions_compiled ctx + 1; cache_hits := cache_hits ctx;
            cache_misses := cache_misses ctx + (if orochi_jit_cache_enabled then 1 else 0);
            compile_failed := compile_failed ctx |}, Some c)
    end.

(** ** Compiled filters *)

(** The estimated selectivity, which is always one half, is left out. *)
Record JitCompiledFilter := {
  predicate : JitExprNode; column_indices : list Z; filter_fn : option JitFilterFn;
  complex_filter_fn : option JitFilterExprFn; has_simd_path : bool; rows_checked : Z;
  rows_passed : Z }.

Definition select_filter_fn (op : VectorizedCompareOp) (t : VectorizedDataType) : option JitFilterFn :=
  match t with
  | VECTORIZED_TYPE_INT64 | VECTORIZED_TYPE_TIMESTAMP =>
      match op with
      | VECTORIZED_CMP_EQ => Some jit_filter_int64_eq | VECTORIZED_CMP_NE => Some jit_filter_int64_ne
      | VECTORIZED_CMP_LT => Some jit_filter_int64_lt | VECTORIZED_CMP_LE => Some jit_filter_int64_le
      | VECTORIZED_CMP_GT => Some jit_filter_int64_gt | VECTORIZED_CMP_GE => Some jit_filter_int64_ge
      | _ => None
      end
  | VECTORIZED_TYPE_FLOAT64 =>
      match op with
      | VECTORIZED_CMP_EQ => Some jit_filter_float64_eq | VECTORIZED_CMP_NE => Some jit_filter_float64_ne
      | VECTORIZED_CMP_LT => Some jit_filter_float64_lt | VECTORIZED_CMP_LE => Some jit_filter_float64_le
      | VECTORIZED_CMP_GT => Some jit_filter_float64_gt | VECTORIZED_CMP_GE => Some jit_filter_float64_ge
      | _ => None
      end
  | VECTORIZED_TYPE_INT32 | VECTORIZED_TYPE_DATE =>
      match op with
      | VECTORIZED_CMP_EQ => Some jit_filter_int32_eq | VECTORIZED_CMP_NE => Some jit_filter_int32_ne
      | VECTORIZED_CMP_LT => Some jit_filter_int32_lt | VECTORIZED_CMP_LE => Some jit_filter_int32_le
      | VECTORIZED_CMP_GT => Some jit_filter_int32_gt | VECTORIZED_CMP_GE => Some jit_filter_int32_ge
      | _ => None
      end
  | VECTORIZED_TYPE_FLOAT32 =>
      match op with
      | VECTORIZED_CMP_EQ => Some jit_filter_float32_eq | VECTORIZED_CMP_NE => Some jit_filter_float32_ne
      | VECTORIZED_CMP_LT => Some jit_filter_float32_lt | VECTORIZED_CMP_LE => Some jit_filter_float32_le
      | VECTORIZED_CMP_GT => Some jit_filter_float32_gt | VECTORIZED_CMP_GE => Some jit_filter_float32_ge
      | _ => None
      end
  | _ => None
  end.

(** The constant of the comparison is not stored anywhere. *)
Definition jit_compile_simple_filter (ctx : JitContext) (ci : Z) (op : VectorizedCompareOp)
    (const_value : Z) (t : VectorizedDataType) : JitCompiledFilter :=
  {| predicate := jit_expr_column ci t; column_indices := [ci]; filter_fn := select_filter_fn op t;
     complex_filter_fn := None; has_simd_path := cpu_has_avx2 ctx; rows_checked := 0;
     rows_passed := 0 |}.

Definition jit_compile_filter (ctx : JitContext) (e : JitExprNode)
    : JitContext * option JitCompiledFilter :=
  if decide (result_type e = VECTORIZED_TYPE_BOOL) then
    let '(ctx, compiled) := jit_compile_expression ctx e in
    (ctx, (λ c, {| predicate := e; column_indices := jit_extract_column_refs JIT_MAX_ARGS e [];
                   filter_fn := None; complex_filter_fn := batch_filter_fn c;
                   has_simd_path := cpu_has_avx2 ctx; rows_checked := 0; rows_passed := 0 |})
          <$> compiled)
  else (ctx, None).

Definition filter_mask_of (f : JitCompiledFilter) (b : VectorBatch) : outcome (list bool) :=
  match filter_fn f with
  | Some fn => ci ← deref (column_indices f !! 0%nat); fn b ci (const_value (predicate f))
  | None =>
      match complex_filter_fn f with
      | Some fn => fn b (predicate f)
      | None => Ok (replicate (Z.to_nat (count b)) true)
      end
  end.

Definition jit_execute_filter (f : JitCompiledFilter) (b : VectorBatch)
    : outcome (JitCompiledFilter * VectorBatch) :=
  if count b =? 0 then Ok (f, b) else
  if capacity b <? count b then Undef else
  mask ← filter_mask_of f b;
  sel ← compact mask (if has_selection b then selection b else seqZ 0 (count b));
  let b := with_selection b sel true (rows_filtered b) in
  Ok ({| predicate := predicate f; column_indices := column_indices f; filter_fn := filter_fn f;
         complex_filter_fn := complex_filter_fn f; has_simd_path := has_simd_path f;
         rows_checked := rows_checked f + count b;
         rows_passed := rows_passed f + selected_count b |}, b).

(** ** Compiled aggregates *)

Abbreviation JitAggUpdateFn := (VectorizedAggState → VectorBatch → outcome VectorizedAggState).

Definition jit_agg_count_update : JitAggUpdateFn := λ s b,
  if a_column_index s <? 0 then Ok (with_count s (i64 (a_count s + vectorized_count b)))
  else n ← vectorized_count_column b (a_column_index s); Ok (with_count s (i64 (a_count s + n))).

Definition jit_agg_sum_int64_update : JitAggUpdateFn := λ s b,
  v ← vectorized_sum_int64 avx2 b (a_column_index s);
  Ok (with_sum s (add64 (sum_int64 s) v) (sum_float64 s)).
Definition jit_agg_sum_int32_update : JitAggUpdateFn := λ s b,
  v ← vectorized_sum_int32 avx2 b (a_column_index s);
  Ok (with_sum s (add64 (sum_int64 s) v) (sum_float64 s)).
Definition jit_agg_sum_float64_update : JitAggUpdateFn := λ s b,
  v ← vectorized_sum_float64 avx2 b (a_column_index s);
  Ok (with_sum s (sum_int64 s) (dadd (sum_float64 s) v)).
Definition jit_agg_sum_float32_update : JitAggUpdateFn := λ s b,
  v ← vectorized_sum_float32 avx2 b (a_column_index s);
  Ok (with_sum s (sum_int64 s) (dadd (sum_float64 s) v)).

Definition jit_agg_min_int64_update : JitAggUpdateFn := λ s b,
  '(v, found) ← vectorized_min_int64 b (a_column_index s);
  Ok (if found && (negb (has_value s) || (v <? min_int64 s))
      then with_int_bounds s v (max_int64 s) else s).
Definition jit_agg_max_int64_update : JitAggUpdateFn := λ s b,
  '(v, found) ← vectorized_max_int64 b (a_column_index s);
  Ok (if found && (negb (has_value s) || (max_int64 s <? v))
      then with_int_bounds s (min_int64 s) v else s).
Definition jit_agg_min_float64_update : JitAggUpdateFn := λ s b,
  '(v, found) ← vectorized_min_float64 b (a_column_index s);
  Ok (if found && (negb (has_value s) || flt v (min_float64 s))
      then with_float_bounds s v (max_float64 s) else s).
Definition jit_agg_max_float64_update : JitAggUpdateFn := λ s b,
  '(v, found) ← vectorized_max_float64 b (a_column_index s);
  Ok (if found && (negb (has_value s) || flt (max_float64 s) v)
      then with_float_bounds s (min_float64 s) v else s).

Definition jit_agg_avg_update : JitAggUpdateFn := λ s b,
  let ci := a_column_index s in
  n ← vectorized_count_column b ci;
  let s := with_count s (i64 (a_count s + n)) in
  v ← match a_data_type s with
      | VECTORIZED_TYPE_INT64 | VECTORIZED_TYPE_TIMESTAMP =>
          v ← vectorized_sum_int64 avx2 b ci; Ok (Some (float_of_Z binary64 v))
      | VECTORIZED_TYPE_INT32 | VECTORIZED_TYPE_DATE =>
          v ← vectorized_sum_int32 avx2 b ci; Ok (Some (float_of_Z binary64 v))
      | VECTORIZED_TYPE_FLOAT64 => v ← vectorized_sum_float64 avx2 b ci; Ok (Some v)
      | VECTORIZED_TYPE_FLOAT32 => v ← vectorized_sum_float32 avx2 b ci; Ok (Some v)
      | _ => Ok None
      end;
  Ok (with_sum s (sum_int64 s) (match v with Some v => dadd (sum_float64 s) v | None => sum_float64 s end)).

Record JitCompiledAgg := {
  j_agg_type : VectorizedAggType; j_column_index : Z; input_type : VectorizedDataType;
  j_result_type : VectorizedDataType; update_fn : option JitAggUpdateFn;
  filter_of : option JitCompiledFilter; batches_processed : Z; total_rows : Z }.

Definition select_agg (a : VectorizedAggType) (t : VectorizedDataType)
    : VectorizedDataType * option JitAggUpdateFn :=
  match a with
  | VECTORIZED_AGG_COUNT => (VECTORIZED_TYPE_INT64, Some jit_agg_count_update)
  | VECTORIZED_AGG_SUM =>
      match t with
      | VECTORIZED_TYPE_INT64 | VECTORIZED_TYPE_TIMESTAMP =>
          (VECTORIZED_TYPE_INT64, Some jit_agg_sum_int64_update)
      | VECTORIZED_TYPE_INT32 | VECTORIZED_TYPE_DATE =>
          (VECTORIZED_TYPE_INT64, Some jit_agg_sum_int32_update)
      | VECTORIZED_TYPE_FLOAT64 => (VECTORIZED_TYPE_FLOAT64, Some jit_agg_sum_float64_update)
      | VECTORIZED_TYPE_FLOAT32 => (VECTORIZED_TYPE_FLOAT64, Some jit_agg_sum_float32_update)
      | _ => (VECTORIZED_TYPE_FLOAT64, None)
      end
  | VECTORIZED_AGG_AVG => (VECTORIZED_TYPE_FLOAT64, Some jit_agg_avg_update)
  | VECTORIZED_AGG_MIN =>
      match t with
      | VECTORIZED_TYPE_INT64 | VECTORIZED_TYPE_TIMESTAMP =>
          (VECTORIZED_TYPE_INT64, Some jit_agg_min_int64_update)
      | VECTORIZED_TYPE_FLOAT64 => (VECTORIZED_TYPE_FLOAT64, Some jit_agg_min_float64_update)
      | _ => (t, None)
      end
  | VECTORIZED_AGG_MAX =>
      match t with
      | VECTORIZED_TYPE_INT64 | VECTORIZED_TYPE_TIMESTAMP =>
          (VECTORIZED_TYPE_INT64, Some jit_agg_max_int64_update)
      | VECTORIZED_TYPE_FLOAT64 => (VECTORIZED_TYPE_FLOAT64, Some jit_agg_max_float64_update)
      | _ => (t, None)
      end
  end.

Definition jit_compile_agg (a : VectorizedAggType) (ci : Z) (t : VectorizedDataType)
    : JitCompiledAgg :=
  {| j_agg_type := a; j_column_index := ci; input_type := t; j_result_type := (select_agg a t).1;
     update_fn := (select_agg a t).2; filter_of := None; batches_processed := 0; total_rows := 0 |}.

Definition with_filter (a : JitCompiledAgg) (f : option JitCompiledFilter) (batches rows : Z)
    : JitCompiledAgg :=
  {| j_agg_type := j_agg_type a; j_column_index := j_column_index a; input_type := input_type a;
     j_result_type := j_result_type a; update_fn := update_fn a; filter_of := f;
     batches_processed := batches; total_rows := rows |}.

(** An aggregate whose filter does not compile aggregates every row. *)
Definition jit_compile_filtered_agg (ctx : JitContext) (a : VectorizedAggType) (ci : Z)
    (t : VectorizedDataType) (e : option JitExprNode) : JitContext * JitCompiledAgg :=
  let agg := jit_compile_agg a ci t in
  match e with
  | None => (ctx, agg)
  | Some e =>
      let '(ctx, f) := jit_compile_filter ctx e in (ctx, with_filter agg f 0 0)
  end.

Definition jit_execute_agg_update (a : JitCompiledAgg) (s : VectorizedAggState) (b : VectorBatch)
    : outcome (JitCompiledAgg * VectorizedAggState * VectorBatch) :=
  '(f, b) ← match filter_of a with
            | Some f => '(f, b) ← jit_execute_filter f b; Ok (Some f, b)
            | None => Ok (None, b)
            end;
  s ← match update_fn a with Some fn => fn s b | None => Ok s end;
  Ok (with_filter a f (batches_processed a + 1) (total_rows a + vectorized_count b), s, b).

(** ** The choice between compiled and interpreted execution *)

(** Without a compiled filter no row is filtered. *)
Definition jit_vectorized_filter (b : VectorBatch) (f : option JitCompiledFilter)
    : outcome VectorBatch :=
  match f with
  | Some f => if orochi_jit_enabled then r ← jit_execute_filter f b; Ok r.2 else Ok b
  | None => Ok b
  end.

Definition jit_vectorized_aggregate (s : VectorizedAggState) (b : VectorBatch)
    (a : option JitCompiledAgg) : outcome (VectorizedAggState * VectorBatch) :=
  match a with
  | Some a =>
      if orochi_jit_enabled then r ← jit_execute_agg_update a s b; Ok (r.1.2, r.2)
      else s ← vectorized_agg_update avx2 s b; Ok (s, b)
  | None => s ← vectorized_agg_update avx2 s b; Ok (s, b)
  end.

Definition jit_should_use_jit (min_cost : Z) (b : VectorBatch) (expr_cost : Z) : bool :=
  orochi_jit_enabled && negb (count b <? JIT_MIN_BATCH_SIZE) && negb (expr_cost <? min_cost).

Definition vectorized_should_use_jit (b : VectorBatch) (expr_cost : Z) : bool :=
  orochi_jit_enabled && negb (count b <? VECTORIZED_JIT_MIN_BATCH_SIZE) &&
  negb (expr_cost <? VECTORIZED_JIT_MIN_EXPR_COST).

Definition vectorized_filter_with_jit (b : VectorBatch) (f : option VectorizedFilterState)
    (jf : option JitCompiledFilter) : outcome VectorBatch :=
  match jf with
  | Some _ =>
      if orochi_jit_enabled && (VECTORIZED_JIT_MIN_BATCH_SIZE <=? count b)
      then jit_vectorized_filter b jf
      else match f with Some f => vectorized_filter_generic avx2 b f | None => Ok b end
  | None => match f with Some f => vectorized_filter_generic avx2 b f | None => Ok b end
  end.

Definition vectorized_aggregate_with_jit (s : VectorizedAggState) (b : VectorBatch)
    (ja : option JitCompiledAgg) : outcome (VectorizedAggState * VectorBatch) :=
  match ja with
  | Some _ =>
      if orochi_jit_enabled && (VECTORIZED_JIT_MIN_BATCH_SIZE <=? count b)
      then jit_vectorized_aggregate s b ja
      else s ← vectorized_agg_update avx2 s b; Ok (s, b)
  | None => s ← vectorized_agg_update avx2 s b; Ok (s, b)
  end.

Definition vectorized_compile_filter_jit (ctx : JitContext) (f : VectorizedFilterState)
    : option JitCompiledFilter :=
  if orochi_jit_enabled
  then Some (jit_compile_simple_filter ctx (f_column_index f) (f_compare_op f) (f_const_value f)
               (f_data_type f))
  else None.

Definition vectorized_compile_agg_jit (s : VectorizedAggState) : option JitCompiledAgg :=
  if orochi_jit_enabled
  then Some (jit_compile_agg (agg_type s) (a_column_index s) (a_data_type s)) else None.
End templates.

(** ** Templates *)

Lemma get_column_deref b ci col :
  get_column b ci = Ok col → deref (if ci <? 0 then None else mjoin (columns b !! Z.to_nat ci)) = Ok col.
Proof.
  intros H%get_column_lookup. unfold lookup_column in H. apply deref_ok.
  destruct (ci <? 0); cbn in H; [done|]. by destruct (column_count b <=? ci).
Qed.

Lemma jit_filter_mask {A} avx2 (view : VectorColumn → list A) n block p b ci col rows :
  get_column b ci = Ok col → load_rows view col (count b) = Ok rows →
  match block with
  | Some f => ∀ v, length v = n → lane_mask (f v) = map p v
  | None => True
  end →
  jit_filter avx2 view n block p b ci = Ok (scalar_mask p rows).
Proof.
  intros Hc Hr Hb. unfold jit_filter. rewrite (get_column_deref _ _ _ Hc). cbn. rewrite Hr. cbn.
  destruct block as [f|]; [|by rewrite clear_nulls_scalar].
  destruct avx2; [|by rewrite clear_nulls_scalar].
  rewrite (simd_mask_scalar (λ _, True)); [done| |by apply Forall_true].
  intros v Hv _. f_equal. by apply Hb.
Qed.

Ltac template Hc Hr :=
  apply (jit_filter_mask _ _ _ _ _ _ _ _ _ Hc Hr);
  first [exact I|intros v Hv; lanes; by destruct_if].

(** The template picked for a column type and a comparison computes the mask of
    that comparison, nulls cleared, in both builds and for every constant, NaN
    included. *)
Theorem templates_exact (avx2 : bool) (b : VectorBatch) (f : VectorizedFilterState)
    (fn : VectorBatch → Z → Z → outcome (list bool)) (mask : list bool) :
  select_filter_fn avx2 (f_compare_op f) (f_data_type f) = Some fn →
  filter_mask b f = Ok mask →
  fn b (f_column_index f) (f_const_value f) = Ok mask.
Proof.
  intros Hf Hm. unfold filter_mask in Hm. apply outcome_bind_ok in Hm as (col & Hc & Hm).
  destruct (f_data_type f); try done;
    apply outcome_bind_ok in Hm as (rows & Hr & [= <-]); cbn in Hf;
    destruct (f_compare_op f); try done; injection Hf as <-; template Hc Hr.
Qed.

(** ** Executing a filter *)

Lemma filter_mask_length b f mask : batch_ok b → filter_mask b f = Ok mask → len mask = count b.
Proof.
  intros [Hn _] Hm. unfold filter_mask in Hm. apply outcome_bind_ok in Hm as (col & Hc & Hm).
  destruct (f_data_type f); try done; apply outcome_bind_ok in Hm as (rows & Hr & [= <-]);
    rewrite scalar_mask_length; by destruct (load_rows_length _ _ _ _ (proj1 Hn) Hr).
Qed.

Lemma no_rows b : batch_ok b → count b = 0 → rows_selected b = [].
Proof.
  intros Hok Hz. destruct (rows_selected_ok b Hok) as [_ Hb].
  destruct (rows_selected b) as [|i l]; [done|]. apply Forall_cons in Hb as [? _]. lia.
Qed.

Lemma execute_selects f b mask :
  batch_ok b → filter_mask_of f b = Ok mask → len mask = count b →
  ∃ f' b', jit_execute_filter f b = Ok (f', b') ∧ batch_ok b' ∧ same_rows b b' ∧
    rows_selected b' = filter (λ i, mask !! Z.to_nat i = Some true) (rows_selected b).
Proof.
  intros Hok Hm Hl. unfold jit_execute_filter.
  destruct (Z.eqb_spec (count b) 0) as [Hz|Hz].
  - exists f, b. rewrite (no_rows b Hok Hz). done.
  - destruct (Z.ltb_spec (capacity b) (count b)); [destruct Hok; lia|].
    rewrite Hm. cbn. fold (rows_selected b).
    destruct (rows_selected_ok b Hok) as [Hsort Hb].
    rewrite compact_filter by (rewrite Hl; done). cbn.
    eexists _, _. split; [done|]. split; [|split; [done|done]].
    destruct Hok as [Hc _]. split; [done|]. intros _. cbn. split; [by apply sorted_filter|].
    by apply Forall_filter_intro.
Qed.

(** A comparison compiled for a batch of 64 rows or more compares with zero,
    whatever constant it was compiled for; the same filter on a smaller batch, which
    is interpreted, compares with its constant. *)
Theorem jit_filter_ignores_constant (avx2 : bool) (ctx : JitContext) (b : VectorBatch)
    (f : VectorizedFilterState) (mask : list bool) :
  let zero := {| f_column_index := f_column_index f; f_compare_op := f_compare_op f;
                 f_data_type := f_data_type f; f_const_value := 0 |} in
  let run := vectorized_filter_with_jit avx2 true b (Some f)
               (vectorized_compile_filter_jit avx2 true ctx f) in
  batch_ok b → is_comparison (f_compare_op f) = true → filter_mask b zero = Ok mask →
  (64 ≤ count b → ∃ b', run = Ok b' ∧
     rows_selected b' = filter (λ i, mask !! Z.to_nat i = Some true) (rows_selected b)) ∧
  (count b < 64 → run = vectorized_filter_generic avx2 b f).
Proof.
  intros zero run Hok Hop Hm. unfold run, vectorized_filter_with_jit, vectorized_compile_filter_jit.
  unfold VECTORIZED_JIT_MIN_BATCH_SIZE. cbn [andb].
  split; intros Hc; [rewrite (proj2 (Z.leb_le 64 (count b))) by lia
                    |by rewrite (proj2 (Z.leb_gt 64 (count b))) by lia].
  cbn [jit_vectorized_filter].
  assert (is_Some (select_filter_fn avx2 (f_compare_op f) (f_data_type f))) as [fn Hfn].
  { unfold filter_mask in Hm. apply outcome_bind_ok in Hm as (col & _ & Hm). cbn in Hm.
    destruct (f_data_type f); try done; destruct (f_compare_op f); try done; by eexists. }
  destruct (execute_selects (jit_compile_simple_filter avx2 ctx (f_column_index f) (f_compare_op f)
    (f_const_value f) (f_data_type f)) b mask) as (f' & b' & -> & _ & _ & Hsel); [done| |by eapply filter_mask_length|].
  - unfold filter_mask_of. cbn. rewrite Hfn. cbn. by apply (templates_exact avx2 b zero).
  - cbn. by exists b'.
Qed.

(** A filter on IS NULL or IS NOT NULL, or on a type without templates, keeps every
    row when it is compiled. *)
Theorem uncompiled_filter_keeps_all (avx2 : bool) (ctx : JitContext) (b : VectorBatch)
    (f : VectorizedFilterState) :
  batch_ok b → select_filter_fn avx2 (f_compare_op f) (f_data_type f) = None → 64 ≤ count b →
  ∃ b', vectorized_filter_with_jit avx2 true b (Some f) (vectorized_compile_filter_jit avx2 true ctx f) =
    Ok b' ∧ rows_selected b' = rows_selected b.
Proof.
  intros Hok Hn Hc. unfold vectorized_filter_with_jit, vectorized_compile_filter_jit,
    VECTORIZED_JIT_MIN_BATCH_SIZE. rewrite (proj2 (Z.leb_le 64 (count b))) by done.
  cbn [andb jit_vectorized_filter].
  destruct (execute_selects (jit_compile_simple_filter avx2 ctx (f_column_index f) (f_compare_op f)
    (f_const_value f) (f_data_type f)) b (replicate (Z.to_nat (count b)) true))
    as (f' & b' & -> & _ & _ & Hsel); [done| | |].
  - unfold filter_mask_of. cbn. by rewrite Hn.
  - rewrite length_replicate. lia.
  - cbn. exists b'. split; [done|]. rewrite Hsel. apply filter_all. intros i Hi.
    destruct (rows_selected_ok b Hok) as [_ Hb]. rewrite Forall_forall in Hb.
    specialize (Hb i Hi). cbn in Hb. apply lookup_replicate_2. lia.
Qed.

(** ** The cache *)

(** What the context guarantees: the cache holds at most 256 expressions, each as it
    was compiled, and no two with the same hash. *)
Definition cache_ok (ctx : JitContext) : Prop :=
  len (expr_cache ctx) ≤ JIT_CACHE_SIZE ∧
  Forall (λ c, c = compile_new (expr_tree c)) (expr_cache ctx) ∧
  NoDup (map expr_hash (expr_cache ctx)).

Lemma find_cached_none ctx h : find_cached ctx h = None → h ∉ map expr_hash (expr_cache ctx).
Proof.
  unfold find_cached. destruct (list_find _ _) eqn:E; [done|]. intros _ Hin.
  apply list_elem_of_fmap in Hin as (c & -> & Hc).
  rewrite list_find_None, Forall_forall in E. by apply (E c Hc).
Qed.

Lemma find_cached_some ctx h c :
  find_cached ctx h = Some c → c ∈ expr_cache ctx ∧ expr_hash c = h.
Proof.
  unfold find_cached. destruct (list_find _ _) as [[i c']|] eqn:E; [|done]. intros; simplify_eq/=.
  apply list_find_Some in E as (Hi & Hh & _). split; [by eapply list_elem_of_lookup_2|done].
Qed.

(** Compiling an expression keeps the cache well-formed, and hands out either
    the expression itself, compiled, or a cached one with the same hash. *)
Theorem compile_keeps_cache (ctx : JitContext) (e : JitExprNode) (cached : bool) :
  cache_ok ctx →
  let '(ctx', r) := jit_compile_expression cached ctx e in
  cache_ok ctx' ∧
  match r with
  | None => jit_can_compile_expression e = false
  | Some c => expr_hash c = jit_compute_expr_hash e ∧
              (c = compile_new e ∨ cached = true ∧ c ∈ expr_cache ctx)
  end.
Proof.
  intros (Hl & Hc & Hd). unfold jit_compile_expression.
  destruct (jit_can_compile_expression e) eqn:Hcan; cbn [negb]; [|done].
  destruct (if cached then find_cached ctx (jit_compute_expr_hash e) else None) as [c|] eqn:Ef.
  - destruct cached; [|done]. apply find_cached_some in Ef as [Hin Hh]. split; [done|]. auto.
  - split; [|by split; [|left]].
    destruct cached; cbn [andb]; [|done].
    destruct (Z.ltb_spec (len (expr_cache ctx)) JIT_CACHE_SIZE); [|done].
    split_and!; cbn.
    + rewrite length_app. cbn. lia.
    + apply Forall_app. split; [done|]. by apply Forall_singleton.
    + rewrite map_app. apply NoDup_app. split; [done|]. split; [|by apply NoDup_singleton].
      intros h Hh ->%list_elem_of_singleton. by apply (find_cached_none _ _ Ef).
Qed.

(** ** A compiled filter selects what the predicate says *)

(** No cached expression of another type has the hash of [e]. *)
Definition no_collision (ctx : JitContext) (e : JitExprNode) : Prop :=
  ∀ c, c ∈ expr_cache ctx → expr_hash c = jit_compute_expr_hash e →
    result_type (expr_tree c) = VECTORIZED_TYPE_BOOL.

Lemma build_is_bool e : result_type (build e) = VECTORIZED_TYPE_BOOL.
Proof. destruct e as [x|c|[] a b|c|c|e|e f|e f]; done. Qed.

Lemma compile_filter_ok ctx e cached :
  cache_ok ctx → no_collision ctx e → result_type e = VECTORIZED_TYPE_BOOL →
  jit_can_compile_expression e = true →
  ∃ ctx' f, jit_compile_filter cached ctx e = (ctx', Some f) ∧
    ∀ b, filter_mask_of f b = jit_batch_filter_internal b e.
Proof.
  intros (_ & Hc & _) Hn Ht Hcan. unfold jit_compile_filter. rewrite decide_True by done.
  unfold jit_compile_expression. rewrite Hcan. cbn [negb].
  destruct (if cached then find_cached ctx (jit_compute_expr_hash e) else None) as [c|] eqn:Ef.
  - destruct cached; [|done]. apply find_cached_some in Ef as [Hin Hh].
    eexists _, _. split; [done|]. intros b. unfold filter_mask_of. cbn.
    rewrite Forall_forall in Hc. rewrite (Hc c Hin). cbn. unfold jit_generate_batch_filter.
    by rewrite decide_True by by apply Hn.
  - eexists _, _. split; [done|]. intros b. unfold filter_mask_of. cbn.
    unfold jit_generate_batch_filter. by rewrite decide_True.
Qed.


(** ** Compiled aggregates *)

Definition has_templates (t : VectorizedDataType) : Prop :=
  t ∉ [VECTORIZED_TYPE_BOOL; VECTORIZED_TYPE_STRING; VECTORIZED_TYPE_UNKNOWN].

Lemma agg_fn_agrees avx2 s b :
  has_templates (a_data_type s) →
  match (select_agg avx2 (agg_type s) (a_data_type s)).2 with
  | Some fn => fn s b
  | None => Ok s
  end = vectorized_agg_update avx2 s b.
Proof.
  intros Ht. unfold has_templates in Ht. unfold vectorized_agg_update, add_sum, add_average.
  destruct (agg_type s); cbn; [done| | | |].
  - destruct (a_data_type s) eqn:Et; try done; set_solver.
  - unfold jit_agg_avg_update. destruct (vectorized_count_column _ _); cbn; try done.
    destruct (a_data_type s); cbn; try set_solver;
      repeat match goal with
      | |- context [vectorized_sum_int64 ?x ?y ?z] => destruct (vectorized_sum_int64 x y z); cbn; try done
      | |- context [vectorized_sum_int32 ?x ?y ?z] => destruct (vectorized_sum_int32 x y z); cbn; try done
      | |- context [vectorized_sum_float64 ?x ?y ?z] => destruct (vectorized_sum_float64 x y z); cbn; try done
      | |- context [vectorized_sum_float32 ?x ?y ?z] => destruct (vectorized_sum_float32 x y z); cbn; try done
      end.
  - destruct (a_data_type s); cbn; try done.
    + unfold jit_agg_min_int64_update. by destruct (vectorized_min_int64 _ _) as [[]| | |].
    + unfold jit_agg_min_float64_update. by destruct (vectorized_min_float64 _ _) as [[]| | |].
    + unfold jit_agg_min_int64_update. by destruct (vectorized_min_int64 _ _) as [[]| | |].
  - destruct (a_data_type s); cbn; try done.
    + unfold jit_agg_max_int64_update. by destruct (vectorized_max_int64 _ _) as [[]| | |].
    + unfold jit_agg_max_float64_update. by destruct (vectorized_max_float64 _ _) as [[]| | |].
    + unfold jit_agg_max_int64_update. by destruct (vectorized_max_int64 _ _) as [[]| | |].
Qed.

(** On the types an aggregate is compiled for, updating a compiled aggregate is
    filtering the batch and updating the interpreted aggregate, error for error. *)
Theorem jit_aggregates_agree (avx2 : bool) (s : VectorizedAggState) (b : VectorBatch)
    (flt : option JitCompiledFilter) :
  has_templates (a_data_type s) →
  let a := with_filter (jit_compile_agg avx2 (agg_type s) (a_column_index s) (a_data_type s)) flt 0 0 in
  (λ r, (r.1.2, r.2)) <$> jit_execute_agg_update a s b =
  (b' ← match flt with Some f => snd <$> jit_execute_filter f b | None => Ok b end;
   s' ← vectorized_agg_update avx2 s b'; Ok (s', b')).
Proof.
  intros Ht a. unfold jit_execute_agg_update.
  destruct flt as [f|]; cbn [a with_filter filter_of].
  - destruct (jit_execute_filter f b) as [[f' b']| | |]; cbn; try done.
    rewrite <- agg_fn_agrees by done. cbn. by destruct (select_agg avx2 _ _).2 as [fn|]; [destruct (fn s b')|].
  - cbn. rewrite <- agg_fn_agrees by done.
    by destruct (select_agg avx2 _ _).2 as [fn|]; [destruct (fn s b)|].
Qed.

(** ** Collisions in the cache

    The double column 31 and the boolean column 0 have the same hash. *)
Theorem cache_collision_keeps_all_rows :
  let '(ctx, _) := jit_compile_expression true (jit_context_create true)
                     (jit_expr_column 31 VECTORIZED_TYPE_FLOAT64) in
  let '(_, f) := jit_compile_filter true ctx (build (BCol 0)) in
  let '(_, f0) := jit_compile_filter true (jit_context_create true) (build (BCol 0)) in
  let run f := match f with
               | Some f => (λ r, rows_selected r.2) <$> jit_execute_filter f (one_flag 0)
               | None => Undef
               end in
  run f = Ok [0] ∧ run f0 = Ok [].
Proof. vm_compute. split; reflexivity. Qed.

(** BETWEEN predicates all have one hash per column type, but the predicate itself is
    what the filter evaluates. *)
Example between_hashes_agree :
  jit_compute_expr_hash (jit_expr_between (jit_expr_column 0 VECTORIZED_TYPE_FLOAT64)
    (jit_expr_const_int64 1) (jit_expr_const_int64 2)) =
  jit_compute_expr_hash (jit_expr_between (jit_expr_column 5 VECTORIZED_TYPE_FLOAT64)
    (jit_expr_const_int64 7) (jit_expr_const_int64 9)).
Proof. vm_compute. reflexivity. Qed.

(** ** Concrete runs *)

Definition column_filter (op : VectorizedCompareOp) (value : Z) : VectorizedFilterState :=
  {| f_column_index := 0; f_compare_op := op; f_data_type := VECTORIZED_TYPE_INT64;
     f_const_value := value |}.

(** 64 rows with the values 0 to 63. *)
Definition counting_batch : VectorBatch :=
  {| capacity := 64; count := 64; column_count := 1;
     columns := [Some (sample_column VECTORIZED_TYPE_INT64 8 (seqZ 0 64) 0)]; selection := [];
     has_selection := false; rows_processed := 0; rows_filtered := 0 |}.

Lemma templates_exact_witness :
  jit_filter_int64_gt true wide_batch 0 5 = Ok [false; false; false; true; false; true].
Proof.
  apply (templates_exact true wide_batch (column_filter VECTORIZED_CMP_GT 5)).
  - reflexivity.
  - vm_compute. reflexivity.
Defined.

Lemma jit_filter_ignores_constant_witness :
  let f := column_filter VECTORIZED_CMP_LT 50 in
  filter_mask counting_batch (column_filter VECTORIZED_CMP_LT 0) = Ok (replicate 64 false) ∧
  ∃ b', vectorized_filter_with_jit true true counting_batch (Some f)
          (vectorized_compile_filter_jit true true (jit_context_create true) f) = Ok b' ∧
    rows_selected b' = filter (λ i, replicate 64 false !! Z.to_nat i = Some true)
                         (rows_selected counting_batch).
Proof.
  intros f. split; [vm_compute; reflexivity|].
  apply (jit_filter_ignores_constant true (jit_context_create true) counting_batch f
    (replicate 64 false)).
  - by split.
  - reflexivity.
  - vm_compute. reflexivity.
  - done.
Defined.

Lemma compile_keeps_cache_witness :
  let '(ctx', r) := jit_compile_expression true (jit_context_create true) (build mixed_predicate) in
  cache_ok ctx' ∧
  match r with
  | None => jit_can_compile_expression (build mixed_predicate) = false
  | Some c => expr_hash c = jit_compute_expr_hash (build mixed_predicate) ∧
              (c = compile_new (build mixed_predicate) ∨
               true = true ∧ c ∈ expr_cache (jit_context_create true))
  end.
Proof.
  apply (compile_keeps_cache (jit_context_create true) (build mixed_predicate) true).
  split; [done|]. split; constructor.
Defined.


Lemma jit_aggregates_agree_witness :
  let s := agg_start VECTORIZED_AGG_SUM 0 VECTORIZED_TYPE_INT64 in
  let a := with_filter (jit_compile_agg true VECTORIZED_AGG_SUM 0 VECTORIZED_TYPE_INT64) None 0 0 in
  (λ r, (r.1.2, r.2)) <$> jit_execute_agg_update a s wide_batch =
  (s' ← vectorized_agg_update true s wide_batch; Ok (s', wide_batch)).
Proof.
  intros s a. apply (jit_aggregates_agree true s wide_batch None).
  unfold has_templates. cbn. set_solver.
Defined.
