(* ===== verification/Workload.v ===== *)
(** * Workload management: pools, classes, admission and sessions

    Models [src/workload/workload.c] and the structures of [src/workload/workload.h].
    [WorkloadSharedState] is the shared memory, arrays as lists; the counters of
    [allocate_pool_id] and [allocate_class_id] belong to each process.  A function
    takes the shared state and, where it asks for the time, [now]; the clock does
    not advance within a call.  A null [WorkloadState] counts as one that is not
    initialised.  Locks, log messages and warnings are not modelled, and the fields
    [lock], [created_at], [query_id], [queue_head] and [queue_tail] are left out,
    which nothing reads. *)
From stdpp Require Import sets sorting.
From S2P Require Import Prelude.

Local Open Scope Z_scope.

(** ** Data *)

Definition WORKLOAD_MAX_POOLS : nat := 32.
Definition WORKLOAD_MAX_CLASSES : nat := 64.
Definition WORKLOAD_MAX_SESSIONS : Z := 1024.
Definition WORKLOAD_QUEUE_SIZE : nat := 1024.
Definition WORKLOAD_MAX_POOL_NAME : nat := 64.
Definition WORKLOAD_MAX_CLASS_NAME : nat := 64.
Definition WORKLOAD_DEFAULT_POOL_NAME : string := "default".
Definition WORKLOAD_ADMIN_POOL_NAME : string := "admin".
Definition WORKLOAD_SESSION_IDLE_TIMEOUT : Z := 30 * 60 * 1000000.

Inductive QueryPriority :=
| QUERY_PRIORITY_LOW | QUERY_PRIORITY_NORMAL | QUERY_PRIORITY_HIGH | QUERY_PRIORITY_CRITICAL.

#[export] Instance query_priority_eq_dec : EqDecision QueryPriority.
Proof. solve_decision. Defined.

Definition priority_value (p : QueryPriority) : Z :=
  match p with
  | QUERY_PRIORITY_LOW => 0
  | QUERY_PRIORITY_NORMAL => 1
  | QUERY_PRIORITY_HIGH => 2
  | QUERY_PRIORITY_CRITICAL => 3
  end.

Inductive ResourcePoolState := POOL_STATE_ACTIVE | POOL_STATE_DRAINING | POOL_STATE_DISABLED.

#[export] Instance pool_state_eq_dec : EqDecision ResourcePoolState.
Proof. solve_decision. Defined.

Inductive WorkloadClassState := CLASS_STATE_ACTIVE | CLASS_STATE_DISABLED.

Record ResourceLimits := {
  cpu_percent : Z; memory_mb : Z; io_read_mbps : Z; io_write_mbps : Z;
  max_concurrency : Z; max_queue_size : Z; query_timeout_ms : Z; idle_timeout_ms : Z }.

Record ResourceUsage := {
  cpu_time_us : Z; memory_bytes : Z; peak_memory_bytes : Z; io_read_bytes : Z;
  io_write_bytes : Z; queries_executed : Z; queries_queued : Z; queries_rejected : Z;
  last_updated : Z }.

Record ResourcePool := {
  pool_id : Z; pool_name : string; limits : ResourceLimits; usage : ResourceUsage;
  pool_state : ResourcePoolState; active_queries : Z; queued_queries : Z;
  priority_weight : Z; is_internal : bool }.

Record WorkloadClass := {
  class_id : Z; class_name : string; class_pool : Z; default_priority : QueryPriority;
  class_limits : ResourceLimits; class_state : WorkloadClassState;
  class_executed : Z; class_rejected : Z }.

Record QueryEntry := {
  entry_pid : Z; entry_pool : Z; entry_class : Z; priority : QueryPriority;
  enqueue_time : Z; start_time : Z; estimated_cost : Z; memory_requested : Z;
  entry_active : bool }.

Record SessionResourceTracker := {
  session_pid : Z; session_pool : Z; session_class : Z; session_usage : ResourceUsage;
  session_queries : Z; session_start : Z; last_activity : Z; session_active : bool }.

Record WorkloadSharedState := {
  num_pools : Z; num_classes : Z; num_sessions : Z;
  total_active_queries : Z; total_queued_queries : Z;
  pools : list ResourcePool; classes : list WorkloadClass; queue : list QueryEntry;
  sessions : list SessionResourceTracker; is_initialized : bool }.

(** What [memset] to zero leaves. *)
Definition limits_zero : ResourceLimits :=
  {| cpu_percent := 0; memory_mb := 0; io_read_mbps := 0; io_write_mbps := 0;
     max_concurrency := 0; max_queue_size := 0; query_timeout_ms := 0; idle_timeout_ms := 0 |}.
Definition usage_zero : ResourceUsage :=
  {| cpu_time_us := 0; memory_bytes := 0; peak_memory_bytes := 0; io_read_bytes := 0;
     io_write_bytes := 0; queries_executed := 0; queries_queued := 0; queries_rejected := 0;
     last_updated := 0 |}.
Definition pool_zero : ResourcePool :=
  {| pool_id := 0; pool_name := ""; limits := limits_zero; usage := usage_zero;
     pool_state := POOL_STATE_ACTIVE; active_queries := 0; queued_queries := 0;
     priority_weight := 0; is_internal := false |}.
Definition class_zero : WorkloadClass :=
  {| class_id := 0; class_name := ""; class_pool := 0; default_priority := QUERY_PRIORITY_LOW;
     class_limits := limits_zero; class_state := CLASS_STATE_ACTIVE; class_executed := 0;
     class_rejected := 0 |}.
Definition entry_zero : QueryEntry :=
  {| entry_pid := 0; entry_pool := 0; entry_class := 0; priority := QUERY_PRIORITY_LOW;
     enqueue_time := 0; start_time := 0; estimated_cost := 0; memory_requested := 0;
     entry_active := false |}.
Definition session_zero : SessionResourceTracker :=
  {| session_pid := 0; session_pool := 0; session_class := 0; session_usage := usage_zero;
     session_queries := 0; session_start := 0; last_activity := 0; session_active := false |}.

(** ** Updates of single fields *)

Definition with_pools (st : WorkloadSharedState) (n : Z) (l : list ResourcePool) :=
  {| num_pools := n; num_classes := num_classes st; num_sessions := num_sessions st;
     total_active_queries := total_active_queries st;
     total_queued_queries := total_queued_queries st; pools := l; classes := classes st;
     queue := queue st; sessions := sessions st; is_initialized := is_initialized st |}.
Definition with_classes (st : WorkloadSharedState) (n : Z) (l : list WorkloadClass) :=
  {| num_pools := num_pools st; num_classes := n; num_sessions := num_sessions st;
     total_active_queries := total_active_queries st;
     total_queued_queries := total_queued_queries st; pools := pools st; classes := l;
     queue := queue st; sessions := sessions st; is_initialized := is_initialized st |}.
Definition with_queue (st : WorkloadSharedState) (total : Z) (l : list QueryEntry) :=
  {| num_pools := num_pools st; num_classes := num_classes st;
     num_sessions := num_sessions st; total_active_queries := total_active_queries st;
     total_queued_queries := total; pools := pools st; classes := classes st;
     queue := l; sessions := sessions st; is_initialized := is_initialized st |}.
Definition with_sessions (st : WorkloadSharedState) (n : Z) (l : list SessionResourceTracker) :=
  {| num_pools := num_pools st; num_classes := num_classes st; num_sessions := n;
     total_active_queries := total_active_queries st;
     total_queued_queries := total_queued_queries st; pools := pools st;
     classes := classes st; queue := queue st; sessions := l;
     is_initialized := is_initialized st |}.
Definition with_total_active (st : WorkloadSharedState) (total : Z) :=
  {| num_pools := num_pools st; num_classes := num_classes st;
     num_sessions := num_sessions st; total_active_queries := total;
     total_queued_queries := total_queued_queries st; pools := pools st;
     classes := classes st; queue := queue st; sessions := sessions st;
     is_initialized := is_initialized st |}.

Definition set_limits (l : ResourceLimits) (w : Z) (p : ResourcePool) : ResourcePool :=
  {| pool_id := pool_id p; pool_name := pool_name p; limits := l; usage := usage p;
     pool_state := pool_state p; active_queries := active_queries p;
     queued_queries := queued_queries p; priority_weight := w; is_internal := is_internal p |}.
Definition set_pool_state (s : ResourcePoolState) (p : ResourcePool) : ResourcePool :=
  {| pool_id := pool_id p; pool_name := pool_name p; limits := limits p; usage := usage p;
     pool_state := s; active_queries := active_queries p; queued_queries := queued_queries p;
     priority_weight := priority_weight p; is_internal := is_internal p |}.
Definition set_internal (p : ResourcePool) : ResourcePool :=
  {| pool_id := pool_id p; pool_name := pool_name p; limits := limits p; usage := usage p;
     pool_state := pool_state p; active_queries := active_queries p;
     queued_queries := queued_queries p; priority_weight := priority_weight p;
     is_internal := true |}.
Definition set_counts (active queued : Z) (p : ResourcePool) : ResourcePool :=
  {| pool_id := pool_id p; pool_name := pool_name p; limits := limits p; usage := usage p;
     pool_state := pool_state p; active_queries := i32 active; queued_queries := i32 queued;
     priority_weight := priority_weight p; is_internal := is_internal p |}.
Definition set_usage (u : ResourceUsage) (p : ResourcePool) : ResourcePool :=
  {| pool_id := pool_id p; pool_name := pool_name p; limits := limits p; usage := u;
     pool_state := pool_state p; active_queries := active_queries p;
     queued_queries := queued_queries p; priority_weight := priority_weight p;
     is_internal := is_internal p |}.

(** The updates of [ResourceUsage]. *)
Definition usage_admitted (mem : Z) (u : ResourceUsage) : ResourceUsage :=
  {| cpu_time_us := cpu_time_us u; memory_bytes := i64 (memory_bytes u + mem);
     peak_memory_bytes := peak_memory_bytes u; io_read_bytes := io_read_bytes u;
     io_write_bytes := io_write_bytes u; queries_executed := i64 (queries_executed u + 1);
     queries_queued := queries_queued u; queries_rejected := queries_rejected u;
     last_updated := last_updated u |}.
Definition usage_waited (queued rejected : Z) (u : ResourceUsage) : ResourceUsage :=
  {| cpu_time_us := cpu_time_us u; memory_bytes := memory_bytes u;
     peak_memory_bytes := peak_memory_bytes u; io_read_bytes := io_read_bytes u;
     io_write_bytes := io_write_bytes u; queries_executed := queries_executed u;
     queries_queued := i64 (queries_queued u + queued);
     queries_rejected := i64 (queries_rejected u + rejected); last_updated := last_updated u |}.
Definition usage_worked (cpu read write now : Z) (u : ResourceUsage) : ResourceUsage :=
  {| cpu_time_us := i64 (cpu_time_us u + cpu); memory_bytes := memory_bytes u;
     peak_memory_bytes := peak_memory_bytes u; io_read_bytes := i64 (io_read_bytes u + read);
     io_write_bytes := i64 (io_write_bytes u + write); queries_executed := queries_executed u;
     queries_queued := queries_queued u; queries_rejected := queries_rejected u;
     last_updated := now |}.
Definition usage_memory (mem now : Z) (u : ResourceUsage) : ResourceUsage :=
  {| cpu_time_us := cpu_time_us u; memory_bytes := mem;
     peak_memory_bytes := Z.max (peak_memory_bytes u) mem; io_read_bytes := io_read_bytes u;
     io_write_bytes := io_write_bytes u; queries_executed := queries_executed u;
     queries_queued := queries_queued u; queries_rejected := queries_rejected u;
     last_updated := now |}.

Definition update_pool_usage (delta : ResourceUsage) (now : Z) (p : ResourcePool) : ResourcePool :=
  let u := usage p in
  let mem := i64 (memory_bytes u + memory_bytes delta) in
  set_usage
    {| cpu_time_us := i64 (cpu_time_us u + cpu_time_us delta); memory_bytes := mem;
       peak_memory_bytes := Z.max (peak_memory_bytes u) mem;
       io_read_bytes := i64 (io_read_bytes u + io_read_bytes delta);
       io_write_bytes := i64 (io_write_bytes u + io_write_bytes delta);
       queries_executed := i64 (queries_executed u + queries_executed delta);
       queries_queued := i64 (queries_queued u + queries_queued delta);
       queries_rejected := i64 (queries_rejected u + queries_rejected delta);
       last_updated := now |} p.

(** ** Limits and names *)

Definition orochi_create_default_limits (default_timeout : Z) : ResourceLimits :=
  {| cpu_percent := 100; memory_mb := 0; io_read_mbps := 0; io_write_mbps := 0;
     max_concurrency := 0; max_queue_size := 0; query_timeout_ms := default_timeout;
     idle_timeout_ms := 0 |}.

Definition orochi_validate_limits (l : option ResourceLimits) : bool :=
  match l with
  | None => true
  | Some l =>
      negb ((cpu_percent l <? 0) || (100 <? cpu_percent l) || (memory_mb l <? 0)
            || (max_concurrency l <? 0) || (query_timeout_ms l <? 0))
  end.

Definition orochi_priority_name (p : QueryPriority) : string :=
  match p with
  | QUERY_PRIORITY_LOW => "low"
  | QUERY_PRIORITY_NORMAL => "normal"
  | QUERY_PRIORITY_HIGH => "high"
  | QUERY_PRIORITY_CRITICAL => "critical"
  end.

Definition orochi_pool_state_name (s : ResourcePoolState) : string :=
  match s with
  | POOL_STATE_ACTIVE => "active"
  | POOL_STATE_DRAINING => "draining"
  | POOL_STATE_DISABLED => "disabled"
  end.

Section names.
Context (pg_strcasecmp : string → string → Z).

Definition orochi_parse_priority (name : string) : QueryPriority :=
  if pg_strcasecmp name "low" =? 0 then QUERY_PRIORITY_LOW
  else if pg_strcasecmp name "normal" =? 0 then QUERY_PRIORITY_NORMAL
  else if pg_strcasecmp name "high" =? 0 then QUERY_PRIORITY_HIGH
  else if pg_strcasecmp name "critical" =? 0 then QUERY_PRIORITY_CRITICAL
  else QUERY_PRIORITY_NORMAL.

Definition orochi_parse_pool_state (name : string) : ResourcePoolState :=
  if pg_strcasecmp name "active" =? 0 then POOL_STATE_ACTIVE
  else if pg_strcasecmp name "draining" =? 0 then POOL_STATE_DRAINING
  else if pg_strcasecmp name "disabled" =? 0 then POOL_STATE_DISABLED
  else POOL_STATE_ACTIVE.
End names.

(** [strlcpy] into an array of [n] characters. *)
Definition strlcpy (n : nat) (s : string) : string := String.substring 0 (n - 1) s.

(** ** Resource pools *)

Section workload.
Context (orochi_workload_enabled : bool).
Context (orochi_default_pool_concurrency orochi_default_query_timeout_ms : Z).

(** The first pool of an identifier: the loop that most functions begin with.
    An unused slot has identifier 0. *)
Definition find_pool (st : WorkloadSharedState) (id : Z) : option (nat * ResourcePool) :=
  list_find (λ p, pool_id p = id) (pools st).

Definition update_pool (st : WorkloadSharedState) (i : nat) (f : ResourcePool → ResourcePool)
    : WorkloadSharedState :=
  with_pools st (num_pools st) (alter f i (pools st)).

Definition update_first_pool (st : WorkloadSharedState) (id : Z)
    (f : ResourcePool → ResourcePool) : WorkloadSharedState :=
  match find_pool st id with Some (i, _) => update_pool st i f | None => st end.

Definition find_free_pool_slot (st : WorkloadSharedState) : option nat := fst <$> find_pool st 0.

(** The new state, the next identifier of the process, and the identifier given.
    Only the first [num_pools] slots are searched for the name. *)
Definition orochi_create_resource_pool (st : WorkloadSharedState) (next_pool_id : Z)
    (name : string) (l : option ResourceLimits) (weight : Z)
    : outcome (WorkloadSharedState * Z * Z) :=
  if bool_decide (name = ""%string) then Err "pool name cannot be empty"
  else if bool_decide (WORKLOAD_MAX_POOL_NAME ≤ String.length name)%nat
  then Err "pool name too long"
  else if existsb (λ p, negb (pool_id p =? 0) && bool_decide (pool_name p = name))
            (take (Z.to_nat (num_pools st)) (pools st))
  then Err "resource pool already exists"
  else match find_free_pool_slot st with
  | None => Err "maximum number of resource pools reached"
  | Some i =>
      let pool :=
        {| pool_id := next_pool_id; pool_name := strlcpy WORKLOAD_MAX_POOL_NAME name;
           limits := default (orochi_create_default_limits orochi_default_query_timeout_ms) l;
           usage := usage_zero; pool_state := POOL_STATE_ACTIVE; active_queries := 0;
           queued_queries := 0; priority_weight := if 0 <? weight then weight else 50;
           is_internal := false |} in
      Ok (with_pools st (i32 (num_pools st + 1)) (<[i := pool]> (pools st)),
          i64 (next_pool_id + 1), next_pool_id)
  end.

Definition orochi_alter_resource_pool (st : WorkloadSharedState) (id : Z)
    (new_limits : option ResourceLimits) (weight : Z) : outcome WorkloadSharedState :=
  match find_pool st id with
  | None => Err "resource pool does not exist"
  | Some (i, pool) =>
      if negb (orochi_validate_limits new_limits) then Err "invalid resource limits"
      else Ok (update_pool st i
                 (set_limits (default (limits pool) new_limits)
                    (if 0 <? weight then weight else priority_weight pool)))
  end.

Definition orochi_drop_resource_pool (st : WorkloadSharedState) (id : Z) (if_exists : bool)
    : outcome (WorkloadSharedState * bool) :=
  match find_pool st id with
  | None => if if_exists then Ok (st, false) else Err "resource pool does not exist"
  | Some (i, pool) =>
      if is_internal pool then Err "cannot drop internal resource pool"
      else if 0 <? active_queries pool then Err "resource pool has active queries"
      else Ok (with_pools st (i32 (num_pools st - 1)) (<[i := pool_zero]> (pools st)), true)
  end.

Definition orochi_get_resource_pool (st : WorkloadSharedState) (id : Z) : option ResourcePool :=
  snd <$> find_pool st id.

Definition orochi_get_resource_pool_by_name (st : WorkloadSharedState) (name : string)
    : option ResourcePool :=
  snd <$> list_find (λ p, pool_id p ≠ 0 ∧ pool_name p = name) (pools st).

Definition orochi_list_resource_pools (st : WorkloadSharedState) : list ResourcePool :=
  filter (λ p, pool_id p ≠ 0) (pools st).

Definition orochi_get_pool_usage (st : WorkloadSharedState) (id : Z) : option ResourceUsage :=
  usage <$> orochi_get_resource_pool st id.

Definition orochi_enable_resource_pool (st : WorkloadSharedState) (id : Z)
    : WorkloadSharedState * bool :=
  (update_first_pool st id (set_pool_state POOL_STATE_ACTIVE), bool_decide (is_Some (find_pool st id))).

Definition orochi_disable_resource_pool (st : WorkloadSharedState) (id : Z)
    : outcome (WorkloadSharedState * bool) :=
  match find_pool st id with
  | None => Ok (st, false)
  | Some (i, pool) =>
      if is_internal pool then Err "cannot disable internal pool"
      else Ok (update_pool st i (set_pool_state POOL_STATE_DRAINING), true)
  end.

(** ** Start-up *)

Definition default_limits : ResourceLimits :=
  {| cpu_percent := 100; memory_mb := 0; io_read_mbps := 0; io_write_mbps := 0;
     max_concurrency := orochi_default_pool_concurrency; max_queue_size := 0;
     query_timeout_ms := orochi_default_query_timeout_ms; idle_timeout_ms := 0 |}.
Definition admin_limits : ResourceLimits :=
  {| cpu_percent := 100; memory_mb := 0; io_read_mbps := 0; io_write_mbps := 0;
     max_concurrency := 0; max_queue_size := 0; query_timeout_ms := 0; idle_timeout_ms := 0 |}.

Definition mark_internal (p : ResourcePool) : ResourcePool :=
  if bool_decide (pool_name p = WORKLOAD_DEFAULT_POOL_NAME ∨ pool_name p = WORKLOAD_ADMIN_POOL_NAME)
  then set_internal p else p.

Definition init_default_pools (st : WorkloadSharedState) (next_pool_id : Z)
    : outcome (WorkloadSharedState * Z) :=
  '(st, next_pool_id, _) ← orochi_create_resource_pool st next_pool_id WORKLOAD_DEFAULT_POOL_NAME
                             (Some default_limits) 50;
  '(st, next_pool_id, _) ← orochi_create_resource_pool st next_pool_id WORKLOAD_ADMIN_POOL_NAME
                             (Some admin_limits) 100;
  let n := Z.to_nat (num_pools st) in
  Ok (with_pools st (num_pools st) (map mark_internal (take n (pools st)) ++ drop n (pools st)),
      next_pool_id).

(** What the postmaster leaves, and the next pool identifier its children inherit. *)
Definition orochi_workload_shmem_startup : outcome (WorkloadSharedState * Z) :=
  init_default_pools
    {| num_pools := 0; num_classes := 0; num_sessions := 0; total_active_queries := 0;
       total_queued_queries := 0; pools := replicate WORKLOAD_MAX_POOLS pool_zero;
       classes := replicate WORKLOAD_MAX_CLASSES class_zero;
       queue := replicate WORKLOAD_QUEUE_SIZE entry_zero;
       sessions := replicate (Z.to_nat WORKLOAD_MAX_SESSIONS) session_zero;
       is_initialized := true |} 1.

(** ** Workload classes *)

Definition find_class (st : WorkloadSharedState) (id : Z) : option (nat * WorkloadClass) :=
  list_find (λ c, class_id c = id) (classes st).

Definition find_free_class_slot (st : WorkloadSharedState) : option nat := fst <$> find_class st 0.

(** The length of the name is not checked: a long name is cut when it is stored. *)
Definition orochi_create_workload_class (st : WorkloadSharedState) (next_class_id : Z)
    (name : string) (pool : Z) (p : QueryPriority) (l : option ResourceLimits)
    : outcome (WorkloadSharedState * Z * Z) :=
  if bool_decide (name = ""%string) then Err "class name cannot be empty"
  else if bool_decide (find_pool st pool = None) then Err "resource pool does not exist"
  else if existsb (λ c, negb (class_id c =? 0) && bool_decide (class_name c = name)) (classes st)
  then Err "workload class already exists"
  else match find_free_class_slot st with
  | None => Err "maximum number of workload classes reached"
  | Some i =>
      let wclass :=
        {| class_id := next_class_id; class_name := strlcpy WORKLOAD_MAX_CLASS_NAME name;
           class_pool := pool; default_priority := p; class_limits := default limits_zero l;
           class_state := CLASS_STATE_ACTIVE; class_executed := 0; class_rejected := 0 |} in
      Ok (with_classes st (i32 (num_classes st + 1)) (<[i := wclass]> (classes st)),
          i64 (next_class_id + 1), next_class_id)
  end.

Definition set_class (pool : Z) (p : QueryPriority) (l : option ResourceLimits)
    (c : WorkloadClass) : WorkloadClass :=
  {| class_id := class_id c; class_name := class_name c;
     class_pool := if 0 <? pool then pool else class_pool c; default_priority := p;
     class_limits := default (class_limits c) l; class_state := class_state c;
     class_executed := class_executed c; class_rejected := class_rejected c |}.

Definition orochi_alter_workload_class (st : WorkloadSharedState) (id pool : Z)
    (p : QueryPriority) (l : option ResourceLimits) : outcome WorkloadSharedState :=
  match find_class st id with
  | None => Err "workload class does not exist"
  | Some (i, _) =>
      if (0 <? pool) && bool_decide (find_pool st pool = None)
      then Err "resource pool does not exist"
      else Ok (with_classes st (num_classes st) (alter (set_class pool p l) i (classes st)))
  end.

Definition orochi_drop_workload_class (st : WorkloadSharedState) (id : Z) (if_exists : bool)
    : outcome (WorkloadSharedState * bool) :=
  match find_class st id with
  | None => if if_exists then Ok (st, false) else Err "workload class does not exist"
  | Some (i, _) =>
      Ok (with_classes st (i32 (num_classes st - 1)) (<[i := class_zero]> (classes st)), true)
  end.

Definition orochi_get_workload_class (st : WorkloadSharedState) (id : Z) : option WorkloadClass :=
  snd <$> find_class st id.

Definition orochi_get_workload_class_by_name (st : WorkloadSharedState) (name : string)
    : option WorkloadClass :=
  snd <$> list_find (λ c, class_id c ≠ 0 ∧ class_name c = name) (classes st).

Definition orochi_list_workload_classes (st : WorkloadSharedState) : list WorkloadClass :=
  filter (λ c, class_id c ≠ 0) (classes st).

(** ** Admission and the queue *)

Definition check_pool_resources (pool : ResourcePool) (mem : Z) : bool :=
  let l := limits pool in
  if (0 <? max_concurrency l) && (max_concurrency l <=? active_queries pool) then false
  else if 0 <? memory_mb l
  then mem <=? i64 (i64 (memory_mb l * 1024 * 1024) - memory_bytes (usage pool))
  else true.

Definition admitted_pool (mem : Z) (p : ResourcePool) : ResourcePool :=
  set_usage (usage_admitted mem (usage p)) (set_counts (active_queries p + 1) (queued_queries p) p).

Definition orochi_admit_query (st : WorkloadSharedState) (id mem : Z) : WorkloadSharedState * bool :=
  if negb orochi_workload_enabled then (st, true) else
  match find_pool st id with
  | None => (st, true)
  | Some (i, pool) =>
      if negb (bool_decide (pool_state pool = POOL_STATE_ACTIVE)) then (st, false)
      else if check_pool_resources pool mem
      then (with_total_active (update_pool st i (admitted_pool mem)) (i32 (total_active_queries st + 1)), true)
      else (update_pool st i (λ p, set_usage (usage_waited 1 0 (usage p)) p), false)
  end.

Definition find_queue_slot (st : WorkloadSharedState) : option nat :=
  fst <$> list_find (λ e, entry_pid e = 0) (queue st).

Definition fill_entry (pid pool : Z) (p : QueryPriority) (cost now : Z) (e : QueryEntry) : QueryEntry :=
  {| entry_pid := pid; entry_pool := pool; entry_class := entry_class e; priority := p;
     enqueue_time := now; start_time := 0; estimated_cost := cost;
     memory_requested := memory_requested e; entry_active := false |}.

Definition orochi_queue_query (st : WorkloadSharedState) (pid id : Z) (p : QueryPriority)
    (cost now : Z) : WorkloadSharedState * bool :=
  match find_pool st id with
  | None => (st, false)
  | Some (i, pool) =>
      if (0 <? max_queue_size (limits pool)) && (max_queue_size (limits pool) <=? queued_queries pool)
      then (update_pool st i (λ p, set_usage (usage_waited 0 1 (usage p)) p), false)
      else match find_queue_slot st with
      | None => (st, false)
      | Some j =>
          (update_pool
             (with_queue st (i32 (total_queued_queries st + 1))
                (alter (fill_entry pid id p cost now) j (queue st)))
             i (λ p, set_counts (active_queries p) (queued_queries p + 1) p), true)
      end
  end.

Definition compare_query_priority (qa qb : QueryEntry) : Z :=
  if negb (priority_value (priority qa) =? priority_value (priority qb))
  then i32 (u32 (priority_value (priority qb) - priority_value (priority qa)))
  else if enqueue_time qa <? enqueue_time qb then -1
  else if enqueue_time qb <? enqueue_time qa then 1
  else 0.

Definition remove_from_queue (st : WorkloadSharedState) (pid : Z) : WorkloadSharedState :=
  match list_find (λ e, entry_pid e = pid) (queue st) with
  | None => st
  | Some (i, e) =>
      update_first_pool
        (with_queue st (i32 (total_queued_queries st - 1)) (<[i := entry_zero]> (queue st)))
        (entry_pool e) (λ p, set_counts (active_queries p) (queued_queries p - 1) p)
  end.

(** The pool of the query keeps its count of active queries and its memory. *)
Definition orochi_release_query (st : WorkloadSharedState) (pid : Z) : WorkloadSharedState :=
  if negb orochi_workload_enabled then st else
  let st := remove_from_queue st pid in
  with_total_active st (i32 (total_active_queries st - 1)).

Definition orochi_cancel_queued_query (st : WorkloadSharedState) (pid : Z)
    : WorkloadSharedState * bool :=
  if bool_decide (is_Some (list_find (λ e, entry_pid e = pid) (queue st)))
  then (remove_from_queue st pid, true) else (st, false).

Definition waits (id : Z) (e : QueryEntry) : bool :=
  negb (entry_pid e =? 0) && (entry_pool e =? id) && negb (entry_active e).

Definition takes_over (e best : QueryEntry) : bool :=
  (priority_value (priority best) <? priority_value (priority e))
  || (priority_value (priority e) =? priority_value (priority best))
     && (enqueue_time e <? enqueue_time best).

(** The loop of [orochi_dequeue_next_query] from slot [i] on. *)
Fixpoint find_best (id : Z) (i : nat) (q : list QueryEntry) (best : option (nat * QueryEntry))
    : option (nat * QueryEntry) :=
  match q with
  | [] => best
  | e :: q =>
      find_best id (S i) q
        (if waits id e
         then match best with
              | None => Some (i, e)
              | Some (_, b) => if takes_over e b then Some (i, e) else best
              end
         else best)
  end.

Definition start_entry (now : Z) (e : QueryEntry) : QueryEntry :=
  {| entry_pid := entry_pid e; entry_pool := entry_pool e; entry_class := entry_class e;
     priority := priority e; enqueue_time := enqueue_time e; start_time := now;
     estimated_cost := estimated_cost e; memory_requested := memory_requested e;
     entry_active := true |}.

Definition orochi_dequeue_next_query (st : WorkloadSharedState) (id now : Z)
    : WorkloadSharedState * option Z :=
  match find_best id 0 (queue st) None with
  | None => (st, None)
  | Some (i, e) =>
      (with_total_active
         (update_first_pool
            (with_queue st (i32 (total_queued_queries st - 1)) (alter (start_entry now) i (queue st)))
            id (λ p, set_counts (active_queries p + 1) (queued_queries p - 1) p))
         (i32 (total_active_queries st + 1)),
       Some (entry_pid e))
  end.

Definition orochi_get_queue_length (st : WorkloadSharedState) (id : Z) : Z :=
  default 0 (queued_queries <$> orochi_get_resource_pool st id).

(** [qsort] of the C library sorts by a comparison function. *)
Definition orochi_get_queued_queries (st : WorkloadSharedState)
    (qsort : (QueryEntry → QueryEntry → Z) → list QueryEntry → list QueryEntry) (id : Z)
    : list QueryEntry :=
  if negb (is_initialized st) then [] else
  let queries := filter (λ e, entry_pid e ≠ 0 ∧ (id = 0 ∨ entry_pool e = id)
                              ∧ entry_active e = false) (queue st) in
  if (1 <? length queries)%nat then qsort compare_query_priority queries else queries.

Definition drain_pool (p : ResourcePool) : ResourcePool :=
  set_usage (usage_waited 0 1 (usage p))
    (set_counts (active_queries p) (Z.max 0 (i32 (queued_queries p - 1))) p).

Definition orochi_drain_pool_queue (st : WorkloadSharedState) (id : Z) : WorkloadSharedState :=
  if negb (is_initialized st) then st else
  let drained := length (filter (λ e, waits id e = true) (queue st)) in
  Nat.iter drained (λ st, update_first_pool st id drain_pool)
    (with_queue st (Z.max 0 (i32 (total_queued_queries st - Z.of_nat drained)))
       (map (λ e, if waits id e then entry_zero else e) (queue st))).

(** ** SQL functions *)

Definition orochi_create_resource_pool_sql (st : WorkloadSharedState) (next_pool_id : Z)
    (name : string) (cpu mem concurrency weight : option Z)
    : outcome (WorkloadSharedState * Z * Z) :=
  orochi_create_resource_pool st next_pool_id name
    (Some {| cpu_percent := default 100 cpu; memory_mb := default 0 mem; io_read_mbps := 0;
             io_write_mbps := 0; max_concurrency := default 0 concurrency; max_queue_size := 0;
             query_timeout_ms := orochi_default_query_timeout_ms; idle_timeout_ms := 0 |})
    (default 50 weight).

Definition orochi_alter_resource_pool_sql (st : WorkloadSharedState) (id : Z)
    (cpu mem concurrency weight : option Z) : outcome (WorkloadSharedState * bool) :=
  match orochi_get_resource_pool st id with
  | None => Ok (st, false)
  | Some current =>
      let pick new old := if 0 <=? default (-1) new then default (-1) new else old in
      let l := limits current in
      st ← orochi_alter_resource_pool st id
             (Some {| cpu_percent := pick cpu (cpu_percent l); memory_mb := pick mem (memory_mb l);
                      io_read_mbps := io_read_mbps l; io_write_mbps := io_write_mbps l;
                      max_concurrency := pick concurrency (max_concurrency l);
                      max_queue_size := max_queue_size l; query_timeout_ms := query_timeout_ms l;
                      idle_timeout_ms := idle_timeout_ms l |})
             (default (-1) weight);
      Ok (st, true)
  end.

Definition orochi_drop_resource_pool_sql (st : WorkloadSharedState) (name : string)
    (if_exists : option bool) : outcome (WorkloadSharedState * bool) :=
  match orochi_get_resource_pool_by_name st name with
  | Some pool => orochi_drop_resource_pool st (pool_id pool) (default false if_exists)
  | None => if default false if_exists then Ok (st, false) else Err "resource pool does not exist"
  end.

(** ** Sessions *)

Definition session_hash_slot (pid : Z) : Z := u32 (u32 pid * 2654435761) mod WORKLOAD_MAX_SESSIONS.

Definition next_slot (slot : Z) : Z := u32 (slot + 1) mod WORKLOAD_MAX_SESSIONS.

Definition session_at (st : WorkloadSharedState) (slot : Z) : option SessionResourceTracker :=
  sessions st !! Z.to_nat slot.

(** At most [n] slots are looked at. *)
Fixpoint probe_session (n : nat) (st : WorkloadSharedState) (pid slot : Z) : option Z :=
  match n, session_at st slot with
  | S n, Some e =>
      if session_pid e =? 0 then None
      else if (session_pid e =? pid) && session_active e then Some slot
      else probe_session n st pid (next_slot slot)
  | _, _ => None
  end.

Definition find_session_slot (st : WorkloadSharedState) (pid : Z) : option Z :=
  if is_initialized st then probe_session 16 st pid (session_hash_slot pid) else None.

Definition session_expired (now : Z) (e : SessionResourceTracker) : bool :=
  (0 <? last_activity e) && (WORKLOAD_SESSION_IDLE_TIMEOUT <? i64 (now - last_activity e)).

Fixpoint probe_free (n : nat) (st : WorkloadSharedState) (now slot : Z) : option Z :=
  match n, session_at st slot with
  | S n, Some e =>
      if (session_pid e =? 0) || negb (session_active e) || session_expired now e then Some slot
      else probe_free n st now (next_slot slot)
  | _, _ => None
  end.

(** Replaces the tracker of a slot that [find_free_session_slot] returned: an
    expired one is taken off [num_sessions] first. *)
Definition find_free_session_slot (st : WorkloadSharedState) (pid now : Z) : option Z :=
  probe_free 16 st now (session_hash_slot pid).

Definition occupies (e : SessionResourceTracker) : bool :=
  negb (session_pid e =? 0) && session_active e.

Definition set_session (st : WorkloadSharedState) (slot : Z) (e : SessionResourceTracker)
    : WorkloadSharedState :=
  with_sessions st (num_sessions st) (<[Z.to_nat slot := e]> (sessions st)).

Definition add_session (st : WorkloadSharedState) (slot : Z) (e : SessionResourceTracker)
    : WorkloadSharedState :=
  let released := match session_at st slot with
                  | Some old => if occupies old then i32 (num_sessions st - 1) else num_sessions st
                  | None => num_sessions st
                  end in
  with_sessions st (i32 (released + 1)) (<[Z.to_nat slot := e]> (sessions st)).

Definition new_session (pid pool class now : Z) (u : ResourceUsage) : SessionResourceTracker :=
  {| session_pid := pid; session_pool := pool; session_class := class; session_usage := u;
     session_queries := 0; session_start := now; last_activity := now; session_active := true |}.

Definition move_session (pool class now : Z) (e : SessionResourceTracker) : SessionResourceTracker :=
  {| session_pid := session_pid e; session_pool := pool; session_class := class;
     session_usage := session_usage e; session_queries := session_queries e;
     session_start := session_start e; last_activity := now; session_active := session_active e |}.

Definition usage_updated (now : Z) (u : ResourceUsage) : ResourceUsage :=
  {| cpu_time_us := cpu_time_us u; memory_bytes := memory_bytes u;
     peak_memory_bytes := peak_memory_bytes u; io_read_bytes := io_read_bytes u;
     io_write_bytes := io_write_bytes u; queries_executed := queries_executed u;
     queries_queued := queries_queued u; queries_rejected := queries_rejected u;
     last_updated := now |}.

Definition work_session (now : Z) (f : ResourceUsage → ResourceUsage) (e : SessionResourceTracker)
    : SessionResourceTracker :=
  {| session_pid := session_pid e; session_pool := session_pool e;
     session_class := session_class e; session_usage := f (session_usage e);
     session_queries := session_queries e; session_start := session_start e;
     last_activity := now; session_active := session_active e |}.

Definition clear_session (e : SessionResourceTracker) : SessionResourceTracker :=
  {| session_pid := 0; session_pool := 0; session_class := 0; session_usage := usage_zero;
     session_queries := 0; session_start := session_start e; last_activity := last_activity e;
     session_active := false |}.

(** The session found, with its slot. *)
Definition find_session (st : WorkloadSharedState) (pid : Z)
    : option (Z * SessionResourceTracker) :=
  slot ← find_session_slot st pid; e ← session_at st slot; Some (slot, e).

Definition place_session (st : WorkloadSharedState) (pid pool class now : Z) (u : ResourceUsage)
    : WorkloadSharedState * bool :=
  match find_session st pid with
  | Some (slot, e) => (set_session st slot (move_session pool class now e), true)
  | None =>
      match find_free_session_slot st pid now with
      | Some slot => (add_session st slot (new_session pid pool class now u), true)
      | None => (st, false)
      end
  end.

Definition orochi_register_session (st : WorkloadSharedState) (pid pool class now : Z)
    : WorkloadSharedState * bool :=
  if negb (is_initialized st) then (st, false)
  else place_session st pid pool class now (usage_updated now usage_zero).

Definition orochi_assign_workload_class (st : WorkloadSharedState) (pid class now : Z)
    : WorkloadSharedState * bool :=
  if negb (is_initialized st) then (st, false) else
  match orochi_get_workload_class st class with
  | None => (st, false)
  | Some c => place_session st pid (class_pool c) class now usage_zero
  end.

Definition orochi_assign_workload_class_by_name (st : WorkloadSharedState) (pid : Z)
    (name : string) (now : Z) : WorkloadSharedState * bool :=
  match orochi_get_workload_class_by_name st name with
  | None => (st, false)
  | Some c => orochi_assign_workload_class st pid (class_id c) now
  end.

Definition orochi_get_session_class_id (st : WorkloadSharedState) (pid : Z) : Z :=
  default 0 (session_class ∘ snd <$> find_session st pid).

Definition orochi_get_session_tracker (st : WorkloadSharedState) (pid : Z)
    : option SessionResourceTracker := snd <$> find_session st pid.

Definition orochi_unregister_session (st : WorkloadSharedState) (pid : Z) : WorkloadSharedState :=
  match find_session st pid with
  | None => st
  | Some (slot, e) =>
      let u := session_usage e in
      let st := update_first_pool st (session_pool e) (λ p,
        set_usage (usage_worked (cpu_time_us u) (io_read_bytes u) (io_write_bytes u)
                     (last_updated (usage p)) (usage p)) p) in
      with_sessions st (Z.max 0 (i32 (num_sessions st - 1)))
        (<[Z.to_nat slot := clear_session e]> (sessions st))
  end.

Definition orochi_update_session_activity (st : WorkloadSharedState) (pid now : Z)
    : WorkloadSharedState :=
  match find_session st pid with
  | None => st
  | Some (slot, e) => set_session st slot (work_session now (usage_updated now) e)
  end.

(** Tracks work in a session with [f] and in its pool with [g]. *)
Definition track_session (st : WorkloadSharedState) (pid now : Z)
    (f g : ResourceUsage → ResourceUsage) : WorkloadSharedState :=
  match find_session st pid with
  | None => st
  | Some (slot, e) =>
      update_first_pool (set_session st slot (work_session now f e)) (session_pool e)
        (λ p, set_usage (g (usage p)) p)
  end.

Definition orochi_track_session_cpu (st : WorkloadSharedState) (pid cpu now : Z)
    : WorkloadSharedState :=
  if cpu <=? 0 then st
  else track_session st pid now (usage_worked cpu 0 0 now) (usage_worked cpu 0 0 now).

Definition orochi_track_session_memory (st : WorkloadSharedState) (pid mem now : Z)
    : WorkloadSharedState :=
  track_session st pid now (usage_memory mem now) (usage_updated now).

Definition orochi_track_session_io (st : WorkloadSharedState) (pid read write now : Z)
    : WorkloadSharedState :=
  if (read <=? 0) && (write <=? 0) then st
  else
    let work := usage_worked 0 (Z.max 0 read) (Z.max 0 write) now in
    track_session st pid now work work.
End workload.

(** ** The whole system

    [next_ids] are the two counters of each process, all of them inherited from the
    postmaster.  A call that raises an error changes nothing. *)
Record World := { shared : WorkloadSharedState; next_ids : Z → Z * Z }.

Inductive WorkloadOp :=
| CreatePool (process : Z) (name : string) (l : option ResourceLimits) (weight : Z)
| AlterPool (id : Z) (l : option ResourceLimits) (weight : Z)
| DropPool (id : Z) (if_exists : bool)
| EnablePool (id : Z)
| DisablePool (id : Z)
| CreateClass (process : Z) (name : string) (pool : Z) (p : QueryPriority)
    (l : option ResourceLimits)
| AlterClass (id pool : Z) (p : QueryPriority) (l : option ResourceLimits)
| DropClass (id : Z) (if_exists : bool)
| AdmitQuery (id mem : Z)
| QueueQuery (pid id : Z) (p : QueryPriority) (cost now : Z)
| ReleaseQuery (pid : Z)
| CancelQuery (pid : Z)
| DequeueQuery (id now : Z)
| DrainPool (id : Z)
| RegisterSession (pid pool class now : Z)
| AssignClass (pid class now : Z)
| UnregisterSession (pid : Z)
| UpdateActivity (pid now : Z)
| TrackCpu (pid cpu now : Z)
| TrackMemory (pid mem now : Z)
| TrackIo (pid read write now : Z).

Definition or_else {A} (m : outcome A) (a : A) : A := match m with Ok b => b | _ => a end.

Section system.
Context (orochi_workload_enabled : bool) (orochi_default_query_timeout_ms : Z).

Definition set_ids (w : World) (process : Z) (ids : Z * Z) : Z → Z * Z :=
  λ q, if decide (q = process) then ids else next_ids w q.

Definition call (w : World) (st : WorkloadSharedState) : World :=
  {| shared := st; next_ids := next_ids w |}.

Definition step (w : World) (op : WorkloadOp) : World :=
  let st := shared w in
  match op with
  | CreatePool pr name l weight =>
      let '(p, c) := next_ids w pr in
      match orochi_create_resource_pool orochi_default_query_timeout_ms st p name l weight with
      | Ok (st, p, _) => {| shared := st; next_ids := set_ids w pr (p, c) |}
      | _ => w
      end
  | AlterPool id l weight => call w (or_else (orochi_alter_resource_pool st id l weight) st)
  | DropPool id b => call w (fst (or_else (orochi_drop_resource_pool st id b) (st, false)))
  | EnablePool id => call w (fst (orochi_enable_resource_pool st id))
  | DisablePool id => call w (fst (or_else (orochi_disable_resource_pool st id) (st, false)))
  | CreateClass pr name pool prio l =>
      let '(p, c) := next_ids w pr in
      match orochi_create_workload_class st c name pool prio l with
      | Ok (st, c, _) => {| shared := st; next_ids := set_ids w pr (p, c) |}
      | _ => w
      end
  | AlterClass id pool prio l => call w (or_else (orochi_alter_workload_class st id pool prio l) st)
  | DropClass id b => call w (fst (or_else (orochi_drop_workload_class st id b) (st, false)))
  | AdmitQuery id mem => call w (fst (orochi_admit_query orochi_workload_enabled st id mem))
  | QueueQuery pid id prio cost now => call w (fst (orochi_queue_query st pid id prio cost now))
  | ReleaseQuery pid => call w (orochi_release_query orochi_workload_enabled st pid)
  | CancelQuery pid => call w (fst (orochi_cancel_queued_query st pid))
  | DequeueQuery id now => call w (fst (orochi_dequeue_next_query st id now))
  | DrainPool id => call w (orochi_drain_pool_queue st id)
  | RegisterSession pid pool class now => call w (fst (orochi_register_session st pid pool class now))
  | AssignClass pid class now => call w (fst (orochi_assign_workload_class st pid class now))
  | UnregisterSession pid => call w (orochi_unregister_session st pid)
  | UpdateActivity pid now => call w (orochi_update_session_activity st pid now)
  | TrackCpu pid cpu now => call w (orochi_track_session_cpu st pid cpu now)
  | TrackMemory pid mem now => call w (orochi_track_session_memory st pid mem now)
  | TrackIo pid read write now => call w (orochi_track_session_io st pid read write now)
  end.

Definition run (w : World) (ops : list WorkloadOp) : World := foldl step w ops.

(** The system after start-up: a forked process inherits the counters. *)
Definition started (orochi_default_pool_concurrency : Z) : outcome World :=
  '(st, next) ← orochi_workload_shmem_startup orochi_default_pool_concurrency
                  orochi_default_query_timeout_ms;
  Ok {| shared := st; next_ids := λ _, (next, 1) |}.
End system.

(** ** Capacity that never comes back *)

(** The call keeps the pool, its limits and its queries, and adds [d] at most. *)
Definition keeps (d id : Z) (st st' : WorkloadSharedState) : Prop :=
  ∀ i p, find_pool st id = Some (i, p) → 0 < active_queries p < INT32_MAX →
  ∃ p', find_pool st' id = Some (i, p') ∧ limits p' = limits p ∧
    active_queries p ≤ active_queries p' ≤ active_queries p + d.

Definition adds (d : Z) (f : ResourcePool → ResourcePool) : Prop :=
  ∀ p, pool_id (f p) = pool_id p ∧ limits (f p) = limits p ∧
    (0 < active_queries p < INT32_MAX → active_queries p ≤ active_queries (f p) ≤ active_queries p + d).

Create HintDb workload.

Ltac adds_tac :=
  let q := fresh "q" in intros q; split_and!; [done..|]; unfold INT32_MAX; intros; cbn;
  rewrite ?swrap_id by (done || (split; lia)); lia.

Lemma keeps_same d id (st st' : WorkloadSharedState) :
  0 ≤ d → pools st' = pools st → keeps d id st st'.
Proof. intros Hd E i p Hp _. exists p. unfold find_pool in *. rewrite E. split_and!; [done..|lia|lia]. Qed.

Lemma keeps_update d id st j f : 0 ≤ d → adds d f → keeps d id st (update_pool st j f).
Proof.
  intros Hd Hf i p Hp Ha. exists (if decide (i = j) then f p else p). split.
  - apply (list_find_alter _ f); [|done]. intros q. cbn. by rewrite (proj1 (Hf q)).
  - destruct (Hf p) as (_ & ? & ?). case_decide; split; try done; [by auto|lia].
Qed.

Lemma keeps_update_first d id st k f :
  0 ≤ d → adds d f → keeps d id st (update_first_pool st k f).
Proof.
  intros. unfold update_first_pool. destruct (find_pool st k) as [[j q]|];
    [by apply keeps_update|by apply keeps_same].
Qed.

Lemma keeps_trans d id (st1 st2 st3 : WorkloadSharedState) :
  keeps 0 id st1 st2 → keeps d id st2 st3 → keeps d id st1 st3.
Proof.
  intros H1 H2 i p Hp Ha. destruct (H1 i p Hp Ha) as (q & Hq & Hl & ?).
  destruct (H2 i q Hq ltac:(lia)) as (r & ? & Hr & ?). exists r. split_and!; [done|congruence|lia..].
Qed.

(** A change of anything but the pools before or after. *)
Lemma keeps_after d id (st st1 st2 : WorkloadSharedState) :
  pools st2 = pools st1 → keeps d id st st1 → keeps d id st st2.
Proof.
  intros E H i p Hp Ha. destruct (H i p Hp Ha) as (q & ? & ?). exists q.
  unfold find_pool in *. by rewrite E.
Qed.

Lemma keeps_insert id st n j old new :
  pools st !! j = Some old → pool_id old ≠ id → pool_id new ≠ id →
  keeps 0 id st (with_pools st n (<[j := new]> (pools st))).
Proof.
  intros Hj Ho Hn i p Hp _. exists p. split_and!; [|done|lia..].
  apply list_find_insert; [done| |done]. intros z Hz. congruence.
Qed.

Lemma find_pool_at st id i p : find_pool st id = Some (i, p) → pools st !! i = Some p ∧ pool_id p = id.
Proof. intros H. apply list_find_Some in H as (? & ? & ?). done. Qed.

Lemma keeps_remove id st pid : keeps 0 id st (remove_from_queue st pid).
Proof.
  unfold remove_from_queue. destruct (list_find _ (queue st)) as [[i e]|]; [|by apply keeps_same].
  eapply keeps_trans; [|apply keeps_update_first; [done|adds_tac]]. by apply keeps_same.
Qed.

Lemma keeps_drain id st k : keeps 0 id st (orochi_drain_pool_queue st k).
Proof.
  unfold orochi_drain_pool_queue. destruct (is_initialized st); [|by apply keeps_same]. cbn [negb].
  generalize (length (filter (λ e, waits k e = true) (queue st))). intros n.
  set (st0 := with_queue _ _ _). apply (keeps_trans _ _ _ st0); [by apply keeps_same|].
  generalize st0. clear st0. induction n as [|n IH]; intros st0; cbn; [by apply keeps_same|].
  eapply keeps_trans; [apply IH|]. apply keeps_update_first; [done|adds_tac].
Qed.

Lemma keeps_place id st pid pool class now u :
  keeps 0 id st (fst (place_session st pid pool class now u)).
Proof.
  apply keeps_same; [done|]. unfold place_session.
  destruct (find_session st pid) as [[]|]; [done|]. by destruct (find_free_session_slot st pid now).
Qed.

Lemma keeps_track id st pid now f g : keeps 0 id st (track_session st pid now f g).
Proof.
  unfold track_session. destruct (find_session st pid) as [[]|]; [|by apply keeps_same].
  eapply keeps_trans; [|apply keeps_update_first; [done|adds_tac]]. by apply keeps_same.
Qed.

Lemma keeps_unregister id st pid : keeps 0 id st (orochi_unregister_session st pid).
Proof.
  unfold orochi_unregister_session. destruct (find_session st pid) as [[slot e]|]; [|by apply keeps_same].
  eapply (keeps_after _ _ _ (update_first_pool st (session_pool e) _)); [reflexivity|apply keeps_update_first; [done|adds_tac]].
Qed.

Lemma keeps_admit b id st k mem : keeps 1 id st (fst (orochi_admit_query b st k mem)).
Proof.
  unfold orochi_admit_query. destruct b; [|by apply keeps_same]. cbn [negb].
  destruct (find_pool st k) as [[i p]|]; [|by apply keeps_same].
  repeat destruct_if; [by apply keeps_same| |].
  - apply (keeps_after _ _ _ (update_pool st i (admitted_pool mem))); [done|].
    apply keeps_update; [done|adds_tac].
  - apply keeps_update; [done|adds_tac].
Qed.

Lemma keeps_queue id st pid k prio cost now :
  keeps 0 id st (fst (orochi_queue_query st pid k prio cost now)).
Proof.
  unfold orochi_queue_query. destruct (find_pool st k) as [[i p]|]; [|by apply keeps_same].
  destruct_if; [apply keeps_update; [done|adds_tac]|].
  destruct (find_queue_slot st); [|by apply keeps_same]. cbn [fst].
  eapply keeps_trans; [|apply keeps_update; [done|adds_tac]]. by apply keeps_same.
Qed.

Lemma keeps_dequeue id st k now : keeps 1 id st (fst (orochi_dequeue_next_query st k now)).
Proof.
  unfold orochi_dequeue_next_query. destruct (find_best _ _ _ _) as [[i e]|]; [|by apply keeps_same].
  cbn [fst]. eapply (keeps_after _ _ _ (update_first_pool _ k _)); [reflexivity|].
  eapply keeps_trans; [|apply keeps_update_first; [done|adds_tac]]. by apply keeps_same.
Qed.

Lemma keeps_drop id st k b :
  id ≠ 0 → keeps 0 id st (fst (or_else (orochi_drop_resource_pool st k b) (st, false))).
Proof.
  intros Hid. unfold orochi_drop_resource_pool.
  destruct (find_pool st k) as [[j q]|] eqn:Ek; [|destruct b; by apply keeps_same].
  destruct (is_internal q); [by apply keeps_same|].
  destruct (Z.ltb_spec 0 (active_queries q)); [by apply keeps_same|]. cbn.
  intros i p Hp Ha. assert (k ≠ id) by (intros ->; rewrite Hp in Ek; injection Ek as -> ->; lia).
  apply find_pool_at in Ek as [Hj Hq]. eapply keeps_insert; [exact Hj|congruence|done|exact Hp|done].
Qed.

Lemma keeps_create t id st next name l weight st' next' nid :
  orochi_create_resource_pool t st next name l weight = Ok (st', next', nid) →
  id ≠ 0 → next ≠ id → keeps 0 id st st' ∧ next' = i64 (next + 1).
Proof.
  unfold orochi_create_resource_pool, find_free_pool_slot. intros H Hid Hne.
  do 3 (destruct_if_hyp; [done|]). destruct (find_pool st 0) as [[j q]|] eqn:Ej; [|done].
  cbn in H. injection H as <- <- <-. split; [|done]. apply find_pool_at in Ej as [Hj Hq].
  eapply keeps_insert; [exact Hj|congruence|done].
Qed.

(** An operation that neither alters the limits of the pool nor gives its identifier to a new
    one, which a process does when its counter stands there. *)
Definition leaves_pool (id : Z) (w : World) (op : WorkloadOp) : Prop :=
  match op with
  | AlterPool k _ _ => k ≠ id
  | CreatePool process _ _ _ => fst (next_ids w process) ≠ id
  | _ => True
  end.

Fixpoint leave_pool (b : bool) (t id : Z) (w : World) (ops : list WorkloadOp) : Prop :=
  match ops with
  | [] => True
  | op :: ops => leaves_pool id w op ∧ leave_pool b t id (step b t w op) ops
  end.

Lemma keeps_more id st st' : keeps 0 id st st' → keeps 1 id st st'.
Proof.
  intros H i p Hp Ha. destruct (H i p Hp Ha) as (q & ? & ? & ?). exists q. split_and!; [done..|lia|lia].
Qed.

Lemma keeps_alter id st k l weight :
  k ≠ id → keeps 0 id st (or_else (orochi_alter_resource_pool st k l weight) st).
Proof.
  intros Hne. unfold orochi_alter_resource_pool.
  destruct (find_pool st k) as [[j q]|] eqn:Ek; [|by apply keeps_same].
  destruct_if; [by apply keeps_same|]. cbn [or_else]. intros i p Hp Ha.
  assert (i ≠ j) as Hij.
  { intros ->. apply find_pool_at in Ek as [? ?], Hp as [? ?]. congruence. }
  exists p. split_and!; [|done|lia..]. unfold find_pool, update_pool. cbn [pools with_pools].
  erewrite (list_find_alter _ _ (pools st)); [by rewrite decide_False|done|exact Hp].
Qed.

Lemma keeps_enable id st k : keeps 0 id st (fst (orochi_enable_resource_pool st k)).
Proof. apply keeps_update_first; [done|adds_tac]. Qed.

Lemma keeps_disable id st k :
  keeps 0 id st (fst (or_else (orochi_disable_resource_pool st k) (st, false))).
Proof.
  unfold orochi_disable_resource_pool. destruct (find_pool st k) as [[i p]|]; [|by apply keeps_same].
  destruct (is_internal p); [by apply keeps_same|]. apply keeps_update; [done|adds_tac].
Qed.

Lemma keeps_alter_class id st k pool prio l :
  keeps 0 id st (or_else (orochi_alter_workload_class st k pool prio l) st).
Proof.
  apply keeps_same; [done|]. unfold orochi_alter_workload_class.
  destruct (find_class st k) as [[]|]; [|done]. by destruct_if.
Qed.

Lemma keeps_drop_class id st k b :
  keeps 0 id st (fst (or_else (orochi_drop_workload_class st k b) (st, false))).
Proof.
  apply keeps_same; [done|]. unfold orochi_drop_workload_class.
  destruct (find_class st k) as [[]|]; [done|]. by destruct b.
Qed.

Lemma keeps_activity id st pid now : keeps 0 id st (orochi_update_session_activity st pid now).
Proof.
  apply keeps_same; [done|]. unfold orochi_update_session_activity.
  by destruct (find_session st pid) as [[]|].
Qed.

Lemma keeps_register id st pid pool class now :
  keeps 0 id st (fst (orochi_register_session st pid pool class now)).
Proof.
  unfold orochi_register_session. destruct (is_initialized st); [apply keeps_place|by apply keeps_same].
Qed.

Lemma keeps_assign id st pid class now :
  keeps 0 id st (fst (orochi_assign_workload_class st pid class now)).
Proof.
  unfold orochi_assign_workload_class.
  destruct (is_initialized st); [|by apply keeps_same]. cbn [negb].
  destruct (orochi_get_workload_class st class); [apply keeps_place|by apply keeps_same].
Qed.

Lemma keeps_release b id st pid : keeps 0 id st (orochi_release_query b st pid).
Proof.
  unfold orochi_release_query. destruct b; [|by apply keeps_same].
  eapply keeps_after; [|apply (keeps_remove id st pid)]. done.
Qed.

Lemma keeps_cancel id st pid : keeps 0 id st (fst (orochi_cancel_queued_query st pid)).
Proof.
  unfold orochi_cancel_queued_query. destruct_if; [apply keeps_remove|by apply keeps_same].
Qed.

Lemma keeps_cpu id st pid cpu now : keeps 0 id st (orochi_track_session_cpu st pid cpu now).
Proof. unfold orochi_track_session_cpu. destruct_if; [by apply keeps_same|apply keeps_track]. Qed.

Lemma keeps_io id st pid read write now :
  keeps 0 id st (orochi_track_session_io st pid read write now).
Proof. unfold orochi_track_session_io. destruct_if; [by apply keeps_same|apply keeps_track]. Qed.

Lemma keeps_create_class id st next name pool prio l st' next' nid :
  orochi_create_workload_class st next name pool prio l = Ok (st', next', nid) → keeps 0 id st st'.
Proof.
  unfold orochi_create_workload_class, find_free_class_slot. intros H.
  do 3 (destruct_if_hyp; [done|]). destruct (find_class st 0) as [[j q]|]; [|done].
  cbn in H. injection H as <- <- <-. by apply keeps_same.
Qed.

Lemma keeps_step b t id w op :
  0 < id → leaves_pool id w op → keeps 1 id (shared w) (shared (step b t w op)).
Proof.
  intros Hid Hop.
  destruct op; try (cbn [step shared call];
    first [apply keeps_admit|apply keeps_dequeue|apply keeps_more];
    first [apply keeps_queue|apply keeps_drain|apply keeps_unregister|apply keeps_drop; lia
          |by apply keeps_alter|apply keeps_enable|apply keeps_disable|apply keeps_register
          |apply keeps_assign|apply keeps_release|apply keeps_cancel|apply keeps_cpu|apply keeps_track
          |apply keeps_io|apply keeps_alter_class|apply keeps_drop_class|apply keeps_activity]).
  - cbn [step leaves_pool] in *. destruct (next_ids w process) as [p c] eqn:Ep. cbn [fst] in Hop.
    destruct (orochi_create_resource_pool _ _ _ _ _ _) as [[[st q] nid]| | |] eqn:E; [|by apply keeps_same..].
    apply (keeps_create _ id) in E as [Hk _]; [|lia|done]. by apply keeps_more.
  - cbn [step]. destruct (next_ids w process) as [q c] eqn:Ep.
    destruct (orochi_create_workload_class _ _ _ _ _ _) as [[[st c'] nid]| | |] eqn:E; [|by apply keeps_same..].
    by apply keeps_more; eapply keeps_create_class.
Qed.

Lemma keeps_run b t id ops : ∀ w i p,
  0 < id → leave_pool b t id w ops → find_pool (shared w) id = Some (i, p) →
  0 < active_queries p → active_queries p + len ops ≤ INT32_MAX →
  ∃ p', find_pool (shared (run b t w ops)) id = Some (i, p') ∧ limits p' = limits p ∧
    active_queries p ≤ active_queries p'.
Proof.
  induction ops as [|op ops IH]; intros w i p Hid Hops Hp Ha Hb; [by exists p|].
  destruct Hops as [Hop Hops]. cbn [length] in *.
  destruct (keeps_step b t id w op Hid Hop i p Hp ltac:(lia)) as (q & Hq & El & ?).
  edestruct (IH (step b t w op) i q) as (r & Hr & El' & ?); [done..|lia|lia|].
  exists r. split_and!; [done|congruence|lia].
Qed.

(** C19: releasing a query does not lower the count of active queries of its pool.  A pool that
    has reached its limit therefore admits no query again, whatever is admitted, queued,
    released, cancelled, created or dropped in between, in any process, as long as no operation
    alters the limits of the pool and none gives its identifier to another pool (each process
    counts for itself, see [pool_ids_collide]), and the count of active queries stays below
    2^31. *)
Theorem pool_never_reopens (t id mem : Z) (w : World) (ops : list WorkloadOp) (i : nat)
    (p : ResourcePool) :
  0 < id → leave_pool true t id w ops → find_pool (shared w) id = Some (i, p) →
  0 < max_concurrency (limits p) ≤ active_queries p →
  active_queries p + len ops ≤ INT32_MAX →
  snd (orochi_admit_query true (shared (run true t w ops)) id mem) = false.
Proof.
  intros Hid Hops Hp Hm Hb.
  destruct (keeps_run true t id ops w i p Hid Hops Hp ltac:(lia) Hb) as (q & Hq & El & ?).
  unfold orochi_admit_query. cbn [negb]. rewrite Hq. destruct_if; [done|].
  unfold check_pool_resources. rewrite El.
  destruct (Z.ltb_spec 0 (max_concurrency (limits p))); [|lia].
  destruct (Z.leb_spec (max_concurrency (limits p)) (active_queries q)); [done|lia].
Qed.

Lemma started_ok t c : ∃ w, started t c = Ok w.
Proof. eexists. reflexivity. Qed.

Definition one_at_a_time : ResourceLimits :=
  {| cpu_percent := 100; memory_mb := 0; io_read_mbps := 0; io_write_mbps := 0; max_concurrency := 1;
     max_queue_size := 0; query_timeout_ms := 30000; idle_timeout_ms := 0 |}.

(** A pool that process 9 creates, while the counter of process 10 stands at its identifier. *)
Lemma pool_never_reopens_witness :
  ∃ w, started 30000 1 = Ok w ∧
    let w := step true 30000 w (CreatePool 9 "etl" (Some one_at_a_time) 10) in
    snd (orochi_admit_query true (shared w) 3 0) = true ∧
    snd (orochi_admit_query true
           (shared (run true 30000 (step true 30000 w (AdmitQuery 3 0))
              [ReleaseQuery 7; CreatePool 9 "web" None 10; DropPool 3 true; DrainPool 3; DropPool 4 true])) 3 0)
      = false.
Proof.
  eexists. split; [reflexivity|]. split; [by vm_compute|].
  eapply pool_never_reopens.
  - done.
  - repeat split. by vm_compute.
  - vm_compute. reflexivity.
  - vm_compute. done.
  - vm_compute. done.
Defined.

(** ** Well-formed shared memory *)

Definition used_pool (p : ResourcePool) : bool := negb (pool_id p =? 0).
Definition used_class (c : WorkloadClass) : bool := negb (class_id c =? 0).

(** The arrays have their sizes, the counters count the used slots, and a session
    slot is active exactly if it has a process. *)
Record state_ok (st : WorkloadSharedState) : Prop := {
  ok_init : is_initialized st = true;
  ok_pools : length (pools st) = WORKLOAD_MAX_POOLS;
  ok_num_pools : num_pools st = count_if used_pool (pools st);
  ok_classes : length (classes st) = WORKLOAD_MAX_CLASSES;
  ok_num_classes : num_classes st = count_if used_class (classes st);
  ok_queue : length (queue st) = WORKLOAD_QUEUE_SIZE;
  ok_sessions : len (sessions st) = WORKLOAD_MAX_SESSIONS;
  ok_num_sessions : num_sessions st = count_if occupies (sessions st);
  ok_slots : Forall (λ e, session_active e = negb (session_pid e =? 0)) (sessions st) }.

(** What the code relies on: identifiers of things dropped and of processes are not 0. *)
Definition op_ok (op : WorkloadOp) : Prop :=
  match op with
  | DropPool id _ | DropClass id _ => id ≠ 0
  | RegisterSession pid _ _ _ | AssignClass pid _ _ => pid ≠ 0
  | _ => True
  end.

Definition ids_ok (n : Z) (w : World) : Prop :=
  ∀ pr, 0 < fst (next_ids w pr) ∧ fst (next_ids w pr) + n ≤ INT64_MAX ∧
        0 < snd (next_ids w pr) ∧ snd (next_ids w pr) + n ≤ INT64_MAX.

Lemma ok_update_pool st i f :
  (∀ p, pool_id (f p) = pool_id p) → state_ok st → state_ok (update_pool st i f).
Proof.
  intros Hf []. constructor; cbn; try done; [by rewrite length_alter|].
  change (num_pools st = count_if used_pool (alter f i (pools st))). rewrite count_if_alter; [done|].
  intros p. unfold used_pool. by rewrite Hf.
Qed.

Lemma ok_update_first st id f :
  (∀ p, pool_id (f p) = pool_id p) → state_ok st → state_ok (update_first_pool st id f).
Proof.
  intros Hf Hok. unfold update_first_pool. destruct (find_pool st id) as [[i p]|]; [|done].
  by apply ok_update_pool.
Qed.

Lemma ok_total_active st n : state_ok st → state_ok (with_total_active st n).
Proof. intros []. by constructor. Qed.

Lemma ok_with_queue st n q : length q = length (queue st) → state_ok st → state_ok (with_queue st n q).
Proof. intros E []. constructor; try done. cbn. congruence. Qed.

Lemma count_small {A} (f : A → bool) l i x y (n : Z) :
  l !! i = Some y → f x = false → f y = true → n = count_if f l → len l ≤ 1024 →
  i32 (n - 1) = count_if f (<[i := x]> l).
Proof.
  intros Hi Hx Hy -> Hl. rewrite (count_if_insert _ _ _ _ _ Hi), Hx, Hy. cbn [Z.b2z].
  pose proof (count_if_range f l). rewrite swrap_id by (done || split; lia). lia.
Qed.

Lemma count_more {A} (f : A → bool) l i x y (n : Z) :
  l !! i = Some y → f x = true → f y = false → n = count_if f l → len l ≤ 1024 →
  i32 (n + 1) = count_if f (<[i := x]> l).
Proof.
  intros Hi Hx Hy -> Hl. rewrite (count_if_insert _ _ _ _ _ Hi), Hx, Hy. cbn [Z.b2z].
  pose proof (count_if_range f l). rewrite swrap_id by (done || split; lia). lia.
Qed.

Lemma ok_create_pool t st next name l weight st' next' nid :
  orochi_create_resource_pool t st next name l weight = Ok (st', next', nid) →
  0 < next < INT64_MAX → state_ok st → state_ok st' ∧ next' = next + 1.
Proof.
  unfold orochi_create_resource_pool, find_free_pool_slot. intros H Hn [].
  do 3 (destruct_if_hyp; [done|]). destruct (find_pool st 0) as [[j q]|] eqn:Ej; [|done].
  cbn -[strlcpy] in H. injection H as <- <- _. apply find_pool_at in Ej as [Hj Hq].
  unfold INT64_MAX in Hn. rewrite (swrap_id 64) by (done || split; lia). split; [|done].
  constructor; cbn -[strlcpy]; try done; [by rewrite length_insert|].
  apply (count_more _ _ _ _ _ _ Hj); [|by unfold used_pool; rewrite Hq|done|rewrite ok_pools0; done].
  unfold used_pool. cbn. by destruct (Z.eqb_spec next 0); [lia|].
Qed.

Lemma ok_drop_pool st id b :
  id ≠ 0 → state_ok st → state_ok (fst (or_else (orochi_drop_resource_pool st id b) (st, false))).
Proof.
  intros Hid Hok. unfold orochi_drop_resource_pool.
  destruct (find_pool st id) as [[j q]|] eqn:Ek; [|by destruct b].
  do 2 (destruct_if; [done|]). cbn. apply find_pool_at in Ek as [Hj Hq]. destruct Hok.
  constructor; cbn; try done; [by rewrite length_insert|].
  apply (count_small _ _ _ _ _ _ Hj); [done| |done|rewrite ok_pools0; done].
  unfold used_pool. by destruct (Z.eqb_spec (pool_id q) 0); [lia|].
Qed.

Lemma ok_create_class st next name pool prio l st' next' nid :
  orochi_create_workload_class st next name pool prio l = Ok (st', next', nid) →
  0 < next < INT64_MAX → state_ok st → state_ok st' ∧ next' = next + 1.
Proof.
  unfold orochi_create_workload_class, find_free_class_slot. intros H Hn [].
  do 3 (destruct_if_hyp; [done|]). destruct (find_class st 0) as [[j q]|] eqn:Ej; [|done].
  cbn -[strlcpy] in H. injection H as <- <- _. apply list_find_Some in Ej as (Hj & Hq & _).
  unfold INT64_MAX in Hn. rewrite (swrap_id 64) by (done || split; lia). split; [|done].
  constructor; cbn -[strlcpy]; try done; [by rewrite length_insert|].
  apply (count_more _ _ _ _ _ _ Hj); [|by unfold used_class; rewrite Hq|done|rewrite ok_classes0; done].
  unfold used_class. cbn. by destruct (Z.eqb_spec next 0); [lia|].
Qed.

Lemma ok_drop_class st id b :
  id ≠ 0 → state_ok st → state_ok (fst (or_else (orochi_drop_workload_class st id b) (st, false))).
Proof.
  intros Hid Hok. unfold orochi_drop_workload_class.
  destruct (find_class st id) as [[j q]|] eqn:Ek; [|by destruct b].
  cbn. apply list_find_Some in Ek as (Hj & Hq & _). destruct Hok.
  constructor; cbn; try done; [by rewrite length_insert|].
  apply (count_small _ _ _ _ _ _ Hj); [done| |done|rewrite ok_classes0; done].
  unfold used_class. by destruct (Z.eqb_spec (class_id q) 0); [lia|].
Qed.

Lemma ok_alter_class st id pool prio l :
  state_ok st → state_ok (or_else (orochi_alter_workload_class st id pool prio l) st).
Proof.
  intros Hok. unfold orochi_alter_workload_class.
  destruct (find_class st id) as [[j q]|]; [|done]. destruct_if; [done|]. cbn [or_else].
  destruct Hok. constructor; cbn; try done; [by rewrite length_alter|].
  change (num_classes st = count_if used_class (alter (set_class pool prio l) j (classes st))).
  by rewrite count_if_alter.
Qed.

Lemma ok_remove st pid : state_ok st → state_ok (remove_from_queue st pid).
Proof.
  intros Hok. unfold remove_from_queue. destruct (list_find _ (queue st)) as [[i e]|]; [|done].
  apply ok_update_first; [done|]. apply ok_with_queue; [by rewrite length_insert|done].
Qed.

Lemma ok_drain st id : state_ok st → state_ok (orochi_drain_pool_queue st id).
Proof.
  intros Hok. unfold orochi_drain_pool_queue. destruct_if; [done|].
  generalize (length (filter (λ e, waits id e = true) (queue st))). intros n.
  assert (H : ∀ st0, state_ok st0 → state_ok (Nat.iter n (λ st, update_first_pool st id drain_pool) st0)).
  { intros st0 H. induction n as [|n IH]; [done|]. by apply ok_update_first. }
  apply H, ok_with_queue; [by rewrite length_map|done].
Qed.

Lemma slot_range pid : 0 ≤ session_hash_slot pid < WORKLOAD_MAX_SESSIONS.
Proof. apply Z.mod_pos_bound. done. Qed.

Lemma next_slot_range s : 0 ≤ next_slot s < WORKLOAD_MAX_SESSIONS.
Proof. apply Z.mod_pos_bound. done. Qed.

Lemma probe_session_some n st pid : ∀ s0 s,
  0 ≤ s0 < WORKLOAD_MAX_SESSIONS → probe_session n st pid s0 = Some s →
  0 ≤ s < WORKLOAD_MAX_SESSIONS ∧
  ∃ e, session_at st s = Some e ∧ session_pid e = pid ∧ pid ≠ 0 ∧ session_active e = true.
Proof.
  induction n as [|n IH]; intros s0 s Hs H; [done|]. cbn in H.
  destruct (session_at st s0) as [e|] eqn:Ee; [|done].
  destruct (Z.eqb_spec (session_pid e) 0); [done|].
  destruct ((session_pid e =? pid) && session_active e) eqn:Em.
  - injection H as <-. apply andb_true_iff in Em as [Em Ha]. apply Z.eqb_eq in Em.
    split; [done|]. exists e. split_and!; [done..|congruence|done].
  - apply (IH (next_slot s0)); [apply next_slot_range|done].
Qed.

Lemma probe_free_some n st now : ∀ s0 s,
  0 ≤ s0 < WORKLOAD_MAX_SESSIONS → probe_free n st now s0 = Some s →
  0 ≤ s < WORKLOAD_MAX_SESSIONS ∧ ∃ e, session_at st s = Some e ∧
    (occupies e = false ∨ session_expired now e = true).
Proof.
  induction n as [|n IH]; intros s0 s Hs H; [done|]. cbn in H.
  destruct (session_at st s0) as [e|] eqn:Ee; [|done].
  destruct ((session_pid e =? 0) || negb (session_active e) || session_expired now e) eqn:Em.
  - injection H as <-. split; [done|]. exists e. split; [done|]. unfold occupies.
    destruct (session_expired now e); [by right|]. left. rewrite orb_false_r in Em.
    by destruct (session_pid e =? 0), (session_active e).
  - apply (IH (next_slot s0)); [apply next_slot_range|done].
Qed.

Lemma find_session_some st pid s e :
  find_session st pid = Some (s, e) →
  0 ≤ s < WORKLOAD_MAX_SESSIONS ∧ session_at st s = Some e ∧ session_pid e = pid ∧ pid ≠ 0 ∧
  session_active e = true.
Proof.
  unfold find_session, find_session_slot. intros H.
  apply bind_Some in H as (t & Ht & H). apply bind_Some in H as (e' & He & [= -> ->]).
  destruct (is_initialized st); [|done].
  apply probe_session_some in Ht as (Hs & e' & He' & ? & ? & ?); [|apply slot_range].
  rewrite He in He'. by injection He' as ->.
Qed.

Lemma ok_set_session st s e e' :
  session_at st s = Some e → session_pid e' = session_pid e → session_active e' = session_active e →
  state_ok st → state_ok (set_session st s e').
Proof.
  intros Hs Hp Ha []. unfold set_session, session_at in *.
  assert (He : session_active e = negb (session_pid e =? 0)) by by apply (Forall_lookup_1 _ _ _ _ ok_slots0 Hs).
  constructor; cbn; try done.
  - by rewrite length_insert.
  - rewrite (count_if_insert _ _ _ _ _ Hs).
    assert (occupies e' = occupies e) as -> by (unfold occupies; by rewrite Hp, Ha). lia.
  - apply Forall_insert; [done|]. by rewrite Hp, Ha.
Qed.

Lemma ok_add_session st s old e :
  session_at st s = Some old → session_pid e ≠ 0 → session_active e = true →
  state_ok st → state_ok (add_session st s e).
Proof.
  intros Hs Hp Ha []. unfold add_session. rewrite Hs. unfold session_at in Hs.
  assert (Ho : occupies e = true).
  { unfold occupies. rewrite Ha. by destruct (Z.eqb_spec (session_pid e) 0). }
  pose proof (count_if_range occupies (sessions st)) as Hc. unfold WORKLOAD_MAX_SESSIONS in *.
  constructor; cbn; try done.
  - by rewrite length_insert.
  - rewrite (count_if_insert _ _ _ _ _ Hs), Ho. cbn [Z.b2z].
    pose proof (count_if_insert occupies (sessions st) _ e old Hs) as Hi.
    pose proof (count_if_range occupies (<[Z.to_nat s:=e]> (sessions st))) as Hr.
    rewrite length_insert in Hr. rewrite Ho in Hi. cbn [Z.b2z] in Hi.
    destruct (occupies old); cbn [Z.b2z] in *.
    + rewrite (swrap_id 32 (num_sessions st - 1)) by (done || split; lia).
      rewrite swrap_id by (done || split; lia). lia.
    + rewrite swrap_id by (done || split; lia). lia.
  - apply Forall_insert; [done|]. rewrite Ha. by destruct (Z.eqb_spec (session_pid e) 0).
Qed.

Lemma ok_place st pid pool class now u :
  pid ≠ 0 → state_ok st → state_ok (fst (place_session st pid pool class now u)).
Proof.
  intros Hp Hok. unfold place_session. destruct (find_session st pid) as [[s e]|] eqn:Ef.
  - apply find_session_some in Ef as (_ & He & _). by eapply ok_set_session.
  - destruct (find_free_session_slot st pid now) as [s|] eqn:E; [|done].
    apply probe_free_some in E as (_ & old & Hs & _); [|apply slot_range].
    by eapply ok_add_session.
Qed.

Lemma ok_track st pid now f g : state_ok st → state_ok (track_session st pid now f g).
Proof.
  intros Hok. unfold track_session. destruct (find_session st pid) as [[s e]|] eqn:Ef; [|done].
  apply find_session_some in Ef as (_ & He & _). apply ok_update_first; [done|].
  by eapply ok_set_session.
Qed.

Lemma ok_unregister st pid : state_ok st → state_ok (orochi_unregister_session st pid).
Proof.
  intros Hok. unfold orochi_unregister_session.
  destruct (find_session st pid) as [[s e]|] eqn:Ef; [|done].
  apply find_session_some in Ef as (_ & He & Hp & Hp0 & Ha).
  set (st' := update_first_pool _ _ _). assert (Hok' : state_ok st') by by apply ok_update_first.
  assert (sessions st' = sessions st ∧ num_sessions st' = num_sessions st) as [Es En].
  { subst st'. unfold update_first_pool. by destruct (find_pool st (session_pool e)) as [[]|]. }
  unfold session_at in He. rewrite <- Es in He.
  assert (Ho : occupies e = true) by (unfold occupies; rewrite Ha; by destruct (Z.eqb_spec (session_pid e) 0); [lia|]).
  destruct Hok'. unfold WORKLOAD_MAX_SESSIONS in *. constructor; cbn; try done.
  - by rewrite length_insert.
  - rewrite (count_if_insert _ _ _ _ _ He), Ho. cbn [Z.b2z occupies clear_session].
    pose proof (count_if_insert occupies (sessions st') _ (clear_session e) e He) as Hi.
    pose proof (count_if_range occupies (<[Z.to_nat s:=clear_session e]> (sessions st'))) as Hr.
    pose proof (count_if_range occupies (sessions st')). rewrite Ho in Hi. cbn [Z.b2z] in Hi.
    change (Z.b2z (occupies (clear_session e))) with 0 in *.
    rewrite swrap_id by (done || split; lia). lia.
  - by apply Forall_insert.
Qed.

Lemma ok_pool_ops st id :
  state_ok st →
  (∀ l weight, state_ok (or_else (orochi_alter_resource_pool st id l weight) st)) ∧
  state_ok (fst (orochi_enable_resource_pool st id)) ∧
  state_ok (fst (or_else (orochi_disable_resource_pool st id) (st, false))).
Proof.
  intros Hok. unfold orochi_alter_resource_pool, orochi_disable_resource_pool.
  split_and!; [intros l weight|..|by destruct (find_pool st id) as [[i p]|]; [destruct_if; [done|]|];
    [apply ok_update_pool|]].
  - destruct (find_pool st id) as [[i p]|]; [|done]. destruct_if; [done|]. by apply ok_update_pool.
  - by apply ok_update_first.
Qed.

Lemma ok_admit b st id mem : state_ok st → state_ok (fst (orochi_admit_query b st id mem)).
Proof.
  intros Hok. unfold orochi_admit_query. destruct_if; [done|].
  destruct (find_pool st id) as [[i p]|]; [|done]. repeat destruct_if; [done| |].
  - by apply ok_total_active, ok_update_pool.
  - by apply ok_update_pool.
Qed.

Lemma ok_queue_query st pid id prio cost now :
  state_ok st → state_ok (fst (orochi_queue_query st pid id prio cost now)).
Proof.
  intros Hok. unfold orochi_queue_query. destruct (find_pool st id) as [[i p]|]; [|done].
  destruct_if; [by apply ok_update_pool|]. destruct (find_queue_slot st); [|done].
  apply ok_update_pool; [done|]. apply ok_with_queue; [by rewrite length_alter|done].
Qed.

Lemma ok_dequeue st id now : state_ok st → state_ok (fst (orochi_dequeue_next_query st id now)).
Proof.
  intros Hok. unfold orochi_dequeue_next_query. destruct (find_best _ _ _ _) as [[i e]|]; [|done].
  apply ok_total_active, ok_update_first; [done|]. apply ok_with_queue; [by rewrite length_alter|done].
Qed.

Lemma ok_session_ops st pid now :
  state_ok st →
  (∀ pool class, pid ≠ 0 → state_ok (fst (orochi_register_session st pid pool class now))) ∧
  (∀ class, pid ≠ 0 → state_ok (fst (orochi_assign_workload_class st pid class now))) ∧
  state_ok (orochi_update_session_activity st pid now) ∧
  (∀ cpu, state_ok (orochi_track_session_cpu st pid cpu now)) ∧
  (∀ mem, state_ok (orochi_track_session_memory st pid mem now)) ∧
  (∀ read write, state_ok (orochi_track_session_io st pid read write now)).
Proof.
  intros Hok. unfold orochi_register_session, orochi_assign_workload_class,
    orochi_update_session_activity, orochi_track_session_cpu, orochi_track_session_memory,
    orochi_track_session_io. rewrite (ok_init st Hok). cbn [negb]. split_and!; intros.
  - by apply ok_place.
  - destruct (orochi_get_workload_class st class); [by apply ok_place|done].
  - destruct (find_session st pid) as [[s e]|] eqn:Ef; [|done].
    apply find_session_some in Ef as (_ & He & _). by eapply ok_set_session.
  - destruct_if; [done|]. by apply ok_track.
  - by apply ok_track.
  - destruct_if; [done|]. by apply ok_track.
Qed.

Lemma ok_queue_ops b st pid :
  state_ok st → state_ok (orochi_release_query b st pid) ∧
  state_ok (fst (orochi_cancel_queued_query st pid)).
Proof.
  intros Hok. unfold orochi_release_query, orochi_cancel_queued_query.
  split; destruct_if; try done; [by apply ok_total_active, ok_remove|by apply ok_remove].
Qed.

Lemma ok_step b t n w op :
  0 < n → ids_ok n w → op_ok op → state_ok (shared w) →
  state_ok (shared (step b t w op)) ∧ ids_ok (n - 1) (step b t w op).
Proof.
  intros Hn Hids Hop Hok.
  assert (Hids' : ids_ok (n - 1) w) by (intros pr; destruct (Hids pr) as (?&?&?&?); lia).
  destruct op; try (split; [|exact Hids']; cbn [step shared call];
    first [by apply ok_admit|by apply ok_dequeue|by apply ok_queue_query|by apply ok_drain
          |by apply ok_unregister|by apply ok_drop_pool|by apply ok_drop_class
          |by apply ok_alter_class|by (eapply ok_pool_ops in Hok as (? & ? & ?); eauto)
          |by (eapply (ok_queue_ops b) in Hok as [? ?])
          |by (eapply ok_session_ops in Hok as (?&?&?&?&?&?); eauto)]).
  - cbn [step]. destruct (next_ids w process) as [p c] eqn:Ep.
    pose proof (Hids process) as Hp. rewrite Ep in Hp. cbn in Hp.
    destruct (orochi_create_resource_pool _ _ _ _ _ _) as [[[st q] nid]| | |] eqn:E; [|done..].
    apply ok_create_pool in E as [Ho ->]; [|lia|done]. split; [done|].
    intros pr. cbn. unfold set_ids. case_decide; [cbn; lia|apply Hids'].
  - cbn [step]. destruct (next_ids w process) as [q c] eqn:Ep.
    pose proof (Hids process) as Hp. rewrite Ep in Hp. cbn in Hp.
    destruct (orochi_create_workload_class _ _ _ _ _ _) as [[[st c'] nid]| | |] eqn:E; [|done..].
    apply ok_create_class in E as [Ho ->]; [|lia|done]. split; [done|].
    intros pr. cbn. unfold set_ids. case_decide; [cbn; lia|apply Hids'].
Qed.

Lemma ok_run b t ops : ∀ w,
  ids_ok (len ops) w → Forall op_ok ops → state_ok (shared w) → state_ok (shared (run b t w ops)).
Proof.
  induction ops as [|op ops IH]; intros w Hids Hop Hok; [done|].
  apply Forall_cons in Hop as [Hop Hops]. cbn [length] in Hids.
  destruct (ok_step b t (Z.of_nat (S (length ops))) w op ltac:(lia) Hids Hop Hok) as [Hok' Hids'].
  apply IH; [|done..]. by replace (len ops) with (Z.of_nat (S (length ops)) - 1) by lia.
Qed.

Definition state_okb (st : WorkloadSharedState) : bool :=
  is_initialized st && (length (pools st) =? WORKLOAD_MAX_POOLS)%nat
  && (num_pools st =? count_if used_pool (pools st))
  && (length (classes st) =? WORKLOAD_MAX_CLASSES)%nat
  && (num_classes st =? count_if used_class (classes st))
  && (length (queue st) =? WORKLOAD_QUEUE_SIZE)%nat
  && (len (sessions st) =? WORKLOAD_MAX_SESSIONS)
  && (num_sessions st =? count_if occupies (sessions st))
  && forallb (λ e, Bool.eqb (session_active e) (negb (session_pid e =? 0))) (sessions st).

Lemma state_okb_ok st : state_okb st = true → state_ok st.
Proof.
  unfold state_okb. rewrite !andb_true_iff. intros [[[[[[[[? ?] ?] ?] ?] ?] ?] ?] Hf].
  constructor; try (by apply Nat.eqb_eq); try (by apply Z.eqb_eq); [done|].
  apply Forall_forall. intros e He. rewrite forallb_forall in Hf. apply eqb_prop, Hf. by apply list_elem_of_In.
Qed.

Lemma startup_ok c t st n :
  orochi_workload_shmem_startup c t = Ok (st, n) → state_ok st ∧ n = 3.
Proof.
  unfold orochi_workload_shmem_startup, init_default_pools. set (st0 := Build_WorkloadSharedState _ _ _ _ _ _ _ _ _ _).
  intros H. assert (H0 : state_ok st0) by by apply state_okb_ok.
  apply outcome_bind_ok in H as ([[st1 n1] i1] & H1 & H).
  apply outcome_bind_ok in H as ([[st2 n2] i2] & H2 & H).
  apply ok_create_pool in H1 as [H1 ->]; [|done..]. apply ok_create_pool in H2 as [H2 ->]; [|done..].
  injection H as <- <-. split; [|done].
  assert (Hid : ∀ p, pool_id (mark_internal p) = pool_id p) by (intros p; unfold mark_internal; by destruct_if).
  destruct H2. constructor; cbn [pools classes queue sessions num_pools num_classes num_sessions
    is_initialized with_pools]; try done.
  - rewrite length_app, length_map, <- length_app. by rewrite take_drop.
  - rewrite count_if_app, count_if_map, <- count_if_app, take_drop; [done|].
    intros p. unfold used_pool. by rewrite Hid.
Qed.

(** C20: whatever the processes do after start-up, the arrays keep their sizes, the
    numbers of pools, classes and sessions are those of the used slots, and a
    session slot is active exactly if it holds a process, as long as no pool or class
    of identifier 0 is dropped and no process has identifier 0. *)
Theorem workload_well_formed (b : bool) (t c : Z) (w : World) (ops : list WorkloadOp) :
  started t c = Ok w → len ops < 2 ^ 62 → Forall op_ok ops →
  state_ok (shared (run b t w ops)).
Proof.
  intros H Hl Hops. apply outcome_bind_ok in H as ([st n] & H & [= <-]).
  apply startup_ok in H as [Hok ->]. apply ok_run; [|done..].
  intros pr. cbn. unfold INT64_MAX. lia.
Qed.

Lemma workload_well_formed_witness :
  ∃ w, started 30000 0 = Ok w ∧
    state_ok (shared (run true 30000 w [CreatePool 9 "etl" None 10; RegisterSession 9 3 0 5; DropPool 3 false])).
Proof.
  eexists. split; [reflexivity|].
  eapply workload_well_formed; [reflexivity|done|]. repeat constructor; done.
Defined.

(** Dropping the unused identifier 0 counts down the pools, and the last pool is then
    not searched when the next is named. *)
Theorem dropping_zero_allows_duplicates :
  ∃ w, started 30000 0 = Ok w ∧
    let names w := map pool_name (orochi_list_resource_pools (shared w)) in
    names (run true 30000 w [CreatePool 9 "etl" None 10; DropPool 0 false; CreatePool 9 "etl" None 10])
    = ["default"; "admin"; "etl"; "etl"]%string.
Proof. eexists. split; reflexivity. Qed.

(** The same happens without that: after a pool in the middle of the array is
    dropped, the last pool lies outside the first [num_pools] slots. *)
Theorem pool_name_duplicated :
  ∃ w, started 30000 0 = Ok w ∧
    let names w := map pool_name (orochi_list_resource_pools (shared w)) in
    names (run true 30000 w [CreatePool 9 "a" None 10; CreatePool 9 "b" None 10;
                             DropPool 3 false; CreatePool 9 "b" None 10])
    = ["default"; "admin"; "b"; "b"]%string.
Proof. eexists. split; reflexivity. Qed.

(** Two processes give the same identifier to their first pools. *)
Theorem pool_ids_collide :
  ∃ w, started 30000 0 = Ok w ∧
    map pool_id (orochi_list_resource_pools
      (shared (run true 30000 w [CreatePool 9 "a" None 10; CreatePool 10 "b" None 10])))
    = [1; 2; 3; 3].
Proof. eexists. split; reflexivity. Qed.

(** Identifier 0 finds an unused slot: a query is admitted to no pool at all. *)
Theorem no_pool_admits :
  ∃ w, started 30000 0 = Ok w ∧
    snd (orochi_admit_query true (shared w) 0 0) = true ∧
    active_queries <$> pools (fst (orochi_admit_query true (shared w) 0 0)) !! 2%nat = Some 1.
Proof. eexists. split_and!; reflexivity. Qed.

Definition name_of_64 : string :=
  "0123456789012345678901234567890123456789012345678901234567890123".

(** A class with a name of 64 characters is not found by its name, nor refused when
    it is created again. *)
Theorem long_class_name_lost :
  ∃ w, started 30000 0 = Ok w ∧
    let w := run true 30000 w [CreateClass 9 name_of_64 1 QUERY_PRIORITY_LOW None;
                               CreateClass 9 name_of_64 1 QUERY_PRIORITY_LOW None] in
    num_classes (shared w) = 2 ∧ orochi_get_workload_class_by_name (shared w) name_of_64 = None.
Proof. eexists. split; [reflexivity|]. cbv zeta. split; reflexivity. Qed.

(** ** The table of sessions *)

Section table.
Context (st st' : WorkloadSharedState) (t : Z) (e : SessionResourceTracker).
Hypothesis Hsize : len (sessions st) = WORKLOAD_MAX_SESSIONS.
Hypothesis Ht : 0 ≤ t < WORKLOAD_MAX_SESSIONS.
Hypothesis Hst : sessions st' = <[Z.to_nat t := e]> (sessions st).
Hypothesis He : session_pid e ≠ 0.

Lemma session_at_new : session_at st' t = Some e.
Proof.
  unfold session_at. rewrite Hst. apply list_lookup_insert_eq. unfold WORKLOAD_MAX_SESSIONS in *. lia.
Qed.

Lemma session_at_old s : 0 ≤ s → s ≠ t → session_at st' s = session_at st s.
Proof. intros. unfold session_at. rewrite Hst. apply list_lookup_insert_ne. lia. Qed.

Lemma probe_other n q : ∀ s0 s,
  session_pid e ≠ q → 0 ≤ s0 < WORKLOAD_MAX_SESSIONS → s ≠ t →
  probe_session n st q s0 = Some s → probe_session n st' q s0 = Some s.
Proof.
  induction n as [|n IH]; intros s0 s Hq Hs Hne H; [done|]. cbn in H |- *.
  destruct (session_at st s0) as [e0|] eqn:E0; [|done].
  destruct (Z.eqb_spec (session_pid e0) 0) as [|]; [done|].
  destruct (decide (s0 = t)) as [->|Hst0].
  - rewrite session_at_new.
    destruct ((session_pid e0 =? q) && session_active e0); [by injection H as <-|].
    destruct (Z.eqb_spec (session_pid e) 0); [done|]. destruct (Z.eqb_spec (session_pid e) q); [done|].
    cbn [andb]. apply IH; [done|apply next_slot_range|done..].
  - rewrite session_at_old, E0 by (done || lia).
    destruct (Z.eqb_spec (session_pid e0) 0) as [|]; [done|].
    destruct ((session_pid e0 =? q) && session_active e0); [done|].
    apply IH; [done|apply next_slot_range|done..].
Qed.

Hypothesis Ha : session_active e = true.

Lemma probe_step n s0 : 0 ≤ s0 < WORKLOAD_MAX_SESSIONS →
  (s0 ≠ t → ∃ e0, session_at st s0 = Some e0 ∧ session_pid e0 ≠ 0 ∧
     (session_pid e0 =? session_pid e) && session_active e0 = false ∧
     probe_session n st' (session_pid e) (next_slot s0) = Some t) →
  probe_session (S n) st' (session_pid e) s0 = Some t.
Proof.
  intros Hs H. cbn. destruct (decide (s0 = t)) as [->|Hne].
  - rewrite session_at_new, Ha. destruct (Z.eqb_spec (session_pid e) 0); [done|].
    by rewrite Z.eqb_refl.
  - destruct (H Hne) as (e0 & E0 & Hp & Hm & Hr).
    rewrite session_at_old, E0, Hm by (done || lia). by destruct (Z.eqb_spec (session_pid e0) 0).
Qed.

Lemma probe_moved n : ∀ s0,
  0 ≤ s0 < WORKLOAD_MAX_SESSIONS → probe_session n st (session_pid e) s0 = Some t →
  probe_session n st' (session_pid e) s0 = Some t.
Proof.
  induction n as [|n IH]; intros s0 Hs H; [done|]. apply probe_step; [done|].
  cbn in H. destruct (session_at st s0) as [e0|] eqn:E0; [|done].
  destruct (Z.eqb_spec (session_pid e0) 0) as [|]; [done|]. intros Hne. exists e0.
  destruct ((session_pid e0 =? session_pid e) && session_active e0); [by injection H as ->|].
  split_and!; [done..|]. apply IH; [apply next_slot_range|done].
Qed.

Lemma probe_added n now : ∀ s0,
  0 ≤ s0 < WORKLOAD_MAX_SESSIONS → probe_session n st (session_pid e) s0 = None →
  probe_free n st now s0 = Some t → probe_session n st' (session_pid e) s0 = Some t.
Proof.
  induction n as [|n IH]; intros s0 Hs Hn Hf; [done|]. apply probe_step; [done|]. intros Hne.
  cbn in Hn, Hf. destruct (session_at st s0) as [e0|] eqn:E0; [|done]. exists e0.
  destruct (Z.eqb_spec (session_pid e0) 0) as [|]; [by injection Hf as ->|].
  destruct (_ || session_expired now e0); [by injection Hf as ->|].
  destruct ((session_pid e0 =? session_pid e) && session_active e0); [done|].
  split_and!; [done..|]. apply IH; [apply next_slot_range|done..].
Qed.
End table.

Lemma probe_free_none st now n : ∀ s0,
  len (sessions st) = WORKLOAD_MAX_SESSIONS → 0 ≤ s0 < WORKLOAD_MAX_SESSIONS →
  probe_free n st now s0 = None → ∀ k, (k < n)%nat →
  ∃ e, session_at st (Nat.iter k next_slot s0) = Some e ∧ occupies e = true ∧
    session_expired now e = false.
Proof.
  induction n as [|n IH]; intros s0 Hl Hs H k Hk; [lia|]. cbn in H.
  destruct (session_at st s0) as [e|] eqn:E.
  - destruct ((session_pid e =? 0) || negb (session_active e) || session_expired now e) eqn:Em; [done|].
    apply orb_false_iff in Em as [Em Hx]. apply orb_false_iff in Em as [Hp Ha].
    destruct k as [|k].
    + exists e. split_and!; [done| |done]. unfold occupies. rewrite Hp. by apply negb_false_iff in Ha as ->.
    + rewrite Nat.iter_succ_r. apply IH; [done|apply next_slot_range|done|lia].
  - unfold session_at in E. apply lookup_ge_None in E. unfold WORKLOAD_MAX_SESSIONS in *. lia.
Qed.

Lemma tracker_of_probe st q s e :
  is_initialized st = true → probe_session 16 st q (session_hash_slot q) = Some s →
  session_at st s = Some e → orochi_get_session_tracker st q = Some e.
Proof.
  intros Hi Hp He. unfold orochi_get_session_tracker, find_session, find_session_slot.
  rewrite Hi, Hp. cbn. by rewrite He.
Qed.

Lemma tracker_probe st q e :
  orochi_get_session_tracker st q = Some e →
  ∃ s, probe_session 16 st q (session_hash_slot q) = Some s ∧ session_at st s = Some e ∧
    find_session st q = Some (s, e).
Proof.
  unfold orochi_get_session_tracker. destruct (find_session st q) as [[s e']|] eqn:E; [|done].
  intros [= ->]. exists s.
  unfold find_session, find_session_slot in E. destruct (is_initialized st); [|done].
  destruct (probe_session 16 st q (session_hash_slot q)) as [s'|] eqn:Ep; [|done]. cbn in E.
  destruct (session_at st s') as [e'|] eqn:Es; [|done]. by injection E as -> ->.
Qed.

Lemma placed st st' t e :
  len (sessions st) = WORKLOAD_MAX_SESSIONS → 0 ≤ t < WORKLOAD_MAX_SESSIONS →
  sessions st' = <[Z.to_nat t := e]> (sessions st) → is_initialized st' = true →
  probe_session 16 st' (session_pid e) (session_hash_slot (session_pid e)) = Some t →
  orochi_get_session_tracker st' (session_pid e) = Some e.
Proof.
  intros Hl Ht Hs Hi Hp. apply (tracker_of_probe _ _ t); [done..|]. by apply (session_at_new st st' t e).
Qed.

(** What replacing the tracker of slot [t] by one of [pid] leaves of the others. *)
Lemma others_kept st st' t old e :
  is_initialized st' = is_initialized st → len (sessions st) = WORKLOAD_MAX_SESSIONS →
  0 ≤ t < WORKLOAD_MAX_SESSIONS →
  sessions st' = <[Z.to_nat t := e]> (sessions st) → session_pid e ≠ 0 → session_at st t = Some old →
  ∀ q f, q ≠ session_pid e → orochi_get_session_tracker st q = Some f → f ≠ old →
    orochi_get_session_tracker st' q = Some f.
Proof.
  intros Hi Hl Ht Hs He Hold q f Hq Hf Hne.
  assert (is_initialized st = true) as Hi'.
  { unfold orochi_get_session_tracker, find_session, find_session_slot in Hf. by destruct (is_initialized st). }
  apply tracker_probe in Hf as (s & Hp & Hf & _).
  destruct (probe_session_some _ _ _ _ _ (slot_range q) Hp) as [Hr _].
  assert (s ≠ t) by (intros ->; congruence).
  apply (tracker_of_probe _ _ s); [congruence| |].
  - apply (probe_other st st' t e); try done. apply slot_range.
  - by rewrite (session_at_old st st' t e) by (done || lia).
Qed.

Lemma place_session_spec st pid pool class now u :
  is_initialized st = true → len (sessions st) = WORKLOAD_MAX_SESSIONS → pid ≠ 0 →
  let '(st', ok) := place_session st pid pool class now u in
  (ok = true → ∃ e, orochi_get_session_tracker st' pid = Some e ∧ session_pid e = pid ∧
     session_pool e = pool ∧ session_class e = class ∧ last_activity e = now) ∧
  (∀ q e, q ≠ pid → orochi_get_session_tracker st q = Some e → session_expired now e = false →
     orochi_get_session_tracker st' q = Some e) ∧
  (ok = false → st' = st ∧ find_free_session_slot st pid now = None).
Proof.
  intros Hi Hl Hp. unfold place_session. destruct (find_session st pid) as [[t old]|] eqn:Ef.
  - assert (Htr : orochi_get_session_tracker st pid = Some old)
      by (unfold orochi_get_session_tracker; by rewrite Ef).
    apply tracker_probe in Htr as (t' & Hpr & Hold & Ef').
    rewrite Ef in Ef'. injection Ef' as <-.
    apply find_session_some in Ef as (Ht & _ & Hpid & _ & Ha).
    set (e := move_session pool class now old).
    assert (Hpe : session_pid e = pid) by done.
    split_and!; [intros _|intros q f Hq Hf Hx|done].
    + exists e. split_and!; [|done..]. rewrite <- Hpe at 1.
      apply (placed st (set_session st t e) t e Hl Ht eq_refl); [done|].
      pose proof (probe_moved st (set_session st t e) t e Hl Ht eq_refl) as H.
      apply H; [by rewrite Hpe|done|apply slot_range|by rewrite Hpe].
    + apply (others_kept st (set_session st t e) t old e eq_refl Hl Ht eq_refl); rewrite ?Hpe; try done.
      intros ->. apply tracker_probe in Hf as (s & _ & _ & Hf). apply find_session_some in Hf. naive_solver.
  - destruct (find_free_session_slot st pid now) as [t|] eqn:E; [|split_and!; [done|naive_solver|done]].
    destruct (probe_free_some _ _ _ _ _ (slot_range pid) E) as (Ht & old & Hold & Hfree).
    set (e := new_session pid pool class now u).
    assert (Hn : probe_session 16 st pid (session_hash_slot pid) = None).
    { destruct (probe_session 16 st pid (session_hash_slot pid)) as [s|] eqn:Ep; [|done].
      destruct (probe_session_some _ _ _ _ _ (slot_range pid) Ep) as (_ & f & Hf & _).
      unfold find_session, find_session_slot in Ef. rewrite Hi, Ep in Ef. cbn in Ef. by rewrite Hf in Ef. }
    split_and!; [intros _|intros q f Hq Hf Hx|done].
    + exists e. split_and!; [|done..]. apply (placed st (add_session st t e) t e Hl Ht eq_refl); [done|].
      apply (probe_added st (add_session st t e) t e Hl Ht eq_refl Hp eq_refl 16 now);
        [apply slot_range|done|done].
    + apply (others_kept st (add_session st t e) t old e eq_refl Hl Ht eq_refl Hp Hold); [done|done|].
      intros ->. apply tracker_probe in Hf as (s & _ & _ & Hf).
      apply find_session_some in Hf as (_ & _ & ? & ? & Ha).
      destruct Hfree as [Ho|Ho]; [|congruence]. unfold occupies in Ho. rewrite Ha in Ho.
      destruct (Z.eqb_spec (session_pid old) 0); [lia|done].
Qed.

(** A session that registers is found with its pool and class, and so is every
    other that was found before and has not been idle for half an hour.  Registering
    fails only if the sixteen slots the process may use are held by such sessions,
    and then changes nothing. *)
Theorem register_session_found (st : WorkloadSharedState) (pid pool class now : Z) :
  state_ok st → pid ≠ 0 →
  let '(st', ok) := orochi_register_session st pid pool class now in
  (ok = true → ∃ e, orochi_get_session_tracker st' pid = Some e ∧ session_pid e = pid ∧
     session_pool e = pool ∧ session_class e = class ∧ last_activity e = now) ∧
  (∀ q e, q ≠ pid → orochi_get_session_tracker st q = Some e → session_expired now e = false →
     orochi_get_session_tracker st' q = Some e) ∧
  (ok = false → st' = st ∧ ∀ k, (k < 16)%nat →
     ∃ e, session_at st (Nat.iter k next_slot (session_hash_slot pid)) = Some e ∧
       occupies e = true ∧ session_expired now e = false).
Proof.
  intros Hok Hp. pose proof (ok_init st Hok) as Hi. unfold orochi_register_session. rewrite Hi. cbn [negb].
  pose proof (place_session_spec st pid pool class now (usage_updated now usage_zero) Hi (ok_sessions st Hok) Hp) as H.
  destruct (place_session _ _ _ _ _ _) as [st' ok]. destruct H as (H1 & H2 & H3).
  split_and!; [done..|]. intros E. destruct (H3 E) as [-> Hn]. split; [done|].
  apply probe_free_none; [apply Hok|apply slot_range|done].
Qed.

Lemma register_session_found_witness :
  ∃ w, started 30000 0 = Ok w ∧
    let st := fst (orochi_register_session (shared w) 1000 1 0 5) in
    let '(st', ok) := orochi_register_session st 2024 2 0 6 in
    (ok = true → ∃ e, orochi_get_session_tracker st' 2024 = Some e ∧ session_pid e = 2024 ∧
       session_pool e = 2 ∧ session_class e = 0 ∧ last_activity e = 6) ∧
    (∀ q e, q ≠ 2024 → orochi_get_session_tracker st q = Some e → session_expired 6 e = false →
       orochi_get_session_tracker st' q = Some e) ∧
    (ok = false → st' = st ∧ ∀ k, (k < 16)%nat →
       ∃ e, session_at st (Nat.iter k next_slot (session_hash_slot 2024)) = Some e ∧
         occupies e = true ∧ session_expired 6 e = false).
Proof.
  eexists. split; [reflexivity|]. cbv zeta.
  apply (register_session_found (fst (orochi_register_session _ 1000 1 0 5)) 2024 2 0 6); [|done].
  apply state_okb_ok. by vm_compute.
Defined.

(** Processes 1000 and 2024 share their slots.  When the first ends, the slot it held
    ends the search for the second, which is registered again and counted twice. *)
Theorem unregister_hides_sessions :
  ∃ w, started 30000 0 = Ok w ∧
    let w1 := run true 30000 w [RegisterSession 1000 1 0 5; RegisterSession 2024 2 0 6] in
    let w2 := step true 30000 w1 (UnregisterSession 1000) in
    let w3 := step true 30000 w2 (RegisterSession 2024 2 0 7) in
    session_pool <$> orochi_get_session_tracker (shared w1) 2024 = Some 2 ∧
    orochi_get_session_tracker (shared w2) 2024 = None ∧ num_sessions (shared w3) = 2.
Proof. eexists. split; [reflexivity|]. cbv zeta. split_and!; reflexivity. Qed.

(** ** The queue *)

(** [a] is to run before [b] or the order does not tell them apart. *)
Definition runs_before (a b : QueryEntry) : Prop := compare_query_priority a b ≤ 0.

Lemma compare_spec a b :
  compare_query_priority a b =
  if priority_value (priority a) =? priority_value (priority b)
  then if enqueue_time a <? enqueue_time b then -1
       else if enqueue_time b <? enqueue_time a then 1 else 0
  else priority_value (priority b) - priority_value (priority a).
Proof. unfold compare_query_priority. by destruct (priority a), (priority b). Qed.

Lemma runs_before_spec a b :
  runs_before a b ↔
  priority_value (priority b) < priority_value (priority a) ∨
  priority_value (priority a) = priority_value (priority b) ∧ enqueue_time a ≤ enqueue_time b.
Proof.
  unfold runs_before. rewrite compare_spec.
  destruct (Z.eqb_spec (priority_value (priority a)) (priority_value (priority b))); [|lia].
  destruct (Z.ltb_spec (enqueue_time a) (enqueue_time b)); [lia|].
  destruct (Z.ltb_spec (enqueue_time b) (enqueue_time a)); lia.
Qed.

#[export] Instance runs_before_trans : Transitive runs_before.
Proof. intros a b c. rewrite !runs_before_spec. lia. Qed.

#[export] Instance runs_before_total : Total runs_before.
Proof. intros a b. rewrite !runs_before_spec. lia. Qed.

Lemma takes_over_spec e b : takes_over e b = true ↔ ¬ runs_before b e.
Proof.
  rewrite runs_before_spec. unfold takes_over.
  rewrite orb_true_iff, andb_true_iff, !Z.ltb_lt, Z.eqb_eq. lia.
Qed.

#[export] Instance runs_before_dec a b : Decision (runs_before a b).
Proof. unfold runs_before. apply _. Defined.

(** Entry [i] waits, and all the entries that wait run after it or with it. *)
Definition best_of (id : Z) (q : list QueryEntry) (i : nat) (e : QueryEntry) : Prop :=
  q !! i = Some e ∧ waits id e = true ∧ (∀ f, f ∈ q → waits id f = true → runs_before e f).

Lemma runs_before_refl e : runs_before e e.
Proof. apply runs_before_spec. lia. Qed.

Lemma not_takes_over e f : takes_over f e = false → runs_before e f.
Proof.
  intros H. destruct (decide (runs_before e f)) as [|Hn]; [done|].
  apply takes_over_spec in Hn. congruence.
Qed.

Lemma takes_over_before e f : takes_over f e = true → runs_before f e.
Proof. intros H%takes_over_spec. by destruct (total runs_before e f). Qed.

Lemma find_best_spec id q : ∀ pre best,
  match best with
  | None => ∀ f, f ∈ pre → waits id f = false
  | Some (i, e) => best_of id pre i e
  end →
  match find_best id (length pre) q best with
  | None => ∀ f, f ∈ pre ++ q → waits id f = false
  | Some (i, e) => best_of id (pre ++ q) i e
  end.
Proof.
  induction q as [|f q IH]; intros pre best H; [by rewrite app_nil_r|].
  cbn [find_best]. replace (S (length pre)) with (length (pre ++ [f])) by (rewrite length_app; cbn; lia).
  replace (pre ++ f :: q) with ((pre ++ [f]) ++ q) by by rewrite <- app_assoc.
  apply IH. destruct (waits id f) eqn:Hf; [destruct best as [[i e]|]; [destruct (takes_over f e) eqn:Ht|]|].
  - destruct H as (_ & _ & Hm). split_and!; [by apply list_lookup_middle|done|].
    intros g [Hg| ->%list_elem_of_singleton]%elem_of_app Hw; [|apply runs_before_refl].
    transitivity e; [by apply takes_over_before|by apply Hm].
  - destruct H as (Hi & He & Hm). split_and!; [by apply lookup_app_l_Some|done|].
    intros g [Hg| ->%list_elem_of_singleton]%elem_of_app Hw; [by apply Hm|by apply not_takes_over].
  - split_and!; [by apply list_lookup_middle|done|].
    intros g [Hg| ->%list_elem_of_singleton]%elem_of_app Hw; [|apply runs_before_refl].
    by rewrite H in Hw.
  - destruct best as [[i e]|].
    + destruct H as (Hi & He & Hm). split_and!; [by apply lookup_app_l_Some|done|].
      intros g [Hg| ->%list_elem_of_singleton]%elem_of_app Hw; [by apply Hm|congruence].
    + intros g [Hg| ->%list_elem_of_singleton]%elem_of_app; [by apply H|done].
Qed.

(** What the C library promises of [qsort], for the order of the queue. *)
Definition sorts_queue (qsort : (QueryEntry → QueryEntry → Z) → list QueryEntry → list QueryEntry) : Prop :=
  ∀ l, qsort compare_query_priority l ≡ₚ l ∧ Sorted runs_before (qsort compare_query_priority l).

Lemma queued_head qsort st id :
  sorts_queue qsort → is_initialized st = true → id ≠ 0 →
  match head (orochi_get_queued_queries st qsort id) with
  | None => ∀ f, f ∈ queue st → waits id f = false
  | Some f => f ∈ queue st ∧ waits id f = true ∧
      (∀ g, g ∈ queue st → waits id g = true → runs_before f g)
  end.
Proof.
  intros Hs Hi Hid. unfold orochi_get_queued_queries. rewrite Hi. cbn [negb].
  set (l := filter _ _). set (k := if (1 <? length l)%nat then qsort compare_query_priority l else l).
  assert (Hk : k ≡ₚ l ∧ Sorted runs_before k).
  { subst k. destruct_if; [apply Hs|]. split; [done|]. apply Nat.ltb_ge in E.
    destruct l as [|a [|b l]]; [constructor|by repeat constructor|cbn in E; lia]. }
  assert (Hin : ∀ f, f ∈ k ↔ f ∈ queue st ∧ waits id f = true).
  { intros f. rewrite (proj1 Hk). subst l. rewrite list_elem_of_filter. unfold waits.
    rewrite !andb_true_iff, !negb_true_iff, Z.eqb_eq, Z.eqb_neq. naive_solver. }
  destruct Hk as [_ Hk].
  destruct k as [|f k]; cbn [head].
  - intros f Hf. apply not_true_iff_false. intros Hw. by eapply not_elem_of_nil, Hin.
  - destruct (proj1 (Hin f)) as [? ?]; [by left|]. split_and!; [done..|]. intros g Hg Hw.
    apply Sorted_StronglySorted in Hk; [|apply _]. apply StronglySorted_inv in Hk as [_ Hk].
    assert (Hgk : g ∈ f :: k) by by apply Hin.
    apply elem_of_cons in Hgk as [->|Hgk]; [apply runs_before_refl|]. rewrite Forall_forall in Hk. by apply Hk.
Qed.

(** The query that is started is the first of the list of queued queries, or as
    urgent and as old: none that waits for the pool has a higher priority, nor the
    same and an earlier arrival.  It is marked as started and the rest of the queue
    stays.  If none is listed, none is started. *)
Theorem dequeue_takes_first (st : WorkloadSharedState) (id now : Z)
    (qsort : (QueryEntry → QueryEntry → Z) → list QueryEntry → list QueryEntry) :
  sorts_queue qsort → is_initialized st = true → id ≠ 0 →
  let '(st', started) := orochi_dequeue_next_query st id now in
  match head (orochi_get_queued_queries st qsort id), started with
  | None, None => st' = st
  | Some first, Some pid =>
      ∃ i e, queue st !! i = Some e ∧ waits id e = true ∧ entry_pid e = pid ∧
        compare_query_priority e first = 0 ∧
        (∀ f, f ∈ queue st → waits id f = true → runs_before e f) ∧
        queue st' = alter (start_entry now) i (queue st)
  | _, _ => False
  end.
Proof.
  intros Hs Hi Hid. pose proof (queued_head qsort st id Hs Hi Hid) as Hq.
  pose proof (find_best_spec id (queue st) [] None ltac:(intros f Hf; by apply not_elem_of_nil in Hf)) as Hb.
  unfold orochi_dequeue_next_query. cbn [length app] in Hb.
  destruct (find_best id 0 (queue st) None) as [[i e]|], (head _) as [f|].
  - destruct Hb as (He & Hw & Hm), Hq as (Hf & Hwf & Hmf). exists i, e. split_and!; [done..| |done|].
    + pose proof (Hm f Hf Hwf) as H1. pose proof (Hmf e (list_elem_of_lookup_2 _ _ _ He) Hw) as H2.
      rewrite runs_before_spec in H1, H2. rewrite compare_spec.
      destruct (Z.eqb_spec (priority_value (priority e)) (priority_value (priority f))); [|lia].
      destruct (Z.ltb_spec (enqueue_time e) (enqueue_time f)); [lia|].
      destruct (Z.ltb_spec (enqueue_time f) (enqueue_time e)); lia.
    + unfold update_first_pool. by destruct (find_pool _ _) as [[]|].
  - destruct Hb as (He & Hw & _). specialize (Hq e (list_elem_of_lookup_2 _ _ _ He)). congruence.
  - destruct Hq as (Hf & Hwf & _). specialize (Hb f Hf). congruence.
  - done.
Qed.

Definition three_queued : World → World := λ w,
  run true 30000 w [QueueQuery 7 1 QUERY_PRIORITY_LOW 0 10; QueueQuery 8 1 QUERY_PRIORITY_HIGH 0 12;
                    QueueQuery 9 1 QUERY_PRIORITY_HIGH 0 11].

Lemma dequeue_takes_first_witness :
  ∃ w, started 30000 0 = Ok w ∧
    let st := shared (three_queued w) in
    snd (orochi_dequeue_next_query st 1 20) = Some 9 ∧
    let '(st', started) := orochi_dequeue_next_query st 1 20 in
    match head (orochi_get_queued_queries st (λ _, merge_sort runs_before) 1), started with
    | None, None => st' = st
    | Some first, Some pid =>
        ∃ i e, queue st !! i = Some e ∧ waits 1 e = true ∧ entry_pid e = pid ∧
          compare_query_priority e first = 0 ∧
          (∀ f, f ∈ queue st → waits 1 f = true → runs_before e f) ∧
          queue st' = alter (start_entry 20) i (queue st)
    | _, _ => False
    end.
Proof.
  eexists. split; [reflexivity|]. cbv zeta. split; [vm_compute; reflexivity|].
  apply (dequeue_takes_first (shared (three_queued _)) 1 20 (λ _, merge_sort runs_before)); [|vm_compute; reflexivity|done].
  intros l. split; [apply merge_sort_Permutation|apply Sorted_merge_sort; apply _].
Defined.

(** Starting a queued query does not ask whether the pool has room. *)
Theorem dequeue_exceeds_limit :
  ∃ w, started 30000 1 = Ok w ∧
    let w := run true 30000 w [AdmitQuery 1 0; QueueQuery 7 1 QUERY_PRIORITY_LOW 0 10; DequeueQuery 1 11] in
    (λ p, (active_queries p, max_concurrency (limits p))) <$> orochi_get_resource_pool (shared w) 1
    = Some (2, 1).
Proof. eexists. split; [reflexivity|]. vm_compute. reflexivity. Qed.

(** A query that was queued and started is counted down twice when it is released. *)
Theorem queue_count_drifts :
  ∃ w, started 30000 1 = Ok w ∧
    let w := run true 30000 w [QueueQuery 7 1 QUERY_PRIORITY_LOW 0 10; DequeueQuery 1 11; ReleaseQuery 7] in
    total_queued_queries (shared w) = -1 ∧ orochi_get_queue_length (shared w) 1 = -1.
Proof. eexists. split; [reflexivity|]. cbv zeta. split; vm_compute; reflexivity. Qed.

(** A query that was admitted at once leaves nothing in the queue, and its release
    still lowers the total, below zero if the query was refused. *)
Theorem release_unadmitted :
  ∃ w, started 30000 1 = Ok w ∧
    total_active_queries (shared (run true 30000 w [AdmitQuery 1 0; AdmitQuery 1 0; ReleaseQuery 7;
                                                     ReleaseQuery 8])) = -1.
Proof. eexists. split; [reflexivity|]. vm_compute. reflexivity. Qed.

(** Limits of new pools are not validated: one of negative memory has no limit. *)
Theorem negative_memory_unlimited (p : ResourcePool) (mem : Z) :
  memory_mb (limits p) < 0 → max_concurrency (limits p) = 0 → check_pool_resources p mem = true.
Proof.
  intros Hm Hc. unfold check_pool_resources. rewrite Hc. cbn [Z.ltb Z.compare andb].
  by destruct (Z.ltb_spec 0 (memory_mb (limits p))); [lia|].
Qed.

(** ** Names *)

Definition lower_ascii (a : Ascii.ascii) : Ascii.ascii :=
  let n := Ascii.nat_of_ascii a in
  if ((65 <=? n) && (n <=? 90))%nat then Ascii.ascii_of_nat (n + 32) else a.
Fixpoint lower (s : string) : string :=
  match s with EmptyString => EmptyString | String a s => String (lower_ascii a) (lower s) end.

(** Names of priorities and states are parsed to what they name, if [pg_strcasecmp]
    compares ASCII strings without regard to case. *)
Theorem names_roundtrip (pg_strcasecmp : string → string → Z) :
  (∀ a b, pg_strcasecmp a b = 0 ↔ lower a = lower b) →
  (∀ p, orochi_parse_priority pg_strcasecmp (orochi_priority_name p) = p) ∧
  (∀ s, orochi_parse_pool_state pg_strcasecmp (orochi_pool_state_name s) = s).
Proof.
  intros H. assert (Hd : ∀ a b, (pg_strcasecmp a b =? 0) = bool_decide (lower a = lower b)).
  { intros a b. destruct (Z.eqb_spec (pg_strcasecmp a b) 0) as [E|E]; rewrite H in E;
      symmetry; [by apply bool_decide_eq_true|by apply bool_decide_eq_false]. }
  split; [intros p; unfold orochi_parse_priority|intros s; unfold orochi_parse_pool_state];
    rewrite !Hd; [by destruct p|by destruct s].
Qed.
