(* ===== verification/Governor.v ===== *)
(** * The resource governor: limits of processor time, memory and I/O

    Models [src/workload/resource_governor.c].  [GovernorSharedState] is the table of
    sessions in shared memory and its totals; [None] stands for the null pointer
    before [orochi_governor_init].  Each function takes the time as [now] where it
    asks for it; the clock does not advance within a call.  Sleeping, locks and log
    messages are not modelled. *)
From stdpp Require Import sets.
From S2P Require Import Prelude Workload.

Local Open Scope Z_scope.

(** ** Data *)

Definition MAX_TRACKED_SESSIONS : nat := 1024.
Definition IO_WINDOW_MS : Z := 1000.
Definition CPU_WINDOW_MS : Z := 1000.

Record SessionResourceState := {
  g_pid : Z; g_pool : Z; g_class : Z;
  g_cpu_time : Z; g_cpu_limit : Z; g_cpu_start : Z;
  g_memory : Z; g_memory_limit : Z; g_peak : Z;
  g_read : Z; g_write : Z; g_read_limit : Z; g_write_limit : Z;
  g_io_start : Z; g_read_window : Z; g_write_window : Z;
  g_queries : Z; g_query_start : Z; g_timeout : Z; g_active : bool; g_last_activity : Z }.

Record GovernorSharedState := {
  g_sessions : list SessionResourceState; g_num_sessions : Z;
  total_cpu_time_us : Z; total_memory_bytes : Z; total_io_bytes : Z }.

Definition state_zero : SessionResourceState :=
  {| g_pid := 0; g_pool := 0; g_class := 0; g_cpu_time := 0; g_cpu_limit := 0; g_cpu_start := 0;
     g_memory := 0; g_memory_limit := 0; g_peak := 0; g_read := 0; g_write := 0;
     g_read_limit := 0; g_write_limit := 0; g_io_start := 0; g_read_window := 0;
     g_write_window := 0; g_queries := 0; g_query_start := 0; g_timeout := 0; g_active := false;
     g_last_activity := 0 |}.

Definition orochi_governor_init (g : option GovernorSharedState) : option GovernorSharedState :=
  match g with
  | Some g => Some g
  | None =>
      Some {| g_sessions := replicate MAX_TRACKED_SESSIONS state_zero; g_num_sessions := 0;
              total_cpu_time_us := 0; total_memory_bytes := 0; total_io_bytes := 0 |}
  end.

(** ** Updates of a session *)

(** A new session starts its windows now. *)
Definition fresh_state (pid now : Z) : SessionResourceState :=
  {| g_pid := pid; g_pool := 0; g_class := 0; g_cpu_time := 0; g_cpu_limit := 0;
     g_cpu_start := now; g_memory := 0; g_memory_limit := 0; g_peak := 0; g_read := 0;
     g_write := 0; g_read_limit := 0; g_write_limit := 0; g_io_start := now; g_read_window := 0;
     g_write_window := 0; g_queries := 0; g_query_start := 0; g_timeout := 0; g_active := true;
     g_last_activity := now |}.

Definition set_inactive (s : SessionResourceState) : SessionResourceState :=
  {| g_pid := 0; g_pool := g_pool s; g_class := g_class s; g_cpu_time := g_cpu_time s;
     g_cpu_limit := g_cpu_limit s; g_cpu_start := g_cpu_start s; g_memory := g_memory s;
     g_memory_limit := g_memory_limit s; g_peak := g_peak s; g_read := g_read s;
     g_write := g_write s; g_read_limit := g_read_limit s; g_write_limit := g_write_limit s;
     g_io_start := g_io_start s; g_read_window := g_read_window s;
     g_write_window := g_write_window s; g_queries := g_queries s;
     g_query_start := g_query_start s; g_timeout := g_timeout s; g_active := false;
     g_last_activity := g_last_activity s |}.

Definition set_cpu (time start now : Z) (s : SessionResourceState) : SessionResourceState :=
  {| g_pid := g_pid s; g_pool := g_pool s; g_class := g_class s; g_cpu_time := time;
     g_cpu_limit := g_cpu_limit s; g_cpu_start := start; g_memory := g_memory s;
     g_memory_limit := g_memory_limit s; g_peak := g_peak s; g_read := g_read s;
     g_write := g_write s; g_read_limit := g_read_limit s; g_write_limit := g_write_limit s;
     g_io_start := g_io_start s; g_read_window := g_read_window s;
     g_write_window := g_write_window s; g_queries := g_queries s;
     g_query_start := g_query_start s; g_timeout := g_timeout s; g_active := g_active s;
     g_last_activity := now |}.

Definition set_memory (mem peak now : Z) (s : SessionResourceState) : SessionResourceState :=
  {| g_pid := g_pid s; g_pool := g_pool s; g_class := g_class s; g_cpu_time := g_cpu_time s;
     g_cpu_limit := g_cpu_limit s; g_cpu_start := g_cpu_start s; g_memory := mem;
     g_memory_limit := g_memory_limit s; g_peak := peak; g_read := g_read s;
     g_write := g_write s; g_read_limit := g_read_limit s; g_write_limit := g_write_limit s;
     g_io_start := g_io_start s; g_read_window := g_read_window s;
     g_write_window := g_write_window s; g_queries := g_queries s;
     g_query_start := g_query_start s; g_timeout := g_timeout s; g_active := g_active s;
     g_last_activity := now |}.

Definition set_io (r w start rw ww now : Z) (s : SessionResourceState) : SessionResourceState :=
  {| g_pid := g_pid s; g_pool := g_pool s; g_class := g_class s; g_cpu_time := g_cpu_time s;
     g_cpu_limit := g_cpu_limit s; g_cpu_start := g_cpu_start s; g_memory := g_memory s;
     g_memory_limit := g_memory_limit s; g_peak := g_peak s; g_read := r; g_write := w;
     g_read_limit := g_read_limit s; g_write_limit := g_write_limit s; g_io_start := start;
     g_read_window := rw; g_write_window := ww; g_queries := g_queries s;
     g_query_start := g_query_start s; g_timeout := g_timeout s; g_active := g_active s;
     g_last_activity := now |}.

Definition set_query (start timeout : Z) (s : SessionResourceState) : SessionResourceState :=
  {| g_pid := g_pid s; g_pool := g_pool s; g_class := g_class s; g_cpu_time := g_cpu_time s;
     g_cpu_limit := g_cpu_limit s; g_cpu_start := g_cpu_start s; g_memory := g_memory s;
     g_memory_limit := g_memory_limit s; g_peak := g_peak s; g_read := g_read s;
     g_write := g_write s; g_read_limit := g_read_limit s; g_write_limit := g_write_limit s;
     g_io_start := g_io_start s; g_read_window := g_read_window s;
     g_write_window := g_write_window s; g_queries := g_queries s; g_query_start := start;
     g_timeout := timeout; g_active := g_active s; g_last_activity := g_last_activity s |}.

Definition set_limits_of (pool class : Z) (l : option ResourceLimits) (s : SessionResourceState)
    : SessionResourceState :=
  let pick (f : ResourceLimits → Z) (old : Z) := match l with Some l => f l | None => old end in
  {| g_pid := g_pid s; g_pool := pool; g_class := class; g_cpu_time := g_cpu_time s;
     g_cpu_limit := pick (λ l, if (0 <? cpu_percent l) && (cpu_percent l <? 100)
                               then Z.quot (cpu_percent l * 1000000) 100 else 0) (g_cpu_limit s);
     g_cpu_start := g_cpu_start s; g_memory := g_memory s;
     g_memory_limit := pick (λ l, i64 (memory_mb l * 1024 * 1024)) (g_memory_limit s);
     g_peak := g_peak s; g_read := g_read s; g_write := g_write s;
     g_read_limit := pick (λ l, i64 (io_read_mbps l * 1024 * 1024)) (g_read_limit s);
     g_write_limit := pick (λ l, i64 (io_write_mbps l * 1024 * 1024)) (g_write_limit s);
     g_io_start := g_io_start s; g_read_window := g_read_window s;
     g_write_window := g_write_window s; g_queries := g_queries s;
     g_query_start := g_query_start s; g_timeout := pick query_timeout_ms (g_timeout s);
     g_active := g_active s; g_last_activity := g_last_activity s |}.

Definition reset_stats (now : Z) (s : SessionResourceState) : SessionResourceState :=
  {| g_pid := g_pid s; g_pool := g_pool s; g_class := g_class s; g_cpu_time := 0;
     g_cpu_limit := g_cpu_limit s; g_cpu_start := now; g_memory := 0;
     g_memory_limit := g_memory_limit s; g_peak := 0; g_read := 0; g_write := 0;
     g_read_limit := g_read_limit s; g_write_limit := g_write_limit s; g_io_start := now;
     g_read_window := 0; g_write_window := 0; g_queries := g_queries s;
     g_query_start := g_query_start s; g_timeout := g_timeout s; g_active := g_active s;
     g_last_activity := g_last_activity s |}.

Definition with_table (g : GovernorSharedState) (l : list SessionResourceState) (n : Z)
    : GovernorSharedState :=
  {| g_sessions := l; g_num_sessions := n; total_cpu_time_us := total_cpu_time_us g;
     total_memory_bytes := total_memory_bytes g; total_io_bytes := total_io_bytes g |}.

Definition with_totals (g : GovernorSharedState) (cpu mem io : Z) : GovernorSharedState :=
  {| g_sessions := g_sessions g; g_num_sessions := g_num_sessions g; total_cpu_time_us := cpu;
     total_memory_bytes := mem; total_io_bytes := io |}.

Definition put (g : GovernorSharedState) (i : nat) (s : SessionResourceState)
    : GovernorSharedState := with_table g (<[i := s]> (g_sessions g)) (g_num_sessions g).

(** ** The table of sessions *)

Definition find_session_state (g : GovernorSharedState) (pid : Z)
    : option (nat * SessionResourceState) :=
  list_find (λ s, g_pid s = pid ∧ g_active s = true) (g_sessions g).

Definition stale (now : Z) (s : SessionResourceState) : bool :=
  g_active s && (g_last_activity s <? i64 (now - 300000 * 1000)) && (g_queries s =? 0).

(** One step of the loop of [cleanup_inactive_sessions], at slot [i]. *)
Definition cleanup_slot (now : Z) (g : GovernorSharedState) (i : nat) : GovernorSharedState :=
  match g_sessions g !! i with
  | Some s =>
      if stale now s
      then with_totals (with_table g (<[i := set_inactive s]> (g_sessions g)) (i32 (g_num_sessions g - 1)))
             (total_cpu_time_us g) (i64 (total_memory_bytes g - g_memory s)) (total_io_bytes g)
      else g
  | None => g
  end.

Definition cleanup_inactive_sessions (g : GovernorSharedState) (now : Z) : GovernorSharedState :=
  foldl (cleanup_slot now) g (seq 0 MAX_TRACKED_SESSIONS).

Definition create_session_state (g : GovernorSharedState) (pid now : Z)
    : option (GovernorSharedState * (nat * SessionResourceState)) :=
  '(i, _) ← list_find (λ s, g_active s = false) (g_sessions g);
  Some (with_table g (<[i := fresh_state pid now]> (g_sessions g)) (i32 (g_num_sessions g + 1)),
        (i, fresh_state pid now)).

Definition find_or_create_session_state (g : GovernorSharedState) (pid now : Z)
    : GovernorSharedState * option (nat * SessionResourceState) :=
  match find_session_state g pid with
  | Some found => (g, Some found)
  | None =>
      match create_session_state g pid now with
      | Some (g, created) => (g, Some created)
      | None =>
          let g := cleanup_inactive_sessions g now in
          match create_session_state g pid now with
          | Some (g, created) => (g, Some created)
          | None => (g, None)
          end
      end
  end.

(** The time since [start] in milliseconds. *)
Definition elapsed_ms (now start : Z) : Z := Z.quot (i64 (now - start)) 1000.

(** ** Limits of pools *)

Definition get_pool_cpu_limit (st : WorkloadSharedState) (id : Z) : Z :=
  match orochi_get_resource_pool st id with
  | Some p => let c := cpu_percent (limits p) in
              if (0 <? c) && (c <? 100) then Z.quot (c * 1000000) 100 else 0
  | None => 0
  end.
Definition get_pool_memory_limit (st : WorkloadSharedState) (id : Z) : Z :=
  match orochi_get_resource_pool st id with
  | Some p => if 0 <? memory_mb (limits p) then i64 (memory_mb (limits p) * 1024 * 1024) else 0
  | None => 0
  end.
Definition get_pool_io_limit (st : WorkloadSharedState) (id : Z) (is_write : bool) : Z :=
  match orochi_get_resource_pool st id with
  | Some p => let m := if is_write then io_write_mbps (limits p) else io_read_mbps (limits p) in
              if 0 <? m then i64 (m * 1024 * 1024) else 0
  | None => 0
  end.
Definition get_pool_concurrency_limit (st : WorkloadSharedState) (id : Z) : Z :=
  default 0 (max_concurrency ∘ limits <$> orochi_get_resource_pool st id).

Definition orochi_governor_can_start_query (st : WorkloadSharedState) (id : Z) : bool :=
  match orochi_get_resource_pool st id with
  | Some p => if 0 <? max_concurrency (limits p) then active_queries p <? max_concurrency (limits p)
              else true
  | None => true
  end.
Definition orochi_governor_get_active_queries (st : WorkloadSharedState) (id : Z) : Z :=
  default 0 (active_queries <$> orochi_get_resource_pool st id).

(** ** Operations *)

(** Changes the session of a process, made if there is none. *)
Definition with_session (g : option GovernorSharedState) (pid now : Z)
    (f : GovernorSharedState → nat → SessionResourceState → GovernorSharedState)
    : option GovernorSharedState :=
  match g with
  | None => None
  | Some g =>
      match find_or_create_session_state g pid now with
      | (g, Some (i, s)) => Some (f g i s)
      | (g, None) => Some g
      end
  end.

(** Changes the session of a process if there is one. *)
Definition with_existing (g : option GovernorSharedState) (pid : Z)
    (f : GovernorSharedState → nat → SessionResourceState → GovernorSharedState)
    : option GovernorSharedState :=
  match g with
  | None => None
  | Some g =>
      match find_session_state g pid with
      | Some (i, s) => Some (f g i s)
      | None => Some g
      end
  end.

(** A query about the session of a process. *)
Definition ask {A} (g : option GovernorSharedState) (pid : Z) (none : A)
    (f : SessionResourceState → A) : A :=
  match g ≫= λ g, find_session_state g pid with Some (_, s) => f s | None => none end.

Definition orochi_governor_track_cpu (g : option GovernorSharedState) (pid cpu now : Z) :=
  with_session g pid now (λ g i s,
    let start := if CPU_WINDOW_MS <=? elapsed_ms now (g_cpu_start s) then now else g_cpu_start s in
    with_totals (put g i (set_cpu (i64 (g_cpu_time s + cpu)) start now s))
      (i64 (total_cpu_time_us g + cpu)) (total_memory_bytes g) (total_io_bytes g)).

Definition orochi_governor_check_cpu_limit (g : option GovernorSharedState) (pid : Z) : bool :=
  ask g pid false (λ s, (0 <? g_cpu_limit s) && (g_cpu_limit s <=? g_cpu_time s)).

Definition orochi_governor_get_cpu_usage (g : option GovernorSharedState) (pid : Z) : Z :=
  ask g pid 0 g_cpu_time.

Definition memory_fits (s : SessionResourceState) (bytes : Z) : bool :=
  negb ((0 <? g_memory_limit s) && (g_memory_limit s <? i64 (g_memory s + bytes))).

Definition take_memory (bytes now : Z) (g : GovernorSharedState) (i : nat) (s : SessionResourceState)
    : GovernorSharedState :=
  let mem := i64 (g_memory s + bytes) in
  with_totals (put g i (set_memory mem (Z.max (g_peak s) mem) now s))
    (total_cpu_time_us g) (i64 (total_memory_bytes g + bytes)) (total_io_bytes g).

(** The limit of the pool is read and not used. *)
Definition orochi_governor_request_memory (g : option GovernorSharedState) (pid bytes now : Z)
    : option GovernorSharedState * bool :=
  match g with
  | None => (None, true)
  | Some g0 =>
      if bytes <=? 0 then (g, true) else
      match find_or_create_session_state g0 pid now with
      | (g, None) => (Some g, true)
      | (g, Some (i, s)) =>
          if memory_fits s bytes then (Some (take_memory bytes now g i s), true) else (Some g, false)
      end
  end.

Definition orochi_governor_release_memory (g : option GovernorSharedState) (pid bytes now : Z) :=
  if bytes <=? 0 then g
  else with_existing g pid (λ g i s,
    with_totals (put g i (set_memory (Z.max 0 (i64 (g_memory s - bytes))) (g_peak s) now s))
      (total_cpu_time_us g) (Z.max 0 (i64 (total_memory_bytes g - bytes))) (total_io_bytes g)).

Definition orochi_governor_check_memory_limit (g : option GovernorSharedState) (pid : Z) : bool :=
  ask g pid false (λ s, (0 <? g_memory_limit s) && (g_memory_limit s <=? g_memory s)).

Definition orochi_governor_get_memory_usage (g : option GovernorSharedState) (pid : Z) : Z :=
  ask g pid 0 g_memory.

Definition io_limit (is_write : bool) (s : SessionResourceState) : Z :=
  if is_write then g_write_limit s else g_read_limit s.
Definition io_window (is_write : bool) (s : SessionResourceState) : Z :=
  if is_write then g_write_window s else g_read_window s.

Definition io_allowed (bytes : Z) (is_write : bool) (now : Z) (s : SessionResourceState) : bool :=
  if 0 <? io_limit is_write s
  then let ms := Z.max 1 (elapsed_ms now (g_io_start s)) in
       i64 (io_window is_write s + bytes) <=? Z.quot (i64 (io_limit is_write s * ms)) 1000
  else true.

Definition orochi_governor_check_io_limit (g : option GovernorSharedState) (pid bytes : Z)
    (is_write : bool) (now : Z) : bool :=
  if bytes <=? 0 then true else ask g pid true (io_allowed bytes is_write now).

Definition io_tracked (bytes : Z) (is_write : bool) (now : Z) (s : SessionResourceState)
    : SessionResourceState :=
  let renew := IO_WINDOW_MS <=? elapsed_ms now (g_io_start s) in
  let rw := if renew then 0 else g_read_window s in
  let ww := if renew then 0 else g_write_window s in
  let start := if renew then now else g_io_start s in
  if is_write
  then set_io (g_read s) (i64 (g_write s + bytes)) start rw (i64 (ww + bytes)) now s
  else set_io (i64 (g_read s + bytes)) (g_write s) start (i64 (rw + bytes)) ww now s.

Definition orochi_governor_track_io (g : option GovernorSharedState) (pid bytes : Z)
    (is_write : bool) (now : Z) :=
  if bytes <=? 0 then g
  else with_session g pid now (λ g i s,
    with_totals (put g i (io_tracked bytes is_write now s))
      (total_cpu_time_us g) (total_memory_bytes g) (i64 (total_io_bytes g + bytes))).

Definition orochi_governor_check_timeout (g : option GovernorSharedState) (pid now : Z) : bool :=
  ask g pid false (λ s, (0 <? g_timeout s) && negb (g_query_start s =? 0)
                        && (g_timeout s <=? elapsed_ms now (g_query_start s))).

Definition orochi_governor_set_timeout (g : option GovernorSharedState) (pid timeout now : Z) :=
  with_session g pid now (λ g i s, put g i (set_query now timeout s)).

Definition orochi_governor_clear_timeout (g : option GovernorSharedState) (pid : Z) :=
  with_existing g pid (λ g i s, put g i (set_query 0 (g_timeout s) s)).

(** Processor time, memory, I/O and the number of sessions. *)
Definition orochi_governor_get_stats (g : option GovernorSharedState) : Z * Z * Z * Z :=
  match g with
  | None => (0, 0, 0, 0)
  | Some g => (total_cpu_time_us g, total_memory_bytes g, total_io_bytes g, g_num_sessions g)
  end.

Definition orochi_governor_reset_session_stats (g : option GovernorSharedState) (pid now : Z) :=
  with_existing g pid (λ g i s,
    with_totals (put g i (reset_stats now s))
      (i64 (total_cpu_time_us g - g_cpu_time s)) (i64 (total_memory_bytes g - g_memory s))
      (total_io_bytes g)).

Definition orochi_governor_set_session_limits (g : option GovernorSharedState)
    (pid pool class : Z) (l : option ResourceLimits) (now : Z) :=
  with_session g pid now (λ g i s, put g i (set_limits_of pool class l s)).

(** ** Bounds on I/O *)

Definition io_total (is_write : bool) (s : SessionResourceState) : Z :=
  if is_write then g_write s else g_read s.

(** A backend that asks before each transfer and does without if it is refused. *)
Definition paced_io (pid : Z) (g : option GovernorSharedState) (event : Z * Z * bool)
    : option GovernorSharedState :=
  let '(now, bytes, is_write) := event in
  if orochi_governor_check_io_limit g pid bytes is_write now
  then orochi_governor_track_io g pid bytes is_write now else g.

(** Times do not decrease from [last] to [until], and sizes are positive. *)
Fixpoint in_order (last until : Z) (events : list (Z * Z * bool)) : Prop :=
  match events with
  | [] => last ≤ until
  | (now, bytes, _) :: events =>
      last ≤ now ≤ until ∧ 0 < bytes ≤ 2 ^ 62 ∧ in_order now until events
  end.

Lemma find_put g pid i s s' cpu mem io :
  find_session_state g pid = Some (i, s) → g_pid s' = g_pid s → g_active s' = g_active s →
  find_session_state (with_totals (put g i s') cpu mem io) pid = Some (i, s').
Proof.
  intros (Hi & [HP HA] & Hm)%list_find_Some Hp Ha. unfold find_session_state, put. cbn.
  apply list_find_Some. split_and!.
  - apply list_lookup_insert_eq. by eapply lookup_lt_Some.
  - congruence.
  - congruence.
  - intros j y Hj Hlt. rewrite list_lookup_insert_ne in Hj by lia. by apply (Hm j).
Qed.

Lemma elapsed_div now start :
  0 ≤ start ≤ now → now < 2 ^ 63 → elapsed_ms now start = (now - start) / 1000.
Proof.
  intros. unfold elapsed_ms. rewrite swrap_id by (done || split; lia).
  apply Z.quot_div_nonneg; lia.
Qed.

Section pace.
Context (d : bool) (L t0 base until : Z).
Hypothesis HL : 0 < L.
Hypothesis Ht0 : 0 ≤ t0.
Hypothesis Hbase : 0 ≤ base < 2 ^ 62.
Hypothesis Huntil : until < 2 ^ 62.
Hypothesis Hfits : L * (until - t0 + 1000) ≤ 2 ^ 62.

(** What has been transferred since [t0] when the last event was at [last]: what
    earlier windows took is within the limit of their time, and all of it within the
    limit of the time or of the first millisecond of the window. *)
Record paid (last : Z) (s : SessionResourceState) : Prop := {
  paid_limit : io_limit d s = L;
  paid_times : t0 ≤ g_io_start s ≤ last ∧ last ≤ until;
  paid_window : 0 ≤ io_window d s < 2 ^ 62;
  paid_total : base ≤ io_total d s;
  paid_before : (io_total d s - base - io_window d s) * 1000000 ≤ L * (g_io_start s - t0);
  paid_all : (io_total d s - base) * 1000000 ≤ L * (Z.max (g_io_start s + 1000) last - t0) }.

Lemma paid_small last s : paid last s → 0 ≤ io_total d s - base ≤ 2 ^ 43.
Proof.
  intros []. split; [lia|].
  assert (Z.max (g_io_start s + 1000) last - t0 ≤ until - t0 + 1000) by lia.
  assert (L * (Z.max (g_io_start s + 1000) last - t0) ≤ L * (until - t0 + 1000)) by nia. lia.
Qed.

(** The check passes if the window and the transfer are within the limit. *)
Lemma io_allowed_spec bytes now last s :
  paid last s → last ≤ now ≤ until → 0 < bytes ≤ 2 ^ 62 → io_allowed bytes d now s = true →
  let ms := Z.max 1 ((now - g_io_start s) / 1000) in (io_window d s + bytes) * 1000 ≤ L * ms.
Proof.
  intros Hp Hn Hb. pose proof (paid_small last s Hp). destruct Hp. unfold io_allowed.
  rewrite paid_limit0. destruct (Z.ltb_spec 0 L); [|lia]. cbn zeta.
  rewrite elapsed_div by lia. set (ms := Z.max 1 _).
  assert (Hms : 0 < ms ∧ ms * 1000 ≤ now - g_io_start s + 1000).
  { subst ms. pose proof (Z.div_mod (now - g_io_start s) 1000 ltac:(lia)).
    pose proof (Z.mod_pos_bound (now - g_io_start s) 1000 ltac:(lia)). lia. }
  assert (L * (now - g_io_start s + 1000) ≤ L * (until - t0 + 1000)) by nia.
  assert (0 ≤ L * ms ≤ 2 ^ 62) by nia.
  rewrite !swrap_id by (done || split; lia). rewrite Z.leb_le, Z.quot_div_nonneg by lia.
  intros Hle. pose proof (Z.mul_div_le (L * ms) 1000 ltac:(lia)). lia.
Qed.

Lemma paid_wait last now s : paid last s → last ≤ now ≤ until → paid now s.
Proof. intros [] ?. constructor; try done; [lia|nia]. Qed.

(** The fields of a tracked session that concern the direction [d]. *)
Lemma tracked_fields bytes w now s :
  let renew := IO_WINDOW_MS <=? elapsed_ms now (g_io_start s) in
  let s' := io_tracked bytes w now s in
  let b := if decide (w = d) then bytes else 0 in
  io_limit d s' = io_limit d s ∧ g_io_start s' = (if renew then now else g_io_start s) ∧
  (in_i 64 (io_window d s) → io_window d s' = i64 ((if renew then 0 else io_window d s) + b)) ∧
  (in_i 64 (io_total d s) → io_total d s' = i64 (io_total d s + b)).
Proof.
  cbn zeta. unfold io_tracked, io_limit, io_window, io_total.
  destruct (IO_WINDOW_MS <=? _), w, d; cbn; split_and!; try done; intros;
    by rewrite Z.add_0_r, ?swrap_id by done.
Qed.

Lemma paid_tracked bytes w now last s :
  paid last s → last ≤ now ≤ until → 0 < bytes ≤ 2 ^ 62 → io_allowed bytes w now s = true →
  paid now (io_tracked bytes w now s).
Proof.
  intros Hp Hn Hb Ha. pose proof (paid_small last s Hp) as Hsm.
  assert (Hspec : w = d → (io_window d s + bytes) * 1000 ≤ L * Z.max 1 ((now - g_io_start s) / 1000)).
  { intros ->. by apply (io_allowed_spec bytes now last s). }
  pose proof (Z.div_mod (now - g_io_start s) 1000 ltac:(lia)) as Hdm.
  pose proof (Z.mod_pos_bound (now - g_io_start s) 1000 ltac:(lia)) as Hmb.
  destruct (tracked_fields bytes w now s) as (El & Es & Ew & Et).
  destruct Hp. rewrite elapsed_div in * by lia. unfold IO_WINDOW_MS in *.
  assert (Hin : ∀ z, 0 ≤ z ≤ 2 ^ 62 + 2 ^ 62 - 1 → in_i 64 z) by (intros z Hz; split; lia).
  specialize (Ew (Hin (io_window d s) ltac:(lia))). specialize (Et (Hin (io_total d s) ltac:(lia))).
  set (ms := (now - g_io_start s) / 1000) in *. set (s' := io_tracked bytes w now s) in *.
  set (b := if decide (w = d) then bytes else 0) in *.
  assert (Hbb : 0 ≤ b ≤ bytes ∧ (b ≠ 0 → (io_window d s + b) * 1000 ≤ L * Z.max 1 ms)).
  { subst b. case_decide; [|lia]. auto with lia. }
  assert (Hmono : ∀ x y, x ≤ y → L * x ≤ L * y) by (intros; apply Z.mul_le_mono_nonneg_l; lia).
  assert (Hnew : (io_total d s - base + b) * 1000000 ≤ L * (Z.max (g_io_start s + 1000) now - t0)).
  { destruct (decide (b = 0)) as [->|Hb0].
    - pose proof (Hmono (Z.max (g_io_start s + 1000) last - t0) (Z.max (g_io_start s + 1000) now - t0) ltac:(lia)).
      lia.
    - destruct Hbb as [_ Hbb]. specialize (Hbb Hb0).
      pose proof (Hmono (Z.max 1 ms * 1000) (Z.max (g_io_start s + 1000) now - g_io_start s) ltac:(lia)).
      lia. }
  assert (Hcap : L * (Z.max (g_io_start s + 1000) now - t0) ≤ 2 ^ 62).
  { pose proof (Hmono (Z.max (g_io_start s + 1000) now - t0) (until - t0 + 1000) ltac:(lia)). lia. }
  rewrite swrap_id in Et by (done || split; lia).
  assert (Hw : io_window d s' = (if 1000 <=? ms then 0 else io_window d s) + b).
  { rewrite Ew. apply swrap_id; [done|]. destruct (1000 <=? ms); split; lia. }
  assert (Hroom : 0 ≤ io_window d s + b < 2 ^ 62 ∧ b < 2 ^ 62).
  { destruct (decide (b = 0)) as [->|Hb0]; [lia|]. destruct Hbb as [? Hbb]. specialize (Hbb Hb0).
    pose proof (Hmono (Z.max 1 ms) (Z.max (g_io_start s + 1000) now - t0) ltac:(lia)). lia. }
  destruct (Z.leb_spec 1000 ms) as [Hr|Hr]; constructor; rewrite ?El, ?Es, ?Et, ?Hw;
    try lia; try done.
Qed.

Lemma paid_paced pid i last g s now bytes w :
  find_session_state g pid = Some (i, s) → paid last s → last ≤ now ≤ until →
  0 < bytes ≤ 2 ^ 62 →
  ∃ g' s', paced_io pid (Some g) (now, bytes, w) = Some g' ∧
    find_session_state g' pid = Some (i, s') ∧ paid now s'.
Proof.
  intros Hf Hp Hn Hb. unfold paced_io, orochi_governor_check_io_limit, orochi_governor_track_io, ask.
  destruct (Z.leb_spec bytes 0); [lia|]. cbn. rewrite Hf.
  destruct (io_allowed bytes w now s) eqn:Ea.
  - unfold find_or_create_session_state. rewrite Hf. eexists _, (io_tracked bytes w now s).
    split_and!; [done| |by eapply paid_tracked].
    apply (find_put g pid i s); [done|..]; unfold io_tracked; by destruct w.
  - eexists _, s. split_and!; [done..|]. by eapply paid_wait.
Qed.

Lemma paid_run pid i events : ∀ g s last,
  find_session_state g pid = Some (i, s) → paid last s → in_order last until events →
  ∃ g' s' last', foldl (paced_io pid) (Some g) events = Some g' ∧
    find_session_state g' pid = Some (i, s') ∧ paid last' s'.
Proof.
  induction events as [|[[now bytes] w] events IH]; intros g s last Hf Hp Ho; [by eexists _, _, _|].
  destruct Ho as (Hn & Hb & Ho).
  destruct (paid_paced pid i last g s now bytes w Hf Hp Hn Hb) as (g' & s' & Eg & Hf' & Hp').
  change (foldl (paced_io pid) (Some g) ((now, bytes, w) :: events))
    with (foldl (paced_io pid) (paced_io pid (Some g) (now, bytes, w)) events).
  rewrite Eg. by apply (IH g' s' now).
Qed.
End pace.

Lemma in_order_until events : ∀ last until, in_order last until events → last ≤ until.
Proof.
  induction events as [|[[now bytes] w] events IH]; intros last until; [done|]. cbn.
  intros (? & _ & H). apply IH in H. lia.
Qed.

(** C21: a backend that asks the governor before each transfer does not exceed its rate in the
    long run.  Take any moment, and the window that is current then, with whatever has been
    transferred in it: from then to any later time, the backend transfers in a direction at most
    what its limit allows for the time since that window began and one millisecond more, whatever
    it does in the other direction.  (The time before the moment counts, since a window does not
    end by itself: what was not used of it can be used later, see [idle_time_is_saved_up].) *)
Theorem io_rate_bounded (d : bool) (pid until : Z) (g : GovernorSharedState) (i : nat)
    (s : SessionResourceState) (events : list (Z * Z * bool)) :
  find_session_state g pid = Some (i, s) →
  0 < io_limit d s → 0 ≤ io_window d s < 2 ^ 62 → 0 ≤ g_io_start s → 0 ≤ io_total d s < 2 ^ 62 →
  in_order (g_io_start s) until events → until < 2 ^ 62 →
  io_limit d s * (until - g_io_start s + 1000) ≤ 2 ^ 62 →
  ∃ g' s', foldl (paced_io pid) (Some g) events = Some g' ∧
    find_session_state g' pid = Some (i, s') ∧
    (io_total d s' - io_total d s) * 1000000 ≤ io_limit d s * (until - g_io_start s + 1000).
Proof.
  intros Hf HL Hw H0 Hb Ho Hu Hfit. pose proof (in_order_until _ _ _ Ho).
  destruct (paid_run d (io_limit d s) (g_io_start s) (io_total d s) until HL H0 Hb Hu Hfit pid i events g s
              (g_io_start s) Hf) as (g' & s' & last & Eg & Hf' & Hp); [|done|].
  { constructor; [done|lia|lia|lia|lia|]. rewrite Z.sub_diag. cbn. apply Z.mul_nonneg_nonneg; lia. }
  eexists _, _. split_and!; [done..|]. destruct Hp.
  transitivity (io_limit d s * (Z.max (g_io_start s' + 1000) last - g_io_start s)); [done|].
  apply Z.mul_le_mono_nonneg_l; lia.
Qed.

Definition governed (now : Z) : option GovernorSharedState :=
  orochi_governor_set_session_limits (orochi_governor_init None) 7 1 0
    (Some {| cpu_percent := 50; memory_mb := 1; io_read_mbps := 1; io_write_mbps := 0;
             max_concurrency := 0; max_queue_size := 0; query_timeout_ms := 0;
             idle_timeout_ms := 0 |}) now.

(** The session after it has read some of its window. *)
Definition governed_reader : option GovernorSharedState :=
  orochi_governor_track_io (governed 1000000) 7 700 false 1000700.

Lemma io_rate_bounded_witness :
  ∃ g i s, governed_reader = Some g ∧ find_session_state g 7 = Some (i, s) ∧ io_window false s = 700 ∧
    ∃ g' s', foldl (paced_io 7) (Some g)
               [(1000900, 348, false); (1000900, 5, false); (3000000, 9, true); (3000000, 200000, false)]
             = Some g' ∧
      find_session_state g' 7 = Some (i, s') ∧
      (io_total false s' - io_total false s) * 1000000
        ≤ io_limit false s * (4000000 - g_io_start s + 1000).
Proof.
  eexists _, _, _. split; [vm_compute; reflexivity|]. split; [vm_compute; reflexivity|]. split; [done|].
  eapply io_rate_bounded.
  - vm_compute; reflexivity.
  - done.
  - done.
  - done.
  - done.
  - cbn. lia.
  - done.
  - done.
Defined.

(** ** Finding the session again *)

Lemma create_found g pid now g' i s :
  find_session_state g pid = None → create_session_state g pid now = Some (g', (i, s)) →
  find_session_state g' pid = Some (i, s) ∧ s = fresh_state pid now.
Proof.
  intros Hn Hc. unfold create_session_state in Hc.
  apply bind_Some in Hc as ([j old] & Hj & [= <- <- <-]). split; [|done].
  apply list_find_Some in Hj as (Hj & _ & _). unfold find_session_state. cbn.
  apply list_find_Some. split_and!; [|done..|].
  - apply list_lookup_insert_eq. by eapply lookup_lt_Some.
  - intros k y Hk Hlt. rewrite list_lookup_insert_ne in Hk by lia.
    apply list_find_None in Hn. rewrite Forall_forall in Hn. apply Hn. by eapply list_elem_of_lookup_2.
Qed.

Lemma cleanup_keeps_absent g now pid :
  find_session_state g pid = None → find_session_state (cleanup_inactive_sessions g now) pid = None.
Proof.
  unfold cleanup_inactive_sessions. generalize (seq 0 MAX_TRACKED_SESSIONS). intros l.
  revert g. induction l as [|i l IH]; intros g Hn; [done|]. cbn [foldl]. apply IH.
  unfold cleanup_slot. destruct (g_sessions g !! i) as [s|] eqn:Ei; [|done].
  destruct (stale now s); [|done]. unfold find_session_state in *. cbn.
  apply list_find_None. apply list_find_None in Hn. by apply Forall_insert; [|intros [_ ?]].
Qed.

(** The session that an operation works on is found afterwards. *)
Lemma find_or_create_found g pid now g' i s :
  find_or_create_session_state g pid now = (g', Some (i, s)) →
  find_session_state g' pid = Some (i, s).
Proof.
  unfold find_or_create_session_state. destruct (find_session_state g pid) as [[j t]|] eqn:Ef.
  - by intros [= <- <- <-].
  - destruct (create_session_state g pid now) as [[g1 [j t]]|] eqn:Ec.
    + intros [= <- <- <-]. by eapply create_found.
    + destruct (create_session_state (cleanup_inactive_sessions g now) pid now) as [[g1 [j t]]|] eqn:Ec';
        [|done]. intros [= <- <- <-]. eapply create_found; [|done]. by apply cleanup_keeps_absent.
Qed.

(** ** Memory *)

Inductive MemoryOp := Request (bytes : Z) | Release (bytes : Z).

Definition memory_op (pid now : Z) (g : option GovernorSharedState) (op : MemoryOp)
    : option GovernorSharedState :=
  match op with
  | Request bytes => fst (orochi_governor_request_memory g pid bytes now)
  | Release bytes => orochi_governor_release_memory g pid bytes now
  end.

Definition op_bytes (op : MemoryOp) : Z := match op with Request b | Release b => b end.

Definition memory_ok (limit : Z) (s : SessionResourceState) : Prop :=
  g_memory_limit s = limit ∧ 0 ≤ g_memory s ≤ limit ∧ g_memory s ≤ g_peak s.

Lemma memory_op_ok pid now g i s limit op :
  find_session_state g pid = Some (i, s) → memory_ok limit s → 0 < limit ≤ 2 ^ 62 →
  op_bytes op < 2 ^ 62 →
  ∃ g' s', memory_op pid now (Some g) op = Some g' ∧
    find_session_state g' pid = Some (i, s') ∧ memory_ok limit s'.
Proof.
  intros Hf (Hl & Hm & Hp) Hlim Hb. destruct op as [b|b]; cbn in Hb |- *.
  - unfold orochi_governor_request_memory. destruct (Z.leb_spec b 0); [by eexists _, _|].
    unfold find_or_create_session_state. rewrite Hf. unfold memory_fits.
    destruct_if; [|by eexists _, _]. eexists _, _. split_and!; [done|by eapply find_put|].
    apply negb_true_iff, andb_false_iff in E. unfold memory_ok. cbn.
    rewrite swrap_id in * by (done || split; lia).
    rewrite Hl in E. split_and!; [done|lia|destruct E; lia|lia].
  - unfold orochi_governor_release_memory. destruct (Z.leb_spec b 0); [by eexists _, _|].
    cbn. rewrite Hf. eexists _, _. split_and!; [done|by eapply find_put|].
    unfold memory_ok. cbn. rewrite swrap_id by (done || split; lia). split_and!; [done|lia..].
Qed.

(** However a session requests and releases memory, it holds at most its limit, and
    its peak is at least what it holds, as long as no single request is of 2^62 bytes
    or more. *)
Theorem memory_within_limit (pid now limit : Z) (ops : list MemoryOp) (i : nat) :
  0 < limit ≤ 2 ^ 62 → Forall (λ op, op_bytes op < 2 ^ 62) ops →
  ∀ g s, find_session_state g pid = Some (i, s) → memory_ok limit s →
  ∃ g' s', foldl (memory_op pid now) (Some g) ops = Some g' ∧
    find_session_state g' pid = Some (i, s') ∧ memory_ok limit s'.
Proof.
  intros Hl Hops. induction Hops as [|op ops Hop Hops IH]; intros g s Hf Hs; [by eexists _, _|].
  destruct (memory_op_ok pid now g i s limit op Hf Hs Hl Hop) as (g' & s' & Eg & Hf' & Hs').
  cbn [foldl]. rewrite Eg. by apply (IH g' s').
Qed.

Lemma memory_within_limit_witness :
  ∃ g i s, governed 5 = Some g ∧ find_session_state g 7 = Some (i, s) ∧
    ∃ g' s', foldl (memory_op 7 6) (Some g) [Request 1000000; Request 100000; Release 5; Request 48000]
             = Some g' ∧
      find_session_state g' 7 = Some (i, s') ∧ memory_ok 1048576 s'.
Proof.
  eexists _, _, _. split; [vm_compute; reflexivity|]. split; [vm_compute; reflexivity|].
  eapply memory_within_limit; [done|by repeat constructor|vm_compute; reflexivity|].
  split_and!; done.
Defined.

(** The sum with a huge request wraps around, and the request is granted. *)
Theorem huge_request_granted :
  let g := fst (orochi_governor_request_memory (governed 5) 7 1000 6) in
  snd (orochi_governor_request_memory g 7 INT64_MAX 7) = true.
Proof. vm_compute. reflexivity. Qed.

(** A session that releases more than it holds takes the difference off the total of
    all: here another session still holds 500 bytes. *)
Theorem total_memory_lost :
  let g := fst (orochi_governor_request_memory (governed 5) 8 500 6) in
  let g := orochi_governor_release_memory g 7 500 7 in
  orochi_governor_get_memory_usage g 8 = 500 ∧
  (let '(_, mem, _, _) := orochi_governor_get_stats g in mem) = 0.
Proof. split; vm_compute; reflexivity. Qed.

(** The limit of processor time, half of every second, is compared with all the time
    used so far: two hours after half a second was used up, it is still exceeded. *)
Theorem cpu_limit_never_resets :
  let g := orochi_governor_track_cpu (governed 5) 7 500000 1000000 in
  let g := orochi_governor_track_cpu g 7 1 7200000000 in
  orochi_governor_check_cpu_limit g 7 = true.
Proof. vm_compute. reflexivity. Qed.

(** After an hour without I/O, a session may transfer an hour's worth at once. *)
Theorem idle_time_is_saved_up :
  orochi_governor_check_io_limit (governed 0) 7 (3600 * 1048576) false 3600000000 = true.
Proof. vm_compute. reflexivity. Qed.

(** The table with the session of process 7, limited to a megabyte, and 1023 others. *)
Definition full_table : GovernorSharedState :=
  let limits := {| cpu_percent := 0; memory_mb := 1; io_read_mbps := 0; io_write_mbps := 0;
                   max_concurrency := 0; max_queue_size := 0; query_timeout_ms := 0;
                   idle_timeout_ms := 0 |} in
  {| g_sessions := set_limits_of 1 0 (Some limits) (fresh_state 7 5)
                   :: map (λ k, fresh_state k 5) (seqZ 1000 1023);
     g_num_sessions := 1024; total_cpu_time_us := 0; total_memory_bytes := 0; total_io_bytes := 0 |}.

(** In a full table, sessions that were idle for five minutes are removed with their
    limits, and run without them when they come back. *)
Theorem limits_forgotten :
  snd (orochi_governor_request_memory (Some full_table) 7 2000000 400000000) = false ∧
  snd (orochi_governor_request_memory
         (orochi_governor_track_cpu (Some full_table) 9 1 400000000) 7 2000000 400000001) = true.
Proof. split; vm_compute; reflexivity. Qed.

(** Nothing calls [orochi_governor_init], and without it nothing is refused. *)
Theorem nothing_governed (pid bytes now : Z) (is_write : bool) :
  snd (orochi_governor_request_memory None pid bytes now) = true ∧
  orochi_governor_check_io_limit None pid bytes is_write now = true ∧
  orochi_governor_check_cpu_limit None pid = false ∧
  orochi_governor_check_memory_limit None pid = false ∧
  orochi_governor_check_timeout None pid now = false.
Proof. split_and!; try done. unfold orochi_governor_check_io_limit. by destruct_if. Qed.

(** ** Timeouts *)

(** A query times out when as many milliseconds have passed as were set. *)
Theorem timeout_spec (g g' : GovernorSharedState) (pid timeout start now : Z) :
  orochi_governor_set_timeout (Some g) pid timeout start = Some g' →
  snd (find_or_create_session_state g pid start) ≠ None →
  0 < start ≤ now → now < 2 ^ 63 → 0 < timeout →
  orochi_governor_check_timeout (Some g') pid now = bool_decide (timeout * 1000 ≤ now - start) ∧
  orochi_governor_check_timeout (orochi_governor_clear_timeout (Some g') pid) pid now = false.
Proof.
  intros Hset Hs Hn Hmax Ht. unfold orochi_governor_set_timeout in Hset. cbn in Hset.
  destruct (find_or_create_session_state g pid start) as [g1 [[i s]|]] eqn:E; [|done].
  injection Hset as <-. apply find_or_create_found in E.
  assert (Hf : find_session_state (put g1 i (set_query start timeout s)) pid
               = Some (i, set_query start timeout s)).
  { by apply (find_put g1 pid i s (set_query start timeout s) (total_cpu_time_us g1)
               (total_memory_bytes g1) (total_io_bytes g1)). }
  set (g2 := put g1 i (set_query start timeout s)) in *. clearbody g2.
  unfold orochi_governor_check_timeout, orochi_governor_clear_timeout, ask. cbn. rewrite Hf. cbn.
  split.
  - rewrite elapsed_div by lia. destruct (Z.ltb_spec 0 timeout); [|lia].
    destruct (Z.eqb_spec start 0); [lia|]. cbn.
    pose proof (Z.div_mod (now - start) 1000 ltac:(lia)).
    pose proof (Z.mod_pos_bound (now - start) 1000 ltac:(lia)).
    symmetry. case_bool_decide; symmetry; [apply Z.leb_le|apply Z.leb_gt]; lia.
  - pose proof (find_put g2 pid i _ (set_query 0 timeout (set_query start timeout s))
      (total_cpu_time_us g2) (total_memory_bytes g2) (total_io_bytes g2) Hf eq_refl eq_refl) as Hf2.
    unfold find_session_state in *. cbn in Hf2 |- *. rewrite Hf2. cbn. by rewrite andb_false_r.
Qed.
