(* ===== verification/CText.v ===== *)
(** * Text as C handles it

    The functions of [ctype.h], [string.h] and [stdlib.h] that the parsers of
    [src/ddl] use, in the C locale, on the characters in front of the terminator. *)
From Stdlib Require Export Ascii.
From stdpp Require Import sets pretty.
From S2P Require Import Prelude.

Local Open Scope Z_scope.

Abbreviation text := (list Ascii.ascii).

Definition str (s : string) : text := String.list_ascii_of_string s.

Definition code (c : Ascii.ascii) : Z := Z.of_N (Ascii.N_of_ascii c).
Definition char (z : Z) : Ascii.ascii := Ascii.ascii_of_N (Z.to_N z).

Definition isspace (c : Ascii.ascii) : bool :=
  (code c =? 32) || ((9 <=? code c) && (code c <=? 13)).
Definition isdigit (c : Ascii.ascii) : bool := (48 <=? code c) && (code c <=? 57).
Definition tolower (c : Ascii.ascii) : Ascii.ascii :=
  if (65 <=? code c) && (code c <=? 90) then char (code c + 32) else c.

(** [while ( *p && f( *p)) p++], and the characters it passes. *)
Fixpoint skip (f : Ascii.ascii → bool) (p : text) : text :=
  match p with c :: q => if f c then skip f q else p | [] => [] end.
Fixpoint span (f : Ascii.ascii → bool) (p : text) : text :=
  match p with c :: q => if f c then c :: span f q else [] | [] => [] end.

Definition skip_spaces : text → text := skip isspace.
Definition nonspace (c : Ascii.ascii) : bool := negb (isspace c).
Definition other (c x : Ascii.ascii) : bool := negb (bool_decide (x = c)).

Definition same_ci (a b : Ascii.ascii) : bool := bool_decide (tolower a = tolower b).

(** [strncasecmp(p, kw, strlen(kw)) == 0]. *)
Fixpoint prefix_ci (kw p : text) : bool :=
  match kw, p with
  | [], _ => true
  | k :: kw, c :: p => same_ci k c && prefix_ci kw p
  | _, [] => false
  end.

(** [strcasecmp(a, b) == 0] and [strncmp(p, kw, strlen(kw)) == 0]. *)
Fixpoint equal_ci (a b : text) : bool :=
  match a, b with
  | [], [] => true
  | x :: a, y :: b => same_ci x y && equal_ci a b
  | _, _ => false
  end.
Definition prefix_of (kw p : text) : bool := bool_decide (take (length kw) p = kw).

(** Skipping a keyword that may be there. *)
Definition skip_keyword (kw p : text) : text :=
  if prefix_ci kw p then drop (length kw) p else p.

(** [strstr(p, s) != NULL]. *)
Fixpoint strstr (s p : text) : bool :=
  prefix_of s p || match p with _ :: q => strstr s q | [] => false end.

(** [while ( *p && strncasecmp(p, kw, strlen(kw)) != 0) p++], and what it passes. *)
Fixpoint until_ci (kw p : text) : text * text :=
  match p with
  | [] => ([], [])
  | c :: q => if prefix_ci kw p then ([], p)
              else let '(a, r) := until_ci kw q in (c :: a, r)
  end.

(** The value of the digits in front; [acc] is that of the ones before. *)
Fixpoint digits (acc : Z) (p : text) : Z :=
  match p with
  | c :: q => if isdigit c then digits (10 * acc + (code c - 48)) q else acc
  | [] => acc
  end.

(** The C standard leaves numbers outside of [int] undefined. *)
Definition atoi (p : text) : outcome Z :=
  let p := skip_spaces p in
  let v := match p with
           | c :: q => if code c =? 45 then - digits 0 q
                       else if code c =? 43 then digits 0 q else digits 0 p
           | [] => 0
           end in
  if (INT32_MIN <=? v) && (v <=? INT32_MAX) then Ok v else Undef.

(** [atol] and [atoll], likewise. *)
Definition atol (p : text) : outcome Z :=
  let p := skip_spaces p in
  let v := match p with
           | c :: q => if code c =? 45 then - digits 0 q
                       else if code c =? 43 then digits 0 q else digits 0 p
           | [] => 0
           end in
  if (INT64_MIN <=? v) && (v <=? INT64_MAX) then Ok v else Undef.

(** [%d], [%ld] and [%lu]. *)
Definition print (z : Z) : text := str (pretty z).

(** The bytes of a C string, and the C string in a buffer of bytes. *)
Definition bytes_of (t : text) : list Z := code <$> t.
Fixpoint c_string (bs : list Z) : text :=
  match bs with
  | [] => []
  | b :: bs => if b =? 0 then [] else char b :: c_string bs
  end.

(** ** Lemmas *)

Lemma skip_suffix f p : ∃ l, p = l ++ skip f p.
Proof.
  induction p as [|c p [l IH]]; [by exists []|]. cbn. destruct (f c); [|by exists []].
  exists (c :: l). cbn. by rewrite <- IH.
Qed.

Lemma span_skip f p : span f p ++ skip f p = p.
Proof. induction p as [|c p IH]; [done|]. cbn. destruct (f c); cbn; by rewrite ?IH. Qed.

Lemma length_skip f p : (length (skip f p) ≤ length p)%nat.
Proof. destruct (skip_suffix f p) as [l E]. rewrite E at 2. rewrite length_app. lia. Qed.

Lemma length_skip_keyword kw p : (length (skip_keyword kw p) ≤ length p)%nat.
Proof. unfold skip_keyword. destruct (prefix_ci kw p); [rewrite length_drop; lia|done]. Qed.

Lemma prefix_ci_length kw p : prefix_ci kw p = true → (length kw ≤ length p)%nat.
Proof.
  revert p. induction kw as [|k kw IH]; intros p H; [cbn; lia|]. destruct p as [|c p]; [done|].
  cbn in *. apply andb_true_iff in H as [_ H]. specialize (IH _ H). lia.
Qed.

Lemma same_ci_refl c : same_ci c c = true.
Proof. by apply bool_decide_eq_true_2. Qed.

Lemma prefix_ci_app kw p : prefix_ci kw (kw ++ p) = true.
Proof. induction kw as [|k kw IH]; [done|]. cbn. by rewrite same_ci_refl. Qed.

Lemma skip_keyword_app kw p : skip_keyword kw (kw ++ p) = p.
Proof. unfold skip_keyword. by rewrite prefix_ci_app, drop_app_length. Qed.

Lemma until_ci_spec kw p : (until_ci kw p).1 ++ (until_ci kw p).2 = p.
Proof.
  induction p as [|c p IH]; [done|]. cbn [until_ci]. destruct (prefix_ci kw (c :: p)); [done|].
  destruct (until_ci kw p) as [a r]. cbn in *. by rewrite IH.
Qed.

Lemma skip_all f l p : Forall (λ c, f c = true) l → skip f (l ++ p) = skip f p.
Proof. induction 1 as [|c l Hc _ IH]; [done|]. cbn. by rewrite Hc. Qed.

Lemma skip_stop f c p : f c = false → skip f (c :: p) = c :: p.
Proof. intros H. cbn. by rewrite H. Qed.

Lemma span_all f l p : Forall (λ c, f c = true) l → span f (l ++ p) = l ++ span f p.
Proof. induction 1 as [|c l Hc _ IH]; [done|]. cbn. by rewrite Hc, IH. Qed.

Lemma span_stop f c p : f c = false → span f (c :: p) = [].
Proof. intros H. cbn. by rewrite H. Qed.

Lemma drop_span f p : drop (length (span f p)) p = skip f p.
Proof. rewrite <- (span_skip f p) at 2. apply drop_app_length. Qed.

(** ** Numbers of one or two digits *)

Definition print_num (v : Z) : text :=
  if v <? 10 then [char (48 + v)] else [char (48 + v / 10); char (48 + v mod 10)].

Lemma code_char z : 0 ≤ z < 256 → code (char z) = z.
Proof. intros Hz. unfold code, char. rewrite Ascii.N_ascii_embedding; lia. Qed.

Lemma digit_char d : 0 ≤ d < 10 → isdigit (char (48 + d)) = true.
Proof.
  intros Hd. unfold isdigit. rewrite code_char by lia.
  apply andb_true_iff. split; apply Z.leb_le; lia.
Qed.

Lemma digits_char acc d p : 0 ≤ d < 10 → digits acc (char (48 + d) :: p) = digits (10 * acc + d) p.
Proof.
  intros Hd. cbn [digits]. rewrite digit_char, code_char by lia. f_equal. lia.
Qed.

Lemma print_num_cases v : 0 ≤ v < 100 →
  (v < 10 ∧ print_num v = [char (48 + v)])
  ∨ (10 ≤ v ∧ print_num v = [char (48 + v / 10); char (48 + v mod 10)] ∧ 0 ≤ v / 10 < 10
     ∧ 0 ≤ v mod 10 < 10).
Proof.
  intros Hv. unfold print_num. destruct (Z.ltb_spec v 10); [by left|right].
  pose proof (Z.mod_pos_bound v 10 ltac:(lia)). pose proof (Z.div_mod v 10 ltac:(lia)).
  split; [done|]. split; [done|]. lia.
Qed.

Lemma isdigit_code c : isdigit c = true → 48 ≤ code c ≤ 57.
Proof. unfold isdigit. rewrite andb_true_iff, !Z.leb_le. done. Qed.

Lemma digit_nonspace c : isdigit c = true → isspace c = false.
Proof.
  intros H%isdigit_code. unfold isspace. apply orb_false_iff. split; [apply Z.eqb_neq; lia|].
  apply andb_false_iff. right. apply Z.leb_gt. lia.
Qed.

Lemma print_num_head v : 0 ≤ v < 100 →
  ∃ c l, print_num v = c :: l ∧ isdigit c = true ∧ Forall (λ c, isdigit c = true) l.
Proof.
  intros Hv. destruct (print_num_cases v Hv) as [[? ->]|(? & -> & ? & ?)]; eexists _, _;
    (split; [done|]); (split; [apply digit_char; lia|]); repeat constructor; by apply digit_char.
Qed.

Lemma digits_print_num v p :
  0 ≤ v < 100 → match p with c :: _ => isdigit c = false | [] => True end →
  digits 0 (print_num v ++ p) = v.
Proof.
  intros Hv Hp.
  assert (∀ acc, digits acc p = acc) as Hd by (intros acc; destruct p; cbn; [|rewrite Hp]; done).
  destruct (print_num_cases v Hv) as [[? ->]|(? & -> & ? & ?)]; cbn [app];
    rewrite !digits_char, Hd by lia; [done|]. pose proof (Z.div_mod v 10 ltac:(lia)). lia.
Qed.

Lemma atoi_print_num v p :
  0 ≤ v < 100 → match p with c :: _ => isdigit c = false | [] => True end →
  atoi (print_num v ++ p) = Ok v.
Proof.
  intros Hv Hp. unfold atoi. pose proof (digits_print_num v p Hv Hp) as Hd.
  destruct (print_num_head v Hv) as (c & l & E & Hc & _). rewrite E in Hd |- *. cbn [app] in *.
  unfold skip_spaces. rewrite skip_stop by by apply digit_nonspace. pose proof (isdigit_code c Hc).
  destruct (Z.eqb_spec (code c) 45), (Z.eqb_spec (code c) 43); try lia. rewrite Hd.
  unfold INT32_MIN, INT32_MAX. cbv zeta. rewrite !(proj2 (Z.leb_le _ _)) by lia. done.
Qed.

(** ** Numbers of any length *)

Lemma pretty_digit d : (d < 10)%N → pretty_N_char d = char (48 + Z.of_N d).
Proof.
  intros Hd. assert (d = 0 ∨ d = 1 ∨ d = 2 ∨ d = 3 ∨ d = 4 ∨ d = 5 ∨ d = 6 ∨ d = 7 ∨ d = 8 ∨ d = 9)%N as Hc by lia.
  naive_solver.
Qed.

Lemma digits_pretty_go x s :
  ∃ l, str (pretty_N_go x s) = l ++ str s ∧ digits 0 (l ++ str s) = digits (Z.of_N x) (str s) ∧
    Forall (λ c, isdigit c = true) l ∧ (l = [] → x = 0%N).
Proof.
  revert s. induction (N.lt_wf_0 x) as [x _ IH]. intros s.
  destruct (decide (x = 0%N)) as [->|Hx]; [by exists []|].
  rewrite pretty_N_go_step by lia. pose proof (N.mod_lt x 10 ltac:(lia)) as Hm.
  assert (0 ≤ Z.of_N (x `mod` 10) < 10) as Hm2 by (split; [apply N2Z.is_nonneg|by apply (N2Z.inj_lt _ 10)]).
  destruct (IH (x `div` 10)%N ltac:(apply N.div_lt; lia) (String (pretty_N_char (x `mod` 10)) s)) as (l & El & Hd & Hf & _).
  unfold str in *. cbn [String.list_ascii_of_string] in *. rewrite pretty_digit in * by done.
  exists (l ++ [char (48 + Z.of_N (x `mod` 10))]). rewrite <- app_assoc. cbn [app]. split_and!.
  - done.
  - rewrite Hd, digits_char by exact Hm2. f_equal. pose proof (N.div_mod x 10 ltac:(lia)). clear IH Hd. lia.
  - apply Forall_app. split; [done|]. apply Forall_singleton. by apply digit_char.
  - intros [_ ?]%app_nil. done.
Qed.

Lemma print_nat_digits x :
  ∃ c l, str (pretty x) = c :: l ∧ isdigit c = true ∧ Forall (λ c, isdigit c = true) l ∧
    digits 0 (c :: l) = Z.of_N x.
Proof.
  unfold pretty, pretty_N. case_decide as Hx.
  - subst. by exists "0"%char, [].
  - destruct (digits_pretty_go x "") as (l & -> & Hd & Hf & Hl). cbn in Hd. rewrite app_nil_r in *.
    destruct l as [|c l]; [by rewrite Hl in Hx|]. apply Forall_cons in Hf as [??]. by exists c, l.
Qed.

(** A printed number that fits is read back. *)
Lemma atol_print z : in_i 64 z → atol (print z) = Ok z.
Proof.
  intros [Hl Hu]. unfold atol.
  assert (∀ c l, isdigit c = true → skip_spaces (c :: l) = c :: l) as Hskip.
  { intros c l Hc. unfold skip_spaces. rewrite skip_stop; [done|]. by apply digit_nonspace. }
  assert ((INT64_MIN <=? z) && (z <=? INT64_MAX) = true) as Hfit.
  { unfold INT64_MIN, INT64_MAX. apply andb_true_iff. split; apply Z.leb_le; lia. }
  destruct z as [|q|q].
  - done.
  - destruct (print_nat_digits (Npos q)) as (c & l & E & Hc & _ & Hd).
    change (print (Zpos q)) with (str (pretty (Npos q))). rewrite E, Hskip by done.
    pose proof (isdigit_code c Hc). destruct (Z.eqb_spec (code c) 45), (Z.eqb_spec (code c) 43); try lia.
    cbv zeta. rewrite Hd. cbn [Z.of_N]. by rewrite Hfit.
  - destruct (print_nat_digits (Npos q)) as (c & l & E & Hc & _ & Hd).
    change (print (Zneg q)) with ("-"%char :: str (pretty (Npos q))).
    rewrite E. unfold skip_spaces. rewrite skip_stop by done. cbv zeta.
    change (code "-"%char =? 45) with true. cbv iota. rewrite Hd.
    change (- Z.of_N (N.pos q)) with (Z.neg q). by rewrite Hfit.
Qed.

Lemma char_code c : char (code c) = c.
Proof. unfold char, code. rewrite N2Z.id. apply Ascii.ascii_N_embedding. Qed.

Lemma bytes_of_ok t : bytes_ok (bytes_of t).
Proof.
  unfold bytes_ok, bytes_of. apply Forall_fmap, Forall_true. intros c. unfold in_u, code. cbn.
  pose proof (Ascii.N_ascii_bounded c). lia.
Qed.

Lemma c_string_bytes_of t : char 0 ∉ t → c_string (bytes_of t) = t.
Proof.
  induction t as [|c t IH]; intros Ht; [done|]. apply not_elem_of_cons in Ht as [Hc Ht].
  cbn. destruct (code c =? 0) eqn:E.
  - destruct Hc. rewrite <- (char_code c). f_equal. lia.
  - rewrite char_code. f_equal. by apply IH.
Qed.
