(* ===== verification/Cron.v ===== *)
(** * Cron schedules

    Models the cron functions of [src/ddl/ddl_task.c].  The conversions between a
    timestamp and its fields belong to PostgreSQL and are parameters.  The fields are
    small numbers: the loop adds at most 366 * 24 * 60 to the year, so no [int]
    overflows. *)
From Stdlib Require Import Sorted.
From stdpp Require Import sets.
From S2P Require Import Prelude CText.

Local Open Scope Z_scope.

(** ** Expressions *)

Definition cron_char (c : Ascii.ascii) : bool :=
  isdigit c || bool_decide (c ∈ str "*-/,").

Inductive CronProblem :=
| EmptyExpression
| InvalidCharacter (c : Ascii.ascii)
| FieldCount (n : Z).

(** The loop over the characters; [inside] a field, [n] fields have begun. *)
Fixpoint cron_validate_loop (inside : bool) (n : Z) (p : text) : Z + CronProblem :=
  match p with
  | [] => inl n
  | c :: p =>
      if isspace c then cron_validate_loop false n p
      else if cron_char c then cron_validate_loop true (if inside then n else n + 1) p
      else inr (InvalidCharacter c)
  end.

Definition cron_expression_validate (expr : text) : option CronProblem :=
  match expr with
  | [] => Some EmptyExpression
  | _ => match cron_validate_loop false 0 expr with
         | inl n => if n =? 5 then None else Some (FieldCount n)
         | inr e => Some e
         end
  end.

Definition cron_expression_describe (expr : text) : text :=
  if decide (expr = str "* * * * *") then str "every minute"
  else if decide (expr = str "0 * * * *") then str "every hour"
  else if decide (expr = str "0 0 * * *") then str "every day at midnight"
  else if decide (expr = str "0 0 * * 0") then str "every Sunday at midnight"
  else if decide (expr = str "0 0 1 * *") then str "first day of every month"
  else expr.

(** ** Fields *)

(** The first value at or after [current] that the step reaches; a remainder by zero
    is undefined. *)
Definition cron_step (step current min_val max_val : Z) : outcome Z :=
  if max_val <? current then Ok min_val
  else if step =? 0 then Undef
  else Ok (default min_val
             (head (filter (λ v, Z.rem (v - min_val) step = 0)
                      (seqZ current (max_val - current + 1))))).

(** The loop over the list; at the [start] of an entry its number is read. *)
Fixpoint cron_list (start : bool) (p : text) (current max_val : Z) : outcome (option Z) :=
  match p with
  | [] => Ok None
  | c :: q =>
      if start
      then v ← atoi p;
           if (current <=? v) && (v <=? max_val) then Ok (Some v)
           else cron_list (bool_decide (c = ","%char)) q current max_val
      else cron_list (bool_decide (c = ","%char)) q current max_val
  end.

Definition cron_parse_field (field : text) (current min_val max_val : Z) : outcome Z :=
  match field with
  | "*"%char :: p =>
      step ← match p with "/"%char :: p => atoi p | _ => Ok 1 end;
      cron_step step current min_val max_val
  | _ =>
      found ← cron_list true field current max_val;
      match found with Some v => Ok v | None => atoi field end
  end.

(** ** The next occurrence *)

(** The buffer of a field has room for 63 characters; the rest of a longer one is read
    as another field.  A space at the end is followed by an empty field. *)
Fixpoint cron_fields (n : nat) (p : text) : list text :=
  match n, p with
  | O, _ | _, [] => []
  | S n, _ =>
      let p := skip_spaces p in
      let field := take 63 (span nonspace p) in
      field :: cron_fields n (drop (length field) p)
  end.

Record Tm := { tm_sec : Z; tm_min : Z; tm_hour : Z; tm_mday : Z; tm_mon : Z; tm_year : Z }.

Definition set_time (tm : Tm) (year mon mday hour mn : Z) : Tm :=
  {| tm_sec := tm_sec tm; tm_min := mn; tm_hour := hour; tm_mday := mday; tm_mon := mon;
     tm_year := year |}.

Record CronExpr := { minute_field : text; hour_field : text; day_field : text; month_field : text }.

Definition next_minute (tm : Tm) : Tm :=
  let tm := set_time tm (tm_year tm) (tm_mon tm) (tm_mday tm) (tm_hour tm) (tm_min tm + 1) in
  let tm := if 60 <=? tm_min tm
            then set_time tm (tm_year tm) (tm_mon tm) (tm_mday tm) (tm_hour tm + 1) 0 else tm in
  if 24 <=? tm_hour tm
  then set_time tm (tm_year tm) (tm_mon tm) (tm_mday tm + 1) 0 (tm_min tm) else tm.

(** One round of the search: the new time, and whether it is a match. *)
Definition cron_minute (e : CronExpr) (tm : Tm) : outcome (Tm * bool) :=
  m ← cron_parse_field (minute_field e) (tm_min tm) 0 59;
  if tm_min tm <=? m
  then Ok (set_time tm (tm_year tm) (tm_mon tm) (tm_mday tm) (tm_hour tm) m, true)
  else
    let tm := set_time tm (tm_year tm) (tm_mon tm) (tm_mday tm) (tm_hour tm + 1) (tm_min tm) in
    let tm := if 24 <=? tm_hour tm
              then set_time tm (tm_year tm) (tm_mon tm) (tm_mday tm + 1) 0 (tm_min tm) else tm in
    Ok (set_time tm (tm_year tm) (tm_mon tm) (tm_mday tm) (tm_hour tm) 0, false).

Definition cron_hour (e : CronExpr) (tm : Tm) : outcome (Tm * bool) :=
  h ← cron_parse_field (hour_field e) (tm_hour tm) 0 23;
  if tm_hour tm <? h
  then cron_minute e (set_time tm (tm_year tm) (tm_mon tm) (tm_mday tm) h 0)
  else if h <? tm_hour tm
  then Ok (set_time tm (tm_year tm) (tm_mon tm) (tm_mday tm + 1) 0 0, false)
  else cron_minute e tm.

Definition cron_day (e : CronExpr) (tm : Tm) : outcome (Tm * bool) :=
  d ← cron_parse_field (day_field e) (tm_mday tm) 1 31;
  if tm_mday tm <? d
  then cron_hour e (set_time tm (tm_year tm) (tm_mon tm) d 0 0)
  else if d <? tm_mday tm
  then
    let tm := set_time tm (tm_year tm) (tm_mon tm + 1) (tm_mday tm) (tm_hour tm) (tm_min tm) in
    let tm := if 12 <? tm_mon tm
              then set_time tm (tm_year tm + 1) 1 (tm_mday tm) (tm_hour tm) (tm_min tm) else tm in
    Ok (set_time tm (tm_year tm) (tm_mon tm) 1 0 0, false)
  else cron_hour e tm.

Definition cron_round (e : CronExpr) (tm : Tm) : outcome (Tm * bool) :=
  m ← cron_parse_field (month_field e) (tm_mon tm) 1 12;
  if tm_mon tm <? m then cron_day e (set_time tm (tm_year tm) m 1 0 0)
  else if m <? tm_mon tm then Ok (set_time tm (tm_year tm + 1) m 1 0 0, false)
  else cron_day e tm.

Fixpoint cron_search (rounds : nat) (e : CronExpr) (tm : Tm) : outcome Tm :=
  match rounds with
  | O => Ok tm
  | S rounds =>
      '(tm, found) ← cron_round e tm;
      if (found : bool) then Ok tm else cron_search rounds e tm
  end.

Definition max_iterations : nat := Z.to_nat (366 * 24 * 60).

Record Interval := { time : Z; day : Z; month : Z }.

Definition USECS_PER_SEC : Z := 1000000.
Definition one_hour : Interval := {| time := 3600 * USECS_PER_SEC; day := 0; month := 0 |}.

Section occurrence.
Context (timestamp2tm : Z → option Tm) (tm2timestamp : Tm → option Z)
        (timestamptz_pl_interval : Z → Interval → outcome Z).

Definition cron_next_occurrence (cron_expr : text) (from : Z) : outcome Z :=
  match cron_fields 5 cron_expr with
  | [f0; f1; f2; f3; _] =>
      match timestamp2tm from with
      | None => timestamptz_pl_interval from one_hour
      | Some tm =>
          let e := {| minute_field := f0; hour_field := f1; day_field := f2; month_field := f3 |} in
          tm ← cron_search max_iterations e (next_minute tm);
          match tm2timestamp {| tm_sec := 0; tm_min := tm_min tm; tm_hour := tm_hour tm;
                                tm_mday := tm_mday tm; tm_mon := tm_mon tm; tm_year := tm_year tm |} with
          | Some next => Ok next
          | None => timestamptz_pl_interval from one_hour
          end
      end
  | _ => timestamptz_pl_interval from one_hour
  end.
End occurrence.

(** ** What a field selects *)

(** The fields that the parser reads as they are meant. *)
Inductive CronField := Every (step : Z) | Values (l : list Z).

Fixpoint print_values (l : list Z) : text :=
  match l with
  | [] => []
  | [v] => print_num v
  | v :: l => print_num v ++ ","%char :: print_values l
  end.

Definition print_field (f : CronField) : text :=
  match f with
  | Every n => "*"%char :: if n =? 1 then [] else "/"%char :: print_num n
  | Values l => print_values l
  end.

Definition field_ok (lo hi : Z) (f : CronField) : Prop :=
  match f with
  | Every n => 1 ≤ n < 100
  | Values l => l ≠ [] ∧ StronglySorted Z.lt l ∧ Forall (λ v, lo ≤ v ≤ hi) l
  end.

Definition in_field (lo hi : Z) (f : CronField) (v : Z) : Prop :=
  lo ≤ v ≤ hi ∧ match f with Every n => (v - lo) mod n = 0 | Values l => v ∈ l end.

(** The next value of [M] at or after [cur], or the first one when there is none. *)
Definition next_or_first (M : Z → Prop) (cur v : Z) : Prop :=
  M v ∧ ((cur ≤ v ∧ ∀ w, M w → cur ≤ w → v ≤ w) ∨ (v < cur ∧ ∀ w, M w → v ≤ w < cur)).

Definition selects (field : text) (lo hi : Z) (M : Z → Prop) : Prop :=
  ∀ cur, lo ≤ cur ≤ hi + 1 →
  ∃ v, cron_parse_field field cur lo hi = Ok v ∧ next_or_first M cur v.

Lemma head_filter_seqZ (P : Z → Prop) `{∀ v, Decision (P v)} a n :
  match head (filter P (seqZ a n)) with
  | Some v => P v ∧ a ≤ v < a + n ∧ ∀ w, P w → a ≤ w < a + n → v ≤ w
  | None => ∀ w, a ≤ w < a + n → ¬ P w
  end.
Proof.
  destruct (Z.le_gt_cases n 0) as [Hn|Hn]; [rewrite seqZ_nil by lia; cbn; intros; lia|].
  replace n with (Z.of_nat (Z.to_nat n)) by lia. generalize (Z.to_nat n) as m. clear n Hn.
  intros m. revert a. induction m as [|m IH]; intros a; [rewrite seqZ_nil by lia; cbn; intros; lia|].
  rewrite seqZ_cons, filter_cons by lia.
  destruct (decide (P a)) as [Ha|Ha]; [cbn [head]; split; [done|]; split; [lia|]; intros; lia|].
  replace (Z.pred (Z.of_nat (S m))) with (Z.of_nat m) by lia. specialize (IH (Z.succ a)).
  destruct (head _) as [v|].
  - destruct IH as (Hv & Hr & Hm). split; [done|]. split; [lia|]. intros w Hw Hwr.
    destruct (decide (w = a)) as [->|]; [done|]. apply Hm; [done|lia].
  - intros w Hw. destruct (decide (w = a)) as [->|]; [done|]. apply IH. lia.
Qed.

Lemma rem_mod_0 a n : 0 ≤ a → 0 < n → Z.rem a n = 0 ↔ a mod n = 0.
Proof. intros. by rewrite Z.rem_mod_nonneg by lia. Qed.

Lemma step_selects lo hi n cur :
  0 < n → lo ≤ cur ≤ hi + 1 → lo ≤ hi →
  ∃ v, cron_step n cur lo hi = Ok v ∧ next_or_first (in_field lo hi (Every n)) cur v.
Proof.
  intros Hn Hc Hlh. unfold cron_step. assert (in_field lo hi (Every n) lo) as Hlo.
  { split; [lia|]. by rewrite Z.sub_diag, Z.mod_0_l by lia. }
  destruct (Z.ltb_spec hi cur) as [Hlt|Hge].
  { exists lo. split; [done|]. split; [done|]. right. split; [lia|]. intros w [Hw _]. lia. }
  destruct (Z.eqb_spec n 0); [lia|]. eexists. split; [done|].
  pose proof (head_filter_seqZ (λ v, Z.rem (v - lo) n = 0) cur (hi - cur + 1)) as Hh.
  destruct (head _) as [v|]; cbn.
  - destruct Hh as (Hv & Hr & Hm). rewrite rem_mod_0 in Hv by lia. split; [split; [lia|done]|].
    left. split; [lia|]. intros w [Hw Hwm] Hcw. apply Hm; [|lia]. by rewrite rem_mod_0 by lia.
  - split; [done|]. right. assert (∀ w, in_field lo hi (Every n) w → w < cur) as Hlt.
    { intros w [Hw Hwm]. destruct (Z.lt_ge_cases w cur); [done|]. exfalso.
      apply (Hh w); [lia|]. by rewrite rem_mod_0 by lia. }
    split; [by apply Hlt|]. intros w Hw. split; [destruct Hw; lia|by apply Hlt].
Qed.

Lemma every_selects lo hi n :
  lo ≤ hi → 1 ≤ n < 100 → selects (print_field (Every n)) lo hi (in_field lo hi (Every n)).
Proof.
  intros Hlh Hn cur Hc. unfold cron_parse_field, print_field.
  destruct (Z.eqb_spec n 1) as [->|]; [by apply step_selects; lia|].
  rewrite <- (app_nil_r (print_num n)), atoi_print_num by (done || lia). cbn [mbind outcome_bind].
  apply step_selects; lia.
Qed.

Lemma digit_not_comma c : isdigit c = true → bool_decide (c = ","%char) = false.
Proof.
  intros H. apply bool_decide_eq_false_2. intros ->. vm_compute in H. done.
Qed.

Lemma cron_list_digits l p cur hi :
  Forall (λ c, isdigit c = true) l → cron_list false (l ++ p) cur hi = cron_list false p cur hi.
Proof. induction 1 as [|c l Hc _ IH]; [done|]. cbn. by rewrite digit_not_comma. Qed.

Lemma cron_list_value v p cur hi :
  0 ≤ v < 100 → match p with c :: _ => isdigit c = false | [] => True end →
  cron_list true (print_num v ++ p) cur hi
  = if (cur <=? v) && (v <=? hi) then Ok (Some v) else cron_list false p cur hi.
Proof.
  intros Hv Hp. pose proof (atoi_print_num v p Hv Hp) as Ha.
  destruct (print_num_head v Hv) as (c & l & E & Hc & Hl). rewrite E in *. cbn [app] in *.
  cbn [cron_list]. rewrite Ha. cbn [mbind outcome_bind]. destruct (_ && _); [done|].
  rewrite digit_not_comma by done. by apply cron_list_digits.
Qed.

Lemma cron_list_values l cur hi :
  Forall (λ v, 0 ≤ v < 100) l →
  cron_list true (print_values l) cur hi = Ok (head (filter (λ v, cur ≤ v ∧ v ≤ hi) l)).
Proof.
  induction 1 as [|v l Hv Hl IH]; [done|].
  assert (∀ p, match p with c :: _ => isdigit c = false | [] => True end →
    cron_list false p cur hi = Ok (head (filter (λ v, cur ≤ v ∧ v ≤ hi) l)) →
    cron_list true (print_num v ++ p) cur hi
    = Ok (head (filter (λ v, cur ≤ v ∧ v ≤ hi) (v :: l)))) as Hone.
  { intros p Hp Hrest. rewrite cron_list_value, filter_cons by done.
    destruct (Z.leb_spec cur v), (Z.leb_spec v hi); destruct (decide _); try lia; done. }
  destruct l as [|w l].
  - cbn [print_values]. rewrite <- (app_nil_r (print_num v)). by apply Hone.
  - cbn [print_values]. apply Hone; [done|]. cbn [cron_list]. exact IH.
Qed.

Lemma sorted_head (l : list Z) v0 w : StronglySorted Z.lt (v0 :: l) → w ∈ v0 :: l → v0 ≤ w.
Proof.
  intros [_ Hall]%StronglySorted_inv Hw. rewrite Forall_forall in Hall.
  apply elem_of_cons in Hw as [->|Hw]; [done|]. specialize (Hall w Hw). lia.
Qed.

Lemma head_filter_sorted (P : Z → Prop) `{∀ v, Decision (P v)} (l : list Z) :
  StronglySorted Z.lt l →
  match head (filter P l) with
  | Some v => P v ∧ v ∈ l ∧ ∀ w, w ∈ l → P w → v ≤ w
  | None => ∀ w, w ∈ l → ¬ P w
  end.
Proof.
  induction l as [|v0 l IH]; intros Hs; [cbn; intros w []%elem_of_nil|].
  pose proof Hs as [Hsl _]%StronglySorted_inv. specialize (IH Hsl). rewrite filter_cons.
  destruct (decide (P v0)) as [Hp|Hp].
  - cbn [head]. split; [done|]. split; [by left|]. intros w Hw _. by eapply sorted_head.
  - destruct (head _) as [v|].
    + destruct IH as (Hv & Hin & Hm). split; [done|]. split; [by right|].
      intros w [->|Hw]%elem_of_cons Hpw; [done|]. by apply Hm.
    + intros w [->|Hw]%elem_of_cons; [done|]. by apply IH.
Qed.

Lemma parse_list c p cur lo hi :
  c ≠ "*"%char →
  cron_parse_field (c :: p) cur lo hi
  = found ← cron_list true (c :: p) cur hi;
    match found with Some v => Ok v | None => atoi (c :: p) end.
Proof.
  intros Hc. destruct (decide (c = "*"%char)) as [|_]; [done|].
  destruct c as [[] [] [] [] [] [] [] []]; try reflexivity. by destruct Hc.
Qed.

Lemma values_selects lo hi l :
  0 ≤ lo → hi < 100 → field_ok lo hi (Values l) →
  selects (print_field (Values l)) lo hi (in_field lo hi (Values l)).
Proof.
  intros Hlo Hhi (Hne & Hs & Hr) cur Hc. cbn [print_field].
  assert (Forall (λ v, 0 ≤ v < 100) l) as H100 by (eapply Forall_impl; [exact Hr|]; cbn; lia).
  assert (∀ w, in_field lo hi (Values l) w ↔ w ∈ l) as Hin.
  { intros w. split; [by intros [_ ?]|]. intros Hw. split; [|done]. by eapply Forall_forall in Hr. }
  destruct l as [|v0 l]; [done|].
  assert (cron_parse_field (print_values (v0 :: l)) cur lo hi
          = Ok (default v0 (head (filter (λ v, cur ≤ v ∧ v ≤ hi) (v0 :: l))))) as ->.
  { pose proof (cron_list_values (v0 :: l) cur hi H100) as Hlist.
    apply Forall_cons in H100 as [H0 _].
    assert (∃ p, print_values (v0 :: l) = print_num v0 ++ p ∧
                 match p with c :: _ => isdigit c = false | [] => True end) as (p & Ep & Hp).
    { destruct l; cbn [print_values]; [exists []; by rewrite app_nil_r|by eexists]. }
    pose proof (atoi_print_num v0 p H0 Hp) as Ha. rewrite Ep in *.
    destruct (print_num_head v0 H0) as (c & q & E & Hd & _). rewrite E in *. cbn [app] in *.
    assert (c ≠ "*"%char) as Hstar by (intros ->; vm_compute in Hd; done).
    rewrite parse_list, Hlist by done. cbn [mbind outcome_bind]. by destruct (head _). }
  pose proof (head_filter_sorted (λ v, cur ≤ v ∧ v ≤ hi) (v0 :: l) Hs) as Hh.
  destruct (head _) as [v|]; cbn [default]; (eexists; split; [done|]); unfold next_or_first.
  - destruct Hh as ([Hv1 Hv2] & Hv & Hm). split; [by apply Hin|]. left. split; [done|].
    intros w Hw Hcw. apply Hm; [by apply (proj1 (Hin w))|]. destruct Hw; lia.
  - split; [apply Hin; by left|]. right. assert (∀ w, w ∈ v0 :: l → w < cur) as Hlt.
    { intros w Hw. destruct (Z.lt_ge_cases w cur); [done|]. exfalso. apply (Hh w Hw).
      rewrite Forall_forall in Hr. specialize (Hr w Hw). lia. }
    split; [apply Hlt; by left|]. intros w Hw%Hin. split; [by eapply sorted_head|by apply Hlt].
Qed.

Lemma field_selects lo hi f :
  0 ≤ lo ≤ hi → hi < 100 → field_ok lo hi f → selects (print_field f) lo hi (in_field lo hi f).
Proof.
  intros Hlo Hhi Hf. destruct f as [n|l]; [apply every_selects|apply values_selects]; (lia || done).
Qed.

(** ** The search finds the next time

    [key] puts times in order, each month with 31 days. *)

Definition key (tm : Tm) : Z :=
  (((tm_year tm * 12 + (tm_mon tm - 1)) * 31 + (tm_mday tm - 1)) * 24 + tm_hour tm) * 60 + tm_min tm.

Section search.
Context (e : CronExpr) (Mi Ho Da Mo : Z → Prop).
Hypothesis Hmi : selects (minute_field e) 0 59 Mi.
Hypothesis Hho : selects (hour_field e) 0 23 Ho.
Hypothesis Hda : selects (day_field e) 1 31 Da.
Hypothesis Hmo : selects (month_field e) 1 12 Mo.
Hypothesis Rmi : ∀ v, Mi v → 0 ≤ v ≤ 59.
Hypothesis Rho : ∀ v, Ho v → 0 ≤ v ≤ 23.
Hypothesis Rda : ∀ v, Da v → 1 ≤ v ≤ 31.
Hypothesis Rmo : ∀ v, Mo v → 1 ≤ v ≤ 12.

Definition fires (tm : Tm) : Prop :=
  Mo (tm_mon tm) ∧ Da (tm_mday tm) ∧ Ho (tm_hour tm) ∧ Mi (tm_min tm).

(** The 32nd of a month is the first of the next, at midnight. *)
Definition tm_ok (tm : Tm) : Prop :=
  1 ≤ tm_mon tm ≤ 12 ∧ 1 ≤ tm_mday tm ≤ 32 ∧ 0 ≤ tm_hour tm ≤ 23 ∧ 0 ≤ tm_min tm ≤ 59 ∧
  (tm_mday tm = 32 → tm_hour tm = 0 ∧ tm_min tm = 0).

Definition passes_none (a b : Tm) : Prop :=
  key a ≤ key b ∧ ∀ t, fires t → ¬ key a ≤ key t < key b.

(** How far the fields have been reset. *)
Definition reset (k : nat) (tm : Tm) : Prop :=
  ((k < 5)%nat → tm_min tm = 0) ∧ ((k < 4)%nat → tm_hour tm = 0) ∧
  ((k < 3)%nat → tm_mday tm = 1) ∧ ((k < 2)%nat → Mo (tm_mon tm)).

(** The result of a stage of a round that begins at [tm]: a match, or a later time
    where more is reset, for one of the [reasons]. *)
Definition stage (tm : Tm) (reasons : Tm → Prop) (r : outcome (Tm * bool)) : Prop :=
  ∃ tm' found, r = Ok (tm', found) ∧ passes_none tm tm' ∧
    if (found : bool) then fires tm' else tm_ok tm' ∧ reasons tm'.

Lemma fires_range t : fires t →
  1 ≤ tm_mon t ≤ 12 ∧ 1 ≤ tm_mday t ≤ 31 ∧ 0 ≤ tm_hour t ≤ 23 ∧ 0 ≤ tm_min t ≤ 59.
Proof. intros (H1 & H2 & H3 & H4). auto. Qed.

Lemma passes_none_trans a b c : passes_none a b → passes_none b c → passes_none a c.
Proof.
  intros [Hab Pab] [Hbc Pbc]. split; [lia|]. intros t Ht H.
  destruct (Z.lt_ge_cases (key t) (key b)); [apply (Pab t Ht)|apply (Pbc t Ht)]; lia.
Qed.

Ltac keys :=
  unfold passes_none, key, set_time in *; cbn [tm_year tm_mon tm_mday tm_hour tm_min] in *;
  split; [lia|]; intros t Ht Hk; pose proof (fires_range t Ht); destruct Ht as (Htmo & Htda & Htho & Htmi).

Lemma minute_stage tm :
  tm_ok tm → Mo (tm_mon tm) → Da (tm_mday tm) → Ho (tm_hour tm) →
  stage tm (λ t, tm_min tm ≠ 0 ∧ reset 4 t) (cron_minute e tm).
Proof.
  intros (Omo & Oda & Oho & Omi & O32) Fmo Fda Fho. unfold cron_minute, stage.
  destruct (Hmi (tm_min tm) ltac:(lia)) as (v & -> & Hv & Hn). cbn [mbind outcome_bind].
  pose proof (Rmi v Hv). pose proof (Rda _ Fda). destruct (Z.leb_spec (tm_min tm) v) as [Hle|Hgt].
  - destruct Hn as [[_ Hn]|[? _]]; [|lia]. eexists _, true. split; [done|]. split; [|done]. keys.
    specialize (Hn _ Htmi). destruct (decide (tm_min tm ≤ tm_min t)) as [|]; [|lia].
    specialize (Hn ltac:(done)). lia.
  - destruct Hn as [[? _]|[_ Hn]]; [lia|]. eexists _, false. split; [done|].
    cbn [tm_year tm_mon tm_mday tm_hour tm_min set_time].
    destruct (Z.leb_spec 24 (tm_hour tm + 1)); split.
    + keys. specialize (Hn _ Htmi). lia.
    + unfold tm_ok, reset; cbn [tm_year tm_mon tm_mday tm_hour tm_min set_time]. repeat split; lia.
    + keys. specialize (Hn _ Htmi). lia.
    + unfold tm_ok, reset; cbn [tm_year tm_mon tm_mday tm_hour tm_min set_time]. repeat split; lia.
Qed.

Lemma stage_from a b (R R' : Tm → Prop) r :
  passes_none a b → stage b R r → (∀ t, R t → R' t) → stage a R' r.
Proof.
  intros Hab (t & found & -> & Hbt & Ht) HR. exists t, found. split; [done|].
  split; [by eapply passes_none_trans|]. destruct found; [done|]. destruct Ht. auto.
Qed.

Lemma passes_refl t : passes_none t t.
Proof. split; [lia|]. intros. lia. Qed.

Lemma hour_stage tm :
  tm_ok tm → Mo (tm_mon tm) → Da (tm_mday tm) →
  stage tm (λ t, (tm_min tm ≠ 0 ∧ reset 4 t) ∨ (tm_hour tm ≠ 0 ∧ reset 3 t)) (cron_hour e tm).
Proof.
  intros (Omo & Oda & Oho & Omi & O32) Fmo Fda. unfold cron_hour.
  destruct (Hho (tm_hour tm) ltac:(lia)) as (v & -> & Hv & Hn). cbn [mbind outcome_bind].
  pose proof (Rho v Hv). pose proof (Rda _ Fda).
  destruct (Z.ltb_spec (tm_hour tm) v) as [Hlt|Hge]; [|destruct (Z.ltb_spec v (tm_hour tm)) as [Hgt|Heq]].
  - destruct Hn as [[_ Hn]|[? _]]; [|lia].
    eapply stage_from; [|apply minute_stage; try done|].
    + keys. specialize (Hn _ Htho). destruct (decide (tm_hour tm ≤ tm_hour t)); [|lia].
      specialize (Hn ltac:(done)). lia.
    + unfold tm_ok; cbn. repeat split; lia.
    + cbn. intros t [? _]. done.
  - destruct Hn as [[? _]|[_ Hn]]; [lia|]. eexists _, false. split; [done|]. split.
    + keys. specialize (Hn _ Htho). lia.
    + unfold tm_ok, reset; cbn [tm_year tm_mon tm_mday tm_hour tm_min set_time]. repeat split; lia.
  - assert (v = tm_hour tm) as -> by lia. eapply stage_from; [apply passes_refl|by apply minute_stage|].
    intros t ?. by left.
Qed.

Lemma day_stage tm :
  tm_ok tm → Mo (tm_mon tm) →
  stage tm (λ t, (tm_min tm ≠ 0 ∧ reset 4 t) ∨ (tm_hour tm ≠ 0 ∧ reset 3 t)
                 ∨ (tm_mday tm ≠ 1 ∧ reset 2 t)) (cron_day e tm).
Proof.
  intros (Omo & Oda & Oho & Omi & O32) Fmo. unfold cron_day.
  destruct (Hda (tm_mday tm) ltac:(lia)) as (v & -> & Hv & Hn). cbn [mbind outcome_bind].
  pose proof (Rda v Hv).
  destruct (Z.ltb_spec (tm_mday tm) v) as [Hlt|Hge]; [|destruct (Z.ltb_spec v (tm_mday tm)) as [Hgt|Heq]].
  - destruct Hn as [[_ Hn]|[? _]]; [|lia].
    eapply stage_from; [|apply hour_stage; try done|].
    + keys. specialize (Hn _ Htda). destruct (decide (tm_mday tm ≤ tm_mday t)); [|lia].
      specialize (Hn ltac:(done)). lia.
    + unfold tm_ok; cbn. repeat split; lia.
    + cbn. intros t [[? _]|[? _]]; done.
  - destruct Hn as [[? _]|[_ Hn]]; [lia|]. eexists _, false. split; [done|].
    cbn [tm_year tm_mon tm_mday tm_hour tm_min set_time].
    destruct (Z.ltb_spec 12 (tm_mon tm + 1)); split.
    + keys. specialize (Hn _ Htda). lia.
    + unfold tm_ok, reset; cbn [tm_year tm_mon tm_mday tm_hour tm_min set_time].
      split; [|right; right; split; [lia|]]; repeat split; lia.
    + keys. specialize (Hn _ Htda). lia.
    + unfold tm_ok, reset; cbn [tm_year tm_mon tm_mday tm_hour tm_min set_time].
      split; [|right; right; split; [lia|]]; repeat split; lia.
  - assert (v = tm_mday tm) as -> by lia. eapply stage_from; [apply passes_refl|by apply hour_stage|].
    intros t [?|?]; auto.
Qed.

Lemma round_stage tm :
  tm_ok tm →
  stage tm (λ t, (tm_min tm ≠ 0 ∧ reset 4 t) ∨ (tm_hour tm ≠ 0 ∧ reset 3 t)
                 ∨ (tm_mday tm ≠ 1 ∧ reset 2 t) ∨ (¬ Mo (tm_mon tm) ∧ reset 1 t)) (cron_round e tm).
Proof.
  intros (Omo & Oda & Oho & Omi & O32). unfold cron_round.
  destruct (Hmo (tm_mon tm) ltac:(lia)) as (v & -> & Hv & Hn). cbn [mbind outcome_bind].
  pose proof (Rmo v Hv).
  destruct (Z.ltb_spec (tm_mon tm) v) as [Hlt|Hge]; [|destruct (Z.ltb_spec v (tm_mon tm)) as [Hgt|Heq]].
  - destruct Hn as [[_ Hn]|[? _]]; [|lia].
    eapply stage_from; [|apply day_stage; try done|].
    + keys. specialize (Hn _ Htmo). destruct (decide (tm_mon tm ≤ tm_mon t)); [|lia].
      specialize (Hn ltac:(done)). lia.
    + cbn. intros t [[? _]|[[? _]|[? _]]]; done.
  - destruct Hn as [[? _]|[_ Hn]]; [lia|]. eexists _, false. split; [done|]. split.
    + keys. specialize (Hn _ Htmo). lia.
    + unfold tm_ok, reset; cbn [tm_year tm_mon tm_mday tm_hour tm_min set_time].
      split; [repeat split; lia|]. do 3 right. split; [intros F; specialize (Hn _ F); lia|].
      repeat split; done.
  - assert (v = tm_mon tm) as -> by lia. eapply stage_from; [apply passes_refl|by apply day_stage|].
    intros t [?|[?|?]]; auto.
Qed.

(** Each round that finds nothing resets another field, so the fifth finds a match. *)
Lemma search_finds k tm :
  (1 ≤ k)%nat → tm_ok tm → reset k tm →
  ∃ t, (∀ rounds, (k ≤ rounds)%nat → cron_search rounds e tm = Ok t) ∧ fires t ∧ passes_none tm t.
Proof.
  revert tm. induction k as [k IH] using lt_wf_ind. intros tm Hk Hok (R5 & R4 & R3 & R2).
  destruct (round_stage tm Hok) as (t & found & Hround & Hp & Ht).
  assert (∀ rounds, (1 ≤ rounds)%nat → cron_search rounds e tm
            = if found then Ok t else cron_search (pred rounds) e t) as Hs.
  { intros [|rounds] ?; [lia|]. cbn [cron_search pred]. by rewrite Hround. }
  destruct found.
  { exists t. split; [|done]. intros rounds Hr. apply Hs. lia. }
  destruct Ht as [Hto Hr]. assert (∃ j, (1 ≤ j < k)%nat ∧ reset j t) as (j & Hj & Hrj).
  { destruct Hr as [[Hz Hr]|[[Hz Hr]|[[Hz Hr]|[Hz Hr]]]].
    - exists 4%nat. split; [|done]. destruct (decide (k < 5)%nat); [by destruct Hz; apply R5|lia].
    - exists 3%nat. split; [|done]. destruct (decide (k < 4)%nat); [by destruct Hz; apply R4|lia].
    - exists 2%nat. split; [|done]. destruct (decide (k < 3)%nat); [by destruct Hz; apply R3|lia].
    - exists 1%nat. split; [|done]. destruct (decide (k < 2)%nat); [by destruct Hz; apply R2|lia]. }
  destruct (IH j ltac:(lia) t ltac:(lia) Hto Hrj) as (t' & Hs' & Hf & Hp').
  exists t'. split; [|split; [done|by eapply passes_none_trans]].
  intros rounds Hr'. rewrite Hs by lia. apply Hs'. lia.
Qed.
End search.

(** ** Schedules *)

Record CronSpec := {
  minutes : CronField; hours : CronField; days : CronField; months : CronField; weekdays : CronField }.

Definition spec_ok (s : CronSpec) : Prop :=
  field_ok 0 59 (minutes s) ∧ field_ok 0 23 (hours s) ∧ field_ok 1 31 (days s) ∧
  field_ok 1 12 (months s) ∧ field_ok 0 6 (weekdays s).

Definition print_spec (s : CronSpec) : CronExpr :=
  {| minute_field := print_field (minutes s); hour_field := print_field (hours s);
     day_field := print_field (days s); month_field := print_field (months s) |}.

(** The four fields that the search looks at. *)
Definition matches (s : CronSpec) : Tm → Prop :=
  fires (in_field 0 59 (minutes s)) (in_field 0 23 (hours s)) (in_field 1 31 (days s))
        (in_field 1 12 (months s)).

Definition leap (year : Z) : bool :=
  (year mod 4 =? 0) && (negb (year mod 100 =? 0) || (year mod 400 =? 0)).

(** The days of the months of a year. *)
Definition month_lengths (year : Z) : list Z :=
  [31; if leap year then 29 else 28; 31; 30; 31; 30; 31; 31; 30; 31; 30; 31].

(** The day is one of its month. *)
Definition in_calendar (tm : Tm) : Prop :=
  match month_lengths (tm_year tm) !! Z.to_nat (tm_mon tm - 1) with
  | Some n => 1 ≤ tm_mday tm ≤ n
  | None => False
  end.

(** The number of the day, from the first of January of the year 1, a Monday; Sunday is 0. *)
Definition day_number (tm : Tm) : Z :=
  let y := tm_year tm - 1 in
  365 * y + y / 4 - y / 100 + y / 400
  + foldr Z.add 0 (take (Z.to_nat (tm_mon tm - 1)) (month_lengths (tm_year tm))) + tm_mday tm.
Definition day_of_week (tm : Tm) : Z := day_number tm mod 7.

(** What the five fields mean: a minute of the calendar that all of them match. *)
Definition fires_at (s : CronSpec) (tm : Tm) : Prop :=
  matches s tm ∧ in_calendar tm ∧ in_field 0 6 (weekdays s) (day_of_week tm).

Example a_sunday :
  day_of_week {| tm_sec := 0; tm_min := 0; tm_hour := 0; tm_mday := 29; tm_mon := 12; tm_year := 2024 |} = 0.
Proof. reflexivity. Qed.

(** A time as PostgreSQL breaks it down. *)
Definition tm_valid (tm : Tm) : Prop :=
  1 ≤ tm_mon tm ≤ 12 ∧ 1 ≤ tm_mday tm ≤ 31 ∧ 0 ≤ tm_hour tm ≤ 23 ∧ 0 ≤ tm_min tm ≤ 59.

Definition join (l : list text) : text := foldr (λ f r, f ++ " "%char :: r) [] l.

(** The five fields with a space between them. *)
Definition print_cron (s : CronSpec) : text :=
  let e := print_spec s in
  join [minute_field e; hour_field e; day_field e; month_field e] ++ print_field (weekdays s).

(** A field that the buffer takes whole. *)
Definition fits (f : text) : Prop :=
  f ≠ [] ∧ (length f ≤ 63)%nat ∧ Forall (λ c, nonspace c = true) f.

Lemma search_spec s tm :
  spec_ok s → tm_ok tm →
  ∃ t, (∀ n, (5 ≤ n)%nat → cron_search n (print_spec s) tm = Ok t) ∧ matches s t
     ∧ passes_none (in_field 0 59 (minutes s)) (in_field 0 23 (hours s)) (in_field 1 31 (days s))
         (in_field 1 12 (months s)) tm t.
Proof.
  intros (Fmi & Fho & Fda & Fmo & _) Ht.
  assert (∀ lo hi f v, in_field lo hi f v → lo ≤ v ≤ hi) as R by (by intros ? ? ? ? [? _]).
  apply search_finds; try (by apply R); try (by apply field_selects; [lia..|]); [lia|done|].
  repeat split; lia.
Qed.

Lemma next_minute_ok tm : tm_valid tm → tm_ok (next_minute tm) ∧ key (next_minute tm) = key tm + 1.
Proof.
  intros (? & ? & ? & ?). unfold next_minute, tm_ok, key, set_time.
  cbn [tm_year tm_mon tm_mday tm_hour tm_min].
  destruct (Z.leb_spec 60 (tm_min tm + 1)); cbn [tm_year tm_mon tm_mday tm_hour tm_min];
    destruct_if; cbn [tm_year tm_mon tm_mday tm_hour tm_min]; lia.
Qed.

Lemma fields_print (l : list text) (w : text) :
  Forall fits l → fits w → cron_fields (length l + 1) (join l ++ w) = l ++ [w].
Proof.
  assert (∀ n f r, fits f → match r with c :: _ => nonspace c = false | [] => True end →
            cron_fields (S n) (f ++ r) = f :: cron_fields n r) as Hf.
  { intros n f r (Hne & Hl & Hns) Hr. destruct f as [|c f]; [done|]. cbn [cron_fields app].
    assert (skip_spaces (c :: f ++ r) = c :: f ++ r) as ->.
    { apply skip_stop. apply Forall_cons in Hns as [Hc _]. unfold nonspace in Hc. by apply negb_true_iff. }
    change (c :: f ++ r) with ((c :: f) ++ r). rewrite span_all by done.
    assert (span nonspace r = []) as -> by (destruct r; [done|by apply span_stop]).
    rewrite app_nil_r, take_ge by done. by rewrite drop_app_length. }
  intros Hl Hw. induction Hl as [|f l Hff _ IH].
  - cbn [join foldr length app Nat.add]. rewrite <- (app_nil_r w) at 1. by rewrite Hf.
  - cbn [join foldr length app Nat.add]. rewrite <- app_assoc, Hf by done.
    cbn [app]. f_equal. rewrite <- IH. destruct (length l + 1)%nat as [|n] eqn:E; [lia|].
    cbn [cron_fields]. destruct (join l ++ w) as [|c r] eqn:Ej.
    { destruct Hw as [Hne _]. by apply app_nil in Ej as [_ ->]. }
    change (foldr _ [] l) with (join l). by rewrite Ej.
Qed.

Lemma any_fits : fits (print_field (Every 1)).
Proof. split; [discriminate|]. split; [cbn; lia|]. by repeat constructor. Qed.

Lemma any_weekday tm : in_field 0 6 (Every 1) (day_of_week tm).
Proof.
  unfold in_field, day_of_week. pose proof (Z.mod_pos_bound (day_number tm) 7 ltac:(lia)).
  split; [lia|]. apply Z.mod_1_r.
Qed.

Lemma early_day tm : 1 ≤ tm_mon tm ≤ 12 → 1 ≤ tm_mday tm ≤ 28 → in_calendar tm.
Proof.
  intros Hm Hd. unfold in_calendar.
  assert (Hall : Forall (λ n, 28 ≤ n) (month_lengths (tm_year tm))).
  { unfold month_lengths. repeat apply List.Forall_cons; try lia; [by destruct (leap _)|apply List.Forall_nil]. }
  destruct (_ !! _) as [n|] eqn:E.
  - rewrite Forall_forall in Hall. apply list_elem_of_lookup_2 in E. specialize (Hall n E). cbn in Hall. lia.
  - apply lookup_ge_None in E. cbn in E. lia.
Qed.

Lemma enough_rounds : (5 ≤ max_iterations)%nat.
Proof. unfold max_iterations. lia. Qed.

(** C24: for a schedule whose fields are wildcards, steps or increasing lists of values in range,
    fit the buffers, and whose weekday is unrestricted, the search passes over no minute of the
    calendar that the schedule matches: what it finds comes after [from] and not behind the
    first such minute, and it is that minute when it is a day of the calendar at all.  (The
    length of the months is not looked at, see [day_beyond_month_end]; it does not matter for
    schedules with no day above 28.  Weekdays, ranges and lists that are not in order are not
    respected: [weekday_ignored], [range_is_its_start], [unsorted_list_skips].) *)
Theorem cron_next_is_least (timestamp2tm : Z → option Tm) (tm2timestamp : Tm → option Z)
    (timestamptz_pl_interval : Z → Interval → outcome Z) (s : CronSpec) (from : Z) (tm : Tm) :
  spec_ok s → weekdays s = Every 1 →
  Forall fits [print_field (minutes s); print_field (hours s); print_field (days s); print_field (months s)] →
  timestamp2tm from = Some tm → tm_valid tm →
  ∃ t, tm_sec t = 0 ∧ key tm < key t
    ∧ (∀ t', fires_at s t' → key tm < key t' → key t ≤ key t')
    ∧ (in_calendar t → fires_at s t)
    ∧ ((∀ v, in_field 1 31 (days s) v → v ≤ 28) → in_calendar t)
    ∧ cron_next_occurrence timestamp2tm tm2timestamp timestamptz_pl_interval (print_cron s) from
      = match tm2timestamp t with
        | Some next => Ok next
        | None => timestamptz_pl_interval from one_hour
        end.
Proof.
  intros Hs Hweek Hf Htm Hv. destruct (next_minute_ok tm Hv) as [Hok Hk].
  destruct (search_spec s _ Hs Hok) as (t & Hrun & Hfire & [Hle Hnone]).
  exists {| tm_sec := 0; tm_min := tm_min t; tm_hour := tm_hour t; tm_mday := tm_mday t;
            tm_mon := tm_mon t; tm_year := tm_year t |}.
  assert (∀ z, key {| tm_sec := z; tm_min := tm_min t; tm_hour := tm_hour t; tm_mday := tm_mday t;
            tm_mon := tm_mon t; tm_year := tm_year t |} = key t) as Hkey by done.
  split; [done|]. rewrite Hkey. split; [lia|]. split; [|split; [|split]].
  - intros t' [Ht' _] Hkt'. destruct (Z.le_gt_cases (key t) (key t')); [done|].
    destruct (Hnone t' Ht'). lia.
  - intros Hc. split; [done|]. split; [done|]. rewrite Hweek. apply any_weekday.
  - intros Hd. destruct Hfire as (Hmo & Hda & _). apply early_day; [apply Hmo|].
    cbn [tm_mday]. split; [apply Hda|by apply Hd].
  - unfold cron_next_occurrence, print_cron. rewrite Hweek.
    pose proof (fields_print _ (print_field (Every 1)) Hf any_fits) as Hp. cbn [length Nat.add] in Hp.
    cbn [print_spec minute_field hour_field day_field month_field].
    rewrite Hp. cbn [app]. rewrite Htm. fold (print_spec s). by rewrite (Hrun _ enough_rounds).
Qed.

(** The search for a schedule of that kind ends after at most five rounds, whatever
    the time it starts from: each round that finds nothing resets one more field. *)
Theorem cron_five_rounds (s : CronSpec) (tm : Tm) :
  spec_ok s → tm_valid tm →
  ∃ t, matches s t ∧ ∀ n, (5 ≤ n)%nat → cron_search n (print_spec s) (next_minute tm) = Ok t.
Proof.
  intros Hs Hv. destruct (next_minute_ok tm Hv) as [Hok _].
  destruct (search_spec s _ Hs Hok) as (t & Hrun & Hfire & _). by exists t.
Qed.

(** Every fifteen minutes from nine to ten and from 17 to 18, on the first and the 15th. *)
Definition quarter_hours : CronSpec :=
  {| minutes := Every 15; hours := Values [9; 17]; days := Values [1; 15]; months := Every 1;
     weekdays := Every 1 |}.

(** A clock for the examples: any time is 31 December 2024, 17:50. *)
Definition new_year_eve : Tm :=
  {| tm_sec := 7; tm_min := 50; tm_hour := 17; tm_mday := 31; tm_mon := 12; tm_year := 2024 |}.

Ltac solve_fits := split; [discriminate|]; split; [cbn; lia|]; repeat constructor.
Ltac solve_spec :=
  repeat split; try discriminate; try lia; repeat constructor; try lia.

Lemma cron_next_is_least_witness :
  ∃ t, tm_sec t = 0 ∧ key new_year_eve < key t
    ∧ (∀ t', fires_at quarter_hours t' → key new_year_eve < key t' → key t ≤ key t')
    ∧ (in_calendar t → fires_at quarter_hours t)
    ∧ ((∀ v, in_field 1 31 (Values [1; 15]) v → v ≤ 28) → in_calendar t)
    ∧ cron_next_occurrence (λ _, Some new_year_eve) (λ t, Some (key t)) (λ _ _, Err "")
        (str "*/15 9,17 1,15 * *") 0
      = Ok (key t).
Proof.
  apply (cron_next_is_least (λ _, Some new_year_eve) (λ t, Some (key t)) (λ _ _, Err "")
           quarter_hours 0 new_year_eve).
  - solve_spec.
  - reflexivity.
  - repeat (apply List.Forall_cons; [solve_fits|]). apply List.Forall_nil.
  - reflexivity.
  - unfold tm_valid. cbn. lia.
Defined.

Lemma cron_five_rounds_witness :
  ∃ t, matches quarter_hours t ∧
    ∀ n, (5 ≤ n)%nat → cron_search n (print_spec quarter_hours) (next_minute new_year_eve) = Ok t.
Proof.
  apply (cron_five_rounds quarter_hours new_year_eve).
  - solve_spec.
  - unfold tm_valid. cbn. lia.
Defined.

(** ** Other expressions *)

Lemma cron_list_no_comma p cur hi :
  Forall (λ c, c ≠ ","%char) p → cron_list false p cur hi = Ok None.
Proof. induction 1 as [|c p Hc _ IH]; [done|]. cbn. by rewrite bool_decide_eq_false_2. Qed.

(** A range is read as its first value, although the comment at [cron_expression_validate]
    lists ranges and the validation accepts them. *)
Theorem range_is_its_start a b cur lo hi :
  0 ≤ a < 100 → Forall (λ c, c ≠ ","%char) b →
  cron_parse_field (print_num a ++ "-"%char :: b) cur lo hi = Ok a.
Proof.
  intros Ha Hb. pose proof (cron_list_value a ("-"%char :: b) cur hi Ha eq_refl) as Hl.
  pose proof (atoi_print_num a ("-"%char :: b) Ha eq_refl) as Hat.
  destruct (print_num_head a Ha) as (c & l & E & Hc & _). rewrite E in *. cbn [app] in *.
  rewrite parse_list by (intros ->; vm_compute in Hc; done). rewrite Hl.
  destruct (_ && _); [done|]. rewrite cron_list_no_comma by by apply List.Forall_cons.
  exact Hat.
Qed.

(** A step of zero is accepted, and then the remainder by zero stops the backend. *)
Theorem step_zero_undefined (timestamp2tm : Z → option Tm) tm2timestamp timestamptz_pl_interval from tm :
  timestamp2tm from = Some tm → tm_valid tm →
  cron_expression_validate (str "0 0 1 */0 *") = None ∧
  cron_next_occurrence timestamp2tm tm2timestamp timestamptz_pl_interval (str "0 0 1 */0 *") from = Undef.
Proof.
  intros Htm Hv. split; [done|]. unfold cron_next_occurrence.
  change (cron_fields 5 (str "0 0 1 */0 *")) with [str "0"; str "0"; str "1"; str "*/0"; str "*"].
  rewrite Htm. destruct (next_minute_ok tm Hv) as [(Hmo & _) _].
  destruct max_iterations as [|n] eqn:E; [pose proof enough_rounds; lia|]. cbn [cron_search].
  unfold cron_round. cbn [month_field].
  change (cron_parse_field (str "*/0") (tm_mon (next_minute tm)) 1 12)
    with (cron_step 0 (tm_mon (next_minute tm)) 1 12).
  unfold cron_step. by destruct (Z.ltb_spec 12 (tm_mon (next_minute tm))); [lia|].
Qed.

(** The day of the week has no effect. *)
Theorem weekday_ignored (timestamp2tm : Z → option Tm) tm2timestamp timestamptz_pl_interval l w w' from :
  length l = 4%nat → Forall fits l → fits w → fits w' →
  cron_next_occurrence timestamp2tm tm2timestamp timestamptz_pl_interval (join l ++ w) from
  = cron_next_occurrence timestamp2tm tm2timestamp timestamptz_pl_interval (join l ++ w') from.
Proof.
  intros Hl Hf Hw Hw'. unfold cron_next_occurrence.
  pose proof (fields_print l w Hf Hw) as H1. pose proof (fields_print l w' Hf Hw') as H2.
  rewrite Hl in H1, H2. cbn [Nat.add] in H1, H2. rewrite H1, H2.
  by destruct l as [|? [|? [|? [|? [|? ?]]]]].
Qed.

(** A list that is not in order loses values: at minute zero, 30 comes before 10. *)
Theorem unsorted_list_skips : cron_parse_field (str "30,10") 0 0 59 = Ok 30.
Proof. reflexivity. Qed.

(** The length of a month is not checked: the job of the 31st is given the 31st of
    February. *)
Theorem day_beyond_month_end :
  cron_search 5 {| minute_field := str "0"; hour_field := str "0"; day_field := str "31";
                   month_field := str "*" |}
    (next_minute {| tm_sec := 0; tm_min := 0; tm_hour := 0; tm_mday := 31; tm_mon := 1; tm_year := 2025 |})
  = Ok {| tm_sec := 0; tm_min := 0; tm_hour := 0; tm_mday := 31; tm_mon := 2; tm_year := 2025 |}.
Proof. reflexivity. Qed.

(** A field of 64 characters is cut in two, and the fields behind it move. *)
Theorem long_field_splits :
  let minutes := str "0,1,2,3,4,5,6,7,8,9,10,11,12,13,14,15,16,17,18,19,20,21,22,23,24" in
  length minutes = 64%nat ∧
  cron_fields 5 (minutes ++ str " 12 * * *")
  = [str "0,1,2,3,4,5,6,7,8,9,10,11,12,13,14,15,16,17,18,19,20,21,22,23,2"; str "4"; str "12"; str "*";
     str "*"].
Proof. split; reflexivity. Qed.
