(* ===== verification/Stream.v ===== *)
(** * Streams of changes

    Models [src/ddl/ddl_stream.c]: the options and the definition of a stream, the tables
    [orochi_streams], [orochi_stream_columns] and [orochi_stream_offsets], and the
    questions asked of them.  The names and columns of tables come from the catalogs of
    PostgreSQL and are parameters.  A quote in a name makes another SQL statement of the
    one that is meant, which is [Undef].  Times are those of [NOW()]. *)
From stdpp Require Import sets relations.
From S2P Require Import Prelude CText.

Local Open Scope Z_scope.

Inductive StreamType := STREAM_TYPE_STANDARD | STREAM_TYPE_APPEND_ONLY | STREAM_TYPE_INSERT_ONLY.
Inductive StreamMode := STREAM_MODE_DEFAULT | STREAM_MODE_KEYS_ONLY | STREAM_MODE_FULL_BEFORE.
Inductive StreamState := STREAM_STATE_ACTIVE | STREAM_STATE_STALE | STREAM_STATE_PAUSED | STREAM_STATE_DISABLED.
Inductive StreamAction := STREAM_ACTION_INSERT | STREAM_ACTION_UPDATE | STREAM_ACTION_DELETE.

#[export] Instance StreamState_eq_dec : EqDecision StreamState.
Proof. solve_decision. Defined.

Record StreamOffset := { lsn : Z; xid : Z; timestamp : Z; sequence : Z }.
Record StreamColumn := { column_name : text; column_type : Z; is_key : bool; track_changes : bool }.

Record Stream := {
  stream_id : Z; stream_name : text; stream_schema : text; source_table_oid : Z;
  source_schema : text; source_table : text; stream_type : StreamType; stream_mode : StreamMode;
  show_initial_rows : bool; columns : list StreamColumn; stream_state : StreamState;
  has_pending_data : bool; stale_after : option Z; last_consumed_at : option Z;
  total_changes : Z; pending_changes : Z }.

Definition STREAM_MAX_NAME_LENGTH : Z := 128.

(** ** Names of the constants *)

Definition stream_type_name (t : StreamType) : text :=
  match t with
  | STREAM_TYPE_STANDARD => str "STANDARD"
  | STREAM_TYPE_APPEND_ONLY => str "APPEND_ONLY"
  | STREAM_TYPE_INSERT_ONLY => str "INSERT_ONLY"
  end.
Definition stream_parse_type (name : text) : StreamType :=
  if equal_ci name (str "STANDARD") then STREAM_TYPE_STANDARD
  else if equal_ci name (str "APPEND_ONLY") then STREAM_TYPE_APPEND_ONLY
  else if equal_ci name (str "INSERT_ONLY") then STREAM_TYPE_INSERT_ONLY
  else STREAM_TYPE_STANDARD.

Definition stream_mode_name (m : StreamMode) : text :=
  match m with
  | STREAM_MODE_DEFAULT => str "DEFAULT"
  | STREAM_MODE_KEYS_ONLY => str "KEYS_ONLY"
  | STREAM_MODE_FULL_BEFORE => str "FULL_BEFORE"
  end.
Definition stream_parse_mode (name : text) : StreamMode :=
  if equal_ci name (str "DEFAULT") then STREAM_MODE_DEFAULT
  else if equal_ci name (str "KEYS_ONLY") then STREAM_MODE_KEYS_ONLY
  else if equal_ci name (str "FULL_BEFORE") then STREAM_MODE_FULL_BEFORE
  else STREAM_MODE_DEFAULT.

Definition stream_state_name (s : StreamState) : text :=
  match s with
  | STREAM_STATE_ACTIVE => str "ACTIVE"
  | STREAM_STATE_STALE => str "STALE"
  | STREAM_STATE_PAUSED => str "PAUSED"
  | STREAM_STATE_DISABLED => str "DISABLED"
  end.
Definition stream_parse_state (name : text) : StreamState :=
  if equal_ci name (str "ACTIVE") then STREAM_STATE_ACTIVE
  else if equal_ci name (str "STALE") then STREAM_STATE_STALE
  else if equal_ci name (str "PAUSED") then STREAM_STATE_PAUSED
  else if equal_ci name (str "DISABLED") then STREAM_STATE_DISABLED
  else STREAM_STATE_ACTIVE.

Definition stream_action_name (a : StreamAction) : text :=
  match a with
  | STREAM_ACTION_INSERT => str "INSERT"
  | STREAM_ACTION_UPDATE => str "UPDATE"
  | STREAM_ACTION_DELETE => str "DELETE"
  end.

(** ** Offsets *)

Definition stream_offset_alloc : StreamOffset := {| lsn := 0; xid := 0; timestamp := 0; sequence := 0 |}.

Definition stream_offset_compare (a b : StreamOffset) : Z :=
  if lsn a <? lsn b then -1 else if lsn b <? lsn a then 1
  else if sequence a <? sequence b then -1 else if sequence b <? sequence a then 1 else 0.

Definition stream_offset_is_valid (offset : option StreamOffset) : bool :=
  match offset with Some o => negb (lsn o =? 0) | None => false end.

Definition stream_offset_copy (offset : option StreamOffset) : option StreamOffset := offset.

(** ** Definitions of streams *)

Definition stream_alloc (name : text) (oid : Z) (schema table : text) (cols : list StreamColumn) : Stream :=
  {| stream_id := 0; stream_name := name; stream_schema := schema; source_table_oid := oid;
     source_schema := schema; source_table := table; stream_type := STREAM_TYPE_STANDARD;
     stream_mode := STREAM_MODE_DEFAULT; show_initial_rows := false; columns := cols;
     stream_state := STREAM_STATE_ACTIVE; has_pending_data := false; stale_after := None;
     last_consumed_at := None; total_changes := 0; pending_changes := 0 |}.

Definition with_options (s : Stream) (t : StreamType) (m : StreamMode) (rows : bool) : Stream :=
  {| stream_id := stream_id s; stream_name := stream_name s; stream_schema := stream_schema s;
     source_table_oid := source_table_oid s; source_schema := source_schema s;
     source_table := source_table s; stream_type := t; stream_mode := m; show_initial_rows := rows;
     columns := columns s; stream_state := stream_state s; has_pending_data := has_pending_data s;
     stale_after := stale_after s; last_consumed_at := last_consumed_at s;
     total_changes := total_changes s; pending_changes := pending_changes s |}.

Definition is_true (value : text) : bool :=
  equal_ci value (str "TRUE") || bool_decide (value = str "1").

Definition set_option (s : Stream) (key value : text) : Stream :=
  if equal_ci key (str "APPEND_ONLY") || equal_ci key (str "INSERT_ONLY")
  then if is_true value
       then with_options s STREAM_TYPE_APPEND_ONLY (stream_mode s) (show_initial_rows s) else s
  else if equal_ci key (str "SHOW_INITIAL_ROWS")
  then with_options s (stream_type s) (stream_mode s) (is_true value)
  else if equal_ci key (str "MODE")
  then with_options s (stream_type s) (stream_parse_mode value) (show_initial_rows s)
  else s.

Definition key_char (c : Ascii.ascii) : bool := negb (bool_decide (c = "="%char)) && nonspace c.
Definition value_char (c : Ascii.ascii) : bool :=
  negb (bool_decide (c = ","%char)) && negb (bool_decide (c = ")"%char)) && nonspace c.

(** A value, which may be quoted, and what follows; it is cut where its buffer is full. *)
Definition parse_value (p : text) : text * text :=
  match p with
  | "'"%char :: q =>
      let value := take 255 (span (other "'"%char) q) in
      let q := drop (length value) q in
      (value, match q with "'"%char :: q => q | _ => q end)
  | _ => let value := take 255 (span value_char p) in (value, drop (length value) p)
  end.

(** The loop over the options; a key is cut where its buffer is full. *)
Fixpoint parse_options (fuel : nat) (s : Stream) (p : text) : outcome Stream :=
  match fuel with
  | O => Diverge
  | S fuel =>
      match p with
      | [] | ")"%char :: _ => Ok s
      | _ =>
          let p := skip_spaces p in
          let key := take 127 (span key_char p) in
          let p := skip (λ c, bool_decide (c = "="%char) || isspace c) (drop (length key) p) in
          let '(value, p) := parse_value p in
          parse_options fuel (set_option s key value)
            (skip (λ c, bool_decide (c = ","%char) || isspace c) p)
      end
  end.

Definition ddl_parse_stream_options (s : Stream) (options : option text) : outcome Stream :=
  match options with
  | None => Ok s
  | Some p =>
      let p := skip_spaces (skip_keyword (str "WITH") p) in
      let p := match p with "("%char :: q => q | _ => p end in
      parse_options (S (length p)) s p
  end.

Section tables.

(** The oid, the schema that was written and the columns of the table a name stands for;
    [stringToQualifiedNameList] and the lookup raise errors. *)
Context (resolve : text → outcome (Z * option text * list StreamColumn)).

Definition ddl_parse_create_stream (sql : text) : outcome Stream :=
  let p := skip_spaces (skip_keyword (str "CREATE") sql) in
  let p := skip_spaces (skip_keyword (str "STREAM") p) in
  let name := span nonspace p in
  let p := skip_spaces (drop (length name) p) in
  let p := skip_spaces (skip_keyword (str "ON") p) in
  let p := skip_spaces (skip_keyword (str "TABLE") p) in
  let table := span (λ c, nonspace c && negb (bool_decide (c = ";"%char))) p in
  let p := skip_spaces (drop (length table) p) in
  '(oid, schema, cols) ← resolve table;
  let s := stream_alloc name oid (default (str "public") schema) table cols in
  if prefix_ci (str "WITH") p then ddl_parse_stream_options s (Some p) else Ok s.
End tables.

Inductive StreamProblem := StreamIsNull | StreamNameRequired | StreamNameTooLong | TableMissing.

Definition ddl_validate_stream (stream : option Stream) : option StreamProblem :=
  match stream with
  | None => Some StreamIsNull
  | Some s =>
      if bool_decide (stream_name s = []) then Some StreamNameRequired
      else if STREAM_MAX_NAME_LENGTH <? len (stream_name s) then Some StreamNameTooLong
      else if source_table_oid s =? 0 then Some TableMissing else None
  end.

(** ** The tables *)

Record StreamCatalog := {
  streams : list Stream; stream_offsets : list (Z * StreamOffset); next_stream_id : Z }.

(** Values without quotes are what the statement says. *)
Definition plain (t : text) : bool := bool_decide ("'"%char ∉ t).

Definition new_row (s : Stream) (id : Z) : Stream :=
  {| stream_id := id; stream_name := stream_name s; stream_schema := stream_schema s;
     source_table_oid := source_table_oid s; source_schema := source_schema s;
     source_table := source_table s; stream_type := stream_type s; stream_mode := stream_mode s;
     show_initial_rows := show_initial_rows s; columns := columns s; stream_state := stream_state s;
     has_pending_data := false; stale_after := None; last_consumed_at := None; total_changes := 0;
     pending_changes := 0 |}.

(** The row takes the defaults of the table where the statement has no value; the names
    of a table and of the columns of a stream are unique. *)
Definition ddl_catalog_store_stream (s : Stream) (c : StreamCatalog) : outcome (Z * StreamCatalog) :=
  if negb (plain (stream_name s) && plain (stream_schema s) && plain (source_schema s)
           && plain (source_table s) && forallb (λ col, plain (column_name col)) (columns s))
  then Undef
  else if existsb (λ r, bool_decide (stream_schema r = stream_schema s ∧ stream_name r = stream_name s))
            (streams c)
          || negb (bool_decide (NoDup (column_name <$> columns s)))
  then Err "duplicate key value violates unique constraint"
  else
    let id := next_stream_id c in
    Ok (id, {| streams := streams c ++ [new_row s id];
               stream_offsets := stream_offsets c; next_stream_id := id + 1 |}).

Definition update_row (s r : Stream) : Stream :=
  {| stream_id := stream_id r; stream_name := stream_name r; stream_schema := stream_schema r;
     source_table_oid := source_table_oid r; source_schema := source_schema r;
     source_table := source_table r; stream_type := stream_type r; stream_mode := stream_mode r;
     show_initial_rows := show_initial_rows r; columns := columns r; stream_state := stream_state s;
     has_pending_data := has_pending_data s; stale_after := stale_after r;
     last_consumed_at := last_consumed_at s; total_changes := total_changes s;
     pending_changes := pending_changes s |}.

Definition ddl_catalog_update_stream (s : Stream) (c : StreamCatalog) : StreamCatalog :=
  {| streams := map (λ r, if stream_id r =? stream_id s then update_row s r else r) (streams c);
     stream_offsets := stream_offsets c; next_stream_id := next_stream_id c |}.

Definition ddl_catalog_delete_stream (id : Z) (c : StreamCatalog) : StreamCatalog :=
  {| streams := filter (λ r, stream_id r ≠ id) (streams c);
     stream_offsets := filter (λ o, o.1 ≠ id) (stream_offsets c); next_stream_id := next_stream_id c |}.

(** An offset refers to a stream, and there is one for each. *)
Definition ddl_catalog_update_stream_offset (id : Z) (offset : StreamOffset) (c : StreamCatalog)
    : outcome StreamCatalog :=
  if bool_decide (id ∈ stream_id <$> streams c)
  then Ok {| streams := streams c;
             stream_offsets :=
               if bool_decide (id ∈ (stream_offsets c).*1)
               then map (λ o, if o.1 =? id then (id, offset) else o) (stream_offsets c)
               else stream_offsets c ++ [(id, offset)];
             next_stream_id := next_stream_id c |}
  else Err "insert or update violates foreign key constraint".

(** ** Operations *)

Section operations.
(** The name, the schema and the columns of a table. *)
Context (describe : Z → text * text * list StreamColumn).

Definition orochi_create_stream (name : text) (oid : Z) (t : StreamType) (m : StreamMode) (rows : bool)
    (c : StreamCatalog) : outcome (Z * StreamCatalog) :=
  let '(table, schema, cols) := describe oid in
  let s := with_options (stream_alloc name oid schema table cols) t m rows in
  match ddl_validate_stream (Some s) with
  | Some _ => Err "invalid stream definition"
  | None => ddl_catalog_store_stream s c
  end.

Definition orochi_create_stream_sql (name : text) (oid : Z) (c : StreamCatalog) : outcome (Z * StreamCatalog) :=
  orochi_create_stream name oid STREAM_TYPE_STANDARD STREAM_MODE_DEFAULT false c.
End operations.

Definition orochi_drop_stream (id : Z) (if_exists : bool) (c : StreamCatalog) : StreamCatalog :=
  ddl_catalog_delete_stream id c.

Definition offset_of (id : Z) (c : StreamCatalog) : option StreamOffset :=
  snd <$> head (filter (λ o, o.1 = id) (stream_offsets c)).

Definition find_stream (id : Z) (c : StreamCatalog) : option Stream :=
  head (filter (λ s, stream_id s = id) (streams c)).

(** The query counts the offsets of the stream that are larger than the offset of the
    stream. *)
Definition orochi_stream_has_data (id : Z) (c : StreamCatalog) : bool :=
  match find_stream id c with
  | None => false
  | Some s =>
      let new := filter (λ o, o.1 = id ∧ default 0 (sequence <$> offset_of id c) < sequence o.2)
                   (stream_offsets c) in
      has_pending_data s || (0 <? len new)
  end.

Definition orochi_stream_pending_count (id : Z) (c : StreamCatalog) : Z :=
  default 0 (pending_changes <$> find_stream id c).

Definition orochi_stream_advance_offset := ddl_catalog_update_stream_offset.

(** [days_ago] is [NOW()] less 14 days. *)
Definition orochi_stream_is_stale (now days_ago : Z) (id : Z) (c : StreamCatalog) : bool :=
  match find_stream id c with
  | None => false
  | Some s =>
      bool_decide (stream_state s = STREAM_STATE_STALE)
      || match stale_after s with Some t => t <? now | None => false end
      || match offset_of id c with Some o => timestamp o <? days_ago | None => false end
  end.

Definition orochi_stream_status_sql (id : Z) (c : StreamCatalog) : outcome text :=
  match find_stream id c with
  | Some s => Ok (stream_state_name (stream_state s))
  | None => Err "stream does not exist"
  end.

(** ** Names and offsets *)

Lemma stream_names_roundtrip :
  (∀ t, stream_parse_type (stream_type_name t) = t) ∧ (∀ m, stream_parse_mode (stream_mode_name m) = m) ∧
  (∀ s, stream_parse_state (stream_state_name s) = s).
Proof. split; [by intros []|]. split; by intros []. Qed.

(** Offsets are ordered by position and sequence. *)
Theorem stream_offset_order a b c :
  stream_offset_compare a b = - stream_offset_compare b a ∧
  (stream_offset_compare a b = 0 ↔ lsn a = lsn b ∧ sequence a = sequence b) ∧
  (stream_offset_compare a b ≤ 0 → stream_offset_compare b c ≤ 0 → stream_offset_compare a c ≤ 0).
Proof.
  unfold stream_offset_compare.
  destruct (Z.ltb_spec (lsn a) (lsn b)), (Z.ltb_spec (lsn b) (lsn a)), (Z.ltb_spec (sequence a) (sequence b)),
    (Z.ltb_spec (sequence b) (sequence a)), (Z.ltb_spec (lsn b) (lsn c)), (Z.ltb_spec (lsn c) (lsn b)),
    (Z.ltb_spec (sequence b) (sequence c)), (Z.ltb_spec (sequence c) (sequence b)),
    (Z.ltb_spec (lsn a) (lsn c)), (Z.ltb_spec (lsn c) (lsn a)), (Z.ltb_spec (sequence a) (sequence c)),
    (Z.ltb_spec (sequence c) (sequence a)); lia.
Qed.

(** ** The options *)

Lemma length_rest f n p : (length (drop (length (take n (span f p))) p) ≤ length p)%nat.
Proof. rewrite length_drop. lia. Qed.

Lemma parse_value_shorter p : (length (parse_value p).2 ≤ length p)%nat.
Proof.
  assert (∀ z, (length (match z with "'"%char :: q => q | _ => z end) ≤ length z)%nat) as Hq.
  { intros z. destruct z as [|d z]; [done|]. destruct (decide (d = "'"%char)) as [->|]; [cbn; lia|].
    destruct d as [[] [] [] [] [] [] [] []]; done. }
  pose proof (length_rest value_char 255 p) as Hv.
  destruct p as [|d q]; [done|]. destruct (decide (d = "'"%char)) as [->|].
  - cbn [parse_value snd]. etransitivity; [apply Hq|]. rewrite length_drop. cbn. lia.
  - destruct d as [[] [] [] [] [] [] [] []]; try exact Hv. done.
Qed.

Lemma parse_options_total fuel s p : (length p < fuel)%nat → parse_options fuel s p ≠ Diverge.
Proof.
  revert s p. induction fuel as [|fuel IH]; intros s p Hf; [lia|]. cbn [parse_options].
  assert (∀ c q, p = c :: q → c ≠ ")"%char →
    let p := skip_spaces p in
    let key := take 127 (span key_char p) in
    let p := skip (λ c, bool_decide (c = "="%char) || isspace c) (drop (length key) p) in
    (length p < fuel)%nat) as Hshort.
  { intros c q -> Hc. cbn zeta. set (r := skip_spaces (c :: q)).
    set (w := drop (length (take 127 (span key_char r))) r).
    pose proof (length_skip (λ c, bool_decide (c = "="%char) || isspace c) w) as Hw.
    pose proof (length_skip isspace (c :: q)) as Hr. fold (skip_spaces (c :: q)) in Hr. fold r in Hr.
    pose proof (length_rest key_char 127 r) as Hk. fold w in Hk.
    destruct (isspace c) eqn:Hsp.
    { assert (length r ≤ length q)%nat by (subst r; unfold skip_spaces; cbn; rewrite Hsp; apply length_skip).
      cbn [length] in Hf. lia. }
    assert (r = c :: q) as Er by by apply skip_stop. destruct (key_char c) eqn:Hkc.
    - subst w. rewrite Er in *. cbn [span length] in *. rewrite Hkc in *. cbn [take length drop] in *.
      rewrite length_drop in *. lia.
    - assert (c = "="%char) as ->.
      { unfold key_char, nonspace in Hkc. rewrite Hsp in Hkc. cbn in Hkc. rewrite andb_true_r in Hkc.
        apply negb_false_iff in Hkc. by apply bool_decide_eq_true in Hkc. }
      clear Hw Hk Hr. subst w. rewrite Er. cbn [length] in Hf.
      pose proof (length_skip (λ c, bool_decide (c = "="%char) || isspace c) q).
      change (length (skip (λ c, bool_decide (c = "="%char) || isspace c) q) < fuel)%nat. lia. }
  destruct p as [|c q]; [done|]. destruct (decide (c = ")"%char)) as [->|Hc]; [done|].
  specialize (Hshort c q eq_refl Hc). cbv zeta in Hshort.
  set (key := take 127 (span key_char (skip_spaces (c :: q)))) in *.
  set (w := skip _ (drop (length key) (skip_spaces (c :: q)))) in *.
  assert (∀ s', (let '(value, r) := parse_value w in parse_options fuel (set_option s' key value)
            (skip (λ c, bool_decide (c = ","%char) || isspace c) r)) ≠ Diverge) as Hgo.
  { intros s'. pose proof (parse_value_shorter w) as Hv. destruct (parse_value w) as [value r].
    apply IH. cbn [snd] in Hv. pose proof (length_skip (λ c, bool_decide (c = ","%char) || isspace c) r). lia. }
  destruct c as [[] [] [] [] [] [] [] []]; try exact (Hgo s). done.
Qed.

Lemma stream_options_parse s options : ddl_parse_stream_options s options ≠ Diverge.
Proof. unfold ddl_parse_stream_options. destruct options; [|done]. apply parse_options_total. lia. Qed.

(** An option without a value takes the parenthesis with it and is not recognised. *)
Theorem bare_option_ignored s :
  ddl_parse_stream_options s (Some (str "WITH (APPEND_ONLY)")) = Ok s.
Proof. reflexivity. Qed.

(** ** Streams never have data

    [ddl_catalog_update_stream], which could set the flag, is called nowhere; these are
    the operations that are. *)
Inductive stream_step : StreamCatalog → StreamCatalog → Prop :=
| step_create describe name oid t m rows c id c' :
    orochi_create_stream describe name oid t m rows c = Ok (id, c') → stream_step c c'
| step_drop id if_exists c : stream_step c (orochi_drop_stream id if_exists c)
| step_advance id offset c c' :
    orochi_stream_advance_offset id offset c = Ok c' → stream_step c c'.

Definition no_streams : StreamCatalog := {| streams := []; stream_offsets := []; next_stream_id := 1 |}.

Definition catalog_ok (c : StreamCatalog) : Prop :=
  NoDup (stream_offsets c).*1 ∧ Forall (λ s, has_pending_data s = false) (streams c).

Lemma stream_step_ok c c' : stream_step c c' → catalog_ok c → catalog_ok c'.
Proof.
  intros Hstep [Hd Hf]. destruct Hstep as [describe name oid t m rows c id c' H|id b c|id o c c' H].
  - unfold orochi_create_stream in H. destruct (describe oid) as [[table schema] cols].
    destruct (ddl_validate_stream _); [done|]. unfold ddl_catalog_store_stream in H.
    destruct (negb _); [done|]. destruct (_ || _); [done|]. injection H as _ <-.
    split; [done|]. cbn [streams]. apply Forall_app. split; [done|]. by apply List.Forall_cons.
  - split; cbn.
    + assert (filter (λ o, o.1 ≠ id) (stream_offsets c) `sublist_of` stream_offsets c) as Hs
        by apply sublist_filter. eapply sublist_NoDup; [exact Hd|]. by apply (fmap_sublist fst).
    + apply Forall_forall. intros s [_ Hs]%list_elem_of_filter. by eapply Forall_forall in Hf.
  - unfold orochi_stream_advance_offset, ddl_catalog_update_stream_offset in H.
    destruct (bool_decide (id ∈ stream_id <$> streams c)); [|done]. injection H as <-.
    split; [|done]. cbn [stream_offsets]. destruct (bool_decide (id ∈ (stream_offsets c).*1)) eqn:E.
    + assert ((map (λ o0, if o0.1 =? id then (id, o) else o0) (stream_offsets c)).*1 = (stream_offsets c).*1) as ->;
        [|done].
      generalize (stream_offsets c) as l. intros l. induction l as [|[i x] l IH]; [done|].
      cbn [map fmap list_fmap fst]. f_equal; [|exact IH]. destruct (Z.eqb_spec i id); cbn; done.
    + apply bool_decide_eq_false in E. rewrite fmap_app. apply NoDup_app. split; [done|].
      split; [|apply NoDup_singleton]. intros x Hx [->|[]%elem_of_nil]%elem_of_cons. done.
Qed.

Lemma offset_unique id c o :
  NoDup (stream_offsets c).*1 → (id, o) ∈ stream_offsets c → offset_of id c = Some o.
Proof.
  unfold offset_of. generalize (stream_offsets c) as l. induction l as [|[i x] l IH]; [by intros _ []%elem_of_nil|].
  intros [Hn Hd]%NoDup_cons Hin. rewrite filter_cons. cbn [fst] in *. destruct (decide (i = id)) as [->|Hne].
  - apply elem_of_cons in Hin as [[= ->]|Hin]; [done|]. exfalso. apply Hn. by apply (list_elem_of_fmap_2 fst) in Hin.
  - apply IH; [done|]. apply elem_of_cons in Hin as [[= -> ->]|Hin]; done.
Qed.

(** Whatever streams are created, dropped and advanced, no stream ever has data: the
    flag is never set, and the query for new changes compares the offset of a stream with
    itself. *)
Theorem streams_never_have_data (c : StreamCatalog) (id : Z) :
  rtc stream_step no_streams c → orochi_stream_has_data id c = false.
Proof.
  intros Hr. assert (catalog_ok c) as [Hd Hf].
  { assert (catalog_ok no_streams) as H0 by (split; [apply NoDup_nil_2|constructor]). revert H0.
    induction Hr; [done|]. intros H0. apply IHHr. by eapply stream_step_ok. }
  unfold orochi_stream_has_data, find_stream. destruct (head (filter _ (streams c))) as [s|] eqn:Es; [|done].
  apply head_Some_elem_of, list_elem_of_filter in Es as [_ Hs].
  rewrite Forall_forall in Hf. rewrite (Hf s Hs). cbn [orb].
  assert (filter (λ o, o.1 = id ∧ default 0 (sequence <$> offset_of id c) < sequence o.2) (stream_offsets c) = []) as ->;
    [|done].
  destruct (filter _ _) as [|[i o] l] eqn:E; [done|]. exfalso.
  assert ((i, o) ∈ (i, o) :: l) as Hin by by left. rewrite <- E in Hin.
  apply list_elem_of_filter in Hin as [[Hi Hlt] Hin].
  cbn in Hi, Hlt. subst i. rewrite (offset_unique id c o Hd Hin) in Hlt. cbn in Hlt. lia.
Qed.

Definition orders_described (oid : Z) : text * text * list StreamColumn :=
  (str "orders", str "public", [{| column_name := str "id"; column_type := 23; is_key := true; track_changes := true |}]).

Definition one_stream : StreamCatalog :=
  match orochi_create_stream_sql orders_described (str "s") 16384 no_streams with
  | Ok (_, c) => c | _ => no_streams
  end.

Definition advanced : StreamCatalog :=
  match orochi_stream_advance_offset 1 {| lsn := 5; xid := 700; timestamp := 0; sequence := 3 |} one_stream with
  | Ok c => c | _ => no_streams
  end.

Lemma streams_never_have_data_witness :
  len (streams advanced) = 1 ∧ len (stream_offsets advanced) = 1 ∧ orochi_stream_has_data 1 advanced = false.
Proof.
  split; [reflexivity|]. split; [reflexivity|]. apply (streams_never_have_data advanced 1).
  apply (rtc_l _ _ one_stream); [|apply (rtc_l _ _ advanced); [|apply rtc_refl]].
  - apply (step_create orders_described (str "s") 16384 STREAM_TYPE_STANDARD STREAM_MODE_DEFAULT false _ 1).
    reflexivity.
  - apply (step_advance 1 {| lsn := 5; xid := 700; timestamp := 0; sequence := 3 |}). reflexivity.
Defined.
