(* ===== verification/Task.v ===== *)
(** * Tasks: their statements, their catalog and their states

    Models the rest of [src/ddl/ddl_task.c]: the parsers of schedules, conditions and
    CREATE TASK, the tables [orochi_tasks], [orochi_task_dependencies] and
    [orochi_task_runs], and the execution of a task.  The texts of SQL statements are
    made with [psprintf] and plain quotes: where a value has a quote in it, the statement
    is another one, which is [Undef] here.  What a task's own SQL does is the argument
    [SpiResult]; it does not touch the tables of this file.  Times are those of [NOW()]. *)
From stdpp Require Import sets relations.
From S2P Require Import Prelude CText Cron Stream.

Local Open Scope Z_scope.

(** ** Schedules *)

Inductive ScheduleType := SCHEDULE_TYPE_CRON | SCHEDULE_TYPE_INTERVAL | SCHEDULE_TYPE_TRIGGER.

Record TaskSchedule := {
  schedule_type : ScheduleType; cron_expression : option text; timezone : text;
  interval : option Interval }.

Definition cron_schedule (expr tz : text) : TaskSchedule :=
  {| schedule_type := SCHEDULE_TYPE_CRON; cron_expression := Some expr; timezone := tz; interval := None |}.

Definition interval_schedule (i : Interval) : TaskSchedule :=
  {| schedule_type := SCHEDULE_TYPE_INTERVAL; cron_expression := None; timezone := str "UTC";
     interval := Some i |}.

Definition microseconds (n : Z) : Interval := {| time := i64 (n * USECS_PER_SEC); day := 0; month := 0 |}.

(** The unit is lower-case and has lost an [s] at its end; the product of the number with
    60 or 3600 is of type [int]. *)
Definition interval_of (value : Z) (unit : text) : Interval :=
  if decide (unit = str "second") then microseconds value
  else if decide (unit = str "minute") then microseconds (i32 (value * 60))
  else if decide (unit = str "hour") then microseconds (i32 (value * 3600))
  else if decide (unit = str "day") then {| time := 0; day := value; month := 0 |}
  else if decide (unit = str "week") then {| time := 0; day := i32 (value * 7); month := 0 |}
  else if decide (unit = str "month") then {| time := 0; day := 0; month := value |}
  else microseconds (i32 (value * 60)).

Definition singular (unit : text) : text :=
  match last unit with
  | Some "s"%char => take (pred (length unit)) unit
  | _ => unit
  end.

Definition ddl_parse_schedule (schedule_str : text) : outcome TaskSchedule :=
  let p := skip_spaces schedule_str in
  if prefix_ci (str "USING CRON") p
  then Ok (cron_schedule (skip_spaces (drop 10 p)) (str "UTC"))
  else match p with
       | c :: _ =>
           if isdigit c
           then value ← atoi p;
                let p := skip_spaces (skip isdigit p) in
                Ok (interval_schedule
                      (interval_of value (singular (map tolower (take 31 (span nonspace p))))))
           else Ok (cron_schedule p (str "UTC"))
       | [] => Ok (cron_schedule p (str "UTC"))
       end.

Definition ddl_parse_cron_schedule (cron_expr : text) (tz : option text) : TaskSchedule :=
  cron_schedule cron_expr (default (str "UTC") tz).

Definition ddl_parse_interval_schedule (s : text) : outcome TaskSchedule :=
  if strstr (str "MINUTE") s || strstr (str "minute") s
  then n ← atoi s; Ok (interval_schedule (microseconds (i32 (n * 60))))
  else if strstr (str "HOUR") s || strstr (str "hour") s
  then n ← atoi s; Ok (interval_schedule (microseconds (i32 (n * 3600))))
  else if strstr (str "DAY") s || strstr (str "day") s
  then n ← atoi s; Ok (interval_schedule {| time := 0; day := n; month := 0 |})
  else Ok (interval_schedule {| time := 0; day := 0; month := 0 |}).

(** ** Conditions *)

Inductive TaskCondition :=
| TASK_CONDITION_NONE
| TASK_CONDITION_STREAM (stream_id : Z) (stream_name : option text)
| TASK_CONDITION_EXPRESSION (expression : option text).

Definition TASK_COND_STREAM_HAS_DATA : text := str "SYSTEM$STREAM_HAS_DATA".

(** The name between the parentheses without its quotes. *)
Definition stream_name_of (inside : text) : text :=
  let start := match inside with "'"%char :: q => q | _ => inside end in
  match last start with
  | Some "'"%char => take (pred (length start)) start
  | _ => start
  end.

Definition ddl_parse_task_condition (when_clause : option text) : TaskCondition :=
  match when_clause with
  | None => TASK_CONDITION_NONE
  | Some w =>
      let p := skip_spaces w in
      if prefix_ci TASK_COND_STREAM_HAS_DATA p
      then match skip (other "("%char) (drop (length TASK_COND_STREAM_HAS_DATA) p) with
           | _ :: q => TASK_CONDITION_STREAM 0 (Some (stream_name_of (span (other ")"%char) q)))
           | [] => TASK_CONDITION_STREAM 0 None
           end
      else TASK_CONDITION_EXPRESSION (Some w)
  end.

(** ** CREATE TASK *)

Inductive TaskState := TASK_STATE_CREATED | TASK_STATE_STARTED | TASK_STATE_SUSPENDED | TASK_STATE_FAILED.

#[export] Instance TaskState_eq_dec : EqDecision TaskState.
Proof. solve_decision. Defined.

Record Task := {
  task_id : Z; task_name : text; task_schema : option text; sql_text : option text;
  schedule : option TaskSchedule; condition : option TaskCondition; predecessor_names : list text;
  timeout_seconds : Z; error_limit : Z; state : TaskState; consecutive_failures : Z;
  last_run_at : option Z; next_run_at : option Z }.

Definition TASK_DEFAULT_TIMEOUT : Z := 3600.
Definition TASK_DEFAULT_ERROR_LIMIT : Z := 3.
Definition TASK_MAX_NAME_LENGTH : Z := 128.
Definition TASK_MAX_SQL_LENGTH : Z := 65536.

Definition task_alloc (name : text) : Task :=
  {| task_id := 0; task_name := name; task_schema := None; sql_text := None; schedule := None;
     condition := None; predecessor_names := []; timeout_seconds := TASK_DEFAULT_TIMEOUT;
     error_limit := TASK_DEFAULT_ERROR_LIMIT; state := TASK_STATE_CREATED;
     consecutive_failures := 0; last_run_at := None; next_run_at := None |}.

Definition with_clauses (t : Task) (sql : option text) (s : option TaskSchedule)
    (c : option TaskCondition) (preds : list text) : Task :=
  {| task_id := task_id t; task_name := task_name t; task_schema := task_schema t; sql_text := sql;
     schedule := s; condition := c; predecessor_names := preds; timeout_seconds := timeout_seconds t;
     error_limit := error_limit t; state := state t; consecutive_failures := consecutive_failures t;
     last_run_at := last_run_at t; next_run_at := next_run_at t |}.

Definition keyword_ahead (p : text) : bool :=
  prefix_ci (str "AS") p || prefix_ci (str "SCHEDULE") p || prefix_ci (str "WHEN") p.

Definition comma_or_space (c : Ascii.ascii) : bool := bool_decide (c = ","%char) || isspace c.
Definition name_char (c : Ascii.ascii) : bool := negb (comma_or_space c).

(** The loop over the names of an AFTER clause: the names, and where it stops. *)
Fixpoint parse_names (fuel : nat) (p : text) : outcome (list text * text) :=
  match fuel with
  | O => Diverge
  | S fuel =>
      match p with
      | [] => Ok ([], p)
      | _ =>
          if keyword_ahead p then Ok ([], p)
          else
            let p := skip_spaces p in
            let name := span name_char p in
            let p := skip comma_or_space (drop (length name) p) in
            '(names, p) ← parse_names fuel p;
            Ok (if bool_decide (name = []) then names else name :: names, p)
      end
  end.

(** The value of a SCHEDULE clause is read only when it is quoted. *)
Definition parse_schedule_clause (t : Task) (p : text) : outcome (Task * text) :=
  let p := skip (λ c, bool_decide (c = "="%char) || isspace c) (drop 8 p) in
  match p with
  | "'"%char :: q =>
      let value := span (other "'"%char) q in
      s ← ddl_parse_schedule value;
      Ok (with_clauses t (sql_text t) (Some s) (condition t) (predecessor_names t),
          drop 1 (drop (length value) q))
  | _ => Ok (t, p)
  end.

Definition parse_when_clause (t : Task) (p : text) : Task * text :=
  let '(cond, p) := until_ci (str " AS ") (skip_spaces (drop 4 p)) in
  (with_clauses t (sql_text t) (schedule t) (Some (ddl_parse_task_condition (Some cond)))
     (predecessor_names t), p).

Definition parse_after_clause (t : Task) (p : text) : outcome (Task * text) :=
  let p := skip_spaces (drop 5 p) in
  '(names, p) ← parse_names (S (length p)) p;
  Ok (if bool_decide (names = []) then t
      else with_clauses t (sql_text t) (schedule t) (condition t) names, p).

(** The loop over the clauses.  At the end of the text, when only spaces were left,
    the last [p++] goes past the terminator, and what follows is read. *)
Fixpoint parse_clauses (fuel : nat) (t : Task) (p : text) : outcome Task :=
  match fuel with
  | O => Diverge
  | S fuel =>
      match p with
      | [] => Ok t
      | _ =>
          let p := skip_spaces p in
          if prefix_ci (str "SCHEDULE") p
          then '(t, p) ← parse_schedule_clause t p; parse_clauses fuel t p
          else if prefix_ci (str "WHEN") p
          then let '(t, p) := parse_when_clause t p in parse_clauses fuel t p
          else if prefix_ci (str "AFTER") p
          then '(t, p) ← parse_after_clause t p; parse_clauses fuel t p
          else if prefix_ci (str "AS") p
          then Ok (with_clauses t (Some (skip_spaces (drop 2 p))) (schedule t) (condition t)
                     (predecessor_names t))
          else match p with
               | [] => Undef
               | _ :: q => parse_clauses fuel t q
               end
      end
  end.

Definition default_schedule (t : Task) : Task :=
  match schedule t with
  | None =>
      if bool_decide (predecessor_names t = [])
      then with_clauses t (sql_text t) (Some (cron_schedule (str "0 * * * *") (str "UTC")))
             (condition t) (predecessor_names t)
      else t
  | Some _ => t
  end.

Definition ddl_parse_create_task (sql : text) : outcome Task :=
  let p := skip_spaces (skip_keyword (str "CREATE") sql) in
  let p := skip_spaces (skip_keyword (str "TASK") p) in
  let name := span nonspace p in
  let p := drop (length name) p in
  t ← parse_clauses (S (length p)) (task_alloc name) p;
  Ok (default_schedule t).

Inductive TaskProblem :=
| TaskIsNull | NameRequired | NameTooLong | SqlRequired | SqlTooLong | CronInvalid (e : CronProblem).

Definition ddl_validate_task (task : option Task) : option TaskProblem :=
  match task with
  | None => Some TaskIsNull
  | Some t =>
      if bool_decide (task_name t = []) then Some NameRequired
      else if TASK_MAX_NAME_LENGTH <? len (task_name t) then Some NameTooLong
      else match sql_text t with
           | None | Some [] => Some SqlRequired
           | Some q =>
               if TASK_MAX_SQL_LENGTH <? len q then Some SqlTooLong
               else match schedule t with
                    | Some {| schedule_type := SCHEDULE_TYPE_CRON; cron_expression := Some e |} =>
                        CronInvalid <$> cron_expression_validate e
                    | _ => None
                    end
           end
  end.

(** ** Evaluating conditions and schedules *)

(** What happens to a statement that SPI runs: it is done, it returns a negative code, here
    as it is printed, or it raises an error. *)
Inductive SpiResult := SpiDone | SpiCode (code : text) | SpiError (msg : text).

Section conditions.
(** The value of a boolean expression; an error and a null count as false. *)
Context (eval_boolean : text → option bool) (streams_now : StreamCatalog).

(** The name of a stream is looked up in any schema. *)
Definition task_condition_evaluate (c : option TaskCondition) : bool :=
  match c with
  | None | Some TASK_CONDITION_NONE => true
  | Some (TASK_CONDITION_STREAM id name) =>
      if 0 <? id then orochi_stream_has_data id streams_now
      else match name with
           | None => false
           | Some n =>
               match head (filter (λ s, stream_name s = n) (streams streams_now)) with
               | Some s => if 0 <? stream_id s then orochi_stream_has_data (stream_id s) streams_now
                           else false
               | None => false
               end
           end
  | Some (TASK_CONDITION_EXPRESSION e) =>
      match e with Some e => default false (eval_boolean e) | None => true end
  end.

Definition task_should_execute (t : Task) : bool :=
  if bool_decide (state t = TASK_STATE_STARTED)
  then match condition t with Some _ => task_condition_evaluate (condition t) | None => true end
  else false.
End conditions.

Section next_run.
Context (timestamp2tm : Z → option Tm) (tm2timestamp : Tm → option Z)
        (timestamptz_pl_interval : Z → Interval → outcome Z).

(** A cron schedule without an expression would be dereferenced. *)
Definition task_calculate_next_run (now : Z) (t : Task) : outcome Z :=
  match schedule t with
  | None => Ok 0
  | Some s =>
      match schedule_type s with
      | SCHEDULE_TYPE_CRON =>
          e ← deref (cron_expression s);
          cron_next_occurrence timestamp2tm tm2timestamp timestamptz_pl_interval e now
      | SCHEDULE_TYPE_INTERVAL =>
          match interval s with Some i => timestamptz_pl_interval now i | None => Ok 0 end
      | SCHEDULE_TYPE_TRIGGER => Ok 0
      end
  end.
End next_run.

(** ** The catalog *)

Inductive TaskRunState :=
  TASK_RUN_SCHEDULED | TASK_RUN_RUNNING | TASK_RUN_SUCCEEDED | TASK_RUN_FAILED | TASK_RUN_SKIPPED
| TASK_RUN_CANCELLED.

#[export] Instance TaskRunState_eq_dec : EqDecision TaskRunState.
Proof. solve_decision. Defined.

Record TaskRow := {
  row_id : Z; row_name : text; row_schema : text; row_sql : text; row_type : ScheduleType;
  row_cron : option text; row_timeout : Z; row_state : TaskState; row_limit : Z; row_failures : Z;
  row_last_run : option Z; row_next_run : option Z }.

Record RunRow := {
  run_id : Z; run_task : Z; run_state : TaskRunState; scheduled_time : Z; finished_at : option Z;
  error_message : option text }.

(** The dependencies are pairs of a task and the name of its predecessor. *)
Record TaskCatalog := {
  task_rows : list TaskRow; dep_rows : list (Z * text); run_rows : list RunRow;
  next_task_id : Z; next_run_id : Z }.

Definition set_row (r : TaskRow) (st : TaskState) (failures : Z) (last next : option Z) : TaskRow :=
  {| row_id := row_id r; row_name := row_name r; row_schema := row_schema r; row_sql := row_sql r;
     row_type := row_type r; row_cron := row_cron r; row_timeout := row_timeout r; row_state := st;
     row_limit := row_limit r; row_failures := failures; row_last_run := last; row_next_run := next |}.

(** [UPDATE ... WHERE task_id = id]. *)
Definition update_task_rows (id : Z) (f : TaskRow → TaskRow) (c : TaskCatalog) : TaskCatalog :=
  {| task_rows := map (λ r, if row_id r =? id then f r else r) (task_rows c); dep_rows := dep_rows c;
     run_rows := run_rows c; next_task_id := next_task_id c; next_run_id := next_run_id c |}.

Definition opt_plain (t : option text) : bool := match t with Some t => plain t | None => true end.

(** The row of a task: its interval and its condition are in no column of the statement. *)
Definition row_of (t : Task) (id : Z) (sql : text) : TaskRow :=
  {| row_id := id; row_name := task_name t; row_schema := default (str "public") (task_schema t);
     row_sql := sql;
     row_type := match schedule t with Some s => schedule_type s | None => SCHEDULE_TYPE_CRON end;
     row_cron := schedule t ≫= cron_expression; row_timeout := timeout_seconds t;
     row_state := state t; row_limit := error_limit t; row_failures := 0; row_last_run := None;
     row_next_run := None |}.

Definition ddl_catalog_store_task (t : Task) (c : TaskCatalog) : outcome (Z * TaskCatalog) :=
  sql ← deref (sql_text t);
  let r := row_of t (next_task_id c) sql in
  if negb (plain (row_name r) && plain (row_schema r) && plain sql && opt_plain (row_cron r)
           && forallb plain (predecessor_names t))
  then Undef
  else if existsb (λ q, bool_decide (row_schema q = row_schema r ∧ row_name q = row_name r)) (task_rows c)
  then Err "duplicate key value violates unique constraint"
  else Ok (row_id r,
           {| task_rows := task_rows c ++ [r];
              dep_rows := dep_rows c ++ map (λ n, (row_id r, n)) (predecessor_names t);
              run_rows := run_rows c; next_task_id := next_task_id c + 1; next_run_id := next_run_id c |}).

Definition ddl_catalog_update_task (t : Task) (c : TaskCatalog) : outcome TaskCatalog :=
  sql ← deref (sql_text t);
  if plain sql
  then Ok (update_task_rows (task_id t)
             (λ r, {| row_id := row_id r; row_name := row_name r; row_schema := row_schema r;
                      row_sql := sql; row_type := row_type r; row_cron := row_cron r;
                      row_timeout := row_timeout r; row_state := state t; row_limit := row_limit r;
                      row_failures := consecutive_failures t; row_last_run := last_run_at t;
                      row_next_run := next_run_at t |}) c)
  else Undef.

Definition ddl_catalog_delete_task (id : Z) (c : TaskCatalog) : TaskCatalog :=
  {| task_rows := filter (λ r, row_id r ≠ id) (task_rows c);
     dep_rows := filter (λ d, d.1 ≠ id) (dep_rows c);
     run_rows := filter (λ r, run_task r ≠ id) (run_rows c);
     next_task_id := next_task_id c; next_run_id := next_run_id c |}.

Definition find_row (id : Z) (c : TaskCatalog) : option TaskRow :=
  head (filter (λ r, row_id r = id) (task_rows c)).

Definition ddl_catalog_create_task_run (id scheduled : Z) (c : TaskCatalog) : outcome (Z * TaskCatalog) :=
  match find_row id c with
  | None => Err "insert or update violates foreign key constraint"
  | Some _ =>
      let run := next_run_id c in
      Ok (run, {| task_rows := task_rows c; dep_rows := dep_rows c;
                  run_rows := run_rows c ++
                    [{| run_id := run; run_task := id; run_state := TASK_RUN_RUNNING;
                        scheduled_time := scheduled; finished_at := None; error_message := None |}];
                  next_task_id := next_task_id c; next_run_id := run + 1 |})
  end.

Definition finish_run (now : Z) (st : TaskRunState) (msg : option text) (r : RunRow) : RunRow :=
  {| run_id := run_id r; run_task := run_task r; run_state := st; scheduled_time := scheduled_time r;
     finished_at := Some now; error_message := msg |}.

Definition ddl_catalog_finish_task_run (now run : Z) (st : TaskRunState) (msg : option text)
    (c : TaskCatalog) : outcome TaskCatalog :=
  if opt_plain msg
  then Ok {| task_rows := task_rows c; dep_rows := dep_rows c;
             run_rows := map (λ r, if run_id r =? run then finish_run now st msg r else r) (run_rows c);
             next_task_id := next_task_id c; next_run_id := next_run_id c |}
  else Undef.

(** ** Operations *)

Definition new_task (name sql : text) (s : option TaskSchedule) (cond : option TaskCondition) : Task :=
  {| task_id := 0; task_name := name; task_schema := Some (str "public"); sql_text := Some sql;
     schedule := s; condition := cond; predecessor_names := []; timeout_seconds := TASK_DEFAULT_TIMEOUT;
     error_limit := TASK_DEFAULT_ERROR_LIMIT; state := TASK_STATE_CREATED;
     consecutive_failures := 0; last_run_at := None; next_run_at := None |}.

Definition orochi_create_task (name sql : text) (s : option TaskSchedule) (cond : option TaskCondition)
    (c : TaskCatalog) : outcome (Z * TaskCatalog) :=
  let t := new_task name sql s cond in
  match ddl_validate_task (Some t) with
  | Some _ => Err "invalid task definition"
  | None => ddl_catalog_store_task t c
  end.

Definition orochi_create_task_sql (name schedule sql : text) (c : TaskCatalog) : outcome (Z * TaskCatalog) :=
  s ← ddl_parse_schedule schedule;
  orochi_create_task name sql (Some s) None c.

Definition orochi_drop_task (id : Z) (if_exists : bool) (c : TaskCatalog) : TaskCatalog :=
  ddl_catalog_delete_task id c.

(** The fields that are not in the query are zero: the condition is among them. *)
Definition task_load_from_catalog (id : Z) (c : TaskCatalog) : option Task :=
  (λ r, {| task_id := id; task_name := row_name r; task_schema := Some (row_schema r);
           sql_text := Some (row_sql r); schedule := None; condition := None; predecessor_names := [];
           timeout_seconds := 0; error_limit := 0; state := row_state r;
           consecutive_failures := row_failures r; last_run_at := None; next_run_at := None |})
  <$> find_row id c.

Definition after_success (now : Z) (r : TaskRow) : TaskRow :=
  set_row r (row_state r) 0 (Some now) (Some (now + 3600 * USECS_PER_SEC)).

Definition after_failure (now : Z) (r : TaskRow) : TaskRow :=
  set_row r (if row_limit r <=? row_failures r + 1 then TASK_STATE_SUSPENDED else row_state r)
    (row_failures r + 1) (Some now) (row_next_run r).

Definition orochi_execute_task (eval_boolean : text → option bool) (streams_now : StreamCatalog)
    (now : Z) (result : SpiResult) (id : Z) (c : TaskCatalog) : outcome (Z * TaskCatalog) :=
  match task_load_from_catalog id c with
  | None => Err "task does not exist"
  | Some t =>
      if bool_decide (state t = TASK_STATE_SUSPENDED) || bool_decide (state t = TASK_STATE_FAILED)
      then Err "task is not in a runnable state"
      else
        '(run, c) ← ddl_catalog_create_task_run id now c;
        if match condition t with
           | Some _ => negb (task_condition_evaluate eval_boolean streams_now (condition t))
           | None => false
           end
        then c ← ddl_catalog_finish_task_run now run TASK_RUN_SKIPPED (Some (str "Condition not met")) c;
             Ok (run, c)
        else
          let '(final_state, msg) :=
            match result with
            | SpiDone => (TASK_RUN_SUCCEEDED, None)
            | SpiCode code => (TASK_RUN_FAILED, Some (str "SPI execution failed with code " ++ code))
            | SpiError msg => (TASK_RUN_FAILED, Some msg)
            end in
          c ← ddl_catalog_finish_task_run now run final_state msg c;
          Ok (run, update_task_rows id
                     (if bool_decide (final_state = TASK_RUN_SUCCEEDED) then after_success now
                      else after_failure now) c)
  end.

Definition orochi_resume_task (now id : Z) (c : TaskCatalog) : outcome TaskCatalog :=
  match find_row id c with
  | None => Err "task does not exist"
  | Some _ => Ok (update_task_rows id (λ r, set_row r TASK_STATE_STARTED 0 (row_last_run r) (Some now)) c)
  end.

Definition orochi_suspend_task (id : Z) (c : TaskCatalog) : outcome TaskCatalog :=
  match find_row id c with
  | None => Err "task does not exist"
  | Some _ =>
      Ok (update_task_rows id
            (λ r, set_row r TASK_STATE_SUSPENDED (row_failures r) (row_last_run r) None) c)
  end.

Definition task_state_name (s : TaskState) : text :=
  match s with
  | TASK_STATE_CREATED => str "CREATED"
  | TASK_STATE_STARTED => str "STARTED"
  | TASK_STATE_SUSPENDED => str "SUSPENDED"
  | TASK_STATE_FAILED => str "FAILED"
  end.
Definition task_parse_state (name : text) : TaskState :=
  if equal_ci name (str "CREATED") then TASK_STATE_CREATED
  else if equal_ci name (str "STARTED") then TASK_STATE_STARTED
  else if equal_ci name (str "SUSPENDED") then TASK_STATE_SUSPENDED
  else if equal_ci name (str "FAILED") then TASK_STATE_FAILED
  else TASK_STATE_CREATED.

Definition task_run_state_name (s : TaskRunState) : text :=
  match s with
  | TASK_RUN_SCHEDULED => str "SCHEDULED"
  | TASK_RUN_RUNNING => str "RUNNING"
  | TASK_RUN_SUCCEEDED => str "SUCCEEDED"
  | TASK_RUN_FAILED => str "FAILED"
  | TASK_RUN_SKIPPED => str "SKIPPED"
  | TASK_RUN_CANCELLED => str "CANCELLED"
  end.
Definition task_parse_run_state (name : text) : TaskRunState :=
  if equal_ci name (str "SCHEDULED") then TASK_RUN_SCHEDULED
  else if equal_ci name (str "RUNNING") then TASK_RUN_RUNNING
  else if equal_ci name (str "SUCCEEDED") then TASK_RUN_SUCCEEDED
  else if equal_ci name (str "FAILED") then TASK_RUN_FAILED
  else if equal_ci name (str "SKIPPED") then TASK_RUN_SKIPPED
  else if equal_ci name (str "CANCELLED") then TASK_RUN_CANCELLED
  else TASK_RUN_SCHEDULED.

Definition schedule_type_name (t : ScheduleType) : text :=
  match t with
  | SCHEDULE_TYPE_CRON => str "CRON"
  | SCHEDULE_TYPE_INTERVAL => str "INTERVAL"
  | SCHEDULE_TYPE_TRIGGER => str "TRIGGER"
  end.

Definition orochi_task_status_sql (id : Z) (c : TaskCatalog) : outcome text :=
  match find_row id c with
  | Some r => Ok (task_state_name (row_state r))
  | None => Err "task does not exist"
  end.

(** ** The parser ends *)

Lemma skip_shorter f c p : f c = true → (length (skip f (c :: p)) < length (c :: p))%nat.
Proof. intros H. cbn. rewrite H. pose proof (length_skip f p). lia. Qed.

Lemma names_shorter p :
  p ≠ [] →
  (length (skip comma_or_space (drop (length (span name_char (skip_spaces p))) (skip_spaces p))) < length p)%nat.
Proof.
  intros Hp. destruct p as [|c p]; [done|]. rewrite drop_span.
  destruct (isspace c) eqn:Hc.
  - pose proof (skip_shorter isspace c p Hc). unfold skip_spaces.
    pose proof (length_skip comma_or_space (skip name_char (skip isspace (c :: p)))).
    pose proof (length_skip name_char (skip isspace (c :: p))). lia.
  - assert (skip_spaces (c :: p) = c :: p) as -> by by apply skip_stop.
    destruct (name_char c) eqn:Hn.
    + pose proof (skip_shorter name_char c p Hn).
      pose proof (length_skip comma_or_space (skip name_char (c :: p))). lia.
    + rewrite (skip_stop name_char) by done. apply skip_shorter.
      unfold name_char in Hn. by apply negb_false_iff.
Qed.

Lemma parse_names_total fuel p :
  (length p < fuel)%nat →
  ∃ names q, parse_names fuel p = Ok (names, q) ∧ (length q ≤ length p)%nat.
Proof.
  revert p. induction fuel as [|fuel IH]; intros p Hf; [lia|]. cbn [parse_names].
  destruct p as [|c p]; [by exists [], []|]. destruct (keyword_ahead _); [by eexists [], _|].
  pose proof (names_shorter (c :: p) ltac:(done)) as Hs.
  edestruct (IH (skip comma_or_space (drop (length (span name_char (skip_spaces (c :: p)))) (skip_spaces (c :: p)))))
    as (names & q & E & Hq); [lia|].
  rewrite E. cbn [mbind outcome_bind]. eexists _, q. split; [done|lia].
Qed.

Lemma atoi_no_diverge p : atoi p ≠ Diverge.
Proof. unfold atoi. by destruct_if. Qed.

Lemma parse_schedule_no_diverge p : ddl_parse_schedule p ≠ Diverge.
Proof.
  unfold ddl_parse_schedule. destruct (prefix_ci _ _); [done|]. destruct (skip_spaces p) as [|c q]; [done|].
  destruct (isdigit c); [|done]. pose proof (atoi_no_diverge (c :: q)). by destruct (atoi (c :: q)).
Qed.

Lemma parse_clauses_total fuel t p : (length p < fuel)%nat → parse_clauses fuel t p ≠ Diverge.
Proof.
  revert t p. induction fuel as [|fuel IH]; intros t p Hf; [lia|]. cbn [parse_clauses].
  destruct p as [|c p]; [done|]. pose proof (length_skip isspace (c :: p)) as Hs.
  fold (skip_spaces (c :: p)) in Hs. set (r := skip_spaces (c :: p)) in *. clearbody r.
  destruct (prefix_ci (str "SCHEDULE") r) eqn:E1; [|destruct (prefix_ci (str "WHEN") r) eqn:E2;
    [|destruct (prefix_ci (str "AFTER") r) eqn:E3; [|destruct (prefix_ci (str "AS") r); [done|]]]].
  - apply prefix_ci_length in E1. cbn in E1. unfold parse_schedule_clause.
    pose proof (length_skip (λ c, bool_decide (c = "="%char) || isspace c) (drop 8 r)) as Hk.
    rewrite length_drop in Hk. destruct (skip _ (drop 8 r)) as [|d q] eqn:Eq.
    + cbn [mbind outcome_bind]. apply IH. cbn. lia.
    + assert (∀ t', parse_clauses fuel t' (drop 1 (drop (length (span (other "'"%char) q)) q)) ≠ Diverge) as Hq.
      { intros t'. apply IH. rewrite !length_drop. cbn [length] in Hk. lia. }
      assert (parse_clauses fuel t (d :: q) ≠ Diverge) as Hr by (apply IH; lia).
      destruct (decide (d = "'"%char)) as [->|Hd].
      * pose proof (parse_schedule_no_diverge (span (other "'"%char) q)).
        destruct (ddl_parse_schedule _); cbn [mbind outcome_bind]; done.
      * destruct d as [[] [] [] [] [] [] [] []]; try exact Hr. done.
  - apply prefix_ci_length in E2. cbn in E2. unfold parse_when_clause.
    pose proof (until_ci_spec (str " AS ") (skip_spaces (drop 4 r))) as Hu.
    destruct (until_ci _ _) as [a q]. apply IH. apply (f_equal length) in Hu. cbn [fst snd] in Hu.
    rewrite length_app in Hu. pose proof (length_skip isspace (drop 4 r)) as Hk.
    rewrite length_drop in Hk. unfold skip_spaces in Hu. lia.
  - apply prefix_ci_length in E3. cbn in E3. unfold parse_after_clause.
    destruct (parse_names_total (S (length (skip_spaces (drop 5 r)))) (skip_spaces (drop 5 r)) ltac:(lia))
      as (names & q & -> & Hq). cbn [mbind outcome_bind].
    pose proof (length_skip isspace (drop 5 r)) as Hk. rewrite length_drop in Hk.
    unfold skip_spaces in Hq. apply IH. lia.
  - destruct r as [|d q]; [done|]. apply IH. cbn [length] in *. lia.
Qed.

(** The parser of CREATE TASK ends on every text: each turn of its loops, also of
    those that do not move on by themselves, takes at least one character. *)
Theorem create_task_parses (sql : text) : ddl_parse_create_task sql ≠ Diverge.
Proof.
  unfold ddl_parse_create_task.
  match goal with |- context[parse_clauses ?n ?t ?p] => pose proof (parse_clauses_total n t p ltac:(lia)) end.
  by destruct (parse_clauses _ _ _).
Qed.

(** ** Statements are read as they are written *)

Record TaskStatement := {
  s_name : text; s_schedule : option text; s_after : list text; s_when : option text; s_sql : text }.

Fixpoint print_names (l : list text) : text :=
  match l with
  | [] => []
  | [n] => n
  | n :: l => n ++ str ", " ++ print_names l
  end.

(** The clauses from the back: each begins with a space, but for the one that follows
    the names, whose space they take. *)
Definition print_as (s : TaskStatement) : text := str "AS " ++ s_sql s.
Definition print_when (s : TaskStatement) : text :=
  match s_when s with
  | Some c => str "WHEN " ++ c ++ str " " ++ print_as s
  | None => print_as s
  end.
Definition print_after (s : TaskStatement) : text :=
  match s_after s with
  | [] => print_when s
  | l => str "AFTER " ++ print_names l ++ str " " ++ print_when s
  end.
Definition print_statement (s : TaskStatement) : text :=
  str "CREATE TASK " ++ s_name s ++
  match s_schedule s with
  | Some v => str " SCHEDULE = '" ++ v ++ str "' " ++ print_after s
  | None => str " " ++ print_after s
  end.

Definition starts_well (p : text) : Prop := match p with c :: _ => isspace c = false | [] => True end.

Definition name_ok (n : text) : Prop :=
  n ≠ [] ∧ Forall (λ c, name_char c = true) n ∧ keyword_ahead n = false.

Record statement_ok (s : TaskStatement) (sched : option TaskSchedule) : Prop := {
  ok_name : s_name s ≠ [] ∧ Forall (λ c, nonspace c = true) (s_name s);
  ok_schedule : match s_schedule s, sched with
                | Some v, Some sch => Forall (λ c, c ≠ "'"%char) v ∧ ddl_parse_schedule v = Ok sch
                | None, None => True
                | _, _ => False
                end;
  ok_after : Forall name_ok (s_after s);
  ok_when : match s_when s with
            | Some c => starts_well c ∧ c ≠ [] ∧ until_ci (str " AS ") (c ++ str " AS ") = (c, str " AS ")
            | None => True
            end;
  ok_sql : starts_well (s_sql s) }.

Lemma prefix_ci_before kw n c r :
  Forall (λ k, same_ci k c = false) kw → prefix_ci kw (n ++ c :: r) = prefix_ci kw n.
Proof.
  revert n. induction kw as [|k kw IH]; intros n Hc; [by destruct n|].
  apply Forall_cons in Hc as [Hk Hc]. destruct n as [|d n]; cbn; [by rewrite Hk|]. by rewrite IH.
Qed.

Lemma keyword_before n c r :
  c = ","%char ∨ c = " "%char → keyword_ahead (n ++ c :: r) = keyword_ahead n.
Proof.
  intros Hc. unfold keyword_ahead.
  by rewrite !prefix_ci_before by (destruct Hc as [-> | ->]; repeat constructor).
Qed.

Lemma prefix_ci_extend kw p r :
  (length kw ≤ length p)%nat → prefix_ci kw (p ++ r) = prefix_ci kw p.
Proof.
  revert p. induction kw as [|k kw IH]; intros p Hl; [by destruct p|].
  destruct p as [|c p]; cbn in *; [lia|]. rewrite IH by lia. done.
Qed.

Lemma until_ci_extend kw c r :
  until_ci kw (c ++ kw) = (c, kw) → kw ≠ [] → until_ci kw (c ++ kw ++ r) = (c, kw ++ r).
Proof.
  intros H Hk. induction c as [|x c IH].
  - cbn [app] in *. destruct kw as [|k kw]; [done|]. cbn [app until_ci].
    change (k :: kw ++ r) with ((k :: kw) ++ r). by rewrite prefix_ci_app.
  - cbn [app until_ci] in H |- *. change (x :: c ++ kw) with ((x :: c) ++ kw) in H.
    change (x :: c ++ kw ++ r) with ((x :: c) ++ kw ++ r). rewrite app_assoc.
    rewrite prefix_ci_extend by (rewrite length_app; lia). destruct (prefix_ci kw ((x :: c) ++ kw)); [done|].
    destruct (until_ci kw (c ++ kw)) as [a b]. injection H as -> ->.
    by rewrite (IH eq_refl).
Qed.

Lemma not_space_name c : name_char c = true → isspace c = false.
Proof. unfold name_char, comma_or_space. destruct (isspace c); [|done]. by rewrite orb_true_r. Qed.

Lemma skip_spaces_name n r : name_ok n → skip_spaces (n ++ r) = n ++ r.
Proof.
  intros (Hne & Hc & _). destruct n as [|c n]; [done|]. apply Forall_cons in Hc as [Hc _].
  apply skip_stop. by apply not_space_name.
Qed.

(** A statement goes on with a word that ends the names. *)
Definition ends_names (r : text) : Prop := r ≠ [] ∧ keyword_ahead r = true ∧ starts_well r ∧
  match r with c :: _ => c ≠ ","%char | [] => True end.

Lemma parse_names_print l r fuel :
  l ≠ [] → Forall name_ok l → ends_names r → (length l < fuel)%nat →
  parse_names fuel (print_names l ++ str " " ++ r) = Ok (l, r).
Proof.
  intros Hl Hn (Hrne & Hkw & Hsp & Hcomma). revert fuel.
  assert (skip comma_or_space r = r) as Hr.
  { destruct r as [|c r]; [done|]. apply skip_stop. unfold comma_or_space. cbn in Hsp.
    by rewrite Hsp, bool_decide_eq_false_2. }
  assert (∀ n rest q fuel names, name_ok n → rest = str " " ++ q ∨ rest = str ", " ++ q →
    skip comma_or_space q = q → parse_names fuel q = Ok (names, r) →
    parse_names (S fuel) (n ++ rest) = Ok (n :: names, r)) as Hone.
  { intros n rest q fuel names (Hne & Hc & Hk) Hrest Hq Hp. cbn [parse_names].
    destruct (n ++ rest) as [|c w] eqn:E; [by apply app_nil in E as [-> _]|]. rewrite <- E. clear c w E.
    assert (keyword_ahead (n ++ rest) = false) as ->.
    { destruct Hrest as [-> | ->]; cbn [str String.list_ascii_of_string app]; rewrite keyword_before; auto. }
    rewrite skip_spaces_name by by split. rewrite span_all by done.
    assert (span name_char rest = []) as -> by (by destruct Hrest as [-> | ->]).
    rewrite app_nil_r, drop_app_length.
    assert (skip comma_or_space rest = q) as ->.
    { destruct Hrest as [-> | ->]; [exact Hq|]. exact Hq. }
    rewrite Hp. cbn [mbind outcome_bind]. by rewrite bool_decide_eq_false_2. }
  induction Hn as [|n l Hn Hns IH]; [done|]. intros fuel Hf. destruct fuel as [|fuel]; [lia|].
  destruct l as [|m l].
  - cbn [print_names]. apply (Hone n _ r); [done|by left|done|].
    destruct fuel as [|fuel]; [cbn in Hf; lia|]. cbn [parse_names]. by destruct r; [|rewrite Hkw].
  - change (print_names (n :: m :: l)) with (n ++ str ", " ++ print_names (m :: l)).
    rewrite <- !app_assoc. apply (Hone n _ (print_names (m :: l) ++ str " " ++ r)); [done|by right| |].
    + apply Forall_cons in Hns as [(Hne & Hc & _) _].
      assert (∃ c w, print_names (m :: l) = c :: w ∧ name_char c = true) as (c & w & -> & Hcw).
      { destruct m as [|c m]; [done|]. apply Forall_cons in Hc as [Hc _].
        destruct l; cbn [print_names app]; by eexists _, _. }
      apply skip_stop. unfold name_char in Hcw. by apply negb_true_iff.
    + apply IH; [done|]. cbn [length] in *. lia.
Qed.

Section statement.
Context (s : TaskStatement) (sched : option TaskSchedule).
Hypothesis Hs : statement_ok s sched.

(** What the rest of a statement does to the task. *)
Definition after_as (t : Task) : Task :=
  with_clauses t (Some (s_sql s)) (schedule t) (condition t) (predecessor_names t).
Definition after_when (t : Task) : Task :=
  match s_when s with
  | Some c => with_clauses t (Some (s_sql s)) (schedule t) (Some (ddl_parse_task_condition (Some c)))
                (predecessor_names t)
  | None => after_as t
  end.
Definition after_after (t : Task) : Task :=
  match s_after s with
  | [] => after_when t
  | l => after_when (with_clauses t (sql_text t) (schedule t) (condition t) l)
  end.

Lemma parse_as fuel t pre :
  pre = [] ∨ pre = str " " → parse_clauses (S fuel) t (pre ++ print_as s) = Ok (after_as t).
Proof.
  intros Hpre. assert (skip_spaces (str " " ++ s_sql s) = s_sql s) as Hsql.
  { change (skip_spaces (s_sql s) = s_sql s). pose proof (ok_sql _ _ Hs) as H. unfold starts_well in H.
    destruct (s_sql s); [done|]. by apply skip_stop. }
  transitivity (Ok (with_clauses t (Some (skip_spaces (str " " ++ s_sql s))) (schedule t) (condition t)
                      (predecessor_names t))); [by destruct Hpre as [-> | ->]|by rewrite Hsql].
Qed.

Lemma parse_when fuel t pre :
  pre = [] ∨ pre = str " " → parse_clauses (S (S fuel)) t (pre ++ print_when s) = Ok (after_when t).
Proof.
  intros Hpre. unfold print_when, after_when. pose proof (ok_when _ _ Hs) as Hw.
  destruct (s_when s) as [c|]; [|by apply parse_as]. destruct Hw as (Hsp & Hne & Hu).
  assert (parse_when_clause t (str "WHEN " ++ c ++ str " " ++ print_as s)
          = (with_clauses t (sql_text t) (schedule t) (Some (ddl_parse_task_condition (Some c)))
               (predecessor_names t), str " " ++ print_as s)) as Hc.
  { unfold parse_when_clause.
    assert (skip_spaces (drop 4 (str "WHEN " ++ c ++ str " " ++ print_as s)) = c ++ str " AS " ++ s_sql s) as ->.
    { change (skip_spaces (c ++ str " AS " ++ s_sql s) = c ++ str " AS " ++ s_sql s).
      destruct c as [|x c]; [done|]. by apply skip_stop. }
    by rewrite until_ci_extend. }
  assert (parse_clauses (S (S fuel)) t (pre ++ str "WHEN " ++ c ++ str " " ++ print_as s)
    = let '(t, p) := parse_when_clause t (str "WHEN " ++ c ++ str " " ++ print_as s) in
      parse_clauses (S fuel) t p) as ->.
  { by destruct Hpre as [-> | ->]. }
  rewrite Hc, parse_as by auto. done.
Qed.

Lemma when_ends_names : ends_names (print_when s).
Proof.
  unfold ends_names, print_when. destruct (s_when s); (split; [done|]); (split; [done|]); done.
Qed.

Lemma print_names_length l : Forall name_ok l → (length l ≤ length (print_names l))%nat.
Proof.
  induction 1 as [|n l (Hne & _) _ IH]; [done|]. assert (1 ≤ length n)%nat by (destruct n; [done|cbn; lia]).
  destruct l as [|m l]; [cbn [print_names length]; lia|].
  change (print_names (n :: m :: l)) with (n ++ str ", " ++ print_names (m :: l)).
  rewrite !length_app. cbn [length] in *. lia.
Qed.

Lemma parse_after fuel t pre :
  pre = [] ∨ pre = str " " → parse_clauses (S (S (S fuel))) t (pre ++ print_after s) = Ok (after_after t).
Proof.
  intros Hpre. unfold print_after, after_after. pose proof (ok_after _ _ Hs) as Ha.
  destruct (s_after s) as [|n l]; [by apply parse_when|].
  set (rest := print_names (n :: l) ++ str " " ++ print_when s).
  assert (parse_after_clause t (str "AFTER " ++ rest)
          = Ok (with_clauses t (sql_text t) (schedule t) (condition t) (n :: l), print_when s)) as Hc.
  { unfold parse_after_clause.
    assert (skip_spaces (drop 5 (str "AFTER " ++ rest)) = rest) as ->.
    { change (skip_spaces rest = rest). subst rest. apply Forall_cons in Ha as [Hn _].
      destruct l; cbn [print_names]; rewrite <- ?app_assoc; by apply skip_spaces_name. }
    subst rest. rewrite parse_names_print; [done|done|done|apply when_ends_names|].
    rewrite length_app. pose proof (print_names_length _ Ha). lia. }
  assert (parse_clauses (S (S (S fuel))) t (pre ++ str "AFTER " ++ rest)
    = '(t, p) ← parse_after_clause t (str "AFTER " ++ rest); parse_clauses (S (S fuel)) t p) as ->.
  { by destruct Hpre as [-> | ->]. }
  rewrite Hc. cbn [mbind outcome_bind]. rewrite <- (app_nil_l (print_when s)), parse_when by auto. done.
Qed.
End statement.

(** The task that a statement describes. *)
Definition task_of (s : TaskStatement) (sched : option TaskSchedule) : Task :=
  default_schedule
    (with_clauses (task_alloc (s_name s)) (Some (s_sql s)) sched
       ((λ c, ddl_parse_task_condition (Some c)) <$> s_when s) (s_after s)).

(** A CREATE TASK statement that is written with its clauses in the order SCHEDULE,
    AFTER, WHEN, AS is read back as it was written: the name, the schedule, the names of
    the predecessors, the condition and the SQL text; an hourly schedule is added when it
    has neither a schedule nor predecessors. *)
Theorem create_task_roundtrip (s : TaskStatement) (sched : option TaskSchedule) :
  statement_ok s sched → ddl_parse_create_task (print_statement s) = Ok (task_of s sched).
Proof.
  intros Hs. destruct (ok_name _ _ Hs) as [Hne Hns].
  assert (∀ r, ddl_parse_create_task (str "CREATE TASK " ++ s_name s ++ str " " ++ r)
    = t ← parse_clauses (S (S (length r))) (task_alloc (s_name s)) (str " " ++ r); Ok (default_schedule t)) as Hp.
  { intros r. unfold ddl_parse_create_task.
    assert (skip_spaces (skip_keyword (str "TASK") (skip_spaces (skip_keyword (str "CREATE")
              (str "CREATE TASK " ++ s_name s ++ str " " ++ r)))) = s_name s ++ str " " ++ r) as ->.
    { change (skip_spaces (s_name s ++ str " " ++ r) = s_name s ++ str " " ++ r).
      destruct (s_name s) as [|c n]; [done|]. apply Forall_cons in Hns as [Hc _].
      apply skip_stop. unfold nonspace in Hc. by apply negb_true_iff. }
    rewrite span_all by done. assert (span nonspace (str " " ++ r) = []) as -> by done.
    by rewrite app_nil_r, drop_app_length. }
  assert (3 ≤ length (print_as s))%nat as Has by (unfold print_as; rewrite length_app; cbn; lia).
  assert (3 ≤ length (print_after s))%nat as Hl.
  { unfold print_after, print_when. destruct (s_after s), (s_when s); rewrite ?length_app; lia. }
  pose proof (ok_schedule _ _ Hs) as Hsch. unfold print_statement, task_of.
  destruct (s_schedule s) as [v|], sched as [sch|]; try done.
  - destruct Hsch as [Hq Hsch].
    change (str " SCHEDULE = '" ++ v ++ str "' " ++ print_after s)
      with (str " " ++ str "SCHEDULE = '" ++ v ++ str "' " ++ print_after s).
    rewrite Hp. set (r := str "SCHEDULE = '" ++ v ++ str "' " ++ print_after s).
    assert (3 ≤ length r)%nat as Hr by (subst r; rewrite !length_app; lia).
    destruct (length r) as [|[|[|n]]]; try lia.
    assert (parse_schedule_clause (task_alloc (s_name s)) r
      = Ok (with_clauses (task_alloc (s_name s)) None (Some sch) None [], str " " ++ print_after s)) as Hc.
    { transitivity (
        let q := v ++ str "' " ++ print_after s in
        s' ← ddl_parse_schedule (span (other "'"%char) q);
        Ok (with_clauses (task_alloc (s_name s)) None (Some s') None [],
            drop 1 (drop (length (span (other "'"%char) q)) q))); [done|].
      cbv zeta. rewrite span_all.
      2: { eapply Forall_impl; [exact Hq|]. intros c Hcq. unfold other. by rewrite bool_decide_eq_false_2. }
      assert (span (other "'"%char) (str "' " ++ print_after s) = []) as -> by done.
      rewrite app_nil_r, Hsch. cbn [mbind outcome_bind]. by rewrite drop_app_length. }
    assert (parse_clauses (S (S (S (S (S n))))) (task_alloc (s_name s)) (str " " ++ r)
      = '(t, p) ← parse_schedule_clause (task_alloc (s_name s)) r;
        parse_clauses (S (S (S (S n)))) t p) as -> by done.
    rewrite Hc. cbn [mbind outcome_bind]. rewrite (parse_after s (Some sch)) by auto.
    cbn [mbind outcome_bind]. unfold after_after, after_when, after_as.
    by destruct (s_after s), (s_when s).
  - rewrite Hp. destruct (length (print_after s)) as [|[|[|n]]]; try lia.
    rewrite (parse_after s None) by auto. cbn [mbind outcome_bind].
    unfold after_after, after_when, after_as. by destruct (s_after s), (s_when s).
Qed.

Definition example_statement : TaskStatement :=
  {| s_name := str "load_orders"; s_schedule := Some (str "USING CRON 0 * * * *");
     s_after := [str "extract"; str "clean"]; s_when := Some (str "SYSTEM$STREAM_HAS_DATA('orders')");
     s_sql := str "INSERT INTO target SELECT * FROM orders" |}.

Lemma create_task_roundtrip_witness :
  ddl_parse_create_task (print_statement example_statement)
  = Ok (task_of example_statement (Some (cron_schedule (str "0 * * * *") (str "UTC")))).
Proof.
  apply (create_task_roundtrip example_statement (Some (cron_schedule (str "0 * * * *") (str "UTC")))).
  split.
  - split; [discriminate|]. apply (bool_decide_unpack _). vm_compute. exact I.
  - split; [|reflexivity]. apply (bool_decide_unpack _). vm_compute. exact I.
  - repeat (apply List.Forall_cons; [split; [discriminate|]; split; [|reflexivity];
      apply (bool_decide_unpack _); vm_compute; exact I|]). apply List.Forall_nil.
  - split; [reflexivity|]. split; [discriminate|]. vm_compute. reflexivity.
  - reflexivity.
Defined.

(** The documented order has WHEN before AFTER, and then the condition takes the names. *)
Theorem when_swallows_after :
  (λ t, (predecessor_names t, condition t)) <$>
    ddl_parse_create_task (str "CREATE TASK t SCHEDULE = '5 MINUTE' WHEN x > 0 AFTER u AS SELECT 1")
  = Ok ([], Some (TASK_CONDITION_EXPRESSION (Some (str "x > 0 AFTER u")))).
Proof. vm_compute. reflexivity. Qed.

(** A predecessor whose name begins with AS ends the clause, and the rest of it is SQL. *)
Theorem predecessor_as_prefix :
  (λ t, (predecessor_names t, sql_text t)) <$> ddl_parse_create_task (str "CREATE TASK t AFTER assets AS SELECT 1")
  = Ok ([], Some (str "sets AS SELECT 1")).
Proof. vm_compute. reflexivity. Qed.

(** A statement that ends in a space before its AS clause makes the parser read on behind it. *)
Theorem trailing_space_overruns : ddl_parse_create_task (str "CREATE TASK t SCHEDULE = '5 MINUTE' ") = Undef.
Proof. vm_compute. reflexivity. Qed.

(** With a new line in front of AS the condition takes the whole statement. *)
Theorem newline_before_as :
  (λ t, ddl_validate_task (Some t)) <$>
    ddl_parse_create_task (str "CREATE TASK t WHEN x > 0" ++ [char 10] ++ str "AS SELECT 1")
  = Ok (Some SqlRequired).
Proof. vm_compute. reflexivity. Qed.

(** A cron expression that begins with a digit is read as an interval, of no minutes here. *)
Theorem cron_text_read_as_interval :
  ddl_parse_schedule (str "0 * * * *") = Ok (interval_schedule {| time := 0; day := 0; month := 0 |}).
Proof. vm_compute. reflexivity. Qed.

(** The number of hours times 3600 is an [int]: 600000 hours are a negative interval. *)
Theorem long_interval_negative :
  ddl_parse_schedule (str "600000 HOURS")
  = Ok (interval_schedule {| time := - 2134967296 * 1000000; day := 0; month := 0 |}).
Proof. vm_compute. reflexivity. Qed.

(** ** The catalog stays well-formed *)

Inductive task_step : TaskCatalog → TaskCatalog → Prop :=
| step_create_task name schedule sql c id c' :
    orochi_create_task_sql name schedule sql c = Ok (id, c') → task_step c c'
| step_drop_task id b c : task_step c (orochi_drop_task id b c)
| step_execute_task eval streams_now now result id c run c' :
    orochi_execute_task eval streams_now now result id c = Ok (run, c') → task_step c c'
| step_resume_task now id c c' : orochi_resume_task now id c = Ok c' → task_step c c'
| step_suspend_task id c c' : orochi_suspend_task id c = Ok c' → task_step c c'.

Definition no_tasks : TaskCatalog :=
  {| task_rows := []; dep_rows := []; run_rows := []; next_task_id := 1; next_run_id := 1 |}.

Record row_ok (r : TaskRow) : Prop := {
  row_not_failed : row_state r ≠ TASK_STATE_FAILED;
  row_limit_is : row_limit r = TASK_DEFAULT_ERROR_LIMIT;
  row_counts : 0 ≤ row_failures r ≤ row_limit r;
  row_runnable : row_state r ≠ TASK_STATE_SUSPENDED → row_failures r < row_limit r }.

Definition run_ok (r : RunRow) : Prop :=
  (run_state r = TASK_RUN_SUCCEEDED ∧ error_message r = None ∨
   run_state r = TASK_RUN_FAILED ∧ error_message r ≠ None) ∧ finished_at r ≠ None.

Record tasks_ok (c : TaskCatalog) : Prop := {
  ids_unique : NoDup (row_id <$> task_rows c);
  ids_below : Forall (λ r, row_id r < next_task_id c) (task_rows c);
  names_unique : NoDup ((λ r, (row_schema r, row_name r)) <$> task_rows c);
  rows_ok : Forall row_ok (task_rows c);
  run_ids_unique : NoDup (run_id <$> run_rows c);
  run_ids_below : Forall (λ r, run_id r < next_run_id c) (run_rows c);
  runs_ok : Forall run_ok (run_rows c) }.

Lemma NoDup_fmap_filter {A B} (f : A → B) (P : A → Prop) `{∀ x, Decision (P x)} l :
  NoDup (f <$> l) → NoDup (f <$> filter P l).
Proof. intros Hd. eapply sublist_NoDup; [exact Hd|]. apply (fmap_sublist f), sublist_filter. Qed.

Lemma Forall_filter_1 {A} (P Q : A → Prop) `{∀ x, Decision (Q x)} l :
  Forall P l → Forall P (filter Q l).
Proof. rewrite !Forall_forall. intros H' x [_ Hx]%list_elem_of_filter. auto. Qed.

(** An update that keeps the key of a row. *)
Lemma fmap_update_same {A B} (f : A → B) (p : A → bool) (g : A → A) (l : list A) :
  (∀ x, f (g x) = f x) → f <$> map (λ r, if p r then g r else r) l = f <$> l.
Proof.
  intros H. induction l as [|x l IH]; [done|]. cbn. f_equal; [|exact IH]. by destruct (p x).
Qed.

Lemma Forall_update {A} (P : A → Prop) (p : A → bool) (g : A → A) (l : list A) :
  Forall P l → (∀ x, x ∈ l → p x = true → P x → P (g x)) → Forall P (map (λ r, if p r then g r else r) l).
Proof.
  intros H Hg. apply Forall_fmap. rewrite Forall_forall in *. intros x Hx. cbn.
  destruct (p x) eqn:E; auto.
Qed.

Lemma update_rows_ok id f c :
  tasks_ok c →
  (∀ r, row_id (f r) = row_id r ∧ row_schema (f r) = row_schema r ∧ row_name (f r) = row_name r) →
  (∀ r, r ∈ task_rows c → row_id r = id → row_ok r → row_ok (f r)) →
  tasks_ok (update_task_rows id f c).
Proof.
  intros [H1 H2 H3 H4 H5 H6 H7] Hf Hok. split; cbn; try done.
  - rewrite fmap_update_same; [done|apply Hf].
  - apply Forall_update; [done|]. intros x _ _ Hx. destruct (Hf x) as [-> _]. done.
  - rewrite fmap_update_same; [done|]. intros x. destruct (Hf x) as (_ & -> & ->). done.
  - apply Forall_update; [done|]. intros x Hx Hid%Z.eqb_eq. auto.
Qed.

Lemma find_row_spec id c r : find_row id c = Some r → r ∈ task_rows c ∧ row_id r = id.
Proof. intros [??]%head_Some_elem_of%list_elem_of_filter. done. Qed.

Lemma row_unique id c r r' :
  tasks_ok c → find_row id c = Some r → r' ∈ task_rows c → row_id r' = id → r' = r.
Proof.
  intros Hok [Hr Hid]%find_row_spec Hr' Hid'. pose proof (ids_unique _ Hok) as Hd.
  apply list_elem_of_lookup in Hr as [i Hi]. apply list_elem_of_lookup in Hr' as [j Hj].
  assert (i = j) as ->; [|congruence].
  apply (NoDup_lookup _ i j id Hd); rewrite list_lookup_fmap, ?Hi, ?Hj; cbn; congruence.
Qed.

Lemma create_task_ok name schedule sql c id c' :
  orochi_create_task_sql name schedule sql c = Ok (id, c') → tasks_ok c → tasks_ok c'.
Proof.
  intros H [H1 H2 H3 H4 H5 H6 H7]. unfold orochi_create_task_sql in H.
  destruct (ddl_parse_schedule schedule) as [s| | |]; try done. cbn [mbind outcome_bind] in H.
  unfold orochi_create_task in H. destruct (ddl_validate_task _); [done|].
  unfold ddl_catalog_store_task in H. cbn [new_task sql_text deref mbind outcome_bind] in H.
  destruct (negb _); [done|]. destruct (existsb _ _) eqn:Eu; [done|]. injection H as <- <-.
  assert (∀ q, q ∈ task_rows c → ¬ (row_schema q = str "public" ∧ row_name q = name)) as Hu.
  { intros q Hq Hs. apply Bool.not_true_iff_false in Eu. apply Eu. apply existsb_exists.
    exists q. split; [by apply list_elem_of_In|]. by apply bool_decide_eq_true_2. }
  split; cbn; try done.
  - rewrite fmap_app. apply NoDup_app. split; [done|]. split; [|apply NoDup_singleton].
    intros x (r & -> & Hr)%list_elem_of_fmap Hx%list_elem_of_singleton. rewrite Forall_forall in H2.
    specialize (H2 r Hr). cbn in Hx. lia.
  - apply Forall_app. split; [eapply Forall_impl; [exact H2|]; cbn; lia|].
    apply Forall_singleton. cbn. lia.
  - rewrite fmap_app. apply NoDup_app. split; [done|]. split; [|apply NoDup_singleton].
    intros x (r & -> & Hr)%list_elem_of_fmap Hx%list_elem_of_singleton. injection Hx as Hs Hn.
    by apply (Hu r Hr).
  - apply Forall_app. split; [done|]. apply Forall_singleton. by split; cbn; try done; intros; lia.
Qed.

Lemma create_run_spec id now c run c' :
  ddl_catalog_create_task_run id now c = Ok (run, c') →
  run = next_run_id c ∧ task_rows c' = task_rows c ∧ next_task_id c' = next_task_id c
  ∧ next_run_id c' = run + 1 ∧ dep_rows c' = dep_rows c
  ∧ ∃ r, run_rows c' = run_rows c ++ [r] ∧ run_id r = run ∧ run_task r = id.
Proof.
  unfold ddl_catalog_create_task_run. destruct (find_row id c); [|done]. intros [= <- <-].
  cbn. repeat (split; [done|]). by eexists.
Qed.

Lemma map_update_absent {A} (p : A → bool) (g : A → A) (l : list A) :
  (∀ x, x ∈ l → p x = false) → map (λ r, if p r then g r else r) l = l.
Proof.
  induction l as [|x l IH]; intros H; [done|]. cbn. rewrite (H x) by by left.
  f_equal. apply IH. intros y Hy. apply H. by right.
Qed.

(** Creating and finishing a run appends one record. *)
Lemma run_recorded id now st msg c run c1 c2 :
  Forall (λ r, run_id r < next_run_id c) (run_rows c) →
  ddl_catalog_create_task_run id now c = Ok (run, c1) →
  ddl_catalog_finish_task_run now run st msg c1 = Ok c2 →
  run = next_run_id c ∧ task_rows c2 = task_rows c ∧ next_task_id c2 = next_task_id c
  ∧ next_run_id c2 = run + 1 ∧ dep_rows c2 = dep_rows c
  ∧ ∃ r, run_rows c2 = run_rows c ++ [finish_run now st msg r] ∧ run_id r = run ∧ run_task r = id.
Proof.
  intros Hb (-> & E1 & E2 & E3 & E4 & r & E5 & E6 & E7)%create_run_spec Hf.
  unfold ddl_catalog_finish_task_run in Hf. destruct (opt_plain msg); [|done]. injection Hf as <-.
  cbn. rewrite E1, E2, E3, E4, E5, map_app, map_update_absent.
  - cbn. rewrite E6, Z.eqb_refl. repeat (split; [done|]). by exists r.
  - intros x Hx. rewrite Forall_forall in Hb. specialize (Hb x Hx). apply Z.eqb_neq. lia.
Qed.

Definition run_outcome (result : SpiResult) : TaskRunState * option text :=
  match result with
  | SpiDone => (TASK_RUN_SUCCEEDED, None)
  | SpiCode code => (TASK_RUN_FAILED, Some (str "SPI execution failed with code " ++ code))
  | SpiError msg => (TASK_RUN_FAILED, Some msg)
  end.

Definition row_after (now : Z) (result : SpiResult) : TaskRow → TaskRow :=
  match result with SpiDone => after_success now | _ => after_failure now end.

Definition runnable (r : TaskRow) : bool :=
  negb (bool_decide (row_state r = TASK_STATE_SUSPENDED) || bool_decide (row_state r = TASK_STATE_FAILED)).

Lemma execute_unfold eval streams_now now result id c :
  orochi_execute_task eval streams_now now result id c
  = match find_row id c with
    | None => Err "task does not exist"
    | Some r =>
        if runnable r
        then '(run, c) ← ddl_catalog_create_task_run id now c;
             c ← ddl_catalog_finish_task_run now run (run_outcome result).1 (run_outcome result).2 c;
             Ok (run, update_task_rows id (row_after now result) c)
        else Err "task is not in a runnable state"
    end.
Proof.
  unfold orochi_execute_task, task_load_from_catalog. destruct (find_row id c) as [r|]; [|done].
  cbn [fmap option_fmap option_map state condition]. unfold runnable.
  destruct (_ || _); [done|]. cbn [negb]. destruct (ddl_catalog_create_task_run id now c) as [[run c1]| | |]; try done.
  cbn [mbind outcome_bind]. by destruct result.
Qed.

Lemma execute_spec eval streams_now now result id c run c' :
  Forall (λ r, run_id r < next_run_id c) (run_rows c) →
  orochi_execute_task eval streams_now now result id c = Ok (run, c') →
  ∃ r q, find_row id c = Some r ∧ runnable r = true ∧ run = next_run_id c
  ∧ next_run_id c' = run + 1 ∧ next_task_id c' = next_task_id c ∧ dep_rows c' = dep_rows c
  ∧ task_rows c' = map (λ r, if row_id r =? id then row_after now result r else r) (task_rows c)
  ∧ run_rows c' = run_rows c ++ [finish_run now (run_outcome result).1 (run_outcome result).2 q]
  ∧ run_id q = run ∧ run_task q = id.
Proof.
  intros Hb. rewrite execute_unfold. destruct (find_row id c) as [r|]; [|done].
  destruct (runnable r) eqn:Er; [|done].
  destruct (ddl_catalog_create_task_run id now c) as [[run1 c1]| | |] eqn:E1; try done.
  cbn [mbind outcome_bind]. destruct (ddl_catalog_finish_task_run _ _ _ _ _) as [c2| | |] eqn:E2; try done.
  cbn [mbind outcome_bind]. intros [= <- <-].
  destruct (run_recorded _ _ _ _ _ _ _ _ Hb E1 E2) as (? & ? & ? & ? & ? & q & ? & ? & ?).
  exists r, q. cbn. split_and!; try done. congruence.
Qed.

Lemma row_after_fields now result r :
  row_id (row_after now result r) = row_id r ∧ row_schema (row_after now result r) = row_schema r ∧
  row_name (row_after now result r) = row_name r ∧ row_limit (row_after now result r) = row_limit r.
Proof. by destruct result. Qed.

Lemma runnable_states r : runnable r = true ↔ row_state r ≠ TASK_STATE_SUSPENDED ∧ row_state r ≠ TASK_STATE_FAILED.
Proof.
  unfold runnable. rewrite negb_true_iff, orb_false_iff, !bool_decide_eq_false. done.
Qed.

Lemma row_after_ok now result r : runnable r = true → row_ok r → row_ok (row_after now result r).
Proof.
  intros [Hs _]%runnable_states [H1 H2 H3 H4]. specialize (H4 Hs).
  assert (row_ok (after_success now r)) by (split; cbn; try done; intros; unfold TASK_DEFAULT_ERROR_LIMIT in *; lia).
  assert (row_ok (after_failure now r)); [|by destruct result].
  split; unfold after_failure; cbn.
  - by destruct (Z.leb_spec (row_limit r) (row_failures r + 1)).
  - done.
  - lia.
  - destruct (Z.leb_spec (row_limit r) (row_failures r + 1)); [done|]. intros; lia.
Qed.

Lemma task_step_ok c c' : task_step c c' → tasks_ok c → tasks_ok c'.
Proof.
  intros Hstep Hok. destruct Hstep as [name schedule sql c id c' H|id b c|eval sn now result id c run c' H|
    now id c c' H|id c c' H].
  - by eapply create_task_ok.
  - destruct Hok as [H1 H2 H3 H4 H5 H6 H7]. split; cbn; try by apply NoDup_fmap_filter.
    all: by apply Forall_filter_1.
  - destruct (execute_spec _ _ _ _ _ _ _ _ (run_ids_below _ Hok) H)
      as (r & q & Hr & Hrun & Eid & En & Et & Ed & Erows & Eruns & Hq1 & Hq2).
    assert (tasks_ok (update_task_rows id (row_after now result) c)) as [K1 K2 K3 K4 _ _ _].
    { apply update_rows_ok; [done|intros x; pose proof (row_after_fields now result x); tauto|].
      intros x Hx Hid Hxo. rewrite (row_unique id c r x Hok Hr Hx Hid) in *. by apply row_after_ok. }
    destruct Hok as [H1 H2 H3 H4 H5 H6 H7]. cbn in K1, K2, K3, K4.
    split; rewrite ?Erows, ?Eruns, ?Et, ?En; try done.
    + rewrite fmap_app. apply NoDup_app. split; [done|]. split; [|apply NoDup_singleton].
      intros x (y & -> & Hy)%list_elem_of_fmap Hx%list_elem_of_singleton. rewrite Forall_forall in H6.
      specialize (H6 y Hy). cbn in Hx. lia.
    + apply Forall_app. split; [eapply Forall_impl; [exact H6|]; cbn; lia|]. apply Forall_singleton. cbn. lia.
    + apply Forall_app. split; [done|]. apply Forall_singleton. split; [|done].
      destruct result; cbn; auto.
  - unfold orochi_resume_task in H. destruct (find_row id c); [|done]. injection H as <-.
    apply update_rows_ok; [done|done|]. intros x _ _ [K1 K2 K3 K4].
    split; cbn; try done; intros; unfold TASK_DEFAULT_ERROR_LIMIT in *; lia.
  - unfold orochi_suspend_task in H. destruct (find_row id c); [|done]. injection H as <-.
    apply update_rows_ok; [done|done|]. intros x _ _ [K1 K2 K3 K4]. by split.
Qed.

Lemma reachable_tasks_ok c : rtc task_step no_tasks c → tasks_ok c.
Proof.
  intros Hr. assert (tasks_ok no_tasks) as H0 by (split; cbn; constructor). revert H0.
  induction Hr; [done|]. intros H0. apply IHHr. by eapply task_step_ok.
Qed.

(** In every catalog that creating, dropping, executing, resuming and suspending tasks
    lead to, identifiers and names are unique, each run is finished as succeeded without an
    error or as failed with one, no task has more failures in a row than its limit, and a
    task that reached the limit is suspended; the state FAILED never occurs. *)
Theorem task_catalog_well_formed (c : TaskCatalog) : rtc task_step no_tasks c → tasks_ok c.
Proof. apply reachable_tasks_ok. Qed.

Definition catalog_after {A} (r : outcome (A * TaskCatalog)) : TaskCatalog :=
  match r with Ok (_, c) => c | _ => no_tasks end.

Definition hourly : TaskCatalog :=
  catalog_after (orochi_create_task_sql (str "t") (str "USING CRON 0 * * * *") (str "SELECT 1") no_tasks).
Definition hourly_failed : TaskCatalog :=
  catalog_after (orochi_execute_task (λ _, None) no_streams 5 (SpiError (str "boom")) 1 hourly).

Lemma task_catalog_well_formed_witness :
  row_failures <$> task_rows hourly_failed = [1] ∧ tasks_ok hourly_failed.
Proof.
  split; [reflexivity|]. apply (task_catalog_well_formed hourly_failed).
  apply (rtc_l _ _ hourly); [|apply (rtc_l _ _ hourly_failed); [|apply rtc_refl]].
  - apply (step_create_task (str "t") (str "USING CRON 0 * * * *") (str "SELECT 1") no_tasks 1). reflexivity.
  - apply (step_execute_task (λ _, None) no_streams 5 (SpiError (str "boom")) 1 hourly 1). reflexivity.
Defined.

(** ** When a task is suspended *)

Definition failing (r : SpiResult) : bool := match r with SpiDone => false | _ => true end.

(** The failures at the end of a history. *)
Fixpoint streak_of (l : list SpiResult) : Z :=
  match l with r :: l => if failing r then streak_of l + 1 else 0 | [] => 0 end.
Definition streak (history : list SpiResult) : Z := streak_of (reverse history).

Lemma streak_snoc l r : streak (l ++ [r]) = if failing r then streak l + 1 else 0.
Proof. unfold streak. by rewrite reverse_snoc. Qed.

Definition result_plain (r : SpiResult) : bool := opt_plain (run_outcome r).2.

Section history.
Context (eval : text → option bool) (streams_now : StreamCatalog) (now id : Z).

Fixpoint execute_all (history : list SpiResult) (c : TaskCatalog) : outcome TaskCatalog :=
  match history with
  | [] => Ok c
  | r :: history => '(_, c) ← orochi_execute_task eval streams_now now r id c; execute_all history c
  end.

Lemma execute_all_snoc l r c :
  execute_all (l ++ [r]) c
  = c ← execute_all l c; '(_, c) ← orochi_execute_task eval streams_now now r id c; Ok c.
Proof.
  revert c. induction l as [|x l IH]; intros c; [done|]. cbn [app execute_all].
  destruct (orochi_execute_task _ _ _ x id c) as [[? c']| | |]; try done. cbn [mbind outcome_bind]. apply IH.
Qed.

Lemma execute_runs r row c :
  find_row id c = Some row → runnable row = true → result_plain r = true →
  ∃ run c', orochi_execute_task eval streams_now now r id c = Ok (run, c')
    ∧ find_row id c' = Some (row_after now r row).
Proof.
  intros Hf Hr Hp. rewrite execute_unfold, Hf, Hr. unfold ddl_catalog_create_task_run. rewrite Hf.
  cbn [mbind outcome_bind]. unfold ddl_catalog_finish_task_run. unfold result_plain in Hp. rewrite Hp.
  cbn [mbind outcome_bind]. eexists _, _. split; [done|]. revert Hf. unfold find_row, update_task_rows. cbn.
  generalize (task_rows c) as l. induction l as [|x l IH]; [done|]. cbn [map]. rewrite !filter_cons.
  destruct (Z.eqb_spec (row_id x) id) as [Hid|Hid].
  - destruct (decide (row_id x = id)); [|done]. intros [= ->].
    destruct (row_after_fields now r row) as [E _]. destruct (decide _); [done|congruence].
  - destruct (decide (row_id x = id)); [done|]. destruct (decide (row_id x = id)); [done|]. exact IH.
Qed.

Lemma execute_refused r row c :
  find_row id c = Some row → runnable row = false →
  orochi_execute_task eval streams_now now r id c = Err "task is not in a runnable state".
Proof. intros Hf Hr. by rewrite execute_unfold, Hf, Hr. Qed.

Definition too_many (history : list SpiResult) : Prop :=
  ∃ p q, history = p ++ q ∧ q ≠ [] ∧ streak p = TASK_DEFAULT_ERROR_LIMIT.

Lemma history_spec history c row :
  tasks_ok c → find_row id c = Some row → runnable row = true → row_failures row = 0 →
  Forall (λ r, result_plain r = true) history →
  match execute_all history c with
  | Ok c' => ¬ too_many history ∧ tasks_ok c' ∧ ∃ r', find_row id c' = Some r'
      ∧ row_failures r' = streak history
      ∧ (row_state r' = TASK_STATE_SUSPENDED ↔ streak history = TASK_DEFAULT_ERROR_LIMIT)
  | Err _ => too_many history
  | _ => False
  end.
Proof.
  intros Hok Hrow Hrun Hz. induction history as [|r l IH] using rev_ind; intros Hp.
  - cbn. split; [intros (p & q & Hpq & Hq & _); symmetry in Hpq; by apply app_nil in Hpq as [_ ->]|].
    split; [done|]. exists row. split; [done|]. split; [done|].
    apply runnable_states in Hrun as [Hs _]. unfold TASK_DEFAULT_ERROR_LIMIT. split; [done|].
    change (streak []) with 0. lia.
  - apply Forall_app in Hp as [Hp [Hr _]%Forall_cons]. specialize (IH Hp). rewrite execute_all_snoc.
    destruct (execute_all l c) as [c1|e| |]; try done.
    2: { destruct IH as (p & q & -> & Hq & Hs). exists p, (q ++ [r]). split; [by rewrite app_assoc|].
         split; [|done]. by destruct q. }
    destruct IH as (Hno & Hok1 & r1 & Hf1 & Hc1 & Hs1). cbn [mbind outcome_bind].
    pose proof (find_row_spec _ _ _ Hf1) as [Hin1 _].
    pose proof (proj1 (Forall_forall _ _) (rows_ok _ Hok1) r1 Hin1) as [K1 K2 K3 K4].
    destruct (runnable r1) eqn:Er1.
    + destruct (execute_runs r r1 c1 Hf1 Er1 Hr) as (run & c2 & E2 & Hf2). rewrite E2. cbn [mbind outcome_bind].
      apply runnable_states in Er1 as Hst. destruct Hst as [Hst _]. specialize (K4 Hst). split.
      { intros (p & q & Hpq & Hq & Hs). destruct q as [|x q] using rev_ind; [done|]. clear IHq.
        rewrite app_assoc in Hpq. apply app_inj_tail in Hpq as [-> ->].
        destruct q as [|y q]; [rewrite app_nil_r in *; lia|]. apply Hno. by exists p, (y :: q). }
      split; [by eapply task_step_ok; [eapply step_execute_task; exact E2|]|].
      exists (row_after now r r1). split; [done|]. rewrite streak_snoc, <- Hc1.
      destruct r; cbn [failing row_after after_success after_failure set_row row_failures row_state];
        unfold TASK_DEFAULT_ERROR_LIMIT in *; (split; [done|]).
      * split; [done|]. lia.
      * rewrite K2. destruct (Z.leb_spec 3 (row_failures r1 + 1)); split; try done; lia.
      * rewrite K2. destruct (Z.leb_spec 3 (row_failures r1 + 1)); split; try done; lia.
    + rewrite (execute_refused r r1 c1 Hf1 Er1). cbn [mbind outcome_bind]. exists l, [r].
      split; [done|]. split; [done|]. apply Hs1. destruct (row_state r1) eqn:Es; try done.
      all: unfold runnable in Er1; rewrite Es in Er1; done.
Qed.
End history.

(** A task without failures that is executed again and again is suspended exactly when
    the last three executions failed; the executions go on as long as no three of them failed
    in a row, and the next one is refused. *)
Theorem third_failure_suspends (eval : text → option bool) (streams_now : StreamCatalog) (now id : Z)
    (history : list SpiResult) (c : TaskCatalog) (row : TaskRow) :
  rtc task_step no_tasks c → find_row id c = Some row → runnable row = true → row_failures row = 0 →
  Forall (λ r, result_plain r = true) history →
  match execute_all eval streams_now now id history c with
  | Ok c' => ¬ too_many history ∧ tasks_ok c' ∧ ∃ r', find_row id c' = Some r'
      ∧ row_failures r' = streak history
      ∧ (row_state r' = TASK_STATE_SUSPENDED ↔ streak history = TASK_DEFAULT_ERROR_LIMIT)
  | Err _ => too_many history
  | _ => False
  end.
Proof. intros Hr. apply history_spec. by apply reachable_tasks_ok. Qed.

Lemma third_failure_suspends_witness :
  too_many [SpiError []; SpiDone; SpiError []; SpiError []; SpiError []; SpiDone].
Proof.
  refine (third_failure_suspends (λ _, None) no_streams 5 1
           [SpiError []; SpiDone; SpiError []; SpiError []; SpiError []; SpiDone] hourly
           (row_of (new_task (str "t") (str "SELECT 1") (Some (cron_schedule (str "0 * * * *") (str "UTC"))) None)
              1 (str "SELECT 1")) _ _ _ _ _).
  - apply (rtc_l _ _ hourly); [|apply rtc_refl].
    apply (step_create_task (str "t") (str "USING CRON 0 * * * *") (str "SELECT 1") no_tasks 1). reflexivity.
  - reflexivity.
  - reflexivity.
  - reflexivity.
  - repeat constructor.
Defined.

(** The condition of a task is not loaded: executing it does not depend on conditions. *)
Theorem condition_not_checked eval eval' streams_now streams_now' now result id c :
  orochi_execute_task eval streams_now now result id c = orochi_execute_task eval' streams_now' now result id c.
Proof. by rewrite !execute_unfold. Qed.

(** The interval of a schedule is not stored: tasks for every five minutes and for every
    week have the same row. *)
Theorem interval_not_stored name sql c :
  orochi_create_task_sql name (str "5 MINUTES") sql c = orochi_create_task_sql name (str "1 WEEK") sql c.
Proof. reflexivity. Qed.

(** A task that does not exist may be dropped, whatever [if_exists] says. *)
Theorem drop_missing_task id b c :
  find_row id c = None → task_rows (orochi_drop_task id b c) = task_rows c.
Proof.
  unfold find_row, orochi_drop_task, ddl_catalog_delete_task. cbn. generalize (task_rows c) as l.
  induction l as [|r l IH]; [done|]. rewrite !filter_cons.
  destruct (decide (row_id r = id)); [done|]. intros H. destruct (decide _); [|done]. by rewrite IH.
Qed.

Lemma task_names_roundtrip :
  (∀ s, task_parse_state (task_state_name s) = s) ∧ (∀ s, task_parse_run_state (task_run_state_name s) = s).
Proof. split; by intros []. Qed.
