(* ===== verification/Workflow.v ===== *)
(** * Workflows: their statements, their catalog and their runs

    Models [src/ddl/ddl_workflow.c].  A run executes the steps of a workflow in order.  Each
    statement that SPI runs gets its result from the argument [spi], which is told how many
    came before it.  A quote in a value makes another SQL statement of the one that is
    meant, which is [Undef].  Reads of freed structures in log and error messages, and the
    waiting before a step is tried again, are left out.  Times are those of [NOW()]. *)
From stdpp Require Import sets relations.
From S2P Require Import Prelude CText Cron Stream Task.

Local Open Scope Z_scope.

(** ** Steps *)

Inductive WorkflowStepType :=
  WORKFLOW_STEP_STAGE | WORKFLOW_STEP_TRANSFORM | WORKFLOW_STEP_LOAD | WORKFLOW_STEP_MERGE
| WORKFLOW_STEP_VALIDATE | WORKFLOW_STEP_NOTIFY | WORKFLOW_STEP_CUSTOM.

Inductive WorkflowState :=
  WORKFLOW_STATE_CREATED | WORKFLOW_STATE_RUNNING | WORKFLOW_STATE_SUCCEEDED | WORKFLOW_STATE_FAILED
| WORKFLOW_STATE_PAUSED | WORKFLOW_STATE_SUSPENDED.

#[export] Instance WorkflowState_eq_dec : EqDecision WorkflowState.
Proof. solve_decision. Defined.

Inductive StageSourceType :=
  STAGE_SOURCE_S3 | STAGE_SOURCE_GCS | STAGE_SOURCE_AZURE | STAGE_SOURCE_LOCAL | STAGE_SOURCE_HTTP
| STAGE_SOURCE_TABLE.

Inductive StageFileFormat :=
  STAGE_FORMAT_PARQUET | STAGE_FORMAT_CSV | STAGE_FORMAT_JSON | STAGE_FORMAT_AVRO | STAGE_FORMAT_ORC.

Record StageConfig := {
  stage_name : option text; source_type : StageSourceType; source_url : option text;
  file_format : StageFileFormat; copy_options : option text }.
Record TransformConfig := {
  query_text : option text; target_stage : option text; materialize : bool; parallelism : Z }.
Record LoadConfig := {
  load_table : option text; load_stage : option text; truncate_target : bool; use_copy : bool;
  on_error : option text }.
Record MergeConfig := {
  merge_table : option text; merge_stage : option text; key_columns : list text;
  when_matched : option text }.

(** The union of the pointers; a null pointer is null for every type. *)
Inductive StepConfig :=
| NoConfig
| Stage (c : StageConfig) | Transform (c : TransformConfig) | Load (c : LoadConfig)
| Merge (c : MergeConfig) | Custom (sql : text).

Record WorkflowStep := {
  step_id : Z; step_name : option text; step_type : WorkflowStepType; config : StepConfig;
  step_timeout : Z; retry_count : Z; continue_on_error : bool; step_condition : option text }.

Definition WORKFLOW_DEFAULT_TIMEOUT : Z := 3600.
Definition WORKFLOW_DEFAULT_RETRY_COUNT : Z := 3.
Definition WORKFLOW_MAX_NAME_LENGTH : Z := 128.
Definition WORKFLOW_MAX_STEPS : Z := 100.

Definition workflow_step_alloc (name : option text) (t : WorkflowStepType) (c : StepConfig) : WorkflowStep :=
  {| step_id := 0; step_name := name; step_type := t; config := c;
     step_timeout := WORKFLOW_DEFAULT_TIMEOUT; retry_count := WORKFLOW_DEFAULT_RETRY_COUNT;
     continue_on_error := false; step_condition := None |}.

Definition parse_source_type_from_url (url : text) : StageSourceType :=
  if prefix_of (str "s3://") url then STAGE_SOURCE_S3
  else if prefix_of (str "gs://") url then STAGE_SOURCE_GCS
  else if prefix_of (str "azure://") url || prefix_of (str "wasb://") url then STAGE_SOURCE_AZURE
  else if prefix_of (str "http://") url || prefix_of (str "https://") url then STAGE_SOURCE_HTTP
  else if prefix_of (str "file://") url || prefix_of (str "/") url then STAGE_SOURCE_LOCAL
  else STAGE_SOURCE_TABLE.

(** [strrchr(s, '.')]: what follows the last dot, with it. *)
Fixpoint from_last_dot (s : text) : option text :=
  match s with
  | [] => None
  | c :: q => match from_last_dot q with
              | Some e => Some e
              | None => if bool_decide (c = "."%char) then Some s else None
              end
  end.

Definition parse_format_from_pattern (pattern : option text) : StageFileFormat :=
  match pattern ≫= from_last_dot with
  | None => STAGE_FORMAT_PARQUET
  | Some ext =>
      if equal_ci ext (str ".parquet") then STAGE_FORMAT_PARQUET
      else if equal_ci ext (str ".csv") then STAGE_FORMAT_CSV
      else if equal_ci ext (str ".json") || equal_ci ext (str ".ndjson") then STAGE_FORMAT_JSON
      else if equal_ci ext (str ".avro") then STAGE_FORMAT_AVRO
      else if equal_ci ext (str ".orc") then STAGE_FORMAT_ORC
      else STAGE_FORMAT_PARQUET
  end.

(** ** Parsing steps *)

(** The name of a stage ends at a space or where FROM begins. *)
Fixpoint stage_name_span (p : text) : text :=
  match p with
  | [] => []
  | c :: q => if nonspace c && negb (prefix_ci (str "FROM") p) then c :: stage_name_span q else []
  end.

Definition ddl_parse_stage_step (definition : text) : WorkflowStep :=
  let p := skip_spaces (skip_keyword (str "STAGE ") definition) in
  let name := stage_name_span p in
  let p := skip_spaces (drop (length name) p) in
  let p := skip_spaces (skip_keyword (str "FROM") p) in
  let c :=
    match p with
    | "'"%char :: q =>
        let url := span (other "'"%char) q in
        {| stage_name := Some name; source_type := parse_source_type_from_url url; source_url := Some url;
           file_format := parse_format_from_pattern (Some url); copy_options := None |}
    | _ => {| stage_name := Some name; source_type := STAGE_SOURCE_S3; source_url := None;
              file_format := STAGE_FORMAT_PARQUET; copy_options := None |}
    end in
  workflow_step_alloc (Some name) WORKFLOW_STEP_STAGE (Stage c).

(** The loop that looks for the last AS behind a space, from the end of the query; what is
    left of the query, which is all of it when the length wraps around.  The last turn
    reads the character in front of the query. *)
Fixpoint cut_at_as (before : bool) (p : text) (i : nat) : outcome text :=
  match i with
  | O => Ok p
  | S O => if before then Ok p else Undef
  | S (S j as i) =>
      if prefix_ci (str "AS") (drop j p) && match j with O => true | S k => existsb isspace (take 1 (drop k p)) end
      then Ok (match j with O => p | S k => take k p end)
      else cut_at_as before p i
  end.

Definition ddl_parse_transform_step (definition : text) : outcome WorkflowStep :=
  let p := skip_spaces (skip_keyword (str "TRANSFORM ") definition) in
  let p := skip_spaces (skip_keyword (str "WITH") p) in
  query ← cut_at_as (negb (bool_decide (p = definition))) p (length p);
  Ok (workflow_step_alloc (Some (str "transform")) WORKFLOW_STEP_TRANSFORM
        (Transform {| query_text := Some query; target_stage := None; materialize := true; parallelism := 4 |})).

Definition ddl_parse_load_step (definition : text) : WorkflowStep :=
  let p := skip_spaces (skip_keyword (str "LOAD ") definition) in
  let p := skip_spaces (skip_keyword (str "INTO") p) in
  let table := span nonspace p in
  let p := skip_spaces (drop (length table) p) in
  let stage :=
    if prefix_ci (str "FROM") p then Some (span nonspace (skip_spaces (drop 4 p))) else None in
  workflow_step_alloc (Some (str "load_" ++ table)) WORKFLOW_STEP_LOAD
    (Load {| load_table := Some table; load_stage := stage; truncate_target := false; use_copy := true;
             on_error := Some (str "ABORT") |}).

Definition ddl_parse_merge_step (definition : text) : WorkflowStep :=
  let p := skip_spaces (skip_keyword (str "MERGE ") definition) in
  let p := skip_spaces (skip_keyword (str "INTO") p) in
  let table := span nonspace p in
  workflow_step_alloc (Some (str "merge_" ++ table)) WORKFLOW_STEP_MERGE
    (Merge {| merge_table := Some table; merge_stage := None; key_columns := []; when_matched := None |}).

(** ** CREATE WORKFLOW *)

Record Workflow := {
  workflow_id : Z; workflow_name : text; description : option text; steps : list WorkflowStep;
  workflow_schedule : option text; enabled : bool; auto_resume : bool; max_concurrent : Z;
  workflow_state : WorkflowState; workflow_last_run : option Z }.

Definition workflow_alloc (name : text) (l : list WorkflowStep) : Workflow :=
  {| workflow_id := 0; workflow_name := name; description := None; steps := l;
     workflow_schedule := None; enabled := true; auto_resume := false; max_concurrent := 1;
     workflow_state := WORKFLOW_STATE_CREATED; workflow_last_run := None |}.

(** The text of a step ends at a comma or a closing parenthesis of its own level. *)
Fixpoint step_span (depth : Z) (p : text) : text :=
  match p with
  | [] => []
  | c :: q =>
      if bool_decide (c = "("%char) then c :: step_span (depth + 1) q
      else if bool_decide (c = ")"%char)
      then if depth =? 0 then [] else c :: step_span (depth - 1) q
      else if bool_decide (c = ","%char) && (depth =? 0) then []
      else c :: step_span depth q
  end.

Definition parse_step (t : text) : outcome (option WorkflowStep) :=
  if prefix_ci (str "STAGE") t then Ok (Some (ddl_parse_stage_step t))
  else if prefix_ci (str "TRANSFORM") t then s ← ddl_parse_transform_step t; Ok (Some s)
  else if prefix_ci (str "LOAD") t then Ok (Some (ddl_parse_load_step t))
  else if prefix_ci (str "MERGE") t then Ok (Some (ddl_parse_merge_step t))
  else Ok None.

Definition with_step_id (s : WorkflowStep) (id : Z) : WorkflowStep :=
  {| step_id := id; step_name := step_name s; step_type := step_type s; config := config s;
     step_timeout := step_timeout s; retry_count := retry_count s;
     continue_on_error := continue_on_error s; step_condition := step_condition s |}.

Definition skip_comma (p : text) : text := match p with ","%char :: q => q | _ => p end.

Fixpoint parse_steps (fuel : nat) (count : Z) (p : text) : outcome (list WorkflowStep) :=
  match fuel with
  | O => Diverge
  | S fuel =>
      match skip_spaces p with
      | [] | ")"%char :: _ => Ok []
      | p =>
          let t := step_span 0 p in
          let p := skip_comma (drop (length t) p) in
          step ← parse_step t;
          match step with
          | Some s => l ← parse_steps fuel (count + 1) p; Ok (with_step_id s count :: l)
          | None => parse_steps fuel count p
          end
      end
  end.

Definition ddl_parse_create_workflow (sql : text) : outcome Workflow :=
  let p := skip_spaces (skip_keyword (str "CREATE") sql) in
  let p := skip_spaces (skip_keyword (str "WORKFLOW") p) in
  let name := span (λ c, nonspace c && negb (bool_decide (c = "("%char))) p in
  let p := skip_spaces (drop (length name) p) in
  let p := skip_spaces (skip_keyword (str "AS") p) in
  let p := match p with "("%char :: q => q | _ => p end in
  l ← parse_steps (S (length p)) 0 p;
  Ok (workflow_alloc name l).

Inductive WorkflowProblem := WorkflowIsNull | WorkflowNameRequired | WorkflowNameTooLong | NoSteps | TooManySteps.

Definition ddl_validate_workflow (workflow : option Workflow) : option WorkflowProblem :=
  match workflow with
  | None => Some WorkflowIsNull
  | Some w =>
      if bool_decide (workflow_name w = []) then Some WorkflowNameRequired
      else if WORKFLOW_MAX_NAME_LENGTH <? len (workflow_name w) then Some WorkflowNameTooLong
      else if len (steps w) =? 0 then Some NoSteps
      else if WORKFLOW_MAX_STEPS <? len (steps w) then Some TooManySteps
      else None
  end.

(** ** The catalog *)

Record WorkflowRow := {
  wf_id : Z; wf_name : text; wf_description : option text; wf_schedule : option text;
  wf_enabled : bool; wf_auto_resume : bool; wf_max_concurrent : Z; wf_state : WorkflowState;
  wf_last_run : option Z; wf_total_runs : Z; wf_successful_runs : Z; wf_failed_runs : Z }.

Record StepRow := {
  st_workflow : Z; st_id : Z; st_name : text; st_type : WorkflowStepType; st_timeout : Z;
  st_retries : Z; st_continue : bool }.

Record WorkflowRun := {
  wr_id : Z; wr_workflow : Z; wr_state : WorkflowState; wr_started : Z; wr_finished : option Z;
  wr_error : option text }.

Record WorkflowCatalog := {
  wf_rows : list WorkflowRow; step_rows : list StepRow; wf_runs : list WorkflowRun;
  next_wf_id : Z; next_wf_run : Z }.

Definition workflow_row (w : Workflow) (id : Z) : WorkflowRow :=
  {| wf_id := id; wf_name := workflow_name w; wf_description := description w;
     wf_schedule := workflow_schedule w; wf_enabled := enabled w; wf_auto_resume := auto_resume w;
     wf_max_concurrent := max_concurrent w; wf_state := workflow_state w; wf_last_run := None;
     wf_total_runs := 0; wf_successful_runs := 0; wf_failed_runs := 0 |}.

(** The configuration of a step is in no column of the statement. *)
Definition step_row (id : Z) (s : WorkflowStep) : StepRow :=
  {| st_workflow := id; st_id := step_id s; st_name := default (str "unnamed") (step_name s);
     st_type := step_type s; st_timeout := step_timeout s; st_retries := retry_count s;
     st_continue := continue_on_error s |}.

Definition ddl_catalog_store_workflow (w : Workflow) (c : WorkflowCatalog) : outcome (Z * WorkflowCatalog) :=
  let id := next_wf_id c in
  let rows := map (step_row id) (steps w) in
  if negb (plain (workflow_name w) && opt_plain (description w) && opt_plain (workflow_schedule w)
           && forallb (λ r, plain (st_name r)) rows)
  then Undef
  else if existsb (λ r, bool_decide (wf_name r = workflow_name w)) (wf_rows c)
          || negb (bool_decide (NoDup (st_id <$> rows)))
  then Err "duplicate key value violates unique constraint"
  else Ok (id, {| wf_rows := wf_rows c ++ [workflow_row w id]; step_rows := step_rows c ++ rows;
                  wf_runs := wf_runs c; next_wf_id := id + 1; next_wf_run := next_wf_run c |}).

(** [UPDATE ... WHERE workflow_id = id]. *)
Definition update_wf_rows (id : Z) (f : WorkflowRow → WorkflowRow) (c : WorkflowCatalog) : WorkflowCatalog :=
  {| wf_rows := map (λ r, if wf_id r =? id then f r else r) (wf_rows c); step_rows := step_rows c;
     wf_runs := wf_runs c; next_wf_id := next_wf_id c; next_wf_run := next_wf_run c |}.

Definition ddl_catalog_update_workflow (w : Workflow) (c : WorkflowCatalog) : outcome WorkflowCatalog :=
  if opt_plain (description w) && opt_plain (workflow_schedule w)
  then Ok (update_wf_rows (workflow_id w)
             (λ r, {| wf_id := wf_id r; wf_name := wf_name r; wf_description := description w;
                      wf_schedule := workflow_schedule w; wf_enabled := enabled w;
                      wf_auto_resume := auto_resume w; wf_max_concurrent := max_concurrent w;
                      wf_state := workflow_state w; wf_last_run := workflow_last_run w;
                      wf_total_runs := wf_total_runs r; wf_successful_runs := wf_successful_runs r;
                      wf_failed_runs := wf_failed_runs r |}) c)
  else Undef.

(** The runs of a workflow go with it. *)
Definition ddl_catalog_delete_workflow (id : Z) (c : WorkflowCatalog) : WorkflowCatalog :=
  {| wf_rows := filter (λ r, wf_id r ≠ id) (wf_rows c);
     step_rows := filter (λ r, st_workflow r ≠ id) (step_rows c);
     wf_runs := filter (λ r, wr_workflow r ≠ id) (wf_runs c);
     next_wf_id := next_wf_id c; next_wf_run := next_wf_run c |}.

Definition find_workflow (id : Z) (c : WorkflowCatalog) : option WorkflowRow :=
  head (filter (λ r, wf_id r = id) (wf_rows c)).

Definition ddl_catalog_create_run (now id : Z) (c : WorkflowCatalog) : outcome (Z * WorkflowCatalog) :=
  match find_workflow id c with
  | None => Err "insert or update violates foreign key constraint"
  | Some _ =>
      let run := next_wf_run c in
      Ok (run, {| wf_rows := wf_rows c; step_rows := step_rows c;
                  wf_runs := wf_runs c ++
                    [{| wr_id := run; wr_workflow := id; wr_state := WORKFLOW_STATE_RUNNING;
                        wr_started := now; wr_finished := None; wr_error := None |}];
                  next_wf_id := next_wf_id c; next_wf_run := run + 1 |})
  end.

Definition finish_wf_run (now : Z) (st : WorkflowState) (msg : option text) (r : WorkflowRun) : WorkflowRun :=
  {| wr_id := wr_id r; wr_workflow := wr_workflow r; wr_state := st; wr_started := wr_started r;
     wr_finished := Some now; wr_error := msg |}.

Definition ddl_catalog_finish_run (now run : Z) (st : WorkflowState) (msg : option text)
    (c : WorkflowCatalog) : outcome WorkflowCatalog :=
  if opt_plain msg
  then Ok {| wf_rows := wf_rows c; step_rows := step_rows c;
             wf_runs := map (λ r, if wr_id r =? run then finish_wf_run now st msg r else r) (wf_runs c);
             next_wf_id := next_wf_id c; next_wf_run := next_wf_run c |}
  else Undef.

(** The name of the call is used only where the definition has none, and it always has one,
    which may be empty. *)
Definition orochi_create_workflow (name definition : text) (c : WorkflowCatalog) : outcome (Z * WorkflowCatalog) :=
  w ← ddl_parse_create_workflow definition;
  match ddl_validate_workflow (Some w) with
  | Some _ => Err "invalid workflow definition"
  | None => ddl_catalog_store_workflow w c
  end.

Definition orochi_drop_workflow (id : Z) (if_exists : bool) (c : WorkflowCatalog) : WorkflowCatalog :=
  ddl_catalog_delete_workflow id c.

Definition load_step (r : StepRow) : WorkflowStep :=
  {| step_id := st_id r; step_name := Some (st_name r); step_type := st_type r; config := NoConfig;
     step_timeout := st_timeout r; retry_count := st_retries r; continue_on_error := st_continue r;
     step_condition := None |}.

(** The steps are in the order of their identifiers. *)
Fixpoint insert_step (r : StepRow) (l : list StepRow) : list StepRow :=
  match l with
  | [] => [r]
  | x :: l => if st_id r <? st_id x then r :: x :: l else x :: insert_step r l
  end.

Definition workflow_load_from_catalog (id : Z) (c : WorkflowCatalog) : option Workflow :=
  (λ r, {| workflow_id := id; workflow_name := wf_name r; description := None;
           steps := map load_step (foldr insert_step [] (filter (λ s, st_workflow s = id) (step_rows c)));
           workflow_schedule := None; enabled := wf_enabled r; auto_resume := false;
           max_concurrent := 0; workflow_state := wf_state r; workflow_last_run := None |})
  <$> find_workflow id c.

(** ** Executing steps *)

Section execution.
Context (quote_identifier quote_literal_cstr : text → text) (spi : nat → text → SpiResult)
        (eval_boolean : text → option bool).

(** What a step returns: whether it succeeded, its message, and how many statements ran. *)
Definition StepResult : Type := bool * option text * nat.

(** Running the last statement of a step; an error is caught and gives its message. *)
Definition run_statement (calls : nat) (what sql : text) : StepResult :=
  match spi calls sql with
  | SpiDone => (true, None, S calls)
  | SpiCode code => (false, Some (what ++ str " failed with SPI error " ++ code), S calls)
  | SpiError msg => (false, Some msg, S calls)
  end.

Definition refuse (calls : nat) (msg : string) : StepResult := (false, Some (str msg), calls).

Definition stage_table (c : StageConfig) : text := quote_identifier (default (str "_orochi_stage") (stage_name c)).

Definition workflow_execute_stage (s : WorkflowStep) (calls : nat) : StepResult :=
  match config s with
  | Stage c =>
      match source_type c, source_url c with
      | STAGE_SOURCE_TABLE, None => refuse calls "stage step: source_url (table name) is required"
      | STAGE_SOURCE_TABLE, Some url =>
          run_statement calls (str "stage step")
            (str "CREATE TEMP TABLE IF NOT EXISTS " ++ stage_table c ++ str " AS SELECT * FROM "
             ++ quote_identifier url)
      | STAGE_SOURCE_LOCAL, None => refuse calls "stage step: source_url (file path) is required"
      | STAGE_SOURCE_LOCAL, Some url =>
          run_statement calls (str "stage step")
            (str "COPY " ++ stage_table c ++ str " FROM " ++ quote_literal_cstr url
             ++ match copy_options c with Some o => str " WITH (" ++ o ++ str ")" | None => [] end)
      | _, url =>
          (false, Some (str "stage source type '" ++ default (str "unknown") url
                        ++ str "' requires external helper (not yet implemented in-process)"), calls)
      end
  | _ => refuse calls "stage step has no configuration"
  end.

Definition workflow_execute_transform (s : WorkflowStep) (calls : nat) : StepResult :=
  match config s with
  | Transform {| query_text := Some q; target_stage := t; materialize := m |} =>
      run_statement calls (str "transform step")
        (match m, t with
         | true, Some t => str "CREATE TEMP TABLE IF NOT EXISTS " ++ quote_identifier t ++ str " AS " ++ q
         | _, _ => q
         end)
  | _ => refuse calls "transform step has no query_text"
  end.

Definition workflow_execute_load (s : WorkflowStep) (calls : nat) : StepResult :=
  match config s with
  | Load {| load_table := Some t; load_stage := stage; truncate_target := trunc |} =>
      match stage with
      | None => refuse calls "load step has no source_stage"
      | Some src =>
          let insert calls :=
            run_statement calls (str "load step")
              (str "INSERT INTO " ++ quote_identifier t ++ str " SELECT * FROM " ++ quote_identifier src) in
          if trunc
          then match run_statement calls (str "load step: truncate") (str "TRUNCATE " ++ quote_identifier t) with
               | (true, _, calls) => insert calls
               | r => r
               end
          else insert calls
      end
  | _ => refuse calls "load step has no target_table"
  end.

Fixpoint key_list (l : list text) : text :=
  match l with
  | [] => []
  | [k] => quote_identifier k
  | k :: l => quote_identifier k ++ str ", " ++ key_list l
  end.

Definition workflow_execute_merge (s : WorkflowStep) (calls : nat) : StepResult :=
  match config s with
  | Merge {| merge_table := Some t; merge_stage := stage; key_columns := keys; when_matched := w |} =>
      match stage, keys with
      | None, _ => refuse calls "merge step has no source_stage"
      | _, [] => refuse calls "merge step has no key_columns"
      | Some src, _ =>
          run_statement calls (str "merge step")
            (str "INSERT INTO " ++ quote_identifier t ++ str " SELECT * FROM " ++ quote_identifier src
             ++ str " ON CONFLICT (" ++ key_list keys ++ str ")"
             ++ match w with Some w => str " DO UPDATE SET " ++ w | None => str " DO NOTHING" end)
      end
  | _ => refuse calls "merge step has no target_table"
  end.

Definition workflow_execute_custom (s : WorkflowStep) (calls : nat) : StepResult :=
  match config s with
  | Custom (c :: q) => run_statement calls (str "custom step") (c :: q)
  | _ => refuse calls "custom step has no SQL to execute"
  end.

Definition workflow_execute_step (s : WorkflowStep) (calls : nat) : StepResult :=
  match step_type s with
  | WORKFLOW_STEP_STAGE => workflow_execute_stage s calls
  | WORKFLOW_STEP_TRANSFORM => workflow_execute_transform s calls
  | WORKFLOW_STEP_LOAD => workflow_execute_load s calls
  | WORKFLOW_STEP_MERGE => workflow_execute_merge s calls
  | _ => workflow_execute_custom s calls
  end.

(** The loop over the attempts; a step with a negative number of retries is not executed. *)
Fixpoint try_step (attempts : nat) (s : WorkflowStep) (calls : nat) (msg : option text) : StepResult :=
  match attempts with
  | O => (false, msg, calls)
  | S attempts =>
      match workflow_execute_step s calls with
      | (true, msg', calls) => (true, msg', calls)
      | (false, msg', calls) => try_step attempts s calls msg'
      end
  end.

(** A condition that fails to evaluate, or is null, counts as met. *)
Definition condition_met (s : WorkflowStep) : bool :=
  match step_condition s with Some e => default true (eval_boolean e) | None => true end.

(** The loop over the steps: the final state, the message and the steps completed. *)
Fixpoint run_steps (l : list WorkflowStep) (calls : nat) (completed : Z) : WorkflowState * option text * Z :=
  match l with
  | [] => (WORKFLOW_STATE_SUCCEEDED, None, completed)
  | s :: l =>
      if negb (condition_met s) then run_steps l calls completed
      else match try_step (Z.to_nat (retry_count s + 1)) s calls None with
           | (true, _, calls) => run_steps l calls (completed + 1)
           | (false, msg, calls) =>
               if continue_on_error s then run_steps l calls completed
               else (WORKFLOW_STATE_FAILED, msg, completed)
           end
  end.

Definition set_running (now : Z) (r : WorkflowRow) : WorkflowRow :=
  {| wf_id := wf_id r; wf_name := wf_name r; wf_description := wf_description r; wf_schedule := wf_schedule r;
     wf_enabled := wf_enabled r; wf_auto_resume := wf_auto_resume r; wf_max_concurrent := wf_max_concurrent r;
     wf_state := WORKFLOW_STATE_RUNNING; wf_last_run := Some now; wf_total_runs := wf_total_runs r;
     wf_successful_runs := wf_successful_runs r; wf_failed_runs := wf_failed_runs r |}.

Definition set_finished (st : WorkflowState) (r : WorkflowRow) : WorkflowRow :=
  let ok := bool_decide (st = WORKFLOW_STATE_SUCCEEDED) in
  {| wf_id := wf_id r; wf_name := wf_name r; wf_description := wf_description r; wf_schedule := wf_schedule r;
     wf_enabled := wf_enabled r; wf_auto_resume := wf_auto_resume r; wf_max_concurrent := wf_max_concurrent r;
     wf_state := st; wf_last_run := wf_last_run r; wf_total_runs := wf_total_runs r + 1;
     wf_successful_runs := if ok then wf_successful_runs r + 1 else wf_successful_runs r;
     wf_failed_runs := if ok then wf_failed_runs r else wf_failed_runs r + 1 |}.

Definition orochi_run_workflow (now id : Z) (c : WorkflowCatalog) : outcome (Z * WorkflowCatalog) :=
  match workflow_load_from_catalog id c with
  | None => Err "workflow does not exist"
  | Some w =>
      if negb (enabled w) then Err "workflow is disabled"
      else if bool_decide (workflow_state w = WORKFLOW_STATE_SUSPENDED)
              || bool_decide (workflow_state w = WORKFLOW_STATE_RUNNING)
      then Err "workflow is not in a runnable state"
      else
        '(run, c) ← ddl_catalog_create_run now id c;
        let c := update_wf_rows id (set_running now) c in
        let '(final_state, msg, _) := run_steps (steps w) 0 0 in
        c ← ddl_catalog_finish_run now run final_state msg c;
        Ok (run, update_wf_rows id (set_finished final_state) c)
  end.
End execution.

Definition workflow_state_name (s : WorkflowState) : text :=
  match s with
  | WORKFLOW_STATE_CREATED => str "CREATED"
  | WORKFLOW_STATE_RUNNING => str "RUNNING"
  | WORKFLOW_STATE_SUCCEEDED => str "SUCCEEDED"
  | WORKFLOW_STATE_FAILED => str "FAILED"
  | WORKFLOW_STATE_PAUSED => str "PAUSED"
  | WORKFLOW_STATE_SUSPENDED => str "SUSPENDED"
  end.
Definition workflow_parse_state (name : text) : WorkflowState :=
  if equal_ci name (str "CREATED") then WORKFLOW_STATE_CREATED
  else if equal_ci name (str "RUNNING") then WORKFLOW_STATE_RUNNING
  else if equal_ci name (str "SUCCEEDED") then WORKFLOW_STATE_SUCCEEDED
  else if equal_ci name (str "FAILED") then WORKFLOW_STATE_FAILED
  else if equal_ci name (str "PAUSED") then WORKFLOW_STATE_PAUSED
  else if equal_ci name (str "SUSPENDED") then WORKFLOW_STATE_SUSPENDED
  else WORKFLOW_STATE_CREATED.

Definition workflow_step_type_name (t : WorkflowStepType) : text :=
  match t with
  | WORKFLOW_STEP_STAGE => str "STAGE"
  | WORKFLOW_STEP_TRANSFORM => str "TRANSFORM"
  | WORKFLOW_STEP_LOAD => str "LOAD"
  | WORKFLOW_STEP_MERGE => str "MERGE"
  | WORKFLOW_STEP_VALIDATE => str "VALIDATE"
  | WORKFLOW_STEP_NOTIFY => str "NOTIFY"
  | WORKFLOW_STEP_CUSTOM => str "CUSTOM"
  end.
Definition stage_source_type_name (t : StageSourceType) : text :=
  match t with
  | STAGE_SOURCE_S3 => str "S3"
  | STAGE_SOURCE_GCS => str "GCS"
  | STAGE_SOURCE_AZURE => str "AZURE"
  | STAGE_SOURCE_LOCAL => str "LOCAL"
  | STAGE_SOURCE_HTTP => str "HTTP"
  | STAGE_SOURCE_TABLE => str "TABLE"
  end.
Definition stage_format_name (f : StageFileFormat) : text :=
  match f with
  | STAGE_FORMAT_PARQUET => str "PARQUET"
  | STAGE_FORMAT_CSV => str "CSV"
  | STAGE_FORMAT_JSON => str "JSON"
  | STAGE_FORMAT_AVRO => str "AVRO"
  | STAGE_FORMAT_ORC => str "ORC"
  end.

Definition orochi_workflow_status_sql (id : Z) (c : WorkflowCatalog) : outcome text :=
  match find_workflow id c with
  | Some r => Ok (workflow_state_name (wf_state r))
  | None => Err "workflow does not exist"
  end.

(** ** The parser ends and numbers the steps *)

Lemma cut_at_as_no_diverge b p i : cut_at_as b p i ≠ Diverge.
Proof.
  induction i as [|i IH]; [done|]. destruct i as [|j]; [by destruct b|].
  change (cut_at_as b p (S (S j))) with
    (if prefix_ci (str "AS") (drop j p) && match j with O => true | S k => existsb isspace (take 1 (drop k p)) end
     then Ok (match j with O => p | S k => take k p end) else cut_at_as b p (S j)).
  by destruct (_ && _).
Qed.

Lemma parse_step_no_diverge t : parse_step t ≠ Diverge.
Proof.
  unfold parse_step. destruct (prefix_ci _ t); [done|]. destruct (prefix_ci _ t).
  - unfold ddl_parse_transform_step. match goal with |- context[cut_at_as ?b ?p ?i] =>
      pose proof (cut_at_as_no_diverge b p i); destruct (cut_at_as b p i); done end.
  - destruct (prefix_ci _ t); [done|]. by destruct (prefix_ci _ t).
Qed.

Lemma step_takes_something c q :
  c ≠ ")"%char →
  let t := step_span 0 (c :: q) in
  (length (skip_comma (drop (length t) (c :: q))) ≤ length q)%nat.
Proof.
  intros Hc t. assert (∀ r, (length (skip_comma r) ≤ length r)%nat) as Hr.
  { intros r. destruct r as [|d r]; [done|]. destruct (decide (d = ","%char)) as [->|]; [cbn; lia|].
    destruct d as [[] [] [] [] [] [] [] []]; done. }
  destruct (decide (c = ","%char)) as [->|Hcomma]; [done|].
  assert (∃ w, t = c :: w) as [w Ew].
  { subst t. cbn [step_span]. destruct (bool_decide (c = "("%char)); [by eexists|].
    rewrite (bool_decide_eq_false_2 _ Hc), (bool_decide_eq_false_2 _ Hcomma). by eexists. }
  rewrite Ew. cbn [length drop]. etransitivity; [apply Hr|]. rewrite length_drop. lia.
Qed.

(** The steps that the parser makes: numbered from [count], stopped by a failure. *)
Definition steps_numbered (count : Z) (l : list WorkflowStep) : Prop :=
  step_id <$> l = seqZ count (len l) ∧ Forall (λ s, continue_on_error s = false ∧ retry_count s = 3) l.

Lemma parse_step_fresh t s :
  parse_step t = Ok (Some s) → continue_on_error s = false ∧ retry_count s = 3.
Proof.
  unfold parse_step. destruct (prefix_ci _ t); [by intros [= <-]|]. destruct (prefix_ci _ t).
  - unfold ddl_parse_transform_step. destruct (cut_at_as _ _ _); try done. by intros [= <-].
  - destruct (prefix_ci _ t); [by intros [= <-]|]. destruct (prefix_ci _ t); [by intros [= <-]|done].
Qed.

Lemma parse_steps_spec fuel count p :
  (length p < fuel)%nat →
  match parse_steps fuel count p with
  | Ok l => steps_numbered count l
  | Diverge => False
  | _ => True
  end.
Proof.
  revert count p. induction fuel as [|fuel IH]; intros count p Hf; [lia|]. cbn [parse_steps].
  pose proof (length_skip isspace p) as Hs. fold (skip_spaces p) in Hs.
  destruct (skip_spaces p) as [|c q]; [by split|]. cbn [length] in Hs.
  destruct (decide (c = ")"%char)) as [->|Hc]; [by split|].
  pose proof (step_takes_something c q Hc) as Hshort. cbv zeta in Hshort.
  set (t := step_span 0 (c :: q)) in *.
  set (r := skip_comma (drop (length t) (c :: q))) in *.
  assert (match (step ← parse_step t;
          match step with
          | Some s => l ← parse_steps fuel (count + 1) r; Ok (with_step_id s count :: l)
          | None => parse_steps fuel count r
          end) with Ok l => steps_numbered count l | Diverge => False | _ => True end) as Hgo.
  { pose proof (parse_step_no_diverge t) as Hd. pose proof (parse_step_fresh t) as Hfresh.
    destruct (parse_step t) as [[s|]| | |]; try done; cbn [mbind outcome_bind]; [|apply IH; lia].
    specialize (IH (count + 1) r ltac:(lia)). destruct (parse_steps fuel (count + 1) r) as [l| | |]; try done.
    cbn [mbind outcome_bind]. destruct IH as [Hid Hall]. split.
    - cbn [fmap list_fmap length]. rewrite seqZ_cons by lia. cbn [with_step_id step_id]. f_equal.
      replace (Z.pred (Z.of_nat (S (length l)))) with (len l) by lia. exact Hid.
    - apply List.Forall_cons; [|done]. exact (Hfresh s eq_refl). }
  destruct c as [[] [] [] [] [] [] [] []]; try exact Hgo. done.
Qed.

(** The parser of CREATE WORKFLOW ends on every text, and the steps it finds are
    numbered from zero without gaps. *)
Theorem create_workflow_parses (sql : text) :
  match ddl_parse_create_workflow sql with
  | Ok w => step_id <$> steps w = seqZ 0 (len (steps w))
  | Diverge => False
  | _ => True
  end.
Proof.
  unfold ddl_parse_create_workflow.
  match goal with |- context[parse_steps ?n ?c ?p] => pose proof (parse_steps_spec n c p ltac:(lia)) as H end.
  destruct (parse_steps _ _ _) as [l| | |]; try done. by destruct H.
Qed.

(** An alias in a query is taken for the AS clause, and the query ends there. *)
Theorem alias_cuts_query :
  ddl_parse_transform_step (str "TRANSFORM WITH SELECT a AS b FROM t")
  = Ok (workflow_step_alloc (Some (str "transform")) WORKFLOW_STEP_TRANSFORM
          (Transform {| query_text := Some (str "SELECT a"); target_stage := None; materialize := true;
                        parallelism := 4 |})).
Proof. vm_compute. reflexivity. Qed.

(** A comma in a quoted text ends the step. *)
Theorem quoted_comma_splits :
  (λ w, len (steps w)) <$>
    ddl_parse_create_workflow (str "CREATE WORKFLOW w AS (STAGE a FROM '/data/x, MERGE y')") = Ok 2.
Proof. vm_compute. reflexivity. Qed.

(** A MERGE step that was parsed has neither a source nor keys, so it never runs. *)
Theorem merge_step_refused quote spi definition calls :
  workflow_execute_merge quote spi (ddl_parse_merge_step definition) calls
  = refuse calls "merge step has no source_stage".
Proof. done. Qed.

(** The name of the call is not used, also when the definition has none. *)
Theorem workflow_name_ignored name name' definition c :
  orochi_create_workflow name definition c = orochi_create_workflow name' definition c.
Proof. done. Qed.

(** ** A workflow that was stored never succeeds *)

Inductive workflow_step : WorkflowCatalog → WorkflowCatalog → Prop :=
| step_create_workflow name definition c id c' :
    orochi_create_workflow name definition c = Ok (id, c') → workflow_step c c'
| step_drop_workflow id b c : workflow_step c (orochi_drop_workflow id b c)
| step_run_workflow quote literal spi eval now id c run c' :
    orochi_run_workflow quote literal spi eval now id c = Ok (run, c') → workflow_step c c'.

Definition no_workflows : WorkflowCatalog :=
  {| wf_rows := []; step_rows := []; wf_runs := []; next_wf_id := 1; next_wf_run := 1 |}.

Record workflows_ok (c : WorkflowCatalog) : Prop := {
  wf_ids_below : Forall (λ r, wf_id r < next_wf_id c) (wf_rows c);
  steps_below : Forall (λ s, st_workflow s < next_wf_id c) (step_rows c);
  steps_plain : Forall (λ s, st_continue s = false ∧ st_retries s = 3) (step_rows c);
  has_steps : Forall (λ r, ∃ s, s ∈ step_rows c ∧ st_workflow s = wf_id r) (wf_rows c);
  never_succeeded : Forall (λ r, wf_successful_runs r = 0 ∧
    (wf_state r = WORKFLOW_STATE_CREATED ∨ wf_state r = WORKFLOW_STATE_FAILED)) (wf_rows c);
  runs_below : Forall (λ r, wr_id r < next_wf_run c) (wf_runs c);
  all_runs_failed : Forall (λ r, wr_state r = WORKFLOW_STATE_FAILED ∧ wr_error r ≠ None) (wf_runs c) }.

Lemma step_without_config quote literal spi s calls :
  config s = NoConfig →
  ∃ msg, workflow_execute_step quote literal spi s calls = (false, Some msg, calls) ∧ plain msg = true.
Proof.
  intros Hc. unfold workflow_execute_step, workflow_execute_stage, workflow_execute_transform,
    workflow_execute_load, workflow_execute_merge, workflow_execute_custom. rewrite Hc.
  destruct (step_type s); eexists; (split; [reflexivity|]); vm_compute; reflexivity.
Qed.

Lemma try_without_config quote literal spi s n calls msg :
  config s = NoConfig →
  ∃ msg', try_step quote literal spi (S n) s calls msg = (false, Some msg', calls) ∧ plain msg' = true.
Proof.
  intros Hc. revert msg. induction n as [|n IH]; intros msg.
  - destruct (step_without_config quote literal spi s calls Hc) as (m & E & Hm).
    exists m. cbn [try_step]. by rewrite E.
  - destruct (step_without_config quote literal spi s calls Hc) as (m & E & Hm).
    change (try_step quote literal spi (S (S n)) s calls msg) with
      (match workflow_execute_step quote literal spi s calls with
       | (true, msg', calls) => (true, msg', calls)
       | (false, msg', calls) => try_step quote literal spi (S n) s calls msg'
       end). rewrite E. apply IH.
Qed.

Lemma insert_step_elem r l s : s ∈ insert_step r l ↔ s = r ∨ s ∈ l.
Proof.
  induction l as [|x l IH]; cbn [insert_step]; [by rewrite list_elem_of_singleton, elem_of_nil; tauto|].
  destruct (st_id r <? st_id x); rewrite !elem_of_cons, ?IH; tauto.
Qed.

Lemma sort_steps_elem l s : s ∈ foldr insert_step [] l ↔ s ∈ l.
Proof. induction l as [|x l IH]; [done|]. cbn [foldr]. by rewrite insert_step_elem, IH, elem_of_cons. Qed.

(** The first step of a stored workflow fails, and with it the run. *)
Lemma stored_run_fails quote literal spi eval c id w :
  workflows_ok c → workflow_load_from_catalog id c = Some w →
  ∃ msg, run_steps quote literal spi eval (steps w) 0 0 = (WORKFLOW_STATE_FAILED, Some msg, 0)
    ∧ plain msg = true.
Proof.
  intros [_ _ Hp Hhas _ _ _]. unfold workflow_load_from_catalog.
  destruct (find_workflow id c) as [r|] eqn:Er; [|done]. intros [= <-]. cbn [steps].
  apply head_Some_elem_of, list_elem_of_filter in Er as [Hid Hr].
  rewrite Forall_forall in Hhas. destruct (Hhas r Hr) as (s & Hs & Hsw).
  set (l := foldr insert_step [] _). assert (∀ x, x ∈ l ↔ st_workflow x = id ∧ x ∈ step_rows c) as Hl.
  { intros x. subst l. rewrite sort_steps_elem, list_elem_of_filter. done. }
  clearbody l. destruct l as [|x l].
  { exfalso. assert (s ∈ []) as Hn by (apply Hl; split; [congruence|done]). by apply elem_of_nil in Hn. }
  assert (st_workflow x = id ∧ x ∈ step_rows c) as [_ Hx] by (apply Hl; by left).
  rewrite Forall_forall in Hp. destruct (Hp x Hx) as [Hcont Hret].
  cbn [map run_steps condition_met load_step step_condition negb retry_count continue_on_error].
  rewrite Hret, Hcont. change (Z.to_nat (3 + 1)) with 4%nat.
  destruct (try_without_config quote literal spi (load_step x) 3 0 None eq_refl) as (msg & E & Hm).
  exists msg. split; [|done]. unfold load_step in E |- *. by rewrite E.
Qed.

Lemma store_workflow_ok w c id c' :
  ddl_catalog_store_workflow w c = Ok (id, c') → workflows_ok c →
  steps w ≠ [] → Forall (λ s, continue_on_error s = false ∧ retry_count s = 3) (steps w) →
  workflow_state w = WORKFLOW_STATE_CREATED → workflows_ok c'.
Proof.
  intros H [H1 H2 H3 H4 H5 H6 H7] Hne Hs Hst. unfold ddl_catalog_store_workflow in H.
  destruct (negb _); [done|]. destruct (_ || _); [done|]. injection H as <- <-. split; cbn; try done.
  - apply Forall_app. split; [eapply Forall_impl; [exact H1|]; cbn; lia|]. apply Forall_singleton. cbn. lia.
  - apply Forall_app. split; [eapply Forall_impl; [exact H2|]; cbn; lia|].
    apply Forall_fmap, Forall_forall. intros; cbn; lia.
  - apply Forall_app. split; [done|]. apply Forall_fmap. eapply Forall_impl; [exact Hs|]. done.
  - apply Forall_app. split.
    + eapply Forall_impl; [exact H4|]. intros r (s & Hin & E). exists s. split; [|done]. apply elem_of_app. by left.
    + apply Forall_singleton. destruct (steps w) as [|s l]; [done|]. exists (step_row (next_wf_id c) s).
      split; [|done]. apply elem_of_app. right. by left.
  - apply Forall_app. split; [done|]. apply Forall_singleton. cbn. auto.
Qed.

Lemma wf_update_ok id f c :
  workflows_ok c → (∀ r, wf_id (f r) = wf_id r) →
  (∀ r, wf_successful_runs r = 0 → wf_successful_runs (f r) = 0 ∧
        (wf_state (f r) = WORKFLOW_STATE_CREATED ∨ wf_state (f r) = WORKFLOW_STATE_FAILED)) →
  workflows_ok (update_wf_rows id f c).
Proof.
  intros [H1 H2 H3 H4 H5 H6 H7] Hid Hf. split; cbn; try done.
  - apply Forall_update; [done|]. intros x _ _ Hx. by rewrite Hid.
  - apply Forall_update; [done|]. intros x _ _ Hx. by rewrite Hid.
  - apply Forall_update; [done|]. intros x _ _ [Hx _]. auto.
Qed.

Lemma workflow_step_ok c c' : workflow_step c c' → workflows_ok c → workflows_ok c'.
Proof.
  intros Hstep Hok. destruct Hstep as [name definition c id c' H|id b c|quote literal spi eval now id c run c' H].
  - unfold orochi_create_workflow in H.
    assert (∀ w, ddl_parse_create_workflow definition = Ok w →
      steps_numbered 0 (steps w) ∧ workflow_state w = WORKFLOW_STATE_CREATED) as Hparse.
    { intros w. unfold ddl_parse_create_workflow.
      match goal with |- context[parse_steps ?n ?c ?p] => pose proof (parse_steps_spec n c p ltac:(lia)) as Hp end.
      destruct (parse_steps _ _ _) as [l| | |]; try done. by intros [= <-]. }
    destruct (ddl_parse_create_workflow definition) as [w| | |]; try done. cbn [mbind outcome_bind] in H.
    destruct (Hparse w eq_refl) as [[_ Hs] Hst]. destruct (ddl_validate_workflow (Some w)) eqn:Ev; [done|].
    eapply store_workflow_ok; [exact H|done| |done|done]. intros E. unfold ddl_validate_workflow in Ev.
    rewrite E in Ev. destruct (bool_decide _); [done|]. by destruct (_ <? _).
  - destruct Hok as [H1 H2 H3 H4 H5 H6 H7]. split; cbn; try by apply Forall_filter_1.
    apply Forall_forall. intros r [Hid Hr]%list_elem_of_filter. rewrite Forall_forall in H4.
    destruct (H4 r Hr) as (s & Hs & E). exists s. split; [|done]. apply list_elem_of_filter. split; [congruence|done].
  - unfold orochi_run_workflow in H. destruct (workflow_load_from_catalog id c) as [w|] eqn:Ew; [|done].
    destruct (stored_run_fails quote literal spi eval c id w Hok Ew) as (msg & Er & Hm).
    destruct (negb (enabled w)); [done|]. destruct (_ || _); [done|].
    unfold ddl_catalog_create_run in H. destruct (find_workflow id c); [|done]. cbn [mbind outcome_bind] in H.
    rewrite Er in H. unfold ddl_catalog_finish_run in H. cbn [opt_plain] in H. rewrite Hm in H.
    cbn [mbind outcome_bind] in H. injection H as _ <-. destruct Hok as [H1 H2 H3 H4 H5 H6 H7].
    split; cbn; try done.
    + apply Forall_update; [|done]. by apply Forall_update.
    + apply Forall_update; [|done]. by apply Forall_update.
    + rewrite map_map. apply Forall_fmap, Forall_forall. intros r Hr. cbn.
      rewrite Forall_forall in H5. destruct (H5 r Hr) as [K1 K2].
      destruct (wf_id r =? id) eqn:E; cbn; rewrite E; cbn; auto.
    + rewrite map_app, map_update_absent.
      2: { intros x Hx. rewrite Forall_forall in H6. specialize (H6 x Hx). apply Z.eqb_neq. lia. }
      apply Forall_app. split; [eapply Forall_impl; [exact H6|]; cbn; lia|]. cbn. rewrite Z.eqb_refl.
      apply Forall_singleton. cbn. lia.
    + rewrite map_app, map_update_absent.
      2: { intros x Hx. rewrite Forall_forall in H6. specialize (H6 x Hx). apply Z.eqb_neq. lia. }
      apply Forall_app. split; [done|]. cbn. rewrite Z.eqb_refl. by apply Forall_singleton.
Qed.

Lemma spi_unused quote literal spi spi' eval c id w calls n :
  workflow_load_from_catalog id c = Some w →
  run_steps quote literal spi eval (steps w) calls n = run_steps quote literal spi' eval (steps w) calls n.
Proof.
  unfold workflow_load_from_catalog. destruct (find_workflow id c); [|done]. intros [= <-]. cbn [steps].
  generalize (foldr insert_step [] (filter (λ s, st_workflow s = id) (step_rows c))) as l. intros l.
  assert (∀ k s calls msg, try_step quote literal spi k (load_step s) calls msg
            = try_step quote literal spi' k (load_step s) calls msg) as Htry.
  { intros k s. induction k as [|k IH]; intros j msg; [done|]. cbn [try_step].
    assert (workflow_execute_step quote literal spi (load_step s) j
            = workflow_execute_step quote literal spi' (load_step s) j) as ->.
    { unfold workflow_execute_step. by destruct (step_type (load_step s)). }
    destruct (workflow_execute_step _ _ _ _ _) as [[[] m] q]; [done|]. apply IH. }
  revert calls n. induction l as [|s l IH]; intros calls n; [done|]. cbn [map run_steps]. rewrite Htry.
  destruct (negb _); [apply IH|]. destruct (try_step _ _ _ _ _ _ _) as [[[] m] k]; [apply IH|].
  destruct (continue_on_error _); [apply IH|done].
Qed.

(** C25: whatever workflows are created, run and dropped, no run ever succeeds and no
    statement of a step is executed: the configuration of the steps is not stored, so the
    first step fails in each of its attempts, and every run ends as failed. *)
Theorem workflows_never_succeed (c : WorkflowCatalog) :
  rtc workflow_step no_workflows c →
  Forall (λ r, wf_successful_runs r = 0) (wf_rows c) ∧
  Forall (λ r, wr_state r = WORKFLOW_STATE_FAILED) (wf_runs c) ∧
  ∀ quote literal spi eval now id run c',
    orochi_run_workflow quote literal spi eval now id c = Ok (run, c') →
    orochi_run_workflow quote literal (λ _ _, SpiDone) eval now id c = Ok (run, c').
Proof.
  intros Hr. assert (workflows_ok c) as Hok.
  { assert (workflows_ok no_workflows) as H0 by (split; cbn; constructor). revert H0.
    induction Hr; [done|]. intros H0. apply IHHr. by eapply workflow_step_ok. }
  pose proof Hok as [H1 H2 H3 H4 H5 H6 H7]. split; [|split].
  - eapply Forall_impl; [exact H5|]. by intros r [? _].
  - eapply Forall_impl; [exact H7|]. by intros r [? _].
  - intros quote literal spi eval now id run c' H. unfold orochi_run_workflow in H |- *.
    destruct (workflow_load_from_catalog id c) as [w|] eqn:Ew; [|done].
    destruct (negb (enabled w)); [done|]. destruct (_ || _); [done|].
    destruct (ddl_catalog_create_run now id c) as [[run1 c1]| | |]; try done. cbn [mbind outcome_bind] in *.
    enough (run_steps quote literal spi eval (steps w) 0 0
            = run_steps quote literal (λ _ _, SpiDone) eval (steps w) 0 0) as <- by done.
    by apply (spi_unused quote literal spi (λ _ _, SpiDone) eval c id).
Qed.

Definition workflow_catalog_after (r : outcome (Z * WorkflowCatalog)) : WorkflowCatalog :=
  match r with Ok (_, c) => c | _ => no_workflows end.
Definition daily_load : text :=
  str "CREATE WORKFLOW daily AS (STAGE raw FROM '/data/orders.csv', LOAD INTO orders FROM raw)".
Definition created : WorkflowCatalog :=
  workflow_catalog_after (orochi_create_workflow [] daily_load no_workflows).
Definition after_run : WorkflowCatalog :=
  workflow_catalog_after (orochi_run_workflow id id (λ _ _, SpiDone) (λ _, None) 7 1 created).

Lemma workflows_never_succeed_witness :
  len (step_rows after_run) = 2 ∧ len (wf_runs after_run) = 1 ∧
  Forall (λ r, wf_successful_runs r = 0) (wf_rows after_run).
Proof.
  split; [reflexivity|]. split; [reflexivity|]. apply (workflows_never_succeed after_run).
  apply (rtc_l _ _ created); [|apply (rtc_l _ _ after_run); [|apply rtc_refl]].
  - apply (step_create_workflow [] daily_load no_workflows 1). reflexivity.
  - apply (step_run_workflow id id (λ _ _, SpiDone) (λ _, None) 7 1 created 1). reflexivity.
Defined.
