(* ===== verification/Hypertable.v ===== *)
(** * Time series

    [timeseries/hypertable.c] with the chunk and table rows of [core/catalog.c]: time
    buckets, hypertables and their chunks, compression of chunks, policies.  A relation of
    the database is its name and its rows; an SQL statement that fails raises an error, as
    [SPI_execute] does. *)
From stdpp Require Import sets relations gmap sorting.
From S2P Require Import Prelude Postgres CText Cron.

Local Open Scope Z_scope.

(** ** Time buckets *)
Definition USECS_PER_DAY : Z := 86400 * USECS_PER_SEC.
Definition USECS_PER_HOUR : Z := 3600 * USECS_PER_SEC.
Definition USECS_PER_MINUTE : Z := 60 * USECS_PER_SEC.

Definition interval_to_usec (i : Interval) : Z :=
  i64 (i64 (i64 (0 + time i) + i64 (day i * USECS_PER_DAY)) + i64 (i64 (month i * USECS_PER_DAY) * 30)).

(** Division of [int64]: [INT64_MIN / -1] does not fit and traps. *)
Definition div64 (a b : Z) : outcome Z :=
  if (b =? 0) || ((a =? INT64_MIN) && (b =? -1)) then Undef else Ok (Z.quot a b).

Definition orochi_time_bucket (bucket_width : Interval) (ts : Z) : outcome Z :=
  let bucket_usec := interval_to_usec bucket_width in
  if bucket_usec <=? 0 then Err "bucket width must be positive" else
  q ← div64 ts bucket_usec;
  Ok (i64 (q * bucket_usec)).

Definition orochi_time_bucket_offset (bucket_width : Interval) (ts : Z) (offset : Interval) : outcome Z :=
  let offset_usec := interval_to_usec offset in
  bucket ← orochi_time_bucket bucket_width (i64 (ts + offset_usec));
  Ok (i64 (bucket - offset_usec)).

(** The width is not checked. *)
Definition orochi_time_bucket_origin (bucket_width : Interval) (ts origin : Z) : outcome Z :=
  let bucket_usec := interval_to_usec bucket_width in
  let delta := i64 (ts - origin) in
  buckets ← (if 0 <=? delta then div64 delta bucket_usec
             else div64 (i64 (i64 (delta - bucket_usec) + 1)) bucket_usec);
  Ok (i64 (origin + i64 (buckets * bucket_usec))).

Definition orochi_time_bucket_int (bucket_width value : Z) : outcome Z :=
  if bucket_width <=? 0 then Err "bucket width must be positive" else
  q ← (if 0 <=? value then div64 value bucket_width
       else div64 (i64 (i64 (value - bucket_width) + 1)) bucket_width);
  Ok (i64 (q * bucket_width)).

Definition orochi_time_bucket_timestamp : Interval → Z → outcome Z := orochi_time_bucket.
Definition orochi_time_bucket_timestamptz : Interval → Z → outcome Z := orochi_time_bucket.
Definition orochi_time_bucket_timestamptz_origin : Interval → Z → Z → outcome Z :=
  orochi_time_bucket_origin.
Definition orochi_time_bucket_int_sql : Z → Z → outcome Z := orochi_time_bucket_int.

(** ** The catalog *)
Definition DEFAULT_CHUNK_INTERVAL_USEC : Z := USECS_PER_DAY.
Definition MIN_CHUNK_INTERVAL_USEC : Z := USECS_PER_HOUR.
Definition CHUNK_PREFIX : text := str "_orochi_chunk_".
Definition MAX_CHUNK_NAME_LEN : Z := 64.

Record OrochiTableInfo := {
  relid : Z; schema_name : text; table_name : text; storage_type : Z; shard_strategy : Z;
  shard_count : Z; distribution_column : option text; is_distributed : bool;
  is_timeseries : bool; time_column : option text; chunk_interval : option Interval;
  compression : Z; compression_level : Z }.

Record OrochiChunkInfo := {
  chunk_id : Z; hypertable_oid : Z; dimension_id : Z; range_start : Z; range_end : Z;
  row_count : Z; size_bytes : Z; is_compressed : bool; storage_tier : Z;
  tablespace : option text }.

Definition OROCHI_STORAGE_ROW : Z := 0.
Definition OROCHI_SHARD_RANGE : Z := 1.
Definition OROCHI_COMPRESS_NONE : Z := 0.
Definition OROCHI_COMPRESS_ZSTD : Z := 2.
Definition OROCHI_TIER_HOT : Z := 0.

Inductive DimensionType := DIMENSION_TIME | DIMENSION_SPACE.

Record HypertableDimension := {
  d_dimension_id : Z; d_hypertable : Z; column_name : text; dim_type : DimensionType;
  num_slices : Z; interval_length : Z }.

(** [last_run] is null until the first run. *)
Record PolicyRow := {
  policy_id : Z; p_hypertable : Z; policy_type : Z; trigger_interval : Interval;
  policy_active : bool; last_run : option Z }.

(** A row of [orochi.compressed_chunk_data], whose key is the chunk. *)
Record CompressedRow := { compressed_data : list Z; original_size : Z; compressed_rows : Z }.

Abbreviation row := (list Z).

Record Database := {
  table_rows : list OrochiTableInfo; dimension_rows : list HypertableDimension;
  chunk_rows : list OrochiChunkInfo; policy_rows : list PolicyRow;
  next_chunk_id : Z; next_dimension_id : Z; next_policy_id : Z;
  relations : gmap (text * text) (list row);
  compressed_chunks : gmap Z CompressedRow }.

Definition set_tables (l : list OrochiTableInfo) (d : Database) : Database :=
  {| table_rows := l; dimension_rows := dimension_rows d; chunk_rows := chunk_rows d;
     policy_rows := policy_rows d; next_chunk_id := next_chunk_id d;
     next_dimension_id := next_dimension_id d; next_policy_id := next_policy_id d;
     relations := relations d; compressed_chunks := compressed_chunks d |}.
Definition set_dimensions (l : list HypertableDimension) (next : Z) (d : Database) : Database :=
  {| table_rows := table_rows d; dimension_rows := l; chunk_rows := chunk_rows d;
     policy_rows := policy_rows d; next_chunk_id := next_chunk_id d;
     next_dimension_id := next; next_policy_id := next_policy_id d;
     relations := relations d; compressed_chunks := compressed_chunks d |}.
Definition set_chunks (l : list OrochiChunkInfo) (next : Z) (d : Database) : Database :=
  {| table_rows := table_rows d; dimension_rows := dimension_rows d; chunk_rows := l;
     policy_rows := policy_rows d; next_chunk_id := next;
     next_dimension_id := next_dimension_id d; next_policy_id := next_policy_id d;
     relations := relations d; compressed_chunks := compressed_chunks d |}.
Definition set_policies (l : list PolicyRow) (next : Z) (d : Database) : Database :=
  {| table_rows := table_rows d; dimension_rows := dimension_rows d; chunk_rows := chunk_rows d;
     policy_rows := l; next_chunk_id := next_chunk_id d;
     next_dimension_id := next_dimension_id d; next_policy_id := next;
     relations := relations d; compressed_chunks := compressed_chunks d |}.
Definition set_data (r : gmap (text * text) (list row)) (c : gmap Z CompressedRow) (d : Database) : Database :=
  {| table_rows := table_rows d; dimension_rows := dimension_rows d; chunk_rows := chunk_rows d;
     policy_rows := policy_rows d; next_chunk_id := next_chunk_id d;
     next_dimension_id := next_dimension_id d; next_policy_id := next_policy_id d;
     relations := r; compressed_chunks := c |}.

Definition set_interval (i : option Interval) (t : OrochiTableInfo) : OrochiTableInfo :=
  {| relid := relid t; schema_name := schema_name t; table_name := table_name t;
     storage_type := storage_type t; shard_strategy := shard_strategy t;
     shard_count := shard_count t; distribution_column := distribution_column t;
     is_distributed := is_distributed t; is_timeseries := is_timeseries t;
     time_column := time_column t; chunk_interval := i; compression := compression t;
     compression_level := compression_level t |}.
Definition set_compression (c : Z) (t : OrochiTableInfo) : OrochiTableInfo :=
  {| relid := relid t; schema_name := schema_name t; table_name := table_name t;
     storage_type := storage_type t; shard_strategy := shard_strategy t;
     shard_count := shard_count t; distribution_column := distribution_column t;
     is_distributed := is_distributed t; is_timeseries := is_timeseries t;
     time_column := time_column t; chunk_interval := chunk_interval t; compression := c;
     compression_level := compression_level t |}.

(** The query does not ask for the chunk interval. *)
Definition orochi_catalog_get_table (id : Z) (d : Database) : option OrochiTableInfo :=
  set_interval None <$> head (filter (λ t, relid t = id) (table_rows d)).

(** A conflict updates the row but for its schema and name. *)
Definition overwrite_table (old new : OrochiTableInfo) : OrochiTableInfo :=
  {| relid := relid old; schema_name := schema_name old; table_name := table_name old;
     storage_type := storage_type new; shard_strategy := shard_strategy new;
     shard_count := shard_count new; distribution_column := distribution_column new;
     is_distributed := is_distributed new; is_timeseries := is_timeseries new;
     time_column := time_column new; chunk_interval := chunk_interval new;
     compression := compression new; compression_level := compression_level new |}.

Definition orochi_catalog_register_table (t : OrochiTableInfo) (d : Database) : Database :=
  if existsb (λ x, relid x =? relid t) (table_rows d)
  then set_tables (map (λ x, if relid x =? relid t then overwrite_table x t else x) (table_rows d)) d
  else set_tables (table_rows d ++ [t]) d.

Definition orochi_catalog_update_table : OrochiTableInfo → Database → Database :=
  orochi_catalog_register_table.

Definition orochi_catalog_get_chunk (id : Z) (d : Database) : option OrochiChunkInfo :=
  head (filter (λ c, chunk_id c = id) (chunk_rows d)).

Definition orochi_catalog_get_chunk_count (oid : Z) (d : Database) : Z :=
  len (filter (λ c, hypertable_oid c = oid) (chunk_rows d)).

Definition with_compression (b : bool) (c : OrochiChunkInfo) : OrochiChunkInfo :=
  {| chunk_id := chunk_id c; hypertable_oid := hypertable_oid c; dimension_id := dimension_id c;
     range_start := range_start c; range_end := range_end c; row_count := row_count c;
     size_bytes := size_bytes c; is_compressed := b; storage_tier := storage_tier c;
     tablespace := tablespace c |}.

Definition orochi_catalog_update_chunk_compression (id : Z) (b : bool) (d : Database) : Database :=
  set_chunks (map (λ c, if chunk_id c =? id then with_compression b c else c) (chunk_rows d))
    (next_chunk_id d) d.

Definition with_tier (tier : Z) (c : OrochiChunkInfo) : OrochiChunkInfo :=
  {| chunk_id := chunk_id c; hypertable_oid := hypertable_oid c; dimension_id := dimension_id c;
     range_start := range_start c; range_end := range_end c; row_count := row_count c;
     size_bytes := size_bytes c; is_compressed := is_compressed c; storage_tier := tier;
     tablespace := tablespace c |}.

Definition orochi_catalog_update_chunk_tier (id tier : Z) (d : Database) : Database :=
  set_chunks (map (λ c, if chunk_id c =? id then with_tier tier c else c) (chunk_rows d))
    (next_chunk_id d) d.

Definition orochi_catalog_delete_chunk (id : Z) (d : Database) : Database :=
  set_chunks (filter (λ c, chunk_id c ≠ id) (chunk_rows d)) (next_chunk_id d) d.

Definition starts_before (a b : OrochiChunkInfo) : Prop := range_start a <= range_start b.

#[export] Instance starts_before_dec a b : Decision (starts_before a b).
Proof. unfold starts_before. apply _. Defined.

Section catalog.
Context `{B : TimestampBuffer}.

(** A conflict inserts nothing, but it has taken a number of the sequence. *)
Definition orochi_catalog_create_chunk (oid start stop : Z) (d : Database) : outcome (Z * Database) :=
  let at_ := printed start stop in
  if negb (existsb (λ t, relid t =? oid) (table_rows d)) then Err "violates foreign key constraint"
  else if existsb (λ c, (hypertable_oid c =? oid) && (range_start c =? at_)) (chunk_rows d)
  then Ok (-1, set_chunks (chunk_rows d) (next_chunk_id d + 1) d)
  else
    let c := {| chunk_id := next_chunk_id d; hypertable_oid := oid; dimension_id := 0;
                range_start := at_; range_end := at_; row_count := 0; size_bytes := 0;
                is_compressed := false; storage_tier := 0; tablespace := None |} in
    Ok (next_chunk_id d, set_chunks (chunk_rows d ++ [c]) (next_chunk_id d + 1) d).

Definition orochi_catalog_get_chunks_in_range (oid start stop : Z) (d : Database) : list OrochiChunkInfo :=
  let at_ := printed stop start in
  merge_sort starts_before
    (filter (λ c, hypertable_oid c = oid ∧ range_start c < at_ ∧ at_ < range_end c) (chunk_rows d)).

End catalog.

(** ** Hypertables *)

(** What PostgreSQL knows of a relation: [relation_open] raises an error on an unknown one. *)
Record Attribute := { attname : text; atttypid : Z; attisdropped : bool }.
Record Relation := { rel_schema : text; rel_name : text; attributes : list Attribute }.
Class PgClass := { relation_open : Z → option Relation }.

(** The loop over the attributes. *)
Definition find_column (name : text) (attrs : list Attribute) : option Z :=
  atttypid <$> head (filter (λ a, attisdropped a = false ∧ attname a = name) attrs).

Definition time_type (t : Z) : bool :=
  (t =? TIMESTAMPOID) || (t =? TIMESTAMPTZOID) || (t =? DATEOID) || (t =? INT8OID) || (t =? INT4OID).

Definition orochi_is_hypertable (oid : Z) (d : Database) : bool :=
  match orochi_catalog_get_table oid d with Some t => is_timeseries t | None => false end.

Definition dimension_key (oid : Z) (name : text) (x : HypertableDimension) : bool :=
  (d_hypertable x =? oid) && bool_decide (column_name x = name).

Definition dim_type_of (z : Z) : DimensionType := if z =? 0 then DIMENSION_TIME else DIMENSION_SPACE.

Definition orochi_register_dimension (oid : Z) (name : text) (dimension_type num_partitions interval : Z)
    (d : Database) : Database :=
  let next := next_dimension_id d in
  let row id := {| d_dimension_id := id; d_hypertable := oid; column_name := name;
                   dim_type := dim_type_of dimension_type; num_slices := num_partitions;
                   interval_length := interval |} in
  if existsb (dimension_key oid name) (dimension_rows d)
  then set_dimensions (map (λ x, if dimension_key oid name x then row (d_dimension_id x) else x)
                         (dimension_rows d)) (next + 1) d
  else set_dimensions (dimension_rows d ++ [row next]) (next + 1) d.

Definition orochi_add_dimension (oid : Z) (name : text) (num_partitions : Z)
    (interval : option Interval) (d : Database) : outcome Database :=
  if negb (orochi_is_hypertable oid d) then Err "table is not a hypertable" else
  match interval with
  | Some i => Ok (orochi_register_dimension oid name 0 num_partitions (interval_to_usec i) d)
  | None => Ok (orochi_register_dimension oid name 1 num_partitions 0 d)
  end.

Definition new_table (oid : Z) (r : Relation) (column : text) (interval : option Interval) : OrochiTableInfo :=
  {| relid := oid; schema_name := rel_schema r; table_name := rel_name r;
     storage_type := OROCHI_STORAGE_ROW; shard_strategy := OROCHI_SHARD_RANGE; shard_count := 0;
     distribution_column := None; is_distributed := false; is_timeseries := true;
     time_column := Some column; chunk_interval := interval; compression := OROCHI_COMPRESS_NONE;
     compression_level := 0 |}.

Definition chunk_usec (interval : option Interval) : Z :=
  match interval with Some i => interval_to_usec i | None => DEFAULT_CHUNK_INTERVAL_USEC end.

Section hypertables.
Context `{C : PgClass}.

Definition orochi_create_hypertable (oid : Z) (column : text) (interval : option Interval)
    (if_not_exists : bool) (d : Database) : outcome Database :=
  if orochi_is_hypertable oid d then
    if if_not_exists then Ok d else Err "table is already a hypertable"
  else if chunk_usec interval <? MIN_CHUNK_INTERVAL_USEC then Err "chunk interval too small"
  else match relation_open oid with
  | None => Err "could not open relation"
  | Some r =>
      match find_column column (attributes r) with
      | None => Err "column does not exist"
      | Some t =>
          if negb (time_type t) then Err "time column must be a time or an integer" else
          Ok (orochi_register_dimension oid column 0 1 (chunk_usec interval)
                (orochi_catalog_register_table (new_table oid r column interval) d))
      end
  end.

Definition orochi_create_hypertable_with_space (oid : Z) (column : text) (interval : option Interval)
    (space : text) (num_partitions : Z) (d : Database) : outcome Database :=
  d ← orochi_create_hypertable oid column interval false d;
  orochi_add_dimension oid space num_partitions None d.

(** The functions SQL calls: this one is strict, the next takes a null interval. *)
Definition orochi_create_hypertable_sql (oid : Z) (column : text) (interval : Interval)
    (if_not_exists : bool) (d : Database) : outcome Database :=
  orochi_create_hypertable oid column (Some interval) if_not_exists d.

End hypertables.

Definition orochi_add_dimension_sql : Z → text → Z → option Interval → Database → outcome Database :=
  orochi_add_dimension.

Record HypertableInfo := {
  h_oid : Z; h_schema : text; h_table : text; h_dimensions : list HypertableDimension;
  h_chunk_count : Z; h_compression_enabled : bool; h_is_distributed : bool }.

Definition type_code (t : DimensionType) : Z := match t with DIMENSION_TIME => 0 | DIMENSION_SPACE => 1 end.

Definition dimension_before (a b : HypertableDimension) : Prop :=
  type_code (dim_type a) < type_code (dim_type b) ∨
  (type_code (dim_type a) = type_code (dim_type b) ∧ d_dimension_id a <= d_dimension_id b).

#[export] Instance dimension_before_dec a b : Decision (dimension_before a b).
Proof. unfold dimension_before. apply _. Defined.

Definition orochi_get_hypertable_info (oid : Z) (d : Database) : option HypertableInfo :=
  match orochi_catalog_get_table oid d with
  | Some t =>
      if negb (is_timeseries t) then None else
      Some {| h_oid := oid; h_schema := schema_name t; h_table := table_name t;
              h_dimensions := merge_sort dimension_before
                                (filter (λ x, d_hypertable x = oid) (dimension_rows d));
              h_chunk_count := orochi_catalog_get_chunk_count oid d;
              h_compression_enabled := negb (compression t =? OROCHI_COMPRESS_NONE);
              h_is_distributed := is_distributed t |}
  | None => None
  end.

(** The settings read from the catalog, so with no chunk interval, are written back. *)
Definition orochi_enable_compression (oid : Z) (d : Database) : outcome Database :=
  match orochi_catalog_get_table oid d with
  | Some t => if negb (is_timeseries t) then Err "table is not a hypertable"
              else Ok (orochi_catalog_update_table (set_compression OROCHI_COMPRESS_ZSTD t) d)
  | None => Err "table is not a hypertable"
  end.

(** ** Chunks *)

(** A name has at most 45 characters, so [snprintf] cuts nothing off. *)
Definition generate_chunk_name (oid id : Z) : text := CHUNK_PREFIX ++ print oid ++ str "_" ++ print id.

Definition calculate_chunk_range (oid ts : Z) (d : Database) : outcome (Z * Z) :=
  match orochi_catalog_get_table oid d with
  | Some t =>
      if negb (is_timeseries t) then Err "table is not a hypertable" else
      let interval_usec := chunk_usec (chunk_interval t) in
      q ← div64 ts interval_usec;
      Ok (i64 (q * interval_usec), i64 (i64 (q * interval_usec) + interval_usec))
  | None => Err "table is not a hypertable"
  end.

Record ChunkInfo := {
  ck_id : Z; ck_oid : Z; ck_schema : option text; ck_name : option text; ck_compressed : bool;
  ck_tier : Z; ck_rows : Z; ck_size : Z }.

Definition info_of_chunk (c : OrochiChunkInfo) : ChunkInfo :=
  {| ck_id := chunk_id c; ck_oid := hypertable_oid c; ck_schema := None; ck_name := None;
     ck_compressed := is_compressed c; ck_tier := storage_tier c; ck_rows := row_count c;
     ck_size := size_bytes c |}.
Definition info_of_new_chunk (oid id : Z) : ChunkInfo :=
  {| ck_id := id; ck_oid := oid; ck_schema := Some (str "orochi");
     ck_name := Some (generate_chunk_name oid id); ck_compressed := false;
     ck_tier := OROCHI_TIER_HOT; ck_rows := 0; ck_size := 0 |}.

(** [CREATE TABLE name (LIKE model ...)]. *)
Definition create_table_like (name model : text * text) (d : Database) : outcome Database :=
  match relations d !! name, relations d !! model with
  | None, Some _ => Ok (set_data (<[name := []]> (relations d)) (compressed_chunks d) d)
  | Some _, _ => Err "relation already exists"
  | None, None => Err "relation does not exist"
  end.

Definition chunk_relation (oid id : Z) : text * text := (str "orochi", generate_chunk_name oid id).

(** The table that [orochi_drop_chunk] names. *)
Definition dropped_relation (id : Z) : text * text := (str "_orochi_internal", str "_chunk_" ++ print id).

Definition orochi_drop_chunk (id : Z) (d : Database) : Database :=
  orochi_catalog_delete_chunk id
    (set_data (delete (dropped_relation id) (relations d)) (compressed_chunks d) d).

Section chunks.
Context `{B : TimestampBuffer}.

Definition orochi_get_chunk_for_timestamp (oid ts : Z) (d : Database) : outcome (option ChunkInfo * Database) :=
  '(start, stop) ← calculate_chunk_range oid ts d;
  match head (filter (λ c, range_start c = start) (orochi_catalog_get_chunks_in_range oid start stop d)) with
  | Some c => Ok (Some (info_of_chunk c), d)
  | None =>
      '(id, d) ← orochi_catalog_create_chunk oid start stop d;
      if 0 <? id then
        match orochi_catalog_get_table oid d with
        | Some t =>
            d ← create_table_like (chunk_relation oid id) (schema_name t, table_name t) d;
            Ok (Some (info_of_new_chunk oid id), d)
        | None => Undef
        end
      else Ok (None, d)
  end.

Definition orochi_get_chunks_in_time_range (oid start stop : Z) (d : Database) : list ChunkInfo :=
  info_of_chunk <$> orochi_catalog_get_chunks_in_range oid start stop d.

(** [now] is the current time; a null interval is dereferenced. *)
Definition orochi_drop_chunks_older_than (now oid : Z) (older_than : option Interval) (d : Database)
    : outcome (Z * Database) :=
  match older_than with
  | None => Undef
  | Some i =>
      let cutoff := i64 (now - interval_to_usec i) in
      let chunks := orochi_get_chunks_in_time_range oid 0 cutoff d in
      Ok (i32 (len chunks), foldl (λ d c, orochi_drop_chunk (ck_id c) d) d chunks)
  end.

Definition orochi_drop_chunks_sql : Z → Z → option Interval → Database → outcome (Z * Database) :=
  orochi_drop_chunks_older_than.

End chunks.

(** ** Compression of chunks *)

(** The SQL functions the statements call; a missing one raises an error.  [row_to_json] and
    [json_to_row] are the conversions between a row of the chunk and its JSON text,
    [bytea_of_text] is the cast, which reads backslashes as escapes.  PostgreSQL has no
    functions [compress] and [decompress]: they are there when the database defines them. *)
Class SqlFunctions := {
  row_to_json : row → list Z;
  json_to_row : list Z → option row;
  bytea_of_text : list Z → option (list Z);
  convert_from_utf8 : list Z → option (list Z);
  compress_function : option (list Z → option (list Z));
  decompress_function : option (list Z → option (list Z));
  pg_total_relation_size : list row → Z }.

(** [string_agg(_, E'\n')], which is null of no rows, and [string_to_array(_, E'\n')]. *)
Fixpoint string_agg (l : list (list Z)) : option (list Z) :=
  match l with
  | [] => None
  | x :: l => match string_agg l with Some t => Some (x ++ 10 :: t) | None => Some x end
  end.
Fixpoint string_to_array (t : list Z) : list (list Z) :=
  match t with
  | [] => [[]]
  | c :: t =>
      if c =? 10 then [] :: string_to_array t
      else match string_to_array t with x :: l => (c :: x) :: l | [] => [[c]] end
  end.

Definition sql {A} (o : option A) : outcome A :=
  match o with Some a => Ok a | None => Err "SQL error" end.

Section compression.
Context `{S : SqlFunctions}.

(** [INSERT ... SELECT compress(string_agg(...)), ..., count( * ) FROM chunk]: a null violates
    a constraint of the table, and so does a second row for the chunk.  [SPI_execute] raises
    these errors, so that the statement that follows a failure is never run. *)
Definition insert_compressed (id : Z) (rows : list row) (d : Database) : outcome Database :=
  match compress_function, string_agg (row_to_json <$> rows) with
  | None, _ => Err "function compress(bytea, unknown) does not exist"
  | _, None => Err "null value violates not-null constraint"
  | Some compress, Some t =>
      b ← sql (bytea_of_text t ≫= compress);
      match compressed_chunks d !! id with
      | Some _ => Err "duplicate key value"
      | None =>
          Ok (set_data (relations d)
                (<[id := {| compressed_data := b; original_size := pg_total_relation_size rows;
                            compressed_rows := len rows |}]> (compressed_chunks d)) d)
      end
  end.

Definition orochi_compress_chunk (id : Z) (d : Database) : outcome Database :=
  match orochi_catalog_get_chunk id d with
  | None => Err "chunk does not exist"
  | Some c =>
      if is_compressed c then Ok d else
      match orochi_catalog_get_table (hypertable_oid c) d with
      | None => Err "hypertable does not exist"
      | Some _ =>
          let name := chunk_relation (hypertable_oid c) id in
          rows ← sql (relations d !! name);
          d ← insert_compressed id rows d;
          let d := set_data (<[name := []]> (relations d)) (compressed_chunks d) d in
          Ok (orochi_catalog_update_chunk_compression id true d)
      end
  end.

(** The [FOR] loop of the [DO] block. *)
Fixpoint insert_texts (texts : list (list Z)) (rows : list row) : outcome (list row) :=
  match texts with
  | [] => Ok rows
  | [] :: texts => insert_texts texts rows
  | t :: texts => r ← sql (json_to_row t); insert_texts texts (rows ++ [r])
  end.

Definition restore_rows (name : text * text) (b : list Z) (d : Database) : outcome Database :=
  match decompress_function with
  | None => Err "function decompress(bytea, unknown) does not exist"
  | Some decompress =>
      b ← sql (decompress b);
      match b with
      | [] => Ok d
      | _ =>
          t ← sql (convert_from_utf8 b);
          rows ← sql (relations d !! name);
          rows ← insert_texts (string_to_array t) rows;
          Ok (set_data (<[name := rows]> (relations d)) (compressed_chunks d) d)
      end
  end.

Definition orochi_decompress_chunk (id : Z) (d : Database) : outcome Database :=
  match orochi_catalog_get_chunk id d with
  | None => Err "chunk does not exist"
  | Some c =>
      if negb (is_compressed c) then Ok d else
      match orochi_catalog_get_table (hypertable_oid c) d with
      | None => Err "hypertable does not exist"
      | Some _ =>
          d ← match compressed_chunks d !! id with
              | None => Ok d
              | Some x =>
                  d ← (if 0 <? compressed_rows x
                       then restore_rows (chunk_relation (hypertable_oid c) id) (compressed_data x) d
                       else Ok d);
                  Ok (set_data (relations d) (delete id (compressed_chunks d)) d)
              end;
          Ok (orochi_catalog_update_chunk_compression id false d)
      end
  end.

Definition orochi_compress_chunk_sql : Z → Database → outcome Database := orochi_compress_chunk.
Definition orochi_decompress_chunk_sql : Z → Database → outcome Database := orochi_decompress_chunk.

End compression.

(** ** Policies *)

Definition POLICY_TYPE_COMPRESSION : Z := 0.
Definition POLICY_TYPE_RETENTION : Z := 1.
Definition POLICY_TYPE_TIERING : Z := 2.

(** The interval that ['%d days %d hours %d mins'] denotes. *)
Definition stored_interval (i : Interval) : Interval :=
  {| time := i32 (Z.quot (time i) USECS_PER_HOUR) * USECS_PER_HOUR
             + i32 (Z.quot (Z.rem (time i) USECS_PER_HOUR) USECS_PER_MINUTE) * USECS_PER_MINUTE;
     day := day i; month := 0 |}.

Definition policy_key (oid type : Z) (p : PolicyRow) : bool :=
  (p_hypertable p =? oid) && (policy_type p =? type).

Definition retrigger (i : Interval) (p : PolicyRow) : PolicyRow :=
  {| policy_id := policy_id p; p_hypertable := p_hypertable p; policy_type := policy_type p;
     trigger_interval := i; policy_active := true; last_run := last_run p |}.

Definition store_policy (oid type : Z) (i : Interval) (d : Database) : Z * Database :=
  let next := next_policy_id d in
  match head (filter (λ p, policy_key oid type p = true) (policy_rows d)) with
  | Some p =>
      (policy_id p,
       set_policies (map (λ p, if policy_key oid type p then retrigger (stored_interval i) p else p)
                       (policy_rows d)) (next + 1) d)
  | None =>
      (next,
       set_policies (policy_rows d ++ [{| policy_id := next; p_hypertable := oid; policy_type := type;
                                          trigger_interval := stored_interval i;
                                          policy_active := true; last_run := None |}]) (next + 1) d)
  end.

Definition orochi_add_retention_policy (oid : Z) (drop_after : Interval) (d : Database)
    : outcome (Z * Database) :=
  if negb (orochi_is_hypertable oid d) then Err "table is not a hypertable"
  else Ok (store_policy oid 1 drop_after d).

Definition orochi_add_compression_policy (oid : Z) (compress_after : Interval) (d : Database)
    : outcome (Z * Database) :=
  if negb (orochi_is_hypertable oid d) then Err "table is not a hypertable"
  else Ok (store_policy oid 0 compress_after d).

Definition remove_policy (oid type : Z) (d : Database) : Z * Database :=
  (match head (filter (λ p, policy_key oid type p = true) (policy_rows d)) with
   | Some p => policy_id p | None => 0 end,
   set_policies (filter (λ p, policy_key oid type p = false) (policy_rows d)) (next_policy_id d) d).

Definition orochi_add_compression_policy_sql : Z → Interval → Database → outcome (Z * Database) :=
  orochi_add_compression_policy.
Definition orochi_add_retention_policy_sql : Z → Interval → Database → outcome (Z * Database) :=
  orochi_add_retention_policy.
Definition orochi_remove_compression_policy_sql (oid : Z) : Database → Z * Database := remove_policy oid 0.
Definition orochi_remove_retention_policy_sql (oid : Z) : Database → Z * Database := remove_policy oid 1.

(** ** Maintenance *)

(** Of a timestamp and an interval, PostgreSQL's [+]. *)
Class TimestampPlus := { timestamptz_pl_interval : Z → Interval → Z }.

Section maintenance.
Context `{P : TimestampPlus}.

Definition policy_due (now : Z) (d : Database) (p : PolicyRow) : bool :=
  policy_active p && existsb (λ t, relid t =? p_hypertable p) (table_rows d) &&
  match last_run p with
  | None => true
  | Some t => timestamptz_pl_interval t (trigger_interval p) <? now
  end.

Definition by_type (a b : PolicyRow) : Prop := policy_type a <= policy_type b.

#[export] Instance by_type_dec a b : Decision (by_type a b).
Proof. unfold by_type. apply _. Defined.

Definition set_last_run (now id : Z) (p : PolicyRow) : PolicyRow :=
  if policy_id p =? id
  then {| policy_id := policy_id p; p_hypertable := p_hypertable p; policy_type := policy_type p;
          trigger_interval := trigger_interval p; policy_active := policy_active p;
          last_run := Some now |}
  else p.

(** The loop runs until [SPI_processed], which the [UPDATE] of the first round sets to one:
    only the first policy is handled.  The statement of each of the three types has the text
    of the interval without quotes in front of [::interval], which no style of interval makes
    an expression: the server refuses it. *)
Definition apply_policies (now : Z) (policies : list PolicyRow) (d : Database) : outcome Database :=
  match policies with
  | [] => Ok d
  | p :: _ =>
      if (policy_type p =? POLICY_TYPE_COMPRESSION) || (policy_type p =? POLICY_TYPE_RETENTION)
         || (policy_type p =? POLICY_TYPE_TIERING)
      then Err "syntax error"
      else Ok (set_policies (set_last_run now (policy_id p) <$> policy_rows d) (next_policy_id d) d)
  end.

Definition orochi_run_maintenance (now : Z) (d : Database) : outcome Database :=
  d ← apply_policies now (merge_sort by_type (filter (λ p, policy_due now d p = true) (policy_rows d))) d;
  match relations d !! (str "orochi", str "orochi_continuous_aggs"),
        relations d !! (str "orochi", str "orochi_cagg_invalidations") with
  | Some _, Some _ => Ok d
  | _, _ => Err "relation does not exist"
  end.

Definition orochi_run_maintenance_sql : Z → Database → outcome Database := orochi_run_maintenance.

End maintenance.

(** ** Time buckets are floors, where they are *)

Lemma div64_ok a b : 0 < b → div64 a b = Ok (Z.quot a b).
Proof.
  intros Hb. unfold div64. replace (b =? 0) with false by lia. replace (b =? -1) with false by lia.
  by rewrite andb_false_r.
Qed.

(** The quotient of C of a number moved down by [w - 1] is the floor, of the negative ones. *)
Lemma quot_floor v w : 0 < w → v < 0 → Z.quot (v - w + 1) w = v / w.
Proof.
  intros Hw Hv. assert (E := Z_div_mod_eq_full v w). pose proof (Z.mod_pos_bound v w Hw).
  replace (v - w + 1) with (- (w - 1 - v)) by lia.
  rewrite Z.quot_opp_l, Z.quot_div_nonneg by lia.
  enough ((w - 1 - v) / w = - (v / w)) by lia.
  symmetry. apply (Z.div_unique _ _ _ (w - 1 - v mod w)); nia.
Qed.

Lemma floor_in_range v w : 0 < w → 0 <= v → v <= INT64_MAX → in_i 64 (v / w * w).
Proof.
  intros Hw H0 Hv. pose proof (Z.mul_div_le v w Hw). assert (0 <= v / w) by (by apply Z.div_pos).
  unfold in_i. change INT64_MAX with (2 ^ 63 - 1) in *. nia.
Qed.

(** What [orochi_time_bucket] returns is the quotient rounded to zero. *)
Lemma time_bucket_value i ts :
  let w := interval_to_usec i in
  0 < w → in_i 64 ts → orochi_time_bucket i ts = Ok (Z.quot ts w * w).
Proof.
  intros w Hw Hts. unfold orochi_time_bucket. fold w. replace (w <=? 0) with false by lia.
  rewrite div64_ok by done. cbn. f_equal. apply swrap_id; [lia|].
  unfold in_i in *. destruct (decide (0 <= ts)).
  - pose proof (Z.mul_quot_le ts w). lia.
  - pose proof (Z.mul_quot_ge ts w). lia.
Qed.

(** Rounding to zero is the floor of the numbers from zero on and of the multiples. *)
Lemma quot_is_floor_iff a w : 0 < w → Z.quot a w = a / w ↔ 0 <= a ∨ a mod w = 0.
Proof.
  intros Hw. assert (E := Z_div_mod_eq_full a w). assert (F := Z.quot_rem' a w).
  pose proof (Z.mod_pos_bound a w Hw). split.
  - intros Hq. destruct (decide (0 <= a)); [by left|right].
    pose proof (Z.mul_quot_ge a w). nia.
  - intros [H0|Hm]; [by apply Z.quot_div_nonneg|]. rewrite Hm in E.
    rewrite E at 1. rewrite Z.add_0_r, Z.mul_comm. apply Z.quot_mul. lia.
Qed.

(** A bucket of integers is the largest multiple of the width that is not above the
    value, on both sides of zero. *)
Theorem time_bucket_int_is_floor w v :
  0 < w → INT64_MIN + w - 1 <= v → v <= INT64_MAX →
  ∃ b, orochi_time_bucket_int w v = Ok b ∧ b <= v < b + w ∧ b mod w = 0.
Proof.
  intros Hw Hl Hu. exists (v / w * w). split.
  - unfold orochi_time_bucket_int. replace (w <=? 0) with false by lia. destruct (0 <=? v) eqn:H0.
    + rewrite div64_ok by done. cbn. rewrite Z.quot_div_nonneg by lia. f_equal.
      apply swrap_id; [lia|]. apply floor_in_range; lia.
    + change INT64_MAX with (2 ^ 63 - 1) in *. change INT64_MIN with (- 2 ^ 63) in *.
      assert (i64 (i64 (v - w) + 1) = v - w + 1) as ->.
      { rewrite (Z.add_comm (swrap 64 (v - w)) 1), swrap_add_r by lia.
        rewrite swrap_id; unfold in_i; lia. }
      rewrite div64_ok by done. cbn. rewrite quot_floor by lia. f_equal.
      apply swrap_id; [lia|]. pose proof (Z.mul_div_le v w Hw).
      pose proof (Z_div_mod_eq_full v w). pose proof (Z.mod_pos_bound v w Hw). unfold in_i. nia.
  - pose proof (Z_div_mod_eq_full v w). pose proof (Z.mod_pos_bound v w Hw).
    split; [nia|]. by apply Z_mod_mult.
Qed.

Lemma time_bucket_int_is_floor_witness :
  ∃ b, orochi_time_bucket_int 10 (-7) = Ok b ∧ b <= -7 < b + 10 ∧ b mod 10 = 0.
Proof. apply (time_bucket_int_is_floor 10 (-7)); by vm_compute. Defined.

(** The bucket of a timestamp is the multiple of the width at or below it exactly when
    the timestamp is not before 2000 or is itself a multiple; any other one before 2000 gets
    a bucket that starts behind it. *)
Theorem time_bucket_floor_iff i ts :
  let w := interval_to_usec i in
  0 < w → in_i 64 ts →
  ∃ b, orochi_time_bucket i ts = Ok b ∧
       (b = ts / w * w ↔ 0 <= ts ∨ ts mod w = 0) ∧
       (ts < 0 → ts mod w ≠ 0 → ts < b).
Proof.
  intros w Hw Hts. exists (Z.quot ts w * w). split; [by apply time_bucket_value|]. split.
  - rewrite <- quot_is_floor_iff by done. nia.
  - intros Hn Hm. pose proof (Z.mul_quot_ge ts w). enough (Z.quot ts w * w ≠ ts) by lia.
    intros E. apply Hm. rewrite <- E. by apply Z_mod_mult.
Qed.

Lemma time_bucket_floor_iff_witness :
  let hour := {| time := USECS_PER_HOUR; day := 0; month := 0 |} in
  0 < interval_to_usec hour ∧
  ∃ b, orochi_time_bucket hour (-1) = Ok b ∧
       (b = -1 / interval_to_usec hour * interval_to_usec hour ↔ 0 <= -1 ∨ -1 mod interval_to_usec hour = 0) ∧
       (-1 < 0 → -1 mod interval_to_usec hour ≠ 0 → -1 < b).
Proof. split; [by vm_compute|]. apply (time_bucket_floor_iff {| time := USECS_PER_HOUR; day := 0; month := 0 |} (-1)); [by vm_compute|]. unfold in_i. lia. Defined.

(** Without the check of the width, a width of zero divides by zero. *)
Lemma time_bucket_origin_zero i ts origin :
  interval_to_usec i = 0 → orochi_time_bucket_origin i ts origin = Undef.
Proof. intros E. unfold orochi_time_bucket_origin. rewrite E. by destruct_if. Qed.

(** From an origin, a positive width gives the floor. *)
Lemma time_bucket_origin_floor i ts origin :
  let w := interval_to_usec i in
  0 < w → in_i 64 (ts - origin) → - 2 ^ 63 + w - 1 <= ts - origin →
  in_i 64 (origin + (ts - origin) / w * w) →
  orochi_time_bucket_origin i ts origin = Ok (origin + (ts - origin) / w * w).
Proof.
  intros w Hw Hd Hl Hr. unfold orochi_time_bucket_origin. fold w.
  rewrite (swrap_id _ (ts - origin)) by (done || lia). set (a := ts - origin) in *.
  destruct (0 <=? a) eqn:H0.
  - rewrite div64_ok by done. cbn. rewrite Z.quot_div_nonneg by lia.
    f_equal. rewrite swrap_add_r by lia. by apply swrap_id.
  - rewrite (Z.add_comm (swrap 64 (a - w))), swrap_add_r, (swrap_id _ (1 + (a - w)))
      by (lia || unfold in_i in *; lia).
    replace (1 + (a - w)) with (a - w + 1) by lia. rewrite div64_ok by done. cbn.
    rewrite quot_floor by lia. f_equal. rewrite swrap_add_r by lia. by apply swrap_id.
Qed.

(** ** No chunk is ever found *)

(** One call of the component on the database. *)
Section reachable.
Context `{B : TimestampBuffer, C : PgClass, S : SqlFunctions, P : TimestampPlus}.

Inductive step : Database → Database → Prop :=
| StepCreate oid column i b d d' : orochi_create_hypertable oid column i b d = Ok d' → step d d'
| StepDimension oid name n i d d' : orochi_add_dimension oid name n i d = Ok d' → step d d'
| StepEnable oid d d' : orochi_enable_compression oid d = Ok d' → step d d'
| StepChunk oid ts c d d' : orochi_get_chunk_for_timestamp oid ts d = Ok (c, d') → step d d'
| StepDrop id d : step d (orochi_drop_chunk id d)
| StepDropOlder now oid i n d d' : orochi_drop_chunks_older_than now oid i d = Ok (n, d') → step d d'
| StepCompress id d d' : orochi_compress_chunk id d = Ok d' → step d d'
| StepDecompress id d d' : orochi_decompress_chunk id d = Ok d' → step d d'
| StepTier id tier d : step d (orochi_catalog_update_chunk_tier id tier d)
| StepRetention oid i n d d' : orochi_add_retention_policy oid i d = Ok (n, d') → step d d'
| StepCompression oid i n d d' : orochi_add_compression_policy oid i d = Ok (n, d') → step d d'
| StepRemove oid type n d d' : remove_policy oid type d = (n, d') → step d d'
| StepMaintain now d d' : orochi_run_maintenance now d = Ok d' → step d d'.

(** A property of every chunk. *)
Definition every_chunk (Q : OrochiChunkInfo → Prop) (d : Database) : Prop := Forall Q (chunk_rows d).

Lemma every_map Q (f : OrochiChunkInfo → OrochiChunkInfo) l :
  (∀ c, Q c → Q (f c)) → Forall Q l → Forall Q (map f l).
Proof. intros Hf Hl. apply Forall_map. eapply Forall_impl; [exact Hl|]. exact Hf. Qed.

Lemma every_drop Q id d : every_chunk Q d → every_chunk Q (orochi_drop_chunk id d).
Proof.
  unfold every_chunk, orochi_drop_chunk, orochi_catalog_delete_chunk. cbn. rewrite !Forall_forall.
  intros H c [_ Hc]%list_elem_of_filter. by apply H.
Qed.

Lemma every_drops Q l d : every_chunk Q d → every_chunk Q (foldl (λ d c, orochi_drop_chunk (ck_id c) d) d l).
Proof. revert d. induction l as [|c l IH]; intros d H; [done|]. cbn. by apply IH, every_drop. Qed.

(** What a new chunk satisfies, and a chunk of another tier. *)
Class Lasting (Q : OrochiChunkInfo → Prop) := {
  lasting_new oid start stop d id d' :
    orochi_catalog_create_chunk oid start stop d = Ok (id, d') → every_chunk Q d → every_chunk Q d';
  lasting_tier tier c : Q c → Q (with_tier tier c) }.

(** The operations that do not touch the rows of chunks. *)
Lemma restore_rows_chunks name b d d' : restore_rows name b d = Ok d' → chunk_rows d' = chunk_rows d.
Proof. unfold restore_rows. intros H. case_match; [|done]. inv_ok. case_match; inv_ok; done. Qed.

Lemma insert_compressed_chunks id rows d d' :
  insert_compressed id rows d = Ok d' → chunk_rows d' = chunk_rows d.
Proof. unfold insert_compressed. intros H. do 2 (case_match; [|done]). inv_ok. case_match; inv_ok; done. Qed.

Lemma create_table_chunks name model d d' :
  create_table_like name model d = Ok d' → chunk_rows d' = chunk_rows d.
Proof. unfold create_table_like. intros H. repeat case_match; inv_ok; done. Qed.

Lemma register_dimension_chunks oid name t n i d :
  chunk_rows (orochi_register_dimension oid name t n i d) = chunk_rows d.
Proof. unfold orochi_register_dimension. by destruct_if. Qed.

Lemma register_table_chunks t d : chunk_rows (orochi_catalog_register_table t d) = chunk_rows d.
Proof. unfold orochi_catalog_register_table. by destruct_if. Qed.

Lemma store_policy_chunks oid type i d : chunk_rows (store_policy oid type i d).2 = chunk_rows d.
Proof. unfold store_policy. by case_match. Qed.

Lemma maintenance_chunks now d d' : orochi_run_maintenance now d = Ok d' → chunk_rows d' = chunk_rows d.
Proof.
  unfold orochi_run_maintenance. intros (d1 & H1 & H2)%outcome_bind_ok.
  repeat case_match; try discriminate. inv_ok.
  unfold apply_policies in H1. case_match; [by inv_ok|]. destruct_if_hyp; by inv_ok.
Qed.

Lemma every_chunk_for_timestamp `{!Lasting Q} oid ts c d d' :
  orochi_get_chunk_for_timestamp oid ts d = Ok (c, d') → every_chunk Q d → every_chunk Q d'.
Proof.
  unfold orochi_get_chunk_for_timestamp. intros ([start stop] & _ & H)%outcome_bind_ok Hd.
  case_match; [by inv_ok|]. apply outcome_bind_ok in H as ([id d1] & H1 & H).
  apply lasting_new in H1; [|done]. destruct_if_hyp; [|by inv_ok].
  case_match; [|done]. apply outcome_bind_ok in H as (d2 & Hc%create_table_chunks & H). inv_ok.
  unfold every_chunk. by rewrite Hc.
Qed.

(** A property that compressing and decompressing a chunk keep as well is an invariant. *)
Lemma every_step `{!Lasting Q} d d' :
  (∀ id d d', orochi_compress_chunk id d = Ok d' → every_chunk Q d → every_chunk Q d') →
  (∀ id d d', orochi_decompress_chunk id d = Ok d' → every_chunk Q d → every_chunk Q d') →
  step d d' → every_chunk Q d → every_chunk Q d'.
Proof.
  intros Hcompress Hdecompress H Hd.
  destruct H as [oid column i b d d' H|oid name n i d d' H|oid d d' H|oid ts c d d' H|
    id d|now oid i n d d' H|id d d' H|id d d' H|id tier d|oid i n d d' H|oid i n d d' H|oid type n d d' H|now d d' H].
  - unfold orochi_create_hypertable in H. unfold every_chunk in *. repeat case_match; inv_ok; try done.
    by rewrite register_dimension_chunks, register_table_chunks.
  - unfold orochi_add_dimension in H. unfold every_chunk in *. repeat case_match; inv_ok; try done;
      by rewrite register_dimension_chunks.
  - unfold orochi_enable_compression, orochi_catalog_update_table in H. unfold every_chunk in *.
    repeat case_match; inv_ok; try done. by rewrite register_table_chunks.
  - by eapply every_chunk_for_timestamp.
  - by apply every_drop.
  - unfold orochi_drop_chunks_older_than in H. case_match; [|done]. inv_ok. by apply every_drops.
  - by eapply Hcompress.
  - by eapply Hdecompress.
  - apply every_map; [|done]. intros c Hc. destruct (chunk_id c =? id); [by apply lasting_tier|done].
  - unfold orochi_add_retention_policy in H. destruct_if_hyp; [done|]. unfold every_chunk.
    pose proof (store_policy_chunks oid 1 i d) as Hp. injection H as H. rewrite H in Hp. cbn in Hp. by rewrite Hp.
  - unfold orochi_add_compression_policy in H. destruct_if_hyp; [done|]. unfold every_chunk.
    pose proof (store_policy_chunks oid 0 i d) as Hp. injection H as H. rewrite H in Hp. cbn in Hp. by rewrite Hp.
  - by injection H as _ <-.
  - unfold every_chunk. by rewrite (maintenance_chunks _ _ _ H).
Qed.

(** Every chunk ends where it starts. *)
Definition flat (d : Database) : Prop := every_chunk (λ c, range_start c = range_end c) d.

#[export] Instance flat_lasting : Lasting (λ c, range_start c = range_end c).
Proof.
  split; [|done]. intros oid start stop d id d' H Hd. unfold orochi_catalog_create_chunk, every_chunk in *.
  repeat destruct_if_hyp; inv_ok; [done|]. cbn. apply Forall_app. split; [done|]. by apply Forall_singleton.
Qed.

Lemma flat_compression id b d : flat d → flat (orochi_catalog_update_chunk_compression id b d).
Proof. apply every_map. intros c. by destruct (chunk_id c =? id). Qed.

Lemma flat_compress id d d' : orochi_compress_chunk id d = Ok d' → flat d → flat d'.
Proof.
  unfold orochi_compress_chunk. intros H Hd. case_match; [|done]. destruct_if_hyp; [by inv_ok|].
  case_match; [|done]. apply outcome_bind_ok in H as (rows & _ & H).
  apply outcome_bind_ok in H as (d1 & Hi%insert_compressed_chunks & H). inv_ok.
  apply flat_compression. unfold flat, every_chunk. cbn. by rewrite Hi.
Qed.
Lemma flat_decompress id d d' : orochi_decompress_chunk id d = Ok d' → flat d → flat d'.
Proof.
  unfold orochi_decompress_chunk. intros H Hd. case_match; [|done]. destruct_if_hyp; [by inv_ok|].
  case_match; [|done]. apply outcome_bind_ok in H as (d1 & Hr & H). inv_ok.
  apply flat_compression. case_match; [|by inv_ok]. apply outcome_bind_ok in Hr as (d2 & Hr & Hs).
  inv_ok. unfold flat, every_chunk. cbn. destruct_if_hyp; [|by inv_ok]. by erewrite restore_rows_chunks.
Qed.

Definition reachable : Database → Database → Prop := rtc step.

Lemma flat_reachable d d' : reachable d d' → flat d → flat d'.
Proof.
  induction 1 as [|d d1 d2 H _ IH]; [done|]. intros Hd.
  apply IH, (every_step d); [apply flat_compress|apply flat_decompress|exact H|exact Hd].
Qed.

Lemma flat_no_chunks oid start stop d :
  flat d → orochi_catalog_get_chunks_in_range oid start stop d = [].
Proof.
  intros Hd. unfold orochi_catalog_get_chunks_in_range.
  rewrite filter_none; [done|]. unfold flat, every_chunk in Hd. rewrite Forall_forall in Hd.
  intros c Hc (_ & H1 & H2). specialize (Hd c Hc). cbn in Hd. lia.
Qed.

Lemma calculate_range_day oid ts d start stop :
  calculate_chunk_range oid ts d = Ok (start, stop) →
  start = i64 (Z.quot ts USECS_PER_DAY * USECS_PER_DAY) ∧ stop = i64 (start + USECS_PER_DAY) ∧
  orochi_is_hypertable oid d = true.
Proof.
  unfold calculate_chunk_range, orochi_is_hypertable, orochi_catalog_get_table.
  destruct (head _) as [t|]; [|done]. cbn [fmap option_fmap option_map]. intros H.
  destruct_if_hyp; [done|]. cbn [chunk_interval set_interval chunk_usec] in H.
  unfold DEFAULT_CHUNK_INTERVAL_USEC in H. rewrite div64_ok in H by done.
  injection H as <- <-. by apply negb_false_iff in E.
Qed.

(** Whatever a database has been through since it had no chunk, no query of chunks by
    time finds one: both bounds of the query, like both bounds of every chunk, are one
    timestamp. *)
Theorem no_chunk_in_range d d' oid start stop :
  chunk_rows d = [] → reachable d d' → orochi_get_chunks_in_time_range oid start stop d' = [].
Proof.
  intros Hd Hr. unfold orochi_get_chunks_in_time_range.
  rewrite flat_no_chunks; [done|]. apply (flat_reachable d); [done|]. unfold flat, every_chunk. by rewrite Hd.
Qed.

(** Dropping the chunks older than any interval drops none and leaves the database as
    it is. *)
Theorem drop_older_drops_none d d' now oid i :
  chunk_rows d = [] → reachable d d' → orochi_drop_chunks_older_than now oid (Some i) d' = Ok (0, d').
Proof.
  intros Hd Hr. unfold orochi_drop_chunks_older_than, orochi_get_chunks_in_time_range.
  rewrite flat_no_chunks; [done|]. apply (flat_reachable d); [done|]. unfold flat, every_chunk. by rewrite Hd.
Qed.

Lemma create_chunk_taken oid start stop d c :
  c ∈ chunk_rows d → hypertable_oid c = oid → range_start c = printed start stop →
  existsb (λ t, relid t =? oid) (table_rows d) = true →
  ∃ d', orochi_catalog_create_chunk oid start stop d = Ok (-1, d').
Proof.
  intros Hc Ho Hs Ht. unfold orochi_catalog_create_chunk. rewrite Ht. cbn [negb].
  assert (existsb (λ x, (hypertable_oid x =? oid) && (range_start x =? printed start stop)) (chunk_rows d) = true)
    as ->; [|by eexists].
  apply existsb_exists. exists c. split; [by apply list_elem_of_In|]. rewrite Ho, Hs. lia.
Qed.

Lemma hypertable_exists oid d :
  orochi_is_hypertable oid d = true → existsb (λ t, relid t =? oid) (table_rows d) = true.
Proof.
  unfold orochi_is_hypertable, orochi_catalog_get_table.
  destruct (head (filter _ _)) as [t|] eqn:E; [|done]. intros _. apply head_Some_elem_of in E.
  apply list_elem_of_filter in E as [E Hin]. apply existsb_exists. exists t.
  split; [by apply list_elem_of_In|]. lia.
Qed.

(** A chunk is there for the first timestamp of a day only: once it has been created,
    another timestamp of the same range gets no chunk. *)
Theorem second_timestamp_has_no_chunk d d' c oid ts ts' :
  flat d → orochi_get_chunk_for_timestamp oid ts d = Ok (Some c, d') →
  calculate_chunk_range oid ts d = calculate_chunk_range oid ts' d →
  ∃ d'', orochi_get_chunk_for_timestamp oid ts' d' = Ok (None, d'').
Proof.
  intros Hd H Hts.
  assert (Hd' : flat d') by (by eapply every_chunk_for_timestamp).
  unfold orochi_get_chunk_for_timestamp in *.
  apply outcome_bind_ok in H as ([start stop] & Hr & H).
  rewrite flat_no_chunks in H by done. cbn [filter list_filter head] in H.
  apply outcome_bind_ok in H as ([id d1] & Hc & H).
  destruct_if_hyp; [|by inv_ok]. destruct (orochi_catalog_get_table oid d1) as [t|] eqn:Et; [|done].
  apply outcome_bind_ok in H as (d2 & Hl & H). injection H as <- <-.
  destruct (calculate_range_day _ _ _ _ _ Hr) as (_ & _ & Hh).
  assert (Ht : table_rows d2 = table_rows d).
  { unfold create_table_like in Hl. repeat case_match; try done. injection Hl as <-.
    unfold orochi_catalog_create_chunk in Hc. repeat destruct_if_hyp; by inv_ok. }
  assert (calculate_chunk_range oid ts' d2 = Ok (start, stop)) as ->.
  { rewrite <- Hr, Hts. unfold calculate_chunk_range, orochi_catalog_get_table. by rewrite Ht. }
  cbn [mbind outcome_bind]. rewrite flat_no_chunks by done. cbn [filter list_filter head].
  assert (∃ x, x ∈ chunk_rows d2 ∧ hypertable_oid x = oid ∧ range_start x = printed start stop)
    as (x & Hx & Ho & Hs).
  { rewrite (create_table_chunks _ _ _ _ Hl). unfold orochi_catalog_create_chunk in Hc.
    repeat destruct_if_hyp; inv_ok; [lia|]. cbn. eexists. split; [apply elem_of_app; right; by left|done]. }
  destruct (create_chunk_taken oid start stop d2 x) as [d3 ->]; [done..| |by exists d3].
  rewrite Ht. by apply hypertable_exists.
Qed.

(** ** No chunk is ever compressed *)

Definition uncompressed (c : OrochiChunkInfo) : Prop := is_compressed c = false.

#[export] Instance uncompressed_lasting : Lasting uncompressed.
Proof.
  split; [|done]. intros oid start stop d id d' H Hd. unfold orochi_catalog_create_chunk, every_chunk in *.
  repeat destruct_if_hyp; inv_ok; [done|]. cbn. apply Forall_app. split; [done|]. by apply Forall_singleton.
Qed.

Lemma every_get Q id c d : every_chunk Q d → orochi_catalog_get_chunk id d = Some c → Q c.
Proof.
  intros Hd Hc. unfold orochi_catalog_get_chunk in Hc. apply head_Some_elem_of in Hc.
  apply list_elem_of_filter in Hc as [_ Hc]. unfold every_chunk in Hd. rewrite Forall_forall in Hd. by apply Hd.
Qed.

Lemma compress_refused id d d' :
  compress_function = None → every_chunk uncompressed d → orochi_compress_chunk id d ≠ Ok d'.
Proof.
  intros Hf Hd H. unfold orochi_compress_chunk in H. destruct (orochi_catalog_get_chunk id d) as [c|] eqn:Ec; [|done].
  rewrite (every_get _ _ _ _ Hd Ec) in H. case_match; [|done].
  apply outcome_bind_ok in H as (rows & _ & H). apply outcome_bind_ok in H as (d1 & Hi & _).
  unfold insert_compressed in Hi. by rewrite Hf in Hi.
Qed.

Lemma decompress_idle id d c :
  every_chunk uncompressed d → orochi_catalog_get_chunk id d = Some c → orochi_decompress_chunk id d = Ok d.
Proof. intros Hd Hc. unfold orochi_decompress_chunk. by rewrite Hc, (every_get _ _ _ _ Hd Hc). Qed.

Lemma uncompressed_reachable d d' :
  compress_function = None → reachable d d' → every_chunk uncompressed d → every_chunk uncompressed d'.
Proof.
  intros Hf. induction 1 as [|d d1 d2 H _ IH]; [done|]. intros Hd. apply IH, (every_step d); [| |exact H|exact Hd].
  - intros id x y Hc Hx. by destruct (compress_refused id x y Hf Hx).
  - intros id x y Hc Hx. unfold orochi_decompress_chunk in Hc.
    destruct (orochi_catalog_get_chunk id x) as [c|] eqn:Ec; [|done].
    rewrite (every_get _ _ _ _ Hx Ec) in Hc. cbn in Hc. by injection Hc as <-.
Qed.

(** C34: in a database without a function [compress] of its own, as PostgreSQL sets one up,
    compressing a chunk never succeeds: whatever the database has been through since it had no
    chunk, every call raises an error and takes effect on nothing, no chunk is ever marked as
    compressed, and decompressing a chunk leaves the database as it is. *)
Theorem chunks_never_compressed d d' :
  compress_function = None → chunk_rows d = [] → reachable d d' →
  Forall uncompressed (chunk_rows d') ∧
  (∀ id, ∃ e, orochi_compress_chunk id d' = Err e) ∧
  (∀ id c, orochi_catalog_get_chunk id d' = Some c → orochi_decompress_chunk id d' = Ok d').
Proof.
  intros Hf Hd Hr.
  assert (every_chunk uncompressed d') as Hd'.
  { apply (uncompressed_reachable d); [done..|]. unfold every_chunk. by rewrite Hd. }
  split; [exact Hd'|]. split; [|intros id c Hc; by apply (decompress_idle id d' c)].
  intros id. unfold orochi_compress_chunk. destruct (orochi_catalog_get_chunk id d') as [c|] eqn:Ec; [|by eexists].
  rewrite (every_get _ _ _ _ Hd' Ec). case_match; [|by eexists].
  destruct (relations d' !! _); cbn [sql mbind outcome_bind]; [|by eexists].
  unfold insert_compressed. rewrite Hf. by eexists.
Qed.

End reachable.

(** ** What policies keep *)

Lemma stored_interval_same i :
  in_i 32 (Z.quot (time i) USECS_PER_HOUR) →
  stored_interval i = i ↔ month i = 0 ∧ Z.rem (time i) USECS_PER_MINUTE = 0.
Proof.
  intros Hh. destruct i as [t dd m]. unfold stored_interval. cbn [time day month] in *.
  rewrite (swrap_id 32) by (lia || done).
  unfold USECS_PER_HOUR, USECS_PER_MINUTE, USECS_PER_SEC in *.
  assert (Hm : in_i 32 (Z.quot (Z.rem t (3600 * 1000000)) (60 * 1000000))).
  { unfold in_i. Z.to_euclidean_division_equations. lia. }
  rewrite (swrap_id 32) by (lia || done). clear Hh Hm. split.
  - intros [= Ht Hz]. split; [done|]. Z.to_euclidean_division_equations. lia.
  - intros [-> Hr]. f_equal. Z.to_euclidean_division_equations. lia.
Qed.

(** The row of a policy after storing it. *)
Lemma store_policy_row oid type i d :
  ∃ p, p ∈ policy_rows (store_policy oid type i d).2 ∧ policy_key oid type p = true ∧
       policy_active p = true ∧ trigger_interval p = stored_interval i.
Proof.
  unfold store_policy. destruct (head _) as [p|] eqn:E; cbn.
  - apply head_Some_elem_of, list_elem_of_filter in E as [Hk Hp].
    exists (retrigger (stored_interval i) p). split; [|done].
    apply list_elem_of_fmap. exists p. by rewrite Hk.
  - eexists. split; [apply elem_of_app; right; by left|]. cbn.
    unfold policy_key. cbn. by rewrite !Z.eqb_refl.
Qed.

(** A retention policy is stored with the interval it was given exactly when that has
    no months and no part of a minute: thirty days stay, and one month becomes nothing. *)
Theorem retention_interval_kept oid i d n d' :
  in_i 32 (Z.quot (time i) USECS_PER_HOUR) →
  orochi_add_retention_policy oid i d = Ok (n, d') →
  ∃ p, p ∈ policy_rows d' ∧ policy_key oid POLICY_TYPE_RETENTION p = true ∧ policy_active p = true ∧
       (trigger_interval p = i ↔ month i = 0 ∧ Z.rem (time i) USECS_PER_MINUTE = 0).
Proof.
  intros Hh H. unfold orochi_add_retention_policy in H. destruct_if_hyp; [done|].
  destruct (store_policy_row oid 1 i d) as (p & Hp & Hk & Ha & Ht).
  injection H as H. rewrite H in Hp. exists p. rewrite Ht. by rewrite <- stored_interval_same.
Qed.

(** Compression settings are written back without the chunk interval, which is not read. *)
Lemma enable_compression_forgets oid d d' t :
  orochi_enable_compression oid d = Ok d' → t ∈ table_rows d' → relid t = oid →
  chunk_interval t = None.
Proof.
  unfold orochi_enable_compression. destruct (orochi_catalog_get_table oid d) as [u|] eqn:Eu; [|done].
  assert (Hu : relid u = oid ∧ chunk_interval u = None).
  { unfold orochi_catalog_get_table in Eu. destruct (head _) as [v|] eqn:Ev; [|done].
    injection Eu as <-. apply head_Some_elem_of, list_elem_of_filter in Ev as [? _]. done. }
  destruct Hu as [Hr Hi]. destruct (negb _); [done|]. intros [= <-].
  unfold orochi_catalog_update_table, orochi_catalog_register_table. cbn [relid set_compression].
  destruct (existsb _ _) eqn:E; cbn.
  - intros (x & -> & Hx)%list_elem_of_fmap. destruct (relid x =? relid u) eqn:Ex; [done|]. lia.
  - intros [Ht| ->%list_elem_of_singleton]%elem_of_app Hid; [|done].
    enough (existsb (λ x, relid x =? relid u) (table_rows d) = true) by congruence.
    apply existsb_exists. exists t. split; [by apply list_elem_of_In|]. lia.
Qed.

(** Dropping a chunk leaves the table that was created for it. *)
Lemma drop_chunk_leaves_table id oid d :
  relations (orochi_drop_chunk id d) !! chunk_relation oid id = relations d !! chunk_relation oid id.
Proof. unfold orochi_drop_chunk. cbn. by rewrite lookup_delete_ne by (intros [= ]). Qed.

(** A due policy of a known type makes maintenance fail. *)
Lemma maintenance_fails `{P : TimestampPlus} now d p :
  Forall (λ p, policy_type p = POLICY_TYPE_COMPRESSION ∨ policy_type p = POLICY_TYPE_RETENTION ∨
               policy_type p = POLICY_TYPE_TIERING) (policy_rows d) →
  p ∈ policy_rows d → policy_due now d p = true → orochi_run_maintenance now d = Err "syntax error".
Proof.
  intros Hall Hp Hd. unfold orochi_run_maintenance.
  assert (Hm : p ∈ merge_sort by_type (filter (λ p, policy_due now d p = true) (policy_rows d))).
  { rewrite merge_sort_Permutation. by apply list_elem_of_filter. }
  destruct (merge_sort _ _) as [|q l] eqn:E; [by apply not_elem_of_nil in Hm|].
  assert (Hq : q ∈ policy_rows d).
  { assert (Hq : q ∈ merge_sort by_type (filter (λ p, policy_due now d p = true) (policy_rows d)))
      by (rewrite E; by left).
    rewrite merge_sort_Permutation in Hq. by apply list_elem_of_filter in Hq as [_ ?]. }
  rewrite Forall_forall in Hall. specialize (Hall q Hq). unfold apply_policies.
  by destruct Hall as [->|[->| ->]].
Qed.

(** ** Witnesses *)

(** Arguments are evaluated from the right, so the buffer holds the first. *)
#[local] Instance right_to_left : TimestampBuffer := {| printed a b := a; printed_either a b := or_introl eq_refl |}.
#[local] Instance metrics_class : PgClass :=
  {| relation_open oid :=
       if oid =? 16400 then
         Some {| rel_schema := str "public"; rel_name := str "metrics";
                 attributes := [{| attname := str "ts"; atttypid := TIMESTAMPTZOID; attisdropped := false |}] |}
       else None |}.
#[local] Instance plain_functions : SqlFunctions :=
  {| row_to_json r := 123 :: r; json_to_row t := match t with 123 :: r => Some r | _ => None end;
     bytea_of_text := Some; convert_from_utf8 := Some; compress_function := None;
     decompress_function := None;
     pg_total_relation_size rows := 8192 |}.
#[local] Instance add_usecs : TimestampPlus := {| timestamptz_pl_interval t i := t + interval_to_usec i |}.

Definition empty_database : Database :=
  {| table_rows := []; dimension_rows := []; chunk_rows := []; policy_rows := [];
     next_chunk_id := 1; next_dimension_id := 1; next_policy_id := 1;
     relations := {[(str "public", str "metrics") := []]}; compressed_chunks := ∅ |}.

Definition get {A} (d : A) (o : outcome A) : A := match o with Ok a => a | _ => d end.

Definition metrics_database : Database :=
  get empty_database (orochi_create_hypertable_sql 16400 (str "ts")
                        {| time := USECS_PER_HOUR; day := 0; month := 0 |} false empty_database).
Definition first_chunk_database : Database :=
  (get (None, empty_database) (orochi_get_chunk_for_timestamp 16400 5 metrics_database)).2.

Lemma chunk_database_reachable : reachable empty_database first_chunk_database.
Proof.
  apply rtc_l with metrics_database.
  { apply (StepCreate 16400 (str "ts") (Some {| time := USECS_PER_HOUR; day := 0; month := 0 |}) false).
    vm_compute; reflexivity. }
  apply rtc_once. apply (StepChunk 16400 5 (Some (info_of_new_chunk 16400 1))). vm_compute; reflexivity.
Qed.

Lemma no_chunk_in_range_witness :
  chunk_rows first_chunk_database ≠ [] ∧
  orochi_get_chunks_in_time_range 16400 (-1000) 1000 first_chunk_database = [].
Proof.
  split; [by vm_compute|]. apply (no_chunk_in_range empty_database); [reflexivity|apply chunk_database_reachable].
Defined.

Lemma drop_older_drops_none_witness :
  orochi_drop_chunks_older_than (1000 * USECS_PER_DAY) 16400 (Some {| time := 0; day := 1; month := 0 |})
    first_chunk_database = Ok (0, first_chunk_database).
Proof. apply (drop_older_drops_none empty_database); [reflexivity|apply chunk_database_reachable]. Defined.

Lemma second_timestamp_has_no_chunk_witness :
  ∃ d, orochi_get_chunk_for_timestamp 16400 6 first_chunk_database = Ok (None, d).
Proof.
  apply (second_timestamp_has_no_chunk metrics_database _ (info_of_new_chunk 16400 1) 16400 5 6);
    [apply Forall_nil; exact I|vm_compute; reflexivity|vm_compute; reflexivity].
Defined.

Lemma retention_interval_kept_witness :
  ∃ p, p ∈ policy_rows (get (0, empty_database) (orochi_add_retention_policy 16400
             {| time := 0; day := 0; month := 1 |} metrics_database)).2 ∧
       policy_key 16400 POLICY_TYPE_RETENTION p = true ∧ policy_active p = true ∧
       (trigger_interval p = {| time := 0; day := 0; month := 1 |} ↔
        month {| time := 0; day := 0; month := 1 |} = 0 ∧
        Z.rem (time {| time := 0; day := 0; month := 1 |}) USECS_PER_MINUTE = 0).
Proof.
  apply (retention_interval_kept 16400 _ metrics_database 1);
    [unfold in_i; vm_compute; split; [discriminate|reflexivity]|vm_compute; reflexivity].
Defined.

Definition filled_database : Database :=
  set_data (<[chunk_relation 16400 1 := [[1; 2]; [3]]]> (relations first_chunk_database)) ∅ first_chunk_database.

Lemma chunks_never_compressed_witness :
  Forall uncompressed (chunk_rows first_chunk_database) ∧
  (∀ id, ∃ e, orochi_compress_chunk id first_chunk_database = Err e) ∧
  (∀ id c, orochi_catalog_get_chunk id first_chunk_database = Some c →
     orochi_decompress_chunk id first_chunk_database = Ok first_chunk_database).
Proof.
  apply (chunks_never_compressed empty_database first_chunk_database);
    [reflexivity|reflexivity|exact chunk_database_reachable].
Defined.

(** The call for the chunk that is there, with rows in its table. *)
Example compression_error :
  orochi_compress_chunk 1 filled_database = Err "function compress(bytea, unknown) does not exist".
Proof. vm_compute. reflexivity. Qed.

