(* ===== verification/ContinuousAgg.v ===== *)
(** * Continuous aggregates

    The rows of [orochi_continuous_aggregates] and [orochi_invalidation_log] with the
    functions of [core/catalog.c] on them, and the refresh of [timeseries/hypertable.c].
    What a query returns belongs to PostgreSQL and is a parameter.  The creation of an
    aggregate is no definition: its statement [CREATE INDEX ... ((SELECT 1))] is refused for
    every table, an index expression having no subquery. *)
From stdpp Require Import sets gmap sorting.
From S2P Require Import Prelude Postgres CText Hypertable.

Local Open Scope Z_scope.

Record OrochiContinuousAggInfo := {
  agg_id : Z; view_oid : Z; source_table_oid : Z; materialization_table_oid : Z;
  query_text : text; last_refresh : option Z; enabled : bool }.

Record OrochiInvalidationEntry := { log_id : Z; l_agg_id : Z; l_start : Z; l_end : Z }.

(** [relnames] are the names of [pg_class], [mat_tables] the tables of the schema [orochi]. *)
Record AggCatalog := {
  aggs : list OrochiContinuousAggInfo; invalidations : list OrochiInvalidationEntry;
  next_agg_id : Z; next_log_id : Z;
  relnames : gmap Z text; mat_tables : gmap text (list row) }.

Definition set_aggs (l : list OrochiContinuousAggInfo) (next : Z) (d : AggCatalog) : AggCatalog :=
  {| aggs := l; invalidations := invalidations d; next_agg_id := next; next_log_id := next_log_id d;
     relnames := relnames d; mat_tables := mat_tables d |}.
Definition set_log (l : list OrochiInvalidationEntry) (next : Z) (d : AggCatalog) : AggCatalog :=
  {| aggs := aggs d; invalidations := l; next_agg_id := next_agg_id d; next_log_id := next;
     relnames := relnames d; mat_tables := mat_tables d |}.
Definition set_mat (t : gmap text (list row)) (d : AggCatalog) : AggCatalog :=
  {| aggs := aggs d; invalidations := invalidations d; next_agg_id := next_agg_id d;
     next_log_id := next_log_id d; relnames := relnames d; mat_tables := t |}.

(** ** Catalog functions *)

(** A conflict keeps the source table and what else the row had, but takes a number. *)
Definition requery (mat : Z) (query : text) (a : OrochiContinuousAggInfo) : OrochiContinuousAggInfo :=
  {| agg_id := agg_id a; view_oid := view_oid a; source_table_oid := source_table_oid a;
     materialization_table_oid := mat; query_text := query; last_refresh := last_refresh a;
     enabled := enabled a |}.

Definition orochi_catalog_register_continuous_agg (view source mat : Z) (query : text)
    (d : AggCatalog) : Z * AggCatalog :=
  let next := next_agg_id d in
  match head (filter (λ a, view_oid a = view) (aggs d)) with
  | Some a =>
      (agg_id a, set_aggs (map (λ a, if view_oid a =? view then requery mat query a else a) (aggs d))
                   (next + 1) d)
  | None =>
      (next, set_aggs (aggs d ++ [{| agg_id := next; view_oid := view; source_table_oid := source;
                                     materialization_table_oid := mat; query_text := query;
                                     last_refresh := None; enabled := true |}]) (next + 1) d)
  end.

Definition orochi_catalog_get_continuous_agg (view : Z) (d : AggCatalog) : option OrochiContinuousAggInfo :=
  head (filter (λ a, view_oid a = view) (aggs d)).
Definition orochi_get_continuous_aggregate : Z → AggCatalog → option OrochiContinuousAggInfo :=
  orochi_catalog_get_continuous_agg.
Definition orochi_catalog_get_continuous_aggs (source : Z) (d : AggCatalog) : list OrochiContinuousAggInfo :=
  filter (λ a, source_table_oid a = source) (aggs d).

Definition refreshed_at (now : Z) (a : OrochiContinuousAggInfo) : OrochiContinuousAggInfo :=
  {| agg_id := agg_id a; view_oid := view_oid a; source_table_oid := source_table_oid a;
     materialization_table_oid := materialization_table_oid a; query_text := query_text a;
     last_refresh := Some now; enabled := enabled a |}.
Definition orochi_catalog_update_continuous_agg_refresh (id now : Z) (d : AggCatalog) : AggCatalog :=
  set_aggs (map (λ a, if agg_id a =? id then refreshed_at now a else a) (aggs d)) (next_agg_id d) d.

(** The entries of the log go with the aggregate. *)
Definition orochi_catalog_delete_continuous_agg (view : Z) (d : AggCatalog) : AggCatalog :=
  let gone := agg_id <$> filter (λ a, view_oid a = view) (aggs d) in
  set_aggs (filter (λ a, view_oid a ≠ view) (aggs d)) (next_agg_id d)
    (set_log (filter (λ e, l_agg_id e ∉ gone) (invalidations d)) (next_log_id d) d).

(** One entry for each enabled aggregate on the table. *)
Fixpoint log_rows (start stop next : Z) (l : list OrochiContinuousAggInfo) : list OrochiInvalidationEntry :=
  match l with
  | [] => []
  | a :: l => {| log_id := next; l_agg_id := agg_id a; l_start := start; l_end := stop |}
              :: log_rows start stop (next + 1) l
  end.
Definition orochi_catalog_log_invalidation `{B : TimestampBuffer} (oid start stop : Z)
    (d : AggCatalog) : AggCatalog :=
  let l := filter (λ a, source_table_oid a = oid ∧ enabled a = true) (aggs d) in
  let at_ := printed start stop in
  set_log (invalidations d ++ log_rows at_ at_ (next_log_id d) l) (next_log_id d + len l) d.
Definition orochi_log_invalidation `{B : TimestampBuffer} : Z → Z → Z → AggCatalog → AggCatalog :=
  orochi_catalog_log_invalidation.

(** The parameters of the next two functions are object identifiers of 32 bits. *)
Definition orochi_catalog_clear_invalidations (id up_to : Z) (d : AggCatalog) : AggCatalog :=
  set_log (filter (λ e, ¬ (l_agg_id e = u32 id ∧ l_end e <= up_to)) (invalidations d)) (next_log_id d) d.

Definition earlier (a b : OrochiInvalidationEntry) : Prop := l_start a <= l_start b.
#[export] Instance earlier_dec a b : Decision (earlier a b).
Proof. unfold earlier. apply _. Defined.

Definition orochi_catalog_get_pending_invalidations (id : Z) (d : AggCatalog) : list OrochiInvalidationEntry :=
  merge_sort earlier (filter (λ e, l_agg_id e = u32 id) (invalidations d)).

(** ** Refresh and removal *)

Class Queries := { run_query : text → AggCatalog → option (list row) }.

(** The loop over the entries. *)
Definition full_range (l : list OrochiInvalidationEntry) : Z * Z :=
  foldl (λ '(s, e) x, (if l_start x <? s then l_start x else s, if e <? l_end x then l_end x else e))
    (INT64_MAX, INT64_MIN) l.

Section refresh.
Context `{Q : Queries}.

(** All rows go, whatever the range is, and the query is run again. *)
Definition rebuild (a : OrochiContinuousAggInfo) (d : AggCatalog) : outcome AggCatalog :=
  if materialization_table_oid a =? 0 then Ok d else
  match relnames d !! materialization_table_oid a with
  | None => Ok d
  | Some name =>
      match mat_tables d !! name with
      | None => Err "relation does not exist"
      | Some _ =>
          let d := set_mat (<[name := []]> (mat_tables d)) d in
          rows ← sql (run_query (query_text a) d);
          Ok (set_mat (<[name := rows]> (mat_tables d)) d)
      end
  end.

Definition orochi_refresh_continuous_aggregate (now view start stop : Z) (d : AggCatalog) : outcome AggCatalog :=
  match orochi_catalog_get_continuous_agg view d with
  | None => Err "continuous aggregate does not exist"
  | Some a =>
      let pending := orochi_catalog_get_pending_invalidations (agg_id a) d in
      let whole := (start =? 0) && (stop =? 0) in
      if whole && bool_decide (pending = []) then Ok d else
      let stop := if whole then (full_range pending).2 else stop in
      d ← rebuild a d;
      Ok (orochi_catalog_update_continuous_agg_refresh (agg_id a) now
            (orochi_catalog_clear_invalidations (agg_id a) stop d))
  end.

(** Null bounds are zero. *)
Definition orochi_refresh_continuous_aggregate_sql (now view : Z) (start stop : option Z)
    (d : AggCatalog) : outcome AggCatalog :=
  orochi_refresh_continuous_aggregate now view (default 0 start) (default 0 stop) d.

End refresh.

(** [DROP ... orochi.<number>] and [DROP VIEW ... <number>] are not statements of SQL. *)
Definition orochi_drop_continuous_aggregate (view : Z) (d : AggCatalog) : outcome AggCatalog :=
  match orochi_catalog_get_continuous_agg view d with
  | None => Ok d
  | Some _ => Err "syntax error"
  end.
Definition orochi_drop_continuous_aggregate_sql : Z → AggCatalog → outcome AggCatalog :=
  orochi_drop_continuous_aggregate.

(** ** A refresh rebuilds and forgets what was pending *)

Lemma full_range_bound l s e x : x ∈ l → l_end x <= (foldl (λ '(s, e) x,
  (if l_start x <? s then l_start x else s, if e <? l_end x then l_end x else e)) (s, e) l).2.
Proof.
  assert (Hmono : ∀ l s e, e <= (foldl (λ '(s, e) x,
    (if l_start x <? s then l_start x else s, if e <? l_end x then l_end x else e)) (s, e) l).2).
  { clear. induction l as [|y l IH]; intros s e; [cbn; lia|]. cbn.
    etransitivity; [|apply IH]. destruct (e <? l_end y) eqn:E; lia. }
  revert s e. induction l as [|y l IH]; intros s e Hx; [by apply not_elem_of_nil in Hx|].
  cbn. apply elem_of_cons in Hx as [->|Hx]; [|by apply IH].
  etransitivity; [|apply Hmono]. destruct (e <? l_end y) eqn:E; lia.
Qed.

Lemma rebuild_log `{Q : Queries} a d d' :
  rebuild a d = Ok d' → invalidations d' = invalidations d ∧ aggs d' = aggs d.
Proof.
  unfold rebuild. intros H. destruct_if_hyp; [by inv_ok|].
  destruct (relnames d !! _) as [name|]; [|by inv_ok]. destruct (mat_tables d !! name); [|done].
  apply outcome_bind_ok in H as (rows & _ & H). by injection H as <-.
Qed.

(** A refresh without a range, when something is pending, replaces the materialized rows
    by the result of the query and leaves nothing pending; when nothing is, it changes
    nothing. *)
Theorem refresh_settles_pending `{Q : Queries} now view a name d d' :
  orochi_catalog_get_continuous_agg view d = Some a → in_u 32 (agg_id a) →
  materialization_table_oid a ≠ 0 → relnames d !! materialization_table_oid a = Some name →
  orochi_refresh_continuous_aggregate now view 0 0 d = Ok d' →
  orochi_catalog_get_pending_invalidations (agg_id a) d' = [] ∧
  (orochi_catalog_get_pending_invalidations (agg_id a) d = [] → d' = d) ∧
  (orochi_catalog_get_pending_invalidations (agg_id a) d ≠ [] →
   ∃ rows, run_query (query_text a) (set_mat (<[name := []]> (mat_tables d)) d) = Some rows ∧
           mat_tables d' !! name = Some rows).
Proof.
  intros Ha Hid Hm Hn. unfold orochi_refresh_continuous_aggregate. rewrite Ha.
  set (pending := orochi_catalog_get_pending_invalidations (agg_id a) d). cbn [Z.eqb andb].
  destruct (decide (pending = [])) as [Hp|Hp].
  - rewrite bool_decide_true by done. intros [= <-]. done.
  - rewrite bool_decide_false by done. intros (d1 & Hr & Hd)%outcome_bind_ok. injection Hd as <-.
    destruct (rebuild_log _ _ _ Hr) as [Hl _]. split; [|split; [done|]].
    + unfold orochi_catalog_get_pending_invalidations. cbn. rewrite Hl.
      rewrite filter_none; [done|]. intros e [Hk He]%list_elem_of_filter Hea. apply Hk.
      split; [done|]. apply full_range_bound. unfold pending, orochi_catalog_get_pending_invalidations.
      rewrite merge_sort_Permutation. by apply list_elem_of_filter.
    + intros _. unfold rebuild in Hr. replace (materialization_table_oid a =? 0) with false in Hr by lia.
      rewrite Hn in Hr. destruct (mat_tables d !! name) eqn:Et; [|done].
      destruct (run_query _ _) as [rows|] eqn:Eq; [|done]. injection Hr as <-. exists rows.
      split; [done|]. cbn. apply lookup_insert_eq.
Qed.

#[local] Instance constant_query : Queries := {| run_query q d := Some [[1; 2]] |}.
#[local] Instance buffer : TimestampBuffer := {| printed a b := b; printed_either a b := or_intror eq_refl |}.

Definition daily_catalog : AggCatalog :=
  orochi_log_invalidation 16400 5 9
    (orochi_catalog_register_continuous_agg 20 16400 30 (str "SELECT 1, 2")
       {| aggs := []; invalidations := []; next_agg_id := 1; next_log_id := 1;
          relnames := {[30 := str "_mat_daily"]}; mat_tables := {[str "_mat_daily" := [[7]]]} |}).2.

Definition refreshed_catalog : AggCatalog :=
  match orochi_refresh_continuous_aggregate 99 20 0 0 daily_catalog with Ok d => d | _ => daily_catalog end.

Lemma refresh_settles_pending_witness :
  orochi_catalog_get_pending_invalidations 1 refreshed_catalog = [] ∧
  (orochi_catalog_get_pending_invalidations 1 daily_catalog = [] → refreshed_catalog = daily_catalog) ∧
  (orochi_catalog_get_pending_invalidations 1 daily_catalog ≠ [] →
   ∃ rows, run_query (str "SELECT 1, 2")
             (set_mat (<[str "_mat_daily" := []]> (mat_tables daily_catalog)) daily_catalog) = Some rows ∧
           mat_tables refreshed_catalog !! str "_mat_daily" = Some rows).
Proof.
  apply (refresh_settles_pending 99 20
    {| agg_id := 1; view_oid := 20; source_table_oid := 16400; materialization_table_oid := 30;
       query_text := str "SELECT 1, 2"; last_refresh := None; enabled := true |} (str "_mat_daily"));
    [reflexivity|unfold in_u; vm_compute; split; [discriminate|reflexivity]|discriminate|reflexivity|vm_compute; reflexivity].
Defined.
