(* ===== verification/Jwt.v ===== *)
(** * JSON web tokens

    [auth/jwt.c]: base64url, the parsing of tokens, their verification, signing and the
    settings of the session made from claims.  JSON texts belong to PostgreSQL and the
    cryptography to OpenSSL: both are parameters.  A string holds no zero byte. *)
From stdpp Require Import sets gmap pretty.
From S2P Require Import Prelude CText.

Local Open Scope Z_scope.

Definition JWT_MAX_TOKEN_SIZE : Z := 256 * 1024.
Definition JWT_CLAIM_PREFIX : text := str "request.jwt.claim.".

(** ** Base64url *)

Definition base64url_chars : text :=
  str "ABCDEFGHIJKLMNOPQRSTUVWXYZabcdefghijklmnopqrstuvwxyz0123456789-_".

Definition base64url_decode_table : list Z :=
  [-1; -1; -1; -1; -1; -1; -1; -1; -1; -1; -1; -1; -1; -1; -1; -1;
   -1; -1; -1; -1; -1; -1; -1; -1; -1; -1; -1; -1; -1; -1; -1; -1;
   -1; -1; -1; -1; -1; -1; -1; -1; -1; -1; -1; -1; -1; 62; -1; -1;
   52; 53; 54; 55; 56; 57; 58; 59; 60; 61; -1; -1; -1; -1; -1; -1;
   -1; 0; 1; 2; 3; 4; 5; 6; 7; 8; 9; 10; 11; 12; 13; 14;
   15; 16; 17; 18; 19; 20; 21; 22; 23; 24; 25; -1; -1; -1; -1; 63;
   -1; 26; 27; 28; 29; 30; 31; 32; 33; 34; 35; 36; 37; 38; 39; 40;
   41; 42; 43; 44; 45; 46; 47; 48; 49; 50; 51; -1; -1; -1; -1; -1;
   -1; -1; -1; -1; -1; -1; -1; -1; -1; -1; -1; -1; -1; -1; -1; -1;
   -1; -1; -1; -1; -1; -1; -1; -1; -1; -1; -1; -1; -1; -1; -1; -1;
   -1; -1; -1; -1; -1; -1; -1; -1; -1; -1; -1; -1; -1; -1; -1; -1;
   -1; -1; -1; -1; -1; -1; -1; -1; -1; -1; -1; -1; -1; -1; -1; -1;
   -1; -1; -1; -1; -1; -1; -1; -1; -1; -1; -1; -1; -1; -1; -1; -1;
   -1; -1; -1; -1; -1; -1; -1; -1; -1; -1; -1; -1; -1; -1; -1; -1;
   -1; -1; -1; -1; -1; -1; -1; -1; -1; -1; -1; -1; -1; -1; -1; -1;
   -1; -1; -1; -1; -1; -1; -1; -1; -1; -1; -1; -1; -1; -1; -1; -1].

Definition decode_char (c : Ascii.ascii) : Z := nth (Z.to_nat (code c)) base64url_decode_table (-1).
Definition encode_char (z : Z) : Ascii.ascii := nth (Z.to_nat z) base64url_chars Ascii.zero.

(** The loop; [buffer] is a [uint32]. *)
Fixpoint decode_loop (buffer bits : Z) (input : text) : option (list Z) :=
  match input with
  | [] => Some []
  | c :: input =>
      let val := decode_char c in
      if val <? 0 then
        if (code c =? 61) || (code c =? 10) || (code c =? 13) then decode_loop buffer bits input else None
      else
        let buffer := Z.lor (u32 (Z.shiftl buffer 6)) val in
        let bits := bits + 6 in
        if 8 <=? bits then
          let bits := bits - 8 in
          cons (Z.land (Z.shiftr buffer bits) 255) <$> decode_loop buffer bits input
        else decode_loop buffer bits input
  end.

Definition orochi_base64url_decode (input : text) : option (list Z) := decode_loop 0 0 input.

(** The inner loop runs once or twice, having 8, 10 or 12 bits. *)
Fixpoint emit_chars (fuel : nat) (buffer bits : Z) : text * Z :=
  match fuel with
  | S fuel =>
      if 6 <=? bits then
        let bits := bits - 6 in
        let '(out, rest) := emit_chars fuel buffer bits in
        (encode_char (Z.land (Z.shiftr buffer bits) 63) :: out, rest)
      else ([], bits)
  | O => ([], bits)
  end.

Fixpoint encode_loop (buffer bits : Z) (input : list Z) : text :=
  match input with
  | [] => if 0 <? bits then [encode_char (Z.land (u32 (Z.shiftl buffer (6 - bits))) 63)] else []
  | b :: input =>
      let buffer := Z.lor (u32 (Z.shiftl buffer 8)) b in
      let '(out, bits) := emit_chars 3 buffer (bits + 8) in
      out ++ encode_loop buffer bits input
  end.

Definition orochi_base64url_encode (input : list Z) : text := encode_loop 0 0 input.

(** ** Decoding undoes encoding *)

Lemma char_code_roundtrip z : 0 <= z < 64 → decode_char (encode_char z) = z.
Proof.
  intros Hz. assert (H : (decode_char (encode_char z) =? z) = true); [|lia].
  apply (range_check 64 (λ z, decode_char (encode_char z) =? z)); [vm_compute; reflexivity|done].
Qed.

(** What a character that the encoder emits does to the decoder. *)
Lemma decode_step buffer bits v input :
  0 <= v < 64 →
  decode_loop buffer bits (encode_char v :: input) =
  let buffer := Z.lor (u32 (Z.shiftl buffer 6)) v in
  if 8 <=? bits + 6 then
    cons (Z.land (Z.shiftr buffer (bits - 2)) 255) <$> decode_loop buffer (bits - 2) input
  else decode_loop buffer (bits + 6) input.
Proof.
  intros Hv. cbn [decode_loop]. rewrite char_code_roundtrip by done.
  replace (v <? 0) with false by lia. cbn zeta. by replace (bits + 6 - 8) with (bits - 2) by lia.
Qed.

(** A shifted buffer with new low bits, and a field of it, as numbers. *)
Lemma push6 buffer v : 0 <= v < 64 → Z.lor (u32 (Z.shiftl buffer 6)) v = u32 (buffer * 64 + v).
Proof.
  intros Hv. rewrite Z.shiftl_mul_pow2 by lia.
  assert (u32 (buffer * 2 ^ 6) = Z.shiftl (buffer mod 2 ^ 26) 6) as ->.
  { rewrite Z.shiftl_mul_pow2 by lia. unfold uwrap. Z.to_euclidean_division_equations. lia. }
  rewrite Z.lor_comm, lor_disjoint_add by lia. unfold uwrap.
  Z.to_euclidean_division_equations. lia.
Qed.
Lemma push8 buffer v : 0 <= v < 256 → Z.lor (u32 (Z.shiftl buffer 8)) v = u32 (buffer * 256 + v).
Proof.
  intros Hv. rewrite Z.shiftl_mul_pow2 by lia.
  assert (u32 (buffer * 2 ^ 8) = Z.shiftl (buffer mod 2 ^ 24) 8) as ->.
  { rewrite Z.shiftl_mul_pow2 by lia. unfold uwrap. Z.to_euclidean_division_equations. lia. }
  rewrite Z.lor_comm, lor_disjoint_add by lia. unfold uwrap.
  Z.to_euclidean_division_equations. lia.
Qed.
(** A field of a [uint32] is the field of the number it is the remainder of. *)
Lemma u32_field x k n : 0 <= k → 0 <= n → k + n <= 32 → u32 x / 2 ^ k mod 2 ^ n = x / 2 ^ k mod 2 ^ n.
Proof.
  intros Hk Hn Hkn. unfold uwrap. rewrite (Z.mod_eq x (2 ^ 32)) by lia. set (q := x / 2 ^ 32).
  assert (E : 2 ^ 32 = 2 ^ (32 - k - n) * 2 ^ n * 2 ^ k) by (rewrite <- !Z.pow_add_r by lia; f_equal; lia).
  replace (x - 2 ^ 32 * q) with (x + - (q * 2 ^ (32 - k - n) * 2 ^ n) * 2 ^ k) by (rewrite E; ring).
  rewrite Z.div_add by lia. rewrite <- Z.mul_opp_l. by rewrite Z.mod_add by lia.
Qed.
Lemma field6 x k : 0 <= k <= 26 → Z.land (Z.shiftr (u32 x) k) 63 = x / 2 ^ k mod 64.
Proof.
  intros. rewrite Z.shiftr_div_pow2, (Z.land_ones _ 6) by lia. by apply u32_field; lia.
Qed.
Lemma field8 x k : 0 <= k <= 24 → Z.land (Z.shiftr (u32 x) k) 255 = x / 2 ^ k mod 256.
Proof.
  intros. rewrite Z.shiftr_div_pow2, (Z.land_ones _ 8) by lia. by apply u32_field; lia.
Qed.
Lemma field63 x : Z.land (u32 x) 63 = x mod 64.
Proof.
  rewrite (Z.land_ones _ 6) by lia. assert (E := u32_field x 0 6). rewrite !Z.div_1_r in E.
  apply E; lia.
Qed.

(** How far the decoder is behind the encoder: by the bytes of which it has not yet seen the
    last bits. *)
Inductive behind : Z → Z → Z → Z → list Z → Prop :=
| Behind0 d e : behind d 0 e 0 []
| Behind2 d e : behind d 6 e 2 [d mod 64 * 4 + e mod 4]
| Behind4 d e : behind d 4 e 4 [d mod 16 * 16 + e mod 16].

Lemma emit8 buffer : emit_chars 3 buffer 8 = ([encode_char (Z.land (Z.shiftr buffer 2) 63)], 2).
Proof. done. Qed.
Lemma emit10 buffer : emit_chars 3 buffer 10 = ([encode_char (Z.land (Z.shiftr buffer 4) 63)], 4).
Proof. done. Qed.
Lemma emit12 buffer : emit_chars 3 buffer 12 =
  ([encode_char (Z.land (Z.shiftr buffer 6) 63); encode_char (Z.land (Z.shiftr buffer 0) 63)], 0).
Proof. done. Qed.

(** The decoder reads one character and has a byte, or has none yet. *)
Lemma decode_byte d dn v input :
  0 <= v < 64 → 2 <= dn <= 6 →
  decode_loop d dn (encode_char v :: input) =
  cons ((d * 64 + v) / 2 ^ (dn - 2) mod 256) <$> decode_loop (u32 (d * 64 + v)) (dn - 2) input.
Proof.
  intros Hv Hn. rewrite decode_step by done. cbn zeta. replace (8 <=? dn + 6) with true by lia.
  rewrite push6 by done. by rewrite field8 by lia.
Qed.
Lemma decode_no_byte d v input :
  0 <= v < 64 → decode_loop d 0 (encode_char v :: input) = decode_loop (u32 (d * 64 + v)) 6 input.
Proof. intros Hv. rewrite decode_step by done. cbn zeta. by rewrite push6. Qed.

Ltac bits_now :=
  rewrite ?Z.shiftl_mul_pow2 by lia; cbn [Z.sub Z.add Z.opp Z.pos_sub Pos.pred_double Pos.add Pos.succ];
  repeat match goal with |- context [2 ^ ?k] => let v := eval compute in (2 ^ k) in change (2 ^ k) with v end;
  Z.to_euclidean_division_equations; lia.

Lemma decode_encode_loop bs d dn e en p :
  bytes_ok bs → behind d dn e en p → decode_loop d dn (encode_loop e en bs) = Some (p ++ bs).
Proof.
  revert d dn e en p. induction bs as [|b bs IH]; intros d dn e en p Hbs H.
  - rewrite app_nil_r. destruct H as [d e|d e|d e]; [done|..]; cbn [encode_loop Z.ltb Z.compare];
      rewrite field63, decode_byte by (done || by apply Z.mod_pos_bound);
      cbn [decode_loop fmap option_fmap option_map]; do 2 f_equal; bits_now.
  - apply Forall_cons in Hbs as [Hb Hbs]. unfold in_u in Hb. cbn [encode_loop]. rewrite push8 by lia.
    destruct H as [d e|d e|d e]; cbn [Z.add Pos.add Pos.succ].
    + rewrite emit8, field6 by lia. cbn [app]. rewrite decode_no_byte by (by apply Z.mod_pos_bound).
      erewrite IH; [|done|apply Behind2]. cbn [app]. do 2 f_equal. unfold uwrap. bits_now.
    + rewrite emit10, field6 by lia. cbn [app]. rewrite decode_byte by (done || by apply Z.mod_pos_bound).
      change (6 - 2) with 4. erewrite IH; [|done|apply Behind4]. cbn. unfold uwrap. do 3 f_equal; bits_now.
    + rewrite emit12, !field6 by lia. cbn [app]. rewrite decode_byte by (done || by apply Z.mod_pos_bound).
      change (4 - 2) with 2. rewrite decode_byte by (done || by apply Z.mod_pos_bound). change (2 - 2) with 0.
      erewrite IH; [|done|apply Behind0]. cbn. unfold uwrap. do 3 f_equal; bits_now.
Qed.

(** Decoding the base64url text of any bytes gives the bytes back. *)
Theorem base64url_roundtrip bs :
  bytes_ok bs → orochi_base64url_decode (orochi_base64url_encode bs) = Some bs.
Proof. intros Hbs. exact (decode_encode_loop bs 0 0 0 0 [] Hbs (Behind0 0 0)). Qed.

Lemma base64url_roundtrip_witness :
  orochi_base64url_decode (orochi_base64url_encode [255; 0; 16; 131]) = Some [255; 0; 16; 131].
Proof. apply base64url_roundtrip. decide_now. Defined.

(** The bytes fit into the buffer that is allocated for them. *)
Definition decoded_len (input : text) : Z :=
  let padding := (4 - len input mod 4) mod 4 in (len input + padding) * 3 / 4.

Lemma decode_loop_length b n input out :
  0 <= n → decode_loop b n input = Some out → 8 * len out <= n + 6 * len input.
Proof.
  revert b n out. induction input as [|c input IH]; intros b n out Hn H; cbn [decode_loop] in H.
  - injection H as <-. cbn. lia.
  - rewrite length_cons. repeat destruct_if_hyp; try done.
    + apply IH in H; lia.
    + destruct (decode_loop _ _ input) as [o|] eqn:Eo; [|done]. injection H as <-.
      apply IH in Eo; [|lia]. rewrite length_cons. lia.
    + apply IH in H; lia.
Qed.

Lemma base64url_decode_fits input out :
  orochi_base64url_decode input = Some out → len out <= decoded_len input.
Proof. intros H%decode_loop_length; [|done]. unfold decoded_len. Z.to_euclidean_division_equations. lia. Qed.

Definition encoded_len (input : list Z) : Z := (len input * 4 + 2) / 3.

Lemma encode_loop_length e n bs :
  n = 0 ∨ n = 2 ∨ n = 4 → len (encode_loop e n bs) = (8 * len bs + n + 5) / 6.
Proof.
  revert e n. induction bs as [|b bs IH]; intros e n Hn; [by destruct Hn as [->|[->| ->]]|].
  destruct Hn as [->|[->| ->]]; cbn [encode_loop Z.add Pos.add Pos.succ];
    rewrite ?emit8, ?emit10, ?emit12, length_app, length_cons, Nat2Z.inj_add, IH by lia;
    cbn [length]; Z.to_euclidean_division_equations; lia.
Qed.

Lemma base64url_encode_fits bs : len (orochi_base64url_encode bs) = encoded_len bs.
Proof.
  unfold orochi_base64url_encode, encoded_len. rewrite encode_loop_length by lia.
  Z.to_euclidean_division_equations. lia.
Qed.

(** ** Algorithms and messages *)

Inductive OrochiJwtAlgorithm :=
| OROCHI_JWT_ALG_NONE | OROCHI_JWT_HS256 | OROCHI_JWT_HS384 | OROCHI_JWT_HS512
| OROCHI_JWT_RS256 | OROCHI_JWT_RS384 | OROCHI_JWT_RS512
| OROCHI_JWT_ES256 | OROCHI_JWT_ES384 | OROCHI_JWT_ES512.

#[export] Instance algorithm_eq_dec : EqDecision OrochiJwtAlgorithm.
Proof. solve_decision. Defined.

Inductive OrochiJwtStatus :=
| OROCHI_JWT_STATUS_VALID | OROCHI_JWT_STATUS_INVALID_FORMAT | OROCHI_JWT_STATUS_INVALID_HEADER
| OROCHI_JWT_STATUS_INVALID_PAYLOAD | OROCHI_JWT_STATUS_INVALID_SIGNATURE
| OROCHI_JWT_STATUS_EXPIRED | OROCHI_JWT_STATUS_NOT_YET_VALID
| OROCHI_JWT_STATUS_UNSUPPORTED_ALGORITHM | OROCHI_JWT_STATUS_DECODE_ERROR
| OROCHI_JWT_STATUS_VERIFICATION_ERROR.

#[export] Instance status_eq_dec : EqDecision OrochiJwtStatus.
Proof. solve_decision. Defined.

Definition orochi_jwt_algorithm_from_string (alg_str : text) : OrochiJwtAlgorithm :=
  if decide (alg_str = str "HS256") then OROCHI_JWT_HS256
  else if decide (alg_str = str "HS384") then OROCHI_JWT_HS384
  else if decide (alg_str = str "HS512") then OROCHI_JWT_HS512
  else if decide (alg_str = str "RS256") then OROCHI_JWT_RS256
  else if decide (alg_str = str "RS384") then OROCHI_JWT_RS384
  else if decide (alg_str = str "RS512") then OROCHI_JWT_RS512
  else if decide (alg_str = str "ES256") then OROCHI_JWT_ES256
  else if decide (alg_str = str "ES384") then OROCHI_JWT_ES384
  else if decide (alg_str = str "ES512") then OROCHI_JWT_ES512
  else OROCHI_JWT_ALG_NONE.

Definition orochi_jwt_algorithm_to_string (alg : OrochiJwtAlgorithm) : text :=
  match alg with
  | OROCHI_JWT_HS256 => str "HS256" | OROCHI_JWT_HS384 => str "HS384" | OROCHI_JWT_HS512 => str "HS512"
  | OROCHI_JWT_RS256 => str "RS256" | OROCHI_JWT_RS384 => str "RS384" | OROCHI_JWT_RS512 => str "RS512"
  | OROCHI_JWT_ES256 => str "ES256" | OROCHI_JWT_ES384 => str "ES384" | OROCHI_JWT_ES512 => str "ES512"
  | OROCHI_JWT_ALG_NONE => str "none"
  end.

Definition orochi_jwt_status_message (status : OrochiJwtStatus) : text :=
  match status with
  | OROCHI_JWT_STATUS_VALID => str "Token is valid"
  | OROCHI_JWT_STATUS_INVALID_FORMAT => str "Invalid token format"
  | OROCHI_JWT_STATUS_INVALID_HEADER => str "Invalid token header"
  | OROCHI_JWT_STATUS_INVALID_PAYLOAD => str "Invalid token payload"
  | OROCHI_JWT_STATUS_INVALID_SIGNATURE => str "Invalid signature"
  | OROCHI_JWT_STATUS_EXPIRED => str "Token has expired"
  | OROCHI_JWT_STATUS_NOT_YET_VALID => str "Token is not yet valid"
  | OROCHI_JWT_STATUS_UNSUPPORTED_ALGORITHM => str "Unsupported algorithm"
  | OROCHI_JWT_STATUS_DECODE_ERROR => str "Failed to decode token"
  | OROCHI_JWT_STATUS_VERIFICATION_ERROR => str "Signature verification failed"
  end.

Lemma algorithm_string_roundtrip alg :
  orochi_jwt_algorithm_from_string (orochi_jwt_algorithm_to_string alg) = alg.
Proof. by destruct alg. Qed.

(** ** Times *)
Definition UNIX_EPOCH_JDATE : Z := 2440588.
Definition POSTGRES_EPOCH_JDATE : Z := 2451545.
Definition SECS_PER_DAY : Z := 86400.
Definition pg_epoch_offset : Z := (POSTGRES_EPOCH_JDATE - UNIX_EPOCH_JDATE) * SECS_PER_DAY.

Definition orochi_unix_to_timestamptz (unix : Z) : Z := i64 (i64 (unix - pg_epoch_offset) * 1000000).
Definition orochi_timestamptz_to_unix (ts : Z) : Z := Z.quot ts 1000000 + pg_epoch_offset.

Lemma unix_time_roundtrip t :
  - 9223372036854 <= t - pg_epoch_offset <= 9223372036854 →
  orochi_timestamptz_to_unix (orochi_unix_to_timestamptz t) = t.
Proof.
  intros Ht. unfold orochi_timestamptz_to_unix, orochi_unix_to_timestamptz.
  rewrite (swrap_id 64 (t - _)) by (done || (unfold in_i; lia)).
  rewrite swrap_id by (done || (unfold in_i; lia)). rewrite Z.quot_mul by lia. lia.
Qed.

(** ** JSON values *)

(** A number is known by its decimal text.  The keys of an object differ. *)
Inductive json :=
| JNull
| JBool (b : bool)
| JNumber (n : text)
| JString (s : text)
| JArray (l : list json)
| JObject (l : list (text * json)).

(** Reading and printing JSON, and the conversion of a number to [int8], which is an error
    out of range. *)
Class Jsonb := {
  jsonb_in : text → option json;
  JsonbToCString : json → text;
  numeric_int8 : text → option Z }.

(** [getKeyJsonValueFromContainer] takes the items of an array for pairs of an object, unless
    there are none; a scalar is an array of one item. *)
Definition get_key (j : json) (key : text) : outcome (option json) :=
  match j with
  | JObject l => Ok (snd <$> head (filter (λ x, x.1 = key) l))
  | JArray [] => Ok None
  | _ => Undef
  end.

Record OrochiJwtHeader := { alg : OrochiJwtAlgorithm; typ : option text; kid : option text; raw_json : text }.

Record OrochiJwtStandardClaims := {
  iss : option text; sub : option text; aud : option text; exp : Z; nbf : Z; iat : Z;
  jti : option text; exp_unix : Z; nbf_unix : Z; iat_unix : Z }.

Record OrochiJwtCustomClaims := {
  email : option text; phone : option text; role : option text; session_id : option text;
  aal : option text; app_metadata : option json; user_metadata : option json; amr : option json }.

Record OrochiJwtClaims := {
  standard : OrochiJwtStandardClaims; custom : OrochiJwtCustomClaims; raw_payload : json }.

Section parsing.
Context `{J : Jsonb}.

Definition extract_jsonb_string (j : json) (key : text) : outcome (option text) :=
  v ← get_key j key;
  Ok (match v with Some (JString s) => Some s | _ => None end).

(** The value and whether it was found. *)
Definition extract_jsonb_int64 (j : json) (key : text) : outcome (Z * bool) :=
  v ← get_key j key;
  match v with
  | Some (JNumber n) =>
      match numeric_int8 n with Some z => Ok (z, true) | None => Err "bigint out of range" end
  | _ => Ok (0, false)
  end.

Definition extract_jsonb_object (j : json) (key : text) : outcome (option json) :=
  v ← get_key j key;
  Ok (match v with Some (JArray l) => Some (JArray l) | Some (JObject l) => Some (JObject l) | _ => None end).

(** An error of [jsonb_in] is caught. *)
Definition orochi_jwt_parse_header (json_str : text) : outcome (option OrochiJwtHeader) :=
  match jsonb_in json_str with
  | None => Ok None
  | Some j =>
      a ← extract_jsonb_string j (str "alg");
      t ← extract_jsonb_string j (str "typ");
      k ← extract_jsonb_string j (str "kid");
      Ok (Some {| alg := match a with Some s => orochi_jwt_algorithm_from_string s
                         | None => OROCHI_JWT_ALG_NONE end;
                  typ := t; kid := k; raw_json := json_str |})
  end.

(** A time of the claims, which is zero when it is absent. *)
Definition extract_time (j : json) (key : text) : outcome (Z * Z) :=
  '(unix, found) ← extract_jsonb_int64 j key;
  Ok (unix, if found : bool then orochi_unix_to_timestamptz unix else 0).

Definition orochi_jwt_parse_claims (json_str : text) : outcome (option OrochiJwtClaims) :=
  match jsonb_in json_str with
  | None => Ok None
  | Some j =>
      iss ← extract_jsonb_string j (str "iss");
      sub ← extract_jsonb_string j (str "sub");
      aud ← extract_jsonb_string j (str "aud");
      jti ← extract_jsonb_string j (str "jti");
      '(exp_unix, exp) ← extract_time j (str "exp");
      '(nbf_unix, nbf) ← extract_time j (str "nbf");
      '(iat_unix, iat) ← extract_time j (str "iat");
      email ← extract_jsonb_string j (str "email");
      phone ← extract_jsonb_string j (str "phone");
      role ← extract_jsonb_string j (str "role");
      session_id ← extract_jsonb_string j (str "session_id");
      aal ← extract_jsonb_string j (str "aal");
      app_metadata ← extract_jsonb_object j (str "app_metadata");
      user_metadata ← extract_jsonb_object j (str "user_metadata");
      amr ← extract_jsonb_object j (str "amr");
      Ok (Some
        {| standard := {| iss := iss; sub := sub; aud := aud; exp := exp; nbf := nbf; iat := iat;
                          jti := jti; exp_unix := exp_unix; nbf_unix := nbf_unix; iat_unix := iat_unix |};
           custom := {| email := email; phone := phone; role := role; session_id := session_id;
                        aal := aal; app_metadata := app_metadata; user_metadata := user_metadata;
                        amr := amr |};
           raw_payload := j |})
  end.

(** ** Tokens *)

Record OrochiJwt := {
  header : option OrochiJwtHeader; claims : option OrochiJwtClaims; signature : option (list Z);
  header_b64 : text; payload_b64 : text; signature_b64 : text;
  status : OrochiJwtStatus; is_valid : bool; error_message : option string }.

Definition DOT : Ascii.ascii := char 46.

(** [strchr( _, '.')]: what is in front of the first dot and behind it. *)
Fixpoint split_dot (t : text) : option (text * text) :=
  match t with
  | [] => None
  | c :: t => if decide (c = DOT) then Some ([], t)
              else match split_dot t with Some (a, b) => Some (c :: a, b) | None => None end
  end.

Definition failed (jwt : OrochiJwt) (st : OrochiJwtStatus) (msg : string) : OrochiJwt :=
  {| header := header jwt; claims := claims jwt; signature := signature jwt;
     header_b64 := header_b64 jwt; payload_b64 := payload_b64 jwt; signature_b64 := signature_b64 jwt;
     status := st; is_valid := false; error_message := Some msg |}.

Definition parts (h p s : text) (hd : option OrochiJwtHeader) (cl : option OrochiJwtClaims)
    (sg : option (list Z)) (st : OrochiJwtStatus) (msg : option string) : OrochiJwt :=
  {| header := hd; claims := cl; signature := sg; header_b64 := h; payload_b64 := p;
     signature_b64 := s; status := st; is_valid := false; error_message := msg |}.

Definition orochi_jwt_parse (token : text) : outcome OrochiJwt :=
  if JWT_MAX_TOKEN_SIZE <? len token then Err "JWT token exceeds maximum size" else
  match split_dot token with
  | None => Ok (parts [] [] [] None None None OROCHI_JWT_STATUS_INVALID_FORMAT
                  (Some "Invalid token format: missing first separator"%string))
  | Some (h, rest) =>
  match split_dot rest with
  | None => Ok (parts [] [] [] None None None OROCHI_JWT_STATUS_INVALID_FORMAT
                  (Some "Invalid token format: missing second separator"%string))
  | Some (p, s) =>
  match orochi_base64url_decode h with
  | None => Ok (parts h p s None None None OROCHI_JWT_STATUS_DECODE_ERROR (Some "Failed to decode header"%string))
  | Some header_json =>
  hd ← orochi_jwt_parse_header (c_string header_json);
  match hd with
  | None => Ok (parts h p s None None None OROCHI_JWT_STATUS_INVALID_HEADER
                  (Some "Failed to parse header JSON"%string))
  | Some _ =>
  match orochi_base64url_decode p with
  | None => Ok (parts h p s hd None None OROCHI_JWT_STATUS_DECODE_ERROR (Some "Failed to decode payload"%string))
  | Some payload_json =>
  cl ← orochi_jwt_parse_claims (c_string payload_json);
  match cl with
  | None => Ok (parts h p s hd None None OROCHI_JWT_STATUS_INVALID_PAYLOAD
                  (Some "Failed to parse payload JSON"%string))
  | Some _ => Ok (parts h p s hd cl (orochi_base64url_decode s) OROCHI_JWT_STATUS_VALID None)
  end end end end end end.

(** [now] is the current Unix time; a time of zero counts as absent. *)
Definition orochi_jwt_is_expired (now : Z) (jwt : OrochiJwt) (skew : Z) : bool :=
  match claims jwt with
  | None => true
  | Some c => if exp_unix (standard c) =? 0 then false
              else i64 (exp_unix (standard c) + skew) <? now
  end.

Definition orochi_jwt_is_not_yet_valid (now : Z) (jwt : OrochiJwt) (skew : Z) : bool :=
  match claims jwt with
  | None => true
  | Some c => if nbf_unix (standard c) =? 0 then false
              else now <? i64 (nbf_unix (standard c) - skew)
  end.

End parsing.

(** ** Signatures *)

Inductive Digest := SHA256 | SHA384 | SHA512.

(** OpenSSL: the code of a message, which [HMAC] may fail to compute, and the verification of
    a signature with a public key in PEM format, false also for a text that is no such key;
    that of ECDSA takes the two coordinates. *)
Class Crypto := {
  HMAC : Digest → list Z → list Z → option (list Z);
  rsa_verify : Digest → text → list Z → list Z → bool;
  ecdsa_verify : Digest → text → list Z → list Z → list Z → bool }.

Definition get_hmac_algorithm (alg : OrochiJwtAlgorithm) : option Digest :=
  match alg with
  | OROCHI_JWT_HS256 => Some SHA256 | OROCHI_JWT_HS384 => Some SHA384 | OROCHI_JWT_HS512 => Some SHA512
  | _ => None
  end.
Definition get_rsa_digest_algorithm (alg : OrochiJwtAlgorithm) : option Digest :=
  match alg with
  | OROCHI_JWT_RS256 => Some SHA256 | OROCHI_JWT_RS384 => Some SHA384 | OROCHI_JWT_RS512 => Some SHA512
  | _ => None
  end.
Definition get_ecdsa_digest_algorithm (alg : OrochiJwtAlgorithm) : option Digest :=
  match alg with
  | OROCHI_JWT_ES256 => Some SHA256 | OROCHI_JWT_ES384 => Some SHA384 | OROCHI_JWT_ES512 => Some SHA512
  | _ => None
  end.

Definition coord_size (md : Digest) : Z := match md with SHA256 => 32 | SHA384 => 48 | SHA512 => 66 end.

(** [r || s], or nothing when the length is not that of two coordinates. *)
Definition ecdsa_sig_to_der (jwt_sig : list Z) (size : Z) : option (list Z * list Z) :=
  if len jwt_sig =? size * 2 then Some (take (Z.to_nat size) jwt_sig, drop (Z.to_nat size) jwt_sig) else None.

Record OrochiJwtValidationOptions := {
  verify_signature : bool; verify_exp : bool; verify_nbf : bool;
  required_iss : option text; required_aud : option text; clock_skew_seconds : Z }.

Definition OROCHI_JWT_DEFAULT_OPTIONS : OrochiJwtValidationOptions :=
  {| verify_signature := true; verify_exp := true; verify_nbf := true;
     required_iss := None; required_aud := None; clock_skew_seconds := 0 |}.

(** The signature is there and is equal to what is computed. *)
Definition same_claim (required have : option text) : bool :=
  match required, have with
  | None, _ => true
  | Some r, Some h => bool_decide (h = r)
  | Some _, None => false
  end.

Definition header_payload (h p : text) : text := h ++ DOT :: p.

Section verification.
Context `{J : Jsonb, C : Crypto}.

Definition verify_hmac_signature (data sig secret : list Z) (alg : OrochiJwtAlgorithm) : bool :=
  match get_hmac_algorithm alg with
  | None => false
  | Some md => match HMAC md secret data with
               | None => false
               | Some mac => bool_decide (mac = sig)
               end
  end.

Definition verify_rsa_signature (data sig : list Z) (pem : text) (alg : OrochiJwtAlgorithm) : bool :=
  match get_rsa_digest_algorithm alg with
  | None => false
  | Some md => rsa_verify md pem data sig
  end.

Definition verify_ecdsa_signature (data sig : list Z) (pem : text) (alg : OrochiJwtAlgorithm) : bool :=
  match get_ecdsa_digest_algorithm alg with
  | None => false
  | Some md => match ecdsa_sig_to_der sig (coord_size md) with
               | None => false
               | Some (r, s) => ecdsa_verify md pem data r s
               end
  end.

Definition orochi_jwt_verify_signature (data sig_b64 secret : text) (alg : OrochiJwtAlgorithm) : bool :=
  match orochi_base64url_decode sig_b64 with
  | None => false
  | Some sig =>
      match alg with
      | OROCHI_JWT_HS256 | OROCHI_JWT_HS384 | OROCHI_JWT_HS512 =>
          verify_hmac_signature (bytes_of data) sig (bytes_of secret) alg
      | OROCHI_JWT_RS256 | OROCHI_JWT_RS384 | OROCHI_JWT_RS512 =>
          verify_rsa_signature (bytes_of data) sig secret alg
      | OROCHI_JWT_ES256 | OROCHI_JWT_ES384 | OROCHI_JWT_ES512 =>
          verify_ecdsa_signature (bytes_of data) sig secret alg
      | OROCHI_JWT_ALG_NONE => len sig =? 0
      end
  end.

Definition alg_of (jwt : OrochiJwt) : OrochiJwtAlgorithm :=
  match header jwt with Some h => alg h | None => OROCHI_JWT_ALG_NONE end.
Definition claim_of (f : OrochiJwtStandardClaims → option text) (jwt : OrochiJwt) : option text :=
  match claims jwt with Some c => f (standard c) | None => None end.

Definition accepted (jwt : OrochiJwt) : OrochiJwt :=
  {| header := header jwt; claims := claims jwt; signature := signature jwt;
     header_b64 := header_b64 jwt; payload_b64 := payload_b64 jwt; signature_b64 := signature_b64 jwt;
     status := OROCHI_JWT_STATUS_VALID; is_valid := true; error_message := None |}.

(** The checks, in their order, on a token that was parsed. *)
Definition validate (now : Z) (jwt : OrochiJwt) (secret : text) (expected : OrochiJwtAlgorithm)
    (options : OrochiJwtValidationOptions) : OrochiJwt :=
  if negb (bool_decide (alg_of jwt = expected))
  then failed jwt OROCHI_JWT_STATUS_UNSUPPORTED_ALGORITHM "Algorithm mismatch"
  else if verify_signature options &&
          negb (orochi_jwt_verify_signature (header_payload (header_b64 jwt) (payload_b64 jwt))
                  (signature_b64 jwt) secret expected)
  then failed jwt OROCHI_JWT_STATUS_INVALID_SIGNATURE "Signature verification failed"
  else if verify_exp options && orochi_jwt_is_expired now jwt (clock_skew_seconds options)
  then failed jwt OROCHI_JWT_STATUS_EXPIRED "Token has expired"
  else if verify_nbf options && orochi_jwt_is_not_yet_valid now jwt (clock_skew_seconds options)
  then failed jwt OROCHI_JWT_STATUS_NOT_YET_VALID "Token is not yet valid"
  else if negb (same_claim (required_iss options) (claim_of iss jwt))
  then failed jwt OROCHI_JWT_STATUS_VERIFICATION_ERROR "Invalid issuer"
  else if negb (same_claim (required_aud options) (claim_of aud jwt))
  then failed jwt OROCHI_JWT_STATUS_VERIFICATION_ERROR "Invalid audience"
  else accepted jwt.

Definition orochi_jwt_decode_with_options (now : Z) (token secret : text) (expected : OrochiJwtAlgorithm)
    (options : OrochiJwtValidationOptions) : outcome OrochiJwt :=
  jwt ← orochi_jwt_parse token;
  if bool_decide (status jwt = OROCHI_JWT_STATUS_VALID)
  then Ok (validate now jwt secret expected options) else Ok jwt.

Definition orochi_jwt_decode (now : Z) (token secret : text) (expected : OrochiJwtAlgorithm) : outcome OrochiJwt :=
  orochi_jwt_decode_with_options now token secret expected OROCHI_JWT_DEFAULT_OPTIONS.

(** ** Access to claims *)

Definition orochi_jwt_get_claim_text (jwt : OrochiJwt) (name : text) : outcome (option text) :=
  match claims jwt with
  | None => Ok None
  | Some c => extract_jsonb_string (raw_payload c) name
  end.
Definition orochi_jwt_get_claim_jsonb (jwt : OrochiJwt) (name : text) : outcome (option json) :=
  match claims jwt with
  | None => Ok None
  | Some c => get_key (raw_payload c) name
  end.
Definition orochi_jwt_has_claim (jwt : OrochiJwt) (name : text) : outcome bool :=
  v ← orochi_jwt_get_claim_jsonb jwt name; Ok (bool_decide (is_Some v)).

(** The value and what is written to [is_null]: the flag that says the claim was found. *)
Definition orochi_jwt_get_claim_int (jwt : OrochiJwt) (name : text) : outcome (Z * bool) :=
  match claims jwt with
  | None => Ok (0, true)
  | Some c => extract_jsonb_int64 (raw_payload c) name
  end.
Definition orochi_jwt_get_claim_bool (jwt : OrochiJwt) (name : text) : outcome (bool * bool) :=
  v ← orochi_jwt_get_claim_jsonb jwt name;
  Ok (match v with Some (JBool b) => (b, false) | _ => (false, true) end).

(** ** Functions of SQL *)

Definition orochi_jwt_verify (now : Z) (token secret : option text) : outcome bool :=
  match token, secret with
  | Some token, Some secret => is_valid <$> orochi_jwt_decode now token secret OROCHI_JWT_HS256
  | _, _ => Ok false
  end.

Definition validated (now : Z) (token secret : text) : outcome OrochiJwt :=
  jwt ← orochi_jwt_decode now token secret OROCHI_JWT_HS256;
  if is_valid jwt then Ok jwt else Err "JWT validation failed".

Definition orochi_jwt_decode_claims (now : Z) (token secret : option text) : outcome (option json) :=
  match token, secret with
  | Some token, Some secret =>
      jwt ← validated now token secret;
      Ok (raw_payload <$> claims jwt)
  | _, _ => Ok None
  end.

Definition orochi_jwt_get_claim (token name : option text) : outcome (option text) :=
  match token, name with
  | Some token, Some name => jwt ← orochi_jwt_parse token; orochi_jwt_get_claim_text jwt name
  | _, _ => Ok None
  end.

Definition header_json (alg : OrochiJwtAlgorithm) : text :=
  char 123 :: char 34 :: str "alg" ++ char 34 :: char 58 :: char 34 :: orochi_jwt_algorithm_to_string alg
  ++ char 34 :: char 44 :: char 34 :: str "typ" ++ char 34 :: char 58 :: char 34 :: str "JWT"
  ++ [char 34; char 125].

Definition orochi_jwt_encode (payload : option json) (secret alg_text : option text) : outcome (option text) :=
  match payload, secret with
  | Some payload, Some secret =>
      let alg := match alg_text with Some t => orochi_jwt_algorithm_from_string t | None => OROCHI_JWT_HS256 end in
      let h := orochi_base64url_encode (bytes_of (header_json alg)) in
      let p := orochi_base64url_encode (bytes_of (JsonbToCString payload)) in
      match get_hmac_algorithm alg with
      | None => Err "Unsupported JWT algorithm"
      | Some md =>
          match HMAC md (bytes_of secret) (bytes_of (header_payload h p)) with
          | None => Err "Failed to compute HMAC signature"
          | Some mac => Ok (Some (header_payload (header_payload h p) (orochi_base64url_encode mac)))
          end
      end
  | _, _ => Ok None
  end.

End verification.

(** ** Settings of the session *)

(** Names are compared without regard to case; PostgreSQL refuses some. *)
Class Settings := { valid_name : text → bool }.

Definition setting_key (name : text) : text := tolower <$> name.

(** What [JsonbIteratorNext] returns, one after the other, nested containers included. *)
Inductive JsonToken :=
| WJB_KEY (k : text)
| WJB_VALUE (j : json)
| WJB_ELEM (j : json)
| WJB_BEGIN_ARRAY | WJB_END_ARRAY | WJB_BEGIN_OBJECT | WJB_END_OBJECT.

Fixpoint container_tokens (j : json) : option (list JsonToken) :=
  match j with
  | JArray l =>
      Some (WJB_BEGIN_ARRAY ::
            (fix go (l : list json) : list JsonToken :=
               match l with
               | [] => []
               | x :: l => match container_tokens x with Some t => t | None => [WJB_ELEM x] end ++ go l
               end) l ++ [WJB_END_ARRAY])
  | JObject l =>
      Some (WJB_BEGIN_OBJECT ::
            (fix go (l : list (text * json)) : list JsonToken :=
               match l with
               | [] => []
               | (k, x) :: l =>
                   WJB_KEY k :: match container_tokens x with Some t => t | None => [WJB_VALUE x] end ++ go l
               end) l ++ [WJB_END_OBJECT])
  | _ => None
  end.

(** A scalar is an array of one item. *)
Definition json_tokens (j : json) : list JsonToken :=
  match container_tokens j with Some t => t | None => [WJB_BEGIN_ARRAY; WJB_ELEM j; WJB_END_ARRAY] end.

(** The text of a value that is set on its own. *)
Definition claim_value (j : json) : option text :=
  match j with
  | JString s => Some s
  | JNumber n => Some n
  | JBool true => Some (str "true")
  | JBool false => Some (str "false")
  | _ => None
  end.

Definition claim_names : list text :=
  str <$> ["sub"; "iss"; "aud"; "exp"; "iat"; "email"; "phone"; "role"; "session_id"; "aal";
           "app_metadata"; "user_metadata"]%string.

Section session.
Context `{J : Jsonb, C : Crypto, S : Settings}.

Definition SetConfigOption (name value : text) (g : gmap text text) : outcome (gmap text text) :=
  if valid_name name then Ok (<[setting_key name := value]> g) else Err "invalid configuration parameter name".

Definition set_session_variable (name : text) (value : option text) (g : gmap text text) : outcome (gmap text text) :=
  SetConfigOption name (default [] value) g.

Definition set_claim (name : string) (value : option text) (g : gmap text text) : outcome (gmap text text) :=
  set_session_variable (JWT_CLAIM_PREFIX ++ str name) value g.

(** A claim that is left as it is when it is absent. *)
Definition set_claim_if (name : string) (value : option text) (g : gmap text text) : outcome (gmap text text) :=
  match value with Some v => set_claim name (Some v) g | None => Ok g end.

(** The loop over the tokens: the one behind a key is taken with it. *)
Fixpoint set_all_claims (l : list JsonToken) (g : gmap text text) : outcome (gmap text text) :=
  match l with
  | WJB_KEY k :: WJB_VALUE v :: l =>
      match claim_value v with
      | Some t => g ← set_session_variable (JWT_CLAIM_PREFIX ++ k) (Some t) g; set_all_claims l g
      | None => set_all_claims l g
      end
  | WJB_KEY _ :: _ :: l => set_all_claims l g
  | _ :: l => set_all_claims l g
  | [] => Ok g
  end.

Definition orochi_jwt_set_session_context (jwt : OrochiJwt) (g : gmap text text) : outcome (gmap text text) :=
  match claims jwt with
  | None => Ok g
  | Some c =>
      let st := standard c in let cu := custom c in
      let unless_zero z := if z =? 0 then None else Some (print z) in
      g ← set_session_variable (str "request.jwt.claims") (Some (JsonbToCString (raw_payload c))) g;
      g ← set_claim "sub" (sub st) g;
      g ← set_claim "iss" (iss st) g;
      g ← set_claim "aud" (aud st) g;
      g ← set_claim_if "exp" (unless_zero (exp_unix st)) g;
      g ← set_claim_if "iat" (unless_zero (iat_unix st)) g;
      g ← set_claim "email" (email cu) g;
      g ← set_claim "phone" (phone cu) g;
      g ← set_claim "role" (Some (default (str "authenticated") (role cu))) g;
      g ← set_claim "session_id" (session_id cu) g;
      g ← set_claim "aal" (Some (default (str "aal1") (aal cu))) g;
      g ← set_claim_if "app_metadata" (JsonbToCString <$> app_metadata cu) g;
      g ← set_claim_if "user_metadata" (JsonbToCString <$> user_metadata cu) g;
      set_all_claims (json_tokens (raw_payload c)) g
  end.

Fixpoint clear_claims (names : list text) (g : gmap text text) : outcome (gmap text text) :=
  match names with
  | [] => Ok g
  | n :: names => g ← set_session_variable (JWT_CLAIM_PREFIX ++ n) (Some []) g; clear_claims names g
  end.

Definition orochi_jwt_clear_session_context (g : gmap text text) : outcome (gmap text text) :=
  g ← set_session_variable (str "request.jwt.claims") (Some []) g;
  clear_claims claim_names g.

(** An empty setting counts as none. *)
Definition orochi_jwt_get_session_claim (name : text) (g : gmap text text) : option text :=
  match g !! setting_key (JWT_CLAIM_PREFIX ++ name) with
  | Some (c :: v) => Some (c :: v)
  | _ => None
  end.

Definition orochi_jwt_set_auth_context (now : Z) (token secret : option text) (g : gmap text text)
    : outcome (bool * gmap text text) :=
  match token, secret with
  | Some token, Some secret =>
      jwt ← validated now token secret;
      g ← orochi_jwt_set_session_context jwt g;
      Ok (true, g)
  | _, _ => Ok (false, g)
  end.

Definition orochi_jwt_clear_auth_context : gmap text text → outcome (gmap text text) :=
  orochi_jwt_clear_session_context.

End session.

(** ** What is accepted was signed *)

Section soundness.
Context `{J : Jsonb, C : Crypto}.

Lemma split_dot_spec t a b : split_dot t = Some (a, b) ↔ t = a ++ DOT :: b ∧ DOT ∉ a.
Proof.
  revert a. induction t as [|c t IH]; intros a; cbn [split_dot].
  - split; [done|]. intros [E _]. by destruct a.
  - destruct (decide (c = DOT)) as [->|Hc].
    + split; [intros [= <- <-]; by split; [|apply not_elem_of_nil]|]. intros [E Ha].
      destruct a as [|x a]; [by injection E as <-|]. injection E as <- E. destruct Ha. by left.
    + split.
      * destruct (split_dot t) as [[x y]|] eqn:Es; [|done]. intros [= <- <-].
        destruct (proj1 (IH x) eq_refl) as [-> Hx]. split; [done|]. by apply not_elem_of_cons.
      * intros [E Ha]. destruct a as [|x a]; [by injection E as -> ->|]. injection E as <- ->.
        apply not_elem_of_cons in Ha as [_ Ha]. by rewrite (proj2 (IH a)).
Qed.

(** The parts of a token that was parsed. *)
Lemma jwt_parse_parts token jwt :
  orochi_jwt_parse token = Ok jwt → status jwt = OROCHI_JWT_STATUS_VALID →
  token = header_payload (header_payload (header_b64 jwt) (payload_b64 jwt)) (signature_b64 jwt) ∧
  DOT ∉ header_b64 jwt ∧ DOT ∉ payload_b64 jwt ∧ is_Some (claims jwt).
Proof.
  unfold orochi_jwt_parse. intros H Hst. destruct (JWT_MAX_TOKEN_SIZE <? len token); [done|].
  destruct (split_dot token) as [[h rest]|] eqn:E1; [|by injection H as <-].
  destruct (split_dot rest) as [[p s]|] eqn:E2; [|by injection H as <-].
  destruct (orochi_base64url_decode h) as [hj|]; [|by injection H as <-].
  apply outcome_bind_ok in H as (hd & _ & H). destruct hd as [hd|]; [|by injection H as <-].
  destruct (orochi_base64url_decode p) as [pj|]; [|by injection H as <-].
  apply outcome_bind_ok in H as (cl & _ & H). destruct cl as [cl|]; injection H as <-; [|done].
  apply split_dot_spec in E1 as [-> Hh]. apply split_dot_spec in E2 as [-> Hp]. cbn.
  split; [|done]. unfold header_payload. by rewrite <- app_assoc.
Qed.

(** Parsing accepts nothing. *)
Lemma jwt_parse_not_valid token jwt : orochi_jwt_parse token = Ok jwt → is_valid jwt = false.
Proof.
  unfold orochi_jwt_parse. intros H. destruct (JWT_MAX_TOKEN_SIZE <? len token); [done|].
  destruct (split_dot token) as [[h rest]|]; [|by injection H as <-].
  destruct (split_dot rest) as [[p s]|]; [|by injection H as <-].
  destruct (orochi_base64url_decode h) as [hj|]; [|by injection H as <-].
  apply outcome_bind_ok in H as (hd & _ & H). destruct hd as [hd|]; [|by injection H as <-].
  destruct (orochi_base64url_decode p) as [pj|]; [|by injection H as <-].
  apply outcome_bind_ok in H as (cl & _ & H). by destruct cl as [cl|]; injection H as <-.
Qed.

Lemma validate_accepts now jwt secret expected options :
  is_valid (validate now jwt secret expected options) = true →
  alg_of jwt = expected ∧
  (verify_signature options = true →
   orochi_jwt_verify_signature (header_payload (header_b64 jwt) (payload_b64 jwt)) (signature_b64 jwt)
     secret expected = true) ∧
  (verify_exp options = true → orochi_jwt_is_expired now jwt (clock_skew_seconds options) = false) ∧
  (verify_nbf options = true → orochi_jwt_is_not_yet_valid now jwt (clock_skew_seconds options) = false) ∧
  same_claim (required_iss options) (claim_of iss jwt) = true ∧
  same_claim (required_aud options) (claim_of aud jwt) = true.
Proof.
  unfold validate. intros H.
  destruct (decide (alg_of jwt = expected)) as [E|E];
    [rewrite bool_decide_true in H by done|by rewrite bool_decide_false in H].
  destruct (verify_signature options), (orochi_jwt_verify_signature _ _ _ _),
    (verify_exp options), (orochi_jwt_is_expired _ _ _); try discriminate H;
  destruct (verify_nbf options), (orochi_jwt_is_not_yet_valid _ _ _),
    (same_claim (required_iss options) _), (same_claim (required_aud options) _); try discriminate H;
  done.
Qed.

Lemma validate_parts now jwt secret expected options :
  let r := validate now jwt secret expected options in
  header_b64 r = header_b64 jwt ∧ payload_b64 r = payload_b64 jwt ∧ signature_b64 r = signature_b64 jwt ∧
  claims r = claims jwt.
Proof. cbn zeta. unfold validate. repeat destruct_if; done. Qed.

End soundness.

(** The JSON texts that signing makes are read back, and hold no zero byte; a message
    authentication code is made of bytes. *)
Class SigningLaws `{J : Jsonb, C : Crypto} (payload : json) := {
  payload_back : jsonb_in (JsonbToCString payload) = Some payload;
  payload_plain : char 0 ∉ JsonbToCString payload;
  header_back a : jsonb_in (header_json a) =
    Some (JObject [(str "alg", JString (orochi_jwt_algorithm_to_string a)); (str "typ", JString (str "JWT"))]);
  hmac_bytes md key data mac : HMAC md key data = Some mac → bytes_ok mac }.

Lemma encode_char_not_dot z : encode_char z ≠ DOT.
Proof.
  unfold encode_char. destruct (nth_in_or_default (Z.to_nat z) base64url_chars Ascii.zero) as [Hin| ->]; [|done].
  intros E. rewrite E in Hin. apply list_elem_of_In in Hin. revert Hin. apply (bool_decide_unpack _).
  vm_compute. exact I.
Qed.

Lemma emit_chars_not_dot n b k : DOT ∉ (emit_chars n b k).1.
Proof.
  revert k. induction n as [|n IH]; intros k; cbn; [apply not_elem_of_nil|].
  destruct (6 <=? k); [|apply not_elem_of_nil]. specialize (IH (k - 6)).
  destruct (emit_chars n b (k - 6)) as [out rest]. cbn in *. apply not_elem_of_cons.
  split; [|done]. intros E. by apply (encode_char_not_dot (Z.land (Z.shiftr b (k - 6)) 63)).
Qed.

Lemma encode_loop_not_dot e n bs : DOT ∉ encode_loop e n bs.
Proof.
  revert e n. induction bs as [|b bs IH]; intros e n; cbn [encode_loop].
  - destruct (0 <? n); [|apply not_elem_of_nil]. apply not_elem_of_cons. split; [|apply not_elem_of_nil].
    intros E. by eapply encode_char_not_dot.
  - pose proof (emit_chars_not_dot 3 (Z.lor (u32 (Z.shiftl e 8)) b) (n + 8)) as H.
    destruct (emit_chars _ _ _) as [out rest]. apply not_elem_of_app. by split.
Qed.

Section soundness_theorems.
Context `{J : Jsonb, C : Crypto}.

(** C35: Whatever token the SQL function accepts is a text of three parts of which the third
    is the code that the key gives for the first two with HMAC-SHA-256, its header names this
    algorithm, and its times, where it has them, allow the present one. *)
Theorem jwt_verify_sound now token secret :
  orochi_jwt_verify now (Some token) (Some secret) = Ok true →
  ∃ jwt c mac,
    orochi_jwt_parse token = Ok jwt ∧ claims jwt = Some c ∧ alg_of jwt = OROCHI_JWT_HS256 ∧
    token = header_payload (header_payload (header_b64 jwt) (payload_b64 jwt)) (signature_b64 jwt) ∧
    DOT ∉ header_b64 jwt ∧ DOT ∉ payload_b64 jwt ∧
    HMAC SHA256 (bytes_of secret) (bytes_of (header_payload (header_b64 jwt) (payload_b64 jwt))) = Some mac ∧
    orochi_base64url_decode (signature_b64 jwt) = Some mac ∧
    (exp_unix (standard c) = 0 ∨ now <= i64 (exp_unix (standard c))) ∧
    (nbf_unix (standard c) = 0 ∨ i64 (nbf_unix (standard c)) <= now).
Proof.
  unfold orochi_jwt_verify, orochi_jwt_decode, orochi_jwt_decode_with_options.
  destruct (orochi_jwt_parse token) as [jwt| | |] eqn:Ep; [|done..]. cbn.
  destruct (decide (status jwt = OROCHI_JWT_STATUS_VALID)) as [Hst|Hst];
    [rewrite bool_decide_true by done|rewrite bool_decide_false by done].
  2: { intros [= Hv]. by rewrite (jwt_parse_not_valid _ _ Ep) in Hv. }
  intros [= Hv]. destruct (validate_accepts _ _ _ _ _ Hv) as (Ha & Hs & He & Hn & _ & _).
  destruct (jwt_parse_parts _ _ Ep Hst) as (Ht & Hh & Hp & [c Hc]).
  specialize (Hs eq_refl). specialize (He eq_refl). specialize (Hn eq_refl).
  unfold orochi_jwt_verify_signature in Hs. destruct (orochi_base64url_decode _) as [sg|] eqn:Esg; [|done].
  unfold verify_hmac_signature in Hs. cbn [get_hmac_algorithm] in Hs.
  destruct (HMAC _ _ _) as [mac|] eqn:Em; [|done]. apply bool_decide_eq_true in Hs as <-.
  exists jwt, c, mac. unfold orochi_jwt_is_expired in He. unfold orochi_jwt_is_not_yet_valid in Hn.
  rewrite Hc in He, Hn. cbn in He, Hn. rewrite Z.add_0_r in He. rewrite Z.sub_0_r in Hn.
  destruct (exp_unix (standard c) =? 0) eqn:E1, (nbf_unix (standard c) =? 0) eqn:E2;
    repeat (split; [done|]); lia.
Qed.

Lemma parse_claims_raw `{L : !SigningLaws payload} c :
  orochi_jwt_parse_claims (JsonbToCString payload) = Ok (Some c) → raw_payload c = payload.
Proof.
  unfold orochi_jwt_parse_claims. rewrite payload_back. intros Hc.
  repeat match type of Hc with
  | (_ ≫= _) = _ => apply outcome_bind_ok in Hc as (? & _ & Hc)
  | (match ?x with (_, _) => _ end) = _ => destruct x
  end. by injection Hc as <-.
Qed.

(** The parts of a signed token, parsed. *)
Lemma parse_signed `{L : !SigningLaws payload} a h p s mac :
  h = orochi_base64url_encode (bytes_of (header_json a)) →
  p = orochi_base64url_encode (bytes_of (JsonbToCString payload)) →
  s = orochi_base64url_encode mac → bytes_ok mac →
  len (header_payload (header_payload h p) s) <= JWT_MAX_TOKEN_SIZE →
  ∀ c, orochi_jwt_parse_claims (JsonbToCString payload) = Ok (Some c) →
  ∃ hd, alg hd = a ∧
        orochi_jwt_parse (header_payload (header_payload h p) s) =
        Ok (parts h p s (Some hd) (Some c) (Some mac) OROCHI_JWT_STATUS_VALID None).
Proof.
  intros Hh Hp Hs Hm Hlen c Hc.
  assert (Hph : orochi_jwt_parse_header (header_json a) =
    Ok (Some {| alg := a; typ := Some (str "JWT"); kid := None; raw_json := header_json a |})).
  { unfold orochi_jwt_parse_header. rewrite header_back. by destruct a. }
  eexists. split; [|unfold orochi_jwt_parse]; [shelve|].
  replace (JWT_MAX_TOKEN_SIZE <? _) with false by lia.
  assert (split_dot (header_payload (header_payload h p) s) = Some (h, header_payload p s)) as ->.
  { apply split_dot_spec. unfold header_payload. rewrite <- app_assoc. split; [done|].
    rewrite Hh. apply encode_loop_not_dot. }
  assert (split_dot (header_payload p s) = Some (p, s)) as ->.
  { apply split_dot_spec. split; [done|]. rewrite Hp. apply encode_loop_not_dot. }
  assert (Hd : ∀ bs, bytes_ok bs → orochi_base64url_decode (orochi_base64url_encode bs) = Some bs).
  { intros bs Hbs. exact (decode_encode_loop bs 0 0 0 0 [] Hbs (Behind0 0 0)). }
  subst h p s. rewrite !Hd by (done || apply bytes_of_ok).
  rewrite (c_string_bytes_of (header_json _)) by (destruct a; decide_now). rewrite Hph. cbn [mbind outcome_bind].
  rewrite c_string_bytes_of by apply payload_plain. by rewrite Hc.
  Unshelve. reflexivity.
Qed.

Lemma decode_accepts now token secret h p s mac hd c :
  orochi_jwt_parse token = Ok (parts h p s (Some hd) (Some c) (Some mac) OROCHI_JWT_STATUS_VALID None) →
  alg hd = OROCHI_JWT_HS256 → orochi_base64url_decode s = Some mac →
  HMAC SHA256 (bytes_of secret) (bytes_of (header_payload h p)) = Some mac →
  exp_unix (standard c) = 0 ∨ now <= i64 (exp_unix (standard c)) →
  nbf_unix (standard c) = 0 ∨ i64 (nbf_unix (standard c)) <= now →
  orochi_jwt_decode now token secret OROCHI_JWT_HS256 =
  Ok (accepted (parts h p s (Some hd) (Some c) (Some mac) OROCHI_JWT_STATUS_VALID None)).
Proof.
  intros Hp Hhd Hs Hm Hexp Hnbf. unfold orochi_jwt_decode, orochi_jwt_decode_with_options.
  rewrite Hp. cbn [mbind outcome_bind]. rewrite bool_decide_true by done. f_equal. unfold validate.
  rewrite bool_decide_true by exact Hhd.
  cbn [negb header_b64 payload_b64 signature_b64 parts verify_signature OROCHI_JWT_DEFAULT_OPTIONS
       verify_exp verify_nbf andb clock_skew_seconds].
  unfold orochi_jwt_verify_signature. rewrite Hs. unfold verify_hmac_signature.
  cbn [get_hmac_algorithm]. rewrite Hm, bool_decide_true by done.
  unfold orochi_jwt_is_expired, orochi_jwt_is_not_yet_valid. cbn [claims parts negb].
  rewrite Z.add_0_r, Z.sub_0_r.
  destruct (exp_unix (standard c) =? 0) eqn:E1, (nbf_unix (standard c) =? 0) eqn:E2;
    repeat match goal with |- context [?a <? ?b] => replace (a <? b) with false by lia end; done.
Qed.

(** The algorithm that [orochi_jwt_encode] takes for the text of its third argument. *)
Definition signing_algorithm (alg_text : option text) : OrochiJwtAlgorithm :=
  match alg_text with Some t => orochi_jwt_algorithm_from_string t | None => OROCHI_JWT_HS256 end.

Lemma decode_refuses now token secret h p s mac hd c :
  orochi_jwt_parse token = Ok (parts h p s (Some hd) (Some c) (Some mac) OROCHI_JWT_STATUS_VALID None) →
  alg hd ≠ OROCHI_JWT_HS256 →
  orochi_jwt_decode now token secret OROCHI_JWT_HS256 =
  Ok (failed (parts h p s (Some hd) (Some c) (Some mac) OROCHI_JWT_STATUS_VALID None)
        OROCHI_JWT_STATUS_UNSUPPORTED_ALGORITHM "Algorithm mismatch").
Proof.
  intros Hp Hhd. unfold orochi_jwt_decode, orochi_jwt_decode_with_options. rewrite Hp.
  cbn [mbind outcome_bind]. rewrite bool_decide_true by done. f_equal. unfold validate.
  by rewrite bool_decide_false by exact Hhd.
Qed.

(** C36: Of the tokens that [orochi_jwt_encode] signs, of at most [JWT_MAX_TOKEN_SIZE]
    characters, whose claims can be read back and whose times, where there are some, allow the
    present one, exactly those signed with HMAC-SHA-256 (which is what no algorithm argument
    means) are accepted under the same key by [orochi_jwt_verify], and give their claims back;
    what it signs with HMAC-SHA-384 or HMAC-SHA-512 is refused. *)
Theorem jwt_signed_is_accepted `{L : !SigningLaws payload} now token secret alg_text c :
  orochi_jwt_encode (Some payload) (Some secret) alg_text = Ok (Some token) →
  len token <= JWT_MAX_TOKEN_SIZE →
  orochi_jwt_parse_claims (JsonbToCString payload) = Ok (Some c) →
  exp_unix (standard c) = 0 ∨ now <= i64 (exp_unix (standard c)) →
  nbf_unix (standard c) = 0 ∨ i64 (nbf_unix (standard c)) <= now →
  orochi_jwt_verify now (Some token) (Some secret) =
    Ok (bool_decide (signing_algorithm alg_text = OROCHI_JWT_HS256)) ∧
  orochi_jwt_decode_claims now (Some token) (Some secret) =
    (if bool_decide (signing_algorithm alg_text = OROCHI_JWT_HS256) then Ok (Some payload)
     else Err "JWT validation failed").
Proof.
  unfold orochi_jwt_encode. fold (signing_algorithm alg_text).
  generalize (signing_algorithm alg_text) as a. cbn zeta. intros a He Hlen Hc Hexp Hnbf.
  destruct (get_hmac_algorithm a) as [md|] eqn:Ea; [|done].
  destruct (HMAC _ _ _) as [mac|] eqn:Em; [|done].
  assert (Hok : bytes_ok mac) by (by eapply hmac_bytes).
  remember (orochi_base64url_encode (bytes_of (header_json a))) as h eqn:Eh.
  remember (orochi_base64url_encode (bytes_of (JsonbToCString payload))) as p eqn:Epl.
  assert (token = header_payload (header_payload h p) (orochi_base64url_encode mac)) as -> by congruence.
  destruct (parse_signed a h p _ mac Eh Epl eq_refl Hok Hlen c Hc) as (hd & Hhd & Hp).
  unfold orochi_jwt_verify, orochi_jwt_decode_claims, validated. case_bool_decide as Ha.
  - subst a. rewrite Ha in Ea. injection Ea as <-. apply decode_accepts with (now := now) (secret := secret) in Hp; [|done| |done..].
    + rewrite Hp. cbn. by rewrite (parse_claims_raw c Hc).
    + exact (decode_encode_loop mac 0 0 0 0 [] Hok (Behind0 0 0)).
  - rewrite <- Hhd in Ha. by rewrite (decode_refuses now _ secret _ _ _ _ _ _ Hp Ha).
Qed.

End soundness_theorems.

(** ** What the session sees *)

Section session_facts.
Context `{J : Jsonb, C : Crypto, S : Settings}.

Lemma set_session_variable_ok name v g g' :
  set_session_variable name v g = Ok g' → g' = <[setting_key name := default [] v]> g.
Proof. unfold set_session_variable, SetConfigOption. destruct (valid_name name); by intros [= <-]. Qed.

(** An object without containers. *)
Definition is_scalar (j : json) : bool := match j with JArray _ | JObject _ => false | _ => true end.

Fixpoint flat_tokens (l : list (text * json)) : list JsonToken :=
  match l with [] => [WJB_END_OBJECT] | (k, x) :: l => WJB_KEY k :: WJB_VALUE x :: flat_tokens l end.

Lemma json_tokens_flat l :
  Forall (λ x, is_scalar x.2 = true) l → json_tokens (JObject l) = WJB_BEGIN_OBJECT :: flat_tokens l.
Proof.
  intros H. unfold json_tokens. cbn. f_equal. induction H as [|[k x] l Hx _ IH]; [done|].
  cbn [flat_tokens]. rewrite <- IH. by destruct x.
Qed.

Definition claim_key (k : text) : text := setting_key (JWT_CLAIM_PREFIX ++ k).

Lemma set_all_claims_other l g g' k :
  set_all_claims (flat_tokens l) g = Ok g' →
  (∀ x, x ∈ l → claim_key x.1 ≠ claim_key k) → g' !! claim_key k = g !! claim_key k.
Proof.
  revert g. induction l as [|[k0 x] l IH]; intros g H Hk; [by injection H as <-|].
  assert (Hl : ∀ y, y ∈ l → claim_key y.1 ≠ claim_key k) by (intros y ?; apply Hk; by right).
  cbn in H. destruct (claim_value x) as [t|]; [|by apply IH].
  apply outcome_bind_ok in H as (g1 & Hs & H). apply set_session_variable_ok in Hs as ->.
  rewrite (IH _ H Hl). apply lookup_insert_ne. apply (Hk (k0, x)). by left.
Qed.

Lemma set_all_claims_value l g g' k x t :
  set_all_claims (flat_tokens l) g = Ok g' → NoDup ((λ x, claim_key x.1) <$> l) → (k, x) ∈ l →
  claim_value x = Some t → g' !! claim_key k = Some t.
Proof.
  revert g. induction l as [|[k0 x0] l IH]; intros g H Hnd Hin Ht; [by apply not_elem_of_nil in Hin|].
  apply NoDup_cons in Hnd as [Hk0 Hnd]. cbn in H. apply elem_of_cons in Hin as [E|Hin].
  - injection E as <- <-. rewrite Ht in H. apply outcome_bind_ok in H as (g1 & Hs & H).
    apply set_session_variable_ok in Hs as ->. rewrite (set_all_claims_other _ _ _ k H).
    + apply lookup_insert_eq.
    + intros y Hy E. apply Hk0. apply list_elem_of_fmap. by exists y.
  - destruct (claim_value x0); [apply outcome_bind_ok in H as (g1 & _ & H)|]; by eapply IH.
Qed.

Lemma session_context_claims jwt c l g g' :
  claims jwt = Some c → raw_payload c = JObject l →
  orochi_jwt_set_session_context jwt g = Ok g' → Forall (λ x, is_scalar x.2 = true) l →
  ∃ g1, set_all_claims (flat_tokens l) g1 = Ok g'.
Proof.
  intros Hc Hr H Hl. unfold orochi_jwt_set_session_context in H. rewrite Hc in H.
  repeat (apply outcome_bind_ok in H as (? & _ & H)).
  rewrite Hr, json_tokens_flat in H by done. by eexists.
Qed.

(** From claims without containers, whose names differ also in lower case, the session
    gets each one that is a text, a number or a truth value. *)
Theorem session_has_claims jwt c l g g' k x t :
  claims jwt = Some c → raw_payload c = JObject l →
  Forall (λ x, is_scalar x.2 = true) l → NoDup ((λ x, claim_key x.1) <$> l) →
  orochi_jwt_set_session_context jwt g = Ok g' →
  (k, x) ∈ l → claim_value x = Some t → t ≠ [] →
  orochi_jwt_get_session_claim k g' = Some t.
Proof.
  intros Hc Hr Hl Hnd H Hin Ht Hne.
  destruct (session_context_claims _ _ _ _ _ Hc Hr H Hl) as [g1 Hg].
  unfold orochi_jwt_get_session_claim. change (setting_key (JWT_CLAIM_PREFIX ++ k)) with (claim_key k).
  rewrite (set_all_claims_value _ _ _ _ _ _ Hg Hnd Hin Ht). by destruct t.
Qed.

(** The keys of nested objects are set like those of the claims: a role in the metadata that
    users write replaces the one of the token. *)
Lemma nested_role_overrides jwt c u r x g g' :
  claims jwt = Some c → x ≠ [] →
  raw_payload c = JObject [(str "sub", JString u); (str "role", JString r);
                           (str "user_metadata", JObject [(str "role", JString x)])] →
  orochi_jwt_set_session_context jwt g = Ok g' →
  orochi_jwt_get_session_claim (str "role") g' = Some x.
Proof.
  intros Hc Hx Hr H. unfold orochi_jwt_set_session_context in H. rewrite Hc in H.
  repeat (apply outcome_bind_ok in H as (? & _ & H)). rewrite Hr in H. cbn in H.
  repeat match type of H with
  | (_ ≫= _) = _ => apply outcome_bind_ok in H as (? & Hs & H); apply set_session_variable_ok in Hs as ->
  end.
  injection H as <-. unfold orochi_jwt_get_session_claim. rewrite lookup_insert_eq. by destruct x.
Qed.

(** Claims that have no name among the known ones stay when the session is cleared. *)
Lemma clear_claims_keeps names g g' key :
  clear_claims names g = Ok g' → (∀ n, n ∈ names → claim_key n ≠ key) → g' !! key = g !! key.
Proof.
  revert g. induction names as [|n names IH]; intros g H Hk; [by injection H as <-|].
  cbn in H. apply outcome_bind_ok in H as (g1 & Hs & H). apply set_session_variable_ok in Hs as ->.
  rewrite (IH _ H) by (intros m ?; apply Hk; by right). apply lookup_insert_ne. apply Hk. by left.
Qed.

Lemma clear_keeps_custom_claim g g' :
  orochi_jwt_clear_session_context g = Ok g' →
  orochi_jwt_get_session_claim (str "tenant_id") g' = orochi_jwt_get_session_claim (str "tenant_id") g.
Proof.
  unfold orochi_jwt_clear_session_context. intros (g1 & Hs & H)%outcome_bind_ok.
  apply set_session_variable_ok in Hs as ->. unfold orochi_jwt_get_session_claim.
  change (setting_key (JWT_CLAIM_PREFIX ++ str "tenant_id")) with (claim_key (str "tenant_id")).
  rewrite (clear_claims_keeps _ _ _ _ H); [rewrite lookup_insert_ne; [done|by vm_compute]|].
  apply Forall_forall. decide_now.
Qed.

(** The flag of [orochi_jwt_get_claim_int] is the opposite of what its name says. *)
Lemma claim_int_flag_inverted jwt c n z :
  claims jwt = Some c → raw_payload c = JObject [(str "level", JNumber n)] → numeric_int8 n = Some z →
  orochi_jwt_get_claim_int jwt (str "level") = Ok (z, true).
Proof. intros Hc Hr Hn. unfold orochi_jwt_get_claim_int. rewrite Hc, Hr.
  unfold extract_jsonb_int64. change (get_key _ _) with (Ok (Some (JNumber n))).
  cbn [mbind outcome_bind]. by rewrite Hn.
Qed.

(** A signature is accepted in more than one spelling. *)
Lemma signature_padded s : orochi_base64url_decode (s ++ [char 61]) = orochi_base64url_decode s.
Proof.
  unfold orochi_base64url_decode. generalize 0 at 1 3 as b. generalize 0 as n.
  induction s as [|c s IH]; intros n b; [done|]. cbn [app decode_loop].
  repeat destruct_if; rewrite ?IH; done.
Qed.

End session_facts.

(** ** Witnesses *)

Definition user_claims : json := JObject [(str "sub", JString (str "u1")); (str "level", JNumber (str "3"))].

Definition algorithm_of_header (t : text) : option OrochiJwtAlgorithm :=
  find (λ a, bool_decide (t = header_json a))
    [OROCHI_JWT_ALG_NONE; OROCHI_JWT_HS256; OROCHI_JWT_HS384; OROCHI_JWT_HS512; OROCHI_JWT_RS256; OROCHI_JWT_RS384;
     OROCHI_JWT_RS512; OROCHI_JWT_ES256; OROCHI_JWT_ES384; OROCHI_JWT_ES512].

#[local] Instance toy_json : Jsonb :=
  {| jsonb_in t :=
       if decide (t = str "claims") then Some user_claims
       else (λ a, JObject [(str "alg", JString (orochi_jwt_algorithm_to_string a)); (str "typ", JString (str "JWT"))])
            <$> algorithm_of_header t;
     JsonbToCString j := str "claims";
     numeric_int8 n := Some 3 |}.
#[local] Instance toy_crypto : Crypto :=
  {| HMAC md key data := Some [(foldr Z.add 0 key * 7 + foldr Z.add 0 data) mod 256];
     rsa_verify md pem data sig := false; ecdsa_verify md pem data r s := false |}.
#[local] Instance all_names : Settings := {| valid_name n := true |}.

#[local] Instance toy_laws : SigningLaws user_claims.
Proof.
  split; [vm_compute; reflexivity|decide_now|intros []; vm_compute; reflexivity|].
  intros md key data mac [= <-]. unfold bytes_ok, in_u. apply Forall_singleton. apply Z.mod_pos_bound. lia.
Qed.

Definition user_token : text :=
  match orochi_jwt_encode (Some user_claims) (Some (str "key")) None with Ok (Some t) => t | _ => [] end.

Definition user_parsed : OrochiJwtClaims :=
  match orochi_jwt_parse_claims (str "claims") with
  | Ok (Some c) => c
  | _ => {| standard := {| iss := None; sub := None; aud := None; exp := 0; nbf := 0; iat := 0; jti := None;
                           exp_unix := 0; nbf_unix := 0; iat_unix := 0 |};
            custom := {| email := None; phone := None; role := None; session_id := None; aal := None;
                         app_metadata := None; user_metadata := None; amr := None |};
            raw_payload := JNull |}
  end.

Definition user_token_384 : text :=
  match orochi_jwt_encode (Some user_claims) (Some (str "key")) (Some (str "HS384")) with
  | Ok (Some t) => t | _ => [] end.

Lemma jwt_signed_is_accepted_witness :
  (orochi_jwt_verify 5 (Some user_token) (Some (str "key")) = Ok true ∧
   orochi_jwt_decode_claims 5 (Some user_token) (Some (str "key")) = Ok (Some user_claims)) ∧
  (orochi_jwt_verify 5 (Some user_token_384) (Some (str "key")) = Ok false ∧
   orochi_jwt_decode_claims 5 (Some user_token_384) (Some (str "key")) = Err "JWT validation failed").
Proof.
  split;
    [apply (@jwt_signed_is_accepted toy_json toy_crypto user_claims toy_laws 5 user_token (str "key") None user_parsed)
    |apply (@jwt_signed_is_accepted toy_json toy_crypto user_claims toy_laws 5 user_token_384 (str "key")
              (Some (str "HS384")) user_parsed)];
    [vm_compute; reflexivity|vm_compute; discriminate|vm_compute; reflexivity
    |left; vm_compute; reflexivity|left; vm_compute; reflexivity
    |vm_compute; reflexivity|vm_compute; discriminate|vm_compute; reflexivity
    |left; vm_compute; reflexivity|left; vm_compute; reflexivity].
Defined.

Lemma jwt_verify_sound_witness :
  ∃ jwt c mac,
    orochi_jwt_parse user_token = Ok jwt ∧ claims jwt = Some c ∧ alg_of jwt = OROCHI_JWT_HS256 ∧
    user_token = header_payload (header_payload (header_b64 jwt) (payload_b64 jwt)) (signature_b64 jwt) ∧
    DOT ∉ header_b64 jwt ∧ DOT ∉ payload_b64 jwt ∧
    HMAC SHA256 (bytes_of (str "key")) (bytes_of (header_payload (header_b64 jwt) (payload_b64 jwt))) = Some mac ∧
    orochi_base64url_decode (signature_b64 jwt) = Some mac ∧
    (exp_unix (standard c) = 0 ∨ 5 <= i64 (exp_unix (standard c))) ∧
    (nbf_unix (standard c) = 0 ∨ i64 (nbf_unix (standard c)) <= 5).
Proof. apply (jwt_verify_sound 5 user_token (str "key")). vm_compute; reflexivity. Defined.

Definition user_jwt : OrochiJwt := parts [] [] [] None (Some user_parsed) None OROCHI_JWT_STATUS_VALID None.
Definition user_settings : gmap text text :=
  match orochi_jwt_set_session_context user_jwt ∅ with Ok g => g | _ => ∅ end.

Lemma user_settings_set : orochi_jwt_set_session_context user_jwt ∅ = Ok user_settings.
Proof.
  assert (H : match orochi_jwt_set_session_context user_jwt ∅ with Ok _ => true | _ => false end = true)
    by (vm_compute; reflexivity).
  unfold user_settings. by destruct (orochi_jwt_set_session_context user_jwt ∅).
Qed.

Lemma session_has_claims_witness :
  orochi_jwt_get_session_claim (str "level") user_settings = Some (str "3").
Proof.
  apply (@session_has_claims toy_json all_names user_jwt user_parsed
           [(str "sub", JString (str "u1")); (str "level", JNumber (str "3"))] ∅ user_settings
           (str "level") (JNumber (str "3")) (str "3")).
  - reflexivity.
  - vm_compute; reflexivity.
  - decide_now.
  - decide_now.
  - exact user_settings_set.
  - right; left.
  - reflexivity.
  - discriminate.
Defined.
