(* ===== verification/AuthCache.v ===== *)
(** * The caches of the authentication service

    The shared memory of [auth/auth_cache.c]: tokens and sessions in tables with open
    addressing, signing keys, rate limits.  Every operation runs under the lock of its table,
    so operations are functions of the state; the memory is initialized. *)
From stdpp Require Import sets sorting.
From S2P Require Import Prelude Postgres CText Jwt.

Local Open Scope Z_scope.

Definition OROCHI_AUTH_MAX_CACHED_TOKENS : Z := 10000.
Definition OROCHI_AUTH_MAX_CACHED_SESSIONS : Z := 5000.
Definition OROCHI_AUTH_MAX_SIGNING_KEYS : Z := 16.
Definition OROCHI_AUTH_MAX_RATE_LIMITS : Z := 1024.
Definition OROCHI_AUTH_TOKEN_HASH_SIZE : Z := 64.
Definition OROCHI_AUTH_SESSION_ID_SIZE : Z := 32.
Definition OROCHI_AUTH_USER_ID_SIZE : Z := 36.
Definition OROCHI_AUTH_TENANT_ID_SIZE : Z := 36.
Definition OROCHI_AUTH_RATE_LIMIT_KEY_SIZE : Z := 256.
Definition OROCHI_AUTH_KEY_ID_SIZE : Z := 64.
Definition OROCHI_AUTH_PUBLIC_KEY_SIZE : Z := 4096.
Definition OROCHI_AUTH_PRIVATE_KEY_SIZE : Z := 8192.

Definition SEC : Z := 1000000.

(** [strlcpy] into an array of [size + 1] characters. *)
Definition strlcpy (size : Z) (t : text) : text := take (Z.to_nat size) t.

(** ** Linear probing *)

(** The first of at most [n] slots, from [slot] on, at which [f] has an answer. *)
Fixpoint probe {E R} (f : E → option R) (cap : Z) (l : list E) (n : nat) (slot : Z) : option (Z * R) :=
  match n with
  | O => None
  | S n => match l !! Z.to_nat slot ≫= f with
           | Some r => Some (slot, r)
           | None => probe f cap l n ((slot + 1) mod cap)
           end
  end.

(** [hash * 31 + c] over the characters. *)
Fixpoint hash_chars (h : Z) (t : text) : Z :=
  match t with [] => h | c :: t => hash_chars (u32 (u32 (h * 31) + code c)) t end.

Section probing.
Context {E R R' : Type}.
Implicit Types (f : E → option R) (g : E → option R') (l : list E).

Lemma probe_found f cap l n s0 s r :
  probe f cap l n s0 = Some (s, r) → ∃ e, l !! Z.to_nat s = Some e ∧ f e = Some r.
Proof.
  revert s0. induction n as [|n IH]; intros s0 H; [done|]. cbn in H.
  destruct (l !! Z.to_nat s0 ≫= f) as [r0|] eqn:E0; [|by eapply IH].
  injection H as <- <-. destruct (l !! Z.to_nat s0) as [e|] eqn:El; [|done]. by exists e.
Qed.

(** What is written at the slot a search found is found from the same slot by any search that
    passes the entries the first one passed. *)
Lemma probe_insert f g cap l n s0 s r e r' :
  probe f cap l n s0 = Some (s, r) → (∀ x, f x = None → g x = None) → g e = Some r' →
  probe g cap (<[Z.to_nat s := e]> l) n s0 = Some (s, r').
Proof.
  intros H Hfg Hg. destruct (probe_found _ _ _ _ _ _ _ H) as (e0 & He0 & Hf0).
  assert (Hs : <[Z.to_nat s := e]> l !! Z.to_nat s = Some e).
  { apply list_lookup_insert_eq. by eapply lookup_lt_Some. }
  revert s0 H. induction n as [|n IH]; intros s0 H; [done|]. cbn in *.
  destruct (decide (Z.to_nat s0 = Z.to_nat s)) as [E0|E0].
  - rewrite E0, He0 in H. cbn in H. rewrite Hf0 in H. injection H as <-.
    rewrite Hs. cbn. by rewrite Hg.
  - rewrite list_lookup_insert_ne by done.
    destruct (l !! Z.to_nat s0 ≫= f) as [r0|] eqn:E1; [by assert (s0 = s) as -> by congruence|].
    assert (l !! Z.to_nat s0 ≫= g = None) as ->.
    { destruct (l !! Z.to_nat s0) as [x|]; [by apply Hfg|done]. }
    by apply IH.
Qed.

(** A search that fails has passed all of its slots. *)
Lemma probe_insert_other (f : E → option R) cap l n s0 s r s' x y :
  probe f cap l n s0 = Some (s, r) → l !! Z.to_nat s' = Some x → Z.to_nat s' ≠ Z.to_nat s →
  (f x = None → f y = None) → probe f cap (<[Z.to_nat s' := y]> l) n s0 = Some (s, r).
Proof.
  intros H Hx Hne Hf. revert s0 H. induction n as [|n IH]; intros s0 H; [done|]. cbn in *.
  destruct (decide (Z.to_nat s0 = Z.to_nat s')) as [E0|E0].
  - rewrite E0, Hx in H. rewrite E0, list_lookup_insert_eq by (by eapply lookup_lt_Some). cbn in *.
    destruct (f x) as [r0|]; [by assert (s0 = s) as -> by congruence|]. rewrite Hf by done. by apply IH.
  - rewrite list_lookup_insert_ne by done. destruct (_ ≫= f); [done|]. by apply IH.
Qed.

Lemma probe_none f g cap l n s0 :
  probe f cap l n s0 = None → (∀ x, f x = None → g x = None) → probe g cap l n s0 = None.
Proof.
  intros H Hfg. revert s0 H. induction n as [|n IH]; intros s0 H; [done|]. cbn in *.
  destruct (l !! Z.to_nat s0) as [x|]; cbn in *; [|by apply IH].
  destruct (f x) eqn:Ef; [done|]. rewrite Hfg by done. by apply IH.
Qed.

End probing.

(** ** Records *)

Inductive OrochiTokenType :=
| OROCHI_TOKEN_ACCESS | OROCHI_TOKEN_REFRESH | OROCHI_TOKEN_API_KEY | OROCHI_TOKEN_CONNECTION
| OROCHI_TOKEN_INVITATION | OROCHI_TOKEN_PASSWORD_RESET | OROCHI_TOKEN_EMAIL_VERIFY.

Record OrochiToken := {
  token_hash : text; token_type : OrochiTokenType; t_session_id : text; t_user_id : text;
  t_tenant_id : text; issued_at : Z; t_expires_at : Z; not_before : Z; scopes : Z;
  is_revoked : bool; t_jti : text; t_hash_slot : Z; cached_at : Z }.

Record OrochiTokenValidation := {
  v_user_id : text; v_tenant_id : text; v_session_id : text; v_scopes : Z; v_expires_at : Z }.

Inductive OrochiSessionState :=
| OROCHI_SESSION_ACTIVE | OROCHI_SESSION_IDLE | OROCHI_SESSION_EXPIRED | OROCHI_SESSION_REVOKED
| OROCHI_SESSION_MFA_REQUIRED.

#[export] Instance session_state_eq_dec : EqDecision OrochiSessionState.
Proof. solve_decision. Defined.

Record OrochiSession := {
  session_id : text; user_id : text; tenant_id : text; state : OrochiSessionState;
  auth_method : Z; ip_address : text; user_agent : text; device_id : text; geo_country : text;
  geo_city : text; created_at : Z; last_activity : Z; expires_at : Z; refresh_count : Z;
  mfa_verified : bool; s_aal : text; hash_slot : Z }.

Record OrochiSigningKey := {
  key_id : text; k_tenant_id : text; algorithm : OrochiJwtAlgorithm; public_key : text;
  private_key_encrypted : text; k_created_at : Z; k_expires_at : Z; rotated_at : Z;
  is_current : bool; is_active : bool; version : Z }.

Record OrochiRateLimit := {
  key : text; count : Z; limit : Z; window_start : Z; window_seconds : Z; is_blocked : bool;
  blocked_until : Z }.

Record OrochiAuthCache := {
  token_cache_count : Z; token_cache_head : Z; token_cache : list OrochiToken;
  session_cache_count : Z; session_cache_head : Z; session_cache : list OrochiSession;
  signing_key_count : Z; signing_keys : list OrochiSigningKey;
  rate_limit_count : Z; rate_limits : list OrochiRateLimit;
  failed_authentications : Z; tokens_revoked : Z; sessions_expired : Z;
  last_key_rotation : Z; last_cleanup : Z }.

(** The settings of [auth/auth.c]. *)
Record AuthSettings := {
  max_sessions_per_user : Z; rate_limit_enabled : bool; rate_limit_window : Z;
  key_rotation_days : Z }.

Definition with_tokens (c h : Z) (l : list OrochiToken) (revoked cleanup : Z) (s : OrochiAuthCache) : OrochiAuthCache :=
  {| token_cache_count := c; token_cache_head := h; token_cache := l;
     session_cache_count := session_cache_count s; session_cache_head := session_cache_head s;
     session_cache := session_cache s; signing_key_count := signing_key_count s;
     signing_keys := signing_keys s; rate_limit_count := rate_limit_count s;
     rate_limits := rate_limits s; failed_authentications := failed_authentications s;
     tokens_revoked := revoked; sessions_expired := sessions_expired s;
     last_key_rotation := last_key_rotation s; last_cleanup := cleanup |}.
Definition with_sessions (c h : Z) (l : list OrochiSession) (expired : Z) (s : OrochiAuthCache) : OrochiAuthCache :=
  {| token_cache_count := token_cache_count s; token_cache_head := token_cache_head s;
     token_cache := token_cache s; session_cache_count := c; session_cache_head := h;
     session_cache := l; signing_key_count := signing_key_count s;
     signing_keys := signing_keys s; rate_limit_count := rate_limit_count s;
     rate_limits := rate_limits s; failed_authentications := failed_authentications s;
     tokens_revoked := tokens_revoked s; sessions_expired := expired;
     last_key_rotation := last_key_rotation s; last_cleanup := last_cleanup s |}.
Definition with_keys (c : Z) (l : list OrochiSigningKey) (rotation : Z) (s : OrochiAuthCache) : OrochiAuthCache :=
  {| token_cache_count := token_cache_count s; token_cache_head := token_cache_head s;
     token_cache := token_cache s; session_cache_count := session_cache_count s;
     session_cache_head := session_cache_head s; session_cache := session_cache s;
     signing_key_count := c; signing_keys := l; rate_limit_count := rate_limit_count s;
     rate_limits := rate_limits s; failed_authentications := failed_authentications s;
     tokens_revoked := tokens_revoked s; sessions_expired := sessions_expired s;
     last_key_rotation := rotation; last_cleanup := last_cleanup s |}.
Definition with_rates (c : Z) (l : list OrochiRateLimit) (failed : Z) (s : OrochiAuthCache) : OrochiAuthCache :=
  {| token_cache_count := token_cache_count s; token_cache_head := token_cache_head s;
     token_cache := token_cache s; session_cache_count := session_cache_count s;
     session_cache_head := session_cache_head s; session_cache := session_cache s;
     signing_key_count := signing_key_count s; signing_keys := signing_keys s;
     rate_limit_count := c; rate_limits := l; failed_authentications := failed;
     tokens_revoked := tokens_revoked s; sessions_expired := sessions_expired s;
     last_key_rotation := last_key_rotation s; last_cleanup := last_cleanup s |}.

(** ** The state after start-up *)

Definition empty_token (slot : nat) : OrochiToken :=
  {| token_hash := []; token_type := OROCHI_TOKEN_ACCESS; t_session_id := []; t_user_id := [];
     t_tenant_id := []; issued_at := 0; t_expires_at := 0; not_before := 0; scopes := 0;
     is_revoked := false; t_jti := []; t_hash_slot := Z.of_nat slot; cached_at := 0 |}.
Definition empty_session (slot : nat) : OrochiSession :=
  {| session_id := []; user_id := []; tenant_id := []; state := OROCHI_SESSION_EXPIRED;
     auth_method := 0; ip_address := []; user_agent := []; device_id := []; geo_country := [];
     geo_city := []; created_at := 0; last_activity := 0; expires_at := 0; refresh_count := 0;
     mfa_verified := false; s_aal := []; hash_slot := Z.of_nat slot |}.
Definition empty_key : OrochiSigningKey :=
  {| key_id := []; k_tenant_id := []; algorithm := OROCHI_JWT_ALG_NONE; public_key := [];
     private_key_encrypted := []; k_created_at := 0; k_expires_at := 0; rotated_at := 0;
     is_current := false; is_active := false; version := 0 |}.
Definition empty_rate : OrochiRateLimit :=
  {| key := []; count := 0; limit := 0; window_start := 0; window_seconds := 0;
     is_blocked := false; blocked_until := 0 |}.

Definition orochi_auth_shmem_init (now : Z) : OrochiAuthCache :=
  {| token_cache_count := 0; token_cache_head := 0;
     token_cache := empty_token <$> seq 0 (Z.to_nat OROCHI_AUTH_MAX_CACHED_TOKENS);
     session_cache_count := 0; session_cache_head := 0;
     session_cache := empty_session <$> seq 0 (Z.to_nat OROCHI_AUTH_MAX_CACHED_SESSIONS);
     signing_key_count := 0; signing_keys := replicate (Z.to_nat OROCHI_AUTH_MAX_SIGNING_KEYS) empty_key;
     rate_limit_count := 0; rate_limits := replicate (Z.to_nat OROCHI_AUTH_MAX_RATE_LIMITS) empty_rate;
     failed_authentications := 0; tokens_revoked := 0; sessions_expired := 0;
     last_key_rotation := now; last_cleanup := now |}.

Definition is_empty (t : text) : bool := match t with [] => true | _ => false end.
Definition same (a b : text) : bool := bool_decide (a = b).

(** ** Tokens *)

Definition orochi_auth_cache_hash_slot (hash : text) : Z :=
  hash_chars 0 (take 8 hash) mod OROCHI_AUTH_MAX_CACHED_TOKENS.

(** An empty entry ends the search, a match is its result. *)
Definition token_match (hash : text) (e : OrochiToken) : option (option OrochiToken) :=
  if is_empty (token_hash e) then Some None
  else if same (token_hash e) hash then Some (Some e) else None.

(** The slot and the entry there. *)
Definition orochi_auth_cache_lookup (hash : text) (s : OrochiAuthCache) : option (Z * OrochiToken) :=
  match probe (token_match hash) OROCHI_AUTH_MAX_CACHED_TOKENS (token_cache s) 16
          (orochi_auth_cache_hash_slot hash) with
  | Some (slot, Some e) => Some (slot, e)
  | _ => None
  end.

Definition new_token (v : OrochiTokenValidation) (hash : text) (slot now : Z) : OrochiToken :=
  {| token_hash := strlcpy OROCHI_AUTH_TOKEN_HASH_SIZE hash; token_type := OROCHI_TOKEN_ACCESS;
     t_session_id := strlcpy OROCHI_AUTH_SESSION_ID_SIZE (v_session_id v);
     t_user_id := strlcpy OROCHI_AUTH_USER_ID_SIZE (v_user_id v);
     t_tenant_id := strlcpy OROCHI_AUTH_TENANT_ID_SIZE (v_tenant_id v);
     issued_at := now; t_expires_at := v_expires_at v; not_before := 0; scopes := v_scopes v;
     is_revoked := false; t_jti := []; t_hash_slot := slot; cached_at := now |}.

(** An entry that is empty, expired or of the same token is written over. *)
Definition token_free (hash : text) (now : Z) (e : OrochiToken) : option unit :=
  if is_empty (token_hash e) || (t_expires_at e <? now) || same (token_hash e) hash then Some tt else None.

(** [count++] up to the capacity. *)
Definition count_up (n cap : Z) : Z := if n <? cap then n + 1 else n.

Definition orochi_auth_cache_token (now : Z) (v : OrochiTokenValidation) (hash : text)
    (s : OrochiAuthCache) : OrochiAuthCache :=
  match probe (token_free hash now) OROCHI_AUTH_MAX_CACHED_TOKENS (token_cache s) 16
          (orochi_auth_cache_hash_slot hash) with
  | Some (slot, _) =>
      with_tokens (count_up (token_cache_count s) OROCHI_AUTH_MAX_CACHED_TOKENS) (token_cache_head s)
        (<[Z.to_nat slot := new_token v hash slot now]> (token_cache s)) (tokens_revoked s) (last_cleanup s) s
  | None =>
      let slot := token_cache_head s in
      with_tokens (token_cache_count s) ((token_cache_head s + 1) mod OROCHI_AUTH_MAX_CACHED_TOKENS)
        (<[Z.to_nat slot := new_token v hash slot now]> (token_cache s)) (tokens_revoked s) (last_cleanup s) s
  end.

Definition revoke_token (e : OrochiToken) : OrochiToken :=
  {| token_hash := token_hash e; token_type := token_type e; t_session_id := t_session_id e;
     t_user_id := t_user_id e; t_tenant_id := t_tenant_id e; issued_at := issued_at e;
     t_expires_at := t_expires_at e; not_before := not_before e; scopes := scopes e;
     is_revoked := true; t_jti := t_jti e; t_hash_slot := t_hash_slot e; cached_at := cached_at e |}.
Definition clear_token (e : OrochiToken) : OrochiToken :=
  {| token_hash := []; token_type := token_type e; t_session_id := []; t_user_id := [];
     t_tenant_id := []; issued_at := issued_at e; t_expires_at := t_expires_at e;
     not_before := not_before e; scopes := scopes e; is_revoked := false; t_jti := t_jti e;
     t_hash_slot := t_hash_slot e; cached_at := cached_at e |}.

Definition orochi_auth_cache_invalidate_token (hash : text) (s : OrochiAuthCache) : OrochiAuthCache :=
  match orochi_auth_cache_lookup hash s with
  | Some (slot, e) =>
      with_tokens (token_cache_count s) (token_cache_head s)
        (<[Z.to_nat slot := revoke_token e]> (token_cache s)) (u64 (tokens_revoked s + 1)) (last_cleanup s) s
  | None => s
  end.

Definition token_of_user (user : text) (e : OrochiToken) : bool :=
  negb (is_empty (token_hash e)) && same (t_user_id e) user.
Definition orochi_auth_cache_invalidate_user (user : text) (s : OrochiAuthCache) : OrochiAuthCache :=
  with_tokens (token_cache_count s) (token_cache_head s)
    (map (λ e, if token_of_user user e then revoke_token e else e) (token_cache s))
    (u64 (tokens_revoked s + count_if (token_of_user user) (token_cache s))) (last_cleanup s) s.

Definition token_expired (now : Z) (e : OrochiToken) : bool :=
  negb (is_empty (token_hash e)) && (t_expires_at e <? now).
Definition orochi_auth_cleanup_expired_tokens (now : Z) (s : OrochiAuthCache) : OrochiAuthCache :=
  with_tokens (Z.max 0 (token_cache_count s - count_if (token_expired now) (token_cache s)))
    (token_cache_head s) (map (λ e, if token_expired now e then clear_token e else e) (token_cache s))
    (tokens_revoked s) now s.

(** ** Sessions *)

Definition orochi_auth_session_hash_slot (id : text) : Z :=
  hash_chars 0 (take 8 id) mod OROCHI_AUTH_MAX_CACHED_SESSIONS.

Definition session_match (id : text) (e : OrochiSession) : option (option OrochiSession) :=
  if is_empty (session_id e) then Some None
  else if same (session_id e) id && negb (bool_decide (state e = OROCHI_SESSION_EXPIRED))
  then Some (Some e) else None.

Definition orochi_auth_session_cache_lookup (id : text) (s : OrochiAuthCache) : option (Z * OrochiSession) :=
  if is_empty id then None else
  match probe (session_match id) OROCHI_AUTH_MAX_CACHED_SESSIONS (session_cache s) 16
          (orochi_auth_session_hash_slot id) with
  | Some (slot, Some e) => Some (slot, e)
  | _ => None
  end.

Definition session_free (id : text) (e : OrochiSession) : option unit :=
  if is_empty (session_id e) || bool_decide (state e = OROCHI_SESSION_EXPIRED) || same (session_id e) id
  then Some tt else None.

Definition set_session (id : text) (st : OrochiSessionState) (slot : Z) (e : OrochiSession) : OrochiSession :=
  {| session_id := id; user_id := user_id e; tenant_id := tenant_id e; state := st;
     auth_method := auth_method e; ip_address := ip_address e; user_agent := user_agent e;
     device_id := device_id e; geo_country := geo_country e; geo_city := geo_city e;
     created_at := created_at e; last_activity := last_activity e; expires_at := expires_at e;
     refresh_count := refresh_count e; mfa_verified := mfa_verified e; s_aal := s_aal e; hash_slot := slot |}.
Definition at_slot (slot : Z) (e : OrochiSession) : OrochiSession := set_session (session_id e) (state e) slot e.
Definition in_state (st : OrochiSessionState) (e : OrochiSession) : OrochiSession :=
  set_session (session_id e) st (hash_slot e) e.

Definition orochi_auth_cache_session (session : OrochiSession) (s : OrochiAuthCache) : OrochiAuthCache :=
  if is_empty (session_id session) then s else
  match probe (session_free (session_id session)) OROCHI_AUTH_MAX_CACHED_SESSIONS (session_cache s) 16
          (orochi_auth_session_hash_slot (session_id session)) with
  | Some (slot, _) =>
      with_sessions (count_up (session_cache_count s) OROCHI_AUTH_MAX_CACHED_SESSIONS) (session_cache_head s)
        (<[Z.to_nat slot := at_slot slot session]> (session_cache s)) (sessions_expired s) s
  | None =>
      let slot := session_cache_head s in
      with_sessions (session_cache_count s) ((session_cache_head s + 1) mod OROCHI_AUTH_MAX_CACHED_SESSIONS)
        (<[Z.to_nat slot := at_slot slot session]> (session_cache s)) (sessions_expired s) s
  end.

Definition orochi_auth_cache_invalidate_session (id : text) (s : OrochiAuthCache) : OrochiAuthCache :=
  match orochi_auth_session_cache_lookup id s with
  | Some (slot, e) =>
      with_sessions (session_cache_count s) (session_cache_head s)
        (<[Z.to_nat slot := in_state OROCHI_SESSION_REVOKED e]> (session_cache s))
        (u64 (sessions_expired s + 1)) s
  | None => s
  end.

Definition session_over (now : Z) (e : OrochiSession) : bool :=
  negb (is_empty (session_id e)) &&
  ((expires_at e <? now) || bool_decide (state e = OROCHI_SESSION_REVOKED)).
Definition orochi_auth_cleanup_expired_sessions (now : Z) (s : OrochiAuthCache) : OrochiAuthCache :=
  let cleaned := count_if (session_over now) (session_cache s) in
  with_sessions (Z.max 0 (session_cache_count s - cleaned)) (session_cache_head s)
    (map (λ e, if session_over now e then set_session [] OROCHI_SESSION_EXPIRED (hash_slot e) e else e)
       (session_cache s)) (u64 (sessions_expired s + cleaned)) s.

Definition session_idle (threshold : Z) (e : OrochiSession) : bool :=
  negb (is_empty (session_id e)) && bool_decide (state e = OROCHI_SESSION_ACTIVE) &&
  (last_activity e <? threshold).
Definition orochi_auth_update_session_states (now : Z) (s : OrochiAuthCache) : OrochiAuthCache :=
  with_sessions (session_cache_count s) (session_cache_head s)
    (map (λ e, if session_idle (i64 (now - 30 * 60 * SEC)) e then in_state OROCHI_SESSION_IDLE e else e)
       (session_cache s)) (sessions_expired s) s.

(** The sessions of a user that count, and the one of them used longest ago: the loop keeps
    the first with the least time below [DT_NOEND]. *)
Definition active_of (user : text) (e : OrochiSession) : bool :=
  bool_decide (state e = OROCHI_SESSION_ACTIVE) && same (user_id e) user.

Fixpoint oldest (user : text) (l : list OrochiSession) (j : nat) (best : Z * option nat) : option nat :=
  match l with
  | [] => best.2
  | e :: l =>
      oldest user l (S j)
        (if active_of user e && (last_activity e <? best.1) then (last_activity e, Some j) else best)
  end.

Definition DT_NOEND : Z := INT64_MAX.

Definition revoke_at (j : nat) (l : list OrochiSession) : list OrochiSession :=
  match l !! j with Some e => <[j := in_state OROCHI_SESSION_REVOKED e]> l | None => l end.

(** [while (count > max) { ... count--; }] *)
Fixpoint revoke_oldest (n : nat) (user : text) (c : nat) (l : list OrochiSession) : list OrochiSession :=
  match n with
  | O => l
  | S n =>
      let l := match oldest user (take c l) 0 (DT_NOEND, None) with
               | Some j => revoke_at j l
               | None => l
               end in
      revoke_oldest n user c l
  end.

(** The loop over the first [c] entries, here from [i] on. *)
Fixpoint enforce_loop (n i : nat) (max : Z) (c : nat) (l : list OrochiSession) : list OrochiSession :=
  match n with
  | O => l
  | S n =>
      let l :=
        match l !! i with
        | Some e =>
            if negb (bool_decide (state e = OROCHI_SESSION_ACTIVE)) then l else
            let count := count_if (active_of (user_id e)) (take c l) in
            revoke_oldest (Z.to_nat (count - max)) (user_id e) c l
        | None => l
        end in
      enforce_loop n (S i) max c l
  end.

Definition orochi_auth_enforce_session_limits (cfg : AuthSettings) (s : OrochiAuthCache) : OrochiAuthCache :=
  if max_sessions_per_user cfg <=? 0 then s else
  let c := Z.to_nat (session_cache_count s) in
  with_sessions (session_cache_count s) (session_cache_head s)
    (enforce_loop c 0 (max_sessions_per_user cfg) c (session_cache s)) (sessions_expired s) s.

(** ** Signing keys *)

Definition live_keys (s : OrochiAuthCache) : list OrochiSigningKey :=
  take (Z.to_nat (signing_key_count s)) (signing_keys s).

(** A null tenant matches every key, as a key without a tenant matches every one. *)
Definition key_for_tenant (tenant : option text) (k : OrochiSigningKey) : bool :=
  is_active k && is_current k &&
  match tenant with
  | None => true
  | Some t => is_empty (k_tenant_id k) || same (k_tenant_id k) t
  end.
Definition orochi_auth_get_signing_key (tenant : option text) (s : OrochiAuthCache) : option OrochiSigningKey :=
  head (filter (λ k, key_for_tenant tenant k = true) (live_keys s)).

Definition orochi_auth_get_signing_key_by_id (id : text) (s : OrochiAuthCache) : option OrochiSigningKey :=
  head (filter (λ k, is_active k = true ∧ key_id k = id) (live_keys s)).

Definition orochi_auth_cache_signing_key (k : OrochiSigningKey) (s : OrochiAuthCache) : OrochiAuthCache :=
  match list_find (λ e, key_id e = key_id k) (live_keys s) with
  | Some (i, _) => with_keys (signing_key_count s) (<[i := k]> (signing_keys s)) (last_key_rotation s) s
  | None =>
      if signing_key_count s <? OROCHI_AUTH_MAX_SIGNING_KEYS
      then with_keys (signing_key_count s + 1) (<[Z.to_nat (signing_key_count s) := k]> (signing_keys s))
             (last_key_rotation s) s
      else s
  end.

Definition rotate (now : Z) (k : OrochiSigningKey) : OrochiSigningKey :=
  {| key_id := key_id k; k_tenant_id := k_tenant_id k; algorithm := algorithm k;
     public_key := public_key k; private_key_encrypted := private_key_encrypted k;
     k_created_at := k_created_at k; k_expires_at := k_expires_at k; rotated_at := now;
     is_current := false; is_active := is_active k; version := version k |}.

(** The days are multiplied as [int]; the setting is at most 365. *)
Definition orochi_auth_check_key_rotation (cfg : AuthSettings) (now : Z) (s : OrochiAuthCache) : OrochiAuthCache :=
  let threshold := i64 (now - i32 (key_rotation_days cfg * 24 * 60 * 60) * SEC) in
  let c := Z.to_nat (signing_key_count s) in
  with_keys (signing_key_count s)
    (map (λ k, if is_active k && is_current k && (k_created_at k <? threshold) then rotate now k else k)
       (take c (signing_keys s)) ++ drop c (signing_keys s)) (last_key_rotation s) s.

(** A row of [auth.signing_keys]. *)
Record KeyRow := {
  r_key_id : option text; r_tenant_id : option text; r_algorithm : OrochiJwtAlgorithm;
  r_public_key : option text; r_private_key : option text; r_created_at : option Z;
  r_expires_at : option Z; r_rotated_at : option Z; r_is_current : option bool;
  r_is_active : bool; r_version : Z }.

(** [ORDER BY created_at DESC] puts nulls first. *)
Definition newer (a b : KeyRow) : Prop :=
  match r_created_at a, r_created_at b with
  | None, _ => True
  | Some _, None => False
  | Some x, Some y => y <= x
  end.
#[export] Instance newer_dec a b : Decision (newer a b).
Proof. unfold newer. repeat case_match; apply _. Defined.

Definition key_of_row (now : Z) (r : KeyRow) : OrochiSigningKey :=
  let copy size (o : option text) := match o with Some t => strlcpy size t | None => [] end in
  {| key_id := copy OROCHI_AUTH_KEY_ID_SIZE (r_key_id r);
     k_tenant_id := copy OROCHI_AUTH_TENANT_ID_SIZE (r_tenant_id r); algorithm := r_algorithm r;
     public_key := copy OROCHI_AUTH_PUBLIC_KEY_SIZE (r_public_key r);
     private_key_encrypted := copy OROCHI_AUTH_PRIVATE_KEY_SIZE (r_private_key r);
     k_created_at := default now (r_created_at r); k_expires_at := default 0 (r_expires_at r);
     rotated_at := default 0 (r_rotated_at r); is_current := default false (r_is_current r);
     is_active := r_is_active r; version := r_version r |}.

(** Without an active row the keys stay. *)
Definition orochi_auth_refresh_signing_key_cache (now : Z) (rows : list KeyRow) (s : OrochiAuthCache) : OrochiAuthCache :=
  let found := take (Z.to_nat OROCHI_AUTH_MAX_SIGNING_KEYS)
                 (merge_sort newer (filter (λ r, r_is_active r = true) rows)) in
  match found with
  | [] => s
  | _ => with_keys (len found) ((key_of_row now <$> found) ++ drop (length found) (signing_keys s)) now s
  end.

(** ** Rate limits *)

Definition orochi_auth_rate_limit_hash (k action : text) : Z :=
  hash_chars (u32 (hash_chars 0 k * 17)) action mod OROCHI_AUTH_MAX_RATE_LIMITS.

(** [None] is an empty slot. *)
Definition rate_match (k : text) (e : OrochiRateLimit) : option (option OrochiRateLimit) :=
  if is_empty (key e) then Some None
  else if prefix_of k (key e) then Some (Some e) else None.

Definition rate_name (k action : text) : text := strlcpy OROCHI_AUTH_RATE_LIMIT_KEY_SIZE (k ++ char 58 :: action).

Definition new_rate (cfg : AuthSettings) (now : Z) (k action : text) (lim : Z) : OrochiRateLimit :=
  {| key := rate_name k action; count := 1; limit := lim; window_start := now;
     window_seconds := rate_limit_window cfg; is_blocked := false; blocked_until := 0 |}.

(** The answer of an entry, the entry afterwards and whether a failure is counted. *)
Definition rate_step (now : Z) (e : OrochiRateLimit) : bool * OrochiRateLimit * bool :=
  let window := window_seconds e * SEC in
  let set c start blocked until :=
    {| key := key e; count := c; limit := limit e; window_start := start;
       window_seconds := window_seconds e; is_blocked := blocked; blocked_until := until |} in
  if is_blocked e && (now <? blocked_until e) then (false, e, false)
  else if i64 (window_start e + window) <? now then (true, set 1 now false (blocked_until e), false)
  else if limit e <=? count e then
    (false, set (count e) (window_start e) true (i64 (now + window)), true)
  else (true, set (count e + 1) (window_start e) (is_blocked e) (blocked_until e), false).

Definition orochi_auth_check_rate_limit (cfg : AuthSettings) (now : Z) (k action : text) (lim : Z)
    (s : OrochiAuthCache) : bool * OrochiAuthCache :=
  if negb (rate_limit_enabled cfg) then (true, s) else
  match probe (rate_match k) OROCHI_AUTH_MAX_RATE_LIMITS (rate_limits s) 8
          (orochi_auth_rate_limit_hash k action) with
  | None => (true, s)
  | Some (slot, None) =>
      (true, with_rates (count_up (rate_limit_count s) OROCHI_AUTH_MAX_RATE_LIMITS)
               (<[Z.to_nat slot := new_rate cfg now k action lim]> (rate_limits s))
               (failed_authentications s) s)
  | Some (slot, Some e) =>
      let '(allowed, e, failed) := rate_step now e in
      (allowed, with_rates (rate_limit_count s) (<[Z.to_nat slot := e]> (rate_limits s))
                  (if failed then u64 (failed_authentications s + 1) else failed_authentications s) s)
  end.

Definition orochi_auth_record_rate_limit (k action : text) (s : OrochiAuthCache) : OrochiAuthCache := s.

Definition clear_rate (e : OrochiRateLimit) : OrochiRateLimit :=
  {| key := []; count := 0; limit := limit e; window_start := window_start e;
     window_seconds := window_seconds e; is_blocked := false; blocked_until := blocked_until e |}.

(** This search passes empty slots. *)
Definition rate_held (k : text) (e : OrochiRateLimit) : option OrochiRateLimit :=
  if negb (is_empty (key e)) && prefix_of k (key e) then Some e else None.

Definition orochi_auth_clear_rate_limit (k action : text) (s : OrochiAuthCache) : OrochiAuthCache :=
  match probe (rate_held k) OROCHI_AUTH_MAX_RATE_LIMITS (rate_limits s) 8
          (orochi_auth_rate_limit_hash k action) with
  | Some (slot, e) =>
      with_rates (rate_limit_count s - 1) (<[Z.to_nat slot := clear_rate e]> (rate_limits s))
        (failed_authentications s) s
  | None => s
  end.

Definition rate_stale (now : Z) (e : OrochiRateLimit) : bool :=
  negb (is_empty (key e)) && (i64 (window_start e + window_seconds e * SEC * 2) <? now).
Definition orochi_auth_cleanup_rate_limits (now : Z) (s : OrochiAuthCache) : OrochiAuthCache :=
  with_rates (Z.max 0 (rate_limit_count s - count_if (rate_stale now) (rate_limits s)))
    (map (λ e, if rate_stale now e then clear_rate e else e) (rate_limits s)) (failed_authentications s) s.

(** ** The revocation queue *)

Record SessionRow := { row_session_id : text; not_after : option Z }.
Record ApiKeyRow := { key_hash : text; key_revoked : bool; revoked_at : option Z }.

(** [t > low AND t <= high], false of a null. *)
Definition between (low high : Z) (t : option Z) : bool :=
  match t with Some t => (low <? t) && (t <=? high) | None => false end.

(** [last] is the static variable; a statement returns at most 100 rows.  The refresh tokens
    that the last statement finds are only logged. *)
Definition orochi_auth_process_revocation_queue `{B : TimestampBuffer} (now : Z)
    (sessions : list SessionRow) (keys : list ApiKeyRow) (st : Z * OrochiAuthCache) : Z * OrochiAuthCache :=
  let '(last, s) := st in
  let last := if last =? 0 then i64 (now - 60 * SEC) else last in
  if i64 (now - last) <? SEC then (last, s) else
  let at_ := printed (i64 (last - 5 * SEC)) now in
  let s := foldl (λ s r, orochi_auth_cache_invalidate_session (row_session_id r) s) s
             (take 100 (filter (λ r, between at_ at_ (not_after r) = true) sessions)) in
  let s := foldl (λ s r, orochi_auth_cache_invalidate_token (key_hash r) s) s
             (take 100 (filter (λ r, key_revoked r = true ∧ between at_ at_ (revoked_at r) = true) keys)) in
  (now, s).

(** ** A round of the workers *)
Definition orochi_auth_token_cleanup_worker_main `{B : TimestampBuffer} (now : Z)
    (sessions : list SessionRow) (keys : list ApiKeyRow) (st : Z * OrochiAuthCache) : Z * OrochiAuthCache :=
  let '(last, s) := st in
  let s := orochi_auth_cleanup_rate_limits now
             (orochi_auth_cleanup_expired_sessions now (orochi_auth_cleanup_expired_tokens now s)) in
  orochi_auth_process_revocation_queue now sessions keys (last, s).

Definition orochi_auth_session_worker_main (cfg : AuthSettings) (now : Z) (s : OrochiAuthCache) : OrochiAuthCache :=
  orochi_auth_enforce_session_limits cfg (orochi_auth_update_session_states now s).

Definition orochi_auth_key_rotation_worker_main (cfg : AuthSettings) (now : Z) (rows : list KeyRow)
    (s : OrochiAuthCache) : OrochiAuthCache :=
  orochi_auth_refresh_signing_key_cache now rows (orochi_auth_check_key_rotation cfg now s).

(** A cache of a few entries, for examples. *)
Definition small_cache (tokens : list OrochiToken) (sessions : list OrochiSession)
    (rates : list OrochiRateLimit) : OrochiAuthCache :=
  {| token_cache_count := 0; token_cache_head := 0; token_cache := tokens;
     session_cache_count := len sessions; session_cache_head := 0; session_cache := sessions;
     signing_key_count := 0; signing_keys := []; rate_limit_count := 0; rate_limits := rates;
     failed_authentications := 0; tokens_revoked := 0; sessions_expired := 0;
     last_key_rotation := 0; last_cleanup := 0 |}.

(** ** Tokens are found again *)

Lemma take_all {A} n (l : list A) : len l <= n → take (Z.to_nat n) l = l.
Proof. intros H. apply take_ge. lia. Qed.

Lemma is_empty_false t : t ≠ [] → is_empty t = false.
Proof. by destruct t. Qed.

Lemma same_refl t : same t t = true.
Proof. unfold same. by apply bool_decide_eq_true. Qed.

Lemma token_match_free hash now x : token_free hash now x = None → token_match hash x = None.
Proof.
  unfold token_free, token_match. destruct (is_empty _), (_ <? now), (same _ _); done.
Qed.

(** A token that is cached while a slot in reach of its search is free is found there,
    as it was cached. *)
Theorem cached_token_found now v hash s slot :
  hash ≠ [] → len hash <= OROCHI_AUTH_TOKEN_HASH_SIZE →
  probe (token_free hash now) OROCHI_AUTH_MAX_CACHED_TOKENS (token_cache s) 16
    (orochi_auth_cache_hash_slot hash) = Some (slot, tt) →
  orochi_auth_cache_lookup hash (orochi_auth_cache_token now v hash s)
  = Some (slot, new_token v hash slot now).
Proof.
  intros Hne Hlen H. unfold orochi_auth_cache_token, orochi_auth_cache_lookup. rewrite H.
  cbn [token_cache with_tokens].
  rewrite (probe_insert _ (token_match hash) _ _ _ _ _ _ _ (Some (new_token v hash slot now)) H); [done| |].
  - intros x. apply token_match_free.
  - unfold token_match. cbn [token_hash new_token]. unfold strlcpy. rewrite take_all by done.
    by rewrite is_empty_false, same_refl.
Qed.
Lemma cached_token_found_witness :
  orochi_auth_cache_lookup [char 1]
    (orochi_auth_cache_token 5
       {| v_user_id := [char 7]; v_tenant_id := []; v_session_id := []; v_scopes := 0; v_expires_at := 9 |}
       [char 1] (small_cache [empty_token 0; empty_token 1] [] [])) =
  Some (1, new_token {| v_user_id := [char 7]; v_tenant_id := []; v_session_id := []; v_scopes := 0;
                        v_expires_at := 9 |} [char 1] 1 5).
Proof.
  apply (cached_token_found 5 _ [char 1] _ 1).
  - discriminate.
  - by vm_compute.
  - by vm_compute.
Defined.

(** The slots that a search from [slot] visits. *)
Definition in_reach (cap slot : Z) (n : nat) (h : Z) : Prop := ∃ i, 0 <= i < Z.of_nat n ∧ h = (slot + i) mod cap.

Lemma probe_insert_far {E R} (f : E → option R) cap l n slot h e :
  0 < cap → 0 <= slot < cap → 0 <= h → ¬ in_reach cap slot n h →
  probe f cap (<[Z.to_nat h := e]> l) n slot = probe f cap l n slot.
Proof.
  intros Hcap. revert slot. induction n as [|n IH]; intros slot Hs Hh Hr; [done|]. cbn.
  rewrite list_lookup_insert_ne.
  - destruct (l !! Z.to_nat slot ≫= f); [done|]. apply IH; [by apply Z.mod_pos_bound|done|].
    intros (i & Hi & ->). apply Hr. exists (i + 1). split; [lia|].
    rewrite Zplus_mod_idemp_l. f_equal. lia.
  - intros E0. apply Hr. exists 0. split; [lia|]. rewrite Z.add_0_r, Z.mod_small by done. lia.
Qed.

Lemma token_slot_range hash : 0 <= orochi_auth_cache_hash_slot hash < OROCHI_AUTH_MAX_CACHED_TOKENS.
Proof. by apply Z.mod_pos_bound. Qed.

(** A token that takes the place of the oldest one is not found, unless that place happens to
    be in reach of its search. *)
Lemma evicting_token_lost now v hash s :
  0 <= token_cache_head s →
  probe (token_free hash now) OROCHI_AUTH_MAX_CACHED_TOKENS (token_cache s) 16
    (orochi_auth_cache_hash_slot hash) = None →
  ¬ in_reach OROCHI_AUTH_MAX_CACHED_TOKENS (orochi_auth_cache_hash_slot hash) 16 (token_cache_head s) →
  orochi_auth_cache_lookup hash (orochi_auth_cache_token now v hash s) = None.
Proof.
  intros Hh H Hr. unfold orochi_auth_cache_token, orochi_auth_cache_lookup. rewrite H.
  cbn [token_cache with_tokens]. rewrite probe_insert_far by (done || apply token_slot_range).
  by rewrite (probe_none _ (token_match hash) _ _ _ _ H (token_match_free hash now)).
Qed.

(** A token that was found is found revoked after it has been invalidated. *)
Lemma invalidated_token_revoked hash s slot e :
  orochi_auth_cache_lookup hash s = Some (slot, e) →
  orochi_auth_cache_lookup hash (orochi_auth_cache_invalidate_token hash s) = Some (slot, revoke_token e).
Proof.
  intros H. unfold orochi_auth_cache_invalidate_token. rewrite H. unfold orochi_auth_cache_lookup in *.
  cbn [token_cache with_tokens].
  destruct (probe _ _ (token_cache s) _ _) as [[sl [e0|]]|] eqn:Ep; try done. injection H as -> ->.
  rewrite (probe_insert _ (token_match hash) _ _ _ _ _ _ _ (Some (revoke_token e)) Ep); [done..|].
  destruct (probe_found _ _ _ _ _ _ _ Ep) as (e1 & _ & He1). unfold token_match in *.
  destruct (is_empty (token_hash e1)) eqn:E1; [done|]. destruct (same _ hash) eqn:E2; [|done].
  injection He1 as <-. cbn. by rewrite E1, E2.
Qed.

(** Clearing an expired entry hides the tokens that collided with it. *)
Lemma cleanup_hides_token now hash s e :
  token_cache s !! Z.to_nat (orochi_auth_cache_hash_slot hash) = Some e → token_expired now e = true →
  orochi_auth_cache_lookup hash (orochi_auth_cleanup_expired_tokens now s) = None.
Proof.
  intros He Hx. unfold orochi_auth_cache_lookup. cbn [token_cache with_tokens orochi_auth_cleanup_expired_tokens probe].
  rewrite list_lookup_fmap, He. cbn [fmap option_fmap option_map]. by rewrite Hx.
Qed.

(** No session is found under a name longer than the array that holds it; the text of a UUID
    has 36 characters. *)
Lemma long_session_not_found id s :
  OROCHI_AUTH_SESSION_ID_SIZE < len id →
  Forall (λ e, len (session_id e) <= OROCHI_AUTH_SESSION_ID_SIZE) (session_cache s) →
  orochi_auth_session_cache_lookup id s = None.
Proof.
  intros Hid Hl. unfold orochi_auth_session_cache_lookup. destruct (is_empty id); [done|].
  destruct (probe _ _ _ _ _) as [[slot [e|]]|] eqn:E; try done. exfalso.
  destruct (probe_found _ _ _ _ _ _ _ E) as (e0 & He0 & Hm). unfold session_match in Hm.
  destruct (is_empty (session_id e0)); [done|]. destruct (same _ _) eqn:Es; [|done].
  unfold same in Es. apply bool_decide_eq_true in Es. rewrite Forall_forall in Hl.
  apply list_elem_of_lookup_2 in He0. specialize (Hl _ He0). cbn in Hl. rewrite Es in Hl. lia.
Qed.

(** ** Rate limits let the limit through *)

(** Requests, and the answers to those of a key and an action. *)
Record Request := { r_time : Z; r_key : text; r_action : text; r_limit : Z }.

Definition concerns (k action : text) (r : Request) : bool :=
  bool_decide (r_key r = k) && bool_decide (r_action r = action).

Fixpoint answers (cfg : AuthSettings) (k action : text) (l : list Request) (s : OrochiAuthCache) : list bool :=
  match l with
  | [] => []
  | r :: l =>
      let '(b, s) := orochi_auth_check_rate_limit cfg (r_time r) (r_key r) (r_action r) (r_limit r) s in
      if concerns k action r then b :: answers cfg k action l s else answers cfg k action l s
  end.

(** The window that a request opens: the key has no entry and a slot is free, or the window of
    its entry is over and the entry is not blocked any more.  A tracked key keeps the limit and
    the length that its first request gave it. *)
Record Window := { w_name : text; w_limit : Z; w_seconds : Z }.

Definition window_over (now : Z) (e : OrochiRateLimit) : bool :=
  negb (is_blocked e && (now <? blocked_until e)) && (i64 (window_start e + window_seconds e * SEC) <? now).

Definition opened_window (cfg : AuthSettings) (now : Z) (k action : text) (lim : Z) (s : OrochiAuthCache) : option Window :=
  match probe (rate_match k) OROCHI_AUTH_MAX_RATE_LIMITS (rate_limits s) 8 (orochi_auth_rate_limit_hash k action) with
  | Some (_, None) => Some {| w_name := rate_name k action; w_limit := lim; w_seconds := rate_limit_window cfg |}
  | Some (_, Some e) =>
      if window_over now e then Some {| w_name := key e; w_limit := limit e; w_seconds := window_seconds e |} else None
  | None => None
  end.

(** The requests that the window says something of: those of the key while it lasts, and any
    of keys that its entry does not begin with. *)
Definition in_window (k action : text) (start : Z) (w : Window) (r : Request) : Prop :=
  if concerns k action r then start <= r_time r <= start + w_seconds w * SEC
  else prefix_of (r_key r) (w_name w) = false.

(** The first [n] of [m] are let through. *)
Definition first_allowed (n m : nat) : list bool := replicate (Nat.min n m) true ++ replicate (m - n) false.

Lemma first_allowed_S n m : first_allowed (S n) (S m) = true :: first_allowed n m.
Proof. done. Qed.
Lemma first_allowed_0 m : first_allowed 0 (S m) = false :: first_allowed 0 m.
Proof. unfold first_allowed. cbn. by rewrite Nat.sub_0_r. Qed.

(** An entry within its window, of which [count] requests were let through; only a full one is
    blocked. *)
Record window_entry (k : text) (lim start window : Z) (e : OrochiRateLimit) : Prop := {
  we_key : key e ≠ [] ∧ prefix_of k (key e) = true;
  we_limit : limit e = lim;
  we_start : window_start e = start;
  we_window : window_seconds e = window;
  we_count : 0 <= count e <= lim;
  we_blocked : is_blocked e = true → count e = lim }.

Lemma rate_step_window k lim start window e t :
  window_entry k lim start window e → start <= t <= start + window * SEC →
  in_i 64 (start + window * SEC) →
  ∃ e' failed, rate_step t e = (count e <? lim, e', failed) ∧ window_entry k lim start window e' ∧
               count e' = (if count e <? lim then count e + 1 else count e) ∧ key e' = key e.
Proof.
  intros [Hk Hl Hs Hw Hc Hb] Ht Hr. unfold rate_step. rewrite Hs, Hw.
  rewrite (swrap_id 64 (start + window * SEC)) by (done || lia).
  replace (start + window * SEC <? t) with false by lia. rewrite Hl.
  destruct (is_blocked e && (t <? blocked_until e)) eqn:E1.
  - apply andb_true_iff in E1 as [E1 _]. specialize (Hb E1). exists e, false.
    replace (count e <? lim) with false by lia. split; [done|]. split; [|done]. by split.
  - destruct (lim <=? count e) eqn:E2.
    + replace (count e <? lim) with false by lia. do 2 eexists. split; [done|].
      split; [|done]. split; try done. cbn. lia.
    + replace (count e <? lim) with true by lia. do 2 eexists. split; [done|].
      split; [|done]. split; try done; cbn; [lia|]. intros Hbl. specialize (Hb Hbl). lia.
Qed.

Lemma rate_match_entry k lim start window e :
  window_entry k lim start window e → rate_match k e = Some (Some e).
Proof.
  intros [[Hne Hp] _ _ _ _ _]. unfold rate_match. rewrite is_empty_false by done. by rewrite Hp.
Qed.

(** A request with a key that the entry does not begin with leaves the search as it is. *)
Lemma other_request cfg r k h slot e s :
  probe (rate_match k) OROCHI_AUTH_MAX_RATE_LIMITS (rate_limits s) 8 h = Some (slot, Some e) →
  key e ≠ [] → prefix_of (r_key r) (key e) = false →
  probe (rate_match k) OROCHI_AUTH_MAX_RATE_LIMITS
    (rate_limits (orochi_auth_check_rate_limit cfg (r_time r) (r_key r) (r_action r) (r_limit r) s).2) 8 h =
  Some (slot, Some e).
Proof.
  intros Hp Hne Hk. unfold orochi_auth_check_rate_limit. destruct (negb _); [done|].
  destruct (probe_found _ _ _ _ _ _ _ Hp) as (e0 & He0 & Hm0).
  assert (e0 = e) as ->.
  { unfold rate_match in Hm0. repeat destruct_if_hyp; congruence. }
  destruct (probe (rate_match (r_key r)) _ _ _ _) as [[slot' [x|]]|] eqn:Ex; [| |done].
  all: destruct (probe_found _ _ _ _ _ _ _ Ex) as (x0 & Hx0 & Hmx).
  all: assert (Hs : Z.to_nat slot' ≠ Z.to_nat slot)
    by (intros E0; rewrite E0, He0 in Hx0; injection Hx0 as <-; unfold rate_match in Hmx;
        rewrite is_empty_false, Hk in Hmx by done; done).
  - assert (x0 = x) as ->.
    { unfold rate_match in Hmx. repeat destruct_if_hyp; congruence. }
    destruct (rate_step (r_time r) x) as [[ok y] failed] eqn:Ey. cbn [snd rate_limits with_rates].
    eapply probe_insert_other; [done..|].
    assert (key y = key x) as Hy. { unfold rate_step in Ey. cbn zeta in Ey. repeat destruct_if_hyp; by simplify_eq. }
    unfold rate_match. rewrite Hy. by repeat destruct_if.
  - cbn [snd rate_limits with_rates]. eapply probe_insert_other; [done..|]. intros E0. exfalso.
    unfold rate_match in E0, Hmx. repeat destruct_if_hyp; congruence.
Qed.

Definition own (k action : text) (l : list Request) : nat := length (filter (λ r, concerns k action r = true) l).

Lemma answers_window cfg k action start w slot rest s e :
  rate_limit_enabled cfg = true → in_i 64 (start + w_seconds w * SEC) →
  Forall (in_window k action start w) rest →
  probe (rate_match k) OROCHI_AUTH_MAX_RATE_LIMITS (rate_limits s) 8
    (orochi_auth_rate_limit_hash k action) = Some (slot, Some e) →
  window_entry k (w_limit w) start (w_seconds w) e → key e = w_name w →
  answers cfg k action rest s = first_allowed (Z.to_nat (w_limit w - count e)) (own k action rest).
Proof.
  intros Hen Hr. revert s e. induction rest as [|r rest IH]; intros s e Ht Hp He Hn.
  - unfold first_allowed, own. by rewrite Nat.min_0_r.
  - apply Forall_cons in Ht as [Ht Hts]. cbn [answers]. unfold in_window in Ht. unfold own. rewrite filter_cons.
    destruct (concerns k action r) eqn:Ec; [rewrite decide_True by done|rewrite decide_False by done].
    + unfold concerns in Ec. apply andb_true_iff in Ec as [->%bool_decide_eq_true ->%bool_decide_eq_true].
      unfold orochi_auth_check_rate_limit at 1. rewrite Hen. cbn [negb]. rewrite Hp.
      destruct (rate_step_window _ _ _ _ _ _ He Ht Hr) as (e' & failed & Hs & He' & Hc & Hke). rewrite Hs.
      erewrite IH; [|done| |exact He'|congruence].
      2: { eapply probe_insert; [exact Hp|done|by eapply rate_match_entry]. }
      rewrite Hc. fold (own k action rest). cbn [length]. fold (own k action rest).
      pose proof (we_count _ _ _ _ _ He) as Hce. destruct (count e <? w_limit w) eqn:E1.
      * replace (Z.to_nat (w_limit w - count e)) with (S (Z.to_nat (w_limit w - (count e + 1)))) by lia. done.
      * replace (Z.to_nat (w_limit w - count e)) with 0%nat by lia. by rewrite first_allowed_0.
    + rewrite <- Hn in Ht. pose proof (other_request cfg r k _ slot e s Hp (proj1 (we_key _ _ _ _ _ He)) Ht) as Hp'.
      destruct (orochi_auth_check_rate_limit _ _ _ _ _ s) as [b s']. by apply IH.
Qed.

Lemma prefix_of_app k t : prefix_of k (k ++ t) = true.
Proof. unfold prefix_of. rewrite take_app_length. by apply bool_decide_eq_true. Qed.

Lemma new_entry cfg k action lim start :
  1 <= lim → len k < OROCHI_AUTH_RATE_LIMIT_KEY_SIZE →
  window_entry k lim start (rate_limit_window cfg) (new_rate cfg start k action lim).
Proof.
  intros Hl Hk. unfold OROCHI_AUTH_RATE_LIMIT_KEY_SIZE in Hk.
  assert (Hkey : rate_name k action = k ++ take (256 - length k) (char 58 :: action)).
  { unfold rate_name, strlcpy. by rewrite take_app_ge by (unfold OROCHI_AUTH_RATE_LIMIT_KEY_SIZE; lia). }
  split; [|done|done|done|cbn; lia|done]. cbn [key new_rate]. rewrite Hkey. split; [|apply prefix_of_app].
  destruct (256 - length k)%nat eqn:E0; [lia|].
  cbn. intros E1. by apply app_eq_nil in E1 as [_ ?].
Qed.

(** The request that opens a window is let through and leaves an entry with one request. *)
Lemma opening_request cfg k action lim start s w :
  rate_limit_enabled cfg = true → len k < OROCHI_AUTH_RATE_LIMIT_KEY_SIZE →
  opened_window cfg start k action lim s = Some w → 1 <= w_limit w →
  ∃ slot e s', orochi_auth_check_rate_limit cfg start k action lim s = (true, s') ∧
    probe (rate_match k) OROCHI_AUTH_MAX_RATE_LIMITS (rate_limits s') 8
      (orochi_auth_rate_limit_hash k action) = Some (slot, Some e) ∧
    window_entry k (w_limit w) start (w_seconds w) e ∧ key e = w_name w ∧ count e = 1.
Proof.
  intros Hen Hk Ho Hl. unfold opened_window in Ho. unfold orochi_auth_check_rate_limit. rewrite Hen. cbn [negb].
  destruct (probe _ _ _ _ _) as [[slot [e|]]|] eqn:Ep; [| |done].
  - destruct (window_over start e) eqn:Eo; [|done]. injection Ho as <-. cbn in Hl. cbn [w_limit w_seconds w_name].
    unfold window_over in Eo. apply andb_true_iff in Eo as [E1%negb_true_iff E2].
    unfold rate_step. rewrite E1, E2. do 3 eexists. split; [done|].
    destruct (probe_found _ _ _ _ _ _ _ Ep) as (e0 & He0 & Hm). unfold rate_match in Hm.
    destruct (is_empty (key e0)) eqn:Ee; [done|]. destruct (prefix_of k (key e0)) eqn:Epr; [|done].
    injection Hm as ->.
    assert (Hne : key e ≠ []) by (by intros E0; rewrite E0 in Ee).
    split; [|split].
    + cbn [rate_limits with_rates]. eapply probe_insert; [exact Ep|done|]. unfold rate_match. cbn [key].
      by rewrite Ee, Epr.
    + split; [by split|done|done|done|cbn; lia|done].
    + done.
  - injection Ho as <-. cbn [w_limit] in Hl. cbn [w_limit w_seconds w_name].
    pose proof (new_entry cfg k action lim start Hl Hk) as He.
    exists slot, (new_rate cfg start k action lim). eexists. split; [done|]. split; [|done].
    cbn [rate_limits with_rates]. eapply probe_insert; [exact Ep|done|by eapply rate_match_entry].
Qed.

(** C37: When a request opens a window, because its key is new and has a free slot or because
    the window of its entry is over and it is not blocked, then of the requests with the same
    key and action that come while the window lasts exactly as many are allowed as the limit
    of the entry says, the first ones, whatever requests come between them with keys that the
    entry does not begin with. *)
Theorem rate_limit_window_exact cfg k action lim start rest s w :
  rate_limit_enabled cfg = true → len k < OROCHI_AUTH_RATE_LIMIT_KEY_SIZE →
  opened_window cfg start k action lim s = Some w → 1 <= w_limit w →
  in_i 64 (start + w_seconds w * SEC) →
  Forall (in_window k action start w) rest →
  answers cfg k action ({| r_time := start; r_key := k; r_action := action; r_limit := lim |} :: rest) s =
  first_allowed (Z.to_nat (w_limit w)) (S (own k action rest)).
Proof.
  intros Hen Hk Ho Hl Hr Ht. cbn [answers r_time r_key r_action r_limit].
  destruct (opening_request _ _ _ _ _ _ _ Hen Hk Ho Hl) as (slot & e & s' & -> & Hp & He & Hn & Hc).
  unfold concerns. cbn [r_key r_action]. rewrite !bool_decide_true by done. cbn [andb].
  rewrite (answers_window cfg k action start w slot rest s' e) by done. rewrite Hc.
  by replace (Z.to_nat (w_limit w)) with (S (Z.to_nat (w_limit w - 1))) by lia.
Qed.

Definition minute : AuthSettings :=
  {| max_sessions_per_user := 0; rate_limit_enabled := true; rate_limit_window := 60; key_rotation_days := 1 |}.
Definition request (t : Z) (k : text) : Request := {| r_time := t; r_key := k; r_action := []; r_limit := 2 |}.
Definition full_entry : OrochiRateLimit :=
  {| key := [char 1; char 58]; count := 2; limit := 2; window_start := 0; window_seconds := 60;
     is_blocked := true; blocked_until := 60000050 |}.

Lemma rate_limit_window_exact_witness :
  answers minute [char 1] [] [request 100 [char 1]; request 150 [char 2]; request 200 [char 1]; request 300 [char 1]]
    (small_cache [] [] (replicate 40 empty_rate)) = [true; true; false] ∧
  answers minute [char 1] [] [request 60000100 [char 1]; request 60000150 [char 2]; request 60000200 [char 1];
                              request 120000100 [char 1]]
    (small_cache [] [] (<[17%nat := full_entry]> (replicate 40 empty_rate))) = [true; true; false].
Proof.
  split.
  - apply (rate_limit_window_exact minute [char 1] [] 2 100
             [request 150 [char 2]; request 200 [char 1]; request 300 [char 1]] _
             {| w_name := rate_name [char 1] []; w_limit := 2; w_seconds := 60 |}); [done|done|by vm_compute|done|by vm_compute|].
    repeat constructor; by vm_compute.
  - apply (rate_limit_window_exact minute [char 1] [] 2 60000100
             [request 60000150 [char 2]; request 60000200 [char 1]; request 120000100 [char 1]] _
             {| w_name := [char 1; char 58]; w_limit := 2; w_seconds := 60 |}); [done|done|by vm_compute|done|by vm_compute|].
    repeat constructor; by vm_compute.
Defined.

(** The worker that removes the entries of past windows may free a slot before the one of a
    key, which then begins anew: of three requests with a limit of two within one window all
    are let through. *)
Example cleanup_lets_more_through :
  let old := {| key := [char 9]; count := 1; limit := 2; window_start := 0; window_seconds := 60;
                is_blocked := false; blocked_until := 0 |} in
  let s := small_cache [] [] (<[17%nat := old]> (replicate 40 empty_rate)) in
  let check t s := orochi_auth_check_rate_limit minute t [char 1] [] 2 s in
  let '(b1, s) := check 119000000 s in
  let '(b2, s) := check 119000001 s in
  let '(b3, s) := check 121000000 (orochi_auth_cleanup_rate_limits 120000001 s) in
  (b1, b2, b3) = (true, true, true).
Proof. by vm_compute. Qed.

(** When eight slots are taken by other keys there is no limit. *)
Lemma crowded_key_unlimited cfg t k action lim s :
  probe (rate_match k) OROCHI_AUTH_MAX_RATE_LIMITS (rate_limits s) 8
    (orochi_auth_rate_limit_hash k action) = None →
  orochi_auth_check_rate_limit cfg t k action lim s = (true, s).
Proof. intros H. unfold orochi_auth_check_rate_limit. rewrite H. by destruct (rate_limit_enabled cfg). Qed.

(** ** Sessions over the limit are revoked *)

(** The search gives the active session of the user that was used longest ago, when there is
    one used before the start. *)
Lemma oldest_spec user l j best :
  oldest user l j best = best.2 ∧ (∀ e, e ∈ l → active_of user e = true → best.1 <= last_activity e) ∨
  ∃ i e, l !! i = Some e ∧ active_of user e = true ∧ oldest user l j best = Some (j + i)%nat ∧
         last_activity e <= best.1 ∧ (∀ x, x ∈ l → active_of user x = true → last_activity e <= last_activity x).
Proof.
  revert j best. induction l as [|e l IH]; intros j best.
  - left. split; [done|]. by intros e ?%not_elem_of_nil.
  - cbn [oldest]. destruct (active_of user e && (last_activity e <? best.1)) eqn:E0.
    + apply andb_true_iff in E0 as [Ha Ht]. right.
      destruct (IH (S j) (last_activity e, Some j)) as [[Ho Hb]|(i & x & Hi & Hx & Ho & Hb & Hmin)].
      * exists 0%nat, e. repeat (split; [done|]). split; [rewrite Ho; cbn; by rewrite Nat.add_0_r|].
        split; [lia|]. intros x [->|Hin]%elem_of_cons Hax; [lia|by apply Hb].
      * exists (S i), x. repeat (split; [done|]). split; [rewrite Ho; f_equal; lia|]. cbn in Hb.
        split; [lia|]. intros y [->|Hin]%elem_of_cons Hay; [lia|by apply Hmin].
    + destruct (IH (S j) best) as [[Ho Hb]|(i & x & Hi & Hx & Ho & Hb & Hmin)].
      * left. split; [done|]. intros x [->|Hx]%elem_of_cons Ha; [|by apply Hb].
        rewrite Ha in E0. cbn in E0. lia.
      * right. exists (S i), x. repeat (split; [done|]). split; [rewrite Ho; f_equal; lia|].
        split; [done|]. intros y [->|Hin]%elem_of_cons Hay; [|by apply Hmin].
        rewrite Hay in E0. cbn in E0. lia.
Qed.

Definition active_count (user : text) (c : nat) (l : list OrochiSession) : Z := count_if (active_of user) (take c l).

Definition used_before_end (l : list OrochiSession) : Prop := Forall (λ e, last_activity e < DT_NOEND) l.

(** Revoking the session at a place, for every user. *)
Lemma revoke_at_count user u j c l e :
  (j < c)%nat → l !! j = Some e → active_of user e = true →
  active_count u c (revoke_at j l) = active_count u c l - Z.b2z (same u user).
Proof.
  intros Hj He Ha. unfold active_count, revoke_at. rewrite He, take_insert_lt by done.
  rewrite (count_if_insert _ _ _ _ e) by (by rewrite lookup_take_lt).
  change (active_of u (in_state OROCHI_SESSION_REVOKED e)) with false. cbn [Z.b2z].
  enough (active_of u e = same u user) as -> by lia.
  unfold active_of in *. apply andb_true_iff in Ha as [-> Hu]. cbn [andb].
  unfold same in *. apply bool_decide_eq_true in Hu. rewrite Hu. apply bool_decide_ext.
  split; congruence.
Qed.

Lemma revoke_at_used j l : used_before_end l → used_before_end (revoke_at j l).
Proof.
  unfold used_before_end, revoke_at. intros H. destruct (l !! j) as [e|] eqn:E; [|done].
  apply Forall_insert; [done|]. cbn. rewrite Forall_forall in H. apply (H e). by eapply list_elem_of_lookup_2.
Qed.

Lemma revoke_oldest_used n user c l : used_before_end l → used_before_end (revoke_oldest n user c l).
Proof.
  revert l. induction n as [|n IH]; intros l H; [done|]. cbn. apply IH.
  case_match; [by apply revoke_at_used|done].
Qed.

Lemma revoke_oldest_count n user c l u :
  used_before_end l → Z.of_nat n <= active_count user c l →
  active_count u c (revoke_oldest n user c l) = active_count u c l - (if same u user then Z.of_nat n else 0).
Proof.
  revert l. induction n as [|n IH]; intros l Hl Hn; [cbn; destruct (same u user); lia|].
  cbn [revoke_oldest].
  destruct (oldest_spec user (take c l) 0 (DT_NOEND, None)) as [[Ho Hb]|(j & e & He & Ha & Ho & _)]; rewrite Ho.
  - exfalso. cbn in Hb. enough (active_count user c l = 0) by lia.
    unfold active_count, count_if. rewrite filter_none; [done|]. intros x Hx Ha.
    specialize (Hb x Hx Ha). unfold used_before_end in Hl. rewrite Forall_forall in Hl.
    assert (Hin : x ∈ l) by (by eapply elem_of_take in Hx as (i & Hi & _); apply list_elem_of_lookup_2 in Hi).
    specialize (Hl x Hin). cbn in Hl. lia.
  - cbn [Nat.add]. assert (Hj : (j < c)%nat) by (apply lookup_lt_Some in He; rewrite length_take in He; lia).
    rewrite lookup_take_lt in He by done.
    assert (Hc := revoke_at_count user user j c l e Hj He Ha). rewrite same_refl in Hc. cbn [Z.b2z] in Hc.
    rewrite IH by (by apply revoke_at_used || lia). rewrite (revoke_at_count user u j c l e) by done.
    destruct (same u user); cbn [Z.b2z]; lia.
Qed.

(** A session that is active afterwards was so before. *)
Lemma revoke_at_active u j i l e :
  revoke_at j l !! i = Some e → active_of u e = true → l !! i = Some e.
Proof.
  unfold revoke_at. intros H Ha. destruct (l !! j) as [x|] eqn:E; [|done].
  destruct (decide (i = j)) as [->|Hij]; [|by rewrite list_lookup_insert_ne in H].
  rewrite list_lookup_insert_eq in H by (by eapply lookup_lt_Some). by injection H as <-.
Qed.
Lemma revoke_oldest_active u n user c i l e :
  revoke_oldest n user c l !! i = Some e → active_of u e = true → l !! i = Some e.
Proof.
  revert l. induction n as [|n IH]; intros l H Ha; [done|]. cbn in H. apply IH in H; [|done].
  destruct (oldest _ _ _ _); [by eapply revoke_at_active|done].
Qed.

Lemma enforce_loop_bound n i max c l :
  0 <= max → used_before_end l → (i + n = c)%nat →
  (∀ u j e, (j < i)%nat → l !! j = Some e → active_of u e = true → active_count u c l <= max) →
  ∀ u, active_count u c (enforce_loop n i max c l) <= max.
Proof.
  intros Hm. revert i l. induction n as [|n IH]; intros i l Hl Hi Hinv u; cbn [enforce_loop].
  - destruct (decide (active_count u c l <= max)) as [|Hgt]; [done|exfalso].
    unfold active_count, count_if in Hgt.
    destruct (filter _ (take c l)) as [|e f] eqn:Ef; [cbn in Hgt; lia|].
    assert (He : e ∈ filter (λ x, active_of u x = true) (take c l)) by (rewrite Ef; by left).
    apply list_elem_of_filter in He as [Ha He]. apply list_elem_of_lookup in He as [j Hj].
    assert (Hjc : (j < c)%nat) by (apply lookup_lt_Some in Hj; rewrite length_take in Hj; lia).
    rewrite lookup_take_lt in Hj by done.
    assert (active_count u c l <= max) by (apply (Hinv u j e); [lia|done|done]).
    unfold active_count, count_if in *. rewrite Ef in *. lia.
  - destruct (l !! i) as [e|] eqn:Ee.
    2: { apply IH; [done|lia|]. intros u0 j x Hj Hx Hax. apply (Hinv u0 j x); [|done|done].
         assert (j ≠ i) by congruence. lia. }
    destruct (bool_decide (state e = OROCHI_SESSION_ACTIVE)) eqn:Est; cbn [negb].
    2: { apply IH; [done|lia|]. intros u0 j x Hj Hx Hax. apply (Hinv u0 j x); [|done|done].
         assert (j ≠ i); [|lia]. intros ->. rewrite Ee in Hx. injection Hx as <-.
         unfold active_of in Hax. by rewrite Est in Hax. }
    fold (active_count (user_id e) c l). set (k := Z.to_nat (active_count (user_id e) c l - max)).
    pose proof (count_if_range (active_of (user_id e)) (take c l)) as Hrange.
    fold (active_count (user_id e) c l) in Hrange.
    assert (Hk : ∀ u0, active_count u0 c (revoke_oldest k (user_id e) c l)
                       = active_count u0 c l - (if same u0 (user_id e) then Z.of_nat k else 0)).
    { intros u0. apply revoke_oldest_count; [done|]. unfold k. lia. }
    apply IH; [by apply revoke_oldest_used|lia|]. intros u0 j x Hj Hx Hax.
    rewrite Hk. destruct (same u0 (user_id e)) eqn:Eu.
    + unfold same in Eu. apply bool_decide_eq_true in Eu as ->. unfold k. lia.
    + apply revoke_oldest_active with (u := u0) in Hx; [|done].
      enough (active_count u0 c l <= max) by lia. apply (Hinv u0 j x); [|done|done].
      assert (j ≠ i); [|lia]. intros ->. rewrite Ee in Hx. injection Hx as <-.
      unfold active_of in Hax. rewrite Est in Hax. cbn in Hax. unfold same in Hax, Eu.
      apply bool_decide_eq_true in Hax. rewrite Hax in Eu. by rewrite bool_decide_true in Eu.
Qed.

(** What a pass over the entries does is what revocations of the oldest session do. *)
Section each_revocation.
Context (Q : list OrochiSession → list OrochiSession → Prop) (c : nat).
Hypothesis Q_refl : ∀ l, Q l l.
Hypothesis Q_revoke : ∀ l0 l user j e,
  Q l0 l → (j < c)%nat → l !! j = Some e → active_of user e = true →
  (∀ x, x ∈ take c l → active_of user x = true → last_activity e <= last_activity x) → Q l0 (revoke_at j l).

Lemma each_revoke_oldest n user l0 l : Q l0 l → Q l0 (revoke_oldest n user c l).
Proof.
  revert l. induction n as [|n IH]; intros l Hl; [done|]. cbn [revoke_oldest]. apply IH.
  destruct (oldest_spec user (take c l) 0 (DT_NOEND, None)) as [[-> _]|(j & e & He & Ha & -> & _ & Hmin)]; [done|].
  cbn [Nat.add]. assert (Hj : (j < c)%nat) by (apply lookup_lt_Some in He; rewrite length_take in He; lia).
  rewrite lookup_take_lt in He by done. by eapply Q_revoke.
Qed.

Lemma each_enforce_loop n i max l : Q l (enforce_loop n i max c l).
Proof.
  assert (∀ l0, Q l0 l → Q l0 (enforce_loop n i max c l)) as H; [|by apply H].
  revert i l. induction n as [|n IH]; intros i l l0 Hl; [done|]. cbn [enforce_loop]. apply IH.
  destruct (l !! i) as [e|]; [|done]. destruct (negb _); [done|]. by apply each_revoke_oldest.
Qed.
End each_revocation.

(** No session of the user that is still active was used before one that was revoked. *)
Definition oldest_went (user : text) (c : nat) (l0 l : list OrochiSession) : Prop :=
  ∀ i j e x, (i < c)%nat → l !! i = Some e → active_of user e = true →
             l0 !! j = Some x → active_of user x = true → l !! j ≠ Some x → last_activity x <= last_activity e.

#[local] Instance session_eq_dec : EqDecision OrochiSession.
Proof. solve_decision. Defined.

Lemma enforce_oldest_went user c n i max l : oldest_went user c l (enforce_loop n i max c l).
Proof.
  apply each_enforce_loop; unfold oldest_went; [by intros; congruence|].
  intros l0 l1 user' j0 e0 Hl Hj0 He0 Ha0 Hmin i' j e x Hi He Ha Hx Hax Hne.
  apply (revoke_at_active user) in He; [|done].
  destruct (decide (l1 !! j = Some x)) as [Hj|Hj]; [|by eapply Hl].
  unfold revoke_at in Hne. rewrite He0 in Hne.
  destruct (decide (j = j0)) as [->|Hjj]; [|by rewrite list_lookup_insert_ne in Hne].
  assert (x = e0) as -> by congruence. apply Hmin.
  - apply list_elem_of_lookup. exists i'. by rewrite lookup_take_lt.
  - unfold active_of in *. apply andb_true_iff in Ha0 as [_ Hu0], Ha as [-> Hu], Hax as [_ Hux].
    unfold same in *. rewrite bool_decide_eq_true in Hu0, Hu, Hux. rewrite bool_decide_eq_true_2; [done|congruence].
Qed.

Lemma enforce_keeps_behind c n i max l : drop c (enforce_loop n i max c l) = drop c l.
Proof.
  symmetry. apply (each_enforce_loop (λ l0 l, drop c l0 = drop c l) c); [done|].
  intros l0 l1 user j e -> Hj He _ _. unfold revoke_at. rewrite He. symmetry. by apply drop_insert_lt.
Qed.

Lemma enforce_loop_keeps n i max c l u :
  0 <= max → used_before_end l →
  Z.min max (active_count u c l) <= active_count u c (enforce_loop n i max c l) <= active_count u c l.
Proof.
  intros Hm. revert i l. induction n as [|n IH]; intros i l Hl; cbn [enforce_loop]; [lia|].
  destruct (l !! i) as [e|]; [|by apply IH]. destruct (negb _); [by apply IH|].
  fold (active_count (user_id e) c l). set (k := Z.to_nat (active_count (user_id e) c l - max)).
  pose proof (count_if_range (active_of (user_id e)) (take c l)) as Hrange.
  fold (active_count (user_id e) c l) in Hrange.
  assert (Hc := revoke_oldest_count k (user_id e) c l u Hl ltac:(unfold k; lia)).
  specialize (IH (S i) (revoke_oldest k (user_id e) c l) (revoke_oldest_used _ _ _ _ Hl)).
  destruct (same u (user_id e)) eqn:Eu; [|lia].
  unfold same in Eu. apply bool_decide_eq_true in Eu as ->. unfold k in *. lia.
Qed.

(** C38: Enforcing a positive limit revokes of each user's active sessions among the first
    [session_cache_count] slots the oldest ones, until as many are left as the limit says, and
    leaves those in the slots behind as they are, neither counted nor revoked: over the whole
    cache the user keeps the smaller of the limit and the first number, and the sessions
    behind on top of it. *)
Theorem session_limit_enforced cfg s user :
  0 < max_sessions_per_user cfg → used_before_end (session_cache s) →
  let c := Z.to_nat (session_cache_count s) in
  let l := session_cache s in
  let l' := session_cache (orochi_auth_enforce_session_limits cfg s) in
  count_if (active_of user) l' =
    Z.min (max_sessions_per_user cfg) (count_if (active_of user) (take c l)) + count_if (active_of user) (drop c l) ∧
  oldest_went user c l l' ∧ drop c l' = drop c l.
Proof.
  intros Hm Hu c l l'. unfold l', orochi_auth_enforce_session_limits.
  replace (max_sessions_per_user cfg <=? 0) with false by lia. cbn [session_cache with_sessions]. fold c l.
  split; [|split; [apply enforce_oldest_went|apply enforce_keeps_behind]].
  rewrite <- (take_drop c (enforce_loop _ _ _ _ _)), count_if_app, enforce_keeps_behind. f_equal.
  pose proof (enforce_loop_keeps c 0 (max_sessions_per_user cfg) c l user ltac:(lia) Hu).
  pose proof (enforce_loop_bound c 0 (max_sessions_per_user cfg) c l ltac:(lia) Hu ltac:(done)
                ltac:(intros; lia) user).
  unfold active_count in *. lia.
Qed.

Definition session_of (id t : Z) : OrochiSession :=
  {| session_id := [char id]; user_id := [char 7]; tenant_id := []; state := OROCHI_SESSION_ACTIVE; auth_method := 0;
     ip_address := []; user_agent := []; device_id := []; geo_country := []; geo_city := []; created_at := 0;
     last_activity := t; expires_at := 9; refresh_count := 0; mfa_verified := false; s_aal := []; hash_slot := 0 |}.

(** Four sessions of a user are stored at their hashes, one of them behind the first four slots. *)
Definition cached_sessions : OrochiAuthCache :=
  fold_left (λ s x, orochi_auth_cache_session x s) [session_of 3 3; session_of 1 1; session_of 2 2; session_of 7 4]
    (with_sessions 0 0 (empty_session <$> seq 0 10) 0 (small_cache [] [] [])).

Lemma session_limit_enforced_witness :
  let one := {| max_sessions_per_user := 1; rate_limit_enabled := true; rate_limit_window := 60; key_rotation_days := 1 |} in
  let l := session_cache cached_sessions in
  let l' := session_cache (orochi_auth_enforce_session_limits one cached_sessions) in
  count_if (active_of [char 7]) l' = Z.min 1 (count_if (active_of [char 7]) (take 4 l)) + count_if (active_of [char 7]) (drop 4 l) ∧
  oldest_went [char 7] 4 l l' ∧ drop 4 l' = drop 4 l.
Proof.
  apply (session_limit_enforced {| max_sessions_per_user := 1; rate_limit_enabled := true;
           rate_limit_window := 60; key_rotation_days := 1 |} cached_sessions [char 7]).
  - done.
  - apply (bool_decide_unpack _). by vm_compute.
Defined.

(** Two of them are revoked and two are left where one is allowed. *)
Example user_keeps_more_than_limit :
  let one := {| max_sessions_per_user := 1; rate_limit_enabled := true; rate_limit_window := 60; key_rotation_days := 1 |} in
  (count_if (active_of [char 7]) (session_cache cached_sessions),
   count_if (active_of [char 7]) (session_cache (orochi_auth_enforce_session_limits one cached_sessions))) = (4, 2).
Proof. by vm_compute. Qed.

(** ** Keys and revocations *)

(** Without a tenant, the key of any tenant is returned. *)
Lemma null_tenant_takes_any_key s k :
  head (filter (λ k, is_active k && is_current k = true) (live_keys s)) = Some k →
  orochi_auth_get_signing_key None s = Some k.
Proof.
  intros H. unfold orochi_auth_get_signing_key. rewrite <- H. f_equal. apply list_filter_iff.
  intros x. unfold key_for_tenant. by rewrite andb_true_r.
Qed.

(** When no key is active any more, the cache keeps those it has. *)
Lemma refresh_keeps_revoked_keys now rows s :
  Forall (λ r, r_is_active r = false) rows → orochi_auth_refresh_signing_key_cache now rows s = s.
Proof.
  intros H. unfold orochi_auth_refresh_signing_key_cache. rewrite filter_none; [done|].
  rewrite Forall_forall in H. intros r Hr Ht. specialize (H r Hr). cbn in H. congruence.
Qed.

(** The queue of revocations never revokes anything: both bounds of its time window are
    written into the statement as the same timestamp. *)
Theorem revocation_queue_does_nothing `{B : TimestampBuffer} now sessions keys last s :
  (orochi_auth_process_revocation_queue now sessions keys (last, s)).2 = s.
Proof.
  unfold orochi_auth_process_revocation_queue. destruct (_ <? SEC); [done|].
  assert (Hb : ∀ a t, between a a t = false).
  { intros a [t|]; [|done]. cbn. destruct (a <? t) eqn:E1, (t <=? a) eqn:E2; lia || done. }
  rewrite (filter_none _ sessions), (filter_none _ keys); [done|..].
  - intros r _ [_ Hr]. by rewrite Hb in Hr.
  - intros r _ Hr. by rewrite Hb in Hr.
Qed.
