(* ===== verification/S3.v ===== *)
(** * The client of the object store

    The S3 client of [tiered/tiered_storage.c] and the uploads in parts of
    [tiered/s3_multipart.c], built with libcurl.  Every function sends requests; what is
    answered is the interface [Http], which is given all requests sent before.  A trace of
    requests and answers that the service may show, [trace], is the contract the uploads are
    proved against. *)
From Stdlib Require Import Sorted.
From stdpp Require Import sets gmap pretty.
From S2P Require Import Prelude CText.

Local Open Scope Z_scope.

Definition NL : Ascii.ascii := char 10.
Definition CR : Ascii.ascii := char 13.
Definition QUOTE : Ascii.ascii := char 34.
Definition QUERY : Ascii.ascii := char 63.

(** [snprintf] into an array of [n] characters. *)
Definition snprintf (n : Z) (t : text) : text := take (Z.to_nat (n - 1)) t.
(** [%s], for which PostgreSQL prints a null pointer. *)
Definition show (t : option text) : text := default (str "(null)") t.

(** [strstr]: what is in front of the first place where [s] is found, and behind [s]. *)
Fixpoint find_text (s p : text) : option (text * text) :=
  if prefix_of s p then Some ([], drop (length s) p)
  else match p with
       | [] => None
       | c :: p => match find_text s p with Some (a, b) => Some (c :: a, b) | None => None end
       end.

(** [strtoll(_, NULL, 10)] stops at the ends of its range. *)
Definition strtoll (p : text) : Z :=
  let p := skip_spaces p in
  let v := match p with
           | c :: q => if code c =? 45 then - digits 0 q
                       else if code c =? 43 then digits 0 q else digits 0 p
           | [] => 0
           end in
  Z.max INT64_MIN (Z.min INT64_MAX v).

(** ** Requests and answers *)

Record Request := { method : text; url : text; headers : list text; body : list Z }.

(** The result of the transfer, the header lines and the pieces of the body in the order of
    the callbacks. *)
Record Response := {
  curl_ok : bool; curl_strerror : text; http_code : Z; header_lines : list text;
  chunks : list (list Z) }.

Class Http := {
  curl_easy_init : list Request → bool;
  curl_easy_perform : list Request → Request → Response }.

(** SHA-256 and HMAC with it. *)
Class Sha := { SHA256 : list Z → list Z; HMAC_SHA256 : list Z → list Z → list Z }.

(** The time as [strftime] prints it, and the parsing of times by [strptime] and [timegm]. *)
Record Stamp := { date_stamp : text; amz_date : text }.
Class Times := { http_time : text → option Z; iso_time : text → option Z }.

Record S3Client := {
  endpoint : option text; bucket : option text; access_key : option text;
  secret_key : option text; region : text; use_ssl : bool; timeout_ms : Z }.

Record OrochiS3Config := {
  c_endpoint : option text; c_bucket : option text; c_access_key : option text;
  c_secret_key : option text; c_region : option text; c_use_ssl : bool; connection_timeout : Z }.

Record S3Object := {
  o_key : text; o_etag : text; o_size : Z; o_last_modified : Z; o_content_type : text;
  o_storage_class : text }.

Record S3UploadResult := {
  up_success : bool; up_etag : option text; up_error : option text; up_status : Z }.
Record S3DownloadResult := {
  down_success : bool; down_data : list Z; down_size : Z; down_error : option text; down_status : Z }.

(** ** The body of an answer *)

(** The bytes received so far, and the capacity, which leaves room for a terminator. *)
Record CurlBuffer := { data : list Z; capacity : Z }.

Definition orochi_curl_write_cb (buf : CurlBuffer) (contents : list Z) : CurlBuffer :=
  let need := len (data buf) + len contents + 1 in
  {| data := data buf ++ contents;
     capacity :=
       if capacity buf <? need
       then (if capacity buf * 2 <? need then need + 1024 else capacity buf * 2)
       else capacity buf |}.
Definition orochi_curl_write_cb_mp : CurlBuffer → list Z → CurlBuffer := orochi_curl_write_cb.

Definition received (initial : Z) (r : Response) : CurlBuffer :=
  foldl orochi_curl_write_cb {| data := []; capacity := initial |} (chunks r).

(** The buffer as a C string: of an answer without a body it is uninitialised memory. *)
Definition response_text (buf : CurlBuffer) : outcome text :=
  match data buf with [] => Undef | b => Ok (c_string b) end.

Definition in_2xx (code : Z) : bool := (200 <=? code) && (code <? 300).
Definition succeeded (r : Response) : bool := curl_ok r && in_2xx (http_code r).

(** ** Signatures *)

Definition hex_chars : text := str "0123456789abcdef".
Definition hex_char (z : Z) : Ascii.ascii := nth (Z.to_nat z) hex_chars Ascii.zero.

Definition bytes_to_hex (bytes : list Z) : text :=
  bytes ≫= λ b, [hex_char (Z.land (Z.shiftr b 4) 15); hex_char (Z.land b 15)].

(** [%02X] of a character. *)
Definition upper_hex (z : Z) : Ascii.ascii := nth (Z.to_nat z) (str "0123456789ABCDEF") Ascii.zero.

Definition plain_char (c : Ascii.ascii) : bool :=
  let z := code c in
  ((65 <=? z) && (z <=? 90)) || ((97 <=? z) && (z <=? 122)) || ((48 <=? z) && (z <=? 57)) ||
  (z =? 45) || (z =? 95) || (z =? 46) || (z =? 126).

Fixpoint url_encode (t : text) : text :=
  match t with
  | [] => []
  | c :: t =>
      (if plain_char c then [c]
       else if code c =? 47 then [c]
       else [char 37; upper_hex (code c / 16); upper_hex (code c mod 16)]) ++ url_encode t
  end.

Section client.
Context `{X : Sha}.

Definition sha256_hash : list Z → list Z := SHA256.
Definition hmac_sha256 : list Z → list Z → list Z := HMAC_SHA256.

Definition canonical_request (c : S3Client) (meth uri query payload_hash date : text) : text :=
  meth ++ NL :: url_encode uri ++ NL :: query ++ NL :: str "host:" ++ show (endpoint c) ++ NL ::
  str "x-amz-content-sha256:" ++ payload_hash ++ NL :: str "x-amz-date:" ++ date ++ NL :: NL ::
  str "host;x-amz-content-sha256;x-amz-date" ++ NL :: payload_hash.

Definition credential_scope (c : S3Client) (now : Stamp) : text :=
  snprintf 128 (date_stamp now ++ str "/" ++ region c ++ str "/s3/aws4_request").

Definition string_to_sign (c : S3Client) (now : Stamp) (canonical : text) : text :=
  str "AWS4-HMAC-SHA256" ++ NL :: amz_date now ++ NL :: credential_scope c now ++ NL ::
  bytes_to_hex (sha256_hash (bytes_of canonical)).

Definition signing_key (c : S3Client) (now : Stamp) : list Z :=
  let aws4_key := snprintf 256 (str "AWS4" ++ show (secret_key c)) in
  let date_key := hmac_sha256 (bytes_of aws4_key) (bytes_of (date_stamp now)) in
  let date_region_key := hmac_sha256 date_key (bytes_of (region c)) in
  let date_region_service_key := hmac_sha256 date_region_key (bytes_of (str "s3")) in
  hmac_sha256 date_region_service_key (bytes_of (str "aws4_request")).

(** The hash of the payload and the header of authorization; a null query is empty. *)
Definition generate_aws_signature_v4 (c : S3Client) (meth uri query : text) (payload : list Z)
    (now : Stamp) : text * text :=
  let payload_hash := bytes_to_hex (sha256_hash payload) in
  let canonical := canonical_request c meth uri query payload_hash (amz_date now) in
  let signature := bytes_to_hex (hmac_sha256 (signing_key c now) (bytes_of (string_to_sign c now canonical))) in
  (payload_hash,
   str "AWS4-HMAC-SHA256 Credential=" ++ show (access_key c) ++ str "/" ++ credential_scope c now ++
   str ", SignedHeaders=host;x-amz-content-sha256;x-amz-date, Signature=" ++ signature).

(** ** The client *)

Definition s3_client_create (config : option OrochiS3Config) : option S3Client :=
  match config with
  | None => None
  | Some g =>
      Some {| endpoint := c_endpoint g; bucket := c_bucket g; access_key := c_access_key g;
              secret_key := c_secret_key g; region := default (str "us-east-1") (c_region g);
              use_ssl := c_use_ssl g;
              timeout_ms := if 0 <? connection_timeout g then connection_timeout g else 30000 |}
  end.

Definition scheme (c : S3Client) : text := if use_ssl c then str "https://" else str "http://".
Definition object_uri (c : S3Client) (key : text) : text :=
  snprintf 512 (str "/" ++ show (bucket c) ++ str "/" ++ key).
Definition object_url (c : S3Client) (uri : text) : text :=
  snprintf 1024 (scheme c ++ show (endpoint c) ++ uri).
Definition query_url (size : Z) (c : S3Client) (uri query : text) : text :=
  snprintf size (scheme c ++ show (endpoint c) ++ uri ++ QUERY :: query).

Definition header (name : string) (value : text) : text := snprintf 512 (str name ++ value).

(** A request with the headers that all of them have. *)
Definition signed_request (c : S3Client) (now : Stamp) (meth u uri query : text) (more : list text)
    (payload : list Z) : Request :=
  let '(payload_hash, authorization) := generate_aws_signature_v4 c meth uri query payload now in
  {| method := meth; url := u;
     headers := [header "Host: " (show (endpoint c)); header "x-amz-date: " (amz_date now);
                 header "x-amz-content-sha256: " payload_hash;
                 header "Authorization: " authorization] ++ more;
     body := payload |}.

Context `{H : Http}.

(** The hash of the empty payload is a constant of the code. *)
Definition s3_client_test_connection (now : Stamp) (client : option S3Client) (h : list Request)
    : bool * list Request :=
  match client with
  | None => (false, h)
  | Some c =>
      match bucket c with
      | None => (false, h)
      | Some b =>
          let r := signed_request c now (str "HEAD") (object_url c (str "/" ++ b)) b [] [] [] in
          if negb (curl_easy_init h) then (false, h) else
          let a := curl_easy_perform h r in
          (curl_ok a && ((http_code a =? 200) || (http_code a =? 403)), h ++ [r])
      end
  end.

Definition failed_upload (msg : text) (status : Z) : S3UploadResult :=
  {| up_success := false; up_etag := None; up_error := Some msg; up_status := status |}.

Definition put_request (c : S3Client) (now : Stamp) (key : text) (payload : list Z)
    (content_type : option text) : Request :=
  let uri := object_uri c key in
  signed_request c now (str "PUT") (object_url c uri) uri []
    [header "Content-Type: " (default (str "application/octet-stream") content_type);
     header "Content-Length: " (print (len payload))] payload.

Definition s3_upload (now : Stamp) (client : option S3Client) (key : option text)
    (payload : option (list Z)) (content_type : option text) (h : list Request)
    : outcome (S3UploadResult * list Request) :=
  match client, key, payload with
  | Some c, Some k, Some d =>
      let r := put_request c now k d content_type in
      if negb (curl_easy_init h) then Ok (failed_upload (str "Failed to initialize CURL") 0, h) else
      let a := curl_easy_perform h r in
      if negb (curl_ok a) then Ok (failed_upload (curl_strerror a) 0, h ++ [r])
      else if in_2xx (http_code a) then
        Ok ({| up_success := true; up_etag := Some (str "uploaded"); up_error := None;
               up_status := http_code a |}, h ++ [r])
      else t ← response_text (received 1024 a); Ok (failed_upload t (http_code a), h ++ [r])
  | _, _, _ => Ok (failed_upload (str "Invalid parameters") 0, h)
  end.

Definition failed_download (msg : text) (status : Z) : S3DownloadResult :=
  {| down_success := false; down_data := []; down_size := 0; down_error := Some msg;
     down_status := status |}.

Definition get_request (c : S3Client) (now : Stamp) (key : text) : Request :=
  let uri := object_uri c key in signed_request c now (str "GET") (object_url c uri) uri [] [] [].

Definition s3_download (now : Stamp) (client : option S3Client) (key : option text)
    (h : list Request) : outcome (S3DownloadResult * list Request) :=
  match client, key with
  | Some c, Some k =>
      let r := get_request c now k in
      if negb (curl_easy_init h) then Ok (failed_download (str "Failed to initialize CURL") 0, h) else
      let a := curl_easy_perform h r in
      let buf := received 4096 a in
      if negb (curl_ok a) then Ok (failed_download (curl_strerror a) 0, h ++ [r])
      else if in_2xx (http_code a) then
        Ok ({| down_success := true; down_data := data buf; down_size := len (data buf);
               down_error := None; down_status := http_code a |}, h ++ [r])
      else t ← response_text buf; Ok (failed_download t (http_code a), h ++ [r])
  | _, _ => Ok (failed_download (str "Invalid parameters") 0, h)
  end.

Definition s3_delete (now : Stamp) (client : option S3Client) (key : option text) (h : list Request)
    : bool * list Request :=
  match client, key with
  | Some c, Some k =>
      let uri := object_uri c k in
      let r := signed_request c now (str "DELETE") (object_url c uri) uri [] [] [] in
      if negb (curl_easy_init h) then (false, h)
      else (succeeded (curl_easy_perform h r), h ++ [r])
  | _, _ => (false, h)
  end.

Definition head_request (c : S3Client) (now : Stamp) (key : text) : Request :=
  let uri := object_uri c key in signed_request c now (str "HEAD") (object_url c uri) uri [] [] [].

Definition s3_object_exists (now : Stamp) (client : option S3Client) (key : option text)
    (h : list Request) : bool * list Request :=
  match client, key with
  | Some c, Some k =>
      let r := head_request c now k in
      if negb (curl_easy_init h) then (false, h) else
      let a := curl_easy_perform h r in
      (curl_ok a && (http_code a =? 200), h ++ [r])
  | _, _ => (false, h)
  end.

(** ** Metadata of an object *)

Context `{T : Times}.

Definition POSTGRES_EPOCH_JDATE : Z := 2451545.
(** The day number is subtracted from seconds. *)
Definition pg_time (t : Z) : Z := i64 (i64 (t - POSTGRES_EPOCH_JDATE) * 1000000).

Record HeaderCallbackData := {
  h_etag : option text; h_size : Z; h_last_modified : Z; h_content_type : option text;
  h_storage_class : option text }.

Definition is_blank (c : Ascii.ascii) : bool := (code c =? 32) || (code c =? 9).
Definition is_trailing (c : Ascii.ascii) : bool := is_blank c || (code c =? 13) || (code c =? 10).

(** The loop stops at the first character of the value. *)
Definition trim_end (t : text) : text :=
  match t with [] => [] | c :: t => c :: rev (skip is_trailing (rev t)) end.

(** A quoted text up to the second quote. *)
Definition until_quote (t : text) : text :=
  match t with
  | c :: q => if bool_decide (c = QUOTE) then span (other QUOTE) q else t
  | [] => []
  end.

Definition orochi_curl_header_cb (d : HeaderCallbackData) (line : text) : HeaderCallbackData :=
  match find_text [char 58] line with
  | None => d
  | Some (name, v) =>
      let value := trim_end (skip is_blank v) in
      let set e s m t k := {| h_etag := e; h_size := s; h_last_modified := m; h_content_type := t;
                              h_storage_class := k |} in
      if equal_ci name (str "ETag") then
        set (Some (until_quote value)) (h_size d) (h_last_modified d) (h_content_type d) (h_storage_class d)
      else if equal_ci name (str "Content-Length") then
        set (h_etag d) (strtoll value) (h_last_modified d) (h_content_type d) (h_storage_class d)
      else if equal_ci name (str "Last-Modified") then
        match http_time value with
        | Some t => set (h_etag d) (h_size d) (pg_time t) (h_content_type d) (h_storage_class d)
        | None => d
        end
      else if equal_ci name (str "Content-Type") then
        set (h_etag d) (h_size d) (h_last_modified d) (Some value) (h_storage_class d)
      else if equal_ci name (str "x-amz-storage-class") then
        set (h_etag d) (h_size d) (h_last_modified d) (h_content_type d) (Some value)
      else d
  end.

Definition s3_head_object (now : Stamp) (client : option S3Client) (key : option text)
    (h : list Request) : option S3Object * list Request :=
  match client, key with
  | Some c, Some k =>
      let r := head_request c now k in
      if negb (curl_easy_init h) then (None, h) else
      let a := curl_easy_perform h r in
      let d := foldl orochi_curl_header_cb
                 {| h_etag := None; h_size := 0; h_last_modified := 0; h_content_type := None;
                    h_storage_class := None |} (header_lines a) in
      (if curl_ok a && (http_code a =? 200) then
         Some {| o_key := k; o_etag := default [] (h_etag d); o_size := h_size d;
                 o_last_modified := h_last_modified d;
                 o_content_type := default (str "application/octet-stream") (h_content_type d);
                 o_storage_class := default (str "STANDARD") (h_storage_class d) |}
       else None, h ++ [r])
  | _, _ => (None, h)
  end.

(** ** Lists of objects *)

Definition open_tag (tag : string) : text := snprintf 128 (str "<" ++ str tag ++ str ">").
Definition close_tag (tag : string) : text := snprintf 128 (str "</" ++ str tag ++ str ">").

(** The text of the next element, and the position behind it. *)
Definition extract_xml_text (tag : string) (pos : text) : option text * text :=
  match find_text (open_tag tag) pos with
  | None => (None, pos)
  | Some (_, start) =>
      match find_text (close_tag tag) start with
      | None => (None, pos)
      | Some (value, rest) => (Some value, rest)
      end
  end.

(** The object that is read from the start of an element on; nothing stops the search at its
    end. *)
Definition parse_object (contents : text) : option S3Object :=
  let '(key, pos) := extract_xml_text "Key" contents in
  let '(size, pos) := extract_xml_text "Size" pos in
  let '(etag, pos) := extract_xml_text "ETag" pos in
  let '(modified, pos) := extract_xml_text "LastModified" pos in
  let '(storage, pos) := extract_xml_text "StorageClass" pos in
  match key with
  | None => None
  | Some k =>
      Some {| o_key := k; o_etag := match etag with Some e => until_quote e | None => [] end;
              o_size := match size with Some s => strtoll s | None => 0 end;
              o_last_modified := match modified ≫= iso_time with Some t => pg_time t | None => 0 end;
              o_content_type := str "application/octet-stream";
              o_storage_class := default (str "STANDARD") storage |}
  end.

(** The elements from [xml] on; each one consumes its tag. *)
Fixpoint parse_contents (fuel : nat) (xml : text) : list S3Object :=
  match fuel with
  | O => []
  | S fuel =>
      match find_text (str "<Contents>") xml with
      | None => []
      | Some (_, start) =>
          match find_text (str "</Contents>") start with
          | None => []
          | Some (_, rest) => option_list (parse_object (str "<Contents>" ++ start)) ++ parse_contents fuel rest
          end
      end
  end.

Definition list_query (prefix token : option text) : text :=
  snprintf 1024
    match token with
    | Some t =>
        match prefix with
        | Some p => str "list-type=2&prefix=" ++ url_encode p ++ str "&continuation-token=" ++ url_encode t
        | None => str "list-type=2&continuation-token=" ++ url_encode t
        end
    | None =>
        match prefix with
        | Some (c :: p) => str "list-type=2&prefix=" ++ url_encode (c :: p)
        | _ => str "list-type=2"
        end
    end.

(** The token with which the list goes on. *)
Definition next_token (xml : text) : option text :=
  match (extract_xml_text "IsTruncated" xml).1 with
  | Some t => if bool_decide (t = str "true") then (extract_xml_text "NextContinuationToken" xml).1 else None
  | None => None
  end.

(** A round for each page; how many there are is up to the service. *)
Fixpoint list_pages (fuel : nat) (now : Stamp) (c : S3Client) (prefix token : option text)
    (objects : list S3Object) (h : list Request) : outcome (list S3Object * list Request) :=
  match fuel with
  | O => Diverge
  | S fuel =>
      let query := list_query prefix token in
      let uri := snprintf 512 (str "/" ++ show (bucket c)) in
      let r := signed_request c now (str "GET") (query_url 2048 c uri query) uri query [] [] in
      if negb (curl_easy_init h) then Ok (objects, h) else
      let a := curl_easy_perform h r in
      if negb (curl_ok a && (http_code a =? 200)) then Ok (objects, h ++ [r]) else
      xml ← response_text (received 65536 a);
      let objects := objects ++ parse_contents (S (length xml)) xml in
      match next_token xml with
      | Some t => list_pages fuel now c prefix (Some t) objects (h ++ [r])
      | None => Ok (objects, h ++ [r])
      end
  end.

Definition s3_list_objects (fuel : nat) (now : Stamp) (client : option S3Client) (prefix : option text)
    (h : list Request) : outcome (list S3Object * list Request) :=
  match client with
  | None => Ok ([], h)
  | Some c => list_pages fuel now c prefix None [] h
  end.
(** ** Uploads in parts *)

Record S3MultipartPart := { part_number : Z; etag : option text }.

Definition last_is_quote (t : text) : bool := bool_decide (last t = Some QUOTE).

Definition is_line_end (c : Ascii.ascii) : bool := (code c =? 13) || (code c =? 10).
Definition in_line (c : Ascii.ascii) : bool := negb (is_line_end c).

(** The value of a header line without the quotes around it. *)
Definition header_value (t : text) : text :=
  let t := span in_line (skip is_blank t) in
  let t := match t with c :: q => if bool_decide (c = QUOTE) then q else t | [] => [] end in
  if last_is_quote t then removelast t else t.

(** Of an empty value none is captured. *)
Definition orochi_curl_header_cb_mp (capture : option text) (line : text) : option text :=
  if (5 <? len line) && prefix_ci (str "ETag:") line then
    match header_value (drop 5 line) with [] => capture | t => Some t end
  else capture.

Definition captured_etag (a : Response) : option text := foldl orochi_curl_header_cb_mp None (header_lines a).

Definition extract_upload_id_from_xml (xml : text) : option text :=
  match find_text (str "<UploadId>") xml with
  | None => None
  | Some (_, start) => fst <$> find_text (str "</UploadId>") start
  end.

(** A lone quote is removed twice, and its length is less than nothing. *)
Definition extract_etag_from_xml (xml : text) : outcome (option text) :=
  match find_text (str "<ETag>") xml with
  | None => Ok None
  | Some (_, start) =>
      match find_text (str "</ETag>") start with
      | None => Ok None
      | Some (v, _) =>
          if bool_decide (v = [QUOTE]) then Undef else
          let v := match v with c :: q => if bool_decide (c = QUOTE) then q else v | [] => [] end in
          Ok (Some (if last_is_quote v then removelast v else v))
      end
  end.

Definition extract_etag_from_headers (headers : text) : option text :=
  match (until_ci (str "ETag:") headers).2 with
  | [] => None
  | found => match header_value (drop 5 found) with [] => None | t => Some t end
  end.

Definition start_request (c : S3Client) (now : Stamp) (key : text) : Request :=
  let uri := object_uri c key in
  signed_request c now (str "POST") (query_url 1024 c uri (str "uploads")) uri (str "uploads") [] [].

(** The identifier of the upload. *)
Definition s3_multipart_upload_start (now : Stamp) (client : option S3Client) (key : option text)
    (h : list Request) : outcome (option text * list Request) :=
  match client, key with
  | Some c, Some k =>
      let r := start_request c now k in
      if negb (curl_easy_init h) then Ok (None, h) else
      let a := curl_easy_perform h r in
      t ← response_text (received 4096 a);
      Ok (if succeeded a then extract_upload_id_from_xml t else None, h ++ [r])
  | _, _ => Ok (None, h)
  end.

Definition part_query (n : Z) (upload_id : text) : text :=
  snprintf 256 (str "partNumber=" ++ print n ++ str "&uploadId=" ++ upload_id).
Definition upload_query (upload_id : text) : text := snprintf 256 (str "uploadId=" ++ upload_id).

Definition part_request (c : S3Client) (now : Stamp) (key upload_id : text) (n : Z)
    (payload : list Z) : Request :=
  let uri := object_uri c key in
  signed_request c now (str "PUT") (query_url 1024 c uri (part_query n upload_id)) uri
    (part_query n upload_id) [header "Content-Length: " (print (len payload))] payload.

(** The tag of the part. *)
Definition s3_multipart_upload_part_ex (now : Stamp) (client : option S3Client)
    (key upload_id : option text) (n : Z) (payload : option (list Z)) (h : list Request)
    : outcome (option text * list Request) :=
  match client, key, upload_id, payload with
  | Some c, Some k, Some id, Some d =>
      if (n <? 1) || (10000 <? n) then Ok (None, h) else
      let r := part_request c now k id n d in
      if negb (curl_easy_init h) then Ok (None, h) else
      let a := curl_easy_perform h r in
      if succeeded a then Ok (captured_etag a, h ++ [r])
      else _ ← response_text (received 1024 a); Ok (None, h ++ [r])
  | _, _, _, _ => Ok (None, h)
  end.

(** The elements of the parts; one without a tag stops the request. *)
Fixpoint parts_xml (parts : list S3MultipartPart) : option text :=
  match parts with
  | [] => Some []
  | p :: parts =>
      match etag p, parts_xml parts with
      | Some e, Some t =>
          Some (str "<Part><PartNumber>" ++ print (part_number p) ++ str "</PartNumber><ETag>" ++
                QUOTE :: e ++ QUOTE :: str "</ETag></Part>" ++ t)
      | _, _ => None
      end
  end.
Definition complete_xml (parts : list S3MultipartPart) : option text :=
  match parts_xml parts with
  | Some t => Some (str "<CompleteMultipartUpload>" ++ t ++ str "</CompleteMultipartUpload>")
  | None => None
  end.

Definition complete_request (c : S3Client) (now : Stamp) (key upload_id xml : text) : Request :=
  let uri := object_uri c key in
  signed_request c now (str "POST") (query_url 1024 c uri (upload_query upload_id)) uri
    (upload_query upload_id)
    [header "Content-Type: " (str "application/xml"); header "Content-Length: " (print (len xml))]
    (bytes_of xml).

Definition s3_multipart_upload_complete_with_parts (now : Stamp) (client : option S3Client)
    (key upload_id : option text) (parts : list S3MultipartPart) (h : list Request)
    : outcome (bool * list Request) :=
  match client, key, upload_id with
  | Some c, Some k, Some id =>
      if len parts <? 1 then Ok (false, h) else
      match complete_xml parts with
      | None => Ok (false, h)
      | Some xml =>
          let r := complete_request c now k id xml in
          if negb (curl_easy_init h) then Ok (false, h) else
          let a := curl_easy_perform h r in
          if succeeded a then Ok (true, h ++ [r])
          else _ ← response_text (received 4096 a); Ok (false, h ++ [r])
      end
  | _, _, _ => Ok (false, h)
  end.

Definition abort_request (c : S3Client) (now : Stamp) (key upload_id : text) : Request :=
  let uri := object_uri c key in
  signed_request c now (str "DELETE") (query_url 1024 c uri (upload_query upload_id)) uri
    (upload_query upload_id) [] [].

Definition s3_multipart_upload_abort (now : Stamp) (client : option S3Client)
    (key upload_id : option text) (h : list Request) : outcome (list Request) :=
  match client, key, upload_id with
  | Some c, Some k, Some id =>
      let r := abort_request c now k id in
      if negb (curl_easy_init h) then Ok h else
      let a := curl_easy_perform h r in
      if succeeded a then Ok (h ++ [r])
      else _ ← response_text (received 1024 a); Ok (h ++ [r])
  | _, _, _ => Ok h
  end.

(** The loop over the parts, from [offset] on; every part has a byte, so the length of what is
    left is fuel.  The result says whether all parts were taken. *)
Fixpoint upload_parts (fuel : nat) (now : Stamp) (client : option S3Client) (key upload_id : option text)
    (payload : list Z) (part_size offset n : Z) (parts : list S3MultipartPart) (h : list Request)
    : outcome (bool * list S3MultipartPart * list Request) :=
  if len payload <=? offset then Ok (true, parts, h) else
  match fuel with
  | O => Diverge
  | S fuel =>
      let size := if len payload <? offset + part_size then len payload - offset else part_size in
      '(e, h) ← s3_multipart_upload_part_ex now client key upload_id n
                  (Some (take (Z.to_nat size) (drop (Z.to_nat offset) payload))) h;
      match e with
      | None => Ok (false, parts, h)
      | Some e =>
          upload_parts fuel now client key upload_id payload part_size (offset + size) (n + 1)
            (parts ++ [{| part_number := n; etag := Some e |}]) h
      end
  end.

Definition MULTIPART_THRESHOLD : Z := 100 * 1024 * 1024.
Definition PART_SIZE : Z := 10 * 1024 * 1024.

(** The tag of the result: that of the last part, and how many there are. *)
Definition composite_etag (parts : list S3MultipartPart) : text :=
  let count := print (len parts) in
  snprintf 128 match last parts with
               | Some p => show (etag p) ++ str "-" ++ count
               | None => str "multipart-" ++ count
               end.

(** With the two sizes as arguments. *)
Definition upload_chunk (threshold part_size : Z) (now : Stamp) (client : option S3Client)
    (key : option text) (payload : list Z) (h : list Request)
    : outcome (S3UploadResult * list Request) :=
  if len payload <? threshold
  then s3_upload now client key (Some payload) (Some (str "application/octet-stream")) h else
  let max_parts := i32 ((len payload + part_size - 1) / part_size) in
  if 10000 <? max_parts
  then Ok (failed_upload (str "File too large: would exceed 10000 parts limit") 0, h) else
  '(id, h) ← s3_multipart_upload_start now client key h;
  match id with
  | None => Ok (failed_upload (str "Failed to initiate multipart upload") 0, h)
  | Some id =>
      '(success, parts, h) ← upload_parts (length payload) now client key (Some id) payload part_size 0 1 [] h;
      if (success : bool) then
        '(complete, h) ← s3_multipart_upload_complete_with_parts now client key (Some id) parts h;
        if (complete : bool) then
          Ok ({| up_success := true; up_etag := Some (composite_etag parts); up_error := None;
                 up_status := 200 |}, h)
        else
          h ← s3_multipart_upload_abort now client key (Some id) h;
          Ok (failed_upload (str "Failed to complete multipart upload") 0, h)
      else
        h ← s3_multipart_upload_abort now client key (Some id) h;
        Ok (failed_upload (str "Failed to upload one or more parts") 0, h)
  end.

Definition orochi_upload_chunk_to_s3 : Stamp → option S3Client → option text → list Z → list Request →
    outcome (S3UploadResult * list Request) := upload_chunk MULTIPART_THRESHOLD PART_SIZE.

End client.

(** ** The buffer of an answer *)

Lemma write_cb_fits buf contents :
  len (data (orochi_curl_write_cb buf contents)) < capacity (orochi_curl_write_cb buf contents).
Proof.
  cbn. rewrite length_app. destruct (capacity buf <? _) eqn:E1; [destruct (_ * 2 <? _) eqn:E2|]; lia.
Qed.

(** The pieces of the body arrive in order, and the buffer always has room for the terminator. *)
Lemma received_spec initial r :
  0 < initial → data (received initial r) = concat (chunks r) ∧
  len (data (received initial r)) < capacity (received initial r).
Proof.
  intros Hi. unfold received.
  assert (H : ∀ l buf, len (data buf) < capacity buf →
    data (foldl orochi_curl_write_cb buf l) = data buf ++ concat l ∧
    len (data (foldl orochi_curl_write_cb buf l)) < capacity (foldl orochi_curl_write_cb buf l)).
  { induction l as [|x l IH]; intros buf Hb; cbn [foldl concat]; [by rewrite app_nil_r|].
    destruct (IH (orochi_curl_write_cb buf x) (write_cb_fits buf x)) as [-> ?].
    split; [|done]. cbn. by rewrite <- app_assoc. }
  apply (H (chunks r) {| data := []; capacity := initial |}). cbn. lia.
Qed.

(** ** What the service promises *)

(** The objects by their URL, and the parts of unfinished uploads by theirs. *)
Record Store := { objects : gmap text (list Z); uploaded : gmap text (list Z * text) }.

Definition etag_line (e : text) : text := str "ETag: " ++ QUOTE :: e ++ [QUOTE; CR; NL].
Definition is_etag (line : text) : Prop := prefix_ci (str "ETag:") line = true.

(** A tag between quotes, in the only header of its name. *)
Definition gives_etag (a : Response) (e : text) : Prop :=
  e ≠ [] ∧ QUOTE ∉ e ∧ Forall (λ c, in_line c = true) e ∧
  ∃ l1 l2, header_lines a = l1 ++ etag_line e :: l2 ∧ Forall (λ x, ¬ is_etag x) (l1 ++ l2).

Definition part_url (base id : text) (n : Z) : text :=
  base ++ QUERY :: str "partNumber=" ++ print n ++ str "&uploadId=" ++ id.

(** A part by its number and tag, and whether the store holds it. *)
Definition stored (base id : text) (s : Store) (p : Z * text) (d : list Z) : Prop :=
  uploaded s !! part_url base id p.1 = Some (d, p.2).

(** How the store reads the body of a CompleteMultipartUpload request: the elements of the
    parts, without blanks between them. *)
Fixpoint after (p t : text) : option text :=
  match p, t with
  | [], _ => Some t
  | c :: p, d :: t => if bool_decide (c = d) then after p t else None
  | _ :: _, [] => None
  end.

Definition is_decimal (c : ascii) : bool := (48 <=? code c) && (code c <=? 57).
Definition decimal (t : text) : Z := foldl (λ n c, 10 * n + (code c - 48)) 0 t.

Fixpoint read_parts (fuel : nat) (t : text) : option (list (Z * text)) :=
  match after (str "</CompleteMultipartUpload>") t with
  | Some [] => Some []
  | Some _ => None
  | None =>
      match fuel with
      | O => None
      | S fuel =>
          t ← after (str "<Part><PartNumber>") t;
          let n := span is_decimal t in
          t ← after (str "</PartNumber><ETag>" ++ [QUOTE]) (drop (length n) t);
          let e := span (λ c, bool_decide (c ≠ QUOTE)) t in
          t ← after (QUOTE :: str "</ETag></Part>") (drop (length e) t);
          l ← read_parts fuel t;
          Some ((decimal n, e) :: l)
      end
  end.

Definition requested_parts (b : list Z) : option (list (Z * text)) :=
  t ← after (str "<CompleteMultipartUpload>") (char <$> b);
  read_parts (length t) t.

(** The parts are in ascending order, and the store has them under their tags. *)
Definition joined (base id : text) (s : Store) (b d : list Z) : Prop :=
  ∃ l ds, requested_parts b = Some l ∧ StronglySorted (λ p q, p.1 < q.1) l ∧
          Forall2 (stored base id s) l ds ∧ d = concat ds.

(** A completed upload is answered with a result; an answer of status 200 may hold an error
    instead, which the service finds while it joins the parts. *)
Definition holds_result (a : Response) : bool :=
  if find_text (str "<CompleteMultipartUploadResult") (char <$> concat (chunks a)) then true else false.

(** The object store, as its documentation describes it: what a request and its answer may
    change.  An answer other than a success, or none, leaves everything open; completing an
    upload joins the parts that the request lists, if the answer holds the result, and changes
    no object if it does not.  The identifiers of uploads are taken to have at most 200
    characters. *)
Inductive serves (s : Store) (r : Request) (a : Response) : Store → Prop :=
| serves_failed s' : succeeded a = false → serves s r a s'
| serves_put :
    method r = str "PUT" → QUERY ∉ url r → succeeded a = true →
    serves s r a {| objects := <[url r := body r]> (objects s); uploaded := uploaded s |}
| serves_get d :
    method r = str "GET" → QUERY ∉ url r → succeeded a = true →
    objects s !! url r = Some d → concat (chunks a) = d → serves s r a s
| serves_list : method r = str "GET" → QUERY ∈ url r → serves s r a s
| serves_head : method r = str "HEAD" → serves s r a s
| serves_delete :
    method r = str "DELETE" → QUERY ∉ url r → succeeded a = true →
    serves s r a {| objects := delete (url r) (objects s); uploaded := uploaded s |}
| serves_start base :
    method r = str "POST" → QUERY ∉ base → url r = base ++ QUERY :: str "uploads" →
    (∀ id, extract_upload_id_from_xml (c_string (concat (chunks a))) = Some id → len id <= 200) →
    serves s r a s
| serves_part e :
    method r = str "PUT" → QUERY ∈ url r → succeeded a = true → gives_etag a e →
    serves s r a {| objects := objects s; uploaded := <[url r := (body r, e)]> (uploaded s) |}
| serves_complete base id s' :
    method r = str "POST" → QUERY ∉ base → url r = base ++ QUERY :: str "uploadId=" ++ id →
    succeeded a = true → holds_result a = true →
    (∀ d, joined base id s (body r) d → objects s' !! base = Some d) →
    (∀ u, u ≠ base → objects s' !! u = objects s !! u) → serves s r a s'
| serves_complete_error base id s' :
    method r = str "POST" → QUERY ∉ base → url r = base ++ QUERY :: str "uploadId=" ++ id →
    succeeded a = true → holds_result a = false → objects s' = objects s → serves s r a s'
| serves_abort s' :
    method r = str "DELETE" → QUERY ∈ url r → objects s' = objects s → serves s r a s'.

Section trace.
Context `{H : Http}.

(** The requests so far with their answers, and the store afterwards. *)
Inductive trace (s0 : Store) : list Request → Store → Prop :=
| trace_nil : trace s0 [] s0
| trace_snoc h s r s' :
    trace s0 h s → serves s r (curl_easy_perform h r) s' → trace s0 (h ++ [r]) s'.

Lemma trace_last s0 h r s' :
  trace s0 (h ++ [r]) s' → ∃ s, trace s0 h s ∧ serves s r (curl_easy_perform h r) s'.
Proof.
  inversion 1 as [E|h1 s r1 ? Hs Hr E]; [by destruct h|].
  apply app_inj_tail in E as [-> ->]. by exists s.
Qed.

(** The last request was answered with a status of success and an error. *)
Definition error_unseen (h : list Request) : Prop :=
  ∃ h0 r, h = h0 ++ [r] ∧ method r = str "POST" ∧ succeeded (curl_easy_perform h0 r) = true ∧
          holds_result (curl_easy_perform h0 r) = false.

End trace.

(** ** The store reads the list of the parts that the client writes *)

Lemma after_app p t : after p (p ++ t) = Some t.
Proof. induction p as [|c p IH]; [done|]. cbn. by rewrite bool_decide_true. Qed.

Lemma span_until f l c t : Forall (λ x, f x = true) l → f c = false → span f (l ++ c :: t) = l.
Proof. intros Hl Hc. rewrite span_all by done. cbn [span]. by rewrite Hc, app_nil_r. Qed.

Lemma print_decimal n : 1 <= n <= 10000 → decimal (print n) = n ∧ Forall (λ c, is_decimal c = true) (print n).
Proof.
  intros Hn.
  assert ((decimal (print n) =? n) && forallb is_decimal (print n) = true) as [H1 H2]%andb_true_iff.
  { apply (range_check 10001 (λ n, (decimal (print n) =? n) && forallb is_decimal (print n))); [vm_compute; reflexivity|lia]. }
  split; [lia|]. rewrite forallb_forall in H2. apply Forall_forall. intros c Hc. by apply H2, list_elem_of_In.
Qed.

Definition as_part (p : Z * text) : S3MultipartPart := {| part_number := p.1; etag := Some p.2 |}.

(** Parts with numbers below [n], as the loop makes them. *)
Definition in_order (n : Z) (l : list (Z * text)) : Prop :=
  StronglySorted (λ p q, p.1 < q.1) l ∧ Forall (λ p, 1 <= p.1 <= 10000 ∧ p.1 < n ∧ QUOTE ∉ p.2) l.

#[export] Instance as_part_inj : Inj (=) (=) as_part.
Proof. intros [m e] [m' e'] [= -> ->]. done. Qed.

Lemma in_order_snoc n l e :
  in_order n l → 1 <= n <= 10000 → QUOTE ∉ e → in_order (n + 1) (l ++ [(n, e)]).
Proof.
  intros [Hs Hf] Hn He. split.
  - clear He. induction Hs as [|p l Hs IH Hp]; [by repeat constructor|].
    apply Forall_cons in Hf as [Hp0 Hf]. cbn. constructor; [by apply IH|]. apply Forall_app.
    split; [done|]. constructor; [cbn; lia|done].
  - apply Forall_app. split; [|constructor; [cbn; split; [lia|]; split; [lia|done]|done]].
    eapply Forall_impl; [exact Hf|]. cbn. intros p (? & ? & ?). split; [lia|]. split; [lia|done].
Qed.

Lemma parts_xml_cons m e ps :
  parts_xml (as_part (m, e) :: ps) =
  (λ t, str "<Part><PartNumber>" ++ print m ++ (str "</PartNumber><ETag>" ++ [QUOTE]) ++ e ++
        (QUOTE :: str "</ETag></Part>") ++ t) <$> parts_xml ps.
Proof. cbn [parts_xml as_part etag part_number fst snd]. by destruct (parts_xml ps). Qed.

Lemma span_number d t :
  Forall (λ c, is_decimal c = true) d → span is_decimal (d ++ str "</PartNumber><ETag>" ++ t) = d.
Proof. intros H. exact (span_until is_decimal d (char 60) (str "/PartNumber><ETag>" ++ t) H eq_refl). Qed.

Lemma span_tag e t :
  QUOTE ∉ e → span (λ c, bool_decide (c ≠ QUOTE)) (e ++ (QUOTE :: str "</ETag></Part>") ++ t) = e.
Proof.
  intros H. apply (span_until _ e QUOTE (str "</ETag></Part>" ++ t)); [|reflexivity].
  apply Forall_forall. intros c Hc. apply bool_decide_eq_true. congruence.
Qed.

Lemma read_parts_xml n l fuel t :
  in_order n l → (length l <= fuel)%nat → parts_xml (as_part <$> l) = Some t →
  read_parts fuel (t ++ str "</CompleteMultipartUpload>") = Some l.
Proof.
  intros [_ Hf]. revert fuel t. induction Hf as [|[m e] l (Hm & _ & He) _ IH]; intros fuel t Hfuel Hx.
  { injection Hx as <-. destruct fuel; reflexivity. }
  rewrite fmap_cons, parts_xml_cons in Hx. destruct (parts_xml (as_part <$> l)) as [x|]; [|done].
  apply fmap_Some in Hx as (? & [= <-] & ->). destruct fuel as [|fuel]; [cbn in Hfuel; lia|].
  destruct (print_decimal m Hm) as [Hd Hds]. cbn [fst snd] in *.
  rewrite <- !app_assoc. cbn [read_parts]. set (rest := print m ++ _).
  change (after (str "</CompleteMultipartUpload>") (str "<Part><PartNumber>" ++ rest)) with (@None text).
  cbn iota. rewrite after_app. cbn [mbind option_bind]. unfold rest.
  rewrite span_number by done.
  rewrite drop_app_length, (app_assoc (str "</PartNumber><ETag>") [QUOTE]), after_app. cbn [mbind option_bind].
  rewrite span_tag by done.
  rewrite drop_app_length, after_app. cbn [mbind option_bind].
  rewrite IH by (done || cbn in Hfuel; lia). cbn. by rewrite Hd.
Qed.

(** ** Tags of parts *)

Lemma capture_other c line : ¬ is_etag line → orochi_curl_header_cb_mp c line = c.
Proof.
  intros Hl. unfold orochi_curl_header_cb_mp, is_etag in *.
  destruct (prefix_ci _ line); [done|]. by rewrite andb_false_r.
Qed.

Lemma capture_others l c : Forall (λ x, ¬ is_etag x) l → foldl orochi_curl_header_cb_mp c l = c.
Proof. induction 1 as [|x l Hx _ IH]; [done|]. cbn. by rewrite capture_other. Qed.

Lemma header_value_quoted e :
  Forall (λ c, in_line c = true) e → header_value (char 32 :: QUOTE :: e ++ [QUOTE; CR; NL]) = e.
Proof.
  intros He. unfold header_value.
  change (skip is_blank (char 32 :: QUOTE :: e ++ [QUOTE; CR; NL])) with ((QUOTE :: e) ++ [QUOTE; CR; NL]).
  rewrite span_all by (by constructor). change (span in_line [QUOTE; CR; NL]) with [QUOTE].
  cbn [app]. rewrite bool_decide_true by done. unfold last_is_quote.
  rewrite last_snoc, bool_decide_true by done. by rewrite removelast_last.
Qed.

Lemma captured_tag a e : gives_etag a e → captured_etag a = Some e.
Proof.
  intros (Hne & _ & Hl & l1 & l2 & Ha & Hno). apply Forall_app in Hno as [H1 H2].
  unfold captured_etag. rewrite Ha, foldl_app. cbn [foldl].
  rewrite (capture_others l2) by done. unfold orochi_curl_header_cb_mp, etag_line.
  change (str "ETag: " ++ QUOTE :: e ++ [QUOTE; CR; NL])
    with (str "ETag:" ++ char 32 :: QUOTE :: e ++ [QUOTE; CR; NL]).
  rewrite prefix_ci_app. replace (5 <? _) with true
    by (symmetry; apply Z.ltb_lt; rewrite length_app; cbn; lia). cbn [andb].
  change (drop 5 (str "ETag:" ++ char 32 :: QUOTE :: e ++ [QUOTE; CR; NL])) with (char 32 :: QUOTE :: e ++ [QUOTE; CR; NL]).
  rewrite header_value_quoted by done. by destruct e.
Qed.

(** ** What is uploaded is downloaded *)

Lemma split_query b q b' q' :
  QUERY ∉ b → QUERY ∉ b' → b ++ QUERY :: q = b' ++ QUERY :: q' → b = b' ∧ q = q'.
Proof.
  revert b'. induction b as [|x b IH]; intros [|y b'] Hb Hb' E; cbn in E.
  - by injection E.
  - injection E as <- _. destruct Hb'. by left.
  - injection E as -> _. destruct Hb. by left.
  - injection E as <- E. apply not_elem_of_cons in Hb as [_ Hb], Hb' as [_ Hb'].
    destruct (IH b' Hb Hb' E) as [-> ->]. done.
Qed.

Lemma query_elem b q : QUERY ∈ b ++ QUERY :: q.
Proof. apply elem_of_app. right. by left. Qed.

Lemma snprintf_fits n t : len t < n → snprintf n t = t.
Proof. intros H. unfold snprintf. apply take_ge. lia. Qed.

Lemma print_length n : 1 <= n <= 10000 → len (print n) <= 5.
Proof.
  intros H. apply Z.leb_le.
  apply (range_check 10001 (λ n, len (print n) <=? 5)); [vm_compute; reflexivity|lia].
Qed.

Lemma str_inj a b : str a = str b → a = b.
Proof.
  intros E. rewrite <- (String.string_of_list_ascii_of_string a), <- (String.string_of_list_ascii_of_string b).
  f_equal. exact E.
Qed.

Lemma part_url_inj base id n m : part_url base id n = part_url base id m → n = m.
Proof.
  unfold part_url. intros E. apply app_inv_head in E. injection E as E.
  apply app_inv_tail in E. apply str_inj in E. by apply (inj pretty) in E.
Qed.

Section roundtrip.
Context `{X : Sha, H : Http}.
Context (c : S3Client) (k : text).

(** The URL of the object. *)
Definition location : text := scheme c ++ show (endpoint c) ++ object_uri c k.

(** It has no query of its own and leaves room for one. *)
Definition plain_location : Prop := QUERY ∉ location ∧ len location <= 700.
Hypothesis Hloc : plain_location.

Lemma object_url_location : object_url c (object_uri c k) = location.
Proof. unfold object_url. apply snprintf_fits. destruct Hloc. fold location. lia. Qed.

Lemma query_url_location q : len q <= 255 → query_url 1024 c (object_uri c k) q = location ++ QUERY :: q.
Proof.
  intros Hq. unfold query_url.
  replace (scheme c ++ show (endpoint c) ++ object_uri c k ++ QUERY :: q) with (location ++ QUERY :: q)
    by (unfold location; by rewrite <- !app_assoc).
  apply snprintf_fits. rewrite length_app. cbn [length]. destruct Hloc. lia.
Qed.

Lemma signed_request_fields now m u uri q more d :
  let r := signed_request c now m u uri q more d in method r = m ∧ url r = u ∧ body r = d.
Proof. unfold signed_request. by destruct (generate_aws_signature_v4 _ _ _ _ _ _). Qed.

Lemma part_request_url now id n d :
  1 <= n <= 10000 → len id <= 200 → url (part_request c now k id n d) = part_url location id n.
Proof.
  intros Hn Hid. unfold part_request.
  destruct (signed_request_fields now (str "PUT") (query_url 1024 c (object_uri c k) (part_query n id))
              (object_uri c k) (part_query n id) [header "Content-Length: " (print (len d))] d) as (_ & -> & _).
  pose proof (print_length n Hn). unfold part_query. rewrite snprintf_fits.
  - rewrite query_url_location; [done|]. rewrite !length_app. cbn. lia.
  - rewrite !length_app. cbn. lia.
Qed.

Lemma part_request_serves now id n d s a s' e :
  1 <= n <= 10000 → len id <= 200 → succeeded a = true → captured_etag a = Some e →
  serves s (part_request c now k id n d) a s' →
  QUOTE ∉ e ∧ s' = {| objects := objects s; uploaded := <[part_url location id n := (d, e)]> (uploaded s) |}.
Proof.
  intros Hn Hid Ha He Hs. pose proof (part_request_url now id n d Hn Hid) as Hu.
  destruct (signed_request_fields now (str "PUT") (query_url 1024 c (object_uri c k) (part_query n id))
              (object_uri c k) (part_query n id) [header "Content-Length: " (print (len d))] d) as (Hm & _ & Hb).
  fold (part_request c now k id n d) in Hm, Hb.
  pose proof (query_elem location (str "partNumber=" ++ print n ++ str "&uploadId=" ++ id)) as Hq.
  fold (part_url location id n) in Hq.
  inversion Hs as [| | | | | | |e' _ _ _ Ht| | |]; subst; try (rewrite Hm in *; discriminate); try congruence.
  pose proof Ht as (_ & Hq' & _). apply captured_tag in Ht. rewrite Hu, Hb. assert (e' = e) as -> by congruence. done.
Qed.

Lemma upload_part_ok now id n d h e h' :
  s3_multipart_upload_part_ex now (Some c) (Some k) (Some id) n (Some d) h = Ok (Some e, h') →
  1 <= n <= 10000 ∧ h' = h ++ [part_request c now k id n d] ∧
  succeeded (curl_easy_perform h (part_request c now k id n d)) = true ∧
  captured_etag (curl_easy_perform h (part_request c now k id n d)) = Some e.
Proof.
  unfold s3_multipart_upload_part_ex. destruct (_ || _) eqn:En; [done|]. destruct (negb _); [done|].
  destruct (succeeded _) eqn:Es.
  - intros [= He <-]. apply orb_false_iff in En as [? ?]. split; [lia|]. done.
  - destruct (response_text _); done.
Qed.

(** Histories only grow, and what came before had a trace. *)
Lemma trace_before s0 h l s' : trace s0 (h ++ l) s' → ∃ s, trace s0 h s.
Proof.
  revert s'. induction l as [|r l IH] using rev_ind; intros s' Ht; [rewrite app_nil_r in Ht; by exists s'|].
  rewrite app_assoc in Ht. apply trace_last in Ht as (s & Ht & _). by apply (IH s).
Qed.

Lemma part_grows now id n d h e h' :
  s3_multipart_upload_part_ex now (Some c) (Some k) (Some id) n (Some d) h = Ok (e, h') → ∃ l, h' = h ++ l.
Proof.
  unfold s3_multipart_upload_part_ex.
  destruct (_ || _); [|destruct (negb _); [|destruct (succeeded _); [|destruct (response_text _)]]];
    intros [= <- <-]; first [exists []; by rewrite app_nil_r | by eexists].
Qed.

Lemma parts_grow fuel now id payload size offset n ps h ok ps' h' :
  upload_parts fuel now (Some c) (Some k) (Some id) payload size offset n ps h = Ok (ok, ps', h') →
  ∃ l, h' = h ++ l.
Proof.
  revert offset n ps h. induction fuel as [|fuel IH]; intros offset n ps h; cbn [upload_parts];
    destruct (len payload <=? offset); try done.
  1, 2: intros [= _ _ <-]; exists []; by rewrite app_nil_r.
  destruct (s3_multipart_upload_part_ex _ _ _ _ _ _ _) as [[e h1]| | |] eqn:E; cbn; try done.
  apply part_grows in E as [l ->]. destruct e as [e|].
  - intros E. apply IH in E as [l' ->]. exists (l ++ l'). by rewrite app_assoc.
  - intros [= _ _ <-]. by exists l.
Qed.

Lemma complete_grows now id ps h ok h' :
  s3_multipart_upload_complete_with_parts now (Some c) (Some k) (Some id) ps h = Ok (ok, h') →
  ∃ l, h' = h ++ l.
Proof.
  unfold s3_multipart_upload_complete_with_parts.
  destruct (len ps <? 1); [|destruct (complete_xml ps); [destruct (negb _); [|destruct (succeeded _); [|destruct (response_text _)]]|]];
    intros [= <- <-]; first [exists []; by rewrite app_nil_r | by eexists].
Qed.

(** A new part keeps those before it. *)
Lemma stored_later id n x s l ds :
  Forall2 (stored location id s) l ds → in_order n l →
  Forall2 (stored location id {| objects := objects s;
    uploaded := <[part_url location id n := x]> (uploaded s) |}) l ds.
Proof.
  intros Hds [_ Hlt]. revert Hlt. induction Hds as [|p d l ds Hp _ IH]; intros Hlt; [done|].
  apply Forall_cons in Hlt as [(_ & Hn & _) Hlt]. constructor; [|by apply IH]. unfold stored in *. cbn.
  rewrite lookup_insert_ne; [done|]. intros E. apply part_url_inj in E. lia.
Qed.

(** The loop leaves its parts in the store, numbered from the first one on. *)
Lemma upload_parts_stored fuel now id payload size offset n l h ps' h' s0 s' :
  upload_parts fuel now (Some c) (Some k) (Some id) payload size offset n (as_part <$> l) h = Ok (true, ps', h') →
  0 < size → 0 <= offset → len id <= 200 → trace s0 h' s' → in_order n l →
  ∃ s l' n', trace s0 h s ∧ ps' = as_part <$> l' ∧ in_order n' l' ∧
    ∀ ds, Forall2 (stored location id s) l ds →
    ∃ ds', Forall2 (stored location id s') l' (ds ++ ds') ∧ concat ds' = drop (Z.to_nat offset) payload.
Proof.
  intros E Hsize Ho Hid Ht. revert offset n l h E Ho. induction fuel as [|fuel IH]; intros offset n l h E Ho Hl;
    cbn [upload_parts] in E; destruct (len payload <=? offset) eqn:El; try done.
  1, 2: injection E as <- <-; exists s', l, n; repeat (split; [done|]); intros ds Hds; exists []; rewrite app_nil_r;
        split; [done|]; rewrite drop_ge by lia; done.
  set (sz := if len payload <? offset + size then len payload - offset else size) in *.
  set (d := take (Z.to_nat sz) (drop (Z.to_nat offset) payload)) in *.
  assert (Hsz : 0 < sz) by (unfold sz; destruct (_ <? _) eqn:?; lia).
  destruct (s3_multipart_upload_part_ex _ _ _ _ _ _ _) as [[[e|] h1]| | |] eqn:Ep; cbn in E; try done.
  apply upload_part_ok in Ep as (Hn & -> & Hok & He).
  change [{| part_number := n; etag := Some e |}] with (as_part <$> [(n, e)]) in E. rewrite <- fmap_app in E.
  assert (Hq : QUOTE ∉ e).
  { destruct (parts_grow _ _ _ _ _ _ _ _ _ _ _ _ E) as [more ->]. destruct (trace_before _ _ _ _ Ht) as [s1 Ht1].
    destruct (trace_last _ _ _ _ Ht1) as (s & _ & Hserve).
    by destruct (part_request_serves now id n d s _ s1 e Hn Hid Hok He Hserve). }
  destruct (IH _ _ _ _ E) as (s1 & l' & n' & Ht1 & Hl' & Hn' & Hparts); [lia|by apply in_order_snoc|].
  apply trace_last in Ht1 as (s & Ht0 & Hserve).
  destruct (part_request_serves now id n d s _ s1 e Hn Hid Hok He Hserve) as [_ ->].
  exists s, l', n'. repeat (split; [done|]). intros ds Hds. destruct (Hparts (ds ++ [d])) as (ds' & Hds' & Hc).
  - apply Forall2_app; [by apply stored_later|]. constructor; [|done]. unfold stored. cbn. by rewrite lookup_insert_eq.
  - exists (d :: ds'). rewrite <- app_assoc in Hds'. split; [done|]. cbn. rewrite Hc. unfold d.
    rewrite Z2Nat.inj_add, <- drop_drop by lia. by rewrite take_drop.
Qed.

Lemma start_ok now h id h' s0 s' :
  s3_multipart_upload_start now (Some c) (Some k) h = Ok (Some id, h') → trace s0 h' s' →
  len id <= 200 ∧ ∃ s, trace s0 h s.
Proof.
  unfold s3_multipart_upload_start. destruct (negb _); [done|].
  set (r := start_request c now k). set (a := curl_easy_perform h r).
  destruct (received_spec 4096 a eq_refl) as [Hrec _]. unfold response_text. rewrite Hrec.
  destruct (concat (chunks a)) as [|b bs] eqn:Eb; [done|]. cbn [mbind outcome_bind].
  destruct (succeeded a) eqn:Ea; intros [= Hid <-] Ht.
  apply trace_last in Ht as (s & Ht & Hs). split; [|by exists s].
  destruct (signed_request_fields now (str "POST") (query_url 1024 c (object_uri c k) (str "uploads"))
              (object_uri c k) (str "uploads") [] []) as (Hm & Hu & _).
  fold (start_request c now k) in Hm, Hu. fold r in Hm, Hu. fold a in Hs. clearbody a.
  rewrite query_url_location in Hu by (by vm_compute). destruct Hloc as [Hq _].
  clearbody r. inversion Hs as [|? ?|d ? ? ?|? ?|?|? ?|base Hm' Hb Hu' Hlen|e ? ?|base id' s1 ? Hb Hu'|base id' s1 ? Hb Hu'|s1 ? ?]; subst;
    try (rewrite Hm in *; discriminate); try congruence.
  - apply Hlen. by rewrite Eb.
  - rewrite Hu in Hu'. apply split_query in Hu' as [_ E]; [discriminate|done|done].
  - rewrite Hu in Hu'. apply split_query in Hu' as [_ E]; [discriminate|done|done].
Qed.

(** What the client writes is read by the store. *)
Lemma requested_parts_written n l xml :
  in_order n l → complete_xml (as_part <$> l) = Some xml → requested_parts (bytes_of xml) = Some l.
Proof.
  intros Hl Hx. unfold complete_xml in Hx. destruct (parts_xml _) as [t|] eqn:Et; [|done]. apply (inj Some) in Hx as <-.
  unfold requested_parts.
  assert (∀ u, char <$> bytes_of u = u) as ->.
  { intros u. unfold bytes_of. induction u as [|x u IH]; [done|]. rewrite fmap_cons. cbn. by rewrite char_code, IH. }
  rewrite after_app. cbn [mbind option_bind]. apply (read_parts_xml n); [done| |done].
  assert (length l <= length t)%nat; [|rewrite length_app; lia]. clear Hl.
  revert t Et. induction l as [|[m e] l IH]; intros t Et; [cbn; lia|].
  rewrite fmap_cons, parts_xml_cons in Et. destruct (parts_xml _) as [x|]; [|done].
  specialize (IH x eq_refl). apply fmap_Some in Et as (? & [= <-] & ->). rewrite !length_app. cbn. lia.
Qed.

Lemma complete_ok now id n l h h' s0 s' :
  s3_multipart_upload_complete_with_parts now (Some c) (Some k) (Some id) (as_part <$> l) h = Ok (true, h') →
  trace s0 h' s' → len id <= 200 → in_order n l →
  ∃ s, trace s0 h s ∧
    (error_unseen h' ∨ ∀ ds, Forall2 (stored location id s) l ds → objects s' !! location = Some (concat ds)).
Proof.
  unfold s3_multipart_upload_complete_with_parts. destruct (len _ <? 1); [done|].
  destruct (complete_xml _) as [xml|] eqn:Ex; [|done]. destruct (negb _); [done|].
  set (r := complete_request c now k id xml). destruct (succeeded _) eqn:Ea.
  2: by destruct (response_text _).
  intros [= <-] Ht Hid Hl. apply trace_last in Ht as (s & Ht & Hs). exists s. split; [done|].
  destruct (signed_request_fields now (str "POST") (query_url 1024 c (object_uri c k) (upload_query id))
              (object_uri c k) (upload_query id)
              [header "Content-Type: " (str "application/xml"); header "Content-Length: " (print (len xml))]
              (bytes_of xml)) as (Hm & Hu & Hb).
  fold (complete_request c now k id xml) in Hm, Hu, Hb. fold r in Hm, Hu, Hb.
  assert (Hquery : upload_query id = str "uploadId=" ++ id).
  { apply snprintf_fits. rewrite length_app. cbn. lia. }
  rewrite Hquery, query_url_location in Hu by (rewrite length_app; cbn; lia). destruct Hloc as [Hq _].
  clearbody r.
  inversion Hs as [|? ?|d ? ? ?|? ?|?|? ?|base Hm' Hb' Hu' ?|e ? ?|base id' s1 Hm' Hb' Hu' ? Hres Hobj ?|base id' s1 ? Hb' Hu' ? Hres|s1 ? ?];
    subst; try (rewrite Hm in *; discriminate); try congruence.
  - rewrite Hu in Hu'. apply split_query in Hu' as [_ E]; [discriminate|done|done].
  - right. intros ds Hds. rewrite Hu in Hu'. apply split_query in Hu' as [<- E]; [|done|done].
    apply app_inv_head in E as <-. apply Hobj. exists l, ds. rewrite Hb. split; [by eapply requested_parts_written|].
    by destruct Hl.
  - left. by exists h, r.
Qed.

Lemma upload_ok now d ct h res h' s0 s' :
  s3_upload now (Some c) (Some k) (Some d) ct h = Ok (res, h') → up_success res = true →
  trace s0 h' s' → objects s' !! location = Some d.
Proof.
  unfold s3_upload. destruct (negb _); [by intros [= <- <-]|]. set (r := put_request c now k d ct).
  destruct (curl_ok _) eqn:Ec; cbn [negb]; [|by intros [= <- <-]].
  destruct (in_2xx _) eqn:Eh.
  2: by destruct (response_text _); intros [= <- <-].
  intros [= <- <-] _ Ht. apply trace_last in Ht as (s & _ & Hs).
  destruct (signed_request_fields now (str "PUT") (object_url c (object_uri c k)) (object_uri c k) []
              [header "Content-Type: " (default (str "application/octet-stream") ct);
               header "Content-Length: " (print (len d))] d) as (Hm & Hu & Hb).
  fold (put_request c now k d ct) in Hm, Hu, Hb. fold r in Hm, Hu, Hb.
  rewrite object_url_location in Hu. destruct Hloc as [Hq _].
  assert (Ha : succeeded (curl_easy_perform h r) = true) by (unfold succeeded; by rewrite Ec, Eh).
  clearbody r. inversion Hs; subst; try (rewrite Hm in *; discriminate); try congruence.
  cbn. rewrite Hu. apply lookup_insert_eq.
Qed.

Lemma download_ok now h res h' s0 s' :
  s3_download now (Some c) (Some k) h = Ok (res, h') → down_success res = true → trace s0 h' s' →
  ∃ s, trace s0 h s ∧ objects s !! location = Some (down_data res) ∧ down_size res = len (down_data res).
Proof.
  unfold s3_download. destruct (negb _); [by intros [= <- <-]|]. set (r := get_request c now k).
  destruct (curl_ok _) eqn:Ec; cbn [negb]; [|by intros [= <- <-]].
  destruct (in_2xx _) eqn:Eh.
  2: by destruct (response_text _); intros [= <- <-].
  intros [= <- <-] _ Ht. apply trace_last in Ht as (s & Ht & Hs). exists s. split; [done|]. cbn [down_data down_size].
  destruct (received_spec 4096 (curl_easy_perform h r) eq_refl) as [-> _]. split; [|done].
  destruct (signed_request_fields now (str "GET") (object_url c (object_uri c k)) (object_uri c k) [] [] [])
    as (Hm & Hu & _).
  fold (get_request c now k) in Hm, Hu. fold r in Hm, Hu.
  rewrite object_url_location in Hu. destruct Hloc as [Hq _].
  assert (Ha : succeeded (curl_easy_perform h r) = true) by (unfold succeeded; by rewrite Ec, Eh).
  clearbody r. inversion Hs; subst; try (rewrite Hm in *; discriminate); try congruence.
Qed.

(** A successful upload, of either kind, leaves the payload as the object. *)
Lemma upload_chunk_stores threshold part_size now payload h res h' s0 s' :
  0 < part_size →
  upload_chunk threshold part_size now (Some c) (Some k) payload h = Ok (res, h') →
  up_success res = true → trace s0 h' s' →
  objects s' !! location = Some payload ∨ threshold <= len payload ∧ error_unseen h'.
Proof.
  intros Hp. unfold upload_chunk. destruct (len payload <? threshold) eqn:Eth; [left; by eapply upload_ok|].
  destruct (10000 <? _); [by intros [= <- <-]|].
  destruct (s3_multipart_upload_start _ _ _ _) as [[[id|] h1]| | |] eqn:E1; cbn [mbind outcome_bind]; try done;
    [|by intros [= <- <-]].
  destruct (upload_parts _ _ _ _ _ _ _ _ _ _ _) as [[[ok ps] h2]| | |] eqn:E2; cbn [mbind outcome_bind]; try done.
  destruct ok.
  2: by destruct (s3_multipart_upload_abort _ _ _ _ _); intros [= <- <-].
  destruct (s3_multipart_upload_complete_with_parts _ _ _ _ _ _) as [[ok h3]| | |] eqn:E3; cbn [mbind outcome_bind]; try done.
  destruct ok.
  2: by destruct (s3_multipart_upload_abort _ _ _ _ _); intros [= <- <-].
  intros [= <- <-] _ Ht.
  assert (Hid : len id <= 200).
  { destruct (complete_grows _ _ _ _ _ _ E3) as [l ->]. destruct (trace_before _ _ _ _ Ht) as [s Hs].
    destruct (parts_grow _ _ _ _ _ _ _ _ _ _ _ _ E2) as [l' ->].
    destruct (trace_before _ _ _ _ Hs) as [s1 Hs1]. by apply (start_ok _ _ _ _ _ _ E1 Hs1). }
  assert (∃ s, trace s0 h2 s) as [s2 Hs2].
  { destruct (complete_grows _ _ _ _ _ _ E3) as [l ->]. by apply (trace_before _ _ _ _ Ht). }
  assert (Hnil : in_order 1 []) by (split; constructor).
  destruct (upload_parts_stored _ _ _ _ _ _ _ [] _ _ _ _ _ E2 Hp ltac:(done) Hid Hs2 Hnil) as (_ & l & n & _ & -> & Hn & _).
  destruct (complete_ok _ _ _ _ _ _ _ _ E3 Ht Hid Hn) as (s & Hs & [He|Hobj]); [right; split; [lia|done]|left].
  destruct (upload_parts_stored _ _ _ _ _ _ _ [] _ _ _ _ _ E2 Hp ltac:(done) Hid Hs Hnil)
    as (s1 & l' & _ & _ & Hl' & _ & Hparts).
  apply (inj (fmap as_part)) in Hl' as <-.
  destruct (Hparts []) as (ds & Hds & Hc); [done|].
  rewrite (Hobj _ Hds). cbn [app]. by rewrite Hc.
Qed.

(** C39: If the service answers as documented, what was uploaded as a whole, or in parts of
    any size, and reported as a success is what a download that succeeds right afterwards
    returns, unless the upload was one in parts and the answer that completed it held an error
    under a status of success, which the client does not look for. *)
Theorem upload_roundtrip threshold part_size now now' payload h up h1 down h2 s0 s2 :
  0 < part_size →
  upload_chunk threshold part_size now (Some c) (Some k) payload h = Ok (up, h1) → up_success up = true →
  s3_download now' (Some c) (Some k) h1 = Ok (down, h2) → down_success down = true →
  trace s0 h2 s2 →
  down_data down = payload ∧ down_size down = len payload ∨ threshold <= len payload ∧ error_unseen h1.
Proof.
  intros Hp Hup Hok Hdown Hok' Ht.
  destruct (download_ok _ _ _ _ _ _ Hdown Hok' Ht) as (s & Hs & Hobj & Hsize).
  destruct (upload_chunk_stores _ _ _ _ _ _ _ _ _ Hp Hup Hok Hs) as [Hst|He]; [left|by right].
  rewrite Hobj in Hst. injection Hst as Hst. by rewrite Hsize, Hst.
Qed.

(** The loop over the parts ends: each takes a byte at least. *)
Lemma upload_parts_ends fuel now id payload size offset n ps h :
  0 < size → len payload - offset <= Z.of_nat fuel →
  upload_parts fuel now (Some c) (Some k) (Some id) payload size offset n ps h ≠ Diverge.
Proof.
  intros Hs. revert offset n ps h. induction fuel as [|fuel IH]; intros offset n ps h Hf; cbn [upload_parts];
    destruct (len payload <=? offset) eqn:El; try done; [lia|].
  unfold s3_multipart_upload_part_ex.
  destruct (_ || _); [done|]. destruct (negb _); [done|].
  destruct (succeeded _).
  2: { unfold response_text. by destruct (data (received 1024 _)). }
  cbn [mbind outcome_bind]. destruct (captured_etag _); [|done]. apply IH. destruct (_ <? _) eqn:?; lia.
Qed.

End roundtrip.

(** ** Where the client falls short *)

(** In an answer as the service writes it, with the size behind the tag, the tag and the time
    of an object are those of the next one. *)
Definition listed (key modified tag size : string) : text :=
  str "<Contents><Key>" ++ str key ++ str "</Key><LastModified>" ++ str modified ++
  str "</LastModified><ETag>" ++ str tag ++ str "</ETag><Size>" ++ str size ++ str "</Size></Contents>".

Lemma list_shifts_tags `{T : Times} :
  (λ o, (o_key o, o_etag o, o_size o)) <$>
  parse_contents 9 (listed "a" "t1" "e1" "1" ++ listed "b" "t2" "e2" "2") =
  [(str "a", str "e2", 1); (str "b", [], 2)].
Proof. reflexivity. Qed.

(** An error without a body is reported from uninitialised memory. *)
Lemma empty_error_undefined `{X : Sha, H : Http} now c k d ct h :
  curl_easy_init h = true →
  let a := curl_easy_perform h (put_request c now k d ct) in
  curl_ok a = true → in_2xx (http_code a) = false → concat (chunks a) = [] →
  s3_upload now (Some c) (Some k) (Some d) ct h = Undef.
Proof.
  intros Hi a Hok Hc Hb. unfold s3_upload. rewrite Hi. cbn [negb]. fold a. rewrite Hok, Hc. cbn [negb].
  unfold response_text. destruct (received_spec 1024 a eq_refl) as [-> _]. by rewrite Hb.
Qed.

(** The service signs the name of a query together with an equals sign; the client signs and
    sends the bare name.  Prefixes keep their slashes, and the parameters of the second page
    are not in order, as they have to be. *)
Lemma second_page_query :
  list_query (Some (str "a/b")) (Some (str "t")) = str "list-type=2&prefix=a/b&continuation-token=t".
Proof. reflexivity. Qed.

(** The day number of the epoch of PostgreSQL is taken for seconds. *)
Lemma modified_time_wrong : pg_time 946684800 = 944233255000000.
Proof. reflexivity. Qed.

(** ** A service of one object *)

Section example.

Definition answer (lines : list text) (bytes : list Z) : Response :=
  {| curl_ok := true; curl_strerror := []; http_code := 200; header_lines := lines; chunks := [bytes] |}.

#[local] Instance toy_sha : Sha := {| SHA256 b := []; HMAC_SHA256 k b := [] |}.
(** Two parts, the answer to the completion, then the object. *)
Definition toy_http (reply got : list Z) : Http :=
  {| curl_easy_init h := true;
     curl_easy_perform h r :=
       match length h with
       | 0%nat => answer [] (bytes_of (str "<UploadId>u</UploadId>"))
       | 1%nat => answer [etag_line (str "a")] []
       | 2%nat => answer [etag_line (str "b")] []
       | 3%nat => answer [] reply
       | _ => answer [] got
       end |}.

Definition toy_client : S3Client :=
  {| endpoint := Some (str "s3"); bucket := Some (str "b"); access_key := None; secret_key := None;
     region := str "r"; use_ssl := false; timeout_ms := 30000 |}.
Definition toy_stamp : Stamp := {| date_stamp := []; amz_date := [] |}.

Definition toy_part (n : Z) (e : string) : S3MultipartPart := {| part_number := n; etag := Some (str e) |}.
Definition toy_start : Request := start_request toy_client toy_stamp (str "k").
Definition toy_part_request (n : Z) (d : list Z) : Request :=
  part_request toy_client toy_stamp (str "k") (str "u") n d.
Definition toy_complete : Request :=
  complete_request toy_client toy_stamp (str "k") (str "u")
    (default [] (complete_xml [toy_part 1 "a"; toy_part 2 "b"])).
Definition toy_get : Request := get_request toy_client toy_stamp (str "k").

Definition toy_history : list Request :=
  ((([] ++ [toy_start]) ++ [toy_part_request 1 [5; 6]]) ++ [toy_part_request 2 [7]]) ++ [toy_complete].
Definition toy_end : list Request := toy_history ++ [toy_get].

Definition toy_base : text := str "http://s3/b/k".
Definition toy_parts : gmap text (list Z * text) :=
  <[part_url toy_base (str "u") 2 := ([7], str "b")]>
    (<[part_url toy_base (str "u") 1 := ([5; 6], str "a")]> ∅).
Definition toy_store (o : gmap text (list Z)) : Store := {| objects := o; uploaded := toy_parts |}.

Definition toy_result : list Z := bytes_of (str "<CompleteMultipartUploadResult></CompleteMultipartUploadResult>").
Definition toy_error : list Z := bytes_of (str "<Error><Code>InternalError</Code></Error>").

Lemma toy_etag e : e = "a"%string ∨ e = "b"%string → gives_etag (answer [etag_line (str e)] []) (str e).
Proof.
  intros He. split; [|split; [|split; [|exists [], []; split; [done|constructor]]]];
    destruct He as [-> | ->]; decide_now || discriminate.
Qed.

Lemma toy_part_fields n d :
  n = 1 ∨ n = 2 → method (toy_part_request n d) = str "PUT" ∧
  url (toy_part_request n d) = part_url toy_base (str "u") n ∧ body (toy_part_request n d) = d.
Proof. intros [-> | ->]; repeat split. Qed.

Lemma toy_part_served n d e s :
  n = 1 ∨ n = 2 → e = "a"%string ∨ e = "b"%string →
  serves s (toy_part_request n d) (answer [etag_line (str e)] [])
    {| objects := objects s; uploaded := <[part_url toy_base (str "u") n := (d, str e)]> (uploaded s) |}.
Proof.
  intros Hn He. destruct (toy_part_fields n d Hn) as (Hm & Hu & Hb).
  pose proof (serves_part s (toy_part_request n d) (answer [etag_line (str e)] []) (str e) Hm) as Hs.
  rewrite Hu, Hb in Hs. apply Hs; [apply query_elem|done|by apply toy_etag].
Qed.

(** The upload of the parts. *)
Lemma toy_trace_parts reply got o :
  @trace (toy_http reply got) {| objects := o; uploaded := ∅ |}
    ((([] ++ [toy_start]) ++ [toy_part_request 1 [5; 6]]) ++ [toy_part_request 2 [7]]) (toy_store o).
Proof.
  eapply trace_snoc; [eapply trace_snoc; [eapply trace_snoc; [apply trace_nil|]|]|].
  - apply (serves_start _ _ _ toy_base); [done|decide_now|done|]. intros id [= <-]. vm_compute. discriminate.
  - apply (toy_part_served 1 [5; 6] "a"); by left.
  - apply (toy_part_served 2 [7] "b"); by right.
Qed.

(** The store joins them, or it answers with an error and keeps the object it had. *)
Lemma toy_trace : @trace (toy_http toy_result [5; 6; 7]) {| objects := ∅; uploaded := ∅ |} toy_end
                    (toy_store {[toy_base := [5; 6; 7]]}).
Proof.
  assert (Hq : QUERY ∉ toy_base) by decide_now.
  unfold toy_end, toy_history. eapply trace_snoc; [eapply trace_snoc; [apply toy_trace_parts|]|].
  - apply (serves_complete _ _ _ toy_base (str "u") (toy_store {[toy_base := [5; 6; 7]]})); [done..| |].
    + intros d (l & ds & Hl & _ & Hds & ->). cbn [objects toy_store]. rewrite lookup_singleton_eq. f_equal.
      vm_compute in Hl. injection Hl as <-.
      repeat match goal with H : Forall2 _ _ _ |- _ => inversion H; clear H; subst end.
      repeat match goal with H : stored _ _ _ _ _ |- _ => vm_compute in H; injection H as <- end. done.
    + intros u Hu. cbn [objects toy_store]. rewrite lookup_singleton_ne; [done|congruence].
  - apply (serves_get _ _ _ [5; 6; 7]); [done..| |done]. vm_compute. reflexivity.
Qed.

Lemma toy_trace_error : @trace (toy_http toy_error [1]) {| objects := {[toy_base := [1]]}; uploaded := ∅ |} toy_end
                    (toy_store {[toy_base := [1]]}).
Proof.
  assert (Hq : QUERY ∉ toy_base) by decide_now.
  unfold toy_end, toy_history. eapply trace_snoc; [eapply trace_snoc; [apply toy_trace_parts|]|].
  - by apply (serves_complete_error _ _ _ toy_base (str "u")).
  - apply (serves_get _ _ _ [1]); [done..| |done]. vm_compute. reflexivity.
Qed.

Lemma toy_location : plain_location toy_client (str "k").
Proof. split; [decide_now|vm_compute; discriminate]. Qed.

Definition toy_up : S3UploadResult :=
  {| up_success := true; up_etag := Some (str "b-2"); up_error := None; up_status := 200 |}.
Definition toy_down (d : list Z) : S3DownloadResult :=
  {| down_success := true; down_data := d; down_size := len d; down_error := None; down_status := 200 |}.

Lemma toy_upload_runs reply got :
  @upload_chunk toy_sha (toy_http reply got) 1 2 toy_stamp (Some toy_client) (Some (str "k")) [5; 6; 7] [] =
  Ok (toy_up, toy_history).
Proof. vm_compute. reflexivity. Qed.

(** An error that the service reports under a status of success is lost: the upload counts as
    a success, and the object is still the old one. *)
Theorem unseen_error_is_success :
  let H := toy_http toy_error [1] in
  upload_chunk 1 2 toy_stamp (Some toy_client) (Some (str "k")) [5; 6; 7] [] = Ok (toy_up, toy_history) ∧
  s3_download toy_stamp (Some toy_client) (Some (str "k")) toy_history = Ok (toy_down [1], toy_end) ∧
  trace {| objects := {[toy_base := [1]]}; uploaded := ∅ |} toy_end (toy_store {[toy_base := [1]]}).
Proof.
  intros H. split; [apply toy_upload_runs|]. split; [vm_compute; reflexivity|apply toy_trace_error].
Qed.

Lemma upload_roundtrip_witness :
  let H := toy_http toy_result [5; 6; 7] in
  [5; 6; 7] = [5; 6; 7] ∧ 3 = len [5; 6; 7] ∨ 1 <= len [5; 6; 7] ∧ error_unseen toy_history.
Proof.
  apply (@upload_roundtrip toy_sha (toy_http toy_result [5; 6; 7]) toy_client (str "k") toy_location 1 2 toy_stamp
    toy_stamp [5; 6; 7] [] toy_up toy_history (toy_down [5; 6; 7])
    toy_end {| objects := ∅; uploaded := ∅ |} (toy_store {[toy_base := [5; 6; 7]]})).
  - done.
  - vm_compute; reflexivity.
  - reflexivity.
  - vm_compute; reflexivity.
  - reflexivity.
  - exact toy_trace.
Defined.

End example.
