(* ===== verification/Tiered.v ===== *)
(** * Tiered storage

    [tiered/tiered_storage.c] above the client [S3]: the file of a chunk, its way to and from
    the object store, the policies, the record of accesses.  The chunks and their tables are
    those of [Hypertable]. *)
From stdpp Require Import sets gmap pretty.
From S2P Require Import Prelude Postgres CText Cron Codec Hypertable S3.

Local Open Scope Z_scope.

Definition OROCHI_TIER_WARM : Z := 1.
Definition OROCHI_TIER_COLD : Z := 2.
Definition OROCHI_TIER_FROZEN : Z := 3.

Definition orochi_tier_name (tier : Z) : text :=
  if tier =? OROCHI_TIER_HOT then str "hot"
  else if tier =? OROCHI_TIER_WARM then str "warm"
  else if tier =? OROCHI_TIER_COLD then str "cold"
  else if tier =? OROCHI_TIER_FROZEN then str "frozen"
  else str "unknown".

Definition orochi_parse_tier (name : text) : outcome Z :=
  if equal_ci name (str "hot") then Ok OROCHI_TIER_HOT
  else if equal_ci name (str "warm") then Ok OROCHI_TIER_WARM
  else if equal_ci name (str "cold") then Ok OROCHI_TIER_COLD
  else if equal_ci name (str "frozen") then Ok OROCHI_TIER_FROZEN
  else Err "unknown storage tier".

Definition orochi_generate_s3_key (chunk_id : Z) : text :=
  snprintf 128 (str "orochi/chunks/" ++ print chunk_id ++ str ".columnar").

(** A row of [orochi.orochi_tiering_policies], and of [orochi.orochi_chunk_access]. *)
Record OrochiTieringPolicy := {
  tiering_id : Z; table_oid : Z; hot_to_warm : option Interval; warm_to_cold : option Interval;
  cold_to_frozen : option Interval; compress_on_tier : bool; enabled : bool }.
Record AccessStats := {
  read_count : Z; write_count : Z; last_read : option Z; last_write : option Z }.

Record TierState := {
  db : Database; sent : list Request; tiering_rows : list OrochiTieringPolicy;
  next_tiering_id : Z; access_rows : gmap Z AccessStats; shards_accessed : gmap Z Z }.

Definition set_db (d : Database) (h : list Request) (s : TierState) : TierState :=
  {| db := d; sent := h; tiering_rows := tiering_rows s; next_tiering_id := next_tiering_id s;
     access_rows := access_rows s; shards_accessed := shards_accessed s |}.
Definition set_tiering (l : list OrochiTieringPolicy) (next : Z) (s : TierState) : TierState :=
  {| db := db s; sent := sent s; tiering_rows := l; next_tiering_id := next;
     access_rows := access_rows s; shards_accessed := shards_accessed s |}.
Definition set_access (a : gmap Z AccessStats) (l : gmap Z Z) (s : TierState) : TierState :=
  {| db := db s; sent := sent s; tiering_rows := tiering_rows s; next_tiering_id := next_tiering_id s;
     access_rows := a; shards_accessed := l |}.

(** ** Policies *)

(** [EXTRACT(EPOCH FROM _)::bigint]. *)
Class IntervalEpoch := { interval_epoch : Interval → Z }.

Definition with_intervals (p q : OrochiTieringPolicy) : OrochiTieringPolicy :=
  {| tiering_id := tiering_id q; table_oid := table_oid q; hot_to_warm := hot_to_warm p;
     warm_to_cold := warm_to_cold p; cold_to_frozen := cold_to_frozen p;
     compress_on_tier := compress_on_tier p; enabled := enabled p |}.
Definition with_id (id : Z) (p : OrochiTieringPolicy) : OrochiTieringPolicy :=
  {| tiering_id := id; table_oid := table_oid p; hot_to_warm := hot_to_warm p;
     warm_to_cold := warm_to_cold p; cold_to_frozen := cold_to_frozen p;
     compress_on_tier := compress_on_tier p; enabled := enabled p |}.

(** The table must be known; one row for each. *)
Definition orochi_catalog_create_tiering_policy (p : OrochiTieringPolicy) (s : TierState)
    : outcome (Z * TierState) :=
  if negb (existsb (λ t, relid t =? table_oid p) (table_rows (db s)))
  then Err "insert violates foreign key constraint" else
  match filter (λ q, table_oid q = table_oid p) (tiering_rows s) with
  | q :: _ =>
      Ok (tiering_id q,
          set_tiering (map (λ q, if table_oid q =? table_oid p then with_intervals p q else q) (tiering_rows s))
            (next_tiering_id s + 1) s)
  | [] => Ok (next_tiering_id s,
              set_tiering (tiering_rows s ++ [with_id (next_tiering_id s) p]) (next_tiering_id s + 1) s)
  end.
Definition orochi_catalog_update_tiering_policy (p : OrochiTieringPolicy) (s : TierState) : outcome TierState :=
  '(_, s) ← orochi_catalog_create_tiering_policy p s; Ok s.

Definition orochi_catalog_delete_tiering_policy (id : Z) (s : TierState) : TierState :=
  set_tiering (filter (λ p, tiering_id p ≠ id) (tiering_rows s)) (next_tiering_id s) s.

Section policies.
Context `{I : IntervalEpoch}.

(** An interval is read as its seconds, a null as zero. *)
Definition read_interval (i : option Interval) : option Interval :=
  Some {| time := i64 (match i with Some i => interval_epoch i | None => 0 end * USECS_PER_SEC);
          day := 0; month := 0 |}.
Definition read_tiering (p : OrochiTieringPolicy) : OrochiTieringPolicy :=
  {| tiering_id := tiering_id p; table_oid := table_oid p; hot_to_warm := read_interval (hot_to_warm p);
     warm_to_cold := read_interval (warm_to_cold p); cold_to_frozen := read_interval (cold_to_frozen p);
     compress_on_tier := compress_on_tier p; enabled := enabled p |}.

Definition orochi_catalog_get_tiering_policy (oid : Z) (s : TierState) : option OrochiTieringPolicy :=
  read_tiering <$> head (filter (λ p, table_oid p = oid) (tiering_rows s)).
Definition orochi_catalog_get_active_tiering_policies (s : TierState) : list OrochiTieringPolicy :=
  read_tiering <$> filter (λ p, enabled p = true) (tiering_rows s).

Definition orochi_get_tiering_policy : Z → TierState → option OrochiTieringPolicy :=
  orochi_catalog_get_tiering_policy.

Definition new_tiering (oid : Z) (hot warm cold : option Interval) : OrochiTieringPolicy :=
  {| tiering_id := 0; table_oid := oid; hot_to_warm := hot; warm_to_cold := warm; cold_to_frozen := cold;
     compress_on_tier := true; enabled := true |}.
Definition orochi_set_tiering_policy (oid : Z) (hot warm cold : option Interval) (s : TierState)
    : outcome TierState :=
  '(_, s) ← orochi_catalog_create_tiering_policy (new_tiering oid hot warm cold) s; Ok s.
Definition orochi_set_tiering_policy_sql : Z → option Interval → option Interval → option Interval →
    TierState → outcome TierState := orochi_set_tiering_policy.

Definition orochi_remove_tiering_policy (oid : Z) (s : TierState) : TierState :=
  match orochi_get_tiering_policy oid s with
  | Some p => orochi_catalog_delete_tiering_policy (tiering_id p) s
  | None => s
  end.

End policies.

(** ** The file of a chunk *)

(** The value of a column with the length of its type, or a null; how a row is taken apart,
    and how many columns a table has. *)
Abbreviation Field := (option (Datum * Z)).
Class Tuples := { fields : row → list Field; column_count : text * text → Z }.

(** The capacity of a [StringInfo] that holds so many bytes. *)
Class StringInfo := { maxlen : Z → Z }.

Definition COPY_SIGNATURE : list Z := [80; 71; 67; 79; 80; 89; 10; 255; 13; 10; 0].

Section files.
Context `{V : Varlena, T : Tuples, M : StringInfo}.

(** The length and the bytes of a value; types have no length of -2 in a table. *)
Definition copy_field (f : Field) : list Z :=
  match f with
  | None => le_enc 4 (-1)
  | Some (DatumVal z, n) => le_enc 4 n ++ le_enc n z
  | Some (DatumRef bs, n) =>
      if n =? -1 then le_enc 4 (VARSIZE_ANY_EXHDR bs) ++ take (Z.to_nat (VARSIZE_ANY_EXHDR bs)) (VARDATA_ANY bs)
      else le_enc 4 n ++ take (Z.to_nat n) bs
  end.
Definition copy_tuple (r : row) : list Z := le_enc 2 (len (fields r)) ++ mjoin (copy_field <$> fields r).
Definition copy_binary (rows : list row) : list Z :=
  COPY_SIGNATURE ++ le_enc 4 0 ++ le_enc 4 0 ++ mjoin (copy_tuple <$> rows) ++ le_enc 2 (-1).

(** [checksum = ((checksum << 5) + checksum) + byte]. *)
Definition checksum_from (c : Z) (bytes : list Z) : Z :=
  foldl (λ c b, u32 (u32 (u32 (Z.shiftl c 5) + c) + b)) c bytes.
Definition checksum (bytes : list Z) : Z := checksum_from 0 bytes.

Definition ORCH_MAGIC : Z := 0x4F524348.
Definition compression_code (t : OrochiCompressionType) : Z :=
  match t with
  | Codec.OROCHI_COMPRESS_NONE => 0 | OROCHI_COMPRESS_LZ4 => 1 | Codec.OROCHI_COMPRESS_ZSTD => 2
  | OROCHI_COMPRESS_PGLZ => 3 | OROCHI_COMPRESS_DELTA => 4 | OROCHI_COMPRESS_GORILLA => 5
  | OROCHI_COMPRESS_DICTIONARY => 6 | OROCHI_COMPRESS_RLE => 7
  end.

(** Eight bytes are taken from the address of the length of the buffer, which has four: the
    others are those of the capacity behind it. *)
Definition length_field (copied : Z) : list Z := le_enc 4 copied ++ le_enc 4 (maxlen copied).

Definition file_fields (c : OrochiChunkInfo) (cols : Z) (t : OrochiCompressionType) (copied : Z)
    (stored : list Z) : list Z :=
  le_enc 4 ORCH_MAGIC ++ le_enc 2 1 ++
  le_enc 2 (match t with Codec.OROCHI_COMPRESS_NONE => 1 | _ => 2 end) ++
  le_enc 8 (chunk_id c) ++ le_enc 8 (range_start c) ++ le_enc 8 (range_end c) ++
  le_enc 8 (row_count c) ++ le_enc 4 cols ++ le_enc 4 (compression_code t) ++
  length_field copied ++ le_enc 8 (len stored).
Definition file_header (c : OrochiChunkInfo) (cols : Z) (t : OrochiCompressionType) (copied : Z)
    (stored : list Z) : list Z := file_fields c cols t copied stored ++ le_enc 4 (checksum stored).
Definition chunk_file (c : OrochiChunkInfo) (cols : Z) (t : OrochiCompressionType) (copied : Z)
    (stored : list Z) : list Z := file_header c cols t copied stored ++ stored.

End files.

(** ** To the object store *)

(** The settings [orochi.s3_*], the times of the requests, the build and its level. *)
Record S3Settings := {
  s3_endpoint : option text; s3_bucket : option text; s3_access_key : option text;
  s3_secret_key : option text; s3_region : option text }.

Definition s3_config (g : S3Settings) (ssl : bool) (timeout : Z) : OrochiS3Config :=
  {| c_endpoint := s3_endpoint g; c_bucket := s3_bucket g; c_access_key := s3_access_key g;
     c_secret_key := s3_secret_key g; c_region := s3_region g; c_use_ssl := ssl;
     connection_timeout := timeout |}.

Definition COLUMNAR_COMPRESSION_LEVEL_DEFAULT : Z := 3.

(** What a statement finds in the server: whether the temporary file can be written, what
    [COPY _ FROM _ WITH (FORMAT binary)] reads from a file, and whether the table of the chunk
    can be created. *)
Class Restore := {
  temp_file_written : list Z → bool;
  copy_from : list Z → option (list row);
  table_created : Z → bool }.

(** The limit of [palloc]. *)
Definition palloc (size : Z) : outcome unit :=
  if (0 <=? size) && (size <=? 0x3fffffff) then Ok tt else Err "invalid memory alloc request size".

(** [memcpy] of the next bytes of a download, which C does not allow behind its end. *)
Definition field_at (offset size : Z) (bytes : list Z) : outcome Z :=
  match mem_get offset size bytes with Some b => Ok (le_dec b) | None => Undef end.

Section transitions.
Context `{V : Varlena, T : Tuples, M : StringInfo, F : SqlFunctions, X : Sha, H : Http}.
Context (B : Build) (g : S3Settings).

(** Compressed bytes, or the rows as they are when there are none. *)
Definition compress_copy (copied : list Z) : outcome (OrochiCompressionType * list Z) :=
  '(r, out) ← columnar_compress_buffer B [] copied (len copied + 1024) OROCHI_COMPRESS_LZ4
                COLUMNAR_COMPRESSION_LEVEL_DEFAULT;
  Ok (if r <=? 0 then (Codec.OROCHI_COMPRESS_NONE, copied) else (OROCHI_COMPRESS_LZ4, out)).

(** The table that is exported is the one [orochi_drop_chunk] names; the client uses no TLS. *)
Definition export_chunk (now : Stamp) (id : Z) (d : Database) (h : list Request)
    : outcome (bool * list Request) :=
  match s3_client_create (Some (s3_config g false 0)), orochi_catalog_get_chunk id d with
  | Some client, Some c =>
      match relations d !! dropped_relation id with
      | None => Ok (false, h)
      | Some rows =>
          let cols := column_count (dropped_relation id) in
          if cols <=? 0 then Ok (false, h) else
          let copied := copy_binary rows in
          '(t, stored) ← compress_copy copied;
          '(result, h) ← s3_upload now (Some client) (Some (orochi_generate_s3_key id))
                           (Some (chunk_file c cols t (len copied) stored))
                           (Some (str "application/octet-stream")) h;
          Ok (up_success result, h)
      end
  | _, _ => Ok (false, h)
  end.

Definition do_tier_transition (now : Stamp) (id tier : Z) (s : TierState) : outcome (bool * TierState) :=
  let d := db s in
  match orochi_catalog_get_chunk id d with
  | None => Ok (false, s)
  | Some c =>
      '(ok, d, h) ←
        (if tier =? OROCHI_TIER_HOT then
           d ← (if is_compressed c then orochi_decompress_chunk id d else Ok d); Ok (true, d, sent s)
         else if tier =? OROCHI_TIER_WARM then
           d ← (if is_compressed c then Ok d else orochi_compress_chunk id d); Ok (true, d, sent s)
         else if tier =? OROCHI_TIER_COLD then
           d ← (if is_compressed c then Ok d else orochi_compress_chunk id d);
           '(ok, h) ← export_chunk now id d (sent s);
           Ok (ok, d, h)
         else Ok (true, d, sent s));
      if (ok : bool) then Ok (true, set_db (orochi_catalog_update_chunk_tier id tier d) h s)
      else Ok (false, set_db d h s)
  end.

Definition orochi_move_to_tier (now : Stamp) (id tier : Z) (s : TierState) : outcome TierState :=
  match orochi_catalog_get_chunk id (db s) with
  | None => Err "chunk does not exist"
  | Some c =>
      if storage_tier c =? tier then Ok s else
      '(ok, s) ← do_tier_transition now id tier s;
      if (ok : bool) then Ok s else Err "failed to move chunk to tier"
  end.

Definition orochi_move_to_warm (now : Stamp) (id : Z) : TierState → outcome TierState :=
  orochi_move_to_tier now id OROCHI_TIER_WARM.
Definition orochi_move_to_cold (now : Stamp) (id : Z) : TierState → outcome TierState :=
  orochi_move_to_tier now id OROCHI_TIER_COLD.
Definition orochi_move_to_frozen (now : Stamp) (id : Z) : TierState → outcome TierState :=
  orochi_move_to_tier now id OROCHI_TIER_FROZEN.

(** The SQL function changes the row of the chunk and nothing else. *)
Definition orochi_move_chunk_to_tier_sql (id : Z) (tier : text) (s : TierState) : outcome TierState :=
  t ← (if bool_decide (tier = str "hot") then Ok OROCHI_TIER_HOT
       else if bool_decide (tier = str "warm") then Ok OROCHI_TIER_WARM
       else if bool_decide (tier = str "cold") then Ok OROCHI_TIER_COLD
       else if bool_decide (tier = str "frozen") then Ok OROCHI_TIER_FROZEN
       else Err "invalid tier");
  Ok (set_db (orochi_catalog_update_chunk_tier id t (db s)) (sent s) s).

(** ** From the object store *)

Context `{R : Restore}.

(** What the header says of the data, when it is that of the chunk: compression, sizes,
    checksum. *)
Definition parse_header (id : Z) (file : list Z) : outcome (option (Z * Z * Z * Z)) :=
  magic ← field_at 0 4 file;
  version ← field_at 4 2 file;
  flags ← field_at 6 2 file;
  header_chunk_id ← field_at 8 8 file;
  range_start ← field_at 16 8 file;
  range_end ← field_at 24 8 file;
  row_count ← field_at 32 8 file;
  column_count ← field_at 40 4 file;
  compression_type ← field_at 44 4 file;
  uncompressed_size ← field_at 48 8 file;
  compressed_size ← field_at 56 8 file;
  checksum ← field_at 64 4 file;
  Ok (if magic =? ORCH_MAGIC then
        if version =? 1 then
          if i64 header_chunk_id =? id
          then Some (compression_type, i64 uncompressed_size, i64 compressed_size, checksum) else None
        else None
      else None).

(** The data, taken from the 64th byte on. *)
Definition file_data (file : list Z) (compression uncompressed stored sum : Z) : outcome (option (list Z)) :=
  match mem_get 64 (Z.max 0 stored) file with
  | None => Undef
  | Some bytes =>
      if negb (checksum bytes =? sum) then Ok None
      else if compression =? 0 then Ok (Some bytes)
      else if (compression =? 1) || (compression =? 2) then
        _ ← palloc uncompressed;
        '(r, out) ← (if compression =? 1 then decompress_lz4 (lz4 B) (have_lz4 B) bytes uncompressed
                     else decompress_zstd (zstd B 0) (have_zstd B) bytes uncompressed);
        Ok (if (r <? 0) || negb (r =? uncompressed) then None else Some out)
      else Ok None
  end.

(** The table is dropped and created anew; an error from here on is caught. *)
Definition restore_table (id : Z) (bytes : list Z) (d : Database) : bool * Database :=
  let d := set_data (delete (dropped_relation id) (relations d)) (compressed_chunks d) d in
  if negb (table_created id) then (false, d) else
  let d := set_data (<[dropped_relation id := []]> (relations d)) (compressed_chunks d) d in
  if negb (temp_file_written bytes && (i32 (len bytes) =? len bytes)) then (false, d) else
  match copy_from bytes with
  | None => (false, d)
  | Some rows => (true, set_data (<[dropped_relation id := rows]> (relations d)) (compressed_chunks d) d)
  end.

Definition orochi_restore_chunk_from_s3 (now : Stamp) (id : Z) (client : S3Client) (key : text)
    (d : Database) (h : list Request) : outcome (bool * Database * list Request) :=
  '(result, h) ← s3_download now (Some client) (Some key) h;
  if negb (down_success result) then Ok (false, d, h)
  else if down_size result <? 64 then Ok (false, d, h) else
  header ← parse_header id (down_data result);
  match header with
  | None => Ok (false, d, h)
  | Some (compression, uncompressed, stored, sum) =>
      bytes ← file_data (down_data result) compression uncompressed stored sum;
      match bytes with
      | None => Ok (false, d, h)
      | Some b => let '(ok, d) := restore_table id b d in Ok (ok, d, h)
      end
  end.

Definition orochi_recall_from_cold (now : Stamp) (id : Z) (s : TierState) : outcome TierState :=
  match orochi_catalog_get_chunk id (db s) with
  | None => Err "chunk does not exist"
  | Some c =>
      if negb (storage_tier c =? OROCHI_TIER_COLD) && negb (storage_tier c =? OROCHI_TIER_FROZEN) then Ok s else
      match s3_client_create (Some (s3_config g true 30000)) with
      | None => Err "failed to create S3 client for chunk recall"
      | Some client =>
          let key := orochi_generate_s3_key id in
          let '(exists_, h) := s3_object_exists now (Some client) (Some key) (sent s) in
          if negb exists_ then Err "chunk not found in S3" else
          '(ok, d, h) ← orochi_restore_chunk_from_s3 now id client key (db s) h;
          if (ok : bool) then Ok (set_db (orochi_catalog_update_chunk_tier id OROCHI_TIER_WARM d) h s)
          else Err "failed to restore chunk from S3"
      end
  end.

(** ** Reading *)

Definition orochi_get_chunk_tier (id : Z) (d : Database) : Z :=
  match orochi_catalog_get_chunk id d with Some c => storage_tier c | None => OROCHI_TIER_HOT end.

Definition orochi_chunk_is_accessible (id : Z) (d : Database) : bool :=
  (orochi_get_chunk_tier id d =? OROCHI_TIER_HOT) || (orochi_get_chunk_tier id d =? OROCHI_TIER_WARM).

Definition orochi_get_chunk_access_latency_ms (id : Z) (d : Database) : Z :=
  let tier := orochi_get_chunk_tier id d in
  if tier =? OROCHI_TIER_HOT then 1
  else if tier =? OROCHI_TIER_WARM then 10
  else if tier =? OROCHI_TIER_COLD then 100
  else if tier =? OROCHI_TIER_FROZEN then 3600000
  else 1.

Definition orochi_prepare_chunk_for_read (now : Stamp) (id : Z) (s : TierState) : outcome TierState :=
  let tier := orochi_get_chunk_tier id (db s) in
  if (tier =? OROCHI_TIER_COLD) || (tier =? OROCHI_TIER_FROZEN)
  then orochi_recall_from_cold now id s else Ok s.

(** ** Automatic tiering *)

(** The settings of the thresholds. *)
Record Thresholds := {
  enable_tiering : bool; hot_threshold_hours : Z; warm_threshold_days : Z; cold_threshold_days : Z }.

Definition target_tier (th : Thresholds) (time : Z) (c : OrochiChunkInfo) : Z :=
  let age := i64 (time - range_end c) in
  if (cold_threshold_days th * USECS_PER_DAY <? age) && (storage_tier c <? OROCHI_TIER_COLD) then OROCHI_TIER_COLD
  else if (warm_threshold_days th * USECS_PER_DAY <? age) && (storage_tier c <? OROCHI_TIER_WARM) then OROCHI_TIER_WARM
  else if (hot_threshold_hours th * USECS_PER_HOUR <? age) && (storage_tier c <? OROCHI_TIER_WARM) then OROCHI_TIER_WARM
  else storage_tier c.

Fixpoint tier_chunks (now : Stamp) (th : Thresholds) (time : Z) (l : list OrochiChunkInfo) (moved : Z)
    (s : TierState) : outcome (Z * TierState) :=
  match l with
  | [] => Ok (moved, s)
  | c :: l =>
      let target := target_tier th time c in
      if target =? storage_tier c then tier_chunks now th time l moved s else
      '(ok, s) ← do_tier_transition now (chunk_id c) target s;
      tier_chunks now th time l (if (ok : bool) then moved + 1 else moved) s
  end.

Context `{I : IntervalEpoch, TB : TimestampBuffer}.

(** All chunks of the table, by the query for a range. *)
Definition orochi_catalog_get_hypertable_chunks (oid : Z) (d : Database) : list OrochiChunkInfo :=
  orochi_catalog_get_chunks_in_range oid INT64_MIN INT64_MAX d.

Definition orochi_apply_tiering_for_table (now : Stamp) (th : Thresholds) (time oid : Z) (s : TierState)
    : outcome (Z * TierState) :=
  match orochi_get_tiering_policy oid s with
  | None => Ok (0, s)
  | Some p =>
      if negb (enabled p) then Ok (0, s) else
      match orochi_catalog_get_table oid (db s) with
      | None => Ok (0, s)
      | Some t =>
          if is_timeseries t
          then tier_chunks now th time (orochi_catalog_get_hypertable_chunks oid (db s)) 0 s
          else Ok (0, s)
      end
  end.

Fixpoint apply_each (now : Stamp) (th : Thresholds) (time : Z) (l : list OrochiTieringPolicy)
    (s : TierState) : outcome TierState :=
  match l with
  | [] => Ok s
  | p :: l => '(_, s) ← orochi_apply_tiering_for_table now th time (table_oid p) s; apply_each now th time l s
  end.
Definition orochi_apply_tiering_policies (now : Stamp) (th : Thresholds) (time : Z) (s : TierState)
    : outcome TierState :=
  if negb (enable_tiering th) then Ok s
  else apply_each now th time (orochi_catalog_get_active_tiering_policies s) s.

(** ** Access *)

(** The last statement takes the number of the chunk for that of a shard. *)
Definition orochi_record_chunk_access (time id : Z) (is_write : bool) (s : TierState) : outcome TierState :=
  if negb (existsb (λ c, chunk_id c =? id) (chunk_rows (db s)))
  then Err "insert violates foreign key constraint" else
  let a := default {| read_count := 0; write_count := 0; last_read := None; last_write := None |}
             (access_rows s !! id) in
  let a := if is_write
           then {| read_count := read_count a; write_count := write_count a + 1;
                   last_read := last_read a; last_write := Some time |}
           else {| read_count := read_count a + 1; write_count := write_count a;
                   last_read := Some time; last_write := last_write a |} in
  Ok (set_access (<[id := a]> (access_rows s)) (<[id := time]> (shards_accessed s)) s).

(** A round of the worker. *)
Definition orochi_tiering_worker_main (now : Stamp) (th : Thresholds) (time : Z) (s : TierState)
    : outcome TierState :=
  if enable_tiering th then orochi_apply_tiering_policies now th time s else Ok s.

End transitions.

(** A round of the other worker. *)
Definition orochi_compression_worker_main `{F : SqlFunctions, P : TimestampPlus, TB : TimestampBuffer}
  : Z → Database → outcome Database := orochi_run_maintenance.

(** ** Names of tiers *)

Lemma tier_name_roundtrip tier : 0 <= tier <= 3 → orochi_parse_tier (orochi_tier_name tier) = Ok tier.
Proof.
  intros H. assert (tier = 0 ∨ tier = 1 ∨ tier = 2 ∨ tier = 3) as [->|[->|[->| ->]]] by lia; reflexivity.
Qed.

(** ** Cold chunks do not come back *)

(** [COPY] wants its signature, and a [StringInfo] has room for its terminator below the limit
    of [palloc]. *)
Class ServerLaws `{M : StringInfo, R : Restore} := {
  copy_signed b rows : copy_from b = Some rows → take 11 b = COPY_SIGNATURE;
  maxlen_bounds n : 0 <= n < 0x3fffffff → n < maxlen n <= 0x3fffffff }.

Section cold.
Context `{V : Varlena, T : Tuples, M : StringInfo, F : SqlFunctions, X : Sha, H : Http, R : Restore}.
Context (B : Build) (g : S3Settings).

Lemma file_fields_length c cols t copied stored : len (file_fields c cols t copied stored) = 64.
Proof.
  unfold file_fields, length_field. rewrite !length_app, !Nat2Z.inj_add.
  rewrite !le_enc_length by lia. lia.
Qed.

(** Reading a file of little-endian fields. *)
Lemma le_dec_app l r : bytes_ok l → le_dec (l ++ r) = le_dec l + 2 ^ (8 * len l) * le_dec r.
Proof.
  induction 1 as [|b l Hb Hl IH].
  { cbn [app]. change (le_dec []) with 0. change (2 ^ (8 * len [])) with 1. lia. }
  cbn [app length]. unfold le_dec, in_u in *. cbn [little_endian_to_Z].
  rewrite !lor_disjoint_add by (done || lia). rewrite IH, Nat2Z.inj_succ.
  replace (8 * Z.succ (len l)) with (8 + 8 * len l) by lia. rewrite Z.pow_add_r by lia. lia.
Qed.

Lemma field_skip k z o n r : 0 <= k <= o → field_at o n (le_enc k z ++ r) = field_at (o - k) n r.
Proof.
  intros Hk. unfold field_at, mem_get. rewrite length_app, Nat2Z.inj_add, le_enc_length by lia.
  pose proof (le_enc_length k z ltac:(lia)) as Hl.
  destruct (decide (0 ≤ o ∧ _)) as [Hd|Hd], (decide (0 ≤ o - k ∧ _)) as [Hd'|Hd']; try lia; [|done].
  rewrite drop_app_ge by lia. do 4 f_equal. lia.
Qed.

Lemma field_here n z r : 0 <= n → field_at 0 n (le_enc n z ++ r) = Ok (z mod 2 ^ (n * 8)).
Proof.
  intros Hn. unfold field_at. change (le_enc n z ++ r) with ([] ++ le_enc n z ++ r).
  rewrite (mem_get_app [] (le_enc n z) r 0 n) by (done || by apply le_enc_length).
  by rewrite le_dec_enc.
Qed.

Lemma field_length copied r :
  0 <= copied < 2 ^ 32 → 0 <= maxlen copied < 2 ^ 32 →
  field_at 0 8 (length_field copied ++ r) = Ok (copied + 2 ^ 32 * maxlen copied).
Proof.
  intros Hc Hm. unfold field_at, length_field.
  change ((?l ++ ?m) ++ r) with ([] ++ (l ++ m) ++ r).
  rewrite (mem_get_app [] (le_enc 4 copied ++ le_enc 4 (maxlen copied)) r 0 8).
  - rewrite le_dec_app by (by apply le_enc_bytes). rewrite le_enc_length by lia.
    change (8 * 4) with 32. by rewrite !le_dec_enc_u32.
  - done.
  - rewrite length_app, Nat2Z.inj_add, !le_enc_length by lia. lia.
Qed.

Lemma field_skip_length copied o n r : 8 <= o → field_at o n (length_field copied ++ r) = field_at (o - 8) n r.
Proof.
  intros Ho. unfold length_field. rewrite <- app_assoc, !field_skip by lia. f_equal. lia.
Qed.

Lemma checksum_range bytes : is_u32 (checksum bytes).
Proof.
  unfold checksum, checksum_from. assert (H0 : is_u32 0) by done. revert H0. generalize 0.
  induction bytes as [|b bytes IH]; intros c Hc; [done|]. apply IH. by apply uwrap_range.
Qed.

Ltac read_field :=
  match goal with
  | |- (field_at 0 ?n (le_enc ?n ?z ++ ?r) ≫= _) = _ =>
      rewrite (field_here n z r) by lia; cbn [mbind outcome_bind]
  | |- (field_at ?o ?n (le_enc ?k ?z ++ ?r) ≫= _) = _ =>
      rewrite (field_skip k z o n r) by lia; let v := eval vm_compute in (o - k) in change (o - k) with v
  | |- (field_at ?o ?n (length_field ?c ++ ?r) ≫= _) = _ =>
      rewrite (field_skip_length c o n r) by lia; let v := eval vm_compute in (o - 8) in change (o - 8) with v
  end.

(** The sizes and the checksum that are read from the header of a file: the size before
    compression has the capacity of a buffer in its upper half. *)
Lemma parse_chunk_file c cols t copied stored :
  in_i 64 (chunk_id c) → 0 <= copied < 0x3fffffff → 0 < maxlen copied <= 0x3fffffff →
  len stored < 2 ^ 63 →
  parse_header (chunk_id c) (chunk_file c cols t copied stored) =
  Ok (Some (compression_code t, copied + 2 ^ 32 * maxlen copied, len stored, checksum stored)).
Proof.
  intros Hid Hc Hm Hs. unfold parse_header, chunk_file, file_header, file_fields.
  rewrite <- !app_assoc.
  repeat read_field. rewrite field_length by lia. cbn [mbind outcome_bind]. repeat read_field.
  change (ORCH_MAGIC mod 2 ^ (4 * 8) =? ORCH_MAGIC) with true.
  change (1 mod 2 ^ (2 * 8) =? 1) with true. cbn iota.
  assert (Hw : ∀ z, in_i 64 z → i64 (z mod 2 ^ (8 * 8)) = z).
  { intros z Hz. change (z mod 2 ^ (8 * 8)) with (u64 z). rewrite swrap_uwrap by done. by apply swrap_id. }
  rewrite (Hw (chunk_id c)), Z.eqb_refl by done. rewrite (Hw (len stored)) by (split; lia).
  rewrite swrap_id by (done || split; lia).
  rewrite (Z.mod_small (checksum stored)) by apply checksum_range.
  by rewrite Z.mod_small by (destruct t; split; done).
Qed.

(** The data that is read begins with the checksum. *)
Lemma file_data_shifted c cols t copied stored :
  4 <= len stored →
  mem_get 64 (Z.max 0 (len stored)) (chunk_file c cols t copied stored) =
  Some (le_enc 4 (checksum stored) ++ take (length stored - 4) stored).
Proof.
  intros Hs. rewrite Z.max_r by lia. unfold chunk_file, file_header.
  transitivity (mem_get 64 (len stored) (file_fields c cols t copied stored ++
    (le_enc 4 (checksum stored) ++ take (length stored - 4) stored) ++ drop (length stored - 4) stored)).
  { by rewrite <- !app_assoc, take_drop. }
  apply mem_get_app; [apply file_fields_length|].
  rewrite length_app, Nat2Z.inj_add, le_enc_length, length_take by lia. lia.
Qed.

Lemma copy_binary_long rows : (10 < length (copy_binary rows))%nat.
Proof. unfold copy_binary. rewrite length_app. change (length COPY_SIGNATURE) with 11%nat. lia. Qed.

(** Behind four other bytes the signature is not where it is looked for. *)
Lemma shifted_unsigned x n rows :
  (1 < n)%nat → take 11 (le_enc 4 x ++ take n (copy_binary rows)) ≠ COPY_SIGNATURE.
Proof.
  intros Hn E. pose proof (le_enc_length 4 x ltac:(lia)) as Hl.
  destruct (le_enc 4 x) as [|b0 [|b1 [|b2 [|b3 [|b4 l]]]]]; cbn [length] in Hl; try lia.
  destruct n as [|[|n]]; [lia..|]. apply (f_equal (λ l, nth 5 l 0)) in E. discriminate.
Qed.

Context `{L : !ServerLaws} .

(** Neither branch of the reader gives rows from a file that the writer made. *)
Lemma restore_written_file id c cols t rows stored d :
  chunk_id c = id → in_i 64 id → len (copy_binary rows) < 0x3fffffff → len stored < 2 ^ 63 →
  compress_copy B (copy_binary rows) = Ok (t, stored) →
  ∀ header, parse_header id (chunk_file c cols t (len (copy_binary rows)) stored) = Ok (Some header) →
  let '(compression, uncompressed, size, sum) := header in
  ∀ bytes, file_data B (chunk_file c cols t (len (copy_binary rows)) stored) compression uncompressed size sum
           = Ok (Some bytes) → (restore_table id bytes d).1 = false.
Proof.
  intros <- Hid. pose proof (copy_binary_long rows) as Hlong.
  pose proof (λ x n, shifted_unsigned x n rows) as Hsign. generalize dependent (copy_binary rows).
  intros copied Hlong Hsign Hlen Hs Hcomp header.
  destruct (maxlen_bounds (len copied)) as [Hm1 Hm2]; [lia|].
  rewrite parse_chunk_file by (done || lia). intros [= <-] bytes. unfold file_data.
  destruct (mem_get 64 _ _) as [b|] eqn:Eb; [|done]. destruct (negb _); [done|].
  unfold compress_copy in Hcomp. apply outcome_bind_ok in Hcomp as ([r out] & _ & Hcomp).
  destruct (r <=? 0); injection Hcomp as <- <-; cbn [compression_code Z.eqb].
  - intros [= <-]. unfold restore_table. destruct (negb (table_created _)); [done|].
    destruct (negb _); [done|]. destruct (copy_from b) as [rs|] eqn:Ec; [|done]. exfalso.
    apply copy_signed in Ec.
    rewrite file_data_shifted in Eb by lia. apply (inj Some) in Eb. subst b.
    revert Ec. apply Hsign. lia.
  - destruct (palloc _) eqn:Ep; [|done..]. unfold palloc in Ep. destruct (_ && _) eqn:E; [|done]. lia.
Qed.

(** C40: A chunk in the object store cannot be used again: the data of its file are written
    behind a header of 68 bytes and read behind 64, and the size for their decompression is
    more than can be allocated, so a recall raises an error whatever the rows of the chunk are. *)
Theorem cold_chunk_not_recalled now id s c c0 cols t rows stored s' :
  orochi_catalog_get_chunk id (db s) = Some c →
  storage_tier c = OROCHI_TIER_COLD ∨ storage_tier c = OROCHI_TIER_FROZEN →
  chunk_id c0 = id → in_i 64 id → len (copy_binary rows) < 0x3fffffff → len stored < 2 ^ 63 →
  compress_copy B (copy_binary rows) = Ok (t, stored) →
  (∀ client key h down h', s3_download now client key h = Ok (down, h') → down_success down = true →
     down_data down = chunk_file c0 cols t (len (copy_binary rows)) stored) →
  orochi_recall_from_cold B g now id s ≠ Ok s'.
Proof.
  intros Hc Htier Hid Hrange Hlen Hs Hcomp Hdown. unfold orochi_recall_from_cold. rewrite Hc.
  replace (negb _ && negb _) with false by (destruct Htier as [-> | ->]; done).
  destruct (s3_client_create _) as [client|]; [|done]. destruct (s3_object_exists _ _ _ _) as [e h].
  destruct (negb e); [done|]. unfold orochi_restore_chunk_from_s3.
  destruct (s3_download _ _ _ _) as [[down h1]| | |] eqn:Ed; [|done..]. cbn [mbind outcome_bind].
  destruct (down_success down) eqn:Eok; [|done]. cbn [negb]. destruct (_ <? 64); [done|].
  rewrite (Hdown _ _ _ _ _ Ed Eok).
  destruct (parse_header _ _) as [[header|]| | |] eqn:Eh; [|done..]. cbn [mbind outcome_bind].
  pose proof (restore_written_file id c0 cols t rows stored (db s) Hid Hrange Hlen Hs Hcomp _ Eh) as Hno.
  destruct header as [[[compression uncompressed] size] sum].
  destruct (file_data _ _ _ _ _ _) as [[b|]| | |]; [|done..]. cbn [mbind outcome_bind].
  specialize (Hno b eq_refl). destruct (restore_table id b (db s)) as [ok d]. cbn in Hno. by rewrite Hno.
Qed.

(** ** Moves *)

(** The table that would be exported is not the one of the chunk, so a chunk never gets to
    the object store when there is no other table of that name. *)
Lemma transition_to_cold_fails now id s ok s' :
  relations (db s) !! dropped_relation id = None →
  do_tier_transition B g now id OROCHI_TIER_COLD s = Ok (ok, s') → ok = false ∧ sent s' = sent s.
Proof.
  intros Hrel. unfold do_tier_transition. destruct (orochi_catalog_get_chunk id (db s)) as [c|].
  2: by intros [= <- <-].
  change (OROCHI_TIER_COLD =? OROCHI_TIER_HOT) with false. change (OROCHI_TIER_COLD =? OROCHI_TIER_WARM) with false.
  cbn iota. intros E.
  apply outcome_bind_ok in E as ([[ok1 d1] h1] & E & E').
  change (OROCHI_TIER_COLD =? OROCHI_TIER_COLD) with true in E. cbn iota in E.
  apply outcome_bind_ok in E as (d & Ed & E). apply outcome_bind_ok in E as ([ok2 h2] & Ee & [= <- <- <-]).
  assert (Hd : relations d !! dropped_relation id = None).
  { destruct (is_compressed c); [by injection Ed as <-|]. unfold orochi_compress_chunk in Ed.
    destruct (orochi_catalog_get_chunk id (db s)) as [x|]; [|done]. destruct (is_compressed x); [by injection Ed as <-|].
    destruct (orochi_catalog_get_table _ _); [|done]. apply outcome_bind_ok in Ed as (l & _ & Ed).
    apply outcome_bind_ok in Ed as (d2 & Ei & [= <-]). cbn. rewrite lookup_insert_ne by done.
    unfold insert_compressed in Ei. destruct compress_function; [|done]. destruct (string_agg _); [|done].
    apply outcome_bind_ok in Ei as (b & _ & Ei). destruct (_ !! id); [done|]. by injection Ei as <-. }
  unfold export_chunk in Ee. cbn [s3_client_create] in Ee.
  destruct (orochi_catalog_get_chunk id d); [rewrite Hd in Ee|]; injection Ee as <- <-; by injection E' as <- <-.
Qed.

Lemma get_chunk_tier_same id tier d c :
  orochi_catalog_get_chunk id d = Some c →
  orochi_catalog_get_chunk id (orochi_catalog_update_chunk_tier id tier d) = Some (with_tier tier c).
Proof.
  unfold orochi_catalog_get_chunk. cbn. induction (chunk_rows d) as [|x l IH]; [done|].
  cbn [map]. rewrite !filter_cons. destruct (decide (chunk_id x = id)) as [<-|Hx].
  - rewrite Z.eqb_refl. rewrite decide_True by done. by intros [= ->].
  - replace (chunk_id x =? id) with false by lia. by rewrite decide_False.
Qed.

(** Freezing a chunk uploads nothing, and reading it afterwards raises an error unless the
    object happens to exist. *)
Lemma frozen_chunk_unreadable now now' id s c :
  orochi_catalog_get_chunk id (db s) = Some c →
  ∃ s', do_tier_transition B g now id OROCHI_TIER_FROZEN s = Ok (true, s') ∧ sent s' = sent s ∧
    ((∀ client, (s3_object_exists now' client (Some (orochi_generate_s3_key id)) (sent s)).1 = false) →
     orochi_prepare_chunk_for_read B g now' id s' = Err "chunk not found in S3").
Proof.
  intros Hc. unfold do_tier_transition. rewrite Hc. eexists. split; [done|]. split; [done|]. intros Hno.
  unfold orochi_prepare_chunk_for_read, orochi_get_chunk_tier, orochi_recall_from_cold. cbn [db set_db].
  rewrite (get_chunk_tier_same _ _ _ _ Hc). cbn [s3_client_create]. cbn [storage_tier with_tier].
  change (OROCHI_TIER_FROZEN =? OROCHI_TIER_COLD) with false.
  change (OROCHI_TIER_FROZEN =? OROCHI_TIER_FROZEN) with true. cbn [orb negb andb sent set_db].
  match goal with |- context [s3_object_exists now' ?client ?key ?h] =>
    specialize (Hno client); destruct (s3_object_exists now' client key h) as [e h'] end.
  cbn [fst] in Hno. by rewrite Hno.
Qed.

Context `{I : IntervalEpoch, TB : TimestampBuffer}.

(** No chunk that the server made is ever found by the search of its table, so a pass moves
    nothing. *)
Lemma tiering_moves_nothing now th time oid s :
  flat (db s) → orochi_apply_tiering_for_table B g now th time oid s = Ok (0, s).
Proof.
  intros Hf. unfold orochi_apply_tiering_for_table, orochi_catalog_get_hypertable_chunks.
  rewrite flat_no_chunks by done. by repeat case_match.
Qed.

Lemma apply_each_moves_nothing now th time l s : flat (db s) → apply_each B g now th time l s = Ok s.
Proof.
  intros Hf. induction l as [|p l IH]; [done|]. cbn [apply_each]. by rewrite tiering_moves_nothing.
Qed.

(** The rounds of the worker are therefore without effect, whatever the policies. *)
Lemma tiering_worker_idle `{C : PgClass, P : TimestampPlus} now th time s d :
  chunk_rows d = [] → reachable d (db s) → orochi_tiering_worker_main B g now th time s = Ok s.
Proof.
  intros Hd Hr. unfold orochi_tiering_worker_main, orochi_apply_tiering_policies.
  destruct (enable_tiering th); [|done]. apply apply_each_moves_nothing, (flat_reachable d); [done|].
  unfold flat, every_chunk. by rewrite Hd.
Qed.
End cold.

(** ** Witnesses *)

Section example.

#[local] Instance plain_rows : Tuples :=
  {| fields r := (λ z, Some (DatumVal z, 4)) <$> r; column_count r := 2 |}.
#[local] Instance capped : StringInfo := {| maxlen n := Z.min (2 * n + 1024) 0x3fffffff |}.
#[local] Instance signed_copy : Restore :=
  {| temp_file_written b := true; table_created id := true;
     copy_from b := if bool_decide (take 11 b = COPY_SIGNATURE) then Some [] else None |}.
#[local] Instance signed_copy_laws : ServerLaws.
Proof.
  split; cbn.
  - intros b rows. by case_bool_decide.
  - lia.
Qed.
#[local] Instance four_bytes : Varlena := four_byte_header.
#[local] Instance no_hash : Sha := {| SHA256 b := []; HMAC_SHA256 k b := [] |}.

Definition cold_chunk : OrochiChunkInfo :=
  {| chunk_id := 1; hypertable_oid := 16400; dimension_id := 0; tablespace := None; range_start := 0; range_end := 0; storage_tier := OROCHI_TIER_COLD;
     row_count := 2; size_bytes := 8192; is_compressed := true |}.
Definition cold_state : TierState :=
  {| db := set_chunks [cold_chunk] 2 empty_database; sent := []; tiering_rows := []; next_tiering_id := 1;
     access_rows := ∅; shards_accessed := ∅ |}.
Definition copied_rows : list Z := copy_binary [[1; 2]; [3; 4]].
Definition stored_rows : OrochiCompressionType * list Z :=
  get (Codec.OROCHI_COMPRESS_NONE, []) (compress_copy identity_build copied_rows).

(** A store that has the file. *)
#[local] Instance file_server : Http :=
  {| curl_easy_init h := true;
     curl_easy_perform h r :=
       {| curl_ok := true; curl_strerror := []; http_code := 200; header_lines := [];
          chunks := [chunk_file cold_chunk 2 stored_rows.1 (len copied_rows) stored_rows.2] |} |}.

Definition cold_settings : S3Settings :=
  {| s3_endpoint := Some (str "s3"); s3_bucket := Some (str "b"); s3_access_key := None;
     s3_secret_key := None; s3_region := None |}.
Definition cold_stamp : Stamp := {| date_stamp := []; amz_date := [] |}.

Lemma cold_chunk_not_recalled_witness :
  down_success (get (failed_download [] 0, []) (s3_download cold_stamp
    (s3_client_create (Some (s3_config cold_settings true 0))) (Some (str "k")) [])).1 = true ∧
  ∀ s, orochi_recall_from_cold identity_build cold_settings cold_stamp 1 cold_state ≠ Ok s.
Proof.
  split; [vm_compute; reflexivity|]. intros s.
  apply (cold_chunk_not_recalled identity_build cold_settings cold_stamp 1 cold_state cold_chunk cold_chunk 2
           stored_rows.1 [[1; 2]; [3; 4]] stored_rows.2).
  - reflexivity.
  - by left.
  - reflexivity.
  - by split.
  - by vm_compute.
  - by vm_compute.
  - vm_compute; reflexivity.
  - intros client key h down h' Hd Hok. unfold s3_download in Hd.
    destruct client, key; injection Hd as <- <-; try discriminate. vm_compute; reflexivity.
Defined.

End example.
