(* ===== verification/Executor.v ===== *)
(** * Remote tasks and worker connections

    [executor/distributed_executor.c]: the pool of connections to workers, the remote
    tasks of a distributed plan, and the loops that run them.  What libpq and the
    workers answer is a parameter: the functions of [Libpq] are given every call
    that was made before, so they may answer in any way.  A backend is a state with
    the list of these calls, and a function of it returns an outcome and the state in
    which an error leaves it, since the pool outlives the statement. *)
From stdpp Require Import sets relations.
From S2P Require Import Prelude CText.

Local Open Scope Z_scope.

(** ** libpq

    A [PGconn] is the number of its creation, a null pointer is [None]. *)
Inductive ExecStatusType := PGRES_COMMAND_OK | PGRES_TUPLES_OK | PGRES_FATAL_ERROR.

#[export] Instance exec_status_eq_dec : EqDecision ExecStatusType.
Proof. solve_decision. Defined.

(** A row has the text of each field or null; [fields] are their types. *)
Record PGresult := {
  PQresultStatus : ExecStatusType; PQcmdTuples : text;
  fields : list Z; tuples : list (list (option text)) }.

Inductive RaftCall := IsLeader | Prepare (gid : text) (shards : list Z) | Commit (gid : text)
| Abort (gid : text) | WaitForCommit (gid : text) (timeout_ms : Z) | GetLeader.

Inductive Event :=
| EClock
| EConnect (node conn : Z) (connstr : text)
| EFinish (conn : Z)
| EExec (conn : Z) (sql : text)
| ESend (conn : Z) (sql : text)
| EConsume (conn : Z)
| EGetResult (conn : Z)
| ESelect (conn timeout_ms : Z)
| ECancel (conn : Z)
| ERaft (call : RaftCall).

#[export] Instance raft_call_eq_dec : EqDecision RaftCall.
Proof. solve_decision. Defined.
#[export] Instance event_eq_dec : EqDecision Event.
Proof. solve_decision. Defined.

Abbreviation history := (list Event).

Class Libpq := {
  GetCurrentTimestamp : history → Z;
  connection_ok : history → Z → bool;
  PQerrorMessage : history → Z → text;
  PQexec : history → Z → text → PGresult;
  PQsendQuery : history → Z → text → bool;
  PQconsumeInput : history → Z → bool;
  PQisBusy : history → Z → bool;
  PQgetResult : history → Z → option PGresult;
  PQsocket : history → Z → Z;
  select : history → Z → Z → Z;
  PQgetCancel : history → Z → bool;
  raft_answer : history → RaftCall → bool }.

(** ** The state of a backend *)
Record ConnectionPoolEntry := {
  e_node_id : Z; e_conn : option Z; in_use : bool; last_used : Z }.

Record DistributedTransactionState := {
  gid : text; participants : list Z; prepared : bool }.

Record NodeAddress := { a_node_id : Z; hostname : text; port : Z }.

Record Backend := {
  locks_initialized : bool; pool_initialized : bool;
  connection_pool : list ConnectionPoolEntry;
  next_conn : Z; calls : history;
  node_rows : list NodeAddress; database : text; pid : Z;
  current_dtxn : option DistributedTransactionState; txn_counter : Z;
  orochi_use_raft_consensus : bool }.

Definition backend (A : Type) : Type := Backend → outcome A * Backend.

#[export] Instance backend_ret : MRet backend := λ A a b, (Ok a, b).
#[export] Instance backend_bind : MBind backend := λ A B f m b,
  match m b with
  | (Ok a, b) => f a b
  | (Err e, b) => (Err e, b)
  | (Undef, b) => (Undef, b)
  | (Diverge, b) => (Diverge, b)
  end.

Definition lift {A} (o : outcome A) : backend A := λ b, (o, b).
Definition ask {A} (f : Backend → A) : backend A := λ b, (Ok (f b), b).
Definition update (f : Backend → Backend) : backend unit := λ b, (Ok tt, f b).

Definition add_call (e : Event) (b : Backend) : Backend :=
  {| locks_initialized := locks_initialized b; pool_initialized := pool_initialized b;
     connection_pool := connection_pool b; next_conn := next_conn b; calls := e :: calls b;
     node_rows := node_rows b; database := database b; pid := pid b;
     current_dtxn := current_dtxn b; txn_counter := txn_counter b;
     orochi_use_raft_consensus := orochi_use_raft_consensus b |}.

Definition set_pool (l : list ConnectionPoolEntry) (b : Backend) : Backend :=
  {| locks_initialized := locks_initialized b; pool_initialized := pool_initialized b;
     connection_pool := l; next_conn := next_conn b; calls := calls b;
     node_rows := node_rows b; database := database b; pid := pid b;
     current_dtxn := current_dtxn b; txn_counter := txn_counter b;
     orochi_use_raft_consensus := orochi_use_raft_consensus b |}.

Definition set_dtxn (d : option DistributedTransactionState) (b : Backend) : Backend :=
  {| locks_initialized := locks_initialized b; pool_initialized := pool_initialized b;
     connection_pool := connection_pool b; next_conn := next_conn b; calls := calls b;
     node_rows := node_rows b; database := database b; pid := pid b;
     current_dtxn := d; txn_counter := txn_counter b;
     orochi_use_raft_consensus := orochi_use_raft_consensus b |}.

Definition count_transaction (b : Backend) : Backend :=
  {| locks_initialized := locks_initialized b; pool_initialized := pool_initialized b;
     connection_pool := connection_pool b; next_conn := next_conn b; calls := calls b;
     node_rows := node_rows b; database := database b; pid := pid b;
     current_dtxn := current_dtxn b; txn_counter := u64 (txn_counter b + 1);
     orochi_use_raft_consensus := orochi_use_raft_consensus b |}.

Definition init_executor_locks (b : Backend) : Backend :=
  {| locks_initialized := true; pool_initialized := pool_initialized b;
     connection_pool := connection_pool b; next_conn := next_conn b; calls := calls b;
     node_rows := node_rows b; database := database b; pid := pid b;
     current_dtxn := current_dtxn b; txn_counter := txn_counter b;
     orochi_use_raft_consensus := orochi_use_raft_consensus b |}.

(** Before the first call the pool has its static size of zero. *)
Definition init_connection_pool (b : Backend) : Backend :=
  if pool_initialized b then b else
  {| locks_initialized := true; pool_initialized := true;
     connection_pool := connection_pool b; next_conn := next_conn b; calls := calls b;
     node_rows := node_rows b; database := database b; pid := pid b;
     current_dtxn := current_dtxn b; txn_counter := txn_counter b;
     orochi_use_raft_consensus := orochi_use_raft_consensus b |}.

Definition MAX_CONNECTION_POOL_SIZE : Z := 64.
Definition CONNECTION_TIMEOUT_SEC : Z := 30.
Definition EXECUTOR_MAX_RETRIES : Z := 3.
Definition EXECUTOR_SLOW_START_INTERVAL_MS : Z := 10.
Definition EXECUTOR_MAX_CONNECTIONS : Z := 64.

Definition build_connection_string (n : NodeAddress) (dbname : text) : text :=
  str "host=" ++ hostname n ++ str " port=" ++ print (port n) ++ str " dbname=" ++ dbname ++
  str " connect_timeout=" ++ print CONNECTION_TIMEOUT_SEC.

Definition orochi_catalog_get_node (id : Z) (b : Backend) : option NodeAddress :=
  head (filter (λ n, a_node_id n = id) (node_rows b)).

(** ** Tasks *)
Inductive TaskState :=
  TASK_PENDING | TASK_RUNNING | TASK_COMPLETED | TASK_FAILED | TASK_CANCELLED.

#[export] Instance task_state_eq_dec : EqDecision TaskState.
Proof. solve_decision. Defined.

Record FragmentQuery := { shard_id : Z; node_id : Z; query_string : text }.

Record RemoteTask := {
  fragment : FragmentQuery; state : TaskState; retry_count : Z; connection : option Z;
  started_at : Z; completed_at : Z; result : option PGresult;
  error_message : option text; rows_affected : Z }.

Record DistributedPlan := { fragment_queries : list FragmentQuery }.

Record DistributedExecutorState := {
  tasks : list RemoteTask; pending_count : Z; running_count : Z; completed_count : Z;
  failed_count : Z; max_parallel : Z; all_completed : bool; has_error : bool;
  x_error_message : option text }.

(** A task zeroed by [palloc0]. *)
Definition new_task (f : FragmentQuery) : RemoteTask :=
  {| fragment := f; state := TASK_PENDING; retry_count := 0; connection := None;
     started_at := 0; completed_at := 0; result := None; error_message := None;
     rows_affected := 0 |}.

Definition mark_running (now : Z) (t : RemoteTask) : RemoteTask :=
  {| fragment := fragment t; state := TASK_RUNNING; retry_count := retry_count t;
     connection := connection t; started_at := now; completed_at := completed_at t;
     result := result t; error_message := error_message t; rows_affected := rows_affected t |}.

Definition attach (c : Z) (t : RemoteTask) : RemoteTask :=
  {| fragment := fragment t; state := state t; retry_count := retry_count t;
     connection := Some c; started_at := started_at t; completed_at := completed_at t;
     result := result t; error_message := error_message t; rows_affected := rows_affected t |}.

Definition set_state (s : TaskState) (t : RemoteTask) : RemoteTask :=
  {| fragment := fragment t; state := s; retry_count := retry_count t;
     connection := connection t; started_at := started_at t; completed_at := completed_at t;
     result := result t; error_message := error_message t; rows_affected := rows_affected t |}.

Definition mark_failed (msg : text) (t : RemoteTask) : RemoteTask :=
  {| fragment := fragment t; state := TASK_FAILED; retry_count := retry_count t;
     connection := connection t; started_at := started_at t; completed_at := completed_at t;
     result := result t; error_message := Some msg; rows_affected := rows_affected t |}.

Definition mark_completed (r : PGresult) (rows : Z) (t : RemoteTask) : RemoteTask :=
  {| fragment := fragment t; state := TASK_COMPLETED; retry_count := retry_count t;
     connection := connection t; started_at := started_at t; completed_at := completed_at t;
     result := Some r; error_message := error_message t; rows_affected := rows |}.

Definition stamp (now : Z) (t : RemoteTask) : RemoteTask :=
  {| fragment := fragment t; state := state t; retry_count := retry_count t;
     connection := connection t; started_at := started_at t; completed_at := now;
     result := result t; error_message := error_message t; rows_affected := rows_affected t |}.

Definition orochi_retry_task (t : RemoteTask) : bool * RemoteTask :=
  if EXECUTOR_MAX_RETRIES <=? retry_count t then (false, t)
  else (true, {| fragment := fragment t; state := TASK_PENDING;
                 retry_count := retry_count t + 1; connection := connection t;
                 started_at := started_at t; completed_at := completed_at t;
                 result := result t; error_message := error_message t;
                 rows_affected := rows_affected t |}).

Definition good (r : PGresult) : bool :=
  match PQresultStatus r with
  | PGRES_COMMAND_OK | PGRES_TUPLES_OK => true
  | PGRES_FATAL_ERROR => false
  end.

(** ** Operations *)
Section Operations.
Context `{L : Libpq}.

Definition clock : backend Z := λ b, (Ok (GetCurrentTimestamp (calls b)), add_call EClock b).

(** [PQstatus(c) == CONNECTION_OK], which a null pointer is not. *)
Definition status_ok (c : option Z) : backend bool :=
  ask (λ b, match c with Some c => connection_ok (calls b) c | None => false end).

Definition finish (c : option Z) : backend unit :=
  match c with Some c => update (add_call (EFinish c)) | None => mret tt end.

Definition error_of (c : Z) : backend text := ask (λ b, PQerrorMessage (calls b) c).

Definition exec (c : Z) (sql : text) : backend PGresult :=
  λ b, (Ok (PQexec (calls b) c sql), add_call (EExec c sql) b).

(** The lock is a null pointer until [init_executor_locks]. *)
Definition acquire_pool_lock : backend unit :=
  λ b, (if locks_initialized b then Ok tt else Undef, b).

(** The first loop of [orochi_get_worker_connection]. *)
Fixpoint find_idle (node : Z) (l : list ConnectionPoolEntry) :
    backend (option Z * list ConnectionPoolEntry) :=
  match l with
  | [] => mret (None, [])
  | e :: l =>
    if (e_node_id e =? node) && negb (in_use e) then
      ok ← status_ok (e_conn e);
      if ok : bool then
        now ← clock;
        mret (e_conn e, {| e_node_id := e_node_id e; e_conn := e_conn e;
                           in_use := true; last_used := now |} :: l)
      else
        _ ← finish (e_conn e);
        '(r, l) ← find_idle node l;
        mret (r, {| e_node_id := 0; e_conn := None; in_use := false;
                    last_used := last_used e |} :: l)
    else
      '(r, l) ← find_idle node l;
      mret (r, e :: l)
  end.

(** [PQconnectdb] returns an object of its own in either case. *)
Definition connected (n : NodeAddress) (b : Backend) : Backend :=
  {| locks_initialized := locks_initialized b; pool_initialized := pool_initialized b;
     connection_pool := connection_pool b; next_conn := next_conn b + 1;
     calls := EConnect (a_node_id n) (next_conn b)
                (build_connection_string n (database b)) :: calls b;
     node_rows := node_rows b; database := database b; pid := pid b;
     current_dtxn := current_dtxn b; txn_counter := txn_counter b;
     orochi_use_raft_consensus := orochi_use_raft_consensus b |}.

Definition PQconnectdb (n : NodeAddress) : backend Z := λ b, (Ok (next_conn b), connected n b).

Definition add_to_pool (node c : Z) : backend unit :=
  l ← ask connection_pool;
  if len l <? MAX_CONNECTION_POOL_SIZE then
    now ← clock;
    update (set_pool (l ++ [{| e_node_id := node; e_conn := Some c; in_use := true;
                               last_used := now |}]))
  else mret tt.

Definition orochi_get_worker_connection (node : Z) : backend (option Z) :=
  _ ← update init_connection_pool;
  _ ← acquire_pool_lock;
  l ← ask connection_pool;
  '(found, l) ← find_idle node l;
  _ ← update (set_pool l);
  match found with
  | Some c => mret (Some c)
  | None =>
    n ← ask (orochi_catalog_get_node node);
    match n with
    | None => mret None
    | Some n =>
      c ← PQconnectdb n;
      ok ← status_ok (Some c);
      if ok : bool then
        _ ← add_to_pool node c;
        mret (Some c)
      else
        _ ← finish (Some c);
        mret None
    end
  end.

(** The loop of [orochi_release_worker_connection]. *)
Fixpoint mark_idle (now c : Z) (l : list ConnectionPoolEntry) : list ConnectionPoolEntry :=
  match l with
  | [] => []
  | e :: l =>
    if bool_decide (e_conn e = Some c) then
      {| e_node_id := e_node_id e; e_conn := e_conn e; in_use := false; last_used := now |} :: l
    else e :: mark_idle now c l
  end.

Definition pooled (c : Z) (l : list ConnectionPoolEntry) : bool :=
  existsb (λ e, bool_decide (e_conn e = Some c)) l.

Definition orochi_release_worker_connection (c : option Z) : backend unit :=
  match c with
  | None => mret tt
  | Some c =>
    _ ← acquire_pool_lock;
    l ← ask connection_pool;
    if pooled c l then
      now ← clock;
      update (set_pool (mark_idle now c l))
    else finish (Some c)
  end.

Definition finish_all (l : list ConnectionPoolEntry) : backend unit :=
  foldr (λ e k, _ ← finish (e_conn e); k) (mret tt : backend unit) l.

Definition orochi_close_all_connections : backend unit :=
  _ ← acquire_pool_lock;
  l ← ask connection_pool;
  _ ← update (set_pool []);
  finish_all l.

(** The result of a query that has one. *)
Definition take_result (c : Z) (r : PGresult) (t : RemoteTask) : backend RemoteTask :=
  if good r then
    rows ← lift (atol (PQcmdTuples r));
    mret (mark_completed r rows t)
  else
    msg ← error_of c;
    mret (mark_failed msg t).

Definition orochi_execute_remote_task (t : RemoteTask) : backend RemoteTask :=
  now ← clock;
  let t := mark_running now t in
  c ← orochi_get_worker_connection (node_id (fragment t));
  match c with
  | None => mret (mark_failed (str "Failed to connect to worker node") t)
  | Some c =>
    let t := attach c t in
    r ← exec c (query_string (fragment t));
    t ← take_result c r t;
    now ← clock;
    mret (stamp now t)
  end.

Definition consume_input (c : Z) : backend bool :=
  λ b, (Ok (PQconsumeInput (calls b) c), add_call (EConsume c) b).

Definition get_result (c : Z) : backend (option PGresult) :=
  λ b, (Ok (PQgetResult (calls b) c), add_call (EGetResult c) b).

Definition wait_readable (c timeout_ms : Z) : backend Z :=
  λ b, (Ok (select (calls b) c timeout_ms), add_call (ESelect c timeout_ms) b).

Definition is_completed (t : RemoteTask) : bool := bool_decide (state t = TASK_COMPLETED).

Definition orochi_wait_for_task (t : RemoteTask) (timeout_ms : Z) : backend (bool * RemoteTask) :=
  if bool_decide (state t = TASK_RUNNING) then
    match connection t with
    | None => mret (false, t)
    | Some c =>
      socket ← ask (λ b, PQsocket (calls b) c);
      if socket <? 0 then mret (false, t) else
      ret ← wait_readable c timeout_ms;
      if ret <=? 0 then mret (false, t) else
      consumed ← consume_input c;
      if negb consumed then
        msg ← error_of c;
        mret (false, mark_failed msg t)
      else
      busy ← ask (λ b, PQisBusy (calls b) c);
      if busy : bool then mret (false, t) else
      r ← get_result c;
      match r with
      | None => mret (is_completed t, t)
      | Some r =>
        t ← take_result c r t;
        now ← clock;
        mret (is_completed t, stamp now t)
      end
    end
  else mret (is_completed t, t).

(** The loop over the results that are left. *)
Fixpoint drain_results (fuel : nat) (c : Z) : backend unit :=
  match fuel with
  | O => lift Diverge
  | S fuel =>
    r ← get_result c;
    match r with Some _ => drain_results fuel c | None => mret tt end
  end.

Definition orochi_cancel_task (fuel : nat) (t : RemoteTask) : backend RemoteTask :=
  if bool_decide (state t = TASK_RUNNING) then
    match connection t with
    | None => mret (set_state TASK_CANCELLED t)
    | Some c =>
      cancel ← ask (λ b, PQgetCancel (calls b) c);
      _ ← (if cancel : bool then update (add_call (ECancel c)) else mret tt);
      now ← clock;
      _ ← drain_results fuel c;
      mret (stamp now (set_state TASK_CANCELLED t))
    end
  else mret t.

(** ** Adaptive execution *)

(** The loop that starts tasks, with the counts of pending and running tasks. *)
Fixpoint start_tasks (active : Z) (l : list RemoteTask) (pending running : Z) :
    backend (list RemoteTask * Z * Z) :=
  match l with
  | [] => mret ([], pending, running)
  | t :: l =>
    if bool_decide (state t = TASK_PENDING) && (running <? active) then
      t ← orochi_execute_remote_task t;
      '(l, pending, running) ← start_tasks active l (pending - 1) (running + 1);
      mret (t :: l, pending, running)
    else
      '(l, pending, running) ← start_tasks active l pending running;
      mret (t :: l, pending, running)
  end.

(** The loop that waits, with the counts of running and completed tasks. *)
Fixpoint wait_tasks (l : list RemoteTask) (running completed : Z) :
    backend (list RemoteTask * Z * Z) :=
  match l with
  | [] => mret ([], running, completed)
  | t :: l =>
    if bool_decide (state t = TASK_RUNNING) then
      '(ok, t) ← orochi_wait_for_task t EXECUTOR_SLOW_START_INTERVAL_MS;
      '(l, running, completed) ←
        (if ok : bool then wait_tasks l (running - 1) (completed + 1)
         else wait_tasks l running completed);
      mret (t :: l, running, completed)
    else
      '(l, running, completed) ← wait_tasks l running completed;
      mret (t :: l, running, completed)
  end.

Definition with_round (l : list RemoteTask) (pending running completed : Z)
    (s : DistributedExecutorState) : DistributedExecutorState :=
  {| tasks := l; pending_count := pending; running_count := running;
     completed_count := completed; failed_count := failed_count s;
     max_parallel := max_parallel s;
     all_completed := completed + failed_count s =? len l;
     has_error := has_error s; x_error_message := x_error_message s |}.

(** A round of the outer loop. *)
Definition adaptive_round (active : Z) (s : DistributedExecutorState) :
    backend DistributedExecutorState :=
  '(l, pending, running) ← start_tasks active (tasks s) (pending_count s) (running_count s);
  '(l, running, completed) ← wait_tasks l running (completed_count s);
  mret (with_round l pending running completed s).

Fixpoint adaptive_loop (fuel : nat) (active : Z) (s : DistributedExecutorState) :
    backend DistributedExecutorState :=
  if negb (all_completed s) && negb (has_error s) then
    match fuel with
    | O => lift Diverge
    | S fuel =>
      s ← adaptive_round active s;
      adaptive_loop fuel (if active <? max_parallel s then active + 1 else active) s
    end
  else mret s.

Definition orochi_adaptive_execute (fuel : nat) (s : DistributedExecutorState) :
    backend DistributedExecutorState := adaptive_loop fuel 1 s.

Definition orochi_execute_distributed_plan (fuel : nat) (plan : DistributedPlan)
    (s : DistributedExecutorState) : backend DistributedExecutorState :=
  orochi_adaptive_execute fuel
    {| tasks := map new_task (fragment_queries plan);
       pending_count := len (fragment_queries plan); running_count := 0;
       completed_count := 0; failed_count := 0; max_parallel := max_parallel s;
       all_completed := false; has_error := false; x_error_message := x_error_message s |}.

Definition adjusted (avg max : Z) : Z :=
  if avg <? 10 then Z.min (max * 2) EXECUTOR_MAX_CONNECTIONS
  else if avg <? 50 then Z.min (max + 2) EXECUTOR_MAX_CONNECTIONS
  else if 1000 <? avg then Z.max (max / 2) 1
  else if 500 <? avg then Z.max (max - 1) 1
  else max.

Definition latency (t : RemoteTask) : option Z :=
  if is_completed t && (started_at t <? completed_at t)
  then Some (Z.quot (completed_at t - started_at t) 1000) else None.

Definition orochi_adjust_parallelism (s : DistributedExecutorState) : DistributedExecutorState :=
  let l := omap latency (tasks s) in
  match l with
  | [] => s
  | _ =>
    {| tasks := tasks s; pending_count := pending_count s; running_count := running_count s;
       completed_count := completed_count s; failed_count := failed_count s;
       max_parallel := adjusted (Z.quot (foldl Z.add 0 l) (len l)) (max_parallel s);
       all_completed := all_completed s; has_error := has_error s;
       x_error_message := x_error_message s |}
  end.

(** ** Parallel execution *)

Definition send_query (c : Z) (sql : text) : backend bool :=
  λ b, (Ok (PQsendQuery (calls b) c sql), add_call (ESend c sql) b).

Definition orochi_start_async_task (t : RemoteTask) : backend RemoteTask :=
  now ← clock;
  let t := mark_running now t in
  c ← orochi_get_worker_connection (node_id (fragment t));
  match c with
  | None => mret (mark_failed (str "Failed to connect to worker node") t)
  | Some c =>
    let t := attach c t in
    sent ← send_query c (query_string (fragment t));
    if sent : bool then mret t
    else
      msg ← error_of c;
      mret (mark_failed msg t)
  end.

Definition orochi_check_task_completion (t : RemoteTask) : backend (bool * RemoteTask) :=
  if bool_decide (state t = TASK_RUNNING) then
    match connection t with
    | None => mret (true, t)
    | Some c =>
      consumed ← consume_input c;
      if negb consumed then
        msg ← error_of c;
        now ← clock;
        mret (true, stamp now (mark_failed msg t))
      else
      busy ← ask (λ b, PQisBusy (calls b) c);
      if busy : bool then mret (false, t) else
      r ← get_result c;
      match r with
      | None =>
        now ← clock;
        mret (true, stamp now (set_state TASK_COMPLETED t))
      | Some r =>
        t ← take_result c r t;
        now ← clock;
        mret (true, stamp now t)
      end
    end
  else mret (true, t).

(** The tasks are objects of their own and the lists have their positions.  [started]
    is the number of positions that the inner loop takes from [pending]. *)
Record Parallel := {
  p_tasks : list RemoteTask; p_pending : list nat; p_running : list nat; p_active : Z;
  p_completed : Z; p_failed : Z }.

Fixpoint start_pending (pending : list nat) (parallelism : Z) (p : Parallel) : backend Parallel :=
  match pending with
  | [] => mret p
  | i :: pending =>
    if p_active p <? parallelism then
      t ← lift (deref (p_tasks p !! i));
      t ← orochi_start_async_task t;
      start_pending pending parallelism
        {| p_tasks := <[i := t]> (p_tasks p); p_pending := pending;
           p_running := p_running p ++ [i]; p_active := p_active p + 1;
           p_completed := p_completed p; p_failed := p_failed p |}
    else mret p
  end.

(** [list_delete_ptr] moves the rest of the array down; what was the last cell keeps its
    value.  [n] is the length of the list, [cells] the memory behind it. *)
Fixpoint index_of (i : nat) (l : list nat) : option nat :=
  match l with
  | [] => None
  | x :: l => if bool_decide (x = i) then Some O else S <$> index_of i l
  end.

Definition list_delete_ptr (i n : nat) (cells : list nat) : list nat * nat :=
  match index_of i (take n cells) with
  | None => (cells, n)
  | Some k =>
    (take k cells ++ drop (S k) (take n cells) ++ drop (n - 1) cells, (n - 1)%nat)
  end.

(** What the loop does for a task that is done. *)
Definition settle (i : nat) (t : RemoteTask) (p : Parallel) : Parallel :=
  match state t with
  | TASK_COMPLETED =>
    {| p_tasks := <[i := t]> (p_tasks p); p_pending := p_pending p;
       p_running := p_running p; p_active := p_active p - 1;
       p_completed := p_completed p + 1; p_failed := p_failed p |}
  | TASK_FAILED =>
    let '(again, t) := orochi_retry_task t in
    {| p_tasks := <[i := t]> (p_tasks p);
       p_pending := if again then p_pending p ++ [i] else p_pending p;
       p_running := p_running p; p_active := p_active p - 1;
       p_completed := p_completed p;
       p_failed := if again then p_failed p else p_failed p + 1 |}
  | _ =>
    {| p_tasks := <[i := t]> (p_tasks p); p_pending := p_pending p;
       p_running := p_running p; p_active := p_active p - 1;
       p_completed := p_completed p; p_failed := p_failed p |}
  end.

Definition set_task (i : nat) (t : RemoteTask) (p : Parallel) : Parallel :=
  {| p_tasks := <[i := t]> (p_tasks p); p_pending := p_pending p; p_running := p_running p;
     p_active := p_active p; p_completed := p_completed p; p_failed := p_failed p |}.

(** The loop over the running tasks: [lc] is the position of the cell, and the next one is
    computed before the list changes.  [fuel] is the length of the list at the start. *)
Fixpoint check_running (fuel lc n : nat) (cells : list nat) (p : Parallel) :
    backend (Parallel * list nat) :=
  match fuel with
  | O => mret (p, take n cells)
  | S fuel =>
    i ← lift (deref (cells !! lc));
    t ← lift (deref (p_tasks p !! i));
    let next := bool_decide (S lc < n)%nat in
    '(done, t) ← orochi_check_task_completion t;
    let '(p, (cells, n)) :=
      if done : bool then (settle i t p, list_delete_ptr i n cells)
      else (set_task i t p, (cells, n)) in
    if next then check_running fuel (S lc) n cells p else mret (p, take n cells)
  end.

Definition with_running (l : list nat) (p : Parallel) : Parallel :=
  {| p_tasks := p_tasks p; p_pending := p_pending p; p_running := l; p_active := p_active p;
     p_completed := p_completed p; p_failed := p_failed p |}.

Definition parallel_round (parallelism : Z) (p : Parallel) : backend Parallel :=
  p ← start_pending (p_pending p) parallelism p;
  '(p, l) ← check_running (length (p_running p)) 0 (length (p_running p)) (p_running p) p;
  mret (with_running l p).

Fixpoint parallel_loop (fuel : nat) (parallelism : Z) (p : Parallel) : backend Parallel :=
  match p_pending p, p_running p with
  | [], [] => mret p
  | _, _ =>
    match fuel with
    | O => lift Diverge
    | S fuel => p ← parallel_round parallelism p; parallel_loop fuel parallelism p
    end
  end.

Definition orochi_parallel_execute (fuel : nat) (parallelism : Z) (s : DistributedExecutorState) :
    backend DistributedExecutorState :=
  p ← parallel_loop fuel parallelism
        {| p_tasks := tasks s; p_pending := seq 0 (length (tasks s)); p_running := [];
           p_active := 0; p_completed := completed_count s; p_failed := failed_count s |};
  mret {| tasks := p_tasks p; pending_count := pending_count s;
          running_count := running_count s; completed_count := p_completed p;
          failed_count := p_failed p; max_parallel := max_parallel s; all_completed := true;
          has_error := has_error s; x_error_message := x_error_message s |}.

(** ** Errors *)
Definition orochi_is_retryable_error (msg : option text) : bool :=
  match msg with
  | None => false
  | Some m => strstr (str "connection") m || strstr (str "timeout") m
  end.

Definition orochi_handle_task_failure (t : RemoteTask) (s : DistributedExecutorState) :
    RemoteTask * DistributedExecutorState :=
  let '(again, t') := if orochi_is_retryable_error (error_message t)
                      then orochi_retry_task t else (false, t) in
  if again then (t', s)
  else (set_state TASK_FAILED t,
        {| tasks := tasks s; pending_count := pending_count s;
           running_count := running_count s; completed_count := completed_count s;
           failed_count := failed_count s + 1; max_parallel := max_parallel s;
           all_completed := all_completed s; has_error := true;
           x_error_message := error_message t |}).

Definition orochi_propagate_error (s : DistributedExecutorState) : backend unit :=
  if has_error s && bool_decide (is_Some (x_error_message s))
  then lift (Err "distributed query failed") else mret tt.

(** ** Reasoning about backends

    [wp m Q b]: from [b] the call [m] returns, with a value and a state that satisfy [Q]. *)
Definition wp {A} (m : backend A) (Q : A → Backend → Prop) (b : Backend) : Prop :=
  match m b with (Ok a, b) => Q a b | _ => False end.

Lemma wp_ret {A} (a : A) Q b : Q a b → wp (mret a) Q b.
Proof. done. Qed.

Lemma wp_bind {A B} (m : backend A) (k : A → backend B) Q b :
  wp m (λ a, wp (k a) Q) b → wp (m ≫= k) Q b.
Proof. unfold wp, mbind, backend_bind. by destruct (m b) as [[] ?]. Qed.

Lemma wp_mono {A} (m : backend A) (P Q : A → Backend → Prop) b :
  wp m P b → (∀ a b', P a b' → Q a b') → wp m Q b.
Proof. unfold wp. destruct (m b) as [[] ?]; naive_solver. Qed.

Lemma wp_run {A} (m : backend A) Q b : wp m Q b → ∃ a b', m b = (Ok a, b') ∧ Q a b'.
Proof. unfold wp. destruct (m b) as [[] ?]; naive_solver. Qed.

Lemma wp_ok {A} (m : backend A) Q a b b' : wp m Q b → m b = (Ok a, b') → Q a b'.
Proof. unfold wp. intros Hw Hm. by rewrite Hm in Hw. Qed.

Lemma wp_lift {A} (o : outcome A) Q b a : o = Ok a → Q a b → wp (lift o) Q b.
Proof. by intros ->. Qed.

(** ** What calls do not touch *)
Definition backend_ok (b : Backend) : Prop := pool_initialized b = true → locks_initialized b = true.

(** Queries executed, queries sent, and polls that were answered with busy. *)
Fixpoint execs (h : history) : nat :=
  match h with [] => 0 | EExec _ _ :: h => S (execs h) | _ :: h => execs h end.
Fixpoint sends (h : history) : nat :=
  match h with [] => 0 | ESend _ _ :: h => S (sends h) | _ :: h => sends h end.
Fixpoint busy_polls (h : history) : nat :=
  match h with
  | [] => 0
  | EConsume c :: h' => (if PQisBusy h c then 1 else 0) + busy_polls h'
  | _ :: h => busy_polls h
  end.

(** A state that is reached without running a query. *)
Definition quiet (b b' : Backend) : Prop :=
  (backend_ok b → backend_ok b') ∧ execs (calls b') = execs (calls b) ∧
  sends (calls b') = sends (calls b) ∧ busy_polls (calls b') = busy_polls (calls b).

#[export] Instance quiet_preorder : PreOrder quiet.
Proof. split; unfold quiet; [done|]. intros b1 b2 b3 (H1 & -> & -> & ->) (H2 & -> & -> & ->). auto. Qed.

Lemma find_idle_quiet node l b : wp (find_idle node l) (λ _, quiet b) b.
Proof.
  revert b. induction l as [|e l IH]; intros b; [by apply wp_ret|]. cbn [find_idle]. case_match.
  - apply wp_bind. cbn. case_match.
    + done.
    + apply wp_bind. destruct (e_conn e); cbn.
      * apply wp_bind. eapply wp_mono; [apply IH|]. intros [??] b' Hb. exact Hb.
      * apply wp_bind. eapply wp_mono; [apply IH|]. intros [??] b' Hb. exact Hb.
  - apply wp_bind. eapply wp_mono; [apply IH|]. intros [??] b' Hb. exact Hb.
Qed.

Lemma get_connection_quiet node b :
  backend_ok b → wp (orochi_get_worker_connection node) (λ _ b', quiet b b' ∧ backend_ok b') b.
Proof.
  intros Hb. unfold orochi_get_worker_connection.
  assert (quiet b (init_connection_pool b) ∧ locks_initialized (init_connection_pool b) = true) as [Hq Hl].
  { unfold quiet, backend_ok, init_connection_pool. destruct (pool_initialized b) eqn:E; cbn; auto. }
  assert (quiet (init_connection_pool b) (init_connection_pool b)) as Hq0 by done.
  apply wp_bind. cbn. apply wp_bind. unfold wp at 1, acquire_pool_lock. rewrite Hl.
  do 2 apply wp_bind. cbn. eapply wp_mono; [apply find_idle_quiet|]. intros [found l] b1 Hq1.
  assert (quiet b b1) as Hqb1 by (by etrans). clear Hq0 Hq1 Hq Hl.
  assert (quiet b1 (set_pool l b1)) as Hs by done.
  apply wp_bind. cbn. assert (quiet b (set_pool l b1)) as H2 by (by etrans).
  destruct found; [split; [done|]; by apply H2|]. apply wp_bind. cbn.
  case_match; [|split; [done|]; by apply H2]. apply wp_bind. cbn. apply wp_bind. cbn. case_match.
  - apply wp_bind. unfold add_to_pool. apply wp_bind. cbn. case_match; cbn; split; try exact H2; by apply H2.
  - apply wp_bind. cbn. split; [exact H2|]. by apply H2.
Qed.

(** The queries executed, the last one first. *)
Definition exec_list (h : history) : list (Z * text) :=
  omap (λ e, match e with EExec c sql => Some (c, sql) | _ => None end) h.

(** The same with the answers: whether each of them completed as a command. *)
Fixpoint exec_answers (h : history) : list (Z * text * bool) :=
  match h with
  | [] => []
  | EExec c sql :: h =>
    (c, sql, bool_decide (PQresultStatus (PQexec h c sql) = PGRES_COMMAND_OK)) :: exec_answers h
  | _ :: h => exec_answers h
  end.

(** What getting and giving back connections leaves alone. *)
Record pool_frame (b b' : Backend) : Prop := {
  frame_nodes : node_rows b' = node_rows b;
  frame_dtxn : current_dtxn b' = current_dtxn b;
  frame_execs : exec_answers (calls b') = exec_answers (calls b);
  frame_calls : ∀ e, e ∈ calls b → e ∈ calls b' }.

#[export] Instance pool_frame_preorder : PreOrder pool_frame.
Proof.
  split; [by constructor|]. intros b1 b2 b3 [H1 H2 H3 H4] [H5 H6 H7 H8].
  constructor; [by rewrite H5|by rewrite H6|by rewrite H7|auto].
Qed.

Lemma pool_frame_call e b :
  match e with EExec _ _ => False | _ => True end → pool_frame b (add_call e b).
Proof. intros He. constructor; [done|done|by destruct e|]. intros x Hx. cbn. by right. Qed.

Lemma wp_and {A} (m : backend A) P Q b :
  wp m P b → wp m Q b → wp m (λ a b', P a b' ∧ Q a b') b.
Proof. unfold wp. by destruct (m b) as [[] ?]. Qed.

(** A network on which every connection works. *)
Definition always_connected : Prop := ∀ h c, connection_ok h c = true.

Lemma find_idle_frame node l b :
  wp (find_idle node l) (λ _ b', pool_frame b b' ∧ locks_initialized b' = locks_initialized b) b.
Proof.
  revert b. induction l as [|e l IH]; intros b; [by apply wp_ret|]. cbn [find_idle]. case_match.
  - apply wp_bind. cbn. case_match; [by split; [apply pool_frame_call|]|]. apply wp_bind.
    destruct (e_conn e) as [c|]; cbn.
    + apply wp_bind. eapply wp_mono; [apply (IH (add_call (EFinish c) b))|]. intros [??] b' [Hf Hl].
      apply wp_ret. split; [|done]. etrans; [|exact Hf]. by apply pool_frame_call.
    + apply wp_bind. eapply wp_mono; [apply IH|]. by intros [??] b' Hb.
  - apply wp_bind. eapply wp_mono; [apply IH|]. by intros [??] b' Hb.
Qed.

Lemma get_connection_frame node b :
  backend_ok b →
  wp (orochi_get_worker_connection node) (λ r b', pool_frame b b' ∧ locks_initialized b' = true ∧
    (always_connected → is_Some (orochi_catalog_get_node node b) → is_Some r)) b.
Proof.
  intros Hb. unfold orochi_get_worker_connection. apply wp_bind. cbn.
  assert (locks_initialized (init_connection_pool b) = true ∧ pool_frame b (init_connection_pool b)) as [Hl Hf].
  { unfold init_connection_pool. destruct (pool_initialized b) eqn:E; cbn; [split; [by apply Hb|done]|by split]. }
  apply wp_bind. unfold wp at 1, acquire_pool_lock. rewrite Hl. do 2 apply wp_bind. cbn.
  eapply wp_mono; [apply find_idle_frame|]. intros [r l'] b1 [Hf1 Hl1]. rewrite Hl in Hl1.
  assert (pool_frame b (set_pool l' b1)) as Hf2.
  { etrans; [exact Hf|]. etrans; [exact Hf1|]. by constructor. }
  apply wp_bind. cbn. destruct r as [c|]; [by apply wp_ret|]. apply wp_bind. cbn.
  assert (orochi_catalog_get_node node (set_pool l' b1) = orochi_catalog_get_node node b) as ->.
  { unfold orochi_catalog_get_node. by rewrite (frame_nodes _ _ Hf2). }
  destruct (orochi_catalog_get_node node b) as [n|]; [|apply wp_ret; split_and!; [done|done|by intros _ []]].
  assert (pool_frame b (connected n (set_pool l' b1))) as Hf3.
  { etrans; [exact Hf2|]. constructor; [done|done|done|]. intros x Hx. cbn. by right. }
  apply wp_bind. unfold wp at 1, PQconnectdb. apply wp_bind. unfold wp at 1, status_ok, ask.
  destruct (connection_ok _ _) eqn:Ec.
  - apply wp_bind. unfold add_to_pool. apply wp_bind. unfold wp at 1, ask.
    destruct (_ <? MAX_CONNECTION_POOL_SIZE); unfold wp; cbn; split_and!; [|done|eauto|done|done|eauto].
    etrans; [exact Hf3|]. constructor; [done|done|done|]. intros x Hx. cbn. by right.
  - apply wp_bind. unfold finish, wp, update. cbn. split_and!; [|done|].
    + etrans; [exact Hf3|]. by apply pool_frame_call.
    + intros Hok. rewrite Hok in Ec. done.
Qed.

(** A connection to a node of the catalog is always there. *)
Lemma get_connection_ready node b :
  always_connected → backend_ok b → is_Some (orochi_catalog_get_node node b) →
  wp (orochi_get_worker_connection node) (λ r b', is_Some r ∧ node_rows b' = node_rows b ∧
    locks_initialized b' = true) b.
Proof.
  intros Hok Hb Hn. eapply wp_mono; [by apply get_connection_frame|]. intros r b' (Hf & Hl & Hr).
  split_and!; [by apply Hr|by apply frame_nodes|done].
Qed.

Lemma release_frame c b :
  locks_initialized b = true →
  wp (orochi_release_worker_connection (Some c)) (λ _ b', pool_frame b b' ∧
    locks_initialized b' = true) b.
Proof.
  intros Hl. cbn. apply wp_bind. unfold wp at 1, acquire_pool_lock. rewrite Hl. apply wp_bind.
  unfold wp at 1, ask. destruct (pooled c (connection_pool b)); cbn.
  - split; [|done]. constructor; [done|done|done|]. intros x Hx. cbn. by right.
  - split; [|done]. by apply pool_frame_call.
Qed.

(** ** Adaptive execution does not end

    The number of rows of a result fits its type. *)
Definition counts_fit : Prop :=
  (∀ h c sql, ∃ n, atol (PQcmdTuples (PQexec h c sql)) = Ok n) ∧
  (∀ h c r, PQgetResult h c = Some r → ∃ n, atol (PQcmdTuples r) = Ok n).

Definition settled_state (t : RemoteTask) : Prop :=
  state t = TASK_COMPLETED ∨ state t = TASK_FAILED.

Lemma take_result_wp c r t n b :
  atol (PQcmdTuples r) = Ok n →
  wp (take_result c r t) (λ t' b', b' = b ∧ settled_state t' ∧ retry_count t' = retry_count t ∧
    fragment t' = fragment t) b.
Proof.
  intros Hn. unfold take_result, settled_state. destruct (good r).
  - apply wp_bind. eapply wp_lift; [done|]. apply wp_ret. cbn. auto.
  - apply wp_bind. cbn. auto.
Qed.

Lemma execute_remote_task_wp t b :
  counts_fit → backend_ok b →
  wp (orochi_execute_remote_task t)
    (λ t' b', settled_state t' ∧ backend_ok b' ∧ (execs (calls b') ≤ S (execs (calls b)))%nat) b.
Proof.
  intros [Hfit _] Hb. unfold orochi_execute_remote_task. apply wp_bind. cbn. apply wp_bind.
  eapply wp_mono; [by apply get_connection_quiet|]. intros c b1 ((_ & He & _) & Hb1).
  change (execs (calls b1) = execs (calls b)) in He.
  destruct c as [c|]; [|apply wp_ret; unfold settled_state; cbn; split_and!; [by right|done|lia]].
  apply wp_bind. cbn. apply wp_bind. destruct (Hfit (calls b1) c (query_string (fragment t))) as [n Hn].
  eapply wp_mono; [by eapply take_result_wp|]. cbn. intros t' b2 (-> & Hs & _).
  split_and!; [exact Hs|exact Hb1|cbn; lia].
Qed.

Definition idle_task (t : RemoteTask) : Prop := state t ≠ TASK_RUNNING.

Lemma settled_idle t : settled_state t → idle_task t.
Proof. unfold settled_state, idle_task. intros [-> | ->]; done. Qed.

Lemma start_tasks_wp active l pending running b :
  counts_fit → backend_ok b → Forall idle_task l →
  wp (start_tasks active l pending running)
    (λ r b', Forall idle_task r.1.1 ∧ length r.1.1 = length l ∧ running ≤ r.2 ≤ Z.max running active ∧
       backend_ok b' ∧ Z.of_nat (execs (calls b')) ≤ Z.of_nat (execs (calls b)) + (r.2 - running)) b.
Proof.
  intros Hfit. revert pending running b. induction l as [|t l IH]; intros pending running b Hb Hl.
  { apply wp_ret. cbn. split_and!; [done|done|lia|lia|done|lia]. }
  apply Forall_cons in Hl as [Ht Hl]. cbn [start_tasks].
  destruct (bool_decide _ && (running <? active)) eqn:E.
  - apply andb_true_iff in E as [_ E]. apply Z.ltb_lt in E. apply wp_bind.
    eapply wp_mono; [by apply execute_remote_task_wp|]. intros t' b1 (Hs & Hb1 & He). apply wp_bind.
    eapply wp_mono; [by apply IH|]. intros [[l' p'] r'] b2 (Hi & Hlen & Hr & Hb2 & He2). cbn in *.
    split_and!; [constructor; [by apply settled_idle|done]|lia|lia|lia|done|lia].
  - apply wp_bind. eapply wp_mono; [by apply IH|]. intros [[l' p'] r'] b2 (Hi & Hlen & Hr & Hb2 & He2).
    cbn in *. split_and!; [by constructor|lia|lia|lia|done|lia].
Qed.

Lemma wait_tasks_idle l running completed b :
  Forall idle_task l → wait_tasks l running completed b = (Ok (l, running, completed), b).
Proof.
  revert b. induction l as [|t l IH]; intros b Hl; [done|]. apply Forall_cons in Hl as [Ht Hl].
  cbn [wait_tasks]. rewrite bool_decide_false by done. unfold mbind, backend_bind. by rewrite IH.
Qed.

(** What holds before each round after the tasks were created. *)
Record stuck (active base : Z) (s : DistributedExecutorState) (b : Backend) : Prop := {
  stuck_tasks : Forall idle_task (tasks s);
  stuck_some : tasks s ≠ [];
  stuck_counts : completed_count s = 0 ∧ failed_count s = 0;
  stuck_flags : all_completed s = false ∧ has_error s = false;
  stuck_active : active ≤ Z.max 1 (max_parallel s);
  stuck_running : 0 ≤ running_count s ≤ Z.max 1 (max_parallel s);
  stuck_backend : backend_ok b;
  stuck_execs : Z.of_nat (execs (calls b)) ≤ base + running_count s }.

Lemma adaptive_round_stuck active base s b :
  counts_fit → stuck active base s b →
  wp (adaptive_round active s) (λ s' b', max_parallel s' = max_parallel s ∧
    stuck (if active <? max_parallel s' then active + 1 else active) base s' b') b.
Proof.
  intros Hfit [Ht Hne [Hc Hf] [Ha Hh] Hact Hrun Hb He]. unfold adaptive_round. apply wp_bind.
  eapply wp_mono; [by apply start_tasks_wp|]. intros [[l p] r] b1 (Hi & Hlen & Hr & Hb1 & He1). cbn in *.
  assert (l ≠ []) as Hl by (intros ->; by destruct (tasks s)).
  apply wp_bind. unfold wp. rewrite wait_tasks_idle by done. cbn. split; [done|].
  constructor; cbn; try done.
  - rewrite Hc, Hf. split; [|done]. apply Z.eqb_neq. destruct l; [done|]. cbn [length]. lia.
  - destruct (Z.ltb_spec active (max_parallel s)); lia.
  - lia.
  - lia.
Qed.

Lemma adaptive_loop_stuck fuel active base s b :
  counts_fit → stuck active base s b →
  ∃ b', adaptive_loop fuel active s b = (Diverge, b') ∧
    Z.of_nat (execs (calls b')) ≤ base + Z.max 1 (max_parallel s).
Proof.
  intros Hfit. revert active s b. induction fuel as [|fuel IH]; intros active s b Hs; cbn [adaptive_loop].
  all: destruct (stuck_flags _ _ _ _ Hs) as [-> ->]; cbn.
  - exists b. split; [done|]. pose proof (stuck_execs _ _ _ _ Hs). pose proof (stuck_running _ _ _ _ Hs). lia.
  - destruct (wp_run _ _ _ (adaptive_round_stuck _ _ _ _ Hfit Hs)) as (s1 & b1 & E & Hm & Hs1).
    unfold mbind, backend_bind. rewrite E. destruct (IH _ _ _ Hs1) as (b2 & E2 & He2).
    exists b2. rewrite <- Hm. done.
Qed.

(** The adaptive execution of a plan with at least one fragment never returns,
    whatever the workers answer: a task is done when its start returns, the loop that waits
    finds none that runs, and nothing counts the completed ones.  No more tasks than
    [max_parallel] are executed at all. *)
Theorem adaptive_execution_never_returns (plan : DistributedPlan) (s : DistributedExecutorState)
    (b : Backend) (fuel : nat) :
  counts_fit → backend_ok b → fragment_queries plan ≠ [] →
  ∃ b', orochi_execute_distributed_plan fuel plan s b = (Diverge, b') ∧
    Z.of_nat (execs (calls b')) ≤ Z.of_nat (execs (calls b)) + Z.max 1 (max_parallel s).
Proof.
  intros Hfit Hb Hne. unfold orochi_execute_distributed_plan, orochi_adaptive_execute.
  edestruct (adaptive_loop_stuck fuel 1 (Z.of_nat (execs (calls b)))) as (b' & E & He); [done| |by exists b'].
  constructor; cbn; try done; try lia.
  - apply Forall_forall. intros t (f & -> & _)%list_elem_of_fmap. done.
  - by destruct (fragment_queries plan).
Qed.

(** A plan without fragments does return. *)
Lemma empty_plan_returns plan s b :
  fragment_queries plan = [] →
  ∃ s', orochi_execute_distributed_plan 1 plan s b = (Ok s', b) ∧ tasks s' = [] ∧ all_completed s' = true.
Proof.
  intros E. eexists. unfold orochi_execute_distributed_plan. rewrite E. done.
Qed.

(** ** Parallel execution ends *)

Lemma index_of_some i l : i ∈ l → ∃ k, index_of i l = Some k ∧ l !! k = Some i.
Proof.
  induction l as [|x l IH]; [by intros ?%not_elem_of_nil|]. intros [->|Hi]%elem_of_cons; cbn.
  - exists 0%nat. by rewrite bool_decide_true.
  - case_bool_decide; [exists 0%nat; by subst|]. destruct (IH Hi) as (k & -> & Hk). by exists (S k).
Qed.

(** Deleting a pointer from the array, and what stays in the cell behind its end. *)
Lemma list_delete_ptr_spec i n cells :
  (n ≤ length cells)%nat → i ∈ take n cells →
  ∃ k cells', list_delete_ptr i n cells = (cells', (n - 1)%nat) ∧ take n cells !! k = Some i ∧
    take (n - 1) cells' = delete k (take n cells) ∧ length cells' = length cells ∧
    cells' !! (n - 1)%nat = cells !! (n - 1)%nat.
Proof.
  intros Hn Hi. destruct (index_of_some _ _ Hi) as (k & Ek & Hk). unfold list_delete_ptr. rewrite Ek.
  pose proof (lookup_lt_Some _ _ _ Hk) as Hlt. rewrite length_take in Hlt.
  exists k. eexists. split; [done|]. split; [done|].
  assert (length (take k cells ++ drop (S k) (take n cells)) = (n - 1)%nat) as Hlen.
  { rewrite length_app, length_drop, !length_take. lia. }
  rewrite app_assoc. split_and!.
  - rewrite take_app_length' by done. rewrite delete_take_drop. f_equal. rewrite take_take. f_equal. lia.
  - rewrite length_app, Hlen, length_drop. lia.
  - rewrite lookup_app_r by lia. rewrite Hlen, Nat.sub_diag, lookup_drop. f_equal. lia.
Qed.

(** Attempts that the tasks of a list have left, the running ones included. *)
Definition left_of (ts : list RemoteTask) (i : nat) : Z :=
  match ts !! i with Some t => 4 - retry_count t | None => 0 end.
Definition attempts (ts : list RemoteTask) (l : list nat) : Z := foldr (λ i z, left_of ts i + z) 0 l.

#[local] Instance attempts_perm ts : Proper ((≡ₚ) ==> eq) (attempts ts).
Proof. intros l1 l2. unfold attempts. induction 1; cbn; lia. Qed.

Lemma attempts_app ts l1 l2 : attempts ts (l1 ++ l2) = attempts ts l1 + attempts ts l2.
Proof. unfold attempts. induction l1; cbn; lia. Qed.

Lemma left_of_insert ts i j t t' :
  ts !! i = Some t → retry_count t' = retry_count t → left_of (<[i:=t']> ts) j = left_of ts j.
Proof.
  intros Hi Hr. unfold left_of. destruct (decide (i = j)) as [<-|]; [|by rewrite list_lookup_insert_ne].
  rewrite list_lookup_insert_eq by (by eapply lookup_lt_Some). rewrite Hi. lia.
Qed.

Lemma attempts_insert ts i t t' l :
  ts !! i = Some t → retry_count t' = retry_count t → attempts (<[i:=t']> ts) l = attempts ts l.
Proof.
  intros Hi Hr. unfold attempts. induction l as [|j l IH]; [done|]. cbn. rewrite IH. f_equal. by eapply left_of_insert.
Qed.

Lemma attempts_insert_notin ts i t l : i ∉ l → attempts (<[i:=t]> ts) l = attempts ts l.
Proof.
  unfold attempts. induction l as [|j l IH]; [done|]. intros [Hj Hi]%not_elem_of_cons. cbn. rewrite IH by done.
  unfold left_of at 1 3. by rewrite list_lookup_insert_ne.
Qed.

(** The number of completed tasks. *)
Definition done_count (ts : list RemoteTask) : Z := len (filter (λ t, state t = TASK_COMPLETED) ts).

Lemma done_count_insert ts i t t' :
  ts !! i = Some t →
  done_count (<[i:=t']> ts) =
    done_count ts - (if is_completed t then 1 else 0) + (if is_completed t' then 1 else 0).
Proof.
  intros Hi. unfold done_count, is_completed.
  rewrite <- (take_drop_middle ts i t Hi) at 2. rewrite insert_take_drop by (by eapply lookup_lt_Some).
  rewrite !filter_app, !length_app, !filter_cons. do 2 case_bool_decide; repeat case_decide; cbn [length]; try done; lia.
Qed.

Definition final (t : RemoteTask) : Prop :=
  state t = TASK_COMPLETED ∨ (state t = TASK_FAILED ∧ retry_count t = EXECUTOR_MAX_RETRIES).
Definition in_flight (t : RemoteTask) : Prop :=
  (state t = TASK_RUNNING ∧ is_Some (connection t)) ∨ state t = TASK_FAILED.

(** What holds of the tasks while they run; [r] are the running ones. *)
Record par_inv (fs : list FragmentQuery) (p : Parallel) (r : list nat) : Prop := {
  par_nodup : NoDup (p_pending p ++ r);
  par_bound : ∀ i, i ∈ p_pending p ++ r → (i < length (p_tasks p))%nat;
  par_frags : fragment <$> p_tasks p = fs;
  par_retry : Forall (λ t, 0 ≤ retry_count t ≤ EXECUTOR_MAX_RETRIES) (p_tasks p);
  par_pending : ∀ i t, i ∈ p_pending p → p_tasks p !! i = Some t → state t = TASK_PENDING;
  par_running : ∀ i t, i ∈ r → p_tasks p !! i = Some t → in_flight t;
  par_final : ∀ i t, i ∉ p_pending p ++ r → p_tasks p !! i = Some t → final t;
  par_active : p_active p = len r;
  par_done : p_completed p = done_count (p_tasks p);
  par_total : p_completed p + p_failed p + len (p_pending p ++ r) = len fs }.

(** What is left to do, given that a query that was sent is busy at most [k] times. *)
Definition potential (k : Z) (p : Parallel) (r : list nat) (b : Backend) : Z :=
  attempts (p_tasks p) (p_pending p ++ r) +
  k * (Z.of_nat (sends (calls b)) + attempts (p_tasks p) (p_pending p ++ r) - len r) -
  Z.of_nat (busy_polls (calls b)).

Lemma in_flight_open t : in_flight t → is_completed t = false.
Proof. unfold is_completed, in_flight. intros [[-> _]| ->]; done. Qed.

Lemma fragment_insert (ts : list RemoteTask) i t t' :
  ts !! i = Some t → fragment t' = fragment t → fragment <$> <[i:=t']> ts = fragment <$> ts.
Proof.
  intros Hi Hf. rewrite list_fmap_insert. apply list_insert_id. by rewrite list_lookup_fmap, Hi, Hf.
Qed.

Lemma start_async_wp t b :
  backend_ok b →
  wp (orochi_start_async_task t) (λ t' b', in_flight t' ∧ fragment t' = fragment t ∧
    retry_count t' = retry_count t ∧ backend_ok b' ∧
    (sends (calls b') ≤ S (sends (calls b)))%nat ∧ busy_polls (calls b') = busy_polls (calls b)) b.
Proof.
  intros Hb. unfold orochi_start_async_task. apply wp_bind. cbn. apply wp_bind.
  eapply wp_mono; [by apply get_connection_quiet|]. intros c b1 ((_ & _ & Hs & Hp) & Hb1).
  cbn in Hs, Hp. destruct c as [c|].
  - apply wp_bind. cbn. destruct (PQsendQuery _ _ _).
    + apply wp_ret. split_and!; [left; cbn; by split|done|done|done|cbn; lia|done].
    + apply wp_bind. cbn. split_and!; [by right|done|done|done|cbn; lia|done].
  - apply wp_ret. split_and!; [by right|done|done|done|lia|done].
Qed.

Lemma start_inv fs p i rest t t' :
  p_pending p = i :: rest → p_tasks p !! i = Some t → in_flight t' → fragment t' = fragment t →
  retry_count t' = retry_count t → par_inv fs p (p_running p) →
  par_inv fs {| p_tasks := <[i:=t']> (p_tasks p); p_pending := rest;
                p_running := p_running p ++ [i]; p_active := p_active p + 1;
                p_completed := p_completed p; p_failed := p_failed p |} (p_running p ++ [i]).
Proof.
  intros Ep Hi Ht' Hf Hr [Hnd Hbd Hfr Hre Hpe Hru Hfi Hac Hdo Hto].
  assert (rest ++ p_running p ++ [i] ≡ₚ p_pending p ++ p_running p) as Hperm.
  { rewrite Ep. cbn. rewrite app_assoc. apply Permutation_app_comm. }
  assert (i ∉ rest ∧ i ∉ p_running p) as [Hi1 Hi2].
  { rewrite Ep in Hnd. cbn in Hnd. apply NoDup_cons in Hnd as [Hnd _]. set_solver. }
  constructor; cbn.
  - by rewrite Hperm.
  - intros j. rewrite length_insert, Hperm. apply Hbd.
  - rewrite <- Hfr. by eapply fragment_insert.
  - apply Forall_insert; [done|]. rewrite Hr. rewrite Forall_lookup in Hre. by eapply Hre.
  - intros j u Hj. rewrite list_lookup_insert_ne by (intros ->; done). apply Hpe. rewrite Ep. by right.
  - intros j u [Hj| ->%list_elem_of_singleton]%elem_of_app.
    + rewrite list_lookup_insert_ne by (intros ->; done). by apply Hru.
    + rewrite list_lookup_insert_eq by (by eapply lookup_lt_Some). by intros [= <-].
  - intros j u. rewrite Hperm. intros Hj. rewrite list_lookup_insert_ne; [by apply Hfi|].
    intros ->. apply Hj. rewrite Ep. set_solver.
  - rewrite length_app, Hac. cbn. lia.
  - rewrite (done_count_insert _ _ _ _ Hi), Hdo, (in_flight_open _ Ht').
    assert (is_completed t = false) as ->; [|lia].
    unfold is_completed. by rewrite (Hpe i t) by (done || (rewrite Ep; by left)).
  - by rewrite Hperm.
Qed.

Lemma start_pending_wp k fs parallelism pending p b :
  0 ≤ k → p_pending p = pending → par_inv fs p (p_running p) → backend_ok b →
  wp (start_pending pending parallelism p) (λ p' b', par_inv fs p' (p_running p') ∧ backend_ok b' ∧
    potential k p' (p_running p') b' ≤ potential k p (p_running p) b ∧
    (p_running p ≠ [] ∨ (1 ≤ parallelism ∧ pending ≠ []) → p_running p' ≠ [])) b.
Proof.
  intros Hk. revert p b. induction pending as [|i pending IH]; intros p b Ep Hinv Hb; cbn [start_pending].
  { apply wp_ret. split_and!; [done..|]. intros [?|[??]]; done. }
  destruct (Z.ltb_spec (p_active p) parallelism) as [Hlt|Hge].
  2: { apply wp_ret. split_and!; [done..|]. intros [?|[Hpar _]]; [done|]. intros Hr.
       rewrite (par_active _ _ _ Hinv), Hr in Hge. cbn in Hge. lia. }
  assert (i < length (p_tasks p))%nat as [t Ht]%lookup_lt_is_Some.
  { apply (par_bound _ _ _ Hinv). rewrite Ep. by left. }
  apply wp_bind. rewrite Ht. cbn. apply wp_bind.
  eapply wp_mono; [by apply start_async_wp|]. intros t' b1 (Hfl & Hf & Hr & Hb1 & Hs & Hp).
  pose proof (start_inv _ _ _ _ _ _ Ep Ht Hfl Hf Hr Hinv) as Hinv'.
  eapply wp_mono; [by apply IH|]. cbn [p_running]. intros p' b2 (Hi2 & Hb2 & Hpot & Hne). split_and!.
  - done.
  - done.
  - etrans; [exact Hpot|]. unfold potential. cbn [p_tasks p_pending p_running].
    rewrite !(attempts_insert _ _ _ _ _ Ht Hr), Ep, Hp.
    assert (pending ++ p_running p ++ [i] ≡ₚ (i :: pending) ++ p_running p) as ->.
    { cbn. rewrite app_assoc. apply Permutation_app_comm. }
    rewrite length_app. cbn [length].
    assert (∀ x y, x ≤ y → k * x ≤ k * y) as Hmono by (intros; nia).
    apply Z.sub_le_mono_r. apply Z.add_le_mono_l. apply Hmono. lia.
  - intros _. apply Hne. left. by intros [??]%app_nil.
Qed.

Lemma check_completion_wp t b :
  counts_fit → in_flight t → backend_ok b →
  wp (orochi_check_task_completion t) (λ r b', retry_count r.2 = retry_count t ∧
    fragment r.2 = fragment t ∧ backend_ok b' ∧ sends (calls b') = sends (calls b) ∧
    if r.1 then settled_state r.2 ∧ (busy_polls (calls b) ≤ busy_polls (calls b'))%nat
    else r.2 = t ∧ busy_polls (calls b') = S (busy_polls (calls b))) b.
Proof.
  intros [_ Hfit] Ht Hb. unfold orochi_check_task_completion.
  destruct Ht as [[Hrun [c Hc]]|Hfail].
  - rewrite bool_decide_true, Hc by done. apply wp_bind. cbn. destruct (PQconsumeInput _ _); cbn.
    + apply wp_bind. cbn. destruct (PQisBusy _ _) eqn:E; [apply wp_ret; cbn; by rewrite E|].
      apply wp_bind. cbn. destruct (PQgetResult _ _) as [r|] eqn:Er.
      * destruct (Hfit _ _ _ Er) as [n Hn]. apply wp_bind. eapply wp_mono; [by eapply take_result_wp|].
        intros t' b' (-> & Hs & Hr & Hf). apply wp_bind. cbn. rewrite E. by split_and!; try done.
      * apply wp_bind. cbn. rewrite E. split_and!; try done. by left.
    + apply wp_bind. cbn. split_and!; try done. cbn. split; [by right|lia].
  - rewrite bool_decide_false by congruence. apply wp_ret. cbn. split_and!; try done. by right.
Qed.

Section Settling.
Context (fs : list FragmentQuery) (p : Parallel) (r : list nat) (j i : nat) (t t' : RemoteTask).
Hypothesis Hinv : par_inv fs p r.
Hypothesis Hj : r !! j = Some i.
Hypothesis Ht : p_tasks p !! i = Some t.
Hypothesis Hf : fragment t' = fragment t.

Lemma settling_perm : p_pending p ++ r ≡ₚ i :: p_pending p ++ delete j r.
Proof. rewrite (delete_Permutation r j i Hj) at 1. by rewrite Permutation_middle. Qed.

Lemma settling_fresh : i ∉ p_pending p ++ delete j r ∧ NoDup (p_pending p ++ delete j r).
Proof. pose proof (par_nodup _ _ _ Hinv) as Hnd. rewrite settling_perm in Hnd. by apply NoDup_cons in Hnd. Qed.

Lemma settling_open : is_completed t = false.
Proof.
  apply in_flight_open. apply (par_running _ _ _ Hinv i); [|done]. by eapply list_elem_of_lookup_2.
Qed.

Lemma settling_active : p_active p - 1 = len (delete j r).
Proof.
  rewrite (par_active _ _ _ Hinv), (Permutation_length (delete_Permutation r j i Hj)). cbn [length]. lia.
Qed.

(** A task that is done for good. *)
Lemma finish_inv run :
  final t' → retry_count t' = retry_count t →
  par_inv fs {| p_tasks := <[i:=t']> (p_tasks p); p_pending := p_pending p; p_running := run;
                p_active := p_active p - 1;
                p_completed := p_completed p + (if is_completed t' then 1 else 0);
                p_failed := p_failed p + (if is_completed t' then 0 else 1) |} (delete j r).
Proof.
  intros Hfin Hr. destruct settling_fresh as [Hi Hnd]. pose proof settling_perm as Hperm.
  pose proof settling_open as Hop. pose proof settling_active as Hac'.
  destruct Hinv as [_ Hbd Hfr Hre Hpe Hru Hfi Hac Hdo Hto]. constructor; cbn.
  - done.
  - intros x Hx. rewrite length_insert. apply Hbd. rewrite Hperm. by right.
  - rewrite <- Hfr. by eapply fragment_insert.
  - apply Forall_insert; [done|]. rewrite Hr. rewrite Forall_lookup in Hre. by eapply Hre.
  - intros x u Hx. rewrite list_lookup_insert_ne by set_solver. by apply Hpe.
  - intros x u Hx. rewrite list_lookup_insert_ne by set_solver. apply Hru.
    rewrite (delete_Permutation r j i Hj). by right.
  - intros x u Hx. destruct (decide (x = i)) as [->|Hne].
    + rewrite list_lookup_insert_eq by (by eapply lookup_lt_Some). by intros [= <-].
    + rewrite list_lookup_insert_ne by done. apply Hfi. rewrite Hperm. by intros [?|?]%elem_of_cons.
  - done.
  - rewrite (done_count_insert _ _ _ _ Ht), Hdo, Hop. lia.
  - rewrite Hperm in Hto. cbn [length] in Hto. destruct (is_completed t'); lia.
Qed.

(** A task that is tried again. *)
Lemma again_inv run again :
  fragment again = fragment t →
  state again = TASK_PENDING → retry_count again = retry_count t + 1 → retry_count t < EXECUTOR_MAX_RETRIES →
  par_inv fs {| p_tasks := <[i:=again]> (p_tasks p); p_pending := p_pending p ++ [i]; p_running := run;
                p_active := p_active p - 1; p_completed := p_completed p;
                p_failed := p_failed p |} (delete j r).
Proof.
  intros Hf' Hpen Hr Hlt. destruct settling_fresh as [Hi Hnd]. pose proof settling_perm as Hperm.
  pose proof settling_open as Hop. pose proof settling_active as Hac'.
  assert ((p_pending p ++ [i]) ++ delete j r ≡ₚ p_pending p ++ r) as Hp2.
  { rewrite Hperm, <- app_assoc. cbn. by rewrite Permutation_middle. }
  destruct Hinv as [Hnd0 Hbd Hfr Hre Hpe Hru Hfi Hac Hdo Hto]. constructor; cbn.
  - by rewrite Hp2.
  - intros x. rewrite Hp2, length_insert. apply Hbd.
  - rewrite <- Hfr. by eapply fragment_insert.
  - apply Forall_insert; [done|]. rewrite Forall_lookup in Hre. pose proof (Hre _ _ Ht) as Hret. cbn in Hret. lia.
  - intros x u Hx. destruct (decide (x = i)) as [->|Hne].
    + rewrite list_lookup_insert_eq by (by eapply lookup_lt_Some). by intros [= <-].
    + rewrite list_lookup_insert_ne by done. apply Hpe. set_solver.
  - intros x u Hx. rewrite list_lookup_insert_ne by set_solver. apply Hru.
    rewrite (delete_Permutation r j i Hj). by right.
  - intros x u. rewrite Hp2. intros Hx. rewrite list_lookup_insert_ne; [by apply Hfi|]. rewrite Hperm in Hx. set_solver.
  - done.
  - rewrite (done_count_insert _ _ _ _ Ht), Hdo, Hop.
    assert (is_completed again = false) as -> by (unfold is_completed; by rewrite Hpen). lia.
  - by rewrite Hp2.
Qed.

Lemma settle_inv :
  settled_state t' → retry_count t' = retry_count t →
  par_inv fs (settle i t' p) (delete j r) ∧
  attempts (p_tasks (settle i t' p)) (p_pending (settle i t' p) ++ delete j r) <=
    attempts (p_tasks p) (p_pending p ++ r) - 1.
Proof.
  intros Hs Hr. pose proof (par_retry _ _ _ Hinv) as Hre. rewrite Forall_lookup in Hre.
  pose proof (Hre _ _ Ht) as Hrt. cbn in Hrt. unfold EXECUTOR_MAX_RETRIES in Hrt.
  assert (attempts (p_tasks p) (p_pending p ++ r) =
    4 - retry_count t + attempts (p_tasks p) (p_pending p ++ delete j r)) as Hatt.
  { rewrite settling_perm. cbn. unfold left_of at 1. by rewrite Ht. }
  destruct settling_fresh as [Hi _].
  assert (final t' → attempts (<[i:=t']> (p_tasks p)) (p_pending p ++ delete j r) <=
    attempts (p_tasks p) (p_pending p ++ r) - 1) as Hdone.
  { intros _. rewrite attempts_insert_notin, Hatt by done. lia. }
  unfold settle. destruct Hs as [Hs|Hs]; rewrite Hs.
  - assert (final t') as Hfin by by left. split; [|by apply Hdone].
    pose proof (finish_inv (p_running p) Hfin Hr) as Hi2.
    assert (is_completed t' = true) as E by (unfold is_completed; by rewrite Hs).
    rewrite E, Z.add_0_r in Hi2. exact Hi2.
  - unfold orochi_retry_task. destruct (Z.leb_spec EXECUTOR_MAX_RETRIES (retry_count t')) as [Hge|Hlt].
    + assert (final t') as Hfin by (right; split; [done|unfold EXECUTOR_MAX_RETRIES in *; lia]).
      split; [|by apply Hdone]. pose proof (finish_inv (p_running p) Hfin Hr) as Hi2.
      assert (is_completed t' = false) as E by (unfold is_completed; by rewrite Hs).
      rewrite E, Z.add_0_r in Hi2. exact Hi2.
    + split; [apply again_inv; cbn; [done|done|lia|lia]|]. cbn [p_tasks p_pending].
      rewrite attempts_app, attempts_app, (attempts_insert_notin _ _ _ (delete j r)), (attempts_insert_notin _ _ _ (p_pending p)) by set_solver.
      rewrite Hatt, attempts_app. cbn. unfold left_of.
      rewrite list_lookup_insert_eq by (by eapply lookup_lt_Some). cbn. lia.
Qed.
End Settling.

Lemma set_task_id i t p : p_tasks p !! i = Some t → set_task i t p = p.
Proof. intros Ht. unfold set_task. rewrite list_insert_id by done. by destruct p. Qed.

(** The next cell holds a running task, also when it is the one behind the end. *)
Lemma next_cell (lc i n j : nat) (cells cells' : list nat) :
  (n ≤ length cells)%nat → (S lc < n)%nat → cells !! lc = Some i → NoDup (take n cells) →
  take n cells !! j = Some i → take (n - 1) cells' = delete j (take n cells) →
  length cells' = length cells → cells' !! (n - 1)%nat = cells !! (n - 1)%nat →
  ∃ x, cells' !! S lc = Some x ∧ x ∈ take (n - 1) cells'.
Proof.
  intros Hn Hlc Hi Hnd Hj Htake Hlen Hlast.
  assert (j = lc) as ->.
  { eapply NoDup_lookup; [exact Hnd|exact Hj|]. rewrite lookup_take_lt by lia. exact Hi. }
  assert (S lc < length cells')%nat as [x Hx]%lookup_lt_is_Some by lia.
  exists x. split; [done|]. destruct (decide (S lc = n - 1)%nat) as [E|Hne].
  - rewrite Htake. apply (list_elem_of_lookup_2 _ lc). rewrite list_lookup_delete_ge by lia.
    rewrite lookup_take_lt by lia. by rewrite E, <- Hlast, <- E.
  - apply (list_elem_of_lookup_2 _ (S lc)). rewrite lookup_take_lt by lia. done.
Qed.

(** One turn of the loop over the running tasks. *)
Definition visited (k : Z) (fs : list FragmentQuery) (lc n : nat) (before : Z) (b' : Backend)
    (q : Parallel * (list nat * nat)) : Prop :=
  let '(p, (cells, n')) := q in
  par_inv fs p (take n' cells) ∧ backend_ok b' ∧ potential k p (take n' cells) b' ≤ before - 1 ∧
  (n' ≤ length cells)%nat ∧ ((S lc < n)%nat → ∃ x, cells !! S lc = Some x ∧ x ∈ take n' cells).

Lemma visit_wp k fs lc n cells p b i t :
  0 ≤ k → counts_fit → backend_ok b → (n ≤ length cells)%nat → par_inv fs p (take n cells) →
  cells !! lc = Some i → i ∈ take n cells → p_tasks p !! i = Some t →
  wp (orochi_check_task_completion t) (λ r b',
    visited k fs lc n (potential k p (take n cells) b) b'
      (if r.1 then (settle i r.2 p, list_delete_ptr i n cells) else (set_task i r.2 p, (cells, n)))) b.
Proof.
  intros Hk Hfit Hb Hn Hinv Hi Hin Ht. eapply wp_mono.
  { apply check_completion_wp; [done| |done]. by apply (par_running _ _ _ Hinv i). }
  intros [[] t'] b1 (Hr & Hf & Hb1 & Hse & Hrest); cbn in Hr, Hf, Hrest; cbn [fst snd]; unfold visited.
  - destruct Hrest as [Hset Hbusy].
    destruct (list_delete_ptr_spec i n cells Hn Hin) as (j & cells' & -> & Hj & Htake & Hlen & Hlast).
    destruct (settle_inv _ _ _ _ _ _ _ Hinv Hj Ht Hf Hset Hr) as [Hinv' Hatt].
    pose proof (f_equal length (eq_sym Htake)) as Hl. rewrite length_delete in Hl by (by eexists).
    pose proof (lookup_lt_Some _ _ _ Hj). rewrite <- Htake in Hinv', Hatt. split_and!; [done|done| |lia|].
    + unfold potential. rewrite Hse. nia.
    + intros Hlc. apply (next_cell lc i n j cells cells'); try done.
      pose proof (par_nodup _ _ _ Hinv) as Hnd. by apply NoDup_app in Hnd as (_ & _ & ?).
  - destruct Hrest as [-> Hbusy]. rewrite set_task_id by done. split_and!; [done|done| |done|].
    + unfold potential. rewrite Hse, Hbusy. lia.
    + intros Hlc. assert (S lc < length cells)%nat as [x Hx]%lookup_lt_is_Some by lia. exists x. split; [done|].
      apply (list_elem_of_lookup_2 _ (S lc)). by rewrite lookup_take_lt by lia.
Qed.

Lemma check_running_wp k fs fuel lc n cells p b :
  0 ≤ k → counts_fit → backend_ok b → (n ≤ length cells)%nat → par_inv fs p (take n cells) →
  (∃ i, cells !! lc = Some i ∧ i ∈ take n cells) →
  wp (check_running (S fuel) lc n cells p) (λ q b', par_inv fs q.1 q.2 ∧ backend_ok b' ∧
    potential k q.1 q.2 b' ≤ potential k p (take n cells) b - 1) b.
Proof.
  intros Hk Hfit. revert lc n cells p b.
  induction fuel as [|fuel IH]; intros lc n cells p b Hb Hn Hinv (i & Hi & Hin); cbn [check_running].
  all: assert (i < length (p_tasks p))%nat as [t Ht]%lookup_lt_is_Some
    by (apply (par_bound _ _ _ Hinv); set_solver).
  all: apply wp_bind; rewrite Hi; cbn; apply wp_bind; rewrite Ht; cbn; apply wp_bind.
  all: eapply wp_mono; [by eapply (visit_wp k fs lc)|].
  all: intros [done t'] b1 Hv; cbn [fst snd] in Hv.
  all: destruct (if done then _ else _) as [p' [cells' n']]; destruct Hv as (Hi' & Hb' & Hp' & Hn' & Hx').
  all: case_bool_decide as Hlc; [|by apply wp_ret].
  - by apply wp_ret.
  - eapply wp_mono; [apply IH; [done..|]; by apply Hx'|]. intros q b2 (?&?&?). split_and!; [done|done|lia].
Qed.

Lemma attempts_ge fs p r l :
  par_inv fs p r → l ⊆ p_pending p ++ r → len l ≤ attempts (p_tasks p) l.
Proof.
  intros Hinv Hl. pose proof (par_retry _ _ _ Hinv) as Hre. rewrite Forall_lookup in Hre.
  induction l as [|i l IH]; [done|]. cbn [attempts foldr length].
  assert (i < length (p_tasks p))%nat as [t Ht]%lookup_lt_is_Some
    by (apply (par_bound _ _ _ Hinv); set_solver).
  pose proof (Hre _ _ Ht) as Hr. cbn in Hr. unfold EXECUTOR_MAX_RETRIES in Hr.
  unfold left_of at 1. rewrite Ht. specialize (IH ltac:(set_solver)). unfold attempts in IH. lia.
Qed.

Lemma potential_nonneg k fs p r b :
  0 ≤ k → Z.of_nat (busy_polls (calls b)) ≤ k * Z.of_nat (sends (calls b)) → par_inv fs p r →
  0 ≤ potential k p r b.
Proof.
  intros Hk Hbusy Hinv. unfold potential.
  pose proof (attempts_ge _ _ _ (p_pending p) Hinv ltac:(set_solver)).
  pose proof (attempts_ge _ _ _ r Hinv ltac:(set_solver)). rewrite attempts_app. nia.
Qed.

Lemma parallel_round_wp k fs parallelism p b :
  0 ≤ k → 1 ≤ parallelism → counts_fit → backend_ok b → par_inv fs p (p_running p) →
  p_pending p ≠ [] ∨ p_running p ≠ [] →
  wp (parallel_round parallelism p) (λ p' b', par_inv fs p' (p_running p') ∧ backend_ok b' ∧
    potential k p' (p_running p') b' ≤ potential k p (p_running p) b - 1) b.
Proof.
  intros Hk Hpar Hfit Hb Hinv Hne. unfold parallel_round. apply wp_bind.
  eapply wp_mono; [by eapply (start_pending_wp k)|]. intros p1 b1 (Hi1 & Hb1 & Hp1 & Hr1). apply wp_bind.
  destruct (p_running p1) as [|i r] eqn:Er.
  { exfalso. apply Hr1; [|done]. destruct Hne; [by right|by left]. }
  eapply wp_mono.
  { apply (check_running_wp k fs); [done..| | |]; cbn [length].
    - done.
    - cbn. by rewrite firstn_all.
    - exists i. split; [done|]. cbn. by left. }
  cbn [length take]. rewrite firstn_all. intros [p2 l] b2 (Hi2 & Hb2 & Hp2). cbn in Hi2, Hp2. apply wp_ret.
  cbn [p_running with_running].
  assert (potential k (with_running l p2) l b2 = potential k p2 l b2) as -> by done.
  split_and!; [|done|lia]. destruct Hi2. by constructor.
Qed.

Lemma parallel_loop_wp k fs fuel parallelism p b :
  0 ≤ k → 1 ≤ parallelism → counts_fit →
  (∀ h, Z.of_nat (busy_polls h) ≤ k * Z.of_nat (sends h)) →
  backend_ok b → par_inv fs p (p_running p) → potential k p (p_running p) b ≤ Z.of_nat fuel →
  wp (parallel_loop fuel parallelism p) (λ p' _, par_inv fs p' [] ∧ p_pending p' = []) b.
Proof.
  intros Hk Hpar Hfit Hbusy. revert p b. induction fuel as [|fuel IH]; intros p b Hb Hinv Hpot.
  all: cbn [parallel_loop]; destruct (decide (p_pending p = [] ∧ p_running p = [])) as [[E1 E2]|Hne].
  1, 3: rewrite E1, E2; rewrite E2 in Hinv; by apply wp_ret.
  all: assert (p_pending p ≠ [] ∨ p_running p ≠ []) as Hne' by
    (destruct (p_pending p); [|by left]; destruct (p_running p); [by destruct Hne|by right]).
  all: pose proof (parallel_round_wp k fs _ p b Hk Hpar Hfit Hb Hinv Hne') as Hround.
  - apply wp_run in Hround as (p' & b' & _ & Hi' & _ & Hp').
    pose proof (potential_nonneg k _ _ _ b' Hk (Hbusy _) Hi'). lia.
  - assert (wp (p ← parallel_round parallelism p; parallel_loop fuel parallelism p)
      (λ p' _, par_inv fs p' [] ∧ p_pending p' = []) b) as Hgo.
    { apply wp_bind. eapply wp_mono; [exact Hround|]. intros p' b' (Hi' & Hb' & Hp').
      apply IH; [done|done|lia]. }
    destruct (p_pending p), (p_running p); try exact Hgo. by destruct Hne.
Qed.

Lemma attempts_new fs l :
  (∀ i, i ∈ l → (i < length fs)%nat) → attempts (new_task <$> fs) l = 4 * len l.
Proof.
  unfold attempts. induction l as [|i l IH]; intros Hl; [done|]. cbn [foldr length].
  rewrite IH by set_solver. unfold left_of. rewrite list_lookup_fmap.
  destruct (lookup_lt_is_Some_2 fs i) as [f ->]; [set_solver|]. cbn. lia.
Qed.

Lemma par_inv_new fs :
  par_inv fs {| p_tasks := new_task <$> fs; p_pending := seq 0 (length fs); p_running := [];
                p_active := 0; p_completed := 0; p_failed := 0 |} [].
Proof.
  constructor; cbn; rewrite ?app_nil_r.
  - apply NoDup_seq.
  - intros i. rewrite length_fmap. intros ?%elem_of_seq. lia.
  - rewrite <- list_fmap_compose. by apply list_fmap_id.
  - apply Forall_fmap, Forall_true. intros f. cbn. unfold EXECUTOR_MAX_RETRIES. lia.
  - intros i t _. rewrite list_lookup_fmap. destruct (fs !! i); [|done]. by intros [= <-].
  - by intros i t ?%not_elem_of_nil.
  - intros i t Hi Ht. exfalso. apply Hi, elem_of_seq. apply lookup_lt_Some in Ht. rewrite length_fmap in Ht. lia.
  - done.
  - unfold done_count. induction fs; [done|]. cbn. done.
  - rewrite length_seq. lia.
Qed.

(** C29: the parallel execution of new tasks ends, although the loop over the running
    tasks skips some while it removes others: each task is completed, or has failed
    for good after three retries, and is counted once.  It is enough that a query is busy
    in at most [k] polls. *)
Theorem parallel_execution_finishes (k parallelism : Z) (fs : list FragmentQuery)
    (s : DistributedExecutorState) (b : Backend) (fuel : nat) :
  0 ≤ k → 1 ≤ parallelism → counts_fit → backend_ok b →
  (∀ h, Z.of_nat (busy_polls h) ≤ k * Z.of_nat (sends h)) →
  tasks s = map new_task fs → completed_count s = 0 → failed_count s = 0 →
  4 * len fs + k * (Z.of_nat (sends (calls b)) + 4 * len fs) ≤ Z.of_nat fuel →
  ∃ s' b', orochi_parallel_execute fuel parallelism s b = (Ok s', b') ∧
    map fragment (tasks s') = fs ∧ Forall final (tasks s') ∧ all_completed s' = true ∧
    completed_count s' = done_count (tasks s') ∧ completed_count s' + failed_count s' = len fs.
Proof.
  intros Hk Hpar Hfit Hb Hbusy Ht Hc Hf Hfuel. apply wp_run. unfold orochi_parallel_execute.
  rewrite Ht, Hc, Hf, length_map. apply wp_bind. eapply wp_mono.
  { eapply (parallel_loop_wp k fs); [done..|apply par_inv_new|]. unfold potential. cbn [p_tasks p_pending p_running].
    rewrite app_nil_r, attempts_new by (intros i ?%elem_of_seq; lia). rewrite length_seq. cbn [length]. lia. }
  intros p' b' [Hinv Hpe]. apply wp_ret. destruct Hinv as [_ _ Hfr _ _ _ Hfi _ Hdo Hto].
  rewrite Hpe in Hfi, Hto. cbn in *. split_and!; [done| |done|done|lia].
  apply Forall_lookup. intros i t Hi. eapply Hfi; [|exact Hi]. by apply not_elem_of_nil.
Qed.

(** Without a slot the loop spins forever. *)
Lemma no_parallelism_diverges fuel parallelism p b :
  parallelism ≤ 0 → p_active p = 0 → p_pending p ≠ [] → p_running p = [] →
  parallel_loop fuel parallelism p b = (Diverge, b).
Proof.
  intros Hp Ha Hpe Hr. revert p b Ha Hpe Hr. induction fuel as [|fuel IH]; intros p b Ha Hpe Hr; cbn [parallel_loop].
  all: destruct (p_pending p) as [|i l] eqn:E; [done|].
  { done. }
  unfold mbind, backend_bind, parallel_round, mbind, backend_bind. rewrite E. cbn [start_pending].
  destruct (Z.ltb_spec (p_active p) parallelism); [lia|]. cbn. rewrite Hr. cbn. apply IH; cbn; [done|by rewrite E|done].
Qed.

(** ** The pool hands a connection out once *)

(** What callers do with the pool; [held] are the connections they were given.  The other
    calls of libpq neither open nor close one. *)
Definition opens_or_closes (e : Event) : bool :=
  match e with EConnect _ _ _ | EFinish _ => true | _ => false end.

Inductive pool_step : Backend * list Z → Backend * list Z → Prop :=
| step_get node c b b' held :
    orochi_get_worker_connection node b = (Ok (Some c), b') → pool_step (b, held) (b', c :: held)
| step_get_none node b b' held :
    orochi_get_worker_connection node b = (Ok None, b') → pool_step (b, held) (b', held)
| step_release c b b' held :
    c ∈ held → orochi_release_worker_connection (Some c) b = (Ok tt, b') →
    pool_step (b, held) (b', filter (λ x, x ≠ c) held)
| step_close b b' :
    orochi_close_all_connections b = (Ok tt, b') → pool_step (b, []) (b', [])
| step_call e b held : opens_or_closes e = false → pool_step (b, held) (add_call e b, held).

Definition opened (node c : Z) (h : history) : Prop := ∃ s, EConnect node c s ∈ h.

Record pool_ok (l : list ConnectionPoolEntry) (b : Backend) (held : list Z) : Prop := {
  pool_distinct : NoDup (omap e_conn l);
  pool_in_use : ∀ e c, e ∈ l → e_conn e = Some c → (in_use e = true ↔ c ∈ held);
  pool_open : ∀ e c, e ∈ l → e_conn e = Some c →
    c < next_conn b ∧ opened (e_node_id e) c (calls b) ∧ EFinish c ∉ calls b;
  pool_held : ∀ c, c ∈ held → c < next_conn b ∧ EFinish c ∉ calls b;
  pool_finished : ∀ c, EFinish c ∈ calls b → c < next_conn b }.

Lemma conn_unique l e1 e2 c :
  NoDup (omap e_conn l) → e1 ∈ l → e2 ∈ l → e_conn e1 = Some c → e_conn e2 = Some c → e1 = e2.
Proof.
  induction l as [|e l IH]; [by intros _ ?%not_elem_of_nil|]. intros Hnd H1 H2 E1 E2. cbn in Hnd.
  assert (∀ e', e' ∈ l → e_conn e' = Some c → c ∈ omap e_conn l) as Hin by
    (intros e' ??; apply list_elem_of_omap; by exists e').
  apply elem_of_cons in H1 as [->|H1], H2 as [->|H2].
  - done.
  - rewrite E1 in Hnd. apply NoDup_cons in Hnd as [[] _]. by eapply Hin.
  - rewrite E2 in Hnd. apply NoDup_cons in Hnd as [[] _]. by eapply Hin.
  - apply IH; try done. destruct (e_conn e); [by apply NoDup_cons in Hnd as [_ ?]|done].
Qed.

(** What [find_idle] makes of the entries and of the history. *)
Record found_in (node : Z) (l : list ConnectionPoolEntry) (b : Backend) (r : option Z)
    (l' : list ConnectionPoolEntry) (b' : Backend) : Prop := {
  found_frame : next_conn b' = next_conn b ∧ ∀ e, e ∈ calls b → e ∈ calls b';
  found_finish : ∀ c, EFinish c ∈ calls b' → EFinish c ∈ calls b ∨
    (c ∉ omap e_conn l' ∧ ∃ e, e ∈ l ∧ e_conn e = Some c ∧ in_use e = false);
  found_sub : omap e_conn l' `sublist_of` omap e_conn l;
  found_entry : ∀ e' c, e' ∈ l' → e_conn e' = Some c →
    ∃ e, e ∈ l ∧ e_conn e = Some c ∧ e_node_id e = e_node_id e' ∧
      (in_use e' = in_use e ∨ (r = Some c ∧ in_use e' = true));
  found_some : ∀ c, r = Some c →
    (∃ e, e ∈ l ∧ e_conn e = Some c ∧ e_node_id e = node ∧ in_use e = false) ∧
    (∃ e', e' ∈ l' ∧ e_conn e' = Some c ∧ in_use e' = true ∧ e_node_id e' = node) }.

(** An entry in front that stays, and one that is given up. *)
Lemma found_keep node e l b r l' b' :
  NoDup (omap e_conn (e :: l)) → found_in node l b r l' b' → found_in node (e :: l) b r (e :: l') b'.
Proof.
  intros Hnd [H1 H2 H3 H4 H5]. constructor.
  - done.
  - intros c [Hc|(Hc & e0 & He0 & E0 & Hu)]%H2; [by left|]. right. split; [|exists e0; split; [by right|done]].
    cbn. destruct (e_conn e) eqn:E; [|done]. intros [<-|?]%elem_of_cons; [|done].
    cbn in Hnd. rewrite E in Hnd. apply NoDup_cons in Hnd as [Hn _]. apply Hn, list_elem_of_omap. by exists e0.
  - cbn. destruct (e_conn e); [by apply sublist_skip|done].
  - intros e' c [->|He']%elem_of_cons Ec; [exists e; split; [by left|auto]|].
    destruct (H4 _ _ He' Ec) as (e0 & ? & ? & ? & ?). exists e0. split; [by right|done].
  - intros c Hc. destruct (H5 c Hc) as [(e0 & ? & ?) (e1 & ? & ?)].
    split; [exists e0|exists e1]; by split; [right|].
Qed.

Lemma found_drop node e l b r l' b' lu :
  NoDup (omap e_conn (e :: l)) → in_use e = false →
  found_in node l (from_option (λ c, add_call (EFinish c) b) b (e_conn e)) r l' b' →
  found_in node (e :: l) b r
    ({| e_node_id := 0; e_conn := None; in_use := false; last_used := lu |} :: l') b'.
Proof.
  intros Hnd Hu [[H0 H1] H2 H3 H4 H5]. constructor.
  - destruct (e_conn e); cbn in H0, H1; [|done]. split; [done|]. intros x Hx. apply H1. by right.
  - intros c Hc. cbn [omap list_omap e_conn]. apply H2 in Hc as [Hc|(Hc & e0 & He0 & E0 & Hu0)].
    + destruct (e_conn e) as [c0|] eqn:E; cbn in Hc; [|by left]. apply elem_of_cons in Hc as [[= ->]|Hc]; [|by left].
      right. split; [|exists e; split; [by left|done]]. cbn in Hnd. rewrite E in Hnd.
      apply NoDup_cons in Hnd as [Hn _]. intros Hin. apply Hn.
      eapply elem_of_submseteq; [exact Hin|by apply sublist_submseteq].
    + right. split; [done|]. exists e0. split; [by right|done].
  - cbn. destruct (e_conn e); [by apply sublist_cons|done].
  - intros e' c [->|He']%elem_of_cons Ec; [done|].
    destruct (H4 _ _ He' Ec) as (e0 & ? & ? & ? & ?). exists e0. split; [by right|done].
  - intros c Hc. destruct (H5 c Hc) as [(e0 & ? & ?) (e1 & ? & ?)].
    split; [exists e0|exists e1]; by split; [right|].
Qed.

Lemma find_idle_wp node l b :
  NoDup (omap e_conn l) → wp (find_idle node l) (λ q b', found_in node l b q.1 q.2 b') b.
Proof.
  revert b. induction l as [|e l IH]; intros b Hnd; cbn [find_idle].
  { apply wp_ret. constructor; cbn; try done; auto. by intros ?? ?%not_elem_of_nil. }
  assert (NoDup (omap e_conn l)) as Hnd' by
    (cbn in Hnd; destruct (e_conn e); [by apply NoDup_cons in Hnd as [_ ?]|done]).
  destruct ((e_node_id e =? node) && negb (in_use e)) eqn:E.
  - apply andb_true_iff in E as [En Eu]. apply Z.eqb_eq in En. apply negb_true_iff in Eu.
    apply wp_bind. cbn. destruct (e_conn e) as [c|] eqn:Ec.
    + destruct (connection_ok (calls b) c).
      * apply wp_bind. cbn. constructor.
        -- split; [done|]. intros x Hx. by right.
        -- intros c' [|Hc']%elem_of_cons; [done|by left].
        -- cbn. by rewrite Ec.
        -- intros e' c' [->|He']%elem_of_cons Ec'; cbn in *.
           ++ exists e. split; [by left|]. split_and!; [congruence|done|right; split; congruence].
           ++ exists e'. split; [by right|auto].
        -- intros c' [= ->]. split; [exists e; split; [by left|done]|]. eexists. split; [by left|done].
      * apply wp_bind. cbn. apply wp_bind. eapply wp_mono; [by apply IH|]. intros [r l'] b' Hf. apply wp_ret.
        cbn in *. apply (found_drop node e); [done|done|]. by rewrite Ec.
    + apply wp_bind. cbn. apply wp_bind. eapply wp_mono; [by apply IH|]. intros [r l'] b' Hf. apply wp_ret.
      cbn in *. apply (found_drop node e); [done|done|]. by rewrite Ec.
  - apply wp_bind. eapply wp_mono; [by apply IH|]. intros [r l'] b' Hf. apply wp_ret. by apply found_keep.
Qed.

(** The pool after a search that found a connection, or none. *)
Lemma pool_ok_found node l b held r l' b' :
  pool_ok l b held → found_in node l b r l' b' →
  pool_ok l' b' (from_option (λ c, c :: held) held r) ∧
  ∀ c, r = Some c → c ∉ held ∧ EFinish c ∉ calls b' ∧ opened node c (calls b').
Proof.
  intros [Hd Hu Ho Hh Hf] [[Hn Hc] Hfin Hsub Hent Hsome].
  assert (NoDup (omap e_conn l')) as Hd' by (by eapply sublist_NoDup).
  assert (∀ e c, e ∈ l → e_conn e = Some c → c ∈ omap e_conn l' → EFinish c ∉ calls b') as Hopen.
  { intros e c He Ec Hin [Hx|[Hx _]]%Hfin; [|done]. by apply (Ho e c He Ec). }
  assert (∀ c, EFinish c ∈ calls b' → c < next_conn b') as Hlt.
  { intros c [Hx|(_ & e & He & Ec & _)]%Hfin; rewrite Hn; [by apply Hf|by apply (Ho e)]. }
  assert (∀ node c, opened node c (calls b) → opened node c (calls b')) as Hop by (intros ?? [s Hs]; exists s; auto).
  assert (∀ e' c, e' ∈ l' → e_conn e' = Some c → c ∈ omap e_conn l') as Hin' by
    (intros e' c ??; apply list_elem_of_omap; by exists e').
  assert (∀ c, c ∈ held → EFinish c ∉ calls b') as Hheld.
  { intros c Hin [Hx|(_ & e & He & Ec & Eu)]%Hfin; [by apply (Hh c Hin)|].
    apply (Hu e c He Ec) in Hin. congruence. }
  assert (∀ c, r = Some c → c ∉ held ∧ EFinish c ∉ calls b' ∧ opened node c (calls b') ∧ c < next_conn b') as Hr.
  { intros c Er. destruct (Hsome c Er) as [(e & He & Ec & En & Eu) (e' & He' & Ec' & _)]. split_and!.
    - intros Hin. apply (Hu e c He Ec) in Hin. congruence.
    - by eapply Hopen, Hin'.
    - rewrite <- En. by apply Hop, (Ho e).
    - rewrite Hn. by apply (Ho e). }
  split; [|intros c Er; by destruct (Hr c Er) as (?&?&?&?)]. constructor; [done| | | |done].
  - intros e' c He' Ec'. destruct (Hent e' c He' Ec') as (e & He & Ec & _ & Hio).
    destruct (decide (r = Some c)) as [Er|Hne].
    + rewrite Er. cbn. destruct (Hsome c Er) as [_ (e1 & He1 & Ec1 & Hu1 & _)].
      rewrite (conn_unique l' e' e1 c) by done. split; [by left|done].
    + destruct Hio as [->|[? _]]; [|done]. rewrite (Hu e c He Ec).
      destruct r as [c'|]; cbn; [|done]. rewrite elem_of_cons. split; [by right|]. intros [->|?]; done.
  - intros e' c He' Ec'. destruct (Hent e' c He' Ec') as (e & He & Ec & En & _).
    destruct (Ho e c He Ec) as (? & ? & ?). split_and!; [lia| |by eapply Hopen, Hin'].
    rewrite <- En. by apply Hop.
  - intros c Hin. destruct r as [c'|]; cbn in Hin.
    + apply elem_of_cons in Hin as [->|Hin]; [by destruct (Hr c' eq_refl) as (?&?&?&?)|].
      destruct (Hh c Hin). split; [lia|by apply Hheld].
    + destruct (Hh c Hin). split; [lia|by apply Hheld].
Qed.

(** A connection that was just opened. *)
Lemma pool_ok_opened n b held l :
  pool_ok l b held →
  let b1 := connected n b in
  pool_ok l b1 held ∧ opened (a_node_id n) (next_conn b) (calls b1) ∧ EFinish (next_conn b) ∉ calls b1 ∧
  next_conn b ∉ held ∧ next_conn b ∉ omap e_conn l.
Proof.
  intros [Hd Hu Ho Hh Hf] b1.
  assert (∀ c, EFinish c ∈ calls b1 → EFinish c ∈ calls b) as Hfin.
  { intros c. unfold b1. cbn. by intros [?|?]%elem_of_cons. }
  split_and!.
  - constructor; [done|done| | |].
    + intros e c He Ec. destruct (Ho e c He Ec) as (? & [s' ?] & Hx). split_and!; [cbn; lia| |by intros ?%Hfin].
      exists s'. cbn. by right.
    + intros c Hc. destruct (Hh c Hc) as [? Hx]. split; [cbn; lia|by intros ?%Hfin].
    + intros c Hc%Hfin. apply Hf in Hc. cbn. lia.
  - eexists. cbn. by left.
  - intros Hx%Hfin%Hf. lia.
  - intros [? _]%Hh. lia.
  - intros (e & He & Ec)%list_elem_of_omap. apply (Ho e) in Ec as [? _]; [lia|done].
Qed.

Lemma pool_ok_frame l b b' held :
  next_conn b' = next_conn b → calls b' = calls b → pool_ok l b held → pool_ok l b' held.
Proof. intros E1 E2 [?????]. by constructor; rewrite ?E1, ?E2. Qed.

Lemma pool_ok_call e l b held :
  opens_or_closes e = false → pool_ok l b held → pool_ok l (add_call e b) held.
Proof.
  intros He [Hd Hu Ho Hh Hf].
  assert (∀ c, EFinish c ∈ calls (add_call e b) → EFinish c ∈ calls b) as Hfin.
  { intros c. cbn. by intros [<-|?]%elem_of_cons. }
  constructor; [done|done| | |].
  - intros x c Hx Ec. destruct (Ho x c Hx Ec) as (? & [s ?] & ?). split_and!; [done| |by intros ?%Hfin].
    exists s. cbn. by right.
  - intros c Hc. destruct (Hh c Hc). split; [done|by intros ?%Hfin].
  - intros c Hc%Hfin. by apply Hf.
Qed.

(** Handing out a new connection, in the pool or not. *)
Lemma pool_ok_hand node c l b held now :
  pool_ok l b held → c ∉ held → c ∉ omap e_conn l → c < next_conn b → opened node c (calls b) →
  EFinish c ∉ calls b →
  pool_ok l b (c :: held) ∧
  pool_ok (l ++ [{| e_node_id := node; e_conn := Some c; in_use := true; last_used := now |}]) b (c :: held).
Proof.
  intros [Hd Hu Ho Hh Hf] Hn Hl Hlt Hop Hfin.
  assert (∀ e c', e ∈ l → e_conn e = Some c' → (in_use e = true ↔ c' ∈ c :: held)) as Hu'.
  { intros e c' He Ec. rewrite (Hu e c' He Ec), elem_of_cons. split; [by right|]. intros [->|?]; [|done].
    exfalso. apply Hl, list_elem_of_omap. by exists e. }
  assert (∀ c', c' ∈ c :: held → c' < next_conn b ∧ EFinish c' ∉ calls b) as Hh'.
  { intros c' [->|?]%elem_of_cons; [done|by apply Hh]. }
  split; constructor; try done.
  - rewrite omap_app. cbn. apply NoDup_app. split_and!; [done| |apply NoDup_singleton].
    by intros x Hx ->%list_elem_of_singleton.
  - intros e c' [He| ->%list_elem_of_singleton]%elem_of_app Ec; [by apply Hu'|].
    cbn in *. injection Ec as <-. split; [by left|done].
  - intros e c' [He| ->%list_elem_of_singleton]%elem_of_app Ec; [by apply Ho|]. cbn in *. by injection Ec as <-.
Qed.

(** Closing a connection that nobody has. *)
Lemma pool_ok_finish c l b held :
  pool_ok l b held → c ∉ held → c ∉ omap e_conn l → c < next_conn b →
  pool_ok l (add_call (EFinish c) b) held.
Proof.
  intros [Hd Hu Ho Hh Hf] Hn Hl Hlt.
  assert (∀ c', EFinish c' ∈ calls (add_call (EFinish c) b) → c' = c ∨ EFinish c' ∈ calls b) as Hfin.
  { intros c'. cbn. intros [[= ->]|?]%elem_of_cons; auto. }
  constructor; [done|done| | |].
  - intros x c' Hx Ec. destruct (Ho x c' Hx Ec) as (? & [s ?] & ?). split_and!; [done|exists s; cbn; by right|].
    intros [->|?]%Hfin; [|done]. apply Hl, list_elem_of_omap. by exists x.
  - intros c' Hc. destruct (Hh c' Hc). split; [done|]. by intros [->|?]%Hfin.
  - intros c' [->|Hc]%Hfin; [done|by apply Hf].
Qed.

Lemma get_connection_pool node b held :
  backend_ok b → pool_ok (connection_pool b) b held →
  wp (orochi_get_worker_connection node) (λ r b',
    pool_ok (connection_pool b') b' (from_option (λ c, c :: held) held r) ∧
    ∀ c, r = Some c → c ∉ held ∧ EFinish c ∉ calls b' ∧ opened node c (calls b')) b.
Proof.
  intros Hb Hok. unfold orochi_get_worker_connection. apply wp_bind. cbn.
  assert (locks_initialized (init_connection_pool b) = true) as Hl.
  { unfold init_connection_pool. destruct (pool_initialized b) eqn:E; [by apply Hb|done]. }
  assert (connection_pool (init_connection_pool b) = connection_pool b) as Ep by
    (unfold init_connection_pool; by destruct (pool_initialized b)).
  assert (pool_ok (connection_pool (init_connection_pool b)) (init_connection_pool b) held) as Hok1.
  { rewrite Ep. eapply pool_ok_frame; [| |exact Hok]; unfold init_connection_pool; by destruct (pool_initialized b). }
  apply wp_bind. unfold wp at 1, acquire_pool_lock. rewrite Hl. do 2 apply wp_bind. cbn.
  eapply wp_mono; [apply find_idle_wp; by apply Hok1|]. intros [r l'] b1 Hf. cbn in Hf.
  destruct (pool_ok_found _ _ _ _ _ _ _ Hok1 Hf) as [Hok2 Hr]. apply wp_bind. cbn.
  destruct r as [c|]; [apply wp_ret; split; [by eapply pool_ok_frame; [| |exact Hok2]|exact Hr]|]. cbn in Hok2.
  apply (pool_ok_frame _ _ (set_pool l' b1)) in Hok2; [|done|done]. apply wp_bind. cbn.
  destruct (orochi_catalog_get_node node (set_pool l' b1)) as [n|] eqn:En; [|by apply wp_ret].
  apply head_Some_elem_of, list_elem_of_filter in En as [<- _].
  destruct (pool_ok_opened n _ _ _ Hok2) as (Hok3 & Hop & Hfin & Hnh & Hnl).
  set (b2 := connected n (set_pool l' b1)) in *.
  assert (next_conn (set_pool l' b1) < next_conn b2) as Hlt by (unfold b2; cbn; lia).
  assert (connection_pool b2 = l') as Ep2 by done. apply wp_bind. unfold wp at 1, PQconnectdb.
  fold b2. apply wp_bind. unfold wp at 1, status_ok, ask.
  clearbody b2.
  set (c := next_conn (set_pool l' b1)) in *. clearbody c. destruct (connection_ok (calls b2) c).
  - apply wp_bind. unfold add_to_pool. apply wp_bind. unfold wp at 1, ask. rewrite Ep2.
    destruct (len l' <? MAX_CONNECTION_POOL_SIZE).
    + apply wp_bind. unfold wp at 1, clock. unfold wp at 1, update. apply wp_ret.
      destruct (pool_ok_hand (a_node_id n) c l' b2 held (GetCurrentTimestamp (calls b2)) Hok3) as [_ Hh];
        [done..|]. split.
      * eapply pool_ok_frame; [| |apply (pool_ok_call EClock); [done|exact Hh]]; done.
      * intros c' [= <-]. split_and!; [done|by intros [|?]%elem_of_cons|].
        destruct Hop as [s Hs]. exists s. by right.
    + do 2 apply wp_ret. destruct (pool_ok_hand (a_node_id n) c l' b2 held 0 Hok3) as [Hh _]; [done..|].
      split; [by rewrite Ep2|]. by intros c' [= <-].
  - apply wp_bind. cbn [finish]. unfold wp at 1, update. apply wp_ret. split; [|done]. cbn [from_option].
    change (connection_pool (add_call (EFinish c) b2)) with (connection_pool b2). rewrite Ep2.
    by apply pool_ok_finish.
Qed.

Lemma mark_idle_conns now c l : omap e_conn (mark_idle now c l) = omap e_conn l.
Proof. induction l as [|e l IH]; [done|]. cbn. case_bool_decide; cbn; [done|]. by rewrite IH. Qed.

Lemma mark_idle_entry now c l e' c' :
  e' ∈ mark_idle now c l → e_conn e' = Some c' →
  ∃ e, e ∈ l ∧ e_conn e = Some c' ∧ e_node_id e = e_node_id e' ∧
    (in_use e' = in_use e ∨ (c' = c ∧ in_use e' = false)).
Proof.
  induction l as [|e l IH]; [by intros ?%not_elem_of_nil|]. cbn. case_bool_decide as E.
  - intros [->|He']%elem_of_cons Ec; cbn in *.
    + exists e. split_and!; [by left|done|done|]. right. split; congruence.
    + exists e'. split_and!; [by right|done|done|by left].
  - intros [->|He']%elem_of_cons Ec; cbn in *.
    + exists e. split_and!; [by left|done|done|by left].
    + destruct (IH He' Ec) as (e0 & ? & ? & ? & ?). exists e0. split_and!; [by right|done..].
Qed.

Lemma mark_idle_idle now c l e' :
  NoDup (omap e_conn l) → e' ∈ mark_idle now c l → e_conn e' = Some c → in_use e' = false.
Proof.
  induction l as [|e l IH]; [by intros _ ?%not_elem_of_nil|]. cbn. intros Hnd. case_bool_decide as E.
  - rewrite E in Hnd. apply NoDup_cons in Hnd as [Hn _]. intros [->|He']%elem_of_cons Ec; [done|].
    exfalso. apply Hn, list_elem_of_omap. by exists e'.
  - intros [->|He']%elem_of_cons Ec; [done|]. apply IH; [|done|done].
    destruct (e_conn e); [by apply NoDup_cons in Hnd as [_ ?]|done].
Qed.

Lemma release_pool c b held :
  pool_ok (connection_pool b) b held → c ∈ held → locks_initialized b = true →
  wp (orochi_release_worker_connection (Some c))
    (λ _ b', pool_ok (connection_pool b') b' (filter (λ x, x ≠ c) held)) b.
Proof.
  intros Hok Hin Hl. cbn. apply wp_bind. unfold wp at 1, acquire_pool_lock. rewrite Hl. apply wp_bind.
  unfold wp at 1, ask. set (l := connection_pool b) in *.
  assert (∀ x, x ∈ filter (λ x, x ≠ c) held ↔ x ≠ c ∧ x ∈ held) as Hfil by (intros x; by rewrite list_elem_of_filter).
  destruct (pooled c l) eqn:Ep.
  - apply wp_bind. unfold wp at 1, clock, update. cbn [connection_pool set_pool].
    set (l' := mark_idle _ _ _). assert (omap e_conn l' = omap e_conn l) as Eo by apply mark_idle_conns.
    eapply pool_ok_frame; [| |apply (pool_ok_call EClock); [done|]]; [done|done|].
    destruct Hok as [Hd Hu Ho Hh Hf]. constructor.
    + rewrite <- Eo in Hd. exact Hd.
    + intros e' c' He' Ec'. destruct (mark_idle_entry _ _ _ _ _ He' Ec') as (e & He & Ec & _ & Hio).
      rewrite Hfil. destruct (decide (c' = c)) as [->|Hne].
      * rewrite (mark_idle_idle _ _ _ _ Hd He' Ec'). split; [done|]. by intros [? _].
      * destruct Hio as [->|[? _]]; [|done]. rewrite (Hu e c') by done. naive_solver.
    + intros e' c' He' Ec'. destruct (mark_idle_entry _ _ _ _ _ He' Ec') as (e & He & Ec & <- & _). by apply Ho.
    + intros c' [_ ?]%Hfil. by apply Hh.
    + done.
  - unfold finish, update, wp. cbn [connection_pool add_call].
    assert (c ∉ omap e_conn l) as Hn.
    { intros (e & He & Ec)%list_elem_of_omap. assert (pooled c l = true); [|congruence].
      apply existsb_exists. exists e. split; [by apply list_elem_of_In|by apply bool_decide_true]. }
    change (connection_pool b) with l. apply pool_ok_finish.
    + destruct Hok as [Hd Hu Ho Hh Hf]. constructor; [done| |done| |done].
      * intros e c' He Ec. rewrite Hfil, (Hu e c' He Ec). split; [|by intros [_ ?]].
        intros ?. split; [|done]. intros ->. apply Hn, list_elem_of_omap. by exists e.
      * intros c' [_ ?]%Hfil. by apply Hh.
    + rewrite Hfil. by intros [? _].
    + done.
    + by apply (pool_held _ _ _ Hok).
Qed.

Lemma close_pool b :
  pool_ok (connection_pool b) b [] → locks_initialized b = true →
  wp orochi_close_all_connections (λ _ b', pool_ok (connection_pool b') b' []) b.
Proof.
  intros Hok Hl. unfold orochi_close_all_connections. apply wp_bind. unfold wp at 1, acquire_pool_lock.
  rewrite Hl. apply wp_bind. unfold wp at 1, ask. apply wp_bind. unfold wp at 1, update.
  set (l := connection_pool b) in *. set (b0 := set_pool [] b).
  assert (∀ e c, e ∈ l → e_conn e = Some c → c < next_conn b0) as Hlt by
    (intros e c He Ec; by apply (pool_open _ _ _ Hok e c)).
  assert (connection_pool b0 = []) as Ep by done.
  assert (pool_ok [] b0 []) as H0.
  { destruct Hok as [_ _ _ _ Hf]. constructor; [apply NoDup_nil_2|by intros ?? ?%not_elem_of_nil|by intros ?? ?%not_elem_of_nil|by intros ? ?%not_elem_of_nil|exact Hf]. }
  clear Hok. clearbody l b0. revert b0 Hlt Ep H0. induction l as [|e l IH]; intros b0 Hlt Ep H0.
  { apply wp_ret. by rewrite Ep. }
  unfold finish_all. cbn [foldr]. apply wp_bind. unfold finish at 1. destruct (e_conn e) as [c|] eqn:Ec.
  - change (wp (finish_all l) (λ _ b', pool_ok (connection_pool b') b' []) (add_call (EFinish c) b0)). apply IH.
    + intros e' c' He' Ec'. apply (Hlt e'); [by right|done].
    + done.
    + apply pool_ok_finish; [done|by apply not_elem_of_nil|by apply not_elem_of_nil|].
      apply (Hlt e); [by left|done].
  - change (wp (finish_all l) (λ _ b', pool_ok (connection_pool b') b' []) b0).
    apply IH; [|done|done]. intros e' c' He' Ec'. apply (Hlt e'); [by right|done].
Qed.

Lemma finish_all_locks l b :
  wp (finish_all l) (λ _ b', locks_initialized b' = locks_initialized b) b.
Proof.
  revert b. induction l as [|e l IH]; intros b; [done|]. unfold finish_all. cbn [foldr]. apply wp_bind.
  destruct (e_conn e) as [c|]; [apply (IH (add_call (EFinish c) b))|apply (IH b)].
Qed.

Lemma acquired {A} (k : unit → backend A) b a b' :
  (acquire_pool_lock ≫= k) b = (Ok a, b') → locks_initialized b = true.
Proof. unfold mbind, backend_bind, acquire_pool_lock. by destruct (locks_initialized b). Qed.

Lemma pool_step_ok s s' :
  pool_step s s' → backend_ok s.1 ∧ pool_ok (connection_pool s.1) s.1 s.2 →
  backend_ok s'.1 ∧ pool_ok (connection_pool s'.1) s'.1 s'.2.
Proof.
  intros Hs [Hb Hok]. destruct Hs as [node c b b' held E|node b b' held E|c b b' held Hin E|b b' E|e b held He]; cbn in *.
  - pose proof (wp_ok _ _ _ _ _ (get_connection_pool node b held Hb Hok) E) as [Hok' _].
    pose proof (wp_ok _ _ _ _ _ (get_connection_quiet node b Hb) E) as [_ ?]. done.
  - pose proof (wp_ok _ _ _ _ _ (get_connection_pool node b held Hb Hok) E) as [Hok' _].
    pose proof (wp_ok _ _ _ _ _ (get_connection_quiet node b Hb) E) as [_ ?]. done.
  - pose proof (acquired _ _ _ _ E) as Hl.
    split; [|exact (wp_ok _ _ _ _ _ (release_pool c b held Hok Hin Hl) E)].
    intros _. unfold mbind, backend_bind, acquire_pool_lock in E. rewrite Hl in E. cbn in E.
    destruct (pooled c (connection_pool b)); cbn in E; by injection E as <-.
  - pose proof (acquired _ _ _ _ E) as Hl.
    split; [|exact (wp_ok _ _ _ _ _ (close_pool b Hok Hl) E)]. intros _.
    unfold orochi_close_all_connections, mbind, backend_bind, acquire_pool_lock in E. rewrite Hl in E. cbn in E.
    rewrite (wp_ok _ _ _ _ _ (finish_all_locks _ (set_pool [] b)) E). exact Hl.
  - split; [exact Hb|]. by apply pool_ok_call.
Qed.

(** A backend that has just started. *)
Definition fresh_backend (b : Backend) : Prop :=
  locks_initialized b = false ∧ pool_initialized b = false ∧ connection_pool b = [] ∧
  ∀ c, EFinish c ∉ calls b.

Lemma pool_reachable_ok b0 s :
  fresh_backend b0 → rtc pool_step (b0, []) s → backend_ok s.1 ∧ pool_ok (connection_pool s.1) s.1 s.2.
Proof.
  intros (Hl & Hp & Hc & Hf) Hr.
  assert (backend_ok b0 ∧ pool_ok (connection_pool b0) b0 []) as H0.
  { split; [by unfold backend_ok; rewrite Hp|]. rewrite Hc.
    constructor; [apply NoDup_nil_2|by intros ?? ?%not_elem_of_nil|by intros ?? ?%not_elem_of_nil|
                  by intros ? ?%not_elem_of_nil|by intros c ?%Hf]. }
  change (backend_ok (b0, [] : list Z).1 ∧ pool_ok (connection_pool (b0, [] : list Z).1) (b0, [] : list Z).1 (b0, [] : list Z).2) in H0.
  revert H0. induction Hr as [|x y z Hxy _ IH]; [done|]. intros H0. by apply IH, (pool_step_ok x).
Qed.

(** C30: the pool never gives a connection to two callers: after any calls that get
    connections, give back those that were got and close all when none is held, a
    connection that is handed out is held by nobody, is open, and leads to the node that
    was asked for. *)
Theorem connection_not_shared (b0 b b' : Backend) (held : list Z) (node c : Z) :
  fresh_backend b0 → rtc pool_step (b0, []) (b, held) →
  orochi_get_worker_connection node b = (Ok (Some c), b') →
  c ∉ held ∧ EFinish c ∉ calls b' ∧ opened node c (calls b').
Proof.
  intros Hb0 Hr E. destruct (pool_reachable_ok _ _ Hb0 Hr) as [Hb Hok]. cbn in *.
  destruct (wp_ok _ _ _ _ _ (get_connection_pool node b held Hb Hok) E) as [_ H]. by apply H.
Qed.
End Operations.

(** ** Concrete runs *)

(** Workers that answer every query at once with one row. *)
Definition one_row : PGresult :=
  {| PQresultStatus := PGRES_TUPLES_OK; PQcmdTuples := str "1"; fields := [23];
     tuples := [[Some (str "7")]] |}.

Definition prompt_workers : Libpq :=
  {| GetCurrentTimestamp h := Z.of_nat (length h); connection_ok _ _ := true;
     PQerrorMessage _ _ := str "error"; PQexec _ _ _ := one_row; PQsendQuery _ _ _ := true;
     PQconsumeInput _ _ := true; PQisBusy _ _ := false; PQgetResult _ _ := Some one_row;
     PQsocket _ c := c; select _ _ _ := 1; PQgetCancel _ _ := true; raft_answer _ _ := true |}.

Definition new_backend : Backend :=
  {| locks_initialized := false; pool_initialized := false; connection_pool := []; next_conn := 0;
     calls := []; node_rows := [{| a_node_id := 1; hostname := str "worker1"; port := 5432 |}];
     database := str "db"; pid := 4711; current_dtxn := None; txn_counter := 0;
     orochi_use_raft_consensus := true |}.

Definition query1 : FragmentQuery := {| shard_id := 10; node_id := 1; query_string := str "SELECT 7" |}.

Definition new_state (max : Z) (l : list FragmentQuery) : DistributedExecutorState :=
  {| tasks := map new_task l; pending_count := len l; running_count := 0; completed_count := 0;
     failed_count := 0; max_parallel := max; all_completed := false; has_error := false;
     x_error_message := None |}.

Lemma prompt_counts_fit : @counts_fit prompt_workers.
Proof. split; [intros h c sql|intros h c r [= <-]]; by exists 1. Defined.

Lemma prompt_never_busy h : Z.of_nat (@busy_polls prompt_workers h) ≤ 0 * Z.of_nat (sends h).
Proof. assert (@busy_polls prompt_workers h = 0%nat) as ->; [|done]. induction h as [|[] h IH]; done. Defined.

Lemma new_backend_ok : backend_ok new_backend.
Proof. done. Defined.

Lemma new_backend_fresh : fresh_backend new_backend.
Proof. split_and!; [done..|]. by intros c ?%not_elem_of_nil. Defined.

Lemma adaptive_execution_never_returns_witness :
  ∃ b', @orochi_execute_distributed_plan prompt_workers 100 {| fragment_queries := [query1; query1] |}
          (new_state 4 []) new_backend = (Diverge, b') ∧ Z.of_nat (execs (calls b')) ≤ 0 + 4.
Proof.
  apply (@adaptive_execution_never_returns prompt_workers {| fragment_queries := [query1; query1] |}
    (new_state 4 []) new_backend 100 prompt_counts_fit new_backend_ok). done.
Defined.

Lemma parallel_execution_finishes_witness :
  ∃ s' b', @orochi_parallel_execute prompt_workers 12 2 (new_state 4 [query1; query1; query1]) new_backend =
      (Ok s', b') ∧
    map fragment (tasks s') = [query1; query1; query1] ∧ Forall final (tasks s') ∧ all_completed s' = true ∧
    completed_count s' = done_count (tasks s') ∧ completed_count s' + failed_count s' = 3.
Proof.
  apply (@parallel_execution_finishes prompt_workers 0 2 [query1; query1; query1]); try done.
  - exact prompt_counts_fit.
  - exact prompt_never_busy.
Defined.

Lemma connection_not_shared_witness :
  ∃ b', @orochi_get_worker_connection prompt_workers 1 new_backend = (Ok (Some 0), b') ∧
    (0 ∉ ([] : list Z)) ∧ (EFinish 0 ∉ calls b') ∧ opened 1 0 (calls b').
Proof.
  exists (@orochi_get_worker_connection prompt_workers 1 new_backend).2. split; [vm_compute; reflexivity|].
  apply (@connection_not_shared prompt_workers new_backend new_backend _ [] 1 0 new_backend_fresh); [done|].
  vm_compute. reflexivity.
Defined.

(** A task keeps its connection: after 64 tasks every slot of the pool is in use for good, and
    each further one opens a connection that no slot remembers. *)
Fixpoint execute_tasks (n : nat) (t : RemoteTask) : @backend unit :=
  match n with
  | O => mret tt
  | S n => _ ← @orochi_execute_remote_task prompt_workers t; execute_tasks n t
  end.

Theorem executed_tasks_keep_connections :
  let b := (execute_tasks 66 (new_task query1) new_backend).2 in
  len (connection_pool b) = 64 ∧ forallb in_use (connection_pool b) = true ∧ next_conn b = 66 ∧
  (∀ c, EFinish c ∉ calls b).
Proof.
  split_and!; [vm_compute; reflexivity..|]. intros c.
  assert (forallb (λ e, match e with EFinish _ => false | _ => true end)
    (calls (execute_tasks 66 (new_task query1) new_backend).2) = true) as Hall by (vm_compute; reflexivity).
  rewrite forallb_forall in Hall. intros Hc%list_elem_of_In. apply Hall in Hc. discriminate Hc.
Qed.

(** A connection that is held while all are closed is closed again when it is given back. *)
Theorem closed_connection_finished_twice :
  let run : @backend unit :=
    c ← @orochi_get_worker_connection prompt_workers 1;
    _ ← @orochi_close_all_connections;
    @orochi_release_worker_connection prompt_workers c in
  (run new_backend).1 = Ok tt ∧
  filter (λ e, e = EFinish 0) (rev (calls (run new_backend).2)) = [EFinish 0; EFinish 0].
Proof. split; vm_compute; reflexivity. Qed.

(** Closing before the first connection takes a lock that does not exist yet. *)
Theorem close_before_first_connection : (@orochi_close_all_connections new_backend).1 = Undef.
Proof. done. Qed.

(** Of three tasks that are done, one turn of the loop settles the first and the third. *)
Theorem removal_skips_next :
  let p := {| p_tasks := map (λ f, set_state TASK_FAILED (new_task f)) [query1; query1; query1];
              p_pending := []; p_running := [0; 1; 2]%nat; p_active := 3;
              p_completed := 0; p_failed := 0 |} in
  (λ q, (p_pending q.1, q.2)) <$> (@check_running prompt_workers 3 0 3 [0; 1; 2]%nat p new_backend).1 =
    Ok ([0; 2]%nat, [1%nat]).
Proof. vm_compute. reflexivity. Qed.

(** The limit of parallel tasks stays between one and the maximum. *)
Lemma parallelism_in_bounds s :
  1 ≤ max_parallel s ≤ EXECUTOR_MAX_CONNECTIONS →
  1 ≤ max_parallel (orochi_adjust_parallelism s) ≤ EXECUTOR_MAX_CONNECTIONS.
Proof.
  unfold orochi_adjust_parallelism, adjusted, EXECUTOR_MAX_CONNECTIONS. intros H.
  destruct (omap latency (tasks s)) as [|x l]; [done|]. cbn [max_parallel].
  generalize (Z.quot (foldl Z.add 0 (x :: l)) (len (x :: l))). intros avg.
  pose proof (Z.div_pos (max_parallel s) 2). pose proof (Z.div_le_upper_bound (max_parallel s) 2 (max_parallel s)).
  repeat destruct (_ <? _); lia.
Qed.

(** The error of a statement is that of a task whose error is not one of the network, or
    that was tried four times. *)
Lemma failure_is_final t s :
  let '(t', s') := orochi_handle_task_failure t s in
  (has_error s' = has_error s ∧ state t' = TASK_PENDING ∧ retry_count t' = retry_count t + 1 ∧
   retry_count t < EXECUTOR_MAX_RETRIES) ∨
  (has_error s' = true ∧ state t' = TASK_FAILED ∧ x_error_message s' = error_message t ∧
   failed_count s' = failed_count s + 1 ∧
   (orochi_is_retryable_error (error_message t) = false ∨ EXECUTOR_MAX_RETRIES ≤ retry_count t)).
Proof.
  unfold orochi_handle_task_failure, orochi_retry_task.
  destruct (orochi_is_retryable_error _); [destruct (Z.leb_spec EXECUTOR_MAX_RETRIES (retry_count t))|].
  - right. cbn. split_and!; auto.
  - left. cbn. split_and!; auto.
  - right. cbn. split_and!; auto.
Qed.
