(* ===== verification/Results.v ===== *)
(** * Results of a distributed query

    The rest of [executor/distributed_executor.c] that works on what the workers sent:
    the merger that returns rows one by one, the stream that returns them in batches,
    partial aggregates, and the cache of results with the tables they depend on. *)
From Stdlib Require Import Floats.SpecFloat.
From stdpp Require Import sets relations gmap.
From S2P Require Import Prelude Postgres CText Float Executor.

Local Open Scope Z_scope.

Section Rows.

(** [atof] of the C library, and the PostgreSQL function that makes a [text] value. *)
Context (atof : text → spec_float) (CStringGetTextDatum : text → Datum).

(** A slot has a value and a null flag for each column. *)
Abbreviation slot := (list (Datum * bool)).

Definition null_cell : Datum * bool := (DatumVal 0, true).

(** The character in front of the terminator is the terminator when there is none. *)
Definition starts_with_t (v : text) : bool :=
  match v with c :: _ => bool_decide (c = "t"%char) | [] => false end.

(** The [switch] over the type of a column. *)
Definition convert_value (typid : Z) (v : text) : outcome Datum :=
  if typid =? INT4OID then DatumVal <$> atoi v
  else if typid =? INT8OID then DatumVal <$> atol v
  else if typid =? FLOAT4OID then Ok (DatumVal (bits_of_single (convert binary32 (atof v))))
  else if typid =? FLOAT8OID then Ok (DatumVal (bits_of_double (atof v)))
  else if typid =? BOOLOID then Ok (DatumVal (Z.b2z (starts_with_t v)))
  else Ok (CStringGetTextDatum v).

Definition convert_cell (typid : Z) (v : option text) : outcome (Datum * bool) :=
  match v with
  | None => Ok null_cell
  | Some v => d ← convert_value typid v; Ok (d, false)
  end.

(** The columns of the slot that have a field, and the others. *)
Fixpoint fill_slot (types : list Z) (cells : list (option text)) : outcome slot :=
  match types, cells with
  | [], _ => Ok []
  | ty :: types, [] => rest ← fill_slot types []; Ok (null_cell :: rest)
  | ty :: types, v :: cells =>
    d ← convert_cell ty v; rest ← fill_slot types cells; Ok (d :: rest)
  end.

(** ** The merger *)
Record ResultMergerState := {
  completed_tasks : list RemoteTask; current_task : nat; current_row : nat }.

Definition orochi_init_result_merger (s : DistributedExecutorState) : ResultMergerState :=
  {| completed_tasks := filter (λ t, is_completed t = true) (tasks s);
     current_task := 0; current_row := 0 |}.

Definition at_row (m : ResultMergerState) (task row : nat) : ResultMergerState :=
  {| completed_tasks := completed_tasks m; current_task := task; current_row := row |}.

(** The loop over the tasks from the current one. *)
Fixpoint next_result (types : list Z) (ts : list RemoteTask) (m : ResultMergerState) :
    outcome (option slot * ResultMergerState) :=
  match ts with
  | [] => Ok (None, m)
  | t :: ts =>
    match result t ≫= λ res, tuples res !! current_row m with
    | None => next_result types ts (at_row m (S (current_task m)) 0)
    | Some cells =>
      s ← fill_slot types cells;
      Ok (Some s, at_row m (current_task m) (S (current_row m)))
    end
  end.

Definition orochi_get_next_result (types : list Z) (m : ResultMergerState) :
    outcome (option slot * ResultMergerState) :=
  next_result types (drop (current_task m) (completed_tasks m)) m.

(** ** Streaming *)
Record StreamingResultState := {
  s_tasks : list RemoteTask; current_shard : nat; rows_processed : Z; batch_size : Z;
  is_complete : bool }.

Definition orochi_init_streaming_result (s : DistributedExecutorState) : StreamingResultState :=
  {| s_tasks := tasks s; current_shard := 0; rows_processed := 0; batch_size := 1000;
     is_complete := false |}.

(** A row with a value and a null flag for each field. *)
Definition batch_row (types : list Z) (cells : list (option text)) : outcome slot :=
  mapM (λ tv, convert_cell tv.1 tv.2) (zip types cells).

Definition move_stream (s : StreamingResultState) (shard : nat) (rows : Z) : StreamingResultState :=
  {| s_tasks := s_tasks s; current_shard := shard; rows_processed := rows;
     batch_size := batch_size s; is_complete := is_complete s |}.

Definition complete_stream (s : StreamingResultState) : StreamingResultState :=
  {| s_tasks := s_tasks s; current_shard := current_shard s; rows_processed := rows_processed s;
     batch_size := batch_size s; is_complete := true |}.

(** The loop over the shards from the current one.  The first row of a shard is the
    remainder of all rows so far by the rows of the shard, which must have one. *)
Fixpoint fill_batch (ts : list RemoteTask) (s : StreamingResultState) (batch : list slot) :
    outcome (list slot * StreamingResultState) :=
  match ts with
  | [] => Ok (batch, complete_stream s)
  | t :: ts =>
    let skip := move_stream s (S (current_shard s)) (rows_processed s) in
    match result t with
    | Some res =>
      if negb (is_completed t) then fill_batch ts skip batch else
      let ntuples := len (tuples res) in
      if ntuples =? 0 then Undef else
      let row_start := i32 (Z.rem (rows_processed s) ntuples) in
      if (0 <? rows_processed s) && (row_start =? 0) then fill_batch ts skip batch else
      rows ← mapM (batch_row (fields res))
               (take (Z.to_nat (batch_size s - len batch)) (drop (Z.to_nat row_start) (tuples res)));
      let batch := batch ++ rows in
      let processed := rows_processed s + len rows in
      if batch_size s <=? len batch then Ok (batch, move_stream s (current_shard s) processed)
      else fill_batch ts (move_stream s (S (current_shard s)) processed) batch
    | None => fill_batch ts skip batch
    end
  end.

Definition orochi_get_next_batch (s : StreamingResultState) :
    outcome (list slot * StreamingResultState) :=
  if is_complete s then Ok ([], s)
  else fill_batch (drop (current_shard s) (s_tasks s)) s [].

(** ** What a caller gets that calls until there is nothing more *)
Fixpoint fetch_all (fuel : nat) (types : list Z) (m : ResultMergerState) : outcome (list slot) :=
  match fuel with
  | O => Diverge
  | S fuel =>
    '(r, m) ← orochi_get_next_result types m;
    match r with
    | None => Ok []
    | Some s => rest ← fetch_all fuel types m; Ok (s :: rest)
    end
  end.

Fixpoint stream_all (fuel : nat) (s : StreamingResultState) : outcome (list slot) :=
  if is_complete s then Ok [] else
  match fuel with
  | O => Diverge
  | S fuel =>
    '(batch, s) ← orochi_get_next_batch s;
    rest ← stream_all fuel s;
    Ok (batch ++ rest)
  end.

(** ** The merger returns every row once *)

(** The rows of the tasks in their order. *)
Definition rows_of (t : RemoteTask) : list (list (option text)) :=
  match result t with Some res => tuples res | None => [] end.

Lemma next_result_spec types ts m :
  ∀ cells rest, drop (current_row m) (concat (rows_of <$> take 1 ts)) ++ concat (rows_of <$> drop 1 ts) = cells :: rest →
  ∀ s, fill_slot types cells = Ok s →
  ∃ k row, next_result types ts m = Ok (Some s, at_row m (current_task m + k)%nat row) ∧
    drop row (concat (rows_of <$> take 1 (drop k ts))) ++ concat (rows_of <$> drop (S k) ts) = rest.
Proof.
  revert m. induction ts as [|t ts IH]; intros m cells rest; cbn; [by rewrite drop_nil|].
  rewrite app_nil_r, drop_0. intros E s Hs.
  assert (result t ≫= (λ res, tuples res !! current_row m) = rows_of t !! current_row m) as ->.
  { unfold rows_of. by destruct (result t). }
  destruct (rows_of t !! current_row m) as [c|] eqn:Ec.
  - erewrite drop_S in E by done. cbn in E. injection E as -> E. rewrite Hs. cbn.
    exists 0%nat, (S (current_row m)). rewrite Nat.add_0_r. split; [done|]. cbn. by rewrite app_nil_r, drop_0.
  - apply lookup_ge_None in Ec. rewrite drop_ge in E by done. cbn in E.
    destruct (IH (at_row m (S (current_task m)) 0) cells rest) with s as (k & row & Hn & Hd).
    + cbn. rewrite drop_0. destruct ts; [done|]. cbn. by rewrite app_nil_r, drop_0.
    + done.
    + exists (S k), row. rewrite Hn. cbn. split; [by rewrite Nat.add_succ_r|done].
Qed.

Lemma next_result_end types ts m :
  drop (current_row m) (concat (rows_of <$> take 1 ts)) ++ concat (rows_of <$> drop 1 ts) = [] →
  ∃ m', next_result types ts m = Ok (None, m').
Proof.
  revert m. induction ts as [|t ts IH]; intros m; cbn; [by exists m|].
  rewrite app_nil_r, drop_0. intros [E1 E2]%app_nil.
  assert (result t ≫= (λ res, tuples res !! current_row m) = rows_of t !! current_row m) as ->.
  { unfold rows_of. by destruct (result t). }
  rewrite (proj2 (lookup_ge_None _ _)).
  - apply IH. cbn. rewrite drop_0. destruct ts; [done|]. cbn in *. by rewrite app_nil_r, drop_0.
  - apply (f_equal length) in E1. rewrite length_drop in E1. cbn in E1. lia.
Qed.

Lemma fetch_all_from types fuel m ss :
  mapM (fill_slot types) (drop (current_row m) (concat (rows_of <$> take 1 (drop (current_task m) (completed_tasks m)))) ++
    concat (rows_of <$> drop (S (current_task m)) (completed_tasks m))) = Ok ss →
  (length ss < fuel)%nat → fetch_all fuel types m = Ok ss.
Proof.
  revert m ss. induction fuel as [|fuel IH]; intros m ss Hss Hf; [lia|]. cbn [fetch_all].
  unfold orochi_get_next_result.
  destruct (_ ++ _) as [|cells rest] eqn:E in Hss.
  - injection Hss as <-. destruct (next_result_end types (drop (current_task m) (completed_tasks m)) m) as [m' ->]; [|done].
    by rewrite drop_drop, Nat.add_1_r.
  - cbn in Hss. apply outcome_bind_ok in Hss as (s & Hs & Hss).
    apply outcome_bind_ok in Hss as (ss' & Hss' & [= <-]).
    destruct (next_result_spec types (drop (current_task m) (completed_tasks m)) m cells rest) with s as (k & row & -> & Hd).
    + by rewrite drop_drop, Nat.add_1_r.
    + done.
    + cbn in *. rewrite (IH _ ss'); [done| |lia]. cbn. rewrite !drop_drop in Hd. rewrite <- Hss'. f_equal.
      rewrite <- Hd. repeat f_equal; lia.
Qed.

(** The merger returns the rows of the completed tasks one after the other, in the
    order of the tasks, each in the columns of the slot with nulls for missing fields, and
    then nothing more. *)
Theorem merger_returns_all_rows (types : list Z) (s : DistributedExecutorState) (ss : list slot) (fuel : nat) :
  mapM (fill_slot types) (concat (rows_of <$> filter (λ t, is_completed t = true) (tasks s))) = Ok ss →
  (length ss < fuel)%nat →
  fetch_all fuel types (orochi_init_result_merger s) = Ok ss.
Proof.
  intros Hss Hf. apply fetch_all_from; [|done]. cbn. rewrite drop_0. rewrite <- Hss. f_equal.
  destruct (filter _ _); [done|]. cbn. by rewrite app_nil_r, drop_0.
Qed.

(** ** The stream stops at the first shard *)

Lemma mapM_ok {A B} (f : A → outcome B) l k : mapM f l = Ok k ↔ Forall2 (λ x y, f x = Ok y) l k.
Proof.
  split.
  - revert k. induction l as [|x l IH]; intros k; cbn; [by intros [= <-]|].
    intros (y & Hy & H)%outcome_bind_ok. apply outcome_bind_ok in H as (k' & Hk & [= <-]). constructor; auto.
  - induction 1 as [|x y l k Hx _ IH]; [done|]. cbn. by rewrite Hx, IH.
Qed.

Lemma mapM_slice {A B} (f : A → outcome B) l k a b :
  mapM f l = Ok k → mapM f (take a (drop b l)) = Ok (take a (drop b k)).
Proof. rewrite !mapM_ok. intros H. by apply Forall2_take, Forall2_drop. Qed.

Definition full_shard (n : Z) (t : RemoteTask) : Prop :=
  is_completed t = true ∧ ∃ res, result t = Some res ∧ len (tuples res) = n.

(** Shards of the size that was read so far are passed over. *)
Lemma fill_batch_skips n ts s batch :
  0 < n < 2 ^ 31 → Forall (full_shard n) ts → rows_processed s = n →
  ∃ s', fill_batch ts s batch = Ok (batch, s') ∧ is_complete s' = true.
Proof.
  intros Hn Hts. revert s. induction Hts as [|t ts (Hc & res & Hr & Hl) _ IH]; intros s Hs; cbn [fill_batch].
  { by exists (complete_stream s). }
  rewrite Hr, Hc. cbn [negb]. cbv iota. rewrite Hl, (proj2 (Z.eqb_neq n 0)) by lia.
  rewrite Hs, Z.rem_same by lia. rewrite swrap_id by (by (done || (split; lia))).
  rewrite (proj2 (Z.ltb_lt 0 n)) by lia. cbn. by apply IH.
Qed.

Lemma stream_all_from n t ts out fuel s :
  0 < n < 2 ^ 31 → full_shard n t → Forall (full_shard n) ts →
  (∀ res, result t = Some res → mapM (batch_row (fields res)) (tuples res) = Ok out) →
  s_tasks s = t :: ts → current_shard s = 0%nat → batch_size s = 1000 → is_complete s = false →
  0 ≤ rows_processed s ≤ n → n - rows_processed s < 1000 * Z.of_nat fuel →
  stream_all fuel s = Ok (drop (Z.to_nat (rows_processed s)) out).
Proof.
  intros Hn (Hc & res & Hr & Hl) Hts Hout. specialize (Hout res Hr).
  assert (length out = length (tuples res)) as Hlen.
  { apply mapM_ok, Forall2_length in Hout. done. }
  revert s. induction fuel as [|fuel IH]; intros s Es Hsh Hbs Hco Hp Hfuel; cbn [stream_all].
  { rewrite Hco. lia. }
  rewrite Hco. unfold orochi_get_next_batch. rewrite Hco, Es, Hsh. cbn [drop].
  assert (∀ s', is_complete s' = true → stream_all fuel s' = Ok []) as Hend by (intros s' E; destruct fuel; cbn; by rewrite E).
  destruct (decide (rows_processed s = n)) as [E|Hne].
  - destruct (fill_batch_skips n (t :: ts) s [] Hn) as (s' & -> & Hs'); [constructor; [|done]|done|].
    { split; [done|]. by exists res. }
    cbn. rewrite Hend by done. cbn. rewrite drop_ge by lia. done.
  - cbn [fill_batch]. rewrite Hr, Hc. cbn [negb]. cbv iota. rewrite Hl, (proj2 (Z.eqb_neq n 0)) by lia.
    rewrite Z.rem_small by lia. rewrite swrap_id by (by (done || (split; lia))).
    assert ((0 <? rows_processed s) && (rows_processed s =? 0) = false) as ->.
    { destruct (Z.ltb_spec 0 (rows_processed s)), (Z.eqb_spec (rows_processed s) 0); try done; lia. }
    cbn [length]. rewrite Z.sub_0_r, Hbs, (mapM_slice _ _ _ _ _ Hout). cbn [mbind outcome_bind app].
    set (rows := take (Z.to_nat 1000) (drop (Z.to_nat (rows_processed s)) out)).
    assert (len rows = Z.min 1000 (n - rows_processed s)) as Hrows.
    { unfold rows. rewrite length_take, length_drop. lia. }
    assert (rows ++ drop (Z.to_nat (rows_processed s + len rows)) out =
      drop (Z.to_nat (rows_processed s)) out) as Hcat.
    { rewrite Hrows. unfold rows. rewrite <- (take_drop (Z.to_nat 1000) (drop (Z.to_nat (rows_processed s)) out)) at 2.
      f_equal. rewrite drop_drop. destruct (decide (1000 ≤ n - rows_processed s)).
      - f_equal. lia.
      - rewrite !drop_ge by lia. done. }
    destruct (Z.leb_spec 1000 (len rows)) as [Hfull|Hpart].
    + cbn [mbind outcome_bind]. rewrite IH; cbn; try done; try lia. by rewrite Hcat.
    + destruct (fill_batch_skips n ts (move_stream s (S (current_shard s)) (rows_processed s + len rows)) rows Hn Hts)
        as (s' & -> & Hs'); [cbn; lia|]. cbn [mbind outcome_bind]. rewrite Hend by done. cbn.
      rewrite app_nil_r, <- Hcat. rewrite (drop_ge out) by lia. by rewrite app_nil_r.
Qed.

(** When every shard has the same number of rows, the stream returns those of the
    first shard, all of them and in batches of a thousand, and none of the others: where
    a shard starts is computed from the rows of all shards so far. *)
Theorem streaming_returns_first_shard (n : Z) (t : RemoteTask) (ts : list RemoteTask)
    (s : DistributedExecutorState) (res : PGresult) (out : list slot) (fuel : nat) :
  0 < n < 2 ^ 31 → tasks s = t :: ts → Forall (full_shard n) (t :: ts) → result t = Some res →
  mapM (batch_row (fields res)) (tuples res) = Ok out → n < 1000 * Z.of_nat fuel →
  stream_all fuel (orochi_init_streaming_result s) = Ok out.
Proof.
  intros Hn Es [Ht Hts]%Forall_cons Hr Hout Hfuel.
  rewrite (stream_all_from n t ts out fuel); cbn; try done; try lia.
  by intros res' [= <-]%(eq_trans (eq_sym Hr)).
Qed.
End Rows.

(** ** Partial aggregates *)
Definition AGG_TYPE_COUNT : Z := 1.
Definition AGG_TYPE_SUM : Z := 2.
Definition AGG_TYPE_MIN : Z := 3.
Definition AGG_TYPE_MAX : Z := 4.
Definition AGG_TYPE_AVG : Z := 5.

Record PartialAggResult := {
  agg_shard_id : Z; count : Z; sum : Z; min_val : Z; max_val : Z }.

(** Zeroed by [palloc0]. *)
Definition empty_partial (shard : Z) : PartialAggResult :=
  {| agg_shard_id := shard; count := 0; sum := 0; min_val := 0; max_val := 0 |}.

(** The totals, with the starting values [PG_INT64_MAX] and [PG_INT64_MIN]. *)
Definition combine_step (acc : Z * Z * Z * Z) (p : PartialAggResult) : Z * Z * Z * Z :=
  let '(c, s, mn, mx) := acc in
  (i64 (c + count p), i64 (s + sum p),
   if min_val p <? mn then min_val p else mn, if mx <? max_val p then max_val p else mx).

Definition orochi_combine_partial_aggregates (l : list PartialAggResult) (agg_type : Z) : Datum :=
  let '(c, s, mn, mx) := foldl combine_step (0, 0, INT64_MAX, INT64_MIN) l in
  if agg_type =? AGG_TYPE_COUNT then DatumVal c
  else if agg_type =? AGG_TYPE_SUM then DatumVal s
  else if agg_type =? AGG_TYPE_MIN then DatumVal mn
  else if agg_type =? AGG_TYPE_MAX then DatumVal mx
  else if agg_type =? AGG_TYPE_AVG then
    DatumVal (bits_of_double
      (if 0 <? c then fdiv binary64 (float_of_Z binary64 s) (float_of_Z binary64 c)
       else S754_zero false))
  else DatumVal 0.

Section Pushdown.
Context `{L : Libpq}.

(** A field of the first row that is there and not null. *)
Definition number_field (res : PGresult) (i : nat) : outcome Z :=
  match head (tuples res) ≫= λ row, mjoin (row !! i) with
  | Some v => if (i <? length (fields res))%nat then atol v else Ok 0
  | None => Ok 0
  end.

Definition read_partial (shard : Z) (res : PGresult) : outcome PartialAggResult :=
  if bool_decide (PQresultStatus res = PGRES_TUPLES_OK) && (0 <? len (tuples res)) then
    c ← number_field res 0; s ← number_field res 1;
    mn ← number_field res 2; mx ← number_field res 3;
    Ok {| agg_shard_id := shard; count := c; sum := s; min_val := mn; max_val := mx |}
  else Ok (empty_partial shard).

Definition partial_of_worker (q : text) (t : RemoteTask) : backend PartialAggResult :=
  c ← orochi_get_worker_connection (node_id (fragment t));
  match c with
  | None => mret (empty_partial (shard_id (fragment t)))
  | Some c =>
    res ← exec c q;
    p ← lift (read_partial (shard_id (fragment t)) res);
    _ ← orochi_release_worker_connection (Some c);
    mret p
  end.

(** [forboth] ends with the shorter list. *)
Fixpoint partials_of_workers (l : list (text * RemoteTask)) : backend (list PartialAggResult) :=
  match l with
  | [] => mret []
  | (q, t) :: l =>
    p ← partial_of_worker q t;
    rest ← partials_of_workers l;
    mret (p :: rest)
  end.

Definition orochi_execute_aggregate_pushdown (s : DistributedExecutorState) (queries : list text)
    (agg_type : Z) : backend Datum :=
  l ← partials_of_workers (zip queries (tasks s));
  mret (orochi_combine_partial_aggregates l agg_type).

(** ** What the combination computes

    [answer vs] is what a worker reports for the values [vs] of its shard: their number,
    sum, minimum and maximum, the last three null when there are none. *)
Definition minimum (vs : list Z) : Z := foldr Z.min INT64_MAX vs.
Definition maximum (vs : list Z) : Z := foldr Z.max INT64_MIN vs.
Definition total (vs : list Z) : Z := foldr Z.add 0 vs.

Definition answer (vs : list Z) : PGresult :=
  {| PQresultStatus := PGRES_TUPLES_OK; PQcmdTuples := str "1";
     fields := [INT8OID; INT8OID; INT8OID; INT8OID];
     tuples := [match vs with
                | [] => [Some (print 0); None; None; None]
                | _ => [Some (print (len vs)); Some (print (total vs));
                        Some (print (minimum vs)); Some (print (maximum vs))]
                end] |}.

Definition partial_of (shard : Z) (vs : list Z) : PartialAggResult :=
  match vs with
  | [] => empty_partial shard
  | _ => {| agg_shard_id := shard; count := len vs; sum := total vs;
            min_val := minimum vs; max_val := maximum vs |}
  end.

Definition values_ok (vs : list Z) : Prop :=
  Forall (in_i 64) vs ∧ in_i 64 (len vs) ∧ in_i 64 (total vs).

Lemma minimum_range vs : Forall (in_i 64) vs → in_i 64 (minimum vs).
Proof.
  unfold minimum, maximum. induction 1 as [|v vs Hv _ IH]; cbn; [done|]. unfold in_i in *. lia.
Qed.
Lemma maximum_range vs : Forall (in_i 64) vs → in_i 64 (maximum vs).
Proof.
  unfold minimum, maximum. induction 1 as [|v vs Hv _ IH]; cbn; [done|]. unfold in_i in *. lia.
Qed.

Lemma read_answer shard vs : values_ok vs → read_partial shard (answer vs) = Ok (partial_of shard vs).
Proof.
  intros (Hv & Hl & Ht). unfold read_partial, number_field, answer. destruct vs as [|v vs]; [done|].
  cbn [tuples fields head length PQresultStatus]. cbn [mbind option_bind mjoin option_join lookup list_lookup].
  rewrite !atol_print by (done || by apply minimum_range || by apply maximum_range). done.
Qed.


(** The totals of a list of values and the totals of parts of it. *)
Lemma minimum_app a b : Forall (in_i 64) b → minimum (a ++ b) = Z.min (minimum a) (minimum b).
Proof.
  intros Hb%minimum_range. induction a as [|x a IH]; unfold minimum in *; cbn in *.
  - unfold in_i, INT64_MAX in *. lia.
  - rewrite IH. lia.
Qed.
Lemma maximum_app a b : Forall (in_i 64) b → maximum (a ++ b) = Z.max (maximum a) (maximum b).
Proof.
  intros Hb%maximum_range. induction a as [|x a IH]; unfold maximum in *; cbn in *.
  - unfold in_i, INT64_MIN in *. lia.
  - rewrite IH. lia.
Qed.
Lemma total_concat a b : total (a ++ b) = total a + total b.
Proof. unfold total. induction a; cbn; lia. Qed.

(** The accumulators after the partial results of some shards. *)
Lemma combine_counts shards : ∀ acc,
  let '(c, s, _, _) := foldl combine_step acc (map (λ p, partial_of p.1 p.2) shards) in
  cong 64 c (acc.1.1.1 + len (concat (map snd shards))) ∧
  cong 64 s (acc.1.1.2 + total (concat (map snd shards))) ∧
  (in_i 64 acc.1.1.1 → in_i 64 c) ∧ (in_i 64 acc.1.1.2 → in_i 64 s).
Proof.
  induction shards as [|[id vs] shards IH]; intros [[[c s] mn] mx]; cbn [map foldl concat snd fst].
  { unfold total. cbn. rewrite !Z.add_0_r. split_and!; done. }
  specialize (IH (combine_step (c, s, mn, mx) (partial_of id vs))).
  destruct (foldl _ _ _) as [[[c' s'] mn'] mx']. destruct IH as (Hc & Hs & Hci & Hsi). cbn in Hc, Hs, Hci, Hsi.
  assert (count (partial_of id vs) = len vs ∧ sum (partial_of id vs) = total vs) as [Ec Es] by by destruct vs.
  rewrite length_app, total_concat, Nat2Z.inj_add. rewrite Ec in Hc, Hci. rewrite Es in Hs, Hsi.
  rewrite (swrap_cong 64) in Hc, Hs by lia. split_and!.
  - by rewrite Z.add_assoc.
  - by rewrite Z.add_assoc.
  - intros _. apply Hci. by apply swrap_range.
  - intros _. apply Hsi. by apply swrap_range.
Qed.

Lemma combine_extremes shards : ∀ acc,
  Forall (λ p, p.2 ≠ [] ∧ Forall (in_i 64) p.2) shards →
  in_i 64 acc.1.2 → in_i 64 acc.2 →
  let '(_, _, mn, mx) := foldl combine_step acc (map (λ p, partial_of p.1 p.2) shards) in
  mn = Z.min acc.1.2 (minimum (concat (map snd shards))) ∧
  mx = Z.max acc.2 (maximum (concat (map snd shards))).
Proof.
  induction shards as [|[id vs] shards IH]; intros [[[c s] mn] mx] Hs Hmn Hmx; cbn [map foldl concat snd fst] in *.
  { unfold minimum, maximum, in_i, INT64_MAX, INT64_MIN in *. cbn. lia. }
  apply Forall_cons in Hs as [[Hne Hv] Hs]. cbn in Hne, Hv.
  assert (Forall (in_i 64) (concat (map snd shards))) as Hall.
  { apply Forall_concat, Forall_fmap. eapply Forall_impl; [exact Hs|]. by intros ? []. }
  rewrite minimum_app, maximum_app by done.
  assert (min_val (partial_of id vs) = minimum vs ∧ max_val (partial_of id vs) = maximum vs) as [Emn Emx] by by destruct vs.
  pose proof (minimum_range _ Hv) as Hmv. pose proof (maximum_range _ Hv) as Hxv.
  specialize (IH (combine_step (c, s, mn, mx) (partial_of id vs)) Hs).
  destruct (foldl _ _ _) as [[[c' s'] mn'] mx']. cbn in IH. rewrite Emn, Emx in IH.
  destruct (Z.ltb_spec (minimum vs) mn), (Z.ltb_spec mx (maximum vs)); destruct IH as [-> ->]; try done; lia.
Qed.

(** The aggregate of all values, as SQL has it for one table that holds them: [None] is NULL, the
    result of all but COUNT when there is no value.  (AVG is the quotient of the sum and the
    number in double precision.) *)
Definition sql_aggregate (agg_type : Z) (all : list Z) : option Datum :=
  if agg_type =? AGG_TYPE_COUNT then Some (DatumVal (len all))
  else if bool_decide (all = []) then None
  else if agg_type =? AGG_TYPE_SUM then Some (DatumVal (total all))
  else if agg_type =? AGG_TYPE_MIN then Some (DatumVal (minimum all))
  else if agg_type =? AGG_TYPE_MAX then Some (DatumVal (maximum all))
  else if agg_type =? AGG_TYPE_AVG then
    Some (DatumVal (bits_of_double
      (fdiv binary64 (float_of_Z binary64 (total all)) (float_of_Z binary64 (len all)))))
  else None.

(** The shards for which the combination is right: some value for SUM and AVG, and a value in
    every shard for MIN and MAX. *)
Definition combinable (agg_type : Z) (shards : list (list Z)) : Prop :=
  agg_type = AGG_TYPE_COUNT ∨
  (agg_type = AGG_TYPE_SUM ∨ agg_type = AGG_TYPE_AVG) ∧ concat shards ≠ [] ∨
  (agg_type = AGG_TYPE_MIN ∨ agg_type = AGG_TYPE_MAX) ∧ shards ≠ [] ∧ Forall (λ vs, vs ≠ []) shards.

Lemma combine_refines shards agg_type :
  Forall (λ p, Forall (in_i 64) p.2) shards →
  let all := concat (map snd shards) in
  in_i 64 (len all) → in_i 64 (total all) → combinable agg_type (map snd shards) →
  Some (orochi_combine_partial_aggregates (map (λ p, partial_of p.1 p.2) shards) agg_type) =
  sql_aggregate agg_type all.
Proof.
  intros Hv all Hlen Htotal Hag. unfold orochi_combine_partial_aggregates.
  pose proof (combine_counts shards (0, 0, INT64_MAX, INT64_MIN)) as Hc.
  pose proof (combine_extremes shards (0, 0, INT64_MAX, INT64_MIN)) as Hx.
  destruct (foldl _ _ _) as [[[c s] mn] mx]. destruct Hc as (Hc & Hs & Hci & Hsi). cbn [fst snd] in *.
  rewrite Z.add_0_l in Hc, Hs. fold all in Hc, Hs, Hx.
  rewrite (cong_in_range 64 c _ eq_refl (Hci ltac:(done)) Hc), (cong_in_range 64 s _ eq_refl (Hsi ltac:(done)) Hs).
  rewrite !swrap_id by done. unfold sql_aggregate.
  destruct Hag as [->|[[[-> | ->] Hne]|[Ha [Hsh Hne]]]]; [done|..].
  - rewrite bool_decide_eq_false_2 by done. done.
  - rewrite bool_decide_eq_false_2 by done.
    assert (0 < len all) as Hpos by (subst all; destruct (concat (map snd shards)); [done|cbn; lia]).
    by rewrite (proj2 (Z.ltb_lt _ _) Hpos).
  - assert (Hall : all ≠ []).
    { subst all. destruct shards as [|[i vs] shards]; [done|]. cbn in *. apply Forall_cons in Hne as [Hn _].
      by destruct vs. }
    rewrite bool_decide_eq_false_2 by done.
    assert (mn = minimum all ∧ mx = maximum all) as [-> ->].
    { destruct Hx as [-> ->]; [|done|done|].
      - rewrite Forall_forall in Hv. rewrite Forall_forall in Hne. apply Forall_forall. intros p Hp. split; [|by apply Hv].
        apply Hne. by apply list_elem_of_fmap_2.
      - assert (Forall (in_i 64) all) as Hin by (apply Forall_concat, Forall_fmap; exact Hv).
        pose proof (minimum_range _ Hin). pose proof (maximum_range _ Hin).
        unfold in_i, INT64_MAX, INT64_MIN in *. lia. }
    by destruct Ha as [-> | ->].
Qed.

Lemma partial_of_worker_wp q t vs b :
  always_connected → backend_ok b → is_Some (orochi_catalog_get_node (node_id (fragment t)) b) →
  (∀ h c, PQexec h c q = answer vs) → values_ok vs →
  wp (partial_of_worker q t) (λ p b', p = partial_of (shard_id (fragment t)) vs ∧
    node_rows b' = node_rows b ∧ backend_ok b') b.
Proof.
  intros Hok Hb Hn Hq Hv. unfold partial_of_worker. apply wp_bind.
  eapply wp_mono; [by apply get_connection_ready|]. intros r b1 ([c ->] & Hr1 & Hl1).
  apply wp_bind. unfold wp at 1, exec. rewrite Hq. apply wp_bind. rewrite read_answer by done.
  unfold wp at 1, lift. apply wp_bind. eapply wp_mono; [by apply (release_frame c (add_call (EExec c q) b1))|].
  intros [] b2 [Hf2 Hl2]. apply wp_ret. split_and!; [done|by rewrite (frame_nodes _ _ Hf2)|by intros _].
Qed.

Lemma partials_wp l shards b :
  always_connected → backend_ok b →
  Forall (λ qt, is_Some (orochi_catalog_get_node (node_id (fragment qt.2)) b)) l →
  Forall2 (λ qt vs, (∀ h c, PQexec h c qt.1 = answer vs) ∧ values_ok vs) l shards →
  wp (partials_of_workers l) (λ ps _, ps =
    map (λ p, partial_of p.1 p.2) (zip (map (λ qt, shard_id (fragment qt.2)) l) shards)) b.
Proof.
  intros Hok Hb Hn Hl. revert b Hb Hn. induction Hl as [|[q t] vs l shards [Hq Hv] _ IH]; intros b Hb Hn; [done|].
  apply Forall_cons in Hn as [Ht Hn]. cbn in Ht, Hq. cbn [partials_of_workers]. apply wp_bind.
  eapply wp_mono; [by apply (partial_of_worker_wp q t vs)|]. intros p b1 (-> & Hr & Hb1). apply wp_bind.
  eapply wp_mono; [apply IH; [done|]|].
  - eapply Forall_impl; [exact Hn|]. intros [q' t']. unfold orochi_catalog_get_node. by rewrite Hr.
  - by intros ps b2 ->.
Qed.

End Pushdown.

(** ** The cache of results *)
Definition MAX_DEPENDENT_TABLES : Z := 16.
Definition MAX_DEPENDENT_QUERIES : Z := 64.
Definition CACHE_TTL : Z := 5 * 60 * 1000000.

Record QueryCacheEntry := {
  query_hash : Z; result_data : text; result_size : Z; cached_at : Z; hit_count : Z;
  dependent_tables : list Z }.

(** [None] is the null pointer; a table of dependencies that does not exist yet has no entry. *)
Record QueryCache := {
  query_cache : option (gmap Z QueryCacheEntry); cache_dependencies : gmap Z (list Z) }.

Definition no_cache : QueryCache := {| query_cache := None; cache_dependencies := ∅ |}.

(** Characters are signed. *)
Definition schar (c : Ascii.ascii) : Z := swrap 8 (code c).

Definition compute_query_hash (q : text) : Z :=
  foldl (λ hash c, u64 (u64 (u64 (Z.shiftl hash 5) + hash) + schar c)) 5381 q.

Definition register_cache_dependency (hash table : Z) (deps : gmap Z (list Z)) : gmap Z (list Z) :=
  let l := default [] (deps !! table) in
  <[table := if (len l <? MAX_DEPENDENT_QUERIES) && negb (bool_decide (hash ∈ l))
             then l ++ [hash] else l]> deps.

Definition orochi_init_query_cache (c : QueryCache) : QueryCache :=
  {| query_cache := Some (default ∅ (query_cache c)); cache_dependencies := cache_dependencies c |}.

Definition entries (c : QueryCache) : gmap Z QueryCacheEntry := default ∅ (query_cache c).

Definition set_entries (m : gmap Z QueryCacheEntry) (c : QueryCache) : QueryCache :=
  {| query_cache := Some m; cache_dependencies := cache_dependencies c |}.

Definition hit (e : QueryCacheEntry) : QueryCacheEntry :=
  {| query_hash := query_hash e; result_data := result_data e; result_size := result_size e;
     cached_at := cached_at e; hit_count := hit_count e + 1;
     dependent_tables := dependent_tables e |}.

Definition orochi_cache_lookup (q : text) (now : Z) (c : QueryCache) : option QueryCacheEntry * QueryCache :=
  let c := orochi_init_query_cache c in
  let hash := compute_query_hash q in
  match entries c !! hash with
  | None => (None, c)
  | Some e =>
    if now - cached_at e <? CACHE_TTL
    then (Some (hit e), set_entries (<[hash := hit e]> (entries c)) c)
    else (None, set_entries (delete hash (entries c)) c)
  end.

(** The dependencies are those of the tables in front of the sixteenth. *)
Definition orochi_cache_store_with_deps (q data : text) (size now : Z) (tables : list Z)
    (c : QueryCache) : QueryCache :=
  let c := orochi_init_query_cache c in
  let hash := compute_query_hash q in
  match entries c !! hash with
  | Some _ => c
  | None =>
    let tables := take (Z.to_nat MAX_DEPENDENT_TABLES) tables in
    {| query_cache := Some (<[hash := {| query_hash := hash; result_data := data;
                                         result_size := size; cached_at := now; hit_count := 0;
                                         dependent_tables := tables |}]> (entries c));
       cache_dependencies := foldl (λ deps t, register_cache_dependency hash t deps)
                               (cache_dependencies c) tables |}
  end.

(** The list of tables of an entry that is stored without them is never read. *)
Definition orochi_cache_store (q data : text) (size now : Z) (c : QueryCache) : QueryCache :=
  let c := orochi_init_query_cache c in
  let hash := compute_query_hash q in
  match entries c !! hash with
  | Some _ => c
  | None =>
    set_entries (<[hash := {| query_hash := hash; result_data := data; result_size := size;
                              cached_at := now; hit_count := 0; dependent_tables := [] |}]> (entries c)) c
  end.

Definition orochi_cache_invalidate (table : Z) (c : QueryCache) : QueryCache :=
  match query_cache c with
  | None => c
  | Some m =>
    match cache_dependencies c !! table with
    | Some (h :: l) =>
      {| query_cache := Some (foldr delete m (h :: l));
         cache_dependencies := <[table := []]> (cache_dependencies c) |}
    | _ => {| query_cache := None; cache_dependencies := cache_dependencies c |}
    end
  end.

(** ** Invalidated results are gone

    [room] says that a query and its tables fit in the lists that have a fixed size. *)
Definition has_room (hash : Z) (deps : gmap Z (list Z)) (t : Z) : Prop :=
  len (default [] (deps !! t)) < MAX_DEPENDENT_QUERIES ∨ hash ∈ default [] (deps !! t).

Definition room (q : text) (tables : list Z) (c : QueryCache) : Prop :=
  len tables ≤ MAX_DEPENDENT_TABLES ∧
  Forall (has_room (compute_query_hash q) (cache_dependencies c)) tables.

Inductive cache_step (c : QueryCache) : QueryCache → Prop :=
| step_lookup q now : cache_step c (orochi_cache_lookup q now c).2
| step_store q data size now tables :
    room q tables c → cache_step c (orochi_cache_store_with_deps q data size now tables c)
| step_store_plain q data size now : cache_step c (orochi_cache_store q data size now c)
| step_invalidate t : cache_step c (orochi_cache_invalidate t c).

(** Each entry is in the lists of its tables. *)
Definition tracked (c : QueryCache) : Prop :=
  ∀ h e t, entries c !! h = Some e → t ∈ dependent_tables e →
    h ∈ default [] (cache_dependencies c !! t).

Lemma register_keeps hash table deps h t :
  h ∈ default [] (deps !! t) → h ∈ default [] (register_cache_dependency hash table deps !! t).
Proof.
  unfold register_cache_dependency. intros Hh. destruct (decide (table = t)) as [->|Hne].
  - rewrite lookup_insert_eq. cbn. case_match; [|done]. apply elem_of_app. by left.
  - by rewrite lookup_insert_ne.
Qed.

Lemma register_all_keeps hash tables deps h t :
  h ∈ default [] (deps !! t) →
  h ∈ default [] (foldl (λ deps t, register_cache_dependency hash t deps) deps tables !! t).
Proof. revert deps. induction tables as [|x l IH]; intros deps Hh; [done|]. by apply IH, register_keeps. Qed.

(** Registering for one table changes the list of no other. *)
Lemma register_other hash table deps t :
  table ≠ t → default [] (register_cache_dependency hash table deps !! t) = default [] (deps !! t).
Proof. intros Hne. unfold register_cache_dependency. by rewrite lookup_insert_ne. Qed.

Lemma register_adds hash table deps :
  has_room hash deps table → hash ∈ default [] (register_cache_dependency hash table deps !! table).
Proof.
  unfold has_room, register_cache_dependency. intros Hroom. rewrite lookup_insert_eq. cbn.
  case_bool_decide as Hin; cbn; [by rewrite andb_false_r|].
  destruct Hroom as [Hroom|?]; [|done]. rewrite (proj2 (Z.ltb_lt _ _) Hroom). cbn.
  apply elem_of_app. right. by apply list_elem_of_singleton.
Qed.

Lemma register_all_adds hash tables deps t :
  Forall (has_room hash deps) tables → t ∈ tables →
  hash ∈ default [] (foldl (λ deps t, register_cache_dependency hash t deps) deps tables !! t).
Proof.
  revert deps. induction tables as [|x l IH]; intros deps Hroom Ht; [by apply not_elem_of_nil in Ht|].
  apply Forall_cons in Hroom as [Hx Hroom]. cbn. apply elem_of_cons in Ht as [->|Ht].
  - by apply register_all_keeps, register_adds.
  - apply IH; [|done]. eapply Forall_impl; [exact Hroom|]. intros y Hy.
    destruct (decide (x = y)) as [->|Hne]; [right; by apply register_adds|].
    unfold has_room. by rewrite register_other.
Qed.

Lemma cache_step_tracked c c' : cache_step c c' → tracked c → tracked c'.
Proof.
  intros Hs Hc. destruct Hs as [q now|q data size now tables [Hlen Hroom]|q data size now|t].
  - unfold orochi_cache_lookup. destruct (entries _ !! _) as [e|] eqn:E; [|exact Hc].
    change (entries (orochi_init_query_cache c)) with (entries c) in *.
    case_match; intros h e' t; cbn.
    + intros [[<- <-]|[Hne He]]%lookup_insert_Some; [|by apply Hc]. apply (Hc _ _ _ E).
    + intros [Hne He]%lookup_delete_Some. by apply Hc.
  - unfold orochi_cache_store_with_deps.
    change (entries (orochi_init_query_cache c)) with (entries c).
    destruct (entries c !! _); [exact Hc|]. rewrite take_ge by (unfold MAX_DEPENDENT_TABLES in *; lia).
    intros h e' t; cbn. intros [[<- <-]|[Hne He]]%lookup_insert_Some Ht.
    + by apply register_all_adds.
    + apply register_all_keeps. by eapply Hc.
  - unfold orochi_cache_store. change (entries (orochi_init_query_cache c)) with (entries c).
    destruct (entries c !! _); [exact Hc|]. intros h e' t; cbn.
    intros [[<- <-]|[Hne He]]%lookup_insert_Some Ht; [by apply not_elem_of_nil in Ht|by eapply Hc].
  - unfold orochi_cache_invalidate. destruct (query_cache c) as [m|] eqn:Em; [|exact Hc].
    destruct (cache_dependencies c !! t) as [[|h0 l]|] eqn:Ed; [by intros h e t'; cbn; rewrite lookup_empty| |
      by intros h e t'; cbn; rewrite lookup_empty].
    intros h e t'; unfold entries; cbn [query_cache cache_dependencies default from_option].
    intros [Hnin He]%lookup_foldr_delete_Some Ht'. assert (h ∈ default [] (cache_dependencies c !! t')) as Hin.
    { eapply Hc; [|exact Ht']. unfold entries. by rewrite Em. }
    destruct (decide (t = t')) as [<-|Hne]; [|by rewrite lookup_insert_ne].
    rewrite Ed in Hin. by destruct Hnin.
Qed.

(** C33: when every result was stored with at most 16 tables, each of which had fewer than 64
    queries registered by then (or this one among them), a lookup after the invalidation of a
    table finds no result that depends on it.  The sixty-fifth query of a table is not
    registered and survives: [sixty_fifth_query_stale]. *)
Theorem invalidated_results_gone (c : QueryCache) (t : Z) (q : text) (now : Z) (e : QueryCacheEntry) :
  rtc cache_step no_cache c →
  (orochi_cache_lookup q now (orochi_cache_invalidate t c)).1 = Some e → t ∉ dependent_tables e.
Proof.
  intros Hr. assert (tracked c) as Hc.
  { assert (tracked no_cache) as H0 by (intros h e' t'; cbn; by rewrite lookup_empty).
    revert H0. induction Hr as [|x y z Hxy _ IH]; [done|]. intros H0. by apply IH, (cache_step_tracked x). }
  pose proof (cache_step_tracked c _ (step_invalidate c t) Hc) as Hc'. revert Hc'.
  unfold orochi_cache_lookup.
  change (entries (orochi_init_query_cache (orochi_cache_invalidate t c))) with (entries (orochi_cache_invalidate t c)).
  destruct (entries _ !! _) as [e0|] eqn:E; [|done]. case_match; [|done].
  intros Hc' [= <-] Ht. specialize (Hc' _ _ t E Ht). revert E Hc'. unfold orochi_cache_invalidate, entries.
  destruct (query_cache c) as [m|] eqn:Em; [|rewrite Em; cbn; by rewrite lookup_empty].
  destruct (cache_dependencies c !! t) as [[|h l]|]; cbn; [by rewrite lookup_empty| |by rewrite lookup_empty].
  rewrite lookup_insert_eq. cbn. by intros _ ?%not_elem_of_nil.
Qed.

(** A result that is stored for a new query is found until its time is over. *)
Lemma stored_result_found q data size stored now tables c :
  entries c !! compute_query_hash q = None → now - stored < CACHE_TTL →
  result_data <$> (orochi_cache_lookup q now (orochi_cache_store_with_deps q data size stored tables c)).1 = Some data.
Proof.
  intros Hn Hnow. unfold orochi_cache_store_with_deps.
  change (entries (orochi_init_query_cache c)) with (entries c). rewrite Hn. unfold orochi_cache_lookup, entries. cbn.
  rewrite lookup_insert_eq. cbn. by rewrite (proj2 (Z.ltb_lt _ _) Hnow).
Qed.

(** Two queries with the same hash get the result of the first. *)
Theorem colliding_queries_share_result :
  result_data <$> (orochi_cache_lookup (str "SELECT 'FY'") 1
    (orochi_cache_store_with_deps (str "SELECT 'Ez'") (str "Ez") 2 0 [] no_cache)).1 = Some (str "Ez").
Proof. vm_compute. reflexivity. Qed.

(** The sixty-fifth query on a table survives the invalidation of the table. *)
Definition numbered (i : nat) : text := str "SELECT " ++ print (Z.of_nat i).

Theorem sixty_fifth_query_stale :
  let c := foldl (λ c i, orochi_cache_store_with_deps (numbered i) (str "old") 3 0 [7] c) no_cache (seq 0 65) in
  let c := orochi_cache_invalidate 7 c in
  (orochi_cache_lookup (numbered 63) 1 c).1 = None ∧
  result_data <$> (orochi_cache_lookup (numbered 64) 1 c).1 = Some (str "old").
Proof. vm_compute. split; reflexivity. Qed.

(** A second invalidation of a table, or one of a table that no query depends on, drops the
    results of all tables. *)
Lemma untracked_invalidation_clears t c :
  default [] (cache_dependencies c !! t) = [] → entries (orochi_cache_invalidate t c) = ∅.
Proof.
  unfold orochi_cache_invalidate, entries. intros Hd. destruct (query_cache c) as [m|] eqn:Em; [|by rewrite Em].
  by destruct (cache_dependencies c !! t) as [[]|].
Qed.

(** ** Concrete runs *)

(** The numbers of the examples are small integers, for which any [atof] does. *)
Definition no_floats (v : text) : spec_float := S754_zero false.
Definition raw_text (v : text) : Datum := DatumRef (map code v).

Definition table_result (rows : list Z) : PGresult :=
  {| PQresultStatus := PGRES_TUPLES_OK; PQcmdTuples := print (len rows); fields := [INT8OID];
     tuples := map (λ z, [Some (print z)]) rows |}.

Definition finished (rows : list Z) : RemoteTask := mark_completed (table_result rows) (len rows) (new_task query1).

Definition state_of (l : list RemoteTask) : DistributedExecutorState :=
  {| tasks := l; pending_count := 0; running_count := 0; completed_count := len l; failed_count := 0;
     max_parallel := 4; all_completed := true; has_error := false; x_error_message := None |}.

Lemma merger_returns_all_rows_witness :
  fetch_all no_floats raw_text 4 [INT8OID; INT4OID]
    (orochi_init_result_merger (state_of [finished [1; 2]; new_task query1; finished [3]])) =
  Ok [[(DatumVal 1, false); null_cell]; [(DatumVal 2, false); null_cell]; [(DatumVal 3, false); null_cell]].
Proof.
  apply (merger_returns_all_rows no_floats raw_text [INT8OID; INT4OID]
    (state_of [finished [1; 2]; new_task query1; finished [3]])); [vm_compute; reflexivity|cbn; lia].
Defined.

Lemma streaming_returns_first_shard_witness :
  stream_all no_floats raw_text 1 (orochi_init_streaming_result (state_of [finished [1; 2]; finished [3; 4]])) =
  Ok [[(DatumVal 1, false)]; [(DatumVal 2, false)]].
Proof.
  apply (streaming_returns_first_shard no_floats raw_text 2 (finished [1; 2]) [finished [3; 4]]
    (state_of [finished [1; 2]; finished [3; 4]]) (table_result [1; 2])).
  - done.
  - done.
  - repeat constructor; by eexists.
  - done.
  - vm_compute. reflexivity.
  - done.
Defined.

(** Shards of other sizes lose rows in front, and a shard without rows stops the server. *)
Theorem streaming_skips_rows :
  stream_all no_floats raw_text 1 (orochi_init_streaming_result (state_of [finished [1; 2; 3]; finished [4; 5; 6; 7; 8]])) =
    Ok [[(DatumVal 1, false)]; [(DatumVal 2, false)]; [(DatumVal 3, false)];
        [(DatumVal 7, false)]; [(DatumVal 8, false)]] ∧
  stream_all no_floats raw_text 1 (orochi_init_streaming_result (state_of [finished [1]; finished []])) = Undef.
Proof. split; vm_compute; reflexivity. Qed.

(** Workers that answer query [i] with the aggregates of shard [i]. *)
Definition two_shards : list (list Z) := [[5; 9]; [7]].
Definition aggregating_workers : Libpq :=
  {| GetCurrentTimestamp h := 0; connection_ok _ _ := true; PQerrorMessage _ _ := [];
     PQexec _ _ q := answer (if bool_decide (q = str "q1") then [5; 9] else [7]);
     PQsendQuery _ _ _ := true; PQconsumeInput _ _ := true; PQisBusy _ _ := false;
     PQgetResult _ _ := None; PQsocket _ c := c; select _ _ _ := 1; PQgetCancel _ _ := true;
     raft_answer _ _ := true |}.


(** The sum and the average of no values are zero where SQL gives NULL. *)
Theorem sum_of_nothing_is_zero :
  sql_aggregate AGG_TYPE_SUM [] = None ∧ sql_aggregate AGG_TYPE_AVG [] = None ∧
  orochi_combine_partial_aggregates [partial_of 1 []] AGG_TYPE_SUM = DatumVal 0 ∧
  orochi_combine_partial_aggregates [partial_of 1 []] AGG_TYPE_AVG = DatumVal 0.
Proof. repeat split. Qed.

(** An empty shard and one that cannot be reached both count as a shard whose values are
    zero. *)
Theorem empty_shard_is_zero :
  orochi_combine_partial_aggregates [partial_of 1 []; partial_of 2 [5; 9]] AGG_TYPE_MIN = DatumVal 0 ∧
  (@partial_of_worker prompt_workers (str "q") (new_task {| shard_id := 3; node_id := 99; query_string := [] |})
    new_backend).1 = Ok (empty_partial 3).
Proof. split; vm_compute; reflexivity. Qed.

Lemma invalidated_results_gone_witness :
  (7 ∉ [8] : Prop) ∧
  result_data <$> (orochi_cache_lookup (str "q2") 1 (orochi_cache_invalidate 7
    (orochi_cache_store_with_deps (str "q2") (str "b") 1 0 [8]
      (orochi_cache_store_with_deps (str "q1") (str "a") 1 0 [7] no_cache)))).1 = Some (str "b").
Proof.
  split; [|vm_compute; reflexivity].
  apply (invalidated_results_gone
    (orochi_cache_store_with_deps (str "q2") (str "b") 1 0 [8]
      (orochi_cache_store_with_deps (str "q1") (str "a") 1 0 [7] no_cache)) 7 (str "q2") 1
    (hit {| query_hash := compute_query_hash (str "q2"); result_data := str "b"; result_size := 1;
            cached_at := 0; hit_count := 0; dependent_tables := [8] |})).
  - eapply rtc_l; [apply (step_store _ (str "q1") (str "a") 1 0 [7])|eapply rtc_l; [apply (step_store _ (str "q2") (str "b") 1 0 [8])|apply rtc_refl]].
    + split; [done|]. apply Forall_singleton. left. vm_compute. reflexivity.
    + split; [done|]. apply Forall_singleton. left. vm_compute. reflexivity.
  - vm_compute. reflexivity.
Defined.
