(* ===== verification/TwoPhase.v ===== *)
(** * Distributed transactions

    The two-phase commit of [executor/distributed_executor.c]: a transaction that spans
    workers is prepared on each of them and then committed on each of them.  The decisions
    are also given to Raft, whose answers change log messages only. *)
From stdpp Require Import sets relations.
From S2P Require Import Prelude CText Executor.

Local Open Scope Z_scope.

(** The commands that a worker gets. *)
Definition participant_gid (gid : text) (node : Z) : text := gid ++ str "_" ++ print node.
Definition prepare_sql (gid : text) (node : Z) : text :=
  str "PREPARE TRANSACTION '" ++ participant_gid gid node ++ str "'".
Definition commit_sql (gid : text) (node : Z) : text :=
  str "COMMIT PREPARED '" ++ participant_gid gid node ++ str "'".
Definition rollback_sql (gid : text) (node : Z) : text :=
  str "ROLLBACK PREPARED '" ++ participant_gid gid node ++ str "'".

Definition set_participants (l : list Z) (d : DistributedTransactionState) : DistributedTransactionState :=
  {| gid := gid d; participants := l; prepared := prepared d |}.
Definition set_prepared (d : DistributedTransactionState) : DistributedTransactionState :=
  {| gid := gid d; participants := participants d; prepared := true |}.

(** The nodes of the tasks that are not participants yet, with the shard of the first task
    of each as an [int]. *)
Fixpoint collect_participants (ts : list RemoteTask) (nodes shards : list Z) : list Z * list Z :=
  match ts with
  | [] => (nodes, shards)
  | t :: ts =>
    let n := node_id (fragment t) in
    if bool_decide (n ∈ nodes) then collect_participants ts nodes shards
    else collect_participants ts (nodes ++ [n]) (shards ++ [i32 (shard_id (fragment t))])
  end.

Section TwoPhase.
Context `{L : Libpq}.

(** The buffer has 64 bytes. *)
Definition generate_transaction_gid : backend text :=
  now ← clock;
  _ ← update count_transaction;
  n ← ask txn_counter;
  p ← ask pid;
  mret (take 63 (str "orochi_2pc_" ++ print p ++ str "_" ++ print (u64 now) ++ str "_" ++ print n)).

Definition execute_2pc_command (c : Z) (sql : text) : backend bool :=
  r ← exec c sql;
  mret (bool_decide (PQresultStatus r = PGRES_COMMAND_OK)).

Definition raft_call (q : RaftCall) : backend bool :=
  λ b, (Ok (raft_answer (calls b) q), add_call (ERaft q) b).

Definition orochi_begin_distributed_transaction : backend unit :=
  d ← ask current_dtxn;
  match d with
  | Some _ => mret tt
  | None =>
    g ← generate_transaction_gid;
    update (set_dtxn (Some {| gid := g; participants := []; prepared := false |}))
  end.

(** Phase 1: whether all participants prepared.  A connection whose command fails is not
    given back. *)
Fixpoint prepare_participants (g : text) (nodes : list Z) : backend bool :=
  match nodes with
  | [] => mret true
  | n :: nodes =>
    c ← orochi_get_worker_connection n;
    match c with
    | None => mret false
    | Some c =>
      ok ← execute_2pc_command c (prepare_sql g n);
      if ok : bool then
        _ ← orochi_release_worker_connection (Some c);
        prepare_participants g nodes
      else mret false
    end
  end.

(** A rollback goes on with the other nodes when one cannot be reached or refuses. *)
Fixpoint rollback_each (sql : Z → text) (nodes : list Z) : backend unit :=
  match nodes with
  | [] => mret tt
  | n :: nodes =>
    c ← orochi_get_worker_connection n;
    match c with
    | None => rollback_each sql nodes
    | Some c =>
      _ ← execute_2pc_command c (sql n);
      _ ← orochi_release_worker_connection (Some c);
      rollback_each sql nodes
    end
  end.

Definition rollback_prepared (g : text) : list Z → backend unit := rollback_each (rollback_sql g).
Definition rollback_active : list Z → backend unit := rollback_each (λ _, str "ROLLBACK").

(** The decision is given to Raft by a node that leads it. *)
Definition if_raft_leads (k : backend unit) : backend unit :=
  use ← ask orochi_use_raft_consensus;
  if use : bool then
    leads ← raft_call IsLeader;
    if leads : bool then k else mret tt
  else mret tt.

Definition orochi_rollback_distributed_transaction : backend unit :=
  d ← ask current_dtxn;
  match d with
  | None => mret tt
  | Some d =>
    _ ← (if prepared d then if_raft_leads (_ ← raft_call (Abort (gid d)); mret tt) else mret tt);
    _ ← (if prepared d then rollback_prepared (gid d) (participants d)
         else rollback_active (participants d));
    update (set_dtxn None)
  end.

Definition orochi_prepare_distributed_transaction (s : DistributedExecutorState) : backend bool :=
  d ← ask current_dtxn;
  match d with
  | None => mret false
  | Some d =>
    let '(nodes, shards) := collect_participants (tasks s) (participants d) [] in
    let d := set_participants nodes d in
    _ ← update (set_dtxn (Some d));
    ok ← prepare_participants (gid d) nodes;
    if ok : bool then
      _ ← update (set_dtxn (Some (set_prepared d)));
      _ ← if_raft_leads (_ ← raft_call (Prepare (gid d) shards); mret tt);
      mret true
    else
      _ ← orochi_rollback_distributed_transaction;
      mret false
  end.

(** Phase 2 ends with an error at the first participant that fails. *)
Fixpoint commit_participants (g : text) (nodes : list Z) : backend unit :=
  match nodes with
  | [] => mret tt
  | n :: nodes =>
    c ← orochi_get_worker_connection n;
    match c with
    | None => lift (Err "Failed to connect to node during 2PC commit")
    | Some c =>
      ok ← execute_2pc_command c (commit_sql g n);
      if ok : bool then
        _ ← orochi_release_worker_connection (Some c);
        commit_participants g nodes
      else lift (Err "COMMIT PREPARED failed")
    end
  end.

(** A node that does not lead asks for the leader and goes on. *)
Definition raft_commit (g : text) : backend unit :=
  use ← ask orochi_use_raft_consensus;
  if use : bool then
    leads ← raft_call IsLeader;
    if leads : bool then
      logged ← raft_call (Commit g);
      if logged : bool then _ ← raft_call (WaitForCommit g 5000); mret tt else mret tt
    else _ ← raft_call GetLeader; mret tt
  else mret tt.

Definition orochi_commit_distributed_transaction : backend unit :=
  d ← ask current_dtxn;
  match d with
  | None => mret tt
  | Some d =>
    if prepared d then
      _ ← raft_commit (gid d);
      _ ← commit_participants (gid d) (participants d);
      update (set_dtxn None)
    else mret tt
  end.

(** ** What was executed

    [did H b b' l]: on the way from [b] to [b'] the commands [l] were executed and no
    others, each on an open connection to its node that is not one of [H]; [true] says that
    the node completed the command. *)
Record did (H : list Z) (b b' : Backend) (l : list (Z * text * bool)) : Prop := {
  did_new : ∃ new, exec_answers (calls b') = new ++ exec_answers (calls b) ∧
    Forall2 (λ ns cs, cs.1.2 = ns.1.2 ∧ cs.2 = ns.2 ∧ opened ns.1.1 cs.1.1 (calls b') ∧ cs.1.1 ∉ H) l (rev new);
  did_calls : ∀ e, e ∈ calls b → e ∈ calls b';
  did_nodes : node_rows b' = node_rows b }.

(** A node that is certain to be reached: it is in the catalog, and connections do not fail. *)
Definition reachable_node (n : Z) (b : Backend) : Prop :=
  always_connected ∧ is_Some (orochi_catalog_get_node n b).

Lemma did_reachable H b b' l n : did H b b' l → reachable_node n b' ↔ reachable_node n b.
Proof. intros [_ _ E]. unfold reachable_node, orochi_catalog_get_node. by rewrite E. Qed.

Lemma opened_mono n c h h' : (∀ e, e ∈ h → e ∈ h') → opened n c h → opened n c h'.
Proof. intros Hm [s Hs]. exists s. auto. Qed.

Lemma did_trans H b1 b2 b3 l1 l2 : did H b1 b2 l1 → did H b2 b3 l2 → did H b1 b3 (l1 ++ l2).
Proof.
  intros [(n1 & E1 & F1) M1 N1] [(n2 & E2 & F2) M2 N2]. constructor; [|auto|congruence].
  exists (n2 ++ n1). rewrite E2, E1, app_assoc. split; [done|]. rewrite rev_app_distr. apply Forall2_app; [|done].
  eapply Forall2_impl; [exact F1|]. intros ns cs (? & ? & Ho & ?). split_and!; [done|done| |done]. by eapply opened_mono.
Qed.

Lemma did_nothing H b b' : pool_frame b b' → did H b b' [].
Proof.
  intros Hf. constructor; [|by apply Hf|by apply Hf]. exists []. split; [by apply frame_execs|constructor].
Qed.

Lemma did_nil_l H b1 b2 b3 l : did H b1 b2 [] → did H b2 b3 l → did H b1 b3 l.
Proof. intros H1 H2. exact (did_trans _ _ _ _ _ _ H1 H2). Qed.

Lemma did_nil_r H b1 b2 b3 l : did H b1 b2 l → did H b2 b3 [] → did H b1 b3 l.
Proof. intros H1 H2. rewrite <- (app_nil_r l). exact (did_trans _ _ _ _ _ _ H1 H2). Qed.

(** A state in which the connections [H] are held, and one in which [c] was handed out
    besides. *)
Definition ready (H : list Z) (b : Backend) : Prop :=
  backend_ok b ∧ ∃ held, H ⊆ held ∧ pool_ok (connection_pool b) b held.

Definition handed (H : list Z) (n c : Z) (b : Backend) : Prop :=
  locks_initialized b = true ∧ opened n c (calls b) ∧
  ∃ held, H ⊆ held ∧ c ∉ held ∧ pool_ok (connection_pool b) b (c :: held).

Lemma handed_ready H n c b : handed H n c b → ready H b.
Proof. intros (Hl & _ & held & HH & _ & Hok). split; [by intros _|]. exists (c :: held). split; [set_solver|done]. Qed.

Lemma get_wp H n b :
  ready H b →
  wp (orochi_get_worker_connection n) (λ r b', pool_frame b b' ∧
    match r with None => ready H b' ∧ ¬ reachable_node n b | Some c => handed H n c b' end) b.
Proof.
  intros [Hb (held & HH & Hok)]. eapply wp_mono.
  { apply wp_and; [by apply get_connection_frame|by apply (get_connection_pool n b held)]. }
  intros r b' [(Hf & Hl & Hr') [Hok' Hr]]. split; [done|]. destruct r as [c|]; cbn in Hok'.
  - destruct (Hr c eq_refl) as (Hc & _ & Ho). split_and!; [done|done|]. by exists held.
  - split; [split; [by intros _|]; by exists held|]. intros [Hc Hn]. by destruct (Hr' Hc Hn).
Qed.

Lemma exec_wp H n c sql b :
  handed H n c b →
  wp (execute_2pc_command c sql) (λ ok b', handed H n c b' ∧ current_dtxn b' = current_dtxn b ∧
    did H b b' [(n, sql, ok)]) b.
Proof.
  intros (Hl & Ho & held & HH & Hc & Hok). unfold execute_2pc_command. apply wp_bind. cbn.
  assert (opened n c (calls (add_call (EExec c sql) b))) as Ho'.
  { eapply opened_mono; [|exact Ho]. intros e He. cbn. by right. }
  split_and!; [|done|].
  - split_and!; [done|done|]. exists held. split_and!; [done|done|]. by apply (pool_ok_call (EExec c sql)).
  - constructor; [|intros e He; cbn; by right|done]. eexists [_]. split; [reflexivity|].
    constructor; [|constructor]. split_and!; [done|done|done|]. set_solver.
Qed.

Lemma release_wp H n c b :
  handed H n c b →
  wp (orochi_release_worker_connection (Some c)) (λ _ b', pool_frame b b' ∧ ready H b') b.
Proof.
  intros (Hl & _ & held & HH & Hc & Hok). eapply wp_mono.
  { apply wp_and; [by apply release_frame|apply (release_pool c b (c :: held)); [done|by left|done]]. }
  intros _ b' [[Hf Hl'] Hok']. split; [done|]. split; [by intros _|]. eexists. split; [|exact Hok'].
  intros x Hx. apply list_elem_of_filter. split; [|right; by apply HH]. intros ->. by apply Hc, HH.
Qed.

(** [spec m Q b]: the outcome of [m] and the state it leaves satisfy [Q]. *)
Definition spec {A} (m : backend A) (Q : outcome A → Backend → Prop) (b : Backend) : Prop :=
  Q (m b).1 (m b).2.

Lemma spec_bind {A B} (m : backend A) (k : A → backend B) Q b :
  wp m (λ a, spec (k a) Q) b → spec (m ≫= k) Q b.
Proof. unfold wp, spec, mbind, backend_bind. by destruct (m b) as [[] ?]. Qed.

Lemma spec_mono {A} (m : backend A) (P Q : outcome A → Backend → Prop) b :
  spec m P b → (∀ o b', P o b' → Q o b') → spec m Q b.
Proof. unfold spec. auto. Qed.

Lemma spec_wp {A} (m : backend A) (Q : A → Backend → Prop) b :
  spec m (λ o b', ∃ a, o = Ok a ∧ Q a b') b → wp m Q b.
Proof. unfold spec, wp. destruct (m b) as [o b']. cbn. intros (a & -> & HQ). exact HQ. Qed.

(** Getting a connection and sending a command on it. *)
Lemma round_trip {A} H n sql (k : Z → bool → backend A) (none : backend A) Q b :
  ready H b →
  (∀ b', ¬ reachable_node n b → ready H b' → current_dtxn b' = current_dtxn b → did H b b' [] → spec none Q b') →
  (∀ c ok b', handed H n c b' → current_dtxn b' = current_dtxn b → did H b b' [(n, sql, ok)] →
     spec (k c ok) Q b') →
  spec (c ← orochi_get_worker_connection n;
        match c with None => none | Some c => ok ← execute_2pc_command c sql; k c ok end) Q b.
Proof.
  intros Hb Hnone Hk. apply spec_bind. eapply wp_mono; [by apply get_wp|]. intros [c|] b1 [Hf Hr].
  - apply spec_bind. eapply wp_mono; [by apply exec_wp|]. intros ok b2 (Hh & Hd & Hdid).
    apply (Hk c); [done| |].
    + rewrite Hd. by apply frame_dtxn.
    + eapply did_nil_l; [by apply did_nothing|done].
  - destruct Hr as [Hr Hn]. apply Hnone; [done|done|by apply frame_dtxn|by apply did_nothing].
Qed.

(** Giving the connection back before the rest. *)
Lemma then_release {A} H n c (k : backend A) Q b b' l :
  handed H n c b' → did H b b' l →
  (∀ b2, ready H b2 → current_dtxn b2 = current_dtxn b' → did H b b2 l → spec k Q b2) →
  spec (_ ← orochi_release_worker_connection (Some c); k) Q b'.
Proof.
  intros Hh Hd Hk. apply spec_bind. eapply wp_mono; [by apply (release_wp H n)|]. intros [] b2 [Hf Hr].
  apply Hk; [done|by apply frame_dtxn|]. apply (did_nil_r _ _ b'); [done|by apply did_nothing].
Qed.

(** A command that the nodes completed, and a phase that stops at the first node that does not
    complete its command or cannot be reached. *)
Definition completed (sql : Z → text) (nodes : list Z) : list (Z * text * bool) :=
  (λ n, (n, sql n, true)) <$> nodes.

Definition refused_at (H : list Z) (b b' : Backend) (sql : Z → text) (nodes : list Z) : Prop :=
  ∃ k n, nodes !! k = Some n ∧ did H b b' (completed sql (take k nodes) ++ [(n, sql n, false)]).
Definition unreached_at (H : list Z) (b b' : Backend) (sql : Z → text) (nodes : list Z) : Prop :=
  ∃ k n, nodes !! k = Some n ∧ ¬ reachable_node n b ∧ did H b b' (completed sql (take k nodes)).

(** A command for every node that can be reached, in order, whatever they answer. *)
Definition told (b : Backend) (sql : Z → text) (nodes : list Z) (l : list (Z * text * bool)) : Prop :=
  l.*1 `sublist_of` ((λ n, (n, sql n)) <$> nodes) ∧
  ∀ n, n ∈ nodes → reachable_node n b → ∃ ok, (n, sql n, ok) ∈ l.

(** The node [n] has completed its command and the others follow. *)
Lemma refused_next H b b1 b2 sql n nodes :
  did H b b1 [(n, sql n, true)] → refused_at H b1 b2 sql nodes → refused_at H b b2 sql (n :: nodes).
Proof.
  intros H1 (k & m & Hm & H2). exists (S k), m. split; [done|]. exact (did_trans _ _ _ _ _ _ H1 H2).
Qed.

Lemma unreached_next H b b1 b2 sql n nodes :
  did H b b1 [(n, sql n, true)] → unreached_at H b1 b2 sql nodes → unreached_at H b b2 sql (n :: nodes).
Proof.
  intros H1 (k & m & Hm & Hr & H2). exists (S k), m. split; [done|]. rewrite (did_reachable _ _ _ _ _ H1) in Hr.
  split; [done|]. exact (did_trans _ _ _ _ _ _ H1 H2).
Qed.

Lemma prepare_participants_spec H g nodes b :
  ready H b →
  spec (prepare_participants g nodes) (λ o b', ready H b' ∧ current_dtxn b' = current_dtxn b ∧
    ((o = Ok true ∧ did H b b' (completed (prepare_sql g) nodes)) ∨
     (o = Ok false ∧ (refused_at H b b' (prepare_sql g) nodes ∨ unreached_at H b b' (prepare_sql g) nodes)))) b.
Proof.
  revert b. induction nodes as [|n nodes IH]; intros b Hb; cbn [prepare_participants].
  { split_and!; [done|done|]. left. split; [done|]. by apply did_nothing. }
  apply (round_trip H n (prepare_sql g n)); [done| |].
  - intros b1 Hn Hr Hd Hdid. split_and!; [done|done|]. right. split; [done|]. right. by exists 0%nat, n.
  - intros c [] b1 Hh Hd Hdid.
    + apply (then_release H n c _ _ b b1 _ Hh Hdid). intros b2 Hr2 Hd2 Hdid2. eapply spec_mono; [by apply IH|].
      intros o b3 (Hr3 & Hd3 & Ho). split_and!; [done|by rewrite Hd3, Hd2|].
      destruct Ho as [[-> H3]|[-> [H3|H3]]]; [left|right; split; [done|left]|right; split; [done|right]].
      * split; [done|]. exact (did_trans _ _ _ _ _ _ Hdid2 H3).
      * by eapply refused_next.
      * by eapply unreached_next.
    + split_and!; [by eapply handed_ready|done|]. right. split; [done|]. left. by exists 0%nat, n.
Qed.

Lemma commit_participants_spec H g nodes b :
  ready H b →
  spec (commit_participants g nodes) (λ o b', ready H b' ∧ current_dtxn b' = current_dtxn b ∧
    ((o = Ok tt ∧ did H b b' (completed (commit_sql g) nodes)) ∨
     (o = Err "COMMIT PREPARED failed" ∧ refused_at H b b' (commit_sql g) nodes) ∨
     (o = Err "Failed to connect to node during 2PC commit" ∧ unreached_at H b b' (commit_sql g) nodes))) b.
Proof.
  revert b. induction nodes as [|n nodes IH]; intros b Hb; cbn [commit_participants].
  { split_and!; [done|done|]. left. split; [done|]. by apply did_nothing. }
  apply (round_trip H n (commit_sql g n)); [done| |].
  - intros b1 Hn Hr Hd Hdid. split_and!; [done|done|]. right. right. split; [done|]. by exists 0%nat, n.
  - intros c [] b1 Hh Hd Hdid.
    + apply (then_release H n c _ _ b b1 _ Hh Hdid). intros b2 Hr2 Hd2 Hdid2. eapply spec_mono; [by apply IH|].
      intros o b3 (Hr3 & Hd3 & Ho). split_and!; [done|by rewrite Hd3, Hd2|].
      destruct Ho as [[-> H3]|[[-> H3]|[-> H3]]]; [left|right; left|right; right]; (split; [done|]).
      * exact (did_trans _ _ _ _ _ _ Hdid2 H3).
      * by eapply refused_next.
      * by eapply unreached_next.
    + split_and!; [by eapply handed_ready|done|]. right. left. split; [done|]. by exists 0%nat, n.
Qed.

Lemma rollback_each_spec H sql nodes b :
  ready H b →
  spec (rollback_each sql nodes) (λ o b', o = Ok tt ∧ ready H b' ∧ current_dtxn b' = current_dtxn b ∧
    ∃ l, told b sql nodes l ∧ did H b b' l) b.
Proof.
  revert b. induction nodes as [|n nodes IH]; intros b Hb; cbn [rollback_each].
  { split_and!; [done|done|done|]. exists []. split; [|by apply did_nothing]. split; [done|].
    by intros n ?%not_elem_of_nil. }
  apply (round_trip H n (sql n)); [done| |].
  - intros b1 Hn Hr Hd Hdid. eapply spec_mono; [by apply IH|]. intros o b2 (-> & Hr2 & Hd2 & l & [Hl Hall] & H2).
    split_and!; [done|done|by rewrite Hd2|]. exists l. split; [|by eapply did_nil_l]. split.
    + cbn. by apply sublist_cons.
    + intros m [->|Hm]%elem_of_cons Hreach; [done|]. apply Hall; [done|]. by apply (did_reachable _ _ _ _ _ Hdid).
  - intros c ok b1 Hh Hd Hdid. apply (then_release H n c _ _ b b1 _ Hh Hdid). intros b2 Hr2 Hd2 Hdid2.
    eapply spec_mono; [by apply IH|]. intros o b3 (-> & Hr3 & Hd3 & l & [Hl Hall] & H3).
    split_and!; [done|done|by rewrite Hd3, Hd2|]. exists ((n, sql n, ok) :: l).
    split; [|exact (did_trans _ _ _ _ _ _ Hdid2 H3)]. split.
    + cbn. by apply sublist_skip.
    + intros m [->|Hm]%elem_of_cons Hreach; [eexists; by left|].
      destruct (Hall m Hm) as [ok' ?]; [by apply (did_reachable _ _ _ _ _ Hdid2)|]. eexists. by right.
Qed.

(** Steps that neither touch the pool nor run a query. *)
Record quietly (b b' : Backend) : Prop := {
  quietly_pool : connection_pool b' = connection_pool b ∧ next_conn b' = next_conn b ∧ node_rows b' = node_rows b;
  quietly_flags : locks_initialized b' = locks_initialized b ∧ pool_initialized b' = pool_initialized b;
  quietly_calls : ∃ l, calls b' = l ++ calls b ∧
    Forall (λ e, opens_or_closes e = false ∧ match e with EExec _ _ => False | _ => True end) l }.

#[local] Instance quietly_preorder : PreOrder quietly.
Proof.
  split.
  - intros b. constructor; [done|done|]. by exists [].
  - intros b1 b2 b3 [(H1 & H2 & H0) [H3 H4] (l & E & F)] [(H5 & H6 & H9) [H7 H8] (l' & E' & F')]. constructor.
    + by rewrite H5, H6, H9.
    + by rewrite H7, H8.
    + exists (l' ++ l). rewrite E', E, app_assoc. split; [done|]. by apply Forall_app.
Qed.

Lemma quietly_call e b :
  opens_or_closes e = false → match e with EExec _ _ => False | _ => True end → quietly b (add_call e b).
Proof. intros H1 H2. constructor; [done|done|]. exists [e]. split; [done|]. by constructor. Qed.

Lemma quietly_dtxn d b : quietly b (set_dtxn d b).
Proof. constructor; [done|done|]. by exists []. Qed.

Lemma quietly_ready H b b' : quietly b b' → ready H b → ready H b' ∧ did H b b' [].
Proof.
  intros [(Hp & Hn & Hrows) [Hl Hi] (l & E & F)] [Hb (held & HH & Hok)]. split.
  - split; [unfold backend_ok; by rewrite Hl, Hi|]. exists held. split; [done|]. rewrite Hp. clear Hp.
    assert (∀ c, EFinish c ∈ calls b' → EFinish c ∈ calls b) as Hfin.
    { intros c. rewrite E. intros [Hin|?]%elem_of_app; [|done]. rewrite Forall_forall in F. by apply F in Hin as [? _]. }
    destruct Hok as [Hd Hu Ho Hh Hf]. constructor; [done|done| | |].
    + intros e c He Ec. destruct (Ho e c He Ec) as (? & Hop & ?). rewrite Hn. split_and!; [done| |auto].
      eapply opened_mono; [|exact Hop]. intros x Hx. rewrite E. apply elem_of_app. by right.
    + intros c Hc. rewrite Hn. destruct (Hh c Hc). auto.
    + intros c Hc%Hfin. rewrite Hn. auto.
  - constructor.
    + exists []. split; [|constructor]. rewrite E. cbn. clear E. induction F as [|e l [_ He] _ IH]; [done|].
      cbn. destruct e; first [exact IH|done].
    + intros e He. rewrite E. apply elem_of_app. by right.
    + done.
Qed.

(** What Raft is told changes nothing here. *)
Lemma raft_call_wp q b : wp (raft_call q) (λ _ b', quietly b b' ∧ current_dtxn b' = current_dtxn b) b.
Proof. split; [by apply quietly_call|done]. Qed.

Lemma raft_then {A} q (k : bool → backend A) Q b :
  (∀ a b', quietly b b' → current_dtxn b' = current_dtxn b → wp (k a) Q b') →
  wp (raft_call q ≫= k) Q b.
Proof. intros Hk. apply wp_bind. eapply wp_mono; [apply raft_call_wp|]. intros a b' [??]. by apply Hk. Qed.

Lemma if_raft_leads_wp q b :
  wp (if_raft_leads (_ ← raft_call q; mret tt)) (λ _ b', quietly b b' ∧ current_dtxn b' = current_dtxn b) b.
Proof.
  unfold if_raft_leads. apply wp_bind. cbn. destruct (orochi_use_raft_consensus b); [|by apply wp_ret].
  apply raft_then. intros [] b1 H1 D1; [|by apply wp_ret].
  apply raft_then. intros a b2 H2 D2. apply wp_ret. split; [by etrans|congruence].
Qed.

Lemma raft_commit_wp g b :
  wp (raft_commit g) (λ _ b', quietly b b' ∧ current_dtxn b' = current_dtxn b) b.
Proof.
  unfold raft_commit. apply wp_bind. cbn. destruct (orochi_use_raft_consensus b); [|by apply wp_ret].
  apply raft_then. intros [] b1 H1 D1.
  - apply raft_then. intros [] b2 H2 D2; [|apply wp_ret; split; [by etrans|congruence]].
    apply raft_then. intros a b3 H3 D3. apply wp_ret. split; [by do 2 (etrans; [eassumption|])|congruence].
  - apply raft_then. intros a b2 H2 D2. apply wp_ret. split; [by etrans|congruence].
Qed.

Lemma begin_wp b :
  current_dtxn b = None →
  wp orochi_begin_distributed_transaction (λ _ b', quietly b b' ∧
    ∃ g, current_dtxn b' = Some {| gid := g; participants := []; prepared := false |}) b.
Proof.
  intros Hd. unfold orochi_begin_distributed_transaction. apply wp_bind. cbn. rewrite Hd.
  apply wp_bind. unfold generate_transaction_gid. repeat (apply wp_bind; cbn).
  split; [|by eexists]. constructor; [done|done|]. exists [EClock]. split; [done|]. by constructor.
Qed.

(** The first phase, from a transaction without participants. *)
Definition nobody (g : text) : DistributedTransactionState := {| gid := g; participants := []; prepared := false |}.
Definition all_prepared (g : text) (nodes : list Z) : DistributedTransactionState :=
  {| gid := g; participants := nodes; prepared := true |}.

Lemma prepare_spec H g s b :
  ready H b → current_dtxn b = Some (nobody g) →
  let nodes := (collect_participants (tasks s) [] []).1 in
  spec (orochi_prepare_distributed_transaction s) (λ o b', ready H b' ∧
    ((o = Ok true ∧ current_dtxn b' = Some (all_prepared g nodes) ∧
      did H b b' (completed (prepare_sql g) nodes)) ∨
     (o = Ok false ∧ current_dtxn b' = None ∧
      ∃ b1 l, (refused_at H b b1 (prepare_sql g) nodes ∨ unreached_at H b b1 (prepare_sql g) nodes) ∧
        told b (λ _, str "ROLLBACK") nodes l ∧ did H b1 b' l))) b.
Proof.
  intros Hb Hd nodes. unfold orochi_prepare_distributed_transaction. apply spec_bind. cbn. rewrite Hd. cbn [participants nobody].
  destruct (collect_participants (tasks s) [] []) as [ns shards]. cbn in nodes. subst nodes.
  apply spec_bind. cbn. set (b0 := set_dtxn _ b).
  destruct (quietly_ready H b b0 (quietly_dtxn _ _) Hb) as [Hr0 Hd0].
  apply spec_bind. pose proof (prepare_participants_spec H g ns b0 Hr0) as Hp.
  unfold spec in Hp. unfold wp. destruct (prepare_participants g ns b0) as [o b1].
  destruct Hp as (Hr1 & E1 & [[Ho H1]|[Ho H1]]); cbn in Ho; subst o; cbn in Hr1, E1, H1.
  - apply spec_bind. cbn. set (b2 := set_dtxn _ b1).
    destruct (quietly_ready H b1 b2 (quietly_dtxn _ _) Hr1) as [Hr2 Hd2].
    apply spec_bind. eapply wp_mono; [apply if_raft_leads_wp|]. intros [] b3 [Hq3 E3].
    destruct (quietly_ready H b2 b3 Hq3 Hr2) as [Hr3 Hd3]. unfold spec, mret, backend_ret. cbn [fst snd].
    split; [done|]. left. split_and!; [done|by rewrite E3|].
    eapply did_nil_l; [exact Hd0|]. eapply did_nil_r; [|exact Hd3]. by eapply did_nil_r.
  - apply spec_bind. unfold orochi_rollback_distributed_transaction. apply wp_bind. cbn. rewrite E1. cbn.
    apply wp_bind. cbn. apply wp_bind. apply spec_wp.
    eapply spec_mono; [by apply (rollback_each_spec H (λ _, str "ROLLBACK") ns)|].
    intros o b2 (-> & Hr2 & E2 & l & Hl & H2). exists tt. split; [done|]. cbn.
    destruct (quietly_ready H b2 (set_dtxn None b2) (quietly_dtxn _ _) Hr2) as [Hr3 Hd3].
    split; [done|]. right. split_and!; [done|done|]. exists b1, l. split_and!; [|destruct Hl as [Hl1 Hl2]; split; [done|]|].
    + destruct H1 as [(k & n & Hn & H1)|(k & n & Hn & Hreach & H1)]; [left|right]; exists k, n.
      * split; [done|]. by eapply did_nil_l.
      * split_and!; [done|by rewrite <- (did_reachable _ _ _ _ _ Hd0)|by eapply did_nil_l].
    + intros n Hn Hreach. apply Hl2; [done|].
      apply (did_reachable _ _ _ _ _ Hd0) in Hreach.
      destruct H1 as [(k & m & _ & H1)|(k & m & _ & _ & H1)]; by apply (did_reachable _ _ _ _ _ H1).
    + by eapply did_nil_r.
Qed.

(** The second phase. *)
Lemma commit_spec H g nodes b :
  ready H b → current_dtxn b = Some (all_prepared g nodes) →
  spec orochi_commit_distributed_transaction (λ o b', ready H b' ∧
    ((o = Ok tt ∧ current_dtxn b' = None ∧ did H b b' (completed (commit_sql g) nodes)) ∨
     (current_dtxn b' = current_dtxn b ∧
      ((o = Err "COMMIT PREPARED failed" ∧ refused_at H b b' (commit_sql g) nodes) ∨
       (o = Err "Failed to connect to node during 2PC commit" ∧ unreached_at H b b' (commit_sql g) nodes))))) b.
Proof.
  intros Hb Hd. unfold orochi_commit_distributed_transaction. apply spec_bind. cbn. rewrite Hd. cbn.
  apply spec_bind. eapply wp_mono; [apply raft_commit_wp|]. intros [] b1 [Hq1 E1].
  destruct (quietly_ready H b b1 Hq1 Hb) as [Hr1 Hd1].
  pose proof (commit_participants_spec H g nodes b1 Hr1) as Hc. unfold spec in Hc |- *.
  unfold mbind, backend_bind. destruct (commit_participants g nodes b1) as [o b2]. cbn [fst snd] in Hc.
  destruct Hc as (Hr2 & E2 & [[-> H2]|Hc]).
  - cbn [fst snd]. destruct (quietly_ready H b2 (set_dtxn None b2) (quietly_dtxn _ _) Hr2) as [Hr3 Hd3].
    split; [exact Hr3|]. left. split_and!; [done|done|].
    eapply did_nil_l; [exact Hd1|]. by eapply did_nil_r.
  - assert (Ho : ∃ e, o = Err e) by (destruct Hc as [[-> _]|[-> _]]; by eexists).
    destruct Ho as [e ->]. cbn [fst snd]. split; [done|]. right. split; [congruence|].
    destruct Hc as [[He (k & n & Hn & Hc)]|[He (k & n & Hn & Hreach & Hc)]]; [left|right]; injection He as ->;
      (split; [done|]); exists k, n.
    + split; [done|]. by eapply did_nil_l.
    + split_and!; [done|by rewrite <- (did_reachable _ _ _ _ _ Hd1)|by eapply did_nil_l].
Qed.

(** Giving up instead of the second phase. *)
Lemma rollback_spec H g nodes b :
  ready H b → current_dtxn b = Some (all_prepared g nodes) →
  spec orochi_rollback_distributed_transaction (λ o b', ready H b' ∧ o = Ok tt ∧ current_dtxn b' = None ∧
    ∃ l, told b (rollback_sql g) nodes l ∧ did H b b' l) b.
Proof.
  intros Hb Hd. unfold orochi_rollback_distributed_transaction. apply spec_bind. cbn. rewrite Hd. cbn.
  apply spec_bind. eapply wp_mono; [apply if_raft_leads_wp|]. intros [] b1 [Hq1 E1].
  destruct (quietly_ready H b b1 Hq1 Hb) as [Hr1 Hd1].
  apply spec_bind. apply spec_wp. eapply spec_mono; [by apply (rollback_each_spec H (rollback_sql g) nodes)|].
  intros o b2 (-> & Hr2 & E2 & l & [Hl Hall] & H2). exists tt. split; [done|]. cbn.
  destruct (quietly_ready H b2 (set_dtxn None b2) (quietly_dtxn _ _) Hr2) as [Hr3 Hd3].
  split_and!; [done|done|done|]. exists l. split.
  - split; [done|]. intros n Hn Hreach. apply Hall; [done|]. by apply (did_reachable _ _ _ _ _ Hd1).
  - eapply did_nil_l; [exact Hd1|]. by eapply did_nil_r.
Qed.
End TwoPhase.

Lemma collect_participants_spec ts nodes shards :
  NoDup nodes → NoDup (collect_participants ts nodes shards).1 ∧
  ∀ n, n ∈ (collect_participants ts nodes shards).1 ↔ n ∈ nodes ∨ n ∈ map (λ t, node_id (fragment t)) ts.
Proof.
  revert nodes shards. induction ts as [|t ts IH]; intros nodes shards Hn; cbn.
  { split; [done|]. intros n. split; [by left|]. by intros [?|?%not_elem_of_nil]. }
  case_bool_decide as Hin.
  - destruct (IH nodes shards Hn) as [H1 H2]. split; [done|]. intros n. rewrite H2, elem_of_cons. naive_solver.
  - assert (NoDup (nodes ++ [node_id (fragment t)])) as Hn'.
    { apply NoDup_app. split_and!; [done|set_solver|apply NoDup_singleton]. }
    destruct (IH _ (shards ++ [i32 (shard_id (fragment t))]) Hn') as [H1 H2]. split; [done|].
    intros n. rewrite H2, elem_of_cons. set_solver.
Qed.

(** The nodes a statement works on, in the order of its tasks. *)
Definition participants_of (s : DistributedExecutorState) : list Z := (collect_participants (tasks s) [] []).1.

(** From the beginning of a transaction to the end of its first phase. *)
Lemma first_phase `{L : Libpq} (b0 b : Backend) (held : list Z) (s : DistributedExecutorState) :
  fresh_backend b0 → rtc pool_step (b0, []) (b, held) → current_dtxn b = None →
  ∃ g b1, orochi_begin_distributed_transaction b = (Ok tt, b1) ∧ ready held b1 ∧ did held b b1 [] ∧
    current_dtxn b1 = Some (nobody g).
Proof.
  intros Hb0 Hr Hd. destruct (pool_reachable_ok _ _ Hb0 Hr) as [Hb Hok]. cbn in Hb, Hok.
  assert (ready held b) as H0 by (split; [done|]; by exists held).
  destruct (wp_run _ _ _ (begin_wp b Hd)) as ([] & b1 & E1 & Hq1 & g & Hg).
  destruct (quietly_ready held b b1 Hq1 H0) as [Hr1 Hd1]. by exists g, b1.
Qed.

(** C31: what the functions of a distributed transaction do to its workers, for a statement
    whose tasks are on [nodes], each counted once, and how that follows from the answers.
    - Preparing returns true exactly when every node completed its PREPARE TRANSACTION.  It
      returns false at the first node that refused it or could not be reached; then every node
      that can be reached, prepared or not, is sent ROLLBACK (not ROLLBACK PREPARED), and no
      transaction is current.
    - Committing after that ends without an error exactly when every node completed its COMMIT
      PREPARED, under the name it was prepared with; it raises an error at the first that
      refused it or could not be reached, and the transaction stays current.
    - Rolling back instead sends ROLLBACK PREPARED to every node that can be reached.
    No command is sent over a connection that was held before. *)
Theorem two_phase_outcomes `{L : Libpq} (b0 b : Backend) (held : list Z) (s : DistributedExecutorState) :
  fresh_backend b0 → rtc pool_step (b0, []) (b, held) → current_dtxn b = None →
  let nodes := participants_of s in
  NoDup nodes ∧ (∀ n, n ∈ nodes ↔ n ∈ map (λ t, node_id (fragment t)) (tasks s)) ∧
  ∃ g b1 ok b2, orochi_begin_distributed_transaction b = (Ok tt, b1) ∧ did held b b1 [] ∧
    orochi_prepare_distributed_transaction s b1 = (Ok ok, b2) ∧
    if ok : bool then
      did held b1 b2 (completed (prepare_sql g) nodes) ∧
      (∃ o b3, orochi_commit_distributed_transaction b2 = (o, b3) ∧
        (o = Ok tt ∧ current_dtxn b3 = None ∧ did held b2 b3 (completed (commit_sql g) nodes) ∨
         current_dtxn b3 = Some (all_prepared g nodes) ∧
         (o = Err "COMMIT PREPARED failed" ∧ refused_at held b2 b3 (commit_sql g) nodes ∨
          o = Err "Failed to connect to node during 2PC commit" ∧
            unreached_at held b2 b3 (commit_sql g) nodes))) ∧
      (∃ b3 l, orochi_rollback_distributed_transaction b2 = (Ok tt, b3) ∧ current_dtxn b3 = None ∧
        told b2 (rollback_sql g) nodes l ∧ did held b2 b3 l)
    else
      current_dtxn b2 = None ∧
      ∃ b' l, (refused_at held b1 b' (prepare_sql g) nodes ∨ unreached_at held b1 b' (prepare_sql g) nodes) ∧
        told b1 (λ _, str "ROLLBACK") nodes l ∧ did held b' b2 l.
Proof.
  intros Hb0 Hr Hd nodes.
  destruct (collect_participants_spec (tasks s) [] [] NoDup_nil_2) as [Hnd Hnodes].
  split; [done|]. split; [intros n; unfold nodes, participants_of; rewrite Hnodes; set_solver|].
  destruct (first_phase b0 b held s Hb0 Hr Hd) as (g & b1 & -> & Hr1 & Hd1 & Hg).
  pose proof (prepare_spec held g s b1 Hr1 Hg) as Hp. unfold spec in Hp.
  destruct (orochi_prepare_distributed_transaction s b1) as [o b2] eqn:Ep. cbn [fst snd] in Hp. exists g, b1.
  destruct Hp as (Hr2 & [(-> & E2 & H2)|(-> & E2 & H2)]); [exists true, b2|by exists false, b2].
  do 3 (split; [done|]). split; [done|]. split.
  - pose proof (commit_spec held g _ b2 Hr2 E2) as Hc. unfold spec in Hc.
    destruct (orochi_commit_distributed_transaction b2) as [o b3] eqn:Ec. cbn [fst snd] in Hc.
    exists o, b3. split; [done|]. destruct Hc as (_ & [Hc|[E3 Hc]]); [by left|right]. by rewrite E3.
  - pose proof (rollback_spec held g _ b2 Hr2 E2) as Hc. unfold spec in Hc.
    destruct (orochi_rollback_distributed_transaction b2) as [o b3] eqn:Ec. cbn [fst snd] in Hc.
    destruct Hc as (_ & -> & E3 & l & Hl & H3). by exists b3, l.
Qed.

(** ** Tasks and transactions *)

(** A task that ran holds its connection: running it is a use of the pool that gets one and
    does not give it back. *)
Lemma task_holds_connection `{L : Libpq} t b t' b' c held :
  connection t = None → orochi_execute_remote_task t b = (Ok t', b') → connection t' = Some c →
  rtc pool_step (b, held) (b', c :: held).
Proof.
  intros Hn E Hc. unfold orochi_execute_remote_task, mbind, backend_bind in E. cbn in E.
  destruct (orochi_get_worker_connection _ _) as [[r| | |] b1] eqn:Eg; try discriminate E.
  destruct r as [c1|]; [|injection E as <- <-; cbn in Hc; congruence]. cbn in E.
  assert (∃ b2, b' = add_call EClock b2 ∧ b2 = add_call (EExec c1 (query_string (fragment t))) b1 ∧ c = c1) as (b2 & -> & -> & ->).
  { unfold take_result, mbind, backend_bind, lift in E. destruct (good _); cbn in E.
    - destruct (atol _); try discriminate E. injection E as <- <-. cbn in Hc. injection Hc as <-. eauto.
    - injection E as <- <-. cbn in Hc. injection Hc as <-. eauto. }
  eapply rtc_l; [apply (step_call EClock)|]; [done|].
  eapply rtc_l; [eapply step_get; exact Eg|].
  eapply rtc_l; [apply (step_call (EExec c1 (query_string (fragment t))))|]; [done|].
  eapply rtc_l; [apply (step_call EClock)|]; [done|]. apply rtc_refl.
Qed.

Lemma did_elsewhere `{L : Libpq} H c b b' l :
  did (c :: H) b b' l → ∃ new, exec_answers (calls b') = new ++ exec_answers (calls b) ∧ Forall (λ x, x.1.1 ≠ c) new.
Proof.
  intros [(new & E & F) _ _]. exists new. split; [done|]. rewrite <- (rev_involutive new). apply Forall_rev.
  clear E. induction F as [|ns cs l' l'' (_ & _ & _ & H') _ IH]; constructor; [set_solver|done].
Qed.

(** A transaction never prepares the session in which a task of the statement ran: its
    commands go over other connections. *)
Theorem prepare_misses_the_work `{L : Libpq} (b0 b b1 : Backend) (held : list Z) (t t' : RemoteTask)
    (c : Z) (s : DistributedExecutorState) :
  fresh_backend b0 → rtc pool_step (b0, []) (b, held) → current_dtxn b1 = None → connection t = None →
  orochi_execute_remote_task t b = (Ok t', b1) → connection t' = Some c →
  ∃ b2 o b3 new, orochi_begin_distributed_transaction b1 = (Ok tt, b2) ∧
    orochi_prepare_distributed_transaction s b2 = (o, b3) ∧
    exec_answers (calls b3) = new ++ exec_answers (calls b1) ∧ Forall (λ x, x.1.1 ≠ c) new.
Proof.
  intros Hb0 Hr Hd Hn Ht Hc.
  destruct (first_phase b0 b1 (c :: held) s Hb0) as (g & b2 & E & Hr2 & Hd2 & Hg);
    [etrans; [exact Hr|]; by eapply task_holds_connection|done|].
  pose proof (prepare_spec _ g s b2 Hr2 Hg) as Hp. unfold spec in Hp.
  destruct (orochi_prepare_distributed_transaction s b2) as [o b3] eqn:Ep. cbn [fst snd] in Hp.
  assert (∃ l, did (c :: held) b1 b3 l) as [l Hl].
  { destruct Hp as (_ & [(_ & _ & H)|(_ & _ & b' & l & H & _ & H3)]); [eexists; by eapply did_nil_l|].
    destruct H as [(k & n & _ & H)|(k & n & _ & _ & H)]; eexists; (eapply did_nil_l; [exact Hd2|]; by eapply did_trans). }
  destruct (did_elsewhere _ _ _ _ _ Hl) as (new & En & Hnew). by exists b2, o, b3, new.
Qed.

(** ** Concrete runs *)

Definition ends_with (p suffix : text) : bool :=
  bool_decide (drop (length p - length suffix) p = suffix).

Definition accepting (refuses : history → Z → text → bool) : Libpq :=
  {| GetCurrentTimestamp h := 0; connection_ok _ _ := true; PQerrorMessage _ _ := str "refused";
     PQexec h c q := {| PQresultStatus := if refuses h c q then PGRES_FATAL_ERROR else PGRES_COMMAND_OK;
                        PQcmdTuples := []; fields := []; tuples := [] |};
     PQsendQuery _ _ _ := true; PQconsumeInput _ _ := true; PQisBusy _ _ := false;
     PQgetResult _ _ := None; PQsocket _ c := c; select _ _ _ := 1; PQgetCancel _ _ := true;
     raft_answer _ _ := true |}.

Definition two_nodes : Backend :=
  {| locks_initialized := false; pool_initialized := false; connection_pool := []; next_conn := 0;
     calls := []; node_rows := [{| a_node_id := 1; hostname := str "worker1"; port := 5432 |};
                                {| a_node_id := 2; hostname := str "worker2"; port := 5432 |}];
     database := str "db"; pid := 4711; current_dtxn := None; txn_counter := 0;
     orochi_use_raft_consensus := true |}.

Definition on_node (n : Z) : FragmentQuery := {| shard_id := 10 + n; node_id := n; query_string := str "UPDATE t" |}.
Definition on_both : DistributedExecutorState := new_state 4 [on_node 1; on_node 2; on_node 1].

Definition example_gid : text := str "orochi_2pc_4711_0_1".

Lemma two_nodes_fresh : fresh_backend two_nodes.
Proof. split_and!; [done..|]. by intros c ?%not_elem_of_nil. Defined.

(** The transaction after its first phase. *)
Definition after_prepare (L : Libpq) : outcome bool * Backend :=
  @orochi_prepare_distributed_transaction L on_both (@orochi_begin_distributed_transaction L two_nodes).2.

Lemma two_phase_outcomes_witness :
  let L := accepting (λ _ _ _, false) in
  NoDup [1; 2] ∧ (∀ n, n ∈ [1; 2] ↔ n ∈ [1; 2; 1]) ∧
  ∃ g b1 ok b2, @orochi_begin_distributed_transaction L two_nodes = (Ok tt, b1) ∧ did [] two_nodes b1 [] ∧
    @orochi_prepare_distributed_transaction L on_both b1 = (Ok ok, b2) ∧
    if ok : bool then
      did [] b1 b2 (completed (prepare_sql g) [1; 2]) ∧
      (∃ o b3, @orochi_commit_distributed_transaction L b2 = (o, b3) ∧
        (o = Ok tt ∧ current_dtxn b3 = None ∧ did [] b2 b3 (completed (commit_sql g) [1; 2]) ∨
         current_dtxn b3 = Some (all_prepared g [1; 2]) ∧
         (o = Err "COMMIT PREPARED failed" ∧ refused_at [] b2 b3 (commit_sql g) [1; 2] ∨
          o = Err "Failed to connect to node during 2PC commit" ∧ unreached_at [] b2 b3 (commit_sql g) [1; 2]))) ∧
      (∃ b3 l, @orochi_rollback_distributed_transaction L b2 = (Ok tt, b3) ∧ current_dtxn b3 = None ∧
        told b2 (rollback_sql g) [1; 2] l ∧ did [] b2 b3 l)
    else
      current_dtxn b2 = None ∧
      ∃ b' l, (refused_at [] b1 b' (prepare_sql g) [1; 2] ∨ unreached_at [] b1 b' (prepare_sql g) [1; 2]) ∧
        told b1 (λ _, str "ROLLBACK") [1; 2] l ∧ did [] b' b2 l.
Proof.
  apply (@two_phase_outcomes (accepting (λ _ _ _, false)) two_nodes two_nodes [] on_both two_nodes_fresh); done.
Defined.

(** The first of two participants prepares and the second refuses.  The first is sent a
    ROLLBACK, on a session without a transaction, and keeps what it prepared. *)
Theorem failed_prepare_leaves_prepared :
  let L := accepting (λ _ _ q, ends_with q (str "_2'")) in
  let '(o, b) := after_prepare L in
  o = Ok false ∧ current_dtxn b = None ∧
  rev (exec_list (calls b)) =
    [(0, prepare_sql example_gid 1); (1, prepare_sql example_gid 2); (0, str "ROLLBACK"); (2, str "ROLLBACK")].
Proof. vm_compute. done. Qed.

(** When the second commit fails, the first is not undone, and a second attempt begins at
    the first participant, which no longer knows the transaction.  The second participant
    would accept now and is never asked; new transactions are not begun either. *)
Definition second_fails_once (h : history) (c : Z) (q : text) : bool :=
  if ends_with q (str "_2'") then bool_decide (q = commit_sql example_gid 2) && negb (existsb (λ e,
    match e with EExec _ q' => bool_decide (q' = q) | _ => false end) h)
  else bool_decide (q = commit_sql example_gid 1) && existsb (λ e,
    match e with EExec _ q' => bool_decide (q' = q) | _ => false end) h.

Theorem failed_commit_cannot_resume :
  let L := accepting second_fails_once in
  let '(o1, b1) := @orochi_commit_distributed_transaction L (after_prepare L).2 in
  let '(o2, b2) := @orochi_commit_distributed_transaction L b1 in
  let '(o3, b3) := @orochi_begin_distributed_transaction L b2 in
  o1 = Err "COMMIT PREPARED failed" ∧ o2 = Err "COMMIT PREPARED failed" ∧ o3 = Ok tt ∧ b3 = b2 ∧
  map snd (rev (exec_list (calls b2))) =
    [prepare_sql example_gid 1; prepare_sql example_gid 2; commit_sql example_gid 1;
     commit_sql example_gid 2; commit_sql example_gid 1].
Proof. vm_compute. done. Qed.
