(* ===== verification/Hll.v ===== *)
(** * HyperLogLog: approximate numbers of distinct values

    Models [src/approx/hyperloglog.c] and [src/approx/hyperloglog.h].  A sketch is a
    record with the list of its registers.  [log] and [round] of the C library, the
    hash functions of PostgreSQL's types and the representation of varlenas are
    parameters; the rest of the floating-point arithmetic is computed.  The text form
    is modelled as far as [hll_in] reads it. *)
From Stdlib Require Import Floats.SpecFloat.
From stdpp Require Import sets.
From S2P Require Import Prelude Postgres Float Gorilla.

Local Open Scope Z_scope.

(** ** MurmurHash3 *)

Definition rotl64 (x r : Z) : Z := Z.lor (u64 (Z.shiftl x r)) (Z.shiftr x (64 - r)).

Definition fmix64 (k : Z) : Z :=
  let k := Z.lxor k (Z.shiftr k 33) in
  let k := u64 (k * 0xff51afd7ed558ccd) in
  let k := Z.lxor k (Z.shiftr k 33) in
  let k := u64 (k * 0xc4ceb9fe1a85ec53) in
  Z.lxor k (Z.shiftr k 33).

Definition c1 : Z := 0x87c37b91114253d5.
Definition c2 : Z := 0x4cf5ad432745937f.

Definition mix1 (k : Z) : Z := u64 (rotl64 (u64 (k * c1)) 31 * c2).
Definition mix2 (k : Z) : Z := u64 (rotl64 (u64 (k * c2)) 33 * c1).

(** One block of sixteen bytes. *)
Definition murmur_block (h1 h2 : Z) (block : list Z) : Z * Z :=
  let h1 := Z.lxor h1 (mix1 (le_dec (take 8 block))) in
  let h1 := u64 (u64 (u64 (rotl64 h1 27 + h2) * 5) + 0x52dce729) in
  let h2 := Z.lxor h2 (mix2 (le_dec (drop 8 block))) in
  let h2 := u64 (u64 (u64 (rotl64 h2 31 + h1) * 5) + 0x38495ab5) in
  (h1, h2).

Fixpoint murmur_blocks (n : nat) (data : list Z) (h1 h2 : Z) : Z * Z :=
  match n with
  | O => (h1, h2)
  | S n => let '(h1, h2) := murmur_block h1 h2 (take 16 data) in
           murmur_blocks n (drop 16 data) h1 h2
  end.

(** The cases of the switch: byte [i] is shifted to its place. *)
Definition tail_word (bytes : list Z) : Z :=
  foldl Z.lxor 0 (imap (λ i b, Z.shiftl b (8 * Z.of_nat i)) bytes).

Definition hll_murmurhash3_64 (key : list Z) (seed : Z) : Z :=
  let n := len key in
  let '(h1, h2) := murmur_blocks (Z.to_nat (n / 16)) key seed seed in
  let tail := drop (Z.to_nat (n / 16 * 16)) key in
  let h2 := if 9 <=? Z.land n 15 then Z.lxor h2 (mix2 (tail_word (drop 8 tail))) else h2 in
  let h1 := if 1 <=? Z.land n 15 then Z.lxor h1 (mix1 (tail_word (take 8 tail))) else h1 in
  let h1 := Z.lxor h1 n in
  let h2 := Z.lxor h2 n in
  let h1 := u64 (h1 + h2) in
  let h2 := u64 (h2 + h1) in
  u64 (fmix64 h1 + fmix64 h2).

Definition MURMUR_SEED : Z := 42.

(** ** Sketches *)

Definition HLL_PRECISION_DEFAULT : Z := 14.
Definition HLL_PRECISION_MIN : Z := 4.
Definition HLL_PRECISION_MAX : Z := 18.

Record HyperLogLog := {
  precision : Z; sparse : Z; flags : Z; total_count : Z; registers : list Z }.

Definition HLL_REGISTERS (p : Z) : Z := Z.shiftl 1 p.

Definition hll_create (p : Z) : HyperLogLog :=
  let p := if p <? HLL_PRECISION_MIN then HLL_PRECISION_MIN
           else if HLL_PRECISION_MAX <? p then HLL_PRECISION_MAX else p in
  {| precision := p; sparse := 0; flags := 0; total_count := 0;
     registers := replicate (Z.to_nat (HLL_REGISTERS p)) 0 |}.

Definition hll_leading_zeros (value : Z) : Z := count_leading_zeros value.

Definition hll_index (p hash : Z) : Z := u32 (Z.shiftr hash (64 - p)).

Definition hll_rank (p hash : Z) : Z :=
  let remaining := Z.lor (u64 (Z.shiftl hash p)) (u64 (Z.shiftl 1 (p - 1))) in
  u8 (hll_leading_zeros remaining + 1).

Definition with_registers (h : HyperLogLog) (count : Z) (l : list Z) : HyperLogLog :=
  {| precision := precision h; sparse := sparse h; flags := flags h; total_count := count;
     registers := l |}.

(** Shifts by 64 or by a negative number are undefined. *)
Definition hll_add_hash (h : HyperLogLog) (hash : Z) : outcome HyperLogLog :=
  if (precision h <? 1) || (63 <? precision h) then Undef else
  let idx := hll_index (precision h) hash in
  let rank := hll_rank (precision h) hash in
  old ← deref (registers h !! Z.to_nat idx);
  Ok (with_registers h (i64 (total_count h + 1))
        (if old <? rank then <[Z.to_nat idx := rank]> (registers h) else registers h)).

Definition hll_add (h : HyperLogLog) (data : list Z) : outcome HyperLogLog :=
  hll_add_hash h (hll_murmurhash3_64 data MURMUR_SEED).

(** The copies that are made when one argument is null are equal to the argument. *)
Definition hll_merge (hll1 hll2 : option HyperLogLog) : outcome (option HyperLogLog) :=
  match hll1, hll2 with
  | None, _ => Ok hll2
  | _, None => Ok hll1
  | Some h1, Some h2 =>
      if negb (precision h1 =? precision h2)
      then Err "cannot merge HyperLogLogs with different precisions"
      else Ok (Some (with_registers (hll_create (precision h1))
                       (i64 (total_count h1 + total_count h2))
                       (zip_with Z.max (registers h1) (registers h2))))
  end.

Definition hll_merge_inplace (h1 h2 : HyperLogLog) : outcome HyperLogLog :=
  if negb (precision h1 =? precision h2)
  then Err "cannot merge HyperLogLogs with different precisions"
  else Ok (with_registers h1 (i64 (total_count h1 + total_count h2))
             (zip_with (λ a b, if a <? b then b else a) (registers h1) (registers h2))).

Definition hll_reset (h : HyperLogLog) : HyperLogLog :=
  with_registers h 0 (replicate (Z.to_nat (HLL_REGISTERS (precision h))) 0).

(** [offsetof(HyperLogLog, registers)] is 16. *)
Definition hll_size (h : HyperLogLog) : Z := 16 + HLL_REGISTERS (precision h).

(** ** Serialization *)

Definition hll_serialize (h : HyperLogLog) : list Z :=
  le_enc 1 (precision h) ++ le_enc 1 (sparse h) ++ le_enc 2 (flags h) ++ le_enc 8 (total_count h)
  ++ take (Z.to_nat (HLL_REGISTERS (precision h))) (registers h).

(** [num_registers] comes from the precision in the data, the buffer from the one that
    [hll_create] accepts: more registers than fit are copied behind it, and the shift
    is undefined from 31 bits on. *)
Definition hll_deserialize (data : list Z) : outcome HyperLogLog :=
  p ← deref (mem_get 0 1 data);
  let p := le_dec p in
  let h := hll_create p in
  s ← deref (mem_get 1 1 data);
  f ← deref (mem_get 2 2 data);
  c ← deref (mem_get 4 8 data);
  if HLL_PRECISION_MAX <? p then Undef else
  r ← deref (mem_get 12 (HLL_REGISTERS p) data);
  Ok {| precision := precision h; sparse := le_dec s; flags := le_dec f;
        total_count := i64 (le_dec c);
        registers := r ++ drop (length r) (registers h) |}.

(** ** The estimate *)

Abbreviation f64 := binary64.

(** A decimal constant of the source, [n / d] rounded once. *)
Definition const (F : Format) (n d : Z) : spec_float := fdiv F (float_of_Z F n) (float_of_Z F d).

Definition hll_alpha (p : Z) : spec_float :=
  let m := Z.shiftl 1 p in
  if m =? 16 then const binary32 673 1000
  else if m =? 32 then const binary32 697 1000
  else if m =? 64 then const binary32 709 1000
  else fdiv binary32 (const binary32 7213 10000)
         (fadd binary32 (float_of_Z binary32 1)
            (fdiv binary32 (const binary32 1079 1000) (float_of_Z binary32 m))).

Definition hll_error_rate (sqrtf : spec_float → spec_float) (p : Z) : spec_float :=
  fdiv binary32 (const binary32 104 100) (sqrtf (float_of_Z binary32 (Z.shiftl 1 p))).

Definition bias_thresholds : list spec_float :=
  map (float_of_Z f64) [10; 20; 30; 40; 50; 60; 70; 80; 90; 100;
                        120; 140; 160; 180; 200; 220; 240; 260; 280; 300].

Definition bias_data_p14 : list spec_float :=
  map (λ n, const f64 n 10000)
    [7153; 6800; 6566; 6333; 6100; 5867; 5634; 5400; 5167; 4934;
     4600; 4267; 3934; 3600; 3267; 2933; 2600; 2267; 1934; 1600].

(** The loop over the thresholds, with the bias data in step. *)
Fixpoint find_bias (raw : spec_float) (ts bs : list spec_float) : spec_float :=
  match ts, bs with
  | t0 :: (t1 :: _) as ts, b0 :: (b1 :: _) as bs =>
      if flt raw t1
      then let t := fdiv f64 (fsub f64 raw t0) (fsub f64 t1 t0) in
           fadd f64 b0 (fmul f64 t (fsub f64 b1 b0))
      else find_bias raw ts bs
  | _, _ => S754_zero false
  end.

Definition apply_bias_correction (raw : spec_float) (p : Z) : spec_float :=
  if negb (p =? 14) || fle (float_of_Z f64 300) raw then raw
  else fsub f64 raw (fmul f64 (find_bias raw bias_thresholds bias_data_p14) raw).

Section estimate.
Context (log round : spec_float → spec_float).

(** The sum of [2^(-register)] and the number of empty registers. *)
Fixpoint harmonic (l : list Z) (sum : spec_float) (empty : Z) : outcome (spec_float * Z) :=
  match l with
  | [] => Ok (sum, empty)
  | r :: l =>
      if 63 <? r then Undef
      else harmonic l (fadd f64 sum (fdiv f64 (float_of_Z f64 1) (float_of_Z f64 (Z.shiftl 1 r))))
             (if r =? 0 then empty + 1 else empty)
  end.

Definition hll_count (h : HyperLogLog) : outcome Z :=
  let n := HLL_REGISTERS (precision h) in
  let m := float_of_Z f64 n in
  '(sum, empty) ← harmonic (registers h) (S754_zero false) 0;
  let raw := fdiv f64 (fmul f64 (fmul f64 (convert f64 (hll_alpha (precision h))) m) m) sum in
  let two32 := float_of_Z f64 (2 ^ 32) in
  let estimate :=
    if fle raw (convert f64 (fmul binary32 (const binary32 25 10) (float_of_Z binary32 n)))
    then if 0 <? empty then fmul f64 m (log (fdiv f64 m (float_of_Z f64 empty))) else raw
    else if fle raw (fmul f64 (const f64 1 30) two32) then raw
    else fmul f64 (fsub f64 (S754_zero true) two32)
           (log (fsub f64 (float_of_Z f64 1) (fdiv f64 raw two32))) in
  int_of_float 64 (round (apply_bias_correction estimate (precision h))).
End estimate.

(** ** Values of columns *)

Definition BYTEAOID : Z := 17.

(** A value of a row, with the address its datum points to when it is one of a type passed
    by reference: equal values of two rows, or of one row in two processes, are at different
    places. *)
Record Located := { place : Z; contents : Datum }.

Section datums.
Context `{Varlena}.

(** The hash function of a type, if it has one; it gives a 32-bit integer. *)
Context (hash_proc : Z → option (Datum → Z)).

(** The last case, for a type without a hash function, takes the datum word itself: the value
    of a type passed by value, the address of any other. *)
Definition hashed_bytes (value : Located) (type_oid : Z) : list Z :=
  let word := match contents value with DatumVal z => z | DatumRef _ => place value end in
  let object := match contents value with DatumRef bs => bs | DatumVal _ => [] end in
  if decide (type_oid = INT2OID) then le_enc 2 word
  else if decide (type_oid = INT4OID ∨ type_oid = FLOAT4OID) then le_enc 4 word
  else if decide (type_oid = INT8OID ∨ type_oid = FLOAT8OID) then le_enc 8 word
  else if decide (type_oid = TEXTOID ∨ type_oid = VARCHAROID ∨ type_oid = BPCHAROID
                  ∨ type_oid = BYTEAOID)
  then take (Z.to_nat (VARSIZE_ANY_EXHDR object)) (VARDATA_ANY object)
  else if decide (type_oid = UUIDOID) then take 16 object
  else match hash_proc type_oid with
       | Some f => le_enc 4 (f (contents value))
       | None => le_enc 8 word
       end.

Definition hll_hash_datum (value : option Located) (type_oid : Z) : Z :=
  match value with
  | None => hll_murmurhash3_64 (le_enc 8 0xDEADBEEFCAFEBABE) MURMUR_SEED
  | Some value => hll_murmurhash3_64 (hashed_bytes value type_oid) MURMUR_SEED
  end.

(** ** Aggregate functions *)

Definition hll_trans (state : option HyperLogLog) (value : option Located) (type_oid : Z)
    : outcome HyperLogLog :=
  let h := default (hll_create HLL_PRECISION_DEFAULT) state in
  match value with
  | None => Ok h
  | Some v => hll_add_hash h (hll_hash_datum (Some v) type_oid)
  end.

Definition hll_combine (state1 state2 : option HyperLogLog) : outcome (option HyperLogLog) :=
  match state1, state2 with
  | None, None => Ok None
  | _, _ => hll_merge state1 state2
  end.

Definition hll_final (log round : spec_float → spec_float) (state : option HyperLogLog) : outcome Z :=
  match state with None => Ok 0 | Some h => hll_count log round h end.

Definition hll_serial (state : option HyperLogLog) : option (list Z) := hll_serialize <$> state.

Definition hll_deserial (data : option (list Z)) : outcome (option HyperLogLog) :=
  match data with None => Ok None | Some d => h ← hll_deserialize d; Ok (Some h) end.

(** ** SQL functions *)

Definition hll_create_sql (p : Z) : outcome HyperLogLog :=
  if (p <? HLL_PRECISION_MIN) || (HLL_PRECISION_MAX <? p)
  then Err "HLL precision must be between 4 and 18" else Ok (hll_create (u8 p)).

Definition hll_add_sql (state : option HyperLogLog) (value : option Located) (type_oid : Z)
    : outcome HyperLogLog :=
  match state, value with
  | None, _ => Err "HLL cannot be NULL"
  | Some h, None => Ok h
  | Some h, Some v => hll_add_hash h (hll_hash_datum (Some v) type_oid)
  end.

Definition hll_count_sql := hll_final.
Definition hll_merge_sql := hll_combine.

(** [parsed] is what [sscanf] reads from [HLL(precision=%d]. *)
Definition hll_in (parsed : option Z) : HyperLogLog :=
  match parsed with Some p => hll_create (u8 p) | None => hll_create HLL_PRECISION_DEFAULT end.

(** The aggregate over a column in one process. *)
Definition hll_aggregate (values : list (option Located)) (type_oid : Z)
    : outcome (option HyperLogLog) :=
  foldl (λ st v, st ← st; h ← hll_trans st v type_oid; Ok (Some h)) (Ok None) values.

(** The aggregate in workers: each sends its state as bytes, and the leader combines
    them in the order they come. *)
Definition hll_parallel (parts : list (list (option Located))) (type_oid : Z)
    : outcome (option HyperLogLog) :=
  foldl (λ st part,
      st ← st; partial ← hll_aggregate part type_oid;
      partial ← hll_deserial (hll_serial partial); hll_combine st partial)
    (Ok None) parts.
End datums.

(** ** Hash values *)

Lemma murmur_range key seed : in_u 64 (hll_murmurhash3_64 key seed).
Proof.
  unfold hll_murmurhash3_64. destruct (murmur_blocks _ _ _ _). by apply uwrap_range.
Qed.

Definition xorshift33 (k : Z) : Z := Z.lxor k (Z.shiftr k 33).

Lemma shiftr_range k n : 0 ≤ n → in_u 64 k → in_u 64 (Z.shiftr k n).
Proof.
  intros Hn Hk. unfold in_u in *. rewrite Z.shiftr_div_pow2 by done. split.
  - apply Z.div_pos; lia.
  - apply Z.le_lt_trans with k; [|lia]. apply Z.div_le_upper_bound; nia.
Qed.

Lemma xorshift33_range k : in_u 64 k → in_u 64 (xorshift33 k).
Proof. intros. apply lxor_range; [done|done|]. by apply shiftr_range. Qed.

Lemma xorshift33_involutive k : in_u 64 k → xorshift33 (xorshift33 k) = k.
Proof.
  intros Hk. unfold xorshift33. rewrite Z.shiftr_lxor, Z.shiftr_shiftr by done.
  assert (Z.shiftr k (33 + 33) = 0) as ->.
  { rewrite Z.shiftr_div_pow2 by done. apply Z.div_small. unfold in_u in Hk. lia. }
  rewrite Z.lxor_0_r, Z.lxor_assoc, Z.lxor_nilpotent. apply Z.lxor_0_r.
Qed.

Lemma u64_mul_inv k a b : in_u 64 k → (a * b) mod 2 ^ 64 = 1 → u64 (u64 (k * a) * b) = k.
Proof.
  intros Hk Hab. unfold uwrap. rewrite Zmult_mod_idemp_l, <- Z.mul_assoc, <- Zmult_mod_idemp_r, Hab.
  rewrite Z.mul_1_r. by apply Z.mod_small.
Qed.

Definition unfmix64 (k : Z) : Z :=
  xorshift33 (u64 (xorshift33 (u64 (xorshift33 k * 0x9cb4b2f8129337db)) * 0x4f74430c22a54005)).

(** The finalizer loses nothing: distinct words have distinct images. *)
Theorem fmix64_invertible (k : Z) : in_u 64 k → unfmix64 (fmix64 k) = k.
Proof.
  intros Hk. unfold unfmix64, fmix64.
  repeat match goal with |- context [Z.lxor ?a (Z.shiftr ?a 33)] => change (Z.lxor a (Z.shiftr a 33)) with (xorshift33 a) end.
  pose proof (xorshift33_range k Hk). set (a := xorshift33 k) in *.
  set (b := u64 (a * 0xff51afd7ed558ccd)). assert (in_u 64 b) by by apply uwrap_range.
  pose proof (xorshift33_range b ltac:(done)). set (c := xorshift33 b) in *.
  set (d := u64 (c * 0xc4ceb9fe1a85ec53)). assert (in_u 64 d) by by apply uwrap_range.
  rewrite xorshift33_involutive by done. subst d. rewrite u64_mul_inv by done.
  subst c. rewrite xorshift33_involutive by done. subst b. rewrite u64_mul_inv by done.
  subst a. by apply xorshift33_involutive.
Qed.

(** ** Registers *)

Lemma hll_index_range p x : 1 ≤ p ≤ 18 → in_u 64 x → 0 ≤ hll_index p x < 2 ^ p.
Proof.
  intros Hp Hx. unfold hll_index, in_u in *. rewrite Z.shiftr_div_pow2 by lia.
  assert (0 ≤ x / 2 ^ (64 - p) < 2 ^ p).
  { split; [apply Z.div_pos; lia|]. apply Z.div_lt_upper_bound; [lia|].
    rewrite <- Z.pow_add_r by lia. replace (64 - p + p) with 64 by lia. lia. }
  rewrite uwrap_id; [done|]. split; [lia|].
  apply Z.lt_le_trans with (2 ^ p); [lia|]. apply Z.pow_le_mono_r; lia.
Qed.

(** The rank is between 1 and the number of bits that are left, plus one. *)
Lemma hll_rank_range p x : 1 ≤ p ≤ 18 → 1 ≤ hll_rank p x ≤ 65 - p.
Proof.
  intros Hp. unfold hll_rank, hll_leading_zeros, count_leading_zeros, builtin_clzll.
  set (a := u64 (Z.shiftl x p)). set (b := u64 (Z.shiftl 1 (p - 1))).
  assert (Ha : in_u 64 a) by by apply uwrap_range.
  assert (Hb : b = 2 ^ (p - 1)).
  { subst b. rewrite Z.shiftl_1_l. apply uwrap_id. split; [lia|]. apply Z.pow_lt_mono_r; lia. }
  assert (Hlog : p - 1 ≤ Z.log2 (Z.lor a b) ≤ 63).
  { unfold in_u in Ha. rewrite Z.log2_lor by (try lia; rewrite Hb; lia).
    rewrite Hb, Z.log2_pow2 by lia.
    assert (Z.log2 a ≤ 63). { destruct (decide (a = 0)) as [->|]; [done|].
      assert (Z.log2 a < 64) by (apply Z.log2_lt_pow2; lia). lia. }
    lia. }
  destruct (Z.eqb_spec (Z.lor a b) 0) as [E|_]; [rewrite E in Hlog; cbn in Hlog|].
  - assert (p = 1) as -> by lia. subst b. apply Z.lor_eq_0_iff in E as [_ E]. done.
  - rewrite uwrap_id by (split; lia). lia.
Qed.

(** What register [i] holds after the hashes of [l]. *)
Definition reg (p : Z) (l : list Z) (i : Z) : Z :=
  foldr (λ x m, if hll_index p x =? i then Z.max (hll_rank p x) m else m) 0 l.

#[local] Arguments reg : simpl never.
#[local] Arguments hll_index : simpl never.
#[local] Arguments hll_rank : simpl never.

Lemma reg_cons p x l i :
  reg p (x :: l) i = if hll_index p x =? i then Z.max (hll_rank p x) (reg p l i) else reg p l i.
Proof. done. Qed.

Lemma reg_nonneg p l i : 0 ≤ reg p l i.
Proof. induction l as [|x l IH]; [done|]. rewrite reg_cons. destruct_if; lia. Qed.

Lemma reg_app p l k i : reg p (l ++ k) i = Z.max (reg p l i) (reg p k i).
Proof.
  pose proof (reg_nonneg p k i). induction l as [|x l IH]; [cbn [app]; change (reg p [] i) with 0; lia|].
  rewrite <- app_comm_cons, !reg_cons, IH. destruct_if; lia.
Qed.

Lemma reg_range p l i : 1 ≤ p ≤ 18 → 0 ≤ reg p l i ≤ 65 - p.
Proof.
  intros Hp. induction l as [|x l IH]; [change (reg p [] i) with 0; lia|].
  rewrite reg_cons. pose proof (hll_rank_range p x Hp). destruct_if; lia.
Qed.

Lemma reg_elem p l x : x ∈ l → hll_rank p x ≤ reg p l (hll_index p x).
Proof.
  induction 1 as [l|x y l Hx IH]; rewrite reg_cons; [rewrite Z.eqb_refl; lia|]. destruct_if; lia.
Qed.

(** A register is the greatest rank of the hashes with its index. *)
Lemma reg_le p l k i : (∀ x, x ∈ l → x ∈ k) → reg p l i ≤ reg p k i.
Proof.
  intros H. induction l as [|x l IH]; [apply reg_nonneg|]. rewrite reg_cons.
  assert (reg p l i ≤ reg p k i) by (apply IH; intros; apply H; by right).
  destruct (Z.eqb_spec (hll_index p x) i) as [<-|]; [|done].
  apply Z.max_lub; [|done]. apply reg_elem, H. by left.
Qed.

Definition sketch (p : Z) (l : list Z) : HyperLogLog :=
  {| precision := p; sparse := 0; flags := 0; total_count := i64 (len l);
     registers := map (reg p l) (seqZ 0 (2 ^ p)) |}.

Lemma registers_lookup p l i : 0 ≤ i < 2 ^ p → registers (sketch p l) !! Z.to_nat i = Some (reg p l i).
Proof.
  intros Hi. cbn. rewrite list_lookup_fmap, lookup_seqZ_lt by lia. cbn. f_equal. f_equal. lia.
Qed.

Lemma create_sketch p : 4 ≤ p ≤ 18 → hll_create p = sketch p [].
Proof.
  intros Hp. unfold hll_create, sketch, HLL_PRECISION_MIN, HLL_PRECISION_MAX, HLL_REGISTERS.
  destruct (Z.ltb_spec p 4); [lia|]. destruct (Z.ltb_spec 18 p); [lia|]. f_equal.
  rewrite Z.shiftl_1_l. apply list_eq. intros i. rewrite list_lookup_fmap.
  destruct (decide (i < Z.to_nat (2 ^ p))%nat) as [Hi|Hi].
  - rewrite lookup_replicate_2 by done. by rewrite lookup_seqZ_lt by lia.
  - rewrite !lookup_ge_None_2; [done| |]; rewrite ?length_replicate, ?length_seqZ; lia.
Qed.

Lemma add_sketch p l x :
  1 ≤ p ≤ 18 → in_u 64 x → hll_add_hash (sketch p l) x = Ok (sketch p (l ++ [x])).
Proof.
  intros Hp Hx. unfold hll_add_hash. cbn [precision sketch].
  destruct (Z.ltb_spec p 1); [lia|]. destruct (Z.ltb_spec 63 p); [lia|]. cbn [orb].
  pose proof (hll_index_range p x Hp Hx) as Hi. rewrite registers_lookup by done. cbn [deref mbind outcome_bind].
  unfold with_registers. cbn [precision sparse flags total_count registers sketch]. unfold sketch. f_equal. f_equal.
  - rewrite length_app, Z.add_comm, swrap_add_r by done. f_equal. cbn. lia.
  - apply list_eq. intros i. rewrite (list_lookup_fmap _ (seqZ _ _) i).
    assert (Hr : reg p (l ++ [x]) (hll_index p x) = Z.max (reg p l (hll_index p x)) (hll_rank p x)).
    { rewrite reg_app, reg_cons, Z.eqb_refl. change (reg p [] _) with 0.
      pose proof (hll_rank_range p x Hp). lia. }
    assert (Hne : ∀ j, j ≠ hll_index p x → reg p (l ++ [x]) j = reg p l j).
    { intros j Hj. rewrite reg_app, reg_cons. change (reg p [] _) with 0.
      destruct (Z.eqb_spec (hll_index p x) j); [done|].
      pose proof (reg_range p l j Hp). lia. }
    destruct (decide (i = Z.to_nat (hll_index p x))) as [->|Hni].
    + rewrite lookup_seqZ_lt by lia. cbn [fmap option_fmap option_map].
      rewrite Z.add_0_l, Z2Nat.id, Hr by lia.
      destruct (Z.ltb_spec (reg p l (hll_index p x)) (hll_rank p x)).
      * rewrite list_lookup_insert_eq by (rewrite ?length_map, ?length_fmap, length_seqZ; lia). f_equal. lia.
      * rewrite list_lookup_fmap, lookup_seqZ_lt by lia. cbn [fmap option_fmap option_map].
        rewrite Z.add_0_l, Z2Nat.id by lia. f_equal. lia.
    + assert (E : map (reg p l) (seqZ 0 (2 ^ p)) !! i = reg p (l ++ [x]) <$> seqZ 0 (2 ^ p) !! i).
      { rewrite list_lookup_fmap. destruct (seqZ 0 (2 ^ p) !! i) as [j|] eqn:Ej; [|done].
        apply lookup_seqZ in Ej as [-> Hj]. cbn. f_equal. symmetry. apply Hne. lia. }
      destruct_if; [by rewrite list_lookup_insert_ne|done].
Qed.

Lemma sketch_length p l : 0 ≤ p → len (registers (sketch p l)) = 2 ^ p.
Proof. intros. cbn. rewrite length_map, length_seqZ. lia. Qed.

Lemma zip_with_map {A B} (f : B → B → B) (g h : A → B) (l : list A) :
  zip_with f (map g l) (map h l) = map (λ x, f (g x) (h x)) l.
Proof. induction l as [|x l IH]; [done|]. cbn. by rewrite IH. Qed.

Lemma count_app (l k : list Z) : i64 (i64 (len l) + i64 (len k)) = i64 (len (l ++ k)).
Proof.
  rewrite swrap_add_r, Z.add_comm, swrap_add_r by done. f_equal. rewrite length_app. lia.
Qed.

Lemma merge_sketch p l k :
  4 ≤ p ≤ 18 → hll_merge (Some (sketch p l)) (Some (sketch p k)) = Ok (Some (sketch p (l ++ k))).
Proof.
  intros Hp. unfold hll_merge. cbn [precision sketch]. rewrite Z.eqb_refl. cbn [negb].
  do 2 f_equal. rewrite create_sketch by done. unfold with_registers, sketch.
  cbn [precision sparse flags total_count registers]. rewrite count_app, zip_with_map. f_equal.
  apply map_ext. intros i. by rewrite reg_app.
Qed.

Lemma merge_inplace_sketch p l k :
  4 ≤ p ≤ 18 → hll_merge_inplace (sketch p l) (sketch p k) = Ok (sketch p (l ++ k)).
Proof.
  intros Hp. unfold hll_merge_inplace. cbn [precision sketch]. rewrite Z.eqb_refl. cbn [negb].
  f_equal. unfold with_registers, sketch.
  cbn [precision sparse flags total_count registers]. rewrite count_app, zip_with_map. f_equal.
  apply map_ext. intros i. rewrite reg_app. destruct (Z.ltb_spec (reg p l i) (reg p k i)); lia.
Qed.

(** Adding hashes one after the other. *)
Lemma add_all_sketch p l hashes :
  1 ≤ p ≤ 18 → Forall (in_u 64) hashes →
  foldl (λ st x, st ← st; hll_add_hash st x) (Ok (sketch p l)) hashes = Ok (sketch p (l ++ hashes)).
Proof.
  intros Hp Hh. revert l. induction Hh as [|x hashes Hx Hh IH]; intros l; [by rewrite app_nil_r|].
  cbn [foldl mbind outcome_bind]. rewrite add_sketch by done. rewrite IH. by rewrite <- app_assoc.
Qed.

(** ** Serialization *)

(** The sketches the functions above produce. *)
Record hll_ok (h : HyperLogLog) : Prop := {
  ok_precision : HLL_PRECISION_MIN ≤ precision h ≤ HLL_PRECISION_MAX;
  ok_sparse : in_u 8 (sparse h);
  ok_flags : in_u 16 (flags h);
  ok_total : in_i 64 (total_count h);
  ok_length : len (registers h) = 2 ^ precision h;
  ok_registers : Forall (λ r, 0 ≤ r ≤ 65 - precision h) (registers h) }.

Lemma sketch_ok p l : 4 ≤ p ≤ 18 → hll_ok (sketch p l).
Proof.
  intros Hp. constructor; cbn [precision sparse flags total_count sketch]; try done.
  - by apply swrap_range.
  - apply sketch_length. lia.
  - apply Forall_map, Forall_true. intros i. apply reg_range. lia.
Qed.

Lemma le_dec_enc_u n z : 0 ≤ n → in_u (n * 8) z → le_dec (le_enc n z) = z.
Proof. intros Hn Hz. rewrite le_dec_enc by done. by apply Z.mod_small. Qed.

Lemma serialize_fields h :
  hll_ok h →
  mem_get 0 1 (hll_serialize h) = Some (le_enc 1 (precision h)) ∧
  mem_get 1 1 (hll_serialize h) = Some (le_enc 1 (sparse h)) ∧
  mem_get 2 2 (hll_serialize h) = Some (le_enc 2 (flags h)) ∧
  mem_get 4 8 (hll_serialize h) = Some (le_enc 8 (total_count h)) ∧
  mem_get 12 (HLL_REGISTERS (precision h)) (hll_serialize h) = Some (registers h).
Proof.
  intros []. unfold hll_serialize, HLL_REGISTERS, HLL_PRECISION_MIN in *. rewrite Z.shiftl_1_l.
  rewrite firstn_all2 by (apply Nat2Z.inj_le; rewrite ok_length0, Z2Nat.id; lia).
  split_and!.
  - apply (mem_get_app []); [done|by apply le_enc_length].
  - apply (mem_get_app (le_enc 1 _)); by apply le_enc_length.
  - rewrite (app_assoc (le_enc 1 _)). apply mem_get_app; [|by apply le_enc_length].
    rewrite length_app, Nat2Z.inj_add, !le_enc_length by done. done.
  - rewrite (app_assoc (le_enc 1 _)), (app_assoc _ (le_enc 2 _)). apply mem_get_app; [|by apply le_enc_length].
    rewrite !length_app, !Nat2Z.inj_add, !le_enc_length by done. done.
  - rewrite (app_assoc (le_enc 1 _)), (app_assoc _ (le_enc 2 _)), (app_assoc _ (le_enc 8 _)).
    rewrite <- (app_nil_r (registers h)) at 1. apply mem_get_app; [|done].
    rewrite !length_app, !Nat2Z.inj_add, !le_enc_length by done. done.
Qed.

Lemma deserialize_serialize h : hll_ok h → hll_deserialize (hll_serialize h) = Ok h.
Proof.
  intros Hok. destruct (serialize_fields h Hok) as (E1 & E2 & E3 & E4 & E5). destruct Hok.
  unfold hll_deserialize, HLL_PRECISION_MIN, HLL_PRECISION_MAX in *.
  rewrite E1, E2, E3, E4. cbn [deref mbind outcome_bind].
  rewrite (le_dec_enc_u 1), E5 by (done || split; lia). cbn [deref mbind outcome_bind].
  destruct (Z.ltb_spec 18 (precision h)); [lia|].
  rewrite create_sketch, (le_dec_enc_u 1), (le_dec_enc_u 2), le_dec_enc_i64 by (done || lia).
  rewrite drop_ge, app_nil_r; [by destruct h|].
  apply Nat2Z.inj_le. rewrite sketch_length by lia. lia.
Qed.

(** A sketch is read back from its bytes unchanged. *)
Theorem hll_serialize_roundtrip (h : HyperLogLog) :
  hll_ok h → hll_deserialize (hll_serialize h) = Ok h.
Proof. apply deserialize_serialize. Qed.

Lemma hll_serialize_roundtrip_witness :
  hll_ok (sketch 4 [5; 77]) ∧ hll_deserialize (hll_serialize (sketch 4 [5; 77])) = Ok (sketch 4 [5; 77]).
Proof.
  assert (H : hll_ok (sketch 4 [5; 77])) by (by apply sketch_ok). split; [exact H|].
  apply (hll_serialize_roundtrip (sketch 4 [5; 77])). exact H.
Defined.

(** A precision that [hll_create] does not accept is read past the buffer or written
    behind it. *)
Theorem deserialize_unchecked (data : list Z) (p : Z) :
  19 ≤ p < 256 → hll_deserialize (p :: replicate 11 0 ++ data) = Undef.
Proof.
  intros Hp. unfold hll_deserialize.
  assert (E : ∀ i n, 0 ≤ i → 0 ≤ n → i + n ≤ 12 →
    mem_get i n (p :: replicate 11 0 ++ data) = Some (take (Z.to_nat n) (drop (Z.to_nat i) (p :: replicate 11 0 ++ data)))).
  { intros i n ???. unfold mem_get. rewrite decide_True; [done|]. cbn [length app replicate]. lia. }
  rewrite !E by lia. cbn [deref mbind outcome_bind].
  change (take (Z.to_nat 1) (drop (Z.to_nat 0) (p :: replicate 11 0 ++ data))) with [p].
  assert (le_dec [p] = p) as ->.
  { rewrite <- (le_dec_enc_u 1 p) at 2 by (done || split; lia). f_equal.
    change (le_enc 1 p) with [Z.land p (Z.ones 8)]. rewrite Z.land_ones by done. by rewrite Z.mod_small by lia. }
  destruct (Z.ltb_spec HLL_PRECISION_MAX p) as [|H]; [done|]. unfold HLL_PRECISION_MAX in H. lia.
Qed.

(** ** Aggregates *)

#[local] Arguments sketch : simpl never.
#[local] Arguments hll_create : simpl never.
#[local] Arguments hll_murmurhash3_64 : simpl never.

Section aggregates.
Context `{Varlena} (hash_proc : Z → option (Datum → Z)) (type_oid : Z).

Abbreviation hash_of v := (hll_hash_datum hash_proc (Some v) type_oid).
Abbreviation aggregate vs := (hll_aggregate hash_proc vs type_oid).
Abbreviation parallel parts := (hll_parallel hash_proc parts type_oid).

(** The hashes of the values that are not null. *)
Definition hashes (vs : list (option Located)) : list Z := omap (λ v, (λ v, hash_of v) <$> v) vs.

Definition state_of (vs : list (option Located)) : option HyperLogLog :=
  match vs with [] => None | _ => Some (sketch HLL_PRECISION_DEFAULT (hashes vs)) end.

Lemma trans_sketch st vs v :
  default (hll_create HLL_PRECISION_DEFAULT) st = sketch HLL_PRECISION_DEFAULT (hashes vs) →
  hll_trans hash_proc st v type_oid = Ok (sketch HLL_PRECISION_DEFAULT (hashes (vs ++ [v]))).
Proof.
  intros E. unfold hll_trans. rewrite E. unfold hashes. rewrite omap_app.
  destruct v as [v|]; cbn; [|by rewrite app_nil_r].
  apply add_sketch; [done|]. apply murmur_range.
Qed.

Lemma aggregate_state vs : aggregate vs = Ok (state_of vs).
Proof.
  unfold hll_aggregate. induction vs as [|v vs IH] using rev_ind; [done|].
  rewrite foldl_app, IH. cbn [foldl mbind outcome_bind].
  rewrite (trans_sketch _ vs).
  - cbn. unfold state_of. by destruct vs.
  - unfold state_of. destruct vs; [|done]. by apply create_sketch.
Qed.

Lemma combine_states vs ws :
  hll_combine (state_of vs) (state_of ws) = Ok (state_of (vs ++ ws)).
Proof.
  destruct vs as [|v vs]; [by destruct ws|]. destruct ws as [|w ws]; [by rewrite app_nil_r|].
  unfold hll_combine, state_of. cbn [app]. rewrite merge_sketch by done.
  do 3 f_equal. unfold hashes. by rewrite <- omap_app.
Qed.

Lemma deserial_serial vs : hll_deserial (hll_serial (state_of vs)) = Ok (state_of vs).
Proof.
  unfold state_of. destruct vs as [|v vs]; [done|]. cbn.
  rewrite deserialize_serialize by by apply sketch_ok. done.
Qed.

(** C22: the aggregate computed by parallel workers, which send their states as bytes,
    is the one computed in a single process over all rows, in every field and for
    every way to split the rows, empty parts included. *)
Theorem parallel_aggregate_agrees (parts : list (list (option Located))) :
  hll_parallel hash_proc parts type_oid = hll_aggregate hash_proc (concat parts) type_oid.
Proof.
  rewrite aggregate_state. unfold hll_parallel.
  induction parts as [|part parts IH] using rev_ind; [done|].
  rewrite foldl_app, IH. cbn [foldl mbind outcome_bind].
  rewrite aggregate_state. cbn [mbind outcome_bind]. rewrite deserial_serial. cbn [mbind outcome_bind].
  rewrite combine_states, concat_app. cbn. by rewrite app_nil_r.
Qed.

(** Where a value is makes no difference to its hash, unless it is of a type passed by
    reference that is neither handled by name nor has a hash function. *)
Definition contents_hashed (v : Datum) : Prop :=
  match v with
  | DatumVal _ => True
  | DatumRef _ => is_Some (hash_proc type_oid) ∨ type_oid ∈ [TEXTOID; VARCHAROID; BPCHAROID; BYTEAOID; UUIDOID]
  end.

Lemma place_ignored p q v :
  contents_hashed v → type_oid ∉ [INT2OID; INT4OID; INT8OID; FLOAT4OID; FLOAT8OID] →
  hashed_bytes hash_proc {| place := p; contents := v |} type_oid =
  hashed_bytes hash_proc {| place := q; contents := v |} type_oid.
Proof.
  intros Hv Ht. unfold hashed_bytes. cbn [contents place]. destruct v as [z|bs]; [done|]. cbn [contents_hashed] in Hv.
  rewrite !not_elem_of_cons in Ht. destruct Ht as (H2 & H4 & H8 & F4 & F8 & _).
  rewrite !(decide_False (P := type_oid = INT2OID)) by done.
  rewrite !(decide_False (P := type_oid = INT4OID ∨ _)) by tauto.
  rewrite !(decide_False (P := type_oid = INT8OID ∨ _)) by tauto.
  destruct (decide (_ ∨ _)) as [|Htext]; [done|]. destruct (decide (type_oid = UUIDOID)) as [|Hu]; [done|].
  destruct Hv as [[f ->]|Hv]; [done|]. rewrite !elem_of_cons, elem_of_nil in Hv. exfalso. tauto.
Qed.

(** The sketch of values of such a type is the same wherever they are. *)
Theorem aggregate_ignores_places (vs ws : list (option Located)) :
  type_oid ∉ [INT2OID; INT4OID; INT8OID; FLOAT4OID; FLOAT8OID] →
  Forall (λ v, ∀ x, v = Some x → contents_hashed (contents x)) vs →
  map (option_map contents) vs = map (option_map contents) ws → aggregate vs = aggregate ws.
Proof.
  intros Ht Hv E. rewrite !aggregate_state. f_equal.
  assert (hashes vs = hashes ws) as Hh.
  { revert ws E. induction Hv as [|v vs Hv _ IH]; intros [|w ws] E; try done.
    injection E as Ev E. specialize (IH ws E). unfold hashes in *. cbn [omap list_omap].
    destruct v as [[p v]|], w as [[q w]|]; try discriminate; [|exact IH]. injection Ev as <-.
    cbn. f_equal; [|exact IH]. unfold hll_hash_datum. apply (f_equal (λ bs, hll_murmurhash3_64 bs MURMUR_SEED)). by apply place_ignored; [apply (Hv _ eq_refl)|]. }
  unfold state_of. destruct vs, ws; try done. by rewrite Hh.
Qed.

Lemma count_same log round h h' :
  precision h = precision h' → registers h = registers h' →
  hll_count log round h = hll_count log round h'.
Proof. intros Ep Er. unfold hll_count. by rewrite Ep, Er. Qed.

(** The estimate depends on the set of values only: neither their order nor how
    often they occur changes it, nor do NULLs. *)
Theorem estimate_of_set (log round : spec_float → spec_float) (vs ws : list (option Located)) :
  vs ≠ [] → ws ≠ [] → (∀ v, Some v ∈ vs ↔ Some v ∈ ws) →
  (st ← aggregate vs; hll_final log round st) = (st ← aggregate ws; hll_final log round st).
Proof.
  intros Hv Hw Hs. rewrite !aggregate_state. cbn [mbind outcome_bind].
  unfold state_of. destruct vs as [|v vs']; [done|]. destruct ws as [|w ws']; [done|].
  set (vs := v :: vs') in *. set (ws := w :: ws') in *. cbn [hll_final]. apply count_same; [done|].
  cbn [registers sketch]. apply map_ext. intros i.
  assert (Hin : ∀ vs ws x, (∀ v, Some v ∈ vs ↔ Some v ∈ ws) → x ∈ hashes vs → x ∈ hashes ws).
  { clear. intros vs ws x Hs. unfold hashes. rewrite !list_elem_of_omap.
    intros ([v|] & Hv & E); [|done]. exists (Some v). split; [by apply Hs|done]. }
  apply Z.le_antisymm; apply reg_le; intros x; apply Hin; [done|]. intros u. by rewrite Hs.
Qed.
End aggregates.

Definition int_value (z : Z) : Located := {| place := 0; contents := DatumVal z |}.

Lemma estimate_of_set_witness :
  let H := four_byte_header in
  let agg vs := hll_aggregate (λ _, None) vs INT4OID in
  (st ← agg [Some (int_value 7); None; Some (int_value 8); Some (int_value 7)];
   hll_final (λ x, x) (λ x, x) st)
  = (st ← agg [Some (int_value 8); Some (int_value 7)]; hll_final (λ x, x) (λ x, x) st).
Proof.
  cbv zeta. apply (@estimate_of_set four_byte_header (λ _, None) INT4OID (λ x, x) (λ x, x)); [done|done|].
  intros v. set_solver.
Defined.

Lemma aggregate_ignores_places_witness :
  let H := four_byte_header in
  let at_ p := Some {| place := p; contents := DatumRef [1; 2; 3; 4; 5; 6; 7; 8; 9; 10; 11; 12; 13; 14; 15; 16] |} in
  hll_aggregate (λ _, None) [at_ 4096; None; at_ 8192] UUIDOID = hll_aggregate (λ _, None) [at_ 512; None; at_ 512] UUIDOID.
Proof.
  cbv zeta. apply (@aggregate_ignores_places four_byte_header (λ _, None) UUIDOID).
  - by apply (bool_decide_unpack _).
  - repeat constructor; intros x [= <-]; right; set_solver.
  - done.
Defined.

(** Of a type without a hash function two equal values are counted as two, as their addresses
    are hashed. *)
Example addresses_are_counted :
  let H := four_byte_header in
  let at_ p := Some {| place := p; contents := DatumRef [1; 2; 3] |} in
  hll_aggregate (λ _, None) [at_ 4096; at_ 8192] 99999 ≠ hll_aggregate (λ _, None) [at_ 4096; at_ 4096] 99999.
Proof. intros H at_ E. apply (f_equal (λ o, match o with Ok (Some h) => registers h | _ => [] end)) in E. by vm_compute in E. Qed.

(** Adding a hash to a well-formed sketch stays inside its registers and keeps it
    well-formed. *)
Theorem add_keeps_ok (h : HyperLogLog) (hash : Z) :
  hll_ok h → in_u 64 hash → ∃ h', hll_add_hash h hash = Ok h' ∧ hll_ok h' ∧ precision h' = precision h.
Proof.
  intros [] Hx. unfold HLL_PRECISION_MIN, HLL_PRECISION_MAX in *. unfold hll_add_hash.
  destruct (Z.ltb_spec (precision h) 1); [lia|]. destruct (Z.ltb_spec 63 (precision h)); [lia|]. cbn [orb].
  pose proof (hll_index_range (precision h) hash ltac:(lia) Hx) as Hi.
  destruct (lookup_lt_is_Some_2 (registers h) (Z.to_nat (hll_index (precision h) hash)) ltac:(lia)) as [old Eo].
  rewrite Eo. cbn [deref mbind outcome_bind]. eexists. split; [done|]. split; [|done].
  constructor; cbn [precision sparse flags total_count registers with_registers]; try done.
  - by apply swrap_range.
  - destruct_if; by rewrite ?length_insert.
  - destruct_if; [|done]. apply Forall_insert; [done|].
    pose proof (hll_rank_range (precision h) hash ltac:(lia)). lia.
Qed.

(** Merging in place is merging. *)
Theorem merge_inplace_agrees (h1 h2 : HyperLogLog) :
  precision h1 = precision h2 → hll_ok h1 → sparse h1 = 0 → flags h1 = 0 →
  hll_merge (Some h1) (Some h2) = (h ← hll_merge_inplace h1 h2; Ok (Some h)).
Proof.
  intros Ep [] Hs Hf. unfold hll_merge, hll_merge_inplace. rewrite Ep, Z.eqb_refl. cbn [negb mbind outcome_bind].
  do 2 f_equal. unfold HLL_PRECISION_MIN, HLL_PRECISION_MAX in *. rewrite create_sketch by lia.
  unfold with_registers. rewrite Hs, Hf, Ep. cbn [precision sparse flags sketch]. f_equal.
  apply zip_with_ext; [|done|done]. intros a b. destruct (Z.ltb_spec a b); lia.
Qed.

(** At the default precision the correction takes away up to 70 percent of an estimate
    below 300: one of 100 is reported as 50, one of 10 as 2. *)
Theorem small_estimates_halved :
  truncate (apply_bias_correction (float_of_Z f64 100) 14) = Some 50 ∧
  truncate (apply_bias_correction (float_of_Z f64 10) 14) = Some 2 ∧
  truncate (apply_bias_correction (float_of_Z f64 100) 12) = Some 100.
Proof. split_and!; vm_compute; reflexivity. Qed.

(** Reading the text form gives an empty sketch, whatever was written. *)
Theorem text_form_loses_contents (parsed : option Z) :
  registers (hll_in parsed) = replicate (length (registers (hll_in parsed))) 0.
Proof. destruct parsed; cbn [hll_in]; unfold hll_create; cbn [registers]; by rewrite length_replicate. Qed.
