(* ===== verification/Sampling.v ===== *)
(** * Sampling: random numbers, Bernoulli and reservoir samples

    Models [src/approx/sampling.c].  The generator of a backend is an argument and a
    result of what draws from it; [boot_seed] is the seed an uninitialised one makes
    of the time and its address.  The scan of a table is the list of its rows.  Memory
    contexts and the types of columns are not modelled; a copied datum is the datum. *)
From Stdlib Require Import Floats.SpecFloat.
From stdpp Require Import sets.
From S2P Require Import Prelude Postgres Float.

Local Open Scope Z_scope.

(** ** Random numbers *)

Definition SAMPLING_DEFAULT_RESERVOIR_SIZE : Z := 1000.
Definition SAMPLING_MAX_RESERVOIR_SIZE : Z := 1000000.

Record SamplingRNGState := { s0 : Z; s1 : Z; s2 : Z; s3 : Z; initialized : bool }.

Definition rotl (x k : Z) : Z := Z.lor (u64 (Z.shiftl x k)) (Z.shiftr x (64 - k)).

(** One round of the loop of [sampling_rng_init]: the new [z] and a word of the state. *)
Definition splitmix (z : Z) : Z * Z :=
  let z := u64 (z + 0x9e3779b97f4a7c15) in
  let z := u64 (Z.lxor z (Z.shiftr z 30) * 0xbf58476d1ce4e5b9) in
  let z := u64 (Z.lxor z (Z.shiftr z 27) * 0x94d049bb133111eb) in
  (z, Z.lxor z (Z.shiftr z 31)).

Definition sampling_rng_init (seed : Z) : SamplingRNGState :=
  let '(z, a) := splitmix seed in
  let '(z, b) := splitmix z in
  let '(z, c) := splitmix z in
  let '(_, d) := splitmix z in
  {| s0 := a; s1 := b; s2 := c; s3 := d; initialized := true |}.

Section rng.
Context (boot_seed : Z).

Definition sampling_rng_next (g : SamplingRNGState) : Z * SamplingRNGState :=
  let g := if initialized g then g else sampling_rng_init boot_seed in
  let result := u64 (rotl (u64 (s0 g + s3 g)) 23 + s0 g) in
  let t := u64 (Z.shiftl (s1 g) 17) in
  let c := Z.lxor (s2 g) (s0 g) in
  let d := Z.lxor (s3 g) (s1 g) in
  let b := Z.lxor (s1 g) c in
  let a := Z.lxor (s0 g) d in
  (result, {| s0 := a; s1 := b; s2 := Z.lxor c t; s3 := rotl d 45; initialized := true |}).

Definition sampling_random_double (g : SamplingRNGState) : spec_float * SamplingRNGState :=
  let '(r, g) := sampling_rng_next g in
  (fmul binary64 (float_of_Z binary64 (Z.shiftr r 11))
     (fdiv binary64 (float_of_Z binary64 1) (float_of_Z binary64 (2 ^ 53))), g).

Definition rejection_threshold (n : Z) : Z := u64 (2 ^ 64 - 1 - n + 1) mod n.

(** The loop draws until a number reaches the threshold. *)
Fixpoint draw_above (fuel : nat) (threshold : Z) (g : SamplingRNGState)
    : option (Z * SamplingRNGState) :=
  match fuel with
  | O => None
  | S fuel =>
      let '(r, g) := sampling_rng_next g in
      if r <? threshold then draw_above fuel threshold g else Some (r, g)
  end.

Definition sampling_random_int (fuel : nat) (n : Z) (g : SamplingRNGState)
    : option (Z * SamplingRNGState) :=
  if n <=? 0 then Some (0, g)
  else '(r, g) ← draw_above fuel (rejection_threshold n) g; Some (r mod n, g).

(** ** Bernoulli samples *)

Record BernoulliSampleState := {
  probability : spec_float; b_rows_seen : Z; rows_selected : Z; seed : Z }.

Definition zero : spec_float := S754_zero false.
Definition one : spec_float := float_of_Z binary64 1.

Definition bernoulli_sample_create (p : spec_float) (seed : Z) (g : SamplingRNGState)
    : outcome (BernoulliSampleState * SamplingRNGState) :=
  if fle p zero || flt one p then Err "sampling probability must be between 0 and 1"
  else Ok ({| probability := p; b_rows_seen := 0; rows_selected := 0; seed := seed |},
           if seed =? 0 then g else sampling_rng_init seed).

Definition bernoulli_sample_row (st : BernoulliSampleState) (g : SamplingRNGState)
    : BernoulliSampleState * bool * SamplingRNGState :=
  let '(x, g) := sampling_random_double g in
  let take := flt x (probability st) in
  ({| probability := probability st; b_rows_seen := i64 (b_rows_seen st + 1);
      rows_selected := if take then i64 (rows_selected st + 1) else rows_selected st;
      seed := seed st |}, take, g).

Definition sampling_bernoulli (p : spec_float) (g : SamplingRNGState) : bool * SamplingRNGState :=
  if fle p zero then (false, g)
  else if fle one p then (true, g)
  else let '(x, g) := sampling_random_double g in (flt x p, g).

Definition sampling_set_seed (seed : Z) : SamplingRNGState := sampling_rng_init (u64 seed).

(** What the calls of [sample_rows] return until the scan is done. *)
Fixpoint sample_scan {A} (st : BernoulliSampleState) (g : SamplingRNGState) (rows : list A)
    : list A * SamplingRNGState :=
  match rows with
  | [] => ([], g)
  | row :: rows =>
      let '(st, take, g) := bernoulli_sample_row st g in
      let '(rest, g) := sample_scan st g rows in
      (if take then row :: rest else rest, g)
  end.

Definition sample_rows {A} (p : spec_float) (seed : Z) (rows : list A) (g : SamplingRNGState)
    : outcome (list A * SamplingRNGState) :=
  '(st, g) ← bernoulli_sample_create p seed g; Ok (sample_scan st g rows).

(** System sampling makes the same decision for blocks and checks nothing. *)
Record SystemSampleState := { sys_probability : spec_float; blocks_seen : Z; blocks_selected : Z;
  rows_returned : Z }.

Definition system_sample_create (p : spec_float) : SystemSampleState :=
  {| sys_probability := p; blocks_seen := 0; blocks_selected := 0; rows_returned := 0 |}.

Definition system_sample_block (st : SystemSampleState) (g : SamplingRNGState)
    : SystemSampleState * bool * SamplingRNGState :=
  let '(x, g) := sampling_random_double g in
  let take := flt x (sys_probability st) in
  ({| sys_probability := sys_probability st; blocks_seen := i64 (blocks_seen st + 1);
      blocks_selected := if take then i64 (blocks_selected st + 1) else blocks_selected st;
      rows_returned := rows_returned st |}, take, g).

Definition system_sample_row_returned (st : SystemSampleState) : SystemSampleState :=
  {| sys_probability := sys_probability st; blocks_seen := blocks_seen st;
     blocks_selected := blocks_selected st; rows_returned := i64 (rows_returned st + 1) |}.

(** ** Reservoirs of rows

    A cell is [None] if it is null; the arrays start with zero datums. *)
Record ReservoirSampleState := {
  reservoir_size : Z; num_columns : Z; rows_seen : Z; cells : list (option Datum);
  items_stored : Z }.

(** [palloc0] refuses a gigabyte and more. *)
Definition reservoir_sample_create (size columns : Z) : outcome ReservoirSampleState :=
  let size := if size <=? 0 then SAMPLING_DEFAULT_RESERVOIR_SIZE else size in
  let size := if SAMPLING_MAX_RESERVOIR_SIZE <? size then SAMPLING_MAX_RESERVOIR_SIZE else size in
  if 0x3fffffff <? u64 (i32 (size * columns) * 8) then Err "invalid memory alloc request size"
  else Ok {| reservoir_size := size; num_columns := columns; rows_seen := 0;
             cells := replicate (Z.to_nat (i32 (size * columns))) (Some (DatumVal 0));
             items_stored := 0 |}.

(** The loop over the columns writes the row at [slot * num_columns]. *)
Definition store_row (st : ReservoirSampleState) (slot : Z) (row : list (option Datum))
    (stored : Z) : ReservoirSampleState :=
  {| reservoir_size := reservoir_size st; num_columns := num_columns st;
     rows_seen := i64 (rows_seen st + 1);
     cells := list_inserts (Z.to_nat (i32 (slot * num_columns st)))
                (take (Z.to_nat (num_columns st)) row) (cells st);
     items_stored := stored |}.

Definition skip_row (st : ReservoirSampleState) : ReservoirSampleState :=
  {| reservoir_size := reservoir_size st; num_columns := num_columns st;
     rows_seen := i64 (rows_seen st + 1); cells := cells st; items_stored := items_stored st |}.

(** Algorithm R, with the random number [j] that is drawn when the reservoir is full. *)
Definition reservoir_add_drawn (st : ReservoirSampleState) (row : list (option Datum)) (j : Z)
    : ReservoirSampleState :=
  if items_stored st <? reservoir_size st
  then store_row st (items_stored st) row (i32 (items_stored st + 1))
  else if reservoir_size st <=? j then skip_row st
  else store_row st (i32 j) row (items_stored st).

Definition reservoir_sample_add (fuel : nat) (st : ReservoirSampleState)
    (row : list (option Datum)) (g : SamplingRNGState)
    : option (ReservoirSampleState * SamplingRNGState) :=
  if items_stored st <? reservoir_size st then Some (reservoir_add_drawn st row 0, g)
  else '(j, g) ← sampling_random_int fuel (i64 (rows_seen st + 1)) g;
       Some (reservoir_add_drawn st row j, g).

Definition reservoir_sample_count (st : ReservoirSampleState) : Z := items_stored st.

Definition reservoir_sample_get (st : ReservoirSampleState) (index : Z)
    : option (list (option Datum)) :=
  if (index <? 0) || (items_stored st <=? index) then None
  else Some (take (Z.to_nat (num_columns st))
               (drop (Z.to_nat (i32 (index * num_columns st))) (cells st))).

(** Filling the reservoir with the rows of a table, and returning what it holds. *)
Fixpoint fill_reservoir (fuel : nat) (st : ReservoirSampleState)
    (rows : list (list (option Datum))) (g : SamplingRNGState)
    : option (ReservoirSampleState * SamplingRNGState) :=
  match rows with
  | [] => Some (st, g)
  | row :: rows => '(st, g) ← reservoir_sample_add fuel st row g; fill_reservoir fuel st rows g
  end.

Definition reservoir_rows (st : ReservoirSampleState) : list (list (option Datum)) :=
  omap (reservoir_sample_get st) (seqZ 0 (reservoir_sample_count st)).

(** ** Reservoirs of numbers, the aggregate *)

Record ReservoirAggState := { agg_size : Z; total_count : Z; values : list Z }.

Definition reservoir_agg_create (size : Z) : outcome ReservoirAggState :=
  if (size <? 0) || (0x3fffffff <? size * 8) then Err "invalid memory alloc request size"
  else Ok {| agg_size := size; total_count := 0; values := [] |}.

Definition reservoir_agg_add (fuel : nat) (st : ReservoirAggState) (value : Z)
    (g : SamplingRNGState) : option (ReservoirAggState * SamplingRNGState) :=
  let n := i64 (total_count st + 1) in
  if len (values st) <? agg_size st
  then Some ({| agg_size := agg_size st; total_count := n; values := values st ++ [value] |}, g)
  else
    '(j, g) ← sampling_random_int fuel n g;
    Some ({| agg_size := agg_size st; total_count := n;
             values := if j <? agg_size st then <[Z.to_nat j := value]> (values st)
                       else values st |}, g).

Definition reservoir_sample_trans (fuel : nat) (state : option ReservoirAggState)
    (value : option Z) (size : option Z) (g : SamplingRNGState)
    : option (outcome (ReservoirAggState * SamplingRNGState)) :=
  match (match state with
         | Some st => Ok st
         | None => reservoir_agg_create (default SAMPLING_DEFAULT_RESERVOIR_SIZE size)
         end) with
  | Ok st =>
      match value with
      | None => Some (Ok (st, g))
      | Some v => '(st, g) ← reservoir_agg_add fuel st v g; Some (Ok (st, g))
      end
  | Err e => Some (Err e)
  | Undef => Some Undef
  | Diverge => Some Diverge
  end.

Definition reservoir_sample_final (state : option ReservoirAggState) : option (list Z) :=
  st ← state; if bool_decide (values st = []) then None else Some (values st).

(** One round of the loop of the combine function: at most one value is copied. *)
Definition combine_round (fuel : nat) (p1 : spec_float) (v1 v2 out : list Z)
    (g : SamplingRNGState) : option (list Z * SamplingRNGState) :=
  let '(x, g) := sampling_random_double g in
  if flt x p1 && (0 <? len v1)
  then '(i, g) ← sampling_random_int fuel (len v1) g; Some (out ++ take 1 (drop (Z.to_nat i) v1), g)
  else if 0 <? len v2
  then '(i, g) ← sampling_random_int fuel (len v2) g; Some (out ++ take 1 (drop (Z.to_nat i) v2), g)
  else Some (out, g).

Fixpoint combine_rounds (fuel rounds : nat) (p1 : spec_float) (v1 v2 out : list Z)
    (g : SamplingRNGState) : option (list Z * SamplingRNGState) :=
  match rounds with
  | O => Some (out, g)
  | S rounds =>
      '(out, g) ← combine_round fuel p1 v1 v2 out g;
      combine_rounds fuel rounds p1 v1 v2 out g
  end.

Definition reservoir_sample_combine (fuel : nat) (state1 state2 : option ReservoirAggState)
    (g : SamplingRNGState) : option (option ReservoirAggState * SamplingRNGState) :=
  match state1, state2 with
  | None, _ => Some (state2, g)
  | _, None => Some (state1, g)
  | Some a, Some b =>
      let n := i64 (total_count a + total_count b) in
      let p1 := fdiv binary64 (float_of_Z binary64 (total_count a)) (float_of_Z binary64 n) in
      let rounds := Z.min (agg_size a) (len (values a) + len (values b)) in
      '(out, g) ← combine_rounds fuel (Z.to_nat rounds) p1 (values a) (values b) [] g;
      Some (Some {| agg_size := agg_size a; total_count := n; values := out |}, g)
  end.
End rng.

(** ** The random numbers *)

(** One number of each residue in [n] consecutive ones. *)
Lemma residues_once n a j : 0 < n → 0 ≤ j < n → count_if (λ r, r mod n =? j) (seqZ a n) = 1.
Proof.
  intros Hn Hj. unfold count_if.
  rewrite (filter_unique _ (seqZ a n) (a + (j - a) mod n)); [done|apply NoDup_seqZ| |].
  - apply elem_of_seqZ. pose proof (Z.mod_pos_bound (j - a) n Hn). lia.
  - intros y Hy%elem_of_seqZ. rewrite Z.eqb_eq. split.
    + intros E. pose proof (Z.div_mod y n ltac:(lia)) as Hd. rewrite E in Hd.
      assert ((j - a) mod n = y - a); [|lia]. symmetry.
      apply (Z.mod_unique (j - a) n (- (y / n))); [left; lia|lia].
    + intros ->. rewrite Zplus_mod_idemp_r. replace (a + (j - a)) with j by lia. by apply Z.mod_small.
Qed.

Lemma residues_count n a j q :
  0 < n → 0 ≤ j < n → 0 ≤ q → count_if (λ r, r mod n =? j) (seqZ a (n * q)) = q.
Proof.
  intros Hn Hj Hq. revert Hq. apply (natlike_ind (λ q, count_if (λ r, r mod n =? j) (seqZ a (n * q)) = q)).
  - by rewrite Z.mul_0_r.
  - intros z Hz IH. rewrite Z.mul_succ_r, seqZ_app, count_if_app, IH, residues_once by nia. lia.
Qed.

Lemma threshold_spec n :
  0 < n < 2 ^ 64 → 0 ≤ rejection_threshold n < n ∧ n * ((2 ^ 64 - rejection_threshold n) / n)
                                                     = 2 ^ 64 - rejection_threshold n.
Proof.
  intros Hn. unfold rejection_threshold. replace (2 ^ 64 - 1 - n + 1) with (2 ^ 64 - n) by lia.
  rewrite uwrap_id by (split; lia). pose proof (Z.mod_pos_bound (2 ^ 64 - n) n ltac:(lia)).
  split; [done|]. pose proof (Z.div_mod (2 ^ 64 - n) n ltac:(lia)) as Hd.
  set (t := (2 ^ 64 - n) mod n) in *. replace (2 ^ 64 - t) with ((((2 ^ 64 - n) / n) + 1) * n) by lia.
  rewrite Z.div_mul by lia. lia.
Qed.

Lemma draw_above_spec b fuel t g r g' : draw_above b fuel t g = Some (r, g') → t ≤ r.
Proof.
  revert g. induction fuel as [|fuel IH]; intros g H; [done|]. cbn -[sampling_rng_next] in H.
  destruct (sampling_rng_next b g) as [r0 g0]. destruct (Z.ltb_spec r0 t); [by eapply IH|].
  by injection H as <- <-.
Qed.

(** A random integer below [n] is the remainder of a word that is not rejected,
    it is in [0, n), and each of the [n] values comes from equally many of the words
    that are not rejected: the numbers are as uniform as the words.  Fewer than [n]
    words are rejected. *)
Theorem random_int_unbiased (boot_seed : Z) (n : Z) :
  0 < n ≤ INT64_MAX →
  (∀ fuel g r g', sampling_random_int boot_seed fuel n g = Some (r, g') → 0 ≤ r < n) ∧
  0 ≤ rejection_threshold n < n ∧
  ∀ j, 0 ≤ j < n →
    count_if (λ r, r mod n =? j) (seqZ (rejection_threshold n) (2 ^ 64 - rejection_threshold n))
    = (2 ^ 64 - rejection_threshold n) / n.
Proof.
  unfold INT64_MAX. intros Hn. destruct (threshold_spec n ltac:(lia)) as [Ht Hd]. split; [|split; [done|]].
  - intros fuel g r g' H. unfold sampling_random_int in H. destruct (Z.leb_spec n 0); [lia|].
    apply bind_Some in H as ([r0 g0] & _ & [= <- <-]). apply Z.mod_pos_bound. lia.
  - intros j Hj. rewrite <- Hd at 1. apply residues_count; [lia|done|]. apply Z.div_pos; lia.
Qed.

Lemma random_int_unbiased_witness :
  0 < 6 ≤ INT64_MAX ∧
  count_if (λ r, r mod 6 =? 2) (seqZ (rejection_threshold 6) (2 ^ 64 - rejection_threshold 6))
  = (2 ^ 64 - rejection_threshold 6) / 6.
Proof.
  split; [done|]. apply (random_int_unbiased 0 6); done.
Defined.

(** No word is rejected for a power of two: one draw is enough. *)
Theorem power_of_two_one_draw (boot_seed k : Z) (g : SamplingRNGState) :
  0 ≤ k < 64 → ∃ r g', sampling_random_int boot_seed 1 (2 ^ k) g = Some (r, g').
Proof.
  intros Hk. unfold sampling_random_int. assert (0 < 2 ^ k) by lia.
  destruct (Z.leb_spec (2 ^ k) 0); [lia|].
  assert (rejection_threshold (2 ^ k) = 0) as ->.
  { unfold rejection_threshold. replace (2 ^ 64 - 1 - 2 ^ k + 1) with (2 ^ 64 - 2 ^ k) by lia.
    assert (2 ^ k ≤ 2 ^ 63) by (apply Z.pow_le_mono_r; lia). rewrite uwrap_id by (split; lia).
    replace 64 with (64 - k + k) by lia. rewrite Z.pow_add_r by lia.
    replace (2 ^ (64 - k) * 2 ^ k - 2 ^ k) with ((2 ^ (64 - k) - 1) * 2 ^ k) by lia.
    apply Z.mod_mul. lia. }
  cbn -[sampling_rng_next]. destruct (sampling_rng_next boot_seed g) as [r g'] eqn:E.
  assert (0 ≤ r) as Hr.
  { unfold sampling_rng_next in E. injection E as <- _. apply uwrap_range. done. }
  destruct (Z.ltb_spec r 0); [lia|]. by eexists _, _.
Qed.

(** ** Algorithm R on a list *)

Section algorithm_r.
Context {A : Type} (k : Z).

Definition reservoir_step (items : list A) (row : A) (j : Z) : list A :=
  if len items <? k then items ++ [row]
  else if k <=? j then items else <[Z.to_nat j := row]> items.

(** The results of the random numbers that may be drawn, each as likely as the others:
    none is drawn while there is room, one below [n] for the [n]th row after that. *)
Definition step_choices (n : Z) (items : list A) (row : A) : list (list A) :=
  if len items <? k then [reservoir_step items row 0]
  else map (reservoir_step items row) (seqZ 0 n).

(** [seen] rows have been added when the first of [rows] comes. *)
Fixpoint reservoirs (seen : Z) (now : list (list A)) (rows : list A) : list (list A) :=
  match rows with
  | [] => now
  | row :: rows =>
      reservoirs (seen + 1) (now ≫= λ items, step_choices (seen + 1) items row) rows
  end.
End algorithm_r.

Section uniformity.
Context {A : Type} `{EqDecision A} (k : Z).
Hypothesis Hk : 0 < k.

Abbreviation has x := (λ items : list A, bool_decide (x ∈ items)).

Lemma count_if_map_to {B C} (f : C → bool) (g : B → C) (l : list B) :
  count_if f (map g l) = count_if (λ x, f (g x)) l.
Proof. induction l as [|x l IH]; [done|]. cbn [map]. by rewrite !count_if_cons, IH. Qed.

Lemma count_if_bind {B C} (f : C → bool) (f' : B → bool) (g : B → list C) (c : Z) (l : list B) :
  (∀ x, x ∈ l → count_if f (g x) = c * Z.b2z (f' x)) → count_if f (l ≫= g) = c * count_if f' l.
Proof.
  induction l as [|x l IH]; intros H; [cbn; unfold count_if; cbn; lia|].
  cbn [mbind list_bind]. rewrite count_if_app, count_if_cons, H by by left.
  change (list_bind B C g l) with (l ≫= g). rewrite IH by (intros; apply H; by right). lia.
Qed.

Lemma count_if_ext {B} (f g : B → bool) (l : list B) :
  (∀ x, x ∈ l → f x = g x) → count_if f l = count_if g l.
Proof.
  induction l as [|x l IH]; intros H; [done|]. rewrite !count_if_cons, H by by left.
  rewrite IH; [done|]. intros. apply H. by right.
Qed.

Lemma count_if_true {B} (l : list B) : count_if (λ _, true) l = len l.
Proof. induction l as [|x l IH]; [done|]. rewrite count_if_cons, IH. cbn [length Z.b2z]. lia. Qed.

Lemma count_if_false {B} (l : list B) : count_if (λ _, false) l = 0.
Proof. induction l as [|x l IH]; [done|]. by rewrite count_if_cons, IH. Qed.

Lemma count_below m n : 0 ≤ m ≤ n → count_if (λ j, j <? m) (seqZ 0 n) = m.
Proof.
  intros H. replace n with (m + (n - m)) by lia. rewrite seqZ_app, count_if_app by lia.
  rewrite (count_if_ext _ (λ _, true) (seqZ 0 m)), (count_if_ext _ (λ _, false) (seqZ (0 + m) _)).
  - rewrite count_if_true, count_if_false, length_seqZ. lia.
  - intros j Hj%elem_of_seqZ. apply Z.ltb_ge. lia.
  - intros j Hj%elem_of_seqZ. apply Z.ltb_lt. lia.
Qed.

Lemma count_other s n : 0 ≤ s < n → count_if (λ j, negb (j =? s)) (seqZ 0 n) = n - 1.
Proof.
  intros H. replace n with (s + (1 + (n - s - 1))) at 1 by lia. rewrite !seqZ_app, !count_if_app by lia.
  rewrite (count_if_ext _ (λ _, true) (seqZ 0 s)), (count_if_ext _ (λ _, false) (seqZ (0 + s) 1)),
    (count_if_ext _ (λ _, true) (seqZ (0 + s + 1) _)).
  - rewrite !count_if_true, count_if_false, !length_seqZ. lia.
  - intros j Hj%elem_of_seqZ. apply negb_true_iff, Z.eqb_neq. lia.
  - intros j Hj%elem_of_seqZ. apply negb_false_iff, Z.eqb_eq. lia.
  - intros j Hj%elem_of_seqZ. apply negb_true_iff, Z.eqb_neq. lia.
Qed.

(** A row that is replaced by another is there no more. *)
Lemma elem_of_insert_other (items : list A) (s : nat) (row x : A) :
  NoDup items → x ≠ row → (s < length items)%nat →
  x ∈ <[s := row]> items ↔ x ∈ items ∧ items !! s ≠ Some x.
Proof.
  intros Hd Hx Hs. rewrite !list_elem_of_lookup. split.
  - intros [i Hi]. destruct (decide (i = s)) as [->|Hne].
    + rewrite list_lookup_insert_eq in Hi by done. congruence.
    + rewrite list_lookup_insert_ne in Hi by done. split; [by exists i|].
      intros E. apply Hne. by eapply NoDup_lookup.
  - intros [[i Hi] Hne]. exists i. rewrite list_lookup_insert_ne by congruence. done.
Qed.

Lemma step_old n (items : list A) row x :
  NoDup items → x ≠ row → len items = k → k < n →
  count_if (has x) (map (reservoir_step k items row) (seqZ 0 n)) = (n - 1) * Z.b2z (has x items).
Proof.
  intros Hd Hx Hl Hn. rewrite count_if_map_to. unfold reservoir_step.
  destruct (Z.ltb_spec (len items) k); [lia|]. destruct (decide (x ∈ items)) as [Hin|Hin].
  - rewrite (bool_decide_eq_true_2 _ Hin), Z.mul_1_r.
    apply list_elem_of_lookup in Hin as [s Hs]. pose proof (lookup_lt_Some _ _ _ Hs).
    rewrite <- (count_other (Z.of_nat s) n) by lia. apply count_if_ext. intros j Hj%elem_of_seqZ.
    destruct (Z.leb_spec k j).
    + rewrite bool_decide_eq_true_2 by (by eapply list_elem_of_lookup_2).
      symmetry. apply negb_true_iff, Z.eqb_neq. lia.
    + apply Bool.eq_iff_eq_true. rewrite bool_decide_eq_true, elem_of_insert_other by (done || lia).
      rewrite negb_true_iff, Z.eqb_neq. split.
      * intros [_ Hne] ->. rewrite Nat2Z.id in Hne. done.
      * intros Hne. split; [by eapply list_elem_of_lookup_2|]. intros E. apply Hne.
        rewrite (NoDup_lookup _ _ _ _ Hd Hs E). lia.
  - rewrite (bool_decide_eq_false_2 _ Hin), Z.mul_0_r, (count_if_ext _ (λ _, false)); [apply count_if_false|].
    intros j Hj%elem_of_seqZ. apply bool_decide_eq_false_2.
    destruct (Z.leb_spec k j); [done|]. rewrite elem_of_insert_other by (done || lia). tauto.
Qed.

Lemma step_new n (items : list A) row :
  row ∉ items → len items = k → k < n →
  count_if (has row) (map (reservoir_step k items row) (seqZ 0 n)) = k.
Proof.
  intros Hin Hl Hn. rewrite count_if_map_to, <- (count_below k n) at 1 by lia.
  apply count_if_ext. intros j Hj%elem_of_seqZ. unfold reservoir_step.
  destruct (Z.ltb_spec (len items) k); [lia|].
  destruct (Z.leb_spec k j), (Z.ltb_spec j k); try lia; [by apply bool_decide_eq_false_2|].
  apply bool_decide_eq_true_2. apply list_elem_of_lookup. exists (Z.to_nat j).
  apply list_lookup_insert_eq. lia.
Qed.

(** What holds of every possible reservoir after the rows [past]. *)
Definition reservoir_ok (past items : list A) : Prop :=
  NoDup items ∧ items ⊆ past ∧ len items = Z.min k (len past).

(** Each row of [past] is in as large a share of the reservoirs as the reservoir is of
    the rows. *)
Definition uniform (past : list A) (now : list (list A)) : Prop :=
  Forall (reservoir_ok past) now ∧
  ∀ x, x ∈ past → len past * count_if (has x) now = Z.min k (len past) * len now.

Lemma elem_of_insert_sub (items : list A) (s : nat) (row x : A) :
  x ∈ <[s := row]> items → x = row ∨ x ∈ items.
Proof.
  intros [i Hi]%list_elem_of_lookup. apply list_lookup_insert_Some in Hi as [(_ & -> & _)|[_ Hi]];
    [by left|]. right. by eapply list_elem_of_lookup_2.
Qed.

Lemma step_ok past items row j :
  reservoir_ok past items → row ∉ past → 0 ≤ j →
  reservoir_ok (past ++ [row]) (reservoir_step k items row j).
Proof.
  intros (Hd & Hs & Hl) Hr Hj. assert (row ∉ items) as Hri by set_solver.
  unfold reservoir_step, reservoir_ok. rewrite length_app. cbn [length].
  destruct (Z.ltb_spec (len items) k) as [Hf|Hf].
  - rewrite length_app. cbn [length]. split; [|split; [set_solver|lia]].
    apply NoDup_app. split; [done|]. split; [set_solver|apply NoDup_singleton].
  - destruct (Z.leb_spec k j) as [Hkj|Hkj]; [split; [done|]; split; [set_solver|lia]|].
    rewrite length_insert. split; [|split; [|lia]].
    + apply NoDup_alt. intros i1 i2 x H1 H2.
      apply list_lookup_insert_Some in H1 as [(? & ? & _)|[? H1]];
        apply list_lookup_insert_Some in H2 as [(? & ? & _)|[? H2]]; subst; [done| | |].
      * exfalso. apply Hri. by eapply list_elem_of_lookup_2.
      * exfalso. apply Hri. by eapply list_elem_of_lookup_2.
      * by eapply NoDup_lookup.
    + intros x Hx%elem_of_insert_sub. set_solver.
Qed.

Lemma uniform_step past now row :
  uniform past now → row ∉ past →
  uniform (past ++ [row]) (now ≫= λ items, step_choices k (len past + 1) items row).
Proof.
  intros [Hok Hu] Hr. rewrite Forall_forall in Hok. split.
  - apply Forall_forall. intros items' (items & Hin & Hit)%list_elem_of_bind.
    specialize (Hok _ Hit). unfold step_choices in Hin. destruct (Z.ltb_spec (len items) k).
    + apply list_elem_of_singleton in Hin as ->. by apply step_ok.
    + apply list_elem_of_fmap in Hin as (j & -> & Hj%elem_of_seqZ). apply step_ok; [done..|lia].
  - intros x Hx%elem_of_app. rewrite length_app. cbn [length].
    assert (∀ items, items ∈ now → x = row → bool_decide (x ∈ items) = false) as Hnew.
    { intros items Hi ->. apply bool_decide_eq_false_2. destruct (Hok _ Hi) as (_ & Hs & _). set_solver. }
    assert (∀ items, items ∈ now → len items = Z.min k (len past)) as Hl.
    { intros items Hi. by apply Hok. }
    destruct (Z.lt_ge_cases (len past) k) as [Hf|Hf].
    + rewrite (count_if_bind _ (λ _, true) _ 1).
      2: { intros items Hi. specialize (Hl _ Hi). unfold step_choices, reservoir_step.
           destruct (Z.ltb_spec (len items) k); [|lia]. rewrite count_if_cons. cbn [Z.b2z].
           rewrite bool_decide_eq_true_2; [done|]. apply elem_of_app. destruct Hx as [Hx|Hx]; [left|by right].
           destruct (Hok _ Hi) as (Hd & Hs & _). assert (items ≡ₚ past) as Hp.
           { apply submseteq_length_Permutation; [|lia]. by apply NoDup_submseteq. }
           by rewrite Hp. }
      rewrite count_if_true.
      assert (len (now ≫= λ items, step_choices k (len past + 1) items row) = len now) as ->.
      2: { rewrite Z.mul_1_l. f_equal. rewrite Z.min_r; [done|]. rewrite Nat2Z.inj_add. cbn. lia. }
      rewrite <- !count_if_true, (count_if_bind _ (λ _, true) _ 1); [lia|].
      intros items Hi. specialize (Hl _ Hi). unfold step_choices.
      destruct (Z.ltb_spec (len items) k); [done|lia].
    + assert (len (now ≫= λ items, step_choices k (len past + 1) items row)
              = (len past + 1) * len now) as ->.
      { rewrite <- !count_if_true. apply count_if_bind. intros items Hi. specialize (Hl _ Hi).
        unfold step_choices. destruct (Z.ltb_spec (len items) k); [lia|].
        rewrite !count_if_true, length_map, length_seqZ. cbn [Z.b2z]. lia. }
      destruct (decide (x = row)) as [->|Hne].
      * rewrite (count_if_bind _ (λ _, true) _ k), count_if_true; [nia|].
        intros items Hi. specialize (Hl _ Hi). unfold step_choices.
        destruct (Z.ltb_spec (len items) k); [lia|]. cbn [Z.b2z].
        rewrite step_new; [lia| |lia..]. destruct (Hok _ Hi) as (_ & Hs & _). set_solver.
      * destruct Hx as [Hx|Hx%list_elem_of_singleton]; [|done].
        rewrite (count_if_bind _ (has x) _ (len past)).
        -- specialize (Hu _ Hx). rewrite Hu. rewrite !Z.min_l by lia. lia.
        -- intros items Hi. specialize (Hl _ Hi). unfold step_choices.
           destruct (Z.ltb_spec (len items) k); [lia|].
           rewrite step_old; [f_equal; lia| |done|lia..]. by apply Hok.
Qed.

Lemma reservoirs_uniform past now rows :
  uniform past now → NoDup (past ++ rows) →
  uniform (past ++ rows) (reservoirs k (len past) now rows).
Proof.
  revert past now. induction rows as [|row rows IH]; intros past now Hu Hd;
    [by rewrite app_nil_r|]. cbn [reservoirs].
  replace (len past + 1) with (len (past ++ [row])) by (rewrite length_app; cbn [length]; lia).
  rewrite cons_middle, app_assoc. apply IH.
  - replace (len (past ++ [row])) with (len past + 1) by (rewrite length_app; cbn [length]; lia).
    apply uniform_step; [done|]. apply NoDup_app in Hd as (_ & Hd & _).
    intros Hr. apply (Hd row Hr). by left.
  - by rewrite <- app_assoc.
Qed.

Lemma uniform_start : uniform [] [[]].
Proof.
  split; [|intros x []%elem_of_nil]. apply Forall_singleton. split; [apply NoDup_nil_2|].
  split; [done|]. cbn. lia.
Qed.
End uniformity.

(** ** The flat arrays hold the list *)

Section holds.
Context (k c : Z).
Hypothesis Hk : 0 < k.
Hypothesis Hc : 0 ≤ c.
Hypothesis Hkc : k * c ≤ INT32_MAX.
Hypothesis Hki : k ≤ INT32_MAX.

Abbreviation Row := (list (option Datum)).

Definition holds (seen : Z) (items : list Row) (st : ReservoirSampleState) : Prop :=
  reservoir_size st = k ∧ num_columns st = c ∧ rows_seen st = seen ∧
  items_stored st = len items ∧ len items ≤ k ∧ Forall (λ r, len r = c) items ∧
  ∃ free, cells st = concat items ++ free ∧ len free = (k - len items) * c.

Lemma length_rows (items : list Row) :
  Forall (λ r, len r = c) items → len (concat items) = len items * c.
Proof.
  induction 1 as [|r items Hr _ IH]; [done|]. cbn [concat length]. rewrite length_app. lia.
Qed.

Lemma inserts_at (pre l suf new : Row) :
  len new = len l → list_inserts (length pre) new (pre ++ l ++ suf) = pre ++ new ++ suf.
Proof.
  intros Hl. replace (length pre) with (length pre + 0)%nat by lia.
  rewrite list_inserts_app_r, list_inserts_0_r by lia. done.
Qed.

Lemma slot_bound i : 0 ≤ i ≤ k → 0 ≤ i * c < 2 ^ 31 ∧ i < 2 ^ 31.
Proof. unfold INT32_MAX in *. intros Hi. pose proof (Z.mul_le_mono_nonneg_r i k c Hc ltac:(lia)). nia. Qed.

Lemma add_holds seen items st row j :
  holds seen items st → len row = c → 0 ≤ j → 0 ≤ seen < INT64_MAX →
  holds (seen + 1) (reservoir_step k items row j) (reservoir_add_drawn st row j).
Proof.
  unfold INT64_MAX, INT32_MAX in *. intros (Hrs & Hnc & Hse & Hst & Hle & Hr & free & Hcells & Hfree) Hrow Hj Hseen.
  unfold reservoir_add_drawn, reservoir_step. rewrite Hrs, Hst.
  assert (i64 (rows_seen st + 1) = seen + 1) as Hs by (rewrite Hse; apply swrap_id; [done|split; lia]).
  assert (take (Z.to_nat c) row = row) as Ht by (apply take_ge; lia).
  destruct (Z.ltb_spec (len items) k) as [Hf|Hf]; [|destruct (Z.leb_spec k j) as [Hkj|Hkj]].
  - pose proof (slot_bound (len items) ltac:(lia)). unfold store_row, holds. cbn.
    rewrite Hs, Hnc, Ht, Hcells, length_app. cbn [length].
    rewrite !swrap_id by (done || (split; lia)). split_and!; try done; try lia.
    + apply Forall_app. by split; [|apply Forall_singleton].
    + assert (c ≤ len free) by (rewrite Hfree; clear -Hf Hc; nia).
      exists (drop (Z.to_nat c) free). rewrite concat_app. cbn [concat]. rewrite app_nil_r, <- app_assoc.
      rewrite <- (length_rows items Hr), Nat2Z.id. split.
      * rewrite <- (take_drop (Z.to_nat c) free) at 1. apply inserts_at. rewrite length_take. lia.
      * rewrite length_drop, Nat2Z.inj_sub, Hfree by lia. lia.
  - unfold skip_row, holds. cbn. rewrite Hs. split_and!; try done. by exists free.
  - assert (is_Some (items !! Z.to_nat j)) as [old Hold] by (apply lookup_lt_is_Some; lia).
    pose proof (Forall_lookup_1 _ _ _ _ Hr Hold) as Hlo. cbn in Hlo.
    unfold store_row, holds. cbn. rewrite Hs, Hnc, Ht, Hcells, length_insert.
    pose proof (slot_bound j ltac:(lia)). rewrite (swrap_id 32 j) by (done || (split; lia)).
    rewrite swrap_id by (done || (split; lia)). split_and!; try done; try lia.
    + by apply Forall_insert.
    + exists free. split; [|lia]. rewrite (insert_take_drop _ _ row) by lia.
      rewrite <- (take_drop_middle _ _ _ Hold) at 1. rewrite !concat_app. cbn [concat].
      rewrite <- !app_assoc.
      assert (Z.to_nat (j * c) = length (concat (take (Z.to_nat j) items))) as ->.
      { pose proof (length_rows (take (Z.to_nat j) items) (Forall_take _ _ _ Hr)) as Hl.
        rewrite length_take in Hl. nia. }
      apply inserts_at. lia.
Qed.

Lemma rows_of seen items st : holds seen items st → reservoir_rows st = items.
Proof.
  unfold INT32_MAX in *. intros (Hrs & Hnc & Hse & Hst & Hle & Hr & free & Hcells & Hfree).
  unfold reservoir_rows, reservoir_sample_count. rewrite Hst.
  assert (∀ pre suf, items = pre ++ suf →
            omap (reservoir_sample_get st) (seqZ (len pre) (len suf)) = suf) as H.
  2: { apply (H []). done. }
  intros pre suf. revert pre. induction suf as [|r suf IH]; intros pre Hi; [done|].
  cbn [length]. rewrite seqZ_cons by lia. cbn [omap list_omap].
  unfold reservoir_sample_get at 1. rewrite Hst, Hnc, Hcells. pose proof (f_equal length Hi) as Hl.
  rewrite length_app in Hl. cbn [length] in Hl.
  destruct (Z.ltb_spec (len pre) 0), (Z.leb_spec (len items) (len pre)); try lia. cbn [orb].
  pose proof (slot_bound (len pre) ltac:(lia)).
  rewrite swrap_id by (done || (split; lia)). rewrite Hi in Hr. apply Forall_app in Hr as [Hp [Hr Hs]%Forall_cons].
  rewrite Hi, concat_app. cbn [concat]. rewrite <- !app_assoc.
  rewrite drop_app_length' by (pose proof (length_rows pre Hp); lia).
  rewrite take_app_length' by lia. f_equal.
  replace (Z.succ (len pre)) with (len (pre ++ [r])) by (rewrite length_app; cbn [length]; lia).
  replace (Z.pred (Z.of_nat (S (length suf)))) with (len suf) by lia.
  apply IH. by rewrite <- app_assoc.
Qed.

(** The states that the random numbers may lead to, each as likely as the others. *)
Definition add_choices (st : ReservoirSampleState) (row : Row) : list ReservoirSampleState :=
  if items_stored st <? reservoir_size st then [reservoir_add_drawn st row 0]
  else map (reservoir_add_drawn st row) (seqZ 0 (i64 (rows_seen st + 1))).

Fixpoint fill_choices (now : list ReservoirSampleState) (rows : list Row)
    : list ReservoirSampleState :=
  match rows with
  | [] => now
  | row :: rows => fill_choices (now ≫= λ st, add_choices st row) rows
  end.

Lemma add_choices_hold seen items st row :
  holds seen items st → len row = c → 0 ≤ seen < INT64_MAX →
  Forall2 (holds (seen + 1)) (step_choices k (seen + 1) items row) (add_choices st row).
Proof.
  intros Hh Hrow Hseen. pose proof Hh as (Hrs & _ & Hse & Hst & _). unfold step_choices, add_choices.
  rewrite Hrs, Hst, Hse. destruct (len items <? k).
  - apply Forall2_cons_2; [|done]. by apply add_holds.
  - rewrite swrap_id; [|done|unfold INT64_MAX in *; split; lia].
    apply Forall2_fmap_2, Forall_Forall2_diag, Forall_forall. intros j Hj%elem_of_seqZ.
    apply add_holds; [done..|lia|done].
Qed.

Lemma fill_choices_hold rows seen now sts :
  Forall2 (holds seen) now sts → Forall (λ r, len r = c) rows → 0 ≤ seen →
  seen + len rows ≤ INT64_MAX →
  Forall2 (holds (seen + len rows)) (reservoirs k seen now rows) (fill_choices sts rows).
Proof.
  revert seen now sts. induction rows as [|row rows IH]; intros seen now sts Hh Hr H0 Hseen;
    [by rewrite Z.add_0_r|]. apply Forall_cons in Hr as [Hrow Hr]. cbn [reservoirs fill_choices].
  cbn [length] in *. replace (seen + Z.of_nat (S (length rows))) with (seen + 1 + len rows) by lia.
  apply IH; [|done|lia..]. clear IH Hr. induction Hh as [|items st now sts Hi _ IH]; [done|].
  cbn. apply Forall2_app; [|done]. apply add_choices_hold; [done..|lia].
Qed.
End holds.

(** Every run of the loop over the rows ends in one of the states. *)
Lemma add_in_choices b fuel st row g st' g' :
  0 < i64 (rows_seen st + 1) →
  reservoir_sample_add b fuel st row g = Some (st', g') → st' ∈ add_choices st row.
Proof.
  intros Hn. unfold reservoir_sample_add, add_choices. destruct (items_stored st <? reservoir_size st).
  - intros [= <- <-]. by left.
  - intros ([j g1] & Hj & [= <- <-])%bind_Some. apply list_elem_of_fmap. exists j. split; [done|].
    apply elem_of_seqZ. unfold sampling_random_int in Hj. destruct (Z.leb_spec (i64 (rows_seen st + 1)) 0); [lia|].
    apply bind_Some in Hj as ([r g2] & _ & [= <- <-]). pose proof (Z.mod_pos_bound r _ Hn). lia.
Qed.

Lemma fill_in_choices b fuel k c rows seen items st sts g st' g' :
  0 < k → 0 ≤ c → k * c ≤ INT32_MAX → k ≤ INT32_MAX →
  holds k c seen items st → Forall (λ r, len r = c) rows → 0 ≤ seen →
  seen + len rows ≤ INT64_MAX → st ∈ sts →
  fill_reservoir b fuel st rows g = Some (st', g') → st' ∈ fill_choices sts rows.
Proof.
  intros Hk Hc Hkc Hki. revert seen items st sts g.
  induction rows as [|row rows IH]; intros seen items st sts g Hh Hr H0 Hseen Hin Hf.
  - cbn in Hf. by injection Hf as <- <-.
  - cbn [fill_reservoir fill_choices length] in *. apply Forall_cons in Hr as [Hrow Hr].
    apply bind_Some in Hf as ([st1 g1] & Hadd & Hf).
    apply add_in_choices in Hadd.
    2: { pose proof Hh as (_ & _ & -> & _). rewrite swrap_id; [lia|done|unfold INT64_MAX in *; split; lia]. }
    pose proof (add_choices_hold k c Hk Hc Hkc Hki _ _ _ _ Hh Hrow ltac:(lia)) as Hch.
    destruct (list_elem_of_lookup_1 _ _ Hadd) as [i Hi].
    destruct (Forall2_lookup_r _ _ _ _ _ Hch Hi) as (items1 & _ & Hh1).
    eapply IH; [exact Hh1|done|lia|lia| |exact Hf]. apply list_elem_of_bind. by exists st.
Qed.

Lemma create_holds size columns st :
  0 ≤ columns ≤ 1664 → reservoir_sample_create size columns = Ok st →
  0 < reservoir_size st ≤ 1000000 ∧ holds (reservoir_size st) columns 0 [] st.
Proof.
  intros Hc. unfold reservoir_sample_create, SAMPLING_DEFAULT_RESERVOIR_SIZE, SAMPLING_MAX_RESERVOIR_SIZE.
  set (k := if 1000000 <? _ then _ else _). assert (0 < k ≤ 1000000) as Hk.
  { subst k. destruct (Z.leb_spec size 0) as [Hs|Hs].
    - by cbn.
    - destruct (Z.ltb_spec 1000000 size); lia. }
  clearbody k. pose proof (Z.mul_le_mono_nonneg k 1000000 columns 1664 ltac:(lia) ltac:(lia) ltac:(lia) ltac:(lia)).
  rewrite swrap_id by (done || (split; lia)). destruct_if; [done|]. intros [= <-]. split; [done|].
  unfold holds. cbn. split_and!; try done; try lia. exists (replicate (Z.to_nat (k * columns)) (Some (DatumVal 0))).
  split; [done|]. rewrite length_replicate. lia.
Qed.

Lemma count_if_Forall2 {B C} (P : B → C → Prop) (f : B → bool) (g : C → bool) (l : list B) (m : list C) :
  Forall2 P l m → (∀ x y, P x y → f x = g y) → count_if f l = count_if g m.
Proof.
  intros H Hfg. induction H as [|x y l m Hxy _ IH]; [done|].
  by rewrite !count_if_cons, IH, (Hfg _ _ Hxy).
Qed.

(** C23: a reservoir that is made with room for k rows and filled with distinct rows is
    one of the states that the random numbers lead to, each as likely as the others; it
    then holds min(k, n) of the n rows, none twice, and each row is in as many of the
    states as any other: in the share min(k, n) / n of them, which is what Algorithm R
    promises. *)
Theorem reservoir_sample_uniform (boot_seed : Z) (fuel : nat) (size columns : Z)
    (rows : list (list (option Datum))) (st : ReservoirSampleState) :
  0 ≤ columns ≤ 1664 → reservoir_sample_create size columns = Ok st →
  Forall (λ row, len row = columns) rows → NoDup rows → len rows ≤ INT64_MAX →
  let outs := fill_choices [st] rows in
  let k := reservoir_size st in
  (∀ g st' g', fill_reservoir boot_seed fuel st rows g = Some (st', g') → st' ∈ outs) ∧
  Forall (λ st', NoDup (reservoir_rows st') ∧ reservoir_rows st' ⊆ rows ∧
                 len (reservoir_rows st') = Z.min k (len rows)) outs ∧
  ∀ row, row ∈ rows →
    len rows * count_if (λ st', bool_decide (row ∈ reservoir_rows st')) outs
    = Z.min k (len rows) * len outs.
Proof.
  intros Hc Hst Hr Hd Hn outs k. destruct (create_holds _ _ _ Hc Hst) as [Hk Hh]. fold k in Hk, Hh.
  assert (k * columns ≤ INT32_MAX) as Hkc by (unfold INT32_MAX; nia).
  assert (k ≤ INT32_MAX) as Hki by (unfold INT32_MAX; lia).
  assert (Forall2 (holds k columns 0) [[]] [st]) as H1 by (by apply Forall2_cons).
  pose proof (fill_choices_hold k columns ltac:(lia) ltac:(lia) Hkc Hki rows 0 [[]] [st]
                H1 Hr ltac:(lia) ltac:(lia)) as Hf.
  pose proof (reservoirs_uniform k ltac:(lia) [] [[]] rows (uniform_start k ltac:(lia)) Hd) as [Hok Hu].
  cbn [app length] in Hok, Hu. change (Z.of_nat 0) with 0 in Hok, Hu.
  assert (∀ items st', holds k columns (0 + len rows) items st' → reservoir_rows st' = items) as Hrows.
  { intros items st'. by apply rows_of; (lia || done). }
  split; [|split].
  - intros g st' g' Hfill. eapply (fill_in_choices boot_seed fuel k columns); try done; try lia. by left.
  - apply Forall_forall. intros st' Hin. apply list_elem_of_lookup in Hin as [i Hi].
    destruct (Forall2_lookup_r _ _ _ _ _ Hf Hi) as (items & Hit & Hhi).
    rewrite (Hrows _ _ Hhi). exact (Forall_lookup_1 _ _ _ _ Hok Hit).
  - intros row Hin. specialize (Hu row Hin). rewrite (Forall2_length _ _ _ Hf) in Hu.
    etransitivity; [|exact Hu]. f_equal. symmetry. eapply count_if_Forall2; [exact Hf|].
    intros items st' Hhi. cbn. by rewrite (Hrows _ _ Hhi).
Qed.

Definition two_rows : ReservoirSampleState :=
  {| reservoir_size := 2; num_columns := 1; rows_seen := 0;
     cells := replicate 2 (Some (DatumVal 0)); items_stored := 0 |}.

Lemma reservoir_sample_uniform_witness :
  reservoir_sample_create 2 1 = Ok two_rows ∧
  let rows := [[Some (DatumVal 1)]; [Some (DatumVal 2)]; [None]; [Some (DatumVal 4)]] in
  4 * count_if (λ st', bool_decide ([None] ∈ reservoir_rows st')) (fill_choices [two_rows] rows)
  = 2 * len (fill_choices [two_rows] rows).
Proof.
  split; [reflexivity|].
  apply (reservoir_sample_uniform 0 1 2 1
           [[Some (DatumVal 1)]; [Some (DatumVal 2)]; [None]; [Some (DatumVal 4)]] two_rows).
  - lia.
  - reflexivity.
  - repeat constructor.
  - apply (bool_decide_unpack _). vm_compute. exact I.
  - unfold INT64_MAX. cbn. lia.
  - apply (bool_decide_unpack _). vm_compute. exact I.
Defined.

(** The combine function draws with replacement: the same two samples give 13 and 22
    twice each, and leave out six of the eight values that were sampled. *)
Theorem combine_repeats_values :
  fst <$> reservoir_sample_combine 0 10
            (Some {| agg_size := 4; total_count := 4; values := [10; 11; 12; 13] |})
            (Some {| agg_size := 4; total_count := 4; values := [20; 21; 22; 23] |})
            (sampling_set_seed 42)
  = Some (Some {| agg_size := 4; total_count := 8; values := [22; 13; 13; 22] |}).
Proof. vm_compute. reflexivity. Qed.
