(* ===== verification/Sharding.v ===== *)
(** * Sharding: hash ranges, placement and routing

    Models [src/sharding/distribution.c], the shard rows of [src/core/catalog.c],
    the physical shards and routing triggers of [src/sharding/physical_sharding.c]
    and the shard pruning of [src/planner/distributed_planner.c].  The state is
    the shard and node tables of the catalog and, for the rows, the parent table
    and its shard tables.  SQL statements are modelled by what they do to these
    tables; names, quoting and views are not. *)
From stdpp Require Import sets.
From S2P Require Import Prelude Postgres Crc.

Local Open Scope Z_scope.

(** ** Hashing *)

Section hash.
Context `{Varlena} (address : list Z → Z).

(** The bytes the checksum runs over.  A type that is not listed is hashed by its
    datum word, which is an address for pass-by-reference types. *)
Definition hash_input (value : Datum) (type_oid : Z) : list Z :=
  let word := match value with DatumVal z => z | DatumRef bs => address bs end in
  let object := match value with DatumRef bs => bs | DatumVal _ => [] end in
  if decide (type_oid = INT2OID) then le_enc 2 word
  else if decide (type_oid = INT4OID) then le_enc 4 word
  else if decide (type_oid = INT8OID) then le_enc 8 word
  else if decide (type_oid = TEXTOID ∨ type_oid = VARCHAROID)
  then take (Z.to_nat (VARSIZE_ANY_EXHDR object)) (VARDATA_ANY object)
  else if decide (type_oid = UUIDOID) then take 16 object
  else le_enc 8 word.

Definition orochi_hash_datum (value : Datum) (type_oid : Z) : Z :=
  i32 (orochi_crc32_hash (hash_input value type_oid)).
End hash.

Definition orochi_get_shard_index (hash_value shard_count : Z) : Z :=
  if shard_count <=? 0 then 0 else i32 (u32 hash_value mod u32 shard_count).

(** ** The catalog *)

(** [node_id] is nullable. *)
Record OrochiShardInfo := {
  shard_id : Z; table_oid : Z; shard_index : Z; hash_min : Z; hash_max : Z;
  node_id : option Z; size_bytes : Z }.

Inductive OrochiNodeRole := OROCHI_NODE_COORDINATOR | OROCHI_NODE_WORKER | OROCHI_NODE_REPLICA.

#[export] Instance node_role_eq_dec : EqDecision OrochiNodeRole.
Proof. solve_decision. Defined.

Record OrochiNodeInfo := { n_id : Z; role : OrochiNodeRole; is_active : bool; shard_count : Z }.

Record ShardMove := { mv_shard : Z; mv_source : Z; mv_target : Z; mv_status : Z; mv_copied : Z }.

Record ShardCatalog := {
  shards : list OrochiShardInfo; next_shard_id : Z; nodes : list OrochiNodeInfo;
  moves : list ShardMove }.

Definition with_shards (c : ShardCatalog) (l : list OrochiShardInfo) (next : Z) : ShardCatalog :=
  {| shards := l; next_shard_id := next; nodes := nodes c; moves := moves c |}.

(** A null [node_id] is read as zero: the null flag tested is that of the column
    fetched before it. *)
Definition read_node_id (s : OrochiShardInfo) : Z := default 0 (node_id s).

Definition range_min (hash_range i : Z) : Z :=
  if i =? 0 then INT32_MIN else i32 (INT32_MIN + i32 (i * hash_range)).
Definition range_max (hash_range n i : Z) : Z :=
  if i =? n - 1 then INT32_MAX else i32 (i32 (INT32_MIN + i32 ((i + 1) * hash_range)) - 1).

(** The rows [orochi_catalog_create_shards] inserts. *)
Definition new_shard (table id hash_range n i : Z) : OrochiShardInfo :=
  {| shard_id := id + i; table_oid := table; shard_index := i;
     hash_min := range_min hash_range i; hash_max := range_max hash_range n i;
     node_id := None; size_bytes := 0 |}.

Definition orochi_catalog_create_shards (c : ShardCatalog) (table n : Z) : outcome ShardCatalog :=
  if n =? 0 then Undef else
  let hash_range := Z.quot INT32_MAX n in
  Ok (with_shards c (shards c ++ map (new_shard table (next_shard_id c) hash_range n) (seqZ 0 n))
        (next_shard_id c + Z.max 0 n)).

Definition orochi_catalog_get_shard (c : ShardCatalog) (id : Z) : option OrochiShardInfo :=
  head (filter (λ s, shard_id s = id) (shards c)).

(** [ORDER BY shard_index]; rows are created in that order. *)
Definition orochi_catalog_get_table_shards (c : ShardCatalog) (table : Z) : list OrochiShardInfo :=
  filter (λ s, table_oid s = table) (shards c).

Definition in_range (h : Z) (s : OrochiShardInfo) : Prop := hash_min s ≤ h ∧ h ≤ hash_max s.

#[export] Instance in_range_dec h s : Decision (in_range h s).
Proof. unfold in_range. apply _. Defined.

Definition orochi_catalog_get_shard_for_hash (c : ShardCatalog) (table h : Z)
    : option OrochiShardInfo :=
  head (filter (λ s, table_oid s = table ∧ in_range h s) (shards c)).

Definition orochi_get_shards_in_range (c : ShardCatalog) (table min_hash max_hash : Z)
    : list OrochiShardInfo :=
  filter (λ s, min_hash ≤ hash_max s ∧ hash_min s ≤ max_hash)
    (orochi_catalog_get_table_shards c table).

(** [UPDATE orochi_shards SET ... WHERE shard_id = id]. *)
Definition update_shard (c : ShardCatalog) (id : Z) (f : OrochiShardInfo → OrochiShardInfo)
    : ShardCatalog :=
  with_shards c (map (λ s, if shard_id s =? id then f s else s) (shards c)) (next_shard_id c).

Definition set_range (lo hi : Z) (s : OrochiShardInfo) : OrochiShardInfo :=
  {| shard_id := shard_id s; table_oid := table_oid s; shard_index := shard_index s;
     hash_min := lo; hash_max := hi; node_id := node_id s; size_bytes := size_bytes s |}.

Definition set_node (n : Z) (s : OrochiShardInfo) : OrochiShardInfo :=
  {| shard_id := shard_id s; table_oid := table_oid s; shard_index := shard_index s;
     hash_min := hash_min s; hash_max := hash_max s; node_id := Some n;
     size_bytes := size_bytes s |}.

Definition orochi_catalog_update_shard_range (c : ShardCatalog) (id lo hi : Z) : ShardCatalog :=
  update_shard c id (set_range lo hi).

Definition orochi_catalog_update_shard_placement (c : ShardCatalog) (id n : Z) : ShardCatalog :=
  update_shard c id (set_node n).

Definition orochi_catalog_delete_shard (c : ShardCatalog) (id : Z) : ShardCatalog :=
  with_shards c (filter (λ s, shard_id s ≠ id) (shards c)) (next_shard_id c).

(** One row for [orochi_shards], under the constraints of the schema: [shard_index] is NOT NULL,
    and unique in the table. *)
Definition insert_shard (c : ShardCatalog) (table : Z) (index : option Z) (lo hi node : Z)
    : outcome (ShardCatalog * Z) :=
  match index with
  | None => Err "null value in column shard_index"
  | Some i =>
      if decide (Exists (λ s, table_oid s = table ∧ shard_index s = i) (shards c))
      then Err "duplicate key value violates unique constraint" else
      Ok (with_shards c
            (shards c ++ [{| shard_id := next_shard_id c; table_oid := table; shard_index := i;
               hash_min := lo; hash_max := hi; node_id := Some node; size_bytes := 0 |}])
            (next_shard_id c + 1), next_shard_id c)
  end.

(** The INSERT names no [shard_index]. *)
Definition orochi_catalog_create_shard (c : ShardCatalog) (table lo hi node : Z)
    : outcome (ShardCatalog * Z) :=
  insert_shard c table None lo hi node.

(** ** Placement *)

Definition orochi_get_shard_node (c : ShardCatalog) (id : Z) : option OrochiNodeInfo :=
  s ← orochi_catalog_get_shard c id;
  if read_node_id s <? 0 then None
  else head (filter (λ n, n_id n = read_node_id s) (nodes c)).

Definition SHARD_MOVE_PENDING : Z := 0.
Definition SHARD_MOVE_COPYING : Z := 1.
Definition SHARD_MOVE_COMPLETED : Z := 2.
Definition SHARD_MOVE_FAILED : Z := 3.

Definition create_shard_move_record (c : ShardCatalog) (shard source target : Z)
    : ShardCatalog * nat :=
  ({| shards := shards c; next_shard_id := next_shard_id c; nodes := nodes c;
      moves := moves c ++ [{| mv_shard := shard; mv_source := source; mv_target := target;
                              mv_status := SHARD_MOVE_PENDING; mv_copied := 0 |}] |},
   length (moves c)).

Definition update_shard_move_progress (c : ShardCatalog) (move : nat) (status copied : Z)
    : ShardCatalog :=
  {| shards := shards c; next_shard_id := next_shard_id c; nodes := nodes c;
     moves := alter (λ m, {| mv_shard := mv_shard m; mv_source := mv_source m;
       mv_target := mv_target m; mv_status := status; mv_copied := copied |}) move (moves c) |}.

Definition orochi_move_shard (c : ShardCatalog) (id target : Z) : outcome ShardCatalog :=
  match orochi_catalog_get_shard c id with
  | None => Err "shard does not exist"
  | Some s =>
      let source := read_node_id s in
      if source =? target then Ok c else
      let '(c, move) := create_shard_move_record c id source target in
      let c := update_shard_move_progress c move SHARD_MOVE_COPYING 0 in
      let c := orochi_catalog_update_shard_placement c id target in
      Ok (update_shard_move_progress c move SHARD_MOVE_COMPLETED (size_bytes s))
  end.

Definition orochi_move_shard_with_data (c : ShardCatalog) (id target : Z) : outcome ShardCatalog :=
  match orochi_catalog_get_shard c id with
  | None => Err "shard does not exist"
  | Some s =>
      if read_node_id s =? target then Ok c
      else Ok (orochi_catalog_update_shard_placement c id target)
  end.

Definition orochi_catalog_get_active_nodes (c : ShardCatalog) : list OrochiNodeInfo :=
  filter (λ n, is_active n = true) (nodes c).

(** The loop of [orochi_select_node_for_shard]. *)
Definition select_step (best : Z * Z) (n : OrochiNodeInfo) : Z * Z :=
  if bool_decide (role n = OROCHI_NODE_WORKER) && (shard_count n <? best.2)
  then (n_id n, shard_count n) else best.

Definition orochi_select_node_for_shard (c : ShardCatalog) : Z :=
  (fold_left select_step (orochi_catalog_get_active_nodes c) (-1, INT64_MAX)).1.

Definition is_worker (n : OrochiNodeInfo) : Prop :=
  role n = OROCHI_NODE_WORKER ∧ is_active n = true.

#[export] Instance is_worker_dec n : Decision (is_worker n).
Proof. unfold is_worker. apply _. Defined.

Definition workers (c : ShardCatalog) : list OrochiNodeInfo :=
  filter is_worker (orochi_catalog_get_active_nodes c).

Record ShardBalanceStats := {
  total_nodes : Z; total_shards : Z; min_shards : Z; max_shards : Z; needs_rebalancing : bool }.

(** The integer fields.  [imbalance_ratio > 1.2] is [5 * max > 6 * min] for counts
    a double represents; with an idle worker the ratio is 999 or 1. *)
Definition orochi_get_shard_balance_stats (c : ShardCatalog) : ShardBalanceStats :=
  let counts := map shard_count (workers c) in
  match counts with
  | [] => {| total_nodes := 0; total_shards := 0; min_shards := 0; max_shards := 0;
             needs_rebalancing := false |}
  | _ =>
      let lo := fold_left Z.min counts INT64_MAX in
      let hi := fold_left Z.max counts 0 in
      {| total_nodes := len counts; total_shards := fold_left Z.add counts 0;
         min_shards := (if lo =? INT64_MAX then 0 else lo); max_shards := hi;
         needs_rebalancing := if 0 <? lo then 6 * lo <? 5 * hi else 0 <? hi |}
  end.

(** The loop of [orochi_rebalance_table_shards] over the shards read at the start;
    [idx] is [current_node_idx]. *)
Fixpoint rebalance_loop (c : ShardCatalog) (targets : list OrochiNodeInfo)
    (l : list OrochiShardInfo) (idx : Z) : outcome ShardCatalog :=
  match l with
  | [] => Ok c
  | s :: l =>
      let target := match targets !! Z.to_nat idx with Some n => n_id n | None => -1 end in
      c ← (if (0 <=? target) && negb (read_node_id s =? target)
           then orochi_move_shard_with_data c (shard_id s) target else Ok c);
      rebalance_loop c targets l ((idx + 1) mod len targets)
  end.

Definition orochi_rebalance_table_shards (c : ShardCatalog) (is_distributed : bool) (table : Z)
    : outcome ShardCatalog :=
  if negb is_distributed then Err "table is not distributed" else
  if len (workers c) =? 0 then Ok c
  else rebalance_loop c (workers c) (orochi_catalog_get_table_shards c table) 0.

(** ** Split and merge *)

Definition split_point (lo hi : Z) : Z := i32 (lo + Z.quot (i32 (hi - lo)) 2).

Definition orochi_split_shard_impl (c : ShardCatalog) (id : Z) : outcome ShardCatalog :=
  match orochi_catalog_get_shard c id with
  | None => Err "shard does not exist"
  | Some s =>
      let mid := split_point (hash_min s) (hash_max s) in
      let c := orochi_catalog_update_shard_range c id (hash_min s) mid in
      '(c, _) ← orochi_catalog_create_shard c (table_oid s) (i32 (mid + 1))
                  (hash_max s) (read_node_id s);
      Ok c
  end.

Definition orochi_merge_shards_impl (c : ShardCatalog) (id1 id2 : Z) : outcome ShardCatalog :=
  match orochi_catalog_get_shard c id1, orochi_catalog_get_shard c id2 with
  | Some s1, Some s2 =>
      if negb (table_oid s1 =? table_oid s2) then Err "shards belong to different tables" else
      let lo := if hash_min s1 <? hash_min s2 then hash_min s1 else hash_min s2 in
      let hi := if hash_max s2 <? hash_max s1 then hash_max s1 else hash_max s2 in
      Ok (orochi_catalog_delete_shard (orochi_catalog_update_shard_range c id1 lo hi) id2)
  | _, _ => Err "one or both shards do not exist"
  end.

(** ** Physical shards *)

(** A row: the distribution column, possibly null, and the rest. *)
Record Row := { key : option Datum; payload : Z }.

#[export] Instance row_eq_dec : EqDecision Row.
Proof. solve_decision. Defined.

(** The parent table and its shard tables, [shard_count] of them. *)
Record Tables := { parent : list Row; shard_tables : list (list Row) }.

Inductive Qual : Type :=
| QVar (varno varattno : Z)
| QConst (constisnull : bool) (constvalue : Datum) (consttype : Z)
| QOp (opname : string) (args : list Qual)
| QAnd (args : list Qual)
| QOther.

(** The table that pruning looks at: the names of its columns by their number
    ([SearchSysCacheAttNum]), and the column it is distributed by. *)
Record KeyColumn := { attname : Z → option string; dist_column : string }.

Section physical.
Context `{Varlena} (address : list Z → Z) (key_type : Z).

(** [orochi.hash_value], strict in its argument. *)
Definition hash_value (r : Row) : option Z :=
  v ← key r; Some (orochi_hash_datum address v key_type).

Definition orochi_compute_shard_for_value (v : Datum) (type_oid n : Z) : Z :=
  orochi_get_shard_index (orochi_hash_datum address v type_oid) n.

Definition orochi_route_to_shard (c : ShardCatalog) (table : Z) (value : Datum) (type_oid : Z)
    : option OrochiShardInfo :=
  orochi_catalog_get_shard_for_hash c table (orochi_hash_datum address value type_oid).

(** The shard table a trigger names; a null index names no table. *)
Definition route (n : Z) (r : Row) : outcome nat :=
  match hash_value r with
  | None => Err "relation does not exist"
  | Some h => Ok (Z.to_nat (orochi_get_shard_index h n))
  end.

Definition insert_into (i : nat) (r : Row) (t : Tables) : outcome Tables :=
  match shard_tables t !! i with
  | None => Err "relation does not exist"
  | Some l => Ok {| parent := parent t; shard_tables := <[i := l ++ [r]]> (shard_tables t) |}
  end.

(** [DELETE ... WHERE ctid IN (SELECT ctid ... WHERE key = $1 LIMIT 1)]. *)
Fixpoint remove_first (k : option Datum) (l : list Row) : list Row :=
  match l with
  | [] => []
  | r :: l => if decide (key r = k ∧ k ≠ None) then l else r :: remove_first k l
  end.

Definition delete_one (i : nat) (k : option Datum) (t : Tables) : outcome Tables :=
  match shard_tables t !! i with
  | None => Err "relation does not exist"
  | Some l => Ok {| parent := parent t; shard_tables := <[i := remove_first k l]> (shard_tables t) |}
  end.

(** [DELETE ... WHERE key = $1]. *)
Definition delete_all (i : nat) (k : option Datum) (t : Tables) : outcome Tables :=
  match shard_tables t !! i with
  | None => Err "relation does not exist"
  | Some l => Ok {| parent := parent t;
                    shard_tables := <[i := filter (λ r, ¬ (key r = k ∧ k ≠ None)) l]>
                                      (shard_tables t) |}
  end.

(** INSERT into the parent: the BEFORE trigger stores the row in a shard and
    suppresses the insert. *)
Definition route_insert (n : Z) (r : Row) (t : Tables) : outcome Tables :=
  i ← route n r; insert_into i r t.

(** DELETE of one row of the parent: the BEFORE trigger deletes from a shard and
    suppresses the delete. *)
Definition route_delete (n : Z) (r : Row) (t : Tables) : outcome Tables :=
  i ← route n r; delete_one i (key r) t.

Definition view_insert (n : Z) (r : Row) (t : Tables) : outcome Tables := route_insert n r t.

Definition view_update (n : Z) (old new : Row) (t : Tables) : outcome Tables :=
  i ← route n old;
  j ← route n new;
  t ← delete_all i (key old) t;
  insert_into j new t.

Definition view_delete (n : Z) (r : Row) (t : Tables) : outcome Tables :=
  i ← route n r; delete_one i (key r) t.

(** [SELECT * FROM parent_all_shards]. *)
Definition all_shards (t : Tables) : list Row := mjoin (shard_tables t).

(** [WHERE orochi.hash_value(key) >= lo AND orochi.hash_value(key) <= hi]. *)
Definition hash_between (lo hi : Z) (r : Row) : bool :=
  match hash_value r with Some h => (lo <=? h) && (h <=? hi) | None => false end.

Definition insert_range (hash_range n : Z) (t : Tables) (i : Z) : Tables :=
  let lo := range_min hash_range i in
  let hi := range_max hash_range n i in
  {| parent := parent t;
     shard_tables := alter (λ l, l ++ filter (hash_between lo hi) (parent t)) (Z.to_nat i)
                       (shard_tables t) |}.

Fixpoint fire_deletes (n : Z) (l : list Row) (t : Tables) : outcome Tables :=
  match l with
  | [] => Ok t
  | r :: l => t ← route_delete n r t; fire_deletes n l t
  end.

(** The final [DELETE FROM parent] fires the row trigger when it is installed. *)
Definition orochi_redistribute_data (triggers : bool) (n : Z) (t : Tables) : outcome Tables :=
  if n =? 0 then Ok {| parent := []; shard_tables := shard_tables t |} else
  let hash_range := Z.quot INT32_MAX n in
  let t := fold_left (insert_range hash_range n) (seqZ 0 n) t in
  if triggers then fire_deletes n (parent t) t
  else Ok {| parent := []; shard_tables := shard_tables t |}.

(** The steps of [orochi_create_distributed_table_sql] on the rows of the table:
    empty shard tables, the triggers, then the redistribution. *)
Definition orochi_create_distributed_table (n : Z) (rows : list Row) : outcome Tables :=
  orochi_redistribute_data (0 <? n) n
    {| parent := rows; shard_tables := replicate (Z.to_nat n) [] |}.

(** ** Pruning *)

(** The table of the variable is not looked at. *)
Definition var_is_distribution_column (kc : KeyColumn) (varattno : Z) : bool :=
  match attname kc varattno with Some name => bool_decide (name = dist_column kc) | None => false end.

(** The walk of [analyze_qual_node]: the last equality found decides, and a
    conjunction stops at the first conjunct after which there is one. *)
Fixpoint analyze_qual_node (kc : KeyColumn) (q : Qual) (restriction : option (Datum * Z))
    : option (Datum * Z) :=
  match q with
  | QOp opname [QVar _ a; QConst isnull v type] | QOp opname [QConst isnull v type; QVar _ a] =>
      if bool_decide (opname = "="%string) && var_is_distribution_column kc a && negb isnull
      then Some (v, type) else restriction
  | QAnd args =>
      (fix walk (args : list Qual) (restriction : option (Datum * Z)) :=
         match args with
         | [] => restriction
         | a :: args =>
             match analyze_qual_node kc a restriction with
             | Some r => Some r
             | None => walk args None
             end
         end) args restriction
  | _ => restriction
  end.

Definition orochi_prune_shards (c : ShardCatalog) (table n : Z) (restriction : option (Datum * Z))
    : list OrochiShardInfo :=
  let all := orochi_catalog_get_table_shards c table in
  match restriction with
  | None => all
  | Some (v, type) =>
      if type =? 0 then all else
      let target := orochi_compute_shard_for_value v type n in
      if target <? 0 then all else
      match filter (λ s, shard_index s = target) all with
      | s :: _ => [s]
      | [] => all
      end
  end.

(** The shard tables a query reads; every shard has its table. *)
Definition orochi_get_target_shards_for_query (kc : KeyColumn) (c : ShardCatalog) (table n : Z)
    (quals : option Qual) : list Z :=
  let restriction := match quals with Some q => analyze_qual_node kc q None | None => None end in
  match orochi_prune_shards c table n restriction with
  | [] => seqZ 0 n
  | l => map shard_index l
  end.

(** What the query sees of the rows. *)
Definition target_rows (kc : KeyColumn) (c : ShardCatalog) (table n : Z) (quals : option Qual)
    (t : Tables) : list Row :=
  mjoin (map (λ i, default [] (shard_tables t !! Z.to_nat i))
           (orochi_get_target_shards_for_query kc c table n quals)).
End physical.

(** Whether a condition holds of the values of the variables, as far as its equalities of a
    variable and a constant say. *)
Fixpoint satisfies (value : Z → Z → option Datum) (q : Qual) : Prop :=
  match q with
  | QOp opname [QVar n a; QConst isnull v _] | QOp opname [QConst isnull v _; QVar n a] =>
      opname = "="%string → isnull = false ∧ value n a = Some v
  | QAnd args => (fix all (args : list Qual) : Prop :=
                    match args with [] => True | a :: args => satisfies value a ∧ all args end) args
  | _ => True
  end.

(** The variables compared with a constant that have the number of the distribution column are
    those of the table itself, number [rti] of the query, and the constants have its type. *)
Fixpoint own_constants (kc : KeyColumn) (rti type : Z) (q : Qual) : Prop :=
  match q with
  | QOp _ [QVar n a; QConst _ _ t] | QOp _ [QConst _ _ t; QVar n a] =>
      var_is_distribution_column kc a = true → n = rti ∧ t = type
  | QAnd args => (fix all (args : list Qual) : Prop :=
                    match args with [] => True | a :: args => own_constants kc rti type a ∧ all args end) args
  | _ => True
  end.

(** The datums that are hashed by what they say and not by where they are. *)
Definition hashed_by_content (type : Z) (v : Datum) : Prop :=
  match v with DatumVal _ => True | DatumRef _ => type ∈ [TEXTOID; VARCHAROID; UUIDOID] end.

(** ** Ranges *)

Section ranges.
Context (n : Z) (Hn : 1 ≤ n < 2 ^ 31).

Definition share : Z := Z.quot INT32_MAX n.

(** The index of the shard that owns a hash value. *)
Definition owner (h : Z) : Z := Z.min (n - 1) ((h + 2 ^ 31) / share).

Lemma share_bounds : 1 ≤ share ∧ n * share ≤ INT32_MAX < n * share + n.
Proof.
  unfold share, INT32_MAX. rewrite Z.quot_div_nonneg by lia.
  pose proof (Z.div_mod (2 ^ 31 - 1) n ltac:(lia)). pose proof (Z.mod_pos_bound (2 ^ 31 - 1) n ltac:(lia)).
  split; [|lia]. apply Z.div_le_lower_bound; lia.
Qed.

Lemma range_min_eq i : 0 ≤ i < n → range_min share i = - 2 ^ 31 + i * share.
Proof.
  intros Hi. pose proof share_bounds as [??]. unfold range_min, INT32_MIN, INT32_MAX in *.
  destruct (Z.eqb_spec i 0); [lia|].
  assert (i * share ≤ n * share) by nia.
  rewrite (swrap_id 32 (i * share)), swrap_id by (unfold in_i; lia). lia.
Qed.

Lemma range_max_eq i : 0 ≤ i < n - 1 → range_max share n i = - 2 ^ 31 + (i + 1) * share - 1.
Proof.
  intros Hi. pose proof share_bounds as [??]. unfold range_max, INT32_MIN, INT32_MAX in *.
  rewrite (proj2 (Z.eqb_neq i (n - 1))) by lia.
  assert ((i + 1) * share ≤ n * share) by nia. assert (1 ≤ (i + 1) * share) by nia.
  rewrite (swrap_id 32 ((i + 1) * share)), swrap_id, swrap_id; unfold in_i; try lia.
  rewrite swrap_id; unfold in_i; lia.
Qed.

Lemma range_max_last : range_max share n (n - 1) = INT32_MAX.
Proof. unfold range_max. by rewrite Z.eqb_refl. Qed.

Lemma owner_range h : is_i32 h → 0 ≤ owner h < n.
Proof.
  intros [? _]. pose proof share_bounds as [??]. unfold owner.
  pose proof (Z.div_pos (h + 2 ^ 31) share ltac:(lia) ltac:(lia)). lia.
Qed.

Lemma range_owner i h :
  0 ≤ i < n → is_i32 h → range_min share i ≤ h ∧ h ≤ range_max share n i ↔ i = owner h.
Proof.
  intros Hi [Hh1 Hh2]. pose proof share_bounds as [Hs _]. unfold owner.
  set (q := (h + 2 ^ 31) / share).
  assert (Hq : share * q ≤ h + 2 ^ 31 < share * q + share).
  { pose proof (Z.div_mod (h + 2 ^ 31) share ltac:(lia)).
    pose proof (Z.mod_pos_bound (h + 2 ^ 31) share ltac:(lia)). subst q. lia. }
  rewrite range_min_eq by done. destruct (decide (i = n - 1)) as [->|].
  - rewrite range_max_last. unfold INT32_MAX. split; intros.
    + assert (n - 1 ≤ q); [|lia]. destruct (Z.lt_ge_cases q (n - 1)); [nia|done].
    + assert (n - 1 ≤ q) by lia. nia.
  - rewrite range_max_eq by lia. split; intros.
    + assert (q = i); [|lia].
      destruct (Z.lt_trichotomy q i) as [?|[?|?]]; [nia|done|nia].
    + assert (q = i) by lia. nia.
Qed.
End ranges.

Lemma new_shards_table c table n :
  (∀ s, s ∈ shards c → table_oid s ≠ table) →
  filter (λ s, table_oid s = table)
    (shards c ++ map (new_shard table (next_shard_id c) (share n) n) (seqZ 0 n)) =
  map (new_shard table (next_shard_id c) (share n) n) (seqZ 0 n).
Proof.
  intros Hno. rewrite filter_app.
  replace (filter _ (shards c)) with (@nil OrochiShardInfo).
  - cbn [app]. induction (seqZ 0 n) as [|i l IH]; [done|]. cbn [map].
    rewrite filter_cons_True by done. by rewrite IH.
  - symmetry. by apply filter_none.
Qed.

Lemma filter_map_seqZ {A} (f : Z → A) (P : A → Prop) `{∀ x, Decision (P x)} n k :
  0 ≤ k < n → (∀ i, 0 ≤ i < n → P (f i) ↔ i = k) → filter P (map f (seqZ 0 n)) = [f k].
Proof.
  intros Hk HP.
  assert (E : filter P (map f (seqZ 0 n)) = map f (filter (λ i, P (f i)) (seqZ 0 n))).
  { induction (seqZ 0 n) as [|i l IH]; [done|]. cbn [map]. rewrite !filter_cons.
    destruct (decide (P (f i))); cbn [map]; by rewrite IH. }
  rewrite E, (filter_unique _ _ k); [done|apply NoDup_seqZ|apply elem_of_seqZ; lia|].
  intros i Hi%elem_of_seqZ. apply HP. lia.
Qed.

(** C14: the hash ranges of a new table split the 32-bit hash values among its
    shards: every value lies in the range of exactly one shard, to which the
    lookup by hash goes. *)
Theorem shard_ranges_partition (c c' : ShardCatalog) (table n h : Z) :
  1 ≤ n < 2 ^ 31 → is_i32 h → (∀ s, s ∈ shards c → table_oid s ≠ table) →
  orochi_catalog_create_shards c table n = Ok c' →
  ∃ s, filter (in_range h) (orochi_catalog_get_table_shards c' table) = [s] ∧
    orochi_catalog_get_shard_for_hash c' table h = Some s ∧
    0 ≤ shard_index s < n.
Proof.
  intros Hn Hh Hno. unfold orochi_catalog_create_shards.
  rewrite (proj2 (Z.eqb_neq n 0)) by lia. fold (share n). intros [= <-].
  unfold orochi_catalog_get_table_shards, orochi_catalog_get_shard_for_hash. cbn [shards with_shards].
  rewrite new_shards_table by done.
  pose proof (range_owner n Hn) as Hown.
  assert (E : filter (in_range h) (map (new_shard table (next_shard_id c) (share n) n) (seqZ 0 n)) =
    [new_shard table (next_shard_id c) (share n) n (owner n h)]).
  { apply filter_map_seqZ; [by apply owner_range|]. intros i Hi. by apply Hown. }
  exists (new_shard table (next_shard_id c) (share n) n (owner n h)).
  split; [exact E|]. split; [|by apply owner_range].
  rewrite (filter_and (λ s, table_oid s = table) (in_range h)), new_shards_table by done.
  by rewrite E.
Qed.

(** ** Split and merge *)

Lemma split_point_last n :
  2 ≤ n < 2 ^ 31 →
  let lo := range_min (share n) (n - 1) in
  is_i32 lo ∧ split_point lo INT32_MAX < lo - 2 ∧ - 2 ^ 31 ≤ split_point lo INT32_MAX.
Proof.
  intros Hn lo. subst lo. rewrite (range_min_eq n) by lia.
  pose proof (share_bounds n ltac:(lia)) as [Hs Hb]. unfold INT32_MAX in *.
  set (w := (n - 1) * share n). assert (Hw : 7 ≤ w ≤ 2 ^ 31 - 2).
  { subst w. split; [|nia]. destruct (Z.le_gt_cases 7 (share n)); [nia|]. nia. }
  split; [unfold in_i; lia|]. unfold split_point.
  replace (i32 (2 ^ 31 - 1 - (- 2 ^ 31 + w))) with (-1 - w).
  2: { unfold swrap. replace (2 ^ 31 - 1 - (- 2 ^ 31 + w) + 2 ^ (32 - 1)) with
         (2 ^ 31 - 1 - w + 1 * 2 ^ 32) by lia. rewrite Z.mod_add, Z.mod_small; lia. }
  replace (-1 - w) with (- (1 + w)) by lia. rewrite Z.quot_opp_l, Z.quot_div_nonneg by lia.
  assert (4 ≤ (1 + w) / 2 ≤ w) by (Z.div_mod_to_equations; lia).
  rewrite swrap_id by (unfold in_i; lia). lia.
Qed.

Lemma get_shard_elem c id s :
  orochi_catalog_get_shard c id = Some s → s ∈ shards c ∧ shard_id s = id.
Proof.
  unfold orochi_catalog_get_shard. intros Hs. apply head_Some_elem_of in Hs.
  apply list_elem_of_filter in Hs as [? ?]. done.
Qed.

Lemma get_shard_unique c s :
  NoDup (map shard_id (shards c)) → s ∈ shards c → orochi_catalog_get_shard c (shard_id s) = Some s.
Proof.
  intros Hnd Hs. apply head_filter_unique; [done|done|]. intros y Hy Hid.
  apply list_elem_of_lookup in Hs as [i Hi], Hy as [j Hj].
  assert (j = i) as ->; [|congruence].
  eapply NoDup_lookup; [exact Hnd| |]; rewrite list_lookup_fmap; [by rewrite Hj|].
  rewrite Hi. cbn. by f_equal.
Qed.

(** The shards that own a hash value. *)
Definition owners (c : ShardCatalog) (h : Z) : list OrochiShardInfo := filter (in_range h) (shards c).

(** ** Shards in the middle of the table *)

Lemma shard_id_other l1 s l2 x :
  NoDup (map shard_id (l1 ++ s :: l2)) → x ∈ l1 ++ l2 → shard_id x ≠ shard_id s.
Proof.
  rewrite map_app. cbn [map]. intros (_ & Hd & [Hn2 _]%NoDup_cons)%NoDup_app Hx E.
  apply elem_of_app in Hx as [Hx|Hx].
  - apply (Hd (shard_id x)); [by apply list_elem_of_fmap_2|]. rewrite E. by left.
  - apply Hn2. rewrite <- E. by apply list_elem_of_fmap_2.
Qed.

Lemma update_others (g : OrochiShardInfo → OrochiShardInfo) id l :
  (∀ x, x ∈ l → shard_id x ≠ id) → map (λ x, if shard_id x =? id then g x else x) l = l.
Proof.
  induction l as [|x l IH]; intros Hx; [done|]. cbn [map].
  rewrite (proj2 (Z.eqb_neq _ _)) by (apply Hx; by left). f_equal. apply IH. intros y ?. apply Hx. by right.
Qed.

Lemma update_middle (g : OrochiShardInfo → OrochiShardInfo) l1 s l2 :
  NoDup (map shard_id (l1 ++ s :: l2)) →
  map (λ x, if shard_id x =? shard_id s then g x else x) (l1 ++ s :: l2) = l1 ++ g s :: l2.
Proof.
  intros Hnd. rewrite map_app. cbn [map]. rewrite Z.eqb_refl, !update_others; [done|..].
  all: intros x Hx; apply (shard_id_other l1 s l2); set_solver.
Qed.

Lemma get_shard_middle c l1 s l2 :
  shards c = l1 ++ s :: l2 → NoDup (map shard_id (shards c)) → orochi_catalog_get_shard c (shard_id s) = Some s.
Proof.
  intros E Hnd. rewrite E in Hnd. apply head_filter_unique; [rewrite E; set_solver|done|]. intros y Hy Hid.
  rewrite E in Hy. apply elem_of_app in Hy as [Hy|[->|Hy]%elem_of_cons]; [|done|].
  all: destruct (shard_id_other l1 s l2 y Hnd); [set_solver|done].
Qed.

Lemma elem_of_middle {A} (x y : A) l1 l2 : x ∈ l1 ++ y :: l2 ↔ x = y ∨ x ∈ l1 ++ l2.
Proof. rewrite !elem_of_app, elem_of_cons. tauto. Qed.

Lemma deleted_middle l1 s l2 :
  NoDup (map shard_id (l1 ++ s :: l2)) → filter (λ x, shard_id x ≠ shard_id s) (l1 ++ s :: l2) = l1 ++ l2.
Proof.
  intros Hnd. rewrite filter_app, filter_cons_False by (by intros []).
  f_equal; apply filter_all; intros x Hx; apply (shard_id_other l1 s l2 x Hnd); apply elem_of_app; tauto.
Qed.

(** The range of two shards, which covers what lies between them as well. *)
Definition joined (s1 s2 : OrochiShardInfo) : OrochiShardInfo :=
  set_range (Z.min (hash_min s1) (hash_min s2)) (Z.max (hash_max s1) (hash_max s2)) s1.

Lemma merge_joins c l1 l2 s1 s2 :
  shards c = l1 ++ s1 :: l2 → s2 ∈ l1 ++ l2 → NoDup (map shard_id (shards c)) → table_oid s1 = table_oid s2 →
  ∃ c', orochi_merge_shards_impl c (shard_id s1) (shard_id s2) = Ok c' ∧
    shards c' = filter (λ x, shard_id x ≠ shard_id s2) (l1 ++ joined s1 s2 :: l2).
Proof.
  intros E Hs2 Hnd Ht. unfold orochi_merge_shards_impl.
  rewrite (get_shard_middle c l1 s1 l2), (get_shard_unique c s2) by (done || (rewrite E; apply elem_of_middle; tauto)).
  rewrite Ht, Z.eqb_refl. cbn [negb]. eexists. split; [done|].
  unfold orochi_catalog_delete_shard, orochi_catalog_update_shard_range, update_shard.
  cbn [shards with_shards]. rewrite E in Hnd |- *. rewrite update_middle by done.
  do 3 f_equal. unfold joined. f_equal.
  - destruct (Z.ltb_spec (hash_min s1) (hash_min s2)); lia.
  - destruct (Z.ltb_spec (hash_max s2) (hash_max s1)); lia.
Qed.

(** How many of the shards own a hash value. *)
Definition owned (h : Z) (l : list OrochiShardInfo) : nat := length (filter (in_range h) l).

Lemma owned_app h l k : owned h (l ++ k) = (owned h l + owned h k)%nat.
Proof. unfold owned. by rewrite filter_app, length_app. Qed.
Lemma owned_cons h s l : owned h (s :: l) = (owned h [s] + owned h l)%nat.
Proof. exact (owned_app h [s] l). Qed.
Lemma owned_one h s : owned h [s] = if decide (in_range h s) then 1%nat else 0%nat.
Proof. unfold owned. rewrite filter_cons, filter_nil. by case_decide. Qed.

(** Two shards, the one with the higher values behind the other. *)
Definition adjacent (s1 s2 : OrochiShardInfo) : Prop :=
  hash_min s1 ≤ hash_max s1 ∧ hash_min s2 ≤ hash_max s2 ∧
  (hash_max s1 + 1 = hash_min s2 ∨ hash_max s2 + 1 = hash_min s1).

Lemma owned_joined h s1 s2 :
  adjacent s1 s2 → owned h [joined s1 s2] = (owned h [s1] + owned h [s2])%nat.
Proof.
  intros (? & ? & ?). rewrite !owned_one. unfold in_range, joined, set_range. cbn [hash_min hash_max].
  repeat case_decide; lia.
Qed.

(** C18: merging two adjacent shards of a table succeeds and keeps the partition of the hash
    values: the first one takes over both ranges and keeps its identity, its index and its node,
    the second one is gone, every other shard is as it was and where it was, and every hash value
    has as many owners as before. *)
Theorem merge_keeps_partition (c : ShardCatalog) (s1 s2 : OrochiShardInfo) :
  NoDup (map shard_id (shards c)) → s1 ∈ shards c → s2 ∈ shards c → shard_id s1 ≠ shard_id s2 →
  table_oid s1 = table_oid s2 → adjacent s1 s2 →
  ∃ c', orochi_merge_shards_impl c (shard_id s1) (shard_id s2) = Ok c' ∧
    (∀ h, length (owners c' h) = length (owners c h)) ∧
    orochi_catalog_get_shard c' (shard_id s1) =
      Some (set_range (Z.min (hash_min s1) (hash_min s2)) (Z.max (hash_max s1) (hash_max s2)) s1) ∧
    filter (λ x, shard_id x ≠ shard_id s1) (shards c') =
      filter (λ x, shard_id x ≠ shard_id s1 ∧ shard_id x ≠ shard_id s2) (shards c).
Proof.
  intros Hnd Hin1 Hin2 Hne Ht Hadj.
  apply list_elem_of_split in Hin1 as (l1 & l2 & E). assert (Hs2 : s2 ∈ l1 ++ l2).
  { rewrite E in Hin2. apply elem_of_middle in Hin2 as [->|?]; done. }
  destruct (merge_joins c l1 l2 s1 s2) as (c' & Em & Hc'); [done..|]. exists c'. split; [done|].
  set (j := joined s1 s2) in *. assert (Hj : shard_id j = shard_id s1) by done.
  assert (Hndj : NoDup (map shard_id (l1 ++ j :: l2))).
  { rewrite E in Hnd. replace (map shard_id (l1 ++ j :: l2)) with (map shard_id (l1 ++ s1 :: l2)); [done|].
    by rewrite !map_app. }
  assert (Hothers : ∀ l, filter (λ x, shard_id x ≠ shard_id s1) (l1 ++ j :: l2) = l → l = l1 ++ l2).
  { intros l <-. rewrite <- Hj. by apply deleted_middle. }
  split; [|split].
  - intros h. change (owned h (shards c') = owned h (shards c)). rewrite Hc', E.
    assert (Hsum : owned h (l1 ++ j :: l2) =
      (owned h (filter (λ x, shard_id x ≠ shard_id s2) (l1 ++ j :: l2)) + owned h [s2])%nat).
    { assert (Hin : s2 ∈ l1 ++ j :: l2) by (apply elem_of_middle; tauto). apply list_elem_of_split in Hin as (k1 & k2 & Ek).
      rewrite Ek in Hndj |- *. rewrite deleted_middle by done. rewrite !owned_app, (owned_cons h s2). lia. }
    pose proof (owned_joined h s1 s2 Hadj) as Ho. fold j in Ho. rewrite owned_app, (owned_cons h j), Ho in Hsum.
    rewrite (owned_app h l1), (owned_cons h s1). lia.
  - apply head_filter_unique; [|done|].
    + rewrite Hc'. apply list_elem_of_filter. split; [exact Hne|]. apply elem_of_middle. by left.
    + intros y Hy Hid. rewrite Hc' in Hy. apply list_elem_of_filter in Hy as [_ [->|Hy]%elem_of_middle]; [done|].
      by destruct (shard_id_other l1 j l2 y Hndj Hy).
  - rewrite Hc', E, !list_filter_filter.
    transitivity (filter (λ x, shard_id x ≠ shard_id s2) (l1 ++ l2)).
    + rewrite <- (Hothers _ eq_refl), list_filter_filter. apply list_filter_iff. tauto.
    + rewrite E in Hnd. rewrite <- (deleted_middle l1 s1 l2 Hnd), list_filter_filter.
      apply list_filter_iff. tauto.
Qed.

(** With the schema as it is a shard cannot be split: the statement that adds the second half
    fails, and the transaction with it. *)
Theorem split_always_fails (c : ShardCatalog) (id : Z) :
  orochi_split_shard_impl c id =
    Err (match orochi_catalog_get_shard c id with
         | None => "shard does not exist" | Some _ => "null value in column shard_index" end).
Proof. unfold orochi_split_shard_impl. by destruct (orochi_catalog_get_shard c id). Qed.

(** The last shard of a table of two or more owns more than half of the hash values; the
    subtraction overflows there, and the midpoint lies below the shard. *)
Theorem last_shard_midpoint_outside (n : Z) :
  2 ≤ n < 2 ^ 31 →
  let last := new_shard 0 0 (share n) n (n - 1) in
  2 ^ 31 < hash_max last - hash_min last ∧ split_point (hash_min last) (hash_max last) < hash_min last.
Proof.
  intros Hn last. destruct (split_point_last n Hn) as (Hlo & Hmid & _). subst last.
  cbn [new_shard hash_min hash_max]. rewrite range_max_last. split; [|lia].
  rewrite (range_min_eq n) by lia. pose proof (share_bounds n ltac:(lia)) as [? Hb].
  unfold INT32_MAX in *. nia.
Qed.

(** ** Rebalancing *)

Lemma get_table_shards_update c table id f :
  (∀ s, table_oid (f s) = table_oid s) →
  orochi_catalog_get_table_shards (update_shard c id f) table =
    map (λ s, if shard_id s =? id then f s else s) (orochi_catalog_get_table_shards c table).
Proof.
  intros Hf. unfold orochi_catalog_get_table_shards, update_shard. cbn [shards with_shards].
  induction (shards c) as [|s l IH]; [done|]. cbn [map]. rewrite !filter_cons.
  replace (table_oid (if shard_id s =? id then f s else s)) with (table_oid s)
    by (destruct (shard_id s =? id); by rewrite ?Hf).
  case_decide; [|done]. cbn [map]. by rewrite IH.
Qed.

Lemma map_if_notin (f : OrochiShardInfo → OrochiShardInfo) id l :
  id ∉ map shard_id l → map (λ s, if shard_id s =? id then f s else s) l = l.
Proof.
  induction l as [|s l IH]; intros Hn; [done|]. cbn [map] in *.
  apply not_elem_of_cons in Hn as [Hs Hn]. rewrite (proj2 (Z.eqb_neq _ _)) by done. by rewrite IH.
Qed.

Lemma workers_update c id f : workers (update_shard c id f) = workers c.
Proof. done. Qed.

Lemma update_ids c id f :
  (∀ s, shard_id (f s) = shard_id s) →
  map shard_id (shards (update_shard c id f)) = map shard_id (shards c).
Proof.
  intros Hf. unfold update_shard. cbn [shards with_shards]. rewrite map_map. apply map_ext.
  intros s. destruct (shard_id s =? id); by rewrite ?Hf.
Qed.

Lemma table_shards_ids c table :
  NoDup (map shard_id (shards c)) →
  NoDup (map shard_id (orochi_catalog_get_table_shards c table)).
Proof.
  unfold orochi_catalog_get_table_shards. intros Hnd.
  induction (shards c) as [|s l IH]; [constructor|]. cbn [map] in Hnd.
  apply NoDup_cons in Hnd as [Hs Hnd]. rewrite filter_cons. case_decide; [|by apply IH].
  cbn [map]. apply NoDup_cons. split; [|by apply IH]. contradict Hs.
  apply list_elem_of_fmap in Hs as (x & -> & Hx). apply list_elem_of_filter in Hx as [_ Hx].
  by apply list_elem_of_fmap_2.
Qed.

(** The loop leaves the shards it has passed alone and sends the [k]-th of the
    rest to worker [idx + k]. *)
Lemma rebalance_loop_spec table targets l :
  targets ≠ [] → Forall (λ n, 0 ≤ n_id n) targets →
  ∀ c passed idx, NoDup (map shard_id (shards c)) →
  orochi_catalog_get_table_shards c table = passed ++ l →
  0 ≤ idx < len targets →
  ∃ c' l', rebalance_loop c targets l idx = Ok c' ∧
    orochi_catalog_get_table_shards c' table = passed ++ l' ∧
    Forall2 (λ s s', shard_id s' = shard_id s ∧ shard_index s' = shard_index s ∧
                     hash_min s' = hash_min s ∧ hash_max s' = hash_max s) l l' ∧
    ∀ k s', l' !! k = Some s' →
      ∃ n, targets !! Z.to_nat ((idx + Z.of_nat k) mod len targets) = Some n ∧
        read_node_id s' = n_id n.
Proof.
  intros Hne Hid. induction l as [|s l IH]; intros c passed idx Hnd Hts Hidx; cbn [rebalance_loop].
  { exists c, []. split; [done|]. split; [done|]. split; [constructor|]. intros k s' Hk.
    by rewrite lookup_nil in Hk. }
  destruct (lookup_lt_is_Some_2 targets (Z.to_nat idx)) as [n Hn]; [lia|]. rewrite Hn.
  pose proof (Forall_lookup_1 _ _ _ _ Hid Hn) as Hpos. cbn beta in Hpos.
  set (s1 := if read_node_id s =? n_id n then s else set_node (n_id n) s).
  assert (H1 : ∃ c1, (if (0 <=? n_id n) && negb (read_node_id s =? n_id n)
      then orochi_move_shard_with_data c (shard_id s) (n_id n) else Ok c) = Ok c1 ∧
    NoDup (map shard_id (shards c1)) ∧
    orochi_catalog_get_table_shards c1 table = (passed ++ [s1]) ++ l).
  { subst s1. rewrite (proj2 (Z.leb_le 0 _)) by done. cbn [andb]. rewrite <- app_assoc. cbn [app].
    destruct (read_node_id s =? n_id n) eqn:E; cbn [negb]; [by exists c|].
    assert (Hin : s ∈ shards c).
    { assert (s ∈ orochi_catalog_get_table_shards c table) as Hs by (rewrite Hts; set_solver).
      by apply list_elem_of_filter in Hs as [_ ?]. }
    unfold orochi_move_shard_with_data. rewrite get_shard_unique, E by done.
    eexists. split; [reflexivity|]. unfold orochi_catalog_update_shard_placement.
    rewrite update_ids by done. split; [done|].
    rewrite get_table_shards_update, Hts, map_app by done. cbn [map].
    pose proof (table_shards_ids c table Hnd) as Hndt. rewrite Hts, map_app in Hndt. cbn [map] in Hndt.
    apply NoDup_app in Hndt as (_ & Hd & Hnd2). apply NoDup_cons in Hnd2 as [Hn2 _].
    rewrite Z.eqb_refl, !map_if_notin; [done|done|].
    intros Hp. apply (Hd _ Hp). by left. }
  destruct H1 as (c1 & E1 & Hnd1 & Hts1). rewrite E1. cbn [mbind outcome_bind].
  assert (Hlen : 0 < len targets) by (destruct targets; [done|cbn; lia]).
  destruct (IH c1 (passed ++ [s1]) ((idx + 1) mod len targets)) as (c' & l' & E & Hts' & HF & Hk);
    [done|done|by apply Z.mod_pos_bound|].
  exists c', (s1 :: l'). split; [done|]. split; [by rewrite Hts', <- app_assoc|].
  split; [constructor; [|done]; subst s1; by destruct (read_node_id s =? n_id n)|].
  intros [|k] s' Hs'.
  - injection Hs' as <-. exists n. rewrite Z.add_0_r, Z.mod_small by lia. split; [done|].
    subst s1. destruct (Z.eqb_spec (read_node_id s) (n_id n)); done.
  - destruct (Hk k s' Hs') as (n' & Hn' & ?). exists n'. split; [|done]. rewrite <- Hn'.
    do 2 f_equal. rewrite Zplus_mod_idemp_l. f_equal. lia.
Qed.

(** How many of [0 .. m-1] are congruent to [j]. *)
Lemma count_residues (w j : Z) (m : nat) :
  0 ≤ j < w →
  len (filter (λ k, Z.of_nat k mod w = j) (seq 0 m)) = (Z.of_nat m + (w - 1 - j)) / w.
Proof.
  intros Hj. induction m as [|m IH].
  - cbn. symmetry. apply Z.div_small. lia.
  - rewrite seq_S, filter_app, length_app, Nat2Z.inj_add, IH. cbn [Nat.add].
    rewrite filter_cons, filter_nil.
    pose proof (Z.div_mod (Z.of_nat m) w ltac:(lia)). pose proof (Z.mod_pos_bound (Z.of_nat m) w ltac:(lia)).
    set (q := Z.of_nat m / w) in *. set (r := Z.of_nat m mod w) in *.
    case_decide as Hr; cbn [length].
    + replace (Z.of_nat m + (w - 1 - j)) with (w - 1 + q * w) by lia.
      replace (Z.of_nat (S m) + (w - 1 - j)) with (0 + (q + 1) * w) by lia.
      rewrite !Z.div_add, (Z.div_small (w - 1)), (Z.div_small 0) by lia. lia.
    + destruct (Z.lt_ge_cases r j).
      * replace (Z.of_nat m + (w - 1 - j)) with (r + (w - 1 - j) + q * w) by lia.
        replace (Z.of_nat (S m) + (w - 1 - j)) with (r + 1 + (w - 1 - j) + q * w) by lia.
        rewrite !Z.div_add, !Z.div_small by lia. lia.
      * replace (Z.of_nat m + (w - 1 - j)) with (r - 1 - j + (q + 1) * w) by lia.
        replace (Z.of_nat (S m) + (w - 1 - j)) with (r - j + (q + 1) * w) by lia.
        rewrite !Z.div_add, !Z.div_small by lia. lia.
Qed.

Lemma length_filter_indices {A} (P : A → Prop) (Q : nat → Prop)
    `{∀ x, Decision (P x), ∀ k, Decision (Q k)} (l : list A) (i : nat) :
  (∀ k x, l !! k = Some x → P x ↔ Q (i + k)%nat) →
  length (filter P l) = length (filter Q (seq i (length l))).
Proof.
  revert i. induction l as [|x l IH]; intros i HPQ; [done|]. cbn [length seq]. rewrite !filter_cons.
  pose proof (HPQ 0%nat x eq_refl) as Hx. rewrite Nat.add_0_r in Hx.
  rewrite (decide_ext _ (Q i)) by done.
  destruct (decide (Q i)); cbn [length]; [f_equal|]; apply IH; intros k y Hy;
    rewrite (HPQ (S k) y Hy); by rewrite Nat.add_succ_comm.
Qed.

(** C17: rebalancing a table always succeeds when shard ids and worker ids are
    distinct: it keeps the shards and their ranges, and spreads them so that every
    active worker holds the same number of them up to one. *)
Theorem rebalance_balances (c : ShardCatalog) (table : Z) :
  NoDup (map shard_id (shards c)) → NoDup (map n_id (workers c)) →
  Forall (λ n, 0 ≤ n_id n) (workers c) → workers c ≠ [] →
  ∃ c', orochi_rebalance_table_shards c true table = Ok c' ∧
    Forall2 (λ s s', shard_id s' = shard_id s ∧ hash_min s' = hash_min s ∧ hash_max s' = hash_max s)
      (orochi_catalog_get_table_shards c table) (orochi_catalog_get_table_shards c' table) ∧
    ∀ n, n ∈ workers c →
      let total := len (orochi_catalog_get_table_shards c table) in
      let held := len (filter (λ s, read_node_id s = n_id n)
                         (orochi_catalog_get_table_shards c' table)) in
      total / len (workers c) ≤ held ≤ total / len (workers c) + 1.
Proof.
  intros Hnd Hndw Hpos Hne. unfold orochi_rebalance_table_shards. cbn [negb].
  set (ws := workers c) in *. assert (Hw : 0 < len ws) by (destruct ws; [done|cbn; lia]).
  rewrite (proj2 (Z.eqb_neq _ _)) by lia.
  destruct (rebalance_loop_spec table ws (orochi_catalog_get_table_shards c table) Hne Hpos
    c [] 0 Hnd) as (c' & l' & E & Hts & HF & Hk); [done|lia|].
  exists c'. split; [done|]. cbn [app] in Hts. rewrite Hts.
  split; [eapply Forall2_impl; [apply HF|]; naive_solver|].
  intros n Hn. set (total := len (orochi_catalog_get_table_shards c table)).
  set (held := len (filter _ l')). apply list_elem_of_lookup in Hn as [j Hj].
  pose proof (lookup_lt_Some _ _ _ Hj) as Hjl.
  assert (Hheld : held = (total + (len ws - 1 - Z.of_nat j)) / len ws).
  { unfold held, total. rewrite (Forall2_length _ _ _ HF), <- count_residues by lia. f_equal.
    apply length_filter_indices. intros k s' Hs'. cbn [Nat.add].
    destruct (Hk k s' Hs') as (n' & Hn' & ->). rewrite Z.add_0_l in Hn'.
    pose proof (Z.mod_pos_bound (Z.of_nat k) (len ws) Hw). split; intros Heq.
    - assert (Z.to_nat (Z.of_nat k mod len ws) = j); [|lia].
      eapply NoDup_lookup; [exact Hndw| |]; rewrite list_lookup_fmap; [by rewrite Hn'|].
      rewrite Hj. cbn. by f_equal.
    - rewrite Heq, Nat2Z.id in Hn'. congruence. }
  rewrite Hheld. pose proof (Z.div_mod total (len ws) ltac:(lia)).
  pose proof (Z.mod_pos_bound total (len ws) Hw).
  set (q := total / len ws) in *. set (r := total mod len ws) in *.
  split; [apply Z.div_le_lower_bound; lia|].
  assert ((total + (len ws - 1 - Z.of_nat j)) / len ws < q + 2); [|lia].
  apply Z.div_lt_upper_bound; lia.
Qed.

(** ** Routing and pruning *)

(** Induction over conditions with the conjuncts of a conjunction. *)
Fixpoint Qual_ind' (P : Qual → Prop)
    (Hvar : ∀ n a, P (QVar n a)) (Hconst : ∀ n v t, P (QConst n v t))
    (Hop : ∀ o args, P (QOp o args)) (Hand : ∀ args, Forall P args → P (QAnd args))
    (Hother : P QOther) (q : Qual) : P q :=
  match q with
  | QVar n a => Hvar n a
  | QConst n v t => Hconst n v t
  | QOp o args => Hop o args
  | QAnd args =>
      Hand args ((fix all (l : list Qual) : Forall P l :=
        match l with
        | [] => Forall_nil_2 P
        | a :: l => Forall_cons_2 P a l (Qual_ind' P Hvar Hconst Hop Hand Hother a) (all l)
        end) args)
  | QOther => Hother
  end.

Lemma analyze_sound kc rti type value q v t :
  own_constants kc rti type q → satisfies value q → analyze_qual_node kc q None = Some (v, t) →
  t = type ∧ ∃ a, var_is_distribution_column kc a = true ∧ value rti a = Some v.
Proof.
  revert v t. induction q as [n a|n v0 t0|o args|args IH|] using Qual_ind'; intros v t Ht Hs Ha;
    try discriminate.
  - destruct args as [|[n1 a1|n1 v1 t1| | |] [|[n2 a2|n2 v2 t2| | |] [|? ?]]]; try discriminate.
    + cbn in Ha, Ht, Hs. case_bool_decide as Ho; [|done].
      destruct (var_is_distribution_column kc a1) eqn:Ed, n2; try discriminate. injection Ha as <- <-.
      destruct (Ht eq_refl) as [<- <-], (Hs Ho) as [_ ?]. eauto.
    + cbn in Ha, Ht, Hs. case_bool_decide as Ho; [|done].
      destruct (var_is_distribution_column kc a2) eqn:Ed, n1; try discriminate. injection Ha as <- <-.
      destruct (Ht eq_refl) as [<- <-], (Hs Ho) as [_ ?]. eauto.
  - cbn [analyze_qual_node] in Ha. induction IH as [|a args IHa _ IHargs]; [discriminate|].
    destruct Ht as [Hta Ht], Hs as [Hsa Hs].
    destruct (analyze_qual_node kc a None) as [[va ta]|] eqn:Ea.
    + injection Ha as -> ->. by apply IHa.
    + by apply IHargs.
Qed.

Lemma hash_address `{Varlena} (address address' : list Z → Z) v type :
  hashed_by_content type v → orochi_hash_datum address v type = orochi_hash_datum address' v type.
Proof.
  destruct v as [|bs]; [done|]. cbn. rewrite !elem_of_cons, elem_of_nil.
  unfold orochi_hash_datum, hash_input. by intros [->|[->|[->|[]]]].
Qed.

Section routing.
Context `{Varlena} (address : list Z → Z) (key_type : Z) (n : Z) (Hn : 1 ≤ n < 2 ^ 31).

Lemma shard_index_range h : is_i32 h → 0 ≤ orochi_get_shard_index h n < n.
Proof.
  intros _. unfold orochi_get_shard_index. rewrite (proj2 (Z.leb_gt n 0)) by lia.
  rewrite (uwrap_id 32 n) by (unfold in_u; lia).
  pose proof (Z.mod_pos_bound (u32 h) n ltac:(lia)). rewrite swrap_id by (unfold in_i; lia). done.
Qed.

Lemma hash_datum_range v t : is_i32 (orochi_hash_datum address v t).
Proof. apply swrap_range. lia. Qed.

(** Every row lies in the shard table the triggers route its key to. *)
Definition placed (t : Tables) : Prop :=
  length (shard_tables t) = Z.to_nat n ∧
  ∀ i l r, shard_tables t !! i = Some l → r ∈ l → route address key_type n r = Ok i.

Lemma placed_insert i r t t' :
  placed t → route address key_type n r = Ok i → insert_into i r t = Ok t' → placed t'.
Proof.
  intros [Hl Hp] Hr. unfold insert_into. destruct (shard_tables t !! i) as [l|] eqn:E; [|done].
  intros [= <-]. split; cbn [shard_tables]; [by rewrite length_insert|].
  intros j l' x Hj Hx. apply list_lookup_insert_Some in Hj as [(<- & <- & _)|(_ & Hj)].
  - apply elem_of_app in Hx as [Hx| ->%list_elem_of_singleton]; [by apply (Hp i l)|done].
  - by apply (Hp j l').
Qed.

Lemma placed_shrink i l l' t :
  placed t → shard_tables t !! i = Some l → (∀ x, x ∈ l' → x ∈ l) →
  placed {| parent := parent t; shard_tables := <[i := l']> (shard_tables t) |}.
Proof.
  intros [Hl Hp] E Hsub. split; cbn [shard_tables]; [by rewrite length_insert|].
  intros j k x Hj Hx. apply list_lookup_insert_Some in Hj as [(<- & <- & _)|(_ & Hj)].
  - apply (Hp i l); [done|by apply Hsub].
  - by apply (Hp j k).
Qed.

Lemma remove_first_sub k l x : x ∈ remove_first k l → x ∈ l.
Proof.
  induction l as [|y l IH]; [done|]. cbn [remove_first]. case_decide; [by right|].
  intros [->|Hx]%elem_of_cons; [by left|right; by apply IH].
Qed.

Lemma placed_delete_one i k t t' : placed t → delete_one i k t = Ok t' → placed t'.
Proof.
  intros Hp. unfold delete_one. destruct (shard_tables t !! i) as [l|] eqn:E; [|done].
  intros [= <-]. eapply placed_shrink; [done|exact E|]. apply remove_first_sub.
Qed.

Lemma placed_delete_all i k t t' : placed t → delete_all i k t = Ok t' → placed t'.
Proof.
  intros Hp. unfold delete_all. destruct (shard_tables t !! i) as [l|] eqn:E; [|done].
  intros [= <-]. eapply placed_shrink; [done|exact E|]. intros x Hx.
  by apply list_elem_of_filter in Hx as [_ ?].
Qed.

Lemma placed_fresh rows : placed {| parent := rows; shard_tables := replicate (Z.to_nat n) [] |}.
Proof.
  split; [apply length_replicate|]. intros i l r Hl Hr.
  apply lookup_replicate in Hl as [-> _]. by apply not_elem_of_nil in Hr.
Qed.

(** A point query whose constants have the type of the column reads the shard
    table of every row it selects. *)
Lemma pruning_covers address' kc rti value c table t q r :
  map shard_index (orochi_catalog_get_table_shards c table) = seqZ 0 n →
  (∀ v, key r = Some v → hashed_by_content key_type v) → placed t → own_constants kc rti key_type q → r ∈ all_shards t →
  (∀ a, var_is_distribution_column kc a = true → value rti a = key r) → satisfies value q →
  r ∈ target_rows address' kc c table n (Some q) t.
Proof.
  intros Hidx Hcontent [Hlen Hp] Ht Hr Hvalue Hs. unfold all_shards in Hr.
  apply list_elem_of_join in Hr as (l & Hr & Hl). apply list_elem_of_lookup in Hl as [i Hi].
  pose proof (Hp i l r Hi Hr) as Hroute. pose proof (lookup_lt_Some _ _ _ Hi) as Hil.
  assert (Hgoal : Z.of_nat i ∈ orochi_get_target_shards_for_query address' kc c table n (Some q) →
    r ∈ target_rows address' kc c table n (Some q) t).
  { intros Hin. unfold target_rows. apply list_elem_of_join. exists l. split; [done|].
    apply list_elem_of_fmap. exists (Z.of_nat i). split; [|done]. by rewrite Nat2Z.id, Hi. }
  apply Hgoal. clear Hgoal. unfold orochi_get_target_shards_for_query, orochi_prune_shards.
  assert (Hall : Z.of_nat i ∈ map shard_index (orochi_catalog_get_table_shards c table)).
  { rewrite Hidx. apply elem_of_seqZ. lia. }
  set (all := orochi_catalog_get_table_shards c table) in *.
  assert (Hmatch : Z.of_nat i ∈ match all with [] => seqZ 0 n | s :: l => map shard_index (s :: l) end).
  { destruct all; [by apply not_elem_of_nil in Hall|done]. }
  destruct (analyze_qual_node kc q None) as [[v ty]|] eqn:Ea; [|exact Hmatch].
  destruct (analyze_sound kc rti key_type value q v ty Ht Hs Ea) as (-> & a & Ha & Hkey).
  rewrite Hvalue in Hkey by done.
  destruct (key_type =? 0); [exact Hmatch|].
  unfold orochi_compute_shard_for_value. unfold route, hash_value in Hroute. rewrite Hkey in Hroute.
  cbn [mbind option_bind] in Hroute. rewrite (hash_address address address') in Hroute by auto.
  injection Hroute as Hroute. set (target := orochi_get_shard_index _ n) in *.
  assert (Htarget : target = Z.of_nat i).
  { pose proof (shard_index_range (orochi_hash_datum address' v key_type)) as Hrange.
    specialize (Hrange (swrap_range 32 _ ltac:(lia))). subst target. lia. }
  destruct (target <? 0); [exact Hmatch|].
  destruct (filter (λ s, shard_index s = target) all) as [|s f] eqn:Ef; [done|].
  assert (Hsf : s ∈ filter (λ s, shard_index s = target) all) by (rewrite Ef; by left).
  apply list_elem_of_filter in Hsf as [Hsi _]. cbn [map]. rewrite <- Htarget, <- Hsi. by left.
Qed.
End routing.



(** ** Redistribution *)

(** How many rows have the key. *)
Definition key_count (k : option Datum) (l : list Row) : nat := length (filter (λ r, key r = k) l).

Lemma key_count_cons k r l :
  key_count k (r :: l) = ((if decide (key r = k) then 1 else 0) + key_count k l)%nat.
Proof. unfold key_count. rewrite filter_cons. by case_decide. Qed.

Lemma key_count_zero r l : r ∈ l → key_count (key r) l ≠ 0%nat.
Proof.
  intros Hr Hc. apply nil_length_inv in Hc.
  assert (Hin : r ∈ filter (λ x, key x = key r) l) by (by apply list_elem_of_filter).
  rewrite Hc in Hin. by apply not_elem_of_nil in Hin.
Qed.

Lemma key_count_filter (P : Row → Prop) `{∀ r, Decision (P r)} k l :
  (key_count k (filter P l) ≤ key_count k l)%nat.
Proof.
  induction l as [|r l IH]; [done|]. rewrite filter_cons, key_count_cons.
  case_decide; rewrite ?key_count_cons; lia.
Qed.

Lemma key_count_remove k k' l :
  k ≠ None →
  key_count k' (remove_first k l) =
    if decide (k' = k) then pred (key_count k' l) else key_count k' l.
Proof.
  intros Hk. induction l as [|r l IH]; [by case_decide|]. cbn [remove_first].
  destruct (decide (key r = k ∧ k ≠ None)) as [[Hr _]|Hr].
  - rewrite key_count_cons, Hr. repeat case_decide; congruence || lia.
  - assert (key r ≠ k) by tauto. rewrite !key_count_cons, IH.
    repeat case_decide; congruence || lia.
Qed.

Lemma filter_remove (P : Row → Prop) `{∀ r, Decision (P r)} k l :
  (∀ r, key r = k → ¬ P r) → filter P (remove_first k l) = filter P l.
Proof.
  intros Hk. induction l as [|r l IH]; [done|]. cbn [remove_first].
  case_decide as Hr; rewrite !filter_cons.
  - rewrite (decide_False (P := P r)); [done|]. apply Hk, Hr.
  - by rewrite IH.
Qed.

Section redistribution.
Context `{Varlena} (address : list Z → Z) (key_type : Z) (n : Z) (Hn : 1 ≤ n < 2 ^ 31).

(** The shard the triggers and point queries use for a row, and the shard that
    the hash ranges give it to. *)
Definition routed (r : Row) : Z :=
  orochi_get_shard_index (default 0 (hash_value address key_type r)) n.
Definition ranged (r : Row) : Z := owner n (default 0 (hash_value address key_type r)).

Lemma hash_value_some r :
  key r ≠ None → ∃ h, hash_value address key_type r = Some h ∧ is_i32 h.
Proof.
  intros Hk. unfold hash_value. destruct (key r) as [v|]; [|done].
  exists (orochi_hash_datum address v key_type). split; [done|]. apply swrap_range. lia.
Qed.

Lemma route_routed r : key r ≠ None → route address key_type n r = Ok (Z.to_nat (routed r)).
Proof.
  intros Hk. destruct (hash_value_some r Hk) as (h & Hh & _). unfold route, routed. by rewrite Hh.
Qed.

Lemma routed_range r : 0 ≤ routed r < n.
Proof.
  unfold routed. apply shard_index_range; [done|].
  unfold hash_value. destruct (key r); cbn; [apply swrap_range|]; unfold in_i; lia.
Qed.

Lemma routed_key r r' : key r = key r' → routed r = routed r'.
Proof. intros Hk. unfold routed, hash_value. by rewrite Hk. Qed.

Lemma insert_ranges (js : list Z) (t : Tables) :
  NoDup js → Forall (λ j, 0 ≤ j) js →
  let t' := fold_left (insert_range address key_type (share n) n) js t in
  parent t' = parent t ∧ length (shard_tables t') = length (shard_tables t) ∧
  ∀ i l, shard_tables t !! i = Some l → shard_tables t' !! i = Some
    (if decide (Z.of_nat i ∈ js)
     then l ++ filter (hash_between address key_type (range_min (share n) (Z.of_nat i))
                         (range_max (share n) n (Z.of_nat i))) (parent t)
     else l).
Proof.
  revert t. induction js as [|j js IH]; intros t Hnd Hpos; cbn [fold_left].
  - split; [done|]. split; [done|]. intros i l Hl. case_decide as Hj; [|done].
    by apply not_elem_of_nil in Hj.
  - apply NoDup_cons in Hnd as [Hj Hnd]. apply Forall_cons in Hpos as [Hj0 Hpos].
    set (t1 := insert_range address key_type (share n) n t j).
    destruct (IH t1 Hnd Hpos) as (Hp & Hl1 & Hi). cbn zeta in Hp, Hl1, Hi. split; [done|].
    split; [rewrite Hl1; subst t1; cbn; apply length_alter|].
    intros i l Hl. destruct (decide (Z.of_nat i = j)) as [Hij|Hij].
    + rewrite decide_True by (rewrite Hij; by left). subst j.
      assert (E : shard_tables t1 !! i = Some (l ++ filter (hash_between address key_type
        (range_min (share n) (Z.of_nat i)) (range_max (share n) n (Z.of_nat i))) (parent t))).
      { subst t1. cbn [shard_tables insert_range]. rewrite Nat2Z.id, list_lookup_alter_eq, Hl. done. }
      rewrite (Hi _ _ E). by rewrite decide_False.
    + assert (E : shard_tables t1 !! i = Some l).
      { subst t1. cbn [shard_tables insert_range]. rewrite list_lookup_alter_ne; [done|lia]. }
      rewrite (Hi _ _ E). subst t1. cbn [parent insert_range].
      f_equal. apply decide_ext. rewrite elem_of_cons. naive_solver.
Qed.

(** The rows of a shard that the deletes leave alone. *)
Definition left_alone (i : nat) (r : Row) : Prop := Z.to_nat (routed r) ≠ i.

Lemma fire_deletes_spec (rest : list Row) (t : Tables) :
  Forall (λ r, key r ≠ None) rest → length (shard_tables t) = Z.to_nat n →
  (∀ i l r, shard_tables t !! i = Some l → r ∈ l → Z.to_nat (routed r) = i →
    (key_count (key r) l ≤ key_count (key r) rest)%nat) →
  ∃ t', fire_deletes address key_type n rest t = Ok t' ∧ parent t' = parent t ∧
    length (shard_tables t') = length (shard_tables t) ∧
    ∀ i l, shard_tables t !! i = Some l → shard_tables t' !! i = Some (filter (left_alone i) l).
Proof.
  revert t. induction rest as [|r rest IH]; intros t Hnn Hlen Hc; cbn [fire_deletes].
  - exists t. split; [done|]. split; [done|]. split; [done|]. intros i l Hl. rewrite Hl. f_equal. symmetry.
    apply filter_all. intros x Hx Hi. specialize (Hc i l x Hl Hx Hi).
    pose proof (key_count_zero x l Hx). cbn in Hc. lia.
  - apply Forall_cons in Hnn as [Hr Hnn]. pose proof (routed_range r) as Hrng.
    unfold route_delete. rewrite route_routed by done. cbn [mbind outcome_bind].
    unfold delete_one. set (k := Z.to_nat (routed r)).
    destruct (lookup_lt_is_Some_2 (shard_tables t) k) as [lk Hk]; [rewrite Hlen; lia|].
    rewrite Hk. cbn [mbind outcome_bind]. set (t1 := {| parent := parent t |}).
    destruct (IH t1) as (t' & E & Hp & Hl & Hi); [done|subst t1; cbn; by rewrite length_insert| |].
    + intros i l x Hl Hx Hix. subst t1. cbn [shard_tables] in Hl.
      apply list_lookup_insert_Some in Hl as [(<- & <- & _)|(Hne & Hl)].
      * rewrite key_count_remove by done. pose proof (remove_first_sub _ _ _ Hx) as Hx'.
        specialize (Hc k lk x Hk Hx' Hix). rewrite key_count_cons in Hc.
        repeat case_decide; congruence || lia.
      * specialize (Hc i l x Hl Hx Hix). rewrite key_count_cons in Hc.
        rewrite decide_False in Hc; [done|]. intros Hkk. apply Hne.
        rewrite <- Hix. subst k. by rewrite (routed_key r x Hkk).
    + exists t'. split; [done|]. split; [done|].
      split; [rewrite Hl; subst t1; apply length_insert|]. clear Hl. intros i l Hl.
      destruct (decide (i = k)) as [->|Hne].
      * rewrite Hk in Hl. injection Hl as <-.
        rewrite (Hi k (remove_first (key r) lk)).
        -- f_equal. apply filter_remove. intros x Hx Hla. apply Hla. subst k.
           by rewrite (routed_key x r Hx).
        -- subst t1. cbn [shard_tables]. apply list_lookup_insert_eq. by eapply lookup_lt_Some.
      * apply Hi. subst t1. cbn [shard_tables]. by rewrite list_lookup_insert_ne.
Qed.

Lemma create_distributed_core (rows : list Row) :
  Forall (λ r, key r ≠ None) rows →
  ∃ t, orochi_create_distributed_table address key_type n rows = Ok t ∧ parent t = rows ∧
    ∀ i l, shard_tables t !! i = Some l →
      l = filter (λ r, ranged r = Z.of_nat i ∧ routed r ≠ Z.of_nat i) rows.
Proof.
  intros Hnn. unfold orochi_create_distributed_table, orochi_redistribute_data.
  rewrite (proj2 (Z.ltb_lt 0 n)), (proj2 (Z.eqb_neq n 0)) by lia. fold (share n).
  set (t0 := {| parent := rows |}).
  destruct (insert_ranges (seqZ 0 n) t0) as (Hp & Hl & Hi);
    [apply NoDup_seqZ|apply Forall_forall; intros j Hj%elem_of_seqZ; lia|].
  cbn zeta in *. set (t1 := fold_left _ _ _) in *. rewrite Hp. cbn [parent t0].
  assert (Hsh : ∀ i l, shard_tables t1 !! i = Some l →
    l = filter (λ r, ranged r = Z.of_nat i) rows).
  { intros i l Hil. pose proof (lookup_lt_Some _ _ _ Hil) as Hlt.
    rewrite Hl in Hlt. cbn [t0 shard_tables] in Hlt. rewrite length_replicate in Hlt.
    specialize (Hi i [] ltac:(apply lookup_replicate; done)). rewrite Hil in Hi.
    rewrite decide_True in Hi by (apply elem_of_seqZ; lia). injection Hi as ->. cbn [app parent t0].
    clear -Hn Hnn Hlt. induction Hnn as [|r rows Hr _ IH]; [done|]. rewrite !filter_cons, IH.
    destruct (hash_value_some r Hr) as (h & Hh & Hrange).
    pose proof (range_owner n Hn (Z.of_nat i) h ltac:(lia) Hrange) as Ho.
    erewrite decide_ext; [reflexivity|]. unfold hash_between, ranged. rewrite Hh. cbn.
    rewrite Is_true_true, andb_true_iff, !Z.leb_le, Ho. split; congruence. }
  destruct (fire_deletes_spec rows t1) as (t' & E & Hp' & Hl' & Hi'); [done| | |].
  { rewrite Hl. apply length_replicate. }
  { intros i l r Hil _ _. rewrite (Hsh i l Hil). apply key_count_filter. }
  exists t'. split; [done|]. split; [by rewrite Hp', Hp|]. intros i l Hil.
  destruct (shard_tables t1 !! i) as [l1|] eqn:E1.
  - rewrite (Hi' i l1 E1) in Hil. injection Hil as <-. rewrite (Hsh i l1 E1).
    rewrite list_filter_filter. apply list_filter_iff. intros r. unfold left_alone.
    pose proof (routed_range r). split; intros [??]; split; done || lia.
  - apply lookup_lt_Some in Hil. apply lookup_ge_None in E1. lia.
Qed.
End redistribution.

(** Distributing a table that already has rows splits them by hash range,
    while the triggers route by the hash modulo the shard count and swallow the
    final delete: every row stays in the parent, and a shard table ends up with
    exactly the rows of its range that are routed elsewhere, so that a table that
    is placed as the queries expect holds no row at all. *)
Theorem create_distributed_misplaces `{Varlena} (address : list Z → Z) (key_type n : Z)
    (rows : list Row) :
  1 ≤ n < 2 ^ 31 → Forall (λ r, key r ≠ None) rows →
  ∃ t, orochi_create_distributed_table address key_type n rows = Ok t ∧ parent t = rows ∧
    (∀ i l, shard_tables t !! i = Some l →
      l = filter (λ r, ranged address key_type n r = Z.of_nat i ∧
                       routed address key_type n r ≠ Z.of_nat i) rows) ∧
    (placed address key_type n t → all_shards t = []).
Proof.
  intros Hn Hnn. destruct (create_distributed_core address key_type n Hn rows Hnn) as (t & E & Hp & Hi).
  exists t. split; [done|]. split; [done|]. split; [exact Hi|]. intros [_ Hplaced].
  destruct (all_shards t) as [|r l] eqn:Ea; [done|]. exfalso.
  assert (Hr : r ∈ all_shards t) by (rewrite Ea; by left). unfold all_shards in Hr.
  apply list_elem_of_join in Hr as (l' & Hr & Hl'). apply list_elem_of_lookup in Hl' as [i Hil].
  pose proof (Hplaced i l' r Hil Hr) as Hroute. rewrite (Hi i l' Hil) in Hr.
  apply list_elem_of_filter in Hr as [[_ Hne] Hr]. rewrite Forall_forall in Hnn.
  rewrite route_routed in Hroute by auto. injection Hroute as Hroute. apply Hne.
  pose proof (routed_range address key_type n Hn r). lia.
Qed.

(** ** Examples and witnesses *)

#[local] Instance pg_varlena : Varlena := four_byte_header.
Definition no_address (_ : list Z) : Z := 0.

Definition empty_catalog : ShardCatalog :=
  {| shards := []; next_shard_id := 1;
     nodes := [{| n_id := 7; role := OROCHI_NODE_WORKER; is_active := true; shard_count := 3 |};
               {| n_id := 8; role := OROCHI_NODE_COORDINATOR; is_active := true; shard_count := 0 |};
               {| n_id := 9; role := OROCHI_NODE_WORKER; is_active := true; shard_count := 0 |}];
     moves := [] |}.

Definition value_or {A} (d : A) (o : outcome A) : A := match o with Ok a => a | _ => d end.

Definition catalog_of (n : Z) : ShardCatalog :=
  value_or empty_catalog (orochi_catalog_create_shards empty_catalog 1 n).

Lemma shard_ranges_partition_witness :
  ∃ s, filter (in_range (-5)) (orochi_catalog_get_table_shards (catalog_of 4) 1) = [s] ∧
    orochi_catalog_get_shard_for_hash (catalog_of 4) 1 (-5) = Some s ∧ 0 ≤ shard_index s < 4.
Proof.
  apply (shard_ranges_partition empty_catalog (catalog_of 4) 1 4 (-5)).
  - lia.
  - by decide_now.
  - intros s Hs. by apply not_elem_of_nil in Hs.
  - reflexivity.
Defined.

(** A shard of a table of four. *)
Definition quarter (i : Z) : OrochiShardInfo := new_shard 1 1 (share 4) 4 i.

Lemma merge_keeps_partition_witness :
  ∃ c', orochi_merge_shards_impl (catalog_of 4) 3 2 = Ok c' ∧
    (∀ h, length (owners c' h) = length (owners (catalog_of 4) h)) ∧
    orochi_catalog_get_shard c' 3 =
      Some (set_range (hash_min (quarter 1)) (hash_max (quarter 2)) (quarter 2)) ∧
    filter (λ x, shard_id x ≠ 3) (shards c') =
      filter (λ x, shard_id x ≠ 3 ∧ shard_id x ≠ 2) (shards (catalog_of 4)).
Proof.
  apply (merge_keeps_partition (catalog_of 4) (quarter 2) (quarter 1)).
  - by decide_now.
  - apply (list_elem_of_lookup_2 _ 2). reflexivity.
  - apply (list_elem_of_lookup_2 _ 1). reflexivity.
  - discriminate.
  - reflexivity.
  - split; [by decide_now|]. split; [by decide_now|]. right. reflexivity.
Defined.

(** Shards that are not adjacent are merged as well: the values between them get a second
    owner. *)
Example merge_across_gap :
  length (owners (value_or empty_catalog (orochi_merge_shards_impl (catalog_of 4) 1 3)) (-1600000000)) = 2%nat.
Proof. vm_compute. reflexivity. Qed.

Lemma rebalance_balances_witness :
  ∃ c', orochi_rebalance_table_shards (catalog_of 5) true 1 = Ok c' ∧
    Forall2 (λ s s', shard_id s' = shard_id s ∧ hash_min s' = hash_min s ∧ hash_max s' = hash_max s)
      (orochi_catalog_get_table_shards (catalog_of 5) 1) (orochi_catalog_get_table_shards c' 1) ∧
    ∀ n, n ∈ workers (catalog_of 5) →
      let total := len (orochi_catalog_get_table_shards (catalog_of 5) 1) in
      let held := len (filter (λ s, read_node_id s = n_id n) (orochi_catalog_get_table_shards c' 1)) in
      total / len (workers (catalog_of 5)) ≤ held ≤ total / len (workers (catalog_of 5)) + 1.
Proof. apply (rebalance_balances (catalog_of 5) 1); [by decide_now..|done]. Defined.

(** Three rows of a table of 32 shards with an INT8 distribution column. *)
Definition row (k payload : Z) : Row := {| key := Some (DatumVal k); payload := payload |}.
Definition empty_tables : Tables := {| parent := []; shard_tables := replicate 32 [] |}.
Definition put (r : Row) (t : Tables) : Tables :=
  value_or t (route_insert no_address INT8OID 32 r t).
Definition filled : Tables := put (row 6 102) (put (row 5 101) (put (row 5 100) empty_tables)).
Definition catalog32 : ShardCatalog := catalog_of 32.

(** The distribution column is the second one, and the table the first of the query. *)
Definition second_column : KeyColumn :=
  {| attname a := if a =? 1 then Some "payload"%string else if a =? 2 then Some "key"%string else None;
     dist_column := "key" |}.
Definition key_is (k type : Z) : Qual :=
  QOp "=" [QVar 1 2; QConst false (DatumVal k) type].
Definition values (r : Row) (n a : Z) : option Datum :=
  if a =? 2 then if n =? 1 then key r else Some (DatumVal 5) else Some (DatumVal (payload r)).

Lemma put_placed r t :
  placed no_address INT8OID 32 t → placed no_address INT8OID 32 (put r t).
Proof.
  intros Hp. unfold put. destruct (route_insert no_address INT8OID 32 r t) eqn:E; try done.
  unfold route_insert in E. inv_ok. by eapply placed_insert.
Qed.

Lemma filled_placed : placed no_address INT8OID 32 filled.
Proof. apply put_placed, put_placed, put_placed, (placed_fresh no_address INT8OID 32). Qed.


Lemma second_column_key r a :
  var_is_distribution_column second_column a = true → values r 1 a = key r.
Proof.
  unfold var_is_distribution_column, values. cbn.
  destruct (Z.eqb_spec a 1) as [->|]; [by case_bool_decide|]. by destruct (a =? 2).
Qed.


(** The two rows with the key 5 are found by their [bigint] key. *)
Example point_query_hits :
  target_rows no_address second_column catalog32 1 32 (Some (key_is 5 INT8OID)) filled = [row 5 100; row 5 101].
Proof. vm_compute. reflexivity. Qed.

(** The type of the constant matters: a [bigint] column compared with an
    integer literal that fits [int] is pruned by the hash of four bytes, and the
    query loses the rows that satisfy its condition. *)
Theorem pruning_cross_type_misses :
  row 5 100 ∈ all_shards filled ∧ satisfies (values (row 5 100)) (key_is 5 INT4OID) ∧
  placed no_address INT8OID 32 filled ∧
  row 5 100 ∉ target_rows no_address second_column catalog32 1 32 (Some (key_is 5 INT4OID)) filled.
Proof.
  split; [by decide_now|]. split; [done|]. split; [apply filled_placed|]. by decide_now.
Qed.

(** The table of the variable matters as well: the second table of a query has a column of the
    same number, a condition on it prunes the first one, and the query loses the rows of the
    first table that it should join. *)
Theorem other_table_prunes :
  let q := QOp "=" [QVar 2 2; QConst false (DatumVal 5) INT8OID] in
  row 6 102 ∈ all_shards filled ∧ satisfies (values (row 6 102)) q ∧
  placed no_address INT8OID 32 filled ∧
  row 6 102 ∉ target_rows no_address second_column catalog32 1 32 (Some q) filled.
Proof.
  split; [by decide_now|]. split; [done|]. split; [apply filled_placed|]. by decide_now.
Qed.

(** An update through the view deletes every row with the key of the old row. *)
Example view_update_loses_duplicates :
  all_shards (value_or filled
    (view_update no_address INT8OID 32 (row 5 100) (row 5 200) filled)) = [row 5 200; row 6 102].
Proof. vm_compute. reflexivity. Qed.

Lemma create_distributed_misplaces_witness :
  let rows := [row 5 100; row 6 101; row 7 102] in
  ∃ t, orochi_create_distributed_table no_address INT8OID 32 rows = Ok t ∧ parent t = rows ∧
    (∀ i l, shard_tables t !! i = Some l →
      l = filter (λ r, ranged no_address INT8OID 32 r = Z.of_nat i ∧
                       routed no_address INT8OID 32 r ≠ Z.of_nat i) rows) ∧
    (placed no_address INT8OID 32 t → all_shards t = []).
Proof.
  intros rows. apply (create_distributed_misplaces no_address INT8OID 32 rows); [lia|].
  by repeat constructor.
Defined.

(** The rows are then in the shard tables and in the parent, and the query for one
    of them reads neither copy. *)
Example distributed_row_is_lost :
  let t := value_or empty_tables
    (orochi_create_distributed_table no_address INT8OID 32 [row 5 100; row 6 101; row 7 102]) in
  row 5 100 ∈ all_shards t ∧
  target_rows no_address second_column catalog32 1 32 (Some (key_is 5 INT8OID)) t = [].
Proof. split; [by decide_now|vm_compute; reflexivity]. Qed.
