(* ===== verification/Nodes.v ===== *)
(** * Nodes

    The SQL functions of [tiered/tiered_storage.c] that add, remove and drain nodes and that
    rebalance shards, over the catalog of [Sharding]. *)
From stdpp Require Import list sets.
From S2P Require Import Prelude CText Sharding.

Local Open Scope Z_scope.

(** The catalog with the addresses of its nodes, unique by their constraint, and the sequence
    of node ids. *)
Record Cluster := { catalog : ShardCatalog; addresses : list (text * Z * Z); next_node_id : Z }.

(** The order a query without [ORDER BY] finds the rows in. *)
Class TableOrder := {
  table_order : list Z → list Z;
  table_order_perm l : table_order l ≡ₚ l }.

Definition with_nodes (f : list OrochiNodeInfo → list OrochiNodeInfo) (c : ShardCatalog) : ShardCatalog :=
  {| shards := shards c; next_shard_id := next_shard_id c; nodes := f (nodes c); moves := moves c |}.

Definition set_status (b : bool) (n : OrochiNodeInfo) : OrochiNodeInfo :=
  {| n_id := n_id n; role := role n; is_active := b; shard_count := shard_count n |}.
Definition set_role (r : OrochiNodeRole) (n : OrochiNodeInfo) : OrochiNodeInfo :=
  {| n_id := n_id n; role := r; is_active := true; shard_count := shard_count n |}.

Definition orochi_catalog_update_node_status (id : Z) (b : bool) (c : ShardCatalog) : ShardCatalog :=
  with_nodes (map (λ n, if n_id n =? id then set_status b n else n)) c.

(** A known address keeps its id; the sequence advances in both cases. *)
Definition orochi_catalog_add_node (hostname : text) (port : Z) (r : OrochiNodeRole) (c : Cluster)
    : Z * Cluster :=
  match head (filter (λ a, a.1 = (hostname, port)) (addresses c)) with
  | Some (_, id) =>
      (id, {| catalog := with_nodes (map (λ n, if n_id n =? id then set_role r n else n)) (catalog c);
              addresses := addresses c; next_node_id := next_node_id c + 1 |})
  | None =>
      let id := next_node_id c in
      (id, {| catalog := with_nodes (λ l, l ++ [{| n_id := id; role := r; is_active := true; shard_count := 0 |}])
                           (catalog c);
              addresses := addresses c ++ [(hostname, port, id)]; next_node_id := id + 1 |})
  end.
Definition orochi_add_node_sql (hostname : text) (port : Z) : Cluster → Z * Cluster :=
  orochi_catalog_add_node hostname port OROCHI_NODE_WORKER.

Section functions.
Context `{O : TableOrder}.

Definition held_by (node : Z) (c : ShardCatalog) : list OrochiShardInfo :=
  filter (λ s, node_id s = Some node) (shards c).
Definition shards_on (node : Z) (c : ShardCatalog) : list Z := table_order (shard_id <$> held_by node c).

(** [list_delete_ptr] of the first node with the id. *)
Fixpoint without (node : Z) (l : list OrochiNodeInfo) : list OrochiNodeInfo :=
  match l with
  | [] => []
  | n :: l => if n_id n =? node then l else n :: without node l
  end.
Definition other_nodes (node : Z) (c : ShardCatalog) : list OrochiNodeInfo :=
  without node (orochi_catalog_get_active_nodes c).

Fixpoint round_robin (targets : list OrochiNodeInfo) (ids : list Z) (node_index : Z) (c : ShardCatalog)
    : ShardCatalog :=
  match ids with
  | [] => c
  | id :: ids =>
      let target := match targets !! Z.to_nat node_index with Some n => n_id n | None => 0 end in
      round_robin targets ids ((node_index + 1) mod len targets)
        (orochi_catalog_update_shard_placement c id target)
  end.

Definition orochi_drain_node_sql (node : Z) (c : ShardCatalog) : outcome ShardCatalog :=
  let targets := other_nodes node c in
  if len targets =? 0 then Err "cannot drain node: no other active nodes available"
  else Ok (round_robin targets (shards_on node c) 0 c).

Definition orochi_remove_node_sql (node : Z) (c : ShardCatalog) : outcome ShardCatalog :=
  let ids := shards_on node c in
  c ← (if 0 <? len ids then
         let targets := other_nodes node c in
         if len targets =? 0 then Err "cannot remove node: no other active nodes available"
         else Ok (round_robin targets ids 0 c)
       else Ok c);
  Ok (orochi_catalog_update_node_status node false c).

(** ** Rebalancing by count *)

Fixpoint to_underloaded (underloaded : list OrochiNodeInfo) (ids : list Z) (underload_idx : Z)
    (c : ShardCatalog) : ShardCatalog :=
  match ids with
  | [] => c
  | id :: ids =>
      if 0 <? len underloaded then
        match underloaded !! Z.to_nat (underload_idx mod len underloaded) with
        | Some n => to_underloaded underloaded ids (underload_idx + 1)
                      (orochi_catalog_update_shard_placement c id (n_id n))
        | None => c
        end
      else c
  end.

Fixpoint from_overloaded (underloaded : list OrochiNodeInfo) (limit : Z) (l : list OrochiNodeInfo)
    (c : ShardCatalog) : ShardCatalog :=
  match l with
  | [] => c
  | n :: l =>
      from_overloaded underloaded limit l
        (to_underloaded underloaded (take (Z.to_nat limit) (shards_on (n_id n) c)) 0 c)
  end.

(** The shards that are counted for the average are those of the table, those that are
    counted for a node are all of its shards.  The second strategy does nothing, and so does
    any other name. *)
Definition orochi_rebalance_shards_sql (table : option Z) (strategy : option text) (c : ShardCatalog)
    : ShardCatalog :=
  let active := orochi_catalog_get_active_nodes c in
  let num_nodes := len active in
  if num_nodes <? 2 then c else
  let oid := default 0 table in
  let total := if negb (oid =? 0) then len (filter (λ s, table_oid s = oid) (shards c)) else len (shards c) in
  let target_per_node := Z.quot (i32 (i32 total + num_nodes - 1)) num_nodes in
  if bool_decide (default (str "by_shard_count") strategy = str "by_shard_count") then
    let count n := len (held_by (n_id n) c) in
    let overloaded := filter (λ n, target_per_node + 1 < count n) active in
    let underloaded := filter (λ n, count n < target_per_node) active in
    from_overloaded underloaded (Z.quot target_per_node 2) overloaded c
  else c.

End functions.

(** ** The round of the shards of a node *)

Section loop.
Context `{O : TableOrder}.

(** Where the loop puts a shard. *)
Definition placed_by (targets : list OrochiNodeInfo) (ids : list Z) (j : Z) (s : OrochiShardInfo)
    : OrochiShardInfo :=
  match list_find (λ id, id = shard_id s) ids with
  | Some (k, _) =>
      set_node (match targets !! Z.to_nat ((j + Z.of_nat k) mod len targets) with
                | Some n => n_id n | None => 0 end) s
  | None => s
  end.

Lemma round_robin_spec targets ids :
  targets ≠ [] → NoDup ids → ∀ j c, 0 <= j < len targets →
  shards (round_robin targets ids j c) = placed_by targets ids j <$> shards c ∧
  nodes (round_robin targets ids j c) = nodes c.
Proof.
  intros Ht. assert (Hw : 0 < len targets) by (destruct targets; [done|cbn; lia]).
  induction 1 as [|id ids Hn _ IH]; intros j c Hj; cbn [round_robin].
  { split; [|done]. symmetry. apply map_id. }
  destruct (IH ((j + 1) mod len targets) (orochi_catalog_update_shard_placement c id
    match targets !! Z.to_nat j with Some n => n_id n | None => 0 end)) as [E En].
  { by apply Z.mod_pos_bound. }
  rewrite E, En. split; [|done]. unfold orochi_catalog_update_shard_placement, update_shard.
  cbn [shards with_shards]. rewrite <- (list_fmap_compose _ (placed_by _ _ _)).
  apply list_fmap_ext. intros _ s _. unfold compose, placed_by. cbn [list_find].
  destruct (Z.eqb_spec (shard_id s) id) as [Hs|Hs]; cbn [shard_id set_node].
  - rewrite decide_True by done. destruct (list_find (λ x, x = shard_id s) ids) as [[k y]|] eqn:F.
    + apply list_find_Some in F as (Hk & -> & _). exfalso. apply Hn. rewrite <- Hs.
      by eapply list_elem_of_lookup_2.
    + change (Z.of_nat 0) with 0. by rewrite Z.add_0_r, (Z.mod_small j) by lia.
  - rewrite decide_False by done. destruct (list_find (λ x, x = shard_id s) ids) as [[k y]|]; [|done].
    cbn [fmap option_fmap option_map prod_map fst].
    replace ((j + Z.of_nat (S k)) mod len targets) with (((j + 1) mod len targets + Z.of_nat k) mod len targets);
      [done|]. rewrite Zplus_mod_idemp_l, Nat2Z.inj_succ. by replace (j + Z.succ _) with (j + 1 + Z.of_nat k) by lia.
Qed.

Lemma without_spec node l : NoDup (n_id <$> l) → without node l = filter (λ n, n_id n ≠ node) l.
Proof.
  induction l as [|n l IH]; intros Hnd; [done|]. cbn [without]. rewrite filter_cons.
  apply NoDup_cons in Hnd as [Hn Hnd].
  destruct (Z.eqb_spec (n_id n) node) as [<-|Hne].
  - rewrite decide_False by tauto. symmetry. apply filter_all.
    intros x Hx E. apply Hn. rewrite <- E. by apply list_elem_of_fmap_2.
  - rewrite decide_True by done. by rewrite IH.
Qed.

Definition position (id : Z) (ids : list Z) : nat :=
  match list_find (λ x, x = id) ids with Some (k, _) => k | None => 0 end.

Lemma position_lookup ids k id : NoDup ids → ids !! k = Some id → position id ids = k.
Proof.
  intros Hnd Hk. unfold position. destruct (list_find (λ x, x = id) ids) as [[k' y]|] eqn:E.
  - apply list_find_Some in E as (Hk' & -> & _). by eapply NoDup_lookup.
  - apply list_find_None in E. rewrite Forall_forall in E. by destruct (E id (list_elem_of_lookup_2 _ _ _ Hk)).
Qed.

Section draining.
Context (node : Z) (c : ShardCatalog).
Context (Hids : NoDup (shard_id <$> shards c)) (Hnodes : NoDup (n_id <$> nodes c)).
Let targets := other_nodes node c.
Let ids := shards_on node c.

Lemma targets_spec : NoDup (n_id <$> targets) ∧ ∀ n, n ∈ targets → n ∈ nodes c ∧ is_active n = true ∧ n_id n ≠ node.
Proof.
  assert (Ha : ∀ (P : OrochiNodeInfo → Prop) `{∀ x, Decision (P x)} l, NoDup (n_id <$> l) → NoDup (n_id <$> filter P l)).
  { intros P HP l Hl. eapply sublist_NoDup; [exact Hl|]. apply fmap_sublist, sublist_filter. }
  unfold targets, other_nodes. rewrite without_spec by (by apply Ha).
  split; [by apply Ha, Ha|]. intros n (Hn & (Hact & Hin)%list_elem_of_filter)%list_elem_of_filter. done.
Qed.

Lemma ids_spec id : id ∈ ids ↔ ∃ s, s ∈ shards c ∧ shard_id s = id ∧ node_id s = Some node.
Proof.
  unfold ids, shards_on, held_by. rewrite table_order_perm, list_elem_of_fmap.
  split; [intros (s & -> & (? & ?)%list_elem_of_filter)|intros (s & ? & <- & ?)]; exists s; [done|].
  split; [done|]. by apply list_elem_of_filter.
Qed.

Lemma ids_nodup : NoDup ids.
Proof.
  unfold ids, shards_on, held_by. rewrite table_order_perm.
  eapply sublist_NoDup; [exact Hids|]. apply fmap_sublist, sublist_filter.
Qed.

Lemma on_node_iff s : s ∈ shards c → node_id s = Some node ↔ shard_id s ∈ ids.
Proof.
  intros Hs. rewrite ids_spec. split; [by exists s|]. intros (s' & Hs' & Heq & Hn).
  apply list_elem_of_lookup in Hs as [i Hi], Hs' as [i' Hi'].
  assert (i = i') as ->; [|congruence]. eapply NoDup_lookup; [exact Hids| |].
  - by rewrite list_lookup_fmap, Hi.
  - rewrite list_lookup_fmap, Hi'. cbn. by rewrite Heq.
Qed.

(** What the loop does to a shard of the catalog. *)
Lemma placed_other s : s ∈ shards c → node_id s ≠ Some node → placed_by targets ids 0 s = s.
Proof.
  intros Hs Hn. unfold placed_by. destruct (list_find _ ids) as [[k y]|] eqn:E; [|done].
  apply list_find_Some in E as (Hk & -> & _). destruct Hn. apply on_node_iff; [done|].
  by eapply list_elem_of_lookup_2.
Qed.

Lemma placed_here s : targets ≠ [] → s ∈ shards c → node_id s = Some node →
  ∃ n, targets !! (position (shard_id s) ids mod length targets)%nat = Some n ∧
       placed_by targets ids 0 s = set_node (n_id n) s.
Proof.
  intros Ht Hs Hn. apply on_node_iff in Hn; [|done]. unfold placed_by, position.
  destruct (list_find _ ids) as [[k y]|] eqn:E.
  - apply list_find_Some in E as (Hk & -> & _).
    assert (length targets ≠ 0%nat) by (by destruct targets).
    destruct (lookup_lt_is_Some_2 targets (k mod length targets)) as [n Hk']; [by apply Nat.mod_upper_bound|].
    exists n. split; [done|]. rewrite Z.add_0_l, <- Nat2Z.inj_mod, Nat2Z.id. by rewrite Hk'.
  - apply list_find_None in E. rewrite Forall_forall in E. by destruct (E _ Hn).
Qed.

Let turn (j : nat) (id : Z) : Prop := (position id ids mod length targets = j)%nat.
#[local] Instance turn_dec j id : Decision (turn j id).
Proof. unfold turn. apply _. Defined.

(** The shards a target has afterwards are its own and those whose turn is its. *)
Lemma count_placed n j l :
  targets !! j = Some n → (∀ s, s ∈ l → s ∈ shards c) →
  length (filter (λ s, node_id s = Some (n_id n)) (placed_by targets ids 0 <$> l)) =
  (length (filter (λ s, node_id s = Some (n_id n)) l) +
   length (filter (turn j) (shard_id <$> filter (λ s, node_id s = Some node) l)))%nat.
Proof.
  intros Hj. assert (Hne : targets ≠ []) by (intros E; by rewrite E in Hj).
  destruct targets_spec as [Hdist Htarget].
  assert (Hn : n_id n ≠ node) by (apply Htarget; by eapply list_elem_of_lookup_2).
  induction l as [|s l IH]; intros Hl; [done|].
  assert (Hs : s ∈ shards c) by (apply Hl; by left).
  rewrite fmap_cons, !(filter_cons _ (_ s)), !(filter_cons _ s).
  destruct (decide (node_id s = Some node)) as [E|E].
  - destruct (placed_here s Hne Hs E) as (n' & Hn' & ->). cbn [node_id set_node].
    rewrite fmap_cons, (filter_cons (turn j)).
    assert (Hiff : Some (n_id n') = Some (n_id n) ↔ turn j (shard_id s)).
    { unfold turn. split; [|intros Ht; congruence]. intros [= Hnn].
      eapply (NoDup_lookup (n_id <$> targets)); [exact Hdist| |]; rewrite list_lookup_fmap;
        [rewrite Hn'|rewrite Hj]; cbn; by rewrite ?Hnn. }
    specialize (IH (λ x Hx, Hl x (list_elem_of_further _ _ _ Hx))).
    repeat case_decide; cbn [length] in *; try tauto; try congruence; lia.
  - rewrite (placed_other s Hs E). specialize (IH (λ x Hx, Hl x (list_elem_of_further _ _ _ Hx))).
    case_decide; cbn [length]; lia.
Qed.

Lemma turns_shared j : (j < length targets)%nat →
  len (filter (turn j) (shard_id <$> held_by node c)) =
  (len (held_by node c) + (len targets - 1 - Z.of_nat j)) / len targets.
Proof.
  intros Hj. transitivity (len (filter (turn j) ids)).
  { unfold ids, shards_on. by rewrite table_order_perm. }
  assert (Hlen : len ids = len (held_by node c)).
  { unfold ids, shards_on. by rewrite table_order_perm, length_fmap. }
  rewrite <- Hlen, <- count_residues by lia. f_equal. apply length_filter_indices.
  intros k id Hk. cbn [Nat.add]. unfold turn. rewrite (position_lookup ids k id ids_nodup Hk).
  rewrite <- Nat2Z.inj_mod. lia.
Qed.
End draining.
End loop.

(** Dividing by a number of nodes, from any of them. *)
Lemma share_of_turns (m w j : Z) : 0 <= m → 0 <= j < w → m / w <= (m + (w - 1 - j)) / w <= m / w + 1.
Proof.
  intros Hm Hj. pose proof (Z.div_mod m w ltac:(lia)). pose proof (Z.mod_pos_bound m w ltac:(lia)).
  split; [apply Z.div_le_mono; lia|].
  assert ((m + (w - 1 - j)) / w < m / w + 2); [|lia]. apply Z.div_lt_upper_bound; lia.
Qed.

(** Draining a node succeeds when another node is active: the node keeps no shard, the
    other shards stay where they are, no range changes, and the active nodes take the shards
    of the node in equal numbers up to one.  The node stays active. *)
Theorem drain_node_spreads `{O : TableOrder} node c :
  NoDup (shard_id <$> shards c) → NoDup (n_id <$> nodes c) → other_nodes node c ≠ [] →
  ∃ c', orochi_drain_node_sql node c = Ok c' ∧ nodes c' = nodes c ∧ held_by node c' = [] ∧
    Forall2 (λ s s', shard_id s' = shard_id s ∧ hash_min s' = hash_min s ∧ hash_max s' = hash_max s ∧
                     (node_id s ≠ Some node → s' = s)) (shards c) (shards c') ∧
    ∀ n, n ∈ other_nodes node c →
      let share := len (held_by node c) / len (other_nodes node c) in
      len (held_by (n_id n) c) + share <= len (held_by (n_id n) c') <= len (held_by (n_id n) c) + share + 1.
Proof.
  intros Hids Hnodes Hne. unfold orochi_drain_node_sql.
  assert (Hw : 0 < len (other_nodes node c)) by (destruct (other_nodes node c); [done|cbn; lia]).
  rewrite (proj2 (Z.eqb_neq _ _)) by lia.
  destruct (round_robin_spec (other_nodes node c) (shards_on node c) Hne (ids_nodup node c Hids) 0 c)
    as [Es En]; [lia|]. eexists. split; [reflexivity|]. split; [exact En|]. unfold held_by at 1. rewrite Es.
  split; [|split].
  - apply filter_none. intros s' (s & -> & Hs)%list_elem_of_fmap Hn.
    destruct (decide (node_id s = Some node)) as [E|E].
    + destruct (placed_here node c Hids s Hne Hs E) as (n & Hk & Hp). rewrite Hp in Hn. injection Hn as Hn.
      destruct (targets_spec node c Hnodes) as [_ Ht].
      destruct (Ht n) as (_ & _ & ?); [by eapply list_elem_of_lookup_2|done].
    + by rewrite placed_other in Hn.
  - apply Forall2_fmap_r. apply Forall_Forall2_diag. apply Forall_forall. intros s Hs.
    destruct (decide (node_id s = Some node)) as [E|E].
    + destruct (placed_here node c Hids s Hne Hs E) as (n & _ & Hp). cbn. by rewrite Hp.
    + cbn. by rewrite (placed_other node c Hids s Hs E).
  - intros n [j Hj]%list_elem_of_lookup. cbn zeta. unfold held_by at 3 4. rewrite Es.
    pose proof (lookup_lt_Some _ _ _ Hj).
    rewrite (count_placed node c Hids Hnodes n j) by done. rewrite Nat2Z.inj_add.
    change (filter (λ s, node_id s = Some node) (shards c)) with (held_by node c).
    rewrite turns_shared by done. fold (held_by (n_id n) c).
    destruct (share_of_turns (len (held_by node c)) (len (other_nodes node c)) (Z.of_nat j)); lia.
Qed.

(** Removing a node is draining it and closing it; a node without shards is closed though it
    may be the last one. *)
Lemma remove_node_drains `{O : TableOrder} node c c' :
  orochi_remove_node_sql node c = Ok c' →
  (if decide (held_by node c = []) then c' = orochi_catalog_update_node_status node false c
   else ∃ c1, orochi_drain_node_sql node c = Ok c1 ∧ c' = orochi_catalog_update_node_status node false c1).
Proof.
  unfold orochi_remove_node_sql, orochi_drain_node_sql.
  assert (Hlen : length (shards_on node c) = length (held_by node c)).
  { unfold shards_on. by rewrite table_order_perm, length_fmap. }
  rewrite Hlen. case_decide as E.
  - rewrite E. cbn. by intros [= <-].
  - rewrite (proj2 (Z.ltb_lt _ _)) by (destruct (held_by node c); [done|cbn; lia]).
    destruct (_ =? 0); cbn [mbind outcome_bind]; intros [= <-]. by eexists.
Qed.

(** ** Witnesses *)

Section example.

#[local] Instance as_stored : TableOrder := {| table_order l := l; table_order_perm l := reflexivity l |}.

Definition worker (id : Z) : OrochiNodeInfo :=
  {| n_id := id; role := OROCHI_NODE_WORKER; is_active := true; shard_count := 0 |}.
Definition shard (node id : Z) : OrochiShardInfo :=
  {| shard_id := id; table_oid := 16400; shard_index := id; hash_min := id; hash_max := id;
     node_id := Some node; size_bytes := 0 |}.
(** Twelve shards on the first node, eight on the second. *)
Definition uneven : ShardCatalog :=
  {| shards := map (shard 1) (seqZ 0 12) ++ map (shard 2) (seqZ 12 8); next_shard_id := 20;
     nodes := [worker 1; worker 2]; moves := [] |}.
Definition loads (c : ShardCatalog) : list Z := map (λ n, len (held_by (n_id n) c)) (nodes c).

(** Rebalancing takes half of the average from a node that has two more than it: the loads
    get further apart, and the next call puts them back. *)
Lemma rebalancing_swings :
  loads uneven = [12; 8] ∧
  loads (orochi_rebalance_shards_sql None None uneven) = [7; 13] ∧
  loads (orochi_rebalance_shards_sql None None (orochi_rebalance_shards_sql None None uneven)) = [12; 8].
Proof. vm_compute. done. Qed.

Definition three_nodes : ShardCatalog :=
  {| shards := map (shard 1) (seqZ 0 5) ++ [shard 2 5]; next_shard_id := 6;
     nodes := [worker 1; worker 2; worker 3]; moves := [] |}.

Lemma drain_node_spreads_witness :
  ∃ c', orochi_drain_node_sql 1 three_nodes = Ok c' ∧ nodes c' = nodes three_nodes ∧ held_by 1 c' = [] ∧
    Forall2 (λ s s', shard_id s' = shard_id s ∧ hash_min s' = hash_min s ∧ hash_max s' = hash_max s ∧
                     (node_id s ≠ Some 1 → s' = s)) (shards three_nodes) (shards c') ∧
    ∀ n, n ∈ other_nodes 1 three_nodes →
      let share := len (held_by 1 three_nodes) / len (other_nodes 1 three_nodes) in
      len (held_by (n_id n) three_nodes) + share <= len (held_by (n_id n) c')
        <= len (held_by (n_id n) three_nodes) + share + 1.
Proof.
  apply (drain_node_spreads 1 three_nodes).
  - decide_now.
  - decide_now.
  - discriminate.
Defined.

End example.
