(* ===== verification/RaftLog.v ===== *)
(** * Raft log: the array of entries, its write-ahead log and snapshots

    Models [src/consensus/raft_log.c] and the log structures of
    [src/consensus/raft.h].  The state is the [RaftLog] structure and the directory
    of its files: write-ahead log files by the first index in their name and
    snapshot files by the index in theirs.  File operations succeed; a crash is a
    file cut short.  [pad] is what the padding of a C structure holds, [fresh] what a
    slot holds that [repalloc] adds, [now] the clock. *)
From stdpp Require Import gmap sorting.
From S2P Require Import Prelude Crc.

Local Open Scope Z_scope.

(** ** Data *)

Definition RAFT_MAX_LOG_ENTRIES : Z := 10000.
Definition RAFT_WAL_MAGIC : Z := 0x52414654.
Definition RAFT_WAL_VERSION : Z := 1.
Definition RAFT_WAL_ENTRY : Z := 1.
Definition RAFT_WAL_TRUNCATE : Z := 2.
Definition RAFT_WAL_COMMIT : Z := 3.
Definition RAFT_WAL_SNAPSHOT : Z := 4.
Definition RAFT_LOG_COMMAND : Z := 0.
Definition RAFT_LOG_CONFIG_CHANGE : Z := 1.
Definition RAFT_LOG_NOOP : Z := 2.
(** The allocation limit of [palloc]. *)
Definition MaxAllocSize : Z := 0x3fffffff.

(** [command_data] is a pointer. *)
Record RaftLogEntry := {
  index : Z; term : Z; type : Z; command_size : Z; command_data : option (list Z);
  created_at : Z }.

#[export] Instance entry_eq_dec : EqDecision RaftLogEntry.
Proof. solve_decision. Defined.

Record RaftWALRecord := { rtype : Z; size : Z; crc : Z; rindex : Z }.

(** A zeroed slot. *)
Definition zero_entry : RaftLogEntry :=
  {| index := 0; term := 0; type := 0; command_size := 0; command_data := None; created_at := 0 |}.

(** [persistence_enabled] is set together with [wal_path]. *)
Record RaftLog := {
  entries : list RaftLogEntry; first_index : Z; last_index : Z; commit_index : Z;
  last_applied : Z; capacity : Z; persistence_enabled : bool }.

Record Disk := { wal : gmap Z (list Z); snapshots : gmap Z (list Z) }.

Definition raft_log_init (wal_path : bool) : RaftLog :=
  {| entries := replicate 1024 zero_entry; first_index := 1; last_index := 0; commit_index := 0;
     last_applied := 0; capacity := 1024; persistence_enabled := wal_path |}.

Definition with_entries (log : RaftLog) (l : list RaftLogEntry) (cap : Z) : RaftLog :=
  {| entries := l; first_index := first_index log; last_index := last_index log;
     commit_index := commit_index log; last_applied := last_applied log; capacity := cap;
     persistence_enabled := persistence_enabled log |}.

Definition with_last (log : RaftLog) (last : Z) : RaftLog :=
  {| entries := entries log; first_index := first_index log; last_index := last;
     commit_index := commit_index log; last_applied := last_applied log;
     capacity := capacity log; persistence_enabled := persistence_enabled log |}.

Definition with_commit (log : RaftLog) (commit applied : Z) : RaftLog :=
  {| entries := entries log; first_index := first_index log; last_index := last_index log;
     commit_index := commit; last_applied := applied;
     capacity := capacity log; persistence_enabled := persistence_enabled log |}.

Definition with_first (log : RaftLog) (first : Z) : RaftLog :=
  {| entries := entries log; first_index := first; last_index := last_index log;
     commit_index := commit_index log; last_applied := last_applied log;
     capacity := capacity log; persistence_enabled := persistence_enabled log |}.

(** ** Reading the array *)

Definition raft_log_get (log : RaftLog) (i : Z) : outcome (option RaftLogEntry) :=
  if (i <? first_index log) || (last_index log <? i) then Ok None
  else e ← deref (entries log !! Z.to_nat (u64 (i - first_index log))); Ok (Some e).

Fixpoint get_all (log : RaftLog) (l : list Z) : outcome (option (list RaftLogEntry)) :=
  match l with
  | [] => Ok (Some [])
  | i :: l =>
      e ← raft_log_get log i;
      match e with
      | None => Ok None
      | Some e => r ← get_all log l; Ok (option_map (cons e) r)
      end
  end.

Definition raft_log_get_range (log : RaftLog) (start_index end_index : Z)
    : outcome (option (list RaftLogEntry)) :=
  if (end_index <? start_index) || (start_index <? first_index log) || (last_index log <? end_index)
  then Ok None
  else get_all log (seqZ start_index (end_index - start_index + 1)).

Definition raft_log_term_at (log : RaftLog) (i : Z) : outcome Z :=
  if i =? 0 then Ok 0 else
  e ← raft_log_get log i;
  Ok (match e with None => 0 | Some e => term e end).

(** The doubling loop of [raft_log_ensure_capacity] on an [int32], which becomes
    zero within 32 doublings and stays there if it passes 2^30 on its way. *)
Fixpoint grow (fuel : nat) (cap needed : Z) : outcome Z :=
  if needed <=? cap then Ok cap else
  match fuel with
  | O => Diverge
  | S fuel => grow fuel (i32 (cap * 2)) needed
  end.

(** The bytes of a command that are copied. *)
Definition command_bytes (e : RaftLogEntry) : outcome (list Z) :=
  match command_data e with
  | Some d =>
      if 0 <? command_size e then
        if len d <? command_size e then Undef else Ok (take (Z.to_nat (command_size e)) d)
      else Ok []
  | None => Ok []
  end.

Definition copy_entry (now next : Z) (src : RaftLogEntry) : outcome RaftLogEntry :=
  bytes ← command_bytes src;
  let copied := match command_data src with Some _ => 0 <? command_size src | None => false end in
  Ok {| index := next; term := term src; type := type src;
        command_size := if copied then command_size src else 0;
        command_data := if copied then Some bytes else None;
        created_at := if created_at src =? 0 then now else created_at src |}.

Fixpoint append_loop (now : Z) (log : RaftLog) (next : Z) (srcs : list RaftLogEntry)
    : outcome (RaftLog * Z) :=
  match srcs with
  | [] => Ok (log, next)
  | src :: srcs =>
      dest ← copy_entry now next src;
      let a := Z.to_nat (u64 (next - first_index log)) in
      if decide (a < length (entries log))%nat
      then append_loop now (with_entries log (<[a := dest]> (entries log)) (capacity log))
             (u64 (next + 1)) srcs
      else Undef
  end.

Section log.
Context (fresh : RaftLogEntry) (pad : list Z).

Definition resize (n : Z) (l : list RaftLogEntry) : list RaftLogEntry :=
  take (Z.to_nat n) l ++ replicate (Z.to_nat n - length l) fresh.

Definition raft_log_ensure_capacity (log : RaftLog) (needed : Z) : outcome RaftLog :=
  if needed <=? capacity log then Ok log else
  cap ← grow 32 (capacity log) needed;
  let cap := if RAFT_MAX_LOG_ENTRIES <? cap then RAFT_MAX_LOG_ENTRIES else cap in
  Ok (with_entries log (resize cap (entries log)) cap).

(** ** The write-ahead log *)

Definition raft_log_write_wal_header (now : Z) (log : RaftLog) : list Z :=
  le_enc 4 RAFT_WAL_MAGIC ++ le_enc 4 RAFT_WAL_VERSION ++ le_enc 4 0 ++ pad ++
  le_enc 8 (first_index log) ++ le_enc 8 now.

Definition raft_log_write_wal_record (rtype : Z) (data : list Z) (i : Z) : list Z :=
  le_enc 4 rtype ++ le_enc 4 (len data) ++ le_enc 4 (raft_log_compute_crc data) ++ pad ++
  le_enc 8 i ++ data.

Definition serialize_entry (e : RaftLogEntry) : outcome (list Z) :=
  bytes ← command_bytes e;
  if MaxAllocSize - 24 <=? len bytes then Err "out of memory" else
  Ok (le_enc 8 (term e) ++ le_enc 4 (type e) ++ le_enc 4 (command_size e) ++
      le_enc 8 (created_at e) ++ bytes).

Fixpoint write_entries (log : RaftLog) (l : list Z) : outcome (list Z) :=
  match l with
  | [] => Ok []
  | i :: l =>
      e ← raft_log_get log i;
      match e with
      | None => write_entries log l
      | Some e =>
          data ← serialize_entry e;
          rest ← write_entries log l;
          Ok (raft_log_write_wal_record RAFT_WAL_ENTRY data (index e) ++ rest)
      end
  end.

Definition raft_log_persist (now : Z) (log : RaftLog) (disk : Disk) : outcome Disk :=
  if negb (persistence_enabled log) then Ok disk else
  let file := match wal disk !! first_index log with
              | None => raft_log_write_wal_header now log
              | Some bytes => bytes
              end in
  es ← write_entries log (seqZ (first_index log) (last_index log - first_index log + 1));
  let commit := raft_log_write_wal_record RAFT_WAL_COMMIT (le_enc 8 (commit_index log))
                  (commit_index log) in
  Ok {| wal := <[first_index log := file ++ es ++ commit]> (wal disk); snapshots := snapshots disk |}.

(** ** Writing the array *)

Definition raft_log_append (now : Z) (log : RaftLog) (srcs : list RaftLogEntry) (disk : Disk)
    : outcome (RaftLog * Disk) :=
  match srcs with
  | [] => Ok (log, disk)
  | _ =>
      log ← raft_log_ensure_capacity log (i32 (last_index log - first_index log + 1 + len srcs));
      '(log, next) ← append_loop now log (u64 (last_index log + 1)) srcs;
      let log := with_last log (u64 (next - 1)) in
      disk ← raft_log_persist now log disk;
      Ok (log, disk)
  end.

Definition clear_command (e : RaftLogEntry) : RaftLogEntry :=
  {| index := index e; term := term e; type := type e; command_size := command_size e;
     command_data := None; created_at := created_at e |}.

(** Frees the commands of the slots from [a] up to, not including, [b]. *)
Definition clear_slots (a b : nat) (l : list RaftLogEntry) : outcome (list RaftLogEntry) :=
  if decide (b <= length l)%nat
  then Ok (take a l ++ map clear_command (take (b - a) (drop a l)) ++ drop b l)
  else Undef.

Definition raft_log_truncate (now : Z) (log : RaftLog) (after_index : Z) (disk : Disk)
    : outcome (RaftLog * Disk) :=
  if last_index log <=? after_index then Ok (log, disk) else
  if after_index <? u64 (first_index log - 1) then Ok (log, disk) else
  es ← clear_slots (Z.to_nat (after_index + 1 - first_index log))
         (Z.to_nat (last_index log - first_index log + 1)) (entries log);
  let log := with_last (with_entries log es (capacity log)) after_index in
  let log := with_commit log
    (if last_index log <? commit_index log then last_index log else commit_index log)
    (if last_index log <? last_applied log then last_index log else last_applied log) in
  disk ← raft_log_persist now log disk;
  Ok (log, disk).

Definition raft_log_compact (log : RaftLog) (up_to_index : Z) : outcome RaftLog :=
  if up_to_index <? first_index log then Ok log else
  let up := if last_index log <? up_to_index then last_index log else up_to_index in
  let up := if commit_index log <? up then commit_index log else up in
  let up := if last_applied log <? up then last_applied log else up in
  let removed := Z.to_nat (u64 (up - first_index log + 1)) in
  let remaining := Z.to_nat (u64 (last_index log - up)) in
  if decide (removed + remaining <= length (entries log))%nat then
    let es := take remaining (drop removed (entries log)) ++ replicate removed zero_entry ++
              drop (remaining + removed) (entries log) in
    Ok (with_first (with_entries log es (capacity log)) (u64 (up + 1)))
  else Undef.

(** ** Recovery *)

(** The next record of the file: [None] when the loop over the records ends. *)
Definition raft_log_read_wal_record (bytes : list Z)
    : outcome (option (RaftWALRecord * list Z * list Z)) :=
  if len bytes <? 24 then Ok None else
  let r := {| rtype := le_dec (take 4 bytes); size := le_dec (take 4 (drop 4 bytes));
              crc := le_dec (take 4 (drop 8 bytes)); rindex := le_dec (take 8 (drop 16 bytes)) |} in
  let rest := drop 24 bytes in
  if size r =? 0 then Ok (Some (r, [], rest)) else
  if MaxAllocSize <? size r then Err "invalid memory alloc request size" else
  if len rest <? size r then Ok None else
  let data := take (Z.to_nat (size r)) rest in
  if raft_log_compute_crc data =? crc r then Ok (Some (r, data, drop (Z.to_nat (size r)) rest))
  else Ok None.

Definition deserialize_entry (i : Z) (data : list Z) : outcome RaftLogEntry :=
  if len data <? 24 then Undef else
  let n := i32 (le_dec (take 4 (drop 12 data))) in
  if len (drop 24 data) <? n then Undef else
  Ok {| index := i; term := le_dec (take 8 data); type := i32 (le_dec (take 4 (drop 8 data)));
        command_size := n;
        command_data := if 0 <? n then Some (take (Z.to_nat n) (drop 24 data)) else None;
        created_at := i64 (le_dec (take 8 (drop 16 data))) |}.

(** The entry is kept when it lies beyond the entries recovered so far. *)
Definition recover_entry (log : RaftLog) (e : RaftLogEntry) : outcome RaftLog :=
  if index e <=? last_index log then Ok log else
  log ← raft_log_ensure_capacity log (i32 (index e - first_index log + 1));
  let a := Z.to_nat (u64 (index e - first_index log)) in
  if decide (a < length (entries log))%nat
  then Ok (with_last (with_entries log (<[a := e]> (entries log)) (capacity log)) (index e))
  else Undef.

Definition recover_commit (log : RaftLog) (commit : Z) : RaftLog :=
  if (commit_index log <? commit) && (commit <=? last_index log)
  then with_commit log commit (last_applied log) else log.

Definition recover_record (now : Z) (log : RaftLog) (disk : Disk) (r : RaftWALRecord)
    (data : list Z) : outcome (RaftLog * Disk) :=
  if decide (rtype r = RAFT_WAL_ENTRY) then
    e ← deserialize_entry (rindex r) data;
    log ← recover_entry log e;
    Ok (log, disk)
  else if decide (rtype r = RAFT_WAL_COMMIT) then
    if len data <? 8 then Undef else Ok (recover_commit log (le_dec (take 8 data)), disk)
  else if decide (rtype r = RAFT_WAL_TRUNCATE) then
    if len data <? 8 then Undef else raft_log_truncate now log (le_dec (take 8 data)) disk
  else Ok (log, disk).

(** The loop over the records of the file [name] from position [pos]; a truncation
    record appends to the files while one of them is read. *)
Fixpoint recover_loop (fuel : nat) (now name : Z) (pos : nat) (log : RaftLog) (disk : Disk)
    : outcome (RaftLog * Disk) :=
  match fuel with
  | O => Diverge
  | S fuel =>
      let file := default [] (wal disk !! name) in
      r ← raft_log_read_wal_record (drop pos file);
      match r with
      | None => Ok (log, disk)
      | Some (r, data, rest) =>
          '(log, disk) ← recover_record now log disk r data;
          recover_loop fuel now name (length file - length rest) log disk
      end
  end.

Definition raft_log_recover (fuel : nat) (now : Z) (log : RaftLog) (disk : Disk)
    : outcome (RaftLog * Disk) :=
  if negb (persistence_enabled log) then Ok (log, disk) else
  match wal disk !! first_index log with
  | None => Ok (log, disk)
  | Some bytes =>
      if len bytes <? 32 then Ok (log, disk) else
      if negb (le_dec (take 4 bytes) =? RAFT_WAL_MAGIC) then Ok (log, disk) else
      if negb (le_dec (take 4 (drop 4 bytes)) =? RAFT_WAL_VERSION) then Ok (log, disk) else
      recover_loop fuel now (first_index log) 32
        (with_first log (le_dec (take 8 (drop 16 bytes)))) disk
  end.

(** ** Snapshots *)

Definition raft_log_create_snapshot (now : Z) (log : RaftLog) (last_included_index : Z)
    (snapshot_data : option (list Z)) (snapshot_size : Z) (disk : Disk) : outcome (RaftLog * Disk) :=
  if negb (persistence_enabled log) then Ok (log, disk) else
  t ← raft_log_term_at log last_included_index;
  data ← match snapshot_data with
         | Some d => if 0 <? snapshot_size
                     then if len d <? snapshot_size then Undef
                          else Ok (take (Z.to_nat snapshot_size) d)
                     else Ok []
         | None => Ok []
         end;
  let bytes := le_enc 8 last_included_index ++ le_enc 8 t ++ le_enc 4 snapshot_size ++
               le_enc 8 now ++ data in
  log ← raft_log_compact log last_included_index;
  Ok (log, {| wal := wal disk;
              snapshots := <[last_included_index := bytes]> (snapshots disk) |}).

Record LoadedSnapshot := {
  snap_index : Z; snap_term : Z; snap_size : Z; snap_data : option (list Z) }.

(** The files are visited in any order; the largest index wins. *)
Definition latest_snapshot (disk : Disk) : Z := map_fold (λ i _ m, Z.max i m) 0 (snapshots disk).

Definition raft_log_load_snapshot (log : RaftLog) (disk : Disk) : outcome (option LoadedSnapshot) :=
  if negb (persistence_enabled log) then Ok None else
  let best := latest_snapshot disk in
  if best =? 0 then Ok None else
  match snapshots disk !! best with
  | None => Ok None
  | Some bytes =>
      if len bytes <? 28 then Ok None else
      let n := i32 (le_dec (take 4 (drop 16 bytes))) in
      if (n <? 0) || (1024 * 1024 * 1024 <? n) then Ok None else
      if MaxAllocSize <? n then Err "invalid memory alloc request size" else
      if len (drop 28 bytes) <? n then Ok None else
      Ok (Some {| snap_index := le_dec (take 8 bytes); snap_term := le_dec (take 8 (drop 8 bytes));
                  snap_size := n;
                  snap_data := if 0 <? n then Some (take (Z.to_nat n) (drop 28 bytes)) else None |})
  end.
End log.

(** ** Well-formed logs and what they hold *)

(** An entry that an append can copy. *)
Definition src_ok (e : RaftLogEntry) : Prop :=
  is_u64 (term e) ∧ is_i32 (type e) ∧ is_i64 (created_at e) ∧
  match command_data e with
  | Some d => is_i32 (command_size e) ∧ command_size e < MaxAllocSize - 24 ∧
              command_size e ≤ len d ∧ bytes_ok d
  | None => True
  end.

(** An entry as the log stores it. *)
Definition entry_ok (e : RaftLogEntry) : Prop :=
  is_u64 (index e) ∧ is_u64 (term e) ∧ is_i32 (type e) ∧ is_i64 (created_at e) ∧
  is_i32 (command_size e) ∧ command_size e < MaxAllocSize - 24 ∧
  match command_data e with
  | Some d => command_size e = len d ∧ d ≠ [] ∧ bytes_ok d
  | None => command_size e = 0
  end.

Definition count (log : RaftLog) : Z := last_index log - first_index log + 1.

Definition contents (log : RaftLog) : list RaftLogEntry :=
  take (Z.to_nat (count log)) (entries log).

Record wf (log : RaftLog) : Prop := {
  wf_first : 1 ≤ first_index log;
  wf_last : first_index log - 1 ≤ last_index log < 2 ^ 63;
  wf_applied : first_index log - 1 ≤ last_applied log ≤ commit_index log;
  wf_commit : commit_index log ≤ last_index log;
  wf_length : len (entries log) = capacity log;
  wf_count : count log ≤ capacity log;
  wf_capacity : 1024 ≤ capacity log ≤ RAFT_MAX_LOG_ENTRIES;
  wf_entries : ∀ k e, contents log !! k = Some e →
    index e = first_index log + Z.of_nat k ∧ entry_ok e }.

Lemma init_wf p : wf (raft_log_init p).
Proof. by split. Qed.

Lemma contents_length log : wf log → len (contents log) = count log.
Proof. intros []. unfold contents, count in *. rewrite length_take. lia. Qed.

Lemma get_wf log i :
  wf log → is_u64 i →
  raft_log_get log i = Ok (if decide (first_index log ≤ i)
                           then contents log !! Z.to_nat (i - first_index log) else None).
Proof.
  intros Hwf Hi. pose proof (contents_length log Hwf) as Hlen. destruct Hwf.
  unfold raft_log_get. unfold count in *.
  destruct (Z.ltb_spec i (first_index log)); cbn [orb]; [by rewrite decide_False by lia|].
  rewrite decide_True by lia. destruct (Z.ltb_spec (last_index log) i).
  - f_equal. symmetry. apply lookup_ge_None_2. lia.
  - rewrite uwrap_id by (unfold in_u in *; lia). unfold contents, count.
    rewrite lookup_take_lt by lia.
    destruct (lookup_lt_is_Some_2 (entries log) (Z.to_nat (i - first_index log))) as [e He]; [lia|by rewrite He].
Qed.

(** ** The abstract log *)

(** The entries after [base], with the commit and apply marks. *)
Record LogSpec := { base : Z; items : list RaftLogEntry; committed : Z; applied : Z }.

Definition spec_last (s : LogSpec) : Z := base s + len (items s).

Definition spec_get (s : LogSpec) (i : Z) : option RaftLogEntry :=
  if decide (base s < i) then items s !! Z.to_nat (i - base s - 1) else None.

(** What an append stores for an entry. *)
Definition stamp (now next : Z) (src : RaftLogEntry) : RaftLogEntry :=
  let bytes := match command_data src with
               | Some d => take (Z.to_nat (command_size src)) d | None => [] end in
  {| index := next; term := term src; type := type src; command_size := len bytes;
     command_data := match bytes with [] => None | _ => Some bytes end;
     created_at := if created_at src =? 0 then now else created_at src |}.

Fixpoint stamp_all (now next : Z) (srcs : list RaftLogEntry) : list RaftLogEntry :=
  match srcs with
  | [] => []
  | src :: srcs => stamp now next src :: stamp_all now (next + 1) srcs
  end.

Inductive LogOp :=
| OpAppend (now : Z) (srcs : list RaftLogEntry)
| OpTruncate (now after_index : Z)
| OpCompact (up_to_index : Z).

Definition spec_op (op : LogOp) (s : LogSpec) : LogSpec :=
  match op with
  | OpAppend now srcs =>
      {| base := base s; items := items s ++ stamp_all now (spec_last s + 1) srcs;
         committed := committed s; applied := applied s |}
  | OpTruncate now i =>
      if decide (base s ≤ i < spec_last s) then
        {| base := base s; items := take (Z.to_nat (i - base s)) (items s);
           committed := Z.min (committed s) i; applied := Z.min (applied s) i |}
      else s
  | OpCompact i =>
      let i := Z.min i (applied s) in
      if decide (base s < i) then
        {| base := i; items := drop (Z.to_nat (i - base s)) (items s);
           committed := committed s; applied := applied s |}
      else s
  end.

Definition op_ok (log : RaftLog) (op : LogOp) : Prop :=
  match op with
  | OpAppend now srcs =>
      is_i64 now ∧ Forall src_ok srcs ∧ count log + len srcs ≤ RAFT_MAX_LOG_ENTRIES ∧
      last_index log + len srcs < 2 ^ 63
  | OpTruncate now i => is_i64 now ∧ is_u64 i
  | OpCompact i => is_u64 i
  end.

Definition abs (log : RaftLog) : LogSpec :=
  {| base := first_index log - 1; items := contents log; committed := commit_index log;
     applied := last_applied log |}.

Lemma get_spec log i : wf log → is_u64 i → raft_log_get log i = Ok (spec_get (abs log) i).
Proof.
  intros Hwf Hi. rewrite get_wf by done. unfold spec_get. cbn [base abs items].
  f_equal. repeat case_decide; try lia; [|done]. f_equal. lia.
Qed.

Lemma get_range_spec log i j :
  wf log → is_u64 i → is_u64 j →
  raft_log_get_range log i j = Ok
    (if decide (base (abs log) < i ∧ i ≤ j ∧ j ≤ spec_last (abs log))
     then Some (take (Z.to_nat (j - i + 1)) (drop (Z.to_nat (i - base (abs log) - 1)) (items (abs log))))
     else None).
Proof.
  intros Hwf Hi Hj. pose proof (contents_length log Hwf) as Hlen.
  unfold raft_log_get_range, spec_last. cbn [abs base items].
  unfold count in Hlen. rewrite Hlen.
  destruct (Z.ltb_spec j i); cbn [orb]; [by rewrite decide_False by lia|].
  destruct (Z.ltb_spec i (first_index log)); cbn [orb]; [by rewrite decide_False by lia|].
  destruct (Z.ltb_spec (last_index log) j); [by rewrite decide_False by lia|].
  rewrite decide_True by lia.
  assert (G : ∀ m i, first_index log ≤ i → i + Z.of_nat m ≤ last_index log + 1 →
    get_all log (seqZ i (Z.of_nat m)) =
      Ok (Some (take m (drop (Z.to_nat (i - (first_index log - 1) - 1)) (contents log))))).
  { intros m. pose proof (wf_first log Hwf). pose proof (wf_last log Hwf).
    induction m as [|m IH]; intros k Hk1 Hk2; [done|].
    rewrite seqZ_cons by lia. cbn [get_all]. rewrite get_wf by (done || (unfold in_u; lia)). rewrite decide_True by lia.
    destruct (lookup_lt_is_Some_2 (contents log) (Z.to_nat (k - first_index log))) as [e He]; [lia|].
    rewrite He. cbn [mbind outcome_bind].
    replace (Z.pred (Z.of_nat (S m))) with (Z.of_nat m) by lia.
    rewrite IH by lia. cbn [mbind outcome_bind option_map].
    replace (Z.to_nat (k - (first_index log - 1) - 1)) with (Z.to_nat (k - first_index log)) by lia.
    rewrite (drop_S _ _ _ He). cbn [take]. do 5 f_equal. lia. }
  specialize (G (Z.to_nat (j - i + 1)) i). rewrite Z2Nat.id in G by lia. apply G; lia.
Qed.

Lemma term_at_spec log i :
  wf log → is_u64 i →
  raft_log_term_at log i =
    Ok (if i =? 0 then 0 else match spec_get (abs log) i with Some e => term e | None => 0 end).
Proof.
  intros Hwf Hi. unfold raft_log_term_at. destruct (i =? 0); [done|].
  by rewrite get_spec.
Qed.

Lemma command_bytes_entry e : entry_ok e → command_bytes e = Ok (default [] (command_data e)).
Proof.
  intros (_ & _ & _ & _ & _ & _ & Hc). unfold command_bytes. destruct (command_data e) as [d|]; [|done].
  destruct Hc as (Hs & Hd & _). rewrite Hs.
  rewrite (proj2 (Z.ltb_lt _ _)) by (destruct d; [done|cbn; lia]).
  rewrite (proj2 (Z.ltb_ge _ _)) by lia. cbn. by rewrite take_ge by lia.
Qed.

Lemma copy_entry_stamp now next src :
  src_ok src → copy_entry now next src = Ok (stamp now next src).
Proof.
  intros (_ & _ & _ & Hc). unfold copy_entry, command_bytes, stamp.
  destruct (command_data src) as [d|]; [|done]. destruct Hc as (_ & _ & Hc & _).
  destruct (Z.ltb_spec 0 (command_size src)).
  - rewrite (proj2 (Z.ltb_ge _ _)) by lia. cbn [mbind outcome_bind].
    assert (Hl : len (take (Z.to_nat (command_size src)) d) = command_size src)
      by (rewrite length_take; lia).
    destruct (take (Z.to_nat (command_size src)) d) eqn:E; [cbn in Hl; lia|]. by rewrite Hl.
  - replace (Z.to_nat (command_size src)) with 0%nat by lia. done.
Qed.

Lemma stamp_entry_ok now next src :
  is_i64 now → is_u64 next → src_ok src → entry_ok (stamp now next src).
Proof.
  intros Hn Hx (Ht & Hty & Hcr & Hc). unfold entry_ok, stamp. cbn [index term type command_size
    command_data created_at]. split; [done|]. split; [done|]. split; [done|].
  split; [by destruct (_ =? _)|].
  destruct (command_data src) as [d|]; [|by split; [unfold in_i; cbn; lia|]].
  destruct Hc as (Hi & Hmax & Hle & Hb). set (bs := take _ d).
  assert (Hl : len bs ≤ Z.max 0 (command_size src)) by (subst bs; rewrite length_take; lia).
  split; [unfold in_i in *; lia|]. split; [unfold MaxAllocSize in *; lia|].
  destruct bs as [|b bs'] eqn:E; [done|].
  split; [done|]. split; [done|]. rewrite <- E. subst bs. by apply Forall_take.
Qed.

Lemma stamp_all_length now next srcs : length (stamp_all now next srcs) = length srcs.
Proof. revert next. induction srcs as [|s l IH]; intros next; [done|]. cbn. by rewrite IH. Qed.

Lemma stamp_all_lookup now next srcs k e :
  stamp_all now next srcs !! k = Some e →
  ∃ src, srcs !! k = Some src ∧ e = stamp now (next + Z.of_nat k) src.
Proof.
  revert next k. induction srcs as [|s l IH]; intros next k; [done|]. destruct k as [|k].
  - intros [= <-]. exists s. rewrite Z.add_0_r. done.
  - intros He. destruct (IH _ _ He) as (src & Hs & ->). exists src. split; [done|]. f_equal. lia.
Qed.

(** ** Refinement *)

Lemma grow_ok fuel cap needed :
  1 ≤ cap → needed ≤ 2 ^ 30 → needed ≤ cap * 2 ^ Z.of_nat fuel →
  ∃ c, grow fuel cap needed = Ok c ∧ needed ≤ c ∧ cap ≤ c.
Proof.
  revert cap. induction fuel as [|fuel IH]; intros cap H1 H2 H3; cbn [grow].
  - rewrite (proj2 (Z.leb_le _ _)) by lia. exists cap. split; [done|lia].
  - destruct (Z.leb_spec needed cap); [exists cap; split; [done|lia]|].
    rewrite swrap_id by (unfold in_i; lia).
    destruct (IH (cap * 2)) as (c & E & ?); [lia|lia| |exists c; split; [done|lia]].
    replace (Z.of_nat (S fuel)) with (Z.succ (Z.of_nat fuel)) in H3 by lia.
    rewrite Z.pow_succ_r in H3 by lia. lia.
Qed.

(** The payload of the record of an entry. *)
Definition entry_payload (e : RaftLogEntry) : list Z :=
  le_enc 8 (term e) ++ le_enc 4 (type e) ++ le_enc 4 (command_size e) ++
  le_enc 8 (created_at e) ++ default [] (command_data e).

Lemma serialize_entry_ok e : entry_ok e → serialize_entry e = Ok (entry_payload e).
Proof.
  intros He. unfold serialize_entry, entry_payload. rewrite command_bytes_entry by done. cbn [mbind outcome_bind].
  destruct He as (_ & _ & _ & _ & _ & Hmax & Hc). unfold MaxAllocSize in *.
  destruct (command_data e) as [d|]; cbn [from_option id]; [|done]. destruct Hc as (Hs & _).
  destruct (Z.leb_spec (0x3fffffff - 24) (len d)); [lia|done].
Qed.

Section refinement.
Context (fresh : RaftLogEntry) (pad : list Z).

Lemma ensure_capacity_ok log needed :
  len (entries log) = capacity log → 1024 ≤ capacity log ≤ RAFT_MAX_LOG_ENTRIES →
  needed ≤ RAFT_MAX_LOG_ENTRIES →
  ∃ more, raft_log_ensure_capacity fresh log needed =
      Ok (with_entries log (entries log ++ more) (capacity log + len more)) ∧
    needed ≤ capacity log + len more ≤ RAFT_MAX_LOG_ENTRIES.
Proof.
  unfold RAFT_MAX_LOG_ENTRIES. intros Hl Hc Hn. unfold raft_log_ensure_capacity, RAFT_MAX_LOG_ENTRIES.
  destruct (Z.leb_spec needed (capacity log)).
  - exists []. rewrite app_nil_r. split; [|cbn; lia]. by destruct log; cbn; rewrite Z.add_0_r.
  - destruct (grow_ok 32 (capacity log) needed) as (c & -> & Hc1 & Hc2); [lia|lia|cbn; lia|].
    cbn [mbind outcome_bind]. set (cap := if 10000 <? c then 10000 else c).
    assert (Hcap : needed ≤ cap ≤ 10000 ∧ capacity log ≤ cap)
      by (subst cap; destruct (Z.ltb_spec 10000 c); lia).
    exists (replicate (Z.to_nat cap - length (entries log)) fresh).
    rewrite length_replicate. split; [|lia]. f_equal. unfold resize.
    rewrite take_ge by lia. f_equal. lia.
Qed.

Lemma append_loop_ok now srcs log k :
  Forall src_ok srcs → 1 ≤ first_index log → first_index log + Z.of_nat k + len srcs ≤ 2 ^ 63 →
  (k + length srcs ≤ length (entries log))%nat →
  append_loop now log (first_index log + Z.of_nat k) srcs = Ok
    (with_entries log (take k (entries log) ++ stamp_all now (first_index log + Z.of_nat k) srcs ++
       drop (k + length srcs) (entries log)) (capacity log),
     first_index log + Z.of_nat k + len srcs).
Proof.
  intros Hs. revert log k. induction Hs as [|src srcs Hsrc _ IH]; intros log k H1 Hmax Hle.
  - cbn [append_loop stamp_all length app]. rewrite Nat.add_0_r, take_drop, Z.add_0_r. by destruct log.
  - cbn [append_loop length] in *. rewrite copy_entry_stamp by done. cbn [mbind outcome_bind].
    rewrite (uwrap_id 64 (_ - _)) by (unfold in_u; lia).
    replace (Z.to_nat (first_index log + Z.of_nat k - first_index log)) with k by lia.
    rewrite decide_True by lia. rewrite uwrap_id by (unfold in_u; lia).
    set (log1 := with_entries log _ _).
    replace (first_index log + Z.of_nat k + 1) with (first_index log1 + Z.of_nat (S k)) by (cbn; lia).
    rewrite IH; [|cbn; lia..|subst log1; cbn; rewrite length_insert; lia].
    subst log1. unfold with_entries. cbn [first_index entries last_index commit_index last_applied
      capacity persistence_enabled].
    do 2 f_equal; [|lia]. f_equal. set (s := stamp now _ src).
    rewrite (take_S_r _ _ s) by (apply list_lookup_insert_eq; lia).
    rewrite take_insert_ge, drop_insert_lt by lia. rewrite <- app_assoc. cbn [app stamp_all].
    do 3 f_equal; [f_equal; lia|f_equal; lia].
Qed.

Definition entry_record (e : RaftLogEntry) : list Z :=
  raft_log_write_wal_record pad RAFT_WAL_ENTRY (entry_payload e) (index e).

Definition commit_record (c : Z) : list Z :=
  raft_log_write_wal_record pad RAFT_WAL_COMMIT (le_enc 8 c) c.

(** What one call of [raft_log_persist] appends to the file. *)
Definition persisted (l : list RaftLogEntry) (c : Z) : list Z :=
  mjoin (map entry_record l) ++ commit_record c.

Lemma write_entries_ok log l k :
  wf log → drop k (contents log) = l →
  write_entries pad log (seqZ (first_index log + Z.of_nat k) (len l)) = Ok (mjoin (map entry_record l)).
Proof.
  intros Hwf. revert k. induction l as [|e l IH]; intros k Hk; [done|].
  assert (He : contents log !! k = Some e).
  { rewrite <- (Nat.add_0_r k), <- lookup_drop, Hk. done. }
  pose proof (lookup_lt_Some _ _ _ He) as Hlt. pose proof (contents_length log Hwf) as Hlen.
  pose proof (wf_first log Hwf). pose proof (wf_last log Hwf). unfold count in Hlen.
  rewrite seqZ_cons by (cbn; lia). cbn [write_entries].
  rewrite get_wf by (done || unfold in_u; lia). rewrite decide_True by lia.
  replace (Z.to_nat (first_index log + Z.of_nat k - first_index log)) with k by lia.
  rewrite He. cbn [mbind outcome_bind]. rewrite serialize_entry_ok by apply (wf_entries log Hwf k e He).
  cbn [mbind outcome_bind].
  replace (Z.succ (first_index log + Z.of_nat k)) with (first_index log + Z.of_nat (S k)) by lia.
  replace (Z.pred (len (e :: l))) with (len l) by (cbn; lia).
  rewrite IH; [done|]. rewrite (drop_S _ _ _ He) in Hk. by injection Hk.
Qed.

(** The file after a call: a header first when it is new. *)
Definition persist_file (now : Z) (log : RaftLog) (disk : Disk) : list Z :=
  default (raft_log_write_wal_header pad now log) (wal disk !! first_index log) ++
  persisted (contents log) (commit_index log).

Lemma persist_ok now log disk :
  wf log → raft_log_persist pad now log disk = Ok
    (if persistence_enabled log
     then {| wal := <[first_index log := persist_file now log disk]> (wal disk);
             snapshots := snapshots disk |}
     else disk).
Proof.
  intros Hwf. unfold raft_log_persist. destruct (persistence_enabled log); cbn [negb]; [|done].
  pose proof (write_entries_ok log (contents log) 0 Hwf eq_refl) as Hw.
  rewrite Z.add_0_r, contents_length in Hw by done. unfold count in Hw. rewrite Hw.
  cbn [mbind outcome_bind]. unfold persist_file, persisted, commit_record.
  by destruct (wal disk !! first_index log).
Qed.
End refinement.

Section operations.
Context (fresh : RaftLogEntry) (pad : list Z).

(** The files after [raft_log_persist]. *)
Definition persist_disk (now : Z) (log : RaftLog) (disk : Disk) : Disk :=
  if persistence_enabled log
  then {| wal := <[first_index log := persist_file pad now log disk]> (wal disk);
          snapshots := snapshots disk |}
  else disk.

Lemma persist_disk_ok now log disk :
  wf log → raft_log_persist pad now log disk = Ok (persist_disk now log disk).
Proof. apply persist_ok. Qed.

Lemma append_ok now log srcs disk :
  wf log → op_ok log (OpAppend now srcs) →
  ∃ log', raft_log_append fresh pad now log srcs disk =
      Ok (log', if decide (srcs = []) then disk else persist_disk now log' disk) ∧
    wf log' ∧ abs log' = spec_op (OpAppend now srcs) (abs log) ∧
    persistence_enabled log' = persistence_enabled log ∧ first_index log' = first_index log.
Proof.
  intros Hwf (Hnow & Hsrcs & Hcount & Hlast). destruct srcs as [|src srcs].
  { exists log. split; [done|]. split; [done|]. split; [|done].
    unfold abs. cbn [spec_op stamp_all base items committed applied]. by rewrite app_nil_r. }
  cbn [raft_log_append]. set (l := src :: srcs) in *. set (k := Z.to_nat (count log)).
  pose proof (contents_length log Hwf) as Hlen. pose proof Hwf as [].
  unfold RAFT_MAX_LOG_ENTRIES in *. unfold count in *.
  assert (Hl1 : 1 ≤ len l) by (cbn; lia).
  assert (Hk0 : Z.of_nat k = last_index log - first_index log + 1) by (subst k; lia).
  rewrite (swrap_id 32) by (unfold in_i; lia).
  destruct (ensure_capacity_ok fresh log (last_index log - first_index log + 1 + len l))
    as (more & -> & Hmore); [done|unfold RAFT_MAX_LOG_ENTRIES; lia|unfold RAFT_MAX_LOG_ENTRIES; lia|].
  cbn [mbind outcome_bind]. set (log1 := with_entries log _ _).
  change (last_index log1) with (last_index log). rewrite uwrap_id by (unfold in_u; lia). unfold RAFT_MAX_LOG_ENTRIES in Hmore.
  assert (Hl : len (entries log1) = capacity log1).
  { subst log1. cbn. rewrite length_app. lia. }
  replace (last_index log + 1) with (first_index log1 + Z.of_nat k) by (subst log1; cbn; lia).
  rewrite append_loop_ok; [|done|done|subst log1; cbn [first_index with_entries]; lia|
    subst log1; cbn [entries with_entries] in *; rewrite length_app in *; lia].
  cbn [mbind outcome_bind]. set (st := stamp_all now _ l).
  set (log2 := with_last _ _).
  assert (Hlast2 : last_index log2 = last_index log + len l).
  { subst log2 log1. cbn [last_index with_last first_index with_entries].
    rewrite uwrap_id by (unfold in_u; lia). lia. }
  assert (Hlst : length st = length l) by apply stamp_all_length.
  assert (Hk : take k (entries log1) = contents log).
  { subst log1. cbn [entries with_entries]. rewrite take_app_le by lia. done. }
  assert (Hc2 : contents log2 = contents log ++ st).
  { unfold contents at 1, count. rewrite Hlast2. subst log2.
    cbn [first_index entries with_last with_entries]. rewrite Hk, app_assoc.
    apply take_app_length'. rewrite length_app. subst log1. cbn [first_index with_entries]. lia. }
  assert (Hwf2 : wf log2).
  { split; unfold count; rewrite ?Hlast2; subst log2 log1;
      cbn [first_index entries capacity commit_index last_applied with_last with_entries] in *;
      unfold RAFT_MAX_LOG_ENTRIES; try lia.
    - rewrite !length_app, length_take, length_drop, Hlst. lia.
    - intros j e He. rewrite Hc2 in He. apply lookup_app_Some in He as [He|[Hj He]].
      + by apply wf_entries0.
      + apply stamp_all_lookup in He as (s & Hs & ->).
        assert (Hsok : src_ok s) by (by eapply Forall_lookup).
        apply lookup_lt_Some in Hs. split; [cbn; lia|].
        apply stamp_entry_ok; [done|unfold in_u; lia|done]. }
  rewrite persist_disk_ok by done. cbn [mbind outcome_bind]. exists log2.
  split; [done|]. split; [done|]. split; [|done].
  unfold abs. cbn [spec_op base items committed applied]. rewrite Hc2. f_equal.
  subst st. f_equal. f_equal. unfold spec_last. cbn [base items]. subst log1. cbn. lia.
Qed.

Lemma truncate_ok now log i disk :
  wf log → op_ok log (OpTruncate now i) →
  ∃ log', raft_log_truncate pad now log i disk =
      Ok (log', if decide (base (abs log) ≤ i < spec_last (abs log))
                then persist_disk now log' disk else disk) ∧
    wf log' ∧ abs log' = spec_op (OpTruncate now i) (abs log) ∧
    persistence_enabled log' = persistence_enabled log ∧ first_index log' = first_index log.
Proof.
  intros Hwf (Hnow & Hi). pose proof (contents_length log Hwf) as Hlen. pose proof Hwf as [].
  unfold raft_log_truncate. cbn [spec_op]. unfold spec_last. cbn [base items abs].
  unfold count in *. rewrite Hlen, uwrap_id by (unfold in_u; lia).
  destruct (Z.leb_spec (last_index log) i).
  { exists log. rewrite !decide_False by lia. done. }
  destruct (Z.ltb_spec i (first_index log - 1)).
  { exists log. rewrite !decide_False by lia. done. }
  rewrite !decide_True by lia. unfold clear_slots. rewrite decide_True by lia.
  cbn [mbind outcome_bind]. set (es := take _ (entries log) ++ _). set (log1 := with_commit _ _ _).
  assert (Hes : length es = length (entries log)).
  { subst es. rewrite !length_app, length_map, !length_take, !length_drop. lia. }
  assert (Hc : contents log1 = take (Z.to_nat (i - (first_index log - 1))) (contents log)).
  { unfold contents, count. subst log1 es. cbn [entries last_index first_index with_commit with_last
      with_entries]. rewrite take_take, take_app_le by (rewrite length_take; lia).
    rewrite take_take. f_equal. lia. }
  assert (Hwf1 : wf log1).
  { split; unfold count; subst log1; cbn [first_index last_index entries capacity commit_index last_applied
      with_commit with_last with_entries] in *; rewrite ?Hes; try lia;
      try (destruct (Z.ltb_spec i (commit_index log)), (Z.ltb_spec i (last_applied log)); lia).
    intros k e He. rewrite Hc in He. apply lookup_take_Some in He as [He _]. by apply wf_entries0. }
  rewrite persist_disk_ok by done. exists log1. rewrite ?decide_True by lia. split; [done|]. split; [done|]. split; [|done].
  unfold abs. rewrite Hc. subst log1. cbn [first_index last_index commit_index last_applied
    with_commit with_last with_entries base items committed applied]. f_equal.
  - destruct (Z.ltb_spec i (commit_index log)); lia.
  - destruct (Z.ltb_spec i (last_applied log)); lia.
Qed.

Lemma compact_ok log i :
  wf log → is_u64 i →
  ∃ log', raft_log_compact log i = Ok log' ∧ wf log' ∧ abs log' = spec_op (OpCompact i) (abs log) ∧
    persistence_enabled log' = persistence_enabled log.
Proof.
  intros Hwf Hi. pose proof (contents_length log Hwf) as Hlen. pose proof Hwf as [].
  unfold raft_log_compact. cbn [spec_op base abs applied items committed]. unfold count in *.
  destruct (Z.ltb_spec i (first_index log)).
  { exists log. rewrite decide_False by lia. done. }
  assert (Hup : (let up := if last_index log <? i then last_index log else i in
    let up := if commit_index log <? up then commit_index log else up in
    if last_applied log <? up then last_applied log else up) = Z.min i (last_applied log)).
  { cbn zeta. destruct (Z.ltb_spec (last_index log) i);
      [destruct (Z.ltb_spec (commit_index log) (last_index log))
      |destruct (Z.ltb_spec (commit_index log) i)];
      match goal with |- context [?a <? ?b] => destruct (Z.ltb_spec a b) end; lia. }
  cbn zeta in Hup. rewrite Hup. set (up := Z.min i (last_applied log)).
  rewrite (uwrap_id 64 (up - first_index log + 1)), (uwrap_id 64 (last_index log - up)),
    (uwrap_id 64 (up + 1)) by (unfold in_u in *; lia).
  set (removed := Z.to_nat (up - first_index log + 1)). set (remaining := Z.to_nat (last_index log - up)).
  assert (Hr : Z.of_nat removed = up - first_index log + 1 ∧ Z.of_nat remaining = last_index log - up)
    by (subst removed remaining; lia).
  rewrite decide_True by lia. set (es := take remaining _ ++ _). eexists. split; [done|].
  set (log1 := with_first _ _).
  assert (Hes : length es = length (entries log)).
  { subst es. rewrite !length_app, length_take, !length_drop, length_replicate. lia. }
  assert (Hc : contents log1 = drop removed (contents log)).
  { unfold contents, count. subst log1 es. cbn [entries last_index first_index with_first with_entries].
    rewrite take_app_length' by (rewrite length_take, length_drop; lia).
    rewrite <- skipn_firstn_comm || rewrite firstn_skipn_comm. f_equal. f_equal. lia. }
  split; [|split; [|done]].
  - split; unfold count; subst log1; cbn [first_index last_index entries capacity commit_index last_applied
      with_first with_entries] in *; rewrite ?Hes; try lia.
    intros k e He. rewrite Hc, lookup_drop in He. apply wf_entries0 in He as [He ?].
    split; [lia|done].
  - unfold abs. rewrite Hc. subst log1. cbn [first_index commit_index last_applied with_first with_entries].
    case_decide.
    + f_equal; [lia|]. f_equal. lia.
    + replace removed with 0%nat by lia. rewrite drop_0. f_equal. lia.
Qed.

Definition run_op (op : LogOp) (log : RaftLog) (disk : Disk) : outcome (RaftLog * Disk) :=
  match op with
  | OpAppend now srcs => raft_log_append fresh pad now log srcs disk
  | OpTruncate now i => raft_log_truncate pad now log i disk
  | OpCompact i => log ← raft_log_compact log i; Ok (log, disk)
  end.
End operations.

(** C4: the array refines the abstract log: on a well-formed log every append up
    to the limit, truncation and compaction succeeds, keeps the log well formed and
    does to the entries and the commit and apply marks what the abstract operation
    does, and the reads give the entries of the abstract log. *)
Theorem raft_log_refines (fresh : RaftLogEntry) (pad : list Z) (log : RaftLog) (disk : Disk)
    (op : LogOp) (i j : Z) :
  wf log → op_ok log op → is_u64 i → is_u64 j →
  (∃ log' disk', run_op fresh pad op log disk = Ok (log', disk') ∧ wf log' ∧
     abs log' = spec_op op (abs log)) ∧
  raft_log_get log i = Ok (spec_get (abs log) i) ∧
  raft_log_term_at log i =
    Ok (if i =? 0 then 0 else match spec_get (abs log) i with Some e => term e | None => 0 end) ∧
  raft_log_get_range log i j = Ok
    (if decide (base (abs log) < i ∧ i ≤ j ∧ j ≤ spec_last (abs log))
     then Some (take (Z.to_nat (j - i + 1)) (drop (Z.to_nat (i - base (abs log) - 1)) (items (abs log))))
     else None).
Proof.
  intros Hwf Hop Hi Hj.
  split; [|by split; [apply get_spec|split; [apply term_at_spec|apply get_range_spec]]].
  destruct op as [now srcs|now k|k]; cbn [run_op].
  - destruct (append_ok fresh pad now log srcs disk Hwf Hop) as (log' & E & ? & ? & _). by eexists _, _.
  - destruct (truncate_ok pad now log k disk Hwf Hop) as (log' & E & ? & ? & _). by eexists _, _.
  - destruct (compact_ok log k Hwf Hop) as (log' & E & ? & ? & _). rewrite E. by exists log', disk.
Qed.

(** ** Reading the write-ahead log back *)

Lemma drop_field n z r : 0 ≤ n → drop (Z.to_nat n) (le_enc n z ++ r) = r.
Proof. intros Hn. apply drop_app_length'. pose proof (le_enc_length n z Hn). lia. Qed.

Lemma take_field n z r : 0 ≤ n → take (Z.to_nat n) (le_enc n z ++ r) = le_enc n z.
Proof. intros Hn. apply take_app_length'. pose proof (le_enc_length n z Hn). lia. Qed.

Lemma drop_field4 z r : drop 4 (le_enc 4 z ++ r) = r.
Proof. by apply (drop_field 4). Qed.
Lemma drop_field8 z r : drop 8 (le_enc 8 z ++ r) = r.
Proof. by apply (drop_field 8). Qed.
Lemma take_field4 z r : take 4 (le_enc 4 z ++ r) = le_enc 4 z.
Proof. by apply (take_field 4). Qed.
Lemma take_field8 z r : take 8 (le_enc 8 z ++ r) = le_enc 8 z.
Proof. by apply (take_field 8). Qed.

(** Skips fields of 4 and 8 bytes and reads the one behind them. *)
Create HintDb fields.
#[export] Hint Rewrite drop_field4 drop_field8 take_field4 take_field8 : fields.
Ltac read_fields := autorewrite with fields.

Lemma raft_crc_range data : is_u32 (raft_log_compute_crc data).
Proof.
  unfold raft_log_compute_crc, crc_run. apply lxor_range; [lia| |unfold in_u; lia].
  apply crc_fold_range; [apply raft_table_distinct|unfold in_u; lia].
Qed.

Section recovery.
Context (fresh : RaftLogEntry) (pad : list Z) (Hpad : length pad = 4%nat).

Definition record_header (ty data_size c i : Z) : list Z :=
  le_enc 4 ty ++ le_enc 4 data_size ++ le_enc 4 c ++ pad ++ le_enc 8 i.

Lemma record_header_length ty n c i : length (record_header ty n c i) = 24%nat.
Proof.
  unfold record_header. rewrite !length_app, Hpad.
  pose proof (le_enc_length 4 ty). pose proof (le_enc_length 4 n). pose proof (le_enc_length 4 c).
  pose proof (le_enc_length 8 i). lia.
Qed.

Lemma wal_record_split ty data i :
  raft_log_write_wal_record pad ty data i =
  record_header ty (len data) (raft_log_compute_crc data) i ++ data.
Proof. unfold record_header, raft_log_write_wal_record. by rewrite <- !app_assoc. Qed.

Lemma read_record_header ty n c i rest :
  is_u32 ty → is_u32 n → is_u32 c → is_u64 i →
  raft_log_read_wal_record (record_header ty n c i ++ rest) =
    let r := {| rtype := ty; size := n; crc := c; rindex := i |} in
    if n =? 0 then Ok (Some (r, [], rest)) else
    if MaxAllocSize <? n then Err "invalid memory alloc request size" else
    if len rest <? n then Ok None else
    if raft_log_compute_crc (take (Z.to_nat n) rest) =? c
    then Ok (Some (r, take (Z.to_nat n) rest, drop (Z.to_nat n) rest)) else Ok None.
Proof.
  intros Hty Hn Hc Hi. unfold raft_log_read_wal_record.
  destruct (Z.ltb_spec (len (record_header ty n c i ++ rest)) 24) as [Hs|_];
    [rewrite length_app, record_header_length in Hs; lia|].
  rewrite (drop_app_length' _ _ 24) by (by rewrite record_header_length).
  unfold record_header. rewrite <- !app_assoc.
  change (drop 16 ?l) with (drop (4 + (4 + (4 + 4))) l).
  change (drop 8 ?l) with (drop (4 + 4) l). rewrite <- !drop_drop.
  read_fields. rewrite (drop_app_length' pad) by done. read_fields.
  by rewrite !le_dec_enc_u32, le_dec_enc_u64.
Qed.

(** Of a record that is cut short the loop reads nothing. *)
Lemma read_wal_record_spec ty data i rest n :
  is_u32 ty → is_u64 i → 0 < len data ≤ MaxAllocSize →
  raft_log_read_wal_record (take n (raft_log_write_wal_record pad ty data i ++ rest)) =
    if decide (24 + length data <= n)%nat
    then Ok (Some ({| rtype := ty; size := len data; crc := raft_log_compute_crc data; rindex := i |},
                   data, take (n - (24 + length data)) rest))
    else Ok None.
Proof.
  unfold MaxAllocSize. intros Hty Hi Hd. rewrite wal_record_split, <- app_assoc.
  set (h := record_header _ _ _ _).
  assert (Hh : length h = 24%nat) by apply record_header_length.
  destruct (le_lt_dec 24 n) as [Hn|Hn].
  - rewrite take_app_ge, Hh by lia. subst h.
    rewrite read_record_header; [|done|unfold in_u; lia|apply raft_crc_range|done].
    cbn zeta. rewrite (proj2 (Z.eqb_neq (len data) 0)) by lia.
    unfold MaxAllocSize. rewrite (proj2 (Z.ltb_ge _ (len data))) by lia.
    rewrite length_take, length_app. case_decide.
    + rewrite (proj2 (Z.ltb_ge _ _)) by lia.
      rewrite take_app_ge by lia. rewrite !(take_app_length' data) by lia.
      rewrite !(drop_app_length' data) by lia. rewrite Z.eqb_refl. do 3 f_equal. f_equal. lia.
    + by rewrite (proj2 (Z.ltb_lt _ _)) by lia.
  - rewrite decide_False by lia. unfold raft_log_read_wal_record.
    rewrite (proj2 (Z.ltb_lt _ _)); [done|]. rewrite length_take. lia.
Qed.

Lemma deserialize_payload e :
  entry_ok e → deserialize_entry (index e) (entry_payload e) = Ok e.
Proof.
  intros (Hi & Ht & Hty & Hcr & Hsz & Hmax & Hc). unfold deserialize_entry, entry_payload.
  set (d := default [] (command_data e)).
  assert (Hd : command_size e = len d) by (subst d; destruct (command_data e); [tauto|done]).
  destruct (Z.ltb_spec (len (le_enc 8 (term e) ++ le_enc 4 (type e) ++ le_enc 4 (command_size e) ++
    le_enc 8 (created_at e) ++ d)) 24) as [Hl|_].
  { rewrite !length_app, !Nat2Z.inj_add, !le_enc_length in Hl by lia. lia. }
  change (drop 24 ?l) with (drop (8 + (4 + (4 + 8))) l). change (drop 16 ?l) with (drop (8 + (4 + 4)) l).
  change (drop 12 ?l) with (drop (8 + 4) l). rewrite <- !drop_drop. read_fields.
  rewrite !le_dec_enc_i32, le_dec_enc_u64, le_dec_enc_i64 by done.
  rewrite Hd at 1. rewrite Z.ltb_irrefl. f_equal. destruct e as [? ? ? sz cd ?]. cbn in *. f_equal.
  subst d. destruct cd as [d|].
  - destruct Hc as (_ & Hne & _). cbn. rewrite (proj2 (Z.ltb_lt 0 sz)) by (rewrite Hd; destruct d; [done|cbn; lia]).
    by rewrite take_ge by (cbn in Hd; lia).
  - by subst sz.
Qed.

(** ** What a file holds *)

Inductive WalItem := WalEntry (e : RaftLogEntry) | WalCommit (c : Z).

Definition item_bytes (it : WalItem) : list Z :=
  match it with WalEntry e => entry_record pad e | WalCommit c => commit_record pad c end.

Definition item_ok (it : WalItem) : Prop :=
  match it with WalEntry e => entry_ok e | WalCommit c => is_u64 c end.

Definition recover_item (log : RaftLog) (it : WalItem) : outcome RaftLog :=
  match it with
  | WalEntry e => recover_entry fresh log e
  | WalCommit c => Ok (recover_commit log c)
  end.

Fixpoint recover_items (log : RaftLog) (l : list WalItem) : outcome RaftLog :=
  match l with
  | [] => Ok log
  | it :: l => log ← recover_item log it; recover_items log l
  end.

(** The items that lie in the first [n] bytes. *)
Fixpoint whole (n : nat) (l : list WalItem) : list WalItem :=
  match l with
  | [] => []
  | it :: l =>
      if decide (length (item_bytes it) <= n)%nat then it :: whole (n - length (item_bytes it)) l
      else []
  end.

Lemma whole_prefix n l : whole n l `prefix_of` l.
Proof.
  revert n. induction l as [|it l IH]; intros n; [done|]. cbn [whole].
  case_decide; [by apply prefix_cons|apply prefix_nil].
Qed.

Lemma mjoin_cons {A} (x : list A) l : mjoin (x :: l) = x ++ mjoin l.
Proof. done. Qed.

Lemma whole_all n l : (length (mjoin (map item_bytes l)) <= n)%nat → whole n l = l.
Proof.
  revert n. induction l as [|it l IH]; intros n Hn; [done|]. cbn [whole map] in *.
  rewrite mjoin_cons, length_app in Hn. rewrite decide_True by lia. by rewrite IH by lia.
Qed.

Lemma payload_length e : entry_ok e → 0 < len (entry_payload e) ≤ MaxAllocSize.
Proof.
  intros (_ & _ & _ & _ & _ & Hmax & Hc). unfold entry_payload.
  rewrite !length_app, !Nat2Z.inj_add, !le_enc_length by lia. unfold MaxAllocSize in *.
  destruct (command_data e) as [d|]; cbn [from_option id]; [destruct Hc as [? _]; lia|cbn; lia].
Qed.

Lemma read_item now it l n log disk :
  item_ok it → ∃ r data,
    raft_log_read_wal_record (take n (mjoin (map item_bytes (it :: l)))) =
      Ok (if decide (length (item_bytes it) <= n)%nat
          then Some (r, data, take (n - length (item_bytes it)) (mjoin (map item_bytes l))) else None) ∧
    recover_record fresh pad now log disk r data = (log ← recover_item log it; Ok (log, disk)).
Proof.
  intros Hok. cbn [map]. rewrite mjoin_cons.
  assert (L : ∀ ty data i, length (raft_log_write_wal_record pad ty data i) = (24 + length data)%nat)
    by (intros; rewrite wal_record_split, length_app, record_header_length; lia).
  destruct it as [e|c]; cbn [item_bytes]; unfold entry_record, commit_record.
  - eexists _, _. split.
    + rewrite read_wal_record_spec, L; [by case_decide|unfold in_u, RAFT_WAL_ENTRY; lia|apply Hok|
        by apply payload_length].
    + unfold recover_record. cbn [rtype rindex]. rewrite decide_True by done.
      by rewrite deserialize_payload.
  - pose proof (le_enc_length 8 c ltac:(lia)). eexists _, _. split.
    + rewrite read_wal_record_spec, L; [by case_decide|unfold in_u, RAFT_WAL_COMMIT; lia|apply Hok|
        unfold MaxAllocSize; lia].
    + unfold recover_record. cbn [rtype]. rewrite decide_False, decide_True by done.
      rewrite (proj2 (Z.ltb_ge _ _)) by lia. cbn [recover_item mbind outcome_bind].
      do 3 f_equal. rewrite take_ge by lia. apply le_dec_enc_u64, Hok.
Qed.

Lemma recover_loop_items now name disk file l pos n fuel log :
  wal disk !! name = Some file → drop pos file = take n (mjoin (map item_bytes l)) →
  Forall item_ok l → (length (whole n l) < fuel)%nat →
  recover_loop fresh pad fuel now name pos log disk =
    (log ← recover_items log (whole n l); Ok (log, disk)).
Proof.
  intros Hfile. revert pos n fuel log.
  induction l as [|it l IH]; intros pos n fuel log Hdrop Hok Hfuel;
    (destruct fuel as [|fuel]; [cbn in Hfuel; lia|]); cbn [recover_loop];
    rewrite Hfile; cbn [from_option id default]; rewrite Hdrop.
  - cbn [map]. change (mjoin []) with (@nil Z). by rewrite take_nil.
  - apply Forall_cons in Hok as [Hit Hok].
    destruct (read_item now it l n log disk Hit) as (r & data & -> & Hrec).
    cbn [whole] in *. case_decide as Hn; cbn [mbind outcome_bind recover_items]; [|done].
    rewrite Hrec. destruct (recover_item log it) as [log1| | |]; try done. cbn [mbind outcome_bind].
    apply IH; [|done|cbn in Hfuel; lia].
    set (rest := take _ (mjoin _)). cbn [map] in Hdrop.
    rewrite mjoin_cons, take_app_ge in Hdrop by done. fold rest in Hdrop.
    assert (Hf : file = (take pos file ++ item_bytes it) ++ rest)
      by (by rewrite <- app_assoc, <- Hdrop, take_drop).
    rewrite Hf at 2. apply drop_app_length'. apply (f_equal length) in Hf. rewrite length_app in Hf. lia.
Qed.

(** ** Recovery of entries *)

Lemma recover_entry_ok log e :
  wf log → entry_ok e → first_index log ≤ index e ≤ last_index log + 1 →
  index e < first_index log + RAFT_MAX_LOG_ENTRIES → index e < 2 ^ 63 →
  ∃ log', recover_entry fresh log e = Ok log' ∧ wf log' ∧
    contents log' = contents log ++ (if decide (index e ≤ last_index log) then [] else [e]) ∧
    first_index log' = first_index log ∧ commit_index log' = commit_index log.
Proof.
  intros Hwf He Hi Hmax Hb. pose proof (contents_length log Hwf) as Hlen. pose proof Hwf as [].
  unfold recover_entry. destruct (Z.leb_spec (index e) (last_index log)).
  { exists log. rewrite decide_True, app_nil_r by done. done. }
  assert (Hidx : index e = last_index log + 1) by lia.
  unfold RAFT_MAX_LOG_ENTRIES in *. unfold count in *.
  rewrite swrap_id by (unfold in_i; lia).
  destruct (ensure_capacity_ok fresh log (index e - first_index log + 1)) as (more & -> & Hmore);
    [done|unfold RAFT_MAX_LOG_ENTRIES; lia|unfold RAFT_MAX_LOG_ENTRIES; lia|].
  unfold RAFT_MAX_LOG_ENTRIES in Hmore. cbn [mbind outcome_bind]. set (log1 := with_entries log _ _).
  change (first_index log1) with (first_index log). rewrite uwrap_id by (unfold in_u; lia).
  set (a := Z.to_nat _). assert (Ha : Z.of_nat a = last_index log - first_index log + 1) by (subst a; lia).
  assert (Hl : len (entries log1) = capacity log1).
  { subst log1. cbn. rewrite length_app. lia. }
  assert (Hal : (a < length (entries log1))%nat).
  { subst log1. cbn [capacity with_entries] in Hl. lia. }
  rewrite decide_True by done. rewrite decide_False by lia.
  eexists. split; [done|]. set (log2 := with_last _ _).
  assert (Hc : contents log2 = contents log ++ [e]).
  { unfold contents at 1, count. subst log2. cbn [last_index first_index entries with_last with_entries].
    change (first_index log1) with (first_index log).
    replace (Z.to_nat (index e - first_index log + 1)) with (S a) by lia.
    rewrite (take_S_r _ _ e) by (by apply list_lookup_insert_eq). rewrite take_insert_ge by lia.
    f_equal. subst log1. cbn [entries with_entries]. rewrite take_app_le by lia.
    unfold contents, count. f_equal. lia. }
  split; [|split; [done|done]].
  split; unfold count; subst log2 log1; cbn [first_index last_index entries capacity commit_index
    last_applied with_last with_entries] in *; rewrite ?length_insert; unfold RAFT_MAX_LOG_ENTRIES; try lia.
  intros k x Hx. rewrite Hc in Hx. apply lookup_app_Some in Hx as [Hx|[Hk Hx]]; [by apply wf_entries0|].
  destruct (k - length (contents log))%nat eqn:Ek; [|done]. injection Hx as <-. split; [lia|done].
Qed.

(** A list of entries with consecutive indices, as a persisted log holds it. *)
Definition indexed (from : Z) (l : list RaftLogEntry) : Prop :=
  ∀ k e, l !! k = Some e → index e = from + Z.of_nat k ∧ entry_ok e.

Lemma recover_entries_ok l from log :
  wf log → indexed from l → first_index log ≤ from ≤ last_index log + 1 →
  from + len l ≤ first_index log + RAFT_MAX_LOG_ENTRIES → from + len l ≤ 2 ^ 63 →
  ∃ log', recover_items log (map WalEntry l) = Ok log' ∧ wf log' ∧
    contents log' = contents log ++ drop (Z.to_nat (last_index log + 1 - from)) l ∧
    first_index log' = first_index log ∧ commit_index log' = commit_index log.
Proof.
  revert from log. induction l as [|e l IH]; intros from log Hwf Hidx Hfrom Hmax Hb; cbn [map recover_items].
  - exists log. rewrite drop_nil, app_nil_r. done.
  - destruct (Hidx 0%nat e eq_refl) as [He Heok]. rewrite Z.add_0_r in He. cbn [length] in *.
    destruct (recover_entry_ok log e) as (log1 & E & Hwf1 & Hc1 & Hf1 & Hk1); [done|done|lia|lia|lia|].
    cbn [recover_item]. rewrite E. cbn [mbind outcome_bind].
    pose proof (contents_length log Hwf) as L0. pose proof (contents_length log1 Hwf1) as L1.
    rewrite Hc1, length_app in L1. unfold count in *.
    assert (Hlast : last_index log1 = Z.max (last_index log) (index e)).
    { destruct (decide (index e ≤ last_index log)); cbn [length] in L1; lia. }
    destruct (IH (from + 1) log1) as (log2 & E2 & Hwf2 & Hc2 & Hf2 & Hk2); [done| |lia|lia|lia|].
    { intros k x Hx. destruct (Hidx (S k) x Hx). split; [lia|done]. }
    exists log2. split; [done|]. split; [done|]. split; [|split; congruence].
    rewrite Hc2, Hc1, <- app_assoc, Hlast, He. f_equal. destruct (decide (from ≤ last_index log)).
    + rewrite Z.max_l by lia.
      replace (Z.to_nat (last_index log + 1 - from)) with (S (Z.to_nat (last_index log + 1 - (from + 1)))) by lia.
      done.
    + replace (Z.to_nat (last_index log + 1 - from)) with 0%nat by lia.
      replace (Z.to_nat (Z.max (last_index log) from + 1 - (from + 1))) with 0%nat by lia. done.
Qed.

Lemma recover_commit_wf log c :
  wf log → wf (recover_commit log c) ∧ contents (recover_commit log c) = contents log ∧
  first_index (recover_commit log c) = first_index log ∧
  commit_index (recover_commit log c) =
    if (commit_index log <? c) && (c <=? last_index log) then c else commit_index log.
Proof.
  intros Hwf. unfold recover_commit. destruct (Z.ltb_spec (commit_index log) c); cbn [andb]; [|done].
  destruct (Z.leb_spec c (last_index log)); [|done]. split; [|done]. destruct Hwf.
  split; cbn [first_index last_index entries capacity commit_index last_applied with_commit]; done || lia.
Qed.

(** ** Recovery of what was persisted *)

Definition snap (log : RaftLog) : list RaftLogEntry * Z := (contents log, commit_index log).

Definition snap_items (s : list RaftLogEntry * Z) : list WalItem :=
  map WalEntry s.1 ++ [WalCommit s.2].

(** Each state adds the entries beyond those known, and its commit index when it
    is larger and in range. *)
Definition first_step (acc s : list RaftLogEntry * Z) : list RaftLogEntry * Z :=
  let l := acc.1 ++ drop (length acc.1) s.1 in
  (l, if (acc.2 <? s.2) && (s.2 <=? len l) then s.2 else acc.2).

Definition first_written (ss : list (list RaftLogEntry * Z)) : list RaftLogEntry * Z :=
  fold_left first_step ss ([], 0).

Lemma recover_items_app l1 l2 log :
  recover_items log (l1 ++ l2) = (log ← recover_items log l1; recover_items log l2).
Proof.
  revert log. induction l1 as [|it l1 IH]; intros log; cbn [recover_items app]; [done|].
  destruct (recover_item log it); cbn [mbind outcome_bind]; [apply IH|done..].
Qed.

Lemma recover_snap src log :
  wf log → first_index log = 1 → wf src → first_index src = 1 →
  ∃ log', recover_items log (snap_items (snap src)) = Ok log' ∧ wf log' ∧ first_index log' = 1 ∧
    snap log' = first_step (snap log) (snap src).
Proof.
  intros Hwf Hf Hsrc Hfs. unfold snap_items. cbn [fst snd snap]. rewrite recover_items_app.
  pose proof (contents_length log Hwf) as L. pose proof (contents_length src Hsrc) as Ls.
  pose proof (wf_count src Hsrc). pose proof (wf_capacity src Hsrc). pose proof (wf_last src Hsrc).
  pose proof (wf_last log Hwf). unfold count, RAFT_MAX_LOG_ENTRIES in *.
  destruct (recover_entries_ok (contents src) 1 log) as (log1 & -> & Hwf1 & Hc1 & Hf1 & Hk1);
    [done|rewrite <- Hfs; exact (wf_entries src Hsrc)|lia|unfold RAFT_MAX_LOG_ENTRIES; lia|lia|].
  cbn [mbind outcome_bind recover_items recover_item].
  destruct (recover_commit_wf log1 (commit_index src) Hwf1) as (Hwf2 & Hc2 & Hf2 & Hk2).
  eexists. split; [done|]. split; [done|]. split; [congruence|].
  assert (Hc : contents log1 = contents log ++ drop (length (contents log)) (contents src)).
  { rewrite Hc1. do 2 f_equal. lia. }
  pose proof (contents_length log1 Hwf1) as L1. unfold count in L1.
  unfold snap, first_step. cbn [fst snd]. rewrite Hc2, Hk2, Hk1, <- Hc, L1, Hf1, Hf.
  replace (last_index log1 - 1 + 1) with (last_index log1) by lia. done.
Qed.

Fixpoint persist_all (now : Z) (logs : list RaftLog) (disk : Disk) : outcome Disk :=
  match logs with
  | [] => Ok disk
  | log :: logs => disk ← raft_log_persist pad now log disk; persist_all now logs disk
  end.

Definition empty_disk : Disk := {| wal := ∅; snapshots := ∅ |}.

(** A log that has not been compacted and is persisted. *)
Definition durable (log : RaftLog) : Prop :=
  wf log ∧ first_index log = 1 ∧ persistence_enabled log = true.

Lemma persisted_items log :
  persisted pad (contents log) (commit_index log) = mjoin (map item_bytes (snap_items (snap log))).
Proof.
  unfold persisted, snap_items, snap. cbn [fst snd]. induction (contents log) as [|e l IH].
  - cbn [map app]. rewrite mjoin_cons. change (mjoin []) with (@nil Z). by rewrite app_nil_r.
  - cbn [map app]. rewrite !mjoin_cons, <- app_assoc. by rewrite IH.
Qed.

Definition log_items (logs : list RaftLog) : list WalItem := mjoin (map (snap_items ∘ snap) logs).

Lemma mjoin_bytes_app l1 l2 :
  mjoin (map item_bytes (l1 ++ l2)) = mjoin (map item_bytes l1) ++ mjoin (map item_bytes l2).
Proof. by rewrite map_app, join_app. Qed.

Lemma persist_all_ok now logs disk :
  Forall durable logs → logs ≠ [] →
  ∃ disk', persist_all now logs disk = Ok disk' ∧
    wal disk' !! 1 = Some
      (default (raft_log_write_wal_header pad now (raft_log_init true)) (wal disk !! 1) ++
       mjoin (map item_bytes (log_items logs))).
Proof.
  revert disk. induction logs as [|log logs IH]; intros disk Hd Hne; [done|].
  apply Forall_cons in Hd as [(Hwf & Hf & Hp) Hd]. cbn [persist_all].
  rewrite persist_ok, Hp, Hf by done. cbn [mbind outcome_bind]. unfold persist_file. rewrite Hf.
  unfold log_items. cbn [map]. rewrite mjoin_cons, mjoin_bytes_app, persisted_items.
  unfold raft_log_write_wal_header. rewrite Hf. cbn [raft_log_init first_index].
  set (disk1 := {| wal := _ |}).
  assert (H1 : wal disk1 !! 1 = Some (default (raft_log_write_wal_header pad now (raft_log_init true))
    (wal disk !! 1) ++ mjoin (map item_bytes (snap_items (snap log))))).
  { subst disk1. cbn [wal]. apply lookup_insert_eq. }
  destruct logs as [|log2 logs].
  - exists disk1. split; [done|]. rewrite H1. change (mjoin (map _ [])) with (@nil WalItem).
    change (mjoin (map item_bytes [])) with (@nil Z). by rewrite app_nil_r.
  - destruct (IH disk1) as (disk' & E & Hw); [done|done|]. exists disk'. split; [done|].
    rewrite Hw, H1. cbn [from_option id default]. by rewrite <- app_assoc.
Qed.

Lemma log_items_ok logs : Forall durable logs → Forall item_ok (log_items logs).
Proof.
  induction 1 as [|log logs (Hwf & Hf & _) _ IH]; [done|]. unfold log_items. cbn [map].
  rewrite mjoin_cons. apply Forall_app. split; [|done]. unfold snap_items. apply Forall_app. split.
  - apply Forall_forall. intros it (e & -> & He)%list_elem_of_fmap. cbn.
    apply list_elem_of_lookup in He as [k Hk]. by apply (wf_entries log Hwf k e).
  - apply Forall_singleton. cbn. destruct Hwf. unfold in_u. lia.
Qed.

(** Recovery reads the header and then the items of the file. *)
Lemma recover_file now n fuel t disk l :
  wal disk !! 1 = Some (take n (raft_log_write_wal_header pad t (raft_log_init true) ++
                          mjoin (map item_bytes l))) →
  Forall item_ok l → (length l < fuel)%nat →
  raft_log_recover fresh pad fuel now (raft_log_init true) disk =
    if decide (32 <= n)%nat
    then log ← recover_items (raft_log_init true) (whole (n - 32) l); Ok (log, disk)
    else Ok (raft_log_init true, disk).
Proof.
  intros Hw Hok Hfuel. unfold raft_log_recover. cbn [raft_log_init persistence_enabled negb first_index].
  rewrite Hw. set (h := raft_log_write_wal_header pad t (raft_log_init true)) in *.
  assert (Hh : length h = 32%nat).
  { subst h. unfold raft_log_write_wal_header. rewrite !length_app, Hpad.
    pose proof (le_enc_length 4 RAFT_WAL_MAGIC). pose proof (le_enc_length 4 RAFT_WAL_VERSION).
    pose proof (le_enc_length 4 0). pose proof (le_enc_length 8 (first_index (raft_log_init true))).
    pose proof (le_enc_length 8 t). lia. }
  case_decide as Hn.
  - rewrite take_app_ge, Hh in Hw |- * by lia.
    rewrite (proj2 (Z.ltb_ge _ 32)) by (rewrite length_app; lia).
    replace (le_dec (take 4 (h ++ _))) with RAFT_WAL_MAGIC;
      [|subst h; unfold raft_log_write_wal_header; rewrite <- !app_assoc; read_fields;
        by rewrite le_dec_enc_u32].
    replace (le_dec (take 4 (drop 4 (h ++ _)))) with RAFT_WAL_VERSION;
      [|subst h; unfold raft_log_write_wal_header; rewrite <- !app_assoc; read_fields;
        by rewrite le_dec_enc_u32].
    rewrite !Z.eqb_refl. cbn [negb].
    replace (le_dec (take 8 (drop 16 (h ++ _)))) with 1.
    + change (with_first _ 1) with (raft_log_init true).
      eapply recover_loop_items; [exact Hw| |done|].
      * by apply drop_app_length'.
      * pose proof (prefix_length _ _ (whole_prefix (n - 32) l)). lia.
    + subst h. unfold raft_log_write_wal_header. rewrite <- !app_assoc.
      change (drop 16 ?x) with (drop (4 + (4 + (4 + 4))) x). rewrite <- !drop_drop. read_fields.
      rewrite (drop_app_length' pad) by done. read_fields. by rewrite le_dec_enc_u64.
  - rewrite (proj2 (Z.ltb_lt _ 32)); [done|]. rewrite length_take. lia.
Qed.

Lemma recover_logs logs log :
  wf log → first_index log = 1 → Forall durable logs →
  ∃ log', recover_items log (log_items logs) = Ok log' ∧ wf log' ∧ first_index log' = 1 ∧
    snap log' = fold_left first_step (map snap logs) (snap log).
Proof.
  intros Hwf Hf Hd. revert log Hwf Hf. induction Hd as [|src logs (Hs & Hfs & _) _ IH]; intros log Hwf Hf.
  - by exists log.
  - unfold log_items. cbn [map fold_left]. rewrite mjoin_cons, recover_items_app. cbn [compose].
    destruct (recover_snap src log) as (log1 & -> & Hwf1 & Hf1 & <-); [done..|]. by apply IH.
Qed.
End recovery.

(** ** Properties of recovery *)

Lemma durable_recovery fresh pad now t logs fuel disk :
  length pad = 4%nat → logs ≠ [] → Forall durable logs → (length (log_items logs) < fuel)%nat →
  wal disk !! 1 = Some (raft_log_write_wal_header pad t (raft_log_init true) ++
                        mjoin (map (item_bytes pad) (log_items logs))) →
  ∃ log', raft_log_recover fresh pad fuel now (raft_log_init true) disk = Ok (log', disk) ∧
    wf log' ∧ first_index log' = 1 ∧ snap log' = first_written (map snap logs).
Proof.
  intros Hpad Hne Hd Hfuel Hw.
  set (file := raft_log_write_wal_header pad t (raft_log_init true) ++ _) in Hw.
  assert (Hlen : (length (mjoin (map (item_bytes pad) (log_items logs))) <= length file)%nat)
    by (unfold file; rewrite length_app; lia).
  rewrite <- (take_ge file (32 + length file)) in Hw by lia.
  rewrite (recover_file fresh pad Hpad now _ fuel t disk (log_items logs) Hw); [|by apply (log_items_ok pad)|done].
  rewrite decide_True by lia. rewrite (whole_all pad) by lia.
  destruct (recover_logs fresh pad Hpad logs (raft_log_init true)) as (log' & E & ? & ? & ?);
    [apply init_wf|done|done|].
  exists log'. rewrite E. done.
Qed.

(** Recovery after a crash gives, at every index, the entry that was written
    there first: the records of the states that were persisted one after the other
    are read back in full, and each adds only what lies beyond those before it. *)
Theorem wal_recovers_first_written (fresh : RaftLogEntry) (pad : list Z) (now now' : Z)
    (logs : list RaftLog) (fuel : nat) :
  length pad = 4%nat → logs ≠ [] → Forall durable logs → (length (log_items logs) < fuel)%nat →
  ∃ disk log', persist_all pad now logs empty_disk = Ok disk ∧
    raft_log_recover fresh pad fuel now' (raft_log_init true) disk = Ok (log', disk) ∧
    wf log' ∧ (contents log', commit_index log') = first_written (map snap logs).
Proof.
  intros Hpad Hne Hd Hfuel.
  destruct (persist_all_ok pad now logs empty_disk Hd Hne) as (disk & E & Hw).
  destruct (durable_recovery fresh pad now' now logs fuel disk Hpad Hne Hd Hfuel Hw)
    as (log' & ? & ? & _ & ?).
  by exists disk, log'.
Qed.

(** A later state of a log that only grows. *)
Definition grows (a b : RaftLog) : Prop :=
  contents a `prefix_of` contents b ∧ commit_index a ≤ commit_index b.

Lemma first_step_grows (l : list RaftLogEntry) (k : Z) b :
  durable b → l `prefix_of` contents b → k ≤ commit_index b → first_step (l, k) (snap b) = snap b.
Proof.
  intros (Hwf & Hf & _) [r Hr] Hk. pose proof (contents_length b Hwf) as L.
  destruct Hwf. unfold count in L. unfold first_step, snap. cbn [fst snd]. rewrite Hr at 1 2 3.
  rewrite drop_app_length, <- Hr, L. f_equal.
  destruct (Z.ltb_spec k (commit_index b)); cbn [andb]; [|lia].
  by rewrite (proj2 (Z.leb_le _ _)) by lia.
Qed.

Lemma fold_grows logs l k last :
  Forall durable (logs ++ [last]) → Sorted grows (logs ++ [last]) →
  (∀ b, head (logs ++ [last]) = Some b → l `prefix_of` contents b ∧ k ≤ commit_index b) →
  fold_left first_step (map snap (logs ++ [last])) (l, k) = snap last.
Proof.
  revert l k. induction logs as [|b logs IH]; intros l k Hd Hs Hh; cbn [app map fold_left] in *;
    apply Forall_cons in Hd as [Hb Hd].
  - destruct (Hh last eq_refl). by apply first_step_grows.
  - destruct (Hh b eq_refl). rewrite first_step_grows by done. apply Sorted_inv in Hs as [Hs Hrel].
    apply IH; [done|done|]. intros c Hc. destruct (logs ++ [last]) as [|c' tl]; [done|].
    injection Hc as ->. by apply HdRel_inv in Hrel.
Qed.

(** C28: A log that was only appended to survives a crash: recovery gives the
    entries and the commit index that were persisted last. *)
Theorem wal_append_only_durable (fresh : RaftLogEntry) (pad : list Z) (now now' : Z)
    (logs : list RaftLog) (last : RaftLog) (fuel : nat) :
  length pad = 4%nat → Forall durable (logs ++ [last]) → Sorted grows (logs ++ [last]) →
  (length (log_items (logs ++ [last])) < fuel)%nat →
  ∃ disk log', persist_all pad now (logs ++ [last]) empty_disk = Ok disk ∧
    raft_log_recover fresh pad fuel now' (raft_log_init true) disk = Ok (log', disk) ∧
    wf log' ∧ contents log' = contents last ∧ commit_index log' = commit_index last.
Proof.
  intros Hpad Hd Hs Hfuel. assert (Hne : logs ++ [last] ≠ []) by (by destruct logs).
  destruct (persist_all_ok pad now _ empty_disk Hd Hne) as (disk & E & Hw).
  destruct (durable_recovery fresh pad now' now _ fuel disk Hpad Hne Hd Hfuel Hw)
    as (log' & ? & ? & _ & Hsnap).
  unfold first_written in Hsnap. rewrite fold_grows in Hsnap; [|done|done|].
  - injection Hsnap as ??. by exists disk, log'.
  - intros b Hb. split; [apply prefix_nil|]. rewrite Forall_forall in Hd.
    destruct (Hd b) as (Hwf & Hf & _); [by apply head_Some_elem_of|]. destruct Hwf. lia.
Qed.

(** *** Files that are cut short *)

Lemma prefix_app_cases {A} (p a b : list A) :
  p `prefix_of` a ++ b → p `prefix_of` a ∨ ∃ q, p = a ++ q ∧ q `prefix_of` b.
Proof.
  revert p. induction a as [|x a IH]; intros p Hp; [right; by exists p|].
  destruct p as [|y p]; [left; apply prefix_nil|]. cbn [app] in Hp.
  apply prefix_cons_inv_1 in Hp as Hyx. subst y. apply prefix_cons_inv_2 in Hp.
  destruct (IH p Hp) as [?|(q & -> & ?)]; [left; by apply prefix_cons|right; by exists q].
Qed.

Lemma log_items_prefix logs p :
  p `prefix_of` log_items logs →
  ∃ logs1 logs2 l, p = log_items logs1 ++ map WalEntry l ∧ logs = logs1 ++ logs2 ∧
    (l = [] ∨ ∃ src logs3, logs2 = src :: logs3 ∧ l `prefix_of` contents src).
Proof.
  revert p. induction logs as [|src logs IH]; intros p Hp.
  - apply prefix_nil_inv in Hp as ->. exists [], [], []. split; [done|]. split; [done|]. by left.
  - unfold log_items in Hp. cbn [map] in Hp. rewrite mjoin_cons in Hp. cbn [compose] in Hp.
    apply prefix_app_cases in Hp as [Hp|(q & -> & Hq)].
    + unfold snap_items in Hp. cbn [fst snd snap] in Hp. apply prefix_app_cases in Hp as [[r Hr]|(q & -> & Hq)].
      * apply map_eq_app in Hr as (l & r' & Hl & <- & _).
        exists [], (src :: logs), l. split; [done|]. split; [done|]. right. exists src, logs.
        split; [done|]. rewrite Hl. by apply prefix_app_r.
      * destruct Hq as [[|x r] Hr].
        -- rewrite app_nil_r in Hr. subst q. exists [src], logs, []. unfold log_items.
           cbn [map]. rewrite mjoin_cons. change (mjoin []) with (@nil WalItem).
           rewrite !app_nil_r. split; [done|]. split; [done|]. by left.
        -- destruct q as [|y q]; [|by destruct q]. rewrite app_nil_r.
           exists [], (src :: logs), (contents src). split; [done|]. split; [done|].
           right. by exists src, logs.
    + destruct (IH q Hq) as (l1 & l2 & l & -> & -> & Hcase). exists (src :: l1), l2, l.
      change (log_items (src :: l1)) with (snap_items (snap src) ++ log_items l1).
      by rewrite <- app_assoc.
Qed.

Lemma fold_first_prefix ss acc : acc.1 `prefix_of` (fold_left first_step ss acc).1.
Proof.
  revert acc. induction ss as [|s ss IH]; intros acc; [done|]. cbn [fold_left].
  etrans; [|apply IH]. cbn [fst first_step]. by apply prefix_app_r.
Qed.

(** C5: a crash in the middle of a write loses a suffix and nothing else: from a
    file cut off at any byte recovery succeeds with a prefix of the entries that
    the whole file gives. *)
Theorem wal_torn_tail (fresh : RaftLogEntry) (pad : list Z) (now now' : Z) (logs : list RaftLog)
    (fuel n : nat) (disk : Disk) (file : list Z) :
  length pad = 4%nat → logs ≠ [] → Forall durable logs → (length (log_items logs) < fuel)%nat →
  persist_all pad now logs empty_disk = Ok disk → wal disk !! 1 = Some file →
  let torn := {| wal := {[1 := take n file]}; snapshots := snapshots disk |} in
  ∃ log', raft_log_recover fresh pad fuel now' (raft_log_init true) torn = Ok (log', torn) ∧
    wf log' ∧ contents log' `prefix_of` (first_written (map snap logs)).1.
Proof.
  intros Hpad Hne Hd Hfuel Hp Hfile torn.
  destruct (persist_all_ok pad now logs empty_disk Hd Hne) as (disk' & E & Hw).
  rewrite Hp in E. injection E as <-. rewrite Hfile in Hw. injection Hw as Hw.
  assert (Htorn : wal torn !! 1 = Some (take n file)) by apply lookup_insert_eq.
  rewrite Hw in Htorn.
  rewrite (recover_file fresh pad Hpad now' n fuel now torn (log_items logs) Htorn);
    [|by apply (log_items_ok pad)|done].
  case_decide; [|exists (raft_log_init true); split; [done|]; split; [apply init_wf|apply prefix_nil]].
  destruct (log_items_prefix logs _ (whole_prefix pad (n - 32) (log_items logs)))
    as (logs1 & logs2 & l & -> & Hlogs & Hl). rewrite Hlogs in Hd |- *.
  apply Forall_app in Hd as [Hd1 Hd2]. rewrite recover_items_app.
  destruct (recover_logs fresh pad Hpad logs1 (raft_log_init true)) as (log1 & -> & Hwf1 & Hf1 & Hs1);
    [apply init_wf|done|done|]. cbn [mbind outcome_bind].
  unfold first_written. rewrite map_app, fold_left_app. change ([], 0) with (snap (raft_log_init true)).
  rewrite <- Hs1. destruct Hl as [-> |(src & logs3 & -> & Hl)].
  - exists log1. split; [done|]. split; [done|]. apply (fold_first_prefix _ (snap log1)).
  - apply Forall_cons in Hd2 as [(Hsrc & Hfs & _) _].
    pose proof (contents_length src Hsrc) as Ls. pose proof (wf_count src Hsrc).
    pose proof (wf_capacity src Hsrc). pose proof (wf_last src Hsrc). pose proof (wf_last log1 Hwf1).
    pose proof (prefix_length _ _ Hl). unfold count, RAFT_MAX_LOG_ENTRIES in *.
    destruct (recover_entries_ok fresh pad Hpad l 1 log1) as (log2 & -> & Hwf2 & Hc2 & _);
      [done| |lia|unfold RAFT_MAX_LOG_ENTRIES; lia|lia|].
    + intros k e He. rewrite <- Hfs. apply (wf_entries src Hsrc). by eapply prefix_lookup_Some.
    + exists log2. split; [done|]. split; [done|]. cbn [map fold_left].
      etrans; [|apply fold_first_prefix]. cbn [fst first_step snap]. rewrite Hc2.
      pose proof (contents_length log1 Hwf1) as L1. unfold count in L1.
      replace (Z.to_nat (last_index log1 + 1 - 1)) with (length (contents log1)) by lia.
      apply prefix_app. destruct Hl as [r ->].
      destruct (le_lt_dec (length (contents log1)) (length l)).
      * rewrite drop_app_le by done. by apply prefix_app_r.
      * rewrite (drop_ge l) by lia. apply prefix_nil.
Qed.

(** *** What recovery brings back and what it loses *)

Lemma log_items_length logs :
  length (log_items logs) = sum_list (map (λ log, S (length (contents log))) logs).
Proof.
  induction logs as [|log logs IH]; [done|].
  change (log_items (log :: logs)) with (snap_items (snap log) ++ log_items logs).
  cbn [map sum_list sum_list_with id]. rewrite length_app, IH. unfold snap_items, snap. cbn [fst snd].
  rewrite length_app, length_map. cbn [length]. lia.
Qed.

Lemma first_step_short l k s : (length s.1 <= length l)%nat → (first_step (l, k) s).1 = l.
Proof. intros Hl. unfold first_step. cbn [fst]. by rewrite drop_ge, app_nil_r by done. Qed.

(** Recovery undoes a truncation: when a follower drops conflicting entries and
    appends the leader's in their place, both are persisted, and after a crash the
    log holds the dropped entries again and not the leader's. *)
Theorem wal_truncation_forgotten (fresh : RaftLogEntry) (pad : list Z) (now i : Z)
    (log : RaftLog) (srcs : list RaftLogEntry) (fuel : nat) :
  length pad = 4%nat → durable log → is_i64 now → Forall src_ok srcs → srcs ≠ [] →
  0 ≤ i → i + len srcs ≤ last_index log → 3 * last_index log + 3 < Z.of_nat fuel →
  ∃ d1 log2 d2 log3 d3 log',
    raft_log_persist pad now log empty_disk = Ok d1 ∧
    raft_log_truncate pad now log i d1 = Ok (log2, d2) ∧
    raft_log_append fresh pad now log2 srcs d2 = Ok (log3, d3) ∧
    contents log3 = take (Z.to_nat i) (contents log) ++ stamp_all now (i + 1) srcs ∧
    raft_log_recover fresh pad fuel now (raft_log_init true) d3 = Ok (log', d3) ∧
    contents log' = contents log.
Proof.
  intros Hpad (Hwf & Hf & Hp) Hnow Hsrcs Hne Hi Hlen Hfuel.
  assert (Hl1 : 1 ≤ len srcs) by (destruct srcs; [done|cbn; lia]).
  pose proof (contents_length log Hwf) as L. unfold count in L.
  pose proof (wf_count log Hwf) as Hcount. pose proof (wf_capacity log Hwf) as Hcap.
  pose proof (wf_last log Hwf) as Hlast. unfold count, RAFT_MAX_LOG_ENTRIES in *.
  set (d1 := persist_disk pad now log empty_disk).
  destruct (truncate_ok pad now log i d1 Hwf) as (log2 & E2 & Hwf2 & Habs2 & Hp2 & Hf2);
    [split; [done|unfold in_u; lia]|].
  assert (Hin : base (abs log) ≤ i < spec_last (abs log)).
  { unfold spec_last. change (items (abs log)) with (contents log).
    change (base (abs log)) with (first_index log - 1). lia. }
  rewrite decide_True in E2 by done. unfold spec_op in Habs2. rewrite decide_True in Habs2 by done.
  injection Habs2 as Hb2 Hc2 _ _.
  replace (Z.to_nat (i - (first_index log - 1))) with (Z.to_nat i) in Hc2 by lia.
  pose proof (contents_length log2 Hwf2) as L2. rewrite Hc2, length_take in L2. unfold count in L2.
  assert (Hlast2 : last_index log2 = i) by lia.
  destruct (append_ok fresh pad now log2 srcs (persist_disk pad now log2 d1) Hwf2)
    as (log3 & E3 & Hwf3 & Habs3 & Hp3 & Hf3).
  { split; [done|]. split; [done|]. unfold count, RAFT_MAX_LOG_ENTRIES. lia. }
  rewrite decide_False in E3 by done. set (d3 := persist_disk pad now log3 _) in E3.
  unfold abs in Habs3. cbn [spec_op base items committed applied] in Habs3. unfold spec_last in Habs3.
  cbn [base items] in Habs3. injection Habs3 as _ Hc3 _ _.
  assert (Hd : Forall durable [log; log2; log3]).
  { repeat (apply Forall_cons_2; [split; [done|split; congruence]|]). apply Forall_nil_2. }
  assert (Hall : persist_all pad now [log; log2; log3] empty_disk = Ok d3).
  { cbn [persist_all]. repeat (rewrite persist_disk_ok by done; cbn [mbind outcome_bind]). done. }
  destruct (persist_all_ok pad now [log; log2; log3] empty_disk Hd) as (d & E & Hw); [done|].
  rewrite Hall in E. injection E as <-.
  assert (Hc3' : contents log3 = take (Z.to_nat i) (contents log) ++ stamp_all now (i + 1) srcs).
  { rewrite Hc3, Hc2. do 2 f_equal. rewrite length_take. lia. }
  destruct (durable_recovery fresh pad now now [log; log2; log3] fuel d3 Hpad)
    as (log' & E' & _ & _ & Hsnap); [done|done| |done|].
  { rewrite log_items_length. cbn [map sum_list sum_list_with id].
    rewrite Hc3', Hc2, length_app, stamp_all_length, length_take. lia. }
  exists d1, log2, (persist_disk pad now log2 d1), log3, d3, log'.
  split; [by apply persist_disk_ok|]. split; [done|]. split; [done|]. split; [done|]. split; [done|].
  apply (f_equal fst) in Hsnap. cbn [fst snap] in Hsnap. rewrite Hsnap.
  unfold first_written. cbn [map fold_left].
  destruct (first_step ([], 0) (snap log)) as [l1 k1] eqn:E1.
  assert (l1 = contents log) as ->.
  { apply (f_equal fst) in E1. cbn in E1. by rewrite drop_0 in E1. }
  destruct (first_step (contents log, k1) (snap log2)) as [l2 k2] eqn:E1'.
  assert (l2 = contents log) as ->.
  { apply (f_equal fst) in E1'. rewrite first_step_short in E1'; [done|].
    cbn [fst snap]. rewrite Hc2, length_take. lia. }
  apply first_step_short. cbn [fst snap]. rewrite Hc3', length_app, stamp_all_length, length_take. lia.
Qed.

(** After a compaction the log is persisted under another file name, which
    recovery does not look for: what is appended after the first compaction is lost
    in a crash, and the compacted entries come back. *)
Theorem wal_compaction_loses_appends (fresh : RaftLogEntry) (pad : list Z) (now i : Z)
    (log : RaftLog) (srcs : list RaftLogEntry) (fuel : nat) :
  length pad = 4%nat → durable log → is_i64 now → Forall src_ok srcs → srcs ≠ [] →
  1 ≤ i ≤ last_applied log → last_index log + len srcs ≤ RAFT_MAX_LOG_ENTRIES →
  last_index log + 1 < Z.of_nat fuel →
  ∃ d1 log2 log3 d3 log',
    raft_log_persist pad now log empty_disk = Ok d1 ∧
    raft_log_compact log i = Ok log2 ∧
    raft_log_append fresh pad now log2 srcs d1 = Ok (log3, d3) ∧
    first_index log3 = i + 1 ∧ last_index log3 = last_index log + len srcs ∧
    raft_log_recover fresh pad fuel now (raft_log_init true) d3 = Ok (log', d3) ∧
    contents log' = contents log.
Proof.
  unfold RAFT_MAX_LOG_ENTRIES. intros Hpad (Hwf & Hf & Hp) Hnow Hsrcs Hne Hi Hlen Hfuel.
  pose proof (contents_length log Hwf) as L. unfold count in L.
  pose proof (wf_applied log Hwf) as Happ. pose proof (wf_commit log Hwf) as Hcom.
  set (d1 := persist_disk pad now log empty_disk).
  destruct (compact_ok log i Hwf) as (log2 & E2 & Hwf2 & Habs2 & Hp2); [unfold in_u; lia|].
  unfold abs in Habs2. cbn [spec_op base items committed applied] in Habs2.
  rewrite Z.min_l, decide_True in Habs2 by lia. injection Habs2 as Hb2 Hc2 _ _.
  pose proof (contents_length log2 Hwf2) as L2. rewrite Hc2, length_drop in L2. unfold count in L2.
  destruct (append_ok fresh pad now log2 srcs d1 Hwf2) as (log3 & E3 & Hwf3 & Habs3 & Hp3 & Hf3).
  { split; [done|]. split; [done|]. unfold count, RAFT_MAX_LOG_ENTRIES. lia. }
  rewrite decide_False in E3 by done. set (d3 := persist_disk pad now log3 d1) in E3.
  assert (Hw3 : wal d3 !! 1 = wal d1 !! 1).
  { subst d3. unfold persist_disk. destruct (persistence_enabled log3); [|done]. cbn [wal].
    apply lookup_insert_ne. lia. }
  assert (Hd : Forall durable [log]) by (apply Forall_cons_2; [done|apply Forall_nil_2]).
  destruct (persist_all_ok pad now [log] empty_disk Hd) as (d & E & Hw); [done|].
  cbn [persist_all] in E. rewrite persist_disk_ok in E by done. injection E as <-.
  fold d1 in Hw. rewrite <- Hw3 in Hw.
  destruct (durable_recovery fresh pad now now [log] fuel d3 Hpad) as (log' & E' & _ & _ & Hsnap);
    [done|done| |done|].
  { rewrite log_items_length. cbn [map sum_list sum_list_with id]. lia. }
  exists d1, log2, log3, d3, log'. split; [by apply persist_disk_ok|]. split; [done|]. split; [done|].
  split; [lia|].
  unfold abs in Habs3. cbn [spec_op base items committed applied] in Habs3. injection Habs3 as _ Hc3 _ _.
  pose proof (contents_length log3 Hwf3) as L3. rewrite Hc3, length_app, stamp_all_length, Hc2, length_drop in L3.
  unfold count in L3. split; [lia|]. split; [done|].
  apply (f_equal fst) in Hsnap. cbn [fst snap] in Hsnap. rewrite Hsnap.
  unfold first_written. cbn. by rewrite drop_0.
Qed.

(** ** The limit on the number of entries *)

Lemma append_loop_undef now srcs log k :
  Forall src_ok srcs → 1 ≤ first_index log → first_index log + Z.of_nat k + len srcs ≤ 2 ^ 63 →
  (k <= length (entries log) < k + length srcs)%nat →
  append_loop now log (first_index log + Z.of_nat k) srcs = Undef.
Proof.
  intros Hs. revert log k. induction Hs as [|src srcs Hsrc _ IH]; intros log k H1 Hmax Hle;
    cbn [append_loop length] in *; [lia|].
  rewrite copy_entry_stamp by done. cbn [mbind outcome_bind].
  rewrite (uwrap_id 64 (_ - _)) by (unfold in_u; lia).
  replace (Z.to_nat (first_index log + Z.of_nat k - first_index log)) with k by lia.
  case_decide; [|done]. rewrite uwrap_id by (unfold in_u; lia). set (log1 := with_entries log _ _).
  replace (first_index log + Z.of_nat k + 1) with (first_index log1 + Z.of_nat (S k)) by (cbn; lia).
  apply IH; [done|change (first_index log1) with (first_index log); lia|].
  subst log1. cbn [entries with_entries]. rewrite length_insert. lia.
Qed.

(** The array stops growing at [RAFT_MAX_LOG_ENTRIES] but an append does not:
    appending to a log so that it would hold more entries writes behind the
    array. *)
Theorem append_past_limit_undefined (fresh : RaftLogEntry) (pad : list Z) (now : Z) (log : RaftLog)
    (srcs : list RaftLogEntry) (disk : Disk) :
  wf log → Forall src_ok srcs → RAFT_MAX_LOG_ENTRIES < count log + len srcs ≤ 2 ^ 30 →
  last_index log + len srcs < 2 ^ 63 →
  raft_log_append fresh pad now log srcs disk = Undef.
Proof.
  unfold RAFT_MAX_LOG_ENTRIES. intros Hwf Hsrcs Hcount Hlast. pose proof Hwf as [].
  unfold RAFT_MAX_LOG_ENTRIES, count in *. destruct srcs as [|src l]; [cbn in Hcount; lia|].
  cbn [raft_log_append]. set (srcs := src :: l) in *. set (needed := last_index log - _ + 1 + _).
  assert (Hneeded : 10000 < needed ≤ 2 ^ 30) by (subst needed; lia).
  rewrite (swrap_id 32) by (unfold in_i; lia). unfold raft_log_ensure_capacity.
  rewrite (proj2 (Z.leb_gt _ _)) by lia.
  destruct (grow_ok 32 (capacity log) needed) as (c & -> & Hc1 & Hc2); [lia|lia|cbn; lia|].
  cbn [mbind outcome_bind]. unfold RAFT_MAX_LOG_ENTRIES.
  rewrite (proj2 (Z.ltb_lt 10000 c)) by lia. cbn zeta. set (log1 := with_entries log _ _).
  change (last_index log1) with (last_index log). rewrite uwrap_id by (unfold in_u; lia).
  assert (Hl : len (entries log1) = 10000).
  { subst log1. cbn [entries with_entries]. unfold resize.
    rewrite length_app, length_take, length_replicate. lia. }
  replace (last_index log + 1) with
    (first_index log1 + Z.of_nat (Z.to_nat (last_index log - first_index log + 1)))
    by (change (first_index log1) with (first_index log); lia).
  rewrite append_loop_undef; [done|done|done| |];
    change (first_index log1) with (first_index log); lia.
Qed.

(** ** Snapshots *)

Lemma latest_snapshot_spec (m : gmap Z (list Z)) :
  let v := map_fold (λ i _ m, Z.max i m) 0 m in
  (∀ j x, m !! j = Some x → j ≤ v) ∧ (v = 0 ∨ ∃ x, m !! v = Some x).
Proof.
  cbn zeta. apply (map_fold_weak_ind (λ v m, (∀ j x, m !! j = Some x → j ≤ v) ∧
    (v = 0 ∨ ∃ x, m !! v = Some x))).
  - split; [intros j x Hj; by rewrite lookup_empty in Hj|by left].
  - intros i x m' v _ [Hle Hv]. split.
    + intros j y [[<- _]|[_ Hj]]%lookup_insert_Some; [lia|]. specialize (Hle j y Hj). lia.
    + destruct (Z.max_spec i v) as [[? ->]|[? ->]].
      * destruct Hv as [?|[y Hy]]; [by left|]. right. exists y. rewrite lookup_insert_ne; [done|lia].
      * right. exists x. apply lookup_insert_eq.
Qed.

(** The file of the largest index is the one that is loaded. *)
Lemma load_latest (now i t : Z) (log : RaftLog) (data : list Z) (disk : Disk) :
  persistence_enabled log = true → 0 < i < 2 ^ 63 → is_u64 t → len data ≤ MaxAllocSize →
  (∀ j bytes, snapshots disk !! j = Some bytes → j ≤ i) →
  snapshots disk !! i = Some (le_enc 8 i ++ le_enc 8 t ++ le_enc 4 (len data) ++ le_enc 8 now ++ data) →
  raft_log_load_snapshot log disk = Ok (Some
    {| snap_index := i; snap_term := t; snap_size := len data;
       snap_data := match data with [] => None | _ => Some data end |}).
Proof.
  intros Hp Hi Ht Hsize Hmax Hfile. unfold raft_log_load_snapshot. rewrite Hp. cbn [negb].
  assert (Hbest : latest_snapshot disk = i).
  { destruct (latest_snapshot_spec (snapshots disk)) as [Hle Hin]. fold (latest_snapshot disk) in *.
    specialize (Hle i _ Hfile). destruct Hin as [?|[x Hx]]; [lia|]. specialize (Hmax _ _ Hx). lia. }
  rewrite Hbest, (proj2 (Z.eqb_neq i 0)), Hfile by lia. set (bytes := le_enc 8 i ++ _).
  assert (Hlen : len bytes = 28 + len data).
  { subst bytes. rewrite !length_app, !Nat2Z.inj_add, !le_enc_length by lia. lia. }
  rewrite (proj2 (Z.ltb_ge _ _)) by lia. subst bytes.
  change (drop 28 ?x) with (drop (8 + (8 + (4 + 8))) x). change (drop 16 ?x) with (drop (8 + 8) x).
  rewrite <- !drop_drop. read_fields. rewrite !le_dec_enc_u64 by (done || unfold in_u; lia).
  change MaxAllocSize with (2 ^ 30 - 1) in *. rewrite le_dec_enc_i32 by (unfold in_i; lia).
  rewrite (proj2 (Z.ltb_ge (len data) 0)), (proj2 (Z.ltb_ge (1024 * 1024 * 1024) (len data))),
    (proj2 (Z.ltb_ge (2 ^ 30 - 1) (len data))), Z.ltb_irrefl by lia.
  cbn [orb]. rewrite Nat2Z.id, firstn_all. do 3 f_equal. destruct data; [done|].
  by rewrite (proj2 (Z.ltb_lt 0 _)) by (cbn; lia).
Qed.

(** The snapshot that is created last is the one that is loaded, with its index,
    the term of its last entry and its data, when its index is the largest. *)
Theorem snapshot_roundtrip (now i : Z) (log : RaftLog) (data : list Z) (disk : Disk) :
  wf log → persistence_enabled log = true → 0 < i < 2 ^ 63 →
  (∀ j bytes, snapshots disk !! j = Some bytes → j ≤ i) →
  len data ≤ MaxAllocSize →
  ∃ log' disk', raft_log_create_snapshot now log i (Some data) (len data) disk = Ok (log', disk') ∧
    wf log' ∧ abs log' = spec_op (OpCompact i) (abs log) ∧
    raft_log_load_snapshot log' disk' = Ok (Some
      {| snap_index := i;
         snap_term := match spec_get (abs log) i with Some e => term e | None => 0 end;
         snap_size := len data;
         snap_data := match data with [] => None | _ => Some data end |}).
Proof.
  intros Hwf Hp Hi Hmax Hsize.
  destruct (compact_ok log i Hwf) as (log' & Ec & Hwf' & Habs & Hp'); [unfold in_u; lia|].
  unfold raft_log_create_snapshot. rewrite Hp. cbn [negb].
  rewrite term_at_spec by (done || unfold in_u; lia). cbn [mbind outcome_bind].
  rewrite (proj2 (Z.eqb_neq i 0)) by lia.
  set (t := match spec_get _ _ with Some e => term e | None => 0 end).
  assert (Ht : is_u64 t).
  { subst t. destruct (spec_get (abs log) i) as [e|] eqn:E; [|unfold in_u; lia].
    unfold spec_get in E. case_decide; [|done]. by destruct (wf_entries log Hwf _ e E) as (_ & _ & ? & _). }
  assert (Hcopy : (if 0 <? len data then if len data <? len data then Undef
                   else Ok (take (Z.to_nat (len data)) data) else Ok []) = Ok data).
  { rewrite Z.ltb_irrefl, Nat2Z.id, firstn_all. destruct data; [done|].
    by rewrite (proj2 (Z.ltb_lt 0 _)) by (cbn; lia). }
  rewrite Hcopy. cbn [mbind outcome_bind]. rewrite Ec. cbn [mbind outcome_bind].
  eexists _, _. split; [done|]. split; [done|]. split; [done|].
  apply (load_latest now).
  - by rewrite Hp'.
  - done.
  - done.
  - done.
  - intros j bytes. cbn [snapshots]. intros [[<- _]|[_ Hj]]%lookup_insert_Some; [lia|by eapply Hmax].
  - apply lookup_insert_eq.
Qed.

(** ** Witnesses *)

Definition zero_pad : list Z := [0; 0; 0; 0].

Definition command (t b : Z) : RaftLogEntry :=
  {| index := 0; term := t; type := RAFT_LOG_COMMAND; command_size := 1; command_data := Some [b];
     created_at := 7 |}.

Definition add_entries (log : RaftLog) (srcs : list RaftLogEntry) : RaftLog :=
  match raft_log_append zero_entry zero_pad 7 log srcs empty_disk with
  | Ok (log, _) => log | _ => log end.

Lemma add_entries_durable log srcs :
  durable log → Forall src_ok srcs → count log + len srcs ≤ RAFT_MAX_LOG_ENTRIES →
  last_index log + len srcs < 2 ^ 63 →
  durable (add_entries log srcs) ∧ contents log `prefix_of` contents (add_entries log srcs) ∧
  commit_index (add_entries log srcs) = commit_index log.
Proof.
  intros (Hwf & Hf & Hp) Hs Hc Hl. unfold add_entries.
  destruct (append_ok zero_entry zero_pad 7 log srcs empty_disk Hwf) as (log' & -> & ? & Habs & ? & ?);
    [by split; [decide_now|]|].
  split; [split; [done|split; congruence]|]. unfold abs in Habs.
  cbn [spec_op base items committed applied] in Habs. injection Habs as _ -> -> _.
  split; [by apply prefix_app_r|done].
Qed.

Lemma command_ok t b : is_u64 t → is_u8 b → src_ok (command t b).
Proof.
  intros Ht Hb. split; [done|]. split; [decide_now|]. split; [decide_now|]. cbn.
  split; [decide_now|]. unfold MaxAllocSize. split; [lia|]. split; [lia|].
  apply Forall_cons_2; [done|apply Forall_nil_2].
Qed.

Definition srcs2 : list RaftLogEntry := [command 1 65; command 1 66].
Definition log2 : RaftLog := add_entries (raft_log_init true) srcs2.
Definition log3 : RaftLog := add_entries log2 [command 2 67].

Lemma srcs2_ok : Forall src_ok srcs2.
Proof. repeat apply Forall_cons_2; [apply command_ok; decide_now..|apply Forall_nil_2]. Qed.

Lemma src_ok_67 : Forall src_ok [command 2 67].
Proof. apply Forall_cons_2; [apply command_ok; decide_now|apply Forall_nil_2]. Qed.

Lemma init_durable : durable (raft_log_init true).
Proof. split; [apply init_wf|done]. Qed.

Lemma log2_durable : durable log2.
Proof. apply (add_entries_durable (raft_log_init true)); [apply init_durable|apply srcs2_ok|decide_now..]. Qed.

Lemma log3_durable : durable log3 ∧ contents log2 `prefix_of` contents log3 ∧ commit_index log3 = 0.
Proof. apply (add_entries_durable log2); [apply log2_durable|apply src_ok_67|decide_now..]. Qed.

Lemma applied_durable log c :
  durable log → 0 ≤ c ≤ last_index log → durable (with_commit log c c).
Proof.
  intros ([] & Hf & Hp) Hc. split; [|done]. rewrite Hf in *.
  split; cbn [first_index last_index entries capacity commit_index last_applied with_commit];
    rewrite ?Hf; done || lia.
Qed.

Lemma raft_log_refines_witness :
  (∃ log' disk', run_op zero_entry zero_pad (OpTruncate 7 1) log2 empty_disk = Ok (log', disk') ∧
     wf log' ∧ abs log' = spec_op (OpTruncate 7 1) (abs log2)) ∧
  raft_log_get log2 2 = Ok (spec_get (abs log2) 2) ∧
  raft_log_term_at log2 2 =
    Ok (if 2 =? 0 then 0 else match spec_get (abs log2) 2 with Some e => term e | None => 0 end) ∧
  raft_log_get_range log2 2 2 = Ok
    (if decide (base (abs log2) < 2 ∧ 2 ≤ 2 ∧ 2 ≤ spec_last (abs log2))
     then Some (take (Z.to_nat (2 - 2 + 1)) (drop (Z.to_nat (2 - base (abs log2) - 1)) (items (abs log2))))
     else None).
Proof.
  apply (raft_log_refines zero_entry zero_pad log2 empty_disk (OpTruncate 7 1) 2 2).
  - apply log2_durable.
  - split; decide_now.
  - decide_now.
  - decide_now.
Defined.

Lemma append_past_limit_undefined_witness :
  raft_log_append zero_entry zero_pad 7 (raft_log_init true) (replicate (Z.to_nat 10001) (command 1 65))
    empty_disk = Undef.
Proof.
  apply (append_past_limit_undefined zero_entry zero_pad 7 (raft_log_init true)).
  - apply init_wf.
  - apply Forall_replicate, command_ok; decide_now.
  - rewrite length_replicate. unfold RAFT_MAX_LOG_ENTRIES, count. cbn [last_index first_index raft_log_init]. lia.
  - rewrite length_replicate. cbn [last_index raft_log_init]. lia.
Defined.

Lemma wal_recovers_first_written_witness :
  ∃ disk log', persist_all zero_pad 7 [log2; log3] empty_disk = Ok disk ∧
    raft_log_recover zero_entry zero_pad 10 9 (raft_log_init true) disk = Ok (log', disk) ∧
    wf log' ∧ (contents log', commit_index log') = first_written (map snap [log2; log3]).
Proof.
  apply wal_recovers_first_written.
  - reflexivity.
  - done.
  - repeat apply Forall_cons_2; [apply log2_durable|apply log3_durable|apply Forall_nil_2].
  - by decide_now.
Defined.

Lemma wal_append_only_durable_witness :
  ∃ disk log', persist_all zero_pad 7 ([log2] ++ [log3]) empty_disk = Ok disk ∧
    raft_log_recover zero_entry zero_pad 10 9 (raft_log_init true) disk = Ok (log', disk) ∧
    wf log' ∧ contents log' = contents log3 ∧ commit_index log' = commit_index log3.
Proof.
  apply wal_append_only_durable.
  - reflexivity.
  - repeat apply Forall_cons_2; [apply log2_durable|apply log3_durable|apply Forall_nil_2].
  - repeat constructor; [apply log3_durable|].
    destruct log3_durable as (_ & _ & ->). by decide_now.
  - by decide_now.
Defined.

Lemma wal_torn_tail_witness :
  let disk := match persist_all zero_pad 7 [log2; log3] empty_disk with Ok d => d | _ => empty_disk end in
  let file := match wal disk !! 1 with Some f => f | None => [] end in
  let torn := {| wal := {[1 := take 150 file]}; snapshots := snapshots disk |} in
  ∃ log', raft_log_recover zero_entry zero_pad 10 9 (raft_log_init true) torn = Ok (log', torn) ∧
    wf log' ∧ contents log' `prefix_of` (first_written (map snap [log2; log3])).1.
Proof.
  intros disk file. apply (wal_torn_tail zero_entry zero_pad 7 9 [log2; log3] 10 150 disk file).
  - reflexivity.
  - done.
  - repeat apply Forall_cons_2; [apply log2_durable|apply log3_durable|apply Forall_nil_2].
  - by decide_now.
  - reflexivity.
  - reflexivity.
Defined.

Lemma wal_truncation_forgotten_witness :
  ∃ d1 log2' d2 log3' d3 log',
    raft_log_persist zero_pad 7 log2 empty_disk = Ok d1 ∧
    raft_log_truncate zero_pad 7 log2 1 d1 = Ok (log2', d2) ∧
    raft_log_append zero_entry zero_pad 7 log2' [command 2 67] d2 = Ok (log3', d3) ∧
    contents log3' = take (Z.to_nat 1) (contents log2) ++ stamp_all 7 (1 + 1) [command 2 67] ∧
    raft_log_recover zero_entry zero_pad 100 7 (raft_log_init true) d3 = Ok (log', d3) ∧
    contents log' = contents log2.
Proof.
  apply wal_truncation_forgotten.
  - reflexivity.
  - apply log2_durable.
  - decide_now.
  - apply src_ok_67.
  - done.
  - lia.
  - by decide_now.
  - by decide_now.
Defined.

Lemma wal_compaction_loses_appends_witness :
  let log := with_commit log2 2 2 in
  ∃ d1 log2' log3' d3 log',
    raft_log_persist zero_pad 7 log empty_disk = Ok d1 ∧
    raft_log_compact log 1 = Ok log2' ∧
    raft_log_append zero_entry zero_pad 7 log2' [command 2 67] d1 = Ok (log3', d3) ∧
    first_index log3' = 1 + 1 ∧ last_index log3' = last_index log + len [command 2 67] ∧
    raft_log_recover zero_entry zero_pad 100 7 (raft_log_init true) d3 = Ok (log', d3) ∧
    contents log' = contents log.
Proof.
  intros log. apply wal_compaction_loses_appends.
  - reflexivity.
  - apply applied_durable; [apply log2_durable|by decide_now].
  - decide_now.
  - apply src_ok_67.
  - done.
  - by decide_now.
  - by decide_now.
  - by decide_now.
Defined.

Lemma snapshot_roundtrip_witness :
  let log := with_commit log2 2 2 in
  ∃ log' disk', raft_log_create_snapshot 7 log 2 (Some [1; 2; 3]) (len [1; 2; 3]) empty_disk = Ok (log', disk') ∧
    wf log' ∧ abs log' = spec_op (OpCompact 2) (abs log) ∧
    raft_log_load_snapshot log' disk' = Ok (Some
      {| snap_index := 2;
         snap_term := match spec_get (abs log) 2 with Some e => term e | None => 0 end;
         snap_size := len [1; 2; 3]; snap_data := Some [1; 2; 3] |}).
Proof.
  intros log. apply (snapshot_roundtrip 7 2 log [1; 2; 3]).
  - apply applied_durable; [apply log2_durable|by decide_now].
  - reflexivity.
  - lia.
  - intros j bytes Hj. cbn [empty_disk snapshots] in Hj. by rewrite lookup_empty in Hj.
  - by decide_now.
Defined.

(** A torn file on a concrete run: cut inside the second record, it gives one entry. *)
Example torn_prefix :
  let disk := match persist_all zero_pad 7 [log2; log3] empty_disk with Ok d => d | _ => empty_disk end in
  let file := default [] (wal disk !! 1) in
  match raft_log_recover zero_entry zero_pad 10 9 (raft_log_init true)
          {| wal := {[1 := take 100 file]}; snapshots := ∅ |} with
  | Ok (log, _) => map term (contents log) = [1]
  | _ => False
  end.
Proof. vm_compute. reflexivity. Qed.
