(* ===== verification/Raft.v ===== *)
(** * Raft: elections, replication and snapshots of one node

    Models [src/consensus/raft.c], the structures of [src/consensus/raft.h] and the
    RPC entry points of [src/consensus/raft_integration.c].  A handler takes the
    node's state to its new state and its answer.  What a peer answers is an
    argument; [RaftCluster] supplies it from the handlers of other nodes.
    Connections, host names and statistics of contact times are not modelled. *)
From S2P Require Import Prelude RaftLog.

Local Open Scope Z_scope.

(** ** Data *)

Definition RAFT_ELECTION_TIMEOUT_MIN_MS : Z := 150.
Definition RAFT_HEARTBEAT_INTERVAL_MS : Z := 50.
Definition RAFT_MAX_ENTRIES_PER_APPEND : Z := 100.
Definition RAFT_SNAPSHOT_THRESHOLD : Z := 1000.
Definition RAFT_MAX_CLUSTER_SIZE : Z := 32.

Inductive RaftState := RAFT_STATE_FOLLOWER | RAFT_STATE_CANDIDATE | RAFT_STATE_LEADER.

#[export] Instance raft_state_eq_dec : EqDecision RaftState.
Proof. solve_decision. Defined.

Record RequestVoteRequest := {
  rv_term : Z; candidate_id : Z; last_log_index : Z; last_log_term : Z }.

Record RequestVoteResponse := { rvr_term : Z; vote_granted : bool; voter_id : Z }.

(** [entries_count] is the length of the list. *)
Record AppendEntriesRequest := {
  ae_term : Z; ae_leader : Z; prev_log_index : Z; prev_log_term : Z;
  ae_entries : list RaftLogEntry; leader_commit : Z }.

Record AppendEntriesResponse := {
  aer_term : Z; aer_success : bool; aer_match : Z; aer_node : Z }.

Record InstallSnapshotRequest := {
  is_term : Z; is_leader_id : Z; last_included_index : Z; last_included_term : Z;
  is_offset : Z; is_data : option (list Z); is_data_size : Z; is_done : bool }.

Record InstallSnapshotResponse := {
  isr_term : Z; isr_node : Z; bytes_received : Z; isr_success : bool }.

Record RaftPeer := {
  peer_id : Z; is_active : bool; next_index : Z; match_index : Z; peer_granted : bool }.

(** [state_file] is the file [raft_state_<node>.dat] of the data directory, [disk]
    the directory of the log. *)
Record RaftNode := {
  current_term : Z; voted_for : Z; log : RaftLog; disk : Disk; state_file : option (Z * Z);
  state : RaftState; node_id : Z; leader_id : Z; peers : list RaftPeer; quorum_size : Z;
  election_timeout : Z; last_heartbeat : Z; is_leader : bool;
  elections_started : Z; elections_won : Z; append_entries_sent : Z; votes_received : Z;
  running : bool }.

(** The current time in microseconds and the random election timeout in
    milliseconds, as an operation reads them. *)
Record Clock := { time : Z; random_timeout : Z }.

Definition set_term (n : RaftNode) (term vote : Z) : RaftNode :=
  {| current_term := term; voted_for := vote; log := log n; disk := disk n;
     state_file := state_file n; state := state n; node_id := node_id n;
     leader_id := leader_id n; peers := peers n; quorum_size := quorum_size n;
     election_timeout := election_timeout n; last_heartbeat := last_heartbeat n;
     is_leader := is_leader n; elections_started := elections_started n;
     elections_won := elections_won n; append_entries_sent := append_entries_sent n;
     votes_received := votes_received n; running := running n |}.

Definition set_role (n : RaftNode) (s : RaftState) (leads : bool) : RaftNode :=
  {| current_term := current_term n; voted_for := voted_for n; log := log n; disk := disk n;
     state_file := state_file n; state := s; node_id := node_id n; leader_id := leader_id n;
     peers := peers n; quorum_size := quorum_size n; election_timeout := election_timeout n;
     last_heartbeat := last_heartbeat n; is_leader := leads;
     elections_started := elections_started n; elections_won := elections_won n;
     append_entries_sent := append_entries_sent n; votes_received := votes_received n;
     running := running n |}.

Definition set_log (n : RaftNode) (l : RaftLog) (d : Disk) : RaftNode :=
  {| current_term := current_term n; voted_for := voted_for n; log := l; disk := d;
     state_file := state_file n; state := state n; node_id := node_id n;
     leader_id := leader_id n; peers := peers n; quorum_size := quorum_size n;
     election_timeout := election_timeout n; last_heartbeat := last_heartbeat n;
     is_leader := is_leader n; elections_started := elections_started n;
     elections_won := elections_won n; append_entries_sent := append_entries_sent n;
     votes_received := votes_received n; running := running n |}.

Definition set_leader (n : RaftNode) (id : Z) : RaftNode :=
  {| current_term := current_term n; voted_for := voted_for n; log := log n; disk := disk n;
     state_file := state_file n; state := state n; node_id := node_id n; leader_id := id;
     peers := peers n; quorum_size := quorum_size n; election_timeout := election_timeout n;
     last_heartbeat := last_heartbeat n; is_leader := is_leader n;
     elections_started := elections_started n; elections_won := elections_won n;
     append_entries_sent := append_entries_sent n; votes_received := votes_received n;
     running := running n |}.

Definition set_peers (n : RaftNode) (ps : list RaftPeer) : RaftNode :=
  {| current_term := current_term n; voted_for := voted_for n; log := log n; disk := disk n;
     state_file := state_file n; state := state n; node_id := node_id n;
     leader_id := leader_id n; peers := ps; quorum_size := quorum_size n;
     election_timeout := election_timeout n; last_heartbeat := last_heartbeat n;
     is_leader := is_leader n; elections_started := elections_started n;
     elections_won := elections_won n; append_entries_sent := append_entries_sent n;
     votes_received := votes_received n; running := running n |}.

Definition set_quorum (n : RaftNode) (q : Z) : RaftNode :=
  {| current_term := current_term n; voted_for := voted_for n; log := log n; disk := disk n;
     state_file := state_file n; state := state n; node_id := node_id n;
     leader_id := leader_id n; peers := peers n; quorum_size := q;
     election_timeout := election_timeout n; last_heartbeat := last_heartbeat n;
     is_leader := is_leader n; elections_started := elections_started n;
     elections_won := elections_won n; append_entries_sent := append_entries_sent n;
     votes_received := votes_received n; running := running n |}.

Definition set_timeout (n : RaftNode) (t : Z) : RaftNode :=
  {| current_term := current_term n; voted_for := voted_for n; log := log n; disk := disk n;
     state_file := state_file n; state := state n; node_id := node_id n;
     leader_id := leader_id n; peers := peers n; quorum_size := quorum_size n;
     election_timeout := t; last_heartbeat := last_heartbeat n; is_leader := is_leader n;
     elections_started := elections_started n; elections_won := elections_won n;
     append_entries_sent := append_entries_sent n; votes_received := votes_received n;
     running := running n |}.

Definition set_heartbeat (n : RaftNode) (t : Z) : RaftNode :=
  {| current_term := current_term n; voted_for := voted_for n; log := log n; disk := disk n;
     state_file := state_file n; state := state n; node_id := node_id n;
     leader_id := leader_id n; peers := peers n; quorum_size := quorum_size n;
     election_timeout := election_timeout n; last_heartbeat := t; is_leader := is_leader n;
     elections_started := elections_started n; elections_won := elections_won n;
     append_entries_sent := append_entries_sent n; votes_received := votes_received n;
     running := running n |}.

Definition set_votes (n : RaftNode) (v : Z) : RaftNode :=
  {| current_term := current_term n; voted_for := voted_for n; log := log n; disk := disk n;
     state_file := state_file n; state := state n; node_id := node_id n;
     leader_id := leader_id n; peers := peers n; quorum_size := quorum_size n;
     election_timeout := election_timeout n; last_heartbeat := last_heartbeat n;
     is_leader := is_leader n; elections_started := elections_started n;
     elections_won := elections_won n; append_entries_sent := append_entries_sent n;
     votes_received := v; running := running n |}.

Definition set_running (n : RaftNode) (b : bool) : RaftNode :=
  {| current_term := current_term n; voted_for := voted_for n; log := log n; disk := disk n;
     state_file := state_file n; state := state n; node_id := node_id n;
     leader_id := leader_id n; peers := peers n; quorum_size := quorum_size n;
     election_timeout := election_timeout n; last_heartbeat := last_heartbeat n;
     is_leader := is_leader n; elections_started := elections_started n;
     elections_won := elections_won n; append_entries_sent := append_entries_sent n;
     votes_received := votes_received n; running := b |}.

Definition set_stats (n : RaftNode) (started won sent : Z) : RaftNode :=
  {| current_term := current_term n; voted_for := voted_for n; log := log n; disk := disk n;
     state_file := state_file n; state := state n; node_id := node_id n;
     leader_id := leader_id n; peers := peers n; quorum_size := quorum_size n;
     election_timeout := election_timeout n; last_heartbeat := last_heartbeat n;
     is_leader := is_leader n; elections_started := started; elections_won := won;
     append_entries_sent := sent; votes_received := votes_received n; running := running n |}.

(** The file of the term and the vote is replaced. *)
Definition raft_persist_state (n : RaftNode) : RaftNode :=
  {| current_term := current_term n; voted_for := voted_for n; log := log n; disk := disk n;
     state_file := Some (current_term n, voted_for n); state := state n; node_id := node_id n;
     leader_id := leader_id n; peers := peers n; quorum_size := quorum_size n;
     election_timeout := election_timeout n; last_heartbeat := last_heartbeat n;
     is_leader := is_leader n; elections_started := elections_started n;
     elections_won := elections_won n; append_entries_sent := append_entries_sent n;
     votes_received := votes_received n; running := running n |}.

(** ** Node lifecycle *)

Section node.
Context (fresh : RaftLogEntry) (pad : list Z).

Definition raft_reset_election_timeout (ck : Clock) (n : RaftNode) : RaftNode :=
  set_timeout n (time ck + random_timeout ck * 1000).

Definition raft_load_state (n : RaftNode) : RaftNode :=
  match state_file n with Some (t, v) => set_term n t v | None => n end.

(** A node started on the files of its data directory. *)
Definition raft_init (fuel : nat) (ck : Clock) (id : Z) (files : option (Z * Z)) (d : Disk)
    : outcome RaftNode :=
  let n := {| current_term := 0; voted_for := -1; log := raft_log_init true; disk := d;
              state_file := files; state := RAFT_STATE_FOLLOWER; node_id := id; leader_id := -1;
              peers := []; quorum_size := 1; election_timeout := 0; last_heartbeat := time ck;
              is_leader := false; elections_started := 0; elections_won := 0;
              append_entries_sent := 0; votes_received := 0; running := false |} in
  let n := raft_load_state (raft_reset_election_timeout ck n) in
  '(l, d) ← raft_log_recover fresh pad fuel (time ck) (log n) (disk n);
  Ok (set_log n l d).

Definition raft_start (ck : Clock) (n : RaftNode) : RaftNode :=
  raft_reset_election_timeout ck (set_role (set_running n true) RAFT_STATE_FOLLOWER (is_leader n)).

Definition raft_stop (ck : Clock) (n : RaftNode) : outcome RaftNode :=
  if negb (running n) then Ok n else
  let n := raft_persist_state (set_role (set_running n false) (state n) false) in
  d ← raft_log_persist pad (time ck) (log n) (disk n);
  Ok (set_log n (log n) d).

Definition majority (peer_count : Z) : Z := Z.quot (peer_count + 1) 2 + 1.

Definition raft_add_peer (n : RaftNode) (id : Z) : outcome RaftNode :=
  if RAFT_MAX_CLUSTER_SIZE <=? len (peers n) then Err "Raft cluster at maximum size" else
  let p := {| peer_id := id; is_active := true; next_index := u64 (last_index (log n) + 1);
              match_index := 0; peer_granted := false |} in
  let ps := peers n ++ [p] in
  Ok (set_quorum (set_peers n ps) (majority (len ps))).

Fixpoint remove_peer (id : Z) (ps : list RaftPeer) : option (list RaftPeer) :=
  match ps with
  | [] => None
  | p :: ps => if peer_id p =? id then Some ps else option_map (cons p) (remove_peer id ps)
  end.

Definition raft_remove_peer (n : RaftNode) (id : Z) : RaftNode :=
  match remove_peer id (peers n) with
  | Some ps => set_quorum (set_peers n ps) (majority (len ps))
  | None => n
  end.

(** ** State transitions *)

Definition raft_become_follower (ck : Clock) (n : RaftNode) (term : Z) : RaftNode :=
  let n := set_role n RAFT_STATE_FOLLOWER false in
  let n := set_term n term (-1) in
  raft_persist_state (raft_reset_election_timeout ck n).

Definition reset_granted (p : RaftPeer) : RaftPeer :=
  {| peer_id := peer_id p; is_active := is_active p; next_index := next_index p;
     match_index := match_index p; peer_granted := false |}.

Definition raft_become_candidate (ck : Clock) (n : RaftNode) : RaftNode :=
  let n := set_role n RAFT_STATE_CANDIDATE false in
  let n := set_term n (u64 (current_term n + 1)) (node_id n) in
  let n := set_leader (set_votes n 1) (-1) in
  let n := set_peers n (map reset_granted (peers n)) in
  raft_persist_state (raft_reset_election_timeout ck n).

Definition leader_peer (last : Z) (p : RaftPeer) : RaftPeer :=
  {| peer_id := peer_id p; is_active := is_active p; next_index := u64 (last + 1);
     match_index := 0; peer_granted := peer_granted p |}.

Definition raft_initialize_leader_state (n : RaftNode) : RaftNode :=
  set_peers n (map (leader_peer (last_index (log n))) (peers n)).

Definition noop_entry (ck : Clock) (term : Z) : RaftLogEntry :=
  {| index := 0; term := term; type := RAFT_LOG_NOOP; command_size := 0; command_data := None;
     created_at := time ck |}.

(** Up to the heartbeat that announces the leader, which is [raft_replicate]. *)
Definition raft_become_leader (ck : Clock) (n : RaftNode) : outcome RaftNode :=
  let n := set_leader (set_role n RAFT_STATE_LEADER true) (node_id n) in
  let n := set_stats n (elections_started n) (elections_won n + 1) (append_entries_sent n) in
  let n := raft_initialize_leader_state n in
  '(l, d) ← raft_log_append fresh pad (time ck) (log n) [noop_entry ck (current_term n)] (disk n);
  Ok (set_log n l d).

(** ** Elections *)

(** The start of an election: the candidate and the request for its peers. *)
Definition begin_election (ck : Clock) (n : RaftNode) : outcome (RaftNode * RequestVoteRequest) :=
  let n := set_stats n (elections_started n + 1) (elections_won n) (append_entries_sent n) in
  let n := raft_become_candidate ck n in
  t ← raft_log_term_at (log n) (last_index (log n));
  Ok (n, {| rv_term := current_term n; candidate_id := node_id n;
            last_log_index := last_index (log n); last_log_term := t |}).

Definition set_granted (p : RaftPeer) : RaftPeer :=
  {| peer_id := peer_id p; is_active := is_active p; next_index := next_index p;
     match_index := match_index p; peer_granted := true |}.

Definition set_inactive (p : RaftPeer) : RaftPeer :=
  {| peer_id := peer_id p; is_active := false; next_index := next_index p;
     match_index := match_index p; peer_granted := peer_granted p |}.

(** What the candidate does with the answer of its [k]th peer; the flag tells that
    it gave up. *)
Definition election_response (ck : Clock) (n : RaftNode) (k : nat) (r : RequestVoteResponse)
    : RaftNode * bool :=
  if current_term n <? rvr_term r then (raft_become_follower ck n (rvr_term r), true)
  else if vote_granted r
  then (set_votes (set_peers n (alter set_granted k (peers n))) (votes_received n + 1), false)
  else (n, false).

(** The end of an election: whether the candidate becomes leader. *)
Definition election_won (n : RaftNode) : bool := quorum_size n <=? votes_received n.

Definition finish_election (ck : Clock) (n : RaftNode) : outcome RaftNode :=
  if election_won n then raft_become_leader ck n else Ok n.

Definition raft_is_log_up_to_date (n : RaftNode) (idx t : Z) : outcome bool :=
  mine ← raft_log_term_at (log n) (last_index (log n));
  Ok (if negb (t =? mine) then mine <? t else last_index (log n) <=? idx).

Definition raft_request_vote (ck : Clock) (n : RaftNode) (req : RequestVoteRequest)
    : outcome (RaftNode * RequestVoteResponse) :=
  if rv_term req <? current_term n
  then Ok (n, {| rvr_term := current_term n; vote_granted := false; voter_id := node_id n |})
  else
    let n := if current_term n <? rv_term req then raft_become_follower ck n (rv_term req) else n in
    up_to_date ← (if (voted_for n =? -1) || (voted_for n =? candidate_id req)
                  then raft_is_log_up_to_date n (last_log_index req) (last_log_term req)
                  else Ok false);
    let answer granted := {| rvr_term := current_term n; vote_granted := granted;
                             voter_id := node_id n |} in
    if up_to_date : bool then
      let n := set_term n (current_term n) (candidate_id req) in
      Ok (raft_persist_state (raft_reset_election_timeout ck n), answer true)
    else Ok (n, answer false).

(** ** Replication *)

(** The request for a peer: up to a hundred entries from [next_index] on. *)
Definition append_request (n : RaftNode) (p : RaftPeer) (heartbeat : bool)
    : outcome AppendEntriesRequest :=
  let prev := u64 (next_index p - 1) in
  t ← raft_log_term_at (log n) prev;
  es ← (if (next_index p <=? last_index (log n)) && negb heartbeat then
          let last := Z.min (u64 (next_index p + RAFT_MAX_ENTRIES_PER_APPEND - 1)) (last_index (log n)) in
          r ← raft_log_get_range (log n) (next_index p) last;
          Ok (default [] r)
        else Ok []);
  Ok {| ae_term := current_term n; ae_leader := node_id n; prev_log_index := prev;
        prev_log_term := t; ae_entries := es; leader_commit := commit_index (log n) |}.

Definition set_progress (next matched : Z) (p : RaftPeer) : RaftPeer :=
  {| peer_id := peer_id p; is_active := is_active p; next_index := next;
     match_index := matched; peer_granted := peer_granted p |}.

Definition peer_response (count : Z) (r : AppendEntriesResponse) (p : RaftPeer) : RaftPeer :=
  if aer_success r then
    if 0 <? count then set_progress (u64 (aer_match r + 1)) (aer_match r) p else p
  else if 1 <? next_index p then set_progress (next_index p - 1) (match_index p) p else p.

(** What the leader does with the answer to a request with [count] entries; the
    flag tells that it stepped down. *)
Definition replicate_response (ck : Clock) (n : RaftNode) (k : nat) (count : Z)
    (r : AppendEntriesResponse) : RaftNode * bool :=
  let n := set_stats n (elections_started n) (elections_won n) (append_entries_sent n + 1) in
  if current_term n <? aer_term r then (raft_become_follower ck n (aer_term r), true)
  else (set_peers n (alter (peer_response count r) k (peers n)), false).

(** The loop of [raft_update_commit_index] over [i] indices ending at [idx]. *)
Fixpoint commit_loop (n : RaftNode) (i : nat) (idx : Z) : outcome (option Z) :=
  match i with
  | O => Ok None
  | S i =>
      t ← raft_log_term_at (log n) idx;
      let replicated := 1 + len (filter (λ p, idx ≤ match_index p) (peers n)) in
      if negb (t =? current_term n) then commit_loop n i (idx - 1)
      else if quorum_size n <=? replicated then Ok (Some idx)
      else commit_loop n i (idx - 1)
  end.

Definition raft_update_commit_index (n : RaftNode) : outcome RaftNode :=
  if negb (is_leader n) then Ok n else
  let l := log n in
  c ← commit_loop n (Z.to_nat (last_index l - commit_index l)) (last_index l);
  Ok (match c with Some c => set_log n (with_commit l c (last_applied l)) (disk n) | None => n end).

(** The entries of a request, one after the other, from [idx] on. *)
Fixpoint append_loop_entries (ck : Clock) (l : RaftLog) (d : Disk) (idx : Z) (es : list RaftLogEntry)
    : outcome (RaftLog * Disk) :=
  match es with
  | [] => Ok (l, d)
  | e :: es =>
      existing ← (if idx <=? last_index l
                  then t ← raft_log_term_at l idx; Ok (Some t) else Ok None);
      match existing with
      | Some t =>
          if t =? term e then append_loop_entries ck l d (u64 (idx + 1)) es
          else
            '(l, d) ← raft_log_truncate pad (time ck) l (u64 (idx - 1)) d;
            '(l, d) ← raft_log_append fresh pad (time ck) l [e] d;
            append_loop_entries ck l d (u64 (idx + 1)) es
      | None =>
          '(l, d) ← raft_log_append fresh pad (time ck) l [e] d;
          append_loop_entries ck l d (u64 (idx + 1)) es
      end
  end.

(** Whether the log holds the entry that the request builds on. *)
Definition prev_matches (l : RaftLog) (req : AppendEntriesRequest) : outcome bool :=
  if 0 <? prev_log_index req then
    t ← raft_log_term_at l (prev_log_index req);
    Ok (negb ((last_index l <? prev_log_index req) || negb (t =? prev_log_term req)))
  else Ok true.

Definition raft_append_entries (ck : Clock) (n : RaftNode) (req : AppendEntriesRequest)
    : outcome (RaftNode * AppendEntriesResponse) :=
  if ae_term req <? current_term n
  then Ok (n, {| aer_term := current_term n; aer_success := false; aer_match := 0;
                 aer_node := node_id n |})
  else
    let n := if (current_term n <? ae_term req) ||
                ((ae_term req =? current_term n) && bool_decide (state n = RAFT_STATE_CANDIDATE))
             then raft_become_follower ck n (ae_term req) else n in
    let n := set_leader (raft_reset_election_timeout ck n) (ae_leader req) in
    let answer ok m := {| aer_term := current_term n; aer_success := ok; aer_match := m;
                          aer_node := node_id n |} in
    ok ← prev_matches (log n) req;
    if negb ok then
      Ok (n, answer false (Z.min (last_index (log n)) (u64 (prev_log_index req - 1))))
    else
      '(l, d) ← append_loop_entries ck (log n) (disk n) (u64 (prev_log_index req + 1)) (ae_entries req);
      let l := if commit_index l <? leader_commit req
               then with_commit l (Z.min (leader_commit req) (last_index l)) (last_applied l) else l in
      Ok (set_log n l d, answer true (last_index l)).

(** The entries handed to the callback, in order. *)
Fixpoint apply_loop (i : nat) (l : RaftLog) : outcome (RaftLog * list RaftLogEntry) :=
  match i with
  | O => Ok (l, [])
  | S i =>
      let l := with_commit l (commit_index l) (last_applied l + 1) in
      e ← raft_log_get l (last_applied l);
      '(l, es) ← apply_loop i l;
      Ok (l, match e with
             | Some e => if type e =? RAFT_LOG_NOOP then es else e :: es
             | None => es
             end)
  end.

Definition raft_apply_committed_entries (n : RaftNode) : outcome (RaftNode * list RaftLogEntry) :=
  let l := log n in
  '(l, es) ← apply_loop (Z.to_nat (commit_index l - last_applied l)) l;
  Ok (set_log n l (disk n), es).

(** ** Clients and reads *)

Definition command_entry (ck : Clock) (term : Z) (command : list Z) : RaftLogEntry :=
  {| index := 0; term := term; type := RAFT_LOG_COMMAND; command_size := len command;
     command_data := Some command; created_at := time ck |}.

(** Up to the replication it triggers; the index is that of the last entry. *)
Definition raft_submit_command (ck : Clock) (n : RaftNode) (command : list Z)
    : outcome (RaftNode * Z) :=
  if negb (is_leader n) then Ok (n, 0) else
  '(l, d) ← raft_log_append fresh pad (time ck) (log n) [command_entry ck (current_term n) command]
              (disk n);
  Ok (set_log n l d, last_index l).

Definition raft_is_committed (n : RaftNode) (idx : Z) : bool := idx <=? commit_index (log n).

Definition raft_can_serve_read (n : RaftNode) (idx : Z) : bool := idx <=? last_applied (log n).

Definition raft_follower_read (ck : Clock) (n : RaftNode) (max_staleness_ms : Z) : bool :=
  is_leader n || negb (max_staleness_ms * 1000 <? time ck - last_heartbeat n).

Definition raft_lease_read (ck : Clock) (n : RaftNode) : Z :=
  if negb (is_leader n) then 0
  else if RAFT_ELECTION_TIMEOUT_MIN_MS * 500 <? election_timeout n - time ck
  then commit_index (log n) else 0.

Definition raft_should_snapshot (n : RaftNode) : bool :=
  let l := log n in
  negb (last_applied l <? first_index l) &&
  (RAFT_SNAPSHOT_THRESHOLD <=? last_applied l - first_index l + 1).

(** [get_state] gives the bytes of the state machine. *)
Definition raft_create_snapshot (ck : Clock) (n : RaftNode) (snapshot : option (list Z)) (size : Z)
    : outcome (RaftNode * bool) :=
  let l := log n in
  let idx := last_applied l in
  if idx <? first_index l then Ok (n, false) else
  match snapshot with
  | None => if 0 <? size then Ok (n, false) else
      '(l, d) ← raft_log_create_snapshot (time ck) l idx None size (disk n); Ok (set_log n l d, true)
  | Some _ =>
      '(l, d) ← raft_log_create_snapshot (time ck) l idx snapshot size (disk n); Ok (set_log n l d, true)
  end.

(** ** Entry points for remote procedure calls *)

(** The SQL functions find the node of the Raft worker, or none in any other
    process. *)
Definition orochi_raft_request_vote_sql (ck : Clock) (n : option RaftNode) (req : RequestVoteRequest)
    : outcome (RaftNode * RequestVoteResponse) :=
  match n with
  | None => Err "Raft node is not available"
  | Some n => raft_request_vote ck n req
  end.

(** The entries of the request are not decoded. *)
Definition orochi_raft_append_entries_sql (ck : Clock) (n : option RaftNode)
    (req : AppendEntriesRequest) : outcome (RaftNode * AppendEntriesResponse) :=
  match n with
  | None => Err "Raft node is not available"
  | Some n =>
      raft_append_entries ck n
        {| ae_term := ae_term req; ae_leader := ae_leader req; prev_log_index := prev_log_index req;
           prev_log_term := prev_log_term req; ae_entries := []; leader_commit := leader_commit req |}
  end.
End node.

(** ** Receiving snapshots *)

(** The static variables of [raft_install_snapshot]: the bytes received so far and
    the size of the buffer. *)
Record SnapshotBuffer := { received : list Z; buffer_size : Z }.

Definition empty_buffer : SnapshotBuffer := {| received := []; buffer_size := 0 |}.

Definition receive_chunk (b : SnapshotBuffer) (data : list Z) (size : Z) : outcome SnapshotBuffer :=
  let new_size := len (received b) + size in
  if INT32_MAX <? new_size then Undef else
  let alloc := i32 ((Z.quot new_size 65536 + 1) * 65536) in
  if (buffer_size b <? new_size) && ((MaxAllocSize <? alloc) || (alloc <? 0))
  then Err "invalid memory alloc request size" else
  if len data <? size then Undef else
  Ok {| received := received b ++ take (Z.to_nat size) data;
        buffer_size := if buffer_size b <? new_size then alloc else buffer_size b |}.

Definition snapshot_file (ck : Clock) (req : InstallSnapshotRequest) (b : SnapshotBuffer) : list Z :=
  le_enc 8 (last_included_index req) ++ le_enc 8 (last_included_term req) ++
  le_enc 4 (len (received b)) ++ le_enc 8 (time ck) ++ received b.

(** The final chunk: the file, the callback and the log. *)
Definition apply_snapshot (ck : Clock) (n : RaftNode) (req : InstallSnapshotRequest)
    (b : SnapshotBuffer) (callback : option (list Z → bool)) : outcome RaftNode :=
  let d := disk n in
  let d := if persistence_enabled (log n)
           then {| wal := wal d; snapshots := <[last_included_index req := snapshot_file ck req b]>
                                               (snapshots d) |}
           else d in
  let applied := match callback with Some f => f (received b) | None => true end in
  if negb applied then Ok (set_log n (log n) d) else
  l ← raft_log_compact (log n) (last_included_index req);
  let idx := last_included_index req in
  let l := with_commit l (if commit_index l <? idx then idx else commit_index l)
             (if last_applied l <? idx then idx else last_applied l) in
  Ok (set_log n l d).

Definition raft_install_snapshot (ck : Clock) (n : RaftNode) (b : SnapshotBuffer)
    (req : InstallSnapshotRequest) (callback : option (list Z → bool))
    : outcome (RaftNode * SnapshotBuffer * InstallSnapshotResponse) :=
  if is_term req <? current_term n
  then Ok (n, b, {| isr_term := current_term n; isr_node := node_id n; bytes_received := 0;
                    isr_success := false |})
  else
    let n := if current_term n <? is_term req then raft_become_follower ck n (is_term req) else n in
    let n := set_leader (raft_reset_election_timeout ck n) (is_leader_id req) in
    let answer bytes ok := {| isr_term := current_term n; isr_node := node_id n;
                              bytes_received := bytes; isr_success := ok |} in
    let b := if is_offset req =? 0 then empty_buffer else b in
    if negb (is_offset req =? len (received b)) then Ok (n, empty_buffer, answer 0 false) else
    b ← match is_data req with
        | Some data => if 0 <? is_data_size req then receive_chunk b data (is_data_size req) else Ok b
        | None => Ok b
        end;
    let response := answer (len (received b)) true in
    if is_done req then n ← apply_snapshot ck n req b callback; Ok (n, empty_buffer, response)
    else Ok (n, b, response).

(** ** The binary form of the requests *)

Definition raft_serialize_request_vote (req : RequestVoteRequest) : list Z :=
  le_enc 8 (rv_term req) ++ le_enc 4 (candidate_id req) ++ le_enc 8 (last_log_index req) ++
  le_enc 8 (last_log_term req).

Definition raft_deserialize_request_vote (data : list Z) : option RequestVoteRequest :=
  if len data <? 28 then None
  else Some {| rv_term := le_dec (take 8 data); candidate_id := i32 (le_dec (take 4 (drop 8 data)));
               last_log_index := le_dec (take 8 (drop 12 data));
               last_log_term := le_dec (take 8 (drop 20 data)) |}.

(** The creation time is not part of the binary form. *)
Definition serialize_rpc_entry (e : RaftLogEntry) : list Z :=
  le_enc 8 (index e) ++ le_enc 8 (term e) ++ le_enc 4 (type e) ++ le_enc 4 (command_size e) ++
  match command_data e with
  | Some d => if 0 <? command_size e then take (Z.to_nat (command_size e)) d else []
  | None => []
  end.

Definition raft_serialize_append_entries (req : AppendEntriesRequest) : list Z :=
  le_enc 8 (ae_term req) ++ le_enc 4 (ae_leader req) ++ le_enc 8 (prev_log_index req) ++
  le_enc 8 (prev_log_term req) ++ le_enc 4 (len (ae_entries req)) ++ le_enc 8 (leader_commit req) ++
  mjoin (map serialize_rpc_entry (ae_entries req)).

(** [palloc] does not clear the entries: [created_at] is what the memory holds. *)
Definition deserialize_rpc_entry (garbage : Z) (data : list Z) : outcome (RaftLogEntry * list Z) :=
  if len data <? 24 then Undef else
  let n := i32 (le_dec (take 4 (drop 20 data))) in
  let rest := drop 24 data in
  if len rest <? n then Undef else
  Ok ({| index := le_dec (take 8 data); term := le_dec (take 8 (drop 8 data));
         type := i32 (le_dec (take 4 (drop 16 data))); command_size := n;
         command_data := if 0 <? n then Some (take (Z.to_nat n) rest) else None;
         created_at := garbage |}, drop (Z.to_nat n) rest).

Fixpoint deserialize_rpc_entries (garbage : Z) (i : nat) (data : list Z)
    : outcome (list RaftLogEntry) :=
  match i with
  | O => Ok []
  | S i =>
      '(e, rest) ← deserialize_rpc_entry garbage data;
      es ← deserialize_rpc_entries garbage i rest;
      Ok (e :: es)
  end.

(** The size of the data is not looked at. *)
Definition raft_deserialize_append_entries (garbage : Z) (data : list Z)
    : outcome AppendEntriesRequest :=
  if len data <? 40 then Undef else
  es ← deserialize_rpc_entries garbage (Z.to_nat (i32 (le_dec (take 4 (drop 28 data))))) (drop 40 data);
  Ok {| ae_term := le_dec (take 8 data); ae_leader := i32 (le_dec (take 4 (drop 8 data)));
        prev_log_index := le_dec (take 8 (drop 12 data));
        prev_log_term := le_dec (take 8 (drop 20 data)); ae_entries := es;
        leader_commit := le_dec (take 8 (drop 32 data)) |}.

(** ** The log of a follower *)

(** How many entries of a request the log holds already, by their terms. *)
Fixpoint agree (l es : list RaftLogEntry) : nat :=
  match l, es with
  | x :: l, e :: es => if term x =? term e then S (agree l es) else 0
  | _, _ => 0
  end.

(** The entries after a request that builds on the first [p] of them: what is held
    already stays, and from the first conflict on the request decides. *)
Definition merge (now base : Z) (l : list RaftLogEntry) (p : nat) (es : list RaftLogEntry)
    : list RaftLogEntry :=
  let j := agree (drop p l) es in
  if decide (j = length es) then l
  else take (p + j) l ++ stamp_all now (base + Z.of_nat (p + j) + 1) (drop j es).

(** The index that bounds the commit and apply marks after a truncation. *)
Definition merge_mark (base : Z) (l : list RaftLogEntry) (p : nat) (es : list RaftLogEntry) (c : Z) : Z :=
  let j := agree (drop p l) es in
  if decide (j = length es) then c else Z.min c (base + Z.of_nat (p + j)).

Section follower.
Context (fresh : RaftLogEntry) (pad : list Z).

Lemma agree_le l es : (agree l es <= length l)%nat ∧ (agree l es <= length es)%nat.
Proof.
  revert es. induction l as [|x l IH]; intros [|e es]; cbn; try lia.
  destruct (_ =? _); [|lia]. specialize (IH es). lia.
Qed.

Lemma append_one ck e l d :
  wf l → src_ok e → is_i64 (time ck) → count l + 1 ≤ RAFT_MAX_LOG_ENTRIES → last_index l + 1 < 2 ^ 63 →
  ∃ l' d', raft_log_append fresh pad (time ck) l [e] d = Ok (l', d') ∧ wf l' ∧
    contents l' = contents l ++ [stamp (time ck) (last_index l + 1) e] ∧
    first_index l' = first_index l ∧ last_index l' = last_index l + 1 ∧
    commit_index l' = commit_index l ∧ last_applied l' = last_applied l.
Proof.
  intros Hwf He Hnow Hcount Hlast.
  destruct (append_ok fresh pad (time ck) l [e] d Hwf) as (l1 & -> & Hwf1 & Habs & _ & Hf1).
  { split; [done|]. split; [by apply Forall_cons_2; [|apply Forall_nil_2]|]. cbn [length]. lia. }
  unfold abs in Habs. cbn [spec_op base items committed applied] in Habs.
  injection Habs as _ Hc1 Hk1 Ha1. unfold spec_last in Hc1. cbn [base items stamp_all] in Hc1.
  pose proof (contents_length l Hwf) as L. pose proof (contents_length l1 Hwf1) as L1.
  rewrite Hc1, length_app in L1. cbn [length] in L1. unfold count in *.
  exists l1, (if decide ([e] = []) then d else persist_disk pad (time ck) l1 d).
  split; [done|]. split; [done|]. split; [|split; [done|split; [lia|by split]]].
  rewrite Hc1. do 3 f_equal. lia.
Qed.

(** Entries behind the end of the log are appended one by one. *)
Lemma append_rest ck es l d :
  wf l → Forall src_ok es → is_i64 (time ck) → count l + len es ≤ RAFT_MAX_LOG_ENTRIES →
  last_index l + len es < 2 ^ 63 →
  ∃ l' d', append_loop_entries fresh pad ck l d (last_index l + 1) es = Ok (l', d') ∧ wf l' ∧
    contents l' = contents l ++ stamp_all (time ck) (last_index l + 1) es ∧
    first_index l' = first_index l ∧ commit_index l' = commit_index l ∧
    last_applied l' = last_applied l.
Proof.
  revert l d. induction es as [|e es IH]; intros l d Hwf Hes Hnow Hcount Hlast; cbn [append_loop_entries].
  - exists l, d. cbn [stamp_all]. by rewrite app_nil_r.
  - apply Forall_cons in Hes as [He Hes]. cbn [length] in *.
    rewrite (proj2 (Z.leb_gt _ _)) by lia. cbn [mbind outcome_bind].
    destruct (append_one ck e l d) as (l1 & d1 & -> & Hwf1 & Hc1 & Hf1 & Hlast1 & Hk1 & Ha1); [done|done|done|lia|lia|].
    cbn [mbind outcome_bind]. pose proof (wf_first l Hwf). pose proof (wf_last l Hwf).
    rewrite uwrap_id by (unfold in_u; lia). rewrite <- Hlast1. unfold count in *.
    destruct (IH l1 d1) as (l' & d' & E & Hwf' & Hc' & Hf' & Hk' & Ha'); [done|done|done|lia|lia|].
    exists l', d'. split; [exact E|]. split; [done|]. split; [|split; [congruence|split; congruence]].
    rewrite Hc', Hc1, <- app_assoc. cbn [app stamp_all]. by rewrite Hlast1.
Qed.

(** Entries before the first one that is held: none of them is found, the truncation is refused,
    and they are appended behind the last one. *)
Lemma append_before ck es l d idx :
  wf l → Forall src_ok es → Forall (λ e, term e ≠ 0) es → is_i64 (time ck) →
  count l + len es ≤ RAFT_MAX_LOG_ENTRIES → last_index l + len es < 2 ^ 63 →
  1 ≤ idx → idx + len es ≤ first_index l →
  ∃ l' d', append_loop_entries fresh pad ck l d idx es = Ok (l', d') ∧ wf l' ∧
    contents l' = contents l ++ stamp_all (time ck) (last_index l + 1) es ∧
    first_index l' = first_index l ∧ commit_index l' = commit_index l.
Proof.
  revert l d idx. induction es as [|e es IH]; intros l d idx Hwf Hes Hts Hnow Hcount Hlast Hidx Hfirst;
    cbn [append_loop_entries].
  - exists l, d. cbn [stamp_all]. by rewrite app_nil_r.
  - apply Forall_cons in Hes as [He Hes]. apply Forall_cons in Hts as [Ht Hts]. cbn [length] in *.
    pose proof (wf_first l Hwf). pose proof (wf_last l Hwf). unfold count in *.
    destruct (append_one ck e l d) as (l1 & d1 & E1 & Hwf1 & Hc1 & Hf1 & Hlast1 & Hk1 & _); [done|done|done|unfold count; lia|lia|].
    assert (Hnone : spec_get (abs l) idx = None).
    { unfold spec_get. change (base (abs l)) with (first_index l - 1). by rewrite decide_False by lia. }
    assert (Htr : raft_log_truncate pad (time ck) l (u64 (idx - 1)) d = Ok (l, d)).
    { rewrite uwrap_id by (unfold in_u; lia). unfold raft_log_truncate. rewrite uwrap_id by (unfold in_u; lia).
      by repeat case_match; try lia. }
    destruct (IH l1 d1 (idx + 1)) as (l' & d' & E & Hwf' & Hc' & Hf' & Hk'); [done|done|done|done|lia..|].
    exists l', d'. split; [|split; [done|split; [|split; congruence]]].
    2: { rewrite Hc', Hc1, <- app_assoc. cbn [app stamp_all]. by rewrite Hlast1. }
    rewrite term_at_spec by (done || unfold in_u; lia). rewrite Hnone, (proj2 (Z.eqb_neq idx 0)) by lia.
    rewrite (uwrap_id 64 (idx + 1)) by (unfold in_u; lia).
    destruct (idx <=? last_index l); cbn [mbind outcome_bind].
    + rewrite (proj2 (Z.eqb_neq 0 _)), Htr by done. cbn [mbind outcome_bind]. by rewrite E1.
    + by rewrite E1.
Qed.

Lemma merge_ok ck es l d p :
  wf l → Forall src_ok es → is_i64 (time ck) → (p <= length (contents l))%nat →
  Z.of_nat p + len es ≤ RAFT_MAX_LOG_ENTRIES → first_index l + Z.of_nat p + len es < 2 ^ 63 →
  ∃ l' d', append_loop_entries fresh pad ck l d (first_index l + Z.of_nat p) es = Ok (l', d') ∧
    wf l' ∧ contents l' = merge (time ck) (first_index l - 1) (contents l) p es ∧
    first_index l' = first_index l ∧
    commit_index l' = merge_mark (first_index l - 1) (contents l) p es (commit_index l) ∧
    last_applied l' = merge_mark (first_index l - 1) (contents l) p es (last_applied l).
Proof.
  intros Hwf. revert p. induction es as [|e es IH]; intros p Hes Hnow Hp Hmax Hb.
  { exists l, d. cbn [append_loop_entries]. unfold merge, merge_mark.
    rewrite !decide_True by (destruct (drop p (contents l)); done). done. }
  apply Forall_cons in Hes as [He Hes]. cbn [length] in *.
  pose proof (contents_length l Hwf) as L. pose proof (wf_first l Hwf) as Hfirst.
  pose proof (wf_last l Hwf) as Hlast. unfold count in L.
  destruct (drop p (contents l)) as [|x rest] eqn:Edrop.
  { (* behind the end *)
    assert (Hpl : Z.of_nat p = len (contents l)).
    { apply (f_equal length) in Edrop. rewrite length_drop in Edrop. cbn in Edrop. lia. }
    replace (first_index l + Z.of_nat p) with (last_index l + 1) by lia.
    destruct (append_rest ck (e :: es) l d) as (l' & d' & E & Hwf' & Hc' & Hf' & Hk' & Ha');
      [done|by apply Forall_cons_2|done|unfold count; cbn [length]; lia|cbn [length]; lia|].
    exists l', d'. split; [done|]. split; [done|]. unfold merge, merge_mark. rewrite Edrop. cbn [agree].
    rewrite !decide_False by done. rewrite Nat.add_0_r, drop_0, take_ge by lia.
    split; [rewrite Hc'; do 2 f_equal; lia|]. split; [done|].
    pose proof (wf_commit l Hwf). pose proof (wf_applied l Hwf). rewrite Hk', Ha'. lia. }
  assert (Hx : contents l !! p = Some x).
  { rewrite <- (Nat.add_0_r p), <- lookup_drop, Edrop. done. }
  pose proof (lookup_lt_Some _ _ _ Hx) as Hlt. cbn [append_loop_entries].
  rewrite (proj2 (Z.leb_le _ _)) by lia.
  rewrite term_at_spec by (done || unfold in_u; lia). rewrite (proj2 (Z.eqb_neq _ 0)) by lia.
  assert (Hget : spec_get (abs l) (first_index l + Z.of_nat p) = Some x).
  { unfold spec_get. change (base (abs l)) with (first_index l - 1).
    change (items (abs l)) with (contents l). rewrite decide_True by lia. rewrite <- Hx. f_equal. lia. }
  rewrite Hget. cbn [mbind outcome_bind].
  rewrite (uwrap_id 64 (first_index l + Z.of_nat p + 1)) by (unfold in_u; lia).
  assert (Hrest : rest = drop (S p) (contents l)).
  { rewrite (drop_S _ _ _ Hx) in Edrop. by injection Edrop as <-. }
  unfold merge, merge_mark. rewrite Edrop. cbn [agree length].
  destruct (term x =? term e).
  - (* held already *)
    replace (first_index l + Z.of_nat p + 1) with (first_index l + Z.of_nat (S p)) by lia.
    destruct (IH (S p)) as (l' & d' & E & Hwf' & Hc' & Hf' & Hk' & Ha'); [done|done|lia|lia|lia|].
    exists l', d'. split; [done|]. split; [done|]. rewrite Hc', Hk', Ha'. unfold merge, merge_mark.
    rewrite <- Hrest. set (j := agree rest es). replace (S p + j)%nat with (p + S j)%nat by lia.
    destruct (decide (j = length es)) as [Hj|Hj].
    + rewrite !decide_True by lia. done.
    + rewrite !decide_False by lia. done.
  - (* a conflict *)
    rewrite !decide_False by done. rewrite Nat.add_0_r, drop_0.
    rewrite uwrap_id by (unfold in_u; lia).
    destruct (truncate_ok pad (time ck) l (first_index l + Z.of_nat p - 1) d Hwf)
      as (l1 & -> & Hwf1 & Habs1 & _ & Hf1); [split; [done|unfold in_u; lia]|].
    cbn [mbind outcome_bind].
    assert (Hin : base (abs l) ≤ first_index l + Z.of_nat p - 1 < spec_last (abs l)).
    { unfold spec_last. change (base (abs l)) with (first_index l - 1).
      change (items (abs l)) with (contents l). lia. }
    rewrite decide_True by done. unfold spec_op in Habs1. rewrite decide_True in Habs1 by done.
    injection Habs1 as _ Hc1 Hk1 Ha1.
    replace (Z.to_nat (first_index l + Z.of_nat p - 1 - (first_index l - 1))) with p in Hc1 by lia.
    pose proof (contents_length l1 Hwf1) as L1. rewrite Hc1, length_take in L1. unfold count in L1.
    assert (Hlast1 : last_index l1 = first_index l + Z.of_nat p - 1) by lia.
    destruct (append_rest ck (e :: es) l1 (persist_disk pad (time ck) l1 d))
      as (l' & d' & E & Hwf' & Hc' & Hf' & Hk' & Ha');
      [done|by apply Forall_cons_2|done|unfold count; cbn [length]; lia|cbn [length]; lia|].
    cbn [append_loop_entries] in E. rewrite (proj2 (Z.leb_gt _ _)) in E by lia.
    cbn [mbind outcome_bind] in E. rewrite uwrap_id in E by (unfold in_u; lia).
    replace (last_index l1 + 1 + 1) with (first_index l + Z.of_nat p + 1) in E by lia.
    exists l', d'. split; [exact E|]. split; [done|].
    rewrite Hc', Hk', Ha', Hc1, Hk1, Ha1, Hlast1, Hf', Hf1.
    split; [do 2 f_equal; lia|]. split; [done|]. split; f_equal; lia.
Qed.
End follower.

Lemma agree_lookup l es k :
  (k < agree l es)%nat →
  ∃ x e, l !! k = Some x ∧ es !! k = Some e ∧ term x = term e.
Proof.
  revert es k. induction l as [|x l IH]; intros [|e es] k Hk; cbn in Hk; try lia.
  destruct (Z.eqb_spec (term x) (term e)); [|lia]. destruct k as [|k]; [by exists x, e|].
  apply (IH es k). lia.
Qed.

Lemma stamp_all_lookup_Some now next es k e :
  es !! k = Some e → stamp_all now next es !! k = Some (stamp now (next + Z.of_nat k) e).
Proof.
  revert next k. induction es as [|e' es IH]; intros next [|k] He; try done.
  - injection He as ->. cbn. by rewrite Z.add_0_r.
  - change (stamp_all now next (e' :: es) !! S k) with (stamp_all now (next + 1) es !! k).
    rewrite (IH (next + 1) k He). do 2 f_equal. lia.
Qed.

Lemma merge_contains now base l p es k e :
  (p <= length l)%nat → es !! k = Some e →
  ∃ x, merge now base l p es !! (p + k)%nat = Some x ∧ term x = term e.
Proof.
  intros Hp He. unfold merge. pose proof (agree_le (drop p l) es) as [Hj Hj'].
  rewrite length_drop in Hj. set (j := agree (drop p l) es) in *.
  pose proof (lookup_lt_Some _ _ _ He) as Hk.
  destruct (decide (k < j)%nat) as [Hkj|Hkj].
  - destruct (agree_lookup (drop p l) es k Hkj) as (x & e' & Hx & He' & Ht).
    rewrite lookup_drop in Hx. rewrite He in He'. injection He' as <-. exists x. split; [|done].
    case_decide; [done|]. rewrite lookup_app_l by (rewrite length_take; lia).
    by rewrite lookup_take_lt by lia.
  - rewrite decide_False by lia. exists (stamp now (base + Z.of_nat (p + j) + 1 + Z.of_nat (k - j)) e).
    split; [|done]. rewrite lookup_app_r by (rewrite length_take; lia). rewrite length_take.
    replace (p + k - (p + j) `min` length l)%nat with (k - j)%nat by lia.
    apply stamp_all_lookup_Some. rewrite lookup_drop. rewrite <- He. f_equal. lia.
Qed.

Lemma merge_prefix now base l p es :
  (p <= length l)%nat → take p (merge now base l p es) = take p l.
Proof.
  intros Hp. unfold merge. case_decide; [done|].
  pose proof (agree_le (drop p l) es) as [Hj _]. rewrite length_drop in Hj.
  rewrite take_app_le by (rewrite length_take; lia). rewrite take_take. f_equal. lia.
Qed.

(** The state of a follower when the log is looked at. *)
Definition heard_from (ck : Clock) (n : RaftNode) (t leader : Z) : RaftNode :=
  let n := if (current_term n <? t) ||
              ((t =? current_term n) && bool_decide (state n = RAFT_STATE_CANDIDATE))
           then raft_become_follower ck n t else n in
  set_leader (raft_reset_election_timeout ck n) leader.

Lemma heard_from_log ck n t leader :
  log (heard_from ck n t leader) = log n ∧ disk (heard_from ck n t leader) = disk n ∧
  (current_term n ≤ t → current_term (heard_from ck n t leader) = t).
Proof.
  unfold heard_from. destruct (Z.ltb_spec (current_term n) t); cbn [orb]; [done|].
  destruct (Z.eqb_spec t (current_term n)); cbn [andb]; [|split; [done|split; [done|cbn; lia]]].
  case_bool_decide; [done|]. split; [done|]. split; [done|]. cbn. lia.
Qed.

Lemma prev_matches_spec l req :
  wf l → is_u64 (prev_log_index req) →
  prev_matches l req = Ok (bool_decide (prev_log_index req = 0 ∨
    prev_log_index req ≤ last_index l ∧
    match spec_get (abs l) (prev_log_index req) with Some x => term x | None => 0 end =
      prev_log_term req)).
Proof.
  intros Hwf Hi. unfold prev_matches. destruct (Z.ltb_spec 0 (prev_log_index req)) as [Hp|Hp].
  - rewrite term_at_spec by done. rewrite (proj2 (Z.eqb_neq _ 0)) by lia. cbn [mbind outcome_bind].
    f_equal. symmetry. destruct (Z.ltb_spec (last_index l) (prev_log_index req)); cbn [orb negb].
    + rewrite bool_decide_eq_false. lia.
    + rewrite negb_involutive. destruct (Z.eqb_spec (match spec_get (abs l) (prev_log_index req) with
        Some x => term x | None => 0 end) (prev_log_term req)).
      * rewrite bool_decide_eq_true. by right.
      * rewrite bool_decide_eq_false. intros [?|[_ ?]]; [lia|done].
  - f_equal. symmetry. rewrite bool_decide_eq_true. left. unfold in_u in Hi. lia.
Qed.

Lemma append_entries_rejects fresh pad ck n req :
  wf (log n) → is_u64 (prev_log_index req) → current_term n ≤ ae_term req →
  prev_log_index req ≠ 0 →
  ¬ (prev_log_index req ≤ last_index (log n) ∧
     match spec_get (abs (log n)) (prev_log_index req) with Some x => term x | None => 0 end =
       prev_log_term req) →
  ∃ n' r, raft_append_entries fresh pad ck n req = Ok (n', r) ∧ aer_success r = false ∧ log n' = log n.
Proof.
  intros Hwf Hi Ht H1 H2. unfold raft_append_entries. rewrite (proj2 (Z.ltb_ge _ _)) by lia.
  fold (heard_from ck n (ae_term req) (ae_leader req)). cbn zeta.
  destruct (heard_from_log ck n (ae_term req) (ae_leader req)) as (-> & -> & _).
  rewrite prev_matches_spec by done. rewrite bool_decide_false by tauto.
  cbn [mbind outcome_bind negb]. eexists _, _. split; [done|]. split; [done|].
  apply heard_from_log.
Qed.

(** C3: what an accepted request does.  When the request of a leader whose term is not
    behind builds on an entry that the follower's log matches, and does not begin before the
    first entry of that log, the follower accepts it and holds its entries: the log up to the
    request's previous entry is untouched, every entry of the request is there with its term,
    what agreed already is kept even beyond the request, and from the first conflict on the log
    is what the leader sent.  (A request that begins before the log's first entry is accepted as
    well, when it builds on index 0: [compacted_request_misplaced] says what happens then.) *)
Theorem raft_append_entries_merges (fresh : RaftLogEntry) (pad : list Z) (ck : Clock) (n : RaftNode)
    (req : AppendEntriesRequest) :
  let l := log n in
  let p := Z.to_nat (prev_log_index req - (first_index l - 1)) in
  let es := ae_entries req in
  wf l → Forall src_ok es → is_i64 (time ck) → current_term n ≤ ae_term req →
  is_u64 (prev_log_index req) → prev_matches l req = Ok true → first_index l - 1 ≤ prev_log_index req →
  Z.of_nat p + len es ≤ RAFT_MAX_LOG_ENTRIES → prev_log_index req + 1 + len es < 2 ^ 63 →
  ∃ n', raft_append_entries fresh pad ck n req =
      Ok (n', {| aer_term := ae_term req; aer_success := true; aer_match := last_index (log n');
                 aer_node := node_id n |}) ∧
    wf (log n') ∧ first_index (log n') = first_index l ∧
    contents (log n') = merge (time ck) (first_index l - 1) (contents l) p es ∧
    take p (contents (log n')) = take p (contents l) ∧
    (∀ k e, es !! k = Some e →
      ∃ x, contents (log n') !! (p + k)%nat = Some x ∧ term x = term e) ∧
    commit_index (log n') =
      Z.max (merge_mark (first_index l - 1) (contents l) p es (commit_index l))
            (Z.min (leader_commit req) (last_index (log n'))).
Proof.
  cbn zeta. intros Hwf Hes Hnow Ht Hu Hprev Hfst Hmax Hb. set (l := log n) in *.
  set (p := Z.to_nat (prev_log_index req - (first_index l - 1))) in *.
  pose proof (contents_length l Hwf) as L. unfold count in L. pose proof (wf_first l Hwf) as Hfirst.
  pose proof (wf_last l Hwf) as Hlast.
  pose proof (prev_matches_spec l req Hwf Hu) as Hspec. rewrite Hprev in Hspec. injection Hspec as Hspec.
  symmetry in Hspec. rewrite bool_decide_eq_true in Hspec.
  assert (Hp : first_index l - 1 ≤ prev_log_index req ≤ last_index l) by lia.
  unfold raft_append_entries. rewrite (proj2 (Z.ltb_ge _ _)) by lia.
  fold (heard_from ck n (ae_term req) (ae_leader req)). cbn zeta.
  pose proof (heard_from_log ck n (ae_term req) (ae_leader req)) as (Hl & Hd & Hct).
  set (n1 := heard_from _ _ _ _) in *. rewrite Hl, Hd, Hct by done. fold l.
  rewrite Hprev. cbn [mbind outcome_bind negb]. rewrite uwrap_id by (unfold in_u; lia).
  replace (prev_log_index req + 1) with (first_index l + Z.of_nat p) by lia.
  destruct (merge_ok fresh pad ck (ae_entries req) l (disk n) p)
    as (l' & d' & -> & Hwf' & Hc' & Hf' & Hk' & Ha'); [done|done|done|lia|lia|lia|].
  cbn [mbind outcome_bind]. pose proof (contents_length l' Hwf') as L'. unfold count in L'.
  set (l2 := if commit_index l' <? leader_commit req then _ else l').
  assert (Hl2 : wf l2 ∧ contents l2 = contents l' ∧ first_index l2 = first_index l' ∧
    last_index l2 = last_index l' ∧
    commit_index l2 = Z.max (commit_index l') (Z.min (leader_commit req) (last_index l'))).
  { subst l2. pose proof Hwf' as []. destruct (Z.ltb_spec (commit_index l') (leader_commit req)).
    - split; [|split; [done|split; [done|split; [done|cbn; lia]]]].
      split; cbn [first_index last_index entries capacity commit_index last_applied with_commit];
        done || lia.
    - split; [done|]. split; [done|]. split; [done|]. split; [done|]. lia. }
  destruct Hl2 as (Hwf2 & Hc2 & Hf2 & Hl2 & Hk2).
  exists (set_log n1 l2 d'). cbn [log set_log]. rewrite Hc2, Hf2, Hl2, Hk2, Hk', Hc'.
  split; [do 3 f_equal; unfold n1, heard_from; by destruct (_ || _)|].
  split; [done|]. split; [done|]. split; [done|].
  split; [apply merge_prefix; lia|]. split; [|done].
  intros k e He. apply merge_contains; [lia|done].
Qed.

(** A request that builds on index 0 is accepted by a log that has been compacted, but its
    entries, which the log no longer has, land behind the last one. *)
Theorem compacted_request_misplaced (fresh : RaftLogEntry) (pad : list Z) (ck : Clock) (n : RaftNode)
    (req : AppendEntriesRequest) :
  let l := log n in
  let es := ae_entries req in
  wf l → Forall src_ok es → Forall (λ e, term e ≠ 0) es → is_i64 (time ck) → current_term n ≤ ae_term req →
  prev_log_index req = 0 → 1 + len es ≤ first_index l → count l + len es ≤ RAFT_MAX_LOG_ENTRIES →
  last_index l + len es < 2 ^ 63 →
  ∃ n' r, raft_append_entries fresh pad ck n req = Ok (n', r) ∧ aer_success r = true ∧
    contents (log n') = contents l ++ stamp_all (time ck) (last_index l + 1) es.
Proof.
  cbn zeta. intros Hwf Hes Hts Hnow Ht H0 Hfirst Hmax Hb.
  unfold raft_append_entries. rewrite (proj2 (Z.ltb_ge _ _)) by lia.
  fold (heard_from ck n (ae_term req) (ae_leader req)). cbn zeta.
  destruct (heard_from_log ck n (ae_term req) (ae_leader req)) as (-> & -> & _).
  unfold prev_matches. rewrite H0. cbn [Z.ltb Z.compare mbind outcome_bind negb].
  change (u64 (0 + 1)) with 1.
  destruct (append_before fresh pad ck (ae_entries req) (log n) (disk n) 1)
    as (l' & d' & -> & _ & Hc & _); [done..|lia|done|].
  cbn [mbind outcome_bind]. eexists _, _. split; [done|]. split; [done|]. cbn [log set_log].
  by destruct (_ <? _).
Qed.

(** A follower takes the leader's commit index for every entry it has, not for
    those the request vouches for: after a heartbeat that builds on an entry in the
    middle of its log, it commits entries behind that one that the leader may not
    have. *)
Theorem heartbeat_commits_unverified (fresh : RaftLogEntry) (pad : list Z) (ck : Clock) (n : RaftNode)
    (req : AppendEntriesRequest) (x : RaftLogEntry) :
  let l := log n in
  wf l → is_i64 (time ck) → current_term n ≤ ae_term req → ae_entries req = [] →
  is_u64 (prev_log_index req) → prev_log_index req ≠ 0 →
  spec_get (abs l) (prev_log_index req) = Some x → term x = prev_log_term req →
  prev_log_index req < last_index l → last_index l ≤ RAFT_MAX_LOG_ENTRIES →
  prev_log_index req < leader_commit req →
  ∃ n' r, raft_append_entries fresh pad ck n req = Ok (n', r) ∧ aer_success r = true ∧
    contents (log n') = contents l ∧ prev_log_index req < commit_index (log n') ∧
    commit_index (log n') = Z.max (commit_index l) (Z.min (leader_commit req) (last_index l)).
Proof.
  cbn zeta. intros Hwf Hnow Ht Hes Hu Hne Hx Hxt Hlt Hmax Hlc.
  pose proof (wf_first _ Hwf). pose proof (wf_last _ Hwf).
  destruct (spec_get (abs (log n)) (prev_log_index req)) eqn:E; [|done].
  unfold spec_get in E. change (base (abs (log n))) with (first_index (log n) - 1) in E.
  case_decide as Hb; [|done].
  unfold raft_append_entries. rewrite (proj2 (Z.ltb_ge _ _)) by lia.
  fold (heard_from ck n (ae_term req) (ae_leader req)). cbn zeta.
  pose proof (heard_from_log ck n (ae_term req) (ae_leader req)) as (Hl & Hd & Hct).
  set (n1 := heard_from _ _ _ _) in *. rewrite Hl, Hd, Hct by done.
  rewrite prev_matches_spec by done. rewrite bool_decide_true.
  2: { right. split; [lia|]. unfold spec_get. change (base (abs (log n))) with (first_index (log n) - 1).
       rewrite decide_True by done. rewrite E. congruence. }
  cbn [mbind outcome_bind negb]. rewrite Hes. cbn [append_loop_entries mbind outcome_bind].
  set (l2 := if commit_index (log n) <? leader_commit req then _ else log n).
  exists (set_log n1 l2 (disk n)). eexists. split; [done|]. split; [done|]. cbn [log set_log].
  assert (Hc2 : contents l2 = contents (log n) ∧
    commit_index l2 = Z.max (commit_index (log n)) (Z.min (leader_commit req) (last_index (log n)))).
  { pose proof (wf_commit _ Hwf). subst l2.
    destruct (Z.ltb_spec (commit_index (log n)) (leader_commit req)); [by split; [|cbn; lia]|].
    split; [done|lia]. }
  destruct Hc2 as [-> ->]. split; [done|]. split; [lia|done].
Qed.

(** ** Committing at the leader *)

(** An entry of the leader's term that a majority holds. *)
Definition committable (n : RaftNode) (idx : Z) : Prop :=
  (∃ x, spec_get (abs (log n)) idx = Some x ∧ term x = current_term n) ∧
  quorum_size n ≤ 1 + len (filter (λ p, idx ≤ match_index p) (peers n)).

Lemma commit_loop_spec n i idx :
  wf (log n) → 1 ≤ current_term n → 0 ≤ idx - Z.of_nat i → idx < 2 ^ 63 →
  ∃ r, commit_loop n i idx = Ok r ∧
    match r with
    | Some c => idx - Z.of_nat i < c ≤ idx ∧ committable n c ∧ ∀ c', c < c' ≤ idx → ¬ committable n c'
    | None => ∀ c', idx - Z.of_nat i < c' ≤ idx → ¬ committable n c'
    end.
Proof.
  intros Hwf Hterm. revert idx. induction i as [|i IH]; intros idx H0 Hb; cbn [commit_loop].
  - exists None. split; [done|]. intros; lia.
  - rewrite term_at_spec by (done || unfold in_u; lia). rewrite (proj2 (Z.eqb_neq idx 0)) by lia.
    cbn [mbind outcome_bind].
    set (t := match spec_get (abs (log n)) idx with Some x => term x | None => 0 end).
    assert (Hnext : ¬ committable n idx →
      ∃ r, commit_loop n i (idx - 1) = Ok r ∧
        match r with
        | Some c => idx - Z.of_nat (S i) < c ≤ idx ∧ committable n c ∧
                    ∀ c', c < c' ≤ idx → ¬ committable n c'
        | None => ∀ c', idx - Z.of_nat (S i) < c' ≤ idx → ¬ committable n c'
        end).
    { intros Hno. destruct (IH (idx - 1)) as (r & E & Hr); [lia|lia|]. exists r. split; [done|].
      destruct r as [c|].
      - destruct Hr as (? & ? & Hr). split; [lia|]. split; [done|]. intros c' Hc'.
        destruct (decide (c' = idx)) as [->|]; [done|]. apply Hr. lia.
      - intros c' Hc'. destruct (decide (c' = idx)) as [->|]; [done|]. apply Hr. lia. }
    assert (Ht : t = current_term n ↔ ∃ x, spec_get (abs (log n)) idx = Some x ∧ term x = current_term n).
    { subst t. destruct (spec_get (abs (log n)) idx) as [x|].
      - split; [by exists x|]. by intros (? & [= <-] & ?).
      - split; [lia|]. by intros (? & ? & _). }
    destruct (Z.eqb_spec t (current_term n)) as [Heq|Hne]; cbn [negb].
    + destruct (Z.leb_spec (quorum_size n) (1 + len (filter (λ p, idx ≤ match_index p) (peers n)))).
      * exists (Some idx). split; [done|]. split; [lia|]. split; [split; [by apply Ht|done]|]. lia.
      * apply Hnext. intros [_ ?]. lia.
    + apply Hnext. intros [? _]. by apply Hne, Ht.
Qed.

(** C6: a leader commits exactly the greatest entry of its own term behind the
    commit index that it and its peers hold in a majority, and nothing when there is
    none. *)
Theorem raft_update_commit_index_spec (n : RaftNode) :
  wf (log n) → is_leader n = true → 1 ≤ current_term n →
  ∃ n', raft_update_commit_index n = Ok n' ∧ contents (log n') = contents (log n) ∧ wf (log n') ∧
    let c := commit_index (log n) in
    let c' := commit_index (log n') in
    (c' = c ∨ c < c' ≤ last_index (log n) ∧ committable n c') ∧
    ∀ i, c' < i ≤ last_index (log n) → ¬ committable n i.
Proof.
  intros Hwf Hl Ht. unfold raft_update_commit_index. rewrite Hl. cbn [negb].
  pose proof Hwf as [].
  destruct (commit_loop_spec n (Z.to_nat (last_index (log n) - commit_index (log n))) (last_index (log n)))
    as (r & -> & Hr); [done|done|lia|lia|]. cbn [mbind outcome_bind].
  replace (last_index (log n) - Z.of_nat (Z.to_nat (last_index (log n) - commit_index (log n))))
    with (commit_index (log n)) in Hr by lia.
  destruct r as [c|].
  - destruct Hr as (Hc & Hcom & Hmax). eexists. split; [done|]. split; [done|]. split.
    + split; cbn [log set_log first_index last_index entries capacity commit_index last_applied
        with_commit]; done || lia.
    + cbn [log set_log commit_index with_commit]. split; [by right|done].
  - exists n. split; [done|]. split; [done|]. split; [done|]. split; [by left|done].
Qed.

(** ** Snapshots *)

(** A snapshot does not help a follower that lags behind it: when the last chunk
    is accepted the log keeps its last index, which stays below the snapshot's, the
    commit mark points behind the log, and every request that builds on the snapshot
    is refused. *)
Theorem snapshot_leaves_follower_behind (fresh : RaftLogEntry) (pad : list Z) (ck ck' : Clock)
    (n n' : RaftNode) (b b' : SnapshotBuffer) (req : InstallSnapshotRequest)
    (r : InstallSnapshotResponse) (next : AppendEntriesRequest) :
  wf (log n) → is_u64 (last_included_index req) → last_index (log n) < last_included_index req →
  is_done req = true → raft_install_snapshot ck n b req None = Ok (n', b', r) → isr_success r = true →
  is_term req ≤ ae_term next → is_u64 (prev_log_index next) →
  last_included_index req ≤ prev_log_index next →
  last_index (log n') = last_index (log n) ∧ last_index (log n') < commit_index (log n') ∧
  ∃ n'' r', raft_append_entries fresh pad ck' n' next = Ok (n'', r') ∧ aer_success r' = false ∧
    log n'' = log n'.
Proof.
  intros Hwf Hu Hlag Hdone Hinst Hsucc Ht' Hu' Hprev. revert Hinst. unfold raft_install_snapshot.
  destruct (Z.ltb_spec (is_term req) (current_term n)) as [?|Ht]; [by intros [= <- <- <-]|].
  cbn zeta. set (n1 := set_leader _ _).
  assert (Hl1 : log n1 = log n) by (subst n1; by destruct (current_term n <? is_term req)).
  assert (Hc1 : current_term n1 = is_term req).
  { subst n1. destruct (Z.ltb_spec (current_term n) (is_term req)); [done|cbn; lia]. }
  set (b1 := if is_offset req =? 0 then empty_buffer else b).
  destruct (negb (is_offset req =? len (received b1))); [by intros [= <- <- <-]|].
  destruct (match is_data req with Some _ => _ | None => _ end) as [b2| | |]; try done.
  cbn [mbind outcome_bind]. rewrite Hdone.
  unfold apply_snapshot. cbn [negb]. rewrite Hl1.
  destruct (compact_ok (log n) (last_included_index req) Hwf) as (l & -> & Hwfl & Habs & _); [done|].
  cbn [mbind outcome_bind]. intros [= <- <- _].
  assert (Hlast : last_index l = last_index (log n)).
  { assert (E : spec_last (abs l) = spec_last (abs (log n))).
    { rewrite Habs. cbn [spec_op]. set (i := Z.min _ _). case_decide as Hi; [|done].
      unfold spec_last. cbn [base items]. rewrite length_drop.
      pose proof (contents_length (log n) Hwf) as L. unfold count in L.
      change (items (abs (log n))) with (contents (log n)).
      pose proof (wf_applied (log n) Hwf). pose proof (wf_commit (log n) Hwf).
      change (base (abs (log n))) with (first_index (log n) - 1) in *.
      change (applied (abs (log n))) with (last_applied (log n)) in *. lia. }
    unfold spec_last in E. change (items (abs ?x)) with (contents x) in E.
    change (base (abs ?x)) with (first_index x - 1) in E.
    rewrite !contents_length in E by done. unfold count in E. lia. }
  set (d := if persistence_enabled (log n) then _ else _).
  set (l' := with_commit l _ _).
  assert (Hl' : wf l → raft_log_term_at l' (prev_log_index next) = raft_log_term_at l (prev_log_index next))
    by done.
  pose proof (wf_first (log n) Hwf). pose proof (wf_last (log n) Hwf).
  assert (Hrej : ∃ n'' r', raft_append_entries fresh pad ck' (set_log n1 l' d) next = Ok (n'', r') ∧
    aer_success r' = false ∧ log n'' = l').
  { unfold raft_append_entries. cbn [current_term set_log]. rewrite Hc1.
    rewrite (proj2 (Z.ltb_ge _ _)) by lia. rewrite <- Hc1.
    change (current_term n1) with (current_term (set_log n1 l' d)).
    change (state n1) with (state (set_log n1 l' d)).
    fold (heard_from ck' (set_log n1 l' d) (ae_term next) (ae_leader next)). cbn zeta.
    pose proof (heard_from_log ck' (set_log n1 l' d) (ae_term next) (ae_leader next)) as (Hl & Hd & _).
    rewrite Hl. cbn [log set_log]. unfold prev_matches.
    rewrite (proj2 (Z.ltb_lt _ _)) by lia. rewrite Hl' by done. rewrite term_at_spec by done.
    cbn [mbind outcome_bind]. change (last_index l') with (last_index l). rewrite Hlast.
    rewrite (proj2 (Z.ltb_lt (last_index (log n)) _)) by lia. cbn [orb negb].
    eexists _, _. split; [done|]. split; [done|]. by rewrite Hl. }
  cbn [log set_log]. split; [done|]. split; [|exact Hrej].
  subst l'. cbn [last_index commit_index with_commit]. rewrite Hlast.
  destruct (Z.ltb_spec (commit_index l) (last_included_index req)); lia.
Qed.

(** ** The binary form *)

(** An entry without its creation time. *)
Definition with_created (garbage : Z) (e : RaftLogEntry) : RaftLogEntry :=
  {| index := index e; term := term e; type := type e; command_size := command_size e;
     command_data := command_data e; created_at := garbage |}.

Lemma deserialize_serialize_entry garbage e rest :
  entry_ok e →
  deserialize_rpc_entry garbage (serialize_rpc_entry e ++ rest) = Ok (with_created garbage e, rest).
Proof.
  intros (Hi & Ht & Hty & _ & Hsz & _ & Hc). unfold serialize_rpc_entry.
  set (d := match command_data e with Some _ => _ | None => [] end).
  assert (Hd : d = default [] (command_data e) ∧ command_size e = len d).
  { subst d. destruct (command_data e) as [d|]; [|by subst]. destruct Hc as (Hs & Hne & _).
    rewrite (proj2 (Z.ltb_lt _ _)) by (rewrite Hs; destruct d; [done|cbn; lia]).
    by rewrite take_ge by lia. }
  destruct Hd as [Hd Hlen]. unfold deserialize_rpc_entry. rewrite <- !app_assoc.
  destruct (Z.ltb_spec (len (le_enc 8 (index e) ++ le_enc 8 (term e) ++ le_enc 4 (type e) ++
    le_enc 4 (command_size e) ++ d ++ rest)) 24) as [Hl|_].
  { rewrite !length_app, !Nat2Z.inj_add, !le_enc_length in Hl by lia. lia. }
  change (drop 24 ?l) with (drop (8 + (8 + (4 + 4))) l). change (drop 20 ?l) with (drop (8 + (8 + 4)) l).
  change (drop 16 ?l) with (drop (8 + 8) l). rewrite <- !drop_drop. read_fields.
  rewrite !le_dec_enc_i32, !le_dec_enc_u64 by done. rewrite Hlen at 1.
  rewrite (proj2 (Z.ltb_ge _ _)) by (rewrite length_app; lia).
  replace (Z.to_nat (command_size e)) with (length d) by lia.
  rewrite take_app_length, drop_app_length. unfold with_created. do 3 f_equal.
  destruct (command_data e) as [c|]; cbn [from_option id default] in Hd; rewrite Hd in *.
  - destruct Hc as (_ & Hne & _). by rewrite (proj2 (Z.ltb_lt _ _)) by (rewrite Hlen; destruct c; [done|cbn; lia]).
  - by rewrite Hlen.
Qed.

Lemma deserialize_entries garbage es rest :
  Forall entry_ok es →
  deserialize_rpc_entries garbage (length es) (mjoin (map serialize_rpc_entry es) ++ rest) =
    Ok (map (with_created garbage) es).
Proof.
  induction 1 as [|e es He _ IH]; [done|]. cbn [map length deserialize_rpc_entries].
  rewrite mjoin_cons, <- app_assoc, deserialize_serialize_entry by done. cbn [mbind outcome_bind].
  by rewrite IH.
Qed.

(** The binary form of an append request is read back, up to the creation times
    of its entries, which it does not carry. *)
Theorem append_entries_binary_roundtrip (garbage : Z) (req : AppendEntriesRequest) :
  is_u64 (ae_term req) → is_i32 (ae_leader req) → is_u64 (prev_log_index req) →
  is_u64 (prev_log_term req) → is_u64 (leader_commit req) → Forall entry_ok (ae_entries req) →
  len (ae_entries req) ≤ INT32_MAX →
  raft_deserialize_append_entries garbage (raft_serialize_append_entries req) = Ok
    {| ae_term := ae_term req; ae_leader := ae_leader req; prev_log_index := prev_log_index req;
       prev_log_term := prev_log_term req; ae_entries := map (with_created garbage) (ae_entries req);
       leader_commit := leader_commit req |}.
Proof.
  unfold INT32_MAX. intros Ht Hl Hi Hpt Hc He Hn. unfold raft_deserialize_append_entries.
  set (data := raft_serialize_append_entries req).
  destruct (Z.ltb_spec (len data) 40) as [Hs|_].
  { subst data. unfold raft_serialize_append_entries in Hs.
    rewrite !length_app, !Nat2Z.inj_add, !le_enc_length in Hs by lia. lia. }
  subst data. unfold raft_serialize_append_entries.
  change (drop 40 ?l) with (drop (8 + (4 + (8 + (8 + (4 + 8))))) l).
  change (drop 32 ?l) with (drop (8 + (4 + (8 + (8 + 4)))) l).
  change (drop 28 ?l) with (drop (8 + (4 + (8 + 8))) l).
  change (drop 20 ?l) with (drop (8 + (4 + 8)) l). change (drop 12 ?l) with (drop (8 + 4) l).
  rewrite <- !drop_drop. read_fields. rewrite !le_dec_enc_i32, !le_dec_enc_u64 by (done || unfold in_i; lia).
  rewrite Nat2Z.id. pose proof (deserialize_entries garbage (ae_entries req) [] He) as E.
  rewrite app_nil_r in E. by rewrite E.
Qed.

(** ** Replication over SQL *)

Definition clock0 : Clock := {| time := 1000000; random_timeout := 200 |}.

Definition sample_node (id t : Z) (s : RaftState) (l : RaftLog) (ps : list RaftPeer) : RaftNode :=
  {| current_term := t; voted_for := 1; log := l; disk := empty_disk; state_file := Some (t, 1);
     state := s; node_id := id; leader_id := 1; peers := ps; quorum_size := 2;
     election_timeout := 0; last_heartbeat := 0; is_leader := bool_decide (s = RAFT_STATE_LEADER);
     elections_started := 1; elections_won := 1; append_entries_sent := 0; votes_received := 2;
     running := true |}.

Definition sample_peer (id next : Z) : RaftPeer :=
  {| peer_id := id; is_active := true; next_index := next; match_index := 0; peer_granted := true |}.

(** A leader of term 3 with two entries and a follower whose second entry is from
    term 2; the first entries agree and are committed. *)
Definition sql_leader : RaftNode :=
  sample_node 1 3 RAFT_STATE_LEADER
    (with_commit (add_entries (raft_log_init true) [command 1 65; command 3 67]) 1 1)
    [sample_peer 2 2; sample_peer 3 2].
Definition sql_follower : RaftNode :=
  sample_node 2 3 RAFT_STATE_FOLLOWER
    (with_commit (add_entries (raft_log_init true) [command 1 65; command 2 66]) 1 1) [].

(** A request that arrives over SQL leaves the follower's log as it is, whatever entries it
    carries; the answer is that to a heartbeat. *)
Lemma sql_append_keeps_log fresh pad ck n req n' r :
  orochi_raft_append_entries_sql fresh pad ck (Some n) req = Ok (n', r) →
  contents (log n') = contents (log n).
Proof.
  unfold orochi_raft_append_entries_sql, raft_append_entries.
  cbn [ae_term ae_leader ae_entries leader_commit].
  destruct (ae_term req <? current_term n); [by intros [= <- _]|].
  fold (heard_from ck n (ae_term req) (ae_leader req)). cbn zeta.
  pose proof (heard_from_log ck n (ae_term req) (ae_leader req)) as (Hl & Hd & _).
  set (n1 := heard_from _ _ _ _) in *. intros E. rewrite Hl in E.
  destruct (prev_matches (log n) _) as [ok| | |]; try done. cbn [mbind outcome_bind] in E.
  destruct (negb ok); [injection E as <- _; by rewrite Hl|].
  cbn [append_loop_entries mbind outcome_bind] in E. injection E as <- _.
  cbn [log set_log]. by destruct (_ <? _).
Qed.

(** ** Witnesses *)

Definition append_of (prev prev_t commit : Z) (es : list RaftLogEntry) : AppendEntriesRequest :=
  {| ae_term := 3; ae_leader := 1; prev_log_index := prev; prev_log_term := prev_t; ae_entries := es;
     leader_commit := commit |}.

Lemma follower_log_wf : wf (log sql_follower).
Proof.
  apply applied_durable; [|by decide_now].
  apply (add_entries_durable (raft_log_init true) [command 1 65; command 2 66]);
    [apply init_durable| |decide_now..].
  repeat apply Forall_cons_2; [apply command_ok; decide_now..|apply Forall_nil_2].
Qed.

Lemma leader_log_wf : wf (log sql_leader).
Proof.
  apply applied_durable; [|by decide_now].
  apply (add_entries_durable (raft_log_init true) [command 1 65; command 3 67]);
    [apply init_durable| |decide_now..].
  repeat apply Forall_cons_2; [apply command_ok; decide_now..|apply Forall_nil_2].
Qed.

Definition first_entry : RaftLogEntry := stamp 7 1 (command 1 65).

(** The follower's second entry conflicts with the leader's. *)
Lemma raft_append_entries_merges_witness :
  let l := log sql_follower in
  let es := [command 3 67] in
  ∃ n', raft_append_entries zero_entry zero_pad clock0 sql_follower (append_of 1 1 2 es) =
      Ok (n', {| aer_term := 3; aer_success := true; aer_match := last_index (log n');
                 aer_node := 2 |}) ∧
    wf (log n') ∧ first_index (log n') = first_index l ∧
    contents (log n') = merge 1000000 (first_index l - 1) (contents l) 1 es ∧
    take 1 (contents (log n')) = take 1 (contents l) ∧
    (∀ k e, es !! k = Some e →
      ∃ x, contents (log n') !! (1 + k)%nat = Some x ∧ term x = term e) ∧
    commit_index (log n') =
      Z.max (merge_mark (first_index l - 1) (contents l) 1 es (commit_index l))
            (Z.min 2 (last_index (log n'))).
Proof.
  intros l es.
  apply (raft_append_entries_merges zero_entry zero_pad clock0 sql_follower (append_of 1 1 2 es)).
  - apply follower_log_wf.
  - apply Forall_cons_2; [apply command_ok; decide_now|apply Forall_nil_2].
  - decide_now.
  - by decide_now.
  - by decide_now.
  - vm_compute. reflexivity.
  - by decide_now.
  - by decide_now.
  - by decide_now.
Defined.

Lemma heartbeat_commits_unverified_witness :
  let l := log sql_follower in
  ∃ n' r, raft_append_entries zero_entry zero_pad clock0 sql_follower (append_of 1 1 2 []) = Ok (n', r) ∧
    aer_success r = true ∧ contents (log n') = contents l ∧ 1 < commit_index (log n') ∧
    commit_index (log n') = Z.max (commit_index l) (Z.min 2 (last_index l)).
Proof.
  intros l.
  apply (heartbeat_commits_unverified zero_entry zero_pad clock0 sql_follower (append_of 1 1 2 [])
    first_entry).
  - apply follower_log_wf.
  - decide_now.
  - by decide_now.
  - done.
  - decide_now.
  - done.
  - vm_compute. done.
  - done.
  - by decide_now.
  - by decide_now.
  - by decide_now.
Defined.

(** The leader after a peer has acknowledged its second entry. *)
Definition acknowledged : RaftNode :=
  (replicate_response clock0 sql_leader 0 1
     {| aer_term := 3; aer_success := true; aer_match := 2; aer_node := 2 |}).1.

Lemma raft_update_commit_index_spec_witness :
  ∃ n', raft_update_commit_index acknowledged = Ok n' ∧
    contents (log n') = contents (log acknowledged) ∧ wf (log n') ∧
    let c := commit_index (log acknowledged) in
    let c' := commit_index (log n') in
    (c' = c ∨ c < c' ≤ last_index (log acknowledged) ∧ committable acknowledged c') ∧
    ∀ i, c' < i ≤ last_index (log acknowledged) → ¬ committable acknowledged i.
Proof.
  apply (raft_update_commit_index_spec acknowledged).
  - apply leader_log_wf.
  - reflexivity.
  - by decide_now.
Defined.

Example acknowledged_commits :
  match raft_update_commit_index acknowledged with Ok n => commit_index (log n) = 2 | _ => False end.
Proof. vm_compute. reflexivity. Qed.

Definition sample_snapshot : InstallSnapshotRequest :=
  {| is_term := 3; is_leader_id := 1; last_included_index := 9; last_included_term := 3;
     is_offset := 0; is_data := Some [1; 2; 3]; is_data_size := 3; is_done := true |}.

Definition snapshot_taken : RaftNode * SnapshotBuffer * InstallSnapshotResponse :=
  match raft_install_snapshot clock0 sql_follower empty_buffer sample_snapshot None with
  | Ok x => x
  | _ => (sql_follower, empty_buffer,
          {| isr_term := 0; isr_node := 0; bytes_received := 0; isr_success := false |})
  end.

Lemma snapshot_leaves_follower_behind_witness :
  let n' := snapshot_taken.1.1 in
  last_index (log n') = last_index (log sql_follower) ∧ last_index (log n') < commit_index (log n') ∧
  ∃ n'' r', raft_append_entries zero_entry zero_pad clock0 n' (append_of 9 3 9 [command 3 70]) =
      Ok (n'', r') ∧ aer_success r' = false ∧ log n'' = log n'.
Proof.
  intros n'.
  apply (snapshot_leaves_follower_behind zero_entry zero_pad clock0 clock0 sql_follower n' empty_buffer
    snapshot_taken.1.2 sample_snapshot snapshot_taken.2).
  - apply follower_log_wf.
  - decide_now.
  - by decide_now.
  - reflexivity.
  - vm_compute. reflexivity.
  - vm_compute. reflexivity.
  - by decide_now.
  - decide_now.
  - by decide_now.
Defined.

Lemma append_entries_binary_roundtrip_witness :
  raft_deserialize_append_entries 5 (raft_serialize_append_entries (append_of 1 1 2 [first_entry])) =
    Ok {| ae_term := 3; ae_leader := 1; prev_log_index := 1; prev_log_term := 1;
          ae_entries := map (with_created 5) [first_entry]; leader_commit := 2 |}.
Proof.
  apply (append_entries_binary_roundtrip 5 (append_of 1 1 2 [first_entry])).
  - decide_now.
  - decide_now.
  - decide_now.
  - decide_now.
  - decide_now.
  - apply Forall_cons_2; [|apply Forall_nil_2].
    apply stamp_entry_ok; [decide_now|decide_now|apply command_ok; decide_now].
  - by decide_now.
Defined.
