(* ===== verification/RaftCluster.v ===== *)
(** * A cluster of Raft nodes: at most one leader per term

    The nodes of [Raft] over a network.  A node runs one operation at a time: while it
    is in the loop over its peers of [raft_start_election] or [raft_replicate] of
    [src/consensus/raft.c] it answers nobody, and the loop is cut at each remote
    call, so that the other nodes move between the calls.  Requests may be lost,
    delayed and delivered again, answers may be lost, and a node may crash between
    operations and restart from its files.  Members do not change. *)
From stdpp Require Import gmap relations.
From S2P Require Import Prelude RaftLog Raft.

Local Open Scope Z_scope.

Section cluster.
Context (fresh : RaftLogEntry) (pad : list Z) (members : list Z).

(** ** Steps *)

Inductive Request := ReqVote (r : RequestVoteRequest) | ReqAppend (r : AppendEntriesRequest).
Inductive Answer := AnsVote (r : RequestVoteResponse) | AnsAppend (r : AppendEntriesResponse).

(** A loop over the peers and the position it has reached. *)
Inductive Frame := InElection (req : RequestVoteRequest) (k : nat) | InReplicate (k : nat).

(** [votes] and [leaders] record what happened: the votes given, as term, voter and
    candidate, and the elections won, as term and leader. *)
Record Cluster := {
  nodes : gmap Z RaftNode; frames : gmap Z Frame;
  requests : list (Z * Request); answers : list (Z * Request * Answer);
  votes : list (Z * Z * Z); leaders : list (Z * Z) }.

(** The answer of a remote call that failed. *)
Definition failed_vote (j : Z) : RequestVoteResponse :=
  {| rvr_term := 0; vote_granted := false; voter_id := j |}.
Definition failed_append (j : Z) : AppendEntriesResponse :=
  {| aer_term := 0; aer_success := false; aer_match := 0; aer_node := j |}.

(** A failed call may mark the peer inactive. *)
Definition mark (inactive : bool) (k : nat) (n : RaftNode) : RaftNode :=
  if inactive then set_peers n (alter set_inactive k (peers n)) else n.

Definition next_frame (stop : bool) (i : Z) (f : Frame) (fs : gmap Z Frame) : gmap Z Frame :=
  if stop then delete i fs else <[i := f]> fs.

(** The node that a crashed process starts as: its files, then the peers of the
    catalog. *)
Fixpoint add_peers (n : RaftNode) (ids : list Z) : outcome RaftNode :=
  match ids with
  | [] => Ok n
  | id :: ids => n ← raft_add_peer n id; add_peers n ids
  end.

Definition restart (fuel : nat) (ck : Clock) (i : Z) (files : option (Z * Z)) (d : Disk)
    : outcome RaftNode :=
  n ← raft_init fresh pad fuel ck i files d;
  n ← add_peers n (filter (λ j, j ≠ i) members);
  Ok (raft_start ck n).

(** Terms stay below the range of the SQL parameter type. *)
Inductive step (c : Cluster) : Cluster → Prop :=
| step_campaign i n ck n' req :
    nodes c !! i = Some n → frames c !! i = None → running n = true →
    state n ≠ RAFT_STATE_LEADER → election_timeout n ≤ time ck → current_term n < 2 ^ 63 - 1 →
    begin_election ck n = Ok (n', req) →
    step c {| nodes := <[i := n']> (nodes c); frames := <[i := InElection req 0]> (frames c);
              requests := requests c; answers := answers c;
              votes := (current_term n', i, i) :: votes c; leaders := leaders c |}
| step_skip i n req k p :
    nodes c !! i = Some n → frames c !! i = Some (InElection req k) →
    peers n !! k = Some p → is_active p = false →
    step c {| nodes := nodes c; frames := <[i := InElection req (S k)]> (frames c);
              requests := requests c; answers := answers c; votes := votes c; leaders := leaders c |}
| step_send_vote i n req k p :
    nodes c !! i = Some n → frames c !! i = Some (InElection req k) →
    peers n !! k = Some p → is_active p = true →
    step c {| nodes := nodes c; frames := frames c;
              requests := (peer_id p, ReqVote req) :: requests c; answers := answers c;
              votes := votes c; leaders := leaders c |}
| step_vote_answer i n req k p r ck n' stop :
    nodes c !! i = Some n → frames c !! i = Some (InElection req k) →
    peers n !! k = Some p → is_active p = true →
    (peer_id p, ReqVote req, AnsVote r) ∈ answers c → election_response ck n k r = (n', stop) →
    step c {| nodes := <[i := n']> (nodes c);
              frames := next_frame stop i (InElection req (S k)) (frames c);
              requests := requests c; answers := answers c; votes := votes c; leaders := leaders c |}
| step_vote_failure i n req k p ck b n' stop :
    nodes c !! i = Some n → frames c !! i = Some (InElection req k) →
    peers n !! k = Some p → is_active p = true →
    election_response ck (mark b k n) k (failed_vote (peer_id p)) = (n', stop) →
    step c {| nodes := <[i := n']> (nodes c);
              frames := next_frame stop i (InElection req (S k)) (frames c);
              requests := requests c; answers := answers c; votes := votes c; leaders := leaders c |}
| step_election_end i n req k ck n' :
    nodes c !! i = Some n → frames c !! i = Some (InElection req k) → peers n !! k = None →
    finish_election fresh pad ck n = Ok n' →
    step c {| nodes := <[i := n']> (nodes c);
              frames := next_frame (negb (Raft.election_won n)) i (InReplicate 0) (frames c);
              requests := requests c; answers := answers c; votes := votes c;
              leaders := if Raft.election_won n then (current_term n', i) :: leaders c else leaders c |}
| step_heartbeat i n ck :
    nodes c !! i = Some n → frames c !! i = None → running n = true → is_leader n = true →
    step c {| nodes := <[i := set_heartbeat n (time ck)]> (nodes c);
              frames := <[i := InReplicate 0]> (frames c);
              requests := requests c; answers := answers c; votes := votes c; leaders := leaders c |}
| step_submit i n ck command n' idx :
    nodes c !! i = Some n → frames c !! i = None → is_leader n = true →
    raft_submit_command fresh pad ck n command = Ok (n', idx) →
    step c {| nodes := <[i := n']> (nodes c); frames := <[i := InReplicate 0]> (frames c);
              requests := requests c; answers := answers c; votes := votes c; leaders := leaders c |}
| step_replicate_skip i n k p :
    nodes c !! i = Some n → frames c !! i = Some (InReplicate k) →
    peers n !! k = Some p → is_active p = false →
    step c {| nodes := nodes c; frames := <[i := InReplicate (S k)]> (frames c);
              requests := requests c; answers := answers c; votes := votes c; leaders := leaders c |}
| step_send_append i n k p req :
    nodes c !! i = Some n → frames c !! i = Some (InReplicate k) → is_leader n = true →
    peers n !! k = Some p → is_active p = true → append_request n p false = Ok req →
    step c {| nodes := nodes c; frames := frames c;
              requests := (peer_id p, ReqAppend req) :: requests c; answers := answers c;
              votes := votes c; leaders := leaders c |}
| step_append_answer i n k p req r ck n' stop :
    nodes c !! i = Some n → frames c !! i = Some (InReplicate k) →
    peers n !! k = Some p → is_active p = true → append_request n p false = Ok req →
    (peer_id p, ReqAppend req, AnsAppend r) ∈ answers c →
    replicate_response ck n k (len (ae_entries req)) r = (n', stop) →
    step c {| nodes := <[i := n']> (nodes c); frames := next_frame stop i (InReplicate (S k)) (frames c);
              requests := requests c; answers := answers c; votes := votes c; leaders := leaders c |}
| step_append_failure i n k p req ck b n' stop :
    nodes c !! i = Some n → frames c !! i = Some (InReplicate k) →
    peers n !! k = Some p → is_active p = true → append_request n p false = Ok req →
    replicate_response ck (mark b k n) k (len (ae_entries req)) (failed_append (peer_id p)) = (n', stop) →
    step c {| nodes := <[i := n']> (nodes c); frames := next_frame stop i (InReplicate (S k)) (frames c);
              requests := requests c; answers := answers c; votes := votes c; leaders := leaders c |}
| step_replicate_end i n k n' :
    nodes c !! i = Some n → frames c !! i = Some (InReplicate k) → peers n !! k = None →
    raft_update_commit_index n = Ok n' →
    step c {| nodes := <[i := n']> (nodes c); frames := delete i (frames c);
              requests := requests c; answers := answers c; votes := votes c; leaders := leaders c |}
| step_receive_vote j n req ck n' r :
    nodes c !! j = Some n → frames c !! j = None → (j, ReqVote req) ∈ requests c →
    raft_request_vote ck n req = Ok (n', r) →
    step c {| nodes := <[j := n']> (nodes c); frames := frames c; requests := requests c;
              answers := (j, ReqVote req, AnsVote r) :: answers c;
              votes := if vote_granted r then (current_term n', j, candidate_id req) :: votes c
                       else votes c;
              leaders := leaders c |}
| step_receive_append j n req ck n' r :
    nodes c !! j = Some n → frames c !! j = None → (j, ReqAppend req) ∈ requests c →
    raft_append_entries fresh pad ck n req = Ok (n', r) →
    step c {| nodes := <[j := n']> (nodes c); frames := frames c; requests := requests c;
              answers := (j, ReqAppend req, AnsAppend r) :: answers c;
              votes := votes c; leaders := leaders c |}
| step_receive_snapshot j n b req ck cb n' b' r :
    nodes c !! j = Some n → frames c !! j = None →
    raft_install_snapshot ck n b req cb = Ok (n', b', r) →
    step c {| nodes := <[j := n']> (nodes c); frames := frames c; requests := requests c;
              answers := answers c; votes := votes c; leaders := leaders c |}
| step_apply i n n' es :
    nodes c !! i = Some n → frames c !! i = None → raft_apply_committed_entries n = Ok (n', es) →
    step c {| nodes := <[i := n']> (nodes c); frames := frames c; requests := requests c;
              answers := answers c; votes := votes c; leaders := leaders c |}
| step_crash i n fuel ck n' :
    nodes c !! i = Some n → restart fuel ck i (state_file n) (disk n) = Ok n' →
    step c {| nodes := <[i := n']> (nodes c); frames := delete i (frames c);
              requests := requests c; answers := answers c; votes := votes c; leaders := leaders c |}.

(** Every member starts on empty files. *)
Definition initial (c : Cluster) : Prop :=
  frames c = ∅ ∧ requests c = [] ∧ answers c = [] ∧ votes c = [] ∧ leaders c = [] ∧
  ∀ i n, nodes c !! i = Some n →
    i ∈ members ∧ ∃ fuel ck, restart fuel ck i None empty_disk = Ok n.

Definition reachable (c : Cluster) : Prop := ∃ c0, initial c0 ∧ rtc step c0 c.

(** ** What elections depend on *)

Record Core := {
  c_term : Z; c_vote : Z; c_state : RaftState; c_leads : bool; c_votes : Z; c_id : Z;
  c_peers : list Z; c_quorum : Z; c_file : option (Z * Z) }.

Definition core (n : RaftNode) : Core :=
  {| c_term := current_term n; c_vote := voted_for n; c_state := state n; c_leads := is_leader n;
     c_votes := votes_received n; c_id := node_id n; c_peers := map peer_id (peers n);
     c_quorum := quorum_size n; c_file := state_file n |}.

Definition follower_core (a : Core) (t : Z) : Core :=
  {| c_term := t; c_vote := -1; c_state := RAFT_STATE_FOLLOWER; c_leads := false;
     c_votes := c_votes a; c_id := c_id a; c_peers := c_peers a; c_quorum := c_quorum a;
     c_file := Some (t, -1) |}.

Definition candidate_core (a : Core) : Core :=
  {| c_term := u64 (c_term a + 1); c_vote := c_id a; c_state := RAFT_STATE_CANDIDATE; c_leads := false;
     c_votes := 1; c_id := c_id a; c_peers := c_peers a; c_quorum := c_quorum a;
     c_file := Some (u64 (c_term a + 1), c_id a) |}.

Definition voted_core (a : Core) (v : Z) : Core :=
  {| c_term := c_term a; c_vote := v; c_state := c_state a; c_leads := c_leads a;
     c_votes := c_votes a; c_id := c_id a; c_peers := c_peers a; c_quorum := c_quorum a;
     c_file := Some (c_term a, v) |}.

Definition counted_core (a : Core) : Core :=
  {| c_term := c_term a; c_vote := c_vote a; c_state := c_state a; c_leads := c_leads a;
     c_votes := c_votes a + 1; c_id := c_id a; c_peers := c_peers a; c_quorum := c_quorum a;
     c_file := c_file a |}.

Definition leader_core (a : Core) : Core :=
  {| c_term := c_term a; c_vote := c_vote a; c_state := RAFT_STATE_LEADER; c_leads := true;
     c_votes := c_votes a; c_id := c_id a; c_peers := c_peers a; c_quorum := c_quorum a;
     c_file := c_file a |}.

Lemma peer_ids_map (f : RaftPeer → RaftPeer) ps :
  (∀ p, peer_id (f p) = peer_id p) → map peer_id (map f ps) = map peer_id ps.
Proof. intros Hf. rewrite map_map. by apply map_ext. Qed.

Lemma peer_ids_alter (f : RaftPeer → RaftPeer) k ps :
  (∀ p, peer_id (f p) = peer_id p) → map peer_id (alter f k ps) = map peer_id ps.
Proof.
  intros Hf. revert k. induction ps as [|p ps IH]; intros [|k]; [done..| |]; cbn.
  - by rewrite Hf.
  - f_equal. apply IH.
Qed.

Lemma core_mark b k n : core (mark b k n) = core n.
Proof. destruct b; [|done]. unfold core, mark. cbn. by rewrite peer_ids_alter. Qed.

Lemma begin_election_core ck n n' req :
  begin_election ck n = Ok (n', req) →
  core n' = candidate_core (core n) ∧ rv_term req = c_term (core n') ∧ candidate_id req = node_id n.
Proof.
  unfold begin_election. destruct (raft_log_term_at _ _); try done. cbn [mbind outcome_bind].
  intros [= <- <-]. split; [|done]. unfold core, candidate_core. cbn.
  by rewrite peer_ids_map.
Qed.

Lemma election_response_core ck n k r n' stop :
  election_response ck n k r = (n', stop) →
  stop = true ∧ core n' = follower_core (core n) (rvr_term r) ∧ current_term n < rvr_term r ∨
  stop = false ∧ vote_granted r = true ∧ core n' = counted_core (core n) ∨
  stop = false ∧ vote_granted r = false ∧ core n' = core n.
Proof.
  unfold election_response. destruct (Z.ltb_spec (current_term n) (rvr_term r)).
  - intros [= <- <-]. left. done.
  - destruct (vote_granted r) eqn:E; intros [= <- <-]; right; [left|by right].
    split; [done|]. split; [done|]. unfold core, counted_core. cbn. by rewrite peer_ids_alter.
Qed.

Lemma replicate_response_core ck n k m r n' stop :
  replicate_response ck n k m r = (n', stop) →
  core n' = core n ∨ ∃ t, current_term n < t ∧ core n' = follower_core (core n) t.
Proof.
  unfold replicate_response. cbn [current_term set_stats].
  destruct (Z.ltb_spec (current_term n) (aer_term r)); intros [= <- _].
  - right. by exists (aer_term r).
  - left. unfold core. cbn. rewrite peer_ids_alter; [done|]. intros p. unfold peer_response.
    by repeat case_match.
Qed.

Lemma finish_election_core ck n n' :
  finish_election fresh pad ck n = Ok n' →
  core n' = if Raft.election_won n then leader_core (core n) else core n.
Proof.
  unfold finish_election. destruct (Raft.election_won n); [|by intros [= <-]].
  unfold raft_become_leader. destruct (raft_log_append _ _ _ _ _ _) as [[l d]| | |]; try done.
  cbn [mbind outcome_bind]. intros [= <-]. unfold core, leader_core. cbn. by rewrite peer_ids_map.
Qed.

Lemma submit_core ck n cmd n' idx :
  raft_submit_command fresh pad ck n cmd = Ok (n', idx) → core n' = core n.
Proof.
  unfold raft_submit_command. destruct (negb _); [by intros [= <- _]|].
  destruct (raft_log_append _ _ _ _ _ _) as [[l d]| | |]; try done. by intros [= <- _].
Qed.

Lemma update_commit_core n n' : raft_update_commit_index n = Ok n' → core n' = core n.
Proof.
  unfold raft_update_commit_index. destruct (negb _); [by intros [= <-]|]. cbn zeta.
  destruct (commit_loop _ _ _) as [o| | |]; try done. cbn [mbind outcome_bind].
  intros [= <-]. by destruct o.
Qed.

Lemma apply_core n n' es : raft_apply_committed_entries n = Ok (n', es) → core n' = core n.
Proof.
  unfold raft_apply_committed_entries. cbn zeta.
  destruct (apply_loop _ _) as [[l es']| | |]; try done. by intros [= <- _].
Qed.

Lemma request_vote_core ck n req n' r :
  raft_request_vote ck n req = Ok (n', r) →
  vote_granted r = false ∧ core n' = core n ∨
  (∃ a, (a = core n ∧ rv_term req = current_term n ∨
         a = follower_core (core n) (rv_term req) ∧ current_term n < rv_term req) ∧
     (vote_granted r = false ∧ core n' = a ∨
      vote_granted r = true ∧ core n' = voted_core a (candidate_id req) ∧
      (c_vote a = -1 ∨ c_vote a = candidate_id req))).
Proof.
  unfold raft_request_vote. destruct (Z.ltb_spec (rv_term req) (current_term n)).
  { intros [= <- <-]. by left. }
  cbn zeta. set (n1 := if current_term n <? rv_term req then _ else n). intros E. right.
  exists (core n1). split.
  { subst n1. destruct (Z.ltb_spec (current_term n) (rv_term req)); [by right|]. left. split; [done|lia]. }
  destruct ((voted_for n1 =? -1) || (voted_for n1 =? candidate_id req)) eqn:Hv.
  - destruct (raft_is_log_up_to_date _ _ _) as [[]| | |]; try done; cbn [mbind outcome_bind] in E;
      injection E as <- <-; [right|by left].
    split; [done|]. split; [done|]. cbn.
    apply orb_true_iff in Hv as [Hv|Hv]; apply Z.eqb_eq in Hv; [by left|by right].
  - cbn [mbind outcome_bind] in E. injection E as <- <-. by left.
Qed.

Lemma append_entries_core ck n req n' r :
  raft_append_entries fresh pad ck n req = Ok (n', r) →
  core n' = core n ∨ current_term n < ae_term req ∧ core n' = follower_core (core n) (ae_term req) ∨
  ae_term req = current_term n ∧ state n = RAFT_STATE_CANDIDATE ∧
    core n' = follower_core (core n) (ae_term req).
Proof.
  unfold raft_append_entries. destruct (Z.ltb_spec (ae_term req) (current_term n)).
  { intros [= <- _]. by left. }
  fold (heard_from ck n (ae_term req) (ae_leader req)). cbn zeta.
  set (n1 := heard_from _ _ _ _). intros E.
  assert (Hn' : core n' = core n1).
  { destruct (prev_matches _ _) as [ok| | |]; try done. cbn [mbind outcome_bind] in E.
    destruct (negb ok); [by injection E as <- _|].
    destruct (append_loop_entries _ _ _ _ _ _ _) as [[l d]| | |]; try done. by injection E as <- _. }
  rewrite Hn'. subst n1. unfold heard_from.
  destruct (Z.ltb_spec (current_term n) (ae_term req)); cbn [orb]; [by right; left|].
  destruct (Z.eqb_spec (ae_term req) (current_term n)); cbn [andb]; [|by left].
  case_bool_decide; [by right; right|by left].
Qed.

Lemma install_snapshot_core ck n b req cb n' b' r :
  raft_install_snapshot ck n b req cb = Ok (n', b', r) →
  core n' = core n ∨ ∃ t, current_term n < t ∧ core n' = follower_core (core n) t.
Proof.
  unfold raft_install_snapshot. destruct (is_term req <? current_term n); [intros [= <- _ _]; by left|].
  cbn zeta. set (n1 := set_leader _ _).
  assert (Hn1 : core n1 = core n ∨ ∃ t, current_term n < t ∧ core n1 = follower_core (core n) t).
  { subst n1. destruct (Z.ltb_spec (current_term n) (is_term req)); [right; by exists (is_term req)|by left]. }
  intros E. assert (Hn' : core n' = core n1); [|by rewrite Hn'].
  destruct (negb (is_offset req =? _)); [by injection E as <- _ _|].
  destruct (match is_data req with Some _ => _ | None => _ end) as [b2| | |]; try done.
  cbn [mbind outcome_bind] in E. destruct (is_done req); [|by injection E as <- _ _].
  unfold apply_snapshot in E. destruct (negb _) in E; [by injection E as <- _ _|].
  destruct (raft_log_compact _ _); try done. by injection E as <- _ _.
Qed.

Lemma add_peers_core n ids n' :
  add_peers n ids = Ok n' → quorum_size n = majority (len (peers n)) →
  core n' = {| c_term := c_term (core n); c_vote := c_vote (core n); c_state := c_state (core n);
               c_leads := c_leads (core n); c_votes := c_votes (core n); c_id := c_id (core n);
               c_peers := c_peers (core n) ++ ids;
               c_quorum := majority (len (c_peers (core n) ++ ids)); c_file := c_file (core n) |}.
Proof.
  revert n. induction ids as [|id ids IH]; intros n; cbn [add_peers].
  - intros [= <-] Hq. unfold core. cbn. by rewrite app_nil_r, length_map, Hq.
  - unfold raft_add_peer. destruct (_ <=? _); [done|]. cbn [mbind outcome_bind]. intros E Hq.
    rewrite (IH _ E) by done. unfold core. cbn. rewrite map_app, <- app_assoc. done.
Qed.

Lemma restart_core fuel ck i files d n :
  restart fuel ck i files d = Ok n →
  core n = {| c_term := default 0 (fst <$> files); c_vote := default (-1) (snd <$> files);
              c_state := RAFT_STATE_FOLLOWER; c_leads := false; c_votes := 0; c_id := i;
              c_peers := filter (λ j, j ≠ i) members;
              c_quorum := majority (len (filter (λ j, j ≠ i) members)); c_file := files |}.
Proof.
  unfold restart. destruct (raft_init _ _ _ _ _ _ _) as [n0| | |] eqn:E0; try done.
  cbn [mbind outcome_bind]. destruct (add_peers _ _) as [n1| | |] eqn:E1; try done.
  cbn [mbind outcome_bind]. intros [= <-]. unfold raft_init in E0. cbn zeta in E0.
  destruct (raft_log_recover _ _ _ _ _ _) as [[l d']| | |]; try done. cbn [mbind outcome_bind] in E0.
  injection E0 as <-. destruct files as [[t v]|];
    apply add_peers_core in E1; try done; unfold raft_start; unfold core in *; cbn in *; congruence.
Qed.

(** ** The invariant *)

Context (Hmembers : NoDup members) (Hids : -1 ∉ members).

Definition led (L : list (Z * Z)) (t : Z) : Prop := ∃ l, (t, l) ∈ L.

(** A majority that voted for the leader and for nobody else. *)
Definition exclusive_majority (V : list (Z * Z * Z)) (t l : Z) : Prop :=
  ∃ Q, NoDup Q ∧ Q ⊆ members ∧ (length members < 2 * length Q)%nat ∧
    ∀ v, v ∈ Q → (t, v, l) ∈ V ∧ ∀ x, (t, v, x) ∈ V → x = l.

(** In a term without a leader nobody has voted twice. *)
Definition safe (V : list (Z * Z * Z)) (L : list (Z * Z)) : Prop :=
  (∀ t l, (t, l) ∈ L → exclusive_majority V t l) ∧
  ∀ t, ¬ led L t → ∀ v x y, (t, v, x) ∈ V → (t, v, y) ∈ V → x = y.

(** A candidate in its loop: its votes are those of itself and of the peers it has
    asked. *)
Definition election_inv (V : list (Z * Z * Z)) (i : Z) (a : Core) (req : RequestVoteRequest) (k : nat)
    : Prop :=
  rv_term req = c_term a ∧ candidate_id req = i ∧ c_state a = RAFT_STATE_CANDIDATE ∧ c_vote a = i ∧
  (∀ x, (c_term a, i, x) ∈ V → x = i) ∧
  ∃ S, NoDup S ∧ len S = c_votes a ∧
    ∀ v, v ∈ S → (c_term a, v, i) ∈ V ∧ (v = i ∨ v ∈ take k (c_peers a)).

Record node_inv (V : list (Z * Z * Z)) (L : list (Z * Z)) (f : option Frame) (i : Z) (a : Core) : Prop := {
  ni_id : c_id a = i;
  ni_peers : c_peers a = filter (λ j, j ≠ i) members;
  ni_quorum : c_quorum a = majority (len (c_peers a));
  ni_file : c_file a = Some (c_term a, c_vote a) ∨ c_file a = None ∧ c_term a = 0 ∧ c_vote a = -1;
  ni_term : 0 ≤ c_term a;
  ni_leads : c_leads a = true → (c_term a, i) ∈ L;
  ni_votes : ∀ t x, (t, i, x) ∈ V → t ≤ c_term a;
  ni_leaders : ∀ t, (t, i) ∈ L → t ≤ c_term a;
  ni_current : ∀ x, (c_term a, i, x) ∈ V →
    c_vote a = x ∨ (c_term a, i, i) ∈ V ∧ led L (c_term a) ∧ (c_term a, i) ∉ L;
  ni_candidate : c_state a = RAFT_STATE_CANDIDATE → (c_term a, i, i) ∈ V ∧ (c_term a, i) ∉ L;
  ni_frame : match f with Some (InElection req k) => election_inv V i a req k | _ => True end }.

Record inv (c : Cluster) : Prop := {
  inv_nodes : ∀ i n, nodes c !! i = Some n →
    i ∈ members ∧ node_inv (votes c) (leaders c) (frames c !! i) i (core n);
  inv_safe : safe (votes c) (leaders c);
  inv_voters : ∀ t v x, (t, v, x) ∈ votes c → v ∈ members ∧ x ≠ -1;
  inv_append : ∀ j req, (j, ReqAppend req) ∈ requests c → led (leaders c) (ae_term req);
  inv_vote : ∀ j req, (j, ReqVote req) ∈ requests c → candidate_id req ≠ -1;
  inv_answers : ∀ j req r, (j, ReqVote req, AnsVote r) ∈ answers c → vote_granted r = true →
    (rv_term req, j, candidate_id req) ∈ votes c }.

Lemma majorities_meet (A B : list Z) :
  NoDup A → NoDup B → A ⊆ members → B ⊆ members →
  (length members < length A + length B)%nat → ∃ v, v ∈ A ∧ v ∈ B.
Proof.
  intros HA HB HAm HBm Hlen.
  destruct (decide (Forall (λ v, v ∉ B) A)) as [Hd|Hd].
  - exfalso. assert (Hnd : NoDup (A ++ B)).
    { apply NoDup_app. split; [done|]. split; [|done]. by rewrite Forall_forall in Hd. }
    assert (Hsub : A ++ B ⊆ members) by (intros x [?|?]%elem_of_app; [by apply HAm|by apply HBm]).
    pose proof (submseteq_length _ _ (NoDup_submseteq _ _ Hnd Hsub)) as Hl.
    rewrite length_app in Hl. lia.
  - apply not_Forall_Exists in Hd; [|apply _]. apply Exists_exists in Hd as (v & Hv & Hn).
    exists v. split; [done|]. destruct (decide (v ∈ B)); [done|]. by destruct Hn.
Qed.

(** What a new vote must satisfy to keep the history safe. *)
Definition vote_allowed (V : list (Z * Z * Z)) (L : list (Z * Z)) (t v x : Z) : Prop :=
  ∀ y, (t, v, y) ∈ V → y = x ∨ (t, v, v) ∈ V ∧ led L t ∧ (t, v) ∉ L.

Lemma safe_add_vote V L t v x :
  safe V L → vote_allowed V L t v x → safe ((t, v, x) :: V) L.
Proof.
  intros [H1 H2] Hv. split.
  - intros t' l Hl. destruct (H1 t' l Hl) as (Q & Hnd & Hsub & Hlen & HQ). exists Q.
    split; [done|]. split; [done|]. split; [done|]. intros w Hw. destruct (HQ w Hw) as [Hw1 Hw2].
    split; [by right|]. intros y [Hy|Hy]%elem_of_cons; [|by apply Hw2].
    injection Hy as -> -> ->. destruct (Hv l Hw1) as [?|(Hvv & _ & Hno)]; [done|].
    apply Hw2 in Hvv. by subst l.
  - intros t' Hno w y z [Hy|Hy]%elem_of_cons [Hz|Hz]%elem_of_cons.
    + congruence.
    + injection Hy as -> -> ->. destruct (Hv z Hz) as [?|(_ & ? & _)]; [done|by destruct Hno].
    + injection Hz as -> -> ->. destruct (Hv y Hy) as [?|(_ & ? & _)]; [done|by destruct Hno].
    + by eapply (H2 t' Hno w).
Qed.

Lemma safe_add_leader V L t i S :
  safe V L → NoDup S → S ⊆ members → (length members < 2 * length S)%nat →
  (∀ v, v ∈ S → (t, v, i) ∈ V) → safe V ((t, i) :: L).
Proof.
  intros [H1 H2] Hnd Hsub Hlen HS. split.
  - intros t' l [Hl|Hl]%elem_of_cons; [|by apply H1]. injection Hl as -> ->.
    destruct (decide (Exists (λ p, p.1 = t) L)) as [He|He].
    + apply Exists_exists in He as ([t' l] & Hl & Ht). cbn in Ht. subst t'.
      destruct (H1 t l Hl) as (Q & HQnd & HQsub & HQlen & HQ).
      destruct (majorities_meet S Q) as (v & HvS & HvQ); [done..|lia|].
      destruct (HQ v HvQ) as [_ Hx]. rewrite (Hx i (HS v HvS)). by exists Q.
    + exists S. split; [done|]. split; [done|]. split; [done|]. intros v Hv. split; [by apply HS|].
      intros x Hx. eapply (H2 t); [|exact Hx|by apply HS]. intros [l Hl]. apply He, Exists_exists.
      by exists (t, l).
  - intros t' Hno v x y. apply H2. intros [l Hl]. apply Hno. exists l. by right.
Qed.

(** Nodes that do not move keep their invariant. *)
Lemma node_inv_other V L V' L' f j a :
  node_inv V L f j a → V ⊆ V' → L ⊆ L' →
  (∀ t x, (t, j, x) ∈ V' → (t, j, x) ∈ V) → (∀ t, (t, j) ∈ L' → (t, j) ∈ L) →
  node_inv V' L' f j a.
Proof.
  intros [] HV HL HV' HL'. split; try done.
  - intros Hl. by apply HL, ni_leads0.
  - intros t x Hx. by eapply ni_votes0, HV'.
  - intros t Ht. by apply ni_leaders0, HL'.
  - intros x Hx. destruct (ni_current0 x (HV' _ _ Hx)) as [?|(? & [l ?] & Hno)]; [by left|right].
    split; [by apply HV|]. split; [exists l; by apply HL|]. intros ?. by apply Hno, HL'.
  - intros Hs. destruct (ni_candidate0 Hs) as [? Hno]. split; [by apply HV|]. intros ?. by apply Hno, HL'.
  - destruct f as [[req k|k]|]; [|done..]. destruct ni_frame0 as (? & ? & ? & ? & Hx & S & ? & ? & HS).
    split; [done|]. split; [done|]. split; [done|]. split; [done|]. split; [intros x ?; by apply Hx, HV'|].
    exists S. split; [done|]. split; [done|]. intros v Hv. destruct (HS v Hv). split; [by apply HV|done].
Qed.

(** The node [i] moves: it may vote, win, send and answer. *)
Lemma inv_move c i n' fs rq an V L :
  inv c → i ∈ members → (∀ j, j ≠ i → fs !! j = frames c !! j) →
  votes c ⊆ V → leaders c ⊆ L →
  (∀ t j x, (t, j, x) ∈ V → (t, j, x) ∈ votes c ∨ j = i ∧ x ≠ -1) →
  (∀ t j, (t, j) ∈ L → (t, j) ∈ leaders c ∨ j = i) →
  safe V L → node_inv V L (fs !! i) i (core n') →
  (∀ j req, (j, ReqAppend req) ∈ rq → (j, ReqAppend req) ∈ requests c ∨ led L (ae_term req)) →
  (∀ j req, (j, ReqVote req) ∈ rq → (j, ReqVote req) ∈ requests c ∨ candidate_id req ≠ -1) →
  (∀ j req r, (j, ReqVote req, AnsVote r) ∈ an → vote_granted r = true →
     (j, ReqVote req, AnsVote r) ∈ answers c ∨ (rv_term req, j, candidate_id req) ∈ V) →
  inv {| nodes := <[i := n']> (nodes c); frames := fs; requests := rq; answers := an;
         votes := V; leaders := L |}.
Proof.
  intros [] Hi Hfs HV HL HV' HL' Hsafe Hn Hap Hvo Han. split; cbn [nodes frames requests answers votes leaders].
  - intros j n [[<- <-]|[Hne Hj]]%lookup_insert_Some; [done|].
    destruct (inv_nodes0 j n Hj) as [? Hj']. split; [done|]. rewrite Hfs by done.
    eapply node_inv_other; [exact Hj'|done|done| |].
    + intros t x Hx. destruct (HV' t j x Hx) as [?|[? _]]; [done|congruence].
    + intros t Ht. destruct (HL' t j Ht) as [?|?]; [done|congruence].
  - done.
  - intros t v x Hx. destruct (HV' t v x Hx) as [?|[-> ?]]; [by eapply inv_voters0|done].
  - intros j req Hr. destruct (Hap j req Hr) as [Hr'|?]; [|done].
    destruct (inv_append0 j req Hr') as [l ?]. exists l. by apply HL.
  - intros j req Hr. destruct (Hvo j req Hr); [by eapply inv_vote0|done].
  - intros j req r Hr Hg. destruct (Han j req r Hr Hg); [by eapply HV, inv_answers0|done].
Qed.

(** Moves without a vote or a victory. *)
Lemma inv_quiet c i n n' fs :
  inv c → nodes c !! i = Some n → (∀ j, j ≠ i → fs !! j = frames c !! j) →
  node_inv (votes c) (leaders c) (fs !! i) i (core n') →
  inv {| nodes := <[i := n']> (nodes c); frames := fs; requests := requests c; answers := answers c;
         votes := votes c; leaders := leaders c |}.
Proof.
  intros Hinv Hn Hfs Hi. pose proof (inv_nodes c Hinv i n Hn) as [Him _].
  apply inv_move; try done; try (intros; by left). by apply inv_safe.
Qed.

(** Another term: nothing is recorded for it yet. *)
Lemma node_inv_follower V L f i a t :
  node_inv V L f i a → c_term a < t → node_inv V L None i (follower_core a t).
Proof.
  intros [] Ht. split; cbn; try done.
  - by left.
  - lia.
  - intros t' x Hx. apply ni_votes0 in Hx. lia.
  - intros t' Hl. apply ni_leaders0 in Hl. lia.
  - intros x Hx. apply ni_votes0 in Hx. lia.
Qed.

Lemma node_inv_frame V L f f' i a :
  node_inv V L f i a → match f' with Some (InElection _ _) => False | _ => True end →
  node_inv V L f' i a.
Proof. intros [] Hf. split; try done. by destruct f' as [[]|]. Qed.

(** ** Every step keeps the invariant *)

Lemma filter_self i : i ∉ filter (λ j, j ≠ i) members.
Proof. intros [? _]%list_elem_of_filter. done. Qed.

Lemma members_count i : i ∈ members → length members = S (length (filter (λ j, j ≠ i) members)).
Proof.
  intros Hi. apply list_elem_of_split in Hi as (l1 & l2 & Hm).
  assert (Hnd : NoDup (l1 ++ i :: l2)) by (by rewrite <- Hm).
  apply NoDup_app in Hnd as (_ & Hd & Hnd2). apply NoDup_cons in Hnd2 as [Hi2 _].
  rewrite Hm, filter_app, filter_cons_False by tauto.
  rewrite !filter_all; [rewrite !length_app; cbn; lia|..].
  - intros x Hx ->. done.
  - intros x Hx ->. apply (Hd i Hx). by left.
Qed.

(** The node starts an election. *)
Lemma node_inv_campaign V L i a req :
  node_inv V L None i a → c_term a < 2 ^ 63 - 1 → i ∈ members →
  rv_term req = c_term (candidate_core a) → candidate_id req = i →
  let V' := (c_term a + 1, i, i) :: V in
  node_inv V' L (Some (InElection req 0)) i (candidate_core a) ∧
  vote_allowed V L (c_term a + 1) i i.
Proof.
  intros [] Hmax Hi Hreq Hcand. cbn zeta.
  assert (Hu : u64 (c_term a + 1) = c_term a + 1) by (apply uwrap_id; unfold in_u; lia).
  assert (Hnew : ∀ x, (c_term a + 1, i, x) ∈ (c_term a + 1, i, i) :: V → x = i).
  { intros x [Hx|Hx]%elem_of_cons; [congruence|]. apply ni_votes0 in Hx. lia. }
  split.
  - unfold candidate_core in *. cbn in Hreq. rewrite Hu, ni_id0 in *. split; cbn; try done.
    + by left.
    + lia.
    + intros t x [Hx|Hx]%elem_of_cons; [injection Hx; lia|]. apply ni_votes0 in Hx. lia.
    + intros t Ht. apply ni_leaders0 in Ht. lia.
    + intros x Hx. left. symmetry. by apply Hnew.
    + intros _. split; [by left|]. intros Ht. apply ni_leaders0 in Ht. lia.
    + split; [done|]. split; [done|]. split; [done|]. split; [done|]. split; [exact Hnew|].
      exists [i]. split; [apply NoDup_singleton|]. split; [done|].
      intros v ->%list_elem_of_singleton. split; [by left|by left].
  - intros y Hy. apply ni_votes0 in Hy. lia.
Qed.

(** A granted answer is counted. *)
Lemma node_inv_counted V L i a req k j :
  node_inv V L (Some (InElection req k)) i a → c_peers a !! k = Some j →
  (c_term a, j, i) ∈ V →
  node_inv V L (Some (InElection req (S k))) i (counted_core a).
Proof.
  intros [] Hk Hj. split; cbn; try done.
  destruct ni_frame0 as (? & ? & ? & ? & ? & S & Hnd & Hlen & HS).
  split; [done|]. split; [done|]. split; [done|]. split; [done|]. split; [done|].
  exists (j :: S). cbn [c_peers counted_core].
  assert (Hp : NoDup (c_peers a)) by (rewrite ni_peers0; by apply NoDup_filter).
  split; [|split; [cbn; lia|]].
  - apply NoDup_cons. split; [|done]. intros HjS. destruct (HS j HjS) as [_ [->|Hin]].
    + apply list_elem_of_lookup_2 in Hk. rewrite ni_peers0 in Hk. by apply filter_self in Hk.
    + apply list_elem_of_lookup in Hin as [m Hm]. apply lookup_take_Some in Hm as [Hm Hlt].
      pose proof (NoDup_lookup _ _ _ _ Hp Hk Hm). lia.
  - intros v [->|Hv]%elem_of_cons.
    + split; [done|]. right. apply list_elem_of_lookup. exists k.
      apply lookup_take_Some. split; [done|lia].
    + destruct (HS v Hv) as [? [?|Hin]]; [by split; [|left]|]. split; [done|]. right.
      apply list_elem_of_lookup in Hin as [m Hm]. apply lookup_take_Some in Hm as [Hm Hlt].
      apply list_elem_of_lookup. exists m. apply lookup_take_Some. split; [done|lia].
Qed.

Lemma node_inv_skip V L i a req k :
  node_inv V L (Some (InElection req k)) i a → node_inv V L (Some (InElection req (S k))) i a.
Proof.
  intros []. split; try done. destruct ni_frame0 as (? & ? & ? & ? & ? & S & ? & ? & HS).
  split; [done|]. split; [done|]. split; [done|]. split; [done|]. split; [done|].
  exists S. split; [done|]. split; [done|]. intros v Hv.
  destruct (HS v Hv) as [? [?|Hin]]; [by split; [|left]|]. split; [done|]. right.
  apply list_elem_of_lookup in Hin as [m Hm]. apply lookup_take_Some in Hm as [Hm Hlt].
  apply list_elem_of_lookup. exists m. apply lookup_take_Some. split; [done|lia].
Qed.

(** The candidate has the votes and becomes leader. *)
Lemma node_inv_win V L i a req k f :
  node_inv V L (Some (InElection req k)) i a → safe V L → i ∈ members → c_quorum a ≤ c_votes a →
  (∀ t v x, (t, v, x) ∈ V → v ∈ members) →
  match f with Some (InElection _ _) => False | _ => True end →
  safe V ((c_term a, i) :: L) ∧ node_inv V ((c_term a, i) :: L) f i (leader_core a).
Proof.
  intros [] Hsafe Hi Hq Hv Hf. destruct ni_frame0 as (? & ? & Hs & Hvote & Hown & S & Hnd & Hlen & HS).
  split.
  - apply (safe_add_leader V L (c_term a) i S); [done|done| | |].
    + intros v Hv'. eapply Hv. apply HS, Hv'.
    + rewrite ni_quorum0, ni_peers0 in Hq. unfold majority in Hq. rewrite (members_count i Hi).
      rewrite Z.quot_div_nonneg in Hq by lia. Z.div_mod_to_equations. lia.
    + intros v Hv'. apply HS, Hv'.
  - split; cbn; try done.
    + intros _. by left.
    + intros t [Ht|Ht]%elem_of_cons; [injection Ht; lia|by apply ni_leaders0].
    + intros x Hx. left. rewrite Hvote. symmetry. by apply Hown.
    + by destruct f as [[]|].
Qed.

(** A vote is granted, after the term moved to [a] where it had to. *)
Lemma node_inv_grant V L i a x :
  node_inv V L None i a → (c_vote a = -1 ∨ c_vote a = x) → x ≠ -1 →
  (∀ y, (c_term a, i, y) ∈ V → y ≠ -1) →
  node_inv ((c_term a, i, x) :: V) L None i (voted_core a x) ∧ vote_allowed V L (c_term a) i x.
Proof.
  intros [] Hv Hx Hno.
  assert (Hall : vote_allowed V L (c_term a) i x).
  { intros y Hy. destruct (ni_current0 y Hy) as [Hy'|?]; [|by right].
    left. destruct Hv as [Hv|Hv]; [|congruence]. destruct (Hno y Hy). congruence. }
  split; [|done]. split; cbn; try done.
  - by left.
  - intros t y [Hy|Hy]%elem_of_cons; [injection Hy; lia|by eapply ni_votes0].
  - intros y [Hy|Hy]%elem_of_cons; [left; congruence|].
    destruct (Hall y Hy) as [->|(? & ? & ?)]; [by left|]. right. by split; [right|].
  - intros Hs. destruct (ni_candidate0 Hs). by split; [right|].
Qed.

(** A candidate hears from the leader of its term and forgets its vote. *)
Lemma node_inv_reset V L i a :
  node_inv V L None i a → c_state a = RAFT_STATE_CANDIDATE → led L (c_term a) →
  node_inv V L None i (follower_core a (c_term a)).
Proof.
  intros [] Hs Hled. destruct (ni_candidate0 Hs) as [Hself Hno]. split; cbn; try done.
  - by left.
  - intros x Hx. by right.
Qed.

Lemma node_inv_restart V L f i a n fuel ck d :
  node_inv V L f i a → restart fuel ck i (c_file a) d = Ok n → node_inv V L None i (core n).
Proof.
  intros [] E. rewrite (restart_core _ _ _ _ _ _ E).
  assert (Hfile : default 0 (fst <$> c_file a) = c_term a ∧ default (-1) (snd <$> c_file a) = c_vote a).
  { destruct ni_file0 as [->|(-> & -> & ->)]; done. }
  destruct Hfile as [-> ->]. split; cbn; try done.
Qed.

Lemma initial_inv c : initial c → inv c.
Proof.
  intros (Hf & Hr & Ha & Hv & Hl & Hn). split; rewrite ?Hf, ?Hr, ?Ha, ?Hv, ?Hl.
  - intros i n Hi. destruct (Hn i n Hi) as (Him & fuel & ck & E). split; [done|].
    rewrite (restart_core _ _ _ _ _ _ E). rewrite lookup_empty.
    split; cbn; try done; try (intros; by apply not_elem_of_nil in H). by right.
  - split; [intros t l H; by apply not_elem_of_nil in H|].
    intros t _ v x y H. by apply not_elem_of_nil in H.
  - intros t v x H. by apply not_elem_of_nil in H.
  - intros j req H. by apply not_elem_of_nil in H.
  - intros j req H. by apply not_elem_of_nil in H.
  - intros j req r H. by apply not_elem_of_nil in H.
Qed.

Lemma next_frame_other stop i f fs j : j ≠ i → next_frame stop i f fs !! j = fs !! j.
Proof.
  intros Hj. destruct stop; cbn; [by rewrite lookup_delete_ne|by rewrite lookup_insert_ne].
Qed.

Lemma next_frame_self stop i f fs : next_frame stop i f fs !! i = if stop then None else Some f.
Proof. destruct stop; cbn; [apply lookup_delete_eq|apply lookup_insert_eq]. Qed.

(** An answer in the election loop. *)
Lemma inv_election_response c i n req k p ck n0 n' r stop :
  inv c → nodes c !! i = Some n → frames c !! i = Some (InElection req k) →
  peers n !! k = Some p → core n0 = core n →
  (vote_granted r = true → (rv_term req, peer_id p, candidate_id req) ∈ votes c) →
  election_response ck n0 k r = (n', stop) →
  inv {| nodes := <[i := n']> (nodes c); frames := next_frame stop i (InElection req (S k)) (frames c);
         requests := requests c; answers := answers c; votes := votes c; leaders := leaders c |}.
Proof.
  intros Hinv Hn Hf Hp Hcore Hr E. pose proof (inv_nodes c Hinv i n Hn) as [Him Hni].
  rewrite Hf in Hni. eapply inv_quiet; [done|exact Hn|by intros; apply next_frame_other|].
  rewrite next_frame_self. pose proof (ni_frame _ _ _ _ _ Hni) as (Hrt & Hrc & _).
  destruct (election_response_core _ _ _ _ _ _ E) as [(-> & Hc & Hlt)|[(-> & Hg & Hc)|(-> & _ & Hc)]];
    rewrite Hc, Hcore.
  - eapply node_inv_follower; [exact Hni|].
    apply (f_equal c_term) in Hcore. cbn in *. lia.
  - eapply node_inv_counted; [exact Hni| |].
    + unfold core. cbn. rewrite list_lookup_fmap, Hp. done.
    + specialize (Hr Hg). by rewrite Hrt, Hrc in Hr.
  - by apply node_inv_skip.
Qed.

(** An answer in the replication loop, or a snapshot: the node steps down or stays. *)
Lemma node_inv_step_down V L f f' i n n' :
  node_inv V L f i (core n) → match f' with Some (InElection _ _) => False | _ => True end →
  core n' = core n ∨ (∃ t, current_term n < t ∧ core n' = follower_core (core n) t) →
  node_inv V L f' i (core n').
Proof.
  intros Hni Hf [->|(t & Ht & ->)]; [by eapply node_inv_frame|].
  eapply node_inv_frame; [|exact Hf]. by eapply node_inv_follower.
Qed.

Lemma inv_receive_vote c j n req ck n' r :
  inv c → nodes c !! j = Some n → frames c !! j = None → (j, ReqVote req) ∈ requests c →
  raft_request_vote ck n req = Ok (n', r) →
  inv {| nodes := <[j := n']> (nodes c); frames := frames c; requests := requests c;
         answers := (j, ReqVote req, AnsVote r) :: answers c;
         votes := if vote_granted r then (current_term n', j, candidate_id req) :: votes c else votes c;
         leaders := leaders c |}.
Proof.
  intros Hinv Hn Hf Hreq E. pose proof (inv_nodes c Hinv j n Hn) as [Hjm Hni]. rewrite Hf in Hni.
  pose proof (inv_vote c Hinv j req Hreq) as Hcand.
  assert (Hcase : (vote_granted r = false ∧ node_inv (votes c) (leaders c) None j (core n')) ∨
    (vote_granted r = true ∧ current_term n' = rv_term req ∧
     node_inv ((current_term n', j, candidate_id req) :: votes c) (leaders c) None j (core n') ∧
     vote_allowed (votes c) (leaders c) (current_term n') j (candidate_id req))).
  { destruct (request_vote_core _ _ _ _ _ E) as [[Hg Hc]|(a & Ha & [[Hg Hc]|(Hg & Hc & Hv)])].
    - left. by rewrite Hc.
    - left. split; [done|]. rewrite Hc.
      destruct Ha as [[-> _]|[-> Hlt]]; [done|by eapply node_inv_follower].
    - right. split; [done|]. assert (Hna : node_inv (votes c) (leaders c) None j a ∧ c_term a = rv_term req).
      { destruct Ha as [[-> ?]|[-> Hlt]]; [by split|by split; [eapply node_inv_follower|]]. }
      destruct Hna as [Hna Hat].
      assert (Ht : current_term n' = c_term a).
      { apply (f_equal c_term) in Hc. exact Hc. }
      rewrite Ht, Hc. split; [done|]. apply node_inv_grant; [done|done|done|].
      intros y Hy. by eapply inv_voters. }
  destruct Hcase as [[Hg Hn']|(Hg & Ht & Hn' & Hallow)]; rewrite Hg.
  - apply inv_move; try done; try (intros; by left).
    + by apply inv_safe.
    + by rewrite Hf.
    + intros j' req' r' [H'|H']%elem_of_cons Hg'; [|by left]. injection H' as -> -> ->. congruence.
  - apply inv_move; try done; try (intros; by left).
    + intros x Hx. by right.
    + intros t v x [H'|H']%elem_of_cons; [|by left]. right. by injection H' as -> -> ->.
    + apply safe_add_vote; [by apply inv_safe|done].
    + by rewrite Hf.
    + intros j' req' r' [H'|H']%elem_of_cons Hg'; [|by left]. injection H' as -> -> ->.
      right. rewrite Ht. by left.
Qed.

Lemma step_inv c c' : inv c → step c c' → inv c'.
Proof.
  intros Hinv Hstep.
  destruct Hstep as
    [i n ck n' req Hn Hf _ _ _ Hmax E|i n req k p Hn Hf Hp _|i n req k p Hn Hf Hp _
    |i n req k p r ck n' stop Hn Hf Hp _ Ha E|i n req k p ck b n' stop Hn Hf Hp _ E
    |i n req k ck n' Hn Hf Hp E|i n ck Hn Hf _ Hl|i n ck cmd n' idx Hn Hf Hl E
    |i n k p Hn Hf Hp _|i n k p req Hn Hf Hl Hp _ E
    |i n k p req r ck n' stop Hn Hf Hp _ Er Ha E|i n k p req ck b n' stop Hn Hf Hp _ Er E
    |i n k n' Hn Hf Hp E|j n req ck n' r Hn Hf Hr E|j n req ck n' r Hn Hf Hr E
    |j n b req ck cb n' b' r Hn Hf E|i n n' es Hn Hf E|i n fuel ck n' Hn E];
    pose proof (inv_nodes c Hinv _ n Hn) as [Him Hni].
  - destruct (begin_election_core _ _ _ _ E) as (Hc & Hrt & Hrc). rewrite Hf in Hni.
    pose proof (ni_id _ _ _ _ _ Hni) as Hid. cbn in Hid.
    destruct (node_inv_campaign _ _ i (core n) req Hni) as [Hni' Hallow];
      [done|done|by rewrite Hrt, Hc|congruence|].
    assert (Ht : current_term n' = c_term (core n) + 1).
    { apply (f_equal c_term) in Hc. cbn in Hc. rewrite Hc. apply uwrap_id.
      pose proof (ni_term _ _ _ _ _ Hni). cbn in *. unfold in_u. lia. }
    rewrite Ht. apply inv_move; try done; try (intros; by left).
    + intros j Hj. by rewrite lookup_insert_ne.
    + intros x Hx. by right.
    + intros t j x [H'|H']%elem_of_cons; [|by left]. injection H' as -> -> ->. right. split; [done|].
      intros ->. by apply Hids.
    + apply safe_add_vote; [by apply inv_safe|done].
    + rewrite lookup_insert_eq, Hc. exact Hni'.
  - rewrite <- (insert_id (nodes c) i n) by done.
    apply (inv_quiet c i n); [done|done|intros j Hj; by rewrite lookup_insert_ne|].
    rewrite lookup_insert_eq. rewrite Hf in Hni. by apply node_inv_skip.
  - rewrite <- (insert_id (nodes c) i n) by done.
    apply inv_move; try done; try (intros; by left); [by apply inv_safe| |].
    + intros j' req' [H'|H']%elem_of_cons; [done|by left].
    + intros j' req' [H'|H']%elem_of_cons; [|by left]. injection H' as -> ->. right.
      rewrite Hf in Hni. pose proof (ni_frame _ _ _ _ _ Hni) as (_ & -> & _). intros ->. by apply Hids.
  - eapply inv_election_response; [done|exact Hn|done|exact Hp|done| |exact E].
    intros Hg. by eapply inv_answers.
  - eapply inv_election_response; [done|exact Hn|done|exact Hp|apply core_mark| |exact E]. done.
  - rewrite Hf in Hni. pose proof (finish_election_core _ _ _ E) as Hc.
    destruct (Raft.election_won n) eqn:Hw; cbn [negb next_frame].
    + assert (Ht : current_term n' = c_term (core n)) by (by apply (f_equal c_term) in Hc).
      unfold Raft.election_won in Hw. apply Z.leb_le in Hw.
      destruct (node_inv_win _ _ i (core n) req k (Some (InReplicate 0)) Hni) as [Hs Hn'];
        [by apply inv_safe|done|done|intros t v x Hx; by eapply inv_voters|done|].
      rewrite Ht. apply inv_move; try done; try (intros; by left).
      * intros j Hj. by rewrite lookup_insert_ne.
      * intros x Hx. by right.
      * intros t j [H'|H']%elem_of_cons; [right; by injection H'|by left].
      * by rewrite lookup_insert_eq, Hc.
    + apply (inv_quiet c i n); [done|done|intros j Hj; by rewrite lookup_delete_ne|].
      rewrite lookup_delete_eq, Hc. by eapply node_inv_frame.
  - apply (inv_quiet c i n); [done|done|intros j Hj; by rewrite lookup_insert_ne|].
    rewrite lookup_insert_eq. by eapply node_inv_frame.
  - apply (inv_quiet c i n); [done|done|intros j Hj; by rewrite lookup_insert_ne|].
    rewrite lookup_insert_eq, (submit_core _ _ _ _ _ E). by eapply node_inv_frame.
  - rewrite <- (insert_id (nodes c) i n) by done.
    apply (inv_quiet c i n); [done|done|intros j Hj; by rewrite lookup_insert_ne|].
    rewrite lookup_insert_eq. by eapply node_inv_frame.
  - rewrite <- (insert_id (nodes c) i n) by done.
    apply inv_move; try done; try (intros; by left); [by apply inv_safe| |].
    + intros j' req' [H'|H']%elem_of_cons; [|by left]. injection H' as -> ->. right.
      unfold append_request in E. destruct (raft_log_term_at _ _); try done. cbn [mbind outcome_bind] in E.
      destruct (if _ && _ then _ else _); try done. cbn [mbind outcome_bind] in E. injection E as <-.
      cbn. exists i. by apply (ni_leads _ _ _ _ _ Hni).
    + intros j' req' [H'|H']%elem_of_cons; [done|by left].
  - apply (inv_quiet c i n); [done|done|by intros; apply next_frame_other|].
    rewrite next_frame_self. eapply node_inv_step_down; [exact Hni|by destruct stop|].
    by eapply replicate_response_core.
  - apply (inv_quiet c i n); [done|done|by intros; apply next_frame_other|].
    rewrite next_frame_self. eapply node_inv_step_down; [exact Hni|by destruct stop|].
    pose proof (replicate_response_core _ _ _ _ _ _ _ E) as Hc. rewrite core_mark in Hc.
    by destruct b.
  - apply (inv_quiet c i n); [done|done|intros j Hj; by rewrite lookup_delete_ne|].
    rewrite lookup_delete_eq, (update_commit_core _ _ E). by eapply node_inv_frame.
  - by eapply inv_receive_vote.
  - apply inv_move; try done; try (intros; by left).
    + by apply inv_safe.
    + rewrite Hf in *. pose proof (inv_append c Hinv j req Hr) as Hled.
      destruct (append_entries_core _ _ _ _ _ E) as [->|[[Hlt ->]|(Ht & Hs & ->)]]; [done| |].
      * by eapply node_inv_follower.
      * rewrite Ht in *. by apply node_inv_reset.
    + intros j' req' r' [H'|H']%elem_of_cons Hg; [done|by left].
  - apply (inv_quiet c j n); [done|done|done|].
    rewrite Hf in *. eapply node_inv_step_down; [exact Hni|done|]. by eapply install_snapshot_core.
  - apply (inv_quiet c i n); [done|done|done|]. by rewrite (apply_core _ _ _ E).
  - apply (inv_quiet c i n); [done|done|intros j Hj; by rewrite lookup_delete_ne|].
    rewrite lookup_delete_eq. by eapply (node_inv_restart _ _ _ i (core n)).
Qed.

Lemma reachable_inv c : reachable c → inv c.
Proof.
  intros (c0 & Hc0 & Hsteps). apply initial_inv in Hc0.
  induction Hsteps as [|c0 c1 c2 H1 _ IH]; [done|]. apply IH. by eapply step_inv.
Qed.
End cluster.

(** ** Election safety *)

(** C1: in every cluster that can be reached, with nodes that stand for election,
    vote, replicate, fail and restart at any time and a network that delays, loses and
    repeats requests, a term has at most one leader: no two different nodes have
    ever won it, and no two lead in it. *)
Theorem election_safety (fresh : RaftLogEntry) (pad members : list Z) (c : Cluster) :
  NoDup members → -1 ∉ members → reachable fresh pad members c →
  (∀ t a b, (t, a) ∈ leaders c → (t, b) ∈ leaders c → a = b) ∧
  (∀ i j n m, nodes c !! i = Some n → nodes c !! j = Some m → is_leader n = true →
     is_leader m = true → current_term n = current_term m → i = j).
Proof.
  intros Hnd Hids Hr. pose proof (reachable_inv fresh pad members Hnd Hids c Hr) as Hinv.
  assert (Huniq : ∀ t a b, (t, a) ∈ leaders c → (t, b) ∈ leaders c → a = b).
  { intros t a b Ha Hb. pose proof (inv_safe _ _ Hinv) as [Hs _].
    destruct (Hs t a Ha) as (Q & HQn & HQs & HQl & HQ), (Hs t b Hb) as (R & HRn & HRs & HRl & HR).
    destruct (majorities_meet members Q R) as (v & Hv & Hv'); [done..|lia|].
    destruct (HR v Hv') as [_ Hx]. apply Hx, HQ, Hv. }
  split; [exact Huniq|]. intros i j n m Hi Hj Hn Hm Ht.
  destruct (inv_nodes _ _ Hinv i n Hi) as [_ Hni], (inv_nodes _ _ Hinv j m Hj) as [_ Hmj].
  apply (Huniq (current_term n)); [by apply (ni_leads _ _ _ _ _ _ Hni)|].
  rewrite Ht. by apply (ni_leads _ _ _ _ _ _ Hmj).
Qed.

(** ** A run *)

Definition sample_members : list Z := [1; 2; 3].
Definition later : Clock := {| time := 5000000; random_timeout := 200 |}.

Definition fresh_node (i : Z) : RaftNode :=
  match restart zero_entry zero_pad sample_members 10 clock0 i None empty_disk with
  | Ok n => n
  | _ => sample_node i 0 RAFT_STATE_FOLLOWER (raft_log_init true) []
  end.

Definition start_cluster : Cluster :=
  {| nodes := <[1 := fresh_node 1]> (<[2 := fresh_node 2]> (<[3 := fresh_node 3]> ∅)); frames := ∅;
     requests := []; answers := []; votes := []; leaders := [] |}.

Definition campaign : RaftNode * RequestVoteRequest :=
  match begin_election later (fresh_node 1) with
  | Ok x => x
  | _ => (fresh_node 1, {| rv_term := 0; candidate_id := 1; last_log_index := 0; last_log_term := 0 |})
  end.

Definition ballot : RaftNode * RequestVoteResponse :=
  match raft_request_vote later (fresh_node 2) campaign.2 with
  | Ok x => x
  | _ => (fresh_node 2, failed_vote 2)
  end.

Definition counted : RaftNode := (election_response later campaign.1 0 ballot.2).1.
Definition alone : RaftNode := (election_response later (mark true 1 counted) 1 (failed_vote 3)).1.
Definition winner : RaftNode :=
  match finish_election zero_entry zero_pad later alone with Ok n => n | _ => alone end.

(** Node 1 stands for election, node 2 votes for it and node 3 does not answer. *)
Definition end_cluster : Cluster :=
  {| nodes := <[1 := winner]> (<[1 := alone]> (<[1 := counted]> (<[2 := ballot.1]>
       (<[1 := campaign.1]> (nodes start_cluster)))));
     frames := <[1 := InReplicate 0]> (<[1 := InElection campaign.2 2]>
       (<[1 := InElection campaign.2 1]> (<[1 := InElection campaign.2 0]> ∅)));
     requests := [(2, ReqVote campaign.2)];
     answers := [(2, ReqVote campaign.2, AnsVote ballot.2)];
     votes := [(1, 2, 1); (1, 1, 1)]; leaders := [(1, 1)] |}.

(** Closed equations, decided by evaluation. *)
Ltac evaluate := vm_compute; reflexivity.

Lemma start_initial : initial zero_entry zero_pad sample_members start_cluster.
Proof.
  repeat (split; [done|]). intros i n Hi. cbn [nodes start_cluster] in Hi.
  assert (Hr : ∀ i, i ∈ sample_members → i ∈ sample_members ∧ ∃ fuel ck,
    restart zero_entry zero_pad sample_members fuel ck i None empty_disk = Ok (fresh_node i)).
  { intros j Hj. split; [done|]. exists 10%nat, clock0. unfold sample_members in Hj.
    rewrite !elem_of_cons in Hj. destruct Hj as [->|[->|[->|Hj]]]; [evaluate..|].
    by apply not_elem_of_nil in Hj. }
  apply lookup_insert_Some in Hi as [[<- <-]|[_ Hi]]; [by apply Hr; left|].
  apply lookup_insert_Some in Hi as [[<- <-]|[_ Hi]]; [by apply Hr; right; left|].
  apply lookup_insert_Some in Hi as [[<- <-]|[_ Hi]]; [by apply Hr; right; right; left|].
  by rewrite lookup_empty in Hi.
Qed.

Definition peer_at (n : RaftNode) (k : nat) : RaftPeer := default (sample_peer 0 0) (peers n !! k).

Lemma end_reachable : reachable zero_entry zero_pad sample_members end_cluster.
Proof.
  exists start_cluster. split; [apply start_initial|].
  eapply rtc_l; [apply (step_campaign _ _ _ _ 1 (fresh_node 1) later campaign.1 campaign.2);
    [evaluate|evaluate|evaluate|by vm_compute|by decide_now|by decide_now|evaluate]|].
  eapply rtc_l; [apply (step_send_vote _ _ _ _ 1 campaign.1 campaign.2 0 (peer_at campaign.1 0));
    evaluate|].
  eapply rtc_l; [apply (step_receive_vote _ _ _ _ 2 (fresh_node 2) campaign.2 later ballot.1 ballot.2);
    [evaluate|evaluate|by left|evaluate]|].
  eapply rtc_l; [apply (step_vote_answer _ _ _ _ 1 campaign.1 campaign.2 0 (peer_at campaign.1 0) ballot.2
    later counted false); [evaluate|evaluate|evaluate|evaluate|by left|evaluate]|].
  eapply rtc_l; [apply (step_vote_failure _ _ _ _ 1 counted campaign.2 1 (peer_at counted 1) later true
    alone false); evaluate|].
  eapply rtc_l; [apply (step_election_end _ _ _ _ 1 alone campaign.2 2 later winner); evaluate|].
  apply rtc_refl.
Qed.

Lemma election_safety_witness :
  (∀ t a b, (t, a) ∈ leaders end_cluster → (t, b) ∈ leaders end_cluster → a = b) ∧
  (∀ i j n m, nodes end_cluster !! i = Some n → nodes end_cluster !! j = Some m →
     is_leader n = true → is_leader m = true → current_term n = current_term m → i = j).
Proof.
  apply (election_safety zero_entry zero_pad sample_members end_cluster).
  - by decide_now.
  - by decide_now.
  - apply end_reachable.
Defined.
