(* ===== verification/RaftRpc.v ===== *)
(** * Remote calls of a Raft node

    The functions of [consensus/raft.c] that call the peers, one call after the other, given
    what each call comes back with: the loops that [RaftCluster] cuts into steps, [raft_tick],
    reads by index, and the text of entries in a request. *)
From stdpp Require Import gmap relations.
From S2P Require Import Prelude CText RaftLog Raft RaftCluster.

Local Open Scope Z_scope.

(** ** Entries as JSON *)

Definition hex_digit (z : Z) : Z := if z <? 10 then 48 + z else 87 + z.

(** The escape of a character; [char] is compared as it is, and controls as unsigned. *)
Definition escape_char (c : Z) : list Z :=
  if c =? 34 then [92; 34]
  else if c =? 92 then [92; 92]
  else if c =? 10 then [92; 110]
  else if c =? 13 then [92; 114]
  else if c =? 9 then [92; 116]
  else if c =? 8 then [92; 98]
  else if c =? 12 then [92; 102]
  else if c <? 0x20 then [92; 117; 48; 48; hex_digit (Z.shiftr c 4); hex_digit (Z.land c 15)]
  else [c].

(** The bytes of a C string end at a zero; behind the array there is no telling. *)
Fixpoint escape_bytes (bytes : list Z) : outcome (list Z) :=
  match bytes with
  | [] => Undef
  | c :: bytes => if c =? 0 then Ok [] else r ← escape_bytes bytes; Ok (escape_char c ++ r)
  end.
Definition escape_json_string (input : option (list Z)) : outcome (list Z) :=
  match input with None => Ok [] | Some bytes => escape_bytes bytes end.

(** A string of JSON as RFC 8259 reads it, for the escapes of one byte. *)
Definition hex_value (z : Z) : option Z :=
  if (48 <=? z) && (z <=? 57) then Some (z - 48)
  else if (97 <=? z) && (z <=? 102) then Some (z - 87) else None.
Definition plain_escape (z : Z) : option Z :=
  if (z =? 34) || (z =? 92) || (z =? 47) then Some z
  else if z =? 110 then Some 10 else if z =? 114 then Some 13 else if z =? 116 then Some 9
  else if z =? 98 then Some 8 else if z =? 102 then Some 12 else None.
Fixpoint json_string (fuel : nat) (bytes : list Z) : option (list Z * list Z) :=
  match fuel, bytes with
  | S fuel, 34 :: rest => Some ([], rest)
  | S fuel, 92 :: 117 :: 48 :: 48 :: h :: l :: rest =>
      h ← hex_value h; l ← hex_value l; '(s, rest) ← json_string fuel rest; Some (16 * h + l :: s, rest)
  | S fuel, 92 :: c :: rest =>
      c ← plain_escape c; '(s, rest) ← json_string fuel rest; Some (c :: s, rest)
  | S fuel, c :: rest => if c <? 0x20 then None else '(s, rest) ← json_string fuel rest; Some (c :: s, rest)
  | _, _ => None
  end.

Lemma escape_decodes c fuel rest : 0 < c < 256 →
  json_string (S fuel) (escape_char c ++ rest) = ('(s, rest) ← json_string fuel rest; Some (c :: s, rest)).
Proof.
  intros Hc. assert (Hall : Forall (λ c, ∀ fuel rest, json_string (S fuel) (escape_char c ++ rest) =
    ('(s, rest) ← json_string fuel rest; Some (c :: s, rest))) (seqZ 1 255)).
  { change (seqZ 1 255) with ltac:(let l := eval vm_compute in (seqZ 1 255) in exact l).
    repeat constructor; reflexivity. }
  rewrite Forall_forall in Hall. apply Hall, elem_of_seqZ. lia.
Qed.

(** What is sent for a command is read as its bytes up to the first zero. *)
Lemma escape_json_roundtrip cmd more rest fuel :
  Forall (λ c, 0 < c < 256) cmd → (length cmd < fuel)%nat →
  ∃ r, escape_json_string (Some (cmd ++ 0 :: more)) = Ok r ∧ json_string fuel (r ++ 34 :: rest) = Some (cmd, rest).
Proof.
  intros Hc. revert fuel. cbn [escape_json_string]. induction Hc as [|c cmd Hc _ IH]; intros fuel Hf.
  - exists []. split; [done|]. by destruct fuel; [lia|].
  - destruct fuel as [|fuel]; [lia|]. destruct (IH fuel) as (r & Hr & Hj); [cbn in Hf; lia|].
    exists (escape_char c ++ r). cbn [app escape_bytes]. rewrite (proj2 (Z.eqb_neq _ _)) by lia.
    rewrite Hr. split; [done|]. by rewrite <- app_assoc, escape_decodes, Hj by done.
Qed.

(** The object of an entry, and the array of them. *)
Definition quoted (name : string) : list Z := 34 :: bytes_of (str name) ++ [34; 58].
Definition entry_json (e : RaftLogEntry) : outcome (list Z) :=
  data ← escape_json_string (command_data e);
  Ok (123 :: quoted "term" ++ bytes_of (print (term e)) ++ 44 :: quoted "type" ++ bytes_of (print (type e)) ++
      44 :: quoted "data" ++ 34 :: data ++ [34; 125]).
Fixpoint entries_json (first : bool) (es : list RaftLogEntry) : outcome (list Z) :=
  match es with
  | [] => Ok [93]
  | e :: es => j ← entry_json e; r ← entries_json false es; Ok ((if first then [91] else [44]) ++ j ++ r)
  end.

(** ** Calls *)

(** What a call comes back with: no connection, an error, or a row. *)
Inductive Call (A : Type) := NoConnection | QueryFailed | Answered (a : A).
Arguments NoConnection {A}.
Arguments QueryFailed {A}.
Arguments Answered {A} a.

Definition failed_query {A} (call : Call A) : bool := match call with QueryFailed => true | _ => false end.

(** The response, and whether the peer is marked inactive. *)
Definition raft_send_request_vote (p : RaftPeer) (call : Call (Z * bool)) : RequestVoteResponse * bool :=
  (match call with
   | Answered (t, granted) => {| rvr_term := u64 t; vote_granted := granted; voter_id := peer_id p |}
   | _ => failed_vote (peer_id p)
   end, failed_query call).

Definition raft_send_append_entries (p : RaftPeer) (req : AppendEntriesRequest) (call : Call (Z * bool * Z))
    : outcome (AppendEntriesResponse * bool) :=
  match call with
  | NoConnection => Ok (failed_append (peer_id p), false)
  | _ =>
      _ ← (if len (ae_entries req) =? 0 then Ok [] else entries_json true (ae_entries req));
      Ok (match call with
          | Answered (t, ok, m) =>
              {| aer_term := u64 t; aer_success := ok; aer_match := u64 m; aer_node := peer_id p |}
          | _ => failed_append (peer_id p)
          end, failed_query call)
  end.

(** What the calls of a loop come back with, by the position of the peer, and the time then. *)
Definition Calls (A : Type) : Type := nat → Clock * Call A.

Section loops.
Context (fresh : RaftLogEntry) (pad : list Z).

(** ** Replication *)

(** The loop over the peers at the positions [ks]; the flag tells that the node stepped down. *)
Fixpoint replicate_loop (answers : Calls (Z * bool * Z)) (ks : list nat) (n : RaftNode)
    : outcome (RaftNode * bool) :=
  match ks with
  | [] => Ok (n, false)
  | k :: ks =>
      match peers n !! k with
      | None => Ok (n, false)
      | Some p =>
          if negb (is_active p) then replicate_loop answers ks n else
          let '(ck, call) := answers k in
          req ← append_request n p false;
          '(r, inactive) ← raft_send_append_entries p req call;
          let '(n, stop) := replicate_response ck (mark inactive k n) k (len (ae_entries req)) r in
          if (stop : bool) then Ok (n, true) else replicate_loop answers ks n
      end
  end.

Definition raft_replicate (answers : Calls (Z * bool * Z)) (n : RaftNode) : outcome RaftNode :=
  if negb (is_leader n) then Ok n else
  '(n, stop) ← replicate_loop answers (seq 0 (length (peers n))) n;
  if (stop : bool) then Ok n else raft_update_commit_index n.

Definition raft_heartbeat (answers : Calls (Z * bool * Z)) (n : RaftNode) : outcome RaftNode :=
  if negb (is_leader n) then Ok n else raft_replicate answers n.

(** A command is appended and sent at once. *)
Definition submit_command (ck : Clock) (answers : Calls (Z * bool * Z)) (n : RaftNode) (command : list Z)
    : outcome (RaftNode * Z) :=
  if negb (is_leader n) then Ok (n, 0) else
  '(n, _) ← raft_submit_command fresh pad ck n command;
  n ← raft_replicate answers n;
  Ok (n, last_index (log n)).

(** ** Elections *)

Fixpoint election_loop (votes : Calls (Z * bool)) (ks : list nat) (n : RaftNode) : RaftNode * bool :=
  match ks with
  | [] => (n, false)
  | k :: ks =>
      match peers n !! k with
      | None => (n, false)
      | Some p =>
          if negb (is_active p) then election_loop votes ks n else
          let '(ck, call) := votes k in
          let '(r, inactive) := raft_send_request_vote p call in
          let '(n, stop) := election_response ck (mark inactive k n) k r in
          if (stop : bool) then (n, true) else election_loop votes ks n
      end
  end.

Definition become_leader (ck : Clock) (answers : Calls (Z * bool * Z)) (n : RaftNode) : outcome RaftNode :=
  n ← raft_become_leader fresh pad ck n; raft_heartbeat answers n.

Definition raft_start_election (ck : Clock) (votes : Calls (Z * bool)) (answers : Calls (Z * bool * Z))
    (n : RaftNode) : outcome RaftNode :=
  if negb (running n) then Ok n else
  '(n, _) ← begin_election ck n;
  let '(n, stop) := election_loop votes (seq 0 (length (peers n))) n in
  if stop : bool then Ok n
  else if election_won n then become_leader ck answers n else Ok n.

(** ** The tick *)

Definition raft_tick (ck : Clock) (votes : Calls (Z * bool)) (answers : Calls (Z * bool * Z)) (n : RaftNode)
    : outcome (RaftNode * list RaftLogEntry) :=
  if negb (running n) then Ok (n, []) else
  n ← match state n with
      | RAFT_STATE_LEADER =>
          if RAFT_HEARTBEAT_INTERVAL_MS * 1000 <=? time ck - last_heartbeat n
          then n ← raft_heartbeat answers n; Ok (set_heartbeat n (time ck)) else Ok n
      | _ => if election_timeout n <=? time ck then raft_start_election ck votes answers n else Ok n
      end;
  raft_apply_committed_entries n.

(** ** Reads by index *)

(** Heartbeats without entries; the result is the number of answers that agree, or none when
    the node stepped down. *)
Fixpoint ack_loop (answers : Calls (Z * bool * Z)) (ks : list nat) (acks : Z) (n : RaftNode)
    : outcome (RaftNode * option Z) :=
  match ks with
  | [] => Ok (n, Some acks)
  | k :: ks =>
      match peers n !! k with
      | None => Ok (n, Some acks)
      | Some p =>
          if negb (is_active p) then ack_loop answers ks acks n else
          let '(ck, call) := answers k in
          req ← append_request n p true;
          '(r, inactive) ← raft_send_append_entries p req call;
          let n := mark inactive k n in
          if current_term n <? aer_term r then Ok (raft_become_follower ck n (aer_term r), None)
          else ack_loop answers ks (if aer_success r then acks + 1 else acks) n
      end
  end.

Definition leader_read_index (answers : Calls (Z * bool * Z)) (n : RaftNode) : outcome (RaftNode * Z) :=
  let read_index := commit_index (log n) in
  if len (peers n) =? 0 then Ok (n, read_index) else
  '(n', acks) ← ack_loop answers (seq 0 (length (peers n))) 0 n;
  Ok (n', match acks with Some a => if quorum_size n - 1 <=? a then read_index else 0 | None => 0 end).

(** The row the leader answers with, [atoll] of its column; a null or empty column is zero. *)
Definition raft_request_read_index_from_leader (call : Call (option Z)) : Z :=
  match call with Answered (Some i) => u64 i | _ => 0 end.

(** What happens during one round of waiting. *)
Record Round := { now : Clock; round_votes : Calls (Z * bool); round_answers : Calls (Z * bool * Z) }.

(** Ticks until the index is applied; the entries applied meanwhile, in order. *)
Fixpoint wait_applied (deadline read_index : Z) (rounds : list Round) (n : RaftNode)
    : outcome (RaftNode * list RaftLogEntry * Z) :=
  if read_index <=? last_applied (log n) then Ok (n, [], read_index) else
  match rounds with
  | [] => Diverge
  | r :: rounds =>
      if deadline <=? time (now r) then Ok (n, [], 0) else
      '(n, es) ← raft_tick (now r) (round_votes r) (round_answers r) n;
      '(n, es', i) ← wait_applied deadline read_index rounds n;
      Ok (n, es ++ es', i)
  end.

Definition raft_read_index (ck : Clock) (timeout_ms : Z) (answers : Calls (Z * bool * Z))
    (leader_call : Call (option Z)) (rounds : list Round) (n : RaftNode)
    : outcome (RaftNode * list RaftLogEntry * Z) :=
  if negb (running n) then Ok (n, [], 0) else
  let deadline := time ck + timeout_ms * 1000 in
  if is_leader n then '(n, i) ← leader_read_index answers n; Ok (n, [], i)
  else if leader_id n <? 0 then Ok (n, [], 0)
  else match head (filter (λ p, peer_id p = leader_id n) (peers n)) with
       | Some _ =>
           let read_index := raft_request_read_index_from_leader leader_call in
           if read_index =? 0 then Ok (n, [], 0) else wait_applied deadline read_index rounds n
       | None => wait_applied deadline 0 rounds n
       end.

(** Waiting for the commit of an index. *)
Fixpoint wait_committed (deadline log_index : Z) (rounds : list Round) (n : RaftNode)
    : outcome (RaftNode * list RaftLogEntry * bool) :=
  match rounds with
  | [] => Diverge
  | r :: rounds =>
      if deadline <=? time (now r) then Ok (n, [], false)
      else if raft_is_committed n log_index then Ok (n, [], true) else
      '(n, es) ← raft_tick (now r) (round_votes r) (round_answers r) n;
      '(n, es', b) ← wait_committed deadline log_index rounds n;
      Ok (n, es ++ es', b)
  end.
Definition raft_wait_for_commit (ck : Clock) (log_index timeout_ms : Z) (rounds : list Round) (n : RaftNode)
    : outcome (RaftNode * list RaftLogEntry * bool) :=
  wait_committed (time ck + timeout_ms * 1000) log_index rounds n.

End loops.

(** ** The loops are steps of the cluster *)

Section refine.
Context (fresh : RaftLogEntry) (pad members : list Z) (i : Z).
Notation step := (RaftCluster.step fresh pad members).

(** The cluster has moved, and the node is there with its frame. *)
Record moved (c c' : Cluster) (n' : RaftNode) (f : option Frame) : Prop := {
  moved_steps : rtc step c c';
  moved_node : nodes c' !! i = Some n';
  moved_frame : frames c' !! i = f }.

Lemma moved_refl c n f : nodes c !! i = Some n → frames c !! i = f → moved c c n f.
Proof. intros Hn Hf. by split. Qed.

Lemma moved_trans c c1 c2 n1 n2 f1 f2 : moved c c1 n1 f1 → moved c1 c2 n2 f2 → moved c c2 n2 f2.
Proof. intros [] []. split; [by etrans|done|done]. Qed.

(** One step of the node itself. *)
Definition put (n' : RaftNode) (f : gmap Z Frame) (c : Cluster) : Cluster :=
  {| nodes := <[i := n']> (nodes c); frames := f; requests := requests c; answers := answers c;
     votes := votes c; leaders := leaders c |}.

Lemma moved_put c n' f : step c (put n' f c) → moved c (put n' f c) n' (f !! i).
Proof. intros Hs. split; [by apply rtc_once|apply lookup_insert_eq|done]. Qed.

(** *** What the others do meanwhile *)

(** The other nodes make any steps; the node that waits makes none. *)
Definition others (c c' : Cluster) : Prop :=
  rtc step c c' ∧ nodes c' !! i = nodes c !! i ∧ frames c' !! i = frames c !! i.

Definition send (j : Z) (rq : Request) (c : Cluster) : Cluster :=
  {| nodes := nodes c; frames := frames c; requests := (j, rq) :: requests c; answers := answers c;
     votes := votes c; leaders := leaders c |}.

(** A call: nothing is sent without a connection; otherwise the request is sent, the others
    move, and what the call comes back with, if not an error, is an answer the peer has given
    to the request by then. *)
Definition exchange {A} (j : Z) (rq : Request) (call : Call A) (a : Answer) (c c' : Cluster) : Prop :=
  match call with
  | NoConnection => others c c'
  | QueryFailed => others (send j rq c) c'
  | Answered _ => others (send j rq c) c' ∧ (j, rq, a) ∈ answers c'
  end.

(** The loop over the peers [ks], from one cluster to another. *)
Inductive appends (calls : Calls (Z * bool * Z)) : list nat → RaftNode → Cluster → Cluster → Prop :=
| appends_nil n c : appends calls [] n c c
| appends_skip k ks n p c c' :
    peers n !! k = Some p → is_active p = false →
    appends calls ks n (put n (<[i := InReplicate (S k)]> (frames c)) c) c' → appends calls (k :: ks) n c c'
| appends_call k ks n p req r inactive n1 stop c c1 c' :
    peers n !! k = Some p → is_active p = true → append_request n p false = Ok req →
    raft_send_append_entries p req (calls k).2 = Ok (r, inactive) →
    exchange (peer_id p) (ReqAppend req) (calls k).2 (AnsAppend r) c c1 →
    replicate_response (calls k).1 (mark inactive k n) k (len (ae_entries req)) r = (n1, stop) →
    (stop = true → c' = put n1 (next_frame true i (InReplicate (S k)) (frames c1)) c1) →
    (stop = false → appends calls ks n1 (put n1 (next_frame false i (InReplicate (S k)) (frames c1)) c1) c') →
    appends calls (k :: ks) n c c'.

Inductive asks (calls : Calls (Z * bool)) (req : RequestVoteRequest)
    : list nat → RaftNode → Cluster → Cluster → Prop :=
| asks_nil n c : asks calls req [] n c c
| asks_skip k ks n p c c' :
    peers n !! k = Some p → is_active p = false →
    asks calls req ks n (put n (<[i := InElection req (S k)]> (frames c)) c) c' → asks calls req (k :: ks) n c c'
| asks_call k ks n p r inactive n1 stop c c1 c' :
    peers n !! k = Some p → is_active p = true →
    raft_send_request_vote p (calls k).2 = (r, inactive) →
    exchange (peer_id p) (ReqVote req) (calls k).2 (AnsVote r) c c1 →
    election_response (calls k).1 (mark inactive k n) k r = (n1, stop) →
    (stop = true → c' = put n1 (next_frame true i (InElection req (S k)) (frames c1)) c1) →
    (stop = false → asks calls req ks n1 (put n1 (next_frame false i (InElection req (S k)) (frames c1)) c1) c') →
    asks calls req (k :: ks) n c c'.

(** The node becomes a candidate, and a leader. *)
Definition campaigned (n1 : RaftNode) (req : RequestVoteRequest) (c : Cluster) : Cluster :=
  {| nodes := <[i := n1]> (nodes c); frames := <[i := InElection req 0]> (frames c); requests := requests c;
     answers := answers c; votes := (current_term n1, i, i) :: votes c; leaders := leaders c |}.
Definition elected (n3 : RaftNode) (c : Cluster) : Cluster :=
  {| nodes := <[i := n3]> (nodes c); frames := <[i := InReplicate 0]> (frames c); requests := requests c;
     answers := answers c; votes := votes c; leaders := (current_term n3, i) :: leaders c |}.

(** The cluster during a tick, until the last call has come back. *)
Definition during (ck : Clock) (votes : Calls (Z * bool)) (answers : Calls (Z * bool * Z)) (n : RaftNode)
    (c c' : Cluster) : Prop :=
  let ks := seq 0 (length (peers n)) in
  if negb (running n) then c' = c else
  match state n with
  | RAFT_STATE_LEADER =>
      if RAFT_HEARTBEAT_INTERVAL_MS * 1000 <=? time ck - last_heartbeat n
      then let n := set_heartbeat n (time ck) in
           appends answers ks n (put n (<[i := InReplicate 0]> (frames c)) c) c'
      else c' = c
  | _ =>
      if election_timeout n <=? time ck then
        ∃ n1 req c1, begin_election ck n = Ok (n1, req) ∧ asks votes req ks n1 (campaigned n1 req c) c1 ∧
          let '(n2, stop) := election_loop votes ks n1 in
          if negb stop && Raft.election_won n2
          then ∃ n3, raft_become_leader fresh pad ck n2 = Ok n3 ∧ appends answers ks n3 (elected n3 c1) c'
          else c' = c1
      else c' = c
  end.

(** *** The loops follow the steps *)

Lemma peers_mark b k n : length (peers (mark b k n)) = length (peers n).
Proof. destruct b; [|done]. cbn. apply length_alter. Qed.

Lemma peers_replicate_response ck n k m r : length (peers (replicate_response ck n k m r).1) = length (peers n).
Proof. unfold replicate_response. cbn. destruct (_ <? _); [done|]. cbn. apply length_alter. Qed.

Lemma peers_election_response ck n k r : length (peers (election_response ck n k r).1) = length (peers n).
Proof. unfold election_response. destruct (_ <? _), (vote_granted r); [done..| |done]. cbn. apply length_alter. Qed.

Lemma next_frame_at stop f fs : next_frame stop i f fs !! i = if stop then None else Some f.
Proof. destruct stop; cbn; [apply lookup_delete_eq|apply lookup_insert_eq]. Qed.

Lemma put_frame n f c : nodes c !! i = Some n →
  put n f c = {| nodes := nodes c; frames := f; requests := requests c; answers := answers c;
                 votes := votes c; leaders := leaders c |}.
Proof. intros Hn. unfold put. by rewrite insert_id. Qed.

(** The exchange leaves the node where it is. *)
Lemma exchange_moved {A} j rq (call : Call A) a c c1 n f :
  nodes c !! i = Some n → frames c !! i = f → (call ≠ NoConnection → step c (send j rq c)) →
  exchange j rq call a c c1 → moved c c1 n f.
Proof.
  intros Hn Hf Hs He.
  assert (Ho : ∀ c0, rtc step c c0 → nodes c0 !! i = nodes c !! i → frames c0 !! i = frames c !! i →
    others c0 c1 → moved c c1 n f).
  { intros c0 Hr H1 H2 (H3 & H4 & H5). split; [by etrans|congruence|congruence]. }
  unfold exchange in He. destruct call as [| |x].
  - by eapply (Ho c).
  - apply (Ho (send j rq c)); [apply rtc_once, Hs; discriminate|done|done|done].
  - destruct He as [He _]. apply (Ho (send j rq c)); [apply rtc_once, Hs; discriminate|done|done|done].
Qed.

Lemma replicate_run calls m : ∀ n c k n' stop c',
  nodes c !! i = Some n → frames c !! i = Some (InReplicate k) → is_leader n = true →
  (k + m = length (peers n))%nat →
  appends calls (seq k m) n c c' → replicate_loop calls (seq k m) n = Ok (n', stop) →
  moved c c' n' (if stop then None else Some (InReplicate (k + m))) ∧ length (peers n') = length (peers n).
Proof.
  induction m as [|m IH]; intros n c k n' stop c' Hn Hf Hl Hk Hh E; cbn [seq replicate_loop] in *.
  { injection E as <- <-. inversion Hh; subst. split; [|done]. apply moved_refl; [done|]. by rewrite Hf, Nat.add_0_r. }
  inversion Hh as [|? ? ? p ? ? Hp Ha Hrest|? ? ? p req r inactive n1 stop1 ? c1 ? Hp Ha Hreq Hr He E1 Hstop Hrest]; subst.
  - rewrite Hp, Ha in E. cbn [negb] in E. rewrite put_frame in Hrest by done.
    eapply IH in Hrest as [H2 Hlen]; [|exact Hn|apply lookup_insert_eq|done|lia|exact E].
    rewrite Nat.add_succ_comm in H2. split; [|done]. eapply moved_trans; [|exact H2].
    split; [|exact Hn|apply lookup_insert_eq]. apply rtc_once. by eapply step_replicate_skip.
  - rewrite Hp, Ha in E. cbn [negb] in E. destruct (calls k) as [ck call] eqn:Ec. cbn [fst snd] in *.
    rewrite Hreq in E. cbn [mbind outcome_bind] in E. rewrite Hr in E. cbn [mbind outcome_bind] in E. rewrite E1 in E.
    assert (Hlen : length (peers n1) = length (peers n)).
    { change n1 with (n1, stop1).1. rewrite <- E1, peers_replicate_response. apply peers_mark. }
    assert (H1 : moved c c1 n (Some (InReplicate k))).
    { eapply exchange_moved; [done|done| |exact He]. intros _. by eapply step_send_append. }
    assert (H2 : moved c1 (put n1 (next_frame stop1 i (InReplicate (S k)) (frames c1)) c1) n1
      (if stop1 then None else Some (InReplicate (S k)))).
    { rewrite <- (next_frame_at stop1 (InReplicate (S k)) (frames c1)). apply moved_put. destruct H1 as [_ N1 F1].
      unfold raft_send_append_entries in Hr. destruct call as [| |[[t ok] mt]].
      - injection Hr as <- <-. by eapply (step_append_failure _ _ _ _ i n k p req ck false).
      - apply outcome_bind_ok in Hr as (_ & _ & [= <- <-]).
        by eapply (step_append_failure _ _ _ _ i n k p req ck true).
      - apply outcome_bind_ok in Hr as (_ & _ & [= <- <-]). destruct He as [_ Hans].
        by eapply (step_append_answer _ _ _ _ i n k p req). }
    pose proof (moved_trans _ _ _ _ _ _ _ H1 H2) as H12. destruct stop1.
    + injection E as <- <-. by rewrite Hstop.
    + specialize (Hrest eq_refl). assert (Hl1 : is_leader n1 = true).
      { unfold replicate_response in E1. cbn in E1. destruct (_ <? _); [done|]. injection E1 as <-. by destruct inactive. }
      eapply IH in Hrest as [H3 Hlen3]; [|apply H2|apply H2|done|lia|exact E].
      rewrite Nat.add_succ_comm in H3. split; [by eapply moved_trans|congruence].
Qed.

(** A call of [raft_replicate] by a leader that has entered the loop. *)
Lemma replicate_refines calls n c n' c1 :
  nodes c !! i = Some n → frames c !! i = Some (InReplicate 0) → is_leader n = true →
  appends calls (seq 0 (length (peers n))) n c c1 → raft_replicate calls n = Ok n' →
  ∃ c', moved c c' n' None.
Proof.
  intros Hn Hf Hl Hh E. unfold raft_replicate in E. rewrite Hl in E. cbn [negb] in E.
  apply outcome_bind_ok in E as ([n1 stop] & E1 & E).
  destruct (replicate_run calls (length (peers n)) n c 0 n1 stop c1) as [H1 Hlen]; [done..|].
  destruct stop; [injection E as <-; by exists c1|].
  eexists. eapply moved_trans; [exact H1|]. rewrite <- (lookup_delete_eq (frames c1) i).
  apply moved_put. eapply step_replicate_end; [apply H1|apply H1|apply lookup_ge_None_2; lia|exact E].
Qed.

Lemma election_run calls req m : ∀ n c k c',
  nodes c !! i = Some n → frames c !! i = Some (InElection req k) → (k + m = length (peers n))%nat →
  asks calls req (seq k m) n c c' →
  let '(n', stop) := election_loop calls (seq k m) n in
  moved c c' n' (if stop : bool then None else Some (InElection req (k + m))) ∧
  length (peers n') = length (peers n).
Proof.
  induction m as [|m IH]; intros n c k c' Hn Hf Hk Hh; cbn [seq election_loop] in *.
  { inversion Hh; subst. split; [|done]. apply moved_refl; [done|]. by rewrite Hf, Nat.add_0_r. }
  inversion Hh as [|? ? ? p ? ? Hp Ha Hrest|? ? ? p r inactive n1 stop1 ? c1 ? Hp Ha Hr He E1 Hstop Hrest]; subst;
    rewrite Hp, Ha; cbn [negb].
  - rewrite put_frame in Hrest by done. eapply IH in Hrest; [|exact Hn|apply lookup_insert_eq|lia].
    destruct (election_loop calls (seq (S k) m) n) as [n' stop]. destruct Hrest as [H2 Hlen].
    rewrite Nat.add_succ_comm in H2. split; [|done]. eapply moved_trans; [|exact H2].
    split; [|exact Hn|apply lookup_insert_eq]. apply rtc_once. by eapply step_skip.
  - destruct (calls k) as [ck call] eqn:Ec. cbn [fst snd] in *. rewrite Hr, E1.
    assert (Hlen : length (peers n1) = length (peers n)).
    { change n1 with (n1, stop1).1. rewrite <- E1, peers_election_response. apply peers_mark. }
    assert (H1 : moved c c1 n (Some (InElection req k))).
    { eapply exchange_moved; [done|done| |exact He]. intros _. by eapply step_send_vote. }
    assert (H2 : moved c1 (put n1 (next_frame stop1 i (InElection req (S k)) (frames c1)) c1) n1
      (if stop1 then None else Some (InElection req (S k)))).
    { rewrite <- (next_frame_at stop1 (InElection req (S k)) (frames c1)). apply moved_put. destruct H1 as [_ N1 F1].
      unfold raft_send_request_vote in Hr. destruct call as [| |[t granted]]; injection Hr as <- <-.
      - by eapply (step_vote_failure _ _ _ _ i n req k p ck false).
      - by eapply (step_vote_failure _ _ _ _ i n req k p ck true).
      - destruct He as [_ Hans]. by eapply (step_vote_answer _ _ _ _ i n req k p). }
    pose proof (moved_trans _ _ _ _ _ _ _ H1 H2) as H12. destruct stop1; [by rewrite Hstop|]. specialize (Hrest eq_refl).
    eapply IH in Hrest; [|apply H2|apply H2|lia].
    destruct (election_loop calls (seq (S k) m) n1) as [n' stop]. destruct Hrest as [H3 Hlen3].
    rewrite Nat.add_succ_comm in H3. split; [by eapply moved_trans|congruence].
Qed.

(** The time of the last heartbeat plays no part in the loop. *)
Lemma append_request_heartbeat n t p b : append_request (set_heartbeat n t) p b = append_request n p b.
Proof. done. Qed.

Lemma replicate_loop_heartbeat calls t ks : ∀ n,
  replicate_loop calls ks (set_heartbeat n t) =
  ('(n', stop) ← replicate_loop calls ks n; Ok (set_heartbeat n' t, stop)).
Proof.
  induction ks as [|k ks IH]; intros n; cbn [replicate_loop]; [done|]. cbn [peers set_heartbeat].
  destruct (peers n !! k) as [p|]; [|done]. destruct (is_active p); cbn [negb]; [|apply IH].
  destruct (calls k) as [ck call]. rewrite append_request_heartbeat.
  destruct (append_request n p false) as [req| | |]; [|done..]. cbn [mbind outcome_bind].
  destruct (raft_send_append_entries p req call) as [[r b]| | |]; [|done..]. cbn [mbind outcome_bind].
  unfold replicate_response. cbn [current_term set_stats].
  replace (mark b k (set_heartbeat n t)) with (set_heartbeat (mark b k n) t) by (by destruct b).
  cbn [current_term set_heartbeat]. destruct (_ <? _); [done|].
  set (m := mark b k n). exact (IH (set_peers (set_stats m (elections_started m) (elections_won m)
    (append_entries_sent m + 1)) (alter (peer_response (len (ae_entries req)) r) k (peers m)))).
Qed.

Lemma commit_loop_heartbeat n t m : ∀ idx, commit_loop (set_heartbeat n t) m idx = commit_loop n m idx.
Proof.
  induction m as [|m IH]; intros idx; [done|]. cbn [commit_loop log set_heartbeat peers current_term quorum_size].
  destruct (raft_log_term_at _ _); [|done..]. cbn [mbind outcome_bind]. by rewrite !IH.
Qed.

Lemma replicate_heartbeat calls n t :
  raft_replicate calls (set_heartbeat n t) = (n' ← raft_replicate calls n; Ok (set_heartbeat n' t)).
Proof.
  unfold raft_replicate. cbn [is_leader set_heartbeat peers]. destruct (negb _); [done|].
  rewrite replicate_loop_heartbeat. destruct (replicate_loop _ _ n) as [[n1 stop]| | |]; [|done..].
  cbn [mbind outcome_bind]. destruct stop; [done|]. unfold raft_update_commit_index.
  cbn [is_leader set_heartbeat log]. destruct (negb _); [done|]. rewrite commit_loop_heartbeat.
  destruct (commit_loop _ _ _) as [[idx|]| | |]; done.
Qed.

Lemma become_leader_leads ck n n' :
  raft_become_leader fresh pad ck n = Ok n' → is_leader n' = true ∧ length (peers n') = length (peers n).
Proof.
  intros E. unfold raft_become_leader in E. apply outcome_bind_ok in E as ([l d] & _ & [= <-]).
  split; [done|]. apply length_map.
Qed.

(** The end of an election that was not lost, and the heartbeat of the leader. *)
Lemma election_end_moved ck n req k c n' :
  nodes c !! i = Some n → frames c !! i = Some (InElection req k) → peers n !! k = None →
  finish_election fresh pad ck n = Ok n' →
  if Raft.election_won n then moved c (elected n' c) n' (Some (InReplicate 0)) else ∃ c', moved c c' n' None.
Proof.
  intros Hn Hf Hp E. assert (Hs := step_election_end fresh pad members c i n req k ck n' Hn Hf Hp E).
  destruct (Raft.election_won n); cbn [negb next_frame] in Hs.
  - split; [by apply rtc_once|apply lookup_insert_eq|apply lookup_insert_eq].
  - eexists. split; [by apply rtc_once|apply lookup_insert_eq|apply lookup_delete_eq].
Qed.

Lemma start_election_running ck votes answers n :
  running n = true → raft_start_election fresh pad ck votes answers n =
  ('(n, _) ← begin_election ck n;
   let '(n, stop) := election_loop votes (seq 0 (length (peers n))) n in
   if stop : bool then Ok n
   else if Raft.election_won n then become_leader fresh pad ck answers n else Ok n).
Proof. intros H. unfold raft_start_election. by rewrite H. Qed.

Lemma campaign_moved ck n c n1 req :
  nodes c !! i = Some n → frames c !! i = None → running n = true → state n ≠ RAFT_STATE_LEADER →
  election_timeout n <= time ck → current_term n < 2 ^ 63 - 1 → begin_election ck n = Ok (n1, req) →
  moved c (campaigned n1 req c) n1 (Some (InElection req 0)) ∧ length (peers n1) = length (peers n).
Proof.
  intros Hn Hf Hrun Hst Htime Hterm Eb. split.
  - split; [|apply lookup_insert_eq|apply lookup_insert_eq]. apply rtc_once. by eapply step_campaign.
  - apply begin_election_core in Eb as [Eb _].
    apply (f_equal (λ a, length (c_peers a))) in Eb. cbn [c_peers core candidate_core] in Eb.
    by rewrite !length_map in Eb.
Qed.

Lemma during_election ck votes answers n c c1 :
  during ck votes answers n c c1 → running n = true → state n ≠ RAFT_STATE_LEADER →
  election_timeout n <= time ck →
  ∃ n1 req c2, begin_election ck n = Ok (n1, req) ∧
    asks votes req (seq 0 (length (peers n))) n1 (campaigned n1 req c) c2 ∧
    let '(n2, stop) := election_loop votes (seq 0 (length (peers n))) n1 in
    if negb stop && Raft.election_won n2
    then ∃ n3, raft_become_leader fresh pad ck n2 = Ok n3 ∧
               appends answers (seq 0 (length (peers n))) n3 (elected n3 c2) c1
    else c1 = c2.
Proof.
  unfold during. intros H Hrun Hst Ht. rewrite Hrun, (proj2 (Z.leb_le _ _) Ht) in H. cbn [negb] in H.
  by destruct (state n).
Qed.

Lemma election_refines ck votes answers n c n' c1 :
  nodes c !! i = Some n → frames c !! i = None → running n = true → state n ≠ RAFT_STATE_LEADER →
  election_timeout n <= time ck → current_term n < 2 ^ 63 - 1 → during ck votes answers n c c1 →
  raft_start_election fresh pad ck votes answers n = Ok n' → ∃ c', moved c c' n' None.
Proof.
  intros Hn Hf Hrun Hst Htime Hterm Hh E. rewrite start_election_running in E by done.
  destruct (during_election _ _ _ _ _ _ Hh Hrun Hst Htime) as (n1 & req & c2 & Eb & Hv & Hl). clear Hh.
  rewrite Eb in E. cbn [mbind outcome_bind] in E.
  destruct (campaign_moved ck n c n1 req Hn Hf Hrun Hst Htime Hterm Eb) as [H1 Hp]. rewrite Hp in E.
  pose proof (election_run votes req (length (peers n)) n1 (campaigned n1 req c) 0 c2 (moved_node _ _ _ _ H1)
    (moved_frame _ _ _ _ H1) (eq_sym Hp) Hv) as H2.
  destruct (election_loop votes (seq 0 (length (peers n))) n1) as [n2 stop] eqn:El. destruct H2 as [H2 Hlen].
  pose proof (moved_trans _ _ _ _ _ _ _ H1 H2) as H12. destruct stop; [injection E as <-; by exists c2|].
  cbn [negb andb] in Hl.
  assert (Hend : ∀ n3, finish_election fresh pad ck n2 = Ok n3 →
    if Raft.election_won n2 then moved c2 (elected n3 c2) n3 (Some (InReplicate 0)) else ∃ c', moved c2 c' n3 None).
  { intros n3 E3. eapply election_end_moved; [apply H2|apply H2|apply lookup_ge_None_2; lia|done]. }
  unfold finish_election in Hend. destruct (Raft.election_won n2).
  - destruct Hl as (n3 & E3 & Ha). unfold become_leader in E. rewrite E3 in E. cbn [mbind outcome_bind] in E.
    specialize (Hend n3 E3). destruct (become_leader_leads _ _ _ E3) as [Hlead Hp3].
    unfold raft_heartbeat in E. rewrite Hlead in E. cbn [negb] in E.
    destruct (replicate_refines answers n3 (elected n3 c2) n' c1) as [c4 H4];
      [apply Hend|apply Hend|done|by rewrite Hp3, Hlen, Hp|done|].
    exists c4. by do 2 (eapply moved_trans; [eassumption|]).
  - injection E as <-. destruct (Hend n2 eq_refl) as [c3 H3]. exists c3. by eapply moved_trans.
Qed.

Lemma heartbeat_refines ck answers n c n' c1 :
  nodes c !! i = Some n → frames c !! i = None → running n = true → is_leader n = true →
  appends answers (seq 0 (length (peers n))) (set_heartbeat n (time ck))
    (put (set_heartbeat n (time ck)) (<[i := InReplicate 0]> (frames c)) c) c1 →
  raft_replicate answers n = Ok n' → ∃ c', moved c c' (set_heartbeat n' (time ck)) None.
Proof.
  intros Hn Hf Hrun Hl Hh E.
  assert (H1 : moved c (put (set_heartbeat n (time ck)) (<[i := InReplicate 0]> (frames c)) c)
    (set_heartbeat n (time ck)) (Some (InReplicate 0))).
  { rewrite <- (lookup_insert_eq (frames c) i (InReplicate 0)). apply moved_put. by apply step_heartbeat. }
  destruct (replicate_refines answers (set_heartbeat n (time ck))
    (put (set_heartbeat n (time ck)) (<[i := InReplicate 0]> (frames c)) c) (set_heartbeat n' (time ck)) c1)
    as [c2 H2].
  - apply H1.
  - apply H1.
  - done.
  - exact Hh.
  - by rewrite replicate_heartbeat, E.
  - exists c2. by eapply moved_trans.
Qed.

Lemma apply_refines n c n' es :
  nodes c !! i = Some n → frames c !! i = None → raft_apply_committed_entries n = Ok (n', es) →
  ∃ c', moved c c' n' None.
Proof. intros Hn Hf E. eexists. rewrite <- Hf. apply moved_put. by eapply step_apply. Qed.
End refine.

(** A node of a reachable cluster that is in the state of a leader has the flag of one. *)
Definition flagged (a : Core) : Prop := c_state a = RAFT_STATE_LEADER → c_leads a = true.

Lemma step_flagged fresh pad members c c' :
  step fresh pad members c c' → map_Forall (λ _ n, flagged (core n)) (nodes c) →
  map_Forall (λ _ n, flagged (core n)) (nodes c').
Proof.
  intros Hstep H. assert (Hset : ∀ i n, flagged (core n) → map_Forall (λ _ n, flagged (core n)) (<[i := n]> (nodes c))).
  { intros i n Hn. by apply map_Forall_insert_2. }
  assert (Hf : ∀ a t, flagged (follower_core a t)) by done.
  destruct Hstep as
    [i n ck n' req Hn _ _ _ _ _ E|i n req k p Hn _ _ _|i n req k p Hn _ _ _
    |i n req k p r ck n' stop Hn _ _ _ _ E|i n req k p ck b n' stop Hn _ _ _ E
    |i n req k ck n' Hn _ _ E|i n ck Hn _ _ _|i n ck cmd n' idx Hn _ _ E
    |i n k p Hn _ _ _|i n k p req Hn _ _ _ _ _
    |i n k p req r ck n' stop Hn _ _ _ _ _ E|i n k p req ck b n' stop Hn _ _ _ _ E
    |i n k n' Hn _ _ E|j n req ck n' r Hn _ _ E|j n req ck n' r Hn _ _ E
    |j n b req ck cb n' b' r Hn _ E|i n n' es Hn _ E|i n fuel ck n' Hn E];
    pose proof (H _ _ Hn) as Hi; try done; cbn [nodes]; apply Hset.
  - apply begin_election_core in E as [-> _]. done.
  - destruct (election_response_core _ _ _ _ _ _ E) as [(_ & -> & _)|[(_ & _ & ->)|(_ & _ & ->)]]; done.
  - destruct (election_response_core _ _ _ _ _ _ E) as [(_ & -> & _)|[(_ & _ & ->)|(_ & _ & ->)]];
      rewrite ?core_mark; done.
  - rewrite (finish_election_core _ _ _ _ _ E). by destruct (Raft.election_won n).
  - done.
  - by rewrite (submit_core _ _ _ _ _ _ _ E).
  - destruct (replicate_response_core _ _ _ _ _ _ _ E) as [->|(t & _ & ->)]; done.
  - destruct (replicate_response_core _ _ _ _ _ _ _ E) as [->|(t & _ & ->)]; rewrite ?core_mark; done.
  - by rewrite (update_commit_core _ _ E).
  - destruct (request_vote_core _ _ _ _ _ E) as [[_ ->]|(a & Ha & Hr)]; [done|].
    assert (Hfa : flagged a) by (destruct Ha as [[-> _]|[-> _]]; done).
    destruct Hr as [[_ ->]|(_ & -> & _)]; done.
  - destruct (append_entries_core _ _ _ _ _ _ _ E) as [->|[[_ ->]|(_ & _ & ->)]]; done.
  - destruct (install_snapshot_core _ _ _ _ _ _ _ _ E) as [->|(t & _ & ->)]; done.
  - by rewrite (apply_core _ _ _ E).
  - by rewrite (restart_core _ _ _ _ _ _ _ _ _ E).
Qed.

Lemma reachable_flagged fresh pad members c i n :
  reachable fresh pad members c → nodes c !! i = Some n → state n = RAFT_STATE_LEADER → is_leader n = true.
Proof.
  intros (c0 & (_ & _ & _ & _ & _ & Hinit) & Hsteps) Hn Hs.
  assert (H : map_Forall (λ _ n, flagged (core n)) (nodes c)); [|by apply (H i n Hn)].
  assert (H0 : map_Forall (λ _ n, flagged (core n)) (nodes c0)).
  { intros j m Hj. destruct (Hinit j m Hj) as (_ & fuel & ck & E). by rewrite (restart_core _ _ _ _ _ _ _ _ _ E). }
  clear Hinit Hn Hs. induction Hsteps as [|c0 c1 c2 H1 _ IH]; [done|]. apply IH. by eapply step_flagged.
Qed.

(** C2: A call of [raft_tick] is a run of the cluster.  While the node waits for an answer the
    other nodes make any steps, and each answer is one that its peer gave, by then, to the
    request of that call, unless the call failed; then the node gets by steps of the cluster,
    between those of the others, to where the function leaves it, and is a node that is ready
    for requests again.  Whatever holds of reachable clusters, as election safety does, is
    thereby about what the functions do. *)
Theorem tick_refines (fresh : RaftLogEntry) (pad members : list Z) i ck votes answers n c c1 n' es :
  reachable fresh pad members c →
  nodes c !! i = Some n → frames c !! i = None → current_term n < 2 ^ 63 - 1 →
  during fresh pad members i ck votes answers n c c1 →
  raft_tick fresh pad ck votes answers n = Ok (n', es) →
  ∃ c', rtc (step fresh pad members) c c' ∧ reachable fresh pad members c' ∧
        nodes c' !! i = Some n' ∧ frames c' !! i = None.
Proof.
  intros Hreach Hn Hf Hterm Hh E. pose proof (reachable_flagged _ _ _ _ _ _ Hreach Hn) as Hlead.
  assert (H : ∃ c', moved fresh pad members i c c' n' None).
  2: { destruct H as [c' [Hs ? ?]]. exists c'. destruct Hreach as (c0 & Hi & Hr).
       split; [done|]. split; [|done]. exists c0. split; [done|by etrans]. }
  pose proof Hh as Hd. unfold raft_tick in E. unfold during in Hd.
  destruct (running n) eqn:Hrun; cbn [negb] in E, Hd.
  2: { injection E as <- <-. exists c. by apply moved_refl. }
  apply outcome_bind_ok in E as (n1 & E1 & E).
  assert (H1 : ∃ c1, moved fresh pad members i c c1 n1 None).
  { destruct (state n) eqn:Hst.
    - destruct (Z.leb_spec (election_timeout n) (time ck)).
      + by eapply election_refines; eauto; rewrite Hst.
      + injection E1 as <-. exists c. by apply moved_refl.
    - destruct (Z.leb_spec (election_timeout n) (time ck)).
      + by eapply election_refines; eauto; rewrite Hst.
      + injection E1 as <-. exists c. by apply moved_refl.
    - destruct (_ <=? _).
      + apply outcome_bind_ok in E1 as (n2 & E2 & [= <-]). unfold raft_heartbeat in E2.
        rewrite Hlead in E2 by done. cbn [negb] in E2. eapply heartbeat_refines; eauto.
      + injection E1 as <-. exists c. by apply moved_refl. }
  destruct H1 as [c2 H1]. destruct (apply_refines fresh pad members i n1 c2 n' es) as [c3 H2];
    [apply H1|apply H1|done|]. exists c3. by eapply moved_trans.
Qed.

(** ** Reads *)

Section reads.
Context (fresh : RaftLogEntry) (pad : list Z).

(** The peers that agreed in the loop. *)
Definition agreed (calls : Calls (Z * bool * Z)) (k : nat) : bool :=
  match (calls k).2 with Answered (_, ok, _) => ok | _ => false end.

Lemma ack_loop_counts calls ks : ∀ acks n n' a,
  ack_loop calls ks acks n = Ok (n', Some a) →
  a <= acks + len (filter (λ k, agreed calls k = true) ks) ∧ current_term n' = current_term n ∧ log n' = log n.
Proof.
  induction ks as [|k ks IH]; intros acks n n' a; cbn [ack_loop].
  { intros [= <- <-]. split; [cbn; lia|done]. }
  rewrite filter_cons. destruct (peers n !! k) as [p|].
  2: { intros [= <- <-]. split; [lia|done]. }
  destruct (is_active p); cbn [negb].
  2: { intros E. apply IH in E as (H & ?). split; [|done]. case_decide; cbn [length]; lia. }
  destruct (calls k) as [ck call] eqn:Ec. intros E. apply outcome_bind_ok in E as (req & _ & E).
  apply outcome_bind_ok in E as ([r inactive] & Hr & E).
  assert (Hok : aer_success r = true → agreed calls k = true).
  { unfold agreed. rewrite Ec. cbn [snd]. unfold raft_send_append_entries in Hr.
    destruct call as [| |[[t ok] m]].
    - by injection Hr as <- <-.
    - by apply outcome_bind_ok in Hr as (_ & _ & [= <- <-]).
    - by apply outcome_bind_ok in Hr as (_ & _ & [= <- <-]). }
  destruct (_ <? _); [done|]. apply IH in E as (H & Ht & Hl).
  split; [|by destruct inactive]. destruct (aer_success r).
  - rewrite decide_True by auto. cbn [length]. lia.
  - case_decide; cbn [length]; lia.
Qed.

(** An index that the leader of several nodes gives out is its commit index at the start, and
    a majority of the nodes, with itself, has agreed to follow it in its term. *)
Lemma read_index_acknowledged calls n n' i :
  leader_read_index calls n = Ok (n', i) → i ≠ 0 → peers n ≠ [] →
  i = commit_index (log n) ∧ current_term n' = current_term n ∧
  quorum_size n <= 1 + len (filter (λ k, agreed calls k = true) (seq 0 (length (peers n)))).
Proof.
  unfold leader_read_index. intros E Hi Hp.
  rewrite (proj2 (Z.eqb_neq _ _)) in E by (destruct (peers n); [done|cbn; lia]).
  apply outcome_bind_ok in E as ([n1 [a|]] & E & [= <- <-]); [|done].
  apply ack_loop_counts in E as (H & Ht & _). destruct (Z.leb_spec (quorum_size n - 1) a); [|done].
  split; [done|]. split; [done|]. lia.
Qed.

(** Waiting ends when its time is over, and an index is returned only when it is applied. *)
Lemma wait_applied_ends deadline i rounds : ∀ n,
  (∀ r n, r ∈ rounds → raft_tick fresh pad (now r) (round_votes r) (round_answers r) n ≠ Diverge) →
  Exists (λ r, deadline <= time (now r)) rounds → wait_applied fresh pad deadline i rounds n ≠ Diverge.
Proof.
  induction rounds as [|r rounds IH]; intros n Ht He; cbn [wait_applied]; [by apply Exists_nil in He|].
  destruct (_ <=? _); [done|]. destruct (Z.leb_spec deadline (time (now r))); [done|].
  pose proof (Ht r n ltac:(by left)) as Hr.
  destruct (raft_tick _ _ _ _ _ n) as [[n1 es]| | |]; [|done..]. cbn [mbind outcome_bind].
  assert (Hi : wait_applied fresh pad deadline i rounds n1 ≠ Diverge).
  { apply IH; [intros r' n2 ?; apply Ht; by right|]. apply Exists_cons in He as [?|?]; [lia|done]. }
  by destruct (wait_applied fresh pad deadline i rounds n1) as [[[n2 es'] j]| | |].
Qed.

Lemma wait_applied_index deadline i rounds : ∀ n n' es j,
  wait_applied fresh pad deadline i rounds n = Ok (n', es, j) → j ≠ 0 → j = i ∧ i <= last_applied (log n').
Proof.
  induction rounds as [|r rounds IH]; intros n n' es j; cbn [wait_applied];
    (destruct (Z.leb_spec i (last_applied (log n))); [intros [= <- <- <-] _; done|]); [done|].
  destruct (_ <=? _); [by intros [= <- <- <-]|]. intros E.
  apply outcome_bind_ok in E as ([n1 es1] & _ & E). apply outcome_bind_ok in E as ([[n2 es2] j2] & E & [= <- <- <-]).
  by eapply IH.
Qed.

Lemma append_keeps_commit t log srcs disk log' disk' :
  raft_log_append fresh pad t log srcs disk = Ok (log', disk') → commit_index log' = commit_index log.
Proof.
  assert (Hloop : ∀ srcs log next log' next', append_loop t log next srcs = Ok (log', next') →
    commit_index log' = commit_index log).
  { clear. induction srcs as [|src srcs IH]; intros log next log' next'; cbn [append_loop].
    - by intros [= <- <-].
    - intros E. apply outcome_bind_ok in E as (e & _ & E). case_decide; [|done]. by apply IH in E. }
  unfold raft_log_append. destruct srcs as [|src srcs]; [by intros [= <- <-]|]. intros E.
  apply outcome_bind_ok in E as (log1 & E1 & E). apply outcome_bind_ok in E as ([log2 next] & E2 & E).
  apply outcome_bind_ok in E as (d & _ & [= <- <-]). apply Hloop in E2. cbn. rewrite E2.
  unfold raft_log_ensure_capacity in E1. destruct (_ <=? _); [by injection E1 as <-|].
  by apply outcome_bind_ok in E1 as (cap & _ & [= <-]).
Qed.

(** A leader that was just elected gives out the index it knew as a follower, whatever its
    predecessor has committed since. *)
Lemma fresh_leader_reads_old_index ck n n' n'' calls i :
  raft_become_leader fresh pad ck n = Ok n' → leader_read_index calls n' = Ok (n'', i) →
  i = 0 ∨ i = commit_index (log n).
Proof.
  intros Hl E. unfold raft_become_leader in Hl. apply outcome_bind_ok in Hl as ([l d] & Ea & [= <-]).
  apply append_keeps_commit in Ea. cbn [log set_peers raft_initialize_leader_state set_leader set_role set_stats] in Ea.
  unfold leader_read_index in E. destruct (_ =? 0).
  - injection E as _ <-. right. exact Ea.
  - apply outcome_bind_ok in E as ([n1 [a|]] & _ & [= _ <-]); [|by left].
    destruct (_ <=? _); [right; exact Ea|by left].
Qed.
End reads.

(** ** A tick that wins an election *)

Definition second_votes : Calls (Z * bool) := λ k,
  (later, match k with 0%nat => Answered (rvr_term ballot.2, vote_granted ballot.2) | _ => QueryFailed end).
Definition nobody_follows : Calls (Z * bool * Z) := λ _, (later, NoConnection).
Definition ticked : RaftNode * list RaftLogEntry :=
  match raft_tick zero_entry zero_pad later second_votes nobody_follows (fresh_node 1) with
  | Ok r => r
  | _ => (fresh_node 1, [])
  end.

Notation others1 := (others zero_entry zero_pad sample_members 1).
Lemma others_refl c : others1 c c.
Proof. done. Qed.

Lemma tick_refines_witness :
  is_leader ticked.1 = true ∧
  ∃ c', rtc (step zero_entry zero_pad sample_members) start_cluster c' ∧
    reachable zero_entry zero_pad sample_members c' ∧ nodes c' !! 1 = Some ticked.1 ∧ frames c' !! 1 = None.
Proof.
  split; [vm_compute; reflexivity|].
  eapply (tick_refines zero_entry zero_pad sample_members 1 later second_votes nobody_follows (fresh_node 1)
           start_cluster _ ticked.1 ticked.2).
  - exists start_cluster. split; [apply start_initial|apply rtc_refl].
  - vm_compute; reflexivity.
  - reflexivity.
  - by decide_now.
  - assert (Hp : length (peers (fresh_node 1)) = 2%nat) by evaluate.
    assert (Hs : state (fresh_node 1) = RAFT_STATE_FOLLOWER) by evaluate.
    assert (Hr : running (fresh_node 1) = true) by evaluate.
    assert (Ht : election_timeout (fresh_node 1) <=? time later = true) by evaluate.
    unfold during. rewrite Hs, Hp, Hr, Ht. cbn [negb]. exists campaign.1, campaign.2. eexists.
    split; [evaluate|]. split.
    + eapply (asks_call _ _ _ _ _ _ 0 [1%nat] campaign.1 (peer_at campaign.1 0) ballot.2 false counted false);
        [evaluate|evaluate|evaluate| |evaluate|discriminate|intros _].
      * split; [split; [apply rtc_once|]|].
        -- eapply (step_receive_vote _ _ _ _ 2 (fresh_node 2) campaign.2 later ballot.1 ballot.2);
             [evaluate|evaluate|by left|evaluate].
        -- split; evaluate.
        -- by left.
      * eapply (asks_call _ _ _ _ _ _ 1 [] counted (peer_at counted 1) (failed_vote 3) true alone false);
          [evaluate|evaluate|evaluate|apply others_refl|evaluate|discriminate|intros _]. apply asks_nil.
    + assert (El : election_loop second_votes (seq 0 2) campaign.1 = (alone, false)) by evaluate. rewrite El.
      assert (Hw : Raft.election_won alone = true) by evaluate. rewrite Hw. cbn [negb andb].
      exists winner. split; [evaluate|].
      eapply (appends_call _ _ _ _ _ 0 [1%nat] winner (peer_at winner 0)); [evaluate|evaluate|evaluate|evaluate|apply others_refl|evaluate|discriminate|intros _].
      eapply (appends_skip _ _ _ _ _ 1 [] _ (peer_at winner 1)); [evaluate|evaluate|apply appends_nil].
  - vm_compute; reflexivity.
Defined.
