(* ===== verification/RaftTx.v ===== *)
(** * Transactions over Raft

    [consensus/raft_integration.c]: the state that backends share, the table of the
    transactions that were submitted, and what an applied entry does to it. *)
From stdpp Require Import gmap.
From S2P Require Import Prelude CText RaftLog Raft RaftCluster RaftRpc.

Local Open Scope Z_scope.

(** ** State *)

Record RaftSharedState := {
  my_node_id : Z; current_leader_id : Z; shared_term : Z; current_state : RaftState;
  cluster_size : Z; shared_quorum_size : Z; worker_pid : Z; is_initialized : bool; is_running : bool;
  commands_submitted : Z; commands_committed : Z; elections_held : Z; pending_commands : Z;
  last_committed_index : Z }.

Inductive RaftTransactionStatus :=
| RAFT_TXN_UNKNOWN | RAFT_TXN_PENDING | RAFT_TXN_PREPARED | RAFT_TXN_COMMITTED | RAFT_TXN_ABORTED.

#[export] Instance transaction_status_eq_dec : EqDecision RaftTransactionStatus.
Proof. solve_decision. Defined.

Record RaftTransactionEntry := {
  log_index : Z; tx_term : Z; status : RaftTransactionStatus; submitted_at : Z; committed_at : Z;
  tx_command_size : Z; tx_command_hash : Z }.

(** The tables of a process: the node, in the worker only, the transactions, by the first 64
    bytes of their id, and the calls of the registered callback.  Every process that runs the
    library has the shared state. *)
Record TxState := {
  raft_shared_state : option RaftSharedState;
  local_raft_node : option RaftNode;
  transaction_tracker : option (gmap (list Z) RaftTransactionEntry);
  has_callback : bool;
  called : list (list Z * list Z) }.

Definition with_shared (f : RaftSharedState → RaftSharedState) (s : TxState) : TxState :=
  {| raft_shared_state := f <$> raft_shared_state s; local_raft_node := local_raft_node s;
     transaction_tracker := transaction_tracker s; has_callback := has_callback s; called := called s |}.
Definition with_node (n : RaftNode) (s : TxState) : TxState :=
  {| raft_shared_state := raft_shared_state s; local_raft_node := Some n;
     transaction_tracker := transaction_tracker s; has_callback := has_callback s; called := called s |}.
Definition with_tracker (t : option (gmap (list Z) RaftTransactionEntry)) (s : TxState) : TxState :=
  {| raft_shared_state := raft_shared_state s; local_raft_node := local_raft_node s;
     transaction_tracker := t; has_callback := has_callback s; called := called s |}.
Definition with_call (c : list Z * list Z) (s : TxState) : TxState :=
  {| raft_shared_state := raft_shared_state s; local_raft_node := local_raft_node s;
     transaction_tracker := transaction_tracker s; has_callback := has_callback s; called := called s ++ [c] |}.

Definition orochi_raft_shmem_init (node_id : Z) (found : option RaftSharedState) : RaftSharedState :=
  match found with
  | Some s => s
  | None =>
      {| my_node_id := node_id; current_leader_id := -1; shared_term := 0; current_state := RAFT_STATE_FOLLOWER;
         cluster_size := 1; shared_quorum_size := 1; worker_pid := 0; is_initialized := false;
         is_running := false; commands_submitted := 0; commands_committed := 0; elections_held := 0;
         pending_commands := 0; last_committed_index := 0 |}
  end.

Definition raft_update_shared_state (n : RaftNode) (s : RaftSharedState) : RaftSharedState :=
  {| my_node_id := my_node_id s; current_leader_id := leader_id n; shared_term := current_term n;
     current_state := state n; cluster_size := i32 (len (peers n) + 1); shared_quorum_size := quorum_size n;
     worker_pid := worker_pid s; is_initialized := is_initialized s; is_running := is_running s;
     commands_submitted := commands_submitted s; commands_committed := commands_committed s;
     elections_held := elections_started n; pending_commands := pending_commands s;
     last_committed_index := commit_index (log n) |}.

Definition set_worker (pid : Z) (initialized runs : bool) (s : RaftSharedState) : RaftSharedState :=
  {| my_node_id := my_node_id s; current_leader_id := current_leader_id s; shared_term := shared_term s;
     current_state := current_state s; cluster_size := cluster_size s;
     shared_quorum_size := shared_quorum_size s; worker_pid := pid; is_initialized := initialized;
     is_running := runs; commands_submitted := commands_submitted s;
     commands_committed := commands_committed s; elections_held := elections_held s;
     pending_commands := pending_commands s; last_committed_index := last_committed_index s |}.
Definition set_counts (submitted committed pending last : Z) (s : RaftSharedState) : RaftSharedState :=
  {| my_node_id := my_node_id s; current_leader_id := current_leader_id s; shared_term := shared_term s;
     current_state := current_state s; cluster_size := cluster_size s;
     shared_quorum_size := shared_quorum_size s; worker_pid := worker_pid s;
     is_initialized := is_initialized s; is_running := is_running s; commands_submitted := submitted;
     commands_committed := committed; elections_held := elections_held s; pending_commands := pending;
     last_committed_index := last |}.
Definition set_my_node (id : Z) (s : RaftSharedState) : RaftSharedState :=
  {| my_node_id := id; current_leader_id := current_leader_id s; shared_term := shared_term s;
     current_state := current_state s; cluster_size := cluster_size s;
     shared_quorum_size := shared_quorum_size s; worker_pid := worker_pid s;
     is_initialized := is_initialized s; is_running := is_running s;
     commands_submitted := commands_submitted s; commands_committed := commands_committed s;
     elections_held := elections_held s; pending_commands := pending_commands s;
     last_committed_index := last_committed_index s |}.

(** ** What backends ask *)

Definition orochi_raft_is_leader (s : TxState) : bool :=
  match raft_shared_state s with Some h => bool_decide (current_state h = RAFT_STATE_LEADER) | None => false end.
Definition orochi_raft_get_leader (s : TxState) : Z :=
  match raft_shared_state s with Some h => current_leader_id h | None => -1 end.
Definition orochi_raft_get_term (s : TxState) : Z :=
  match raft_shared_state s with Some h => shared_term h | None => 0 end.
Definition raft_state_name (st : RaftState) : text :=
  match st with
  | RAFT_STATE_FOLLOWER => str "follower" | RAFT_STATE_CANDIDATE => str "candidate"
  | RAFT_STATE_LEADER => str "leader"
  end.
Definition orochi_raft_get_state_name (s : TxState) : text :=
  match raft_shared_state s with Some h => raft_state_name (current_state h) | None => str "not initialized" end.

(** ** The table of transactions *)

Definition key (gid : list Z) : list Z := take 64 gid.

Definition command_hash (data : option (list Z)) (size : Z) : Z :=
  match data with
  | Some d => if size <=? 0 then 0 else
      foldl (λ h b, u32 (u32 (u32 (Z.shiftl h 5) + h) + b)) 5381 (take (Z.to_nat size) d)
  | None => 0
  end.

Definition is_done (st : RaftTransactionStatus) : bool :=
  match st with RAFT_TXN_COMMITTED | RAFT_TXN_ABORTED => true | _ => false end.

(** Transactions that were done five minutes ago are forgotten. *)
Definition is_old (now : Z) (e : RaftTransactionEntry) : bool :=
  is_done (status e) && negb (committed_at e =? 0) && (committed_at e <? i64 (now - 5 * 60 * 1000000)).
Definition transaction_tracker_remove_old (now : Z) (t : gmap (list Z) RaftTransactionEntry)
    : gmap (list Z) RaftTransactionEntry := filter (λ x, is_old now x.2 = false) t.

(** A transaction that is submitted again keeps the size and the hash of its first command. *)
Definition transaction_tracker_add (now : Z) (gid : list Z) (idx term : Z) (command : list Z)
    (t : option (gmap (list Z) RaftTransactionEntry)) : gmap (list Z) RaftTransactionEntry :=
  let t := transaction_tracker_remove_old now (default ∅ t) in
  match t !! key gid with
  | None =>
      <[key gid := {| log_index := idx; tx_term := term; status := RAFT_TXN_PENDING; submitted_at := now;
                      committed_at := 0; tx_command_size := len command;
                      tx_command_hash := command_hash (Some command) (len command) |}]> t
  | Some e =>
      <[key gid := {| log_index := idx; tx_term := term; status := RAFT_TXN_PENDING; submitted_at := now;
                      committed_at := committed_at e; tx_command_size := tx_command_size e;
                      tx_command_hash := tx_command_hash e |}]> t
  end.

Definition transaction_tracker_find (gid : list Z) (s : TxState) : option RaftTransactionEntry :=
  t ← transaction_tracker s; t !! key gid.

Definition set_status (now : Z) (st : RaftTransactionStatus) (e : RaftTransactionEntry) : RaftTransactionEntry :=
  {| log_index := log_index e; tx_term := tx_term e; status := st; submitted_at := submitted_at e;
     committed_at := if is_done st then now else committed_at e;
     tx_command_size := tx_command_size e; tx_command_hash := tx_command_hash e |}.
Definition transaction_tracker_update_status (now : Z) (gid : list Z) (st : RaftTransactionStatus)
    (s : TxState) : TxState :=
  with_tracker (alter (set_status now st) (key gid) <$> transaction_tracker s) s.

(** Whether the log has the command at its place; the table learns what was found. *)
Definition transaction_tracker_verify_commit (now : Z) (gid : list Z) (n : RaftNode) (s : TxState)
    : outcome (bool * TxState) :=
  match transaction_tracker_find gid s with
  | None => Ok (false, s)
  | Some e =>
      if bool_decide (status e = RAFT_TXN_COMMITTED) then Ok (true, s)
      else if commit_index (log n) <? log_index e then Ok (false, s) else
      entry ← raft_log_get (log n) (log_index e);
      match entry with
      | None => Ok (false, s)
      | Some l =>
          if negb (term l =? tx_term e)
          then Ok (false, transaction_tracker_update_status now gid RAFT_TXN_ABORTED s)
          else if negb (command_hash (command_data l) (command_size l) =? tx_command_hash e) ||
                  negb (command_size l =? tx_command_size e)
          then Ok (false, transaction_tracker_update_status now gid RAFT_TXN_ABORTED s)
          else Ok (true, transaction_tracker_update_status now gid RAFT_TXN_COMMITTED s)
      end
  end.

(** ** Applied entries *)

(** The bytes up to a zero, 64 at most. *)
Fixpoint until_zero (fuel : nat) (bytes : list Z) : list Z :=
  match fuel, bytes with
  | S fuel, c :: bytes => if c =? 0 then [] else c :: until_zero fuel bytes
  | _, _ => []
  end.

(** [strncmp] with the beginning of a command; behind its bytes there is no telling. *)
Fixpoint starts_with (p bytes : list Z) : outcome bool :=
  match p, bytes with
  | [], _ => Ok true
  | _, [] => Undef
  | a :: p, b :: bytes => if a =? b then starts_with p bytes else Ok false
  end.

Definition status_of_command (d : list Z) : outcome RaftTransactionStatus :=
  c ← starts_with (bytes_of (str "COMMIT:")) d;
  if (c : bool) then Ok RAFT_TXN_COMMITTED else
  a ← starts_with (bytes_of (str "ABORT:")) d;
  if (a : bool) then Ok RAFT_TXN_ABORTED else
  p ← starts_with (bytes_of (str "PREPARE:")) d;
  Ok (if (p : bool) then RAFT_TXN_PREPARED else RAFT_TXN_COMMITTED).

Definition raft_apply_entry_callback (now : Z) (e : RaftLogEntry) (s : TxState) : outcome TxState :=
  let s := with_shared (λ h, set_counts (commands_submitted h) (u64 (commands_committed h + 1))
             (if 0 <? pending_commands h then pending_commands h - 1 else pending_commands h) (index e) h) s in
  match command_data e with
  | Some d =>
      if 0 <? command_size e then
        let gid := until_zero 64 (take (Z.to_nat (command_size e)) d) in
        st ← status_of_command d;
        let s := transaction_tracker_update_status now gid st s in
        Ok (if has_callback s then with_call (gid, d) s else s)
      else Ok s
  | None => Ok s
  end.

Fixpoint apply_entries (now : Z) (es : list RaftLogEntry) (s : TxState) : outcome TxState :=
  match es with
  | [] => Ok s
  | e :: es => s ← raft_apply_entry_callback now e s; apply_entries now es s
  end.

Section transactions.
Context (fresh : RaftLogEntry) (pad : list Z).

(** A round of the worker. *)
Definition orochi_raft_worker_main (ck : Clock) (votes : Calls (Z * bool)) (answers : Calls (Z * bool * Z))
    (s : TxState) : outcome TxState :=
  match local_raft_node s with
  | None => Ok s
  | Some n =>
      '(n, es) ← raft_tick fresh pad ck votes answers n;
      s ← apply_entries (time ck) es (with_node n s);
      Ok (with_shared (raft_update_shared_state n) s)
  end.

(** ** Submitting *)

Definition orochi_raft_submit_transaction (ck : Clock) (answers : Calls (Z * bool * Z)) (gid command : list Z)
    (s : TxState) : outcome (bool * TxState) :=
  if negb (orochi_raft_is_leader s) then Ok (false, s) else
  match local_raft_node s with
  | None => Ok (false, s)
  | Some n =>
      let full := gid ++ 0 :: command in
      '(n, idx) ← submit_command fresh pad ck answers n full;
      let s := with_node n s in
      if idx =? 0 then Ok (false, s) else
      let s := with_tracker (Some (transaction_tracker_add (time ck) gid idx (current_term n) full
                                     (transaction_tracker s))) s in
      Ok (true, with_shared (λ h, set_counts (u64 (commands_submitted h + 1)) (commands_committed h)
                                    (i32 (pending_commands h + 1)) (last_committed_index h) h) s)
  end.

Definition prepare_command (gid : list Z) (shard_ids : list Z) : list Z :=
  bytes_of (str "PREPARE:") ++ gid ++ bytes_of (str ":") ++
  mjoin ((λ id, bytes_of (print id ++ str ",")) <$> shard_ids).
Definition orochi_raft_prepare_transaction (ck : Clock) (answers : Calls (Z * bool * Z)) (gid : list Z)
    (shard_ids : list Z) : TxState → outcome (bool * TxState) :=
  orochi_raft_submit_transaction ck answers gid (prepare_command gid (i32 <$> shard_ids)).
Definition orochi_raft_commit_transaction (ck : Clock) (answers : Calls (Z * bool * Z)) (gid : list Z)
    : TxState → outcome (bool * TxState) :=
  orochi_raft_submit_transaction ck answers gid (bytes_of (str "COMMIT:") ++ gid).
Definition orochi_raft_abort_transaction (ck : Clock) (answers : Calls (Z * bool * Z)) (gid : list Z)
    : TxState → outcome (bool * TxState) :=
  orochi_raft_submit_transaction ck answers gid (bytes_of (str "ABORT:") ++ gid).

(** ** Waiting *)

(** Rounds of waiting, with the time and the commit index that is found in shared memory. *)
Fixpoint wait_for_commit (deadline : Z) (gid : list Z) (polls : list (Z * Z)) (s : TxState)
    : outcome (bool * TxState) :=
  match polls with
  | [] => Diverge
  | (now, current_committed) :: polls =>
      if deadline <=? now then Ok (false, s) else
      match transaction_tracker_find gid s with
      | None => Undef
      | Some e =>
          if log_index e <=? current_committed then
            match local_raft_node s with
            | None => Ok (true, transaction_tracker_update_status now gid RAFT_TXN_COMMITTED s)
            | Some n =>
                '(ok, s) ← transaction_tracker_verify_commit now gid n s;
                if (ok : bool) then Ok (true, s) else
                match transaction_tracker_find gid s with
                | Some e => if bool_decide (status e = RAFT_TXN_ABORTED) then Ok (false, s)
                            else wait_for_commit deadline gid polls s
                | None => wait_for_commit deadline gid polls s
                end
            end
          else wait_for_commit deadline gid polls s
      end
  end.

Definition orochi_raft_wait_for_commit (now : Z) (gid : list Z) (timeout_ms : Z) (polls : list (Z * Z))
    (s : TxState) : outcome (bool * TxState) :=
  match raft_shared_state s with
  | None => Ok (false, s)
  | Some _ =>
      match transaction_tracker_find gid s with
      | None => Ok (false, s)
      | Some e =>
          if bool_decide (status e = RAFT_TXN_COMMITTED) then Ok (true, s)
          else if bool_decide (status e = RAFT_TXN_ABORTED) then Ok (false, s)
          else wait_for_commit (now + timeout_ms * 1000) gid polls s
      end
  end.

Definition orochi_raft_get_transaction_status (now : Z) (gid : list Z) (s : TxState)
    : outcome (RaftTransactionStatus * TxState) :=
  match transaction_tracker_find gid s with
  | None => Ok (RAFT_TXN_UNKNOWN, s)
  | Some e =>
      match status e, local_raft_node s, raft_shared_state s with
      | RAFT_TXN_PENDING, Some n, None => Undef
      | RAFT_TXN_PENDING, Some n, Some h =>
          if log_index e <=? last_committed_index h then
            '(ok, s) ← transaction_tracker_verify_commit now gid n s;
            Ok (match transaction_tracker_find gid s with
                | Some e => status e
                | None => if (ok : bool) then RAFT_TXN_COMMITTED else status e
                end, s)
          else Ok (status e, s)
      | st, _, _ => Ok (st, s)
      end
  end.

(** ** Members *)

Definition orochi_raft_register_node (id : Z) (s : TxState) : TxState := with_shared (set_my_node id) s.
Definition orochi_raft_add_cluster_node (id : Z) (s : TxState) : outcome TxState :=
  match local_raft_node s with
  | None => Ok s
  | Some n => n ← raft_add_peer n id; Ok (with_shared (raft_update_shared_state n) (with_node n s))
  end.
Definition orochi_raft_remove_cluster_node (id : Z) (s : TxState) : TxState :=
  match local_raft_node s with
  | None => s
  | Some n => let n := raft_remove_peer n id in with_shared (raft_update_shared_state n) (with_node n s)
  end.

End transactions.

(** ** Finding and updating *)

Lemma find_update now gid st s e :
  transaction_tracker_find gid s = Some e →
  transaction_tracker_find gid (transaction_tracker_update_status now gid st s) = Some (set_status now st e).
Proof.
  unfold transaction_tracker_find, transaction_tracker_update_status. cbn.
  destruct (transaction_tracker s) as [t|]; [|done]. cbn. intros E. by rewrite lookup_alter_eq, E.
Qed.

Lemma find_shared gid f s : transaction_tracker_find gid (with_shared f s) = transaction_tracker_find gid s.
Proof. done. Qed.

(** A transaction that is found committed is in the log, below the commit index, at the
    index and in the term in which it was submitted, with a command of the same size and
    hash. *)
Theorem verified_commit_in_log now gid n s s' e :
  transaction_tracker_find gid s = Some e → status e ≠ RAFT_TXN_COMMITTED →
  transaction_tracker_verify_commit now gid n s = Ok (true, s') →
  log_index e <= commit_index (log n) ∧
  (∃ l, raft_log_get (log n) (log_index e) = Ok (Some l) ∧ term l = tx_term e ∧
     command_size l = tx_command_size e ∧ command_hash (command_data l) (command_size l) = tx_command_hash e) ∧
  transaction_tracker_find gid s' = Some (set_status now RAFT_TXN_COMMITTED e).
Proof.
  intros He Hst. unfold transaction_tracker_verify_commit. rewrite He, bool_decide_eq_false_2 by done.
  destruct (Z.ltb_spec (commit_index (log n)) (log_index e)) as [|Hc]; [done|]. intros E.
  apply outcome_bind_ok in E as ([l|] & Hl & E); [|done].
  destruct (negb (term l =? tx_term e)) eqn:Et; [done|].
  destruct (negb (command_hash _ _ =? _) || negb (command_size l =? _)) eqn:Eh; [done|].
  injection E as <-. split; [lia|]. split; [exists l; split; [done|]; lia|]. by apply find_update.
Qed.

(** ** What an applied command says *)

Lemma starts_with_zero p gid rest :
  Forall (λ c, c ≠ 0) p → starts_with p (gid ++ 0 :: rest) = Ok (bool_decide (p `prefix_of` gid)).
Proof.
  intros Hp. revert gid. induction Hp as [|a p Ha Hp IH]; intros gid.
  { cbn. rewrite bool_decide_eq_true_2; [done|]. apply prefix_nil. }
  destruct gid as [|g gid]; cbn [app starts_with].
  - rewrite (proj2 (Z.eqb_neq a 0)) by done. rewrite bool_decide_eq_false_2; [done|].
    intros [k [=]].
  - destruct (Z.eqb_spec a g) as [->|Hne].
    + rewrite IH. f_equal. apply bool_decide_ext. split; [apply prefix_cons|apply prefix_cons_inv_2].
    + rewrite bool_decide_eq_false_2; [done|]. intros H. by apply prefix_cons_inv_1 in H.
Qed.

Lemma until_zero_gid fuel gid rest :
  Forall (λ c, c ≠ 0) gid → (length gid <= fuel)%nat → until_zero fuel (gid ++ 0 :: rest) = gid.
Proof.
  intros Hg. revert fuel. induction Hg as [|c gid Hc _ IH]; intros fuel Hf; [by destruct fuel|].
  destruct fuel as [|fuel]; [cbn in Hf; lia|]. cbn [app until_zero].
  rewrite (proj2 (Z.eqb_neq c 0)) by done. f_equal. apply IH. cbn in Hf. lia.
Qed.

(** An id as clients choose it: no zero byte, 64 at most, none of the words of a command. *)
Definition plain_gid (gid : list Z) : Prop :=
  Forall (λ c, c ≠ 0) gid ∧ (length gid <= 64)%nat ∧
  ¬ bytes_of (str "COMMIT:") `prefix_of` gid ∧ ¬ bytes_of (str "ABORT:") `prefix_of` gid ∧
  ¬ bytes_of (str "PREPARE:") `prefix_of` gid.

Lemma word_has_no_zero w : w ∈ ["COMMIT:"; "ABORT:"; "PREPARE:"] → Forall (λ c, c ≠ 0) (bytes_of (str w)).
Proof.
  intros H. rewrite !elem_of_cons in H.
  destruct H as [->|[->|[->|H]]]; [decide_now..|by apply not_elem_of_nil in H].
Qed.

Lemma plain_status gid command : plain_gid gid → status_of_command (gid ++ 0 :: command) = Ok RAFT_TXN_COMMITTED.
Proof.
  intros (Hz & Hlen & Hc & Ha & Hp). unfold status_of_command.
  rewrite !starts_with_zero by (apply word_has_no_zero; set_solver).
  rewrite !bool_decide_eq_false_2 by done. done.
Qed.

(** Whatever the command of a transaction is, to prepare, to commit or to abort it, the
    transaction is recorded as committed when its entry is applied: the word is looked for at
    the beginning of the entry, where the id of the transaction is. *)
Theorem applied_is_committed now gid command entry s e :
  plain_gid gid → command_data entry = Some (gid ++ 0 :: command) →
  command_size entry = len (gid ++ 0 :: command) → transaction_tracker_find gid s = Some e →
  ∃ s', raft_apply_entry_callback now entry s = Ok s' ∧
        transaction_tracker_find gid s' = Some (set_status now RAFT_TXN_COMMITTED e).
Proof.
  intros Hg Hd Hsz He. unfold raft_apply_entry_callback. rewrite Hd, Hsz.
  rewrite (proj2 (Z.ltb_lt _ _)) by (rewrite length_app; cbn [length]; lia).
  rewrite Nat2Z.id, firstn_all, plain_status by done. cbn [mbind outcome_bind].
  destruct Hg as (Hz & Hlen & _). rewrite until_zero_gid by (done || lia).
  eexists. split; [done|]. case_match; by apply find_update.
Qed.

(** ** What a submission leaves in the log *)

Section submitting.
Context (fresh : RaftLogEntry) (pad : list Z).

Lemma replicate_loop_log calls ks : ∀ n n' stop,
  replicate_loop calls ks n = Ok (n', stop) → log n' = log n.
Proof.
  induction ks as [|k ks IH]; intros n n' stop; cbn [replicate_loop]; [by intros [= <- <-]|].
  destruct (peers n !! k) as [p|]; [|by intros [= <- <-]]. destruct (is_active p); cbn [negb]; [|apply IH].
  destruct (calls k) as [ck call]. intros E. apply outcome_bind_ok in E as (req & _ & E).
  apply outcome_bind_ok in E as ([r b] & _ & E). unfold replicate_response in E. cbn [current_term set_stats] in E.
  destruct (_ <? _).
  - injection E as <- <-. by destruct b.
  - apply IH in E. rewrite E. by destruct b.
Qed.

Lemma replicate_get calls n n' i :
  raft_replicate calls n = Ok n' →
  raft_log_get (log n') i = raft_log_get (log n) i ∧ last_index (log n') = last_index (log n).
Proof.
  unfold raft_replicate. destruct (negb _); [by intros [= <-]|]. intros E.
  apply outcome_bind_ok in E as ([n1 stop] & E1 & E). apply replicate_loop_log in E1.
  destruct stop; [injection E as <-; by rewrite E1|]. unfold raft_update_commit_index in E.
  destruct (negb _); [injection E as <-; by rewrite E1|].
  apply outcome_bind_ok in E as (c & _ & [= <-]). destruct c; cbn; rewrite E1; done.
Qed.

(** The entry of a command that was taken. *)
Lemma submit_stored ck calls n command n' idx :
  wf (log n) → is_leader n = true → command ≠ [] →
  op_ok (log n) (OpAppend (time ck) [command_entry ck (current_term n) command]) →
  submit_command fresh pad ck calls n command = Ok (n', idx) →
  ∃ l, raft_log_get (log n') idx = Ok (Some l) ∧ idx = last_index (log n') ∧
       command_data l = Some command ∧ command_size l = len command ∧ term l = current_term n.
Proof.
  intros Hwf Hl Hc Hop E. unfold submit_command in E. rewrite Hl in E. cbn [negb] in E.
  apply outcome_bind_ok in E as ([n1 j] & E1 & E). apply outcome_bind_ok in E as (n2 & E2 & [= <- <-]).
  unfold raft_submit_command in E1. rewrite Hl in E1. cbn [negb] in E1.
  destruct (append_ok fresh pad (time ck) (log n) _ (disk n) Hwf Hop) as (l' & El & Hwf' & Habs & _ & Hfirst).
  rewrite El in E1. injection E1 as <- _.
  destruct (replicate_get calls _ _ (last_index (log n2)) E2) as [Hget Hlast].
  cbn [log set_log] in Hget, Hlast. rewrite Hlast in *. rewrite Hget.
  pose proof (contents_length _ Hwf) as Hlen. pose proof (contents_length _ Hwf') as Hlen'.
  assert (Hitems : contents l' = contents (log n) ++
    stamp_all (time ck) (spec_last (abs (log n)) + 1) [command_entry ck (current_term n) command]).
  { change (contents l') with (items (abs l')). by rewrite Habs. }
  rewrite Hitems, length_app in Hlen'. cbn [stamp_all length] in Hlen'. unfold count in Hlen, Hlen'.
  rewrite get_spec by (done || (pose proof (wf_last _ Hwf'); pose proof (wf_first _ Hwf'); unfold in_u; lia)).
  unfold spec_get. cbn [abs base items]. rewrite Hitems.
  rewrite decide_True by lia. rewrite lookup_app_r by lia.
  replace (Z.to_nat (last_index l' - (first_index l' - 1) - 1) - length (contents (log n)))%nat with 0%nat by lia.
  eexists. split; [reflexivity|]. split; [done|]. unfold stamp, command_entry. cbn.
  rewrite Nat2Z.id, firstn_all. by destruct command.
Qed.

(** What the submission of a new transaction, and of one that is there, tracks. *)
Lemma submit_tracked ck calls gid command s s' :
  orochi_raft_submit_transaction fresh pad ck calls gid command s = Ok (true, s') →
  ∃ n n' idx, local_raft_node s = Some n ∧ local_raft_node s' = Some n' ∧
    submit_command fresh pad ck calls n (gid ++ 0 :: command) = Ok (n', idx) ∧ idx ≠ 0 ∧
    transaction_tracker s' = Some (transaction_tracker_add (time ck) gid idx (current_term n')
      (gid ++ 0 :: command) (transaction_tracker s)).
Proof.
  unfold orochi_raft_submit_transaction. destruct (negb _); [done|].
  destruct (local_raft_node s) as [n|]; [|done]. intros E. apply outcome_bind_ok in E as ([n' idx] & E1 & E).
  destruct (Z.eqb_spec idx 0) as [|Hi]; [done|]. injection E as <-. by exists n, n', idx.
Qed.

Lemma submit_leads ck calls n command n' idx :
  submit_command fresh pad ck calls n command = Ok (n', idx) → idx ≠ 0 → is_leader n = true.
Proof. unfold submit_command. by destruct (is_leader n); [|intros [= _ <-]]. Qed.

(** A transaction that is not finished is tracked on with the size of its first command. *)
Lemma add_keeps_size now gid idx term command t e :
  t !! key gid = Some e → is_done (status e) = false →
  transaction_tracker_add now gid idx term command (Some t) !! key gid =
    Some {| log_index := idx; tx_term := term; status := RAFT_TXN_PENDING; submitted_at := now;
            committed_at := committed_at e; tx_command_size := tx_command_size e;
            tx_command_hash := tx_command_hash e |}.
Proof.
  intros He Hd. unfold transaction_tracker_add. cbn [default].
  assert (Hk : transaction_tracker_remove_old now t !! key gid = Some e).
  { apply map_lookup_filter_Some. split; [done|]. cbn. unfold is_old. by rewrite Hd. }
  cbn in *. rewrite Hk. apply lookup_insert_eq.
Qed.

End submitting.

(** A transaction that was prepared and then committed is found aborted when the entry
    of its commit is verified in the log: the table keeps the size and the hash of the
    prepare command, and the commit command is shorter. *)
Theorem commit_verified_as_aborted fresh pad ck1 ck2 calls1 calls2 gid shard_ids now s s1 s2 n1 n2 :
  transaction_tracker_find gid s = None →
  orochi_raft_prepare_transaction fresh pad ck1 calls1 gid shard_ids s = Ok (true, s1) →
  orochi_raft_commit_transaction fresh pad ck2 calls2 gid s1 = Ok (true, s2) →
  local_raft_node s1 = Some n1 → local_raft_node s2 = Some n2 → wf (log n1) →
  op_ok (log n1) (OpAppend (time ck2) [command_entry ck2 (current_term n1) (gid ++ 0 :: bytes_of (str "COMMIT:") ++ gid)]) →
  last_index (log n2) <= commit_index (log n2) →
  ∃ s3 e, transaction_tracker_verify_commit now gid n2 s2 = Ok (false, s3) ∧
    transaction_tracker_find gid s3 = Some e ∧ status e = RAFT_TXN_ABORTED.
Proof.
  intros Hnew Hp Hc Hn1 Hn2 Hwf Hop Hcommit.
  apply submit_tracked in Hp as (n0 & n1' & idx1 & _ & E1 & _ & _ & Ht1).
  apply submit_tracked in Hc as (n1'' & n2' & idx2 & E1' & E2 & Hs & Hi & Ht2).
  assert (n1' = n1) as -> by congruence. assert (n1'' = n1) as -> by congruence.
  assert (n2' = n2) as -> by congruence. clear E1 E1' E2.
  set (prepared := gid ++ 0 :: prepare_command gid (i32 <$> shard_ids)) in *.
  set (commit := gid ++ 0 :: bytes_of (str "COMMIT:") ++ gid) in *.
  destruct (submit_stored fresh pad ck2 calls2 n1 commit n2 idx2) as (l & Hl & Hidx & Hd & Hsz & Hterm);
    [done|by eapply submit_leads|by destruct gid|done|done|].
  assert (Htr : transaction_tracker s1 = Some (default ∅ (transaction_tracker s1))) by (by rewrite Ht1).
  set (t1 := default ∅ (transaction_tracker s1)) in *.
  assert (He : ∃ e, t1 !! key gid = Some e ∧ status e = RAFT_TXN_PENDING ∧ tx_command_size e = len prepared).
  { subst t1. rewrite Ht1. cbn [default]. unfold transaction_tracker_add.
    assert (Hk : transaction_tracker_remove_old (time ck1) (default ∅ (transaction_tracker s)) !! key gid = None).
    { apply map_lookup_filter_None. left. unfold transaction_tracker_find in Hnew.
      destruct (transaction_tracker s); [exact Hnew|apply lookup_empty]. }
    cbn in *. rewrite Hk. eexists. split; [apply lookup_insert_eq|done]. }
  destruct He as (e & He & Hst & Hsize). rewrite Htr in Ht2.
  pose proof (add_keeps_size (time ck2) gid idx2 (current_term n2) commit t1 e He) as Ha.
  rewrite Hst in Ha. specialize (Ha eq_refl).
  set (e2 := {| log_index := idx2; tx_term := _; status := _; submitted_at := _; committed_at := _;
                tx_command_size := _; tx_command_hash := _ |}) in Ha.
  assert (Hf : transaction_tracker_find gid s2 = Some e2).
  { unfold transaction_tracker_find. rewrite Ht2. exact Ha. }
  unfold transaction_tracker_verify_commit. rewrite Hf. cbn [status e2]. rewrite bool_decide_eq_false_2 by done.
  cbn [log_index tx_term tx_command_size tx_command_hash e2].
  rewrite (proj2 (Z.ltb_ge _ _)) by lia. rewrite Hl. cbn [mbind outcome_bind].
  assert (Hne : command_size l =? tx_command_size e = false).
  { rewrite Hsz, Hsize. subst prepared commit. unfold prepare_command. rewrite !length_app. cbn [length].
    rewrite !length_app. change (length (bytes_of (str "COMMIT:"))) with 7%nat.
    change (length (bytes_of (str "PREPARE:"))) with 8%nat. generalize (length (mjoin (M := list)
      ((λ id, bytes_of (print id ++ str ",")) <$> (i32 <$> shard_ids)))). intros m. apply Z.eqb_neq. lia. }
  rewrite Hne, orb_true_r.
  assert (Hgoal : ∃ s3 e3, Ok (false, transaction_tracker_update_status now gid RAFT_TXN_ABORTED s2) = Ok (false, s3) ∧
    transaction_tracker_find gid s3 = Some e3 ∧ status e3 = RAFT_TXN_ABORTED).
  { eexists _, _. split; [done|]. split; [by apply find_update|done]. }
  destruct (negb (term l =? _)); exact Hgoal.
Qed.

Lemma log_get_ends l i : raft_log_get l i ≠ Diverge.
Proof. unfold raft_log_get. destruct (_ || _); [done|]. by destruct (entries l !! _). Qed.

Lemma verify_ends now gid n s : transaction_tracker_verify_commit now gid n s ≠ Diverge.
Proof.
  unfold transaction_tracker_verify_commit. destruct (transaction_tracker_find gid s) as [e|]; [|done].
  destruct (bool_decide _); [done|]. destruct (_ <? _); [done|]. pose proof (log_get_ends (log n) (log_index e)) as H.
  destruct (raft_log_get _ _) as [[l|]| | |]; [|done..]. cbn [mbind outcome_bind]. by repeat case_match.
Qed.

(** Waiting ends when its time is over. *)
Lemma wait_for_commit_ends deadline gid polls : ∀ s,
  Exists (λ p, deadline <= p.1) polls → wait_for_commit deadline gid polls s ≠ Diverge.
Proof.
  induction polls as [|[now c] polls IH]; intros s He; [by apply Exists_nil in He|]. cbn [wait_for_commit].
  destruct (Z.leb_spec deadline now); [done|].
  assert (He' : Exists (λ p, deadline <= p.1) polls) by (apply Exists_cons in He as [?|?]; [cbn in *; lia|done]).
  destruct (transaction_tracker_find gid s) as [e|]; [|done]. destruct (_ <=? c); [|by apply IH].
  destruct (local_raft_node s) as [n|]; [|done]. pose proof (verify_ends now gid n s).
  destruct (transaction_tracker_verify_commit now gid n s) as [[ok s']| | |]; [|done..]. cbn [mbind outcome_bind].
  destruct ok; [done|]. destruct (transaction_tracker_find gid s') as [e'|]; [|by apply IH].
  destruct (bool_decide _); [done|by apply IH].
Qed.

(** A backend is not the worker: it has no node, so it can submit nothing and has nothing to
    wait for. *)
Lemma backend_submits_nothing fresh pad ck calls gid command s :
  local_raft_node s = None → orochi_raft_submit_transaction fresh pad ck calls gid command s = Ok (false, s).
Proof. intros Hn. unfold orochi_raft_submit_transaction. rewrite Hn. by destruct (negb _). Qed.

(** ** A transaction of a leader without peers *)

Definition sole_leader : RaftNode :=
  set_quorum (sample_node 1 1 RAFT_STATE_LEADER (raft_log_init true) []) 1.
Definition sole_state : TxState :=
  {| raft_shared_state := Some (raft_update_shared_state sole_leader (orochi_raft_shmem_init 1 None));
     local_raft_node := Some sole_leader; transaction_tracker := None; has_callback := true; called := [] |}.
Definition tx7 : list Z := bytes_of (str "tx7").
Definition no_calls : Calls (Z * bool * Z) := λ _, (clock0, NoConnection).
Definition no_votes : Calls (Z * bool) := λ _, (clock0, NoConnection).
Definition run_or {A} (d : A) (o : outcome (bool * A)) : A := match o with Ok (_, a) => a | _ => d end.
Definition after (s : TxState) (o : outcome TxState) : TxState := match o with Ok s => s | _ => s end.

Definition prepared_state : TxState :=
  run_or sole_state (orochi_raft_prepare_transaction zero_entry zero_pad clock0 no_calls tx7 [3; 4] sole_state).
Definition committed_state : TxState :=
  run_or sole_state (orochi_raft_commit_transaction zero_entry zero_pad clock0 no_calls tx7 prepared_state).
Definition aborted_state : TxState :=
  run_or sole_state (orochi_raft_abort_transaction zero_entry zero_pad clock0 no_calls tx7 prepared_state).

(** The abort is applied by the worker, and the transaction is committed. *)
Lemma abort_commits :
  status <$> transaction_tracker_find tx7 aborted_state = Some RAFT_TXN_PENDING ∧
  status <$> transaction_tracker_find tx7 (after sole_state
    (orochi_raft_worker_main zero_entry zero_pad clock0 no_votes no_calls aborted_state)) = Some RAFT_TXN_COMMITTED.
Proof. split; vm_compute; reflexivity. Qed.

Definition node_of (s : TxState) : RaftNode := default sole_leader (local_raft_node s).
Definition tracked (s : TxState) : RaftTransactionEntry :=
  default {| log_index := 0; tx_term := 0; status := RAFT_TXN_UNKNOWN; submitted_at := 0; committed_at := 0;
             tx_command_size := 0; tx_command_hash := 0 |} (transaction_tracker_find tx7 s).

Lemma tx7_plain : plain_gid tx7.
Proof. unfold plain_gid. repeat split; decide_now. Qed.

Lemma verified_commit_in_log_witness :
  log_index (tracked prepared_state) = 1 ∧
  log_index (tracked prepared_state) <= commit_index (log (node_of prepared_state)) ∧
  (∃ l, raft_log_get (log (node_of prepared_state)) (log_index (tracked prepared_state)) = Ok (Some l) ∧
     term l = tx_term (tracked prepared_state) ∧ command_size l = tx_command_size (tracked prepared_state) ∧
     command_hash (command_data l) (command_size l) = tx_command_hash (tracked prepared_state)) ∧
  transaction_tracker_find tx7 (run_or sole_state (transaction_tracker_verify_commit 0 tx7
    (node_of prepared_state) prepared_state)) = Some (set_status 0 RAFT_TXN_COMMITTED (tracked prepared_state)).
Proof.
  split; [vm_compute; reflexivity|].
  apply (verified_commit_in_log 0 tx7 (node_of prepared_state) prepared_state).
  - vm_compute; reflexivity.
  - by vm_compute.
  - vm_compute; reflexivity.
Defined.

Definition abort_entry : RaftLogEntry := command_entry clock0 1 (tx7 ++ 0 :: bytes_of (str "ABORT:") ++ tx7).

Lemma applied_is_committed_witness :
  ∃ s', raft_apply_entry_callback 0 abort_entry aborted_state = Ok s' ∧
    transaction_tracker_find tx7 s' = Some (set_status 0 RAFT_TXN_COMMITTED (tracked aborted_state)).
Proof.
  apply (applied_is_committed 0 tx7 (bytes_of (str "ABORT:") ++ tx7) abort_entry aborted_state (tracked aborted_state)).
  - exact tx7_plain.
  - reflexivity.
  - reflexivity.
  - vm_compute; reflexivity.
Defined.

Definition prepare_entry : RaftLogEntry := command_entry clock0 1 (tx7 ++ 0 :: prepare_command tx7 [3; 4]).
Definition prepared_log : RaftLog :=
  match raft_log_append zero_entry zero_pad (time clock0) (raft_log_init true) [prepare_entry] empty_disk with
  | Ok (l, _) => l
  | _ => raft_log_init true
  end.

Lemma entry_src_ok command : bytes_ok command → len command < 1000 → src_ok (command_entry clock0 1 command).
Proof.
  intros Hb Hl. split; [decide_now|]. split; [decide_now|]. split; [decide_now|]. cbn.
  unfold MaxAllocSize, in_i. repeat split; try lia. exact Hb.
Qed.

Lemma prepared_log_wf : wf (log (node_of prepared_state)).
Proof.
  destruct (append_ok zero_entry zero_pad (time clock0) (raft_log_init true) [prepare_entry] empty_disk)
    as (l & El & Hwf & _).
  - apply init_wf.
  - split; [decide_now|]. split; [|split; decide_now]. apply Forall_singleton. apply entry_src_ok; decide_now.
  - assert (Hl : l = prepared_log) by (unfold prepared_log; by rewrite El). rewrite Hl in Hwf.
    assert (log (node_of prepared_state) = recover_commit prepared_log 1) as -> by (vm_compute; reflexivity).
    exact (proj1 (recover_commit_wf zero_pad eq_refl prepared_log 1 Hwf)).
Qed.

Lemma commit_verified_as_aborted_witness :
  ∃ s3 e, transaction_tracker_verify_commit 0 tx7 (node_of committed_state) committed_state = Ok (false, s3) ∧
    transaction_tracker_find tx7 s3 = Some e ∧ status e = RAFT_TXN_ABORTED.
Proof.
  apply (commit_verified_as_aborted zero_entry zero_pad clock0 clock0 no_calls no_calls tx7 [3; 4] 0
           sole_state prepared_state committed_state (node_of prepared_state) (node_of committed_state)).
  - reflexivity.
  - vm_compute; reflexivity.
  - vm_compute; reflexivity.
  - vm_compute; reflexivity.
  - vm_compute; reflexivity.
  - exact prepared_log_wf.
  - assert (Ht : current_term (node_of prepared_state) = 1) by (vm_compute; reflexivity). rewrite Ht.
    split; [decide_now|]. split; [|split; decide_now]. apply Forall_singleton. apply entry_src_ok; decide_now.
  - by vm_compute.
Defined.
