(* ===== verification/RaftSql.v ===== *)
(** * Raft from SQL

    The life of the worker, the SQL functions of [consensus/raft_integration.c], and the
    transfer of a snapshot by [raft_send_install_snapshot] of [consensus/raft.c] to the peer
    that receives it. *)
From stdpp Require Import gmap.
From S2P Require Import Prelude CText RaftLog Raft RaftCluster RaftRpc RaftTx.

Local Open Scope Z_scope.

(** ** The worker *)

Section worker.
Context (fresh : RaftLogEntry) (pad members : list Z).

Definition orochi_raft_worker_start (fuel : nat) (ck : Clock) (id pid : Z) (files : option (Z * Z)) (d : Disk)
    (s : TxState) : outcome TxState :=
  n ← restart fresh pad members fuel ck id files d;
  Ok (with_shared (raft_update_shared_state n) (with_shared (set_worker pid true true) (with_node n s))).

Definition orochi_raft_worker_stop (ck : Clock) (s : TxState) : outcome TxState :=
  let s := with_shared (λ h, set_worker 0 (is_initialized h) false h) s in
  match local_raft_node s with
  | None => Ok s
  | Some n =>
      n ← raft_stop pad ck n;
      Ok {| raft_shared_state := raft_shared_state s; local_raft_node := None;
            transaction_tracker := transaction_tracker s; has_callback := has_callback s; called := called s |}
  end.
End worker.

(** ** Leadership *)

Definition set_leadership (st : RaftState) (leader : Z) (s : RaftSharedState) : RaftSharedState :=
  {| my_node_id := my_node_id s; current_leader_id := leader; shared_term := shared_term s;
     current_state := st; cluster_size := cluster_size s; shared_quorum_size := shared_quorum_size s;
     worker_pid := worker_pid s; is_initialized := is_initialized s; is_running := is_running s;
     commands_submitted := commands_submitted s; commands_committed := commands_committed s;
     elections_held := elections_held s; pending_commands := pending_commands s;
     last_committed_index := last_committed_index s |}.

Definition orochi_raft_step_down (s : TxState) : outcome (bool * TxState) :=
  match raft_shared_state s with
  | None => Err "Raft shared state is not initialized"
  | Some h =>
      if bool_decide (current_state h = RAFT_STATE_LEADER)
      then Ok (true, with_shared (set_leadership RAFT_STATE_FOLLOWER (-1)) s) else Ok (false, s)
  end.

Definition orochi_raft_transfer_leadership (target_node_id : Z) (s : TxState) : outcome (bool * TxState) :=
  match raft_shared_state s with
  | None => Err "Raft shared state is not initialized"
  | Some h =>
      if bool_decide (current_state h = RAFT_STATE_LEADER) && negb (target_node_id =? my_node_id h)
      then Ok (true, with_shared (set_leadership RAFT_STATE_FOLLOWER target_node_id) s) else Ok (false, s)
  end.

(** ** Members and status *)

Definition orochi_raft_add_node (id : Z) (s : TxState) : outcome TxState :=
  match local_raft_node s with
  | None => Err "Raft node is not available"
  | Some n => n ← raft_add_peer n id; Ok (with_shared (raft_update_shared_state n) (with_node n s))
  end.
Definition orochi_raft_remove_node (id : Z) (s : TxState) : outcome TxState :=
  match local_raft_node s with
  | None => Err "Raft node is not available"
  | Some n => let n := raft_remove_peer n id in Ok (with_shared (raft_update_shared_state n) (with_node n s))
  end.

Definition orochi_raft_is_leader_sql : TxState → bool := orochi_raft_is_leader.
Definition orochi_raft_get_leader_sql : TxState → Z := orochi_raft_get_leader.
Definition orochi_raft_status_sql (s : TxState) : option (Z * text * Z * Z * Z) :=
  match raft_shared_state s with
  | None => None
  | Some h => Some (my_node_id h, raft_state_name (current_state h), i64 (shared_term h), current_leader_id h,
                    cluster_size h)
  end.

(** ** Reads *)

Section reads.
Context (fresh : RaftLogEntry) (pad : list Z).

(** The entries that are applied while a read waits, each at its time. *)
Fixpoint apply_entries_at (times : nat → Z) (k : nat) (es : list RaftLogEntry) (s : TxState) : outcome TxState :=
  match es with
  | [] => Ok s
  | e :: es => s ← raft_apply_entry_callback (times k) e s; apply_entries_at times (S k) es s
  end.

Definition orochi_raft_read_index_sql (ck : Clock) (times : nat → Z) (timeout_ms : option Z) (answers : Calls (Z * bool * Z))
    (leader_call : Call (option Z)) (rounds : list Round) (s : TxState) : outcome (TxState * Z) :=
  let timeout := default 5000 timeout_ms in
  match local_raft_node s, raft_shared_state s with
  | Some n, _ =>
      '(n, es, i) ← raft_read_index fresh pad ck timeout answers leader_call rounds n;
      s ← apply_entries_at times 0 es (with_node n s);
      Ok (s, i64 i)
  | None, Some h => Ok (s, i64 (last_committed_index h))
  | None, None => Ok (s, 0)
  end.

Definition orochi_raft_leader_read_index_sql (ck : Clock) (times : nat → Z) (answers : Calls (Z * bool * Z))
    (leader_call : Call (option Z)) (rounds : list Round) (s : TxState) : outcome (TxState * Z) :=
  match local_raft_node s, raft_shared_state s with
  | Some n, _ =>
      if negb (is_leader n) then Ok (s, 0) else
      '(n, es, i) ← raft_read_index fresh pad ck 5000 answers leader_call rounds n;
      s ← apply_entries_at times 0 es (with_node n s);
      Ok (s, i64 i)
  | None, Some h =>
      Ok (s, if bool_decide (current_state h = RAFT_STATE_LEADER) then i64 (last_committed_index h) else 0)
  | None, None => Ok (s, 0)
  end.

Definition orochi_raft_can_read_stale_sql (read_index : Z) (s : TxState) : bool :=
  match local_raft_node s, raft_shared_state s with
  | Some n, _ => raft_can_serve_read n (u64 read_index)
  | None, Some h => u64 read_index <=? last_committed_index h
  | None, None => false
  end.

Definition orochi_raft_follower_read_sql (ck : Clock) (max_staleness_ms : Z) (s : TxState) : bool :=
  match local_raft_node s, raft_shared_state s with
  | Some n, _ => raft_follower_read ck n max_staleness_ms
  | None, Some h => bool_decide (current_state h = RAFT_STATE_LEADER)
  | None, None => false
  end.
End reads.

(** ** Snapshots *)

Definition orochi_raft_create_snapshot_sql (ck : Clock) (data : list Z) (s : TxState) : outcome (TxState * bool) :=
  match local_raft_node s with
  | None => Err "Raft node is not available"
  | Some n =>
      let l := log n in
      if last_applied l <? first_index l then Ok (s, false) else
      '(l, d) ← raft_log_create_snapshot (time ck) l (last_applied l) (Some data) (len data) (disk n);
      Ok (with_node (set_log n l d) s, true)
  end.

(** The size that is taken is that of the bytes, whatever the size argument says. *)
Definition orochi_raft_install_snapshot_sql (ck : Clock) (n : option RaftNode) (b : SnapshotBuffer)
    (req : InstallSnapshotRequest) (callback : option (list Z → bool))
    : outcome (RaftNode * SnapshotBuffer * InstallSnapshotResponse) :=
  match n with
  | None => Err "Raft node is not available"
  | Some n =>
      raft_install_snapshot ck n b
        {| is_term := u64 (is_term req); is_leader_id := is_leader_id req;
           last_included_index := u64 (last_included_index req);
           last_included_term := u64 (last_included_term req); is_offset := is_offset req;
           is_data := is_data req; is_data_size := match is_data req with Some d => len d | None => 0 end;
           Raft.is_done := Raft.is_done req |} callback
  end.

(** ** Sending a snapshot *)

Section send.
Context {W : Type} (rpc : InstallSnapshotRequest → W → outcome (W * Call (Z * Z * bool))).

(** The parameters of the query: the bytes of the chunk, or null. *)
Definition query_params (req : InstallSnapshotRequest) : InstallSnapshotRequest :=
  {| is_term := is_term req; is_leader_id := is_leader_id req; last_included_index := last_included_index req;
     last_included_term := last_included_term req; is_offset := is_offset req;
     is_data := match is_data req with
                | Some d => if 0 <? is_data_size req then Some (take (Z.to_nat (is_data_size req)) d) else None
                | None => None
                end;
     is_data_size := is_data_size req; Raft.is_done := Raft.is_done req |}.

Definition raft_send_install_snapshot_rpc (p : RaftPeer) (req : InstallSnapshotRequest) (w : W)
    : outcome (W * InstallSnapshotResponse * bool) :=
  '(w, call) ← rpc (query_params req) w;
  Ok (w, match call with
         | Answered (t, b, ok) =>
             {| isr_term := u64 t; isr_node := peer_id p; bytes_received := i32 b; isr_success := ok |}
         | _ => {| isr_term := 0; isr_node := peer_id p; bytes_received := 0; isr_success := false |}
         end, failed_query call).

Definition chunk_request (n : RaftNode) (snap : LoadedSnapshot) (offset : Z) : InstallSnapshotRequest :=
  let this := Z.min 65536 (snap_size snap - offset) in
  {| is_term := current_term n; is_leader_id := node_id n; last_included_index := snap_index snap;
     last_included_term := snap_term snap; is_offset := offset;
     is_data := if 0 <? this then drop (Z.to_nat offset) <$> snap_data snap else None;
     is_data_size := this; Raft.is_done := snap_size snap <=? offset + this |}.

(** The loop over the chunks; the result is the offset that was reached. *)
Fixpoint send_chunks (fuel : nat) (ck : Clock) (k : nat) (snap : LoadedSnapshot) (offset : Z) (n : RaftNode) (w : W)
    : outcome (RaftNode * Z * W) :=
  match fuel with
  | O => Diverge
  | S fuel =>
      if negb ((offset <? snap_size snap) || ((offset =? 0) && (snap_size snap =? 0))) then Ok (n, offset, w) else
      match peers n !! k with
      | None => Undef
      | Some p =>
          let req := chunk_request n snap offset in
          '(w, r, inactive) ← raft_send_install_snapshot_rpc p req w;
          let n := mark inactive k n in
          if current_term n <? isr_term r then Ok (raft_become_follower ck n (isr_term r), offset, w)
          else if negb (isr_success r) then Ok (n, offset, w)
          else let offset := offset + is_data_size req in
               if snap_size snap =? 0 then Ok (n, offset, w) else send_chunks fuel ck k snap offset n w
      end
  end.

Definition set_sent (idx : Z) (p : RaftPeer) : RaftPeer :=
  {| peer_id := peer_id p; is_active := is_active p; next_index := u64 (idx + 1); match_index := idx;
     peer_granted := peer_granted p |}.

Definition raft_send_install_snapshot (fuel : nat) (ck : Clock) (k : nat) (n : RaftNode) (w : W)
    : outcome (RaftNode * bool * W) :=
  if negb (is_leader n) then Ok (n, false, w) else
  loaded ← raft_log_load_snapshot (log n) (disk n);
  match loaded with
  | None => Ok (n, false, w)
  | Some snap =>
      if bool_decide (snap_data snap = None) && (snap_size snap =? 0) && (snap_index snap =? 0)
      then Ok (n, false, w) else
      '(n, offset, w) ← send_chunks fuel ck k snap 0 n w;
      Ok (if snap_size snap <=? offset
          then (set_peers n (alter (set_sent (snap_index snap)) k (peers n)), true, w) else (n, false, w))
  end.
End send.

(** The peer at the other end: an error of its function is a failed query, and its static
    variables stay. *)
Definition deliver (clocks : Z → Clock) (callback : option (list Z → bool)) (req : InstallSnapshotRequest)
    (w : RaftNode * SnapshotBuffer) : outcome (RaftNode * SnapshotBuffer * Call (Z * Z * bool)) :=
  match orochi_raft_install_snapshot_sql (clocks (is_offset req)) (Some w.1) w.2 req callback with
  | Ok (n, b, r) => Ok (n, b, Answered (i64 (isr_term r), bytes_received r, isr_success r))
  | Err _ => Ok (w, QueryFailed)
  | Undef => Undef
  | Diverge => Diverge
  end.

(** ** Stepping down *)

Section leadership.
Context (fresh : RaftLogEntry) (pad : list Z).

Lemma callback_leadership now e st leader s :
  raft_apply_entry_callback now e (with_shared (set_leadership st leader) s) =
  (s' ← raft_apply_entry_callback now e s; Ok (with_shared (set_leadership st leader) s')).
Proof.
  unfold raft_apply_entry_callback.
  destruct s as [[h|] n t cb cl]; cbn -[status_of_command until_zero]; (destruct (command_data e) as [d|]; [|done]);
    (destruct (0 <? command_size e); [|done]); (destruct (status_of_command d); [|done..]); by destruct cb.
Qed.

Lemma apply_leadership now es st leader : ∀ s,
  apply_entries now es (with_shared (set_leadership st leader) s) =
  (s' ← apply_entries now es s; Ok (with_shared (set_leadership st leader) s')).
Proof.
  induction es as [|e es IH]; intros s; [done|]. cbn [apply_entries]. rewrite callback_leadership.
  destruct (raft_apply_entry_callback now e s); [|done..]. apply IH.
Qed.

Lemma round_leadership ck votes answers st leader s :
  is_Some (local_raft_node s) →
  orochi_raft_worker_main fresh pad ck votes answers (with_shared (set_leadership st leader) s) =
  orochi_raft_worker_main fresh pad ck votes answers s.
Proof.
  intros [n Hn]. unfold orochi_raft_worker_main. cbn [local_raft_node with_shared]. rewrite Hn.
  destruct (raft_tick fresh pad ck votes answers n) as [[n' es]| | |]; [|done..]. cbn [mbind outcome_bind].
  change (with_node n' (with_shared ?f s)) with (with_shared f (with_node n' s)). rewrite apply_leadership.
  destruct (apply_entries _ _ _) as [s'| | |]; [|done..]. cbn [mbind outcome_bind].
  unfold with_shared. cbn. by destruct (raft_shared_state s').
Qed.
End leadership.

(** Stepping down and transferring the leadership from SQL change nothing: the worker
    does in its next round what it would have done anyway, and ends in the same state, for it
    reads nothing of the shared state and writes its own over it. *)
Theorem step_down_is_undone fresh pad ck votes answers target s s' b :
  is_Some (local_raft_node s) →
  orochi_raft_step_down s = Ok (b, s') ∨ orochi_raft_transfer_leadership target s = Ok (b, s') →
  orochi_raft_worker_main fresh pad ck votes answers s' = orochi_raft_worker_main fresh pad ck votes answers s.
Proof.
  intros Hn [E|E]; revert E; unfold orochi_raft_step_down, orochi_raft_transfer_leadership;
    (destruct (raft_shared_state s); [|done]); case_match; intros [= _ <-]; (done || by apply round_leadership).
Qed.

Lemma step_down_is_undone_witness :
  orochi_raft_step_down sole_state =
    Ok (true, with_shared (set_leadership RAFT_STATE_FOLLOWER (-1)) sole_state) ∧
  orochi_raft_worker_main zero_entry zero_pad clock0 no_votes no_calls
    (with_shared (set_leadership RAFT_STATE_FOLLOWER (-1)) sole_state) =
  orochi_raft_worker_main zero_entry zero_pad clock0 no_votes no_calls sole_state.
Proof.
  split; [reflexivity|]. apply (step_down_is_undone zero_entry zero_pad clock0 no_votes no_calls 0 sole_state _ true).
  - by eexists.
  - by left.
Defined.

(** In a backend the index of the leader is the one the worker wrote last, and no peer is asked
    whether the node still leads. *)
Lemma backend_reads_unconfirmed fresh pad ck times answers call rounds s h :
  local_raft_node s = None → raft_shared_state s = Some h → current_state h = RAFT_STATE_LEADER →
  orochi_raft_leader_read_index_sql fresh pad ck times answers call rounds s = Ok (s, i64 (last_committed_index h)).
Proof. intros Hn Hh Hl. unfold orochi_raft_leader_read_index_sql. by rewrite Hn, Hh, bool_decide_eq_true_2. Qed.

(** ** The transfer of a snapshot *)

Section transfer.
Context (clocks : Z → Clock).

(** What a chunk that is not the last one leaves alone at the follower. *)
Record took (term : Z) (f f' : RaftNode) : Prop := {
  took_log : log f' = log f; took_disk : disk f' = disk f; took_term : current_term f' = term }.

(** The bytes that are kept when a chunk arrives. *)
Definition kept (b : SnapshotBuffer) (offset : Z) : SnapshotBuffer := if offset =? 0 then empty_buffer else b.

Lemma install_chunk ck f b req d :
  current_term f <= is_term req → is_data req = Some d → is_data_size req = len d → d ≠ [] →
  let b0 := kept b (is_offset req) in
  is_offset req = len (received b0) → len (received b0) + len d < MaxAllocSize - 65536 →
  ∃ f1 b1 r, received b1 = received b0 ++ d ∧ took (is_term req) f f1 ∧ isr_term r = is_term req ∧ isr_success r = true ∧
    raft_install_snapshot ck f b req None =
      (if Raft.is_done req then f2 ← apply_snapshot ck f1 req b1 None; Ok (f2, empty_buffer, r) else Ok (f1, b1, r)).
Proof.
  intros Ht Hd Hs Hne b0 Ho Hlen. unfold raft_install_snapshot. rewrite (proj2 (Z.ltb_ge _ _)) by lia. cbn zeta.
  set (f1 := set_leader _ _).
  assert (Hf : took (is_term req) f f1).
  { subst f1. destruct (Z.ltb_spec (current_term f) (is_term req)); split; try done. cbn. lia. }
  fold (kept b (is_offset req)). fold b0. rewrite (proj2 (Z.eqb_eq _ _) Ho), Hd, Hs. cbn [negb].
  assert (Hpos : 0 < len d) by (destruct d; [done|cbn; lia]). rewrite (proj2 (Z.ltb_lt 0 _)) by done.
  assert (Hr : ∃ b1, receive_chunk b0 d (len d) = Ok b1 ∧ received b1 = received b0 ++ d).
  { unfold receive_chunk. change MaxAllocSize with (2 ^ 30 - 1) in *.
    unfold INT32_MAX. rewrite (proj2 (Z.ltb_ge _ (len (received b0) + len d))) by lia.
    set (new := len (received b0) + len d) in *.
    pose proof (Z.quot_rem' new 65536). pose proof (Z.rem_bound_pos new 65536).
    rewrite (swrap_id 32 ((Z.quot new 65536 + 1) * 65536)) by (unfold in_i; lia).
    rewrite (proj2 (Z.ltb_ge (2 ^ 30 - 1) _)), (proj2 (Z.ltb_ge _ 0)), andb_false_r, Z.ltb_irrefl by lia.
    eexists. split; [done|]. cbn [received]. by rewrite Nat2Z.id, firstn_all. }
  destruct Hr as (b1 & Hr & Hb1). rewrite Hr. cbn [mbind outcome_bind].
  eexists f1, b1, _. split; [exact Hb1|]. split; [exact Hf|]. split; [|split; [|reflexivity]]; [apply Hf|]. done.
Qed.

(** What the last chunk does to the follower. *)
Record installed (idx t : Z) (data : list Z) (f f' : RaftNode) : Prop := {
  installed_enabled : persistence_enabled (log f') = persistence_enabled (log f);
  installed_commit : idx <= commit_index (log f');
  installed_applied : idx <= last_applied (log f');
  installed_file : ∃ now, snapshots (disk f') =
    <[idx := le_enc 8 idx ++ le_enc 8 t ++ le_enc 4 (len data) ++ le_enc 8 now ++ data]> (snapshots (disk f)) }.

Lemma apply_installs ck f req b :
  wf (log f) → persistence_enabled (log f) = true → is_u64 (last_included_index req) →
  ∃ f', apply_snapshot ck f req b None = Ok f' ∧
        installed (last_included_index req) (last_included_term req) (received b) f f'.
Proof.
  intros Hwf Hp Hi. unfold apply_snapshot. cbn [negb].
  destruct (compact_ok (log f) (last_included_index req) Hwf Hi) as (l & -> & _ & _ & Hpl).
  cbn [mbind outcome_bind]. rewrite Hp. eexists. split; [done|].
  split; cbn [log set_log persistence_enabled with_commit commit_index last_applied disk snapshots].
  - by rewrite Hpl.
  - destruct (Z.ltb_spec (commit_index l) (last_included_index req)); lia.
  - destruct (Z.ltb_spec (last_applied l) (last_included_index req)); lia.
  - by eexists.
Qed.

Section chunks.
Context (snap : LoadedSnapshot) (data : list Z) (ck : Clock) (k : nat) (n : RaftNode) (p : RaftPeer).
Hypothesis Hdata : snap_data snap = Some data.
Hypothesis Hsize : snap_size snap = len data.
Hypothesis Hfits : len data < MaxAllocSize - 65536.
Hypothesis Hindex : 0 < snap_index snap < 2 ^ 63.
Hypothesis Hsterm : is_u64 (snap_term snap).
Hypothesis Hterm : 0 <= current_term n < 2 ^ 63.
Hypothesis Hpeer : peers n !! k = Some p.

(** The chunk at an offset, as the follower gets it. *)
Lemma chunk_data offset :
  0 <= offset < len data →
  ∃ d, is_data (query_params (chunk_request n snap offset)) = Some d ∧
    d = take (Z.to_nat (Z.min 65536 (len data - offset))) (drop (Z.to_nat offset) data) ∧
    len d = Z.min 65536 (len data - offset) ∧
    take (Z.to_nat offset) data ++ d = take (Z.to_nat (offset + len d)) data.
Proof.
  intros Ho. unfold query_params, chunk_request. cbn [is_data is_data_size]. rewrite Hdata, Hsize. cbn [fmap option_fmap option_map].
  rewrite (proj2 (Z.ltb_lt 0 _)) by lia. cbn [fmap option_fmap option_map]. eexists. split; [done|]. split; [done|].
  assert (Hl : len (take (Z.to_nat (Z.min 65536 (len data - offset))) (drop (Z.to_nat offset) data)) =
    Z.min 65536 (len data - offset)) by (rewrite length_take, length_drop; lia).
  split; [done|]. rewrite Hl, take_take_drop. f_equal. lia.
Qed.

Lemma send_chunks_delivers fuel : ∀ offset f b,
  0 <= offset < len data → (Z.to_nat (len data - offset) < fuel)%nat →
  offset = 0 ∨ received b = take (Z.to_nat offset) data →
  current_term f <= current_term n → wf (log f) → persistence_enabled (log f) = true →
  ∃ f', send_chunks (deliver clocks None) fuel ck k snap offset n (f, b) = Ok (n, len data, (f', empty_buffer)) ∧
        installed (snap_index snap) (snap_term snap) data f f'.
Proof.
  induction fuel as [|fuel IH]; intros offset f b Ho Hf Hb Ht Hwf Hp; [lia|]. cbn [send_chunks].
  rewrite Hsize, (proj2 (Z.ltb_lt offset _)), Hpeer by lia. cbn [orb negb].
  destruct (chunk_data offset Ho) as (d & Hd & _ & Hlen & Htake).
  assert (Hkept : received (kept b offset) = take (Z.to_nat offset) data).
  { unfold kept. destruct (Z.eqb_spec offset 0) as [->|]; [done|]. by destruct Hb. }
  unfold raft_send_install_snapshot_rpc, deliver, orochi_raft_install_snapshot_sql.
  set (req := {| is_term := _; is_leader_id := _; is_offset := _ |}). cbn [fst snd].
  assert (Hreq : is_term req = current_term n ∧ is_data req = Some d ∧ is_data_size req = len d ∧
    is_offset req = offset ∧ last_included_index req = snap_index snap ∧ last_included_term req = snap_term snap ∧
    Raft.is_done req = (len data <=? offset + len d)).
  { subst req. cbn [is_term is_data is_data_size is_offset Raft.is_done last_included_index last_included_term].
    rewrite Hd, Hlen. cbn [query_params chunk_request is_term is_offset Raft.is_done last_included_index last_included_term].
    rewrite Hsize, !uwrap_id by (unfold in_u in *; lia). done. }
  destruct Hreq as (R1 & R2 & R3 & R4 & R5 & R6 & R7). clearbody req.
  destruct (install_chunk (clocks (is_offset (query_params (chunk_request n snap offset)))) f b req d)
    as (f1 & b1 & r & Hb1 & Htook & Hrt & Hrs & ->);
    [lia|done|done|intros ->; cbn in Hlen; lia|by rewrite R4, Hkept, length_take; lia| |].
  { rewrite R4, Hkept, length_take. lia. }
  rewrite R4, Hkept, Htake in Hb1.
  assert (Hback : u64 (i64 (isr_term r)) = current_term n).
  { rewrite uwrap_swrap, Hrt, R1, uwrap_id by (unfold in_u; lia). done. }
  assert (Hthis : is_data_size (chunk_request n snap offset) = len d).
  { unfold chunk_request. cbn [is_data_size]. by rewrite Hsize. }
  assert (Hnz : len data =? 0 = false) by (apply Z.eqb_neq; lia).
  rewrite R7. destruct (Z.leb_spec (len data) (offset + len d)) as [Hdone|Hmore].
  - destruct (apply_installs (clocks (is_offset (query_params (chunk_request n snap offset)))) f1 req b1)
      as (f2 & -> & Hinst); [by rewrite (took_log _ _ _ Htook)..|rewrite R5; unfold in_u; lia|].
    cbn [mbind outcome_bind failed_query isr_term isr_success]. rewrite Hback, Hrs, Z.ltb_irrefl, Hthis, Hnz.
    cbn [negb]. exists f2. replace (offset + len d) with (len data) by lia. split.
    + destruct fuel as [|fuel]; [lia|]. cbn [send_chunks]. by rewrite Hsize, Z.ltb_irrefl, Hnz, andb_false_r.
    + rewrite R5, R6, Hb1, firstn_all2 in Hinst by lia. destruct Hinst as [I1 I2 I3 I4], Htook as [T1 T2 T3].
      rewrite T1 in I1. rewrite T2 in I4. by split.
  - cbn [mbind outcome_bind failed_query isr_term isr_success]. rewrite Hback, Hrs, Z.ltb_irrefl, Hthis, Hnz.
    cbn [negb mark]. destruct Htook as [T1 T2 T3].
    destruct (IH (offset + len d) f1 b1) as (f' & E & [I1 I2 I3 I4]);
      [lia|lia|by right|lia|by rewrite T1|by rewrite T1|].
    exists f'. split; [exact E|]. rewrite T1 in I1. rewrite T2 in I4. by split.
Qed.
End chunks.
End transfer.

(** A snapshot that a leader sends is the one that the follower has: with enough fuel for
    its chunks, the transfer succeeds, the follower loads from its files the index, the term and
    the bytes that the leader loaded from its own, it takes the entries up to the index as
    committed and applied, and the leader sends the entries behind the index next. *)
Theorem snapshot_transfer_roundtrip clocks fuel ck k n p f b snap data :
  is_leader n = true → raft_log_load_snapshot (log n) (disk n) = Ok (Some snap) → snap_data snap = Some data →
  len data = snap_size snap → 0 < len data < MaxAllocSize - 65536 → (length data < fuel)%nat →
  0 < snap_index snap < 2 ^ 63 → is_u64 (snap_term snap) → 0 <= current_term n < 2 ^ 63 → peers n !! k = Some p →
  current_term f <= current_term n → wf (log f) → persistence_enabled (log f) = true →
  (∀ j bytes, snapshots (disk f) !! j = Some bytes → j <= snap_index snap) →
  ∃ n' f', raft_send_install_snapshot (deliver clocks None) fuel ck k n (f, b) = Ok (n', true, (f', empty_buffer)) ∧
    raft_log_load_snapshot (log f') (disk f') = Ok (Some snap) ∧
    snap_index snap <= commit_index (log f') ∧ snap_index snap <= last_applied (log f') ∧
    next_index <$> peers n' !! k = Some (snap_index snap + 1).
Proof.
  intros Hl Hload Hd Hs Hfits Hfuel Hi Hst Ht Hp Hft Hwf Hpf Hmax. symmetry in Hs.
  destruct (send_chunks_delivers clocks snap data ck k n p Hd Hs ltac:(lia) Hi Hst Ht Hp fuel 0 f b)
    as (f' & E & [I1 I2 I3 [now I4]]); [lia|lia|by left|done|done|done|].
  unfold raft_send_install_snapshot. rewrite Hl, Hload. cbn [negb mbind outcome_bind].
  rewrite bool_decide_eq_false_2 by (by rewrite Hd). cbn [andb]. rewrite E. cbn [mbind outcome_bind].
  rewrite Hs, Z.leb_refl. eexists _, f'. split; [done|]. split.
  { rewrite (load_latest now (snap_index snap) (snap_term snap) (log f') data (disk f')).
    - destruct snap as [i t z d], data; cbn in *; subst; [lia|done].
    - by rewrite I1.
    - done.
    - done.
    - lia.
    - rewrite I4. intros j bytes [[<- _]|[_ Hj]]%lookup_insert_Some; [lia|by eapply Hmax].
    - rewrite I4. apply lookup_insert_eq. }
  split; [done|]. split; [done|]. cbn [peers set_peers]. rewrite list_lookup_alter_eq, Hp. cbn.
  by rewrite uwrap_id by (unfold in_u; lia).
Qed.

(** The file a leader has after [raft_create_snapshot] of three bytes. *)
Definition snapshot_source : RaftNode :=
  set_log sql_leader (log sql_leader)
    {| wal := ∅; snapshots := {[2 := le_enc 8 2 ++ le_enc 8 3 ++ le_enc 4 3 ++ le_enc 8 0 ++ [7; 8; 9]]} |}.

Lemma snapshot_transfer_roundtrip_witness :
  ∃ n' f', raft_send_install_snapshot (deliver (λ _, clock0) None) 4 clock0 0 snapshot_source (sql_follower, empty_buffer) =
      Ok (n', true, (f', empty_buffer)) ∧
    raft_log_load_snapshot (log f') (disk f') =
      Ok (Some {| snap_index := 2; snap_term := 3; snap_size := 3; snap_data := Some [7; 8; 9] |}) ∧
    2 <= commit_index (log f') ∧ 2 <= last_applied (log f') ∧ next_index <$> peers n' !! 0%nat = Some 3.
Proof.
  apply (snapshot_transfer_roundtrip (λ _, clock0) 4 clock0 0 snapshot_source
           (default (leader_peer 0 {| peer_id := 0; is_active := true; next_index := 0; match_index := 0; peer_granted := false |})
              (peers snapshot_source !! 0%nat)) sql_follower empty_buffer
           {| snap_index := 2; snap_term := 3; snap_size := 3; snap_data := Some [7; 8; 9] |} [7; 8; 9]).
  - reflexivity.
  - vm_compute. reflexivity.
  - reflexivity.
  - reflexivity.
  - by decide_now.
  - by decide_now.
  - by decide_now.
  - by decide_now.
  - by decide_now.
  - reflexivity.
  - by decide_now.
  - apply follower_log_wf.
  - reflexivity.
  - intros j bytes Hj. vm_compute in Hj. discriminate.
Defined.

(** An empty snapshot counts as sent, even when the peer could not be reached. *)
Lemma empty_snapshot_counts_as_sent {W} (rpc : InstallSnapshotRequest → W → outcome (W * Call (Z * Z * bool)))
    fuel ck k n p snap w w' call :
  is_leader n = true → raft_log_load_snapshot (log n) (disk n) = Ok (Some snap) → snap_size snap = 0 →
  snap_index snap ≠ 0 → peers n !! k = Some p → (0 < fuel)%nat →
  rpc (query_params (chunk_request n snap 0)) w = Ok (w', call) → call = NoConnection ∨ call = QueryFailed →
  0 <= current_term n →
  ∃ n', raft_send_install_snapshot rpc fuel ck k n w = Ok (n', true, w') ∧
        match_index <$> peers n' !! k = Some (snap_index snap).
Proof.
  intros Hl Hload Hs Hi Hp Hf Hr Hc Ht. unfold raft_send_install_snapshot. rewrite Hl, Hload. cbn [negb mbind outcome_bind].
  rewrite Hs, (proj2 (Z.eqb_neq _ _) Hi), andb_false_r. destruct fuel as [|fuel]; [lia|]. cbn [send_chunks].
  rewrite Hs, Hp. cbn [Z.ltb Z.eqb orb andb negb Z.compare]. unfold raft_send_install_snapshot_rpc. rewrite Hr.
  cbn [mbind outcome_bind]. destruct Hc as [-> | ->]; cbn [failed_query isr_term isr_success negb mark current_term set_peers].
  - rewrite (proj2 (Z.ltb_ge _ _)) by done. eexists. split; [done|]. cbn [peers set_peers].
    by rewrite list_lookup_alter_eq, Hp.
  - rewrite (proj2 (Z.ltb_ge _ _)) by done. eexists. split; [done|]. cbn [peers set_peers].
    by rewrite !list_lookup_alter_eq, Hp.
Qed.
